(* ===== verification/_CoqProject ===== *)
-Q . S2P
Prelude.v
GoStrings.v
EthCommon.v
HexUtil.v
Rlp.v
MissingRanges.v
OpDeposits.v
AbiString.v
Balances.v
BalanceWorker.v
BalanceRereads.v
EpochGate.v
NodeLookup.v
SqlOrder.v
Feeds.v
Collector.v
Catchup.v
Reorg.v
StartMode.v
Prefetch.v
StandardRetry.v
CallTrace.v
BuildBlock.v
Receipts.v
BlockWrite.v
BlockStats.v
Tally.v
Ledger.v
StatsBackfill.v
BackfillProps.v
BackfillRun.v
BackfillStart.v
Session.v
CacheReconcile.v
Reseed.v
ReseedProps.v
ChainChecks.v
ChainChecksProps.v
EventBus.v
RunningCheck.v
RunningCheckProps.v
PrunedReads.v
ApiMap.v
NodeMap.v
ContractsRule.v
ContractsBackfill.v
ContractsBackfillProps.v
AddressTruth.v
AddressRebase.v
AddressRebaseSpec.v
AddressRebaseRun.v
AddressRebaseProps.v
AddressRebaseSpans.v
AddressRebaseDone.v
RunningRepair.v
RunningRepairProps.v
DailyFold.v
DailyFoldProps.v
DailyFoldEnv.v
DailyFoldStep.v
DailyFoldRun.v
DailyFoldDone.v
Throttle.v
RpcBatch.v
RefillWrite.v
RefillWriteProps.v
RefillRecount.v
RefillDays.v
DailyRefill.v
RefillTruth.v
RefillRun.v
RefillExact.v
Retention.v
RetentionSafe.v
RetentionProps.v
Wipe.v
WipeProps.v
Config.v
