(* ===== verification/Prelude.v ===== *)
(** * Verification of ops-indexer

    The indexer follows an EVM chain (OP Stack chains too) through the JSON-RPC of a node,
    stores its blocks in PostgreSQL and serves them over gRPC. This library translates its
    Go code, function by function, into Rocq definitions that run, and proves what the code
    has to guarantee: no block is lost or counted twice, a reorganisation leaves no trace,
    pruned history keeps its totals, and what is served is what the chain holds, whatever
    the node answers, whichever statement fails and whoever writes at the same time.

    ** The program and how its parts work together

    [cmd/indexer] reads the configuration, migrates and reconciles the database, and starts
    the indexer and the server. [internal/indexer] asks the node for the head, fetches
    blocks, receipts and traces, makes rows of them and commits them; beside the head loop
    run the scanners of missing blocks, catch-up, the balance workers and the background
    jobs (backfills, refills, recounts, checks). [internal/db] holds every statement: the
    transaction that writes or reverts a block with all the counters it moves, the record of
    missing blocks, balances, daily statistics, the ledger of closed spans, retention.
    [internal/grpcserver] answers from the database, and for pruned blocks from the node
    through [internal/nodelookup]. The components share the database: where one runs
    statement by statement, the model puts the steps of the others between any two of its
    statements.

    ** How the models are written

    A pure Go function is a function. An error result is [res] or [option], a panic is
    [outcome]. A uint64 is a [Z] with its wrap-around written out ([u64], [i64]); hashes,
    addresses and texts are byte strings ([gostring]). Tables are finite maps and sets, or
    lists where order and duplicates matter. A transaction that holds its locks to the end
    is one step of the tables it touches. A call of several statements is a program of the
    monad of [Session] (or of a variant of it in [Retention], [AddressRebase], [DailyFold],
    [Wipe], [DailyRefill]): before each statement an arbitrary number of steps of the other
    sessions runs ([env], constrained by a step relation), and each statement is done,
    fails, or is done with its answer lost ([out]). Theorems quantify over all of it. State
    machines of goroutines are step relations with an invariant ([Catchup], [EpochGate],
    [Throttle], [PrunedReads]). Code outside the repository is an argument: Keccak-256 is
    the class [Keccak], viper and pgxpool are arguments of [Config], the node and the
    database server answer through records of functions. Interfaces of the Go code are
    classes ([GapStore] of the scanners, [Semi] and [Tally] of totals) with an instance for
    the implementation.

    ** Files

    Foundations. This file: outcomes, machine integers, lemmas on lists, maps and numbers,
    the tactics and hint databases. [GoStrings]: the parts of strings, hex, strconv and
    big.Int in use. [SqlOrder]: ordered, limited queries and paging by a row-value bound.
    [Session]: calls made of statements and their Hoare rules. [Tally]: totals added up in
    any order.

    Encodings. [EthCommon] is pkg/eth/common and pkg/eth/crypto; [HexUtil] is
    pkg/eth/hexutil; [Rlp] is pkg/eth/rlp, with a reference decoder; [AbiString] the answers
    of contract calls in internal/rpc; [RpcBatch] is pkg/eth/rpclient/batch.go; [Config] is
    internal/config.

    From the node to rows. [Receipts]: FetchReceiptsBatch and the call budget of
    internal/rpc/rpc.go. [CallTrace]: internal/rpc/trace.go and internal_creations.go.
    [BuildBlock]: buildBlock of indexer.go and what it calls. [OpDeposits]:
    internal/opdeposits and op_deposits.go.

    Which blocks are indexed. [MissingRanges] is missing_ranges.go; [Collector] the scanners
    of missing_range_collector.go; [Catchup] catchup.go; [StandardRetry]
    standard_missing_retry.go; [Prefetch] the head loops (prefetch.go, receipt_skip.go,
    standardTick, realtime.go); [Reorg] detectReorg, handleReorg and checkStoredHead;
    [StartMode] Start of indexer.go; [Throttle] dailyStatsThrottle.

    Writing and reverting. [BlockWrite]: batch.go, InsertBlock and DeleteBlock of queries.go
    and the revert files; [BlockStats]: address_stats against a recount. [Balances]: the
    flush and the revert of balances; [BalanceWorker]: balance_worker.go;
    [BalanceRereads] and [EpochGate]: balance_rereads.go, the claims and the gate that keeps
    the reorg epoch of new work right.

    Starting over. [Wipe], [WipeProps]: WipeAllData and ResumeInterruptedWipe, stopped
    anywhere. [Reseed], [ReseedProps]: reseedCounters of db.go on a half-pruned database.
    [CacheReconcile]: reconcileTokenBalancesCurrent and ReseedHolderCounts.

    Pruned history. [Retention], [RetentionSafe], [RetentionProps]: retention.go and
    archive.go with their SQL functions. [Ledger]: span_totals.go, span_counter.go,
    node_recount.go. [RunningCheck], [RunningCheckProps]: the transaction of a running repair
    in verify.go; [RunningRepair], [RunningRepairProps]: CheckRunning whole, with the
    addresses it rebases. [AddressTruth], [AddressRebase] and the five files after it:
    address_rebase.go, address_repair.go and the rebase of closed spans. [StatsBackfill],
    [BackfillProps], [BackfillRun], [BackfillStart]: stats_backfill.go and backfill.go.
    [ContractsRule], [ContractsBackfill], [ContractsBackfillProps]: contracts_backfill.go of
    both packages.

    Daily statistics. [DailyFold] and the five files after it: daily_fold.go and the
    watermark. [RefillWrite], [RefillWriteProps], [RefillRecount], [RefillDays]: what a
    refill writes (internal/db/daily_refill.go); [DailyRefill], [RefillTruth], [RefillRun],
    [RefillExact]: how it counts (internal/indexer/daily_refill.go).

    Serving and watching. [Feeds]: the cursor feeds of internal/grpcserver and their
    queries. [PrunedReads]: reads beside pruning and the fallback to the node. [NodeLookup]:
    the cache of internal/nodelookup; [NodeMap]: its map.go. [ApiMap]: mappers.go.
    [ChainChecks], [ChainChecksProps]: chain_checks.go of both packages. [EventBus]:
    internal/events.

    ** What the theorems show

    Counters. [address_stats_exact], [counters_exact], [supply_exact], [holder_count_exact]
    and [buildBlock_counts_rows]: after any history of blocks written, replayed and
    reverted, each incremental counter equals a recount of the stored rows (for
    address_stats no block shares a transaction with a stored one, see
    [shared_tx_overcounts]). [reseed_counts_chain] and [restart_repairs_balances]: a start
    makes them so from any state. [running_check_repairs], [rebase_settles] and
    [span_rebase_settles]: the repairs of live counters leave them at the truth of the
    ledger while blocks, reverts, span closes and other repairs commit between their
    statements, but for address rows a revert removes or a settlement moves under them.
    [backfill_counts_once]: blocks below START_BLOCK are counted once through failures and
    restarts.

    Completeness. [realtime_leaves_no_hole], [collector_accounts], [catchup_never_drops],
    [retryMissing_fills], [deposits_complete]: a block not stored is on record or in flight
    until it is, or lies below the prune watermark; what another loop's mark or a revert
    takes out of the record is the stated exception (see [catchup_overlap_drops]).
    [indexPipelined_refines]: the pipelined loop does what the sequential one does.
    [standardTick_never_builds_on_stale], [handleReorg_leaves_prefix],
    [start_on_compared_chain], [interrupted_wipe_finishes]: what is stored follows the
    node's chain, once the stored head was read and compared. [receipts_of_a_block] and
    [internalCreations_are_the_live_ones]: a block gets all its receipts and contracts, or
    fails, or panics on a null receipt.

    Balances. [flush_fences_forks], [stamps_follow_reverts], [reverted_balances_reread]: no
    balance read on a reverted fork survives, and each reverted one is read again or given
    up after twenty claims.

    Pruning. [retention_conserves], [prune_only_final]: only final history that the ledger
    holds is dropped. [pruned_reads_sound], [lookup_sound], [pruned_block_reads_same]: reads
    beside pruning answer from one state, and a pruned block reads as it did.

    Days. [daily_fold_accounts], [every_day_recomputed], [refill_exact],
    [refilled_days_consistent]: each day's sums are the count of its blocks or known to be
    due; the distinct addresses of a day are counted by a refill and can be counted twice by
    the fold ([active_counted_twice]).

    The rest. [rlp_roundtrip], [parseStringResult_panics_iff], [load_wellformed],
    [address_feed_complete], [contracts_backfill_accounts], [chain_checks_reach_all],
    [bus_never_panics].

    A theorem with hypotheses is followed by a witness that applies it to a concrete run.
    Examples ([..._panics], [..._hides_...] and the like) show behaviour of the code that
    its comments do not say.

    ** Fuel and bounds

    Loops that are not structural recurse on fuel and answer None without it. The theorems
    on them give a fuel from the inputs and prove the loop ends within it: the scanners and
    the batch loops by the width of the range, [handleReorg] by the height, the feeds by the
    number of rows, [span_loop] by the width of the span, the refill's search by the
    logarithm of the head. Where the code waits for the node or a lock without limit
    ([checkStoredHead], timers) the model takes the finite sequence of answers it got.
    Sums near 2^64 wrap as in Go; theorems that need block numbers far from it say so.

    ** Not modelled

    In [Retention] a statement is done, fails or runs out of its wait; one that is done with
    its answer lost is not a case there. In [DailyFoldEnv] the others
    delete blocks so that the watermark is none or a stored block, and do not prune. The
    rows of chain and token counters neither appear nor go during a running check.

    Logging, metrics and the test proxies: no result depends on them. The transport of
    JSON-RPC and gRPC, protobuf and JSON decoding by the standard library: the answers are
    arguments. limited_rpc.go, gas/tracker.go, chaininfo and the handlers that pass one
    query on: they hold no state the theorems are about. RunVerify, RecountRetainedSpan and
    the closing of spans are calls of SQL functions of the migrations; what a closed span
    holds is a hypothesis of its readers, checked against the node by [Ledger]. Background
    index builds change how fast a query is and not what it answers. Timers and tickers are
    the sequence of calls they make. *)

From Stdlib Require Export Strings.Byte Strings.String ZArith Lia.
From stdpp Require Export base tactics numbers list gmap sets strings sorting.

Open Scope Z_scope.

(** ** Outcomes

    A Go function that returns [(T, error)] is a function into [res E T]; one
    that can also panic (an index or slice bound out of range) is a function
    into [outcome T]. *)

Inductive res (E A : Type) : Type :=
| Ok (a : A)
| Err (e : E).
Arguments Ok {E A} a.
Arguments Err {E A} e.

Inductive outcome (A : Type) : Type :=
| Val (a : A)
| Panic.
Arguments Val {A} a.
Arguments Panic {A}.

#[export] Instance res_eq_dec {E A} `{EqDecision E} `{EqDecision A} : EqDecision (res E A).
Proof. solve_decision. Defined.
#[export] Instance outcome_eq_dec {A} `{EqDecision A} : EqDecision (outcome A).
Proof. solve_decision. Defined.

Definition res_bind {E A B} (m : res E A) (f : A → res E B) : res E B :=
  match m with Ok a => f a | Err e => Err e end.
Definition outcome_bind {A B} (m : outcome A) (f : A → outcome B) : outcome B :=
  match m with Val a => f a | Panic => Panic end.

Declare Scope go_scope.
Delimit Scope go_scope with go.
Open Scope go_scope.
Notation "'try' x := m 'in' k" := (res_bind m (λ x, k))
  (at level 10, x pattern, m at level 100, k at level 200) : go_scope.
Notation "'must' x := m 'in' k" := (outcome_bind m (λ x, k))
  (at level 10, x pattern, m at level 100, k at level 200) : go_scope.

(** ** Machine integers

    A Go [uint64] is a [Z] in [0 .. 2^64); every operation that can leave the
    range is written with its wrap-around, [u64]. *)

Notation W64 := 18446744073709551616 (only parsing).
Notation H64 := 9223372036854775808 (only parsing).

Definition is_u64 (z : Z) : Prop := 0 ≤ z < W64.
Definition u64 (z : Z) : Z := z mod W64.
Definition i64 (z : Z) : Z := (z + H64) mod W64 - H64.
Definition u32 (z : Z) : Z := z mod 2 ^ 32.

Notation "a +₆₄ b" := (u64 (a + b)) (at level 50, left associativity) : go_scope.
Notation "a -₆₄ b" := (u64 (a - b)) (at level 50, left associativity) : go_scope.

Lemma u64_small z : is_u64 z → u64 z = z.
Proof. intros; unfold u64; apply Z.mod_small; done. Qed.

Lemma u64_range z : is_u64 (u64 z).
Proof. unfold is_u64, u64; apply Z.mod_pos_bound; lia. Qed.

Lemma i64_small z : - H64 ≤ z < H64 → i64 z = z.
Proof. intros; unfold i64; rewrite Z.mod_small; lia. Qed.

Lemma u64_add_wrap a b : is_u64 a → is_u64 b → W64 ≤ a + b → a +₆₄ b = a + b - W64.
Proof.
  unfold is_u64, u64; intros. symmetry. apply Z.mod_unique with 1; lia.
Qed.

(** [u64_lia] closes arithmetic goals with wrap-arounds that do not happen. *)
Ltac u64_simpl :=
  repeat match goal with
  | |- context [u64 ?z] => rewrite (u64_small z) by (unfold is_u64 in *; lia)
  | H : context [u64 ?z] |- _ => rewrite (u64_small z) in H by (unfold is_u64 in *; lia)
  end.
Ltac u64_lia := unfold is_u64 in *; u64_simpl; lia.

(** ** Bytes and strings

    Go's [string] and [[]byte] are both lists of bytes; ["0x"] is written
    [$"0x"]. *)

Notation gostring := (list byte).
Notation "$ s" := (list_byte_of_string s%string) (at level 0, s at level 0) : go_scope.

#[export] Instance byte_eq_decision : EqDecision byte := byte_eq_dec.
#[export] Program Instance byte_countable : Countable byte :=
  inj_countable Byte.to_N Byte.of_N _.
Next Obligation. apply Byte.of_to_N. Qed.

Definition byte_Z (b : byte) : Z := Z.of_N (Byte.to_N b).
(** Go's conversion [byte(z)]: the low eight bits. *)
Definition Z_byte (z : Z) : byte :=
  match Byte.of_N (Z.to_N (z mod 256)) with Some b => b | None => x00 end.

Lemma byte_Z_range b : 0 ≤ byte_Z b < 256.
Proof. unfold byte_Z. pose proof (Byte.to_N_bounded b). lia. Qed.

Lemma Z_byte_Z b : Z_byte (byte_Z b) = b.
Proof.
  unfold Z_byte. rewrite Z.mod_small by apply byte_Z_range.
  unfold byte_Z. by rewrite N2Z.id, Byte.of_to_N.
Qed.

Lemma byte_Z_byte z : byte_Z (Z_byte z) = z mod 256.
Proof.
  unfold Z_byte, byte_Z. pose proof (Z.mod_pos_bound z 256 ltac:(lia)).
  destruct (Byte.of_N _) as [b|] eqn:E.
  - apply Byte.to_of_N in E. lia.
  - apply Byte.of_N_None_iff in E. lia.
Qed.

Lemma byte_Z_inj a b : byte_Z a = byte_Z b → a = b.
Proof. intros H. by rewrite <-(Z_byte_Z a), <-(Z_byte_Z b), H. Qed.

Lemma byte_Z_of_small z : 0 ≤ z < 256 → byte_Z (Z_byte z) = z.
Proof. intros. rewrite byte_Z_byte. by apply Z.mod_small. Qed.

(** A decidable property of one byte is settled by trying all 256. *)
Definition all_bytes : list byte := Z_byte <$> seqZ 0 256.

Lemma all_bytes_spec b : b ∈ all_bytes.
Proof.
  unfold all_bytes. apply list_elem_of_fmap. exists (byte_Z b).
  rewrite elem_of_seqZ, Z_byte_Z. pose proof (byte_Z_range b). split; [done|lia].
Qed.

Lemma forall_bytes (f : byte → bool) : forallb f all_bytes = true → ∀ b, f b = true.
Proof.
  intros H b. rewrite forallb_forall in H. apply H, list_elem_of_In, all_bytes_spec.
Qed.

(** Big-endian reading of a byte string: [new(big.Int).SetBytes]. *)
Definition be_Z (bs : gostring) : Z := foldl (λ acc b, acc * 256 + byte_Z b) 0 bs.

Lemma be_Z_app_acc bs acc :
  foldl (λ acc b, acc * 256 + byte_Z b) acc bs = acc * 256 ^ Z.of_nat (length bs) + be_Z bs.
Proof.
  unfold be_Z. revert acc. induction bs as [|b bs IH]; intros acc; cbn [foldl length].
  - change (256 ^ Z.of_nat 0) with 1. lia.
  - rewrite IH, (IH (0 * 256 + byte_Z b)).
    rewrite Nat2Z.inj_succ, Z.pow_succ_r by lia. ring.
Qed.

Lemma be_Z_cons b bs : be_Z (b :: bs) = byte_Z b * 256 ^ Z.of_nat (length bs) + be_Z bs.
Proof. unfold be_Z at 1. cbn [foldl]. rewrite be_Z_app_acc. ring. Qed.

Lemma be_Z_app l1 l2 : be_Z (l1 ++ l2) = be_Z l1 * 256 ^ Z.of_nat (length l2) + be_Z l2.
Proof. unfold be_Z at 1. rewrite foldl_app. apply be_Z_app_acc. Qed.

Lemma be_Z_range bs : 0 ≤ be_Z bs < 256 ^ Z.of_nat (length bs).
Proof.
  induction bs as [|b bs IH]; [cbn; lia|].
  rewrite be_Z_cons. cbn [length]. rewrite Nat2Z.inj_succ, Z.pow_succ_r by lia.
  pose proof (byte_Z_range b). nia.
Qed.

(** [n] big-endian bytes of [z]. *)
Fixpoint be_bytes (n : nat) (z : Z) : gostring :=
  match n with
  | O => []
  | S m => be_bytes m (z / 256) ++ [Z_byte z]
  end.

Lemma length_be_bytes n z : length (be_bytes n z) = n.
Proof. revert z. induction n; intros; cbn; [done|]. rewrite length_app, IHn. cbn. lia. Qed.

Lemma be_Z_be_bytes n z : be_Z (be_bytes n z) = z mod 256 ^ Z.of_nat n.
Proof.
  revert z. induction n as [|n IH]; intros z; cbn [be_bytes].
  - change (256 ^ Z.of_nat 0) with 1. by rewrite Z.mod_1_r.
  - rewrite be_Z_app, IH. cbn [length]. change (256 ^ Z.of_nat 1) with 256.
    unfold be_Z. cbn [foldl]. rewrite byte_Z_byte.
    rewrite Nat2Z.inj_succ, Z.pow_succ_r by lia.
    rewrite Z.rem_mul_r by lia. ring.
Qed.

Lemma be_bytes_be_Z bs : be_bytes (length bs) (be_Z bs) = bs.
Proof.
  induction bs as [|b bs IH] using rev_ind; [done|].
  rewrite length_app, be_Z_app. cbn [length]. rewrite Nat.add_1_r. cbn [be_bytes].
  change (256 ^ Z.of_nat 1) with 256. unfold be_Z at 2 4. cbn [foldl].
  pose proof (byte_Z_range b).
  rewrite Z.div_add_l, (Z.div_small (0 * 256 + byte_Z b)), Z.add_0_r, IH by lia.
  f_equal. f_equal. apply byte_Z_inj. rewrite byte_Z_byte.
  rewrite Z.add_comm, Z_mod_plus_full, Z.mod_small; lia.
Qed.

(** ** Slices

    [s[lo:hi]] on uint64 or int bounds: Go panics unless
    [0 ≤ lo ≤ hi ≤ len(s)] (the capacity is not modelled: every slice the code
    takes is of a value whose capacity is not known to exceed its length). *)

Definition zlen {A} (l : list A) : Z := Z.of_nat (length l).

Definition slice {A} (l : list A) (lo hi : Z) : outcome (list A) :=
  if decide (0 ≤ lo ∧ lo ≤ hi ∧ hi ≤ zlen l)
  then Val (take (Z.to_nat (hi - lo)) (drop (Z.to_nat lo) l))
  else Panic.

Lemma zlen_nonneg {A} (l : list A) : 0 ≤ zlen l.
Proof. unfold zlen; lia. Qed.

Lemma zlen_app {A} (l1 l2 : list A) : zlen (l1 ++ l2) = zlen l1 + zlen l2.
Proof. unfold zlen. rewrite length_app. lia. Qed.

Lemma zlen_cons {A} (x : A) l : zlen (x :: l) = 1 + zlen l.
Proof. unfold zlen. cbn [length]. lia. Qed.

Lemma slice_val {A} (l : list A) lo hi :
  0 ≤ lo → lo ≤ hi → hi ≤ zlen l →
  slice l lo hi = Val (take (Z.to_nat (hi - lo)) (drop (Z.to_nat lo) l)).
Proof. intros. unfold slice. by rewrite decide_True. Qed.

Lemma slice_panic {A} (l : list A) lo hi : hi < lo ∨ zlen l < hi → slice l lo hi = Panic.
Proof. intros. unfold slice. rewrite decide_False; [done|lia]. Qed.

Lemma slice_length {A} (l : list A) lo hi s :
  slice l lo hi = Val s → zlen s = hi - lo.
Proof.
  unfold slice. case_decide; [|done]. intros [= <-].
  unfold zlen in *. rewrite length_take, length_drop. lia.
Qed.

Lemma slice_app_mid {A} (l1 l2 l3 : list A) lo hi :
  lo = zlen l1 → hi = zlen l1 + zlen l2 → slice (l1 ++ l2 ++ l3) lo hi = Val l2.
Proof.
  intros -> ->. rewrite slice_val.
  - replace (Z.to_nat (zlen l1)) with (length l1) by (unfold zlen; lia).
    rewrite drop_app_length.
    replace (Z.to_nat _) with (length l2) by (unfold zlen; lia). by rewrite take_app_length.
  - apply zlen_nonneg.
  - pose proof (zlen_nonneg l2). lia.
  - rewrite !zlen_app. pose proof (zlen_nonneg l3). lia.
Qed.

(** ** Lists without duplicate keys *)

Lemma NoDup_fmap_elem_inj {A B} (f : A → B) (l : list A) x y :
  NoDup (f <$> l) → x ∈ l → y ∈ l → f x = f y → x = y.
Proof.
  intros H1 Hx Hy E. apply list_elem_of_lookup in Hx as [i Hi], Hy as [j Hj].
  assert (i = j) as ->; [|congruence].
  eapply (NoDup_lookup (f <$> l)); [done| |].
  - by rewrite list_lookup_fmap, Hi.
  - rewrite list_lookup_fmap, Hj. cbn. congruence.
Qed.

(** ** Filters *)

Lemma NoDup_fmap_filter {A B} (f : A → B) (P : A → Prop) `{!∀ x, Decision (P x)} (l : list A) :
  NoDup (f <$> l) → NoDup (f <$> filter P l).
Proof.
  induction l as [|a l IH]; [done|]. rewrite fmap_cons, NoDup_cons, filter_cons. intros [Ha Hl].
  case_decide; [|auto]. rewrite fmap_cons, NoDup_cons. split; [|auto].
  intros (x & Ex & [_ Hx]%list_elem_of_filter)%list_elem_of_fmap. apply Ha, list_elem_of_fmap. eauto.
Qed.

Lemma filter_none {A} (P : A → Prop) `{!∀ x, Decision (P x)} l : (∀ x, x ∈ l → ¬ P x) → filter P l = [].
Proof.
  induction l as [|a l IH]; intros Hl; [done|]. rewrite filter_cons, decide_False by (apply Hl; left).
  apply IH. intros x Hx. apply Hl. by right.
Qed.

Lemma filter_all {A} (P : A → Prop) `{!∀ x, Decision (P x)} (l : list A) : (∀ x, x ∈ l → P x) → filter P l = l.
Proof.
  induction l as [|x l IH]; intros Hl; [done|]. rewrite filter_cons_True by (apply Hl; by left).
  f_equal. apply IH. intros y Hy. apply Hl. by right.
Qed.

Lemma filter_ext_elem {A} (P Q : A → Prop) `{!∀ x, Decision (P x)} `{!∀ x, Decision (Q x)} (l : list A) :
  (∀ x, x ∈ l → P x ↔ Q x) → filter P l = filter Q l.
Proof.
  induction l as [|x l IH]; intros Hl; [done|]. rewrite !filter_cons, (decide_ext _ (Q x)) by (apply Hl; left).
  rewrite IH by (intros; apply Hl; by right). by case_decide.
Qed.

Lemma filter_bind {A B} (P : B → Prop) `{!∀ x, Decision (P x)} (g : A → list B) l :
  filter P (l ≫= g) = l ≫= (λ a, filter P (g a)).
Proof. induction l as [|a l IH]; [done|]. rewrite !bind_cons, filter_app, IH. done. Qed.

Lemma bind_ext_elem {A B} (g h : A → list B) l : (∀ a, a ∈ l → g a = h a) → l ≫= g = l ≫= h.
Proof.
  induction l as [|a l IH]; intros H; [done|]. rewrite !bind_cons, (H a), IH; [done| |left].
  intros x Hx. apply H. by right.
Qed.

Lemma bind_one {A B} (g : A → list B) x : [x] ≫= g = g x.
Proof. rewrite bind_cons. apply app_nil_r. Qed.

Lemma filter_fmap_ext {A B} (f : A → B) (P : B → Prop) (Q : A → Prop)
    {HP : ∀ x, Decision (P x)} {HQ : ∀ x, Decision (Q x)} (l : list A) :
  (∀ x, x ∈ l → P (f x) ↔ Q x) → filter P (f <$> l) = f <$> filter Q l.
Proof.
  induction l as [|a l IH]; intros Hpq; [done|]. rewrite fmap_cons, !filter_cons.
  rewrite (decide_ext _ (Q a)) by (apply Hpq; left). rewrite IH by (intros; apply Hpq; by right). by case_decide.
Qed.

(** ** Sorted lists *)

Lemma StronglySorted_lookup_lt {A} (R : relation A) l i j a b :
  StronglySorted R l → l !! i = Some a → l !! j = Some b → (i < j)%nat → R a b.
Proof.
  intros Hs Hi Hj Hij. rewrite <-(take_drop j l) in Hs.
  eapply StronglySorted_app_1_elem_of; [exact Hs| |].
  - apply list_elem_of_lookup. exists i. by rewrite lookup_take_lt.
  - apply list_elem_of_lookup. exists 0%nat. by rewrite lookup_drop, Nat.add_0_r.
Qed.

Lemma StronglySorted_filter {A} (R : relation A) (P : A → Prop) `{!∀ x, Decision (P x)} l :
  StronglySorted R l → StronglySorted R (filter P l).
Proof.
  induction 1 as [|a l Hs IH Ha]; [constructor|]. rewrite filter_cons. case_decide; [|done].
  constructor; [done|]. apply Forall_forall. intros x [_ Hx]%list_elem_of_filter.
  rewrite Forall_forall in Ha. auto.
Qed.

Lemma StronglySorted_seqZ a k : StronglySorted Z.lt (seqZ a k).
Proof.
  unfold seqZ. generalize (Z.to_nat k). intros n. generalize 0%nat at 1.
  induction n as [|n IH]; intros i; cbn; constructor; [apply IH|].
  apply Forall_fmap, Forall_forall. intros x Hx%elem_of_seq. unfold compose. lia.
Qed.

(** ** Reachability of a step relation *)

Section Star.
Context {S : Type} (step : S → S → Prop).

(** An invariant of the initial state that every step keeps holds in every
    reachable state. *)
Lemma rtc_invariant (I : S → Prop) s s' :
  (∀ a b, I a → step a b → I b) → I s → rtc step s s' → I s'.
Proof. intros Hstep HI Hrtc. induction Hrtc; eauto. Qed.
End Star.

(** ** Automation *)

Create HintDb golib.
#[export] Hint Resolve zlen_nonneg byte_Z_range be_Z_range u64_range : golib.
#[export] Hint Rewrite @zlen_app @zlen_cons @length_app @length_take @length_drop
  @length_replicate @length_fmap length_be_bytes : golib.

(** Case analysis on the head [match]/[if] of the goal or of a hypothesis. *)
Ltac go_cases :=
  repeat match goal with
  | |- context [if decide ?P then _ else _] => destruct (decide P); simplify_eq/=
  | |- context [match ?x with _ => _ end] => destruct x eqn:?; simplify_eq/=
  end; try done.
