(* ===== verification/GoStrings.v ===== *)
(** * The parts of Go's standard library the indexer's string handling rests on

    [encoding/hex], and the ASCII behaviour of [strings.ToLower],
    [strings.TrimPrefix], [strings.TrimSpace], [strings.HasPrefix],
    [strings.Contains] and [strings.EqualFold], on byte strings.  The code
    applies the case functions to hex digits, call types and error texts; a
    byte outside ASCII is left as it is (Go maps non-ASCII letters as well,
    which none of the modelled code relies on). *)

From S2P Require Import Prelude.

Definition in_range (lo hi : Z) (b : byte) : bool := (lo <=? byte_Z b) && (byte_Z b <=? hi).

(** ** Case *)

Definition lower_byte (b : byte) : byte :=
  if in_range 65 90 b then Z_byte (byte_Z b + 32) else b.
Definition ToLower (s : gostring) : gostring := lower_byte <$> s.
Definition EqualFold (s t : gostring) : bool := bool_decide (ToLower s = ToLower t).

Lemma lower_byte_idemp b : lower_byte (lower_byte b) = lower_byte b.
Proof.
  revert b. assert (∀ b, bool_decide (lower_byte (lower_byte b) = lower_byte b) = true) as H.
  { apply forall_bytes. vm_compute. reflexivity. }
  intros b. specialize (H b). by apply bool_decide_eq_true in H.
Qed.

Lemma ToLower_idemp s : ToLower (ToLower s) = ToLower s.
Proof.
  unfold ToLower. rewrite <-list_fmap_compose. apply list_fmap_ext.
  intros. apply lower_byte_idemp.
Qed.

Lemma ToLower_app s t : ToLower (s ++ t) = ToLower s ++ ToLower t.
Proof. apply fmap_app. Qed.

Lemma length_ToLower s : length (ToLower s) = length s.
Proof. apply length_fmap. Qed.

(** ** Prefixes, spaces, substrings *)

Definition HasPrefix (s p : gostring) : bool := bool_decide (take (length p) s = p).
Definition TrimPrefix (s p : gostring) : gostring :=
  if HasPrefix s p then drop (length p) s else s.

Definition is_space (b : byte) : bool :=
  in_range 9 13 b || bool_decide (byte_Z b = 32).
Fixpoint trim_left (s : gostring) : gostring :=
  match s with
  | [] => []
  | b :: r => if is_space b then trim_left r else s
  end.
Definition TrimSpace (s : gostring) : gostring := rev (trim_left (rev (trim_left s))).

Fixpoint Contains (s sub : gostring) : bool :=
  HasPrefix s sub || match s with [] => false | _ :: r => Contains r sub end.

Lemma HasPrefix_app p s : HasPrefix (p ++ s) p = true.
Proof. unfold HasPrefix. rewrite take_app_length. by apply bool_decide_eq_true. Qed.

Lemma TrimPrefix_app p s : TrimPrefix (p ++ s) p = s.
Proof. unfold TrimPrefix. by rewrite HasPrefix_app, drop_app_length. Qed.

Lemma HasPrefix_true s p : HasPrefix s p = true ↔ ∃ t, s = p ++ t.
Proof.
  unfold HasPrefix. rewrite bool_decide_eq_true. split.
  - intros H. exists (drop (length p) s). by rewrite <-H at 1; rewrite take_drop.
  - intros [t ->]. apply take_app_length.
Qed.

Lemma Contains_true s sub : Contains s sub = true ↔ ∃ a b, s = a ++ sub ++ b.
Proof.
  split.
  - induction s as [|c s IH]; cbn [Contains]; intros H.
    + rewrite orb_false_r in H. apply HasPrefix_true in H as [t Ht]. by exists [], t.
    + apply orb_true_iff in H as [H|H].
      * apply HasPrefix_true in H as [t ->]. by exists [], t.
      * destruct (IH H) as (a & b & ->). by exists (c :: a), b.
  - intros (a & b & ->). induction a as [|c a IH]; cbn [app].
    + destruct (sub ++ b) eqn:E; cbn [Contains]; rewrite <-E, HasPrefix_app; done.
    + cbn [Contains]. rewrite IH. apply orb_true_r.
Qed.

Lemma trim_left_nospace s : Forall (λ b, is_space b = false) s → trim_left s = s.
Proof. destruct 1 as [|b l Hb]; cbn; [done|]. by rewrite Hb. Qed.

Lemma TrimSpace_nospace s : Forall (λ b, is_space b = false) s → TrimSpace s = s.
Proof.
  intros H. unfold TrimSpace. rewrite (trim_left_nospace s) by done.
  rewrite trim_left_nospace; [apply rev_involutive|]. by apply Forall_rev.
Qed.

(** ** encoding/hex *)

Definition hexdigit (n : Z) : byte := Z_byte (if n <? 10 then 48 + n else 87 + n).
Definition fromHexChar (c : byte) : option Z :=
  if in_range 48 57 c then Some (byte_Z c - 48)
  else if in_range 97 102 c then Some (byte_Z c - 87)
  else if in_range 65 70 c then Some (byte_Z c - 55)
  else None.

Definition hex_of_byte (b : byte) : gostring :=
  [hexdigit (byte_Z b / 16); hexdigit (byte_Z b mod 16)].
Definition EncodeToString (bs : gostring) : gostring := bs ≫= hex_of_byte.

(** [hex.DecodeString]; [None] is its error (a byte that is no hex digit, or an
    odd length). *)
Fixpoint DecodeString (s : gostring) : option gostring :=
  match s with
  | [] => Some []
  | [_] => None
  | a :: b :: r =>
      x ← fromHexChar a; y ← fromHexChar b; t ← DecodeString r;
      Some (Z_byte (x * 16 + y) :: t)
  end.

Definition is_hex (b : byte) : bool := bool_decide (is_Some (fromHexChar b)).

Lemma hex_of_byte_decode b :
  ∃ x y, fromHexChar (hexdigit (byte_Z b / 16)) = Some x ∧
         fromHexChar (hexdigit (byte_Z b mod 16)) = Some y ∧ Z_byte (x * 16 + y) = b.
Proof.
  revert b. pose (f b := match fromHexChar (hexdigit (byte_Z b / 16)), fromHexChar (hexdigit (byte_Z b mod 16)) with
    | Some x, Some y => bool_decide (Z_byte (x * 16 + y) = b) | _, _ => false end).
  assert (∀ b, f b = true) as H by (apply forall_bytes; vm_compute; reflexivity).
  intros b. specialize (H b). unfold f in H.
  destruct (fromHexChar _) as [x|]; [|done]. destruct (fromHexChar _) as [y|]; [|done].
  apply bool_decide_eq_true in H. eauto.
Qed.

Lemma DecodeString_Encode_app bs s :
  DecodeString (EncodeToString bs ++ s) = app bs <$> DecodeString s.
Proof.
  induction bs as [|b bs IH]; cbn; [by destruct (DecodeString s)|].
  destruct (hex_of_byte_decode b) as (x & y & Hx & Hy & Hb).
  unfold EncodeToString in IH. rewrite Hx, Hy. cbn. rewrite IH.
  destruct (DecodeString s); cbn; by rewrite ?Hb.
Qed.

Lemma DecodeString_Encode bs : DecodeString (EncodeToString bs) = Some bs.
Proof.
  rewrite <-(app_nil_r (EncodeToString bs)), DecodeString_Encode_app. cbn. by rewrite app_nil_r.
Qed.

Lemma length_EncodeToString bs : length (EncodeToString bs) = (2 * length bs)%nat.
Proof. induction bs as [|b bs IH]; cbn in *; [done|]. unfold EncodeToString in IH. lia. Qed.

Lemma EncodeToString_app a b : EncodeToString (a ++ b) = EncodeToString a ++ EncodeToString b.
Proof. apply bind_app. Qed.

Lemma fromHexChar_lower b : fromHexChar (lower_byte b) = fromHexChar b.
Proof.
  revert b. assert (∀ b, bool_decide (fromHexChar (lower_byte b) = fromHexChar b) = true) as H.
  { apply forall_bytes. vm_compute. reflexivity. }
  intros b. specialize (H b). by apply bool_decide_eq_true in H.
Qed.

(** Decoding does not see letter case. *)
Lemma DecodeString_ToLower s : DecodeString (ToLower s) = DecodeString s.
Proof.
  unfold ToLower. remember (length s) as n eqn:Hn.
  revert s Hn. induction n as [n IH] using lt_wf_ind; intros s Hn.
  destruct s as [|a [|b r]]; cbn; [done|done|].
  cbn in Hn. rewrite !fromHexChar_lower, (IH (length r)) by lia. done.
Qed.

Lemma fromHexChar_digit c x :
  fromHexChar c = Some x → 0 ≤ x < 16 ∧ hexdigit x = lower_byte c.
Proof.
  revert c x. pose (f c := match fromHexChar c with
    | Some x => (0 <=? x) && (x <? 16) && bool_decide (hexdigit x = lower_byte c) | None => true end).
  assert (∀ c, f c = true) as H by (apply forall_bytes; vm_compute; reflexivity).
  intros c x E. specialize (H c). unfold f in H. rewrite E in H.
  apply andb_prop in H as [H1 H2]. apply bool_decide_eq_true in H2.
  apply andb_prop in H1 as [? ?]. split; [lia|done].
Qed.

(** Encoding what was decoded gives the text back in lower case. *)
Lemma EncodeToString_Decode s bs : DecodeString s = Some bs → EncodeToString bs = ToLower s.
Proof.
  remember (length s) as n eqn:Hn. revert s bs Hn.
  induction n as [n IH] using lt_wf_ind; intros s bs Hn.
  destruct s as [|a [|b r]]; cbn; [by intros [= <-]|done|]. cbn in Hn.
  destruct (fromHexChar a) as [x|] eqn:Ha; cbn; [|done].
  destruct (fromHexChar b) as [y|] eqn:Hb; cbn; [|done].
  destruct (DecodeString r) as [t|] eqn:Ht; cbn; [|done]. intros [= <-].
  apply fromHexChar_digit in Ha as [? Ha], Hb as [? Hb].
  cbn. rewrite (byte_Z_of_small (x * 16 + y)) by lia.
  rewrite Z.div_add_l, Z.div_small, Z.add_0_r by lia.
  rewrite Z.add_comm, Z_mod_plus_full, Z.mod_small, Ha, Hb by lia.
  do 2 f_equal. apply (IH (length r)); [lia|done|done].
Qed.

Lemma DecodeString_hex s bs : DecodeString s = Some bs →
  Forall (λ b, is_hex b = true) s ∧ length s = (2 * length bs)%nat.
Proof.
  remember (length s) as n eqn:Hn. revert s bs Hn.
  induction n as [n IH] using lt_wf_ind; intros s bs Hn.
  destruct s as [|a [|b r]]; cbn; [by intros [= <-]; subst|done|]. cbn in Hn.
  destruct (fromHexChar a) as [x|] eqn:Ha; cbn; [|done].
  destruct (fromHexChar b) as [y|] eqn:Hb; cbn; [|done].
  destruct (DecodeString r) as [t|] eqn:Ht; cbn; [|done]. intros [= <-].
  destruct (IH (length r) ltac:(lia) r t eq_refl Ht) as [IH1 IH2].
  split; [|cbn; lia]. repeat constructor; [| |done].
  - unfold is_hex. rewrite Ha. by apply bool_decide_eq_true.
  - unfold is_hex. rewrite Hb. by apply bool_decide_eq_true.
Qed.

Lemma DecodeString_total s :
  Forall (λ b, is_hex b = true) s → Nat.even (length s) = true → is_Some (DecodeString s).
Proof.
  remember (length s) as n eqn:Hn. revert s Hn.
  induction n as [n IH] using lt_wf_ind; intros s Hn HF He.
  destruct s as [|a [|b r]]; cbn; [by eexists|by subst|]. cbn in Hn.
  apply Forall_cons in HF as [Ha HF]. apply Forall_cons in HF as [Hb HF].
  unfold is_hex in Ha, Hb. apply bool_decide_eq_true in Ha as [x ->], Hb as [y ->]. cbn.
  destruct (IH (length r) ltac:(lia) r eq_refl HF) as [t ->]; [by subst|by eexists].
Qed.

(** ** Numbers in base 10 and 16 ([big.Int.Text], [strconv.FormatUint],
    [big.Int.SetString], [strconv.ParseUint]) *)

Definition digits_value (base : Z) (ds : list Z) : Z := foldl (λ acc d, acc * base + d) 0 ds.

Fixpoint digits (fuel : nat) (base z : Z) : list Z :=
  match fuel with
  | O => []
  | S f => if z <? base then [z] else digits f base (z / base) ++ [z mod base]
  end.

(** The digits of [z], most significant first; one digit per halving is enough
    fuel for any base from 2 on. *)
Definition FormatBase (base z : Z) : gostring :=
  hexdigit <$> digits (S (Z.to_nat (Z.log2 z))) base z.

Definition digit_in (base : Z) (c : byte) : option Z :=
  d ← fromHexChar c; if d <? base then Some d else None.

(** A nonempty run of digits below the base; anything else is an error. *)
Definition ParseDigits (base : Z) (s : gostring) : option Z :=
  match s with
  | [] => None
  | _ => digits_value base <$> mapM (digit_in base) s
  end.

(** [big.Int.SetString(s, base)]: an optional sign, then digits. *)
Definition SetString (base : Z) (s : gostring) : option Z :=
  match s with
  | x2d :: r => Z.opp <$> ParseDigits base r
  | x2b :: r => ParseDigits base r
  | _ => ParseDigits base s
  end.

(** [big.Int.Text(base)]. *)
Definition Text (base z : Z) : gostring :=
  if z <? 0 then x2d :: FormatBase base (- z) else FormatBase base z.

(** [strconv.ParseUint(s, base, 64)]: digits only, below 2^64. *)
Definition ParseUint (base : Z) (s : gostring) : option Z :=
  n ← ParseDigits base s; if n <? W64 then Some n else None.

Section Radix.
Context (base : Z) (Hbase : 2 ≤ base ≤ 16).

Lemma digits_range fuel z : 0 ≤ z → Forall (λ d, 0 ≤ d < base) (digits fuel base z).
Proof using Hbase.
  revert z. induction fuel as [|f IH]; intros z Hz; cbn; [constructor|].
  destruct (Z.ltb_spec z base); [repeat constructor; lia|].
  apply Forall_app; split; [apply IH, Z.div_pos; lia|].
  repeat constructor; apply Z.mod_pos_bound; lia.
Qed.

Lemma digits_eval fuel z :
  0 ≤ z < base ^ Z.of_nat fuel → (0 < fuel)%nat → digits_value base (digits fuel base z) = z.
Proof using Hbase.
  revert z. induction fuel as [|f IH]; intros z Hz Hf; [lia|]. cbn.
  destruct (Z.ltb_spec z base); [done|].
  destruct f as [|f]; [change (Z.of_nat 1) with 1 in Hz; lia|].
  unfold digits_value in *. rewrite foldl_app, IH; [|split|lia].
  - cbn. rewrite (Z.div_mod z base) at 3 by lia. ring.
  - apply Z.div_pos; lia.
  - apply Z.div_lt_upper_bound; [lia|]. rewrite Nat2Z.inj_succ, Z.pow_succ_r in Hz; lia.
Qed.

Lemma FormatBase_fuel z : 0 ≤ z → z < base ^ Z.of_nat (S (Z.to_nat (Z.log2 z))).
Proof using Hbase.
  intros Hz. rewrite Nat2Z.inj_succ, Z2Nat.id by apply Z.log2_nonneg.
  destruct (decide (z = 0)) as [->|]; [change (Z.log2 0) with 0; cbn; nia|].
  apply Z.lt_le_trans with (2 ^ Z.succ (Z.log2 z)); [apply Z.log2_spec; lia|].
  apply Z.pow_le_mono_l; lia.
Qed.

Lemma mapM_digits ds :
  Forall (λ d, 0 ≤ d < base) ds → mapM (digit_in base) (hexdigit <$> ds) = Some ds.
Proof using Hbase.
  induction 1 as [|d ds Hd _ IH]; [done|]. rewrite fmap_cons. cbn [mapM].
  replace (digit_in base (hexdigit d)) with (Some d); [cbn; by rewrite IH|].
  unfold digit_in. replace (fromHexChar (hexdigit d)) with (Some d).
  - cbn. destruct (Z.ltb_spec d base); [done|lia].
  - assert (d ∈ seqZ 0 16) as Hin by (apply elem_of_seqZ; lia).
    repeat (apply elem_of_cons in Hin as [->|Hin]; [reflexivity|]). by apply not_elem_of_nil in Hin.
Qed.

Lemma FormatBase_nonempty z : FormatBase base z ≠ [].
Proof using.
  unfold FormatBase. cbn [digits]. destruct (z <? base); [done|].
  intros H. apply (f_equal length) in H. rewrite fmap_app, length_app in H. cbn in H. lia.
Qed.

Lemma ParseDigits_Format z : 0 ≤ z → ParseDigits base (FormatBase base z) = Some z.
Proof using Hbase.
  intros Hz. unfold ParseDigits. pose proof (FormatBase_nonempty z).
  destruct (FormatBase base z) as [|c s] eqn:E; [done|]. rewrite <-E. unfold FormatBase.
  rewrite mapM_digits by (by apply digits_range).
  apply (f_equal Some), digits_eval; [|lia]. split; [done|]. by apply FormatBase_fuel.
Qed.

(** A formatted number starts with a digit, never with a sign. *)
Lemma FormatBase_no_sign z c s : 0 ≤ z → FormatBase base z = c :: s → c ≠ x2d ∧ c ≠ x2b.
Proof using Hbase.
  intros Hz E. unfold FormatBase in E.
  pose proof (digits_range (S (Z.to_nat (Z.log2 z))) z Hz) as HF.
  destruct (digits _ base z) as [|d ds]; [done|]. rewrite fmap_cons in E. injection E as <- _.
  apply Forall_cons in HF as [Hd _].
  assert (d ∈ seqZ 0 16) as Hin by (apply elem_of_seqZ; lia).
  repeat (apply elem_of_cons in Hin as [->|Hin]; [by vm_compute|]). by apply not_elem_of_nil in Hin.
Qed.

Lemma SetString_Text z : SetString base (Text base z) = Some z.
Proof using Hbase.
  unfold Text. destruct (Z.ltb_spec z 0).
  - cbn [SetString]. rewrite ParseDigits_Format by lia. cbn. f_equal. lia.
  - pose proof (ParseDigits_Format z ltac:(done)) as HP.
    destruct (FormatBase base z) as [|c s] eqn:E; [done|].
    destruct (FormatBase_no_sign z c s ltac:(done) E) as [H1 H2].
    unfold SetString. destruct c; done.
Qed.

Lemma ParseUint_Format z : is_u64 z → ParseUint base (FormatBase base z) = Some z.
Proof using Hbase.
  intros [H1 H2]. unfold ParseUint. rewrite ParseDigits_Format by done. cbn.
  destruct (Z.ltb_spec z W64); [done|lia].
Qed.

(** Formatting is injective: two numbers with one text are one number. *)
Lemma FormatBase_inj x y : 0 ≤ x → 0 ≤ y → FormatBase base x = FormatBase base y → x = y.
Proof using Hbase.
  intros Hx Hy E. apply ParseDigits_Format in Hx, Hy. rewrite E in Hx. congruence.
Qed.
End Radix.

(** Formatted numbers hold no spaces. *)
Lemma FormatBase_nospace base z :
  2 ≤ base ≤ 16 → 0 ≤ z → Forall (λ b, is_space b = false) (FormatBase base z).
Proof.
  intros Hb Hz. unfold FormatBase. apply Forall_fmap.
  eapply Forall_impl; [by apply digits_range|]. intros d Hd. cbn in Hd.
  assert (d ∈ seqZ 0 16) as Hin by (apply elem_of_seqZ; lia).
  repeat (apply elem_of_cons in Hin as [->|Hin]; [reflexivity|]). by apply not_elem_of_nil in Hin.
Qed.
