(* ===== verification/EthCommon.v ===== *)
(** * Addresses, hashes and their hex forms: pkg/eth/common and pkg/eth/crypto

    [Address] and [Hash] are Go arrays of 20 and 32 bytes; here they are byte
    strings of that length ([is_address], [is_hash]).  Keccak-256 is third-party
    code ([golang.org/x/crypto/sha3]): it is the parameter of the class
    [Keccak], of which the code relies on the 32-byte length of a digest. *)

From S2P Require Import Prelude GoStrings.

Class Keccak := {
  keccak256 : gostring → gostring;
  keccak256_length x : length (keccak256 x) = 32%nat;
}.

Definition AddressLength : nat := 20.
Definition HashLength : nat := 32.
Definition is_address (a : gostring) : Prop := length a = AddressLength.
Definition is_hash (h : gostring) : Prop := length h = HashLength.

(** [setBytes] of an address and of a hash on a zero array: the last
    bytes win, a short input is padded on the left. *)
Definition setBytes (n : nat) (b : gostring) : gostring :=
  let b := if (n <? length b)%nat then drop (length b - n) b else b in
  replicate (n - length b) x00 ++ b.

Definition BytesToAddress (b : gostring) : gostring := setBytes AddressLength b.
Definition BytesToHash (b : gostring) : gostring := setBytes HashLength b.

Definition Bytes2Hex (b : gostring) : gostring := EncodeToString b.

Definition FromHex (s : gostring) : gostring :=
  if bool_decide (s = []) then [] else
  let s := if ((2 <=? length s)%nat &&
               (bool_decide (take 2 s = $"0x") || bool_decide (take 2 s = $"0X")))
           then drop 2 s else s in
  if bool_decide (s = []) then [] else
  let s := if Nat.odd (length s) then $"0" ++ s else s in
  match DecodeString s with Some b => b | None => [] end.

Definition HexToAddress (s : gostring) : gostring := BytesToAddress (FromHex s).
Definition HexToHash (s : gostring) : gostring := BytesToHash (FromHex s).

Definition LeftPadBytes (b : gostring) (size : nat) : gostring :=
  if (size <=? length b)%nat then b else replicate (size - length b) x00 ++ b.

Definition Hash_Hex (h : gostring) : gostring := $"0x" ++ EncodeToString h.
Definition Hash_Big (h : gostring) : Z := be_Z h.

Definition isHexChar (c : byte) : bool :=
  in_range 48 57 c || in_range 97 102 c || in_range 65 70 c.

(** ** [range] over a string decodes UTF-8

    One rune per well-formed sequence (the table of the unicode/utf8 package),
    and U+FFFD for each byte that starts none. *)

Definition cont (lo hi : Z) (b : byte) : bool := in_range lo hi b.
Definition bits6 (b : byte) : Z := byte_Z b mod 64.

Fixpoint runes (s : gostring) : list Z :=
  match s with
  | [] => []
  | b0 :: r0 =>
      if in_range 0 127 b0 then byte_Z b0 :: runes r0
      else if in_range 194 223 b0 then
        match r0 with
        | b1 :: r1 => if cont 128 191 b1 then byte_Z b0 mod 32 * 64 + bits6 b1 :: runes r1 else 65533 :: runes r0
        | [] => 65533 :: runes r0
        end
      else if in_range 224 239 b0 then
        match r0 with
        | b1 :: b2 :: r2 =>
            if cont (if byte_Z b0 =? 224 then 160 else 128) (if byte_Z b0 =? 237 then 159 else 191) b1
               && cont 128 191 b2
            then byte_Z b0 mod 16 * 4096 + bits6 b1 * 64 + bits6 b2 :: runes r2 else 65533 :: runes r0
        | _ => 65533 :: runes r0
        end
      else if in_range 240 244 b0 then
        match r0 with
        | b1 :: b2 :: b3 :: r3 =>
            if cont (if byte_Z b0 =? 240 then 144 else 128) (if byte_Z b0 =? 244 then 143 else 191) b1
               && cont 128 191 b2 && cont 128 191 b3
            then byte_Z b0 mod 8 * 262144 + bits6 b1 * 4096 + bits6 b2 * 64 + bits6 b3 :: runes r3 else 65533 :: runes r0
        | _ => 65533 :: runes r0
        end
      else 65533 :: runes r0
  end.

(** [IsHexAddress]: the loop is over the runes of [s[2:]], each converted with
    [byte(c)] before it is tested. *)
Definition IsHexAddress (s : gostring) : bool :=
  if negb (length s =? 42)%nat then false
  else if negb (bool_decide (take 2 s = $"0x")) && negb (bool_decide (take 2 s = $"0X")) then false
  else forallb (λ c, isHexChar (Z_byte c)) (runes (drop 2 s)).

Definition ascii_string (s : gostring) : Prop := Forall (λ b, in_range 0 127 b = true) s.

(** ** EIP-55 text of an address *)

Section Keccak.
Context `{Keccak}.

(** [Keccak256(data...)] hashes the concatenation. *)
Definition Keccak256 (data : list gostring) : gostring := keccak256 (concat data).
Definition Keccak256Hash (data : list gostring) : gostring := keccak256 (concat data).

(** One character of [Address.Hex]: a letter is raised when its nibble of the
    hash is at least 8. *)
Definition checksum_char (hash : gostring) (i : nat) (c : byte) : byte :=
  if in_range 48 57 c then c
  else
    let hashByte := byte_Z (nth (i / 2) hash x00) in
    let nibble := if (i mod 2 =? 0)%nat then Z.shiftr hashByte 4 else Z.land hashByte 15 in
    if 8 <=? nibble then Z_byte (byte_Z c - 32) else c.

Definition Address_Hex (a : gostring) : gostring :=
  let unchecksummed := EncodeToString a in
  let hash := keccak256 unchecksummed in
  $"0x" ++ imap (checksum_char hash) unchecksummed.
End Keccak.

(** ** JSON

    [json.Unmarshal] parses the document; what the methods distinguish is
    [null], a string and anything else. *)

Inductive json :=
| JNull
| JString (s : gostring)
| JNumber (n : Z)
| JBool (b : bool)
| JOther.

Inductive json_error := NotAString | BadLength (n : nat) | BadHex | BadNumber.

(** [UnmarshalJSON] of an address and of a hash: [null] leaves the
    target [old] as it is. *)
Definition UnmarshalFixed (n : nat) (old : gostring) (data : json) : res json_error gostring :=
  match data with
  | JNull => Ok old
  | JString s =>
      let decoded := FromHex s in
      if negb (length decoded =? n)%nat then Err (BadLength (length decoded)) else Ok decoded
  | _ => Err NotAString
  end.

Definition Address_UnmarshalJSON := UnmarshalFixed AddressLength.
Definition Hash_UnmarshalJSON := UnmarshalFixed HashLength.
Definition Hash_MarshalJSON (h : gostring) : json := JString (Hash_Hex h).
Definition Address_MarshalJSON `{Keccak} (a : gostring) : json := JString (Address_Hex a).

(** ** Facts *)

Lemma length_setBytes n b : length (setBytes n b) = n.
Proof.
  unfold setBytes. destruct (Nat.ltb_spec n (length b)).
  - rewrite length_app, length_replicate, length_drop. lia.
  - rewrite length_app, length_replicate. lia.
Qed.

Lemma setBytes_exact n b : length b = n → setBytes n b = b.
Proof.
  intros <-. unfold setBytes. rewrite Nat.ltb_irrefl, Nat.sub_diag. done.
Qed.

(** Cropping and padding keep the number modulo 256^n. *)
Lemma be_Z_replicate n b : be_Z (replicate n x00 ++ b) = be_Z b.
Proof.
  rewrite be_Z_app. replace (be_Z (replicate n x00)) with 0; [lia|].
  symmetry. induction n as [|n IH]; [done|]. cbn [replicate]. rewrite be_Z_cons, IH. done.
Qed.

Lemma be_Z_setBytes n b : be_Z (setBytes n b) = be_Z b mod 256 ^ Z.of_nat n.
Proof.
  unfold setBytes. destruct (Nat.ltb_spec n (length b)).
  - rewrite length_drop. replace (n - _)%nat with 0%nat by lia. cbn [replicate app].
    rewrite <-(take_drop (length b - n) b) in |- * at 3. rewrite be_Z_app.
    assert (length (drop (length b - n) b) = n) as Hl by (rewrite length_drop; lia).
    rewrite Hl. pose proof (be_Z_range (drop (length b - n) b)) as Hr. rewrite Hl in Hr.
    rewrite Z.add_comm, Z_mod_plus_full, Z.mod_small; [done|lia].
  - rewrite be_Z_replicate, Z.mod_small; [done|].
    pose proof (be_Z_range b). assert (256 ^ Z.of_nat (length b) ≤ 256 ^ Z.of_nat n) by (apply Z.pow_le_mono_r; lia). lia.
Qed.

Lemma FromHex_0x s bs : DecodeString s = Some bs → FromHex ($"0x" ++ s) = bs.
Proof.
  intros HD. unfold FromHex. rewrite bool_decide_false by done.
  change (take 2 ($"0x" ++ s)) with $"0x". change (drop 2 ($"0x" ++ s)) with s.
  rewrite (bool_decide_true ($"0x" = $"0x")) by done.
  change (2 <=? length ($"0x" ++ s))%nat with true. cbn [andb orb].
  destruct (DecodeString_hex s bs HD) as [_ Hl].
  destruct (decide (s = [])) as [->|Hne].
  - injection HD as <-. by rewrite bool_decide_true.
  - rewrite bool_decide_false by done.
    assert (Nat.odd (length s) = false) as ->.
    { rewrite Hl. rewrite <-Nat.negb_even. by rewrite Nat.even_even. }
    by rewrite HD.
Qed.

Lemma ascii_runes s : ascii_string s → runes s = byte_Z <$> s.
Proof. induction 1 as [|b s Hb _ IH]; [done|]. cbn [runes]. rewrite Hb, IH. done. Qed.

Lemma isHexChar_is_hex c : isHexChar c = is_hex c.
Proof.
  revert c. assert (∀ c, bool_decide (isHexChar c = is_hex c) = true) as H.
  { apply forall_bytes. vm_compute. reflexivity. }
  intros c. specialize (H c). by apply bool_decide_eq_true in H.
Qed.

(** Raising letters does not change what a hex string decodes to. *)
Lemma lower_checksum_char hash i c :
  in_range 97 102 c || in_range 48 57 c = true → lower_byte (checksum_char hash i c) = lower_byte c.
Proof.
  intros Hc. unfold checksum_char. destruct (decide (in_range 48 57 c = true)) as [E|E];
    [by rewrite E|]. apply not_true_is_false in E. rewrite E.
  case_match; [|done]. clear -Hc E. revert Hc E. generalize c. clear c.
  assert (∀ c, implb ((in_range 97 102 c || in_range 48 57 c) && negb (in_range 48 57 c))
    (bool_decide (lower_byte (Z_byte (byte_Z c - 32)) = lower_byte c)) = true) as H.
  { apply forall_bytes. vm_compute. reflexivity. }
  intros c Hc E. specialize (H c). rewrite Hc, E in H. cbn [negb andb implb] in H. by apply bool_decide_eq_true in H.
Qed.

Lemma hex_of_byte_lowercase b :
  Forall (λ c, in_range 97 102 c || in_range 48 57 c = true) (hex_of_byte b).
Proof.
  assert (∀ b, forallb (λ c, in_range 97 102 c || in_range 48 57 c) (hex_of_byte b) = true) as H.
  { apply forall_bytes. vm_compute. reflexivity. }
  specialize (H b). rewrite forallb_forall in H.
  apply Forall_forall. intros c Hc. by apply H, list_elem_of_In.
Qed.

Lemma EncodeToString_lowercase bs :
  Forall (λ c, in_range 97 102 c || in_range 48 57 c = true) (EncodeToString bs).
Proof.
  induction bs as [|b bs IH]; [constructor|].
  unfold EncodeToString. rewrite bind_cons. apply Forall_app. split; [apply hex_of_byte_lowercase|done].
Qed.

Lemma ToLower_checksum hash s :
  Forall (λ c, in_range 97 102 c || in_range 48 57 c = true) s →
  ToLower (imap (checksum_char hash) s) = ToLower s.
Proof.
  intros Hs. unfold ToLower. apply list_eq. intros i.
  rewrite !list_lookup_fmap, list_lookup_imap.
  destruct (s !! i) as [c|] eqn:E; [|done]. cbn. f_equal. apply lower_checksum_char.
  exact (Forall_lookup_1 _ _ _ _ Hs E).
Qed.

Lemma DecodeString_checksum `{Keccak} a :
  DecodeString (drop 2 (Address_Hex a)) = Some a.
Proof.
  unfold Address_Hex. change (drop 2 ($"0x" ++ ?s)) with s.
  rewrite <-DecodeString_ToLower, ToLower_checksum by apply EncodeToString_lowercase.
  by rewrite DecodeString_ToLower, DecodeString_Encode.
Qed.

Lemma FromHex_Address_Hex `{Keccak} a : FromHex (Address_Hex a) = a.
Proof. apply (FromHex_0x (drop 2 (Address_Hex a))), DecodeString_checksum. Qed.

Lemma FromHex_Hash_Hex h : FromHex (Hash_Hex h) = h.
Proof. apply FromHex_0x, DecodeString_Encode. Qed.

Lemma HexToHash_Hex h : is_hash h → HexToHash (Hash_Hex h) = h.
Proof. intros. unfold HexToHash, BytesToHash. rewrite FromHex_Hash_Hex. by apply setBytes_exact. Qed.

(** A hex digit is ASCII, so on an ASCII string the loop over runes is a loop
    over bytes. *)
Lemma IsHexAddress_bytes s :
  ascii_string s →
  IsHexAddress s = bool_decide (length s = 42%nat) &&
    (bool_decide (take 2 s = $"0x") || bool_decide (take 2 s = $"0X")) &&
    forallb is_hex (drop 2 s).
Proof.
  intros Hs. unfold IsHexAddress. destruct (Nat.eqb_spec (length s) 42) as [Hl|Hl]; cbn [negb];
    [rewrite (bool_decide_true (length s = _)) by done|by rewrite (bool_decide_false (length s = _))].
  cbn [negb andb].
  destruct (bool_decide (take 2 s = $"0x")), (bool_decide (take 2 s = $"0X")); cbn [negb andb orb]; try done.
  all: rewrite ascii_runes by (by apply Forall_drop).
  all: induction (drop 2 s) as [|c r IH]; cbn; [done|]; by rewrite IH, Z_byte_Z, isHexChar_is_hex.
Qed.

(** ** Properties *)

(** the checksummed text of an address, read back by [HexToAddress] or by
    [UnmarshalJSON], is the address; the same holds of a hash and its text. *)
Theorem address_hash_text_roundtrip `{Keccak} a h old :
  is_address a → is_hash h →
  HexToAddress (Address_Hex a) = a ∧ Address_UnmarshalJSON old (Address_MarshalJSON a) = Ok a ∧
  HexToHash (Hash_Hex h) = h ∧ Hash_UnmarshalJSON old (Hash_MarshalJSON h) = Ok h.
Proof.
  intros Ha Hh. split_and!.
  - unfold HexToAddress, BytesToAddress. rewrite FromHex_Address_Hex. by apply setBytes_exact.
  - unfold Address_UnmarshalJSON, UnmarshalFixed, Address_MarshalJSON.
    rewrite FromHex_Address_Hex, Ha. by rewrite Nat.eqb_refl.
  - by apply HexToHash_Hex.
  - unfold Hash_UnmarshalJSON, UnmarshalFixed, Hash_MarshalJSON.
    rewrite FromHex_Hash_Hex, Hh. by rewrite Nat.eqb_refl.
Qed.

(** A digest function of the right length, for concrete runs. *)
Definition toy_keccak : Keccak :=
  {| keccak256 x := be_bytes 32 (be_Z x * 115792089237316195423570985008687907853269984665640564039457 + 7);
     keccak256_length x := length_be_bytes 32 _ |}.

Lemma address_hash_text_roundtrip_witness :
  @HexToAddress (@Address_Hex toy_keccak (be_bytes 20 (2 ^ 159 + 12345))) = be_bytes 20 (2 ^ 159 + 12345).
Proof.
  exact (proj1 (@address_hash_text_roundtrip toy_keccak (be_bytes 20 (2 ^ 159 + 12345)) (be_bytes 32 5) []
    (length_be_bytes 20 _) (length_be_bytes 32 _))).
Defined.

(** on ASCII text [IsHexAddress] accepts exactly the strings [0x]/[0X] plus
    40 hex digits, and what it accepts decodes to those 20 bytes. *)
Theorem IsHexAddress_ascii s :
  ascii_string s →
  IsHexAddress s = true ↔
  (take 2 s = $"0x" ∨ take 2 s = $"0X") ∧
  ∃ a, is_address a ∧ DecodeString (drop 2 s) = Some a ∧ HexToAddress s = a.
Proof.
  intros Hs. rewrite IsHexAddress_bytes by done.
  rewrite !andb_true_iff, orb_true_iff, !bool_decide_eq_true. split.
  - intros [[Hl Hp] Hh]. split; [done|].
    destruct (DecodeString_total (drop 2 s)) as [a Ha].
    { apply Forall_forall. intros c Hc. rewrite forallb_forall in Hh. by apply Hh, list_elem_of_In. }
    { rewrite length_drop, Hl. done. }
    assert (is_address a) as Hla.
    { apply DecodeString_hex in Ha as [_ Ha]. rewrite length_drop, Hl in Ha.
      unfold is_address, AddressLength. lia. }
    exists a. split_and!; [done|done|].
    unfold HexToAddress, BytesToAddress, FromHex.
    rewrite bool_decide_false by (intros ->; done).
    assert ((2 <=? length s)%nat && (bool_decide (take 2 s = $"0x") || bool_decide (take 2 s = $"0X")) = true) as ->.
    { rewrite Hl. cbn [Nat.leb andb]. apply orb_true_iff. by rewrite !bool_decide_eq_true. }
    rewrite bool_decide_false by (intros E; apply (f_equal length) in E; rewrite length_drop, Hl in E; done).
    rewrite length_drop, Hl. change (Nat.odd (42 - 2)) with false. cbv iota.
    rewrite Ha. by apply setBytes_exact.
  - intros [Hp (a & Ha & HD & _)]. apply DecodeString_hex in HD as [HF Hl].
    rewrite length_drop in Hl. unfold is_address, AddressLength in Ha.
    assert (length s = 42%nat) by lia. split_and!; [done|done|].
    apply forallb_forall. intros c Hc. rewrite Forall_forall in HF. by apply HF, list_elem_of_In.
Qed.

Lemma IsHexAddress_ascii_witness :
  IsHexAddress ($"0x" ++ replicate 40 x61) = true ∧
  ∃ a, is_address a ∧ HexToAddress ($"0x" ++ replicate 40 x61) = a.
Proof.
  assert (ascii_string ($"0x" ++ replicate 40 x61)) as Hs by (repeat constructor).
  split; [vm_compute; reflexivity|].
  destruct (proj1 (IsHexAddress_ascii _ Hs) ltac:(vm_compute; reflexivity)) as (_ & a & Ha & _ & H).
  by exists a.
Defined.

(** Off ASCII [IsHexAddress] accepts more: 20 times the letter U+0130 passes, because
    the low byte of its rune is the digit 0, although no hex decoder reads it and
    [HexToAddress] answers the zero address. *)
Theorem IsHexAddress_accepts_non_hex :
  IsHexAddress ($"0x" ++ concat (replicate 20 [xc4; xb0])) = true ∧
  DecodeString (concat (replicate 20 [xc4; xb0])) = None ∧
  HexToAddress ($"0x" ++ concat (replicate 20 [xc4; xb0])) = replicate 20 x00.
Proof. vm_compute. done. Qed.
