(* ===== verification/HexUtil.v ===== *)
(** * JSON quantities and byte strings of the node API

    [pkg/eth/hexutil/hexutil.go]: the hexadecimal texts the node's JSON uses for
    big integers ([Big]), 64-bit integers ([Uint64]) and byte strings ([Bytes]),
    written by [MarshalJSON] and read by [UnmarshalJSON].  A JSON document is
    what [json.Unmarshal] makes of it ([EthCommon.json]). *)

From stdpp Require Import base list option.
From Stdlib Require Import ZArith Lia.
From Stdlib Require Import Strings.Byte.
From S2P Require Import Prelude.
From S2P Require Import GoStrings.
From S2P Require Import EthCommon.
Open Scope Z_scope.
Open Scope go_scope.

(** ** The texts *)

Definition Big_MarshalJSON (i : Z) : json :=
  if i =? 0 then JString $"0x0" else JString ($"0x" ++ Text 16 i).

Definition Big_String (i : Z) : gostring := $"0x" ++ Text 16 i.

Definition Uint64_MarshalJSON (u : Z) : json := JString ($"0x" ++ FormatBase 16 u).

Definition Uint64_String (u : Z) : gostring := $"0x" ++ FormatBase 16 u.

Definition Bytes_MarshalJSON (b : gostring) : json := JString ($"0x" ++ EncodeToString b).

Definition Bytes_String (b : gostring) : gostring := $"0x" ++ EncodeToString b.

(** Unmarshalling a JSON [null] into a Go string leaves it empty. *)
Definition json_string (data : json) : option gostring :=
  match data with JNull => Some [] | JString s => Some s | _ => None end.

Definition is_zero_text (s : gostring) : bool :=
  bool_decide (s = []) || bool_decide (s = $"0x") || bool_decide (s = $"0x0").

Definition trim_0x (s : gostring) : gostring := TrimPrefix (TrimPrefix s $"0x") $"0X".

Definition Big_UnmarshalJSON (data : json) : res json_error Z :=
  match json_string data with
  | None => Err NotAString
  | Some s0 =>
      let s := TrimSpace s0 in
      if is_zero_text s then Ok 0
      else match SetString 16 (trim_0x s) with Some i => Ok i | None => Err BadHex end
  end.

(** A number is tried where the document is no string: [json.Unmarshal] into a
    uint64 takes the integers of its range. *)
Definition Uint64_UnmarshalJSON (data : json) : res json_error Z :=
  match json_string data with
  | None =>
      match data with
      | JNumber n => if (0 <=? n) && (n <? W64) then Ok n else Err NotAString
      | _ => Err NotAString
      end
  | Some s0 =>
      let s := TrimSpace s0 in
      if is_zero_text s then Ok 0
      else match ParseUint 16 (trim_0x s) with Some v => Ok v | None => Err BadNumber end
  end.

Definition Bytes_UnmarshalJSON (data : json) : res json_error gostring :=
  match json_string data with
  | None => Err NotAString
  | Some s0 =>
      let s := TrimSpace s0 in
      if bool_decide (s = []) || bool_decide (s = $"0x") then Ok []
      else
        let t := trim_0x s in
        let t := if Nat.even (length t) then t else $"0" ++ t in
        match DecodeString t with Some b => Ok b | None => Err BadHex end
  end.

(** ** Texts the readers meet *)

(** A text after [0x] that neither holds white space nor begins like another
    prefix is read as it stands. *)
Definition plain (t : gostring) : Prop :=
  Forall (λ b, is_space b = false) t ∧ HasPrefix t $"0X" = false.

Lemma TrimSpace_plain t : plain t → TrimSpace ($"0x" ++ t) = $"0x" ++ t.
Proof. intros [Ht _]. apply TrimSpace_nospace. apply Forall_app; split; [by repeat constructor | done]. Qed.

Lemma trim_0x_plain t : plain t → trim_0x ($"0x" ++ t) = t.
Proof.
  intros [_ Ht]. unfold trim_0x. rewrite TrimPrefix_app. unfold TrimPrefix. by rewrite Ht.
Qed.

Lemma HasPrefix_0X_hex t : (∀ b, b ∈ t → b ≠ x58) → HasPrefix t $"0X" = false.
Proof.
  intros Ht. destruct (HasPrefix t $"0X") eqn:E; [|done].
  apply HasPrefix_true in E as [r ->]. exfalso. eapply (Ht x58); [|done]. simpl. set_solver.
Qed.

Lemma hexdigit_plain d : 0 ≤ d < 16 → is_space (hexdigit d) = false ∧ hexdigit d ≠ x58.
Proof.
  intros Hd. assert (d ∈ seqZ 0 16) as Hin by (apply elem_of_seqZ; lia).
  repeat (apply elem_of_cons in Hin as [->|Hin]; [by split|]). by apply not_elem_of_nil in Hin.
Qed.

Lemma plain_intro t : Forall (λ b, is_space b = false ∧ b ≠ x58) t → plain t.
Proof.
  intros Ht. split; [eapply Forall_impl; [exact Ht|by intros ? []]|].
  apply HasPrefix_0X_hex. intros b Hb. rewrite Forall_forall in Ht. by apply Ht.
Qed.

Lemma FormatBase_plain z : 0 ≤ z → Forall (λ b, is_space b = false ∧ b ≠ x58) (FormatBase 16 z).
Proof.
  intros Hz. unfold FormatBase. apply Forall_fmap.
  eapply Forall_impl; [by apply digits_range|]. intros d Hd. by apply hexdigit_plain.
Qed.

Lemma Text_plain z : plain (Text 16 z).
Proof.
  apply plain_intro. unfold Text. case_match eqn:E; [|apply FormatBase_plain; lia].
  constructor; [done|]. apply FormatBase_plain. lia.
Qed.

Lemma EncodeToString_plain bs : plain (EncodeToString bs).
Proof.
  apply plain_intro. unfold EncodeToString. apply Forall_bind, Forall_true. intros b.
  pose proof (byte_Z_range b). unfold hex_of_byte.
  repeat constructor; apply hexdigit_plain;
    first [split; [apply Z.div_pos; lia | apply Z.div_lt_upper_bound; lia] | apply Z.mod_pos_bound; lia].
Qed.

Lemma is_zero_text_0x t : is_zero_text ($"0x" ++ t) = bool_decide (t = []) || bool_decide (t = $"0").
Proof.
  unfold is_zero_text.
  change $"0x0" with [x30; x78; x30]. change $"0x" with [x30; x78]. change $"0" with [x30]. cbn [app].
  repeat case_bool_decide; simplify_eq/=; congruence.
Qed.

Lemma Text_not_empty z : Text 16 z ≠ [].
Proof. unfold Text. case_match; [done|]. apply FormatBase_nonempty. Qed.

Lemma Text_zero z : Text 16 z = $"0" → z = 0.
Proof.
  intros E. pose proof (SetString_Text 16 ltac:(lia) z) as H. rewrite E in H.
  by injection H as <-.
Qed.

(** ** Round trips *)

(** what the indexer writes as JSON it reads back: every big integer
    (negative ones included), every 64-bit integer and every byte string, with
    the prefix, the zero texts and the odd-length padding of the reader. *)
Theorem hexutil_json_roundtrip i u b :
  is_u64 u →
  Big_UnmarshalJSON (Big_MarshalJSON i) = Ok i ∧
  Uint64_UnmarshalJSON (Uint64_MarshalJSON u) = Ok u ∧
  Bytes_UnmarshalJSON (Bytes_MarshalJSON b) = Ok b.
Proof.
  intros Hu. split_and!.
  - unfold Big_MarshalJSON. destruct (Z.eqb_spec i 0) as [->|Hi]; [done|].
    cbn [Big_UnmarshalJSON json_string]. unfold Big_UnmarshalJSON, json_string.
    rewrite TrimSpace_plain, is_zero_text_0x, trim_0x_plain by apply Text_plain.
    rewrite (bool_decide_eq_false_2 (_ = [])) by apply Text_not_empty.
    rewrite bool_decide_eq_false_2 by (intros E; by apply Hi, Text_zero). cbn [orb].
    by rewrite SetString_Text by lia.
  - assert (plain (FormatBase 16 u)) as Hp by (apply plain_intro, FormatBase_plain; apply Hu).
    unfold Uint64_UnmarshalJSON, Uint64_MarshalJSON, json_string.
    rewrite TrimSpace_plain, is_zero_text_0x, trim_0x_plain by done.
    rewrite (bool_decide_eq_false_2 (_ = [])) by apply FormatBase_nonempty.
    pose proof (ParseUint_Format 16 ltac:(lia) u Hu) as HP.
    case_bool_decide as E; cbn [orb]; [rewrite E in HP; by injection HP as <-|]. by rewrite HP.
  - unfold Bytes_UnmarshalJSON, Bytes_MarshalJSON, json_string.
    rewrite TrimSpace_plain, trim_0x_plain by apply EncodeToString_plain.
    rewrite length_EncodeToString, Nat.even_mul. change (Nat.even 2) with true. cbn [orb].
    rewrite DecodeString_Encode.
    destruct b as [|x b]; [done|]. by rewrite !bool_decide_eq_false_2 by (simpl; congruence).
Qed.

Lemma hexutil_json_roundtrip_witness :
  is_u64 (2 ^ 64 - 1) ∧
  Big_UnmarshalJSON (Big_MarshalJSON (-255)) = Ok (-255) ∧
  Uint64_UnmarshalJSON (Uint64_MarshalJSON (2 ^ 64 - 1)) = Ok (2 ^ 64 - 1) ∧
  Bytes_UnmarshalJSON (Bytes_MarshalJSON [x00; xff]) = Ok [x00; xff].
Proof.
  assert (is_u64 (2 ^ 64 - 1)) as Hu by (unfold is_u64; lia). split; [exact Hu|].
  exact (hexutil_json_roundtrip (-255) (2 ^ 64 - 1) [x00; xff] Hu).
Defined.
