(* ===== verification/Rlp.v ===== *)
(** * RLP encoding of deposit transactions

    [pkg/eth/rlp/rlp.go]: the encoder the indexer uses to rebuild the L2
    transaction of an L1 deposit.  Go values reach it by reflection; [value] is
    the kinds it distinguishes.  A reference decoder ([decode_items]), written from
    the RLP rules, reads every encoding back, so that two values with one
    encoding carry the same data. *)

From stdpp Require Import base list option.
From Stdlib Require Import ZArith Lia.
From Stdlib Require Import Strings.Byte.
From S2P Require Import Prelude.
Open Scope Z_scope.
Open Scope go_scope.

(** ** Encoder *)

(** [putUintBE]: the eight big-endian bytes from the first that is not 0 on. *)
Fixpoint trim0 (l : gostring) : gostring :=
  match l with
  | [] => []
  | b :: r => if bool_decide (b = x00) then trim0 r else l
  end.
Definition putUintBE (v : Z) : gostring := trim0 (be_bytes 8 v).

(** [big.Int.Bytes]: the big-endian bytes of the absolute value, none for 0. *)
Definition byte_size (z : Z) : nat := S (Z.to_nat (Z.log2 z / 8)).
Definition big_Bytes (z : Z) : gostring := trim0 (be_bytes (byte_size (Z.abs z)) (Z.abs z)).

Definition encodeStringHeader (length : Z) : gostring :=
  if length <=? 55 then [Z_byte (0x80 + length)]
  else let lenBytes := putUintBE length in Z_byte (0xb7 + zlen lenBytes) :: lenBytes.

Definition encodeBytes (b : gostring) : gostring :=
  match b with
  | [x] => if byte_Z x <=? 0x7f then [x] else encodeStringHeader (zlen b) ++ b
  | _ => encodeStringHeader (zlen b) ++ b
  end.

Definition appendListHeader (payload : gostring) : gostring :=
  let length := zlen payload in
  if length <=? 55 then Z_byte (0xc0 + length) :: payload
  else let lenBytes := putUintBE length in Z_byte (0xf7 + zlen lenBytes) :: lenBytes ++ payload.

Definition encodeBigInt (i : Z) : gostring := if i =? 0 then [x80] else encodeBytes (big_Bytes i).
Definition encodeUint64 (v : Z) : gostring := if v =? 0 then [x80] else encodeBytes (putUintBE v).
Definition encodeBool (b : bool) : gostring := if b then [x01] else [x80].

(** What reflection finds: pointers may be nil, a struct's fields carry whether
    they are exported, a slice or array that is not one of bytes and every other
    kind is refused. *)
Inductive value :=
| VInterface (v : value)
| VBigPtr (i : option Z)
| VPtr (v : option value)
| VStruct (fields : list (bool * value))
| VSlice (b : gostring)
| VArray (b : gostring)
| VUint64 (v : Z)
| VBool (b : bool)
| VUnsupported.

Fixpoint encode (v : value) : option gostring :=
  match v with
  | VInterface v => encode v
  | VBigPtr None => Some [x80]
  | VBigPtr (Some i) => Some (encodeBigInt i)
  | VPtr None => Some [x80]
  | VPtr (Some v) => encode v
  | VStruct fields =>
      appendListHeader <$>
        (fix encodeStruct (fs : list (bool * value)) : option gostring :=
           match fs with
           | [] => Some []
           | (exported, f) :: r =>
               if exported then b ← encode f; app b <$> encodeStruct r else encodeStruct r
           end) fields
  | VSlice b => Some (encodeBytes b)
  | VArray b => Some (encodeBytes b)
  | VUint64 v => Some (encodeUint64 v)
  | VBool b => Some (encodeBool b)
  | VUnsupported => None
  end.

Definition EncodeToBytes (v : value) : option gostring := encode v.

(** ** Reference decoder

    An RLP item is a byte string or a list of items. *)
Inductive item := Str (b : gostring) | Lst (l : list item).

(** The first item of a nonempty string: whether it is a list, its payload and
    what follows it. *)
Definition cut (is_list : bool) (n : Z) (bs : gostring) : option (bool * gostring * gostring) :=
  if zlen bs <? n then None else Some (is_list, take (Z.to_nat n) bs, drop (Z.to_nat n) bs).

Definition cut_long (is_list : bool) (k : Z) (bs : gostring) : option (bool * gostring * gostring) :=
  if zlen bs <? k then None
  else cut is_list (be_Z (take (Z.to_nat k) bs)) (drop (Z.to_nat k) bs).

Definition split_item (bs : gostring) : option (bool * gostring * gostring) :=
  match bs with
  | [] => None
  | b :: r =>
      let p := byte_Z b in
      if p <? 0x80 then Some (false, [b], r)
      else if p <=? 0xb7 then cut false (p - 0x80) r
      else if p <=? 0xbf then cut_long false (p - 0xb7) r
      else if p <=? 0xf7 then cut true (p - 0xc0) r
      else cut_long true (p - 0xf7) r
  end.

(** The items a byte string is made of; one unit of fuel per byte is enough. *)
Fixpoint decode_items (fuel : nat) (bs : gostring) : option (list item) :=
  match fuel, bs with
  | _, [] => Some []
  | O, _ => None
  | S f, _ =>
      '(is_list, payload, rest) ← split_item bs;
      it ← (if is_list : bool then Lst <$> decode_items f payload else Some (Str payload));
      cons it <$> decode_items f rest
  end.

(** The item a value is encoded as. *)
Fixpoint item_of (v : value) : option item :=
  match v with
  | VInterface v => item_of v
  | VBigPtr None => Some (Str [])
  | VBigPtr (Some i) => Some (Str (big_Bytes i))
  | VPtr None => Some (Str [])
  | VPtr (Some v) => item_of v
  | VStruct fields =>
      Lst <$> (fix items (fs : list (bool * value)) : option (list item) :=
           match fs with
           | [] => Some []
           | (exported, f) :: r => if exported then b ← item_of f; cons b <$> items r else items r
           end) fields
  | VSlice b | VArray b => Some (Str b)
  | VUint64 v => Some (Str (putUintBE v))
  | VBool b => Some (Str (if b then [x01] else []))
  | VUnsupported => None
  end.

Fixpoint enc (it : item) : gostring :=
  match it with
  | Str b => encodeBytes b
  | Lst l => appendListHeader (l ≫= enc)
  end.

(** ** Minimal big-endian bytes *)

Lemma trim0_be_Z l : be_Z (trim0 l) = be_Z l.
Proof.
  induction l as [|b l IH]; cbn [trim0]; [done|]. case_bool_decide as E; [|done].
  rewrite IH, be_Z_cons, E. change (byte_Z x00) with 0. lia.
Qed.

Lemma trim0_length l : (length (trim0 l) ≤ length l)%nat.
Proof. induction l as [|b l IH]; cbn [trim0]; [done|]. case_bool_decide; cbn; lia. Qed.

Definition minimal (l : gostring) : Prop := head l ≠ Some x00.

Lemma trim0_minimal l : minimal (trim0 l).
Proof. unfold minimal. induction l as [|b l IH]; cbn [trim0]; [done|]. case_bool_decide; [done|cbn; congruence]. Qed.

Lemma minimal_bound b l : minimal (b :: l) → 256 ^ zlen l ≤ be_Z (b :: l).
Proof.
  intros Hm. rewrite be_Z_cons. pose proof (be_Z_range l). pose proof (byte_Z_range b). unfold zlen.
  assert (byte_Z b ≠ 0) as Hb by (intros E; apply Hm; cbn; f_equal; by apply byte_Z_inj). nia.
Qed.

(** Minimal bytes are determined by their value. *)
Lemma minimal_inj a b : minimal a → minimal b → be_Z a = be_Z b → a = b.
Proof.
  intros Ha Hb E. enough (length a = length b) as L.
  { rewrite <- (be_bytes_be_Z a), <- (be_bytes_be_Z b). by rewrite E, L. }
  assert (∀ x y : gostring, minimal x → be_Z x = be_Z y → (length x ≤ length y)%nat) as Hle.
  { intros [|c x] y Hx Exy; cbn; [lia|]. pose proof (minimal_bound c x Hx) as Hlow.
    pose proof (be_Z_range y) as Hy. unfold zlen in Hlow. rewrite Exy in Hlow.
    assert (256 ^ Z.of_nat (length x) < 256 ^ Z.of_nat (length y)) as Hpow by lia.
    apply Z.pow_lt_mono_r_iff in Hpow; lia. }
  apply Nat.le_antisymm; apply Hle; congruence.
Qed.

Lemma putUintBE_value v : is_u64 v → be_Z (putUintBE v) = v.
Proof.
  intros Hv. unfold putUintBE. rewrite trim0_be_Z, be_Z_be_bytes. apply Z.mod_small.
  unfold is_u64 in Hv. lia.
Qed.

Lemma big_Bytes_value z : be_Z (big_Bytes z) = Z.abs z.
Proof.
  unfold big_Bytes. rewrite trim0_be_Z, be_Z_be_bytes. apply Z.mod_small. split; [lia|].
  destruct (Z.eq_dec z 0) as [->|Hz]; [done|].
  pose proof (Z.log2_spec (Z.abs z) ltac:(lia)) as [_ H]. pose proof (Z.log2_nonneg (Z.abs z)).
  eapply Z.lt_le_trans; [exact H|]. change 256 with (2 ^ 8). rewrite <- Z.pow_mul_r by lia.
  apply Z.pow_le_mono_r; [lia|]. unfold byte_size.
  assert (0 ≤ Z.log2 (Z.abs z) / 8) by (apply Z.div_pos; lia).
  rewrite Nat2Z.inj_succ, Z2Nat.id by done. pose proof (Z.mod_pos_bound (Z.log2 (Z.abs z)) 8).
  pose proof (Z.div_mod (Z.log2 (Z.abs z)) 8). lia.
Qed.

Lemma putUintBE_length v : is_u64 v → 0 < v → 1 ≤ zlen (putUintBE v) ≤ 8.
Proof.
  intros Hv Hpos. pose proof (trim0_length (be_bytes 8 v)) as L. rewrite length_be_bytes in L.
  fold (putUintBE v) in L. pose proof (putUintBE_value v Hv) as E. unfold zlen.
  destruct (putUintBE v); [cbn in E; lia|cbn in *; lia].
Qed.

Lemma encodeBigInt_Bytes i : encodeBigInt i = encodeBytes (big_Bytes i).
Proof. unfold encodeBigInt. by destruct (Z.eqb_spec i 0) as [->|]. Qed.

Lemma encodeUint64_bytes v : encodeUint64 v = encodeBytes (putUintBE v).
Proof. unfold encodeUint64. by destruct (Z.eqb_spec v 0) as [->|]. Qed.

Lemma encodeBool_bytes b : encodeBool b = encodeBytes (if b then [x01] else []).
Proof. by destruct b. Qed.

(** ** One item at a time *)

Lemma cut_app is_list a r : cut is_list (zlen a) (a ++ r) = Some (is_list, a, r).
Proof.
  unfold cut. rewrite zlen_app. pose proof (zlen_nonneg r).
  destruct (Z.ltb_spec (zlen a + zlen r) (zlen a)); [lia|].
  unfold zlen. by rewrite Nat2Z.id, take_app_length, drop_app_length.
Qed.

Lemma cut_long_app is_list a r :
  is_u64 (zlen a) → 0 < zlen a →
  cut_long is_list (zlen (putUintBE (zlen a))) (putUintBE (zlen a) ++ a ++ r) = Some (is_list, a, r).
Proof.
  intros Ha Hpos. unfold cut_long. rewrite zlen_app. pose proof (zlen_nonneg (a ++ r)).
  destruct (Z.ltb_spec (zlen (putUintBE (zlen a)) + zlen (a ++ r)) (zlen (putUintBE (zlen a)))); [lia|].
  unfold zlen at 1 2. rewrite Nat2Z.id. rewrite take_app_length.
  replace (drop _ _) with (a ++ r) by (unfold zlen; by rewrite Nat2Z.id, drop_app_length).
  rewrite putUintBE_value by done. apply cut_app.
Qed.

Ltac prefix_cases :=
  repeat match goal with |- context [?a <=? ?b] => destruct (Z.leb_spec a b); [|try lia] | |- context [?a <? ?b] => destruct (Z.ltb_spec a b); [try lia|] end.

Lemma split_string b r : zlen b < W64 → split_item (encodeBytes b ++ r) = Some (false, b, r).
Proof.
  intros Hb. pose proof (zlen_nonneg b) as H0.
  assert (split_item ((encodeStringHeader (zlen b) ++ b) ++ r) = Some (false, b, r)) as Hgen.
  { rewrite <- app_assoc. unfold encodeStringHeader. destruct (Z.leb_spec (zlen b) 55) as [Hs|Hl].
    - cbn [app split_item]. rewrite byte_Z_of_small by lia. prefix_cases.
      replace (0x80 + zlen b - 0x80) with (zlen b) by lia. apply cut_app.
    - pose proof (putUintBE_length (zlen b) ltac:(unfold is_u64; lia) ltac:(lia)) as HL.
      cbn [app split_item]. rewrite byte_Z_of_small by lia. prefix_cases; [lia|].
      replace (0xb7 + _ - 0xb7) with (zlen (putUintBE (zlen b))) by lia.
      apply cut_long_app; unfold is_u64; lia. }
  unfold encodeBytes. destruct b as [|x [|y b]]; try exact Hgen.
  destruct (Z.leb_spec (byte_Z x) 0x7f) as [Hx|]; [|exact Hgen].
  cbn [app split_item]. destruct (Z.ltb_spec (byte_Z x) 0x80); [done|lia].
Qed.

Lemma split_list p r : zlen p < W64 → split_item (appendListHeader p ++ r) = Some (true, p, r).
Proof.
  intros Hp. pose proof (zlen_nonneg p) as H0. unfold appendListHeader.
  destruct (Z.leb_spec (zlen p) 55) as [Hs|Hl].
  - cbn [app split_item]. rewrite byte_Z_of_small by lia. prefix_cases; try lia.
    replace (0xc0 + zlen p - 0xc0) with (zlen p) by lia. apply cut_app.
  - pose proof (putUintBE_length (zlen p) ltac:(unfold is_u64; lia) ltac:(lia)) as HL.
    cbn [app split_item]. rewrite byte_Z_of_small by lia. prefix_cases; try lia.
    replace (0xf7 + _ - 0xf7) with (zlen (putUintBE (zlen p))) by lia.
    rewrite <- app_assoc. apply cut_long_app; unfold is_u64; lia.
Qed.

Lemma appendListHeader_length p : (length p < length (appendListHeader p))%nat.
Proof. unfold appendListHeader. case_match; cbn; rewrite ?length_app; lia. Qed.

Lemma encodeBytes_length b : (length b ≤ length (encodeBytes b))%nat ∧ (0 < length (encodeBytes b))%nat.
Proof.
  assert (0 < length (encodeStringHeader (zlen b)))%nat.
  { unfold encodeStringHeader. case_match; cbn; lia. }
  unfold encodeBytes. destruct b as [|x [|y b]]; [| |]; rewrite ?length_app; try lia.
  case_match; rewrite ?length_app; cbn in *; lia.
Qed.

Lemma enc_length it : (0 < length (enc it))%nat.
Proof. destruct it; cbn [enc]; [apply encodeBytes_length | pose proof (appendListHeader_length (l ≫= enc)); lia]. Qed.

Lemma enc_Str b : enc (Str b) = encodeBytes b.
Proof. done. Qed.

Lemma enc_Lst l : enc (Lst l) = appendListHeader (l ≫= enc).
Proof. done. Qed.

(** The decoder reads back any sequence of items. *)
Lemma decode_items_enc fuel l :
  (length (l ≫= enc) ≤ fuel)%nat → zlen (l ≫= enc) < W64 → decode_items fuel (l ≫= enc) = Some l.
Proof.
  revert l. induction fuel as [|f IH]; intros [|it l] Hf Hlen; try done.
  { pose proof (enc_length it). rewrite bind_cons, length_app in Hf. lia. }
  rewrite bind_cons in *. rewrite length_app in Hf. unfold zlen in Hlen. rewrite length_app in Hlen.
  pose proof (enc_length it) as Hpos.
  assert (decode_items f (l ≫= enc) = Some l) as Hrest by (apply IH; unfold zlen; lia).
  cbn [decode_items]. destruct (enc it ++ (l ≫= enc)) as [|c cs] eqn:E.
  { apply app_eq_nil in E as [E _]. rewrite E in Hpos. cbn in Hpos. lia. }
  rewrite <- E. clear E. destruct it as [b|ps]; cbn [enc] in *.
  - pose proof (encodeBytes_length b). rewrite split_string by (unfold zlen; lia). cbn. by rewrite Hrest.
  - pose proof (appendListHeader_length (ps ≫= enc)). rewrite split_list by (unfold zlen; lia). cbn.
    assert (decode_items f (ps ≫= enc) = Some ps) as Hps by (apply IH; unfold zlen; lia).
    cbn in Hps, Hrest. rewrite Hps. cbn. by rewrite Hrest.
Qed.

(** Induction over values, with the fields of a struct. *)
Section ValueInd.
Context (P : value → Prop).
Hypothesis Pint : ∀ v, P v → P (VInterface v).
Hypothesis Pbig : ∀ i, P (VBigPtr i).
Hypothesis Pnil : P (VPtr None).
Hypothesis Pptr : ∀ v, P v → P (VPtr (Some v)).
Hypothesis Pstruct : ∀ fs, Forall (λ f, P f.2) fs → P (VStruct fs).
Hypothesis Pslice : ∀ b, P (VSlice b).
Hypothesis Parray : ∀ b, P (VArray b).
Hypothesis Pu : ∀ u, P (VUint64 u).
Hypothesis Pb : ∀ b, P (VBool b).
Hypothesis Pbad : P VUnsupported.

Fixpoint value_ind' (v : value) : P v :=
  match v with
  | VInterface v => Pint v (value_ind' v)
  | VBigPtr i => Pbig i
  | VPtr None => Pnil
  | VPtr (Some v) => Pptr v (value_ind' v)
  | VStruct fs =>
      Pstruct fs ((fix go (l : list (bool * value)) : Forall (λ f, P f.2) l :=
        match l with [] => Forall_nil_2 _ | f :: r => Forall_cons_2 _ f r (value_ind' f.2) (go r) end) fs)
  | VSlice b => Pslice b
  | VArray b => Parray b
  | VUint64 u => Pu u
  | VBool b => Pb b
  | VUnsupported => Pbad
  end.
End ValueInd.

(** The encoder writes the item of the value. *)
Lemma encode_item v : encode v = enc <$> item_of v.
Proof.
  induction v as [w IH|i| |w IH|fs IH|s|s|u|t|] using value_ind'; cbn [encode item_of]; try done.
  - destruct i as [i|]; cbn; [by rewrite encodeBigInt_Bytes|done].
  - match goal with |- appendListHeader <$> ?f fs = _ => set (ef := f) end.
    match goal with |- _ = enc <$> (Lst <$> ?g fs) => set (ig := g) end.
    enough (ef fs = (λ l, l ≫= enc) <$> ig fs) as ->; [by destruct (ig fs)|].
    induction IH as [|[x f] r Hf _ IHr]; [done|]. cbn in Hf.
    change (ef ((x, f) :: r)) with (if x then encode f ≫= λ b, app b <$> ef r else ef r).
    change (ig ((x, f) :: r)) with (if x then item_of f ≫= λ b, cons b <$> ig r else ig r).
    destruct x; [|exact IHr]. rewrite Hf, IHr. destruct (item_of f), (ig r); done.
  - cbn. by rewrite encodeUint64_bytes.
  - cbn. by rewrite encodeBool_bytes.
Qed.

Lemma encode_decodes v bs : EncodeToBytes v = Some bs → zlen bs < W64 →
  ∃ it, item_of v = Some it ∧ decode_items (length bs) bs = Some [it].
Proof.
  unfold EncodeToBytes. rewrite encode_item. destruct (item_of v) as [it|]; [|done]. cbn.
  intros [= <-] Hlen. exists it. split; [done|].
  pose proof (decode_items_enc (length (enc it)) [it]) as H. rewrite bind_one in H. by apply H.
Qed.

(** C36: the reference decoder reads every encoding back to the one item the value
    stands for (its integers as minimal big-endian bytes, a nil pointer as the
    empty string, the exported fields of a struct as a list), with nothing left
    over; and a value with an unsupported part is refused. *)
Theorem rlp_roundtrip v :
  match EncodeToBytes v with
  | Some bs => zlen bs < W64 → ∃ it, item_of v = Some it ∧ decode_items (length bs) bs = Some [it]
  | None => item_of v = None
  end.
Proof.
  destruct (EncodeToBytes v) as [bs|] eqn:E; [by apply encode_decodes|].
  unfold EncodeToBytes in E. rewrite encode_item in E. by destruct (item_of v).
Qed.

Lemma rlp_roundtrip_witness :
  ∃ bs, EncodeToBytes (VStruct [(true, VUint64 1024); (false, VBool true); (true, VPtr None); (true, VSlice [x05])]) = Some bs ∧
    decode_items (length bs) bs = Some [Lst [Str [x04; x00]; Str []; Str [x05]]].
Proof.
  pose proof (rlp_roundtrip (VStruct [(true, VUint64 1024); (false, VBool true); (true, VPtr None); (true, VSlice [x05])])) as H.
  eexists. split; [reflexivity|]. destruct H as (it & E & D); [reflexivity|].
  injection E as <-. exact D.
Defined.
