(* ===== verification/MissingRanges.v ===== *)
(** * The record of missing blocks: internal/db/missing_ranges.go

    The table missing_block_ranges holds inclusive ranges of block numbers that
    the indexer knows it has not stored.  [store] is the part of the database
    these functions read and write: the rows in insertion order, the serial id
    counter, the set of stored block numbers, [history_from()] and the row of
    indexer_progress.

    Every statement runs against a [world]: before it, the other writers of the
    process may commit statements of their own, and the statement itself may be
    refused or lose its acknowledgement ([event]).  An empty script is a quiet,
    healthy database. *)

From S2P Require Import Prelude.

Record BlockRange := mkRange { ID : Z; FromNumber : Z; ToNumber : Z }.
#[export] Instance BlockRange_eq_dec : EqDecision BlockRange.
Proof. solve_decision. Defined.

Record IndexerProgress := mkProgress {
  MinFetchedBlock : Z; MaxFetchedBlock : Z; BackfillComplete : bool }.

Record store := mkStore {
  rows : list BlockRange;
  next_id : Z;
  blocks : gset Z;
  history_from : Z;
  progress : option IndexerProgress }.

Definition set_rows (f : list BlockRange → list BlockRange) (s : store) : store :=
  mkStore (f (rows s)) (next_id s) (blocks s) (history_from s) (progress s).

Inductive db_err := Lost | Cancelled | Encode | CheckViolation | UniqueViolation | NoRows | BadLimit.
#[export] Instance db_err_eq_dec : EqDecision db_err.
Proof. solve_decision. Defined.

(** pgx refuses a uint64 above the bigint range. *)
Definition bigint (z : Z) : bool := z <? H64.

(** ** What a table means *)

Definition contains (r : BlockRange) (n : Z) : Prop := FromNumber r ≤ n ≤ ToNumber r.
#[export] Instance contains_dec r n : Decision (contains r n).
Proof. unfold contains. apply _. Defined.
Definition covers (rs : list BlockRange) (n : Z) : Prop := Exists (λ r, contains r n) rs.
#[export] Instance covers_dec rs n : Decision (covers rs n).
Proof. unfold covers. apply _. Defined.

(** [unique_range], [valid_range] and the primary key. *)
Definition table_ok (s : store) : Prop :=
  NoDup (ID <$> rows s) ∧
  NoDup ((λ r, (FromNumber r, ToNumber r)) <$> rows s) ∧
  Forall (λ r, FromNumber r ≤ ToNumber r) (rows s) ∧
  Forall (λ r, ID r < next_id s) (rows s).

(** ** Statements *)

Definition same_range (f t : Z) (r : BlockRange) : bool :=
  (FromNumber r =? f) && (ToNumber r =? t).

Definition insert_range (ignore : bool) (f t : Z) (s : store) : res db_err store :=
  if negb (bigint f && bigint t) then Err Encode
  else if t <? f then Err CheckViolation
  else if existsb (same_range f t) (rows s) then
    (if ignore
     then Ok (mkStore (rows s) (next_id s + 1) (blocks s) (history_from s) (progress s))
     else Err UniqueViolation)
  else Ok (mkStore (rows s ++ [mkRange (next_id s) f t]) (next_id s + 1)
                   (blocks s) (history_from s) (progress s)).

Fixpoint insert_ranges (ignore : bool) (l : list (Z * Z)) (s : store) : res db_err store :=
  match l with
  | [] => Ok s
  | (f, t) :: l => try s := insert_range ignore f t s in insert_ranges ignore l s
  end.

(** DELETE with a condition. *)
Definition delete_rows (p : BlockRange → bool) : store → store :=
  set_rows (filter (λ r, p r = false)).

(** ** The world: interference and faults *)

Inductive action :=
| AStore (n : Z)      (* another writer commits block n *)
| AMark (n : Z)       (* a catch-up worker marks n: every row that holds n is deleted whole *)
| AInsert (f t : Z)   (* a failed block is recorded again (f = t), or a concurrent scan saves a gap *)
| ARevert (n : Z)     (* a reorg removes the blocks from n up, which the reverting loop indexes again *)
| APrune (h : Z).     (* retention prunes below h *)

Inductive fault := NoFault | Refused | AckLost.

Record event := mkEvent { others : list action; failure : fault; stopped : bool }.

(** [taken] are the blocks other loops took out of the tables: those of the rows a mark
    deleted, whoever was to index them, and those a revert removed. Whether anybody still
    holds such a block is not said here: a mark deletes the blocks of a row nobody has read
    yet as well. *)
Record world := mkWorld { st : store; taken : gset Z; script : list event }.

Definition range_set (lo hi : Z) : gset Z := list_to_set (seqZ lo (hi - lo + 1)).

Definition prune_rows (h : Z) (rs : list BlockRange) : list BlockRange :=
  (λ r, mkRange (ID r) (Z.max (FromNumber r) h) (ToNumber r)) <$> filter (λ r, h ≤ ToNumber r) rs.

Definition apply_action (a : action) (w : world) : world :=
  let s := st w in
  match a with
  | AStore n =>
      mkWorld (mkStore (rows s) (next_id s) ({[n]} ∪ blocks s) (history_from s) (progress s))
              (taken w) (script w)
  | AMark n =>
      mkWorld (delete_rows (λ r, bool_decide (contains r n)) s)
              (taken w ∪ ⋃ ((λ r, range_set (FromNumber r) (ToNumber r)) <$> filter (λ r, contains r n) (rows s)))
              (script w)
  | AInsert f t =>
      match insert_range true f t s with
      | Ok s' => mkWorld s' (taken w) (script w)
      | Err _ => w
      end
  | ARevert n =>
      mkWorld (mkStore (rows s) (next_id s) (filter (λ b, b < n) (blocks s)) (history_from s) (progress s))
              (taken w ∪ filter (λ b, n ≤ b) (blocks s)) (script w)
  | APrune h =>
      if h <=? history_from s then w
      else mkWorld (mkStore (prune_rows h (rows s)) (next_id s) (filter (λ b, h ≤ b) (blocks s)) h (progress s))
                   (taken w) (script w)
  end.

Definition quiet : event := mkEvent [] NoFault false.

(** The next event of the script, with the other writers' statements applied. *)
Definition next_event (w : world) : event * world :=
  match script w with
  | [] => (quiet, w)
  | e :: es => (e, foldl (λ w a, apply_action a w) (mkWorld (st w) (taken w) es) (others e))
  end.

Definition DB (A : Type) : Type := world → world * res db_err A.
Definition ret {A} (a : A) : DB A := λ w, (w, Ok a).
Definition fail {A} (e : db_err) : DB A := λ w, (w, Err e).
Definition bind {A B} (m : DB A) (f : A → DB B) : DB B :=
  λ w, match m w with
       | (w, Ok a) => f a w
       | (w, Err e) => (w, Err e)
       end.
Notation "'let!' x := m 'in' k" := (bind m (λ x, k))
  (at level 10, x pattern, m at level 100, k at level 200) : go_scope.

(** One statement, or one transaction: it takes effect whole or not at all. *)
Definition statement {A} (f : store → res db_err (A * store)) : DB A :=
  λ w, let '(e, w) := next_event w in
       match failure e, f (st w) with
       | Refused, _ => (w, Err Lost)
       | _, Err x => (w, Err x)
       | NoFault, Ok (a, s) => (mkWorld s (taken w) (script w), Ok a)
       | AckLost, Ok (_, s) => (mkWorld s (taken w) (script w), Err Lost)
       end.

Definition query {A} (f : store → res db_err A) : DB A :=
  statement (λ s, try a := f s in Ok (a, s)).
Definition exec (f : store → res db_err store) : DB unit :=
  statement (λ s, try s := f s in Ok (tt, s)).

(** [ctx.Done()] or [ctx.Err() != nil]. *)
Definition done_ctx : DB bool :=
  λ w, let '(e, w) := next_event w in (w, Ok (stopped e)).

(** ** The functions of the file *)

Definition GetIndexerProgress : DB IndexerProgress :=
  query (λ s, Ok (match progress s with Some p => p | None => mkProgress 0 0 false end)).

Definition UpdateIndexerProgress (minBlock maxBlock : Z) (complete : bool) : DB unit :=
  exec (λ s,
    if negb (bigint minBlock && bigint maxBlock) then Err Encode
    else Ok (mkStore (rows s) (next_id s) (blocks s) (history_from s)
               (match progress s with
                | Some _ => Some (mkProgress minBlock maxBlock complete)
                | None => None
                end))).

Definition SaveMissingRanges (ranges : list BlockRange) : DB unit :=
  if bool_decide (ranges = []) then ret tt
  else exec (insert_ranges true ((λ r, (FromNumber r, ToNumber r)) <$> ranges)).

(** ORDER BY from_number (DESC): the order of equal keys is the database's own;
    here it is the order of insertion. *)
Definition newest_first (a b : BlockRange) : Prop := FromNumber b ≤ FromNumber a.
Definition lowest_first (a b : BlockRange) : Prop := FromNumber a ≤ FromNumber b.
#[export] Instance newest_first_dec : RelDecision newest_first.
Proof. intros a b. unfold newest_first. apply _. Defined.
#[export] Instance lowest_first_dec : RelDecision lowest_first.
Proof. intros a b. unfold lowest_first. apply _. Defined.

Definition clamp (h : Z) (r : BlockRange) : BlockRange :=
  mkRange (ID r) (Z.max (FromNumber r) h) (ToNumber r).

Definition missing_batch (batchSize : Z) (s : store) : list BlockRange :=
  clamp (history_from s) <$>
    take (Z.to_nat batchSize)
      (merge_sort newest_first (filter (λ r, history_from s ≤ ToNumber r) (rows s))).

Definition GetMissingRangesBatch (batchSize : Z) : DB (list BlockRange) :=
  query (λ s, if batchSize <? 0 then Err BadLimit else Ok (missing_batch batchSize s)).

Definition GetLowestMissingRanges (limit : Z) (skip : list Z) : DB (list BlockRange) :=
  query (λ s,
    if limit <? 0 then Err BadLimit else
    Ok (take (Z.to_nat limit)
          (merge_sort lowest_first
             (filter (λ r, FromNumber r ∉ i64 <$> skip)
                (clamp (history_from s) <$> filter (λ r, history_from s ≤ ToNumber r) (rows s)))))).

Definition DeleteMissingRange (id : Z) : DB unit :=
  exec (λ s, Ok (delete_rows (λ r, ID r =? id) s)).

Definition DeleteMissingRangeByBlock (blockNumber : Z) : DB unit :=
  exec (λ s, if negb (bigint blockNumber) then Err Encode
             else Ok (delete_rows (λ r, bool_decide (contains r blockNumber)) s)).

(** The body of [AdvanceMissingRange]'s transaction. *)
Definition advance (r : BlockRange) (next : Z) (s : store) : res db_err store :=
  let remove := delete_rows (λ x, ID x =? ID r) s in
  if next <=? ToNumber r then
    if negb (bigint next) then Err Encode
    else
      let hit := existsb (λ x, ID x =? ID r) (rows s) &&
                 negb (existsb (same_range next (ToNumber r)) (rows s)) in
      if hit
      then Ok (set_rows (fmap (λ x, if ID x =? ID r then mkRange (ID x) next (ToNumber x) else x)) s)
      else Ok remove
  else Ok remove.

Definition AdvanceMissingRange (r : BlockRange) (next : Z) : DB unit := exec (advance r next).

(** Three autocommitted statements: what fails after the DELETE is not undone. *)
Definition ShrinkMissingRange (id processedBlock : Z) : DB unit :=
  let! (fromNum, toNum) :=
    query (λ s, match filter (λ r, ID r = id) (rows s) with
                | r :: _ => Ok (FromNumber r, ToNumber r)
                | [] => Err NoRows
                end) in
  let! _ := exec (λ s, Ok (delete_rows (λ r, ID r =? id) s)) in
  if processedBlock =? fromNum then
    if fromNum <? toNum then exec (insert_ranges false [(processedBlock +₆₄ 1, toNum)]) else ret tt
  else if processedBlock =? toNum then
    if fromNum <? toNum then exec (insert_ranges false [(fromNum, processedBlock -₆₄ 1)]) else ret tt
  else if (fromNum <? processedBlock) && (processedBlock <? toNum) then
    exec (insert_ranges false [(fromNum, processedBlock -₆₄ 1); (processedBlock +₆₄ 1, toNum)])
  else ret tt.

Definition GetMissingRangesCount : DB Z := query (λ s, Ok (zlen (rows s))).

Definition total_missing (rs : list BlockRange) : Z :=
  foldr Z.add 0 ((λ r, ToNumber r - FromNumber r + 1) <$> rs).

Definition GetTotalMissingBlocks : DB Z :=
  query (λ s, if bigint (total_missing (rows s)) then Ok (total_missing (rows s)) else Err Encode).

(** [findMissingBlocksSQL]: the numbers of the range that are not stored, each
    with its value less its rank; the numbers of one gap share that difference,
    and each group is reported by its ends, highest first. *)
Definition missing_blocks (s : store) (fromBlock toBlock : Z) : list Z :=
  let lo := Z.max fromBlock (history_from s) in
  filter (λ n, n ∉ blocks s) (seqZ lo (toBlock - lo + 1)).

Definition with_grp (missing : list Z) : list (Z * Z) :=
  imap (λ i n, (n, n - (Z.of_nat i + 1))) missing.

Definition group_of (gaps : list (Z * Z)) (g : Z) : list Z :=
  (filter (λ p, p.2 = g) gaps).*1.

Definition list_min (l : list Z) : Z := foldr Z.min (default 0 (head l)) l.
Definition list_max (l : list Z) : Z := foldr Z.max (default 0 (head l)) l.

Definition gap_ranges (missing : list Z) : list BlockRange :=
  let gaps := with_grp missing in
  merge_sort newest_first
    ((λ g, mkRange 0 (list_min (group_of gaps g)) (list_max (group_of gaps g)))
       <$> remove_dups gaps.*2).

Definition FindMissingBlocksInRange (fromBlock toBlock : Z) : DB (list BlockRange) :=
  query (λ s, if negb (bigint fromBlock && bigint toBlock) then Err Encode
              else Ok (gap_ranges (missing_blocks s fromBlock toBlock))).

Definition GetMinMaxIndexedBlocks : DB (Z * Z) :=
  query (λ s, Ok (list_min (elements (blocks s)), list_max (elements (blocks s)))).

Definition GetBlockCount : DB Z := query (λ s, Ok (Z.of_nat (size (blocks s)))).

Definition GetBlockCountInRange (from to : Z) : DB Z :=
  query (λ s, if negb (bigint from && bigint to) then Err Encode
              else Ok (Z.of_nat (size (filter (λ n, from ≤ n ∧ n ≤ to) (blocks s))))).

Definition RequeueMissingBlock (blockNum : Z) : DB unit :=
  exec (insert_ranges true [(blockNum, blockNum)]).

Definition ClearMissingRanges : DB unit := exec (λ s, Ok (set_rows (λ _, []) s)).

Definition HasBlock (number : Z) : DB bool :=
  query (λ s, if negb (bigint number) then Err Encode else Ok (bool_decide (number ∈ blocks s))).

(** ** The table as a set of numbers *)

Lemma covers_app a b n : covers (a ++ b) n ↔ covers a n ∨ covers b n.
Proof. unfold covers. by rewrite Exists_app. Qed.

Lemma covers_cons r a n : covers (r :: a) n ↔ contains r n ∨ covers a n.
Proof. unfold covers. by rewrite Exists_cons. Qed.

Lemma covers_elem rs n : covers rs n ↔ ∃ r, r ∈ rs ∧ contains r n.
Proof. unfold covers. by rewrite Exists_exists. Qed.

(** Tables that record the same blocks. *)
Definition same_blocks (a b : list BlockRange) : Prop := ∀ n, covers a n ↔ covers b n.
#[export] Instance same_blocks_equiv : Equivalence same_blocks.
Proof. unfold same_blocks. split; repeat intro; [done|by symmetry|naive_solver]. Qed.
#[export] Instance covers_proper : Proper (same_blocks ==> eq ==> iff) covers.
Proof. intros a b H n ? <-. apply H. Qed.
#[export] Instance app_same_blocks : Proper (same_blocks ==> same_blocks ==> same_blocks) app.
Proof. intros a b H c d H' n. by rewrite !covers_app, (H n), (H' n). Qed.
#[export] Instance perm_same_blocks : Proper ((≡ₚ) ==> same_blocks) id.
Proof. intros a b H n. unfold id. rewrite !covers_elem. by setoid_rewrite H. Qed.

Lemma delete_covers p s n :
  covers (rows (delete_rows p s)) n ↔ ∃ r, r ∈ rows s ∧ p r = false ∧ contains r n.
Proof.
  unfold delete_rows, set_rows. cbn. rewrite covers_elem.
  setoid_rewrite list_elem_of_filter. naive_solver.
Qed.

Lemma same_range_true f t r : same_range f t r = true ↔ FromNumber r = f ∧ ToNumber r = t.
Proof. unfold same_range. rewrite andb_true_iff, !Z.eqb_eq. done. Qed.

Lemma existsb_same_range f t rs :
  existsb (same_range f t) rs = true ↔ (f, t) ∈ (λ r, (FromNumber r, ToNumber r)) <$> rs.
Proof.
  rewrite existsb_exists, list_elem_of_fmap. setoid_rewrite same_range_true.
  setoid_rewrite list_elem_of_In. split; intros (r & H1 & H2); exists r; naive_solver.
Qed.

(** What an insert leaves: the blocks of the range added, nothing else moved. *)
Record inserted (f t : Z) (s s' : store) : Prop := {
  inserted_covers n : covers (rows s') n ↔ covers (rows s) n ∨ f ≤ n ≤ t;
  inserted_blocks : blocks s' = blocks s;
  inserted_history : history_from s' = history_from s;
  inserted_progress : progress s' = progress s;
  inserted_rows : incl (rows s) (rows s');
  inserted_ok : table_ok s → table_ok s' }.

Lemma table_ok_next s k :
  table_ok s → next_id s ≤ k →
  table_ok (mkStore (rows s) k (blocks s) (history_from s) (progress s)).
Proof.
  intros (H1 & H2 & H3 & H4) Hk. split_and!; try done.
  eapply Forall_impl; [exact H4|]. cbn. lia.
Qed.

Lemma table_ok_snoc s f t :
  table_ok s → f ≤ t → existsb (same_range f t) (rows s) = false →
  table_ok (mkStore (rows s ++ [mkRange (next_id s) f t]) (next_id s + 1)
              (blocks s) (history_from s) (progress s)).
Proof.
  intros (H1 & H2 & H3 & H4) Hft He. unfold table_ok. cbn [rows next_id]. rewrite !fmap_app. cbn.
  split_and!.
  - apply NoDup_app. split_and!; [done| |apply NoDup_singleton].
    intros x Hx Hx'. apply list_elem_of_singleton in Hx' as ->.
    apply list_elem_of_fmap in Hx as (r & E & Hr). rewrite Forall_forall in H4.
    specialize (H4 r Hr). cbn in *. lia.
  - apply NoDup_app. split_and!; [done| |apply NoDup_singleton].
    intros x Hx Hx'. apply list_elem_of_singleton in Hx' as ->.
    apply existsb_same_range in Hx. congruence.
  - apply Forall_app. split; [done|]. by repeat constructor.
  - apply Forall_app. split; [|constructor; [cbn; lia|constructor]].
    eapply Forall_impl; [exact H4|]. cbn. lia.
Qed.

Lemma insert_range_ok ignore f t s s' :
  insert_range ignore f t s = Ok s' → f ≤ t ∧ inserted f t s s'.
Proof.
  unfold insert_range. destruct (negb _); [done|]. destruct (Z.ltb_spec t f); [done|].
  destruct (existsb _ _) eqn:E.
  - destruct ignore; [|done]. intros [= <-]. split; [done|]. split; try done.
    + intros n. cbn. split; [tauto|]. intros [Hc|Hn]; [done|].
      apply existsb_exists in E as (r & Hr & E). apply same_range_true in E as [E1 E2].
      apply covers_elem. exists r. rewrite list_elem_of_In. split; [done|].
      unfold contains. lia.
    + by intros r Hr.
    + intros H'. apply table_ok_next; [done|lia].
  - intros [= <-]. split; [done|]. split; cbn; try done.
    + intros n. rewrite covers_app, covers_cons. unfold contains at 1, covers at 2. cbn.
      rewrite Exists_nil. tauto.
    + intros r Hr. apply in_or_app. by left.
    + intros. by apply table_ok_snoc.
Qed.

Lemma insert_ranges_ok ignore l s s' :
  insert_ranges ignore l s = Ok s' →
  Forall (λ p, p.1 ≤ p.2) l ∧
  (∀ n, covers (rows s') n ↔ covers (rows s) n ∨ Exists (λ p, p.1 ≤ n ≤ p.2) l) ∧
  blocks s' = blocks s ∧ history_from s' = history_from s ∧ (table_ok s → table_ok s').
Proof.
  revert s. induction l as [|[f t] l IH]; intros s; cbn [insert_ranges].
  - intros [= <-]. split_and!; try done. intros n. rewrite Exists_nil. tauto.
  - destruct (insert_range ignore f t s) as [s1|] eqn:E; [|done]. cbn [res_bind]. intros H.
    apply insert_range_ok in E as [Hft [Hc Hb Hh _ _ Hk]].
    destruct (IH _ H) as (H1 & H2 & H3 & H4 & H5). split_and!.
    + by constructor.
    + intros n. rewrite H2, Hc, Exists_cons. cbn. tauto.
    + congruence.
    + congruence.
    + auto.
Qed.

Lemma table_ok_delete p s : table_ok s → table_ok (delete_rows p s).
Proof.
  intros (H1 & H2 & H3 & H4). unfold delete_rows, set_rows, table_ok. cbn.
  split_and!.
  1,2: eapply sublist_NoDup; [eassumption|]; apply fmap_sublist, sublist_filter.
  all: apply Forall_forall; intros r [_ Hr]%list_elem_of_filter.
  all: rewrite Forall_forall in H3, H4; auto.
Qed.

Lemma row_by_id s x y : table_ok s → x ∈ rows s → y ∈ rows s → ID x = ID y → x = y.
Proof. intros (H1 & _). by apply NoDup_fmap_elem_inj. Qed.

Lemma existsb_id rs id : existsb (λ x, ID x =? id) rs = true ↔ ∃ x, x ∈ rs ∧ ID x = id.
Proof.
  rewrite existsb_exists. setoid_rewrite Z.eqb_eq. setoid_rewrite list_elem_of_In. done.
Qed.

Definition move_start (id next : Z) (x : BlockRange) : BlockRange :=
  if ID x =? id then mkRange (ID x) next (ToNumber x) else x.

Lemma table_ok_move s x next :
  table_ok s → x ∈ rows s → next ≤ ToNumber x →
  existsb (same_range next (ToNumber x)) (rows s) = false →
  table_ok (set_rows (fmap (move_start (ID x) next)) s).
Proof.
  intros Hok Hx Hn He. destruct Hok as (H1 & H2 & H3 & H4). unfold table_ok, set_rows. cbn.
  assert (∀ y, ID (move_start (ID x) next y) = ID y) as Hid.
  { intros y. unfold move_start. by destruct (_ =? _). }
  split_and!.
  - rewrite <-list_fmap_compose. erewrite list_fmap_ext; [exact H1|]. intros. apply Hid.
  - rewrite <-list_fmap_compose. apply NoDup_fmap_2_strong; [|by eapply NoDup_fmap_1].
    intros y z Hy Hz. unfold compose, move_start.
    destruct (Z.eqb_spec (ID y) (ID x)) as [Ey|Ey], (Z.eqb_spec (ID z) (ID x)) as [Ez|Ez]; cbn; intros E.
    + eapply row_by_id; [by split_and!|done|done|congruence].
    + exfalso. assert (y = x) as -> by (eapply row_by_id; [by split_and!|done..]).
      eapply not_true_iff_false; [exact He|]. apply existsb_same_range, list_elem_of_fmap. by exists z.
    + exfalso. assert (z = x) as -> by (eapply row_by_id; [by split_and!|done..]).
      eapply not_true_iff_false; [exact He|]. apply existsb_same_range, list_elem_of_fmap. by exists y.
    + by eapply (NoDup_fmap_elem_inj _ _ _ _ H2).
  - apply Forall_fmap, Forall_forall. intros y Hy. unfold compose, move_start.
    destruct (Z.eqb_spec (ID y) (ID x)) as [E|E]; cbn.
    + assert (y = x) as -> by (eapply row_by_id; [by split_and!|done..]). done.
    + rewrite Forall_forall in H3. by apply H3.
  - apply Forall_fmap, Forall_forall. intros y Hy. unfold compose. rewrite Hid.
    rewrite Forall_forall in H4. by apply H4.
Qed.

(** One [AdvanceMissingRange] loses no block from [next] up and records none
    that was not recorded. *)
Lemma advance_ok s x r next s' :
  table_ok s → x ∈ rows s → ID r = ID x → ToNumber r = ToNumber x → FromNumber x < next →
  advance r next s = Ok s' →
  table_ok s' ∧ blocks s' = blocks s ∧ history_from s' = history_from s ∧
  ∀ n, covers (rows s) n ↔ covers (rows s') n ∨ (contains x n ∧ n < next).
Proof.
  intros Hok Hx Hid Hto Hfrom. unfold advance. rewrite Hid, Hto.
  assert (existsb (λ y, ID y =? ID x) (rows s) = true) as -> by (apply existsb_id; eauto).
  cbn [andb].
  assert (∀ n, covers (rows s) n ↔ covers (rows (delete_rows (λ y, ID y =? ID x) s)) n ∨ contains x n) as Hdel.
  { intros n. rewrite delete_covers, covers_elem. setoid_rewrite Z.eqb_neq. split.
    - intros (y & Hy & Hn). destruct (decide (ID y = ID x)) as [E|E]; [|by left; eauto].
      right. by rewrite <-(row_by_id s y x).
    - intros [(y & ? & ? & ?)|Hn]; eauto. }
  destruct (Z.leb_spec next (ToNumber x)) as [Hle|Hgt].
  - destruct (negb (bigint next)); [done|].
    destruct (existsb (same_range next (ToNumber x)) (rows s)) eqn:E; cbn [negb]; intros [= <-].
    + split_and!; [by apply table_ok_delete|done|done|]. intros n. rewrite Hdel.
      apply existsb_exists in E as (z & Hz & E). apply same_range_true in E as [E1 E2].
      rewrite <-list_elem_of_In in Hz.
      assert (ID z ≠ ID x) as Hzx.
      { intros Ez. assert (z = x) as -> by (by eapply row_by_id). lia. }
      split; [|naive_solver]. intros [Hc|Hc]; [by left|].
      destruct (decide (n < next)); [by right|]. left. rewrite delete_covers.
      exists z. setoid_rewrite Z.eqb_neq. split_and!; [done|done|]. unfold contains in *. lia.
    + split_and!; [by apply (table_ok_move s x next)|done|done|]. intros n. rewrite Hdel, delete_covers.
      unfold set_rows. cbn. rewrite covers_elem. setoid_rewrite list_elem_of_fmap. setoid_rewrite Z.eqb_neq. split.
      * intros [(y & Hy & E' & Hn)|Hn].
        -- left. exists y. split; [|done]. exists y. split; [|done]. by apply Z.eqb_neq in E' as ->.
        -- destruct (decide (n < next)); [by right|]. left. exists (mkRange (ID x) next (ToNumber x)).
           split; [exists x; by rewrite Z.eqb_refl|]. unfold contains in *. cbn. lia.
      * intros [(y & (z & -> & Hz) & Hn)|[Hn _]]; [|by right].
        destruct (Z.eqb_spec (ID z) (ID x)) as [E'|E']; [|left; eauto].
        right. assert (z = x) as -> by (by eapply row_by_id). unfold contains in *. cbn in Hn. lia.
  - intros [= <-]. split_and!; [by apply table_ok_delete|done|done|]. intros n. rewrite Hdel.
    split; [|naive_solver]. intros [Hc|Hc]; [by left|]. right. split; [done|]. unfold contains in Hc. lia.
Qed.

(** ** Accounted blocks

    A block is accounted for when it is stored, recorded as missing, below the
    retained history, or was taken out of the tables by the mark or the revert of another
    loop.  No other statement of a writer takes a block out of that account. *)

Definition accounted (w : world) (n : Z) : Prop :=
  n ∈ blocks (st w) ∨ covers (rows (st w)) n ∨ n < history_from (st w) ∨ n ∈ taken w.

Lemma accounted_action a w n : accounted w n → accounted (apply_action a w) n.
Proof.
  unfold accounted. destruct a as [m|m|f t|m|h]; cbn.
  - set_solver.
  - intros [H|[H|[H|H]]]; [tauto| |tauto|set_solver].
    apply covers_elem in H as (r & Hr & Hn). destruct (decide (contains r m)) as [Hm|Hm].
    + do 3 right. apply elem_of_union. right. apply elem_of_union_list.
      exists (range_set (FromNumber r) (ToNumber r)). split.
      * apply list_elem_of_fmap. exists r. split; [done|]. by apply list_elem_of_filter.
      * unfold range_set, contains in *. rewrite elem_of_list_to_set, elem_of_seqZ. lia.
    + right. left. apply covers_elem. exists r. split; [|done]. apply list_elem_of_filter. by rewrite bool_decide_false.
  - destruct (insert_range true f t (st w)) as [s'|] eqn:E; [|done]. cbn.
    apply insert_range_ok in E as [_ [Hc Hb Hh _ _ _]]. rewrite Hc, Hb, Hh. tauto.
  - intros [H|[H|[H|H]]]; [|tauto|tauto|set_solver].
    destruct (decide (n < m)); [left; set_solver|]. do 3 right.
    apply elem_of_union. right. apply elem_of_filter. split; [lia|done].
  - destruct (Z.leb_spec h (history_from (st w))); [done|]. cbn. intros H'.
    destruct (decide (n < h)); [tauto|]. destruct H' as [H'|[H'|[H'|H']]]; [| |lia|tauto].
    + left. apply elem_of_filter. split; [lia|done].
    + right. left. apply covers_elem in H' as (r & Hr & Hn). unfold contains in Hn. apply covers_elem.
      exists (mkRange (ID r) (Z.max (FromNumber r) h) (ToNumber r)). split; [|unfold contains; cbn; lia].
      apply list_elem_of_fmap. exists r. split; [done|]. apply list_elem_of_filter. split; [lia|done].
Qed.

Lemma accounted_next w n : accounted w n → accounted (next_event w).2 n.
Proof.
  unfold next_event. destruct (script w) as [|e es]; [done|]. cbn. intros H.
  assert (accounted (mkWorld (st w) (taken w) es) n) as H' by done. revert H'.
  generalize (mkWorld (st w) (taken w) es). clear. induction (others e) as [|a l IH]; intros w H; [done|].
  cbn. apply IH, accounted_action, H.
Qed.

(** No other loop marks a block or reverts one; then nothing is taken. *)
Definition unmarked (w : world) : Prop :=
  Forall (λ e, Forall (λ a, match a with AMark _ | ARevert _ => False | _ => True end) (others e)) (script w).
Definition calm (w w' : world) : Prop := unmarked w → unmarked w' ∧ taken w' = taken w.

Lemma calm_refl w : calm w w.
Proof. done. Qed.
Lemma calm_trans w1 w2 w3 : calm w1 w2 → calm w2 w3 → calm w1 w3.
Proof. unfold calm. intros H1 H2 H. destruct (H1 H) as [H' E1]. destruct (H2 H') as [H'' E2]. split; [done|congruence]. Qed.
Lemma next_event_calm w : calm w (next_event w).2.
Proof.
  unfold calm, unmarked, next_event. destruct (script w) as [|e es] eqn:Es; [cbn; by rewrite ?Es|]. intros [Ha Hs]%Forall_cons. cbn.
  assert (∀ l w0, Forall (λ a, match a with AMark _ | ARevert _ => False | _ => True end) l →
    script (foldl (λ w a, apply_action a w) w0 l) = script w0 ∧ taken (foldl (λ w a, apply_action a w) w0 l) = taken w0) as Hl.
  { clear. induction l as [|a l IH]; intros w0 Hl; [done|]. apply Forall_cons in Hl as [Ha Hl]. cbn [foldl]. destruct (IH (apply_action a w0) Hl) as [-> ->].
    destruct a; try done; cbn; [by destruct (insert_range _ _ _ _)|by destruct (_ <=? _)]. }
  destruct (Hl (others e) (mkWorld (st w) (taken w) es) Ha) as [-> ->]. done.
Qed.
Lemma statement_calm {A} (f : store → res db_err (A * store)) w : calm w (statement f w).1.
Proof.
  eapply calm_trans; [apply next_event_calm|]. unfold statement. destruct (next_event w) as [e w1]. by destruct (failure e), (f (st w1)) as [[]|].
Qed.

(** A statement keeps the account when its change to the store does. *)
Definition keeps_store (s s' : store) : Prop :=
  blocks s' = blocks s ∧ history_from s' = history_from s ∧ ∀ n, covers (rows s) n → covers (rows s') n.

Lemma accounted_keeps w s' n :
  keeps_store (st w) s' → accounted w n → accounted (mkWorld s' (taken w) (script w)) n.
Proof. intros (H1 & H2 & H3). unfold accounted. cbn. rewrite H1, H2. naive_solver. Qed.

Lemma statement_accounted {A} (f : store → res db_err (A * store)) w n :
  (∀ s a s', f s = Ok (a, s') → keeps_store s s') →
  accounted w n → accounted (statement f w).1 n.
Proof.
  intros Hf Hn. apply accounted_next in Hn. unfold statement.
  destruct (next_event w) as [e w']. cbn in Hn.
  destruct (failure e), (f (st w')) as [[a s']|x] eqn:E; cbn; try done; eapply accounted_keeps; eauto.
Qed.

Lemma keeps_refl s : keeps_store s s.
Proof. done. Qed.

Lemma query_accounted {A} (f : store → res db_err A) w n :
  accounted w n → accounted (query f w).1 n.
Proof.
  apply statement_accounted. intros s a s'. destruct (f s); cbn; [|done]. intros [= _ <-]. apply keeps_refl.
Qed.

Lemma bind_accounted {A B} (m : DB A) (k : A → DB B) n :
  (∀ w, accounted w n → accounted (m w).1 n) →
  (∀ a w, accounted w n → accounted (k a w).1 n) →
  ∀ w, accounted w n → accounted (bind m k w).1 n.
Proof.
  intros Hm Hk w Hn. apply Hm in Hn. unfold bind. destruct (m w) as [w' [a|e]]; cbn in *; [by apply Hk|done].
Qed.

Lemma exec_accounted (f : store → res db_err store) w n :
  (∀ s s', f s = Ok s' → keeps_store s s') → accounted w n → accounted (exec f w).1 n.
Proof.
  intros Hf. apply statement_accounted. intros s a s'. destruct (f s) eqn:E; cbn; [|done].
  intros [= _ <-]. by apply Hf.
Qed.

Lemma insert_ranges_keeps l s s' : insert_ranges true l s = Ok s' → keeps_store s s'.
Proof. intros (_ & Hc & Hb & Hh & _)%insert_ranges_ok. split_and!; [done|done|]. intros n. rewrite Hc. tauto. Qed.

(** ** Gaps and islands *)

Lemma list_min_spec l : l ≠ [] → list_min l ∈ l ∧ ∀ x, x ∈ l → list_min l ≤ x.
Proof.
  destruct l as [|a l]; [done|]. intros _. unfold list_min. cbn [head default].
  assert (∀ k, foldr Z.min a k ∈ a :: k ∧ (∀ x, x ∈ a :: k → foldr Z.min a k ≤ x)) as H.
  { induction k as [|b k [IH1 IH2]]; cbn [foldr]; [split; [left|]; intros x ->%list_elem_of_singleton; lia|]. split.
    - destruct (Z.min_spec b (foldr Z.min a k)) as [[_ ->]|[_ ->]]; set_solver.
    - intros x Hx. assert (x = b ∨ x ∈ a :: k) as [->|Hx'] by set_solver; [lia|].
      specialize (IH2 x Hx'). lia. }
  destruct (H (a :: l)) as [H1 H2]. split; set_solver.
Qed.

Lemma list_max_spec l : l ≠ [] → list_max l ∈ l ∧ ∀ x, x ∈ l → x ≤ list_max l.
Proof.
  destruct l as [|a l]; [done|]. intros _. unfold list_max. cbn [head default].
  assert (∀ k, foldr Z.max a k ∈ a :: k ∧ (∀ x, x ∈ a :: k → x ≤ foldr Z.max a k)) as H.
  { induction k as [|b k [IH1 IH2]]; cbn [foldr]; [split; [left|]; intros x ->%list_elem_of_singleton; lia|]. split.
    - destruct (Z.max_spec b (foldr Z.max a k)) as [[_ ->]|[_ ->]]; set_solver.
    - intros x Hx. assert (x = b ∨ x ∈ a :: k) as [->|Hx'] by set_solver; [lia|].
      specialize (IH2 x Hx'). lia. }
  destruct (H (a :: l)) as [H1 H2]. split; set_solver.
Qed.

Section Gaps.
Context (l : list Z) (Hl : StronglySorted Z.lt l).

(** Each step up the list is at least one. *)
Lemma increasing_gap i j a b :
  l !! i = Some a → l !! j = Some b → (i ≤ j)%nat → Z.of_nat j - Z.of_nat i ≤ b - a.
Proof using Hl.
  intros Hi. revert b. induction j as [|j IH]; intros b Hj Hij.
  - assert (i = 0%nat) as -> by lia. rewrite Hi in Hj. injection Hj as ->. lia.
  - destruct (decide (i = S j)) as [->|]; [rewrite Hi in Hj; injection Hj as ->; lia|].
    destruct (lookup_lt_is_Some_2 l j) as [c Hc]; [apply lookup_lt_Some in Hj; lia|].
    specialize (IH c Hc ltac:(lia)).
    assert (c < b); [|lia].
    eapply (StronglySorted_lookup_lt Z.lt l j (S j)); eauto; lia.
Qed.

Lemma increasing_index i j a : l !! i = Some a → l !! j = Some a → i = j.
Proof using Hl.
  intros Hi Hj. destruct (Nat.lt_trichotomy i j) as [H|[H|H]]; [|done|].
  - pose proof (increasing_gap _ _ _ _ Hi Hj). lia.
  - pose proof (increasing_gap _ _ _ _ Hj Hi). lia.
Qed.

Lemma elem_group g n :
  n ∈ group_of (with_grp l) g ↔ ∃ i, l !! i = Some n ∧ n - (Z.of_nat i + 1) = g.
Proof using.
  unfold group_of, with_grp. rewrite list_elem_of_fmap. split.
  - intros ([m k] & -> & [Hk [i Hi]%list_elem_of_lookup]%list_elem_of_filter).
    rewrite list_lookup_imap in Hi. destruct (l !! i) as [a|] eqn:E; [|done].
    cbn in *. simplify_eq. eauto.
  - intros (i & Hi & <-). exists (n, n - (Z.of_nat i + 1)). split; [done|].
    apply list_elem_of_filter. split; [done|]. apply list_elem_of_lookup. exists i.
    by rewrite list_lookup_imap, Hi.
Qed.

Lemma elem_groups g : g ∈ (with_grp l).*2 ↔ ∃ i n, l !! i = Some n ∧ n - (Z.of_nat i + 1) = g.
Proof using.
  unfold with_grp. rewrite list_elem_of_fmap. split.
  - intros ([m k] & -> & [i Hi]%list_elem_of_lookup).
    rewrite list_lookup_imap in Hi. destruct (l !! i) as [a|] eqn:E; [|done]. cbn in *. simplify_eq. eauto.
  - intros (i & n & Hi & <-). exists (n, n - (Z.of_nat i + 1)). split; [done|].
    apply list_elem_of_lookup. exists i. by rewrite list_lookup_imap, Hi.
Qed.

(** One island: the numbers between its least and its greatest are all there. *)
Lemma island g :
  g ∈ (with_grp l).*2 →
  let lo := list_min (group_of (with_grp l) g) in
  let hi := list_max (group_of (with_grp l) g) in
  lo ≤ hi ∧ lo ∈ group_of (with_grp l) g ∧
  (∀ n, n ∈ group_of (with_grp l) g ↔ lo ≤ n ≤ hi) ∧
  (∀ n, lo ≤ n ≤ hi → n ∈ l) ∧ lo - 1 ∉ l ∧ hi + 1 ∉ l.
Proof using Hl.
  intros Hg lo hi.
  assert (group_of (with_grp l) g ≠ []) as Hne.
  { apply elem_groups in Hg as (i & n & Hi & E).
    assert (n ∈ group_of (with_grp l) g) by (apply elem_group; eauto). by intros Hnil; rewrite Hnil in *; set_solver. }
  destruct (list_min_spec _ Hne) as [Hlo Hmin], (list_max_spec _ Hne) as [Hhi Hmax]. fold lo hi in Hlo, Hhi, Hmin, Hmax.
  apply elem_group in Hlo as Hlo'; destruct Hlo' as (i & Hi & Ei).
  apply elem_group in Hhi as Hhi'; destruct Hhi' as (j & Hj & Ej).
  assert (lo ≤ hi) as Hlh by (by apply Hmin).
  assert (∀ n, lo ≤ n ≤ hi → ∃ k, l !! k = Some n ∧ n - (Z.of_nat k + 1) = g) as Hmid.
  { intros n Hn. set (k := (i + Z.to_nat (n - lo))%nat).
    destruct (lookup_lt_is_Some_2 l k) as [m Hm]; [apply lookup_lt_Some in Hj; lia|].
    pose proof (increasing_gap i k lo m Hi Hm ltac:(lia)).
    pose proof (increasing_gap k j m hi Hm Hj ltac:(lia)).
    assert (m = n) as -> by lia. exists k. split; [done|lia]. }
  split_and!; [done|done| | | |].
  - intros n. split; [intros Hn; split; auto|]. intros Hn%Hmid. by apply elem_group.
  - intros n (k & Hk & _)%Hmid. apply list_elem_of_lookup. eauto.
  - intros [k Hk]%list_elem_of_lookup.
    assert (S k = i) as Hki.
    { destruct (Nat.lt_ge_cases k i); [|pose proof (increasing_gap _ _ _ _ Hi Hk); lia].
      pose proof (increasing_gap _ _ _ _ Hk Hi ltac:(lia)). lia. }
    specialize (Hmin (lo - 1)). rewrite elem_group in Hmin.
    assert (lo ≤ lo - 1); [|lia]. apply Hmin. exists k. split; [done|lia].
  - intros [k Hk]%list_elem_of_lookup.
    assert (S j = k) as Hki.
    { destruct (Nat.lt_ge_cases j k); [|pose proof (increasing_gap _ _ _ _ Hk Hj); lia].
      pose proof (increasing_gap _ _ _ _ Hj Hk ltac:(lia)). lia. }
    specialize (Hmax (hi + 1)). rewrite elem_group in Hmax.
    assert (hi + 1 ≤ hi); [|lia]. apply Hmax. exists k. split; [done|lia].
Qed.

Lemma elem_gap_ranges r :
  r ∈ gap_ranges l ↔
  ∃ g, g ∈ (with_grp l).*2 ∧
    r = mkRange 0 (list_min (group_of (with_grp l) g)) (list_max (group_of (with_grp l) g)).
Proof using.
  unfold gap_ranges. rewrite merge_sort_Permutation, list_elem_of_fmap.
  setoid_rewrite elem_of_remove_dups. naive_solver.
Qed.

Lemma gap_ranges_starts : NoDup (FromNumber <$> gap_ranges l).
Proof using Hl.
  unfold gap_ranges. rewrite merge_sort_Permutation, <-list_fmap_compose.
  apply NoDup_fmap_2_strong; [|apply NoDup_remove_dups]. unfold compose. cbn.
  intros g h. rewrite !elem_of_remove_dups. intros Hg Hh E.
  destruct (island g Hg) as (_ & H1 & _), (island h Hh) as (_ & H2 & _).
  rewrite E in H1. apply elem_group in H1 as (i & Hi & Ei), H2 as (j & Hj & Ej).
  pose proof (increasing_index _ _ _ Hi Hj). lia.
Qed.

(** The report of a gap scan: exactly the missing numbers, as maximal runs,
    apart from each other, highest first. *)
Record gap_report (missing : list Z) (rs : list BlockRange) : Prop := {
  gap_cover n : covers rs n ↔ n ∈ missing;
  gap_valid r : r ∈ rs → FromNumber r ≤ ToNumber r;
  gap_maximal r : r ∈ rs → FromNumber r - 1 ∉ missing ∧ ToNumber r + 1 ∉ missing;
  gap_order : StronglySorted (λ a b, ToNumber b + 1 < FromNumber a) rs }.

Lemma sorted_strict (rs : list BlockRange) :
  StronglySorted newest_first rs → NoDup (FromNumber <$> rs) →
  (∀ a b, a ∈ rs → b ∈ rs → FromNumber b < FromNumber a → ToNumber b + 1 < FromNumber a) →
  StronglySorted (λ a b, ToNumber b + 1 < FromNumber a) rs.
Proof using.
  induction rs as [|r rs IH]; intros Hs Hnd Hsep; [constructor|].
  apply StronglySorted_inv in Hs as [Hs Hr]. rewrite fmap_cons in Hnd.
  apply NoDup_cons in Hnd as [Hn Hnd]. constructor.
  - apply IH; [done|done|]. intros; apply Hsep; [by right|by right|done].
  - apply Forall_forall. intros b Hb. rewrite Forall_forall in Hr.
    specialize (Hr b Hb). unfold newest_first in Hr.
    apply Hsep; [left|by right|].
    assert (FromNumber b ≠ FromNumber r); [|lia]. intros E. apply Hn, list_elem_of_fmap. eauto.
Qed.

Lemma gap_ranges_report : gap_report l (gap_ranges l).
Proof using Hl.
  assert (∀ n, covers (gap_ranges l) n ↔ n ∈ l) as Hcov.
  { intros n. rewrite covers_elem. split.
    - intros (r & (g & Hg & ->)%elem_gap_ranges & Hn). destruct (island g Hg) as (_ & _ & _ & H & _).
      by apply H.
    - intros [i Hi]%list_elem_of_lookup.
      assert (n - (Z.of_nat i + 1) ∈ (with_grp l).*2) as Hg by (apply elem_groups; eauto).
      eexists. split; [apply elem_gap_ranges; eauto|].
      destruct (island _ Hg) as (_ & _ & H & _). apply H, elem_group. eauto. }
  assert (∀ r, r ∈ gap_ranges l → FromNumber r - 1 ∉ l ∧ ToNumber r + 1 ∉ l) as Hmx.
  { intros r (g & Hg & ->)%elem_gap_ranges. destruct (island g Hg) as (_ & _ & _ & _ & H). done. }
  assert (∀ r, r ∈ gap_ranges l → FromNumber r ≤ ToNumber r) as Hv.
  { intros r (g & Hg & ->)%elem_gap_ranges. by destruct (island g Hg). }
  split; [done|done|done|].
  apply sorted_strict; [|apply gap_ranges_starts|].
  - apply Sorted_StronglySorted; [intros a b c; unfold newest_first; lia|].
    unfold gap_ranges. apply Sorted_merge_sort. intros a b. unfold newest_first. lia.
  - intros a b Ha Hb Hlt. destruct (decide (ToNumber b + 1 < FromNumber a)) as [|Hge]; [done|exfalso].
    apply (proj1 (Hmx a Ha)), Hcov, covers_elem. exists b. split; [done|].
    unfold contains. specialize (Hv b Hb). lia.
Qed.
End Gaps.

Lemma missing_blocks_sorted s a b : StronglySorted Z.lt (missing_blocks s a b).
Proof. apply StronglySorted_filter, StronglySorted_seqZ. Qed.

Lemma elem_missing_blocks s a b n :
  n ∈ missing_blocks s a b ↔ a ≤ n ≤ b ∧ history_from s ≤ n ∧ n ∉ blocks s.
Proof. unfold missing_blocks. rewrite list_elem_of_filter, elem_of_seqZ. intuition lia. Qed.

(** ** What the collector is promised

    The indexer reaches the database through an interface; these are the
    operations of it the gap scanners call, with what they rely on. *)

Class GapStore := {
  find_missing : Z → Z → DB (list BlockRange);
  save_missing : list BlockRange → DB unit;
  load_progress : DB IndexerProgress;
  store_progress : Z → Z → bool → DB unit;
  min_max_blocks : DB (Z * Z);
  total_missing_blocks : DB Z;
  find_missing_keeps a b w n : accounted w n → accounted (find_missing a b w).1 n;
  save_missing_keeps rs w n : accounted w n → accounted (save_missing rs w).1 n;
  load_progress_keeps w n : accounted w n → accounted (load_progress w).1 n;
  store_progress_keeps a b c w n : accounted w n → accounted (store_progress a b c w).1 n;
  min_max_blocks_keeps w n : accounted w n → accounted (min_max_blocks w).1 n;
  total_missing_keeps w n : accounted w n → accounted (total_missing_blocks w).1 n;
  (** the others' marks and reverts apart, nothing leaves the tables *)
  find_missing_calm a b w : calm w (find_missing a b w).1;
  save_missing_calm rs w : calm w (save_missing rs w).1;
  load_progress_calm w : calm w (load_progress w).1;
  store_progress_calm a b c w : calm w (store_progress a b c w).1;
  min_max_blocks_calm w : calm w (min_max_blocks w).1;
  total_missing_calm w : calm w (total_missing_blocks w).1;
  (** a scan that answers has reported every block of its range nobody accounts for *)
  find_missing_reports a b w w' rs n :
    find_missing a b w = (w', Ok rs) → a ≤ n ≤ b → accounted w' n ∨ covers rs n;
  (** a save that answers has recorded what it was given *)
  save_missing_records rs w w' n :
    save_missing rs w = (w', Ok tt) → covers rs n → accounted w' n;
}.

Lemma query_ok {A} (f : store → res db_err A) w w' a :
  query f w = (w', Ok a) → w' = (next_event w).2 ∧ f (st w') = Ok a.
Proof.
  unfold query, statement. destruct (next_event w) as [e w1]. cbn.
  destruct (failure e), (f (st w1)) eqn:E; cbn; intros [= <- <-]; by destruct w1.
Qed.

Lemma exec_ok (f : store → res db_err store) w w' :
  exec f w = (w', Ok tt) → f (st (next_event w).2) = Ok (st w').
Proof.
  unfold exec, statement. destruct (next_event w) as [e w1]. cbn.
  destruct (failure e), (f (st w1)) eqn:E; cbn; intros [= <-]; done.
Qed.

Lemma save_records rs w w' n :
  SaveMissingRanges rs w = (w', Ok tt) → covers rs n → covers (rows (st w')) n.
Proof.
  unfold SaveMissingRanges. case_bool_decide as Hne.
  - subst. intros _ H. by apply Exists_nil in H.
  - intros H%exec_ok Hn. apply insert_ranges_ok in H as (_ & Hc & _). rewrite Hc. right.
    apply covers_elem in Hn as (r & Hr & Hn). apply Exists_exists.
    exists (FromNumber r, ToNumber r). split; [|done]. apply list_elem_of_fmap. eauto.
Qed.

#[export] Program Instance postgres_gaps : GapStore := {|
  find_missing := FindMissingBlocksInRange;
  save_missing := SaveMissingRanges;
  load_progress := GetIndexerProgress;
  store_progress := UpdateIndexerProgress;
  min_max_blocks := GetMinMaxIndexedBlocks;
  total_missing_blocks := GetTotalMissingBlocks |}.
Next Obligation. intros. by apply query_accounted. Qed.
Next Obligation.
  intros rs w n. unfold SaveMissingRanges. case_bool_decide; [done|].
  apply exec_accounted. intros s s'. apply insert_ranges_keeps.
Qed.
Next Obligation. intros. by apply query_accounted. Qed.
Next Obligation.
  intros a b c w n. apply exec_accounted. intros s s'. destruct (negb _); [done|]. intros [= <-].
  split_and!; done.
Qed.
Next Obligation. intros. by apply query_accounted. Qed.
Next Obligation. intros. by apply query_accounted. Qed.
Next Obligation. intros. apply statement_calm. Qed.
Next Obligation. intros rs w. unfold SaveMissingRanges. case_bool_decide; [apply calm_refl|apply statement_calm]. Qed.
Next Obligation. intros. apply statement_calm. Qed.
Next Obligation. intros. apply statement_calm. Qed.
Next Obligation. intros. apply statement_calm. Qed.
Next Obligation. intros. apply statement_calm. Qed.
Next Obligation.
  intros a b w w' rs n [_ H]%query_ok Hn. destruct (negb _); [done|]. injection H as <-.
  destruct (gap_ranges_report _ (missing_blocks_sorted (st w') a b)) as [Hc _ _ _].
  rewrite Hc, elem_missing_blocks. unfold accounted.
  destruct (decide (n ∈ blocks (st w'))); [tauto|]. destruct (decide (n < history_from (st w'))); [tauto|].
  right. split_and!; [lia..|done].
Qed.
Next Obligation. intros rs w w' n H Hn. right. left. by eapply save_records. Qed.

(** ** Properties *)

(** a gap scan reports exactly the blocks of its range that are neither
    stored nor below the retained history, as maximal ranges that do not touch,
    highest first; it changes nothing. *)
Theorem FindMissingBlocksInRange_gaps s fromBlock toBlock :
  bigint fromBlock = true → bigint toBlock = true →
  ∃ rs,
    FindMissingBlocksInRange fromBlock toBlock (mkWorld s ∅ []) = (mkWorld s ∅ [], Ok rs) ∧
    (∀ n, covers rs n ↔ fromBlock ≤ n ≤ toBlock ∧ history_from s ≤ n ∧ n ∉ blocks s) ∧
    (∀ r, r ∈ rs → FromNumber r ≤ ToNumber r ∧
       (fromBlock < FromNumber r → history_from s < FromNumber r → FromNumber r - 1 ∈ blocks s) ∧
       (ToNumber r < toBlock → ToNumber r + 1 ∈ blocks s)) ∧
    StronglySorted (λ a b, ToNumber b + 1 < FromNumber a) rs.
Proof.
  intros Hf Ht. exists (gap_ranges (missing_blocks s fromBlock toBlock)).
  destruct (gap_ranges_report _ (missing_blocks_sorted s fromBlock toBlock)) as [Hc Hv Hm Ho].
  setoid_rewrite elem_missing_blocks in Hc. split_and!; [|done| |done].
  - unfold FindMissingBlocksInRange, query, statement, next_event. cbn. by rewrite Hf, Ht.
  - intros r Hr. split; [by apply Hv|]. destruct (Hm r Hr) as [Hm1 Hm2].
    rewrite elem_missing_blocks in Hm1, Hm2.
    assert (covers (gap_ranges (missing_blocks s fromBlock toBlock)) (FromNumber r) ∧
            covers (gap_ranges (missing_blocks s fromBlock toBlock)) (ToNumber r)) as [H1 H2].
    { rewrite !covers_elem. specialize (Hv r Hr). unfold contains. split; exists r; (split; [done|lia]). }
    rewrite Hc in H1, H2.
    split; intros; apply dec_stable; intros Hnb; [apply Hm1|apply Hm2]; split_and!; try done; lia.
Qed.

Definition sample_store : store :=
  mkStore [] 1 {[ 10; 11; 14; 20 ]} 5 (Some (mkProgress 0 0 false)).

Lemma FindMissingBlocksInRange_gaps_witness :
  ∃ rs, (FindMissingBlocksInRange 3 20 (mkWorld sample_store ∅ [])).2 = Ok rs ∧
    rs = [mkRange 0 15 19; mkRange 0 12 13; mkRange 0 5 9] ∧
    StronglySorted (λ a b, ToNumber b + 1 < FromNumber a) rs.
Proof.
  destruct (FindMissingBlocksInRange_gaps sample_store 3 20 eq_refl eq_refl) as (rs & E & _ & _ & Ho).
  exists rs. rewrite E. split_and!; [done| |done].
  assert ((FindMissingBlocksInRange 3 20 (mkWorld sample_store ∅ [])).2 =
          Ok [mkRange 0 15 19; mkRange 0 12 13; mkRange 0 5 9]) as E' by (vm_compute; reflexivity).
  rewrite E in E'. by injection E'.
Defined.

(** [AdvanceMissingRange] past a row's start, whatever the faults, keeps the
    table well formed, never drops a recorded block from [next] up and never
    records a block that was not recorded: the blocks it drops are those of the
    row below [next]. *)
Theorem AdvanceMissingRange_exact s o f x r next w' out :
  table_ok s → x ∈ rows s → ID r = ID x → ToNumber r = ToNumber x → FromNumber x < next →
  AdvanceMissingRange r next (mkWorld s o [mkEvent [] f false]) = (w', out) →
  table_ok (st w') ∧ blocks (st w') = blocks s ∧
  (∀ n, covers (rows (st w')) n → covers (rows s) n) ∧
  (∀ n, covers (rows s) n → covers (rows (st w')) n ∨ (contains x n ∧ n < next)) ∧
  (out = Ok tt → f = NoFault).
Proof.
  intros Hok Hx Hid Hto Hlt. unfold AdvanceMissingRange, exec, statement, next_event. cbn.
  destruct (advance r next s) as [s'|e] eqn:E; cbn.
  - destruct (advance_ok s x r next s' Hok Hx Hid Hto Hlt E) as (H1 & H2 & H3 & H4).
    destruct f; intros [= <- <-]; cbn; split_and!; try done; naive_solver.
  - destruct f; intros [= <- <-]; cbn; split_and!; try done; naive_solver.
Qed.

Definition two_rows : store :=
  mkStore [mkRange 1 5 9; mkRange 2 8 9] 3 ∅ 0 None.

Lemma AdvanceMissingRange_exact_witness :
  let w := mkWorld two_rows ∅ [mkEvent [] NoFault false] in
  table_ok (st (AdvanceMissingRange (mkRange 1 5 9) 8 w).1) ∧
  rows (st (AdvanceMissingRange (mkRange 1 5 9) 8 w).1) = [mkRange 2 8 9].
Proof.
  cbv zeta. split; [|vm_compute; reflexivity].
  refine (proj1 (AdvanceMissingRange_exact two_rows ∅ NoFault (mkRange 1 5 9) (mkRange 1 5 9) 8 _ _ _ _ _ _ _ (surjective_pairing _)));
    [|left|reflexivity|reflexivity|cbn; lia].
  unfold table_ok. cbn. split_and!; [|..];
    repeat first [apply NoDup_nil_2 | apply NoDup_cons; split; [set_solver|] | constructor; cbn; try lia].
Defined.

(** At the row's own start the condition finds the row itself: the call that
    should leave the row alone deletes it. *)
Theorem AdvanceMissingRange_at_start_loses :
  rows (st (AdvanceMissingRange (mkRange 1 5 9) 5 (mkWorld (mkStore [mkRange 1 5 9] 2 ∅ 0 None) ∅ [])).1) = [].
Proof. vm_compute. reflexivity. Qed.

(** A split whose lower half is already recorded fails on the unique key after
    the row is gone: the upper half is recorded nowhere. *)
Theorem ShrinkMissingRange_split_loses :
  let w := mkWorld (mkStore [mkRange 1 1 5; mkRange 2 1 2] 3 ∅ 0 None) ∅ [] in
  (ShrinkMissingRange 1 3 w).2 = Err UniqueViolation ∧
  rows (st (ShrinkMissingRange 1 3 w).1) = [mkRange 2 1 2] ∧
  ¬ covers (rows (st (ShrinkMissingRange 1 3 w).1)) 4.
Proof.
  split_and!; [vm_compute; reflexivity..|].
  apply (bool_decide_eq_false_1 (covers _ _)). vm_compute. reflexivity.
Qed.
