(* ===== verification/OpDeposits.v ===== *)
(** * L1 deposits: [internal/opdeposits] and [internal/db/op_deposits.go]

    The fetcher reads the [TransactionDeposited] events of the portal contract on
    L1 in batches, rebuilds from each the hash of the L2 transaction it becomes
    ([ComputeSourceHash], [ComputeL2DepositTxHash]) and stores it.  Its cursor is
    the highest L1 block that has a stored deposit.  The L1 node (head, logs,
    headers) and the outcome of a batch insert are parameters; slices out of
    range are Go panics. *)

From S2P Require Import Prelude GoStrings EthCommon Rlp MissingRanges.

(** ** Hashes of a deposit ([hash.go]) *)

Definition depositTxType : byte := x7e.

Record depositTxFields := mkDepositTx {
  SourceHash : gostring; From : gostring; To : option gostring; Mint : option Z; Value : option Z;
  Gas : Z; IsSystemTx : bool; TxData : gostring;
}.

(** The struct reflection walks, its eight exported fields in order; nil amounts
    are replaced by 0 before. *)
Definition fields_value (f : depositTxFields) : value :=
  VStruct [(true, VArray (SourceHash f)); (true, VArray (From f)); (true, VPtr (VArray <$> To f));
           (true, VBigPtr (Some (default 0 (Mint f)))); (true, VBigPtr (Some (default 0 (Value f))));
           (true, VUint64 (Gas f)); (true, VBool (IsSystemTx f)); (true, VSlice (TxData f))].

Section Hashes.
Context `{Keccak}.

Definition source_inner (l1BlockHash : gostring) (logIndex : Z) : gostring :=
  take 32 l1BlockHash ++ replicate 24 x00 ++ be_bytes 8 logIndex.

Definition ComputeSourceHash (l1BlockHash : gostring) (logIndex : Z) : gostring :=
  Keccak256Hash [replicate 32 x00 ++ Keccak256Hash [source_inner l1BlockHash logIndex]].

Definition ComputeL2DepositTxHash (f : depositTxFields) : option gostring :=
  encoded ← EncodeToBytes (fields_value f);
  Some (Keccak256Hash [depositTxType :: encoded]).

(** ** The event ([ParseOpaqueData], [fetchDepositEvents]) *)

Record opaque := mkOpaque {
  o_msgValue : option Z; o_value : option Z; o_gasLimit : Z; o_isCreation : bool; o_data : gostring;
}.

Definition ParseOpaqueData (opaqueData : gostring) : opaque :=
  if zlen opaqueData <? 73 then mkOpaque None None 0 false []
  else mkOpaque (Some (be_Z (take 32 opaqueData))) (Some (be_Z (take 32 (drop 32 opaqueData))))
         (be_Z (take 8 (drop 64 opaqueData))) (bool_decide (opaqueData !! 72%nat = Some x01))
         (if 73 <? zlen opaqueData then drop 73 opaqueData else []).

Record logEntry := mkLog {
  Topics : list gostring; LogData : gostring; BlockNumber : Z; TxHash : gostring; Index : Z; BlockHash : gostring;
}.

Record OPDeposit := mkDeposit {
  L2TxHash : gostring; L1BlockNumber : Z; L1BlockTimestamp : option Z; L1TxHash : gostring; L1TxOrigin : gostring;
}.

(** The dynamic [bytes] argument of the event: its offset and length words are
    cut to 64 bits ([big.Int.Uint64]) and added with wrap-around, then the slices
    are taken.  [None]: the event is skipped. *)
Definition opaque_data (data : gostring) : outcome (option gostring) :=
  if zlen data <? 64 then Val None
  else
    let offset := u64 (be_Z (take 32 data)) in
    if zlen data <? offset +₆₄ 32 then Val None
    else
      must word := slice data offset (offset +₆₄ 32) in
      let length := u64 (be_Z word) in
      if zlen data <? offset +₆₄ 32 +₆₄ length then Val None
      else
        must b := slice data (offset +₆₄ 32) (offset +₆₄ 32 +₆₄ length) in
        Val (Some b).

Definition deposit_fields (e : logEntry) (o : opaque) : depositTxFields :=
  let fromAddr := BytesToAddress (default [] (Topics e !! 1%nat)) in
  let toAddr := BytesToAddress (default [] (Topics e !! 2%nat)) in
  mkDepositTx (ComputeSourceHash (BlockHash e) (Index e)) fromAddr (if o_isCreation o then None else Some toAddr)
    (o_msgValue o) (o_value o) (o_gasLimit o) false (o_data o).

Definition deposit_of (header_time : Z → option Z) (e : logEntry) : outcome (option OPDeposit) :=
  if (length (Topics e) <? 4)%nat then Val None
  else
    must found := opaque_data (LogData e) in
    match found with
    | None => Val None
    | Some opaqueData =>
        let f := deposit_fields e (ParseOpaqueData opaqueData) in
        Val ((λ l2TxHash, mkDeposit (Hash_Hex l2TxHash) (BlockNumber e) (header_time (BlockNumber e))
                            (Hash_Hex (TxHash e)) (Address_Hex (From f))) <$> ComputeL2DepositTxHash f)
    end.

Fixpoint deposits_of (header_time : Z → option Z) (logs : list logEntry) : outcome (list OPDeposit) :=
  match logs with
  | [] => Val []
  | e :: r =>
      must d := deposit_of header_time e in
      must ds := deposits_of header_time r in
      Val (match d with Some d => d :: ds | None => ds end)
  end.

(** ** The store and the poll *)

Definition table := list OPDeposit.

(** [INSERT ... ON CONFLICT (l2_tx_hash) DO NOTHING], one transaction. *)
Definition insert_deposit (t : table) (d : OPDeposit) : table :=
  if bool_decide (L2TxHash d ∈ (L2TxHash <$> t)) then t else t ++ [d].

Definition InsertOPDepositsBatch (f : fault) (ds : list OPDeposit) (t : table) : table * bool :=
  match ds, f with
  | [], _ => (t, true)
  | _, NoFault => (foldl insert_deposit t ds, true)
  | _, Refused => (t, false)
  | _, AckLost => (foldl insert_deposit t ds, false)
  end.

Definition GetLastIndexedL1Block (t : table) : Z := list_max (L1BlockNumber <$> t).

Record FetcherConfig := mkFetcher { DepositBatchSize : Z; DepositStartBlock : Z; ConfirmationBlocks : Z }.

(** What L1 and the database answer during one poll; [None] is a failed call. *)
Record poll_env := mkPoll {
  p_last_ok : bool;
  p_head_start : option Z;
  p_head : option Z;
  p_logs : Z → Z → option (list logEntry);
  p_time : Z → option Z;
  p_insert : Z → fault;
}.

Definition getStartBlock (c : FetcherConfig) (p : poll_env) (t : table) : option Z :=
  if negb (p_last_ok p) then None
  else
    let lastIndexed := GetLastIndexedL1Block t in
    if 0 <? lastIndexed then Some (lastIndexed +₆₄ 1)
    else if 0 <? DepositStartBlock c then Some (DepositStartBlock c)
    else
      l1Head ← p_head_start p;
      Some (if ConfirmationBlocks c <? l1Head then l1Head -₆₄ ConfirmationBlocks c else 0).

Inductive poll_end := PollDone | PollFailed | PollPanic.

Fixpoint poll_loop (fuel : nat) (c : FetcherConfig) (p : poll_env) (safeHead batchStart : Z) (t : table)
  : option (table * poll_end) :=
  match fuel with
  | O => None
  | S fuel =>
      if safeHead <? batchStart then Some (t, PollDone)
      else
        let batchEnd := Z.min (batchStart +₆₄ DepositBatchSize c -₆₄ 1) safeHead in
        match p_logs p batchStart batchEnd with
        | None => Some (t, PollFailed)
        | Some logs =>
            match deposits_of (p_time p) logs with
            | Panic => Some (t, PollPanic)
            | Val deposits =>
                let '(t', ok) := InsertOPDepositsBatch (p_insert p batchStart) deposits t in
                if negb ok then Some (t', PollFailed)
                else poll_loop fuel c p safeHead (batchStart +₆₄ DepositBatchSize c) t'
            end
        end
  end.

Definition poll (c : FetcherConfig) (p : poll_env) (t : table) : option (table * poll_end) :=
  match getStartBlock c p t with
  | None => Some (t, PollFailed)
  | Some fromBlock =>
      match p_head p with
      | None => Some (t, PollFailed)
      | Some l1Head =>
          if l1Head <=? ConfirmationBlocks c then Some (t, PollDone)
          else
            let safeHead := l1Head - ConfirmationBlocks c in
            if safeHead <? fromBlock then Some (t, PollDone)
            else poll_loop (S (Z.to_nat (safeHead - fromBlock + 1))) c p safeHead fromBlock t
      end
  end.
End Hashes.

(** ** Sizes *)

Lemma encodeBytes_upper b : zlen b < W64 → zlen (encodeBytes b) ≤ zlen b + 9.
Proof.
  intros Hb. assert (zlen (encodeStringHeader (zlen b)) ≤ 9).
  { unfold encodeStringHeader; cbv zeta. destruct (Z.leb_spec (zlen b) 55); [done|].
    rewrite zlen_cons. pose proof (putUintBE_length (zlen b) ltac:(unfold is_u64; lia) ltac:(lia)). lia. }
  unfold encodeBytes. destruct b as [|x [|y b]]; rewrite ?zlen_app; try lia.
  case_match; rewrite ?zlen_app; lia.
Qed.

Lemma appendListHeader_upper p : zlen p < W64 → zlen (appendListHeader p) ≤ zlen p + 9.
Proof.
  intros Hp. unfold appendListHeader; cbv zeta. destruct (Z.leb_spec (zlen p) 55); [rewrite zlen_cons; lia|].
  rewrite zlen_cons, zlen_app. pose proof (putUintBE_length (zlen p) ltac:(unfold is_u64; lia) ltac:(lia)). lia.
Qed.

Lemma big_Bytes_upper z : 0 ≤ z < 2 ^ 256 → zlen (big_Bytes z) ≤ 32.
Proof.
  intros Hz. unfold big_Bytes. rewrite Z.abs_eq by lia. pose proof (trim0_length (be_bytes (byte_size z) z)) as L.
  rewrite length_be_bytes in L. unfold zlen. assert (Z.log2 z / 8 < 32) as Hl; [|unfold byte_size in *; lia].
  apply Z.div_lt_upper_bound; [lia|].
  destruct (Z.eq_dec z 0) as [->|]; [done|]. apply Z.log2_lt_pow2; lia.
Qed.

(** ** A deposit's hash binds it *)

(** A deposit as the fetcher builds it: 32-byte source, 20-byte addresses,
    256-bit amounts, 64-bit gas and calldata that fits in memory. *)
Record deposit_ok (f : depositTxFields) : Prop := {
  ok_source : is_hash (SourceHash f);
  ok_from : is_address (From f);
  ok_to : ∀ a, To f = Some a → is_address a;
  ok_mint : 0 ≤ default 0 (Mint f) < 2 ^ 256;
  ok_value : 0 ≤ default 0 (Value f) < 2 ^ 256;
  ok_gas : is_u64 (Gas f);
  ok_data : zlen (TxData f) < H64;
}.

Definition fields_items (f : depositTxFields) : list item :=
  [Str (SourceHash f); Str (From f); Str (default [] (To f)); Str (big_Bytes (default 0 (Mint f)));
   Str (big_Bytes (default 0 (Value f))); Str (putUintBE (Gas f)); Str (if IsSystemTx f then [x01] else []);
   Str (TxData f)].

Lemma fields_item f : item_of (fields_value f) = Some (Lst (fields_items f)).
Proof. by destruct f as [? ? [to|] ? ? ? ? ?]. Qed.

Lemma fields_encoded f : EncodeToBytes (fields_value f) = Some (enc (Lst (fields_items f))).
Proof. unfold EncodeToBytes. by rewrite encode_item, fields_item. Qed.

Lemma fields_size f : deposit_ok f → zlen (enc (Lst (fields_items f))) < W64.
Proof.
  intros [H1 H2 H3 H4 H5 H6 H7]. unfold is_hash, is_address, HashLength, AddressLength in *.
  pose proof (zlen_nonneg (TxData f)).
  assert (zlen (default [] (To f)) ≤ 20) as Hto.
  { destruct (To f) as [a|]; [|done]. specialize (H3 a eq_refl). unfold zlen; cbn; lia. }
  assert (zlen (SourceHash f) = 32 ∧ zlen (From f) = 20) as [Hs Hf] by (unfold zlen; lia).
  pose proof (big_Bytes_upper _ H4) as Hm. pose proof (big_Bytes_upper _ H5) as Hv.
  assert (zlen (putUintBE (Gas f)) ≤ 8) as Hg.
  { pose proof (trim0_length (be_bytes 8 (Gas f))) as L. rewrite length_be_bytes in L. unfold putUintBE, zlen. lia. }
  set (b := if IsSystemTx f then [x01] else []). assert (zlen b ≤ 1) as Hb by (subst b; by destruct (IsSystemTx f)).
  rewrite enc_Lst. unfold fields_items. fold b. rewrite !bind_cons, !enc_Str. change (@nil item ≫= enc) with (@nil byte).
  set (p := _ ++ _). enough (zlen p ≤ H64 + 300) by (pose proof (appendListHeader_upper p ltac:(lia)); lia).
  subst p. rewrite !zlen_app. change (zlen (@nil byte)) with 0.
  pose proof (encodeBytes_upper (SourceHash f) ltac:(lia)). pose proof (encodeBytes_upper (From f) ltac:(lia)).
  pose proof (encodeBytes_upper _ (Z.le_lt_trans _ _ W64 Hto ltac:(lia))).
  pose proof (encodeBytes_upper _ (Z.le_lt_trans _ _ W64 Hm ltac:(lia))).
  pose proof (encodeBytes_upper _ (Z.le_lt_trans _ _ W64 Hv ltac:(lia))).
  pose proof (encodeBytes_upper _ (Z.le_lt_trans _ _ W64 Hg ltac:(lia))).
  pose proof (encodeBytes_upper _ (Z.le_lt_trans _ _ W64 Hb ltac:(lia))).
  pose proof (encodeBytes_upper (TxData f) ltac:(lia)). lia.
Qed.

Lemma fields_items_inj f g : deposit_ok f → deposit_ok g → fields_items f = fields_items g →
  SourceHash f = SourceHash g ∧ From f = From g ∧ To f = To g ∧ default 0 (Mint f) = default 0 (Mint g) ∧
  default 0 (Value f) = default 0 (Value g) ∧ Gas f = Gas g ∧ IsSystemTx f = IsSystemTx g ∧ TxData f = TxData g.
Proof.
  intros [_ _ F3 F4 F5 F6 _] [_ _ G3 G4 G5 G6 _] E. unfold fields_items in E.
  injection E as E1 E2 E3 E4 E5 E6 E7 E8. split_and!; try done.
  - destruct (To f) as [a|], (To g) as [b|]; cbn in E3; subst; try done;
      [specialize (F3 _ eq_refl); by apply nil_length_inv in F3 || done | specialize (G3 _ eq_refl); done].
  - apply (f_equal be_Z) in E4. rewrite !big_Bytes_value in E4. lia.
  - apply (f_equal be_Z) in E5. rewrite !big_Bytes_value in E5. lia.
  - apply (f_equal be_Z) in E6. by rewrite !putUintBE_value in E6.
  - by destruct (IsSystemTx f), (IsSystemTx g).
Qed.

Lemma fields_encoding_inj f g : deposit_ok f → deposit_ok g →
  enc (Lst (fields_items f)) = enc (Lst (fields_items g)) → fields_items f = fields_items g.
Proof.
  intros Hf Hg E. pose proof (decode_items_enc (length (enc (Lst (fields_items f)))) [Lst (fields_items f)]) as D1.
  pose proof (decode_items_enc (length (enc (Lst (fields_items g)))) [Lst (fields_items g)]) as D2.
  rewrite !bind_one in D1, D2. specialize (D1 ltac:(done) (fields_size f Hf)). specialize (D2 ltac:(done) (fields_size g Hg)).
  rewrite E, D2 in D1. congruence.
Qed.

Section Binding.
Context `{Keccak}.

(** Two different strings with one digest. *)
Definition collision : Prop := ∃ x y, x ≠ y ∧ keccak256 x = keccak256 y.

Lemma keccak_or_collision x y : keccak256 x = keccak256 y → x = y ∨ collision.
Proof. intros E. destruct (decide (x = y)); [by left|right; by exists x, y]. Qed.

Lemma Keccak256Hash_one x : Keccak256Hash [x] = keccak256 x.
Proof. unfold Keccak256Hash. cbn. by rewrite app_nil_r. Qed.

Lemma source_hash_binds b1 i1 b2 i2 :
  is_hash b1 → is_hash b2 → is_u64 i1 → is_u64 i2 →
  ComputeSourceHash b1 i1 = ComputeSourceHash b2 i2 → (b1 = b2 ∧ i1 = i2) ∨ collision.
Proof.
  intros Hb1 Hb2 Hi1 Hi2 E. unfold ComputeSourceHash in E. rewrite !Keccak256Hash_one in E.
  apply keccak_or_collision in E as [E|]; [|by right]. apply app_inv_head in E.
  apply keccak_or_collision in E as [E|]; [left|by right].
  unfold source_inner in E. rewrite !take_ge in E by (unfold is_hash, HashLength in *; lia).
  apply app_inj_1 in E as [-> E]; [|unfold is_hash in *; congruence]. split; [done|].
  apply app_inv_head in E. apply (f_equal be_Z) in E. rewrite !be_Z_be_bytes in E.
  rewrite !Z.mod_small in E by (unfold is_u64 in *; lia). done.
Qed.

Lemma L2_hash_value f : ComputeL2DepositTxHash f = Some (keccak256 (depositTxType :: enc (Lst (fields_items f)))).
Proof. unfold ComputeL2DepositTxHash. rewrite fields_encoded. cbn [mbind option_bind]. by rewrite Keccak256Hash_one. Qed.

Lemma L2_hash_binds f g : deposit_ok f → deposit_ok g → ComputeL2DepositTxHash f = ComputeL2DepositTxHash g →
  fields_items f = fields_items g ∨ collision.
Proof.
  intros Hf Hg E. rewrite !L2_hash_value in E. injection E as E.
  apply keccak_or_collision in E as [E|]; [left|by right].
  apply fields_encoding_inj; [done|done|]. by apply (f_equal tail) in E.
Qed.

(** An event as the L1 node serves it. *)
Record event_ok (e : logEntry) : Prop := {
  ev_block : is_hash (BlockHash e);
  ev_index : is_u64 (Index e);
  ev_size : zlen (LogData e) < H64;
}.

Lemma be_Z_take_range n (l : gostring) : 0 ≤ be_Z (take n l) < 256 ^ Z.of_nat n.
Proof.
  pose proof (be_Z_range (take n l)) as Hr. rewrite length_take in Hr. split; [lia|].
  eapply Z.lt_le_trans; [apply Hr|]. apply Z.pow_le_mono_r; lia.
Qed.

Lemma parsed_ok e b : event_ok e → zlen b < H64 → deposit_ok (deposit_fields e (ParseOpaqueData b)).
Proof.
  intros [Hb Hi Hs] Hlen. unfold deposit_fields, ParseOpaqueData.
  assert (is_hash (ComputeSourceHash (BlockHash e) (Index e))) as Hsrc.
  { unfold ComputeSourceHash. rewrite Keccak256Hash_one. apply keccak256_length. }
  destruct (Z.ltb_spec (zlen b) 73) as [Hs'|Hl]; split; cbn -[Z.pow]; try done.
  - apply length_setBytes.
  - intros a [= <-]. apply length_setBytes.
  - apply length_setBytes.
  - intros a Ha. case_bool_decide; [done|]. injection Ha as <-. apply length_setBytes.
  - apply (be_Z_take_range 32).
  - apply (be_Z_take_range 32).
  - pose proof (be_Z_take_range 8 (drop 64 b)) as Hr. unfold is_u64. change (256 ^ Z.of_nat 8) with W64 in Hr. lia.
  - case_match; [|done]. unfold zlen in *. rewrite length_drop. lia.
Qed.

(** the L2 hash of a deposit event always exists, and it binds the event: two
    events with one hash come from the same log of the same L1 block and agree on
    sender, target, amounts, gas and calldata, or they exhibit a collision of
    Keccak-256. *)
Theorem deposit_hash_binding e1 e2 b1 b2 :
  event_ok e1 → event_ok e2 → zlen b1 < H64 → zlen b2 < H64 →
  let f1 := deposit_fields e1 (ParseOpaqueData b1) in
  let f2 := deposit_fields e2 (ParseOpaqueData b2) in
  is_Some (ComputeL2DepositTxHash f1) ∧
  (ComputeL2DepositTxHash f1 = ComputeL2DepositTxHash f2 →
   (BlockHash e1 = BlockHash e2 ∧ Index e1 = Index e2 ∧ From f1 = From f2 ∧ To f1 = To f2 ∧
    default 0 (Mint f1) = default 0 (Mint f2) ∧ default 0 (Value f1) = default 0 (Value f2) ∧
    Gas f1 = Gas f2 ∧ TxData f1 = TxData f2) ∨ collision).
Proof.
  intros He1 He2 Hb1 Hb2 f1 f2. pose proof (parsed_ok e1 b1 He1 Hb1) as H1. pose proof (parsed_ok e2 b2 He2 Hb2) as H2.
  fold f1 in H1. fold f2 in H2. split; [rewrite L2_hash_value; by eexists|]. intros E.
  apply L2_hash_binds in E as [E|]; [|by right|done|done].
  apply fields_items_inj in E as (Es & ? & ? & ? & ? & ? & _ & ?); [|done|done].
  destruct He1 as [? ? _], He2 as [? ? _].
  apply source_hash_binds in Es as [[? ?]|]; [by left|by right|done..].
Qed.
End Binding.

Definition sample_event (i : Z) : logEntry :=
  mkLog [[]; be_bytes 32 1; be_bytes 32 2; []] [] 7 [] i (be_bytes 32 9).

Lemma deposit_hash_binding_witness :
  event_ok (sample_event 3) ∧
  (@ComputeL2DepositTxHash toy_keccak (@deposit_fields toy_keccak (sample_event 3) (ParseOpaqueData [])) =
   @ComputeL2DepositTxHash toy_keccak (@deposit_fields toy_keccak (sample_event 3) (ParseOpaqueData (replicate 73 x00))) →
   Index (sample_event 3) = Index (sample_event 3) ∨ @collision toy_keccak).
Proof.
  assert (event_ok (sample_event 3)) as He by (split; [done|unfold is_u64; cbn; lia|done]). split; [exact He|].
  pose proof (@deposit_hash_binding toy_keccak (sample_event 3) (sample_event 3) [] (replicate 73 x00) He He
    ltac:(done) ltac:(done)) as [_ H]. intros E. destruct (H E) as [(_ & ? & _)|?]; [by left|by right].
Defined.

(** ** Decoding an event *)

(** The ABI encoding of one [bytes] argument: offset 32, length, bytes, padding. *)
Definition abi_bytes (b pad : gostring) : gostring := be_bytes 32 32 ++ be_bytes 32 (zlen b) ++ b ++ pad.

Lemma opaque_data_abi b pad : zlen (abi_bytes b pad) < H64 → opaque_data (abi_bytes b pad) = Val (Some b).
Proof.
  unfold abi_bytes. intros Hsize. rewrite !zlen_app in Hsize.
  pose proof (zlen_nonneg b). pose proof (zlen_nonneg pad).
  assert (∀ z, zlen (be_bytes 32 z) = 32) as H32 by (intros z; unfold zlen; by rewrite length_be_bytes).
  rewrite !H32 in Hsize. unfold opaque_data. set (data := be_bytes 32 32 ++ _).
  assert (zlen data = 64 + zlen b + zlen pad) as Hlen by (unfold data; rewrite !zlen_app, !H32; lia).
  destruct (Z.ltb_spec (zlen data) 64); [lia|].
  assert (take 32 data = be_bytes 32 32) as -> by (apply take_app_length'; by rewrite length_be_bytes).
  replace (u64 (be_Z (be_bytes 32 32))) with 32 by reflexivity. cbv zeta. change (32 +₆₄ 32) with 64.
  destruct (Z.ltb_spec (zlen data) 64); [lia|].
  rewrite (slice_app_mid (be_bytes 32 32) (be_bytes 32 (zlen b)) (b ++ pad)) by (rewrite ?H32; done).
  cbn [outcome_bind]. rewrite be_Z_be_bytes, (Z.mod_small (zlen b)) by lia.
  rewrite !(u64_small (zlen b)) by (unfold is_u64; lia). rewrite u64_small by (unfold is_u64; lia).
  destruct (Z.ltb_spec (zlen data) (64 + zlen b)); [lia|].
  unfold data. rewrite app_assoc. rewrite (slice_app_mid _ b pad); [done|rewrite zlen_app, !H32; done|].
  rewrite zlen_app, !H32. done.
Qed.

Lemma opaque_fields m v g (c : bool) d :
  0 ≤ m < 2 ^ 256 → 0 ≤ v < 2 ^ 256 → is_u64 g →
  ParseOpaqueData (be_bytes 32 m ++ be_bytes 32 v ++ be_bytes 8 g ++ (if c then x01 else x00) :: d) =
  mkOpaque (Some m) (Some v) g c d.
Proof.
  intros Hm Hv Hg. unfold ParseOpaqueData. set (b := be_bytes 32 m ++ _).
  assert (zlen b = 73 + zlen d) as Hb.
  { subst b. rewrite !zlen_app, zlen_cons. unfold zlen at 1 2 3. rewrite !length_be_bytes. lia. }
  pose proof (zlen_nonneg d). destruct (Z.ltb_spec (zlen b) 73); [lia|].
  assert (drop 32 b = be_bytes 32 v ++ be_bytes 8 g ++ (if c then x01 else x00) :: d) as E32.
  { apply drop_app_length'. by rewrite length_be_bytes. }
  assert (drop 64 b = be_bytes 8 g ++ (if c then x01 else x00) :: d) as E64.
  { change 64%nat with (32 + 32)%nat. rewrite <- drop_drop, E32. apply drop_app_length'. by rewrite length_be_bytes. }
  assert (drop 72 b = (if c then x01 else x00) :: d) as E72.
  { change 72%nat with (64 + 8)%nat. rewrite <- drop_drop, E64. apply drop_app_length'. by rewrite length_be_bytes. }
  assert (b !! 72%nat = Some (if c then x01 else x00)) as El.
  { rewrite <- (Nat.add_0_r 72), <- lookup_drop, E72. done. }
  assert (drop 73 b = d) as E73. { change 73%nat with (72 + 1)%nat. by rewrite <- drop_drop, E72. }
  assert (take 32 b = be_bytes 32 m) as -> by (apply take_app_length'; by rewrite length_be_bytes).
  rewrite El, E32, E64, E73.
  rewrite !(take_app_length' (be_bytes 32 _)), (take_app_length' (be_bytes 8 _)) by (by rewrite length_be_bytes).
  rewrite !be_Z_be_bytes, !Z.mod_small by (unfold is_u64 in *; lia). f_equal.
  - by destruct c.
  - destruct (Z.ltb_spec 73 (zlen b)); [done|]. destruct d; [done|]. rewrite zlen_cons in *. pose proof (zlen_nonneg d). lia.
Qed.

Section Decoding.
Context `{Keccak}.

(** an event the portal emits, with its packed amounts, gas limit, creation
    flag and calldata ABI-encoded (whatever the padding), is decoded to the
    deposit of exactly those fields: no panic, no skip. *)
Theorem deposit_event_decoded header_time e t0 t1 t2 t3 ts m v g (c : bool) d pad :
  Topics e = t0 :: t1 :: t2 :: t3 :: ts →
  LogData e = abi_bytes (be_bytes 32 m ++ be_bytes 32 v ++ be_bytes 8 g ++ (if c then x01 else x00) :: d) pad →
  0 ≤ m < 2 ^ 256 → 0 ≤ v < 2 ^ 256 → is_u64 g → zlen (LogData e) < H64 →
  ∃ h, ComputeL2DepositTxHash
         (mkDepositTx (ComputeSourceHash (BlockHash e) (Index e)) (BytesToAddress t1)
            (if c then None else Some (BytesToAddress t2)) (Some m) (Some v) g false d) = Some h ∧
    deposit_of header_time e =
      Val (Some (mkDeposit (Hash_Hex h) (BlockNumber e) (header_time (BlockNumber e)) (Hash_Hex (TxHash e))
                   (Address_Hex (BytesToAddress t1)))).
Proof.
  intros Ht Hd Hm Hv Hg Hs. rewrite L2_hash_value. eexists. split; [done|].
  unfold deposit_of. rewrite Ht, Hd in *. cbn [length Nat.ltb Nat.leb]. rewrite opaque_data_abi by done.
  cbn [outcome_bind]. rewrite opaque_fields by done. unfold deposit_fields. rewrite Ht. cbn [o_isCreation lookup list_lookup].
  by rewrite L2_hash_value.
Qed.
End Decoding.

Definition portal_event : logEntry :=
  mkLog [[]; be_bytes 32 1; be_bytes 32 2; []]
    (abi_bytes (be_bytes 32 5 ++ be_bytes 32 6 ++ be_bytes 8 21000 ++ x00 :: [xaa; xbb]) (replicate 21 x00))
    7 (be_bytes 32 77) 3 (be_bytes 32 9).

Lemma deposit_event_decoded_witness :
  ∃ d, @deposit_of toy_keccak (λ _, Some 100) portal_event = Val (Some d) ∧ L1BlockNumber d = 7.
Proof.
  destruct (@deposit_event_decoded toy_keccak (λ _, Some 100) portal_event [] (be_bytes 32 1) (be_bytes 32 2) [] []
    5 6 21000 false [xaa; xbb] (replicate 21 x00)) as (h & _ & E);
    [done|done|lia|lia|unfold is_u64; lia|vm_compute; done|].
  eexists. split; [exact E|done].
Defined.

(** An event whose offset word is 2^64 - 16: the sum wraps, passes the length
    check, and the slice panics. *)
Theorem fetchDepositEvents_panics :
  opaque_data (be_bytes 32 (2 ^ 64 - 16) ++ be_bytes 32 0) = Panic.
Proof. reflexivity. Qed.

(** ** No deposit is passed over *)

Lemma insert_all ds t :
  (∀ h, h ∈ (L2TxHash <$> t) → h ∈ (L2TxHash <$> foldl insert_deposit t ds)) ∧
  (∀ d, d ∈ ds → L2TxHash d ∈ (L2TxHash <$> foldl insert_deposit t ds)) ∧
  (∀ d, d ∈ foldl insert_deposit t ds → d ∈ t ∨ d ∈ ds).
Proof.
  revert t. induction ds as [|x ds IH]; intros t; cbn [foldl].
  { split_and!; [done|set_solver|by left]. }
  destruct (IH (insert_deposit t x)) as (I1 & I2 & I3).
  assert (∀ h, h ∈ (L2TxHash <$> t) ∨ h = L2TxHash x → h ∈ (L2TxHash <$> insert_deposit t x)) as Hx.
  { intros h Hh. unfold insert_deposit. case_bool_decide; [|rewrite fmap_app; set_solver]. by destruct Hh as [?| ->]. }
  split_and!.
  - intros h Hh. apply I1, Hx. by left.
  - intros d [->|Hd]%elem_of_cons; [apply I1, Hx; by right|by apply I2].
  - intros d Hd. apply I3 in Hd as [Hd|Hd]; [|set_solver].
    unfold insert_deposit in Hd. case_bool_decide; set_solver.
Qed.

Lemma GetLastIndexedL1Block_max t d : d ∈ t → L1BlockNumber d ≤ GetLastIndexedL1Block t.
Proof.
  intros Hd. apply (list_elem_of_fmap_2 L1BlockNumber) in Hd. unfold GetLastIndexedL1Block.
  apply list_max_spec; [|done]. intros E. rewrite E in Hd. by apply not_elem_of_nil in Hd.
Qed.

Lemma GetLastIndexedL1Block_range t m :
  0 ≤ m → (∀ d, d ∈ t → 0 ≤ L1BlockNumber d ≤ m) → 0 ≤ GetLastIndexedL1Block t ≤ m.
Proof.
  intros Hm Ht. destruct t as [|x t]; [done|]. unfold GetLastIndexedL1Block.
  destruct (list_max_spec (L1BlockNumber <$> x :: t)) as [(d & -> & Hd)%list_elem_of_fmap _]; [done|]. by apply Ht.
Qed.

Section Complete.
Context `{Keccak} (c : FetcherConfig) (chain : list logEntry).

Definition stored_event (t : table) (e : logEntry) : Prop :=
  ∀ header_time d, deposit_of header_time e = Val (Some d) → L2TxHash d ∈ (L2TxHash <$> t).

(** [eth_getLogs] answers the portal's logs of the range, and only those. *)
Definition honest (p : poll_env) : Prop := ∀ a b logs, p_logs p a b = Some logs →
  (∀ e, e ∈ logs → a ≤ BlockNumber e ≤ b) ∧ (∀ e, e ∈ chain → a ≤ BlockNumber e ≤ b → e ∈ logs).

Definition head_bounds (p : poll_env) : Prop := ∀ h, p_head p = Some h → 0 ≤ h < H64.

Definition covered (t : table) (m : Z) : Prop :=
  ∀ e, e ∈ chain → DepositStartBlock c ≤ BlockNumber e ≤ m → stored_event t e.

Definition rows_below (t : table) (m : Z) : Prop := ∀ d, d ∈ t → 0 ≤ L1BlockNumber d ≤ m.

Definition table_inv (t : table) : Prop :=
  covered t (GetLastIndexedL1Block t) ∧ rows_below t (H64 - 1).

(** The polls of a run; a panic ends the process, and the next one polls again. *)
Fixpoint run_polls (ps : list poll_env) (t : table) : option table :=
  match ps with
  | [] => Some t
  | p :: r => r' ← poll c p t; run_polls r r'.1
  end.

Lemma deposit_of_block ht e d : deposit_of ht e = Val (Some d) → L1BlockNumber d = BlockNumber e.
Proof.
  unfold deposit_of. case_match; [done|]. destruct (opaque_data _) as [o|]; cbn [outcome_bind]; [|done].
  destruct o as [o|]; [|done]. intros [= E]. rewrite L2_hash_value in E. cbn in E. by injection E as <-.
Qed.

Lemma deposit_of_time ht ht' e d : deposit_of ht e = Val (Some d) →
  ∃ d', deposit_of ht' e = Val (Some d') ∧ L2TxHash d' = L2TxHash d.
Proof.
  unfold deposit_of. case_match; [done|]. destruct (opaque_data _) as [o|]; cbn [outcome_bind]; [|done].
  destruct o as [o|]; [|done]. intros [= E]. rewrite !L2_hash_value in *. cbn in *. injection E as <-. by eexists.
Qed.

Lemma deposits_of_spec ht logs ds : deposits_of ht logs = Val ds →
  (∀ e d, e ∈ logs → deposit_of ht e = Val (Some d) → d ∈ ds) ∧
  (∀ d, d ∈ ds → ∃ e, e ∈ logs ∧ deposit_of ht e = Val (Some d)).
Proof.
  revert ds. induction logs as [|e logs IH]; intros ds; cbn [deposits_of]; [intros [= <-]; split; set_solver|].
  destruct (deposit_of ht e) as [od|] eqn:E; cbn [outcome_bind]; [|done].
  destruct (deposits_of ht logs) as [ds0|]; cbn [outcome_bind]; [|done]. intros [= <-].
  destruct (IH ds0 eq_refl) as [I1 I2]. destruct od as [d0|]; split.
  - intros e' d [->|He]%elem_of_cons Hd; [rewrite E in Hd; injection Hd as ->; set_solver|]. apply elem_of_cons. right. by eapply I1.
  - intros d [->|Hd]%elem_of_cons; [exists e; set_solver|]. destruct (I2 d Hd) as (e' & ? & ?). exists e'. set_solver.
  - intros e' d [->|He]%elem_of_cons Hd; [congruence|by eapply I1].
  - intros d Hd. destruct (I2 d Hd) as (e' & ? & ?). exists e'. set_solver.
Qed.

Lemma covered_insert ht logs ds t a b :
  deposits_of ht logs = Val ds → (∀ e, e ∈ chain → a ≤ BlockNumber e ≤ b → e ∈ logs) →
  covered t (a - 1) → covered (foldl insert_deposit t ds) b.
Proof.
  intros Hds Hlogs Ht e He Hb ht' d Hd. destruct (insert_all ds t) as (I1 & I2 & _).
  destruct (Z_lt_le_dec (BlockNumber e) a) as [Hlt|Hge].
  - apply I1. eapply Ht; [exact He|lia|exact Hd].
  - destruct (deposit_of_time _ ht _ _ Hd) as (d' & Hd' & <-). apply I2.
    destruct (deposits_of_spec _ _ _ Hds) as [S1 _]. by apply (S1 e d'); [apply Hlogs; [|lia]|].
Qed.

Lemma covered_empty t ht logs a b :
  deposits_of ht logs = Val [] → (∀ e, e ∈ chain → a ≤ BlockNumber e ≤ b → e ∈ logs) →
  covered t (a - 1) → covered t b.
Proof. intros Hds Hlogs Ht. exact (covered_insert ht logs [] t a b Hds Hlogs Ht). Qed.

Hypothesis batch_ok : 0 < DepositBatchSize c < H64.
Hypothesis start_ok : 0 < DepositStartBlock c < H64.
Hypothesis confirmations_ok : 0 ≤ ConfirmationBlocks c.

(** The loop keeps everything below the next batch covered, and every stored row
    below it. *)
Lemma poll_loop_covers fuel p safeHead batchStart t :
  honest p → 1 ≤ batchStart → 0 ≤ safeHead < H64 → (Z.to_nat (safeHead - batchStart + 1) < fuel)%nat →
  covered t (batchStart - 1) → rows_below t (batchStart - 1) →
  ∃ t' r, poll_loop fuel c p safeHead batchStart t = Some (t', r) ∧ covered t' (GetLastIndexedL1Block t') ∧
    rows_below t' (Z.max (batchStart - 1) safeHead) ∧ (r = PollDone → covered t' safeHead).
Proof using batch_ok.
  intros Hh. revert batchStart t. induction fuel as [|fuel IH]; intros s t Hs Hsafe Hf Hc Hrows; [lia|].
  pose proof (GetLastIndexedL1Block_range t (s - 1) ltac:(lia) Hrows) as Hlast.
  assert (covered t (GetLastIndexedL1Block t)) as Hsame by (intros x Hx Hb; apply Hc; [done|lia]).
  assert (rows_below t (Z.max (s - 1) safeHead)) as Hr0 by (intros d Hd; specialize (Hrows d Hd); lia).
  cbn [poll_loop]. destruct (Z.ltb_spec safeHead s) as [Hdone|Hgo].
  { eexists _, _. split_and!; [done..|]. intros _ e He Hb. apply Hc; [done|lia]. }
  rewrite (u64_small (s + _)) by (unfold is_u64; lia). rewrite u64_small by (unfold is_u64; lia).
  set (e := Z.min _ _). assert (s ≤ e ≤ safeHead) as He by lia.
  destruct (p_logs p s e) as [logs|] eqn:El; [|by eexists _, _].
  destruct (Hh _ _ _ El) as [Hin Hall]. destruct (deposits_of (p_time p) logs) as [ds|] eqn:Ed; [|by eexists _, _].
  pose proof (covered_insert _ _ _ _ _ _ Ed Hall Hc) as Hcov.
  assert (rows_below (foldl insert_deposit t ds) e) as Hrows2.
  { intros d Hd. apply (insert_all ds t) in Hd as [Hd|Hd]; [specialize (Hrows d Hd); lia|].
    destruct (deposits_of_spec _ _ _ Ed) as [_ S2]. destruct (S2 d Hd) as (x & Hx & Dx).
    rewrite (deposit_of_block _ _ _ Dx). specialize (Hin _ Hx). lia. }
  assert (covered (foldl insert_deposit t ds) (GetLastIndexedL1Block (foldl insert_deposit t ds))) as Hcl.
  { pose proof (GetLastIndexedL1Block_range _ e ltac:(lia) Hrows2). intros x Hx Hb. apply Hcov; [done|lia]. }
  assert (rows_below (foldl insert_deposit t ds) (Z.max (s - 1) safeHead)) as Hr2
    by (intros d Hd; specialize (Hrows2 d Hd); lia).
  assert (InsertOPDepositsBatch (p_insert p s) ds t = (t, false) ∨
          InsertOPDepositsBatch (p_insert p s) ds t = (foldl insert_deposit t ds, false) ∨
          InsertOPDepositsBatch (p_insert p s) ds t = (foldl insert_deposit t ds, true)) as Hi.
  { unfold InsertOPDepositsBatch. destruct ds, (p_insert p s); auto. }
  destruct Hi as [-> |[-> | ->]]; cbn [negb]; [by eexists _, _|by eexists _, _|].
  destruct (Z_le_gt_dec (s + DepositBatchSize c) safeHead) as [Hmore|Hend].
  - destruct (IH (s + DepositBatchSize c) (foldl insert_deposit t ds)) as (t' & r & E & I1 & I2 & I3); [lia..| | |].
    + by replace (s + DepositBatchSize c - 1) with e by lia.
    + by replace (s + DepositBatchSize c - 1) with e by lia.
    + exists t', r. split_and!; [done..| |done]. intros d Hd. specialize (I2 d Hd). lia.
  - destruct fuel; [lia|]. cbn [poll_loop]. destruct (Z.ltb_spec safeHead (s + DepositBatchSize c)); [|lia].
    eexists _, _. split_and!; [done..|]. intros _. by replace safeHead with e by lia.
Qed.

Lemma poll_keeps p t : honest p → head_bounds p → table_inv t →
  ∃ t' r, poll c p t = Some (t', r) ∧ table_inv t' ∧
    (r = PollDone → ∀ h, p_head p = Some h → ConfirmationBlocks c < h → covered t' (h - ConfirmationBlocks c)).
Proof using batch_ok start_ok confirmations_ok.
  intros Hh Hb [Hc Hr]. pose proof (GetLastIndexedL1Block_range t (H64 - 1) ltac:(lia) Hr) as Hl.
  assert (table_inv t) as Hinv by done.
  unfold poll. destruct (getStartBlock c p t) as [s|] eqn:Es; [|by eexists _, _].
  assert (1 ≤ s ∧ covered t (s - 1) ∧ rows_below t (s - 1)) as (Hs & Hcs & Hrs).
  { unfold getStartBlock in Es. destruct (p_last_ok p); [|done]. cbn in Es.
    destruct (Z.ltb_spec 0 (GetLastIndexedL1Block t)) as [Hp|Hz].
    - injection Es as <-. rewrite u64_small by (unfold is_u64; lia).
      replace (_ + 1 - 1) with (GetLastIndexedL1Block t) by lia. split_and!; [lia|done|].
      intros d Hd. pose proof (GetLastIndexedL1Block_max t d Hd). specialize (Hr d Hd). lia.
    - destruct (Z.ltb_spec 0 (DepositStartBlock c)); [|lia]. injection Es as <-. split_and!; [lia| |].
      + intros e He Hb'. lia.
      + intros d Hd. pose proof (GetLastIndexedL1Block_max t d Hd). specialize (Hr d Hd). lia. }
  destruct (p_head p) as [h|] eqn:Eh; [|by eexists _, _]. specialize (Hb h Eh).
  destruct (Z.leb_spec h (ConfirmationBlocks c)).
  { eexists _, _. split_and!; [done..|]. intros _ h' [= <-]. lia. }
  destruct (Z.ltb_spec (h - ConfirmationBlocks c) s).
  { eexists _, _. split_and!; [done..|]. intros _ h' [= <-] _ e He Hb'. apply Hcs; [done|lia]. }
  destruct (poll_loop_covers (S (Z.to_nat (h - ConfirmationBlocks c - s + 1))) p (h - ConfirmationBlocks c) s t)
    as (t' & r & E & I1 & I2 & I3); [done|done|lia|lia|done|done|].
  exists t', r. split_and!; [done|split; [done|]|].
  - intros d Hd. specialize (I2 d Hd). specialize (Hr d). lia.
  - intros Hdone h' [= <-] _. by apply I3.
Qed.

Lemma run_polls_keeps ps t : Forall honest ps → Forall head_bounds ps → table_inv t →
  ∃ t', run_polls ps t = Some t' ∧ table_inv t'.
Proof using batch_ok start_ok confirmations_ok.
  intros Hh Hb. revert t. induction ps as [|p ps IH]; intros t Ht; cbn [run_polls]; [by exists t|].
  apply Forall_cons in Hh as [Hp Hh]. apply Forall_cons in Hb as [Hbp Hb].
  destruct (poll_keeps p t Hp Hbp Ht) as (t' & r & -> & Ht' & _). cbn. by apply IH.
Qed.
End Complete.

(** C27: with a start block configured, the fetcher passes over no deposit: through
    any sequence of polls (failed reads and inserts, lost acknowledgements and
    panics included), every decodable event from the start block to the fetcher's
    cursor is stored; every poll returns, and one that ends without an error
    leaves everything up to the confirmed head stored. *)
Theorem deposits_complete `{Keccak} c chain ps p :
  0 < DepositBatchSize c < H64 → 0 < DepositStartBlock c < H64 → 0 ≤ ConfirmationBlocks c →
  Forall (honest chain) (ps ++ [p]) → Forall head_bounds (ps ++ [p]) →
  ∃ t t' r, run_polls c ps [] = Some t ∧ poll c p t = Some (t', r) ∧
    covered c chain t (GetLastIndexedL1Block t) ∧
    (r = PollDone → ∀ h, p_head p = Some h → ConfirmationBlocks c < h →
       covered c chain t' (h - ConfirmationBlocks c)).
Proof.
  intros Hb Hs Hc [Hh [Hp _]%Forall_cons]%Forall_app [Hhb [Hpb _]%Forall_cons]%Forall_app.
  destruct (run_polls_keeps c chain Hb Hs Hc ps [] Hh Hhb) as (t & Et & Ht).
  { split; [intros e _ He; cbn in He; lia|intros d Hd; by apply not_elem_of_nil in Hd]. }
  destruct (poll_keeps c chain Hb Hs Hc p t Hp Hpb Ht) as (t' & r & E & _ & I).
  exists t, t', r. split_and!; [done|done|apply Ht|done].
Qed.

Definition l1_env (head : Z) (f : fault) : poll_env :=
  mkPoll true (Some head) (Some head)
    (λ a b, Some (filter (λ e, a ≤ BlockNumber e ≤ b) [portal_event])) (λ _, None) (λ _, f).

Lemma deposits_complete_witness :
  ∃ t t' r, @run_polls toy_keccak (mkFetcher 2 5 1) [l1_env 9 Refused] [] = Some t ∧
    @poll toy_keccak (mkFetcher 2 5 1) (l1_env 9 NoFault) t = Some (t', r) ∧ r = PollDone ∧
    @covered toy_keccak (mkFetcher 2 5 1) [portal_event] t' 8.
Proof.
  assert (∀ h f, honest [portal_event] (l1_env h f)) as Hh.
  { intros h f a b logs [= <-]. split; [by intros e [? _]%list_elem_of_filter|intros e He Hb].
    by apply list_elem_of_filter. }
  assert (∀ f, head_bounds (l1_env 9 f)) as Hb by (intros f h [= <-]; lia).
  destruct (@deposits_complete toy_keccak (mkFetcher 2 5 1) [portal_event] [l1_env 9 Refused] (l1_env 9 NoFault))
    as (t & t' & r & E1 & E2 & _ & Hc); [cbn; lia..|cbn; auto 6|cbn; auto 6|].
  assert (r = PollDone) as Hr.
  { vm_compute in E1. injection E1 as <-. vm_compute in E2. by injection E2 as _ <-. }
  exists t, t', r. split_and!; [done..|]. exact (Hc Hr 9 eq_refl ltac:(cbn; lia)).
Defined.

(** Without a start block and with nothing stored, each poll scans the confirmed
    head alone: a deposit between the heads of two polls is never fetched. *)
Theorem poll_without_start_skips :
  @run_polls toy_keccak (mkFetcher 100 0 1) [l1_env 6 NoFault; l1_env 9 NoFault; l1_env 12 NoFault] [] = Some [] ∧
  BlockNumber portal_event = 7.
Proof. split; [vm_compute; reflexivity|done]. Qed.

(** [DeleteBlock] removes the deposits of a reverted L2 block's transactions. *)
Definition delete_reverted (hashes : list gostring) (t : table) : table := filter (λ d, L2TxHash d ∉ hashes) t.

Definition later_event : logEntry :=
  mkLog (Topics portal_event)
    (abi_bytes (be_bytes 32 5 ++ be_bytes 32 6 ++ be_bytes 8 21000 ++ x00 :: [xaa; xcc]) (replicate 21 x00))
    8 (be_bytes 32 78) 0 (be_bytes 32 10).
Definition two_events (head : Z) : poll_env :=
  mkPoll true (Some head) (Some head)
    (λ a b, Some (filter (λ e, a ≤ BlockNumber e ≤ b) [portal_event; later_event])) (λ _, None) (λ _, NoFault).
Definition first_hashes (t : table) : list gostring := L2TxHash <$> take 1 t.

(** The cursor only looks up: when a reorg on L2 takes off a deposit below the
    highest one stored, no later poll fetches it again, although the deposit is
    still on L1 and its L2 transaction, which keeps its hash, comes back. *)
Theorem revert_forgets_deposits :
  ∃ t, @run_polls toy_keccak (mkFetcher 100 5 1) [two_events 12] [] = Some t ∧ (L1BlockNumber <$> t) = [7; 8] ∧
  ∃ t', @run_polls toy_keccak (mkFetcher 100 5 1) [two_events 20; two_events 30] (delete_reverted (first_hashes t) t) = Some t' ∧
    (L1BlockNumber <$> t') = [8].
Proof. eexists. split; [vm_compute; reflexivity|]. split; [reflexivity|]. eexists. split; [vm_compute; reflexivity|reflexivity]. Qed.
