(* ===== verification/AbiString.v ===== *)
(** * Answers of contract calls: strings, decimals and batched balances

    The ABI answers the indexer decodes by hand: the strings of [symbol()],
    [name()] and [tokenURI()] ([parseStringResult] of [internal/rpc/rpc.go] and
    its twin in [internal/indexer/indexer.go]), the decimals, and the two arrays
    the balance reader contract returns ([internal/rpc/balance_reader.go]).
    Offsets and lengths come from the contract: sums are those of uint64 and int,
    with wrap-around, and a slice out of range is a Go panic. *)

From S2P Require Import Prelude GoStrings EthCommon Rlp OpDeposits.

(** ** Strings *)

(** Up to the first NUL; and without the NULs at the end ([strings.TrimRight]). *)
Fixpoint until_nul (s : gostring) : gostring :=
  match s with
  | [] => []
  | b :: r => if bool_decide (b = x00) then [] else b :: until_nul r
  end.
Fixpoint drop_nuls (s : gostring) : gostring :=
  match s with
  | b :: r => if bool_decide (b = x00) then drop_nuls r else s
  | [] => []
  end.
Definition trim_nuls (s : gostring) : gostring := reverse (drop_nuls (reverse s)).

(** The dynamic string of an answer of 64 bytes or more; [None] stands for the
    empty answer of a failed check. *)
Definition string_bytes (data : gostring) : outcome (option gostring) :=
  let offset := u64 (be_Z (take 32 data)) in
  if zlen data <=? offset then Val None
  else if zlen data <? offset +₆₄ 32 then Val None
  else
    must word := slice data offset (offset +₆₄ 32) in
    let length := u64 (be_Z word) in
    if zlen data <? offset +₆₄ 32 +₆₄ length then Val None
    else
      must b := slice data (offset +₆₄ 32) (offset +₆₄ 32 +₆₄ length) in
      Val (Some b).

Definition parseStringResult (data : gostring) : outcome gostring :=
  if zlen data <? 64 then Val (until_nul data)
  else must b := string_bytes data in Val (default [] (until_nul <$> b)).

Definition indexer_parseStringResult (data : gostring) : outcome gostring :=
  if zlen data <? 64 then Val (trim_nuls data)
  else must b := string_bytes data in Val (default [] (trim_nuls <$> b)).

(** ** Token metadata *)

Record TokenMetadataResult := mkMeta { Symbol : gostring; Name : option gostring; Decimals : Z }.

(** The calls of one token of [FetchTokenMetadataBatch] ([None]: the call failed). *)
Definition fetch_metadata (symbolData nameData decimalsData : option gostring) : outcome TokenMetadataResult :=
  must symbol := match symbolData with
                 | None => Val $"UNKNOWN"
                 | Some d => must s := parseStringResult d in Val (if bool_decide (s = []) then $"UNKNOWN" else s)
                 end in
  must name := match nameData with
               | None => Val None
               | Some d => must n := parseStringResult d in Val (if bool_decide (n = []) then None else Some n)
               end in
  Val (mkMeta symbol name
    match decimalsData with
    | Some d => if 32 <=? zlen d then i64 (be_Z d) else 18
    | None => 18
    end).

Definition classifyNewToken (isERC721 : bool) (metaDecimals : Z) : gostring * Z :=
  if isERC721 then ($"ERC721", 0) else ($"ERC20", metaDecimals).

(** ** Batched balances *)

Definition balancesSelector : gostring := FromHex $"0xd3e5ca87".

Definition balances_calldata (token : gostring) (holders : list gostring) : gostring :=
  balancesSelector ++ LeftPadBytes token 32 ++ LeftPadBytes (big_Bytes 64) 32 ++ LeftPadBytes (big_Bytes (zlen holders)) 32 ++
  (holders ≫= λ h, LeftPadBytes h 32).

Inductive reader_err := ShortResult.

Definition word (res : gostring) (off : Z) : outcome (Prelude.res reader_err Z) :=
  if (off <? 0) || (zlen res <? i64 (off + 32)) then Val (Err ShortResult)
  else must b := slice res off (i64 (off + 32)) in Val (Ok (be_Z b)).

Fixpoint read_balances (res : gostring) (outOff okOff : Z) (i : Z) (holders : nat)
  : outcome (Prelude.res reader_err (list (Z * bool))) :=
  match holders with
  | O => Val (Ok [])
  | S n =>
      must value := word res (i64 (i64 (i64 outOff + 32) + 32 * i)) in
      match value with
      | Err e => Val (Err e)
      | Ok v =>
          must flag := word res (i64 (i64 (i64 okOff + 32) + 32 * i)) in
          match flag with
          | Err e => Val (Err e)
          | Ok f =>
              must rest := read_balances res outOff okOff (i + 1) n in
              Val (match rest with Err e => Err e | Ok l => Ok ((v, negb (f =? 0)) :: l) end)
          end
      end
  end.

Definition BalancesOf (res : gostring) (holders : list gostring) : outcome (Prelude.res reader_err (list (Z * bool))) :=
  must outOff := word res 0 in
  match outOff with
  | Err e => Val (Err e)
  | Ok o =>
      must okOff := word res 32 in
      match okOff with Err e => Val (Err e) | Ok k => read_balances res o k 0 (length holders) end
  end.

(** ** Decoding what a contract encodes *)

Lemma until_nul_clean s k : x00 ∉ s → until_nul (s ++ replicate k x00) = s.
Proof.
  induction s as [|b s IH]; intros Hs; cbn [app until_nul]; [by destruct k|].
  rewrite bool_decide_eq_false_2 by set_solver. f_equal. apply IH. set_solver.
Qed.

Lemma drop_nuls_replicate k s : x00 ∉ s → drop_nuls (replicate k x00 ++ s) = s.
Proof.
  intros Hs. induction k as [|k IH]; cbn [replicate app drop_nuls]; [|done].
  destruct s; cbn; [done|]. by rewrite bool_decide_eq_false_2 by set_solver.
Qed.

Lemma trim_nuls_clean s k : x00 ∉ s → trim_nuls (s ++ replicate k x00) = s.
Proof.
  intros Hs. unfold trim_nuls. rewrite reverse_app, reverse_replicate.
  rewrite drop_nuls_replicate by (by rewrite elem_of_reverse). by rewrite reverse_involutive.
Qed.

(** Where the earlier check is not needed the two readers of a dynamic argument
    are one. *)
Lemma string_bytes_opaque data : 64 ≤ zlen data → u64 (be_Z (take 32 data)) < zlen data →
  string_bytes data = opaque_data data.
Proof.
  intros H64' Ho. unfold string_bytes, opaque_data. cbv zeta.
  destruct (Z.ltb_spec (zlen data) 64); [lia|].
  destruct (Z.leb_spec (zlen data) (u64 (be_Z (take 32 data)))); [lia|done].
Qed.

Lemma abi_bytes_offset b pad : u64 (be_Z (take 32 (abi_bytes b pad))) = 32 ∧ 64 ≤ zlen (abi_bytes b pad).
Proof.
  split.
  - unfold abi_bytes. rewrite take_app_length' by (by rewrite length_be_bytes). done.
  - unfold abi_bytes. rewrite !zlen_app. unfold zlen. rewrite !length_be_bytes. lia.
Qed.

Lemma string_bytes_abi b pad : zlen (abi_bytes b pad) < H64 → string_bytes (abi_bytes b pad) = Val (Some b).
Proof.
  intros Hs. destruct (abi_bytes_offset b pad) as [Ho Hl].
  rewrite string_bytes_opaque by (rewrite ?Ho; lia). by apply opaque_data_abi.
Qed.

(** both string readers answer the string a token returns, whether it is
    ABI-encoded (any padding) or the 32-byte form older tokens use, when the
    string holds no NUL byte. *)
Theorem parseStringResult_decodes s pad k :
  x00 ∉ s → zlen (abi_bytes s pad) < H64 →
  parseStringResult (abi_bytes s pad) = Val s ∧ indexer_parseStringResult (abi_bytes s pad) = Val s ∧
  ((length s + k < 64)%nat →
   parseStringResult (s ++ replicate k x00) = Val s ∧ indexer_parseStringResult (s ++ replicate k x00) = Val s).
Proof.
  intros Hs Hl. pose proof (until_nul_clean s 0 Hs) as Hu. pose proof (trim_nuls_clean s 0 Hs) as Ht.
  cbn in Hu, Ht. rewrite app_nil_r in Hu, Ht.
  destruct (abi_bytes_offset s pad) as [_ H64'].
  unfold parseStringResult, indexer_parseStringResult.
  destruct (Z.ltb_spec (zlen (abi_bytes s pad)) 64); [lia|]. rewrite string_bytes_abi by done.
  cbn [outcome_bind fmap option_fmap option_map default]. rewrite Hu, Ht. split_and!; [done..|]. intros Hk.
  rewrite until_nul_clean, trim_nuls_clean by done.
  assert (zlen (s ++ replicate k x00) < 64) as Hz by (unfold zlen; rewrite length_app, length_replicate; lia).
  by destruct (Z.ltb_spec (zlen (s ++ replicate k x00)) 64); [|lia].
Qed.

Lemma parseStringResult_decodes_witness :
  parseStringResult (abi_bytes $"USDC" (replicate 28 x00)) = Val $"USDC" ∧
  indexer_parseStringResult ($"MKR" ++ replicate 29 x00) = Val $"MKR".
Proof.
  split.
  - destruct (parseStringResult_decodes $"USDC" (replicate 28 x00) 0) as [E _]; [vm_compute; set_solver|done|exact E].
  - destruct (parseStringResult_decodes $"MKR" [] 29) as (_ & _ & H); [vm_compute; set_solver|done|].
    apply H. cbn. lia.
Defined.

(** C32: when the string readers panic.  The checks are made on wrapped sums, so
    an answer whose length word makes [offset + 32 + length] reach 2^64 passes
    them, and only such an answer does: the reader then slices out of range. *)
Theorem parseStringResult_panics_iff data :
  zlen data < H64 →
  let offset := u64 (be_Z (take 32 data)) in
  let length := u64 (be_Z (take 32 (drop (Z.to_nat offset) data))) in
  parseStringResult data = Panic ↔ 64 ≤ zlen data ∧ offset + 32 ≤ zlen data ∧ W64 ≤ offset + 32 + length.
Proof.
  intros Hl offset length. unfold parseStringResult.
  destruct (Z.ltb_spec (zlen data) 64) as [Hs|Hs]; [split; [done|lia]|].
  unfold string_bytes. fold offset. pose proof (u64_range (be_Z (take 32 data))) as Ho. fold offset in Ho.
  unfold is_u64 in Ho. destruct (Z.leb_spec (zlen data) offset) as [H1|H1]; [split; [done|lia]|].
  rewrite (u64_small (offset + 32)) by (unfold is_u64; lia).
  destruct (Z.ltb_spec (zlen data) (offset + 32)) as [H2|H2]; [split; [done|lia]|].
  rewrite slice_val by lia. replace (Z.to_nat (offset + 32 - offset)) with 32%nat by lia. cbn [outcome_bind].
  fold length. pose proof (u64_range (be_Z (take 32 (drop (Z.to_nat offset) data)))) as Hlen. fold length in Hlen.
  unfold is_u64 in Hlen. destruct (Z_lt_le_dec (offset + 32 + length) W64) as [Hno|Hwrap].
  - rewrite u64_small by (unfold is_u64; lia). destruct (Z.ltb_spec (zlen data) (offset + 32 + length)); [split; [done|lia]|].
    rewrite slice_val by lia. split; [done|lia].
  - rewrite u64_add_wrap by (unfold is_u64; lia).
    destruct (Z.ltb_spec (zlen data) (offset + 32 + length - W64)); [lia|].
    rewrite slice_panic by lia. split; [done|done].
Qed.

(** The answer of a hostile token: offset 32, length 2^64 - 64. *)
Definition hostile_answer : gostring := be_bytes 32 32 ++ be_bytes 32 (2 ^ 64 - 64).

Lemma parseStringResult_panics_iff_witness :
  zlen hostile_answer = 64 ∧ parseStringResult hostile_answer = Panic.
Proof. 
  split; [done|]. apply (proj2 (parseStringResult_panics_iff hostile_answer ltac:(done))). vm_compute. done.
Defined.

(** One hostile symbol takes the whole metadata call down with it. *)
Theorem hostile_symbol_panics name decimals : fetch_metadata (Some hostile_answer) name decimals = Panic.
Proof. reflexivity. Qed.

(** ** The balance reader's answer *)

Definition words (ws : list Z) : gostring := ws ≫= be_bytes 32.

Lemma length_words ws : length (words ws) = (32 * length ws)%nat.
Proof. induction ws as [|w ws IH]; [done|]. unfold words in *. rewrite bind_cons, length_app, IH, length_be_bytes. cbn. lia. Qed.

Lemma word_at pre ws1 w ws2 post :
  0 ≤ w < 2 ^ 256 → zlen (pre ++ words (ws1 ++ w :: ws2) ++ post) < H64 →
  word (pre ++ words (ws1 ++ w :: ws2) ++ post) (zlen pre + 32 * zlen ws1) = Val (Ok w).
Proof.
  intros Hw. unfold words. rewrite bind_app, bind_cons. fold (words ws1) (words ws2).
  replace (pre ++ (words ws1 ++ be_bytes 32 w ++ words ws2) ++ post)
    with ((pre ++ words ws1) ++ be_bytes 32 w ++ words ws2 ++ post) by (by rewrite <- !app_assoc).
  assert (zlen (pre ++ words ws1) = zlen pre + 32 * zlen ws1) as Hpos.
  { rewrite zlen_app. unfold zlen. rewrite length_words. lia. }
  assert (zlen (be_bytes 32 w) = 32) as H32 by (unfold zlen; by rewrite length_be_bytes).
  set (tail := words ws2 ++ post). pose proof (zlen_nonneg tail). pose proof (zlen_nonneg pre). pose proof (zlen_nonneg ws1).
  rewrite zlen_app, Hpos, zlen_app, H32. intros Hlen. unfold word. rewrite i64_small by lia.
  rewrite zlen_app, Hpos, zlen_app, H32. destruct (Z.ltb_spec (zlen pre + 32 * zlen ws1) 0); [lia|]. cbn [orb].
  destruct (Z.ltb_spec (zlen pre + 32 * zlen ws1 + (32 + zlen tail)) (zlen pre + 32 * zlen ws1 + 32)); [lia|].
  rewrite (slice_app_mid (pre ++ words ws1) (be_bytes 32 w)) by (rewrite ?Hpos, ?H32; lia). cbn [outcome_bind].
  rewrite be_Z_be_bytes, Z.mod_small by lia. done.
Qed.

Definition flag_word (b : bool) : Z := if b then 1 else 0.

(** The ABI encoding of [(uint256[] values, bool[] ok)]. *)
Definition reader_answer (rows : list (Z * bool)) (pad : gostring) : gostring :=
  words [64; 96 + 32 * zlen rows] ++
  words (zlen rows :: rows.*1) ++ words (zlen rows :: (flag_word <$> rows.*2)) ++ pad.

Lemma read_balances_rows pre ws mid fs post o k seen rows :
  zlen pre = o + 32 → zlen (pre ++ words ws ++ mid) = k + 32 → 0 ≤ o → 0 ≤ k →
  ws = (seen ++ rows).*1 → fs = flag_word <$> (seen ++ rows).*2 → Forall (λ w, 0 ≤ w < 2 ^ 256) ws →
  let res := pre ++ words ws ++ mid ++ words fs ++ post in
  zlen res < H64 → read_balances res o k (zlen seen) (length rows) = Val (Ok rows).
Proof.
  intros Ho Hk Ho0 Hk0 Hws Hfs HF res Hlen. revert seen Hws Hfs.
  induction rows as [|[v f] rows IH]; intros seen Hws Hfs; [done|]. cbn [length read_balances].
  assert (zlen pre + (zlen (words ws) + (zlen mid + (zlen (words fs) + zlen post))) < H64) as Hsz
    by (unfold res in Hlen; by rewrite !zlen_app in Hlen).
  assert (zlen ws = zlen seen + 1 + zlen rows) as Lw by (subst ws; unfold zlen; rewrite length_fmap, length_app; cbn; lia).
  assert (zlen fs = zlen ws) as Lf by (subst ws fs; unfold zlen; by rewrite !length_fmap).
  assert (zlen (words ws) = 32 * zlen ws ∧ zlen (words fs) = 32 * zlen fs) as [Ww Wf] by (unfold zlen; rewrite !length_words; lia).
  rewrite !zlen_app in Hk.
  pose proof (zlen_nonneg seen). pose proof (zlen_nonneg rows). pose proof (zlen_nonneg mid). pose proof (zlen_nonneg post). pose proof (zlen_nonneg pre).
  rewrite !(i64_small o), !(i64_small k), !(i64_small (o + 32)), !(i64_small (k + 32)) by lia.
  rewrite (i64_small (o + 32 + 32 * zlen seen)), (i64_small (k + 32 + 32 * zlen seen)) by lia.
  rewrite fmap_app, fmap_cons in Hws. rewrite fmap_app, fmap_cons, fmap_app, fmap_cons in Hfs. cbn [fst snd] in Hws, Hfs.
  assert (0 ≤ v < 2 ^ 256) as Hv by (rewrite Forall_forall in HF; apply HF; subst ws; set_solver).
  assert (word res (o + 32 + 32 * zlen seen) = Val (Ok v)) as ->.
  { unfold res. rewrite <- Ho. replace (zlen seen) with (zlen seen.*1) by (unfold zlen; by rewrite length_fmap).
    revert Hlen. unfold res. rewrite Hws. by apply word_at. }
  cbn [outcome_bind].
  assert (word res (k + 32 + 32 * zlen seen) = Val (Ok (flag_word f))) as ->.
  { unfold res. replace (pre ++ words ws ++ mid ++ words fs ++ post) with ((pre ++ words ws ++ mid) ++ words fs ++ post)
      by (by rewrite <- !app_assoc).
    replace (k + 32) with (zlen (pre ++ words ws ++ mid)) by (rewrite !zlen_app; lia).
    replace (zlen seen) with (zlen (flag_word <$> seen.*2)) by (unfold zlen; by rewrite !length_fmap).
    rewrite Hfs. apply word_at; [by destruct f|]. rewrite <- Hfs, !zlen_app. lia. }
  cbn [outcome_bind]. specialize (IH (seen ++ [(v, f)])).
  replace (zlen seen + 1) with (zlen (seen ++ [(v, f)])) by (rewrite zlen_app; done).
  rewrite IH by (rewrite <- app_assoc; cbn [app]; rewrite ?fmap_app, ?fmap_cons; done). cbn. by destruct f.
Qed.

(** [BalancesOf] answers, holder by holder, the values and flags the reader
    contract encoded, with no error and no panic. *)
Theorem BalancesOf_decodes rows holders pad :
  length holders = length rows → Forall (λ r, 0 ≤ r.1 < 2 ^ 256) rows → zlen (reader_answer rows pad) < H64 →
  BalancesOf (reader_answer rows pad) holders = Val (Ok rows).
Proof.
  intros Hn HF Hlen. pose proof (zlen_nonneg rows). pose proof (zlen_nonneg pad).
  assert (32 * zlen rows < H64) as Hsmall.
  { revert Hlen. unfold reader_answer. rewrite !zlen_app. unfold zlen. rewrite !length_words. cbn [length].
    rewrite length_fmap. lia. }
  unfold BalancesOf.
  assert (∀ ws1 w ws2, [64; 96 + 32 * zlen rows] = ws1 ++ w :: ws2 → word (reader_answer rows pad) (32 * zlen ws1) = Val (Ok w)) as Hhead.
  { intros ws1 w ws2 E. unfold reader_answer in *. rewrite E in *.
    apply (word_at [] ws1 w ws2); [|done].
    assert (w ∈ [64; 96 + 32 * zlen rows]) as Hw by (rewrite E; set_solver).
    apply elem_of_cons in Hw as [->|[->|[]%not_elem_of_nil]%elem_of_cons]; lia. }
  rewrite (Hhead [] 64 [_] eq_refl : word _ 0 = _). cbn [outcome_bind].
  rewrite (Hhead [64] _ [] eq_refl : word _ 32 = _). cbn [outcome_bind]. rewrite Hn.
  replace (reader_answer rows pad) with
    ((words [64; 96 + 32 * zlen rows] ++ be_bytes 32 (zlen rows)) ++ words rows.*1 ++ be_bytes 32 (zlen rows) ++ words (flag_word <$> rows.*2) ++ pad) in *
    by (unfold reader_answer, words; rewrite !bind_cons, <- !app_assoc; done).
  apply (read_balances_rows _ _ _ _ _ 64 (96 + 32 * zlen rows) []); try done.
  - rewrite !zlen_app. unfold zlen. rewrite !length_be_bytes. rewrite !length_words. rewrite length_fmap. cbn. lia.
  - lia.
  - by apply Forall_fmap.
Qed.

Lemma BalancesOf_decodes_witness :
  BalancesOf (reader_answer [(5, true); (0, false); (2 ^ 255, true)] []) [[]; []; []] = Val (Ok [(5, true); (0, false); (2 ^ 255, true)]).
Proof. apply BalancesOf_decodes; [done| |vm_compute; done]. repeat constructor; cbn; lia. Defined.

(** A node that answers an offset near 2^63 makes the int sum wrap below 0: the
    check passes and the slice panics. *)
Theorem BalancesOf_panics : BalancesOf (words [H64 - 40; 64; 0]) [[]] = Panic.
Proof. reflexivity. Qed.
