(* ===== verification/Balances.v ===== *)
(** * Token balances: [internal/db/batch.go] (insertBalances), [balances_revert.go]

    Four tables: the balance history ([balances]), the current balance of each
    (token, holder) key ([token_balances_current]), the per-token holder count
    ([tokens.holder_count]) and the requests to read a key again after a reorg
    ([balance_rereads]), with the reorg epoch sequence.  A flush of the balance
    workers ([insertBalances]) and a block's revert ([revertBalances] with the
    steps of [DeleteBlock] around it) each run in one transaction; the revert
    holds exclusively the lock every flush with history holds shared, and flushes
    serialise on their keys, so a transaction is one step here. *)

From S2P Require Import Prelude GoStrings.

(** ** Data *)

(** A key is (token, holder), both in lower case. *)
Definition balanceKey : Type := gostring * gostring.

Record Balance := mkBalance { Address : gostring; TokenAddress : gostring; BlockNumber : Z; Amount : Z; Epoch : Z }.

Record reread := mkReread { r_epoch : Z; r_open : bool; r_attempts : Z }.

Record tables := mkTables {
  history : gmap (balanceKey * Z) Z;
  current : gmap balanceKey (Z * Z);      (* balance, block number *)
  holder_count : gmap gostring Z;          (* one entry per tokens row *)
  rereads : gmap balanceKey reread;
  reorg_epoch : Z;                         (* 0 before the first nextval *)
  history_from : Z;
}.

Definition key_of (b : Balance) : balanceKey := (ToLower (TokenAddress b), ToLower (Address b)).

(** Byte order of Go strings. *)
Fixpoint str_lt (a b : gostring) : bool :=
  match a, b with
  | _, [] => false
  | [], _ :: _ => true
  | x :: a, y :: b =>
      if byte_Z x <? byte_Z y then true else if byte_Z y <? byte_Z x then false else str_lt a b
  end.

(** The less function of the sort: token, then holder, then block. *)
Definition less (a b : Balance) : bool :=
  let '(at_, aa) := key_of a in
  let '(bt, ba) := key_of b in
  if negb (bool_decide (at_ = bt)) then str_lt at_ bt
  else if negb (bool_decide (aa = ba)) then str_lt aa ba
  else BlockNumber a <? BlockNumber b.

(** [sort.SliceStable]. *)
Fixpoint insert_sorted (x : Balance) (l : list Balance) : list Balance :=
  match l with
  | [] => [x]
  | y :: r => if less y x then y :: insert_sorted x r else x :: l
  end.
Definition stable_sort (l : list Balance) : list Balance := foldr insert_sorted [] l.

(** Keeping the last row of each run of equal rows. *)
Fixpoint collapse (same : Balance → Balance → bool) (l : list Balance) : list Balance :=
  match l with
  | [] => []
  | x :: r =>
      match r with
      | y :: _ => if same x y then collapse same r else x :: collapse same r
      | [] => [x]
      end
  end.

(** [strings.EqualFold] on both addresses is equality of the keys (ASCII). *)
Definition same_key (x y : Balance) : bool := bool_decide (key_of x = key_of y).
Definition same_row (x y : Balance) : bool := same_key x y && (BlockNumber y =? BlockNumber x).

(** ** insertBalances *)

(** Phase 0: what the reorg epochs leave of a flush: the rows to write, the keys
    whose open request they answer, and the keys whose reads came too late. *)
Record sifted := mkSifted { kept : list Balance; answered : list balanceKey; late : list balanceKey }.

Definition add_once (k : balanceKey) (l : list balanceKey) : list balanceKey :=
  if bool_decide (k ∈ l) then l else l ++ [k].

Definition sift_one (latest : Z) (rs : gmap balanceKey reread) (s : sifted) (b : Balance) : sifted :=
  let k := key_of b in
  if Epoch b <? latest then mkSifted (kept s) (answered s) (add_once k (late s))
  else match rs !! k with
       | None => mkSifted (kept s ++ [b]) (answered s) (late s)
       | Some e =>
           if r_epoch e <=? Epoch b
           then mkSifted (kept s ++ [b]) (if r_open e then add_once k (answered s) else answered s) (late s)
           else s
       end.

Definition sift (latest : Z) (rs : gmap balanceKey reread) (l : list Balance) : sifted :=
  foldl (sift_one latest rs) (mkSifted [] [] []) l.

(** Phase 1, [balances_insert.sql]: rows of pruned blocks are left out. *)
Definition insert_history (from : Z) (h : gmap (balanceKey * Z) Z) (b : Balance) : gmap (balanceKey * Z) Z :=
  if from <=? i64 (BlockNumber b) then <[(key_of b, i64 (BlockNumber b)) := Amount b]> h else h.

Definition positive (c : gmap balanceKey (Z * Z)) (k : balanceKey) : bool :=
  match c !! k with Some (v, _) => 0 <? v | None => false end.

(** Phase 2, [tbc_upsert_delta.sql]: the guard on the block number, and the
    movement of the holder count against [old], the positives read before. *)
Definition upsert (old : balanceKey → bool) (acc : gmap balanceKey (Z * Z) * gmap gostring Z) (b : Balance)
  : gmap balanceKey (Z * Z) * gmap gostring Z :=
  let '(c, delta) := acc in
  let k := key_of b in
  let writes := match c !! k with None => true | Some (_, blk) => blk <=? i64 (BlockNumber b) end in
  if writes
  then let d := (if 0 <? Amount b then 1 else 0) - (if old k then 1 else 0) in
       (<[k := (Amount b, i64 (BlockNumber b))]> c, <[k.1 := default 0 (delta !! k.1) + d]> delta)
  else (c, delta).

(** Phase 3, [holder_count_apply.sql], for the tokens whose count moved. *)
Definition apply_holders (delta hc : gmap gostring Z) : gmap gostring Z :=
  map_imap (λ t n, Some match delta !! t with
                        | Some d => if d =? 0 then n else Z.max (n + d) 0
                        | None => n
                        end) hc.

Definition closeRereads (keys : list balanceKey) (rs : gmap balanceKey reread) : gmap balanceKey reread :=
  foldl (λ rs k, match rs !! k with
                 | Some r => <[k := mkReread (r_epoch r) false (r_attempts r)]> rs
                 | None => rs
                 end) rs keys.

Definition reopenRereads (keys : list balanceKey) (epoch : Z) (rs : gmap balanceKey reread) : gmap balanceKey reread :=
  foldl (λ rs k, <[k := mkReread (match rs !! k with Some r => Z.max (r_epoch r) epoch | None => epoch end) true 0]> rs)
    rs keys.

(** The epoch a flush is held to, and what phase 0 leaves of it; with no reorg on
    record the rows are all kept. *)
Definition latest_epoch (with_history : bool) (s : tables) : Z := if with_history then reorg_epoch s else 0.

Definition phase0 (with_history : bool) (balances : list Balance) (s : tables) : sifted :=
  let ordered := stable_sort balances in
  let latest := latest_epoch with_history s in
  if bool_decide (filter (λ b, is_Some (rereads s !! key_of b)) ordered = []) && (latest <=? 0)
  then mkSifted ordered [] [] else sift latest (rereads s) ordered.

Definition insertBalances (with_history : bool) (balances : list Balance) (s : tables) : tables :=
  if bool_decide (balances = []) then s
  else
    let latest := latest_epoch with_history s in
    let sf := phase0 with_history balances s in
    if bool_decide (kept sf = [])
    then mkTables (history s) (current s) (holder_count s) (reopenRereads (late sf) latest (rereads s))
           (reorg_epoch s) (history_from s)
    else
      let hist := collapse same_row (kept sf) in
      let cur := collapse same_key (kept sf) in
      let '(c, delta) := foldl (upsert (positive (current s))) (current s, ∅) cur in
      mkTables (if with_history then foldl (insert_history (history_from s)) (history s) hist else history s)
        c (apply_holders delta (holder_count s))
        (reopenRereads (late sf) latest (closeRereads (answered sf) (rereads s)))
        (reorg_epoch s) (history_from s).

Definition InsertBalancesBatch := insertBalances true.
Definition InsertCurrentBalances := insertBalances false.

(** ** The revert of a block *)

(** The latest history row of a key (DISTINCT ON ... ORDER BY block_number DESC). *)
Definition later (k : balanceKey) (x : balanceKey * Z * Z) (acc : option (Z * Z)) : option (Z * Z) :=
  let '(k', b, v) := x in
  if bool_decide (k' = k)
  then match acc with
       | Some (_, b') => if b' <? b then Some (v, b) else acc
       | None => Some (v, b)
       end
  else acc.
Definition latest_row (h : gmap (balanceKey * Z) Z) (k : balanceKey) : option (Z * Z) :=
  foldr (later k) None (map_to_list h).

(** The keys with a history row at the block, each once. *)
Definition block_rows (h : gmap (balanceKey * Z) Z) (number : Z) : list balanceKey :=
  (filter (λ x, x.1.2 = number) (map_to_list h)).*1.*1.

Definition restore_key (h : gmap (balanceKey * Z) Z) (c : gmap balanceKey (Z * Z)) (k : balanceKey)
  : gmap balanceKey (Z * Z) :=
  match latest_row h k with Some row => <[k := row]> c | None => delete k c end.

(** The holder movement of the restored keys, from the positives before and
    after. *)
Definition holder_moves (before after : gmap balanceKey (Z * Z)) (keys : list balanceKey) : gmap gostring Z :=
  foldl (λ m k, let d := (if positive after k then 1 else 0) - (if positive before k then 1 else 0) in
                if d =? 0 then m else <[k.1 := default 0 (m !! k.1) + d]> m) ∅ keys.

(** [recordBalanceRereads]: a new epoch on every key. *)
Definition recordBalanceRereads (keys : list balanceKey) (epoch : Z) (rs : gmap balanceKey reread) : gmap balanceKey reread :=
  foldl (λ rs k, <[k := mkReread epoch true 0]> rs) rs keys.

(** The balance steps of [DeleteBlock]; [holders] are the holders of the block's
    token transfers, whose reads may not have been written yet. *)
Definition revertBalances (number : Z) (holders : list balanceKey) (s : tables) : tables :=
  let restore := block_rows (history s) number in
  let h := filter (λ x, x.1.2 ≠ number) (history s) in
  let c := foldl (restore_key h) (current s) restore in
  let epoch := reorg_epoch s + 1 in
  mkTables h c (apply_holders (holder_moves (current s) c restore) (holder_count s))
    (recordBalanceRereads (restore ++ holders) epoch (rereads s)) epoch (history_from s).

(** ** The order of a flush *)

Lemma str_lt_irrefl a : str_lt a a = false.
Proof. induction a as [|x a IH]; cbn; [done|]. by rewrite Z.ltb_irrefl. Qed.

Lemma str_lt_trans a b c : str_lt a b = true → str_lt b c = true → str_lt a c = true.
Proof.
  revert b c. induction a as [|x a IH]; intros [|y b] [|z c]; cbn; try done.
  destruct (Z.ltb_spec (byte_Z x) (byte_Z y)), (Z.ltb_spec (byte_Z y) (byte_Z x)), (Z.ltb_spec (byte_Z y) (byte_Z z)),
    (Z.ltb_spec (byte_Z z) (byte_Z y)), (Z.ltb_spec (byte_Z x) (byte_Z z)), (Z.ltb_spec (byte_Z z) (byte_Z x));
    try done; try lia. apply IH.
Qed.

Lemma str_lt_total a b : str_lt a b = false → str_lt b a = false → a = b.
Proof.
  revert b. induction a as [|x a IH]; intros [|y b]; cbn; try done.
  destruct (Z.ltb_spec (byte_Z x) (byte_Z y)), (Z.ltb_spec (byte_Z y) (byte_Z x)); try done.
  intros H1 H2. f_equal; [apply byte_Z_inj; lia|by apply IH].
Qed.

Definition key_lt (k1 k2 : balanceKey) : Prop :=
  str_lt k1.1 k2.1 = true ∨ (k1.1 = k2.1 ∧ str_lt k1.2 k2.2 = true).

Lemma key_lt_trans k1 k2 k3 : key_lt k1 k2 → key_lt k2 k3 → key_lt k1 k3.
Proof.
  unfold key_lt. destruct k1 as [t1 a1], k2 as [t2 a2], k3 as [t3 a3]; cbn.
  intros [H1|[-> H1]] [H2|[<- H2]]; eauto using str_lt_trans.
Qed.

Lemma key_lt_irrefl k : ¬ key_lt k k.
Proof. unfold key_lt. rewrite !str_lt_irrefl. by intros [?|[? ?]]. Qed.

(** The order the flush is sorted in. *)
Definition row_le (a b : Balance) : Prop :=
  key_lt (key_of a) (key_of b) ∨ (key_of a = key_of b ∧ BlockNumber a ≤ BlockNumber b).

Lemma less_cases a b : if less b a then row_le b a else row_le a b.
Proof.
  unfold less, row_le, key_lt. destruct (key_of a) as [at_ aa] eqn:Ea, (key_of b) as [bt ba] eqn:Eb. cbn.
  case_bool_decide as E1; cbn.
  - subst bt. case_bool_decide as E2; cbn.
    + subst ba. destruct (Z.ltb_spec (BlockNumber b) (BlockNumber a)); right; (split; [congruence|lia]).
    + destruct (str_lt ba aa) eqn:L; [left; right; done|]. left. right. split; [done|].
      destruct (str_lt aa ba) eqn:L2; [done|]. exfalso. apply E2. symmetry. by apply str_lt_total.
  - destruct (str_lt bt at_) eqn:L; [by left; left|]. left. left.
    destruct (str_lt at_ bt) eqn:L2; [done|]. exfalso. apply E1. by apply str_lt_total.
Qed.

Lemma row_le_trans a b c : row_le a b → row_le b c → row_le a c.
Proof.
  unfold row_le. intros [H1|[H1 L1]] [H2|[H2 L2]].
  - left. by eapply key_lt_trans.
  - left. congruence.
  - left. congruence.
  - right. split; [congruence|lia].
Qed.

Lemma insert_sorted_perm x l : insert_sorted x l ≡ₚ x :: l.
Proof.
  induction l as [|y l IH]; cbn [insert_sorted]; [done|]. destruct (less y x); [|done]. rewrite IH. apply Permutation_swap.
Qed.

Lemma stable_sort_perm l : stable_sort l ≡ₚ l.
Proof. induction l as [|x l IH]; cbn; [done|]. by rewrite insert_sorted_perm, IH. Qed.

Lemma insert_sorted_sorted x l : StronglySorted row_le l → StronglySorted row_le (insert_sorted x l).
Proof.
  induction 1 as [|y l Hs IH Hf]; cbn [insert_sorted]; [by repeat constructor|].
  pose proof (less_cases x y) as Hc. destruct (less y x).
  - constructor; [done|]. rewrite insert_sorted_perm. by constructor.
  - constructor; [by constructor|]. constructor; [done|].
    eapply Forall_impl; [exact Hf|]. intros z Hz. by eapply row_le_trans.
Qed.

Lemma stable_sort_sorted l : StronglySorted row_le (stable_sort l).
Proof. induction l as [|x l IH]; cbn; [constructor|]. by apply insert_sorted_sorted. Qed.

(** ** Collapsed runs *)

Lemma collapse_cons2 same a b l :
  collapse same (a :: b :: l) = if same a b then collapse same (b :: l) else a :: collapse same (b :: l).
Proof. done. Qed.

Lemma collapse_sub same l x : x ∈ collapse same l → x ∈ l.
Proof.
  induction l as [|a [|b l] IH]; [done|done|]. rewrite collapse_cons2. destruct (same a b).
  - intros H. apply elem_of_cons. right. by apply IH.
  - intros [->|H]%elem_of_cons; [left|]. apply elem_of_cons. right. by apply IH.
Qed.

Lemma collapse_nonempty same l : l ≠ [] → collapse same l ≠ [].
Proof. induction l as [|a [|b l] IH]; [done|done|]. intros _. rewrite collapse_cons2. destruct (same a b); [by apply IH|done]. Qed.

Lemma collapse_key_row l x : x ∈ collapse same_key l → x ∈ collapse same_row l.
Proof.
  induction l as [|a [|b l] IH]; [done|done|]. rewrite !collapse_cons2. unfold same_row at 1.
  destruct (same_key a b); cbn [andb].
  - intros H. destruct (BlockNumber b =? BlockNumber a); [by apply IH|]. apply elem_of_cons. right. by apply IH.
  - intros [->|H]%elem_of_cons; [left|]. apply elem_of_cons. right. by apply IH.
Qed.

(** Every key keeps a row, at its highest block. *)
Lemma collapse_key_max l z : StronglySorted row_le l → z ∈ l →
  ∃ x, x ∈ collapse same_key l ∧ key_of x = key_of z ∧ BlockNumber z ≤ BlockNumber x.
Proof.
  intros Hs. induction Hs as [|a l Hs IH Hf] in z |- *; [by intros []%not_elem_of_nil|].
  destruct l as [|b l].
  { intros ->%list_elem_of_singleton. exists a. split; [by left|done]. }
  rewrite collapse_cons2. unfold same_key at 1. case_bool_decide as E.
  - intros [->|Hz]%elem_of_cons; [|by apply IH]. destruct (IH b) as (x & Hx & Hk & Hb); [by left|].
    exists x. split_and!; [done|congruence|]. apply Forall_cons in Hf as [[Hlt|[_ Hab]] _]; [|lia].
    rewrite E in Hlt. by apply key_lt_irrefl in Hlt.
  - intros [->|Hz]%elem_of_cons; [exists a; split; [by left|done]|].
    destruct (IH z Hz) as (x & Hx & ? & ?). exists x. split; [by right|done].
Qed.

Lemma collapse_row_all l z : z ∈ l →
  ∃ x, x ∈ collapse same_row l ∧ key_of x = key_of z ∧ BlockNumber x = BlockNumber z.
Proof.
  induction l as [|a [|b l] IH] in z |- *; [by intros []%not_elem_of_nil| |].
  { intros ->%list_elem_of_singleton. exists a. split; [by left|done]. }
  rewrite collapse_cons2. unfold same_row at 1, same_key at 1. intros [->|Hz]%elem_of_cons.
  - case_bool_decide as E; cbn [andb]; [|exists a; split; [by left|done]].
    destruct (Z.eqb_spec (BlockNumber b) (BlockNumber a)); [|exists a; split; [by left|done]].
    destruct (IH b) as (x & ? & ? & ?); [by left|]. exists x. split_and!; [done|congruence|congruence].
  - destruct (IH z Hz) as (x & ? & ? & ?). exists x. split; [|done]. case_match; [done|by right].
Qed.

Lemma collapse_key_nodup l : StronglySorted row_le l → NoDup (key_of <$> collapse same_key l).
Proof.
  induction 1 as [|a l Hs IH Hf]; [constructor|]. destruct l as [|b l]; [by repeat constructor; apply not_elem_of_nil|].
  rewrite collapse_cons2. unfold same_key at 1. case_bool_decide as E; [done|].
  rewrite fmap_cons. constructor; [|done]. intros (x & Ex & Hx)%list_elem_of_fmap. apply collapse_sub in Hx.
  apply Forall_cons in Hf as [Hab Hf]. apply E.
  destruct Hab as [Hab|[? _]]; [|done]. exfalso.
  assert (row_le b x) as Hbx.
  { apply elem_of_cons in Hx as [->|Hx]; [right; split; [done|lia]|]. inversion Hs as [|? ? _ Hb]; subst.
    rewrite Forall_forall in Hb. by apply Hb. }
  destruct Hbx as [Hbx|[Hbx _]].
  - rewrite <- Ex in Hbx. eapply key_lt_irrefl, key_lt_trans; [exact Hab|exact Hbx].
  - rewrite Hbx, <- Ex in Hab. by apply key_lt_irrefl in Hab.
Qed.

Lemma collapse_row_nodup l : StronglySorted row_le l → NoDup ((λ b, (key_of b, BlockNumber b)) <$> collapse same_row l).
Proof.
  induction 1 as [|a l Hs IH Hf]; [constructor|]. destruct l as [|b l]; [by repeat constructor; apply not_elem_of_nil|].
  rewrite collapse_cons2. unfold same_row at 1, same_key at 1. destruct (bool_decide _ && _) eqn:E; [done|].
  rewrite fmap_cons. constructor; [|done]. intros (x & Ex & Hx)%list_elem_of_fmap. apply collapse_sub in Hx.
  pose proof (f_equal fst Ex) as Ek. pose proof (f_equal snd Ex) as Eb. cbn [fst snd] in Ek, Eb. apply Forall_cons in Hf as [Hab Hf].
  assert (row_le b x) as Hbx.
  { apply elem_of_cons in Hx as [->|Hx]; [right; split; [done|lia]|]. inversion Hs as [|? ? _ Hb]; subst.
    rewrite Forall_forall in Hb. by apply Hb. }
  apply andb_false_iff in E as [E|E].
  - apply bool_decide_eq_false in E. destruct Hab as [Hab|[? _]]; [|done].
    destruct Hbx as [Hbx|[Hbx _]].
    + rewrite <- Ek in Hbx. eapply key_lt_irrefl, key_lt_trans; [exact Hab|exact Hbx].
    + rewrite Hbx, <- Ek in Hab. by apply key_lt_irrefl in Hab.
  - apply Z.eqb_neq in E. destruct Hab as [Hab|[Hk Hab]], Hbx as [Hbx|[Hk' Hbx]].
    + rewrite <- Ek in Hbx. eapply key_lt_irrefl, key_lt_trans; [exact Hab|exact Hbx].
    + rewrite Hk', <- Ek in Hab. by apply key_lt_irrefl in Hab.
    + rewrite <- Ek, Hk in Hbx. by apply key_lt_irrefl in Hbx.
    + lia.
Qed.

(** ** Writes of a flush *)

Definition blk (b : Balance) : Z := i64 (BlockNumber b).

Lemma fold_history from l h :
  NoDup ((λ b, (key_of b, blk b)) <$> l) →
  (∀ b, b ∈ l → from ≤ blk b → foldl (insert_history from) h l !! (key_of b, blk b) = Some (Amount b)) ∧
  (∀ p, (∀ b, b ∈ l → (key_of b, blk b) ≠ p) → foldl (insert_history from) h l !! p = h !! p).
Proof.
  revert h. induction l as [|x l IH]; intros h Hnd; cbn [foldl]; [split; [by intros ? []%not_elem_of_nil|done]|].
  rewrite fmap_cons in Hnd. apply NoDup_cons in Hnd as [Hx Hnd]. destruct (IH (insert_history from h x) Hnd) as [I1 I2].
  split.
  - intros b [->|Hb]%elem_of_cons Hf; [|by apply I1]. rewrite I2.
    + unfold insert_history. fold (blk x). destruct (Z.leb_spec from (blk x)); [|lia]. by rewrite lookup_insert_eq.
    + intros b Hb E. apply Hx. rewrite <- E. by apply (list_elem_of_fmap_2 (λ b, (key_of b, blk b))).
  - intros p Hp. rewrite I2 by (intros b Hb; apply Hp; by right). unfold insert_history. fold (blk x).
    case_match; [|done]. rewrite lookup_insert_ne; [done|]. apply Hp. by left.
Qed.

(** Addresses that hold the token. *)
Definition holders (c : gmap balanceKey (Z * Z)) (t : gostring) : Z :=
  Z.of_nat (size (filter (λ x : balanceKey * (Z * Z), x.1.1 = t ∧ 0 < x.2.1) c)).

Definition pos (v : Z) : Z := if 0 <? v then 1 else 0.
Definition held (c : gmap balanceKey (Z * Z)) (k : balanceKey) : Z := if positive c k then 1 else 0.

Lemma holders_delete c (k : balanceKey) t : holders (delete k c) t = holders c t - (if bool_decide (k.1 = t) then held c k else 0).
Proof.
  unfold holders, held, positive. rewrite map_filter_delete. destruct (c !! k) as [[v b]|] eqn:E; rewrite ?E.
  - destruct (decide (k.1 = t ∧ 0 < v)) as [[Ht Hv]|Hn].
    + rewrite bool_decide_eq_true_2 by done. destruct (Z.ltb_spec 0 v); [|lia].
      assert (filter (λ x : balanceKey * (Z * Z), x.1.1 = t ∧ 0 < x.2.1) c !! k = Some (v, b)) as Hk
        by (apply map_lookup_filter_Some; done).
      rewrite map_size_delete_Some by (by eexists).
      pose proof (map_size_ne_0_lookup_2 _ _ (mk_is_Some _ _ Hk)). lia.
    + rewrite delete_id by (apply map_lookup_filter_None; right; intros y Hy; rewrite E in Hy; by injection Hy as <-).
      case_bool_decide; [|lia]. destruct (Z.ltb_spec 0 v); [|lia]. exfalso. by apply Hn.
  - rewrite delete_id by (apply map_lookup_filter_None; by left). case_bool_decide; lia.
Qed.

Lemma holders_insert c (k : balanceKey) v b t :
  holders (<[k := (v, b)]> c) t = holders c t + (if bool_decide (k.1 = t) then pos v - held c k else 0).
Proof.
  rewrite <- insert_delete_eq. assert (holders c t = holders (delete k c) t + (if bool_decide (k.1 = t) then held c k else 0)) as ->
    by (rewrite holders_delete; lia).
  unfold holders at 1. rewrite map_filter_insert. unfold pos. cbn [fst snd]. destruct (decide (k.1 = t ∧ 0 < v)) as [[Ht Hv]|Hn].
  - rewrite map_size_insert_None by (apply map_lookup_filter_None; left; by rewrite lookup_delete_eq).
    rewrite bool_decide_eq_true_2 by done. destruct (Z.ltb_spec 0 v); [|lia]. unfold holders. lia.
  - rewrite delete_id by apply lookup_delete_eq. fold (holders (delete k c) t). case_bool_decide; [|lia].
    destruct (Z.ltb_spec 0 v); [exfalso; by apply Hn|lia].
Qed.

(** The upsert of distinct keys: what each key holds afterwards, and the holder
    movement of each token. *)
Lemma fold_upsert old l c delta :
  NoDup (key_of <$> l) → (∀ b, b ∈ l → old (key_of b) = positive c (key_of b)) →
  let '(c', delta') := foldl (upsert old) (c, delta) l in
  (∀ b, b ∈ l → c' !! key_of b =
     if match c !! key_of b with None => true | Some (_, n) => n <=? blk b end then Some (Amount b, blk b) else c !! key_of b) ∧
  (∀ k, (∀ b, b ∈ l → key_of b ≠ k) → c' !! k = c !! k) ∧
  (∀ t, default 0 (delta' !! t) - default 0 (delta !! t) = holders c' t - holders c t).
Proof.
  revert c delta. induction l as [|x l IH]; intros c delta Hnd Hold; cbn [foldl].
  { split_and!; [by intros ? []%not_elem_of_nil|done|intros; lia]. }
  rewrite fmap_cons in Hnd. apply NoDup_cons in Hnd as [Hx Hnd].
  assert (∀ b, b ∈ l → key_of b ≠ key_of x) as Hne by (intros b Hb E; apply Hx; rewrite <- E; by apply list_elem_of_fmap_2).
  unfold upsert at 2. fold (blk x). set (k := key_of x) in *.
  destruct (match c !! k with None => true | Some (_, n) => n <=? blk x end) eqn:W.
  - set (c1 := <[k := (Amount x, blk x)]> c). set (d1 := <[k.1 := _]> delta).
    assert (∀ b, b ∈ l → old (key_of b) = positive c1 (key_of b)) as Hold1.
    { intros b Hb. rewrite Hold by (by right). unfold positive, c1. rewrite lookup_insert_ne; [done|]. intros E. by apply (Hne b Hb). }
    specialize (IH c1 d1 Hnd Hold1). destruct (foldl (upsert old) (c1, d1) l) as [c' delta'].
    destruct IH as (I1 & I2 & I3). split_and!.
    + intros b [->|Hb]%elem_of_cons.
      * rewrite I2 by done. fold k. rewrite W. unfold c1. by rewrite lookup_insert_eq.
      * rewrite I1 by done. unfold c1. rewrite lookup_insert_ne; [done|]. intros E. by apply (Hne b Hb).
    + intros k' Hk'. rewrite I2 by (intros b Hb; apply Hk'; by right). unfold c1. apply lookup_insert_ne. apply Hk'. by left.
    + intros t. specialize (I3 t). pose proof (holders_insert c k (Amount x) (blk x) t) as Hi. fold c1 in Hi.
      assert (default 0 (d1 !! t) = default 0 (delta !! t) + if bool_decide (k.1 = t) then pos (Amount x) - held c k else 0) as Ed.
      { unfold d1, pos, held. pose proof (Hold x ltac:(by left)) as Hox. fold k in Hox. rewrite Hox. case_bool_decide as E.
        - rewrite E, lookup_insert_eq. done.
        - rewrite lookup_insert_ne by done. lia. }
      lia.
  - specialize (IH c delta Hnd (λ b Hb, Hold b ltac:(by right))). destruct (foldl (upsert old) (c, delta) l) as [c' delta'].
    destruct IH as (I1 & I2 & I3). split_and!; [|intros k' Hk'; apply I2; intros b Hb; apply Hk'; by right|done].
    intros b [->|Hb]%elem_of_cons; [|by apply I1]. rewrite I2 by done. fold k. by rewrite W.
Qed.

(** ** What a flush keeps *)

Definition keeps (latest : Z) (rs : gmap balanceKey reread) (b : Balance) : Prop :=
  latest ≤ Epoch b ∧ match rs !! key_of b with None => True | Some e => r_epoch e ≤ Epoch b end.
#[export] Instance keeps_dec latest rs b : Decision (keeps latest rs b).
Proof. unfold keeps. destruct (rs !! key_of b); apply _. Defined.

Lemma sift_kept latest rs l : kept (sift latest rs l) = filter (keeps latest rs) l.
Proof.
  unfold sift. enough (∀ s, kept (foldl (sift_one latest rs) s l) = kept s ++ filter (keeps latest rs) l) as H by apply H.
  induction l as [|b l IH]; intros s; cbn [foldl]; [by rewrite app_nil_r|]. rewrite IH, filter_cons. clear IH.
  unfold sift_one. destruct (Z.ltb_spec (Epoch b) latest).
  { rewrite decide_False by (unfold keeps; lia). done. }
  destruct (rs !! key_of b) as [e|] eqn:E.
  - destruct (Z.leb_spec (r_epoch e) (Epoch b)).
    + rewrite decide_True by (unfold keeps; rewrite E; lia). cbn. by rewrite <- app_assoc.
    + rewrite decide_False by (unfold keeps; rewrite E; lia). done.
  - rewrite decide_True by (unfold keeps; rewrite E; lia). cbn. by rewrite <- app_assoc.
Qed.

Lemma elem_of_add_once k k' l : k ∈ add_once k' l ↔ k = k' ∨ k ∈ l.
Proof. unfold add_once. case_bool_decide; set_solver. Qed.

Lemma sift_late latest rs l k : k ∈ late (sift latest rs l) ↔ ∃ b, b ∈ l ∧ key_of b = k ∧ Epoch b < latest.
Proof.
  unfold sift. enough (∀ s, k ∈ late (foldl (sift_one latest rs) s l) ↔ k ∈ late s ∨ ∃ b, b ∈ l ∧ key_of b = k ∧ Epoch b < latest) as H.
  { rewrite H. cbn. set_solver. }
  induction l as [|b l IH]; intros s; cbn [foldl]; [set_solver|]. rewrite IH. clear IH.
  assert (k ∈ late (sift_one latest rs s b) ↔ k ∈ late s ∨ (key_of b = k ∧ Epoch b < latest)) as ->.
  { unfold sift_one. destruct (Z.ltb_spec (Epoch b) latest); cbn [late].
    - rewrite elem_of_add_once. naive_solver.
    - destruct (rs !! key_of b) as [e|]; [destruct (_ <=? _)|]; cbn [late]; naive_solver lia. }
  set_solver.
Qed.

Lemma phase0_kept wh l s : Forall (λ b, 0 ≤ Epoch b) l →
  kept (phase0 wh l s) = filter (keeps (latest_epoch wh s) (rereads s)) (stable_sort l).
Proof.
  intros Hl. unfold phase0. case_bool_decide as E; cbn [andb]; [|apply sift_kept].
  destruct (Z.leb_spec (latest_epoch wh s) 0); [|apply sift_kept]. cbn [kept]. symmetry.
  apply filter_all. rewrite Forall_forall in Hl. intros b Hb.
  assert (0 ≤ Epoch b) by (apply Hl; by rewrite <- (stable_sort_perm l)). split; [lia|].
  destruct (rereads s !! key_of b) eqn:Er; [|done]. exfalso.
  assert (b ∈ filter (λ b, is_Some (rereads s !! key_of b)) (stable_sort l)) as Hin
    by (apply list_elem_of_filter; split; [rewrite Er; by eexists|done]).
  rewrite E in Hin. by apply not_elem_of_nil in Hin.
Qed.

Lemma phase0_late wh l s k : Forall (λ b, 0 ≤ Epoch b) l →
  k ∈ late (phase0 wh l s) ↔ ∃ b, b ∈ l ∧ key_of b = k ∧ Epoch b < latest_epoch wh s.
Proof.
  intros Hl. unfold phase0. case_bool_decide as E; cbn [andb];
    [|rewrite sift_late; by setoid_rewrite stable_sort_perm].
  destruct (Z.leb_spec (latest_epoch wh s) 0); [|rewrite sift_late; by setoid_rewrite stable_sort_perm].
  cbn [late]. split; [by intros []%not_elem_of_nil|]. intros (b & Hb & _ & Hlt).
  rewrite Forall_forall in Hl. specialize (Hl b Hb). cbn in Hl. lia.
Qed.

Lemma kept_sorted wh l s : Forall (λ b, 0 ≤ Epoch b) l → StronglySorted row_le (kept (phase0 wh l s)).
Proof. intros Hl. rewrite phase0_kept by done. apply StronglySorted_filter, stable_sort_sorted. Qed.

Lemma kept_elem wh l s b : Forall (λ b, 0 ≤ Epoch b) l →
  b ∈ kept (phase0 wh l s) ↔ b ∈ l ∧ keeps (latest_epoch wh s) (rereads s) b.
Proof. intros Hl. rewrite phase0_kept by done. rewrite list_elem_of_filter, stable_sort_perm. naive_solver. Qed.

(** Rows as the workers write them: a 63-bit block number, an epoch from 0 on. *)
Definition flush_ok (l : list Balance) : Prop := Forall (λ b, 0 ≤ Epoch b ∧ 0 ≤ BlockNumber b < H64) l.

Lemma flush_ok_epochs l : flush_ok l → Forall (λ b, 0 ≤ Epoch b) l.
Proof. intros H. eapply Forall_impl; [exact H|]. by intros ? []. Qed.

Lemma flush_blk l b : flush_ok l → b ∈ l → blk b = BlockNumber b.
Proof. intros Hl Hb. unfold flush_ok in Hl. rewrite Forall_forall in Hl. apply Hl in Hb as [_ Hb]. apply i64_small. lia. Qed.

(** A key of the sorted rows has one collapsed row, the one at its highest block. *)
Lemma collapsed_row K k : StronglySorted row_le K →
  (∃ x, x ∈ collapse same_key K ∧ key_of x = k ∧ ∀ z, z ∈ K → key_of z = k → BlockNumber z ≤ BlockNumber x) ∨
  (∀ z, z ∈ K → key_of z ≠ k).
Proof.
  intros HK. destruct (decide (Exists (λ z, key_of z = k) K)) as [HE|HE].
  - left. apply Exists_exists in HE as (z & Hz & Ek). destruct (collapse_key_max K z HK Hz) as (x & Hx & Exk & _).
    exists x. split_and!; [done|congruence|]. intros z' Hz' Ek'.
    destruct (collapse_key_max K z' HK Hz') as (x' & Hx' & Exk' & Hb).
    rewrite (NoDup_fmap_elem_inj key_of (collapse same_key K) x x'); [done|by apply collapse_key_nodup|done..|congruence].
  - right. intros z Hz Ek. apply HE, Exists_exists. by exists z.
Qed.

(** What the flush leaves of the current balances and the holder counts. *)
Lemma flush_current wh l s : flush_ok l →
  let K := kept (phase0 wh l s) in let s' := insertBalances wh l s in
  (∀ x, x ∈ collapse same_key K → current s' !! key_of x =
     if match current s !! key_of x with None => true | Some (_, n) => n <=? BlockNumber x end
     then Some (Amount x, BlockNumber x) else current s !! key_of x) ∧
  (∀ k, (∀ z, z ∈ K → key_of z ≠ k) → current s' !! k = current s !! k) ∧
  (∃ delta, holder_count s' = apply_holders delta (holder_count s) ∧
     ∀ t, default 0 (delta !! t) = holders (current s') t - holders (current s) t).
Proof.
  intros Hl K s'. pose proof (flush_ok_epochs l Hl) as Hep. pose proof (kept_sorted wh l s Hep) as HS. fold K in HS.
  assert (∀ hc : gmap gostring Z, apply_holders ∅ hc = hc) as Hid.
  { intros hc. apply map_eq. intros t. unfold apply_holders. rewrite map_lookup_imap. destruct (hc !! t); done. }
  assert (∀ c, ∃ delta : gmap gostring Z, holder_count s = apply_holders delta (holder_count s) ∧
      ∀ t, default 0 (delta !! t) = holders c t - holders c t) as Hnone.
  { intros c. exists ∅. split; [by rewrite Hid|]. intros t. rewrite lookup_empty. cbn. lia. }
  unfold s', insertBalances. case_bool_decide as El.
  { assert (K = []) as HK by (unfold K; rewrite phase0_kept by done; by rewrite El).
    rewrite HK. split_and!; [by intros ? []%not_elem_of_nil|done|apply Hnone]. }
  fold K. case_bool_decide as EK.
  { rewrite EK. split_and!; [by intros ? []%not_elem_of_nil|done|apply Hnone]. }
  pose proof (fold_upsert (positive (current s)) (collapse same_key K) (current s) ∅ (collapse_key_nodup K HS) ltac:(done)) as HF.
  destruct (foldl _ _ (collapse same_key K)) as [c delta]. destruct HF as (I1 & I2 & I3). cbn [current holder_count].
  assert (∀ x, x ∈ collapse same_key K → blk x = BlockNumber x) as Hblk.
  { intros x Hx. apply collapse_sub, (kept_elem wh l s x Hep) in Hx as [Hx _]. by apply (flush_blk l). }
  split_and!.
  - intros x Hx. rewrite I1, Hblk by done. done.
  - intros k Hk. apply I2. intros b Hb. apply Hk. by eapply collapse_sub.
  - exists delta. split; [done|]. intros t. specialize (I3 t). rewrite lookup_empty in I3. cbn in I3. lia.
Qed.

(** What it leaves of the history. *)
Lemma flush_history l s : flush_ok l →
  let K := kept (phase0 true l s) in let s' := InsertBalancesBatch l s in
  (∀ x, x ∈ collapse same_row K → history_from s ≤ BlockNumber x →
     history s' !! (key_of x, BlockNumber x) = Some (Amount x)) ∧
  (∀ p, (∀ z, z ∈ K → (key_of z, BlockNumber z) ≠ p) → history s' !! p = history s !! p).
Proof.
  intros Hl K s'. pose proof (flush_ok_epochs l Hl) as Hep. pose proof (kept_sorted true l s Hep) as HS. fold K in HS.
  unfold s', InsertBalancesBatch, insertBalances. case_bool_decide as El.
  { assert (K = []) as HK by (unfold K; rewrite phase0_kept by done; by rewrite El).
    rewrite HK. split; [by intros ? []%not_elem_of_nil|done]. }
  fold K. case_bool_decide as EK; [rewrite EK; split; [by intros ? []%not_elem_of_nil|done]|].
  assert (∀ x, x ∈ collapse same_row K → blk x = BlockNumber x) as Hblk.
  { intros x Hx. apply collapse_sub, (kept_elem true l s x Hep) in Hx as [Hx _]. by apply (flush_blk l). }
  pose proof (collapse_row_nodup K HS) as Hnd.
  assert (NoDup ((λ b, (key_of b, blk b)) <$> collapse same_row K)) as Hnd'.
  { erewrite (list_fmap_ext _ (λ b, (key_of b, BlockNumber b))); [exact Hnd|].
    intros i x Hx. cbn. rewrite Hblk; [done|]. by eapply list_elem_of_lookup_2. }
  destruct (fold_history (history_from s) (collapse same_row K) (history s) Hnd') as [I1 I2].
  destruct (foldl (upsert _) _ _) as [c delta]. cbn [history]. split.
  - intros x Hx Hf. rewrite <- (Hblk x Hx) in *. by apply I1.
  - intros p Hp. apply I2. intros b Hb. rewrite Hblk by done. apply Hp. by eapply collapse_sub.
Qed.

(** ** Holder counts *)

Definition holders_exact (s : tables) : Prop :=
  ∀ t n, holder_count s !! t = Some n → n = holders (current s) t.

Lemma apply_holders_exact delta hc c c' :
  (∀ t, default 0 (delta !! t) = holders c' t - holders c t) →
  (∀ t n, hc !! t = Some n → n = holders c t) →
  ∀ t n, apply_holders delta hc !! t = Some n → n = holders c' t.
Proof.
  intros Hd Hc t n. unfold apply_holders. rewrite map_lookup_imap. destruct (hc !! t) as [m|] eqn:E; cbn; [|done].
  specialize (Hd t). apply Hc in E as ->. assert (0 ≤ holders c' t) by (unfold holders; lia).
  destruct (delta !! t) as [d|]; cbn in Hd; intros [= <-]; [|lia]. destruct (Z.eqb_spec d 0); lia.
Qed.

Lemma flush_holders_exact wh l s : flush_ok l → holders_exact s → holders_exact (insertBalances wh l s).
Proof.
  intros Hl Hs. destruct (flush_current wh l s Hl) as (_ & _ & delta & E & Hd).
  unfold holders_exact. rewrite E. by apply (apply_holders_exact delta (holder_count s) (current s)).
Qed.

(** ** The revert *)

Lemma latest_row_spec h k :
  match latest_row h k with
  | Some (v, b) => h !! (k, b) = Some v ∧ ∀ b' v', h !! (k, b') = Some v' → b' ≤ b
  | None => ∀ b, h !! (k, b) = None
  end.
Proof.
  assert (∀ l : list (balanceKey * Z * Z), match foldr (later k) None l with
            | Some (v, b) => (k, b, v) ∈ l ∧ ∀ b' v', (k, b', v') ∈ l → b' ≤ b
            | None => ∀ b v, (k, b, v) ∉ l
            end) as Hl.
  { induction l as [|[[k' b] v] l IH]; cbn [foldr]; [intros b v; apply not_elem_of_nil|].
    unfold later at 1. case_bool_decide as Ek.
    - subst k'. destruct (foldr (later k) None l) as [[v1 b1]|].
      + destruct IH as [I1 I2]. destruct (Z.ltb_spec b1 b).
        * split; [by left|]. intros b' v' [[= -> ->]|H']%elem_of_cons; [done|]. apply I2 in H'. lia.
        * split; [by right|]. intros b' v' [[= -> ->]|H']%elem_of_cons; [done|]. by apply I2 in H'.
      + split; [by left|]. intros b' v' [[= -> ->]|H']%elem_of_cons; [done|]. by apply IH in H'.
    - destruct (foldr (later k) None l) as [[v1 b1]|].
      + destruct IH as [I1 I2]. split; [by right|]. intros b' v' [[= ? ? ?]|H']%elem_of_cons; [done|]. by apply I2 in H'.
      + intros b' v' [[= ? ? ?]|H']%elem_of_cons; [done|]. by apply IH in H'. }
  unfold latest_row. specialize (Hl (map_to_list h)). destruct (foldr _ _ _) as [[v b]|].
  - destruct Hl as [I1 I2]. split; [by apply elem_of_map_to_list in I1|]. intros b' v' H'. eapply I2. by apply elem_of_map_to_list.
  - intros b. destruct (h !! (k, b)) as [v|] eqn:E; [|done]. exfalso. eapply Hl. by apply elem_of_map_to_list.
Qed.

Lemma elem_of_block_rows h number k : k ∈ block_rows h number ↔ is_Some (h !! (k, number)).
Proof.
  unfold block_rows. split.
  - intros (p & -> & (x & -> & [Hn Hx]%list_elem_of_filter)%list_elem_of_fmap)%list_elem_of_fmap.
    destruct x as [[k' b] v]. cbn in *. subst b. apply elem_of_map_to_list in Hx. by exists v.
  - intros [v Hv]. apply list_elem_of_fmap. exists (k, number). split; [done|].
    apply list_elem_of_fmap. exists (k, number, v). split; [done|].
    apply list_elem_of_filter. split; [done|]. by apply elem_of_map_to_list.
Qed.

Lemma block_rows_nodup h number : NoDup (block_rows h number).
Proof.
  unfold block_rows. pose proof (NoDup_fst_map_to_list h) as Hnd. revert Hnd.
  generalize (map_to_list h). intros l. induction l as [|[[k b] v] l IH]; intros Hnd; [constructor|].
  rewrite fmap_cons in Hnd. apply NoDup_cons in Hnd as [Hx Hnd]. rewrite filter_cons. case_decide as Hb; [|by apply IH].
  cbn in Hb. subst b. rewrite !fmap_cons. constructor; [|by apply IH].
  intros (p & Ep & (x & -> & [Hn Hin]%list_elem_of_filter)%list_elem_of_fmap)%list_elem_of_fmap.
  apply Hx. destruct x as [[k' b'] v']. cbn in *. subst k' b'. by apply (list_elem_of_fmap_2 fst _ (k, number, v')).
Qed.

Lemma restore_other h c k k' : k ≠ k' → restore_key h c k !! k' = c !! k'.
Proof. intros Hk. unfold restore_key. destruct (latest_row h k); [by apply lookup_insert_ne|by apply lookup_delete_ne]. Qed.

Lemma restore_same h c k : restore_key h c k !! k = latest_row h k.
Proof. unfold restore_key. destruct (latest_row h k); [apply lookup_insert_eq|apply lookup_delete_eq]. Qed.

Lemma restored h keys c k :
  foldl (restore_key h) c keys !! k = if bool_decide (k ∈ keys) then latest_row h k else c !! k.
Proof.
  revert c. induction keys as [|x keys IH]; intros c; cbn [foldl].
  { by rewrite bool_decide_eq_false_2 by apply not_elem_of_nil. }
  rewrite IH. destruct (decide (k ∈ keys)) as [Hk|Hk].
  { rewrite !bool_decide_eq_true_2 by set_solver. done. }
  rewrite (bool_decide_eq_false_2 (k ∈ keys)) by done. destruct (decide (k = x)) as [->|Hne].
  - rewrite bool_decide_eq_true_2 by set_solver. apply restore_same.
  - rewrite bool_decide_eq_false_2 by set_solver. by apply restore_other.
Qed.

Lemma holders_restore h c k t :
  holders (restore_key h c k) t = holders c t + (if bool_decide (k.1 = t) then held (restore_key h c k) k - held c k else 0).
Proof.
  unfold held at 1, positive. rewrite restore_same. unfold restore_key. destruct (latest_row h k) as [[v b]|].
  - by rewrite holders_insert.
  - rewrite holders_delete. case_bool_decide; lia.
Qed.

Lemma fold_moves (h : gmap (balanceKey * Z) Z) (keys : list balanceKey) (c before after : gmap balanceKey (Z * Z)) (m : gmap gostring Z) t :
  NoDup keys → (∀ k, k ∈ keys → positive before k = positive c k) →
  (∀ k, k ∈ keys → positive after k = positive (foldl (restore_key h) c keys) k) →
  default 0 (foldl (λ (m : gmap gostring Z) k, let d := held after k - held before k in
                           if d =? 0 then m else <[k.1 := default 0 (m !! k.1) + d]> m) m keys !! t) =
  default 0 (m !! t) + holders (foldl (restore_key h) c keys) t - holders c t.
Proof.
  revert c m. induction keys as [|x keys IH]; intros c m Hnd Hb Ha; cbn [foldl]; [lia|].
  apply NoDup_cons in Hnd as [Hx Hnd]. rewrite (IH (restore_key h c x)); [|done| |].
  - rewrite (holders_restore h c x t).
    assert (held after x = held (restore_key h c x) x ∧ held before x = held c x) as [-> ->].
    { unfold held. rewrite Ha, Hb by (by left). cbn [foldl]. split; [|done].
      unfold positive. by rewrite restored, bool_decide_eq_false_2, restore_same. }
    set (d := held (restore_key h c x) x - held c x). destruct (Z.eqb_spec d 0) as [Hd|Hd].
    + case_bool_decide; lia.
    + case_bool_decide as E; [rewrite E, lookup_insert_eq; cbn; lia|rewrite lookup_insert_ne by done; lia].
  - intros k Hk. rewrite Hb by (by right). unfold positive. rewrite restore_other; [done|]. intros ->. done.
  - intros k Hk. by apply Ha; right.
Qed.

Lemma revert_holders_exact number hs s : holders_exact s → holders_exact (revertBalances number hs s).
Proof.
  intros Hs. unfold holders_exact, revertBalances. cbn [holder_count current].
  apply (apply_holders_exact _ _ (current s)); [|done]. intros t. unfold holder_moves.
  pose proof (fold_moves (filter (λ x, x.1.2 ≠ number) (history s)) (block_rows (history s) number) (current s) (current s)
    (foldl (restore_key (filter (λ x, x.1.2 ≠ number) (history s))) (current s) (block_rows (history s) number)) ∅ t
    (block_rows_nodup _ _) ltac:(done) ltac:(done)) as H.
  rewrite lookup_empty in H. unfold held in H. cbn [default] in H. etrans; [exact H|]. cbn. lia.
Qed.

(** ** The current balances are the latest history rows *)

Definition cache_ok (s : tables) : Prop := ∀ k,
  match current s !! k with
  | Some (v, b) => history s !! (k, b) = Some v ∧ ∀ b' v', history s !! (k, b') = Some v' → b' ≤ b
  | None => ∀ b, history s !! (k, b) = None
  end.

Lemma revert_cache_ok number hs s : cache_ok s → cache_ok (revertBalances number hs s).
Proof.
  intros Hs k. unfold revertBalances. cbn [current history]. set (h := filter _ (history s)).
  rewrite restored. case_bool_decide as Hk; [apply latest_row_spec|].
  specialize (Hs k). rewrite elem_of_block_rows in Hk.
  assert (∀ b, h !! (k, b) = history s !! (k, b)) as Hh.
  { intros b. unfold h. destruct (decide (b = number)) as [->|Hne].
    - transitivity (@None Z); [apply map_lookup_filter_None; left|symmetry]; destruct (history s !! (k, number)) eqn:E; try done; exfalso; apply Hk; by eexists.
    - destruct (history s !! (k, b)) as [v|] eqn:E; [by apply map_lookup_filter_Some|apply map_lookup_filter_None; by left]. }
  destruct (current s !! k) as [[v b]|]; [|intros b; rewrite Hh; apply Hs].
  rewrite Hh. destruct Hs as [H1 H2]. split; [done|]. intros b' v'. rewrite Hh. apply H2.
Qed.

Lemma flush_cache_ok l s : flush_ok l → Forall (λ b, history_from s ≤ BlockNumber b) l →
  cache_ok s → cache_ok (InsertBalancesBatch l s).
Proof.
  intros Hl Hf Hs k. pose proof (flush_ok_epochs l Hl) as Hep.
  destruct (flush_current true l s Hl) as (C1 & C2 & _). destruct (flush_history l s Hl) as [H1 H2].
  pose proof (kept_sorted true l s Hep) as HS. set (K := kept (phase0 true l s)) in *. fold InsertBalancesBatch in C1, C2.
  specialize (Hs k). destruct (collapsed_row K k HS) as [(x & Hx & Ek & Hmax)|Hno].
  2:{ rewrite C2 by done. assert (∀ b, history (InsertBalancesBatch l s) !! (k, b) = history s !! (k, b)) as Hh.
      { intros b. apply H2. intros z Hz E. apply (Hno z Hz). by injection E. }
      destruct (current s !! k) as [[v b]|]; [|intros b; rewrite Hh; apply Hs].
      rewrite Hh. destruct Hs as [S1 S2]. split; [done|]. intros b' v'. rewrite Hh. apply S2. }
  assert (history_from s ≤ BlockNumber x) as Hfx.
  { rewrite Forall_forall in Hf. apply Hf. by apply collapse_sub, (kept_elem true l s x Hep) in Hx as [? _]. }
  pose proof (H1 x (collapse_key_row K x Hx) Hfx) as Hxr. pose proof (C1 x Hx) as Hc. rewrite Ek in Hxr, Hc.
  assert (∀ b v, history (InsertBalancesBatch l s) !! (k, b) = Some v → b ≤ BlockNumber x ∨ history s !! (k, b) = Some v) as Hold.
  { intros b v Hv. destruct (decide (Exists (λ z, (key_of z, BlockNumber z) = (k, b)) K)) as [HE|HE].
    - left. apply Exists_exists in HE as (z & Hz & E). injection E as Ez <-. by apply Hmax.
    - right. rewrite <- Hv. symmetry. apply H2. intros z Hz E. apply HE, Exists_exists. by exists z. }
  rewrite Hc. destruct (current s !! k) as [[v0 b0]|].
  - destruct Hs as [S1 S2]. destruct (Z.leb_spec b0 (BlockNumber x)).
    + split; [done|]. intros b' v' [?|Hb]%Hold; [done|]. apply S2 in Hb. lia.
    + split; [|intros b' v' [?|Hb]%Hold; [lia|by apply S2 in Hb]].
      rewrite H2; [done|]. intros z Hz E. injection E as Ez <-. specialize (Hmax z Hz Ez). lia.
  - split; [done|]. intros b' v' [?|Hb]%Hold; [done|]. by rewrite Hs in Hb.
Qed.

(** ** Runs of flushes and reverts *)

Inductive balance_op :=
| Flush (with_history : bool) (l : list Balance)
| Revert (number : Z) (transfer_holders : list balanceKey).

Definition run_op (s : tables) (o : balance_op) : tables :=
  match o with
  | Flush wh l => insertBalances wh l s
  | Revert number hs => revertBalances number hs s
  end.

Definition op_ok (o : balance_op) : Prop := match o with Flush _ l => flush_ok l | Revert _ _ => True end.

(** C5: the incremental holder count is exact: through any sequence of flushes
    (with or without history, fenced or not) and block reverts, every token's
    [holder_count] stays the number of addresses with a positive current balance
    of it, as a full count would answer; the floor at 0 never bites. *)
Theorem holder_count_exact ops s :
  Forall op_ok ops → holders_exact s → holders_exact (foldl run_op s ops).
Proof.
  intros Hops. revert s. induction Hops as [|[wh l|number hs] ops Ho _ IH]; intros s Hs; cbn [foldl]; [done| |]; apply IH.
  - by apply flush_holders_exact.
  - by apply revert_holders_exact.
Qed.

(** A flush with history of blocks retention keeps. *)
Definition op_kept (from : Z) (o : balance_op) : Prop :=
  match o with
  | Flush wh l => wh = true ∧ flush_ok l ∧ Forall (λ b, from ≤ BlockNumber b) l
  | Revert _ _ => True
  end.

Lemma run_op_history_from s o : history_from (run_op s o) = history_from s.
Proof.
  destruct o as [wh l|]; [|done]. cbn. unfold insertBalances. case_match; [done|]. case_match; [done|].
  by destruct (foldl _ _ _) as [? ?].
Qed.

(** [token_balances_current] caches what DISTINCT ON over the history answers:
    through any sequence of flushes with history and block reverts, each key's
    current row is its history row of the highest block, and a key with no
    history row has none. *)
Theorem current_caches_history ops s :
  Forall (op_kept (history_from s)) ops → cache_ok s → cache_ok (foldl run_op s ops).
Proof.
  revert s. induction ops as [|o ops IH]; intros s [Ho Hops]%Forall_cons Hs || intros s _ Hs; cbn [foldl]; [done|].
  apply IH; [by rewrite run_op_history_from|]. destruct o as [wh l|number hs].
  - destruct Ho as (-> & Hl & Hf). by apply flush_cache_ok.
  - by apply revert_cache_ok.
Qed.

Lemma reopen_spec keys epoch rs k :
  k ∈ keys → ∃ r, reopenRereads keys epoch rs !! k = Some r ∧ r_open r = true ∧ epoch ≤ r_epoch r.
Proof.
  unfold reopenRereads. set (step := λ (rs : gmap balanceKey reread) k, <[k := _]> rs).
  assert (∀ rs x, ∃ r, step rs x !! x = Some r ∧ r_open r = true ∧ epoch ≤ r_epoch r) as Hnew.
  { intros rs0 x. eexists. split; [apply lookup_insert_eq|]. cbn. split; [done|]. destruct (rs0 !! x); lia. }
  assert (∀ l rs, (∃ r, rs !! k = Some r ∧ r_open r = true ∧ epoch ≤ r_epoch r) →
            ∃ r, foldl step rs l !! k = Some r ∧ r_open r = true ∧ epoch ≤ r_epoch r) as Hkeep.
  { induction l as [|x l IHl]; intros rs0 H0; cbn [foldl]; [done|]. apply IHl.
    destruct (decide (x = k)) as [->|Hne]; [apply Hnew|]. unfold step. by rewrite lookup_insert_ne. }
  revert rs. induction keys as [|x keys IH]; intros rs; [by intros []%not_elem_of_nil|].
  cbn [foldl]. intros [->|Hk]%elem_of_cons; [apply Hkeep, Hnew|by apply IH].
Qed.

(** C21: a revert fences the fork's reads: a flush never writes, to the current
    balances or to the history, a read decided before the latest revert, and it
    leaves the key of every such read with an open request to be read again at
    that epoch or later. *)
Theorem flush_fences_forks l s :
  flush_ok l → let s' := InsertBalancesBatch l s in
  (∀ b, b ∈ l → Epoch b < reorg_epoch s →
     ∃ r, rereads s' !! key_of b = Some r ∧ r_open r = true ∧ reorg_epoch s ≤ r_epoch r) ∧
  (∀ k, current s' !! k ≠ current s !! k →
     ∃ b, b ∈ l ∧ key_of b = k ∧ reorg_epoch s ≤ Epoch b ∧ current s' !! k = Some (Amount b, BlockNumber b)) ∧
  (∀ k n, history s' !! (k, n) ≠ history s !! (k, n) →
     ∃ b, b ∈ l ∧ key_of b = k ∧ BlockNumber b = n ∧ reorg_epoch s ≤ Epoch b).
Proof.
  intros Hl s'. pose proof (flush_ok_epochs l Hl) as Hep. pose proof (kept_sorted true l s Hep) as HS.
  destruct (flush_current true l s Hl) as (C1 & C2 & _). destruct (flush_history l s Hl) as [H1 H2].
  fold InsertBalancesBatch in C1, C2. fold s' in C1, C2, H2. set (K := kept (phase0 true l s)) in *.
  assert (∀ b, b ∈ K → b ∈ l ∧ reorg_epoch s ≤ Epoch b) as HK by (intros b [? [? _]]%(kept_elem true l s b Hep); done).
  split_and!.
  - intros b Hb He. assert (key_of b ∈ late (phase0 true l s)) as Hk by (apply phase0_late; [done|]; by exists b).
    unfold s', InsertBalancesBatch, insertBalances.
    rewrite bool_decide_eq_false_2 by (intros ->; by apply not_elem_of_nil in Hb).
    case_bool_decide; [by apply reopen_spec|]. destruct (foldl (upsert _) _ _) as [c delta]. by apply reopen_spec.
  - intros k Hk. destruct (collapsed_row K k HS) as [(x & Hx & Ek & _)|Hno]; [|by rewrite C2 in Hk].
    exists x. pose proof (C1 x Hx) as Hc. rewrite Ek in Hc. destruct (HK x) as [? ?]; [by eapply collapse_sub|].
    split_and!; [done..|]. rewrite Hc in Hk |- *. by destruct (match current s !! k with None => _ | Some _ => _ end).
  - intros k n Hk. destruct (decide (Exists (λ z, (key_of z, BlockNumber z) = (k, n)) K)) as [HE|HE].
    + apply Exists_exists in HE as (z & Hz & E). injection E as ? ?. destruct (HK z Hz). by exists z.
    + exfalso. apply Hk, H2. intros z Hz E. apply HE, Exists_exists. by exists z.
Qed.

(** A token with two flushes, a revert of the second block, and a late read of
    the reverted fork. *)
Definition no_tables : tables := mkTables ∅ ∅ {[ $"0xaa" := 0 ]} ∅ 0 0.
Definition read (holder : gostring) (n v e : Z) : Balance := mkBalance holder $"0xAA" n v e.
Definition sample_ops : list balance_op :=
  [Flush true [read $"0xH1" 5 10 0; read $"0xh2" 5 7 0; read $"0xH1" 5 11 0];
   Flush true [read $"0xh1" 6 0 0];
   Revert 6 [($"0xaa", $"0xh3")];
   Flush true [read $"0xh1" 6 99 0; read $"0xh3" 6 4 1]].

Lemma sample_ops_kept : Forall (op_kept 0) sample_ops.
Proof. repeat constructor; cbn; try lia; try done. Qed.

Lemma holder_count_exact_witness :
  Forall op_ok sample_ops ∧ holders_exact no_tables ∧ holders_exact (foldl run_op no_tables sample_ops) ∧
  holder_count (foldl run_op no_tables sample_ops) !! $"0xaa" = Some 3.
Proof.
  assert (Forall op_ok sample_ops) as Ho by (eapply Forall_impl; [exact sample_ops_kept|]; intros [? ?|? ?]; [by intros (_ & ? & _)|done]).
  assert (holders_exact no_tables) as Hn.
  { intros t n Hn. unfold no_tables in Hn. cbn in Hn. apply lookup_singleton_Some in Hn as [_ <-]. done. }
  split_and!; [exact Ho|exact Hn|exact (holder_count_exact sample_ops no_tables Ho Hn)|vm_compute; reflexivity].
Defined.

Lemma current_caches_history_witness :
  cache_ok no_tables ∧ cache_ok (foldl run_op no_tables sample_ops) ∧
  current (foldl run_op no_tables sample_ops) !! ($"0xaa", $"0xh1") = Some (11, 5).
Proof.
  assert (cache_ok no_tables) as Hn by (intros k; cbn; by rewrite lookup_empty).
  split_and!; [exact Hn|exact (current_caches_history sample_ops no_tables sample_ops_kept Hn)|vm_compute; reflexivity].
Defined.

Definition reverted_tables : tables := foldl run_op no_tables (take 3 sample_ops).

Lemma flush_fences_forks_witness :
  reorg_epoch reverted_tables = 1 ∧
  ∃ r, rereads (InsertBalancesBatch [read $"0xh1" 6 99 0] reverted_tables) !! ($"0xaa", $"0xh1") = Some r ∧ r_open r = true.
Proof.
  split; [reflexivity|]. assert (flush_ok [read $"0xh1" 6 99 0]) as Hl by (repeat constructor; cbn; lia).
  destruct (flush_fences_forks [read $"0xh1" 6 99 0] reverted_tables Hl) as [H _].
  destruct (H (read $"0xh1" 6 99 0)) as (r & E & Ho & _); [by left|reflexivity|]. exists r. split; [exact E|exact Ho].
Defined.
