(* ===== verification/BalanceWorker.v ===== *)
(** * The balance worker pool: [internal/indexer/balance_worker.go]

    Committed blocks queue (holder, token) keys; the coalescer holds each key for
    the dedup window, folding repeats into one item, and forwards it to the
    workers, which read balances (one call per token when batching is on) and
    flush them in batches.  The coalescer is a state machine over the events its
    select receives; a nil dereference is a panic. *)

From S2P Require Import Prelude GoStrings EthCommon Balances.

Record BalanceWork := mkWork { w_address : gostring; w_token : gostring; w_block : Z; w_epoch : Z }.

Definition work_key (w : BalanceWork) : gostring * gostring := (w_address w, w_token w).
Definition zero_address : gostring := replicate 20 x00.
Definition is_zero (w : BalanceWork) : bool := bool_decide (w_address w = zero_address).

(** ** Queueing *)

(** The pool as its producers see it; [gate] is a revert holding the epoch. *)
Record pool := mkPool { p_epoch : Z; p_closed : bool; p_queue : list BalanceWork; p_cap : nat }.

(** The compare-and-swap loop ends with the larger epoch. *)
Definition SetEpoch (e : Z) (p : pool) : pool := mkPool (Z.max (p_epoch p) e) (p_closed p) (p_queue p) (p_cap p).

Definition stamped (p : pool) (w : BalanceWork) : BalanceWork :=
  if w_epoch w =? 0 then mkWork (w_address w) (w_token w) (w_block w) (p_epoch p) else w.

Definition QueueWork (w : BalanceWork) (p : pool) : pool * bool :=
  if p_closed p then (p, false)
  else if (length (p_queue p) <? p_cap p)%nat
       then (mkPool (p_epoch p) false (p_queue p ++ [stamped p w]) (p_cap p), true)
       else (p, false).

Fixpoint QueueWorkBatch (ws : list BalanceWork) (p : pool) : pool * Z :=
  match ws with
  | [] => (p, 0)
  | w :: r =>
      let '(p, ok) := QueueWork w p in
      let '(p, n) := QueueWorkBatch r p in (p, (if ok : bool then 1 else 0) + n)
  end.

(** ** Folding *)

Definition folded (a b : BalanceWork) : BalanceWork :=
  if w_epoch a <? w_epoch b then b
  else if w_epoch b <? w_epoch a then a
  else mkWork (w_address a) (w_token a) (Z.max (w_block a) (w_block b)) (w_epoch a).

(** Later epoch, or the same epoch and a block at least as high. *)
Definition work_le (a b : BalanceWork) : Prop :=
  w_epoch a < w_epoch b ∨ (w_epoch a = w_epoch b ∧ w_block a ≤ w_block b).

Lemma work_le_trans a b c : work_le a b → work_le b c → work_le a c.
Proof. unfold work_le. lia. Qed.

Lemma folded_spec a b : work_key a = work_key b →
  work_key (folded a b) = work_key a ∧ work_le a (folded a b) ∧ work_le b (folded a b) ∧
  (folded a b = a ∨ folded a b = b).
Proof.
  destruct a as [aa at_ ab ae], b as [ba bt bb be]. unfold work_key, folded, work_le. cbn. intros [= -> ->].
  destruct (Z.ltb_spec ae be); cbn; [split_and!; [done|lia|lia|by right]|].
  destruct (Z.ltb_spec be ae); cbn; [split_and!; [done|lia|lia|by left]|].
  assert (ae = be) as -> by lia. split_and!; [done|lia|lia|].
  destruct (Z.max_spec ab bb) as [[_ ->]|[_ ->]]; auto.
Qed.

(** ** The coalescer *)

Definition maxHeldKeys : nat := 100000.

Record coalescer := mkCoalescer {
  held_keys : gmap (gostring * gostring) BalanceWork;
  order : list (gostring * gostring * Z);
  forwarded : list BalanceWork;
}.

Definition no_coalescer : coalescer := mkCoalescer ∅ [] [].

Definition forwardOldest (s : coalescer) : outcome coalescer :=
  match order s with
  | [] => Panic
  | (k, _) :: r =>
      match held_keys s !! k with
      | None => Panic
      | Some w => Val (mkCoalescer (delete k (held_keys s)) r (forwarded s ++ [w]))
      end
  end.

(** The loop of a tick: as long as the oldest is due. *)
Fixpoint forward_due (fuel : nat) (now : Z) (s : coalescer) : outcome coalescer :=
  match fuel, order s with
  | S fuel, (_, due) :: _ => if due <=? now then must s := forwardOldest s in forward_due fuel now s else Val s
  | _, _ => Val s
  end.

Fixpoint forward_all (fuel : nat) (s : coalescer) : outcome coalescer :=
  match fuel, order s with
  | S fuel, _ :: _ => must s := forwardOldest s in forward_all fuel s
  | _, _ => Val s
  end.

Inductive input := Tick (now : Z) | Work (now : Z) (w : BalanceWork).

Section Coalesce.
Context (max_held : nat) (window : Z).

Definition hold (now : Z) (w : BalanceWork) (s : coalescer) : coalescer :=
  mkCoalescer (<[work_key w := w]> (held_keys s)) (order s ++ [(work_key w, now + window)]) (forwarded s).

Definition on_input (i : input) (s : coalescer) : outcome coalescer :=
  match i with
  | Tick now => forward_due (length (order s)) now s
  | Work now w =>
      if is_zero w then Val s
      else match held_keys s !! work_key w with
           | Some h => Val (mkCoalescer (<[work_key w := folded h w]> (held_keys s)) (order s) (forwarded s))
           | None =>
               if (max_held <=? size (held_keys s))%nat
               then must s := forwardOldest s in Val (hold now w s)
               else Val (hold now w s)
           end
  end.

Fixpoint on_inputs (is_ : list input) (s : coalescer) : outcome coalescer :=
  match is_ with
  | [] => Val s
  | i :: r => must s := on_input i s in on_inputs r s
  end.

(** A run until the queue is closed; then every key still held is forwarded. *)
Definition coalesce (is_ : list input) : outcome coalescer :=
  must s := on_inputs is_ no_coalescer in forward_all (length (order s)) s.

(** ** Nothing queued is lost *)

Record coherent (s : coalescer) : Prop := {
  co_nodup : NoDup (order s).*1;
  co_dom : ∀ k, k ∈ (order s).*1 ↔ is_Some (held_keys s !! k);
  co_key : ∀ k w, held_keys s !! k = Some w → work_key w = k;
}.

Lemma coherent_size s : coherent s → size (held_keys s) = length (order s).
Proof.
  intros [Hnd Hd _]. rewrite <- size_dom, <- (length_fmap fst (order s)), <- (size_list_to_set (C := gset _)) by done.
  f_equal. apply set_eq. intros k. rewrite elem_of_list_to_set, elem_of_dom. symmetry. apply Hd.
Qed.

(** [w] is covered by what has been forwarded after [n] items, or still held. *)
Definition pending (n : nat) (w : BalanceWork) (s : coalescer) : Prop :=
  (∃ h, held_keys s !! work_key w = Some h ∧ work_le w h) ∨
  (∃ f, f ∈ drop n (forwarded s) ∧ work_key f = work_key w ∧ work_le w f).

Definition sound (seen : list BalanceWork) (s : coalescer) : Prop :=
  (∀ k w, held_keys s !! k = Some w → w ∈ seen) ∧ (∀ f, f ∈ forwarded s → f ∈ seen).

Lemma forwardOldest_ok s : coherent s → order s ≠ [] →
  ∃ s', forwardOldest s = Val s' ∧ coherent s' ∧ length (order s') = pred (length (order s)) ∧
    (∀ n w, (n ≤ length (forwarded s))%nat → pending n w s → pending n w s') ∧
    (∀ seen, sound seen s → sound seen s') ∧ (length (forwarded s) ≤ length (forwarded s'))%nat.
Proof.
  intros [Hnd Hd Hk] Hne. unfold forwardOldest. destruct (order s) as [|[k due] r] eqn:Eo; [done|].
  cbn in Hnd. apply NoDup_cons in Hnd as [Hkr Hnd].
  destruct (Hd k) as [[w Hw] _]; [by left|]. rewrite Hw. eexists. split; [done|]. split_and!.
  - split; cbn.
    + done.
    + intros k'. destruct (decide (k' = k)) as [->|Hne'].
      * rewrite lookup_delete_eq. split; [done|by intros []].
      * rewrite lookup_delete_ne by done. rewrite <- Hd. cbn. set_solver.
    + intros k' w'. rewrite lookup_delete_Some. intros [_ ?]. by apply Hk.
  - done.
  - intros n x Hn [(h & Hh & Hle)|(f & Hf & ? & ?)].
    + destruct (decide (work_key x = k)) as [<-|Hne'].
      * right. exists w. rewrite Hw in Hh. injection Hh as ->. cbn. split_and!; [|by apply Hk|done].
        rewrite drop_app_le by done. apply elem_of_app. right. by apply list_elem_of_singleton.
      * left. exists h. cbn. by rewrite lookup_delete_ne.
    + right. exists f. cbn. rewrite drop_app_le by done. split; [|done]. apply elem_of_app. by left.
  - intros seen [S1 S2]. split; cbn.
    + intros k' w'. rewrite lookup_delete_Some. intros [_ ?]. by eapply S1.
    + intros f [Hf|Hf]%elem_of_app; [by apply S2|]. apply list_elem_of_singleton in Hf as ->. by eapply S1.
  - cbn. rewrite length_app. lia.
Qed.

(** What every step keeps. *)
Definition advances (seen : list BalanceWork) (s s' : coalescer) : Prop :=
  coherent s' ∧ (∀ n w, (n ≤ length (forwarded s))%nat → pending n w s → pending n w s') ∧
  (∀ seen0, sound seen0 s → sound (seen0 ++ seen) s') ∧ (length (forwarded s) ≤ length (forwarded s'))%nat ∧
  (length (order s') ≤ Nat.max max_held (length (order s)))%nat.

Lemma sound_app seen seen' s : sound seen s → sound (seen ++ seen') s.
Proof. intros [S1 S2]. split; [intros k w Hk; apply elem_of_app; left; by eapply S1|intros f Hf; apply elem_of_app; left; by apply S2]. Qed.

Lemma advances_trans s1 s2 s3 a b : advances a s1 s2 → advances b s2 s3 → advances (a ++ b) s1 s3.
Proof.
  intros (A1 & A2 & A3 & A4 & A5) (B1 & B2 & B3 & B4 & B5). split_and!; [done| | |lia|lia].
  - intros n w Hn Hp. apply B2; [lia|]. by apply A2.
  - intros seen0 Hs. rewrite app_assoc. by apply B3, A3.
Qed.

Lemma forwardOldest_advances s : coherent s → order s ≠ [] →
  ∃ s', forwardOldest s = Val s' ∧ advances [] s s' ∧ length (order s') = pred (length (order s)).
Proof.
  intros Hs Ho. destruct (forwardOldest_ok s Hs Ho) as (s' & E & C & L & P & S & F). exists s'.
  split_and!; [done|split_and!; [done|done|intros seen0; rewrite app_nil_r; apply S|done|lia]|done].
Qed.

Lemma forward_due_advances fuel now s : coherent s → ∃ s', forward_due fuel now s = Val s' ∧ advances [] s s'.
Proof.
  revert s. induction fuel as [|fuel IH]; intros s Hs; cbn [forward_due].
  { exists s. split; [done|]. split_and!; [done..|intros; by apply sound_app|lia|lia]. }
  destruct (order s) as [|[k due] r] eqn:Eo.
  { exists s. split; [done|]. split_and!; [done..|intros; by apply sound_app|lia|lia]. }
  destruct (due <=? now).
  - destruct (forwardOldest_advances s Hs) as (s1 & -> & A & _); [by rewrite Eo|]. cbn [outcome_bind].
    destruct (IH s1) as (s' & -> & B); [apply A|]. exists s'. split; [done|]. exact (advances_trans _ _ _ [] [] A B).
  - exists s. split; [done|]. split_and!; [done..|intros; by apply sound_app|lia|lia].
Qed.

Lemma forward_all_empties fuel s : coherent s → (length (order s) ≤ fuel)%nat →
  ∃ s', forward_all fuel s = Val s' ∧ advances [] s s' ∧ order s' = [].
Proof.
  revert s. induction fuel as [|fuel IH]; intros s Hs Hf; cbn [forward_all].
  { exists s. destruct (order s) eqn:Eo; [|cbn in Hf; lia]. split; [done|]. split; [|done].
    split_and!; [done..|intros; by apply sound_app|lia|lia]. }
  destruct (order s) as [|x r] eqn:Eo.
  { exists s. split; [done|]. split; [|done]. split_and!; [done..|intros; by apply sound_app|lia|lia]. }
  destruct (forwardOldest_advances s Hs) as (s1 & -> & A & L); [by rewrite Eo|]. cbn [outcome_bind].
  destruct (IH s1) as (s' & -> & B & E); [apply A|rewrite Eo in L; cbn in *; lia|].
  exists s'. split_and!; [done|exact (advances_trans _ _ _ [] [] A B)|done].
Qed.

Lemma hold_advances now w s : coherent s → held_keys s !! work_key w = None → (length (order s) < max_held)%nat →
  advances [w] s (hold now w s) ∧ ∀ n, pending n w (hold now w s).
Proof.
  intros [Hnd Hd Hk] Hn Hlt. split; [split_and!|].
  - split; cbn.
    + rewrite fmap_app. apply NoDup_app. split_and!; [done| |by repeat constructor; apply not_elem_of_nil].
      intros k Hin Hk'. apply list_elem_of_singleton in Hk' as ->. apply Hd in Hin. cbn in Hin. rewrite Hn in Hin. by destruct Hin.
    + intros k. rewrite fmap_app, elem_of_app, Hd. cbn. rewrite list_elem_of_singleton.
      destruct (decide (k = work_key w)) as [->|Hne].
      * rewrite lookup_insert_eq. split; [by eexists|by right].
      * rewrite lookup_insert_ne by done. naive_solver.
    + intros k w'. rewrite lookup_insert_Some. intros [[<- <-]|[_ ?]]; [done|by apply Hk].
  - intros n x Hle [(h & Hh & Hx)|Hf]; [left|right; exact Hf]. exists h. cbn. rewrite lookup_insert_ne; [done|congruence].
  - intros seen0 [S1 S2]. split; cbn.
    + intros k w'. rewrite lookup_insert_Some. intros [[_ <-]|[_ Hw]]; apply elem_of_app; [right; by left|left; by eapply S1].
    + intros f Hf. apply elem_of_app. left. by apply S2.
  - done.
  - cbn. rewrite length_app. cbn. lia.
  - intros n. left. exists w. cbn. rewrite lookup_insert_eq. split; [done|]. unfold work_le. lia.
Qed.

Definition received (i : input) : list BalanceWork :=
  match i with Work _ w => if is_zero w then [] else [w] | Tick _ => [] end.

Hypothesis max_pos : (0 < max_held)%nat.

Lemma fold_advances w h s : coherent s → held_keys s !! work_key w = Some h →
  let s' := mkCoalescer (<[work_key w := folded h w]> (held_keys s)) (order s) (forwarded s) in
  advances [w] s s' ∧ ∀ n, pending n w s'.
Proof.
  intros [Hnd Hd Hk] Hh s'. destruct (folded_spec h w) as (F1 & F2 & F3 & F4); [by rewrite (Hk _ _ Hh)|].
  rewrite (Hk _ _ Hh) in F1. split; [split_and!|].
  - split; cbn; [done| |].
    + intros k. rewrite Hd. destruct (decide (k = work_key w)) as [->|Hne].
      * rewrite lookup_insert_eq. split; [by eexists|intros _; by exists h].
      * by rewrite lookup_insert_ne.
    + intros k w'. rewrite lookup_insert_Some. intros [[<- <-]|[_ ?]]; [done|by apply Hk].
  - intros n x Hle [(y & Hy & Hx)|Hf]; [left|right; exact Hf]. cbn. destruct (decide (work_key w = work_key x)) as [E|Hne].
    + exists (folded h w). rewrite E, lookup_insert_eq. split; [done|]. rewrite <- E, Hh in Hy. injection Hy as ->. by eapply work_le_trans.
    + exists y. by rewrite lookup_insert_ne.
  - intros seen0 [S1 S2]. split; cbn.
    + intros k w'. rewrite lookup_insert_Some. intros [[_ <-]|[_ Hw]]; apply elem_of_app; [|left; by eapply S1].
      destruct F4 as [-> | ->]; [left; by eapply S1|right; by left].
    + intros f Hf. apply elem_of_app. left. by apply S2.
  - done.
  - cbn. lia.
  - intros n. left. exists (folded h w). cbn. by rewrite lookup_insert_eq.
Qed.

Lemma on_input_advances i s : coherent s → (length (order s) ≤ max_held)%nat →
  ∃ s', on_input i s = Val s' ∧ advances (received i) s s' ∧
    ∀ w n, w ∈ received i → pending n w s'.
Proof using max_pos.
  intros Hs Hlen. destruct i as [now|now w]; cbn [on_input received].
  { destruct (forward_due_advances (length (order s)) now s Hs) as (s' & E & A). exists s'. split_and!; [done..|].
    by intros w n []%not_elem_of_nil. }
  destruct (is_zero w).
  { exists s. split; [done|]. split; [split_and!; [done..|intros; by apply sound_app|lia|lia]|by intros ? ? []%not_elem_of_nil]. }
  destruct (held_keys s !! work_key w) as [h|] eqn:Eh.
  { destruct (fold_advances w h s Hs Eh) as [A P]. eexists. split_and!; [done|exact A|]. by intros x n ->%list_elem_of_singleton. }
  rewrite (coherent_size s Hs). destruct (Nat.leb_spec max_held (length (order s))) as [Hfull|Hroom].
  - destruct (forwardOldest_advances s Hs) as (s1 & E1 & A1 & L1); [by intros E; rewrite E in Hfull; cbn in Hfull; lia|].
    rewrite E1. cbn [outcome_bind].
    assert (held_keys s1 !! work_key w = None) as Hn1.
    { unfold forwardOldest in E1. destruct (order s) as [|[k d] r]; [done|]. destruct (held_keys s !! k); [|done].
      injection E1 as <-. cbn. apply lookup_delete_None. by right. }
    destruct (hold_advances now w s1) as [A2 P2]; [apply A1|done|lia|].
    eexists. split_and!; [done|exact (advances_trans _ _ _ [] [w] A1 A2)|]. by intros x n ->%list_elem_of_singleton.
  - destruct (hold_advances now w s) as [A P]; [done|done|lia|]. eexists. split_and!; [done|exact A|].
    by intros x n ->%list_elem_of_singleton.
Qed.

Lemma on_inputs_app a b s : on_inputs (a ++ b) s = must s := on_inputs a s in on_inputs b s.
Proof. revert s. induction a as [|i a IH]; intros s; [done|]. cbn. destruct (on_input i s); cbn; [apply IH|done]. Qed.

Lemma on_inputs_advances is_ s : coherent s → (length (order s) ≤ max_held)%nat →
  ∃ s', on_inputs is_ s = Val s' ∧ advances (is_ ≫= received) s s'.
Proof using max_pos.
  revert s. induction is_ as [|i is_ IH]; intros s Hs Hlen; cbn [on_inputs].
  { exists s. split; [done|]. split_and!; [done..|intros; by apply sound_app|lia|lia]. }
  destruct (on_input_advances i s Hs Hlen) as (s1 & -> & A1 & P1). cbn [outcome_bind].
  destruct (IH s1) as (s' & -> & A2); [apply A1|destruct A1 as (_ & _ & _ & _ & ?); lia|].
  exists s'. split; [done|]. rewrite bind_cons. by eapply advances_trans.
Qed.

Lemma no_coalescer_coherent : coherent no_coalescer.
Proof.
  split; cbn; [constructor| |].
  - intros k. rewrite lookup_empty. split; [by intros []%not_elem_of_nil|by intros []].
  - intros k w. by rewrite lookup_empty.
Qed.

Lemma coalesce_ends is_ : ∃ s', coalesce is_ = Val s' ∧ order s' = [] ∧ held_keys s' = ∅ ∧
  (∀ f, f ∈ forwarded s' → f ∈ is_ ≫= received).
Proof using max_pos.
  destruct (on_inputs_advances is_ no_coalescer no_coalescer_coherent) as (s1 & E1 & A1); [cbn; lia|].
  destruct (forward_all_empties (length (order s1)) s1) as (s' & E2 & A2 & Eo); [apply A1|lia|].
  exists s'. unfold coalesce. rewrite E1. cbn [outcome_bind]. split_and!; [done|done| |].
  - destruct A2 as ([_ Hd _] & _). apply map_eq. intros k. rewrite lookup_empty.
    destruct (held_keys s' !! k) as [w|] eqn:E; [|done]. exfalso.
    assert (k ∈ (order s').*1) as Hin by (apply Hd; by exists w). rewrite Eo in Hin. by apply not_elem_of_nil in Hin.
  - destruct (advances_trans _ _ _ _ _ A1 A2) as (_ & _ & S & _). rewrite app_nil_r in S.
    destruct (S []) as [_ S2]; [|exact S2]. split; cbn.
    + intros k w. by rewrite lookup_empty.
    + by intros f []%not_elem_of_nil.
Qed.

Lemma coalesce_covers pre now w post s' :
  is_zero w = false → coalesce (pre ++ Work now w :: post) = Val s' →
  ∃ s0 f, on_inputs pre no_coalescer = Val s0 ∧ f ∈ drop (length (forwarded s0)) (forwarded s') ∧
    work_key f = work_key w ∧ work_le w f.
Proof using max_pos.
  intros Hz E. destruct (on_inputs_advances pre no_coalescer no_coalescer_coherent) as (s0 & E0 & A0); [cbn; lia|].
  destruct (coalesce_ends (pre ++ Work now w :: post)) as (s1 & E' & _ & Hheld & _). rewrite E in E'. injection E' as <-.
  unfold coalesce in E. rewrite on_inputs_app, E0 in E. cbn [outcome_bind on_inputs] in E.
  assert (length (order s0) ≤ max_held)%nat as L0 by (destruct A0 as (_ & _ & _ & _ & ?); cbn in *; lia).
  destruct (on_input_advances (Work now w) s0 ltac:(apply A0) L0) as (s2 & E2 & A2 & P2). rewrite E2 in E. cbn [outcome_bind] in E.
  assert (length (order s2) ≤ max_held)%nat as L2 by (destruct A2 as (_ & _ & _ & _ & ?); lia).
  destruct (on_inputs_advances post s2 ltac:(apply A2) L2) as (s3 & E3 & A3). rewrite E3 in E. cbn [outcome_bind] in E.
  destruct (forward_all_empties (length (order s3)) s3 ltac:(apply A3) ltac:(lia)) as (s4 & E4 & A4 & _).
  rewrite E4 in E. injection E as ->. exists s0.
  assert (pending (length (forwarded s0)) w s') as [(h & Hh & _)|(f & Hf)].
  { destruct A4 as (_ & A4 & _). apply A4; [destruct A2 as (_ & _ & _ & ? & _), A3 as (_ & _ & _ & ? & _); lia|].
    destruct A3 as (_ & A3 & _). apply A3; [destruct A2 as (_ & _ & _ & ? & _); lia|]. apply P2. cbn. rewrite Hz. by left. }
  - rewrite Hheld in Hh. by rewrite lookup_empty in Hh.
  - by exists f.
Qed.
End Coalesce.

(** the coalescer loses no balance update: for any interleaving of items and
    ticks, with any window, once the queue is closed it has stopped without a
    panic and holds nothing; every item it received (the zero address apart) was
    forwarded afterwards, for its key, at its reorg epoch and block or a later
    one, so the read that follows sees it; and everything forwarded is an item
    that was queued. *)
Theorem coalesce_conserves max_held window is_ :
  (0 < max_held)%nat →
  ∃ s', coalesce max_held window is_ = Val s' ∧ held_keys s' = ∅ ∧
    (∀ f, f ∈ forwarded s' → f ∈ is_ ≫= received) ∧
    ∀ pre now w post, is_ = pre ++ Work now w :: post → is_zero w = false →
      ∃ s0 f, on_inputs max_held window pre no_coalescer = Val s0 ∧ f ∈ drop (length (forwarded s0)) (forwarded s') ∧
        work_key f = work_key w ∧ work_le w f.
Proof.
  intros Hm. destruct (coalesce_ends max_held window Hm is_) as (s' & E & _ & Hh & Hf).
  exists s'. split_and!; [done..|]. intros pre now w post -> Hz. by eapply coalesce_covers.
Qed.

Definition item (a b e : Z) : BalanceWork := mkWork (be_bytes 20 a) (be_bytes 20 7) b e.

Lemma coalesce_conserves_witness :
  coalesce 1 10 [Work 0 (item 1 5 0); Work 1 (item 1 3 1); Work 2 (item 2 6 1); Tick 30] = Val (mkCoalescer ∅ [] [item 1 3 1; item 2 6 1]) ∧
  ∃ s', coalesce 1 10 [Work 0 (item 1 5 0); Work 1 (item 1 3 1); Work 2 (item 2 6 1); Tick 30] = Val s' ∧ held_keys s' = ∅.
Proof.
  split; [vm_compute; reflexivity|].
  destruct (coalesce_conserves 1 10 [Work 0 (item 1 5 0); Work 1 (item 1 3 1); Work 2 (item 2 6 1); Tick 30] ltac:(lia))
    as (s' & E & H & _). exists s'. split; [exact E|exact H].
Defined.

(** ** Batched reads *)

Record reading := mkReading {
  works : gmap (gostring * gostring) BalanceWork;
  tokens : list gostring;
  holders_of : gmap gostring (list gostring);
}.

Definition add_work (r : reading) (w : BalanceWork) : reading :=
  if is_zero w then r
  else match works r !! work_key w with
       | Some prev => mkReading (<[work_key w := folded prev w]> (works r)) (tokens r) (holders_of r)
       | None =>
           mkReading (<[work_key w := w]> (works r))
             (match holders_of r !! w_token w with None => tokens r ++ [w_token w] | Some _ => tokens r end)
             (<[w_token w := default [] (holders_of r !! w_token w) ++ [w_address w]]> (holders_of r))
       end.

Definition first_reading (w : BalanceWork) : reading :=
  mkReading {[ work_key w := w ]} [w_token w] {[ w_token w := [w_address w] ]}.

(** The items taken: the first and, without waiting, up to [readerBatch - 1] of
    those ready. *)
Definition drained (readerBatch : nat) (first : BalanceWork) (ready : list BalanceWork) : reading :=
  foldl add_work (first_reading first) (take (readerBatch - 1) ready).

(** The rows of one token; [answer] is what [BalancesOf] returned for its holders,
    one value and flag each ([None]: the call failed). *)
Definition token_rows (r : reading) (token : gostring) (answer : option (list (Z * bool))) : list (BalanceWork * Z) :=
  match answer with
  | None => []
  | Some vs =>
      omap (λ x : gostring * (Z * bool), let '(h, (v, ok)) := x in
              if ok : bool then (λ w, (w, v)) <$> works r !! (h, token) else None)
           (zip (default [] (holders_of r !! token)) vs)
  end.

Definition fetchReader (reader : gostring → list gostring → option (list (Z * bool)))
    (readerBatch : nat) (first : BalanceWork) (ready : list BalanceWork) : list (BalanceWork * Z) :=
  let r := drained readerBatch first ready in
  tokens r ≫= λ token, token_rows r token (reader token (default [] (holders_of r !! token))).

(** The row written for a read. *)
Definition balance_row `{Keccak} (x : BalanceWork * Z) : Balance :=
  mkBalance (Address_Hex (w_address x.1)) (Address_Hex (w_token x.1)) (w_block x.1) x.2 (w_epoch x.1).

(** [fetchBalance]: one balanceOf call ([None]: it failed), read as one word or
    more. *)
Definition balanceOf_calldata (holder : gostring) : gostring := FromHex $"0x70a08231" ++ LeftPadBytes holder 32.
Definition fetchBalance (w : BalanceWork) (answer : option gostring) : option (BalanceWork * Z) :=
  match answer with
  | None => None
  | Some data => if zlen data <? 32 then None else Some (w, be_Z data)
  end.

(** [flushBatch]: whether the batch was written, given what each attempt meets. *)
Inductive write_result := Written | Retryable | Failed.
Fixpoint flush_attempts (tries : nat) (results : list write_result) : bool :=
  match tries, results with
  | S tries, Written :: _ => true
  | S tries, Retryable :: r => if (tries =? 0)%nat then false else flush_attempts tries r
  | _, _ => false
  end.
Definition flushBatch (results : list write_result) : bool := flush_attempts 3 results.

Record reading_ok (seen : list BalanceWork) (r : reading) : Prop := {
  rd_tokens : NoDup (tokens r);
  rd_known : ∀ t, t ∈ tokens r ↔ is_Some (holders_of r !! t);
  rd_holders : ∀ t hs, holders_of r !! t = Some hs → NoDup hs;
  rd_works : ∀ a t, is_Some (works r !! (a, t)) ↔ ∃ hs, holders_of r !! t = Some hs ∧ a ∈ hs;
  rd_item : ∀ k w, works r !! k = Some w → work_key w = k ∧ w ∈ seen;
  rd_seen : ∀ x, x ∈ seen → is_zero x = false → ∃ w, works r !! work_key x = Some w ∧ work_le x w;
}.

Lemma first_reading_ok w : is_zero w = false → reading_ok [w] (first_reading w).
Proof.
  intros Hz. split; unfold first_reading; cbn [works tokens holders_of].
  - by repeat constructor; apply not_elem_of_nil.
  - intros t. rewrite list_elem_of_singleton. split; [intros ->; rewrite lookup_singleton_eq; by eexists|].
    intros [hs [<- _]%lookup_singleton_Some]. done.
  - intros t hs [_ <-]%lookup_singleton_Some. by repeat constructor; apply not_elem_of_nil.
  - intros a t. split.
    + intros [x [Ek _]%lookup_singleton_Some]. injection Ek as <- <-. eexists. rewrite lookup_singleton_eq. split; [done|by left].
    + intros (hs & [<- <-]%lookup_singleton_Some & ->%list_elem_of_singleton). fold (work_key w). rewrite lookup_singleton_eq. by eexists.
  - intros k x [<- <-]%lookup_singleton_Some. split; [done|by left].
  - intros x ->%list_elem_of_singleton _. exists w. rewrite lookup_singleton_eq. split; [done|]. unfold work_le. lia.
Qed.

Lemma add_work_ok seen r w : reading_ok seen r → reading_ok (seen ++ [w]) (add_work r w).
Proof.
  intros [H1 H2 H3 H4 H5 H6]. unfold add_work. destruct (is_zero w) eqn:Hz.
  { split; try done; [intros k x Hx; apply H5 in Hx; set_solver|].
    intros x [Hx| ->%list_elem_of_singleton]%elem_of_app Hx0; [by apply H6|congruence]. }
  destruct (works r !! work_key w) as [prev|] eqn:Ew.
  - destruct (H5 _ _ Ew) as [Ek Hin]. destruct (folded_spec prev w Ek) as (F1 & F2 & F3 & F4).
    split; cbn [works tokens holders_of]; try done.
    + intros a t. rewrite <- H4. destruct (decide ((a, t) = work_key w)) as [->|Hne].
      * rewrite lookup_insert_eq, Ew. split; by eexists.
      * by rewrite lookup_insert_ne.
    + intros k x. rewrite lookup_insert_Some. intros [[<- <-]|[_ Hx]]; [|apply H5 in Hx; set_solver].
      split; [congruence|]. destruct F4 as [-> | ->]; set_solver.
    + intros x [Hx| ->%list_elem_of_singleton]%elem_of_app Hx0; [|exists (folded prev w); by rewrite lookup_insert_eq].
      destruct (H6 x Hx Hx0) as (y & Hy & Hle). destruct (decide (work_key w = work_key x)) as [E|Hne].
      * exists (folded prev w). rewrite E, lookup_insert_eq. split; [done|]. rewrite <- E, Ew in Hy. injection Hy as ->.
        by eapply work_le_trans.
      * exists y. by rewrite lookup_insert_ne.
  - assert (w_address w ∉ default [] (holders_of r !! w_token w)) as Hnew.
    { intros Hin. destruct (holders_of r !! w_token w) as [hs|] eqn:Eh; [|by apply not_elem_of_nil in Hin].
      assert (is_Some (works r !! (w_address w, w_token w))) as [? Hc] by (apply H4; by exists hs).
      unfold work_key in Ew. congruence. }
    split; cbn [works tokens holders_of].
    + destruct (holders_of r !! w_token w) eqn:Eh; [done|]. apply NoDup_app. split_and!; [done| |by repeat constructor; apply not_elem_of_nil].
      intros t Ht ->%list_elem_of_singleton. apply H2 in Ht. rewrite Eh in Ht. by destruct Ht.
    + intros t. destruct (decide (t = w_token w)) as [->|Hne].
      * rewrite lookup_insert_eq. split; [by eexists|intros _]. destruct (holders_of r !! w_token w) eqn:Eh; [apply H2; rewrite Eh; by eexists|set_solver].
      * rewrite lookup_insert_ne by done. rewrite <- H2. destruct (holders_of r !! w_token w); set_solver.
    + intros t hs. rewrite lookup_insert_Some. intros [[<- <-]|[_ Hh]]; [|by eapply H3].
      apply NoDup_app. split_and!; [|intros a Ha ->%list_elem_of_singleton; done|by repeat constructor; apply not_elem_of_nil].
      destruct (holders_of r !! w_token w) eqn:Eh; [by eapply H3|constructor].
    + intros a t. destruct (decide (t = w_token w)) as [->|Hne].
      * rewrite lookup_insert_eq. destruct (decide (a = w_address w)) as [->|Ha].
        -- fold (work_key w). rewrite lookup_insert_eq. split; [intros _|by eexists]. eexists. split; [done|]. set_solver.
        -- rewrite lookup_insert_ne by (unfold work_key; congruence). rewrite H4. split.
           ++ intros (hs & -> & Hin). eexists. split; [done|]. cbn. set_solver.
           ++ intros (hs & [= <-] & Hin). destruct (holders_of r !! w_token w) as [hs|]; [exists hs; split; [done|set_solver]|set_solver].
      * rewrite !lookup_insert_ne by (unfold work_key; congruence). apply H4.
    + intros k x. rewrite lookup_insert_Some. intros [[<- <-]|[_ Hx]]; [|apply H5 in Hx; set_solver]. set_solver.
    + intros x [Hx| ->%list_elem_of_singleton]%elem_of_app Hx0.
      * destruct (H6 x Hx Hx0) as (y & Hy & Hle). exists y. rewrite lookup_insert_ne; [done|congruence].
      * exists w. rewrite lookup_insert_eq. split; [done|]. unfold work_le. lia.
Qed.

Lemma drained_ok batch first ready : is_zero first = false →
  reading_ok (first :: take (batch - 1) ready) (drained batch first ready).
Proof.
  intros Hz. unfold drained. generalize (take (batch - 1) ready). intros l.
  enough (∀ seen r, reading_ok seen r → reading_ok (seen ++ l) (foldl add_work r l)) as H by apply (H [first] _ (first_reading_ok first Hz)).
  induction l as [|x l IH]; intros seen r Hr; cbn [foldl]; [by rewrite app_nil_r|].
  replace (seen ++ x :: l) with ((seen ++ [x]) ++ l) by (by rewrite <- app_assoc). by apply IH, add_work_ok.
Qed.

Section Reads.
Context (failing : gostring → bool) (answer : gostring → gostring → Z * bool).

(** [BalancesOf] answers one value and flag per holder, or fails as a whole. *)
Definition reader (token : gostring) (hs : list gostring) : option (list (Z * bool)) :=
  if failing token then None else Some (answer token <$> hs).

Definition row_of (r : reading) (token h : gostring) : option (BalanceWork * Z) :=
  if (answer token h).2 then (λ w, (w, (answer token h).1)) <$> works r !! (h, token) else None.

Lemma token_rows_read r token :
  token_rows r token (reader token (default [] (holders_of r !! token))) =
  if failing token then [] else omap (row_of r token) (default [] (holders_of r !! token)).
Proof.
  unfold token_rows, reader. destruct (failing token); [done|]. generalize (default [] (holders_of r !! token)). intros hs.
  induction hs as [|h hs IH]; [done|]. rewrite fmap_cons. cbn [zip zip_with]. unfold row_of at 1. cbn.
  destruct (answer token h) as [v ok]. cbn. destruct ok; [|exact IH]. destruct (works r !! (h, token)); [|exact IH]. cbn. f_equal. exact IH.
Qed.

Lemma row_of_Some seen r token h w v : reading_ok seen r → row_of r token h = Some (w, v) ↔
  works r !! (h, token) = Some w ∧ answer token h = (v, true).
Proof.
  intros Hr. unfold row_of. destruct (answer token h) as [v' ok]. cbn. destruct ok.
  - destruct (works r !! (h, token)) as [w'|]; cbn; [|naive_solver]. split; [intros [= -> ->]|intros [[= ->] [= ->]]]; done.
  - split; [done|]. by intros [_ [=]].
Qed.

Lemma fetchReader_elem batch first ready w v : is_zero first = false →
  let r := drained batch first ready in
  (w, v) ∈ fetchReader reader batch first ready ↔
  works r !! work_key w = Some w ∧ failing (w_token w) = false ∧ answer (w_token w) (w_address w) = (v, true).
Proof.
  intros Hz r. pose proof (drained_ok batch first ready Hz) as Hr. fold r in Hr. unfold fetchReader. fold r.
  rewrite list_elem_of_bind. split.
  - intros (t & Hin & Ht). rewrite token_rows_read in Hin. destruct (failing t) eqn:Ef; [by apply not_elem_of_nil in Hin|].
    apply list_elem_of_omap in Hin as (h & Hh & Hrow). apply (row_of_Some _ _ _ _ _ _ Hr) in Hrow as [Hw Ha].
    destruct (rd_item _ _ Hr _ _ Hw) as [Ek _]. rewrite Ek. unfold work_key in Ek. injection Ek as -> ->. done.
  - intros (Hw & Hf & Ha). exists (w_token w). rewrite token_rows_read, Hf.
    destruct (rd_works _ _ Hr (w_address w) (w_token w)) as [Hs _]. destruct Hs as (hs & Hhs & Hin); [unfold work_key in Hw; rewrite Hw; by eexists|].
    split; [|apply (rd_known _ _ Hr); by exists hs]. rewrite Hhs. apply list_elem_of_omap. exists (w_address w). split; [done|].
    by apply (row_of_Some _ _ _ _ _ _ Hr).
Qed.

Lemma fetchReader_nodup batch first ready : is_zero first = false →
  NoDup ((λ x, work_key x.1) <$> fetchReader reader batch first ready).
Proof.
  intros Hz. pose proof (drained_ok batch first ready Hz) as Hr. unfold fetchReader. set (r := drained batch first ready) in *.
  assert (∀ l : list gostring, (λ x : BalanceWork * Z, work_key x.1) <$> (l ≫= λ t, token_rows r t (reader t (default [] (holders_of r !! t)))) =
            l ≫= λ t, (λ x : BalanceWork * Z, work_key x.1) <$> token_rows r t (reader t (default [] (holders_of r !! t)))) as ->.
  { induction l as [|t l IH]; [done|]. by rewrite !bind_cons, fmap_app, IH. }
  assert (∀ t k, k ∈ (λ x : BalanceWork * Z, work_key x.1) <$> token_rows r t (reader t (default [] (holders_of r !! t))) → k.2 = t) as Htok.
  { intros t k (x & -> & Hx)%list_elem_of_fmap. rewrite token_rows_read in Hx. destruct (failing t); [by apply not_elem_of_nil in Hx|].
    apply list_elem_of_omap in Hx as (h & _ & Hrow). destruct x as [w v]. apply (row_of_Some _ _ _ _ _ _ Hr) in Hrow as [Hw _].
    destruct (rd_item _ _ Hr _ _ Hw) as [Ek _]. cbn [fst]. by rewrite Ek. }
  apply NoDup_bind; [| |apply Hr].
  - intros t1 t2 k _ _ H1%Htok H2%Htok. congruence.
  - intros t Ht. rewrite token_rows_read. destruct (failing t); [constructor|].
    apply (rd_known _ _ Hr) in Ht as [hs Hhs]. rewrite Hhs. cbn. pose proof (rd_holders _ _ Hr _ _ Hhs) as Hnd.
    clear Hhs. induction Hnd as [|h hs Hh _ IH]; [constructor|]. cbn.
    destruct (row_of r t h) as [[w v]|] eqn:Erow; [|exact IH]. cbn. constructor; [|exact IH].
    intros ([w' v'] & Ek & Hin)%list_elem_of_fmap. apply list_elem_of_omap in Hin as (h' & Hin' & Erow').
    apply (row_of_Some _ _ _ _ _ _ Hr) in Erow as [Hw _], Erow' as [Hw' _].
    destruct (rd_item _ _ Hr _ _ Hw) as [E1 _], (rd_item _ _ Hr _ _ Hw') as [E2 _]. cbn in Ek. rewrite E1, E2 in Ek.
    injection Ek as <-. done.
Qed.
End Reads.

(** a batched read writes each drained key once: every row carries an item of
    the batch at its key's latest epoch and highest block, with the value the
    reader answered for that holder; and every drained item whose token's call
    and whose own balanceOf succeeded has its key's row. *)
Theorem fetchReader_reads failing answer batch first ready :
  is_zero first = false →
  let items := first :: take (batch - 1) ready in
  let out := fetchReader (reader failing answer) batch first ready in
  NoDup ((λ x, work_key x.1) <$> out) ∧
  (∀ w v, (w, v) ∈ out → w ∈ items ∧ answer (w_token w) (w_address w) = (v, true) ∧
     ∀ x, x ∈ items → is_zero x = false → work_key x = work_key w → work_le x w) ∧
  (∀ x v, x ∈ items → is_zero x = false → failing (w_token x) = false → answer (w_token x) (w_address x) = (v, true) →
     ∃ w, (w, v) ∈ out ∧ work_key w = work_key x).
Proof.
  intros Hz items out. pose proof (drained_ok batch first ready Hz) as Hr. split_and!.
  - by apply fetchReader_nodup.
  - intros w v (Hw & _ & Ha)%(fetchReader_elem failing answer batch first ready w v Hz).
    split_and!; [apply (rd_item _ _ Hr _ _ Hw)|done|]. intros x Hx Hx0 Ek.
    destruct (rd_seen _ _ Hr x Hx Hx0) as (w' & Hw' & Hle). rewrite Ek, Hw in Hw'. by injection Hw' as <-.
  - intros x v Hx Hx0 Hf Ha. destruct (rd_seen _ _ Hr x Hx Hx0) as (w & Hw & _).
    destruct (rd_item _ _ Hr _ _ Hw) as [Ek _]. exists w. split; [|done].
    apply (fetchReader_elem failing answer batch first ready w v Hz). unfold work_key in Ek, Hw. injection Ek as Ea Et.
    rewrite Ea, Et. unfold work_key. by rewrite Ea, Et.
Qed.

Lemma fetchReader_reads_witness :
  fetchReader (reader (λ _, false) (λ t h, (be_Z h, true))) 4 (item 1 5 0) [item 2 6 0; item 1 9 0; item 3 1 0] =
    [(item 1 9 0, 1); (item 2 6 0, 2); (item 3 1 0, 3)] ∧
  NoDup ((λ x : BalanceWork * Z, work_key x.1) <$>
    fetchReader (reader (λ _, false) (λ t h, (be_Z h, true))) 4 (item 1 5 0) [item 2 6 0; item 1 9 0; item 3 1 0]).
Proof.
  split; [vm_compute; reflexivity|].
  exact (proj1 (fetchReader_reads (λ _, false) (λ t h, (be_Z h, true)) 4 (item 1 5 0) [item 2 6 0; item 1 9 0; item 3 1 0] eq_refl)).
Defined.
