(* ===== verification/BalanceRereads.v ===== *)
(** * Reading reverted balances again

    [internal/indexer/balance_rereads.go] with [ClaimBalanceRereads] of
    [internal/db/balances_revert.go]: a revert leaves a request for every balance it
    could not restore with certainty; a pass hands requests out, reads them at the head
    and writes them with the reorg epoch they carry. *)

From S2P Require Import Prelude GoStrings EthCommon Balances BalanceWorker.

(** ** ClaimBalanceRereads *)

Definition MaxBalanceRereadAttempts : Z := 20.

Definition spent (r : reread) : bool := r_open r && (MaxBalanceRereadAttempts <=? r_attempts r).
(** [UPDATE ... SET open = false WHERE open AND attempts >= 20] *)
Definition drop_spent (rs : gmap balanceKey reread) : gmap balanceKey reread :=
  map_imap (λ _ r, Some (if spent r then mkReread (r_epoch r) false (r_attempts r) else r)) rs.

Definition by_epoch (a b : balanceKey * reread) : Prop := r_epoch a.2 ≤ r_epoch b.2.
#[export] Instance by_epoch_dec : RelDecision by_epoch.
Proof. intros a b. unfold by_epoch. apply _. Defined.

(** [WHERE open ORDER BY epoch LIMIT n FOR UPDATE SKIP LOCKED]: [skip] are the rows
    another transaction has locked. *)
Definition handed (limit : nat) (skip : gset balanceKey) (rs : gmap balanceKey reread) : list balanceKey :=
  take limit (merge_sort by_epoch (filter (λ x, r_open x.2 = true ∧ x.1 ∉ skip) (map_to_list rs))).*1.
Definition count_attempts (keys : list balanceKey) (rs : gmap balanceKey reread) : gmap balanceKey reread :=
  map_imap (λ k r, Some (if decide (k ∈ keys) then mkReread (r_epoch r) (r_open r) (r_attempts r + 1) else r)) rs.

Definition set_rereads (rs : gmap balanceKey reread) (s : tables) : tables :=
  mkTables (history s) (current s) (holder_count s) rs (reorg_epoch s) (history_from s).

(** The tables, the requests handed out with the epoch they carry, the ones dropped. *)
Definition ClaimBalanceRereads (limit : nat) (skip : gset balanceKey) (s : tables)
    : tables * list (balanceKey * Z) * list balanceKey :=
  let rs := drop_spent (rereads s) in
  let keys := handed limit skip rs in
  (set_rereads (count_attempts keys rs) s,
   (λ k, (k, Z.max (default 0 (r_epoch <$> rs !! k)) (reorg_epoch s))) <$> keys,
   (filter (λ x, spent x.2 = true) (map_to_list (rereads s))).*1).

(** ** A pass *)

(** A read of a claimed balance at the head, when it answered with a word. *)
Definition reread_row (head : Z) (read : balanceKey → option gostring) (c : balanceKey * Z) : option Balance :=
  match read c.1 with
  | Some data => if (32 <=? length data)%nat then Some (mkBalance c.1.2 c.1.1 head (be_Z data) c.2) else None
  | None => None
  end.
(** With the pool, the work it queues. *)
Definition reread_work (head : Z) (c : balanceKey * Z) : BalanceWork := mkWork (HexToAddress c.1.2) (HexToAddress c.1.1) head c.2.

(** [head]: the stored head, [None] if it could not be read. *)
Definition rereadBalances (pool : bool) (skip : gset balanceKey) (head : option Z) (read : balanceKey → option gostring) (s : tables)
    : tables * list BalanceWork :=
  let '(s, claimed, _) := ClaimBalanceRereads 1000 skip s in
  match claimed, head with
  | [], _ | _, None => (s, [])
  | _, Some head =>
      if pool then (s, reread_work head <$> claimed) else (InsertBalancesBatch (omap (reread_row head read) claimed) s, [])
  end.

(** ** Requests and what closes them *)

Lemma lookup_drop_spent rs k : drop_spent rs !! k = (λ r, if spent r then mkReread (r_epoch r) false (r_attempts r) else r) <$> rs !! k.
Proof. unfold drop_spent. rewrite map_lookup_imap. by destruct (rs !! k). Qed.
Lemma lookup_count_attempts keys rs k : count_attempts keys rs !! k =
  (λ r, if decide (k ∈ keys) then mkReread (r_epoch r) (r_open r) (r_attempts r + 1) else r) <$> rs !! k.
Proof. unfold count_attempts. rewrite map_lookup_imap. by destruct (rs !! k). Qed.

Lemma lookup_closeRereads keys rs k : closeRereads keys rs !! k =
  if decide (k ∈ keys) then (λ r, mkReread (r_epoch r) false (r_attempts r)) <$> rs !! k else rs !! k.
Proof.
  revert rs. induction keys as [|x keys IH]; intros rs; [done|].
  change (closeRereads (x :: keys) rs) with (closeRereads keys (match rs !! x with Some r => <[x := mkReread (r_epoch r) false (r_attempts r)]> rs | None => rs end)).
  rewrite IH. destruct (decide (k = x)) as [->|Hne].
  - rewrite (decide_True (P := x ∈ x :: keys)) by (by left). destruct (rs !! x) as [r|] eqn:E; [|rewrite E; by case_decide].
    rewrite lookup_insert_eq. by case_decide.
  - assert (match rs !! x with Some r => <[x := mkReread (r_epoch r) false (r_attempts r)]> rs | None => rs end !! k = rs !! k) as ->
      by (destruct (rs !! x); [by rewrite lookup_insert_ne|done]).
    repeat case_decide; set_solver.
Qed.
Lemma lookup_reopenRereads keys e rs k : k ∉ keys → reopenRereads keys e rs !! k = rs !! k.
Proof.
  unfold reopenRereads. revert rs. induction keys as [|x keys IH]; intros rs Hk; [done|]. cbn [foldl]. rewrite IH by set_solver.
  apply lookup_insert_ne. set_solver.
Qed.
Lemma lookup_recordBalanceRereads keys e rs k :
  recordBalanceRereads keys e rs !! k = if decide (k ∈ keys) then Some (mkReread e true 0) else rs !! k.
Proof.
  unfold recordBalanceRereads. revert rs. induction keys as [|x keys IH]; intros rs; [done|]. cbn [foldl]. rewrite IH.
  destruct (decide (k = x)) as [->|Hne].
  - rewrite lookup_insert_eq. repeat case_decide; set_solver.
  - rewrite lookup_insert_ne by done. repeat case_decide; set_solver.
Qed.

(** A flush closes only requests one of its rows answers. *)
Lemma sift_answered latest rs l k : k ∈ answered (sift latest rs l) →
  ∃ b r, b ∈ kept (sift latest rs l) ∧ key_of b = k ∧ rs !! k = Some r ∧ r_epoch r ≤ Epoch b.
Proof.
  rewrite sift_kept. unfold sift.
  enough (∀ s, k ∈ answered (foldl (sift_one latest rs) s l) → k ∈ answered s ∨
    ∃ b r, b ∈ filter (keeps latest rs) l ∧ key_of b = k ∧ rs !! k = Some r ∧ r_epoch r ≤ Epoch b) as Hg.
  { intros Hk. destruct (Hg _ Hk) as [Hn|?]; [by apply not_elem_of_nil in Hn|done]. }
  induction l as [|b l IH]; intros s Hk; [by left|]. cbn [foldl] in Hk. apply IH in Hk as [Hk|(b' & r & Hb & ?)].
  - unfold sift_one in Hk. destruct (Z.ltb_spec (Epoch b) latest) as [|Hle]; [by left|].
    destruct (rs !! key_of b) as [e|] eqn:E; [|by left]. destruct (Z.leb_spec (r_epoch e) (Epoch b)) as [He|]; [|by left].
    destruct (r_open e); [|by left]. cbn [answered] in Hk. apply elem_of_add_once in Hk as [->|Hk]; [|by left].
    right. exists b, e. split_and!; [|done|done|done]. apply list_elem_of_filter. split; [|by left]. unfold keeps. rewrite E. lia.
  - right. exists b', r. split; [|done]. rewrite filter_cons. case_decide; [by right|done].
Qed.

Lemma phase0_answered wh l s k : k ∈ answered (phase0 wh l s) →
  ∃ b r, b ∈ kept (phase0 wh l s) ∧ key_of b = k ∧ rereads s !! k = Some r ∧ r_epoch r ≤ Epoch b.
Proof.
  unfold phase0. case_match; [intros Hk; by apply not_elem_of_nil in Hk|]. apply sift_answered.
Qed.

Lemma reopen_mono keys e rs k r1 : rs !! k = Some r1 → ∃ r, reopenRereads keys e rs !! k = Some r ∧ r_epoch r1 ≤ r_epoch r.
Proof.
  unfold reopenRereads. revert rs r1. induction keys as [|x keys IH]; intros rs r1 Hr; cbn [foldl]; [by exists r1|].
  destruct (decide (x = k)) as [->|Hne].
  - destruct (IH (<[k := mkReread (match rs !! k with Some r => Z.max (r_epoch r) e | None => e end) true 0]> rs)
      (mkReread (Z.max (r_epoch r1) e) true 0)) as (r & Er & Hle); [by rewrite Hr, lookup_insert_eq|].
    exists r. split; [exact Er|]. cbn in Hle. lia.
  - apply IH. by rewrite lookup_insert_ne.
Qed.

(** What a flush makes of a request: late reads open it, an answer closes it. *)
Inductive flush_effect (wh : bool) (l : list Balance) (s : tables) (k : balanceKey) : Prop :=
| flush_same : k ∉ late (phase0 wh l s) → rereads (insertBalances wh l s) !! k = rereads s !! k → flush_effect wh l s k
| flush_open r : k ∈ late (phase0 wh l s) → rereads (insertBalances wh l s) !! k = Some r → r_open r = true → r_attempts r = 0 →
    (∀ r0, rereads s !! k = Some r0 → r_epoch r0 ≤ r_epoch r) → flush_effect wh l s k
| flush_close b r : k ∉ late (phase0 wh l s) → rereads s !! k = Some r →
    rereads (insertBalances wh l s) !! k = Some (mkReread (r_epoch r) false (r_attempts r)) →
    b ∈ kept (phase0 wh l s) → key_of b = k → r_epoch r ≤ Epoch b → flush_effect wh l s k.

Lemma reopen_fresh keys e rs k r : k ∈ keys → reopenRereads keys e rs !! k = Some r → r_attempts r = 0.
Proof.
  unfold reopenRereads. revert rs. induction keys as [|x keys IH] using rev_ind; intros rs Hk; [by apply not_elem_of_nil in Hk|].
  rewrite foldl_app. cbn [foldl]. destruct (decide (x = k)) as [->|Hne]; [rewrite lookup_insert_eq; by intros [= <-]|].
  rewrite lookup_insert_ne by done. apply IH. set_solver.
Qed.
Lemma phase0_nil wh s : late (phase0 wh [] s) = [].
Proof. unfold phase0. by case_match. Qed.

Lemma flush_rereads wh l s : l ≠ [] → rereads (insertBalances wh l s) =
  reopenRereads (late (phase0 wh l s)) (latest_epoch wh s)
    (if bool_decide (kept (phase0 wh l s) = []) then rereads s else closeRereads (answered (phase0 wh l s)) (rereads s)).
Proof.
  intros Hl. unfold insertBalances. rewrite bool_decide_eq_false_2 by done. case_bool_decide; [done|]. by destruct (foldl (upsert _) _ _).
Qed.

Lemma flush_reread wh l s k : flush_effect wh l s k.
Proof.
  destruct (decide (l = [])) as [->|Hl]; [apply flush_same; [rewrite phase0_nil; apply not_elem_of_nil|done]|]. pose proof (flush_rereads wh l s Hl) as E.
  set (rs := if bool_decide _ then _ else _) in E.
  assert (∀ r0, rereads s !! k = Some r0 → ∃ r, rs !! k = Some r ∧ r_epoch r = r_epoch r0) as Hrs.
  { intros r0 Hr0. subst rs. case_bool_decide; [by exists r0|]. rewrite lookup_closeRereads, Hr0. case_decide; cbn; by eexists. }
  destruct (decide (k ∈ late (phase0 wh l s))) as [Hk|Hk].
  - destruct (reopen_spec (late (phase0 wh l s)) (latest_epoch wh s) rs k Hk) as (r & Er & Ho & _). pose proof (reopen_fresh _ _ _ _ r Hk Er) as Hf. rewrite <-E in Er.
    apply (flush_open _ _ _ _ r); [done..|]. intros r0 Hr0. destruct (Hrs r0 Hr0) as (r1 & Hr1 & <-).
    destruct (reopen_mono (late (phase0 wh l s)) (latest_epoch wh s) rs k r1 Hr1) as (r' & Er' & Hle). rewrite <-E in Er'. congruence.
  - assert (rereads (insertBalances wh l s) !! k = rs !! k) as Ek by (rewrite E; by apply lookup_reopenRereads). subst rs.
    revert Ek. case_bool_decide; intros Ek; [by apply flush_same|]. rewrite lookup_closeRereads in Ek. case_decide as Ha; [|by apply flush_same].
    apply phase0_answered in Ha as (b & r & Hb & Hkey & Hr & Hep). rewrite Hr in Ek. by apply (flush_close _ _ _ _ b r).
Qed.

(** ** Runs *)

Inductive reread_op :=
| RFlush (with_history : bool) (l : list Balance)
| RRevert (number : Z) (transfer_holders : list balanceKey)
| RClaim (limit : nat) (skip : gset balanceKey).

(** What happens to requests, in order: a revert asks for a balance again, a flush finds a
    read that is too old and asks for it again, a flush writes a read (each with its
    epoch), a claim hands a request out or gives it up. *)
Inductive reread_event :=
| Reverted (k : balanceKey) (e : Z) | Late (k : balanceKey) (e : Z) | Written (k : balanceKey) (e : Z)
| Handed (k : balanceKey) | Dropped (k : balanceKey).
#[export] Instance reread_event_eq_dec : EqDecision reread_event.
Proof. solve_decision. Defined.
Record reread_run := mkRun { rr_tables : tables; rr_log : list reread_event }.

Definition late_event (s : tables) (k : balanceKey) : reread_event := Late k (default 0 (r_epoch <$> rereads s !! k)).
Definition reread_step (x : reread_run) (o : reread_op) : reread_run :=
  let s := rr_tables x in
  match o with
  | RFlush wh l =>
      let s' := insertBalances wh l s in
      mkRun s' (rr_log x ++ ((λ b, Written (key_of b) (Epoch b)) <$> kept (phase0 wh l s)) ++ (late_event s' <$> late (phase0 wh l s)))
  | RRevert n hs => mkRun (revertBalances n hs s) (rr_log x ++ ((λ k, Reverted k (reorg_epoch s + 1)) <$> block_rows (history s) n ++ hs))
  | RClaim limit skip => let '(s', claimed, dropped) := ClaimBalanceRereads limit skip s in mkRun s' (rr_log x ++ (Dropped <$> dropped) ++ (Handed <$> claimed.*1))
  end.

(** What happened to a request since it was last opened. *)
Definition opens (k : balanceKey) (e : Z) (ev : reread_event) : Prop := ev = Reverted k e ∨ ev = Late k e.
Definition not_opened (k : balanceKey) (l : list reread_event) : Prop := ∀ e, Reverted k e ∉ l ∧ Late k e ∉ l.
Definition handouts (k : balanceKey) (l : list reread_event) : Z := zlen (filter (λ ev, ev = Handed k) l).
Definition opened_at (k : balanceKey) (e : Z) (log since : list reread_event) : Prop :=
  ∃ before ev, log = before ++ ev :: since ∧ opens k e ev ∧ not_opened k since.

(** A request: as many attempts as it was handed out since it was opened, never more than
    the limit; closed only by a read written since, or at the limit. *)
Definition request_ok (k : balanceKey) (log : list reread_event) (r : reread) : Prop :=
  ∃ since, opened_at k (r_epoch r) log since ∧ r_attempts r = handouts k since ∧ r_attempts r ≤ MaxBalanceRereadAttempts ∧
    (r_open r = true ∨ (∃ e, Written k e ∈ since ∧ r_epoch r ≤ e) ∨ (Dropped k ∈ since ∧ handouts k since = MaxBalanceRereadAttempts)).

Lemma handouts_app k l1 l2 : handouts k (l1 ++ l2) = handouts k l1 + handouts k l2.
Proof. unfold handouts. by rewrite filter_app, zlen_app. Qed.
Lemma handouts_none k l : Handed k ∉ l → handouts k l = 0.
Proof. intros Hn. unfold handouts. rewrite filter_none; [done|]. by intros ev Hin ->. Qed.
Lemma not_opened_app k l1 l2 : not_opened k l1 → not_opened k l2 → not_opened k (l1 ++ l2).
Proof. intros H1 H2 e. specialize (H1 e). specialize (H2 e). rewrite !elem_of_app. naive_solver. Qed.
Lemma opened_later k e log since l : opened_at k e log since → not_opened k l → opened_at k e (log ++ l) (since ++ l).
Proof. intros (before & ev & -> & Ho & Hn) Hl. exists before, ev. split; [by rewrite <-app_assoc|]. split; [done|]. by apply not_opened_app. Qed.
Lemma request_keep k log l r : request_ok k log r → not_opened k l → Handed k ∉ l → request_ok k (log ++ l) r.
Proof.
  intros (since & Hop & Ha & Hm & Hc) Hl Hh. exists (since ++ l). split; [by apply opened_later|]. rewrite handouts_app, (handouts_none k l Hh), Z.add_0_r.
  split; [done|]. split; [done|]. destruct Hc as [?|[(e & He & ?)|[Hd ?]]]; [by left|right; left; exists e; rewrite elem_of_app; auto|right; right; rewrite elem_of_app; auto].
Qed.
(** A request opened by one of a list of events, one of its kind per key. *)
Lemma request_opened (f : balanceKey → reread_event) k e log l keys : opens k e (f k) → (∀ k' e', k' ≠ k → ¬ opens k e' (f k')) → (∀ k', f k' ≠ Handed k) →
  k ∈ keys → request_ok k (log ++ l ++ (f <$> keys)) (mkReread e true 0).
Proof.
  intros Hf Hother Hh Hk. apply list_elem_of_split_r in Hk as (k1 & k2 & -> & Hk2). exists (f <$> k2). cbn [r_epoch r_attempts r_open].
  assert (∀ ev, ev ∈ f <$> k2 → ∃ k', ev = f k' ∧ k' ≠ k) as Hin.
  { intros ev (k' & -> & Hk')%list_elem_of_fmap. exists k'. split; [done|]. by intros ->. }
  split_and!; [|rewrite handouts_none; [done|]; intros (k' & E & _)%Hin; by apply (Hh k')|by apply Z.leb_le|by left].
  exists (log ++ l ++ (f <$> k1)), (f k). split; [by rewrite fmap_app, fmap_cons, <-!app_assoc|]. split; [done|].
  intros e'. split; intros (k' & E & Hne)%Hin; apply (Hother k' e' Hne); unfold opens; rewrite <-E; auto.
Qed.

Record requests_ok (x : reread_run) : Prop := {
  ro_request : ∀ k r, rereads (rr_tables x) !! k = Some r → request_ok k (rr_log x) r;
  ro_reverted : ∀ k e, Reverted k e ∈ rr_log x → ∃ r, rereads (rr_tables x) !! k = Some r ∧ e ≤ r_epoch r;
  ro_epochs : ∀ k e, Reverted k e ∈ rr_log x → e ≤ reorg_epoch (rr_tables x) }.

Lemma flush_epoch wh l s : reorg_epoch (insertBalances wh l s) = reorg_epoch s.
Proof. unfold insertBalances. case_bool_decide; [done|]. case_bool_decide; [done|]. by destruct (foldl (upsert _) _ _). Qed.

Lemma step_flush_ok wh l x : requests_ok x → requests_ok (reread_step x (RFlush wh l)).
Proof.
  intros [R1 R2 R3]. cbn [reread_step]. set (s := rr_tables x) in *. set (s' := insertBalances wh l s).
  set (new := _ ++ (late_event s' <$> late (phase0 wh l s))).
  assert (∀ k e, Reverted k e ∉ new) as Hrev by (intros k e [(? & [=] & _)%list_elem_of_fmap|(? & [=] & _)%list_elem_of_fmap]%elem_of_app).
  assert (∀ k, Handed k ∉ new) as Hhand by (intros k [(? & [=] & _)%list_elem_of_fmap|(? & [=] & _)%list_elem_of_fmap]%elem_of_app).
  assert (∀ k, k ∉ late (phase0 wh l s) → not_opened k new) as Hno.
  { intros k Hk e. split; [done|]. intros [(? & [=] & _)%list_elem_of_fmap|(k' & [= <- _] & ?)%list_elem_of_fmap]%elem_of_app. done. }
  assert (∀ k e, Reverted k e ∈ rr_log x ++ new → Reverted k e ∈ rr_log x) as Hold by (intros k e [?|Hn]%elem_of_app; [done|by apply Hrev in Hn]).
  split; cbn [rr_tables rr_log]; fold s'.
  - intros k r Hr. destruct (flush_reread wh l s k) as [Hk E|r' Hk E Ho Ha _|b r' Hk Hr' E Hb Hkey Hle]; fold s' in E; rewrite E in Hr.
    + apply request_keep; [by apply R1|by apply Hno|done].
    + injection Hr as ->. assert (r = mkReread (r_epoch r) true 0) as -> by (destruct r; cbn in *; by subst).
      apply request_opened; [right; unfold late_event; by rewrite E|intros k' e' Hne [[=]|[= <- _]]; done|done|done].
    + injection Hr as <-. destruct (R1 k r' Hr') as (since & Hop & Hatt & Hm & _). exists (since ++ new). cbn.
      rewrite handouts_app, (handouts_none k new (Hhand k)), Z.add_0_r. split_and!; [apply opened_later; [done|by apply Hno]|done|done|].
      right. left. exists (Epoch b). split; [|done]. unfold new. rewrite !elem_of_app. right. left. apply list_elem_of_fmap. exists b. by rewrite Hkey.
  - intros k e He%Hold. destruct (R2 k e He) as (r & Hr & Hle). destruct (flush_reread wh l s k) as [_ E|r' _ E _ _ Hm|b r' _ Hr' E _ _ _]; fold s' in E.
    + exists r. by rewrite E.
    + exists r'. split; [done|]. specialize (Hm r Hr). lia.
    + exists (mkReread (r_epoch r') false (r_attempts r')). split; [done|]. assert (r' = r) as -> by congruence. done.
  - intros k e He%Hold. unfold s'. rewrite flush_epoch. by eapply R3.
Qed.

Lemma step_revert_ok n hs x : requests_ok x → requests_ok (reread_step x (RRevert n hs)).
Proof.
  intros [R1 R2 R3]. cbn [reread_step]. set (keys := block_rows (history (rr_tables x)) n ++ hs). set (e0 := reorg_epoch (rr_tables x) + 1).
  assert (∀ k, rereads (revertBalances n hs (rr_tables x)) !! k =
    if decide (k ∈ keys) then Some (mkReread e0 true 0) else rereads (rr_tables x) !! k) as E.
  { intros k. cbn [revertBalances rereads]. apply lookup_recordBalanceRereads. }
  split; cbn [rr_tables rr_log].
  - intros k r. rewrite E. case_decide as Hk.
    + intros [= <-]. apply (request_opened (λ k, Reverted k e0) k e0 (rr_log x) [] keys); [by left|intros k' e' Hne [[= <- _]|[=]]; done|done|done].
    + intros Hr. apply request_keep; [by apply R1| |by intros (? & [=] & _)%list_elem_of_fmap].
      intros e. split; [|by intros (? & [=] & _)%list_elem_of_fmap]. intros (k' & [= <- _] & ?)%list_elem_of_fmap. done.
  - intros k e [He|He]%elem_of_app.
    + destruct (R2 k e He) as (r & Hr & Hle). rewrite E. case_decide; [|by exists r]. eexists. split; [done|]. cbn. specialize (R3 k e He). unfold e0. lia.
    + apply list_elem_of_fmap in He as (k' & [= -> ->] & Hk). rewrite E, decide_True by done. eexists. split; [done|]. cbn. lia.
  - intros k e [He|He]%elem_of_app; cbn [revertBalances reorg_epoch]; [specialize (R3 k e He); lia|].
    apply list_elem_of_fmap in He as (k' & [= -> ->] & _). unfold e0. lia.
Qed.

Lemma claim_lookup limit skip s k : rereads (ClaimBalanceRereads limit skip s).1.1 !! k =
  (λ r, let r := if spent r then mkReread (r_epoch r) false (r_attempts r) else r in
        if decide (k ∈ handed limit skip (drop_spent (rereads s))) then mkReread (r_epoch r) (r_open r) (r_attempts r + 1) else r) <$> rereads s !! k.
Proof. cbn [ClaimBalanceRereads fst set_rereads rereads]. rewrite lookup_count_attempts, lookup_drop_spent. by destruct (rereads s !! k). Qed.
Lemma elem_of_handed limit skip rs k : k ∈ handed limit skip rs → ∃ r, rs !! k = Some r ∧ r_open r = true.
Proof.
  intros Hk. unfold handed in Hk. assert (k ∈ (merge_sort by_epoch (filter (λ x, r_open x.2 = true ∧ x.1 ∉ skip) (map_to_list rs))).*1) as Hi by (rewrite <-(take_drop limit); apply elem_of_app; by left). apply list_elem_of_fmap in Hi as ([k' r] & -> & Hi).
  rewrite merge_sort_Permutation in Hi. apply list_elem_of_filter in Hi as [[Ho _] Hi]. apply elem_of_map_to_list in Hi. by exists r.
Qed.
Lemma handed_nodup limit skip rs : NoDup (handed limit skip rs).
Proof.
  unfold handed. eapply sublist_NoDup; [|apply sublist_take]. rewrite merge_sort_Permutation.
  eapply sublist_NoDup; [apply (NoDup_fst_map_to_list rs)|]. by apply fmap_sublist, sublist_filter.
Qed.
Lemma handouts_handed k keys : NoDup keys → handouts k (Handed <$> keys) = if decide (k ∈ keys) then 1 else 0.
Proof.
  induction 1 as [|x keys Hx _ IH]; [done|]. unfold handouts in *. rewrite fmap_cons, filter_cons.
  destruct (decide (x = k)) as [->|Hne].
  - rewrite decide_True by done. rewrite zlen_cons, IH. repeat case_decide; set_solver.
  - rewrite decide_False by congruence. rewrite IH. repeat case_decide; set_solver.
Qed.
Lemma spent_open r : spent r = false → r_open r = true → r_attempts r < MaxBalanceRereadAttempts.
Proof. unfold spent. intros Hs Ho. rewrite Ho in Hs. cbn in Hs. by apply Z.leb_gt in Hs. Qed.

(** A claim: one attempt for each request it hands out, none left for those it closes. *)
Lemma request_claimed limit skip s log k r0 : rereads s !! k = Some r0 → request_ok k log r0 →
  let keys := handed limit skip (drop_spent (rereads s)) in
  let r := if spent r0 then mkReread (r_epoch r0) false (r_attempts r0) else r0 in
  request_ok k (log ++ (Dropped <$> (filter (λ x, spent x.2 = true) (map_to_list (rereads s))).*1) ++ (Handed <$> keys))
    (if decide (k ∈ keys) then mkReread (r_epoch r) (r_open r) (r_attempts r + 1) else r).
Proof.
  intros E0 (since & Hop & Ha & Hm & Hc) keys r. set (dropped := (filter _ _).*1). set (new := (Dropped <$> dropped) ++ (Handed <$> keys)).
  assert (not_opened k new) as Hno by (intros e; split; intros [(? & [=] & _)%list_elem_of_fmap|(? & [=] & _)%list_elem_of_fmap]%elem_of_app).
  assert (handouts k new = if decide (k ∈ keys) then 1 else 0) as Hn.
  { unfold new. rewrite handouts_app, (handouts_none k (Dropped <$> dropped)), Z.add_0_l by (by intros (? & [=] & _)%list_elem_of_fmap). apply handouts_handed, handed_nodup. }
  assert (k ∈ keys → spent r0 = false ∧ r_open r0 = true) as Hk.
  { intros Hk. destruct (elem_of_handed _ _ _ _ Hk) as (r1 & Hr1 & Ho). rewrite lookup_drop_spent, E0 in Hr1. cbn in Hr1. destruct (spent r0); by simplify_eq. }
  exists (since ++ new). rewrite handouts_app, Hn, <-Ha. case_decide as Hin; unfold r.
  - destruct (Hk Hin) as [Hs Ho]. rewrite Hs. pose proof (spent_open r0 Hs Ho). cbn. split_and!; [by apply opened_later|lia|lia|by left].
  - rewrite Z.add_0_r. destruct (spent r0) eqn:Es; cbn; (split_and!; [by apply opened_later|done|done|]).
    + right. right. unfold spent in Es. apply andb_true_iff in Es as [Ho Hle%Z.leb_le]. split; [|lia]. unfold new. rewrite !elem_of_app. right. left. apply list_elem_of_fmap_2, list_elem_of_fmap. exists (k, r0).
      split; [done|]. apply list_elem_of_filter. cbn. split; [unfold spent; rewrite Ho; by apply Z.leb_le|by apply elem_of_map_to_list].
    + destruct Hc as [?|[(e & He & ?)|[Hd ?]]]; [by left|right; left; exists e; rewrite elem_of_app; auto|right; right; rewrite elem_of_app; split; [auto|lia]].
Qed.

Lemma fst_claimed (f : balanceKey → Z) (keys : list balanceKey) : ((λ k, (k, f k)) <$> keys).*1 = keys.
Proof. induction keys as [|k keys IH]; [done|]. cbn. by f_equal. Qed.
Lemma step_claim_ok limit skip x : requests_ok x → requests_ok (reread_step x (RClaim limit skip)).
Proof.
  intros [R1 R2 R3]. cbn [reread_step]. pose proof (claim_lookup limit skip (rr_tables x)) as Hlook. unfold ClaimBalanceRereads in *. cbn [fst] in Hlook.
  set (keys := handed limit skip (drop_spent (rereads (rr_tables x)))) in *. rewrite fst_claimed.
  assert (∀ l k e, Reverted k e ∈ rr_log x ++ (Dropped <$> l) ++ (Handed <$> keys) → Reverted k e ∈ rr_log x) as Hold.
  { intros l k e. rewrite !elem_of_app. intros [?|[(? & [=] & _)%list_elem_of_fmap|(? & [=] & _)%list_elem_of_fmap]]; done. }
  split; cbn [rr_tables rr_log set_rereads rereads reorg_epoch].
  - intros k r. cbn [set_rereads rereads] in Hlook. rewrite Hlook. destruct (rereads (rr_tables x) !! k) as [r0|] eqn:E0; [|done]. intros [= <-].
    apply (request_claimed limit skip (rr_tables x) (rr_log x) k r0 E0). by apply R1.
  - intros k e He%Hold. destruct (R2 k e He) as (r & Hr & Hle). cbn [set_rereads rereads] in Hlook. rewrite Hlook, Hr. cbn. eexists. split; [done|]. repeat case_match; done.
  - intros k e He%Hold. by eapply R3.
Qed.

Lemma run_requests_ok ops x : requests_ok x → requests_ok (foldl reread_step x ops).
Proof.
  revert x. induction ops as [|[wh l|n hs|limit skip] ops IH]; intros x Hx; cbn [foldl]; [done|..]; apply IH;
    [by apply step_flush_ok|by apply step_revert_ok|by apply step_claim_ok].
Qed.

(** ** Claims come round *)

(** What is left to hand out of a request, one more for its drop. *)
Definition left_of (r : reread) : nat := if r_open r then S (Z.to_nat (MaxBalanceRereadAttempts - r_attempts r)) else 0.
Definition left_in (rs : gmap balanceKey reread) : nat := sum_list_with (λ x, left_of x.2) (map_to_list rs).

Lemma left_in_insert rs k r : rs !! k = None → left_in (<[k := r]> rs) = (left_of r + left_in rs)%nat.
Proof. intros Hk. unfold left_in. rewrite map_to_list_insert by done. done. Qed.

(** A change of every request that leaves no more to do, and less of one. *)
Lemma left_in_imap (f : balanceKey → reread → reread) (rs : gmap balanceKey reread) : (∀ k r, rs !! k = Some r → left_of (f k r) ≤ left_of r)%nat →
  (left_in (map_imap (λ k r, Some (f k r)) rs) ≤ left_in rs)%nat ∧
  ((∃ k r, rs !! k = Some r ∧ (left_of (f k r) < left_of r)%nat) → (left_in (map_imap (λ k r, Some (f k r)) rs) < left_in rs)%nat).
Proof.
  induction rs as [|k r rs Hk IH] using map_ind; intros Hf.
  { split; [done|]. intros (k & r & Hr & _). by rewrite lookup_empty in Hr. }
  rewrite (map_imap_insert_Some _ k r rs (f k r)) by done. rewrite !left_in_insert; [|done|rewrite map_lookup_imap, Hk; done].
  destruct IH as [I1 I2].
  { intros k' r' Hr'. apply Hf. rewrite lookup_insert_ne; [done|]. intros ->. congruence. }
  pose proof (Hf k r (lookup_insert_eq _ _ _)) as H0. split; [lia|]. intros (k' & r' & Hr' & Hlt).
  destruct (decide (k = k')) as [->|Hne].
  - rewrite lookup_insert_eq in Hr'. simplify_eq. lia.
  - rewrite lookup_insert_ne in Hr' by done. assert (left_in (map_imap (λ k r, Some (f k r)) rs) < left_in rs)%nat; [|lia]. apply I2. by exists k', r'.
Qed.

Definition claim_one (limit : nat) (rs : gmap balanceKey reread) : gmap balanceKey reread :=
  count_attempts (handed limit ∅ (drop_spent rs)) (drop_spent rs).

Lemma handed_some limit rs k r : (0 < limit)%nat → rs !! k = Some r → r_open r = true → handed limit ∅ rs ≠ [].
Proof.
  intros Hl Hr Ho E. unfold handed in E. apply (f_equal length) in E. rewrite length_take, length_fmap in E. cbn [length] in E.
  match type of E with context [merge_sort by_epoch ?l] => assert ((k, r) ∈ merge_sort by_epoch l) as Hin end.
  { rewrite merge_sort_Permutation. apply list_elem_of_filter. split; [set_solver|]. by apply elem_of_map_to_list. }
  destruct (merge_sort by_epoch _); [by apply not_elem_of_nil in Hin|cbn in E; lia].
Qed.

Lemma left_claim limit rs : (0 < limit)%nat → (∃ k r, rs !! k = Some r ∧ r_open r = true) → (left_in (claim_one limit rs) < left_in rs)%nat.
Proof.
  intros Hl (k & r & Hr & Ho). set (keys := handed limit ∅ (drop_spent rs)).
  set (f := λ (k : balanceKey) (r : reread), let r := if spent r then mkReread (r_epoch r) false (r_attempts r) else r in
        if decide (k ∈ keys) then mkReread (r_epoch r) (r_open r) (r_attempts r + 1) else r).
  assert (claim_one limit rs = map_imap (λ k r, Some (f k r)) rs) as ->.
  { apply map_eq. intros k'. unfold claim_one. rewrite lookup_count_attempts, lookup_drop_spent, map_lookup_imap. by destruct (rs !! k'). }
  assert (∀ k' r', rs !! k' = Some r' → k' ∈ keys → spent r' = false ∧ r_open r' = true) as Hkeys.
  { intros k' r' Hr' Hk'. destruct (elem_of_handed _ _ _ _ Hk') as (r1 & Hr1 & Ho1). rewrite lookup_drop_spent, Hr' in Hr1.
    cbn in Hr1. destruct (spent r') eqn:Es; [by simplify_eq|]. by simplify_eq. }
  pose proof spent_open as Hatt.
  apply left_in_imap.
  - intros k' r' Hr'. unfold f. case_decide as Hk'.
    + destruct (Hkeys k' r' Hr' Hk') as [Hs Ho']. rewrite Hs. unfold left_of. cbn. rewrite Ho'. specialize (Hatt r' Hs Ho'). lia.
    + destruct (spent r'); unfold left_of; cbn; lia.
  - destruct (spent r) eqn:Es.
    + exists k, r. split; [done|]. unfold f. rewrite Es. unfold left_of. cbn. rewrite Ho. case_decide; cbn; lia.
    + destruct keys as [|k1 ks] eqn:Ek.
      { exfalso. apply (handed_some limit (drop_spent rs) k r Hl); [rewrite lookup_drop_spent, Hr; cbn; by rewrite Es|done|done]. }
      assert (k1 ∈ keys) as Hk1 by (rewrite Ek; left). destruct (elem_of_handed limit ∅ (drop_spent rs) k1 Hk1) as (r1 & Hr1 & Ho1).
      rewrite lookup_drop_spent in Hr1. destruct (rs !! k1) as [r2|] eqn:E2; [|done]. exists k1, r2. split; [done|]. unfold f.
      rewrite decide_True by (by left). cbn in Hr1. destruct (spent r2) eqn:Es2; [by simplify_eq|]. simplify_eq.
      specialize (Hatt r1 Es2 Ho1). unfold left_of. cbn. rewrite Ho1. lia.
Qed.

(** [n] passes, and the requests they handed out. *)
Fixpoint claims (n limit : nat) (s : tables) : tables * list (balanceKey * Z) :=
  match n with
  | O => (s, [])
  | S n => let '(s, claimed, _) := ClaimBalanceRereads limit ∅ s in let '(s, rest) := claims n limit s in (s, claimed ++ rest)
  end.
Definition times (k : balanceKey) (l : list (balanceKey * Z)) : Z := zlen (filter (λ x, x.1 = k) l).

Lemma times_app k l1 l2 : times k (l1 ++ l2) = times k l1 + times k l2.
Proof. unfold times, zlen. rewrite filter_app, length_app. lia. Qed.
Lemma times_claimed (k : balanceKey) (f : balanceKey → Z) (keys : list balanceKey) : NoDup keys →
  times k ((λ k, (k, f k)) <$> keys) = if decide (k ∈ keys) then 1 else 0.
Proof.
  induction 1 as [|x keys Hx _ IH]; [done|]. unfold times in *. rewrite fmap_cons, filter_cons. cbn [fst].
  destruct (decide (x = k)) as [E|E]; rewrite ?zlen_cons, IH; repeat case_decide; set_solver.
Qed.

Lemma claim_request limit s k r : rereads s !! k = Some r →
  let '(s', claimed, _) := ClaimBalanceRereads limit ∅ s in
  rereads s' = claim_one limit (rereads s) ∧ reorg_epoch s' = reorg_epoch s ∧
  ((r_open r = false ∧ rereads s' !! k = Some r ∧ times k claimed = 0) ∨
   (spent r = true ∧ rereads s' !! k = Some (mkReread (r_epoch r) false (r_attempts r)) ∧ times k claimed = 0) ∨
   (r_open r = true ∧ spent r = false ∧ rereads s' !! k = Some (mkReread (r_epoch r) true (r_attempts r + 1)) ∧ times k claimed = 1) ∨
   (r_open r = true ∧ spent r = false ∧ rereads s' !! k = Some r ∧ times k claimed = 0)).
Proof.
  intros Hr. pose proof (claim_lookup limit ∅ s k) as E. unfold ClaimBalanceRereads in *. cbn [fst] in E. split_and!; [done|done|].
  set (keys := handed limit ∅ (drop_spent (rereads s))) in *. rewrite E, Hr. cbn. rewrite times_claimed by apply handed_nodup.
  assert (k ∈ keys → r_open r = true ∧ spent r = false) as Hk.
  { intros Hk. destruct (elem_of_handed _ _ _ _ Hk) as (r1 & Hr1 & Ho). rewrite lookup_drop_spent, Hr in Hr1. cbn in Hr1.
    destruct (spent r); by simplify_eq. }
  destruct (decide (k ∈ keys)) as [Hin|Hin].
  - destruct (Hk Hin) as [Ho Hs]. rewrite Hs, Ho. by right; right; left.
  - destruct (spent r) eqn:Es; [by right; left|]. destruct (r_open r) eqn:Eo; [by right; right; right|by left].
Qed.

Lemma claims_closed n limit s k r : rereads s !! k = Some r → r_open r = false →
  rereads (claims n limit s).1 !! k = Some r ∧ times k (claims n limit s).2 = 0.
Proof.
  revert s. induction n as [|n IH]; intros s Hr Ho; [done|]. cbn [claims]. pose proof (claim_request limit s k r Hr) as Hc.
  destruct (ClaimBalanceRereads limit ∅ s) as [[s1 claimed] dropped]. destruct Hc as (_ & _ & Hc).
  assert (spent r = false) as Es by (unfold spent; by rewrite Ho). assert (rereads s1 !! k = Some r ∧ times k claimed = 0) as [Hr1 Ht].
  { destruct Hc as [(_ & ? & ?)|[(? & _)|[(? & _)|(? & _)]]]; [done|congruence..]. }
  destruct (IH s1 Hr1 Ho) as [I1 I2]. destruct (claims n limit s1) as [s2 rest]. cbn in *. by rewrite times_app, Ht, I2.
Qed.

Lemma claims_request n limit s k r : (0 < limit)%nat → (left_in (rereads s) ≤ n)%nat → rereads s !! k = Some r → r_open r = true →
  r_attempts r ≤ MaxBalanceRereadAttempts →
  (∃ r', rereads (claims n limit s).1 !! k = Some r' ∧ r_open r' = false) ∧
  times k (claims n limit s).2 = MaxBalanceRereadAttempts - r_attempts r.
Proof.
  intros Hl. revert s r. induction n as [|n IH]; intros s r Hleft Hr Ho Ha.
  { pose proof (left_claim limit (rereads s) Hl ltac:(by exists k, r)). lia. }
  cbn [claims]. pose proof (claim_request limit s k r Hr) as Hc. destruct (ClaimBalanceRereads limit ∅ s) as [[s1 claimed] dropped].
  destruct Hc as (E1 & _ & Hc). pose proof (left_claim limit (rereads s) Hl ltac:(by exists k, r)) as Hlt. rewrite <-E1 in Hlt.
  assert (left_in (rereads s1) ≤ n)%nat as Hleft1 by lia.
  destruct Hc as [(? & _)|[(Hs & Hr1 & Ht)|[(_ & Hs & Hr1 & Ht)|(_ & _ & Hr1 & Ht)]]]; [congruence|..].
  - destruct (claims_closed n limit s1 k _ Hr1 eq_refl) as [I1 I2]. destruct (claims n limit s1) as [s2 rest]. cbn in *. rewrite times_app, Ht, I2.
    split; [by eexists|]. unfold spent in Hs. rewrite Ho in Hs. cbn in Hs. apply Z.leb_le in Hs. lia.
  - assert (r_attempts r < MaxBalanceRereadAttempts) as Hlt' by (unfold spent in Hs; rewrite Ho in Hs; cbn in Hs; by apply Z.leb_gt in Hs).
    destruct (IH s1 _ Hleft1 Hr1 eq_refl ltac:(cbn; lia)) as [I1 I2]. destruct (claims n limit s1) as [s2 rest]. cbn in *. rewrite times_app, Ht, I2.
    split; [done|lia].
  - destruct (IH s1 _ Hleft1 Hr1 Ho Ha) as [I1 I2]. destruct (claims n limit s1) as [s2 rest]. cbn in *. rewrite times_app, Ht, I2. split; [done|lia].
Qed.

(** ** What the rereads promise *)

(** C16: no reverted balance is forgotten. Through any sequence of flushes, reverts and
    claims from tables without requests, a balance a revert touched has a request of the
    revert's epoch or a later one. Look at what happened since that request was last opened,
    by a revert or by a flush that dropped a read as too old: its attempts are the times it
    was handed out since, twenty at most; and it is still open, or a read of its epoch or a
    later one was written since, or it was given up since after being handed out exactly
    twenty times. *)
Theorem reverted_balances_reread ops s : rereads s = ∅ →
  let x := foldl reread_step (mkRun s []) ops in
  ∀ k e, Reverted k e ∈ rr_log x →
  ∃ r before ev since, rereads (rr_tables x) !! k = Some r ∧ e ≤ r_epoch r ∧
    rr_log x = before ++ ev :: since ∧ (ev = Reverted k (r_epoch r) ∨ ev = Late k (r_epoch r)) ∧
    (∀ e', Reverted k e' ∉ since ∧ Late k e' ∉ since) ∧
    r_attempts r = handouts k since ∧ r_attempts r ≤ 20 ∧
    (r_open r = true ∨ (∃ e', Written k e' ∈ since ∧ r_epoch r ≤ e') ∨ (Dropped k ∈ since ∧ handouts k since = 20)).
Proof.
  intros Hs x. assert (requests_ok x) as [R1 R2 _].
  { apply run_requests_ok. split; cbn; [intros k r; by rewrite Hs, lookup_empty|by intros ? ? ?%not_elem_of_nil..]. }
  intros k e He. destruct (R2 k e He) as (r & Hr & Hle). destruct (R1 k r Hr) as (since & (before & ev & Hlog & Hev & Hno) & Ha & Hm & Hc).
  exists r, before, ev, since. done.
Qed.

(** every request comes up, however many there are and whatever fails: with no read
    answered, a request that has been tried [a] times is handed out 20 - [a] times more and
    then closed, within as many claims as there are attempts left in the table. *)
Theorem claims_reach_all n limit s k r : (0 < limit)%nat → (left_in (rereads s) ≤ n)%nat → rereads s !! k = Some r → r_open r = true →
  r_attempts r ≤ MaxBalanceRereadAttempts →
  (∃ r', rereads (claims n limit s).1 !! k = Some r' ∧ r_open r' = false) ∧
  times k (claims n limit s).2 = MaxBalanceRereadAttempts - r_attempts r.
Proof. apply claims_request. Qed.

(** A pass without the pool closes the requests whose reads answered: nothing moved the
    epoch between its claim and its write. *)
Lemma closed_by_flush l s b : flush_ok l → b ∈ l → reorg_epoch s ≤ Epoch b → (∀ b', b' ∈ l → reorg_epoch s ≤ Epoch b') →
  (∀ r, rereads s !! key_of b = Some r → r_epoch r ≤ Epoch b) →
  ∀ r, rereads s !! key_of b = Some r → ∃ r', rereads (InsertBalancesBatch l s) !! key_of b = Some r' ∧ r_open r' = false.
Proof.
  intros Hok Hb He Hall Hr r Er. pose proof (flush_ok_epochs l Hok) as Hep. assert (l ≠ []) as Hl by (by intros ->; apply not_elem_of_nil in Hb).
  assert (late (phase0 true l s) = []) as Elate.
  { destruct (late (phase0 true l s)) as [|k ks] eqn:E; [done|]. assert (k ∈ late (phase0 true l s)) as Hk by (rewrite E; left).
    apply phase0_late in Hk as (b' & Hb' & _ & Hlt); [|done]. specialize (Hall b' Hb'). cbn in Hlt. lia. }
  assert (b ∈ kept (phase0 true l s)) as Hkept.
  { apply kept_elem; [done|]. split; [done|]. split; [done|]. rewrite Er. by apply Hr. }
  unfold InsertBalancesBatch. rewrite flush_rereads, Elate by done. cbn [reopenRereads foldl].
  rewrite bool_decide_eq_false_2 by (intros E; rewrite E in Hkept; by apply not_elem_of_nil in Hkept).
  rewrite lookup_closeRereads, Er. case_decide as Ha; [by eexists|]. exists r. split; [done|].
  destruct (r_open r) eqn:Eo; [|done]. exfalso. apply Ha. clear Ha Elate. revert Hkept. unfold phase0.
  case_match eqn:Eq.
  - intros Hkept. apply andb_true_iff in Eq as [Eq _]. apply bool_decide_eq_true in Eq. cbn in Hkept.
    assert (b ∈ filter (λ b, is_Some (rereads s !! key_of b)) (stable_sort l)) as Hf by (apply list_elem_of_filter; split; [by rewrite Er|done]).
    rewrite Eq in Hf. by apply not_elem_of_nil in Hf.
  - intros _. assert (b ∈ stable_sort l) as Hs by (by rewrite stable_sort_perm). unfold sift.
    enough (∀ l sf, b ∈ l ∨ key_of b ∈ answered sf → key_of b ∈ answered (foldl (sift_one (latest_epoch true s) (rereads s)) sf l)) as Hg by (apply Hg; by left).
    clear -He Hr Er Eo. induction l as [|x l IH]; intros sf [Hx|Hx]; cbn [foldl]; [by apply not_elem_of_nil in Hx|done|..]; apply IH.
    + apply elem_of_cons in Hx as [<-|Hx]; [right|by left]. unfold sift_one. cbn [latest_epoch].
      destruct (Z.ltb_spec (Epoch b) (reorg_epoch s)); [lia|]. rewrite Er. destruct (Z.leb_spec (r_epoch r) (Epoch b)); [|specialize (Hr r Er); lia].
      rewrite Eo. apply elem_of_add_once. by left.
    + right. unfold sift_one. repeat case_match; try done. cbn. apply elem_of_add_once. by right.
Qed.

Lemma reread_pass_closes skip head read s : 0 ≤ head < H64 → 0 ≤ reorg_epoch s → (∀ k r, rereads s !! k = Some r → 0 ≤ r_epoch r) →
  (∀ k, is_Some (rereads s !! k) → ToLower k.1 = k.1 ∧ ToLower k.2 = k.2) →
  ∀ k e data, (k, e) ∈ (ClaimBalanceRereads 1000 skip s).1.2 → read k = Some data → (32 ≤ length data)%nat →
  ∃ r, rereads (rereadBalances false skip (Some head) read s).1 !! k = Some r ∧ r_open r = false.
Proof.
  intros Hh He0 Hep Hlow k e data Hk Hread Hlen. unfold rereadBalances.
  pose proof (λ k, claim_lookup 1000 skip s k) as Hlook. destruct (ClaimBalanceRereads 1000 skip s) as [[s1 claimed] dropped] eqn:Ec.
  cbn [fst snd] in *. assert (reorg_epoch s1 = reorg_epoch s) as Ee by (unfold ClaimBalanceRereads in Ec; by simplify_eq).
  assert (∀ x, x ∈ claimed → ∃ r, rereads s1 !! x.1 = Some r ∧ r_epoch r ≤ x.2 ∧ reorg_epoch s ≤ x.2 ∧ is_Some (rereads s !! x.1)) as Hcl.
  { intros [k' e'] Hx. unfold ClaimBalanceRereads in Ec. injection Ec as <- <- <-. apply list_elem_of_fmap in Hx as (k'' & [= -> ->] & Hin).
    destruct (elem_of_handed _ _ _ _ Hin) as (r1 & Hr1 & _). cbn [fst snd]. rewrite (Hlook k''), Hr1.
    rewrite lookup_drop_spent in Hr1. destruct (rereads s !! k'') as [r0|]; [|done]. cbn in *. eexists. split; [done|].
    split_and!; [|lia|by eexists]. injection Hr1 as <-. repeat case_match; cbn; lia. }
  destruct claimed as [|x0 claimed0] eqn:Ecl; [by apply not_elem_of_nil in Hk|]. rewrite <-Ecl in *. clear Ecl x0 claimed0.
  cbn beta iota. cbn [fst]. set (rows := omap (reread_row head read) claimed).
  assert (∀ b, b ∈ rows → ∃ x, x ∈ claimed ∧ b = mkBalance x.1.2 x.1.1 head (Amount b) x.2) as Hrows.
  { intros b Hb. apply list_elem_of_omap in Hb as (x & Hx & Eb). exists x. split; [done|]. unfold reread_row in Eb. repeat case_match; by simplify_eq. }
  assert (∀ x v, x ∈ claimed → key_of (mkBalance x.1.2 x.1.1 head v x.2) = x.1) as Hkey.
  { intros x v Hx. destruct (Hcl x Hx) as (_ & _ & _ & _ & Hs). apply Hlow in Hs as [H1 H2]. destruct x as [[t a] e']. unfold key_of. cbn in *. by rewrite H1, H2. }
  set (b := mkBalance k.2 k.1 head (be_Z data) e).
  assert (key_of b = k) as Ekb by (apply (Hkey (k, e) (be_Z data) Hk)).
  destruct (Hcl (k, e) Hk) as (r & Hr & Hle & He1 & _). cbn [fst snd] in *.
  destruct (closed_by_flush rows s1 b) with (r := r) as (r' & Er' & Ho'); try (by rewrite Ekb).
  - apply Forall_forall. intros b' Hb'. destruct (Hrows b' Hb') as ([k' e'] & Hx & ->).
    destruct (Hcl _ Hx) as (_ & _ & _ & Hge & _). cbn in *. lia.
  - unfold rows. apply list_elem_of_omap. exists (k, e). split; [done|]. unfold reread_row. cbn [fst snd]. rewrite Hread.
    destruct (Nat.leb_spec 32 (length data)); [done|lia].
  - rewrite Ee. done.
  - intros b' Hb'. destruct (Hrows b' Hb') as ([k' e'] & Hx & ->).
    destruct (Hcl _ Hx) as (_ & _ & _ & Hge & _). cbn in *. lia.
  - rewrite Ekb, Hr. intros r1 [= <-]. done.
  - exists r'. rewrite Ekb in Er'. split; [exact Er'|done].
Qed.

(** ** Runs *)

(** A balance read at block 6, its block reverted, the request claimed twice and answered. *)
Definition reread_ops : list reread_op :=
  [RFlush true [read $"0xh1" 5 10 0]; RFlush true [read $"0xh1" 6 3 0]; RRevert 6 [($"0xaa", $"0xh3")]; RClaim 1000 ∅;
   RClaim 1000 ∅; RFlush true [read $"0xh1" 6 8 1]].

Lemma reverted_balances_reread_witness :
  let x := foldl reread_step (mkRun no_tables []) reread_ops in let k := ($"0xaa", $"0xh1") in
  ∃ r before ev since, rereads (rr_tables x) !! k = Some r ∧ 1 ≤ r_epoch r ∧
    rr_log x = before ++ ev :: since ∧ (ev = Reverted k (r_epoch r) ∨ ev = Late k (r_epoch r)) ∧
    (∀ e', Reverted k e' ∉ since ∧ Late k e' ∉ since) ∧
    r_attempts r = handouts k since ∧ r_attempts r ≤ 20 ∧
    (r_open r = true ∨ (∃ e', Written k e' ∈ since ∧ r_epoch r ≤ e') ∨ (Dropped k ∈ since ∧ handouts k since = 20)).
Proof.
  apply (reverted_balances_reread reread_ops no_tables eq_refl ($"0xaa", $"0xh1") 1).
  assert (take 4 (rr_log (foldl reread_step (mkRun no_tables []) reread_ops)) =
    [Written ($"0xaa", $"0xh1") 0; Written ($"0xaa", $"0xh1") 0; Reverted ($"0xaa", $"0xh1") 1; Reverted ($"0xaa", $"0xh3") 1]) as E by (vm_compute; reflexivity).
  rewrite <-(take_drop 4 (rr_log _)), E. apply elem_of_app. left. by right; right; left.
Defined.
(** The other balance of the block, never answered: handed out twenty times, then given up. *)
Example unanswered_given_up : let x := foldl reread_step (mkRun no_tables []) (take 3 reread_ops ++ replicate 21 (RClaim 1000 ∅)) in
  r_open <$> rereads (rr_tables x) !! ($"0xaa", $"0xh3") = Some false ∧ handouts ($"0xaa", $"0xh3") (rr_log x) = 20 ∧
  r_open <$> rereads (rr_tables (foldl reread_step (mkRun no_tables []) (take 3 reread_ops ++ replicate 20 (RClaim 1000 ∅)))) !! ($"0xaa", $"0xh3") = Some true.
Proof. split_and!; vm_compute; reflexivity. Qed.

Definition waiting_tables : tables := rr_tables (foldl reread_step (mkRun no_tables []) (take 4 reread_ops)).

Lemma claims_reach_all_witness :
  left_in (rereads waiting_tables) = 40%nat ∧ times ($"0xaa", $"0xh3") (claims 40 1 waiting_tables).2 = 19.
Proof.
  split; [vm_compute; reflexivity|].
  destruct (claims_reach_all 40 1 waiting_tables ($"0xaa", $"0xh3") (mkReread 1 true 1)) as [_ Ht].
  - lia.
  - apply (bool_decide_eq_true_1 _). vm_compute. reflexivity.
  - vm_compute. reflexivity.
  - reflexivity.
  - apply (bool_decide_eq_true_1 _). vm_compute. reflexivity.
  - exact Ht.
Defined.
