(* ===== verification/EpochGate.v ===== *)
(** * The reorg epoch of new balance work

    [holdBalanceEpoch], [revertBlockHoldingEpoch] and [loadBalanceEpoch] of
    [internal/indexer/balance_rereads.go] with the gate of the balance pool
    ([balance_worker.go]): a revert closes the gate once it holds the daily-stats lock,
    and opens it when it has read the epoch it left. Reverts and producers of balance
    work interleave; the read of the epoch is retried until it answers. *)

From S2P Require Import Prelude GoStrings BalanceWorker.

(** Where a revert is: before the daily-stats lock; holding it, waiting for the gate;
    inside, before and after it took its epoch; ended, its epoch not read yet. *)
Inductive revert_at := Outside | AtGate | Inside | Took (e : Z) | Ended.

(** [gs_seq] is the sequence, which moves before a revert commits; [gs_committed] the
    latest epoch of a committed revert. Each stamped work is kept with the latest
    committed epoch when it was stamped. *)
Record gate_sys := mkGate {
  gs_seq : Z; gs_committed : Z; gs_pool : pool; gs_gate : option nat; gs_lock : option nat;
  gs_reverts : nat → revert_at; gs_stamped : list (BalanceWork * Z); gs_stopped : bool }.

Definition at_step (i : nat) (p : revert_at) (f : nat → revert_at) : nat → revert_at := λ j, if decide (j = i) then p else f j.

(** [DeleteBlockLocked] up to [locked]: the lock is exclusive. *)
Definition take_lock (i : nat) (y : gate_sys) : option gate_sys :=
  match gs_reverts y i, gs_lock y with
  | Outside, None => Some (mkGate (gs_seq y) (gs_committed y) (gs_pool y) (gs_gate y) (Some i) (at_step i AtGate (gs_reverts y)) (gs_stamped y) (gs_stopped y))
  | _, _ => None
  end.
(** [holdEpoch]: the write lock of the gate. *)
Definition holdEpoch (i : nat) (y : gate_sys) : option gate_sys :=
  match gs_reverts y i, gs_gate y with
  | AtGate, None => Some (mkGate (gs_seq y) (gs_committed y) (gs_pool y) (Some i) (gs_lock y) (at_step i Inside (gs_reverts y)) (gs_stamped y) (gs_stopped y))
  | _, _ => None
  end.
(** [nextval('balance_reorg_epoch')], which no rollback takes back. *)
Definition take_epoch (i : nat) (y : gate_sys) : option gate_sys :=
  match gs_reverts y i with
  | Inside => Some (mkGate (gs_seq y + 1) (gs_committed y) (gs_pool y) (gs_gate y) (gs_lock y) (at_step i (Took (gs_seq y + 1)) (gs_reverts y)) (gs_stamped y) (gs_stopped y))
  | _ => None
  end.
(** The transaction ends, with or without a commit, and frees its lock. *)
Definition end_revert (i : nat) (commit : bool) (y : gate_sys) : option gate_sys :=
  let ended (committed : Z) :=
    mkGate (gs_seq y) committed (gs_pool y) (gs_gate y) None (at_step i Ended (gs_reverts y)) (gs_stamped y) (gs_stopped y) in
  match gs_reverts y i with
  | Inside => if commit then None else Some (ended (gs_committed y))
  | Took e => Some (ended (if commit then e else gs_committed y))
  | _ => None
  end.
(** [releaseEpoch] *)
Definition releaseEpoch (i : nat) (e : Z) (stopped : bool) (y : gate_sys) : gate_sys :=
  mkGate (gs_seq y) (gs_committed y) (SetEpoch e (gs_pool y)) None (gs_lock y) (at_step i Outside (gs_reverts y)) (gs_stamped y) (gs_stopped y || stopped).
(** The release of [holdBalanceEpoch]: [CurrentBalanceEpoch] answers; it fails and the wait
    goes on; it fails and the indexer is stopping. *)
Inductive epoch_read := EpochRead | EpochFailed | EpochStopped.
Definition read_epoch (i : nat) (r : epoch_read) (y : gate_sys) : option gate_sys :=
  match gs_reverts y i, r with
  | Ended, EpochRead => Some (releaseEpoch i (gs_seq y) false y)
  | Ended, EpochFailed => Some y
  | Ended, EpochStopped => Some (releaseEpoch i 0 true y)
  | _, _ => None
  end.
(** New work is stamped under the read lock of the gate. *)
Definition stamp (w : BalanceWork) (y : gate_sys) : option gate_sys :=
  match gs_gate y with
  | None => Some (mkGate (gs_seq y) (gs_committed y) (gs_pool y) None (gs_lock y) (gs_reverts y) (gs_stamped y ++ [(stamped (gs_pool y) w, gs_committed y)]) (gs_stopped y))
  | Some _ => None
  end.

Inductive gate_step (y y' : gate_sys) : Prop :=
| gate_lock i : take_lock i y = Some y' → gate_step y y'
| gate_hold i : holdEpoch i y = Some y' → gate_step y y'
| gate_epoch i : take_epoch i y = Some y' → gate_step y y'
| gate_end i commit : end_revert i commit y = Some y' → gate_step y y'
| gate_read i r : read_epoch i r y = Some y' → gate_step y y'
| gate_stamp w : w_epoch w = 0 → stamp w y = Some y' → gate_step y y'.

(** [loadBalanceEpoch]: the pool starts with the epoch of the database. *)
Definition loadBalanceEpoch (seq : Z) (p : pool) : gate_sys :=
  mkGate seq seq (SetEpoch seq p) None None (λ _, Outside) [] false.

(** ** Every stamp is after the reverts committed before it *)

Record gate_ok (y : gate_sys) : Prop := {
  go_seq : gs_committed y ≤ gs_seq y;
  go_took : ∀ i e, gs_reverts y i = Took e → e ≤ gs_seq y ∧ gs_committed y < e;
  go_gate : ∀ i, gs_gate y = Some i ↔ (gs_reverts y i = Inside ∨ (∃ e, gs_reverts y i = Took e) ∨ gs_reverts y i = Ended);
  go_lock : ∀ i, gs_lock y = Some i ↔ (gs_reverts y i = AtGate ∨ gs_reverts y i = Inside ∨ ∃ e, gs_reverts y i = Took e);
  go_pool : gs_stopped y = false → gs_gate y = None → gs_committed y ≤ p_epoch (gs_pool y);
  go_stamps : gs_stopped y = false → ∀ w c, (w, c) ∈ gs_stamped y → c ≤ w_epoch w }.

Lemma at_step_eq i p f : at_step i p f i = p.
Proof. unfold at_step. by rewrite decide_True. Qed.
Lemma at_step_ne i j p f : j ≠ i → at_step i p f j = f j.
Proof. intros. unfold at_step. by rewrite decide_False. Qed.

Ltac gate_case i j :=
  destruct (decide (j = i)) as [->|?]; rewrite ?at_step_eq, ?at_step_ne by done.

Lemma lock_ok i y y' : gate_ok y → take_lock i y = Some y' → gate_ok y'.
Proof.
  intros [G1 G2 G3 G4 G5 G6] E. unfold take_lock in E. destruct (gs_reverts y i) eqn:Ei, (gs_lock y) eqn:El; simplify_eq. split; cbn; try done.
  - intros j e. gate_case i j; [done|apply G2].
  - intros j. rewrite G3. gate_case i j; [rewrite Ei|done]. naive_solver.
  - intros j. specialize (G4 j). gate_case i j; naive_solver.
Qed.
Lemma hold_ok i y y' : gate_ok y → holdEpoch i y = Some y' → gate_ok y'.
Proof.
  intros [G1 G2 G3 G4 G5 G6] E. unfold holdEpoch in E. destruct (gs_reverts y i) eqn:Ei, (gs_gate y) eqn:Eg; simplify_eq. split; cbn; try done.
  - intros j e. gate_case i j; [done|apply G2].
  - intros j. specialize (G3 j). gate_case i j; naive_solver.
  - intros j. rewrite G4. gate_case i j; [rewrite Ei|done]. naive_solver.
Qed.
Lemma take_epoch_ok i y y' : gate_ok y → take_epoch i y = Some y' → gate_ok y'.
Proof.
  intros [G1 G2 G3 G4 G5 G6] E. unfold take_epoch in E. destruct (gs_reverts y i) eqn:Ei; simplify_eq. split; cbn; try done; [lia|..].
  - intros j e. gate_case i j; [intros [= <-]; lia|]. intros Hj. destruct (G2 j e Hj). lia.
  - intros j. rewrite G3. gate_case i j; [rewrite Ei|done]. naive_solver.
  - intros j. rewrite G4. gate_case i j; [rewrite Ei|done]. naive_solver.
Qed.
Lemma end_ok i commit y y' : gate_ok y → end_revert i commit y = Some y' → gate_ok y'.
Proof.
  intros [G1 G2 G3 G4 G5 G6] E.
  assert (gs_lock y = Some i ∧ gs_gate y = Some i ∧ ∃ c, gs_committed y ≤ c ≤ gs_seq y ∧
    y' = mkGate (gs_seq y) c (gs_pool y) (gs_gate y) None (at_step i Ended (gs_reverts y)) (gs_stamped y) (gs_stopped y)) as (El & Eg & c & Hc & ->).
  { unfold end_revert in E. destruct (gs_reverts y i) as [| | |e|] eqn:Ei; try done.
    - destruct commit; simplify_eq. split_and!; [apply G4; naive_solver|apply G3; naive_solver|]. by exists (gs_committed y).
    - simplify_eq. split_and!; [apply G4; naive_solver|apply G3; naive_solver|]. destruct (G2 i e Ei). eexists. split; [|done]. destruct commit; lia. }
  assert (∀ j, j ≠ i → gs_lock y ≠ Some j) as Hone by (intros j Hj; rewrite El; congruence).
  split; cbn; try done; [lia|..].
  - intros j e. gate_case i j; [done|]. intros Hj. exfalso. apply (Hone j); [done|]. apply G4. naive_solver.
  - intros j. specialize (G3 j). gate_case i j; [naive_solver|done].
  - intros j. split; [done|]. intros Hj. exfalso. revert Hj. gate_case i j; [naive_solver|]. intros Hj. apply (Hone j); [done|]. by apply G4.
  - rewrite Eg. done.
Qed.
Lemma read_ok i r y y' : gate_ok y → read_epoch i r y = Some y' → gate_ok y'.
Proof.
  intros [G1 G2 G3 G4 G5 G6] E. unfold read_epoch in E. destruct (gs_reverts y i) eqn:Ei; try done.
  assert (gs_gate y = Some i) as Eg by (apply G3; naive_solver).
  assert (∀ e st, (st = false → e = gs_seq y) → gate_ok (releaseEpoch i e st y)) as Hrel.
  { intros e st He. split; cbn; try done.
    - intros j e'. gate_case i j; [done|apply G2].
    - intros j. split; [done|]. intros Hj. exfalso. revert Hj. gate_case i j; [naive_solver|]. intros Hj. assert (gs_gate y = Some j) by (by apply G3). congruence.
    - intros j. rewrite G4. gate_case i j; [rewrite Ei|done]. naive_solver.
    - intros [_ Hst]%orb_false_iff _. rewrite (He Hst). cbn. lia.
    - intros [Hs _]%orb_false_iff. by apply G6. }
  destruct r; simplify_eq; [by apply Hrel|done|by apply Hrel].
Qed.

Lemma gate_step_ok y y' : gate_ok y → gate_step y y' → gate_ok y'.
Proof.
  intros Hy [i E|i E|i E|i commit E|i r E|w Hw E]; [by eapply lock_ok|by eapply hold_ok|by eapply take_epoch_ok|by eapply end_ok|by eapply read_ok|].
  destruct Hy as [G1 G2 G3 G4 G5 G6]. unfold stamp in E. destruct (gs_gate y) eqn:Eg; simplify_eq. split; cbn; try done.
  intros Hs w' c [Hin|Hin]%elem_of_app; [by apply G6|]. apply list_elem_of_singleton in Hin. simplify_eq. unfold stamped. rewrite Hw. cbn. by apply G5.
Qed.

Lemma reach_ok seq p y : rtc gate_step (loadBalanceEpoch seq p) y → gate_ok y.
Proof.
  intros Hr. assert (gate_ok (loadBalanceEpoch seq p)) as H0.
  { split; cbn; try done; [naive_solver|naive_solver|intros _ _; lia|intros _ w c Hin; by apply not_elem_of_nil in Hin]. }
  induction Hr as [|y z u Hyz _ IH]; [done|]. apply IH. by eapply gate_step_ok.
Qed.

(** C14: new balance work carries the epoch of every revert committed before it. Through any
    interleaving of reverts (committed, rolled back, waiting for each other), reads of the
    epoch that fail and are retried, and work being stamped, work is stamped while no
    revert is between its start and the read of its epoch, and with an epoch at or above
    that of every revert committed until then, unless the indexer was stopped; and a revert
    at the gate never keeps it: with its transaction over and the epoch read once, the gate
    is open. *)
Theorem stamps_follow_reverts seq p y : rtc gate_step (loadBalanceEpoch seq p) y →
  (gs_stopped y = false → ∀ w c, (w, c) ∈ gs_stamped y → c ≤ w_epoch w) ∧
  (∀ w y', stamp w y = Some y' → ∀ i, gs_reverts y i = Outside ∨ gs_reverts y i = AtGate) ∧
  (∀ i, gs_gate y = Some i → ∃ y1 y2, (y1 = y ∨ end_revert i false y = Some y1) ∧ read_epoch i EpochRead y1 = Some y2 ∧
     gs_gate y2 = None ∧ gs_committed y2 ≤ p_epoch (gs_pool y2)).
Proof.
  intros Hr. pose proof (reach_ok seq p y Hr) as [G1 G2 G3 G4 G5 G6]. split_and!; [done|..].
  - intros w y' E i. unfold stamp in E. destruct (gs_gate y) eqn:Eg; [done|]. specialize (G3 i).
    destruct (gs_reverts y i); naive_solver.
  - intros i Hi. apply G3 in Hi as Hp. destruct Hp as [Hp|[[e Hp]|Hp]].
    + eexists _, _. unfold end_revert, read_epoch. rewrite Hp. split; [by right|]. cbn. rewrite at_step_eq. split_and!; [done|done|cbn; lia].
    + eexists _, _. unfold end_revert, read_epoch. rewrite Hp. split; [by right|]. cbn. rewrite at_step_eq. split_and!; [done|done|cbn; lia].
    + eexists y, _. split; [by left|]. unfold read_epoch. rewrite Hp. split_and!; [done|done|cbn; lia].
Qed.

(** A revert of epoch 4 with a failed read, then work. *)
Definition gate_pool : pool := mkPool 0 false [] 10.
Definition gate_work : BalanceWork := mkWork [] [] 9 0.
Definition after_steps (l : list (gate_sys → option gate_sys)) (y : gate_sys) : option gate_sys := foldl (λ y f, y ≫= f) (Some y) l.
Definition revert_then_work : option gate_sys :=
  after_steps [take_lock 0; holdEpoch 0; take_epoch 0; end_revert 0 true; read_epoch 0 EpochFailed; read_epoch 0 EpochRead; stamp gate_work] (loadBalanceEpoch 3 gate_pool).

Lemma stamps_follow_reverts_witness : ∃ y, revert_then_work = Some y ∧ gs_stamped y = [(mkWork [] [] 9 4, 4)] ∧
  ∀ w c, (w, c) ∈ gs_stamped y → c ≤ w_epoch w.
Proof.
  eexists. split; [reflexivity|]. split; [reflexivity|].
  eapply (stamps_follow_reverts 3 gate_pool); [|reflexivity].
  eapply rtc_l; [apply (gate_lock _ _ 0); reflexivity|]. eapply rtc_l; [apply (gate_hold _ _ 0); reflexivity|].
  eapply rtc_l; [apply (gate_epoch _ _ 0); reflexivity|]. eapply rtc_l; [apply (gate_end _ _ 0 true); reflexivity|].
  eapply rtc_l; [apply (gate_read _ _ 0 EpochFailed); reflexivity|]. eapply rtc_l; [apply (gate_read _ _ 0 EpochRead); reflexivity|].
  apply rtc_once. apply (gate_stamp _ _ gate_work); reflexivity.
Defined.
