(* ===== verification/NodeLookup.v ===== *)
(** * The lookup of pruned blocks: [internal/nodelookup/lookup.go]

    What retention removed from the database is served from the node, through an
    LRU of whole blocks bounded by entries and bytes, with two indexes (block
    hashes and transaction hashes) to block numbers.  The node's answers are
    parameters of each request; a block's identity is its pointer ([b_ptr]), as
    [forget] compares pointers. *)

From S2P Require Import Prelude GoStrings.

Record Config := mkLookupConfig { MaxBlocks : Z; MaxBytes : Z }.

Definition withDefaults (c : Config) : Config :=
  mkLookupConfig (if MaxBlocks c <=? 0 then 2000 else MaxBlocks c)
    (if MaxBytes c <=? 0 then 268435456 else MaxBytes c).

Record Block := mkBlock { b_ptr : Z; b_number : Z; b_hash : gostring; b_txs : list gostring; b_size : Z }.
#[export] Instance Block_eq_dec : EqDecision Block.
Proof. solve_decision. Defined.

(** [order] is the list of the LRU, most recent first. *)
Record Lookup := mkLookup {
  order : list Block;
  byNumber : gmap Z Block;
  bytes : Z;
  txBlock : gmap gostring Z;
  hashBlock : gmap gostring Z;
  next_ptr : Z;
}.

Definition New : Lookup := mkLookup [] ∅ 0 ∅ ∅ 0.

Definition without (n : Z) (l : list Block) : list Block := filter (λ b, b_number b ≠ n) l.

Definition cached (number : Z) (l : Lookup) : Lookup * option Block :=
  match byNumber l !! number with
  | None => (l, None)
  | Some b =>
      (mkLookup (b :: without (b_number b) (order l)) (byNumber l) (bytes l) (txBlock l) (hashBlock l) (next_ptr l), Some b)
  end.

Definition delete_all (hs : list gostring) (m : gmap gostring Z) : gmap gostring Z :=
  foldl (λ m h, delete (ToLower h) m) m hs.

Definition evict (b : Block) (l : Lookup) : Lookup :=
  mkLookup (without (b_number b) (order l)) (delete (b_number b) (byNumber l)) (bytes l - b_size b)
    (delete_all (b_txs b) (txBlock l)) (delete (ToLower (b_hash b)) (hashBlock l)) (next_ptr l).

Definition over (c : Config) (l : Lookup) : bool :=
  (MaxBlocks c <? zlen (order l)) || ((MaxBytes c <? bytes l) && (1 <? zlen (order l))).

(** The eviction loop: one entry per turn, from the back. *)
Fixpoint shrink (fuel : nat) (c : Config) (l : Lookup) : Lookup :=
  match fuel with
  | O => l
  | S fuel =>
      if over c l then match last (order l) with Some b => shrink fuel c (evict b l) | None => l end else l
  end.

Definition put_all (hs : list gostring) (n : Z) (m : gmap gostring Z) : gmap gostring Z :=
  foldl (λ m h, <[ToLower h := n]> m) m hs.

Definition push (b : Block) (l : Lookup) : Lookup :=
  mkLookup (b :: order l) (<[b_number b := b]> (byNumber l)) (bytes l + b_size b)
    (put_all (b_txs b) (b_number b) (txBlock l)) (<[ToLower (b_hash b) := b_number b]> (hashBlock l)) (next_ptr l).

Definition store (c : Config) (b : Block) (l : Lookup) : Lookup :=
  match byNumber l !! b_number b with
  | Some _ => l
  | None => let l := push b l in shrink (length (order l)) c l
  end.

Definition forget (b : Block) (l : Lookup) : Lookup :=
  match byNumber l !! b_number b with
  | Some e => if b_ptr e =? b_ptr b then evict e l else l
  | None => l
  end.

(** ** Requests *)

Inductive lookup_err := ErrBusy | ErrReceiptsUnavailable | NodeError.

(** A raw block of the node with the receipts it returned for it (a nil receipt
    is [None]). *)
Record raw := mkRaw { raw_number : Z; raw_hash : gostring; raw_txs : list gostring; raw_size : Z; raw_receipts : list (option gostring) }.

Definition missingReceipts (r : raw) : Z :=
  zlen (filter (λ t, Some t ∉ raw_receipts r) (raw_txs r)).

Definition fetch (c : Config) (answer : res lookup_err (option raw)) (l : Lookup) : Lookup * res lookup_err (option Block) :=
  match answer with
  | Err e => (l, Err e)
  | Ok None => (l, Ok None)
  | Ok (Some r) =>
      if 0 <? missingReceipts r then (l, Err ErrReceiptsUnavailable)
      else
        let b := mkBlock (next_ptr l) (raw_number r) (raw_hash r) (raw_txs r) (raw_size r) in
        let l := mkLookup (order l) (byNumber l) (bytes l) (txBlock l) (hashBlock l) (next_ptr l + 1) in
        (store c b l, Ok (Some b))
  end.

Definition BlockByNumber (c : Config) (node : Z → res lookup_err (option raw)) (number : Z) (l : Lookup)
  : Lookup * res lookup_err (option Block) :=
  match cached number l with
  | (l, Some b) => (l, Ok (Some b))
  | (l, None) => fetch c (node number) l
  end.

(** The height of a hash: the index, or the node's answer ([None]: not found). *)
Definition resolve (index : gmap gostring Z) (hash : gostring) (ask : res lookup_err (option Z)) : res lookup_err (option Z) :=
  match index !! hash with Some n => Ok (Some n) | None => ask end.

Definition BlockByHash (c : Config) (node : Z → res lookup_err (option raw)) (ask : res lookup_err (option Z))
    (hash : gostring) (through : Z) (l : Lookup) : Lookup * res lookup_err (option Block) :=
  let hash := ToLower hash in
  match resolve (hashBlock l) hash ask with
  | Err e => (l, Err e)
  | Ok None => (l, Ok None)
  | Ok (Some number) =>
      if through <? number then (l, Ok None)
      else match BlockByNumber c node number l with
           | (l, Err e) => (l, Err e)
           | (l, Ok None) => (l, Ok None)
           | (l, Ok (Some b)) => if EqualFold (b_hash b) hash then (l, Ok (Some b)) else (forget b l, Ok None)
           end
  end.

Definition Transaction (c : Config) (node : Z → res lookup_err (option raw)) (ask : res lookup_err (option Z))
    (hash : gostring) (through : Z) (l : Lookup) : Lookup * res lookup_err (option (Block * gostring)) :=
  let hash := ToLower hash in
  match resolve (txBlock l) hash ask with
  | Err e => (l, Err e)
  | Ok None => (l, Ok None)
  | Ok (Some number) =>
      if through <? number then (l, Ok None)
      else match BlockByNumber c node number l with
           | (l, Err e) => (l, Err e)
           | (l, Ok None) => (l, Ok None)
           | (l, Ok (Some b)) => (l, Ok ((λ h, (b, h)) <$> List.find (λ h, EqualFold h hash) (b_txs b)))
           end
  end.

(** ** The cache invariant *)

Definition total (l : list Block) : Z := foldr (λ b a, b_size b + a) 0 l.

Record cache_inv (l : Lookup) : Prop := {
  ci_nodup : NoDup (b_number <$> order l);
  ci_map : ∀ n b, byNumber l !! n = Some b ↔ b ∈ order l ∧ b_number b = n;
  ci_bytes : bytes l = total (order l);
  ci_sizes : ∀ b, b ∈ order l → 0 ≤ b_size b;
  ci_hash : ∀ h n, hashBlock l !! h = Some n → ∃ b, byNumber l !! n = Some b ∧ ToLower (b_hash b) = h;
  ci_tx : ∀ h n, txBlock l !! h = Some n → ∃ b, byNumber l !! n = Some b ∧ h ∈ (ToLower <$> b_txs b);
}.

Definition bounded (c : Config) (l : Lookup) : Prop := over c l = false.

Lemma lookup_delete_all hs m h :
  delete_all hs m !! h = if bool_decide (h ∈ (ToLower <$> hs)) then None else m !! h.
Proof.
  revert m. induction hs as [|x hs IH]; intros m; cbn [delete_all foldl].
  { by rewrite bool_decide_eq_false_2 by apply not_elem_of_nil. }
  fold (delete_all hs (delete (ToLower x) m)). rewrite IH, fmap_cons.
  destruct (decide (h ∈ (ToLower <$> hs))); [rewrite !bool_decide_eq_true_2 by set_solver; done|].
  rewrite (bool_decide_eq_false_2 (h ∈ (ToLower <$> hs))) by done. destruct (decide (h = ToLower x)) as [->|Hne].
  - rewrite bool_decide_eq_true_2 by set_solver. apply lookup_delete_eq.
  - rewrite bool_decide_eq_false_2 by set_solver. by apply lookup_delete_ne.
Qed.

Lemma lookup_put_all hs n m h :
  put_all hs n m !! h = if bool_decide (h ∈ (ToLower <$> hs)) then Some n else m !! h.
Proof.
  revert m. induction hs as [|x hs IH]; intros m; cbn [put_all foldl].
  { by rewrite bool_decide_eq_false_2 by apply not_elem_of_nil. }
  fold (put_all hs n (<[ToLower x := n]> m)). rewrite IH, fmap_cons.
  destruct (decide (h ∈ (ToLower <$> hs))); [rewrite !bool_decide_eq_true_2 by set_solver; done|].
  rewrite (bool_decide_eq_false_2 (h ∈ (ToLower <$> hs))) by done. destruct (decide (h = ToLower x)) as [->|Hne].
  - rewrite bool_decide_eq_true_2 by set_solver. apply lookup_insert_eq.
  - rewrite bool_decide_eq_false_2 by set_solver. by apply lookup_insert_ne.
Qed.

Lemma elem_of_without n l b : b ∈ without n l ↔ b ∈ l ∧ b_number b ≠ n.
Proof. unfold without. rewrite list_elem_of_filter. naive_solver. Qed.

Lemma without_nodup n l : NoDup (b_number <$> l) → NoDup (b_number <$> without n l).
Proof.
  induction l as [|x l IH]; [done|]. rewrite fmap_cons. intros [Hx Hl]%NoDup_cons. unfold without. rewrite filter_cons.
  fold (without n l). case_decide; [|by apply IH]. rewrite fmap_cons. constructor; [|by apply IH].
  intros (y & E & [Hy _]%elem_of_without)%list_elem_of_fmap. apply Hx. rewrite E. by apply list_elem_of_fmap_2.
Qed.

Lemma without_absent n l : n ∉ (b_number <$> l) → without n l = l.
Proof. intros Hn. apply filter_all. intros b Hb E. apply Hn. rewrite <- E. by apply list_elem_of_fmap_2. Qed.

Lemma without_split l b : NoDup (b_number <$> l) → b ∈ l →
  total l = b_size b + total (without (b_number b) l) ∧ length l = S (length (without (b_number b) l)).
Proof.
  induction l as [|x l IH]; intros Hnd Hb; [by apply not_elem_of_nil in Hb|].
  rewrite fmap_cons in Hnd. apply NoDup_cons in Hnd as [Hx Hnd]. unfold without. rewrite filter_cons. fold (without (b_number b) l).
  apply elem_of_cons in Hb as [->|Hb].
  - rewrite decide_False by (by intros []). by rewrite without_absent.
  - assert (b_number x ≠ b_number b) as Hne by (intros E; apply Hx; rewrite E; by apply list_elem_of_fmap_2).
    rewrite decide_True by done. destruct (IH Hnd Hb) as [I1 I2]. unfold total in *. cbn. lia.
Qed.

Lemma evict_inv b l : cache_inv l → b ∈ order l →
  cache_inv (evict b l) ∧ length (order l) = S (length (order (evict b l))) ∧ next_ptr (evict b l) = next_ptr l.
Proof.
  intros [H1 H2 H3 H3' H4 H5] Hb. destruct (without_split _ b H1 Hb) as [T L]. split; [|done].
  assert (∀ n b', byNumber l !! n = Some b' → n ≠ b_number b → delete (b_number b) (byNumber l) !! n = Some b') as Hkeep
    by (intros n b' Hn Hne; by rewrite lookup_delete_ne).
  assert (byNumber l !! b_number b = Some b) as Hbn by (by apply H2).
  split; cbn [evict order byNumber bytes txBlock hashBlock].
  - by apply without_nodup.
  - intros n b'. rewrite lookup_delete_Some, H2, elem_of_without. naive_solver.
  - lia.
  - intros x [Hx _]%elem_of_without. by apply H3'.
  - intros h n [Hne Hh]%lookup_delete_Some. destruct (H4 h n Hh) as (b' & Hb' & Eh). exists b'. split; [|done].
    apply Hkeep; [done|]. intros ->. rewrite Hbn in Hb'. injection Hb' as ->. done.
  - intros h n. rewrite lookup_delete_all. case_bool_decide as Hin; [done|]. intros Hh.
    destruct (H5 h n Hh) as (b' & Hb' & Eh). exists b'. split; [|done].
    apply Hkeep; [done|]. intros ->. rewrite Hbn in Hb'. injection Hb' as ->. done.
Qed.

Lemma push_inv b l : cache_inv l → 0 ≤ b_size b → byNumber l !! b_number b = None → cache_inv (push b l).
Proof.
  intros [H1 H2 H3 H3' H4 H5] Hsz Hn. assert (b_number b ∉ (b_number <$> order l)) as Hfresh.
  { intros (x & E & Hx)%list_elem_of_fmap. assert (byNumber l !! b_number b = Some x) as Hx' by (by apply H2). congruence. }
  assert (∀ n b', byNumber l !! n = Some b' → <[b_number b := b]> (byNumber l) !! n = Some b') as Hkeep
    by (intros n b' Hb'; rewrite lookup_insert_ne; [done|congruence]).
  split; cbn [push order byNumber bytes txBlock hashBlock].
  - rewrite fmap_cons. by constructor.
  - intros n b'. rewrite lookup_insert_Some, H2, elem_of_cons. split; [naive_solver|].
    intros [[->|Hb'] <-]; [by left|right]. split; [|done]. intros E. apply Hfresh. rewrite E. by apply list_elem_of_fmap_2.
  - rewrite H3. unfold total. cbn. lia.
  - intros x [->|Hx]%elem_of_cons; [done|by apply H3'].
  - intros h n [[<- <-]|[_ Hh]]%lookup_insert_Some; [exists b; by rewrite lookup_insert_eq|].
    destruct (H4 h n Hh) as (b' & Hb' & Eh). exists b'. split; [by apply Hkeep|done].
  - intros h n. rewrite lookup_put_all. case_bool_decide as Hin; [intros [= <-]; exists b; by rewrite lookup_insert_eq|].
    intros Hh. destruct (H5 h n Hh) as (b' & Hb' & Eh). exists b'. split; [by apply Hkeep|done].
Qed.

Lemma cached_inv number l : cache_inv l →
  cache_inv (cached number l).1 ∧ (cached number l).2 = byNumber l !! number ∧
  length (order (cached number l).1) = length (order l) ∧ bytes (cached number l).1 = bytes l.
Proof.
  intros Hl. unfold cached. destruct (byNumber l !! number) as [b|] eqn:E; [|done].
  destruct Hl as [H1 H2 H3 H3' H4 H5]. apply H2 in E as [Hb <-]. destruct (without_split _ b H1 Hb) as [T L].
  split_and!; [|done|cbn; lia|done]. split; cbn [fst order byNumber bytes txBlock hashBlock]; try done.
  - rewrite fmap_cons. constructor; [|by apply without_nodup]. intros (x & Ex & [_ Hne]%elem_of_without)%list_elem_of_fmap. done.
  - intros n b'. rewrite H2, elem_of_cons, elem_of_without. split; [|naive_solver].
    intros [Hb' <-]. split; [|done]. destruct (decide (b_number b' = b_number b)) as [En|]; [left|by right].
    by apply (NoDup_fmap_elem_inj b_number (order l)).
  - rewrite H3, T. done.
  - intros x [->|[Hx _]%elem_of_without]%elem_of_cons; by apply H3'.
Qed.

Section Bounds.
Context (c : Config).
Hypothesis blocks_pos : 0 < MaxBlocks c.

Lemma over_nil l : order l = [] → over c l = false.
Proof using blocks_pos.
  intros E. unfold over. rewrite E. change (zlen (@nil Block)) with 0.
  destruct (Z.ltb_spec (MaxBlocks c) 0); [lia|]. apply andb_false_r.
Qed.

Lemma shrink_inv fuel l : cache_inv l → (length (order l) ≤ fuel)%nat →
  cache_inv (shrink fuel c l) ∧ bounded c (shrink fuel c l) ∧ next_ptr (shrink fuel c l) = next_ptr l.
Proof using blocks_pos.
  revert l. induction fuel as [|fuel IH]; intros l Hl Hf; cbn [shrink].
  { split_and!; [done| |done]. apply over_nil. destruct (order l); [done|cbn in Hf; lia]. }
  destruct (over c l) eqn:Eo; [|done]. destruct (last (order l)) as [b|] eqn:El.
  - apply last_Some_elem_of in El. destruct (evict_inv b l Hl El) as (I & L & P).
    destruct (IH (evict b l) I ltac:(lia)) as (J1 & J2 & J3). split_and!; [done|done|congruence].
  - apply last_None in El. by rewrite (over_nil l El) in Eo.
Qed.

Lemma store_inv b l : cache_inv l → 0 ≤ b_size b → bounded c l → cache_inv (store c b l) ∧ bounded c (store c b l) ∧ next_ptr (store c b l) = next_ptr l.
Proof using blocks_pos.
  intros Hl Hsz Hb. unfold store. destruct (byNumber l !! b_number b) eqn:E; [done|].
  by apply (shrink_inv _ (push b l)); [apply push_inv|].
Qed.

Lemma forget_inv b l : cache_inv l → bounded c l → cache_inv (forget b l) ∧ bounded c (forget b l).
Proof using Type.
  intros Hl Hb. unfold forget. destruct (byNumber l !! b_number b) as [e|] eqn:E; [|done].
  destruct (b_ptr e =? b_ptr b); [|done]. apply (ci_map _ Hl) in E as [He _].
  destruct (evict_inv e l Hl He) as (I & L & _). split; [done|].
  pose proof (ci_sizes _ Hl e He) as Hsz. unfold bounded, over in *. apply orb_false_iff in Hb as [B1 B2].
  apply Z.ltb_ge in B1. unfold zlen in *. rewrite L in B1, B2. apply orb_false_iff. split; [apply Z.ltb_ge; lia|].
  apply andb_false_iff in B2 as [B2|B2]; apply Z.ltb_ge in B2; apply andb_false_iff.
  - left. apply Z.ltb_ge. cbn [bytes evict]. lia.
  - right. apply Z.ltb_ge. lia.
Qed.

(** ** Requests keep the cache, and answer what was asked *)

(** A node that answers a block asked by number with a block of that number, of a
    size that is a size. *)
Definition node_ok (node : Z → res lookup_err (option raw)) : Prop :=
  ∀ n r, node n = Ok (Some r) → raw_number r = n ∧ 0 ≤ raw_size r.

Definition good (l : Lookup) : Prop := cache_inv l ∧ bounded c l.

Lemma BlockByNumber_good node number l l' out : node_ok node → good l → BlockByNumber c node number l = (l', out) →
  good l' ∧ ∀ b, out = Ok (Some b) → b_number b = number.
Proof using blocks_pos.
  intros Hn [Hl Hb]. unfold BlockByNumber. destruct (cached_inv number l Hl) as (C1 & C2 & C3 & C4).
  destruct (cached number l) as [l1 [b|]]; cbn in *.
  - intros [= <- <-]. split; [split; [done|]|].
    + unfold bounded, over, zlen in *. by rewrite C3, C4.
    + intros x [= <-]. symmetry in C2. by apply (ci_map _ Hl) in C2 as [_ ?].
  - assert (good l1) as Hg by (split; [done|]; unfold bounded, over, zlen in *; by rewrite C3, C4).
    unfold fetch. destruct (node number) as [[r|]|e] eqn:En; [|by intros [= <- <-]|by intros [= <- <-]].
    destruct (Hn _ _ En) as [Enum Hsz]. destruct (0 <? missingReceipts r); [by intros [= <- <-]|]. intros [= <- <-].
    set (l2 := mkLookup _ _ _ _ _ _). assert (cache_inv l2) as H2 by (destruct Hg as [[] _]; by split).
    destruct (store_inv (mkBlock (next_ptr l1) (raw_number r) (raw_hash r) (raw_txs r) (raw_size r)) l2 H2 Hsz) as (S1 & S2 & _);
      [apply Hg|]. split; [by split|]. by intros b [= <-].
Qed.

Inductive request :=
| ByNumber (number : Z)
| ByHash (ask : res lookup_err (option Z)) (hash : gostring) (through : Z)
| ByTx (ask : res lookup_err (option Z)) (hash : gostring) (through : Z).

Definition serve (x : (Z → res lookup_err (option raw)) * request) (l : Lookup) : Lookup :=
  match x with
  | (node, ByNumber n) => (BlockByNumber c node n l).1
  | (node, ByHash ask h t) => (BlockByHash c node ask h t l).1
  | (node, ByTx ask h t) => (Transaction c node ask h t l).1
  end.

Lemma BlockByHash_good node ask hash through l l' out : node_ok node → good l →
  BlockByHash c node ask hash through l = (l', out) →
  good l' ∧ ∀ b, out = Ok (Some b) → ToLower (b_hash b) = ToLower hash ∧ b_number b ≤ through.
Proof using blocks_pos.
  intros Hn Hg. unfold BlockByHash. destruct (resolve _ _ _) as [[n|]|e]; [|by intros [= <- <-]|by intros [= <- <-]].
  destruct (Z.ltb_spec through n); [by intros [= <- <-]|].
  destruct (BlockByNumber c node n l) as [l1 [[b|]|e]] eqn:Eb; destruct (BlockByNumber_good _ _ _ _ _ Hn Hg Eb) as [G1 G2];
    [|by intros [= <- <-]|by intros [= <- <-]].
  unfold EqualFold. case_bool_decide as E; intros [= <- <-].
  - split; [done|]. intros x [= <-]. rewrite ToLower_idemp in E. split; [done|]. rewrite (G2 b eq_refl). done.
  - split; [|done]. destruct G1 as [I B]. by apply forget_inv.
Qed.

Lemma Transaction_good node ask hash through l l' out : node_ok node → good l →
  Transaction c node ask hash through l = (l', out) →
  good l' ∧ ∀ b h, out = Ok (Some (b, h)) → ToLower h = ToLower hash ∧ h ∈ b_txs b ∧ b_number b ≤ through.
Proof using blocks_pos.
  intros Hn Hg. unfold Transaction. destruct (resolve _ _ _) as [[n|]|e]; [|by intros [= <- <-]|by intros [= <- <-]].
  destruct (Z.ltb_spec through n); [by intros [= <- <-]|].
  destruct (BlockByNumber c node n l) as [l1 [[b|]|e]] eqn:Eb; destruct (BlockByNumber_good _ _ _ _ _ Hn Hg Eb) as [G1 G2];
    [|by intros [= <- <-]|by intros [= <- <-]].
  intros [= <- <-]. split; [done|]. intros b' h. destruct (List.find _ _) as [h'|] eqn:Ef; cbn; [|done]. intros [= <- <-].
  apply List.find_some in Ef as [Hin E]. unfold EqualFold in E. apply bool_decide_eq_true in E. rewrite ToLower_idemp in E.
  split_and!; [done|by apply list_elem_of_In|]. by rewrite (G2 b eq_refl).
Qed.

Lemma serve_good x l : node_ok x.1 → good l → good (serve x l).
Proof using blocks_pos.
  destruct x as [node [n|ask h t|ask h t]]; cbn; intros Hn Hg.
  - destruct (BlockByNumber c node n l) as [l' out] eqn:E. by eapply BlockByNumber_good.
  - destruct (BlockByHash c node ask h t l) as [l' out] eqn:E. by eapply BlockByHash_good.
  - destruct (Transaction c node ask h t l) as [l' out] eqn:E. by eapply Transaction_good.
Qed.
End Bounds.

(** C28: after any sequence of requests, whatever the node answered (errors, blocks
    with receipts missing, hashes resolved to other heights), the cache is sound:
    its list and map hold the same blocks, its byte count is their sum, it is
    within its bounds, both indexes point into cached blocks that have the hash;
    and a block or a transaction it then serves has the hash that was asked and
    lies at or below the height that was asked. *)
Theorem lookup_sound c reqs node ask hash through :
  Forall (λ x, node_ok x.1) reqs → node_ok node →
  let l := foldl (λ l x, serve (withDefaults c) x l) New reqs in
  cache_inv l ∧ bounded (withDefaults c) l ∧
  (∀ l' b, BlockByHash (withDefaults c) node ask hash through l = (l', Ok (Some b)) →
     ToLower (b_hash b) = ToLower hash ∧ b_number b ≤ through) ∧
  (∀ l' b h, Transaction (withDefaults c) node ask hash through l = (l', Ok (Some (b, h))) →
     ToLower h = ToLower hash ∧ h ∈ b_txs b ∧ b_number b ≤ through).
Proof.
  intros Hreqs Hn l. assert (0 < MaxBlocks (withDefaults c)) as Hp.
  { unfold withDefaults. cbn. destruct (Z.leb_spec (MaxBlocks c) 0); lia. }
  assert (good (withDefaults c) New) as H0.
  { split; [|by apply over_nil]. split; cbn [New order byNumber bytes txBlock hashBlock].
    - apply NoDup_nil_2.
    - intros n b. rewrite lookup_empty. split; [done|]. by intros [[]%not_elem_of_nil _].
    - done.
    - by intros b []%not_elem_of_nil.
    - intros h n. by rewrite lookup_empty.
    - intros h n. by rewrite lookup_empty. }
  assert (good (withDefaults c) l) as Hg.
  { unfold l. clear l. revert H0. generalize New. induction Hreqs as [|x reqs Hx _ IH]; intros l0 H0; [done|].
    cbn [foldl]. by apply IH, serve_good. }
  split_and!; [apply Hg|apply Hg| |].
  - intros l' b E. by apply (proj2 (BlockByHash_good _ Hp _ _ _ _ _ _ _ Hn Hg E)).
  - intros l' b h E. by apply (proj2 (Transaction_good _ Hp _ _ _ _ _ _ _ Hn Hg E)).
Qed.

Definition pruned_chain (n : Z) : res lookup_err (option raw) :=
  if (0 <=? n) && (n <? 5) then Ok (Some (mkRaw n ($"0xB" ++ FormatBase 10 n) [$"0xT" ++ FormatBase 10 n] 10 [Some ($"0xT" ++ FormatBase 10 n)]))
  else Ok None.

Lemma lookup_sound_witness :
  ∃ l' b, BlockByHash (mkLookupConfig 2 100) pruned_chain (Ok (Some 3)) $"0xb3" 4
     (foldl (λ l x, serve (mkLookupConfig 2 100) x l) New [(pruned_chain, ByNumber 1); (pruned_chain, ByNumber 2); (pruned_chain, ByTx (Ok (Some 3)) $"0xt3" 9)])
     = (l', Ok (Some b)) ∧ length (order l') = 2%nat ∧ ToLower (b_hash b) = $"0xb3" ∧ b_number b ≤ 4.
Proof.
  assert (node_ok pruned_chain) as Hn.
  { intros n r. unfold pruned_chain. case_match; [|done]. intros [= <-]. done. }
  eexists _, _. split; [vm_compute; reflexivity|]. split; [reflexivity|].
  destruct (lookup_sound (mkLookupConfig 2 100)
    [(pruned_chain, ByNumber 1); (pruned_chain, ByNumber 2); (pruned_chain, ByTx (Ok (Some 3)) $"0xt3" 9)]
    pruned_chain (Ok (Some 3)) $"0xb3" 4) as (_ & _ & H & _); [repeat (apply Forall_cons_2; [exact Hn|]); apply Forall_nil_2|done|].
  eapply H. vm_compute. reflexivity.
Defined.
