(* ===== verification/SqlOrder.v ===== *)
(** * Ordered queries: ORDER BY ... DESC LIMIT n over keyset keys

    The feeds of [internal/db/queries.go] are queries that filter a table, order
    it by a pair of columns descending and cut it at a limit; a page resumes at
    an exclusive row-value bound. This file has what a database promises about
    such a query and the lemmas that let a client of it reason: sorting is
    unique when the keys are, cutting a union of cut branches is the same as
    cutting the union, and following the bound of the last row walks the whole
    table. It models no file of the repository by itself. *)

From S2P Require Import Prelude.

(** SQL's row-value comparison [(a, b) < (c, d)]. *)
Definition row_lt (p q : Z * Z) : Prop := p.1 < q.1 ∨ (p.1 = q.1 ∧ p.2 < q.2).
#[export] Instance row_lt_dec p q : Decision (row_lt p q).
Proof. unfold row_lt. apply _. Defined.

#[export] Instance row_lt_strict : StrictOrder row_lt.
Proof. split; [intros x; unfold complement|intros x y z]; unfold row_lt; lia. Qed.

Lemma row_lt_trichotomy p q : row_lt p q ∨ p = q ∨ row_lt q p.
Proof.
  destruct p as [a b], q as [c d]. unfold row_lt. cbn.
  destruct (Z.lt_trichotomy a c) as [?|[->|?]]; [lia| |lia].
  destruct (Z.lt_trichotomy b d) as [?|[->|?]]; auto with lia.
Qed.

Section Ordered.
Context {A : Type} (key : A → Z * Z).

(** [a] may stand before [b] in descending order. *)
Definition desc (a b : A) : Prop := ¬ row_lt (key a) (key b).
#[export] Instance desc_dec : RelDecision desc.
Proof. intros a b. unfold desc. apply _. Defined.
#[export] Instance desc_trans : Transitive desc.
Proof.
  intros a b c. unfold desc. intros H1 H2 H3.
  destruct (row_lt_trichotomy (key a) (key b)) as [?|[E|E]]; [done|congruence|].
  apply H2. by trans (key a).
Qed.
#[export] Instance desc_total : Total desc.
Proof.
  intros a b. unfold desc, row_lt. destruct (key a), (key b). cbn. lia.
Qed.

(** [ORDER BY key DESC], and with [LIMIT n]. *)
Definition order_by (l : list A) : list A := merge_sort desc l.
Definition top (n : nat) (l : list A) : list A := take n (order_by l).

Definition distinct (l : list A) : Prop := NoDup (key <$> l).

Lemma order_by_perm l : order_by l ≡ₚ l.
Proof. apply merge_sort_Permutation. Qed.

Lemma order_by_sorted l : StronglySorted desc (order_by l).
Proof. by apply StronglySorted_merge_sort; apply _. Qed.

Lemma elem_of_order_by x l : x ∈ order_by l ↔ x ∈ l.
Proof. by rewrite order_by_perm. Qed.

Lemma distinct_perm l1 l2 : l1 ≡ₚ l2 → distinct l1 → distinct l2.
Proof. unfold distinct. by intros ->. Qed.

Lemma distinct_NoDup l : distinct l → NoDup l.
Proof. apply NoDup_fmap_1. Qed.

Lemma distinct_filter (P : A → Prop) `{!∀ x, Decision (P x)} l : distinct l → distinct (filter P l).
Proof. apply NoDup_fmap_filter. Qed.

Lemma desc_antisym l x y : distinct l → x ∈ l → y ∈ l → desc x y → desc y x → x = y.
Proof.
  unfold desc. intros Hd Hx Hy H1 H2. eapply (NoDup_fmap_elem_inj key); eauto.
  destruct (row_lt_trichotomy (key x) (key y)) as [?|[?|?]]; done.
Qed.

(** A sorted list of the rows is the answer of the query. *)
Lemma order_by_unique l s : distinct l → StronglySorted desc s → s ≡ₚ l → order_by l = s.
Proof.
  intros Hd Hs Hp. apply StronglySorted_unique_strong with (R := desc); [|apply order_by_sorted|done|].
  - intros x y Hx Hy. rewrite elem_of_order_by in Hx. rewrite Hp in Hy. by apply (desc_antisym l).
  - by rewrite order_by_perm.
Qed.

Lemma order_by_Permutation l1 l2 : distinct l1 → l1 ≡ₚ l2 → order_by l1 = order_by l2.
Proof. intros Hd Hp. apply order_by_unique; [done|apply order_by_sorted|]. by rewrite order_by_perm. Qed.

Lemma order_by_filter (P : A → Prop) `{!∀ x, Decision (P x)} l :
  distinct l → order_by (filter P l) = filter P (order_by l).
Proof.
  intros Hd. apply order_by_unique; [by apply distinct_filter| |by rewrite order_by_perm].
  apply StronglySorted_filter, order_by_sorted.
Qed.

(** Cutting a selection that still has the rows of the cut. *)
Lemma top_sandwich n (U U' : list A) `{!EqDecision A} :
  distinct U → NoDup U' → U' ⊆ U → top n U ⊆ U' → top n U' = top n U.
Proof.
  intros Hd Hn Hsub Htop. unfold top in *.
  assert (U' ≡ₚ filter (λ x, x ∈ U') U) as Hp.
  { apply NoDup_Permutation; [done|by apply NoDup_filter, distinct_NoDup|].
    intros x. rewrite list_elem_of_filter. split; [auto|by intros []]. }
  rewrite (order_by_Permutation U' (filter (λ x, x ∈ U') U)), order_by_filter; [|done| |done].
  - rewrite <-(take_drop n (order_by U)) at 1. rewrite filter_app, (filter_all _ (take n _)).
    + destruct (decide (n ≤ length (order_by U))%nat).
      * rewrite take_app_le by (rewrite length_take; lia). by rewrite take_take, Nat.min_id.
      * rewrite (drop_ge (order_by U)) by lia. cbn. by rewrite app_nil_r, take_take, Nat.min_id.
    + intros x Hx. by apply Htop.
  - apply (distinct_perm (filter (λ x, x ∈ U') U)); [by symmetry|by apply distinct_filter].
Qed.

Lemma elem_of_top n x l : x ∈ top n l → x ∈ l.
Proof. intros Hx. apply elem_of_order_by. unfold top in Hx. apply elem_of_take in Hx as (i & Hi & _). by eapply list_elem_of_lookup_2. Qed.
End Ordered.

Lemma order_by_fmap {A B} (f : A → B) (ka : A → Z * Z) (kb : B → Z * Z) l :
  (∀ a, kb (f a) = ka a) → distinct ka l → order_by kb (f <$> l) = f <$> order_by ka l.
Proof.
  intros Hk Hd. apply order_by_unique.
  - unfold distinct in *. rewrite <-list_fmap_compose.
    rewrite (list_fmap_ext (kb ∘ f) ka); [done|]. intros; apply Hk.
  - apply (StronglySorted_fmap f (desc ka)); [|apply order_by_sorted]. intros x y. unfold desc. by rewrite !Hk.
  - by rewrite order_by_perm.
Qed.

(** ** Following the bound of the last row

    A page holds at most [L] rows; when there are more, it names the key of its
    last row, and the next page resumes strictly below it. *)

Section Paging.
Context {A : Type} (key : A → Z * Z).

Definition below (c : option (Z * Z)) (l : list A) : list A :=
  match c with None => l | Some b => filter (λ x, row_lt (key x) b) l end.

(** The first [L] of the rows, and the bound when there are more. *)
Definition cut (L : nat) (rows : list A) : list A * option (Z * Z) :=
  if decide (L < length rows)%nat then (take L rows, key <$> (rows !! (L - 1)%nat)) else (rows, None).

(** A client that asks for pages until there is no bound; request [n] may see a
    table of its own. [None]: a request failed, or the fuel ran out. *)
Fixpoint follow (fuel : nat) (page : nat → option (Z * Z) → option (list A * option (Z * Z)))
    (n : nat) (c : option (Z * Z)) : option (list (list A)) :=
  match fuel with
  | O => None
  | S fuel =>
      match page n c with
      | None => None
      | Some (rows, None) => Some [rows]
      | Some (rows, Some b) => (λ r, rows :: r) <$> follow fuel page (S n) (Some b)
      end
  end.

Definition strict (l : list A) : Prop := StronglySorted (λ a b, row_lt (key b) (key a)) l.

Lemma strict_order_by l : distinct key l → strict (order_by key l).
Proof.
  intros Hd. assert (distinct key (order_by key l)) as Ho
    by (eapply distinct_perm; [symmetry; apply order_by_perm|done]).
  unfold strict. pose proof (order_by_sorted key l) as Hs. revert Ho Hs. generalize (order_by key l) as s.
  induction s as [|a s IH]; intros Ho Hs; constructor; inversion Hs as [|?? Hss Ha]; subst;
    unfold distinct in Ho; rewrite fmap_cons, NoDup_cons in Ho; destruct Ho as [Hn Ho]; [by apply IH|].
  rewrite Forall_forall in Ha |- *. intros x Hx. specialize (Ha x Hx). unfold desc in Ha.
  destruct (row_lt_trichotomy (key a) (key x)) as [?|[E|?]]; [done| |done].
  destruct Hn. rewrite E. by apply list_elem_of_fmap_2.
Qed.

Lemma below_row pre x post : strict (pre ++ x :: post) → below (Some (key x)) (pre ++ x :: post) = post.
Proof.
  intros Hs. cbn. rewrite filter_app, filter_cons, (filter_none _ pre), decide_False; cbn.
  - apply filter_all. intros y Hy. apply (StronglySorted_app_1_elem_of (λ a b, row_lt (key b) (key a)) (pre ++ [x]) post); [|set_solver|done].
    by rewrite <-app_assoc.
  - apply irreflexivity. apply _.
  - intros y Hy Hlt. apply (irreflexivity row_lt (key x)). trans (key y); [|done].
    apply (StronglySorted_app_1_elem_of (λ a b, row_lt (key b) (key a)) pre (x :: post)); [exact Hs|done|left].
Qed.

Lemma cut_more L rows : (0 < L < length rows)%nat →
  ∃ pre x post, rows = pre ++ x :: post ∧ length pre = (L - 1)%nat ∧
    cut L rows = (pre ++ [x], Some (key x)).
Proof.
  intros HL. destruct (lookup_lt_is_Some_2 rows (L - 1)) as [x Hx]; [lia|].
  exists (take (L - 1) rows), x, (drop L rows).
  assert (rows = take (L - 1) rows ++ x :: drop L rows) as E.
  { rewrite <-(take_drop_middle rows (L - 1) x Hx) at 1. do 3 f_equal. lia. }
  split_and!; [done|rewrite length_take; lia|].
  unfold cut. rewrite decide_True, Hx by lia. cbn. f_equal.
  replace L with (S (L - 1)) at 1 by lia. by apply take_S_r.
Qed.

Lemma strict_app_r l1 l2 : strict (l1 ++ l2) → strict l2.
Proof. apply StronglySorted_app_1_r. Qed.

(** With a page that answers the first rows below its bound, the client sees
    every row once, in order, in pages of at most [L], and the walk ends. *)
Lemma follow_walks L page (S0 : list A) : (0 < L)%nat → strict S0 →
  (∀ n b, b ∈ key <$> S0 → below (Some b) S0 ≠ [] → page n (Some b) = Some (cut L (take (S L) (below (Some b) S0)))) →
  ∀ fuel n c front rest, S0 = front ++ rest → (length rest < fuel)%nat →
    page n c = Some (cut L (take (S L) rest)) →
    ∃ pages, follow fuel page n c = Some pages ∧ concat pages = rest ∧ Forall (λ p, (length p ≤ L)%nat) pages.
Proof.
  intros HL Hs Hpage. induction fuel as [|fuel IH]; intros n c front rest E Hfuel Hp; [lia|].
  cbn [follow]. rewrite Hp. destruct (decide (L < length rest)%nat) as [Hlt|Hge].
  - destruct (cut_more L (take (S L) rest)) as (pre & x & post & Er & Hpre & Ec).
    { rewrite length_take. lia. }
    rewrite Ec. set (rest' := drop L rest).
    assert (rest = (pre ++ [x]) ++ rest') as Erest.
    { subst rest'. rewrite <-(take_drop L rest) at 1. f_equal.
      transitivity (take L (take (S L) rest)); [by rewrite take_take, Nat.min_l by lia|].
      rewrite Er. rewrite cons_middle, app_assoc, take_app_le by (rewrite length_app; cbn; lia).
      apply take_ge. rewrite length_app. cbn. lia. }
    destruct (IH (S n) (Some (key x)) (front ++ pre ++ [x]) rest') as (pages & -> & Hc & Hall).
    + rewrite E, Erest. by rewrite <-!app_assoc.
    + subst rest'. rewrite length_drop. lia.
    + assert (below (Some (key x)) S0 = rest') as Eb.
      { replace S0 with ((front ++ pre) ++ x :: rest') by (rewrite E, Erest, <-!app_assoc; done).
        apply below_row. rewrite E, Erest in Hs. by rewrite <-!app_assoc in *. }
      rewrite Hpage; rewrite ?Eb; [done|rewrite E, Erest; set_solver|].
      subst rest'. intros E0. apply (f_equal length) in E0. rewrite length_drop in E0. cbn in E0. lia.
    + exists ((pre ++ [x]) :: pages). cbn. split_and!; [done|by rewrite Hc, Erest|].
      apply Forall_cons_2; [rewrite length_app; cbn; lia|done].
  - unfold cut. rewrite take_ge, decide_False by lia. exists [rest]. cbn. rewrite app_nil_r.
    split_and!; [done|done|]. apply Forall_cons_2; [lia|apply Forall_nil_2].
Qed.
End Paging.
