(* ===== verification/Feeds.v ===== *)
(** * Feeds: pages of transactions, token transfers and blocks

    [internal/db/queries.go] (the feed queries), [internal/grpcserver]
    (handlers_transactions.go, handlers_tokens.go, handlers_blocks.go,
    server.go, cursor.go). A table is the list of its rows; a query is its
    filter, order and limit. An opaque cursor is the struct it encodes. *)

From S2P Require Import Prelude GoStrings SqlOrder.

(** ** Rows *)

Record tx_record := mkTxRecord { t_hash : gostring; t_block : Z; t_index : Z; t_from : gostring;
  t_to : option gostring; t_type : Z }.
#[export] Instance tx_record_eq_dec : EqDecision tx_record.
Proof. solve_decision. Defined.
Definition t_key (t : tx_record) : Z * Z := (t_block t, t_index t).

Record transfer_record := mkTransferRecord { tt_hash : gostring; tt_block : Z; tt_log : Z; tt_from : gostring;
  tt_to : gostring }.
#[export] Instance transfer_record_eq_dec : EqDecision transfer_record.
Proof. solve_decision. Defined.
Definition tt_key (t : transfer_record) : Z * Z := (tt_block t, tt_log t).

(** ** Bounds *)

Record AddressFeedBound := mkBound { f_block : Z; f_index : option Z; f_inclusive : bool }.

Definition rowBound (b : AddressFeedBound) : Z * Z :=
  match f_index b with
  | Some i => (f_block b, i)
  | None => if f_inclusive b then (f_block b +₆₄ 1, 0) else (f_block b, 0)
  end.

(** The row-value condition of a query: none without a bound. *)
Definition admits (before : option AddressFeedBound) (k : Z * Z) : Prop :=
  match before with None => True | Some b => row_lt k (rowBound b) end.
#[export] Instance admits_dec before k : Decision (admits before k).
Proof. unfold admits. destruct before; apply _. Defined.

(** ** Transactions of an address *)

Definition moves (addr : gostring) (tt : transfer_record) : Prop := tt_from tt = addr ∨ tt_to tt = addr.
#[export] Instance moves_dec addr tt : Decision (moves addr tt).
Proof. unfold moves. apply _. Defined.

(** The grouped subquery: transactions joined with the transfers of the address. *)
Definition candidate_rows (addr : gostring) (before : option AddressFeedBound) (txs : list tx_record)
    (tts : list transfer_record) : list (gostring * (Z * Z)) :=
  remove_dups (tts ≫= λ tt, txs ≫= λ ct,
    if decide (t_hash ct = tt_hash tt ∧ moves addr tt ∧ admits before (t_key ct))
    then [(tt_hash tt, t_key ct)] else []).

Definition transfer_candidates (addr : gostring) (limit : nat) (before : option AddressFeedBound)
    (txs : list tx_record) (tts : list transfer_record) : list gostring :=
  fst <$> top snd limit (candidate_rows addr before txs tts).

Definition GetTransactionsByAddress (txs : list tx_record) (tts : list transfer_record) (address : gostring)
    (limit : nat) (before : option AddressFeedBound) : list tx_record :=
  let addr := ToLower address in
  let sent := top t_key limit (filter (λ t, t_from t = addr ∧ admits before (t_key t)) txs) in
  let received := top t_key limit (filter (λ t, t_to t = Some addr ∧ admits before (t_key t)) txs) in
  let moved := top t_key limit (filter (λ t, admits before (t_key t) ∧
    t_hash t ∈ transfer_candidates addr limit before txs tts) txs) in
  top t_key limit (remove_dups (sent ++ received ++ moved)).

(** What the page is meant to hold. *)
Definition participates (addr : gostring) (tts : list transfer_record) (t : tx_record) : Prop :=
  t_from t = addr ∨ t_to t = Some addr ∨ Exists (λ tt, tt_hash tt = t_hash t ∧ moves addr tt) tts.
#[export] Instance participates_dec addr tts t : Decision (participates addr tts t).
Proof. unfold participates. apply _. Defined.

Record tx_table_ok (txs : list tx_record) : Prop := {
  hashes_unique : NoDup (t_hash <$> txs);
  positions_unique : distinct t_key txs }.

(** ** Transfers, blocks and the main feed *)

Definition GetTransfersByAddress (tts : list transfer_record) (address : gostring) (limit : nat)
    (before : option AddressFeedBound) : list transfer_record :=
  let addr := ToLower address in
  top tt_key limit (filter (λ tt, moves addr tt ∧ admits before (tt_key tt)) tts).

Definition before_block (b : option Z) (n : Z) : Prop := match b with None => True | Some x => n < x end.
#[export] Instance before_block_dec b n : Decision (before_block b n).
Proof. unfold before_block. destruct b; apply _. Defined.

Definition GetTransactionsWithCategories (hidden : list Z) (txs : list tx_record) (limit : nat)
    (beforeBlock : option Z) : list tx_record :=
  top t_key limit (filter (λ t, t_type t ∉ hidden ∧ before_block beforeBlock (t_block t)) txs).

Definition GetTransactionsPaginatedWithCategories (hidden : list Z) (txs : list tx_record) (page pageSize : Z)
    : list tx_record :=
  take (Z.to_nat pageSize) (drop (Z.to_nat ((page - 1) * pageSize))
    (order_by t_key (filter (λ t, t_type t ∉ hidden) txs))).

(** A block row is its number. *)
Definition block_key (n : Z) : Z * Z := (n, 0).
Definition GetBlocks (blocks : list Z) (limit : nat) (beforeBlock : option Z) : list Z :=
  top block_key limit (filter (λ n, before_block beforeBlock n) blocks).

(** ** The server *)

Record server_config := mkServerConfig { DefaultPageSize : Z; MaxPageSize : Z }.
Definition server_withDefaults (c : server_config) : server_config :=
  mkServerConfig (if DefaultPageSize c =? 0 then 25 else DefaultPageSize c)
                 (if MaxPageSize c =? 0 then 100 else MaxPageSize c).

Definition clampPageSize (c : server_config) (requested : Z) : Z :=
  if requested <=? 0 then DefaultPageSize c
  else if MaxPageSize c <? requested then MaxPageSize c else requested.

Inductive rpc_error := InvalidArgument | OutOfRange (block through : Z) | Internal.

Definition lastBlockBelow (exclusiveUpper : Z) : Z := if exclusiveUpper =? 0 then 0 else exclusiveUpper - 1.
Definition outOfRetention (block through : Z) : option rpc_error :=
  if (0 <? through) && (block <=? through) then Some (OutOfRange block through) else None.

(** What a request reads of the prune watermark: the cached value, and a fresh
    one; [None] is a failed read. *)
Record watermarks := mkWatermarks { w_cached : option Z; w_fresh : option Z }.
Definition retained (through : option Z) (block : Z) : option rpc_error :=
  match through with None => Some Internal | Some w => outOfRetention block w end.
Definition checkRetained (w : watermarks) := retained (w_cached w).
Definition recheckRetained (w : watermarks) := retained (w_fresh w).

Definition i32 (z : Z) : Z := (z + 2 ^ 31) mod 2 ^ 32 - 2 ^ 31.

(** The cut at the limit: [rows[limit-1]] and [rows[:limit]] when the [n] rows
    counted are more. *)
Definition trim_page {A} (n : Z) (cursor : A → Z * Z) (rows : list A) (limit : Z) : outcome (list A * option (Z * Z)) :=
  if limit <? n then
    if decide (limit < 1) then Panic
    else match rows !! Z.to_nat (limit - 1) with
         | None => Panic
         | Some x => Val (take (Z.to_nat limit) rows, Some (cursor x))
         end
  else Val (rows, None).

Definition buildTxListResponse (rows : list tx_record) (limit : Z) :=
  trim_page (i32 (zlen rows)) (λ t, (t_block t, u32 (t_index t))) rows limit.

(** The page of a request: a cursor that decodes, one that does not, or none. *)
Inductive cursor_arg := NoCursor | BadCursor | Cursor (b i : Z).

Definition reply (A : Type) : Type := outcome (res rpc_error (list A * option (Z * Z))).
Definition respond {A} (m : outcome (list A * option (Z * Z))) : reply A :=
  match m with Val r => Val (Ok r) | Panic => Panic end.
Definition refuse {A} (e : option rpc_error) (k : reply A) : reply A :=
  match e with Some e => Val (Err e) | None => k end.

Definition sql_limit (limit : Z) : nat := Z.to_nat (limit + 1).

(** An address feed: the bound from the cursor or the block range, the retention
    checks of an explicit range, the query, the cut. *)
Definition address_feed {A} (query : nat → option AddressFeedBound → list A) (build : list A → Z → outcome (list A * option (Z * Z)))
    (w : watermarks) (limit : Z) (cur : cursor_arg) (toBlock : Z) : reply A :=
  match cur with
  | BadCursor => Val (Err InvalidArgument)
  | Cursor b i => respond (build (query (sql_limit limit) (Some (mkBound b (Some i) false))) limit)
  | NoCursor =>
      if 0 <? toBlock then
        refuse (checkRetained w (lastBlockBelow toBlock))
          (let rows := query (sql_limit limit) (Some (mkBound toBlock None false)) in
           refuse (if decide (rows = []) then recheckRetained w (lastBlockBelow toBlock) else None)
             (respond (build rows limit)))
      else respond (build (query (sql_limit limit) None) limit)
  end.

Definition ListTransactions_by_address (c : server_config) (w : watermarks) (txs : list tx_record)
    (tts : list transfer_record) (address : gostring) (page_size : Z) (cur : cursor_arg) (toBlock : Z) : reply tx_record :=
  if decide (address = []) then Val (Err InvalidArgument)
  else address_feed (GetTransactionsByAddress txs tts (ToLower address)) buildTxListResponse w
         (clampPageSize c page_size) cur toBlock.

Definition ListTokenTransfers_by_address (c : server_config) (w : watermarks) (tts : list transfer_record)
    (address : gostring) (page_size : Z) (cur : cursor_arg) (toBlock : Z) : reply transfer_record :=
  if decide (address = []) then Val (Err InvalidArgument)
  else address_feed (GetTransfersByAddress tts (ToLower address))
         (λ rows, trim_page (zlen rows) (λ t, (tt_block t, u32 (tt_log t))) rows) w (clampPageSize c page_size) cur toBlock.

Definition ListTransactions_feed (c : server_config) (hidden : list Z) (txs : list tx_record) (page_size : Z)
    (cur : cursor_arg) : reply tx_record :=
  let limit := clampPageSize c page_size in
  let page b := respond (buildTxListResponse (GetTransactionsWithCategories hidden txs (sql_limit limit) b) limit) in
  match cur with
  | BadCursor => Val (Err InvalidArgument)
  | NoCursor => page None
  | Cursor b _ => page (Some b)
  end.

Definition ListBlocks (c : server_config) (w : watermarks) (blocks : list Z) (page_size : Z) (cur : cursor_arg)
    (beforeNumber : Z) : reply Z :=
  let limit := clampPageSize c page_size in
  let page b :=
    refuse (b ≫= λ x, checkRetained w (lastBlockBelow x))
      (let rows := GetBlocks blocks (sql_limit limit) b in
       refuse (if decide (rows = []) then b ≫= λ x, recheckRetained w (lastBlockBelow x) else None)
         (respond (trim_page (i32 (zlen rows)) block_key rows limit))) in
  match cur with
  | BadCursor => Val (Err InvalidArgument)
  | Cursor b _ => page (Some b)
  | NoCursor => page (if 0 <? beforeNumber then Some beforeNumber else None)
  end.

(** ** The three branches are the whole answer *)

Section ByAddress.
Context (txs : list tx_record) (tts : list transfer_record) (addr : gostring).
Context (limit : nat) (before : option AddressFeedBound).
Hypothesis Hok : tx_table_ok txs.

Definition on_page (t : tx_record) : Prop := participates addr tts t ∧ admits before (t_key t).
Definition by_transfer (t : tx_record) : Prop :=
  admits before (t_key t) ∧ Exists (λ tt, tt_hash tt = t_hash t ∧ moves addr tt) tts.

#[local] Instance on_page_dec t : Decision (on_page t).
Proof. unfold on_page. apply _. Defined.
#[local] Instance by_transfer_dec t : Decision (by_transfer t).
Proof. unfold by_transfer. apply _. Defined.

Lemma same_hash t u : t ∈ txs → u ∈ txs → t_hash t = t_hash u → t = u.
Proof. intros. eapply (NoDup_fmap_elem_inj t_hash); eauto. apply hashes_unique. done. Qed.

Lemma candidate_rows_perm :
  candidate_rows addr before txs tts ≡ₚ (λ t, (t_hash t, t_key t)) <$> filter by_transfer txs.
Proof.
  apply NoDup_Permutation; [apply NoDup_remove_dups| |].
  - apply (NoDup_fmap_1 fst). rewrite <-list_fmap_compose.
    apply NoDup_fmap_filter, Hok.
  - intros [h k]. unfold candidate_rows. rewrite elem_of_remove_dups, list_elem_of_bind, list_elem_of_fmap.
    setoid_rewrite list_elem_of_bind. setoid_rewrite list_elem_of_filter. split.
    + intros (tt & (ct & Hin & Hct) & Htt). case_decide as Hd; [|by apply not_elem_of_nil in Hin].
      apply list_elem_of_singleton in Hin as [= -> ->]. destruct Hd as (Eh & Hm & Ha).
      exists ct. rewrite Eh. split_and!; [done|split; [done|]|done]. apply Exists_exists. eauto.
    + intros (t & [= -> ->] & [Ha (tt & Htt & Eh & Hm)%Exists_exists] & Ht).
      exists tt. split; [|done]. exists t. rewrite decide_True by eauto. rewrite Eh. split; [by left|done].
Qed.

Lemma moved_top :
  top t_key limit (filter (λ t, admits before (t_key t) ∧ t_hash t ∈ transfer_candidates addr limit before txs tts) txs)
  = top t_key limit (filter by_transfer txs).
Proof.
  pose proof (positions_unique _ Hok) as Hk.
  assert (transfer_candidates addr limit before txs tts = t_hash <$> top t_key limit (filter by_transfer txs)) as Ec.
  { assert (distinct snd (candidate_rows addr before txs tts)) as Hc.
    { unfold distinct. rewrite candidate_rows_perm, <-list_fmap_compose. by apply (distinct_filter t_key). }
    unfold transfer_candidates, top. rewrite (order_by_Permutation snd _ _ Hc candidate_rows_perm).
    rewrite (order_by_fmap _ t_key snd) by (done || by apply distinct_filter).
    by rewrite !fmap_take, <-list_fmap_compose. }
  rewrite Ec. apply (top_sandwich t_key limit _ _).
  - by apply distinct_filter.
  - apply NoDup_filter, (distinct_NoDup t_key), Hk.
  - intros t [[Ha (u & Eu & Hu)%list_elem_of_fmap] Ht]%list_elem_of_filter.
    apply elem_of_top in Hu as Hu'. apply list_elem_of_filter in Hu' as [Hb Hu2].
    rewrite (same_hash t u) by done. by apply list_elem_of_filter.
  - intros t Ht. apply elem_of_top in Ht as Ht'. apply list_elem_of_filter in Ht' as [[Ha Hb] Ht2].
    apply list_elem_of_filter. split; [|done]. split; [done|]. by apply list_elem_of_fmap_2.
Qed.

(** A cut branch keeps every row of the branch that is in the cut of the whole. *)
Lemma top_branch (P Q : tx_record → Prop) `{!∀ t, Decision (P t), !∀ t, Decision (Q t)} t :
  (∀ u, P u → Q u) → t ∈ top t_key limit (filter Q txs) → P t → t ∈ top t_key limit (filter P txs).
Proof.
  intros Himp Ht HP. pose proof (positions_unique _ Hok) as Hk.
  assert (order_by t_key (filter P txs) = filter P (order_by t_key (filter Q txs))) as E.
  { rewrite <-order_by_filter by (by apply distinct_filter). f_equal. rewrite list_filter_filter.
    apply list_filter_iff. intros u. split; [auto|by intros []]. }
  unfold top. rewrite E. unfold top in Ht. rewrite <-(take_drop limit (order_by t_key (filter Q txs))), filter_app.
  apply elem_of_take in Ht as (i & Hi & Hlt).
  assert (t ∈ filter P (take limit (order_by t_key (filter Q txs)))) as Hf.
  { apply list_elem_of_filter. split; [done|]. apply elem_of_take. eauto. }
  rewrite take_app_ge; [set_solver|]. etrans; [apply length_filter|]. rewrite length_take. lia.
Qed.

Lemma by_address_exact :
  top t_key limit (remove_dups
    (top t_key limit (filter (λ t, t_from t = addr ∧ admits before (t_key t)) txs) ++
     top t_key limit (filter (λ t, t_to t = Some addr ∧ admits before (t_key t)) txs) ++
     top t_key limit (filter (λ t, admits before (t_key t) ∧ t_hash t ∈ transfer_candidates addr limit before txs tts) txs)))
  = top t_key limit (filter on_page txs).
Proof.
  rewrite moved_top. pose proof (positions_unique _ Hok) as Hk. apply (top_sandwich t_key limit _ _).
  - by apply distinct_filter.
  - apply NoDup_remove_dups.
  - intros t Ht. rewrite elem_of_remove_dups, !elem_of_app in Ht. apply list_elem_of_filter.
    destruct Ht as [Ht|[Ht|Ht]]; apply elem_of_top in Ht; apply list_elem_of_filter in Ht as [Hp Ht];
      (split; [|done]); unfold on_page, participates, by_transfer in *; tauto.
  - intros t Ht. rewrite elem_of_remove_dups, !elem_of_app.
    apply elem_of_top in Ht as Ht'. apply list_elem_of_filter in Ht' as [[[Hp|[Hp|Hp]] Ha] _].
    + left. by apply (top_branch _ on_page); [unfold on_page, participates; tauto|..].
    + right; left. by apply (top_branch _ on_page); [unfold on_page, participates; tauto|..].
    + right; right. by apply (top_branch _ on_page); [unfold on_page, participates, by_transfer; tauto|..].
Qed.

Lemma filter_on_page (l : list tx_record) :
  filter on_page l = filter (λ t, admits before (t_key t)) (filter (participates addr tts) l).
Proof. rewrite list_filter_filter. apply list_filter_iff. intros x. unfold on_page. tauto. Qed.
End ByAddress.

(** ** Pages *)

Definition page_size_ok (limit : Z) : Prop := 1 ≤ limit < 2 ^ 31 - 1.

Lemma clampPageSize_ok c requested :
  0 ≤ DefaultPageSize c < 2 ^ 31 - 1 → 0 ≤ MaxPageSize c < 2 ^ 31 - 1 →
  page_size_ok (clampPageSize (server_withDefaults c) requested).
Proof.
  intros Hd Hm. unfold page_size_ok, clampPageSize, server_withDefaults. cbn [DefaultPageSize MaxPageSize].
  destruct (Z.eqb_spec (DefaultPageSize c) 0), (Z.eqb_spec (MaxPageSize c) 0), (Z.leb_spec requested 0);
    try destruct (Z.ltb_spec 100 requested); try destruct (Z.ltb_spec (MaxPageSize c) requested); lia.
Qed.

Lemma i32_small z : 0 ≤ z < 2 ^ 31 → i32 z = z.
Proof. intros. unfold i32. rewrite Z.mod_small; lia. Qed.

Lemma trim_page_cut {A} (key cursor : A → Z * Z) n (rows : list A) limit :
  page_size_ok limit → (length rows ≤ sql_limit limit)%nat → n = zlen rows → (∀ x, x ∈ rows → cursor x = key x) →
  trim_page n cursor rows limit = Val (cut key (Z.to_nat limit) rows).
Proof.
  unfold page_size_ok, sql_limit. intros Hl Hlen -> Hc. unfold trim_page, cut.
  destruct (Z.ltb_spec limit (zlen rows)) as [Hlt|Hge]; unfold zlen in *.
  - rewrite decide_False, decide_True by lia.
    destruct (lookup_lt_is_Some_2 rows (Z.to_nat (limit - 1))) as [x Hx]; [lia|]. rewrite Hx.
    replace (Z.to_nat limit - 1)%nat with (Z.to_nat (limit - 1)) by lia. rewrite Hx. cbn.
    rewrite Hc; [done|]. by eapply list_elem_of_lookup_2.
  - by rewrite decide_False by lia.
Qed.

Definition cursor_of (c : option (Z * Z)) : cursor_arg := match c with None => NoCursor | Some (b, i) => Cursor b i end.
(** What a client sees of a reply: the page, or that it failed. *)
Definition page_of {A} (r : reply A) : option (list A * option (Z * Z)) :=
  match r with Val (Ok p) => Some p | _ => None end.

Lemma length_top {A} (key : A → Z * Z) n l : (length (top key n l) ≤ n)%nat.
Proof. unfold top. rewrite length_take. lia. Qed.

Section Feed.
Context {A : Type} `{!EqDecision A} (key : A → Z * Z).
(** The rows of the feed, as each request finds them. *)
Context (rows : nat → list A).

(** The table only grows above the rows the first request found. *)
Definition grows_above : Prop := ∀ n, distinct key (rows n) ∧
  ∃ newer, rows n ≡ₚ rows O ++ newer ∧ ∀ x y, x ∈ newer → y ∈ rows O → row_lt (key y) (key x).

Hypothesis Hgrow : grows_above.

Lemma order_by_below n b : b ∈ key <$> order_by key (rows O) →
  order_by key (filter (λ x, row_lt (key x) b) (rows n)) = below key (Some b) (order_by key (rows O)).
Proof.
  intros (y & -> & Hy%elem_of_order_by)%list_elem_of_fmap. cbn.
  destruct (Hgrow n) as [Hd (newer & Hp & Hn)]. destruct (Hgrow O) as [Hd0 _].
  rewrite <-order_by_filter by done.
  apply order_by_Permutation; [by apply distinct_filter|].
  rewrite Hp, filter_app, (filter_none _ newer); [by rewrite app_nil_r|].
  intros x Hx Hlt. apply (irreflexivity row_lt (key x)). trans (key y); [done|auto].
Qed.

(** A feed whose pages are cuts of the rows below their bound is walked to its end. *)
Lemma feed_complete limit page : page_size_ok limit →
  (∀ n, page n None = Some (cut key (Z.to_nat limit) (top key (sql_limit limit) (rows n)))) →
  (∀ n b, b ∈ key <$> rows O → Exists (λ x, row_lt (key x) b) (rows n) → page n (Some b) =
     Some (cut key (Z.to_nat limit) (top key (sql_limit limit) (filter (λ x, row_lt (key x) b) (rows n))))) →
  ∃ pages, follow (S (length (rows O))) page O None = Some pages ∧ concat pages = order_by key (rows O) ∧
    Forall (λ p, zlen p ≤ limit) pages.
Proof.
  intros Hl Hfirst Hnext. unfold page_size_ok in Hl.
  assert (sql_limit limit = S (Z.to_nat limit)) as El by (unfold sql_limit; lia).
  destruct (follow_walks key (Z.to_nat limit) page (order_by key (rows O))) with
    (fuel := S (length (rows O))) (n := O) (c := @None (Z * Z)) (front := @nil A) (rest := order_by key (rows O))
    as (pages & Hf & Hc & Hall).
  - lia.
  - apply strict_order_by, Hgrow.
  - intros n b Hb Hne. rewrite <-(order_by_below n b Hb) in Hne.
    rewrite Hnext; [unfold top; by rewrite El, (order_by_below n b Hb)|by rewrite order_by_perm in Hb|].
    destruct (decide (Exists (λ x, row_lt (key x) b) (rows n))) as [|Hn]; [done|]. destruct Hne.
    rewrite filter_none; [done|]. intros x Hx Hlt. apply Hn, Exists_exists. eauto.
  - done.
  - rewrite order_by_perm. lia.
  - rewrite Hfirst. unfold top. by rewrite El.
  - exists pages. split_and!; [done..|]. eapply Forall_impl; [exact Hall|]. intros p Hp. cbv beta in *. unfold zlen. lia.
Qed.
End Feed.

(** ** The feeds of an address *)

(** the optimised query for the transactions of an address (three branches,
    each ordered and cut on its own, the third through a grouped subquery, then
    merged without duplicates and cut again) answers exactly what the plain query
    would: of all transactions the address sent, received or has a token transfer
    in, and within the bound, the newest up to the limit, newest first. *)
Theorem address_page_exact txs tts address limit before :
  tx_table_ok txs →
  GetTransactionsByAddress txs tts address limit before =
  top t_key limit (filter (λ t, participates (ToLower address) tts t ∧ admits before (t_key t)) txs).
Proof. intros Hok. unfold GetTransactionsByAddress. rewrite by_address_exact by done. done. Qed.

Section AddressFeed.
Context (c : server_config) (w : watermarks) (address : gostring) (page_size : Z).
Context (txs : nat → list tx_record) (tts : nat → list transfer_record).

Let cfg := server_withDefaults c.
Let limit := clampPageSize cfg page_size.

Definition config_ok (c : server_config) : Prop :=
  0 ≤ DefaultPageSize c < 2 ^ 31 - 1 ∧ 0 ≤ MaxPageSize c < 2 ^ 31 - 1.

Definition address_txs (n : nat) : list tx_record := filter (participates (ToLower address) (tts n)) (txs n).

Lemma build_tx_cut rows : page_size_ok limit → (length rows ≤ sql_limit limit)%nat →
  Forall (λ t, 0 ≤ t_index t < 2 ^ 32) rows →
  buildTxListResponse rows limit = Val (cut t_key (Z.to_nat limit) rows).
Proof.
  intros Hl Hlen Hi. unfold buildTxListResponse. apply trim_page_cut; [done|done| |].
  - apply i32_small. unfold page_size_ok, sql_limit, zlen in *. lia.
  - intros x Hx. unfold t_key, u32. rewrite Forall_forall in Hi. rewrite Z.mod_small; [done|auto].
Qed.

Lemma tx_page n b : page_size_ok limit → tx_table_ok (txs n) → address ≠ [] →
  Forall (λ t, 0 ≤ t_index t < 2 ^ 32) (txs n) →
  page_of (ListTransactions_by_address cfg w (txs n) (tts n) address page_size (cursor_of b) 0) =
  Some (cut t_key (Z.to_nat limit) (top t_key (sql_limit limit)
    (match b with None => address_txs n | Some b => filter (λ x, row_lt (t_key x) b) (address_txs n) end))).
Proof.
  intros Hl Hok Ha Hi. unfold ListTransactions_by_address. rewrite decide_False by done. fold limit.
  assert (∀ bound, page_of (respond (buildTxListResponse
      (GetTransactionsByAddress (txs n) (tts n) (ToLower address) (sql_limit limit) bound) limit)) =
    Some (cut t_key (Z.to_nat limit) (top t_key (sql_limit limit)
      (filter (λ t, admits bound (t_key t)) (address_txs n))))) as H.
  { intros bound. unfold GetTransactionsByAddress. rewrite by_address_exact by done.
    rewrite filter_on_page, ToLower_idemp. rewrite build_tx_cut; [done|done|apply length_top|].
    apply Forall_forall. intros t Ht%elem_of_top. apply list_elem_of_filter in Ht as [_ [_ Ht]%list_elem_of_filter].
    rewrite Forall_forall in Hi. auto. }
  destruct b as [[b i]|].
  - etrans; [apply (H (Some (mkBound b (Some i) false)))|done].
  - etrans; [apply (H None)|]. do 3 f_equal. apply filter_all. done.
Qed.
End AddressFeed.

(** The chain grows while a client pages: a later table has the rows of the first
    and, above them, rows of newer blocks, whose transfers are their own. *)
Definition tables_grow (txs : nat → list tx_record) (tts : nat → list transfer_record) : Prop := ∀ n,
  tx_table_ok (txs n) ∧ Forall (λ t, 0 ≤ t_index t < 2 ^ 32) (txs n) ∧
  ∃ new_txs new_tts, txs n ≡ₚ txs O ++ new_txs ∧ tts n ≡ₚ tts O ++ new_tts ∧
    (∀ x y, x ∈ new_txs → y ∈ txs O → t_block y < t_block x) ∧
    (∀ tt y, tt ∈ new_tts → y ∈ txs O → tt_hash tt ≠ t_hash y).

Lemma address_txs_grow address txs tts : tables_grow txs tts → grows_above t_key (address_txs address txs tts).
Proof.
  intros Hg n. destruct (Hg n) as (Hok & _ & new_txs & new_tts & Ht & Htt & Hab & Hown). split.
  { apply distinct_filter, Hok. }
  exists (filter (participates (ToLower address) (tts n)) new_txs). split.
  - unfold address_txs. rewrite Ht, filter_app. f_equiv.
    rewrite (filter_ext_elem (participates (ToLower address) (tts n)) (participates (ToLower address) (tts O))); [done|].
    intros y Hy. unfold participates. rewrite Htt, Exists_app.
    assert (¬ Exists (λ tt, tt_hash tt = t_hash y ∧ moves (ToLower address) tt) new_tts); [|tauto].
    rewrite Exists_exists. intros (tt & Hin & E & _). by eapply Hown.
  - intros x y [_ Hx]%list_elem_of_filter [_ Hy]%list_elem_of_filter. left. cbn. auto.
Qed.

(** C13: a client that follows the cursor of the transactions of an address sees
    every transaction the address takes part in that was stored when it began,
    once, newest first, in pages no longer than the page size, and the walk ends,
    although blocks are appended while it pages and whatever the page size asked. *)
Theorem address_feed_complete c w address page_size txs tts :
  config_ok c → address ≠ [] → tables_grow txs tts →
  let limit := clampPageSize (server_withDefaults c) page_size in
  ∃ pages, follow (S (length (address_txs address txs tts O)))
      (λ n b, page_of (ListTransactions_by_address (server_withDefaults c) w (txs n) (tts n) address page_size (cursor_of b) 0))
      O None = Some pages ∧
    concat pages = order_by t_key (filter (participates (ToLower address) (tts O)) (txs O)) ∧
    Forall (λ p, zlen p ≤ limit) pages.
Proof.
  intros [Hc1 Hc2] Ha Hg limit. assert (page_size_ok limit) as Hl by by apply clampPageSize_ok.
  apply (feed_complete t_key (address_txs address txs tts)); [by apply address_txs_grow|done| |].
  - intros n. apply (tx_page c w address page_size txs tts n None); [done|apply Hg|done|apply Hg].
  - intros n b _ _. apply (tx_page c w address page_size txs tts n (Some b)); [done|apply Hg|done|apply Hg].
Qed.

(** ** Transfers of an address *)

Definition address_transfers (address : gostring) (tts : nat → list transfer_record) (n : nat) : list transfer_record :=
  filter (moves (ToLower address)) (tts n).

Lemma transfer_page c w address page_size tts n b :
  let limit := clampPageSize (server_withDefaults c) page_size in
  page_size_ok limit → address ≠ [] → Forall (λ t, 0 ≤ tt_log t < 2 ^ 32) (tts n) →
  page_of (ListTokenTransfers_by_address (server_withDefaults c) w (tts n) address page_size (cursor_of b) 0) =
  Some (cut tt_key (Z.to_nat limit) (top tt_key (sql_limit limit)
    (match b with None => address_transfers address tts n
                | Some b => filter (λ x, row_lt (tt_key x) b) (address_transfers address tts n) end))).
Proof.
  intros limit Hl Ha Hi. unfold ListTokenTransfers_by_address. rewrite decide_False by done. fold limit.
  assert (∀ bound, page_of (respond (trim_page
      (zlen (GetTransfersByAddress (tts n) (ToLower address) (sql_limit limit) bound)) (λ t, (tt_block t, u32 (tt_log t)))
      (GetTransfersByAddress (tts n) (ToLower address) (sql_limit limit) bound) limit)) =
    Some (cut tt_key (Z.to_nat limit) (top tt_key (sql_limit limit)
      (filter (λ t, admits bound (tt_key t)) (address_transfers address tts n))))) as H.
  { intros bound. unfold GetTransfersByAddress, address_transfers. rewrite ToLower_idemp, list_filter_filter.
    rewrite (list_filter_iff (λ x, admits bound (tt_key x) ∧ moves (ToLower address) x)
      (λ x, moves (ToLower address) x ∧ admits bound (tt_key x))) by tauto.
    rewrite (trim_page_cut tt_key); [done|done|apply length_top|done|].
    intros t [_ Ht]%elem_of_top%list_elem_of_filter. unfold tt_key, u32. rewrite Forall_forall in Hi.
    rewrite Z.mod_small; [done|auto]. }
  destruct b as [[b i]|].
  - etrans; [apply (H (Some (mkBound b (Some i) false)))|done].
  - etrans; [apply (H None)|]. do 3 f_equal. apply filter_all. done.
Qed.

(** The token transfers of an address are walked the same way. *)
Theorem transfer_feed_complete c w address page_size tts :
  config_ok c → address ≠ [] → (∀ n, Forall (λ t, 0 ≤ tt_log t < 2 ^ 32) (tts n)) →
  grows_above tt_key (address_transfers address tts) →
  ∃ pages, follow (S (length (address_transfers address tts O)))
      (λ n b, page_of (ListTokenTransfers_by_address (server_withDefaults c) w (tts n) address page_size (cursor_of b) 0))
      O None = Some pages ∧
    concat pages = order_by tt_key (address_transfers address tts O) ∧
    Forall (λ p, zlen p ≤ clampPageSize (server_withDefaults c) page_size) pages.
Proof.
  intros [Hc1 Hc2] Ha Hi Hg.
  assert (page_size_ok (clampPageSize (server_withDefaults c) page_size)) as Hl by by apply clampPageSize_ok.
  apply (feed_complete tt_key); [done|done| |].
  - intros n. by apply (transfer_page c w address page_size tts n None).
  - intros n b _ _. by apply (transfer_page c w address page_size tts n (Some b)).
Qed.

(** ** Blocks *)

Section BlockFeed.
Context (c : server_config) (w : watermarks) (page_size through : Z) (blocks : nat → list Z).
Let limit := clampPageSize (server_withDefaults c) page_size.
Hypothesis Hl : page_size_ok limit.
Hypothesis Hw : w_cached w = Some through.

Lemma retained_above b : through < b - 1 ∨ through ≤ 0 → checkRetained w (lastBlockBelow b) = None.
Proof.
  intros Hb. unfold checkRetained, retained, outOfRetention, lastBlockBelow. rewrite Hw.
  destruct (Z.ltb_spec 0 through); [|done]. destruct (Z.eqb_spec b 0); [lia|].
  cbn. destruct (Z.leb_spec (b - 1) through); [lia|done].
Qed.

Lemma trim_blocks rows : (length rows ≤ sql_limit limit)%nat →
  trim_page (i32 (zlen rows)) block_key rows limit = Val (cut block_key (Z.to_nat limit) rows).
Proof.
  intros. apply trim_page_cut; [done|done| |done]. apply i32_small. unfold page_size_ok, sql_limit, zlen in *. lia.
Qed.

Lemma blocks_page_first n :
  page_of (ListBlocks (server_withDefaults c) w (blocks n) page_size (cursor_of None) 0) =
  Some (cut block_key (Z.to_nat limit) (top block_key (sql_limit limit) (blocks n))).
Proof.
  unfold ListBlocks. cbn [cursor_of]. change (0 <? 0) with false. cbn [mbind option_bind refuse]. fold limit.
  unfold GetBlocks. rewrite filter_all by done. case_decide as E; cbn [refuse].
  all: by rewrite trim_blocks by apply length_top.
Qed.

Lemma blocks_page_next n x : through < x - 1 ∨ through ≤ 0 → Exists (λ y, y < x) (blocks n) →
  page_of (ListBlocks (server_withDefaults c) w (blocks n) page_size (cursor_of (Some (block_key x))) 0) =
  Some (cut block_key (Z.to_nat limit) (top block_key (sql_limit limit)
    (filter (λ y, row_lt (block_key y) (block_key x)) (blocks n)))).
Proof.
  intros Hx (y & Hy & Hyx)%Exists_exists. unfold ListBlocks. cbn [cursor_of block_key]. fold limit.
  cbn [mbind option_bind]. rewrite retained_above by done. cbn [refuse]. unfold GetBlocks.
  rewrite (list_filter_iff (λ n, before_block (Some x) n) (λ y, row_lt (block_key y) (block_key x)))
    by (intros z; unfold row_lt, block_key, before_block; cbn; lia).
  rewrite decide_False; cbn [refuse]; [by rewrite trim_blocks by apply length_top|].
  intros E. assert (y ∈ order_by block_key (filter (λ y, row_lt (block_key y) (block_key x)) (blocks n))) as Hin.
  { rewrite elem_of_order_by. apply list_elem_of_filter. split; [by left|done]. }
  unfold top in E. apply (f_equal length) in E. rewrite length_take in E.
  destruct (order_by block_key _); [by apply not_elem_of_nil in Hin|]. cbn in E. unfold page_size_ok, sql_limit in *. lia.
Qed.
End BlockFeed.

(** the block feed: a client that follows its cursor sees every stored
    block once, newest first, in pages no longer than the page size, and no
    request of the walk is refused as pruned, as long as every stored block is
    above the watermark the server has cached, blocks are appended above, and
    the cached watermark is not replaced on the way. *)
Theorem block_feed_complete c w page_size through blocks :
  config_ok c → w_cached w = Some through → Forall (λ n, through < n) (blocks O) →
  grows_above block_key blocks →
  ∃ pages, follow (S (length (blocks O)))
      (λ n b, page_of (ListBlocks (server_withDefaults c) w (blocks n) page_size (cursor_of b) 0)) O None = Some pages ∧
    concat pages = order_by block_key (blocks O) ∧
    Forall (λ p, zlen p ≤ clampPageSize (server_withDefaults c) page_size) pages.
Proof.
  intros [Hc1 Hc2] Hw Hab Hg.
  assert (page_size_ok (clampPageSize (server_withDefaults c) page_size)) as Hl by by apply clampPageSize_ok.
  apply (feed_complete block_key); [done|done| |].
  - intros n. by apply blocks_page_first.
  - intros n b (x & -> & Hx)%list_elem_of_fmap Hlow. rewrite (blocks_page_next c w page_size through blocks Hl Hw n x); [done| |].
    + apply Exists_exists in Hlow as (y & Hy & Hyx). destruct (Hg n) as [_ (newer & Hp & Hn)].
      rewrite Hp, elem_of_app in Hy. rewrite Forall_forall in Hab.
      unfold row_lt in Hyx; cbn in Hyx. destruct Hy as [Hy|Hy]; [specialize (Hab y Hy); lia|].
      specialize (Hn y x Hy Hx). unfold row_lt in Hn; cbn in Hn. lia.
    + eapply Exists_impl; [exact Hlow|]. intros y. unfold row_lt. cbn. lia.
Qed.

(** ** The main feed *)

Lemma main_page_below c hidden txs page_size b i rows next : page_size_ok (clampPageSize c page_size) →
  page_of (ListTransactions_feed c hidden txs page_size (Cursor b i)) = Some (rows, next) →
  Forall (λ t, t_block t < b) rows ∧ (∀ b' i', next = Some (b', i') → b' < b).
Proof.
  intros Hl. unfold ListTransactions_feed, buildTxListResponse, trim_page, page_size_ok in *.
  set (limit := clampPageSize c page_size) in *.
  set (q := GetTransactionsWithCategories hidden txs (sql_limit limit) (Some b)).
  assert (∀ t, t ∈ q → t_block t < b) as Hq.
  { intros t [[_ Ht] _]%elem_of_top%list_elem_of_filter. done. }
  destruct (_ <? _); [|intros [= <- <-]; split; [by apply Forall_forall|done]].
  rewrite decide_False by lia. destruct (q !! _) as [x|] eqn:Ex; [|done]. intros [= <- <-]. split.
  - apply Forall_forall. intros t (j & Hj & _)%elem_of_take. by eapply Hq, list_elem_of_lookup_2.
  - intros ?? [= <- <-]. by eapply Hq, list_elem_of_lookup_2.
Qed.

Lemma main_feed_below c hidden txs page_size : page_size_ok (clampPageSize c page_size) →
  ∀ fuel n b i pages, follow fuel (λ n b, page_of (ListTransactions_feed c hidden (txs n) page_size (cursor_of b)))
    n (Some (b, i)) = Some pages → Forall (λ t, t_block t < b) (concat pages).
Proof.
  intros Hl. induction fuel as [|fuel IH]; intros n b i pages; [done|]. cbn [follow cursor_of].
  destruct (page_of _) as [[rows next]|] eqn:E; [|done].
  apply main_page_below in E as [Hrows Hnext]; [|done]. destruct next as [[b' i']|].
  - destruct (follow _ _ _ _) as [rest|] eqn:Ef; [|done]. intros [= <-]. cbn. apply Forall_app. split; [done|].
    eapply Forall_impl; [by eapply IH|]. intros t Ht. specialize (Hnext _ _ eq_refl). cbv beta in *. lia.
  - intros [= <-]. cbn. by rewrite app_nil_r.
Qed.

(** the main transaction feed leaves rows out: its cursor carries the
    transaction index but the next page uses only the block, so when a page ends
    inside a block every other transaction of that block, not on that page, is on
    no page, however far the client follows the cursor and whatever is indexed
    meanwhile. *)
Theorem main_feed_skips c hidden txs page_size rows b i t fuel pages :
  page_size_ok (clampPageSize c page_size) →
  page_of (ListTransactions_feed c hidden (txs O) page_size NoCursor) = Some (rows, Some (b, i)) →
  t_block t = b → t ∉ rows →
  follow fuel (λ n b, page_of (ListTransactions_feed c hidden (txs n) page_size (cursor_of b))) O None = Some pages →
  t ∉ concat pages.
Proof.
  intros Hl Hp Hb Ht. destruct fuel as [|fuel]; [done|]. cbn [follow cursor_of]. rewrite Hp.
  destruct (follow _ _ _ _) as [rest|] eqn:Ef; [|done]. intros [= <-]. cbn. rewrite not_elem_of_app. split; [done|].
  apply main_feed_below in Ef; [|done]. rewrite Forall_forall in Ef. intros Hin. specialize (Ef t Hin). cbv beta in Ef. lia.
Qed.

(** ** Witnesses *)

Definition sample_tx (h b i : Z) (from : gostring) (to : option gostring) : tx_record :=
  mkTxRecord (be_bytes 2 h) b i from to 2.
Definition sample_txs : list tx_record :=
  [sample_tx 1 7 0 $"0xaa" None; sample_tx 2 7 1 $"0xbb" (Some $"0xaa"); sample_tx 3 7 2 $"0xcc" (Some $"0xdd");
   sample_tx 4 8 0 $"0xcc" (Some $"0xdd"); sample_tx 5 5 0 $"0xaa" (Some $"0xaa")].
Definition sample_tts : list transfer_record :=
  [mkTransferRecord (be_bytes 2 3) 7 4 $"0xcc" $"0xaa"; mkTransferRecord (be_bytes 2 3) 7 5 $"0xaa" $"0xcc"].

Lemma sample_txs_ok : tx_table_ok sample_txs.
Proof. split; apply (bool_decide_eq_true_1 _); vm_compute; reflexivity. Qed.

(** Two requests in, block 9 has been indexed. *)
Definition growing_txs (n : nat) : list tx_record :=
  sample_txs ++ if (n <? 2)%nat then [] else [sample_tx 6 9 0 $"0xaa" None].

Lemma growing_ok : tables_grow growing_txs (λ _, sample_tts).
Proof.
  intros n. unfold growing_txs. change (0 <? 2)%nat with true. rewrite app_nil_r.
  destruct (n <? 2)%nat; rewrite ?app_nil_r.
  - split; [apply sample_txs_ok|]. split; [apply (bool_decide_eq_true_1 _); vm_compute; reflexivity|].
    exists [], []. rewrite !app_nil_r. split_and!; [done|done| |]; intros ?? Hin; by apply not_elem_of_nil in Hin.
  - split; [split; apply (bool_decide_eq_true_1 _); vm_compute; reflexivity|].
    split; [apply (bool_decide_eq_true_1 _); vm_compute; reflexivity|].
    exists [sample_tx 6 9 0 $"0xaa" None], []. rewrite !app_nil_r. split_and!; [done|done| |].
    + intros x y ->%list_elem_of_singleton Hy. revert y Hy. apply Forall_forall, (bool_decide_eq_true_1 _).
      vm_compute; reflexivity.
    + intros ?? Hin; by apply not_elem_of_nil in Hin.
Qed.

Lemma address_page_exact_witness :
  GetTransactionsByAddress sample_txs sample_tts $"0xAA" 2 None = [sample_tx 3 7 2 $"0xcc" (Some $"0xdd"); sample_tx 2 7 1 $"0xbb" (Some $"0xaa")].
Proof. rewrite (address_page_exact _ _ _ _ _ sample_txs_ok). vm_compute. reflexivity. Defined.

Lemma address_feed_complete_witness :
  ∃ pages, follow 5 (λ n b, page_of (ListTransactions_by_address (server_withDefaults (mkServerConfig 0 2))
      (mkWatermarks None None) (growing_txs n) sample_tts $"0xAA" 1 (cursor_of b) 0)) 0 None = Some pages ∧
    concat pages = order_by t_key (filter (participates $"0xaa" sample_tts) sample_txs) ∧ Forall (λ p, zlen p ≤ 1) pages.
Proof.
  apply (address_feed_complete (mkServerConfig 0 2) (mkWatermarks None None) $"0xAA" 1 growing_txs (λ _, sample_tts)).
  - split; cbn; lia.
  - discriminate.
  - exact growing_ok.
Defined.

Lemma block_feed_complete_witness :
  ∃ pages, follow 5 (λ n b, page_of (ListBlocks (server_withDefaults (mkServerConfig 0 3)) (mkWatermarks (Some 11) None)
      (seqZ 12 (4 + Z.of_nat n)) 2 (cursor_of b) 0)) 0 None = Some pages ∧
    concat pages = [15; 14; 13; 12] ∧ Forall (λ p, zlen p ≤ 2) pages.
Proof.
  apply (block_feed_complete (mkServerConfig 0 3) (mkWatermarks (Some 11) None) 2 11 (λ n, seqZ 12 (4 + Z.of_nat n))).
  - split; cbn; lia.
  - done.
  - apply (bool_decide_eq_true_1 _). vm_compute. reflexivity.
  - intros n. split.
    + unfold distinct. apply NoDup_fmap_2_strong; [intros x y _ _; unfold block_key; congruence|apply NoDup_seqZ].
    + exists (seqZ 16 (Z.of_nat n)). split.
      * change (4 + Z.of_nat 0) with 4. rewrite (seqZ_app 12 4 (Z.of_nat n)) by lia. done.
      * intros x y Hx%elem_of_seqZ Hy%elem_of_seqZ. left. cbn in *. lia.
Defined.

(** Two of the three transactions of block 7 are on no page of size 2. *)
Lemma main_feed_skips_witness :
  sample_tx 1 7 0 $"0xaa" None ∉ concat [[sample_tx 4 8 0 $"0xcc" (Some $"0xdd"); sample_tx 3 7 2 $"0xcc" (Some $"0xdd")];
    [sample_tx 5 5 0 $"0xaa" (Some $"0xaa")]].
Proof.
  eapply (main_feed_skips (server_withDefaults (mkServerConfig 0 0)) [126] (λ _, sample_txs) 2
    [sample_tx 4 8 0 $"0xcc" (Some $"0xdd"); sample_tx 3 7 2 $"0xcc" (Some $"0xdd")] 7 2 _ 6).
  - unfold page_size_ok. cbn. lia.
  - vm_compute. reflexivity.
  - reflexivity.
  - apply (bool_decide_eq_true_1 _). vm_compute. reflexivity.
  - vm_compute. reflexivity.
Defined.
