(* ===== verification/Collector.v ===== *)
(** * The gap scanners: internal/indexer/missing_range_collector.go

    [collector] is the struct's mutable state.  The functions run against any
    [GapStore]; the node's head and realtime's cursor are arguments of the pass
    that asks for them.  The loops over batches recurse on fuel and answer
    [None] when it runs out; [scan_fuel] is enough whenever the code's own loop
    ends ([initialScan_total], [scanForward_total]).  The two scanner goroutines
    write different fields, so a run is a sequence of passes; what one of them
    saves while the other is between two statements is an [AInsert] of the
    script. *)

From S2P Require Import Prelude MissingRanges.

Record MissingRangeCollectorConfig := mkConfig {
  BatchSize : Z; FirstBlock : Z; LastBlock : Z }.

Definition DefaultMissingRangeCollectorConfig : MissingRangeCollectorConfig := mkConfig 100000 0 0.

Record collector := mkCollector {
  minFetchedBlock : Z;
  maxFetchedBlock : Z;
  chainHead : Z;
  backfillComplete : bool;
  initialScanDone : bool;
  unscanned : list BlockRange }.

Definition NewMissingRangeCollector : collector := mkCollector 0 0 0 false false [].

Definition set_unscanned (f : list BlockRange → list BlockRange) (c : collector) : collector :=
  mkCollector (minFetchedBlock c) (maxFetchedBlock c) (chainHead c) (backfillComplete c)
              (initialScanDone c) (f (unscanned c)).

(** A call whose error is dropped. *)
Definition ignore {A} (m : DB A) (w : world) : world := (m w).1.

Section Collector.
Context `{GapStore} (config : MissingRangeCollectorConfig).

Definition scanBatch (from to : Z) : DB Z :=
  let! ranges := find_missing from to in
  if bool_decide (ranges = []) then ret 0
  else let! _ := save_missing ranges in ret (zlen ranges).

Definition scan_fuel (from to : Z) : nat := S (Z.to_nat (to - from + 1)).

Fixpoint initialScan_loop (fuel : nat) (lastBlock fromBlock : Z) (c : collector) (w : world)
  : option (world * res db_err collector) :=
  match fuel with
  | O => None
  | S fuel =>
      if fromBlock <=? lastBlock then
        match done_ctx w with
        | (w, Ok false) =>
            let toBlock := fromBlock +₆₄ BatchSize config -₆₄ 1 in
            let toBlock := if lastBlock <? toBlock then lastBlock else toBlock in
            match scanBatch fromBlock toBlock w with
            | (w, Ok _) => initialScan_loop fuel lastBlock (fromBlock +₆₄ BatchSize config) c w
            | (w, Err _) =>
                let c := set_unscanned (λ u, u ++ [mkRange 0 fromBlock toBlock]) c in
                initialScan_loop fuel lastBlock (fromBlock +₆₄ BatchSize config) c w
            end
        | (w, _) => Some (w, Err Cancelled)
        end
      else Some (w, Ok c)
  end.

Definition initialScan (lastBlock : Z) (c : collector) (w : world)
  : option (world * res db_err collector) :=
  match initialScan_loop (scan_fuel (FirstBlock config) lastBlock) lastBlock (FirstBlock config) c w with
  | Some (w, Ok c) =>
      Some (ignore total_missing_blocks w,
            Ok (mkCollector (minFetchedBlock c) (maxFetchedBlock c) (chainHead c)
                  (backfillComplete c) true (unscanned c)))
  | r => r
  end.

Definition last_block (head : Z) : Z :=
  if (LastBlock config =? 0) || (head <? LastBlock config) then head else LastBlock config.

(** [Start], up to the point where it launches the scanners; [head] is what the
    node answered. *)
Definition Start (head : option Z) (c : collector) (w : world)
  : option (world * res db_err collector) :=
  match head with
  | None => Some (w, Err Lost)
  | Some head =>
      let lastBlock := last_block head in
      let '(w, p) := load_progress w in
      let p := match p with Ok p => p | Err _ => mkProgress 0 0 false end in
      let begin min max complete w :=
        initialScan lastBlock
          (mkCollector min max head complete (initialScanDone c) (unscanned c)) w in
      if 0 <? MaxFetchedBlock p
      then begin (MinFetchedBlock p) (MaxFetchedBlock p) (BackfillComplete p) w
      else
        match min_max_blocks w with
        | (w, Err e) => Some (w, Err e)
        | (w, Ok (minIndexed, maxIndexed)) =>
            let '(min, max) := if 0 <? maxIndexed then (minIndexed, maxIndexed) else (lastBlock, lastBlock) in
            begin min max (backfillComplete c) (ignore (store_progress min max false) w)
        end
  end.

Fixpoint rescanFailed_list (l : list BlockRange) (w : world) : list BlockRange * world :=
  match l with
  | [] => ([], w)
  | r :: l' =>
      match done_ctx w with
      | (w, Ok false) =>
          match scanBatch (FromNumber r) (ToNumber r) w with
          | (w, Ok _) => rescanFailed_list l' w
          | (w, Err _) => (l, w)
          end
      | (w, _) => (l, w)
      end
  end.

Definition rescanFailed (c : collector) (w : world) : collector * world :=
  let '(l, w) := rescanFailed_list (unscanned c) w in (set_unscanned (λ _, l) c, w).

Definition scanBackward (c : collector) (w : world) : collector * world :=
  if minFetchedBlock c <=? FirstBlock config then (c, w) else
  let toBlock := minFetchedBlock c -₆₄ 1 in
  let fromBlock := if BatchSize config <? toBlock then toBlock -₆₄ BatchSize config +₆₄ 1 else 0 in
  let fromBlock := Z.max fromBlock (FirstBlock config) in
  if toBlock <? fromBlock then (c, w) else
  match scanBatch fromBlock toBlock w with
  | (w, Err _) => (c, w)
  | (w, Ok _) =>
      (mkCollector fromBlock (maxFetchedBlock c) (chainHead c) (backfillComplete c)
         (initialScanDone c) (unscanned c),
       ignore (store_progress fromBlock (maxFetchedBlock c) (backfillComplete c)) w)
  end.

(** One tick of [backwardScanner]. *)
Definition backward_tick (c : collector) (w : world) : collector * world :=
  let '(c, w) := scanBackward c w in
  if (minFetchedBlock c <=? FirstBlock config) && negb (backfillComplete c)
  then (mkCollector (minFetchedBlock c) (maxFetchedBlock c) (chainHead c) true
          (initialScanDone c) (unscanned c),
        ignore (store_progress (minFetchedBlock c) (maxFetchedBlock c) true) w)
  else (c, w).

Fixpoint scanForward_loop (fuel : nat) (head toBlock from : Z) (c : collector) (w : world)
  : option (collector * world) :=
  match fuel with
  | O => None
  | S fuel =>
      let batch := Z.max (BatchSize config) 1 in
      if from <=? toBlock then
        match done_ctx w with
        | (w, Ok false) =>
            let to := Z.min (from +₆₄ batch -₆₄ 1) toBlock in
            match scanBatch from to w with
            | (w, Err _) => Some (c, w)
            | (w, Ok _) =>
                let c := mkCollector (minFetchedBlock c) to (Z.max (chainHead c) head)
                           (backfillComplete c) (initialScanDone c) (unscanned c) in
                let w := ignore (store_progress (minFetchedBlock c) to (backfillComplete c)) w in
                scanForward_loop fuel head toBlock (from +₆₄ batch) c w
            end
        | (w, _) => Some (c, w)
        end
      else Some (c, w)
  end.

(** One tick of [forwardScanner]; [ceiling] is what the ceiling function
    answers, [None] when none is set. *)
Definition scanForward (head ceiling : option Z) (c : collector) (w : world)
  : option (collector * world) :=
  let '(c, w) := rescanFailed c w in
  match head with
  | None => Some (c, w)
  | Some head =>
      let toBlock := match ceiling with Some x => Z.min head x | None => head end in
      if toBlock <=? maxFetchedBlock c
      then Some (mkCollector (minFetchedBlock c) (maxFetchedBlock c) (Z.max (chainHead c) head)
                   (backfillComplete c) (initialScanDone c) (unscanned c), w)
      else scanForward_loop (scan_fuel (maxFetchedBlock c +₆₄ 1) toBlock) head toBlock
             (maxFetchedBlock c +₆₄ 1) c w
  end.

Inductive pass := Backward | Forward (head ceiling : option Z).

Definition run_pass (p : pass) (c : collector) (w : world) : option (collector * world) :=
  match p with
  | Backward => Some (backward_tick c w)
  | Forward head ceiling => scanForward head ceiling c w
  end.

Fixpoint run_passes (ps : list pass) (c : collector) (w : world) : option (collector * world) :=
  match ps with
  | [] => Some (c, w)
  | p :: ps => '(c, w) ← run_pass p c w; run_passes ps c w
  end.

(** ** What the scans keep *)

Lemma done_ctx_keeps w n : accounted w n → accounted (done_ctx w).1 n.
Proof using. intros Hn%accounted_next. unfold done_ctx. by destruct (next_event w). Qed.

Lemma scanBatch_keeps a b w n : accounted w n → accounted (scanBatch a b w).1 n.
Proof using.
  unfold scanBatch. apply bind_accounted; [intros; by apply find_missing_keeps|].
  intros rs w'. case_bool_decide; [done|].
  apply bind_accounted; [intros; by apply save_missing_keeps|done].
Qed.

Lemma scanBatch_records a b w w' k n :
  scanBatch a b w = (w', Ok k) → a ≤ n ≤ b → accounted w' n.
Proof using.
  unfold scanBatch, bind. destruct (find_missing a b w) as [w1 [rs|]] eqn:E; [|done].
  intros E' Hn. destruct (find_missing_reports _ _ _ _ _ n E Hn) as [Ha|Hc].
  - case_bool_decide; [by injection E' as <- _|].
    pose proof (save_missing_keeps rs w1 n Ha). by destruct (save_missing rs w1) as [w2 [[]|]]; injection E' as <- _.
  - case_bool_decide; [subst; by apply Exists_nil in Hc|].
    destruct (save_missing rs w1) as [w2 [[]|]] eqn:E2; [|done]. injection E' as <- _.
    by eapply save_missing_records.
Qed.

(** The claim the scans maintain for one block. *)
Definition held (c : collector) (w : world) (n : Z) : Prop :=
  accounted w n ∨ covers (unscanned c) n.

Lemma held_keeps c w w' n : (accounted w n → accounted w' n) → held c w n → held c w' n.
Proof using. unfold held. tauto. Qed.

Lemma initialScan_loop_spec fuel last from c w :
  0 < BatchSize config → 0 ≤ from → last + BatchSize config < W64 → (scan_fuel from last ≤ fuel)%nat →
  ∃ w' r, initialScan_loop fuel last from c w = Some (w', r) ∧
  match r with
  | Err _ => r = Err Cancelled
  | Ok c' => maxFetchedBlock c' = maxFetchedBlock c ∧ minFetchedBlock c' = minFetchedBlock c ∧
             ∀ n, held c w n ∨ from ≤ n ≤ last → held c' w' n
  end.
Proof using.
  intros Hb. revert from c w. unfold scan_fuel. induction fuel as [|fuel IH]; intros from c w H0 Hlast Hf; [lia|].
  cbn [initialScan_loop]. destruct (Z.leb_spec from last) as [Hle|Hgt].
  2: { eexists _, _. split; [done|]. cbn. split_and!; [done..|]. intros n [Hn|Hn]; [done|lia]. }
  pose proof (done_ctx_keeps w) as Hd. destruct (done_ctx w) as [w1 [[]|]]; cbn in Hd;
    [by eexists _, _| |by eexists _, _].
  assert (from +₆₄ BatchSize config = from + BatchSize config) as -> by u64_lia.
  assert (from + BatchSize config -₆₄ 1 = from + BatchSize config - 1) as -> by u64_lia.
  set (to := if last <? _ then last else _).
  assert (∀ n, from ≤ n ≤ last → n ≤ to ∨ from + BatchSize config ≤ n) as Hto.
  { intros n Hn. subst to. destruct (Z.ltb_spec last (from + BatchSize config - 1)); lia. }
  pose proof (λ n, scanBatch_keeps from to w1 n) as Hk.
  destruct (scanBatch from to w1) as [w2 [k|e]] eqn:E; cbn in Hk.
  - destruct (IH (from + BatchSize config) c w2 ltac:(lia) Hlast ltac:(lia)) as (w' & r & -> & Hr).
    exists w', r. split; [done|]. destruct r as [c'|]; [|done]. destruct Hr as (H1 & H2 & H3).
    split_and!; [done..|]. intros n [Hn|Hn]; apply H3.
    + left. revert Hn. apply held_keeps. auto.
    + destruct (Hto n Hn) as [Hn'|Hn']; [left; left; eapply scanBatch_records; eauto; lia|right; lia].
  - destruct (IH (from + BatchSize config) (set_unscanned (λ u, u ++ [mkRange 0 from to]) c) w2 ltac:(lia) Hlast ltac:(lia))
      as (w' & r & -> & Hr).
    exists w', r. split; [done|]. destruct r as [c'|]; [|done]. destruct Hr as (H1 & H2 & H3).
    split_and!; [done..|]. intros n [Hn|Hn]; apply H3.
    + left. unfold held in *. cbn. rewrite covers_app. destruct Hn; [left|tauto]. auto.
    + destruct (Hto n Hn) as [Hn'|Hn']; [|right; lia]. left. right. cbn.
      rewrite covers_app, covers_cons. right. left. unfold contains. cbn. lia.
Qed.

Lemma initialScan_spec last c w :
  0 < BatchSize config → 0 ≤ FirstBlock config → last + BatchSize config < W64 →
  ∃ w' r, initialScan last c w = Some (w', r) ∧
  match r with
  | Err _ => r = Err Cancelled
  | Ok c' => maxFetchedBlock c' = maxFetchedBlock c ∧ minFetchedBlock c' = minFetchedBlock c ∧
             ∀ n, held c w n ∨ FirstBlock config ≤ n ≤ last → held c' w' n
  end.
Proof using.
  intros Hb H0 Hl. unfold initialScan.
  destruct (initialScan_loop_spec (scan_fuel (FirstBlock config) last) last (FirstBlock config) c w Hb H0 Hl ltac:(lia))
    as (w' & r & -> & Hr).
  destruct r as [c'|]; [|by eexists _, _]. eexists _, _. split; [done|]. cbn. destruct Hr as (H1 & H2 & H3).
  split_and!; [done..|]. intros n Hn%H3. unfold held in *. cbn. unfold ignore.
  destruct Hn; [left; by apply total_missing_keeps|tauto].
Qed.

Lemma rescanFailed_held c w n :
  held c w n → held (rescanFailed c w).1 (rescanFailed c w).2 n.
Proof using.
  unfold rescanFailed. assert (∀ l w, accounted w n ∨ covers l n →
    accounted (rescanFailed_list l w).2 n ∨ covers (rescanFailed_list l w).1 n) as Hl.
  { clear w. induction l as [|r l IH]; intros w Hn; cbn; [done|].
    pose proof (done_ctx_keeps w n) as Hd. destruct (done_ctx w) as [w1 [[]|]]; cbn in *; [tauto| |tauto].
    pose proof (scanBatch_keeps (FromNumber r) (ToNumber r) w1 n) as Hk.
    destruct (scanBatch (FromNumber r) (ToNumber r) w1) as [w2 [k|e]] eqn:E; cbn in *; [|tauto].
    apply IH. rewrite covers_cons in Hn. destruct Hn as [Hn|[Hn|Hn]]; [tauto| |tauto].
    left. by eapply scanBatch_records. }
  intros Hn. specialize (Hl (unscanned c) w). destruct (rescanFailed_list (unscanned c) w) as [l w'].
  unfold held in *. cbn in *. tauto.
Qed.

Lemma rescanFailed_fields c w :
  maxFetchedBlock (rescanFailed c w).1 = maxFetchedBlock c ∧
  minFetchedBlock (rescanFailed c w).1 = minFetchedBlock c.
Proof using. unfold rescanFailed. by destruct (rescanFailed_list _ _). Qed.

Lemma scanForward_loop_spec fuel head to from c w :
  0 ≤ from → to + Z.max (BatchSize config) 1 < W64 → maxFetchedBlock c = from - 1 →
  (scan_fuel from to ≤ fuel)%nat →
  ∃ c' w', scanForward_loop fuel head to from c w = Some (c', w') ∧
    maxFetchedBlock c ≤ maxFetchedBlock c' ∧ maxFetchedBlock c' ≤ Z.max to (from - 1) ∧
    ∀ n, held c w n ∨ from ≤ n ≤ maxFetchedBlock c' → held c' w' n.
Proof using.
  revert from c w. unfold scan_fuel. induction fuel as [|fuel IH]; intros from c w H0 Hto Hmax Hf; [lia|].
  cbn [scanForward_loop]. set (batch := Z.max (BatchSize config) 1) in *.
  destruct (Z.leb_spec from to) as [Hle|Hgt].
  2: { eexists _, _. split; [done|]. split_and!; [lia|lia|]. intros n [Hn|Hn]; [done|lia]. }
  pose proof (done_ctx_keeps w) as Hd.
  destruct (done_ctx w) as [w1 [[]|]]; cbn in Hd.
  1,3: eexists _, _; split; [done|]; split_and!; [lia|lia|]; intros n [Hn|Hn]; [revert Hn; apply held_keeps; auto|lia].
  assert (from +₆₄ batch = from + batch) as -> by u64_lia.
  assert (from + batch -₆₄ 1 = from + batch - 1) as -> by u64_lia.
  set (t := Z.min _ to). pose proof (λ n, scanBatch_keeps from t w1 n) as Hk.
  destruct (scanBatch from t w1) as [w2 [k|e]] eqn:E; cbn in Hk.
  2: { eexists _, _; split; [done|]; split_and!; [lia|lia|]; intros n [Hn|Hn]; [|lia].
       revert Hn; apply held_keeps. auto. }
  destruct (decide (t = to)) as [Et|Et].
  - set (c1 := mkCollector _ t _ _ _ _). set (w3 := ignore _ w2).
    assert (scanForward_loop fuel head to (from + batch) c1 w3 = Some (c1, w3)) as ->.
    { destruct fuel; [lia|]. cbn [scanForward_loop]. destruct (Z.leb_spec (from + batch) to); [lia|done]. }
    exists c1, w3. split; [done|]. cbn. split_and!; [lia|lia|].
    intros n Hn. unfold held in *. cbn.
    destruct Hn as [[Hn|Hn]|Hn]; [left|tauto|left]; apply store_progress_keeps; [by auto|].
    eapply scanBatch_records; [exact E|]. lia.
  - set (c1 := mkCollector _ t _ _ _ _). set (w3 := ignore _ w2).
    destruct (IH (from + batch) c1 w3 ltac:(lia) Hto ltac:(subst c1; cbn; lia) ltac:(lia))
      as (c' & w' & -> & H1 & H2 & H3). cbn in H1.
    exists c', w'. split; [done|]. split_and!; [lia|lia|]. intros n Hn. apply H3.
    destruct Hn as [Hn|Hn].
    + left. unfold held in *. cbn. destruct Hn as [Hn|Hn]; [left|tauto].
      apply store_progress_keeps. auto.
    + destruct (decide (n < from + batch)) as [Hlt|]; [|right; lia]. left. left.
      apply store_progress_keeps. eapply scanBatch_records; [exact E|]. lia.
Qed.

Lemma scanForward_spec head ceiling c w :
  0 ≤ maxFetchedBlock c → maxFetchedBlock c + 1 < W64 →
  (∀ h, head = Some h → h + Z.max (BatchSize config) 1 < W64) →
  ∃ c' w', scanForward head ceiling c w = Some (c', w') ∧
    maxFetchedBlock c ≤ maxFetchedBlock c' ∧
    (maxFetchedBlock c' = maxFetchedBlock c ∨ ∃ h, head = Some h ∧ maxFetchedBlock c' ≤ h) ∧
    ∀ n, held c w n ∨ maxFetchedBlock c < n ≤ maxFetchedBlock c' → held c' w' n.
Proof using.
  intros H0 H1 Hh. unfold scanForward. pose proof (rescanFailed_held c w) as Hr.
  destruct (rescanFailed_fields c w) as [Hmx Hmn]. destruct (rescanFailed c w) as [c1 w1]. cbn [fst snd] in *.
  destruct head as [h|].
  2: { exists c1, w1. split_and!; [done|lia|left;done|]. intros n [Hn|Hn]; [auto|lia]. }
  specialize (Hh h eq_refl). set (to := match ceiling with Some x => _ | None => _ end).
  assert (to ≤ h) by (subst to; destruct ceiling; lia).
  destruct (Z.leb_spec to (maxFetchedBlock c1)).
  - eexists _, _. split; [done|]. cbn. split_and!; [lia|left;lia|]. intros n [Hn|Hn]; [|lia].
    apply Hr in Hn. done.
  - assert (maxFetchedBlock c1 +₆₄ 1 = maxFetchedBlock c1 + 1) as -> by u64_lia.
    destruct (scanForward_loop_spec (scan_fuel (maxFetchedBlock c1 + 1) to) h to (maxFetchedBlock c1 + 1) c1 w1
      ltac:(lia) ltac:(lia) ltac:(lia) ltac:(lia)) as (c' & w' & -> & Ha & Hb & Hc).
    exists c', w'. split_and!; [done|lia|right; exists h; split; [done|lia]|].
    intros n [Hn|Hn]; apply Hc; [left; auto|right; lia].
Qed.

Lemma backward_tick_spec c w :
  maxFetchedBlock (backward_tick c w).1 = maxFetchedBlock c ∧
  ∀ n, held c w n → held (backward_tick c w).1 (backward_tick c w).2 n.
Proof using.
  assert (maxFetchedBlock (scanBackward c w).1 = maxFetchedBlock c ∧
    unscanned (scanBackward c w).1 = unscanned c ∧
    ∀ n, accounted w n → accounted (scanBackward c w).2 n) as (H1 & H2 & H3).
  { unfold scanBackward. destruct (_ <=? _); [split_and!; auto|]. cbv zeta.
    set (a := Z.max _ _). set (b := u64 (minFetchedBlock c - 1)). destruct (b <? a); [split_and!; auto|].
    pose proof (scanBatch_keeps a b w) as Hk. destruct (scanBatch a b w) as [w1 [k|]]; cbn in *; [|done].
    split_and!; [done..|]. intros n Hn. apply store_progress_keeps. auto. }
  unfold backward_tick. destruct (scanBackward c w) as [c1 w1]. cbn in *.
  destruct (_ && _); cbn; (split; [done|]); intros n; unfold held; cbn; rewrite H2.
  - intros [Hn|Hn]; [left; apply store_progress_keeps; auto|tauto].
  - intros [Hn|Hn]; [left; auto|tauto].
Qed.

(** No pass takes a block out of the tables. *)
Lemma done_ctx_calm w : calm w (done_ctx w).1.
Proof using. pose proof (next_event_calm w) as Hn. unfold done_ctx. by destruct (next_event w). Qed.
Lemma scanBatch_calm a b w : calm w (scanBatch a b w).1.
Proof using.
  unfold scanBatch, bind. pose proof (find_missing_calm a b w) as Hf. destruct (find_missing a b w) as [w1 [rs|]]; [|done]. cbn in Hf.
  case_bool_decide; [done|]. pose proof (save_missing_calm rs w1) as Hs. destruct (save_missing rs w1) as [w2 [[]|]]; by eapply calm_trans.
Qed.
Ltac calm_step := match goal with
  | |- context [done_ctx ?w] => pose proof (done_ctx_calm w); destruct (done_ctx w) as [? [[]|]]; cbn [fst] in *
  | |- context [scanBatch ?a ?b ?w] => pose proof (scanBatch_calm a b w); destruct (scanBatch a b w) as [? [?|]]; cbn [fst] in *
  end.
Ltac calm_done := repeat (first [done | eapply calm_trans; [eassumption|] | apply store_progress_calm | eapply calm_trans; [apply store_progress_calm|]]).
Lemma initialScan_loop_calm fuel last from c w w' r : initialScan_loop fuel last from c w = Some (w', r) → calm w w'.
Proof using.
  revert from c w. induction fuel as [|fuel IH]; intros from c w; [done|]. cbn [initialScan_loop]. destruct (from <=? last); [|intros [= <- _]; apply calm_refl].
  calm_step; [by intros [= <- _]| |by intros [= <- _]]. calm_step; intros E%IH; calm_done.
Qed.
Lemma initialScan_calm last c w w' r : initialScan last c w = Some (w', r) → calm w w'.
Proof using.
  unfold initialScan. destruct (initialScan_loop _ _ _ _ _) as [[w1 [c1|e]]|] eqn:E; [| |done]; apply initialScan_loop_calm in E; intros [= <- <-]; [|done].
  eapply calm_trans; [exact E|]. apply total_missing_calm.
Qed.
Lemma Start_calm head c w w' r : Start head c w = Some (w', r) → calm w w'.
Proof using.
  unfold Start. destruct head as [head|]; [|intros [= <- _]; apply calm_refl]. pose proof (load_progress_calm w) as Hl. destruct (load_progress w) as [w1 p]. cbn in Hl.
  set (pp := match p with Ok p => p | Err _ => _ end). destruct (0 <? MaxFetchedBlock pp); [intros E%initialScan_calm; by eapply calm_trans|].
  pose proof (min_max_blocks_calm w1) as Hm. destruct (min_max_blocks w1) as [w2 [[mn mx]|e]]; cbn in Hm; [|intros [= <- _]; by eapply calm_trans].
  destruct (if 0 <? mx then _ else _) as [a b]. intros E%initialScan_calm. eapply calm_trans; [exact Hl|]. eapply calm_trans; [exact Hm|]. eapply calm_trans; [|exact E]. apply store_progress_calm.
Qed.
Lemma rescanFailed_calm c w : calm w (rescanFailed c w).2.
Proof using.
  unfold rescanFailed. assert (∀ l w, calm w (rescanFailed_list l w).2) as Hl; [|specialize (Hl (unscanned c) w); by destruct (rescanFailed_list _ _)].
  clear. induction l as [|r l IH]; intros w; cbn [rescanFailed_list]; [apply calm_refl|]. calm_step; [done| |done]. calm_step; [|calm_done].
  eapply calm_trans; [eassumption|]. eapply calm_trans; [eassumption|]. apply IH.
Qed.
Lemma backward_tick_calm c w : calm w (backward_tick c w).2.
Proof using.
  unfold backward_tick. assert (calm w (scanBackward c w).2) as Hb.
  { unfold scanBackward. destruct (_ <=? _); [apply calm_refl|]. cbv zeta. destruct (_ <? _); [apply calm_refl|]. calm_step; [|done]. calm_done. }
  destruct (scanBackward c w) as [c1 w1]. cbn in Hb. destruct (_ && _); [|done]. cbn. calm_done.
Qed.
Lemma scanForward_loop_calm fuel head to from c w c' w' : scanForward_loop fuel head to from c w = Some (c', w') → calm w w'.
Proof using.
  revert from c w. induction fuel as [|fuel IH]; intros from c w; [done|]. cbn [scanForward_loop]. destruct (from <=? to); [|intros [= _ <-]; apply calm_refl].
  calm_step; [by intros [= _ <-]| |by intros [= _ <-]]. calm_step; [|intros [= _ <-]; calm_done]. intros E%IH.
  eapply calm_trans; [eassumption|]. eapply calm_trans; [eassumption|]. eapply calm_trans; [apply store_progress_calm|]. exact E.
Qed.
Lemma run_passes_calm ps c w c' w' : run_passes ps c w = Some (c', w') → calm w w'.
Proof using.
  revert c w. induction ps as [|p ps IH]; intros c w; cbn [run_passes]; [intros [= _ <-]; apply calm_refl|].
  intros ([c1 w1] & Hp & E%IH)%bind_Some. eapply calm_trans; [|exact E]. clear E. destruct p as [|head ceiling]; cbn [run_pass] in Hp.
  - injection Hp as Hp. pose proof (backward_tick_calm c w) as Hb. by rewrite Hp in Hb.
  - revert Hp. unfold scanForward. pose proof (rescanFailed_calm c w) as Hr. destruct (rescanFailed c w) as [c2 w2]. cbn in Hr.
    destruct head as [h|]; [|intros [= _ <-]; done]. destruct (_ <=? _); [intros [= _ <-]; done|]. intros E%scanForward_loop_calm. by eapply calm_trans.
Qed.

Definition head_ok (p : pass) : Prop :=
  match p with Forward (Some h) _ => h + Z.max (BatchSize config) 1 < W64 | _ => True end.

Lemma run_passes_spec ps c w :
  Forall head_ok ps → 0 ≤ maxFetchedBlock c → maxFetchedBlock c + 1 < W64 →
  ∃ c' w', run_passes ps c w = Some (c', w') ∧ maxFetchedBlock c ≤ maxFetchedBlock c' ∧
    ∀ n, held c w n ∨ maxFetchedBlock c < n ≤ maxFetchedBlock c' → held c' w' n.
Proof using.
  intros Hps. revert c w. induction Hps as [|p ps Hp _ IH]; intros c w H0 H1; cbn [run_passes].
  - exists c, w. split_and!; [done|lia|]. intros n [Hn|Hn]; [done|lia].
  - assert (∃ c1 w1, run_pass p c w = Some (c1, w1) ∧ maxFetchedBlock c ≤ maxFetchedBlock c1 ∧
      maxFetchedBlock c1 + 1 < W64 ∧
      ∀ n, held c w n ∨ maxFetchedBlock c < n ≤ maxFetchedBlock c1 → held c1 w1 n) as (c1 & w1 & -> & Ha & Hb & Hc).
    { destruct p as [|head ceiling]; cbn [run_pass].
      - destruct (backward_tick_spec c w) as [Hm Hk]. destruct (backward_tick c w) as [c1 w1]. cbn in *.
        exists c1, w1. split_and!; [done|lia|lia|]. intros n [Hn|Hn]; [auto|lia].
      - destruct (scanForward_spec head ceiling c w H0 H1) as (c1 & w1 & -> & H2 & H3 & H4).
        { intros h ->. exact Hp. }
        exists c1, w1. split_and!; [done|done| |done].
        destruct H3 as [->|(h & -> & ?)]; [done|]. cbn in Hp. lia. }
    cbn. destruct (IH c1 w1 ltac:(lia) Hb) as (c' & w' & E & Hd & He).
    exists c', w'. split_and!; [done|lia|]. intros n [Hn|Hn]; apply He; [left; auto|].
    destruct (decide (n ≤ maxFetchedBlock c1)); [left; apply Hc; lia|right; lia].
Qed.
End Collector.

(** ** A healthy database *)

Lemma insert_range_succeeds f t s :
  f ≤ t → bigint t = true → ∃ s', insert_range true f t s = Ok s'.
Proof.
  intros Hft Ht. unfold insert_range, bigint in *. apply Z.ltb_lt in Ht as Ht'.
  rewrite Ht. destruct (Z.ltb_spec f H64); [|lia]. cbn. destruct (Z.ltb_spec t f); [lia|].
  destruct (existsb _ _); eauto.
Qed.

Lemma insert_ranges_succeeds l s :
  Forall (λ p, p.1 ≤ p.2 ∧ bigint p.2 = true) l → ∃ s', insert_ranges true l s = Ok s'.
Proof.
  intros Hl. revert s. induction Hl as [|[f t] l [H1 H2] _ IH]; intros s; cbn [insert_ranges]; [eauto|].
  cbn in *. destruct (insert_range_succeeds f t s) as [s1 ->]; [done..|]. apply IH.
Qed.

Lemma scanBatch_healthy a b w :
  script w = [] → b < H64 → a ≤ b → ∃ k w', scanBatch a b w = (w', Ok k) ∧ script w' = [].
Proof.
  intros Hq Hb Hab. unfold scanBatch, bind. cbn [find_missing postgres_gaps save_missing].
  unfold FindMissingBlocksInRange, query, statement, next_event. rewrite Hq. cbn -[gap_ranges].
  assert (bigint a && bigint b = true) as ->.
  { unfold bigint. rewrite andb_true_iff, !Z.ltb_lt. lia. }
  cbn -[gap_ranges].
  destruct (gap_ranges_report _ (missing_blocks_sorted (st w) a b)) as [Hc Hv _ _].
  case_bool_decide as E; [by eexists _, _|].
  unfold SaveMissingRanges, exec, statement, next_event. rewrite bool_decide_false by done. cbn -[gap_ranges].
  destruct (insert_ranges_succeeds
    ((λ r, (FromNumber r, ToNumber r)) <$> gap_ranges (missing_blocks (st w) a b)) (st w)) as [s' Hs'].
  { apply Forall_fmap, Forall_forall. intros r Hr. unfold compose. cbn. specialize (Hv r Hr). split; [done|].
    assert (covers (gap_ranges (missing_blocks (st w) a b)) (ToNumber r)) as Hcr.
    { apply covers_elem. exists r. split; [done|]. unfold contains. lia. }
    apply Hc, elem_missing_blocks in Hcr. apply Z.ltb_lt. lia. }
  rewrite Hq. cbn -[gap_ranges]. rewrite Hs'. by eexists _, _.
Qed.

Lemma store_progress_healthy a b c w : script w = [] → script (UpdateIndexerProgress a b c w).1 = [].
Proof.
  intros Hq. unfold UpdateIndexerProgress, exec, statement, next_event. rewrite Hq. cbn.
  destruct (negb _); cbn; done.
Qed.

Lemma rescanFailed_healthy l w :
  script w = [] → Forall (λ r, FromNumber r ≤ ToNumber r < H64) l →
  ∃ w', rescanFailed_list l w = ([], w') ∧ script w' = [].
Proof.
  intros Hq Hl. revert w Hq. induction Hl as [|r l Hr _ IH]; intros w Hq; cbn [rescanFailed_list]; [eauto|].
  unfold done_ctx, next_event. rewrite Hq. cbn [stopped quiet].
  destruct (scanBatch_healthy (FromNumber r) (ToNumber r) w Hq) as (k & w' & -> & Hq'); [lia..|]. by apply IH.
Qed.

Lemma scanForward_loop_healthy config fuel head to from c w :
  script w = [] → 0 ≤ from → to < H64 → BatchSize config < H64 → maxFetchedBlock c = from - 1 → from ≤ to + 1 →
  (scan_fuel from to ≤ fuel)%nat →
  ∃ c' w', scanForward_loop config fuel head to from c w = Some (c', w') ∧
    maxFetchedBlock c' = to ∧ unscanned c' = unscanned c.
Proof.
  revert from c w. unfold scan_fuel. induction fuel as [|fuel IH]; intros from c w Hq H0 Hto Hbs Hmax Hft Hf; [lia|].
  cbn [scanForward_loop]. set (batch := Z.max (BatchSize config) 1) in *.
  destruct (Z.leb_spec from to) as [Hle|Hgt]; [|exists c, w; split_and!; [done|lia|done]].
  unfold done_ctx, next_event. rewrite Hq. cbn [stopped quiet].
  assert (from +₆₄ batch = from + batch) as -> by u64_lia.
  assert (from + batch -₆₄ 1 = from + batch - 1) as -> by u64_lia.
  set (t := Z.min _ to).
  destruct (scanBatch_healthy from t w Hq) as (k & w' & -> & Hq'); [lia..|].
  set (c1 := mkCollector _ t _ _ _ _). set (w3 := ignore _ w').
  assert (script w3 = []) as Hq3 by (by apply store_progress_healthy).
  destruct (decide (t = to)) as [Et|Et].
  - exists c1, w3. split_and!; [|done|done]. destruct fuel; [lia|]. cbn [scanForward_loop].
    destruct (Z.leb_spec (from + batch) to); [lia|done].
  - destruct (IH (from + batch) c1 w3 Hq3 ltac:(lia) Hto Hbs ltac:(subst c1; cbn; lia) ltac:(lia) ltac:(lia))
      as (c' & w'' & E & H1 & H2). by exists c', w''.
Qed.

(** ** Properties *)

(** C15: what the collector has scanned it has recorded. Whatever the other writers commit
    between its statements and whatever statements are refused or lose their
    acknowledgement, after a startup that returns and any sequence of scanner passes, every
    pass returns, and every block of the scanned ranges (first to last block of the start,
    and everything the forward scan moved past) is stored, recorded as missing, pruned, in
    the list of batches to scan again, or was taken out of the tables by another loop since:
    by a catch-up worker's mark, which deletes every recorded range with its block whole,
    or by a revert. Without such marks and reverts nothing is taken. That the catch-up still
    holds what its marks delete is not claimed here: it need not (see
    catchup_overlap_drops). *)
Theorem collector_accounts `{GapStore} config head w0 w1 c ps :
  0 < BatchSize config → 0 ≤ FirstBlock config → last_block config head + BatchSize config < W64 → taken w0 = ∅ →
  Start config (Some head) NewMissingRangeCollector w0 = Some (w1, Ok c) →
  0 ≤ maxFetchedBlock c → maxFetchedBlock c + 1 < W64 → Forall (head_ok config) ps →
  ∃ c' w', run_passes config ps c w1 = Some (c', w') ∧
    (∀ n, FirstBlock config ≤ n ≤ last_block config head ∨ maxFetchedBlock c < n ≤ maxFetchedBlock c' →
      n ∈ blocks (st w') ∨ covers (rows (st w')) n ∨ n < history_from (st w') ∨ covers (unscanned c') n ∨ n ∈ taken w') ∧
    (unmarked w0 → taken w' = ∅).
Proof.
  intros Hb H0 Hl Ht HS Hm0 Hm1 Hps.
  destruct (run_passes_spec config ps c w1 Hps Hm0 Hm1) as (c' & w' & E & _ & Hr).
  exists c', w'. split; [done|]. split.
  2: { intros Hu. rewrite <-Ht. apply (calm_trans w0 w1 w'); [by eapply Start_calm|by eapply run_passes_calm|done]. }
  intros n Hn. assert (held c' w' n) as Hh; [|unfold held, accounted in Hh; tauto]. apply Hr. destruct Hn as [Hn|Hn]; [left|by right].
  revert HS. unfold Start. destruct (load_progress w0) as [wp p].
  set (pp := match p with Ok p => p | Err _ => _ end). destruct (0 <? MaxFetchedBlock pp).
  - intros HS. edestruct initialScan_spec as (wi & r & E' & Hi); [exact Hb|exact H0|exact Hl|].
    rewrite E' in HS. injection HS as <- ->. apply Hi. by right.
  - destruct (min_max_blocks wp) as [wm [[mn mx]|e]]; [|done]. destruct (if 0 <? mx then _ else _) as [a b].
    intros HS. edestruct initialScan_spec as (wi & r & E' & Hi); [exact Hb|exact H0|exact Hl|].
    rewrite E' in HS. injection HS as <- ->. apply Hi. by right.
Qed.

(** A run with a batch that fails at startup, a reorg, a catch-up worker and a
    lost acknowledgement. *)
Definition busy_script : list event :=
  [quiet; quiet; mkEvent [AStore 7] NoFault false; quiet; quiet; mkEvent [] Refused false;
   quiet; quiet; mkEvent [AMark 3; ARevert 6] AckLost false; quiet].
Definition busy_config : MissingRangeCollectorConfig := mkConfig 4 0 0.
Definition busy_world : world :=
  mkWorld (mkStore [mkRange 1 3 5] 2 {[ 0; 1; 6; 8 ]} 0 (Some (mkProgress 0 0 false))) ∅ busy_script.

Lemma collector_accounts_witness :
  ∃ w1 c c' w', Start busy_config (Some 11) NewMissingRangeCollector busy_world = Some (w1, Ok c) ∧
    run_passes busy_config [Forward (Some 15) None; Backward] c w1 = Some (c', w') ∧
    maxFetchedBlock c' = 15 ∧
    (∀ n, 0 ≤ n ≤ 11 → n ∈ blocks (st w') ∨ covers (rows (st w')) n ∨ n < history_from (st w') ∨ covers (unscanned c') n ∨ n ∈ taken w').
Proof.
  destruct (Start busy_config (Some 11) NewMissingRangeCollector busy_world) as [[w1 [c|e]]|] eqn:E;
    [|exfalso; revert E; vm_compute; discriminate..].
  assert (maxFetchedBlock c = 8) as Hm.
  { revert E. vm_compute. intros [= _ <-]. reflexivity. }
  destruct (collector_accounts busy_config 11 busy_world w1 c [Forward (Some 15) None; Backward])
    as (c' & w' & E' & Hn & _); [reflexivity|done|reflexivity|reflexivity|exact E|lia|lia|by repeat constructor|].
  exists w1, c, c', w'. split_and!; [done|done| |intros n Hn'; apply Hn; left; exact Hn'].
  assert (match Start busy_config (Some 11) NewMissingRangeCollector busy_world with
          | Some (w1, Ok c) => maxFetchedBlock <$> (fst <$> run_passes busy_config [Forward (Some 15) None; Backward] c w1)
          | _ => None
          end = Some 15) as H by (vm_compute; reflexivity).
  rewrite E, E' in H. by injection H.
Defined.

(** on a healthy database one forward tick rescans every batch that had
    failed, moves the scanned bound to the node's head, and leaves every block
    known so far, and every new one up to the head, accounted for. *)
Theorem scanForward_healthy config head c w :
  script w = [] → 0 ≤ BatchSize config < H64 → 0 ≤ maxFetchedBlock c < H64 → 0 ≤ head < H64 →
  Forall (λ r, FromNumber r ≤ ToNumber r < H64) (unscanned c) →
  ∃ c' w', scanForward config (Some head) None c w = Some (c', w') ∧ unscanned c' = [] ∧
    maxFetchedBlock c' = Z.max (maxFetchedBlock c) head ∧
    ∀ n, held c w n ∨ maxFetchedBlock c < n ≤ head → accounted w' n.
Proof.
  intros Hq Hb Hm Hh Hu.
  destruct (scanForward_spec config (Some head) None c w ltac:(lia) ltac:(lia)) as (c' & w' & E & _ & _ & Hn).
  { intros h [= <-]. lia. }
  exists c', w'. split; [done|].
  enough (unscanned c' = [] ∧ maxFetchedBlock c' = Z.max (maxFetchedBlock c) head) as [Hu' Hm'].
  { split_and!; [done|done|]. intros n Hn'. destruct (Hn n) as [Ha|Hc].
    - destruct Hn' as [Hn'|Hn']; [by left|right; lia].
    - done.
    - rewrite Hu' in Hc. by apply Exists_nil in Hc. }
  revert E. unfold scanForward, rescanFailed.
  destruct (rescanFailed_healthy (unscanned c) w Hq Hu) as (w1 & -> & Hq1). cbn [maxFetchedBlock set_unscanned].
  destruct (Z.leb_spec head (maxFetchedBlock c)); [intros [= <- <-]; cbn; split; [done|lia]|].
  assert (maxFetchedBlock c +₆₄ 1 = maxFetchedBlock c + 1) as -> by u64_lia.
  destruct (scanForward_loop_healthy config (scan_fuel (maxFetchedBlock c + 1) head) head head
    (maxFetchedBlock c + 1) (set_unscanned (λ _, []) c) w1) as (c2 & w2 & E2 & H1 & H2); [done|cbn; lia..|].
  rewrite E2. intros [= <- <-]. rewrite H1, H2. split; [done|lia].
Qed.

Lemma scanForward_healthy_witness :
  let c := mkCollector 5 5 5 true true [mkRange 0 2 4] in
  let w := mkWorld (mkStore [] 1 {[ 0; 1; 3; 5; 7 ]} 0 None) ∅ [] in
  ∃ c' w', scanForward (mkConfig 3 0 0) (Some 9) None c w = Some (c', w') ∧ accounted w' 4 ∧ accounted w' 8.
Proof.
  intros c w. destruct (scanForward_healthy (mkConfig 3 0 0) 9 c w) as (c' & w' & E & _ & _ & H);
    [reflexivity|cbn; lia..| |].
  { repeat constructor; cbn; lia. }
  exists c', w'. split_and!; [done|apply H; left; right|apply H; right; cbn; lia].
  apply covers_cons. left. unfold contains. cbn. lia.
Defined.

(** With a batch size of 0 the startup scan never ends: each turn scans the same
    empty batch. *)
Theorem initialScan_zero_batch `{GapStore} config last from fuel c w :
  BatchSize config = 0 → is_u64 from → from ≤ last → script w = [] →
  (∀ a b w, script w = [] → script (scanBatch a b w).1 = []) →
  initialScan_loop config fuel last from c w = None.
Proof.
  intros Hb Hf Hle Hq Hs. revert c w Hq. induction fuel as [|fuel IH]; intros c w Hq; [done|].
  cbn [initialScan_loop]. destruct (Z.leb_spec from last); [|lia].
  unfold done_ctx, next_event. rewrite Hq. cbn [stopped quiet]. rewrite Hb, Z.add_0_r, (u64_small from) by done.
  set (t := if _ <? _ then _ else _). specialize (Hs from t w Hq).
  destruct (scanBatch from t w) as [w' [k|e]]; cbn in Hs; by apply IH.
Qed.
