(* ===== verification/Catchup.v ===== *)
(** * Catch-up: internal/indexer/catchup.go

    A producer reads a batch of recorded ranges and queues their blocks; workers
    take a block each, check whether it is stored, index it, and then delete
    every recorded range that holds it ([tryBlock]), or record the block again
    as a range of its own.  The write of a block is the interface [BlockWriter];
    [insert_writer] is the plainest implementation of it.

    [indexBlock] retries without bound; here it runs on fuel, and
    [indexBlock_settles] says how much is enough.  The second half interleaves the
    statements of the producer, of the workers (the turns of [worker_turn], which without
    interference are [tryBlock], [attempt_is_tryBlock]) and of the other writers
    ([cstep]). *)

From S2P Require Import Prelude MissingRanges Collector.

(** Each call takes one event from the script. *)
Lemma next_event_script w : length (script (next_event w).2) = pred (length (script w)).
Proof.
  unfold next_event. destruct (script w) as [|e es] eqn:E; cbn; [by rewrite E|].
  assert (∀ l w, script (foldl (λ w a, apply_action a w) w l) = script w) as H.
  { clear. induction l as [|a l IH]; intros w; [done|]. cbn. rewrite IH.
    destruct a; cbn; try done; [by destruct (insert_range _ _ _ _)|by destruct (_ <=? _)]. }
  by rewrite H.
Qed.

Lemma statement_script {A} (f : store → res db_err (A * store)) w :
  length (script (statement f w).1) = pred (length (script w)).
Proof.
  rewrite <-(next_event_script w). unfold statement. destruct (next_event w) as [e w1].
  by destruct (failure e), (f (st w1)) as [[]|].
Qed.

Class BlockWriter := {
  process_block : Z → DB unit;
  process_block_stores n w w' : process_block n w = (w', Ok tt) → n ∈ blocks (st w');
  process_block_keeps n w m : accounted w m → accounted (process_block n w).1 m;
  process_block_script n w : (length (script (process_block n w).1) ≤ length (script w))%nat;
}.

Definition insert_block (n : Z) : DB unit :=
  exec (λ s, if negb (bigint n) then Err Encode
             else Ok (mkStore (rows s) (next_id s) ({[n]} ∪ blocks s) (history_from s) (progress s))).

#[export] Program Instance insert_writer : BlockWriter := {| process_block := insert_block |}.
Next Obligation.
  intros n w w' H%exec_ok. destruct (negb _); [done|]. injection H as <-. cbn. set_solver.
Qed.
Next Obligation.
  intros n w m Hm. apply accounted_next in Hm. unfold insert_block, exec, statement.
  destruct (next_event w) as [e w1]. cbn in *. destruct (negb (bigint n)).
  - destruct (failure e); done.
  - destruct (failure e); cbn; unfold accounted in *; cbn; set_solver.
Qed.
Next Obligation.
  intros n w. pose proof (next_event_script w) as Hs. unfold insert_block, exec, statement.
  destruct (next_event w) as [e w1]. cbn in *. destruct (failure e), (bigint n); cbn; lia.
Qed.

(** ** Yielding to realtime

    [readings] are the successive answers of [realtimeBehind]; the result is the
    number of waits of 200 ms, or [None] when the readings end while the worker
    is still held. *)

Definition catchupYieldAbove : Z := 64.
Definition catchupResumeBelow : Z := 16.

Fixpoint yield_wait (readings : list Z) : option nat :=
  match readings with
  | [] => None
  | b :: rest => if catchupResumeBelow <? b then S <$> yield_wait rest else Some O
  end.

Definition yieldToRealtime (realtimeBehind : option (list Z)) : option nat :=
  match realtimeBehind with
  | None => Some O
  | Some [] => None
  | Some (b :: readings) => if b <=? catchupYieldAbove then Some O else yield_wait (drop 1 readings)
  end.

Section Worker.
Context `{BlockWriter} (collector_set : bool).

(** [collector.MarkBlockProcessed] and [db.DeleteMissingRangeByBlock] are the
    same statement; without a collector a stored block's rows are left alone. *)
Definition MarkBlockProcessed (n : Z) : DB unit := DeleteMissingRangeByBlock n.

(** [tryBlock]: whether the block is done with, and by how much the count of
    processed blocks rose. *)
Definition tryBlock (blockNum : Z) (w : world) : world * bool * Z :=
  match HasBlock blockNum w with
  | (w, Err _) => (w, false, 0)
  | (w, Ok true) =>
      (if collector_set then ignore (MarkBlockProcessed blockNum) w else w, true, 1)
  | (w, Ok false) =>
      match process_block blockNum w with
      | (w, Err _) =>
          match RequeueMissingBlock blockNum w with
          | (w, Err _) => (w, false, 0)
          | (w, Ok _) => (w, true, 0)
          end
      | (w, Ok _) => (ignore (MarkBlockProcessed blockNum) w, true, 1)
      end
  end.

Definition catchupAttempts : Z := 5.

Inductive finish := Settled | Stopped.

Fixpoint indexBlock_loop (fuel : nat) (attempt blockNum : Z) (w : world) : option (world * finish) :=
  match fuel with
  | O => None
  | S fuel =>
      let again w :=
        match done_ctx w with
        | (w, Ok false) => indexBlock_loop fuel (attempt + 1) blockNum w
        | (w, _) => Some (w, Stopped)
        end in
      if catchupAttempts <? attempt then
        match RequeueMissingBlock blockNum w with
        | (w, Ok _) => Some (w, Settled)
        | (w, Err _) => again w
        end
      else
        match tryBlock blockNum w with
        | (w, true, _) => Some (w, Settled)
        | (w, false, _) => again w
        end
  end.

Definition indexBlock (fuel : nat) (blockNum : Z) (w : world) := indexBlock_loop fuel 1 blockNum w.

Lemma requeue_keeps n m w : accounted w m → accounted (RequeueMissingBlock n w).1 m.
Proof using. apply exec_accounted. intros s s'. apply insert_ranges_keeps. Qed.

Lemma requeue_records n w w' : RequeueMissingBlock n w = (w', Ok tt) → accounted w' n.
Proof using.
  intros E%exec_ok%insert_ranges_ok. destruct E as (_ & Hc & _). right. left. rewrite Hc. right.
  apply Exists_cons. left. cbn. lia.
Qed.

(** Marking a stored block keeps its own account (its rows may go). *)
Lemma mark_keeps_own n w : n ∈ blocks (st w) ∨ n < history_from (st w) ∨ n ∈ taken w →
  accounted (MarkBlockProcessed n w).1 n.
Proof using.
  intros Hn. unfold MarkBlockProcessed, DeleteMissingRangeByBlock, exec, statement.
  assert (∀ w, n ∈ blocks (st w) ∨ n < history_from (st w) ∨ n ∈ taken w →
    let w' := (next_event w).2 in n ∈ blocks (st w') ∨ n < history_from (st w') ∨ n ∈ taken w') as Hev.
  { clear w Hn. intros w Hn. unfold next_event. destruct (script w) as [|e es]; [done|]. cbn.
    assert (n ∈ blocks (st (mkWorld (st w) (taken w) es)) ∨ n < history_from (st (mkWorld (st w) (taken w) es)) ∨
            n ∈ taken (mkWorld (st w) (taken w) es)) as Hn' by done. revert Hn'.
    generalize (mkWorld (st w) (taken w) es). clear Hn w. induction (others e) as [|a l IH]; intros w Hn; [done|].
    cbn. apply IH. clear IH. destruct a as [m|m|f t|m|h]; cbn.
    - set_solver.
    - set_solver.
    - destruct (insert_range true f t (st w)) as [s'|] eqn:E; [|done]. cbn.
      apply insert_range_ok in E as [_ [_ Hb Hh _ _ _]]. by rewrite Hb, Hh.
    - destruct Hn as [Hn|[Hn|Hn]]; [|tauto|set_solver]. destruct (decide (n < m)); [set_solver|].
      do 2 right. apply elem_of_union. right. apply elem_of_filter. split; [lia|done].
    - destruct (Z.leb_spec h (history_from (st w))); [done|]. cbn.
      destruct (decide (n < h)); [tauto|]. destruct Hn as [Hn|[Hn|Hn]]; [|lia|tauto].
      left. apply elem_of_filter. split; [lia|done]. }
  specialize (Hev w Hn). destruct (next_event w) as [e w1]. cbn in Hev.
  destruct (failure e), (bigint n); cbn; unfold accounted; cbn; tauto.
Qed.

Lemma tryBlock_settles n w w' k : tryBlock n w = (w', true, k) → accounted w' n.
Proof using.
  unfold tryBlock. destruct (HasBlock n w) as [w1 [b|]] eqn:E; [|done]. destruct b.
  - apply query_ok in E as [_ E]. destruct (negb _); [done|]. injection E as E. apply bool_decide_eq_true in E.
    intros [= <- _]. destruct collector_set; [apply mark_keeps_own; by left|by left].
  - destruct (process_block n w1) as [w2 [[]|]] eqn:E2.
    + intros [= <- _]. apply mark_keeps_own. left. by eapply process_block_stores.
    + destruct (RequeueMissingBlock n w2) as [w3 [[]|]] eqn:E3; [|done].
      intros [= <- _]. by eapply requeue_records.
Qed.

Lemma indexBlock_loop_settled fuel attempt n w w' :
  indexBlock_loop fuel attempt n w = Some (w', Settled) → accounted w' n.
Proof using.
  revert attempt w. induction fuel as [|fuel IH]; intros attempt w; [done|]. cbn [indexBlock_loop].
  destruct (_ <? _).
  - destruct (RequeueMissingBlock n w) as [w1 [[]|]] eqn:E.
    + intros [= <-]. by eapply requeue_records.
    + destruct (done_ctx w1) as [w2 [[]|]]; [done|apply IH|done].
  - destruct (tryBlock n w) as [[w1 []] k] eqn:E.
    + intros [= <-]. by eapply tryBlock_settles.
    + destruct (done_ctx w1) as [w2 [[]|]]; [done|apply IH|done].
Qed.

Lemma requeue_quiet n w :
  script w = [] → bigint n = true → ∃ w', RequeueMissingBlock n w = (w', Ok tt).
Proof using.
  intros Hq Hn. unfold RequeueMissingBlock, exec, statement, next_event. rewrite Hq. cbn [failure quiet].
  destruct (insert_ranges_succeeds [(n, n)] (st w)) as [s' ->]; [by apply Forall_singleton|].
  by eexists.
Qed.

Lemma tryBlock_progress n w w' b k :
  bigint n = true → tryBlock n w = (w', b, k) →
  (length (script w') ≤ pred (length (script w)))%nat ∧ (script w = [] → b = true).
Proof using.
  intros Hn. unfold tryBlock. pose proof (statement_script
    (λ s, try a := (if negb (bigint n) then Err Encode else Ok (bool_decide (n ∈ blocks s))) in Ok (a, s)) w) as Hs.
  fold (query (λ s, if negb (bigint n) then Err Encode else Ok (bool_decide (n ∈ blocks s)))) in Hs.
  fold (HasBlock n) in Hs.
  assert (script w = [] → ∃ b, (HasBlock n w).2 = Ok b) as Hq.
  { intros Hq. unfold HasBlock, query, statement, next_event. rewrite Hq, Hn. cbn. eauto. }
  destruct (HasBlock n w) as [w1 [b1|e1]]; cbn [fst snd] in *.
  2: { intros [= <- <- _]. split; [lia|]. intros [? ?]%Hq. done. }
  assert (∀ w, length (script (ignore (MarkBlockProcessed n) w)) = pred (length (script w))) as Hm
    by (intros; apply statement_script).
  destruct b1.
  - intros [= <- <- _]. split; [|done]. destruct collector_set; [rewrite Hm; lia|lia].
  - pose proof (process_block_script n w1). destruct (process_block n w1) as [w2 [u|e2]]; cbn in *.
    + intros [= <- <- _]. split; [rewrite Hm; lia|done].
    + pose proof (statement_script (λ s, try s := insert_ranges true [(n, n)] s in Ok (tt, s)) w2) as Hr.
      fold (exec (insert_ranges true [(n, n)])) in Hr. fold (RequeueMissingBlock n) in Hr.
      assert (script w2 = [] → ∃ w', RequeueMissingBlock n w2 = (w', Ok tt)) as Hrq by (intros; by apply requeue_quiet).
      destruct (RequeueMissingBlock n w2) as [w3 [u|e3]]; cbn in *; intros [= <- <- _]; (split; [lia|]); [done|].
      intros Hnil. rewrite Hnil in Hs. cbn in Hs. destruct Hrq as [? ?]; [|done].
      apply length_zero_iff_nil. lia.
Qed.

Lemma indexBlock_loop_total fuel attempt n w :
  bigint n = true → (length (script w) < fuel)%nat → is_Some (indexBlock_loop fuel attempt n w).
Proof using.
  intros Hn. revert attempt w. induction fuel as [|fuel IH]; intros attempt w Hf; [lia|]. cbn [indexBlock_loop].
  assert (∀ w1, (length (script w1) ≤ pred (length (script w)))%nat → script w ≠ [] →
    is_Some (match done_ctx w1 with
             | (w, Ok false) => indexBlock_loop fuel (attempt + 1) n w
             | (w, _) => Some (w, Stopped) end)) as Hagain.
  { intros w1 Hw1 Hne. pose proof (next_event_script w1) as Hs. unfold done_ctx.
    destruct (next_event w1) as [e w2]. cbn in *. destruct (stopped e); [eauto|]. apply IH.
    destruct (script w); [done|]. cbn in *. lia. }
  destruct (_ <? _).
  - pose proof (statement_script (λ s, try s := insert_ranges true [(n, n)] s in Ok (tt, s)) w) as Hr.
    fold (exec (insert_ranges true [(n, n)])) in Hr. fold (RequeueMissingBlock n) in Hr.
    assert (script w = [] → ∃ w', RequeueMissingBlock n w = (w', Ok tt)) as Hq by (intros; by apply requeue_quiet).
    destruct (RequeueMissingBlock n w) as [w1 [u|e]]; [eauto|]. cbn in Hr. apply Hagain; [lia|].
    intros [? ?]%Hq. done.
  - destruct (tryBlock n w) as [[w1 b] k] eqn:E. destruct (tryBlock_progress _ _ _ _ _ Hn E) as [H1 H2].
    destruct b; [eauto|]. apply Hagain; [done|]. intros ?%H2. done.
Qed.
End Worker.

(** ** The producer: one poll of [blockProducerFromRanges] *)

Record producer := mkProducer { idleCount : Z; completionCalled : bool }.

Definition batch_size (configured : Z) : Z := if configured =? 0 then 100 else configured.

Definition range_blocks (r : BlockRange) : list Z := seqZ (FromNumber r) (ToNumber r - FromNumber r + 1).
Definition batch_blocks (rs : list BlockRange) : list Z := rs ≫= range_blocks.

(** The poll's answer, the new counters, whether the completion callback ran and
    the blocks put on the queue, in order. *)
Definition producer_poll (answer : res db_err (list BlockRange)) (processedBlocks : Z) (p : producer)
  : producer * bool * list Z :=
  match answer with
  | Err _ => (p, false, [])
  | Ok [] =>
      let idle := idleCount p + 1 in
      if negb (completionCalled p) && (3 <=? idle)
      then (mkProducer idle true, 0 <? processedBlocks, [])
      else (mkProducer idle (completionCalled p), false, [])
  | Ok ranges => (mkProducer 0 (completionCalled p), false, batch_blocks ranges)
  end.

(** ** The goroutines, interleaved

    The producer, the workers and the other writers share the table; each statement is one
    step, in any order. A worker is at one of the points of [indexBlock] and [tryBlock]
    between two statements; [run_stmt] is the statement itself, with what happens to it. *)

Inductive phase :=
| Checking (attempt : Z)   (* before HasBlock *)
| Writing (attempt : Z)    (* the block is not stored: before the write *)
| Recording (attempt : Z)  (* the write failed: before RequeueMissingBlock *)
| Marking                  (* stored: before MarkBlockProcessed *)
| Giving (attempt : Z).    (* past catchupAttempts: before RequeueMissingBlock *)

#[export] Instance phase_eq_dec : EqDecision phase.
Proof. solve_decision. Defined.

Definition run_stmt {A} (m : DB A) (f : fault) (s : store) : store * res db_err A :=
  let '(w, r) := m (mkWorld s ∅ [mkEvent [] f false]) in (st w, r).

(** The next attempt of [indexBlock]. *)
Definition next_attempt (attempt : Z) : phase :=
  if catchupAttempts <? attempt + 1 then Giving (attempt + 1) else Checking (attempt + 1).

(** What a worker does next with the block; [None]: it is done with it. *)
Definition worker_turn (collector_set : bool) (n : Z) (ph : phase) (f : fault) (s : store) : store * option phase :=
  match ph with
  | Checking a =>
      match run_stmt (HasBlock n) f s with
      | (s, Err _) => (s, Some (next_attempt a))
      | (s, Ok true) => (s, if collector_set then Some Marking else None)
      | (s, Ok false) => (s, Some (Writing a))
      end
  | Writing a =>
      match run_stmt (process_block n) f s with
      | (s, Err _) => (s, Some (Recording a))
      | (s, Ok _) => (s, Some Marking)
      end
  | Recording a | Giving a =>
      match run_stmt (RequeueMissingBlock n) f s with
      | (s, Err _) => (s, Some (next_attempt a))
      | (s, Ok _) => (s, None)
      end
  | Marking => ((run_stmt (MarkBlockProcessed n) f s).1, None)
  end.

(** The blocks the producer holds or has put on the queue, the workers with their blocks,
    and the blocks a revert removed that are not stored again yet. *)
Record catchup_sys := mkSys { y_store : store; y_queue : list Z; y_workers : list (Z * phase); y_reverted : gset Z }.

Definition overlap (a b : BlockRange) : Prop := ∃ n, contains a n ∧ contains b n.
Definition in_flight (y : catchup_sys) : gset Z := list_to_set (y_queue y ++ (y_workers y).*1).

(** A saved gap that meets no other row and no block in flight. *)
Definition fresh_gap (f t : Z) (s : store) (fl : gset Z) : Prop :=
  existsb (same_range f t) (rows s) = true ∨
  ((∀ r, r ∈ rows s → ¬ overlap r (mkRange 0 f t)) ∧ ∀ n, n ∈ fl → ¬ f ≤ n ≤ t).

(** The other writers: realtime and the standard loop store blocks, a reorg reverts them,
    retention prunes, the collector and realtime record gaps. Marks are the workers' own. *)
Definition other_writer (a : action) (y : catchup_sys) : Prop :=
  match a with AMark _ => False | AInsert f t => fresh_gap f t (y_store y) (in_flight y) | _ => True end.

Inductive cstep (collector_set : bool) (y : catchup_sys) : catchup_sys → Prop :=
| y_poll k f s ranges processed p :
    run_stmt (GetMissingRangesBatch k) f (y_store y) = (s, Ok ranges) →
    cstep collector_set y (mkSys s (y_queue y ++ (producer_poll (Ok ranges) processed p).2) (y_workers y) (y_reverted y))
| y_take n q :
    y_queue y = n :: q → cstep collector_set y (mkSys (y_store y) q (y_workers y ++ [(n, Checking 1)]) (y_reverted y))
| y_turn l1 n ph l2 f s r :
    y_workers y = l1 ++ (n, ph) :: l2 → worker_turn collector_set n ph f (y_store y) = (s, r) →
    cstep collector_set y (mkSys s (y_queue y) (l1 ++ match r with Some ph => [(n, ph)] | None => [] end ++ l2) (y_reverted y ∖ blocks s))
| y_other a w :
    other_writer a y → apply_action a (mkWorld (y_store y) (y_reverted y) []) = w →
    cstep collector_set y (mkSys (st w) (y_queue y) (y_workers y) (taken w ∖ blocks (st w))).

(** Nobody has dropped the block. *)
Definition safe (s : store) (again : gset Z) (n : Z) : Prop := n ∈ blocks s ∨ n < history_from s ∨ n ∈ again.
Definition kept (y : catchup_sys) (n : Z) : Prop :=
  safe (y_store y) (y_reverted y) n ∨ covers (rows (y_store y)) n ∨ n ∈ in_flight y.

(** *** What stays true: the table, the blocks in flight, the reverted blocks *)

Record cstate := mkC { cs : store; flight : gset Z; again : gset Z }.
Definition view (y : catchup_sys) : cstate := mkC (y_store y) (in_flight y) (y_reverted y).
Notation safe_in c := (safe (cs c) (again c)).

(** A row all of whose blocks are stored, pruned, reverted, in flight or recorded on their
    own: it may be deleted. *)
Definition active (c : cstate) (r : BlockRange) : Prop :=
  ∀ m, contains r m → safe_in c m ∨ m ∈ flight c ∨ ∃ i, mkRange i m m ∈ rows (cs c).

Definition ids_ok (s : store) : Prop := NoDup (ID <$> rows s) ∧ Forall (λ r, ID r < next_id s) (rows s).
Record inv (c : cstate) : Prop := {
  inv_flight r n : r ∈ rows (cs c) → contains r n → n ∈ flight c → active c r;
  inv_overlap a b : a ∈ rows (cs c) → b ∈ rows (cs c) → ID a ≠ ID b → overlap a b → active c a;
  inv_ids : ids_ok (cs c) }.

Lemma elem_batch_blocks n rs : n ∈ batch_blocks rs ↔ covers rs n.
Proof.
  unfold batch_blocks, range_blocks. rewrite list_elem_of_bind, covers_elem. unfold contains.
  split; intros (r & H1 & H2); exists r.
  - rewrite elem_of_seqZ in H1. split; [done|lia].
  - rewrite elem_of_seqZ. split; [lia|done].
Qed.

Lemma elem_missing_batch k s r :
  r ∈ missing_batch k s → ∃ x, x ∈ rows s ∧ history_from s ≤ ToNumber x ∧ r = clamp (history_from s) x.
Proof.
  unfold missing_batch. intros (x & -> & Hx)%list_elem_of_fmap.
  assert (x ∈ merge_sort newest_first (filter (λ r, history_from s ≤ ToNumber r) (rows s))) as Hx'.
  { eapply elem_of_sublist; [exact Hx|]. apply sublist_take. }
  rewrite merge_sort_Permutation in Hx'. apply list_elem_of_filter in Hx' as [? ?]. eauto.
Qed.

(** Activity survives what the other blocks of the table do. *)
Lemma active_mono c c' r :
  active c r → (∀ m, contains r m → safe_in c m → safe_in c' m) →
  (∀ m, contains r m → m ∈ flight c → m ∈ flight c' ∨ safe_in c' m ∨ ∃ i, mkRange i m m ∈ rows (cs c')) →
  (∀ m i, contains r m → mkRange i m m ∈ rows (cs c) → mkRange i m m ∈ rows (cs c')) →
  active c' r.
Proof.
  intros Ha Hs Hf Hr m Hm. destruct (Ha m Hm) as [H|[H|[i H]]]; [left; auto| |].
  - destruct (Hf m Hm H) as [?|[?|?]]; tauto.
  - do 2 right. eauto.
Qed.

Lemma single_recorded n s s' : insert_range true n n s = Ok s' → ∃ i, mkRange i n n ∈ rows s'.
Proof.
  unfold insert_range. destruct (negb _); [done|]. destruct (_ <? _); [done|].
  destruct (existsb _ _) eqn:E; intros [= <-]; cbn.
  - apply existsb_exists in E as ([i f t] & Hr & E). apply same_range_true in E as [E1 E2]. cbn in *. subst.
    exists i. by apply list_elem_of_In.
  - exists (next_id s). set_solver.
Qed.

(** The rows an insert leaves: the old ones, and perhaps the new one. *)
Lemma insert_range_rows f t s s' :
  insert_range true f t s = Ok s' →
  (existsb (same_range f t) (rows s) = true ∧ rows s' = rows s) ∨
  (existsb (same_range f t) (rows s) = false ∧ rows s' = rows s ++ [mkRange (next_id s) f t]).
Proof.
  unfold insert_range. destruct (negb _); [done|]. destruct (_ <? _); [done|].
  destruct (existsb _ _) eqn:E; intros [= <-]; [left|right]; done.
Qed.
Lemma insert_range_ids f t s s' : insert_range true f t s = Ok s' → ids_ok s → ids_ok s'.
Proof.
  unfold insert_range, ids_ok. intros E [H1 H2]. rewrite Forall_forall in H2. destruct (negb _); [done|]. destruct (_ <? _); [done|].
  destruct (existsb _ _); injection E as <-; cbn [rows next_id].
  - split; [done|]. apply Forall_forall. intros r Hr. specialize (H2 r Hr). lia.
  - rewrite fmap_app, Forall_app. split; [apply NoDup_app; split_and!; [done| |apply NoDup_singleton]|].
    + intros i (r & -> & Hr)%list_elem_of_fmap Hi%list_elem_of_singleton. specialize (H2 r Hr). cbn in Hi. lia.
    + split; [|apply Forall_singleton; cbn; lia]. apply Forall_forall. intros r Hr. specialize (H2 r Hr). lia.
Qed.
Lemma insert_range_safe f t s s' ag : insert_range true f t s = Ok s' → ∀ n, safe s' ag n ↔ safe s ag n.
Proof. intros [_ [_ Hb Hh _ _ _]]%insert_range_ok n. unfold safe. by rewrite Hb, Hh. Qed.

(** Activity across an insert, for a change of [flight] that only takes out a
    block now recorded on its own. *)
Lemma active_insert c f t s' fl r :
  insert_range true f t (cs c) = Ok s' → (∀ m, m ∈ flight c → m ∈ fl ∨ ∃ i, mkRange i m m ∈ rows s') →
  active c r → active (mkC s' fl (again c)) r.
Proof.
  intros E Hfl Ha. eapply active_mono; [exact Ha|cbn..].
  - intros m _. by rewrite (insert_range_safe _ _ _ _ _ E).
  - intros m _ Hm. destruct (Hfl m Hm); tauto.
  - intros m i _ Hm. destruct (insert_range_rows _ _ _ _ E) as [[_ ->]|[_ ->]]; set_solver.
Qed.

(** More blocks stored, in flight or reverted. *)
Lemma inv_more c s fl ag : inv c → rows s = rows (cs c) → next_id s = next_id (cs c) →
  (∀ m, safe_in c m → safe s ag m) → (∀ m, m ∈ flight c → m ∈ fl ∨ safe s ag m) → (∀ m, m ∈ fl → m ∈ flight c) → inv (mkC s fl ag).
Proof.
  intros [Hf Ho Ht] Er En Hs Hfl Hback. assert (∀ r, active c r → active (mkC s fl ag) r) as Hmono.
  { intros r Ha. eapply active_mono; [exact Ha|..]; cbn; [auto| |by rewrite Er]. intros m _ Hm. destruct (Hfl m Hm); tauto. }
  split; cbn; rewrite ?Er; [eauto..|]. unfold ids_ok. by rewrite Er, En.
Qed.

Lemma inv_read k c : inv c → inv (mkC (cs c) (flight c ∪ list_to_set (batch_blocks (missing_batch k (cs c)))) (again c)).
Proof.
  intros [Hf Ho Ht]. set (c' := mkC _ _ _).
  assert (∀ r, active c r → active c' r) as Hmono.
  { intros r Ha. eapply active_mono; [exact Ha|..]; cbn; [done|set_solver|done]. }
  split; cbn; [|eauto|done].
  intros r n Hr Hn [Hfl|Hb%elem_of_list_to_set]%elem_of_union; [eauto|].
  apply elem_batch_blocks, covers_elem in Hb as (y & Hy & Hny).
  destruct (elem_missing_batch _ _ _ Hy) as (x & Hx & Hhx & ->).
  destruct (decide (ID r = ID x)) as [E|E].
  - assert (r = x) as -> by (eapply (NoDup_fmap_elem_inj ID); [apply Ht|done..]). intros m Hm.
    destruct (decide (m < history_from (cs c))); [left; right; by left|]. right. left. cbn.
    apply elem_of_union. right. apply elem_of_list_to_set, elem_batch_blocks, covers_elem. eexists. split; [exact Hy|].
    unfold contains, clamp in *. cbn. lia.
  - apply Hmono. eapply (Ho r x); [done|done|done|]. exists n. split; [done|].
    unfold contains, clamp in *. cbn in Hny. lia.
Qed.

Lemma inv_mark n c fl : inv c → (∀ m, m ∈ fl → m ∈ flight c) → (∀ m, m ∈ flight c → m ≠ n → m ∈ fl) →
  inv (mkC (delete_rows (λ r, bool_decide (contains r n)) (cs c)) fl (again c)).
Proof.
  intros [Hf Ho [Ht1 Ht2]] Hsub Hrest. set (c' := mkC _ _ _).
  assert (∀ r, r ∈ rows (cs c') → r ∈ rows (cs c) ∧ ¬ contains r n) as Hrow.
  { intros r [Hc Hr]%list_elem_of_filter. by apply bool_decide_eq_false in Hc. }
  assert (∀ r, r ∈ rows (cs c') → active c r → active c' r) as Hmono.
  { intros r [Hr Hn]%Hrow Ha. eapply active_mono; [exact Ha|..]; cbn; [done| |].
    - intros m Hm Hfl. left. apply Hrest; [done|]. congruence.
    - intros m i Hm Hs. apply list_elem_of_filter. split; [|done]. apply bool_decide_eq_false.
      intros Hc. unfold contains in Hc. cbn in Hc. apply Hn. by replace n with m by lia. }
  split.
  - intros r m Hr Hm Hfl. apply Hmono; [done|]. apply Hsub in Hfl. destruct (Hrow r Hr). eauto.
  - intros a b Ha Hb Hid Hov. apply Hmono; [done|]. destruct (Hrow a Ha), (Hrow b Hb). eauto.
  - split; cbn; [eapply sublist_NoDup; [exact Ht1|]; apply fmap_sublist, sublist_filter|].
    apply Forall_forall. intros r [_ Hr]%list_elem_of_filter. rewrite Forall_forall in Ht2. auto.
Qed.

(** A block in flight recorded again; it is then out of flight, or still in it. *)
Lemma inv_requeue n c s' fl : inv c → n ∈ flight c → insert_range true n n (cs c) = Ok s' →
  (∀ m, m ∈ fl → m ∈ flight c) → (∀ m, m ∈ flight c → m ≠ n → m ∈ fl) → inv (mkC s' fl (again c)).
Proof.
  intros [Hf Ho Ht] Hn E Hsub Hrest. destruct (single_recorded _ _ _ E) as [i Hi].
  assert (∀ r, active c r → active (mkC s' fl (again c)) r) as Hmono.
  { intros r. apply active_insert with (1 := E). intros m Hm. destruct (decide (m = n)) as [->|]; [eauto|]. left. auto. }
  assert (∀ r, r ∈ rows s' → r ∈ rows (cs c) ∨ (FromNumber r = n ∧ ToNumber r = n)) as Hrow.
  { intros r. destruct (insert_range_rows _ _ _ _ E) as [[_ ->]|[_ ->]]; [tauto|].
    intros [Hr| ->%list_elem_of_singleton]%elem_of_app; [tauto|right; done]. }
  assert (∀ r, FromNumber r = n ∧ ToNumber r = n → active (mkC s' fl (again c)) r) as Hsingle.
  { intros r [H1 H2] m Hm. unfold contains in Hm. do 2 right. exists i. cbn. by replace m with n by lia. }
  split; cbn.
  - intros r m Hr Hm Hfl%Hsub. destruct (Hrow r Hr); [eauto|auto].
  - intros a b Ha Hb Hid [m [Hma Hmb]]. destruct (Hrow a Ha) as [Ha'|]; [|auto].
    destruct (Hrow b Hb) as [Hb'|[H1 H2]].
    + apply Hmono. eapply (Ho a b); [done..|]. by exists m.
    + apply Hmono. eapply (Hf a n); [done| |done]. unfold contains in Hmb. by replace n with m by lia.
  - by eapply insert_range_ids.
Qed.

Lemma inv_save f t c s' : inv c → fresh_gap f t (cs c) (flight c) → insert_range true f t (cs c) = Ok s' → inv (mkC s' (flight c) (again c)).
Proof.
  intros [Hf Ho Ht] Hfresh E.
  assert (∀ r, active c r → active (mkC s' (flight c) (again c)) r) as Hmono.
  { intros r. apply active_insert with (1 := E). tauto. }
  assert (ids_ok s') as Ht' by (by eapply insert_range_ids).
  destruct (insert_range_rows _ _ _ _ E) as [[Hex Hrs]|[Hex Hrs]].
  - split; cbn; rewrite ?Hrs; eauto.
  - destruct Hfresh as [Hc|[Hdis Hnfl]]; [congruence|].
    assert (∀ r, r ∈ rows s' → r ∈ rows (cs c) ∨ r = mkRange (next_id (cs c)) f t) as Hrow.
    { rewrite Hrs. intros r [Hr| ->%list_elem_of_singleton]%elem_of_app; tauto. }
    split; cbn; [| |done].
    + intros r n Hr Hn Hfl. destruct (Hrow r Hr) as [Hr'| ->]; [eauto|].
      exfalso. eapply Hnfl; [exact Hfl|]. exact Hn.
    + intros a b Ha Hb Hid [m [Hma Hmb]]. destruct (Hrow a Ha) as [Ha'| ->], (Hrow b Hb) as [Hb'| ->].
      * apply Hmono. eapply (Ho a b); [done..|]. by exists m.
      * exfalso. apply (Hdis a Ha'). by exists m.
      * exfalso. apply (Hdis b Hb'). by exists m.
      * done.
Qed.

Lemma elem_prune_rows h rs r : r ∈ prune_rows h rs → ∃ x, x ∈ rs ∧ ID r = ID x ∧ h ≤ FromNumber r ∧ ∀ m, contains r m ↔ contains x m ∧ h ≤ m.
Proof.
  unfold prune_rows. intros (x & -> & [Hh Hx]%list_elem_of_filter)%list_elem_of_fmap. exists x. split_and!; [done|done|cbn; lia|].
  intros m. unfold contains. cbn. lia.
Qed.
Lemma prune_rows_elem h rs x m : x ∈ rs → contains x m → h ≤ m → ∃ r, r ∈ prune_rows h rs ∧ contains r m.
Proof.
  intros Hx Hm Hh. exists (mkRange (ID x) (Z.max (FromNumber x) h) (ToNumber x)). unfold contains in *. split; [|cbn; lia].
  apply list_elem_of_fmap. exists x. split; [done|]. apply list_elem_of_filter. split; [lia|done].
Qed.
Lemma inv_prune h c s : inv c → s = mkStore (prune_rows h (rows (cs c))) (next_id (cs c)) (filter (λ b, h ≤ b) (blocks (cs c))) h (progress (cs c)) →
  history_from (cs c) < h → inv (mkC s (flight c) (again c ∖ blocks s)).
Proof.
  intros [Hf Ho [Ht1 Ht2]] -> Hh. set (c' := mkC _ _ _).
  assert (∀ r x, r ∈ rows (cs c') → h ≤ FromNumber r → (∀ m, contains r m ↔ contains x m ∧ h ≤ m) → active c x → active c' r) as Hmono.
  { intros r x Hr Hlo Hc Ha m Hm. apply Hc in Hm as [Hm Hle]. destruct (Ha m Hm) as [[Hs|[Hs|Hs]]|[Hs|[i Hs]]].
    - left. left. cbn. apply elem_of_filter. done.
    - lia.
    - destruct (decide (m ∈ blocks (cs c'))); [left; by left|]. left. right. right. cbn. set_solver.
    - right. by left.
    - do 2 right. exists i. cbn. apply list_elem_of_fmap. exists (mkRange i m m). split; [cbn; f_equal; lia|]. apply list_elem_of_filter. split; [cbn; lia|done]. }
  split; cbn [cs flight again c'].
  - intros r n Hr Hn Hfl. destruct (elem_prune_rows _ _ _ Hr) as (x & Hx & _ & Hlo & Hc). eapply Hmono; [done|done|exact Hc|]. apply Hc in Hn as [Hn _]. eauto.
  - intros a b Ha Hb Hid (n & Hna & Hnb). destruct (elem_prune_rows _ _ _ Ha) as (x & Hx & Ex & Hlo & Hc). destruct (elem_prune_rows _ _ _ Hb) as (z & Hz & Ez & _ & Hcz).
    eapply Hmono; [done|done|exact Hc|]. apply Hc in Hna as [Hna _]. apply Hcz in Hnb as [Hnb _]. eapply (Ho x z); [done|done|congruence|]. by exists n.
  - split; cbn [rows next_id].
    + unfold prune_rows. rewrite <-list_fmap_compose. eapply sublist_NoDup; [exact Ht1|].
      change (ID <$> filter (λ r, h ≤ ToNumber r) (rows (cs c)) `sublist_of` ID <$> rows (cs c)). apply fmap_sublist, sublist_filter.
    + apply Forall_forall. intros r Hr. destruct (elem_prune_rows _ _ _ Hr) as (x & Hx & Ex & _). rewrite Forall_forall in Ht2. rewrite Ex. auto.
Qed.

(** *** The statements of a worker *)

Definition others_of (y : catchup_sys) (l1 l2 : list (Z * phase)) : gset Z := list_to_set (y_queue y ++ (l1 ++ l2).*1).
Lemma flight_split y l1 n ph l2 m : y_workers y = l1 ++ (n, ph) :: l2 → m ∈ in_flight y ↔ m = n ∨ m ∈ others_of y l1 l2.
Proof. intros E. unfold in_flight, others_of. rewrite !elem_of_list_to_set, E, !elem_of_app, !fmap_app, fmap_cons, !elem_of_app, elem_of_cons. cbn. tauto. Qed.
Lemma flight_after s q l1 (n : Z) (r : option phase) l2 ag m : m ∈ in_flight (mkSys s q (l1 ++ match r with Some ph => [(n, ph)] | None => [] end ++ l2) ag) ↔
  m ∈ (list_to_set (q ++ (l1 ++ l2).*1) : gset Z) ∨ (m = n ∧ is_Some r).
Proof.
  unfold in_flight. cbn [y_queue y_workers]. rewrite !elem_of_list_to_set, !elem_of_app, !fmap_app, !elem_of_app. destruct r as [ph|]; cbn.
  - rewrite elem_of_cons, elem_of_nil. split; [intros; destruct_or?; auto|intros [?|[? _]]; tauto].
    all: try (right; split; [done|by eexists]).
  - rewrite elem_of_nil. split; [tauto|]. intros [?|[_ [? [=]]]]. tauto.
Qed.

(** What a turn does to the store, when it changes it. *)
Inductive turn_effect (n : Z) (s s' : store) (r : option phase) : Prop :=
| te_same : s' = s → is_Some r → turn_effect n s s' r
| te_stored : s' = s → n ∈ blocks s → turn_effect n s s' r
| te_write : s' = mkStore (rows s) (next_id s) ({[n]} ∪ blocks s) (history_from s) (progress s) → is_Some r → turn_effect n s s' r
| te_record : insert_range true n n s = Ok s' → turn_effect n s s' r.

Definition stored_phase (r : option phase) : bool := match r with Some Marking => true | _ => false end.

Lemma run_exec (f : store → res db_err store) flt s : run_stmt (exec f) flt s =
  match flt, f s with Refused, _ => (s, Err Lost) | _, Err x => (s, Err x) | NoFault, Ok s' => (s', Ok tt) | AckLost, Ok s' => (s', Err Lost) end.
Proof. unfold run_stmt, exec, statement. cbn. by destruct flt, (f s) as [?|?]. Qed.
Lemma run_query {A} (f : store → res db_err A) flt s : run_stmt (query f) flt s =
  (s, match flt, f s with Refused, _ => Err Lost | _, Err x => Err x | NoFault, Ok a => Ok a | AckLost, Ok _ => Err Lost end).
Proof. unfold run_stmt, query, statement. cbn. by destruct flt, (f s) as [?|?]. Qed.

Lemma requeue_turn n flt s s' x : run_stmt (RequeueMissingBlock n) flt s = (s', x) → s' = s ∧ x ≠ Ok tt ∨ insert_range true n n s = Ok s'.
Proof.
  unfold RequeueMissingBlock. rewrite run_exec. cbn [insert_ranges]. destruct (insert_range true n n s) as [s1|] eqn:E; cbn; destruct flt; intros [= <- <-]; auto.
Qed.

Lemma turn_spec cset n ph f s s' r : worker_turn cset n ph f s = (s', r) → (ph ≠ Marking → turn_effect n s s' r) ∧ (ph = Marking → r = None ∧ (s' = s ∨ s' = delete_rows (λ x, bool_decide (contains x n)) s)) ∧
  (stored_phase r = true → n ∈ blocks s').
Proof.
  destruct ph as [a|a|a| |a]; cbn [worker_turn].
  - unfold HasBlock. rewrite run_query. destruct (bigint n); cbn [negb].
    + destruct (decide (n ∈ blocks s)) as [Hin|Hin]; [rewrite bool_decide_true by done|rewrite bool_decide_false by done]; destruct f; cbn; intros [= <- <-]; unfold next_attempt; (split_and!; [intros _|done|]);
        try (by apply te_stored); try (by apply te_same; eauto); try done; try (by destruct (_ <? _)). all: by destruct cset.
    + destruct f; cbn; intros [= <- <-]; (split_and!; [intros _; apply te_same; [done|unfold next_attempt; by destruct (_ <? _); eexists]|done|unfold next_attempt; by destruct (_ <? _)]).
  - cbn [process_block insert_writer]. unfold insert_block. rewrite run_exec. destruct (bigint n); cbn [negb]; destruct f; cbn; intros [= <- <-]; (split_and!; [intros _|done|]);
      try (by apply te_same; eauto); try (by apply te_write; eauto); try done; cbn; set_solver.
  - destruct (run_stmt _ f s) as [s1 x] eqn:E. apply requeue_turn in E. destruct x as [[]|]; intros [= <- <-]; (split_and!; [intros _|done|by unfold next_attempt; repeat case_match]);
      destruct E as [[-> ?]|?]; try done; try (by apply te_record). apply te_same; [done|]. unfold next_attempt. by destruct (_ <? _); eexists.
  - unfold MarkBlockProcessed, DeleteMissingRangeByBlock. rewrite run_exec. destruct (bigint n); cbn [negb]; destruct f; cbn; intros [= <- <-]; split_and!; try done; auto.
  - destruct (run_stmt _ f s) as [s1 x] eqn:E. apply requeue_turn in E. destruct x as [[]|]; intros [= <- <-]; (split_and!; [intros _|done|by unfold next_attempt; repeat case_match]);
      destruct E as [[-> ?]|?]; try done; try (by apply te_record). apply te_same; [done|]. unfold next_attempt. by destruct (_ <? _); eexists.
Qed.

(** *** The steps *)

Definition sys_inv (y : catchup_sys) : Prop := inv (view y) ∧ ∀ n, (n, Marking) ∈ y_workers y → safe (y_store y) (y_reverted y) n.

Lemma safe_more s s' (ag : gset Z) m : (∀ x, x ∈ blocks s → x ∈ blocks s') → history_from s ≤ history_from s' → safe s ag m → safe s' (ag ∖ blocks s') m.
Proof. intros Hb Hh [H|[H|H]]; [left; auto|right; left; lia|]. destruct (decide (m ∈ blocks s')); [by left|right; right; set_solver]. Qed.
Lemma inv_again c s : inv (mkC s (flight c) (again c)) → inv (mkC s (flight c) (again c ∖ blocks s)).
Proof. intros Hi. eapply inv_more; [exact Hi|done|done| |by left|done]. intros m. cbn. apply safe_more; [done|lia]. Qed.

Section Turn.
Context (cset : bool) (y : catchup_sys) (l1 : list (Z * phase)) (n : Z) (ph : phase) (l2 : list (Z * phase)) (f : fault) (s : store) (r : option phase).
Hypothesis Hy : sys_inv y.
Hypothesis Ew : y_workers y = l1 ++ (n, ph) :: l2.
Hypothesis Et : worker_turn cset n ph f (y_store y) = (s, r).
Let y' := mkSys s (y_queue y) (l1 ++ match r with Some ph => [(n, ph)] | None => [] end ++ l2) (y_reverted y ∖ blocks s).

Lemma after_sub m : m ∈ in_flight y' → m ∈ in_flight y.
Proof. unfold y'. rewrite flight_after, (flight_split y l1 n ph l2 m Ew). unfold others_of. tauto. Qed.
Lemma after_rest m : m ∈ in_flight y → m ≠ n ∨ is_Some r → m ∈ in_flight y'.
Proof. unfold y'. rewrite flight_after, (flight_split y l1 n ph l2 m Ew). unfold others_of. intros [->|?] [?|?]; tauto. Qed.

(** What the turn leaves of the account of a block. *)
Lemma turn_keeps : sys_inv y' ∧ ∀ m, kept y m → kept y' m.
Proof.
  destruct Hy as [Hi Hm]. destruct (turn_spec cset n ph f (y_store y) s r Et) as (Hne & Hmk & Hst).
  assert (n ∈ in_flight y) as Hn by (apply (flight_split y l1 n ph l2 n Ew); by left).
  assert (inv (view y') ∧ (∀ m, safe (y_store y) (y_reverted y) m → safe s (y_reverted y ∖ blocks s) m) ∧ ∀ m, kept y m → kept y' m) as (H1 & H2 & H3).
  2: { split; [|done]. split; [done|]. intros m. cbn [y' y_workers y_store y_reverted]. rewrite !elem_of_app. intros [Hin|[Hin|Hin]].
       - apply H2, Hm. rewrite Ew. set_solver.
       - destruct r as [ph'|]; [|by apply not_elem_of_nil in Hin]. apply list_elem_of_singleton in Hin as [= -> <-]. left. by apply Hst.
       - apply H2, Hm. rewrite Ew. set_solver. }
  assert (rows s = rows (y_store y) → next_id s = next_id (y_store y) → (∀ m, safe (y_store y) (y_reverted y) m → safe s (y_reverted y ∖ blocks s) m) →
    (∀ m, m ∈ in_flight y → m ∈ in_flight y' ∨ safe s (y_reverted y ∖ blocks s) m) →
    inv (view y') ∧ (∀ m, safe (y_store y) (y_reverted y) m → safe s (y_reverted y ∖ blocks s) m) ∧ ∀ m, kept y m → kept y' m) as Hsimple.
  { intros Er En Hs Hfl. split_and!; [|done|].
    - eapply (inv_more (view y)); [exact Hi|done|done|done|done|]. intros m. apply after_sub.
    - intros m [Hk|[Hk|Hk]]; [left; by apply Hs|right; left; cbn; by rewrite Er|]. destruct (Hfl m Hk); [by right; right|by left]. }
  assert (blocks s = blocks (y_store y) → history_from s = history_from (y_store y) → ∀ m, safe (y_store y) (y_reverted y) m → safe s (y_reverted y ∖ blocks s) m) as Hsame.
  { intros Eb Eh m. apply safe_more; [by rewrite Eb|lia]. }
  destruct (decide (ph = Marking)) as [Eph|Hph].
  - assert (safe (y_store y) (y_reverted y) n) as Hns by (apply Hm; rewrite Ew, Eph; set_solver).
    destruct (Hmk Eph) as [Er0 [Es|Es]].
    + assert (∀ m, safe (y_store y) (y_reverted y) m → safe s (y_reverted y ∖ blocks s) m) as Hs by (apply Hsame; by rewrite Es).
      apply Hsimple; [by rewrite Es..|done|]. intros m Hin. destruct (decide (m = n)) as [->|]; [right; by apply Hs|left; apply after_rest; auto].
    + assert (∀ m, safe (y_store y) (y_reverted y) m → safe s (y_reverted y ∖ blocks s) m) as Hs by (apply Hsame; by rewrite Es). split_and!; [|done|].
      * apply (inv_again (mkC (y_store y) (in_flight y') (y_reverted y)) s). cbn [flight again]. rewrite Es. apply (inv_mark n (view y)); [done|intros m; apply after_sub|intros m ??; apply after_rest; auto].
      * intros m Hk. destruct (decide (m = n)) as [->|Hne']; [left; by apply Hs|]. destruct Hk as [Hk|[Hk|Hk]]; [left; by apply Hs| |right; right; apply after_rest; auto].
        apply covers_elem in Hk as (x & Hx & Hmx). destruct (decide (contains x n)) as [Hc|Hc].
        -- destruct (inv_flight _ Hi x n Hx Hc Hn m Hmx) as [?|[?|[i Hs1]]]; [left; by apply Hs|right; right; apply after_rest; auto|].
           right. left. apply covers_elem. exists (mkRange i m m). split; [|unfold contains; cbn; lia]. cbn. rewrite Es.
           apply list_elem_of_filter. split; [|done]. apply bool_decide_eq_false. unfold contains. cbn. lia.
        -- right. left. apply covers_elem. exists x. split; [|done]. cbn. rewrite Es. apply list_elem_of_filter. split; [|done]. by apply bool_decide_eq_false.
  - destruct (Hne Hph) as [Es Hr|Es Hb|Es Hr|E].
    + apply Hsimple; [by rewrite Es..|apply Hsame; by rewrite Es|]. intros m Hin. left. apply after_rest; auto.
    + apply Hsimple; [by rewrite Es..|apply Hsame; by rewrite Es|]. intros m Hin. destruct (decide (m = n)) as [->|]; [right; left; by rewrite Es|left; apply after_rest; auto].
    + apply Hsimple; [by rewrite Es..|intros m; rewrite Es; apply safe_more; cbn; [set_solver|lia]|]. intros m Hin. left. apply after_rest; auto.
    + pose proof E as [_ [Hc Hbl Hh _ _ _]]%insert_range_ok.
      assert (∀ m, safe (y_store y) (y_reverted y) m → safe s (y_reverted y ∖ blocks s) m) as Hs by (by apply Hsame). split_and!; [|done|].
      * apply (inv_again (mkC (y_store y) (in_flight y') (y_reverted y)) s). cbn [flight again]. apply (inv_requeue n (view y)); [done|done|done|intros m; apply after_sub|intros m ??; apply after_rest; auto].
      * intros m [Hk|[Hk|Hk]]; [left; by apply Hs|right; left; apply Hc; by left|]. destruct (decide (m = n)) as [->|]; [right; left; apply Hc; right; lia|right; right; apply after_rest; auto].
Qed.
End Turn.

Lemma other_keeps a y w : sys_inv y → other_writer a y → apply_action a (mkWorld (y_store y) (y_reverted y) []) = w →
  let y' := mkSys (st w) (y_queue y) (y_workers y) (taken w ∖ blocks (st w)) in sys_inv y' ∧ ∀ m, kept y m → kept y' m.
Proof.
  intros [Hi Hm] Ho Ew y'. assert (in_flight y' = in_flight y) as Efl by done.
  assert (inv (view y') ∧ (∀ m, safe (y_store y) (y_reverted y) m → safe (st w) (taken w ∖ blocks (st w)) m) ∧
    ∀ m, covers (rows (y_store y)) m → covers (rows (st w)) m ∨ safe (st w) (taken w ∖ blocks (st w)) m) as (H1 & H2 & H3).
  2: { split; [split; [done|]; intros n Hn; apply H2, Hm, Hn|]. intros m [Hk|[Hk|Hk]]; [left; by apply H2| |right; right; by rewrite Efl].
       destruct (H3 m Hk); [by right; left|by left]. }
  assert (∀ s ag, w = mkWorld s ag [] → rows s = rows (y_store y) → next_id s = next_id (y_store y) → (∀ m, safe (y_store y) (y_reverted y) m → safe s (ag ∖ blocks s) m) →
    inv (view y') ∧ (∀ m, safe (y_store y) (y_reverted y) m → safe (st w) (taken w ∖ blocks (st w)) m) ∧
    ∀ m, covers (rows (y_store y)) m → covers (rows (st w)) m ∨ safe (st w) (taken w ∖ blocks (st w)) m) as Hsimple.
  { intros s ag -> Er En Hs. split_and!; [|done|cbn; rewrite Er; tauto]. apply (inv_more (view y)); [done|done|done|done|by left|done]. }
  destruct a as [n|n|f t|n|h]; cbn [apply_action st taken script] in Ew.
  - eapply Hsimple; [by symmetry|done|done|]. intros m. apply safe_more; cbn; [set_solver|lia].
  - done.
  - cbn in Ho. destruct (insert_range true f t (y_store y)) as [s1|] eqn:E.
    + pose proof E as [_ [Hc Hbl Hh _ _ _]]%insert_range_ok. subst w. cbn [st taken] in *. split_and!.
      * apply (inv_again (mkC (y_store y) (in_flight y') (y_reverted y)) s1). by apply (inv_save f t (view y)).
      * intros m. apply safe_more; [by rewrite Hbl|lia].
      * intros m Hk. left. apply Hc. by left.
    + eapply Hsimple; [by symmetry|done|done|]. intros m. apply safe_more; [done|lia].
  - eapply Hsimple; [by symmetry|done|done|]. intros m. cbn. intros [Hs|[Hs|Hs]].
    + destruct (decide (m < n)); [left; set_solver|]. right. right. cbn. apply elem_of_difference. rewrite elem_of_union, !elem_of_filter. split; [right; split; [lia|done]|]. lia.
    + right. by left.
    + destruct (decide (m ∈ filter (λ b, b < n) (blocks (y_store y)))); [by left|]. right. right. set_solver.
  - destruct (Z.leb_spec h (history_from (y_store y))) as [|Hh].
    + eapply Hsimple; [by symmetry|done|done|]. intros m. apply safe_more; [done|lia].
    + subst w. cbn [st taken]. set (s1 := mkStore _ _ _ _ _).
      assert (∀ m, safe (y_store y) (y_reverted y) m → safe s1 (y_reverted y ∖ blocks s1) m) as Hs.
      { intros m [Hs|[Hs|Hs]].
        - destruct (decide (m < h)); [right; by left|]. left. cbn. apply elem_of_filter. split; [lia|done].
        - right. left. cbn. lia.
        - destruct (decide (m ∈ blocks s1)); [by left|right; right; set_solver]. }
      split_and!; [by apply (inv_prune h (view y))|done|]. intros m (x & Hx & Hmx)%covers_elem. destruct (decide (m < h)); [right; right; by left|]. left.
      destruct (prune_rows_elem h (rows (y_store y)) x m Hx Hmx ltac:(lia)) as (r & Hr & Hmr). apply covers_elem. by exists r.
Qed.

Lemma cstep_keeps cset y y' : sys_inv y → cstep cset y y' → sys_inv y' ∧ ∀ m, kept y m → kept y' m.
Proof.
  intros Hy Hs. destruct Hs as [k f s ranges processed p E|n q Eq|l1 n ph l2 f s r Ew Et|a w Ho Ew].
  - unfold GetMissingRangesBatch in E. rewrite run_query in E. injection E as <- E. destruct (k <? 0); [by destruct f|]. destruct f; [|done|done]. injection E as <-.
    assert ((producer_poll (Ok (missing_batch k (y_store y))) processed p).2 = batch_blocks (missing_batch k (y_store y))) as ->.
    { unfold producer_poll. destruct (missing_batch k (y_store y)); [|done]. by destruct (_ && _). }
    destruct Hy as [Hi Hm]. set (y' := mkSys _ _ _ _).
    assert (view y' = mkC (y_store y) (in_flight y ∪ list_to_set (batch_blocks (missing_batch k (y_store y)))) (y_reverted y)) as Ev.
    { unfold view. f_equal. apply set_eq. intros m. unfold in_flight. cbn [y' y_queue y_workers]. rewrite elem_of_union, !elem_of_list_to_set, !elem_of_app. tauto. }
    split; [split; [rewrite Ev; by apply (inv_read k (view y))|exact Hm]|]. intros m [?|[?|Hk]]; [by left|by right; left|]. right. right.
    change (in_flight y') with (flight (view y')). rewrite Ev. cbn. set_solver.
  - destruct Hy as [Hi Hm]. set (y' := mkSys _ _ _ _).
    assert (in_flight y' = in_flight y) as Efl.
    { apply set_eq. intros m. unfold in_flight. cbn [y' y_queue y_workers]. rewrite Eq, !elem_of_list_to_set, fmap_app, !elem_of_app, elem_of_cons. cbn. rewrite elem_of_cons, elem_of_nil. tauto. }
    assert (view y' = view y) as Ev by (unfold view; by rewrite Efl). split; [split; [by rewrite Ev|]|].
    + intros m. cbn. intros [Hin|[=]%list_elem_of_singleton]%elem_of_app. by apply Hm.
    + unfold kept. by rewrite Efl.
  - by apply (turn_keeps cset y l1 n ph l2 f s r).
  - by apply (other_keeps a y w).
Qed.

(** *** An attempt without interference is [tryBlock] *)

Definition begins (ph : phase) : bool := match ph with Checking _ | Giving _ => true | _ => false end.
Fixpoint attempt_turns (cset : bool) (n : Z) (ph : phase) (fs : list fault) (s : store) : store * option phase :=
  match fs with
  | [] => (s, Some ph)
  | f :: fs => match worker_turn cset n ph f s with
               | (s, Some ph) => if begins ph then (s, Some ph) else attempt_turns cset n ph fs s
               | r => r
               end
  end.
Lemma attempt_is_tryBlock cset n a f1 f2 f3 s : let ev f := mkEvent [] f false in
  let '(w, ended, _) := tryBlock cset n (mkWorld s ∅ [ev f1; ev f2; ev f3]) in
  attempt_turns cset n (Checking a) [f1; f2; f3] s = (st w, if ended : bool then None else Some (next_attempt a)).
Proof.
  cbn zeta. assert (begins (next_attempt a) = true) as Hb by (unfold next_attempt; by destruct (_ <? _)).
  unfold tryBlock, HasBlock, query, statement. cbn [next_event script others foldl failure st taken]. destruct (bigint n) eqn:En; cbn [negb].
  2: { cbn [attempt_turns worker_turn]. unfold HasBlock. rewrite run_query, En. cbn [negb]. destruct f1; cbn; by rewrite Hb. }
  cbn [attempt_turns worker_turn]. unfold HasBlock. rewrite run_query, En. cbn [negb]. destruct f1; cbn -[begins]; [|by rewrite Hb|by rewrite Hb].
  destruct (bool_decide (n ∈ blocks s)) eqn:Eb.
  - destruct cset; [|done]. cbn -[run_stmt]. unfold MarkBlockProcessed, DeleteMissingRangeByBlock. rewrite run_exec, En. by destruct f2.
  - cbn -[run_stmt begins next_attempt RequeueMissingBlock]. unfold insert_block. rewrite run_exec. cbn. rewrite En. cbn -[run_stmt begins next_attempt RequeueMissingBlock insert_ranges].
    destruct f2; cbn -[run_stmt begins next_attempt RequeueMissingBlock insert_ranges].
    + unfold MarkBlockProcessed, DeleteMissingRangeByBlock. rewrite run_exec, En. by destruct f3.
    + unfold RequeueMissingBlock. rewrite run_exec. unfold exec, statement. cbn -[insert_ranges begins next_attempt]. match goal with |- context [insert_ranges true ?l ?x] => destruct (insert_ranges true l x) as [?|?] | |- context [insert_range true n n ?x] => destruct (insert_range true n n x) as [?|?] end; destruct f3; cbn -[begins next_attempt]; by rewrite ?Hb.
    + unfold RequeueMissingBlock. rewrite run_exec. unfold exec, statement. cbn -[insert_ranges begins next_attempt]. match goal with |- context [insert_ranges true ?l ?x] => destruct (insert_ranges true l x) as [?|?] | |- context [insert_range true n n ?x] => destruct (insert_range true n n x) as [?|?] end; destruct f3; cbn -[begins next_attempt]; by rewrite ?Hb.
Qed.

(** ** Properties *)

(** a worker that takes a block returns in the end, for every finite script
    of refused statements, lost acknowledgements and other writers' commits; and
    unless the indexer is stopped, the block is then stored, recorded as missing,
    pruned, or taken out of the tables by another loop's mark or revert. *)
Theorem indexBlock_settles `{BlockWriter} collector_set n w :
  bigint n = true →
  ∃ w' f, indexBlock collector_set (S (length (script w))) n w = Some (w', f) ∧
    (f = Settled → accounted w' n).
Proof.
  intros Hn. destruct (indexBlock_loop_total collector_set (S (length (script w))) 1 n w Hn) as [[w' f] E]; [lia|].
  exists w', f. split; [exact E|]. intros ->. by eapply indexBlock_loop_settled.
Qed.

Lemma indexBlock_settles_witness :
  let w := mkWorld (mkStore [mkRange 1 4 9] 2 ∅ 0 None) ∅
             [quiet; mkEvent [] Refused false; mkEvent [] AckLost false; quiet; mkEvent [AStore 4] Refused false] in
  ∃ w', indexBlock true 6 7 w = Some (w', Settled) ∧ accounted w' 7.
Proof.
  cbv zeta. set (w := mkWorld _ _ _).
  destruct (indexBlock_settles true 7 w eq_refl) as (w' & f & E & H).
  assert (f = Settled) as ->.
  { assert ((snd <$> indexBlock true 6 7 w) = Some Settled) as E' by (vm_compute; reflexivity).
    change (S (length (script w))) with 6%nat in E. rewrite E in E'. by injection E'. }
  exists w'. split; [exact E|by apply H].
Defined.

(** The record at the start: no two ranges share a block; nothing is in flight. *)
Definition disjoint_record (s : store) : Prop := ids_ok s ∧ ∀ a b, a ∈ rows s → b ∈ rows s → ID a ≠ ID b → ¬ overlap a b.
Definition starting (s : store) : catchup_sys := mkSys s [] [] ∅.
Lemma starting_inv s : disjoint_record s → sys_inv (starting s).
Proof.
  intros [H1 H2]. split; [split; cbn|].
  - intros r n _ _ Hn. set_solver.
  - intros a b Ha Hb Hid Hov. by destruct (H2 a b Ha Hb Hid).
  - done.
  - intros n Hn. by apply not_elem_of_nil in Hn.
Qed.

(** C18: no block known to catch-up is ever dropped while the process runs. Start from a
    record whose ranges share no block, with nothing queued. Through any interleaving of the
    statements of the producer (batches of any size) and of the workers (the existence
    check, the write, the mark, the recording again of tryBlock and indexBlock, each of
    which may be refused or lose its answer), and of the other writers (blocks stored,
    reorgs, pruning, gaps recorded that share no block with a recorded range or a block in
    flight, or are recorded already): a block that is stored, recorded as missing, pruned,
    removed by a revert and not stored since, or in flight (with the producer, on the queue
    or with a worker) stays one of these. The conditions on overlaps are needed: a start
    after a crash breaks them, and blocks are dropped (see catchup_overlap_drops). *)
Theorem catchup_never_drops collector_set s y y' n :
  disjoint_record s → rtc (cstep collector_set) (starting s) y → rtc (cstep collector_set) y y' →
  let known y := n ∈ blocks (y_store y) ∨ covers (rows (y_store y)) n ∨ n < history_from (y_store y) ∨ n ∈ y_reverted y ∨
    n ∈ y_queue y ∨ n ∈ (y_workers y).*1 in
  known y → known y'.
Proof.
  intros Hs Hr Hr' known. assert (∀ y, known y ↔ kept y n) as Hk.
  { intros z. unfold known, kept, safe, in_flight. rewrite elem_of_list_to_set, elem_of_app. tauto. }
  rewrite !Hk. assert (sys_inv y) as Hy.
  { apply (rtc_invariant (cstep collector_set) sys_inv (starting s) y); [intros ????; by eapply cstep_keeps|by apply starting_inv|done]. }
  intros Hn. apply (rtc_invariant (cstep collector_set) (λ y, sys_inv y ∧ kept y n) y y'); [|done|done].
  intros a b [Ha Hka] Hab. destruct (cstep_keeps _ _ _ Ha Hab). auto.
Qed.

(** Blocks 5 to 9 recorded: the producer queues them, a worker's write of 5 is refused and
    5 is recorded again, 6 is written and marked, which deletes the range. *)
Definition one_gap : store := mkStore [mkRange 1 5 9] 2 ∅ 0 None.
Definition five_again : store := mkStore [mkRange 1 5 9; mkRange 2 5 5] 3 ∅ 0 None.
Definition six_stored : store := mkStore [mkRange 1 5 9; mkRange 2 5 5] 3 {[6]} 0 None.
Lemma catchup_never_drops_witness :
  ∃ y, rtc (cstep true) (starting one_gap) y ∧ rows (y_store y) = [mkRange 2 5 5] ∧ y_queue y = [7; 8; 9] ∧ y_workers y = [] ∧
    (9 ∈ blocks (y_store y) ∨ covers (rows (y_store y)) 9 ∨ 9 < history_from (y_store y) ∨ 9 ∈ y_reverted y ∨ 9 ∈ y_queue y ∨ 9 ∈ (y_workers y).*1).
Proof.
  set (y1 := mkSys one_gap [5; 6; 7; 8; 9] [] ∅). set (y2 := mkSys one_gap [6; 7; 8; 9] [(5, Checking 1)] ∅). set (y3 := mkSys one_gap [7; 8; 9] [(5, Checking 1); (6, Checking 1)] ∅).
  set (y4 := mkSys one_gap [7; 8; 9] [(5, Writing 1); (6, Checking 1)] ∅). set (y5 := mkSys one_gap [7; 8; 9] [(5, Recording 1); (6, Checking 1)] ∅).
  set (y6 := mkSys five_again [7; 8; 9] [(6, Checking 1)] ∅). set (y7 := mkSys five_again [7; 8; 9] [(6, Writing 1)] ∅). set (y8 := mkSys six_stored [7; 8; 9] [(6, Marking)] ∅).
  set (y9 := mkSys (delete_rows (λ x, bool_decide (contains x 6)) six_stored) [7; 8; 9] [] ∅).
  assert (rtc (cstep true) (starting one_gap) y9) as Hr.
  { eapply (rtc_l _ _ y1); [apply (y_poll true (starting one_gap) 10 NoFault one_gap [mkRange 1 5 9] 0 (mkProducer 0 false)); vm_compute; reflexivity|].
    eapply (rtc_l _ _ y2); [by apply (y_take true y1 5 [6; 7; 8; 9])|]. eapply (rtc_l _ _ y3); [by apply (y_take true y2 6 [7; 8; 9])|].
    eapply (rtc_l _ _ y4); [apply (y_turn true y3 [] 5 (Checking 1) [(6, Checking 1)] NoFault one_gap (Some (Writing 1))); vm_compute; reflexivity|].
    eapply (rtc_l _ _ y5); [apply (y_turn true y4 [] 5 (Writing 1) [(6, Checking 1)] Refused one_gap (Some (Recording 1))); vm_compute; reflexivity|].
    eapply (rtc_l _ _ y6); [apply (y_turn true y5 [] 5 (Recording 1) [(6, Checking 1)] NoFault five_again None); vm_compute; reflexivity|].
    eapply (rtc_l _ _ y7); [apply (y_turn true y6 [] 6 (Checking 1) [] NoFault five_again (Some (Writing 1))); vm_compute; reflexivity|].
    eapply (rtc_l _ _ y8); [apply (y_turn true y7 [] 6 (Writing 1) [] NoFault six_stored (Some Marking)); vm_compute; reflexivity|].
    eapply (rtc_l _ _ y9); [apply (y_turn true y8 [] 6 Marking [] AckLost (delete_rows (λ x, bool_decide (contains x 6)) six_stored) None); vm_compute; reflexivity|]. apply rtc_refl. }
  exists y9. split_and!; [done|vm_compute; reflexivity|done|done|].
  apply (catchup_never_drops true one_gap (starting one_gap) y9 9); [|apply rtc_refl|done|].
  - split; [split; [apply NoDup_singleton|by repeat constructor]|]. intros a b ->%list_elem_of_singleton ->%list_elem_of_singleton Hid. by destruct Hid.
  - right. left. apply covers_cons. left. unfold contains. cbn. lia.
Defined.

(** A database after a restart: block 7 was recorded on its own by a failed write
    of the last run, and the startup scan has recorded the gap around it. *)
Definition restarted : world :=
  (scanBatch 0 9 (mkWorld (mkStore [mkRange 1 7 7] 2 {[ 0; 1; 2; 3; 4 ]} 0 None) ∅ [])).1.
Definition after_seven : world := (tryBlock true 7 restarted).1.1.

(** the condition on overlapping rows is needed, and a restart breaks it: a
    batch that ends at the single block, then its indexing, deletes the gap's row
    too, and the gap's other blocks are stored nowhere, recorded nowhere and in
    nobody's hands. *)
Theorem catchup_overlap_drops :
  rows (st restarted) = [mkRange 1 7 7; mkRange 2 5 9] ∧
  batch_blocks (missing_batch 1 (st restarted)) = [7] ∧
  (tryBlock true 7 restarted).1.2 = true ∧ rows (st after_seven) = [] ∧
  ¬ kept (starting (st after_seven)) 5 ∧ ¬ kept (starting (st after_seven)) 9.
Proof.
  assert (∀ n s, bool_decide (n ∈ blocks s) || bool_decide (covers (rows s) n) || bool_decide (n < history_from s) = false →
    ¬ kept (starting s) n) as Hk.
  { intros n s E. rewrite !orb_false_iff, !bool_decide_eq_false in E. unfold kept, safe, in_flight. cbn.
    intros [[H|[H|H]]|[H|H]]; [tauto|tauto|set_solver|tauto|set_solver]. }
  split_and!; [vm_compute; reflexivity..| |]; apply Hk; vm_compute; reflexivity.
Qed.

(** Once it yields, a worker goes on at the first reading of at most 16, and it
    does not yield at 64 or less. *)
Theorem yieldToRealtime_hysteresis b r readings k :
  yieldToRealtime (Some (b :: r :: readings)) = Some k →
  (b ≤ catchupYieldAbove ∧ k = O) ∨
  (catchupYieldAbove < b ∧ Forall (λ x, catchupResumeBelow < x) (take k readings) ∧
   ∃ x, readings !! k = Some x ∧ x ≤ catchupResumeBelow).
Proof.
  unfold yieldToRealtime. destruct (Z.leb_spec b catchupYieldAbove); [intros [= <-]; by left|].
  change (drop 1 (r :: readings)) with readings.
  intros E. right. split; [done|]. revert k E.
  induction readings as [|x readings IH]; intros k; cbn [yield_wait]; [done|].
  destruct (Z.ltb_spec catchupResumeBelow x).
  - destruct (yield_wait readings) as [j|] eqn:E; cbn; [|done]. intros [= <-].
    destruct (IH j eq_refl) as [H1 H2]. split; [by constructor|exact H2].
  - intros [= <-]. split; [constructor|]. by exists x.
Qed.
