(* ===== verification/Reorg.v ===== *)
(** * Reorgs: detection, revert, and the check before a start
    (internal/indexer/indexer.go and internal/indexer/realtime.go)

    [stored] maps a block number to the hash and parent hash of the block in the
    database.  A hash is its 32 bytes read as a number, 0 being the empty hash
    [common.Hash{}]; its hex text and its bytes determine each other (EthCommon).
    What the database and the node answer is an argument: every walk reads a
    block number at most once, so an answer per number says all that can
    happen, failures included. *)

From S2P Require Import Prelude MissingRanges.

Record header := mkHeader { Hash : Z; ParentHash : Z }.
#[export] Instance header_eq_dec : EqDecision header.
Proof. solve_decision. Defined.

Notation chain_store := (gmap Z header).

Inductive rpc_err := ErrBlockNotAvailable | RpcFailed.
Inductive walk_err := ReadFailed | NodeFailed (e : rpc_err) | DeleteFailed | ChainReset | StaleForkTooDeep | StartCancelled.

Record answers := mkAnswers {
  get_ok : Z → bool;                     (* GetBlock n answers *)
  chain_hash : Z → res rpc_err Z }.      (* RawBlockHash n *)

Definition GetBlock (a : answers) (stored : chain_store) (n : Z) : res walk_err (option header) :=
  if get_ok a n then Ok (stored !! n) else Err ReadFailed.

(** ** detectReorg

    [detect_from k depth deepest] is the loop with [k] turns left before
    [maxReorgCheck]; an error carries the depth found so far. *)

Definition maxReorgCheck : nat := 10.
Definition maxReorgDepth : Z := 128.

Fixpoint detect_from (k : nat) (a : answers) (stored : chain_store) (blockNumber depth deepest : Z)
  : Z * option walk_err :=
  match k with
  | O => (deepest, None)
  | S k =>
      if depth <? blockNumber then
        let checkBlock := blockNumber - depth in
        match GetBlock a stored checkBlock with
        | Err e => (deepest, Some e)
        | Ok None => detect_from k a stored blockNumber (depth + 1) deepest
        | Ok (Some b) =>
            match chain_hash a checkBlock with
            | Err e => (deepest, Some (NodeFailed e))
            | Ok h =>
                detect_from k a stored blockNumber (depth + 1) (if Hash b =? h then deepest else depth + 1)
            end
        end
      else (deepest, None)
  end.

Definition detectReorg (a : answers) (stored : chain_store) (blockNumber : Z) : Z * option walk_err :=
  detect_from maxReorgCheck a stored blockNumber 0 0.

(** ** handleReorg

    [del n] is what the delete of block [n] meets; [None] is a loop that has not
    ended within its fuel. *)

Definition latest_number (stored : chain_store) : Z := list_max (elements (dom stored)).

Fixpoint revert_loop (fuel : nat) (del : Z → fault) (fromBlock blockNum : Z) (stored : chain_store)
  : option (chain_store * option walk_err) :=
  match fuel with
  | O => None
  | S fuel =>
      if fromBlock <=? blockNum then
        match del blockNum with
        | Refused => Some (stored, Some DeleteFailed)
        | AckLost => Some (delete blockNum stored, Some DeleteFailed)
        | NoFault => revert_loop fuel del fromBlock (blockNum -₆₄ 1) (delete blockNum stored)
        end
      else Some (stored, None)
  end.

Definition revert_fuel (fromBlock latest : Z) : nat := S (Z.to_nat (latest - fromBlock + 1)).

(** [Indexer.handleReorg]; [latest_ok] is whether GetLatestBlockNumber answers. *)
Definition handleReorg (latest_ok : bool) (del : Z → fault) (fromBlock : Z) (stored : chain_store)
  : option (chain_store * option walk_err) :=
  if latest_ok
  then let lastIndexed := latest_number stored in
       revert_loop (revert_fuel fromBlock lastIndexed) del fromBlock lastIndexed stored
  else Some (stored, Some ReadFailed).

(** [RealtimeIndexer.handleReorg] refuses to revert more than a reorg. *)
Definition realtime_handleReorg (latest_ok : bool) (del : Z → fault) (fromBlock : Z) (stored : chain_store)
  : option (chain_store * option walk_err) :=
  if latest_ok
  then let lastIndexed := latest_number stored in
       if (fromBlock <? lastIndexed) && (maxReorgDepth <? lastIndexed - fromBlock)
       then Some (stored, Some ChainReset)
       else revert_loop (revert_fuel fromBlock lastIndexed) del fromBlock lastIndexed stored
  else Some (stored, Some ReadFailed).

(** ** revertStaleHead *)

Definition staleHeadWindow : Z := 10.

(** The walk: the depth of the deepest mismatch and the blocks the node does not
    serve, from [top] down; [k] bounds the turns at [maxReorgDepth + 1]. *)
Fixpoint stale_walk (k : nat) (a : answers) (stored : chain_store) (top d depth : Z) (skipped : list Z)
  : res walk_err (Z * list Z) :=
  match k with
  | O => Ok (depth, skipped)
  | S k =>
      if d <? top then
        let n := top - d in
        match GetBlock a stored n with
        | Err e => Err e
        | Ok None => stale_walk k a stored top (d + 1) depth skipped
        | Ok (Some b) =>
            match chain_hash a n with
            | Err ErrBlockNotAvailable =>
                let skipped := skipped ++ [n] in
                if staleHeadWindow <=? zlen skipped then Ok (depth, skipped)
                else stale_walk k a stored top (d + 1) depth skipped
            | Err e => Err (NodeFailed e)
            | Ok h =>
                if Hash b =? h then
                  (if staleHeadWindow <=? d + 1 then Ok (depth, skipped)
                   else stale_walk k a stored top (d + 1) depth skipped)
                else if maxReorgDepth <? d + 1 then Err StaleForkTooDeep
                else stale_walk k a stored top (d + 1) (d + 1) skipped
            end
        end
      else Ok (depth, skipped)
  end.

Definition stale_turns : nat := Z.to_nat (maxReorgDepth + 1).

(** The new head, the blocks at or below it that could not be compared, and
    the store. *)
Definition revertStaleHead (a : answers) (latest_ok : bool) (del : Z → fault) (top : Z) (stored : chain_store)
  : option (chain_store * res walk_err (Z * list Z)) :=
  match stale_walk stale_turns a stored top 0 0 [] with
  | Err e => Some (stored, Err e)
  | Ok (depth, skipped) =>
      if depth =? 0 then Some (stored, Ok (top, skipped))
      else
        '(stored, e) ← handleReorg latest_ok del (top - depth + 1) stored;
        match e with
        | Some e => Some (stored, Err e)
        | None => Some (stored, Ok (top - depth, filter (λ n, n ≤ top - depth) skipped))
        end
  end.

(** ** checkStoredHead

    One [round] per turn of the loop: what the reads answer, the clock (in
    seconds), whether the start is cancelled during the wait, and the head read
    after it.  [None] is a start still waiting when the rounds end. *)

Definition staleAboveHeadWait : Z := 600.

Record round := mkRound {
  r_answers : answers; r_latest_ok : bool; r_del : Z → fault;
  r_now : Z; r_cancelled : bool; r_head : option Z }.

Record waiting := mkWaiting {
  w_last : Z; w_head : Z; w_below : option Z; w_headRead : bool; w_stored : chain_store }.

(** The wait at the end of a turn, the head read after it, and the next turn. *)
Definition after_wait (r : round) (last head : Z) (stored : chain_store)
    (again : waiting → option (chain_store * res walk_err (Z * Z))) (below : option Z) :=
  if r_cancelled r then Some (stored, Err StartCancelled)
  else match r_head r with
       | None => again (mkWaiting last head below false stored)
       | Some h =>
           if u64 (h + maxReorgDepth) <? last then Some (stored, Err ChainReset)
           else again (mkWaiting last h below true stored)
       end.

Fixpoint check_loop (rounds : list round) (w : waiting)
  : option (chain_store * res walk_err (Z * Z)) :=
  if w_last w <=? 0 then Some (w_stored w, Ok (w_last w, w_head w)) else
  match rounds with
  | [] => None
  | r :: rounds =>
      let top := Z.min (w_last w) (w_head w) in
      '(stored, reverted) ←
        (if 0 <? top then revertStaleHead (r_answers r) (r_latest_ok r) (r_del r) top (w_stored w)
         else Some (w_stored w, Ok (top, [])));
      match reverted with
      | Err e => Some (stored, Err e)
      | Ok (head, unserved) =>
          let last := if (0 <? top) && (head <? top) then head else w_last w in
          let above := if w_head w <? last then last - w_head w else 0 in
          if (zlen unserved =? 0) && (above =? 0) then Some (stored, Ok (last, w_head w))
          else
            let wait := after_wait r last (w_head w) stored (check_loop rounds) in
            if above =? 0 then wait None
            else match w_below w with
                 | None => wait (Some (r_now r))
                 | Some since =>
                     if w_headRead w && (0 <? w_head w) && (staleAboveHeadWait <=? r_now r - since)
                     then '(stored, e) ← handleReorg (r_latest_ok r) (r_del r) (w_head w + 1) stored;
                          match e with
                          | Some e => Some (stored, Err e)
                          | None => check_loop rounds (mkWaiting (w_head w) (w_head w) None (w_headRead w) stored)
                          end
                     else wait (Some since)
                 end
      end
  end.

Definition checkStoredHead (rounds : list round) (lastIndexed latestOnChain : Z) (stored : chain_store) :=
  check_loop rounds (mkWaiting lastIndexed latestOnChain None true stored).

(** ** What the walks find *)

Definition mismatch (a : answers) (stored : chain_store) (n : Z) : Prop :=
  ∃ b h, stored !! n = Some b ∧ chain_hash a n = Ok h ∧ Hash b ≠ h.

Definition agrees (a : answers) (stored : chain_store) (n : Z) : Prop :=
  ∀ b, stored !! n = Some b → chain_hash a n = Ok (Hash b).

Lemma agrees_not_mismatch a s n : agrees a s n → ¬ mismatch a s n.
Proof. intros Ha (b & h & Hb & Hh & Hne). apply Ha in Hb. congruence. Qed.

(** The blocks at most [m]. *)
Definition upto (m : Z) (s : chain_store) : chain_store := filter (λ p, p.1 ≤ m) s.

Lemma lookup_upto m s n : upto m s !! n = if decide (n ≤ m) then s !! n else None.
Proof.
  unfold upto. case_decide.
  - rewrite map_lookup_filter. destruct (s !! n); [|done]. cbn. by rewrite option_guard_True.
  - rewrite map_lookup_filter_None. right. intros x _. done.
Qed.

Lemma upto_upto m k s : upto m (upto k s) = upto (Z.min m k) s.
Proof. apply map_eq. intros n. rewrite !lookup_upto. repeat case_decide; try done; lia. Qed.

Lemma upto_all m s : (∀ n, is_Some (s !! n) → n ≤ m) → upto m s = s.
Proof.
  intros H. apply map_eq. intros n. rewrite lookup_upto. case_decide; [done|].
  destruct (s !! n) eqn:E; [|done]. exfalso. apply H0. apply H. eauto.
Qed.

Lemma delete_upto m s : delete m (upto m s) = upto (m - 1) s.
Proof.
  apply map_eq. intros n. rewrite lookup_upto. destruct (decide (n = m)) as [->|].
  - rewrite lookup_delete_eq. case_decide; [lia|done].
  - rewrite lookup_delete_ne, lookup_upto by done. repeat case_decide; try done; lia.
Qed.

Lemma detect_from_spec k a s bn depth deepest d :
  detect_from k a s bn depth deepest = (d, None) →
  (d = deepest ∨ (depth < d ≤ depth + Z.of_nat k ∧ d ≤ bn ∧ mismatch a s (bn - d + 1))) ∧
  ∀ j, Z.max d depth ≤ j < depth + Z.of_nat k → j < bn → agrees a s (bn - j).
Proof.
  revert depth deepest. induction k as [|k IH]; intros depth deepest; cbn [detect_from].
  - intros [= <-]. split; [by left|]. lia.
  - destruct (Z.ltb_spec depth bn) as [Hlt|Hge]; [|intros [= <-]; split; [by left|lia]].
    unfold GetBlock. destruct (get_ok a (bn - depth)); [|done].
    destruct (s !! (bn - depth)) as [b|] eqn:Eb.
    + destruct (chain_hash a (bn - depth)) as [h|e] eqn:Eh; [|done].
      intros H%IH. destruct H as [H1 H2]. destruct (Z.eqb_spec (Hash b) h) as [E|E].
      * split; [destruct H1 as [?|(? & ? & ?)]; [by left|right; split_and!; [lia..|done]]|].
        intros j Hj Hjb. destruct (decide (j = depth)) as [->|]; [|apply H2; lia].
        intros b' Hb'. rewrite Eb in Hb'. injection Hb' as <-. by rewrite Eh, E.
      * split.
        -- right. destruct H1 as [->|(? & ? & ?)]; [|split_and!; [lia..|done]].
           split_and!; [lia..|]. exists b, h. by replace (bn - (depth + 1) + 1) with (bn - depth) by lia.
        -- intros j Hj Hjb. apply H2; [|done]. destruct H1 as [->|(? & ? & ?)]; lia.
    + intros H%IH. destruct H as [H1 H2].
      split; [destruct H1 as [?|(? & ? & ?)]; [by left|right; split_and!; [lia..|done]]|].
      intros j Hj Hjb. destruct (decide (j = depth)) as [->|]; [|apply H2; lia].
      intros b Hb. congruence.
Qed.

Lemma latest_number_max s n : is_Some (s !! n) → n ≤ latest_number s.
Proof.
  intros Hn. unfold latest_number.
  assert (n ∈ elements (dom s)) as He by (apply elem_of_elements, elem_of_dom, Hn).
  destruct (list_max_spec (elements (dom s))) as [_ H]; [by intros E; rewrite E in He; apply not_elem_of_nil in He|].
  by apply H.
Qed.

Lemma latest_number_stored s : (∀ n, is_Some (s !! n) → is_u64 n) → is_u64 (latest_number s).
Proof.
  intros H. unfold latest_number. destruct (elements (dom s)) as [|x l] eqn:E; [by unfold list_max|].
  destruct (list_max_spec (x :: l)) as [H1 _]; [done|]. rewrite <-E in H1 |- *.
  apply H, elem_of_dom. by apply elem_of_elements.
Qed.

Lemma revert_loop_spec fuel del from n s :
  1 ≤ from → n < W64 → (∀ m, is_Some (s !! m) → m ≤ n) → (revert_fuel from n ≤ fuel)%nat →
  ∃ m e, revert_loop fuel del from n s = Some (upto m s, e) ∧ from - 1 ≤ m ∧ e ≠ Some StaleForkTooDeep ∧
    (e = None → m = from - 1 ∨ n < from ∧ m = n).
Proof.
  unfold revert_fuel. revert n s. induction fuel as [|fuel IH]; intros n s Hf Hn Hs Hfuel; [lia|].
  cbn [revert_loop]. destruct (Z.leb_spec from n).
  - assert (delete n s = upto (n - 1) s) as Hdel by (by rewrite <-delete_upto, (upto_all n)).
    destruct (del n).
    + rewrite Hdel. replace (u64 (n - 1)) with (n - 1) by (rewrite u64_small; unfold is_u64; lia).
      destruct (IH (n - 1) (upto (n - 1) s)) as (m & e & -> & Hm & Hne & He); [lia..| |lia|].
      * intros m Hm. rewrite lookup_upto in Hm. case_decide; [done|]. by destruct Hm.
      * exists (Z.min m (n - 1)), e. rewrite upto_upto. split_and!; [done|lia|done|]. intros E. specialize (He E). lia.
    + exists n, (Some DeleteFailed). rewrite upto_all by done. split_and!; [done|lia|done|done].
    + rewrite Hdel. exists (n - 1), (Some DeleteFailed). split_and!; [done|lia|done|done].
  - exists (Z.max n (from - 1)), None. rewrite upto_all; [split_and!; [done|lia|done|lia]|].
    intros m Hm. specialize (Hs m Hm). lia.
Qed.

Lemma handleReorg_spec ok del from s :
  1 ≤ from → (∀ n, is_Some (s !! n) → is_u64 n) →
  ∃ m e, handleReorg ok del from s = Some (upto m s, e) ∧ from - 1 ≤ m ∧ e ≠ Some StaleForkTooDeep ∧
    (e = None → upto m s = upto (from - 1) s).
Proof.
  intros Hf Hs. unfold handleReorg. destruct ok.
  - destruct (revert_loop_spec (revert_fuel from (latest_number s)) del from (latest_number s) s)
      as (m & e & E & Hm & Hne & He); [done|by apply latest_number_stored|apply latest_number_max|lia|].
    exists m, e. split_and!; [done|done|done|]. intros H%He. destruct H as [->|[H1 ->]]; [done|].
    rewrite !upto_all; [done|..]; intros n Hn; apply latest_number_max in Hn; lia.
  - exists (Z.max (latest_number s) (from - 1)), (Some ReadFailed).
    rewrite upto_all; [split_and!; [done|lia|done|done]|]. intros n Hn. apply latest_number_max in Hn. lia.
Qed.

(** The walk before a start: what it reports, and how far it can reach. *)
Lemma stale_walk_spec k a s top d depth skipped depth' skipped' :
  0 ≤ d → 0 ≤ depth ≤ d → depth ≤ maxReorgDepth → zlen skipped ≤ d →
  stale_walk k a s top d depth skipped = Ok (depth', skipped') →
  depth ≤ depth' ≤ maxReorgDepth ∧ (depth' = depth ∨ depth' ≤ top) ∧ incl skipped skipped' ∧
  (∀ n, n ∈ skipped' → n ∈ skipped ∨ 1 ≤ n ≤ top) ∧
  ∀ j, d ≤ j < d + Z.of_nat k → j < top → (j < staleHeadWindow ∨ ∀ i, d ≤ i < j → depth' ≤ i → s !! (top - i) = None) →
    j < depth' ∨ agrees a s (top - j) ∨ top - j ∈ skipped'.
Proof.
  revert d depth skipped. induction k as [|k IH]; intros d depth skipped H0 Hd Hmx Hsk; cbn [stale_walk].
  - intros [= <- <-]. split_and!; [lia..|tauto|apply incl_refl|tauto|lia].
  - destruct (Z.ltb_spec d top) as [Hlt|Hge].
    2: { intros [= <- <-]. split_and!; [lia..|tauto|apply incl_refl|tauto|lia]. }
    unfold GetBlock. destruct (get_ok a (top - d)); [|done].
    (* the turns below this one, from the induction hypothesis, with what this turn settles *)
    assert (∀ dp sk, 0 ≤ dp ≤ d + 1 → dp ≤ maxReorgDepth → zlen sk ≤ d + 1 → depth ≤ dp → (dp = depth ∨ dp ≤ top) →
      incl skipped sk → (∀ n, n ∈ sk → n ∈ skipped ∨ 1 ≤ n ≤ top) →
      (∀ dd ss, dp ≤ dd → incl sk ss → d < dd ∨ agrees a s (top - d) ∨ top - d ∈ ss) →
      stale_walk k a s top (d + 1) dp sk = Ok (depth', skipped') →
      depth ≤ depth' ≤ maxReorgDepth ∧ (depth' = depth ∨ depth' ≤ top) ∧ incl skipped skipped' ∧
      (∀ n, n ∈ skipped' → n ∈ skipped ∨ 1 ≤ n ≤ top) ∧
      ∀ j, d ≤ j < d + Z.of_nat (S k) → j < top → (j < staleHeadWindow ∨ ∀ i, d ≤ i < j → depth' ≤ i → s !! (top - i) = None) →
        j < depth' ∨ agrees a s (top - j) ∨ top - j ∈ skipped') as Hnext.
    { intros dp sk H1 H2 H3 H4 H4' H5 H6 H7 H8. apply IH in H8 as (E1 & E2 & E3 & E4 & E5); [|lia..].
      split_and!; [lia..|destruct E2; [subst; tauto|tauto]|by eapply incl_tran| |].
      - intros n Hn. destruct (E4 n Hn); auto.
      - intros j Hj Hjt Hjw. destruct (decide (j = d)) as [->|]; [apply H7; [lia|done]|].
        apply E5; [lia..|]. destruct Hjw as [?|Hnone]; [by left|]. right. intros i Hi. apply Hnone. lia. }
    destruct (s !! (top - d)) as [b|] eqn:Eb.
    2: { apply Hnext; try lia; try done; try tauto; try apply incl_refl.
         intros. right. left. intros b Hb. congruence. }
    destruct (chain_hash a (top - d)) as [h|[]] eqn:Eh; [| |done].
    + destruct (Z.eqb_spec (Hash b) h) as [E|E].
      * assert (agrees a s (top - d)) as Ha.
        { intros b' Hb'. rewrite Eb in Hb'. injection Hb' as <-. by rewrite Eh, E. }
        destruct (Z.leb_spec staleHeadWindow (d + 1)).
        -- intros [= <- <-]. split_and!; [lia..|tauto|apply incl_refl|tauto|].
           intros j Hj _ Hjw. assert (j = d) as ->; [|tauto].
           destruct Hjw as [?|Hnone]; [lia|]. destruct (decide (j = d)); [done|]. rewrite (Hnone d) in Eb by lia. done.
        -- apply Hnext; try lia; try done; try tauto; apply incl_refl.
      * destruct (Z.ltb_spec maxReorgDepth (d + 1)); [done|].
        apply Hnext; try lia; try done; try tauto; try apply incl_refl.
    + assert (zlen (skipped ++ [top - d]) = zlen skipped + 1) as Hz by (by rewrite zlen_app).
      assert (top - d ∈ skipped ++ [top - d]) as Hin by set_solver.
      destruct (Z.leb_spec staleHeadWindow (zlen (skipped ++ [top - d]))).
      * intros [= <- <-]. split_and!; [lia..|tauto|apply incl_appl, incl_refl| |].
        -- intros n [?| ->%list_elem_of_singleton]%elem_of_app; [tauto|lia].
        -- intros j Hj _ Hjw. assert (j = d) as ->; [|tauto].
           destruct Hjw as [?|Hnone]; [lia|]. destruct (decide (j = d)); [done|]. rewrite (Hnone d) in Eb by lia. done.
      * apply Hnext; try lia; try done; try tauto; [apply incl_appl, incl_refl| |].
        -- intros n [?| ->%list_elem_of_singleton]%elem_of_app; [tauto|lia].
        -- intros dd ss _ Hss. right. right. apply list_elem_of_In, Hss, list_elem_of_In, Hin.
Qed.

(** The blocks a walk from [top] that kept those up to [head] is bound to have compared:
    the ten below its top, and the highest one kept, if it is no deeper than a reorg. *)
Definition in_reach (s : chain_store) (top head n : Z) : Prop :=
  1 ≤ n ≤ head ∧ (top - staleHeadWindow < n ∨ (top - maxReorgDepth ≤ n ∧ ∀ m, n < m ≤ head → s !! m = None)).

Lemma revertStaleHead_spec a ok del top s :
  1 ≤ top → (∀ n, is_Some (s !! n) → is_u64 n) →
  ∃ m r, revertStaleHead a ok del top s = Some (upto m s, r) ∧ (upto m s = s ∨ top - maxReorgDepth ≤ m) ∧
  match r with
  | Err StaleForkTooDeep => upto m s = s
  | Err _ => True
  | Ok (head, unserved) =>
      head ≤ top ∧ 0 ≤ head ∧ upto m s = (if head <? top then upto head s else s) ∧
      (∀ n, n ∈ unserved → 1 ≤ n ≤ head) ∧
      ∀ n, in_reach s top head n → agrees a s n ∨ n ∈ unserved
  end.
Proof.
  intros Ht Hs. unfold revertStaleHead.
  assert (∃ m, upto m s = s) as [m0 Hm0].
  { exists (latest_number s). apply upto_all, latest_number_max. }
  destruct (stale_walk stale_turns a s top 0 0 []) as [[depth skipped]|e] eqn:E.
  2: { exists m0, (Err e). rewrite Hm0. split_and!; [done|by left|]. by destruct e. }
  apply stale_walk_spec in E as (E1 & E2 & E3 & E4 & E5); [|unfold zlen, maxReorgDepth; cbn; lia..].
  assert (∀ n, n ∈ skipped → 1 ≤ n ≤ top) as Hsk by (intros n Hn; destruct (E4 n Hn) as [H|H]; [by apply not_elem_of_nil in H|done]).
  assert (∀ n, in_reach s top (top - depth) n → agrees a s n ∨ n ∈ skipped) as Hag.
  { intros n [Hn Hr]. assert (top - n < Z.of_nat stale_turns) by (unfold stale_turns, maxReorgDepth, staleHeadWindow in *; lia).
    destruct (E5 (top - n)) as [H'|H']; [lia|lia| |lia|by replace (top - (top - n)) with n in H' by lia].
    destruct Hr as [?|[_ Hnone]]; [left; lia|]. right. intros i Hi Hdi. apply Hnone. lia. }
  destruct (Z.eqb_spec depth 0) as [->|Hd].
  - exists m0, (Ok (top, skipped)). rewrite Hm0. split_and!; [done|by left|lia|lia| |done|].
    + by rewrite Z.ltb_irrefl.
    + intros n Hn. apply Hag. by rewrite Z.sub_0_r.
  - destruct (handleReorg_spec ok del (top - depth + 1) s ltac:(lia) Hs) as (m & e & -> & Hm & Hne & He).
    cbn. exists m. destruct e as [e|].
    + exists (Err e). split_and!; [done|right; lia|]. by destruct e.
    + exists (Ok (top - depth, filter (λ n, n ≤ top - depth) skipped)).
      split_and!; [done|right; lia|lia|lia| | |].
      * destruct (Z.ltb_spec (top - depth) top); [|lia]. rewrite He by done. f_equal. lia.
      * intros n [Hn Hin]%list_elem_of_filter. apply Hsk in Hin. lia.
      * intros n Hn. destruct (Hag n Hn) as [H|H]; [by left|]. right. apply list_elem_of_filter. split; [apply Hn|done].
Qed.

Lemma upto_u64 m (s : chain_store) : (∀ n, is_Some (s !! n) → is_u64 n) → ∀ n, is_Some (upto m s !! n) → is_u64 n.
Proof. intros H n Hn. rewrite lookup_upto in Hn. case_decide; [by apply H|by destruct Hn]. Qed.

Lemma upto_bound m (s : chain_store) : ∀ n, is_Some (upto m s !! n) → n ≤ m.
Proof. intros n Hn. rewrite lookup_upto in Hn. case_decide; [done|by destruct Hn]. Qed.

(** The last blocks kept were compared with the node in the turn that ended the check. *)
Definition compared_head (rounds : list round) (s : chain_store) (last head : Z) : Prop :=
  0 < last → ∃ r top, r ∈ rounds ∧ last ≤ top ≤ head ∧ ∀ n b, in_reach s top last n → s !! n = Some b → chain_hash (r_answers r) n = Ok (Hash b).

Lemma compared_upto r rounds m s last head : last ≤ m → compared_head rounds (upto m s) last head → compared_head (r :: rounds) s last head.
Proof.
  intros Hm Hc Hpos. destruct (Hc Hpos) as (r' & top & Hin & Ht & Hcmp). exists r', top. split; [by right|]. split; [done|].
  intros n b [Hn Hr] Hb. apply Hcmp; [|rewrite lookup_upto, decide_True by lia; done]. split; [done|].
  destruct Hr as [?|[? Hnone]]; [by left|]. right. split; [done|]. intros i Hi. rewrite lookup_upto. case_decide; [by apply Hnone|done].
Qed.

Lemma check_loop_spec rounds w s' last head :
  (∀ n, is_Some (w_stored w !! n) → is_u64 n) → (∀ n, is_Some (w_stored w !! n) → n ≤ w_last w) →
  0 ≤ w_last w → 0 ≤ w_head w → Forall (λ r, ∀ h, r_head r = Some h → 0 ≤ h) rounds →
  check_loop rounds w = Some (s', Ok (last, head)) →
  0 ≤ last ≤ w_last w ∧ s' = upto last (w_stored w) ∧ (0 < last → last ≤ head) ∧ compared_head rounds (w_stored w) last head.
Proof.
  revert w. induction rounds as [|r rounds IH]; intros w Hu Hb Hl Hh Hr; cbn [check_loop].
  { destruct (Z.leb_spec (w_last w) 0); [|done]. intros [= <- <- <-].
    split_and!; [lia..|symmetry; by apply upto_all|lia|intros ?; lia]. }
  destruct (Z.leb_spec (w_last w) 0) as [H0|Hpos].
  { intros [= <- <- <-]. split_and!; [lia..|symmetry; by apply upto_all|lia|intros ?; lia]. }
  apply Forall_cons in Hr as [Hr0 Hr]. set (top := Z.min (w_last w) (w_head w)).
  (* the revert of the round: what it leaves is the blocks up to [last1] *)
  set (rv := if 0 <? top then _ else _).
  destruct rv as [[s1 [[hd uns]|e]]|] eqn:Erv; [|done|done]. cbn [mbind option_bind].
  set (last1 := if (0 <? top) && (hd <? top) then hd else w_last w).
  assert (0 ≤ last1 ≤ w_last w ∧ s1 = upto last1 (w_stored w) ∧ (uns = [] → last1 ≤ w_head w → compared_head (r :: rounds) (w_stored w) last1 (w_head w))) as (Hl1 & -> & Hcmp).
  { subst rv last1. destruct (Z.ltb_spec 0 top); cbn [andb].
    - destruct (revertStaleHead_spec (r_answers r) (r_latest_ok r) (r_del r) top (w_stored w)) as (m & x & E & _ & Hx);
        [lia|done|]. rewrite Erv in E. injection E as -> <-. destruct Hx as (H1 & H2 & H3 & H4 & H5).
      assert (∀ l, l ≤ top → l = hd → uns = [] → compared_head (r :: rounds) (w_stored w) l (w_head w)) as Hcmp.
      { intros l Hl' -> -> _. exists r, top. split; [left|]. split; [lia|]. intros n b Hn Hx. destruct (H5 n Hn) as [Ha|Hu']; [by apply Ha|by apply not_elem_of_nil in Hu']. }
      destruct (Z.ltb_spec hd top); (split_and!; [lia..| |]); [done|intros; by apply Hcmp; [lia|..]| |].
      + rewrite H3. symmetry. by apply upto_all.
      + intros Eu Hle. apply Hcmp; [lia|lia|done].
    - injection Erv as <- <- <-. split_and!; [lia..|symmetry; by apply upto_all|]. intros _ ? ?. lia. }
  clear Erv. set (above := if _ <? last1 then _ else 0).
  assert (∀ below hr h, 0 ≤ h →
    check_loop rounds (mkWaiting last1 h below hr (upto last1 (w_stored w))) = Some (s', Ok (last, head)) →
    0 ≤ last ≤ w_last w ∧ s' = upto last (w_stored w) ∧ (0 < last → last ≤ head) ∧ compared_head (r :: rounds) (w_stored w) last head) as Hagain.
  { intros below hr h H1 E. apply IH in E as (E1 & -> & E3 & E4); cbn in *; [|by apply upto_u64|apply upto_bound|lia|lia|done].
    split_and!; [lia..| |done|eapply compared_upto; [|done]; lia]. rewrite upto_upto. f_equal. lia. }
  destruct ((zlen uns =? 0) && (above =? 0)) eqn:Edone.
  { intros [= <- <- <-]. apply andb_true_iff in Edone as [Eu E]. apply Z.eqb_eq in E, Eu.
    assert (last1 ≤ w_head w) as Hle by (subst above; destruct (Z.ltb_spec (w_head w) last1); lia).
    split_and!; [lia..|done|done|]. apply Hcmp; [|done]. by destruct uns. }
  cbv zeta. set (wait := after_wait _ _ _ _ _).
  assert (∀ below, wait below = Some (s', Ok (last, head)) →
    0 ≤ last ≤ w_last w ∧ s' = upto last (w_stored w) ∧ (0 < last → last ≤ head) ∧ compared_head (r :: rounds) (w_stored w) last head) as Hwait.
  { intros below. subst wait. unfold after_wait. destruct (r_cancelled r); [done|]. destruct (r_head r) as [h|] eqn:Eh; [|by apply Hagain].
    destruct (u64 (h + maxReorgDepth) <? last1); [intros; discriminate|]. apply Hagain. by apply Hr0. }
  destruct (above =? 0) eqn:Ea; [apply Hwait|]. destruct (w_below w) as [since|]; [|apply Hwait].
  destruct (_ && _ && _); [|apply Hwait].
  destruct (handleReorg_spec (r_latest_ok r) (r_del r) (w_head w + 1) (upto last1 (w_stored w))) as (m & e & -> & _ & _ & He);
    [lia|by apply upto_u64|]. cbn [mbind option_bind]. destruct e as [e|]; [done|].
  rewrite He by done. replace (w_head w + 1 - 1) with (w_head w) by lia. rewrite upto_upto.
  assert (w_head w < last1) as Hlt.
  { subst above. destruct (Z.ltb_spec (w_head w) last1); [lia|done]. }
  replace (Z.min (w_head w) last1) with (w_head w) by lia.
  intros E. apply IH in E as (E1 & -> & E3 & E4); cbn in *; [|by apply upto_u64|apply upto_bound|lia|lia|done].
  split_and!; [lia..| |done|eapply compared_upto; [|done]; lia]. rewrite upto_upto. f_equal. lia.
Qed.

(** ** Properties *)

(** [detectReorg] returns the deepest stored block of the 10-block window
    that no longer matches the chain: the block at the returned depth differs,
    every stored block below it in the window agrees, and depth 0 means all
    agree; the depth never reaches past block 1. *)
Theorem detectReorg_deepest a stored blockNumber d :
  0 ≤ blockNumber → detectReorg a stored blockNumber = (d, None) →
  0 ≤ d ≤ 10 ∧ d ≤ blockNumber ∧ (0 < d → mismatch a stored (blockNumber - d + 1)) ∧
  (∀ n, 1 ≤ n → blockNumber - 10 < n ≤ blockNumber - d → agrees a stored n).
Proof.
  intros Hb H. apply detect_from_spec in H as [H1 H2]. change (Z.of_nat maxReorgCheck) with 10 in *.
  split_and!.
  - destruct H1 as [->|(? & _)]; lia.
  - destruct H1 as [->|(? & _)]; lia.
  - destruct H1 as [->|(_ & H & _)]; [lia|exact H].
  - destruct H1 as [->|(_ & _ & ?)]; [lia|done].
  - intros n Hn Hw. replace n with (blockNumber - (blockNumber - n)) by lia. apply H2; lia.
Qed.

(** A chain that left the stored one at block 3: blocks 3, 4 and 5 are stale. *)
Definition stale_store : chain_store := {[ 1 := mkHeader 11 10; 2 := mkHeader 12 11; 3 := mkHeader 33 12; 4 := mkHeader 34 33; 5 := mkHeader 35 34 ]}.
Definition new_fork : answers := mkAnswers (λ _, true) (λ n, Ok (10 + n)).

Lemma detectReorg_deepest_witness :
  detectReorg new_fork stale_store 5 = (3, None) ∧ mismatch new_fork stale_store 3 ∧ agrees new_fork stale_store 2.
Proof.
  assert (detectReorg new_fork stale_store 5 = (3, None)) as E by (vm_compute; reflexivity).
  destruct (detectReorg_deepest new_fork stale_store 5 3 ltac:(lia) E) as (_ & _ & H1 & H2).
  split_and!; [done|apply H1; lia|apply H2; lia].
Defined.

(** C29: a revert from block 1 or above always ends; it deletes from the top, so
    that what is left is the stored chain up to some block, never with a hole,
    and when it reports no error that block is the one before the fork.  The
    failures (a refused delete, a lost acknowledgement, an unreadable head) keep
    that shape. *)
Theorem handleReorg_leaves_prefix latest_ok del fromBlock stored :
  1 ≤ fromBlock → (∀ n, is_Some (stored !! n) → is_u64 n) →
  ∃ m e, handleReorg latest_ok del fromBlock stored = Some (upto m stored, e) ∧ fromBlock - 1 ≤ m ∧
    (e = None → upto m stored = upto (fromBlock - 1) stored).
Proof.
  intros Hf Hs. destruct (handleReorg_spec latest_ok del fromBlock stored Hf Hs) as (m & e & H1 & H2 & _ & H3). eauto.
Qed.

Lemma stale_store_u64 : ∀ n, is_Some (stale_store !! n) → is_u64 n.
Proof.
  intros n Hn. assert (n ∈ dom stale_store) as Hd by (by apply elem_of_dom).
  unfold stale_store in Hd. rewrite !dom_insert_L, dom_singleton_L in Hd. unfold is_u64. set_solver by lia.
Qed.

Lemma handleReorg_leaves_prefix_witness :
  ∃ m, handleReorg true (λ n, if n =? 4 then AckLost else NoFault) 3 stale_store
         = Some (upto m stale_store, Some DeleteFailed) ∧ 2 ≤ m ∧
       (upto m stale_store) !! 4 = None ∧ is_Some (upto m stale_store !! 3).
Proof.
  destruct (handleReorg_leaves_prefix true (λ n, if n =? 4 then AckLost else NoFault) 3 stale_store
    ltac:(lia) stale_store_u64) as (m & e & E & Hm & _).
  assert (match handleReorg true (λ n, if n =? 4 then AckLost else NoFault) 3 stale_store with
          | Some (s, Some DeleteFailed) => bool_decide (s !! 4 = None ∧ is_Some (s !! 3))
          | _ => false end = true) as H by (vm_compute; reflexivity).
  rewrite E in H. destruct e as [[]|]; try discriminate. apply bool_decide_eq_true in H as [H1 H2].
  exists m. split_and!; [exact E|lia|exact H1|exact H2].
Defined.

(** From block 0 the unsigned countdown never goes below its bound: the loop does
    not end.  No caller passes 0 ([detectReorg_deepest], [revertStaleHead_safe]). *)
Theorem handleReorg_from_zero_diverges fuel n stored :
  is_u64 n → revert_loop fuel (λ _, NoFault) 0 n stored = None.
Proof.
  revert n stored. induction fuel as [|fuel IH]; intros n s Hn; cbn [revert_loop]; [done|].
  destruct (Z.leb_spec 0 n); [|unfold is_u64 in Hn; lia]. apply IH, u64_range.
Qed.

(** before a start, a revert of the stale head never deletes a block more
    than [maxReorgDepth] below the compared top and deletes nothing when the
    fork is deeper; when it succeeds, what is left is the stored chain up to the
    returned head, and every stored block at or below that head of the first ten below the
    top, and the highest one if it is within reach of a reorg, was found on the chain or is
    reported as not served. *)
Theorem revertStaleHead_safe a latest_ok del top stored :
  1 ≤ top → (∀ n, is_Some (stored !! n) → is_u64 n) →
  ∃ m r, revertStaleHead a latest_ok del top stored = Some (upto m stored, r) ∧
    (upto m stored = stored ∨ top - maxReorgDepth ≤ m) ∧
    match r with
    | Err StaleForkTooDeep => upto m stored = stored
    | Err _ => True
    | Ok (head, unserved) =>
        0 ≤ head ≤ top ∧ upto m stored = (if head <? top then upto head stored else stored) ∧
        (∀ n, n ∈ unserved → 1 ≤ n ≤ head) ∧
        ∀ n, in_reach stored top head n → agrees a stored n ∨ n ∈ unserved
    end.
Proof.
  intros Ht Hs. destruct (revertStaleHead_spec a latest_ok del top stored Ht Hs) as (m & r & H1 & H2 & H3).
  exists m, r. split_and!; [done|done|]. destruct r as [[]|]; [|done]. naive_solver.
Qed.

Lemma revertStaleHead_safe_witness :
  ∃ m, revertStaleHead new_fork true (λ _, NoFault) 5 stale_store = Some (upto m stale_store, Ok (2, [])) ∧
    upto m stale_store = upto 2 stale_store ∧ agrees new_fork stale_store 1.
Proof.
  destruct (revertStaleHead_safe new_fork true (λ _, NoFault) 5 stale_store ltac:(lia) stale_store_u64)
    as (m & r & E & _ & H).
  assert ((snd <$> revertStaleHead new_fork true (λ _, NoFault) 5 stale_store) = Some (Ok (2, []))) as E'
    by (vm_compute; reflexivity).
  rewrite E in E'. injection E' as ->. destruct H as (_ & H1 & _ & H2).
  exists m. split_and!; [exact E|exact H1|]. destruct (H2 1) as [H|H]; [split; [lia|left; unfold staleHeadWindow; lia]|exact H|].
  by apply not_elem_of_nil in H.
Defined.

(** when the start's check returns, for any sequence of waits, node heads,
    refusals and reverts, the store is exactly the stored chain up to the
    returned head, which is not above the node's head (a start on an empty store
    apart): indexing never begins under blocks that were not compared. *)
Theorem checkStoredHead_restricts rounds lastIndexed latestOnChain stored s' last head :
  (∀ n, is_Some (stored !! n) → is_u64 n ∧ n ≤ lastIndexed) → 0 ≤ lastIndexed → 0 ≤ latestOnChain →
  Forall (λ r, ∀ h, r_head r = Some h → 0 ≤ h) rounds →
  checkStoredHead rounds lastIndexed latestOnChain stored = Some (s', Ok (last, head)) →
  0 ≤ last ≤ lastIndexed ∧ s' = upto last stored ∧ (0 < last → last ≤ head).
Proof.
  intros Hs Hl Hh Hr E. apply check_loop_spec in E; cbn in *; [naive_solver|..|done|done|done]; intros n Hn; by apply Hs.
Qed.

Definition waiting_rounds : list round :=
  [mkRound new_fork true (λ _, NoFault) 0 false (Some 3);
   mkRound new_fork true (λ _, NoFault) 300 false None;
   mkRound new_fork true (λ _, NoFault) 700 false (Some 3)].

Lemma checkStoredHead_restricts_witness :
  ∃ s', checkStoredHead waiting_rounds 5 3 stale_store = Some (s', Ok (2, 3)) ∧ s' = upto 2 stale_store.
Proof.
  assert ((snd <$> checkStoredHead waiting_rounds 5 3 stale_store) = Some (Ok (2, 3))) as E by (vm_compute; reflexivity).
  destruct (checkStoredHead waiting_rounds 5 3 stale_store) as [[s' r]|] eqn:E'; [|discriminate].
  injection E as ->. exists s'. split; [reflexivity|].
  eapply checkStoredHead_restricts; [|..|exact E']; [|lia|lia|].
  - intros n Hn. split; [by apply stale_store_u64|].
    assert (n ∈ dom stale_store) as Hd by (by apply elem_of_dom).
    unfold stale_store in Hd. rewrite !dom_insert_L, dom_singleton_L in Hd. set_solver by lia.
  - repeat constructor; cbn; intros h [= <-]; lia.
Defined.
