(* ===== verification/StartMode.v ===== *)
(** * How the indexer starts

    [Start] of [internal/indexer/indexer.go]: the watermark, the stored head, the caches,
    the chain reset and its wipe, the check of the stored head, and the mode it then runs
    in. The reads that may fail are flags; [Wipe] is what a wipe does. *)

From S2P Require Import Prelude GoStrings MissingRanges Reorg.

(** What the start reads and writes of the database: the stored chain, the addresses of
    [tokens] (lower case), the prune watermark. *)
Record start_store := mkStart { st_stored : chain_store; st_tokens : gset gostring; st_pruned : Z }.
Definition wiped : start_store := mkStart ∅ ∅ 0.

(** [sa_reached]: the node's head when the check of the stored head gave up. *)
Record start_answers := mkAns {
  sa_pruned_ok : bool; sa_latest_ok : bool; sa_tokens_ok : bool; sa_epoch_ok : bool; sa_head : option Z;
  sa_count_ok : bool; sa_force : bool; sa_rounds : list round; sa_reached : Z; sa_wipe_ok : bool }.

Inductive start_mode := Standard (lastIndexed : Z) | Collecting (firstBlock lastBlock : Z).
Inductive refusal := PrunedUnread | EpochUnread | HeadUnread | WipeFailed | ResetRefused | HeadCheck (e : walk_err).
(** The database, the token cache, the start block and the mode. *)
Record started := mkStarted { sd_store : start_store; sd_cache : gset gostring; sd_startBlock : Z; sd_mode : start_mode }.

Section Start.
Context (startBlock : Z) (catchupEnabled : bool) (a : start_answers) (s : start_store).

(** Blocks at or below the watermark are gone on purpose. *)
Definition raised_start : Z := if (0 <? st_pruned s) && (startBlock <=? st_pruned s) then u64 (st_pruned s + 1) else startBlock.
Definition last_indexed : Z := if sa_latest_ok a then latest_number (st_stored s) else 0.
Definition loaded_tokens : gset gostring := if sa_tokens_ok a then set_map ToLower (st_tokens s) else ∅.
Definition block_count : Z := if sa_count_ok a then Z.of_nat (size (st_stored s)) else 0.
Definition expected_blocks : Z := if raised_start <? last_indexed then u64 (last_indexed - raised_start + 1) else 0.
Definition has_gaps : bool := block_count <? i64 expected_blocks.
Definition to_sync (latestOnChain lastIndexed : Z) : Z := if lastIndexed <? latestOnChain then latestOnChain - lastIndexed else 0.

Definition choose (store : start_store) (first lastIndexed latestOnChain : Z) (hasGaps : bool) (blocksToSync : Z) : started :=
  mkStarted store loaded_tokens first
    (if catchupEnabled && (hasGaps || (100 <? blocksToSync)) then Collecting first latestOnChain else Standard lastIndexed).
(** [wipe] of [Start], and the start on the empty database. *)
Definition after_wipe (latestOnChain : Z) : res refusal started :=
  if sa_wipe_ok a then Ok (choose wiped startBlock 0 latestOnChain false latestOnChain) else Err WipeFailed.

(** [None]: the start still waits for the node. *)
Definition Start : option (res refusal started) :=
  if negb (sa_pruned_ok a) then Some (Err PrunedUnread)
  else if negb (sa_epoch_ok a) then Some (Err EpochUnread)
  else match sa_head a with
       | None => Some (Err HeadUnread)
       | Some latestOnChain =>
           if (0 <? last_indexed) && (u64 (latestOnChain + maxReorgDepth) <? last_indexed) then
             Some (if sa_force a then after_wipe latestOnChain else Err ResetRefused)
           else if 0 <? last_indexed then
             '(stored, r) ← checkStoredHead (sa_rounds a) last_indexed latestOnChain (st_stored s);
             Some (match r with
                   | Ok (lastIndexed, chainHead) =>
                       Ok (choose (mkStart stored (st_tokens s) (st_pruned s)) raised_start lastIndexed chainHead has_gaps
                             (to_sync chainHead lastIndexed))
                   | Err e => if match e with StaleForkTooDeep | ChainReset => sa_force a | _ => false end then after_wipe (sa_reached a)
                              else Err (HeadCheck e)
                   end)
           else Some (Ok (choose s raised_start last_indexed latestOnChain has_gaps (to_sync latestOnChain last_indexed)))
       end.
End Start.

(** ** Properties *)

Lemma latest_number_below (s : chain_store) b : 0 < b → (∀ n, is_Some (s !! n) → n < b) → latest_number s < b.
Proof.
  intros Hb H. unfold latest_number. destruct (elements (dom s)) as [|x l] eqn:E; [unfold list_max; cbn; lia|].
  destruct (list_max_spec (x :: l)) as [H1 _]; [done|]. rewrite <- E in H1 |- *. apply H, elem_of_dom. by apply elem_of_elements.
Qed.

Section Props.
Context (startBlock : Z) (catchupEnabled : bool) (a : start_answers) (s : start_store).
Hypothesis Hu64 : ∀ n, is_Some (st_stored s !! n) → is_u64 n.
Hypothesis Hheads : Forall (λ r, ∀ h, r_head r = Some h → 0 ≤ h) (sa_rounds a).
Hypothesis Hhead : ∀ h, sa_head a = Some h → is_u64 h.

(** The evidence of a reset. *)
Definition reset_seen : Prop :=
  sa_force a = true ∧ 0 < latest_number (st_stored s) ∧
  (∃ h, sa_head a = Some h ∧ (u64 (h + maxReorgDepth) < latest_number (st_stored s) ∨
     ∃ stored e, checkStoredHead (sa_rounds a) (latest_number (st_stored s)) h (st_stored s) = Some (stored, Err e) ∧ (e = StaleForkTooDeep ∨ e = ChainReset))).


Lemma has_gaps_seen n : sa_latest_ok a = true → 0 ≤ raised_start startBlock s → raised_start startBlock s < latest_number (st_stored s) < 2 ^ 62 →
  (∀ m, is_Some (st_stored s !! m) → raised_start startBlock s ≤ m) →
  raised_start startBlock s ≤ n ≤ latest_number (st_stored s) → st_stored s !! n = None → has_gaps startBlock a s = true.
Proof.
  intros Hl Hr0 Hlt Hin Hn Hmiss. unfold has_gaps, expected_blocks, last_indexed, block_count. rewrite Hl.
  set (first := raised_start startBlock s) in *. set (latest := latest_number (st_stored s)) in *.
  destruct (Z.ltb_spec first latest); [|lia]. rewrite u64_small by (unfold is_u64; lia).
  rewrite i64_small by lia. apply Z.ltb_lt.
  assert (dom (st_stored s) ⊆ list_to_set (seqZ first (latest - first + 1)) ∖ ({[ n ]} : gset Z)) as Hsub.
  { intros m Hm%elem_of_dom. pose proof (latest_number_max _ _ Hm). specialize (Hin m Hm). apply elem_of_difference. split.
    - apply elem_of_list_to_set, elem_of_seqZ. unfold latest. lia.
    - intros ->%elem_of_singleton. rewrite Hmiss in Hm. by destruct Hm. }
  apply subseteq_size in Hsub. rewrite size_difference in Hsub by (intros m ->%elem_of_singleton; apply elem_of_list_to_set, elem_of_seqZ; lia).
  rewrite size_singleton, size_list_to_set, length_seqZ in Hsub by apply NoDup_seqZ. rewrite size_dom in Hsub.
  destruct (sa_count_ok a); lia.
Qed.
End Props.

(** How a start that kept the database goes on: what it kept, where it starts, what was
    compared, and the mode. *)
Definition kept_start (startBlock : Z) (catchupEnabled : bool) (a : start_answers) (s : start_store) (d : started) (last head : Z) : Prop :=
  let first := sd_startBlock d in let latest := latest_number (st_stored s) in
  sd_store d = mkStart (upto last (st_stored s)) (st_tokens s) (st_pruned s) ∧
  startBlock ≤ first ∧ (0 < st_pruned s → st_pruned s < first) ∧ 0 ≤ last ≤ latest ∧ (0 < last → last ≤ head) ∧
  (0 < last → ∃ r top, r ∈ sa_rounds a ∧ last ≤ top ≤ head ∧
     ∀ n b, in_reach (st_stored s) top last n → st_stored s !! n = Some b → chain_hash (r_answers r) n = Ok (Hash b)) ∧
  match sd_mode d with
  | Standard l => l = last ∧ (catchupEnabled = true → head ≤ last + 100 ∧ (first < latest → (∀ m, is_Some (st_stored s !! m) → first ≤ m) →
                              ∀ n, first ≤ n ≤ latest → is_Some (st_stored s !! n)))
  | Collecting f h => catchupEnabled = true ∧ f = first ∧ h = head
  end.

Lemma raised_start_spec startBlock s : is_u64 startBlock → 0 ≤ st_pruned s → is_u64 (st_pruned s + 1) →
  0 ≤ startBlock ≤ raised_start startBlock s ∧ (0 < st_pruned s → st_pruned s < raised_start startBlock s).
Proof.
  intros Hsb Hp Hp1. unfold raised_start. destruct (Z.ltb_spec 0 (st_pruned s)), (Z.leb_spec startBlock (st_pruned s)); cbn [andb];
    rewrite ?(u64_small (st_pruned s + 1)) by done; unfold is_u64 in *; lia.
Qed.

Lemma choose_keeps startBlock catchupEnabled a s last head : is_u64 startBlock → 0 ≤ st_pruned s → is_u64 (st_pruned s + 1) →
  (∀ n, is_Some (st_stored s !! n) → 0 ≤ n < 2 ^ 62) → sa_latest_ok a = true →
  0 ≤ last ≤ latest_number (st_stored s) → (0 < last → last ≤ head) → compared_head (sa_rounds a) (st_stored s) last head →
  kept_start startBlock catchupEnabled a s
    (choose catchupEnabled a s (mkStart (upto last (st_stored s)) (st_tokens s) (st_pruned s)) (raised_start startBlock s) last head (has_gaps startBlock a s)
       (to_sync head last)) last head.
Proof.
  intros Hsb Hp Hp1 Hs Hl Hlast Hle Hcmp. destruct (raised_start_spec startBlock s Hsb Hp Hp1) as [Hr1 Hr2]. unfold kept_start. cbn [choose sd_store sd_startBlock sd_mode].
  split_and!; [done|lia|done|lia|lia|done|done|]. destruct (catchupEnabled && _) eqn:Em; [by apply andb_true_iff in Em as [-> _]|]. split; [done|].
  intros ->. cbn in Em. apply orb_false_iff in Em as [Em Es%Z.ltb_ge]. split; [unfold to_sync in Es; destruct (Z.ltb_spec last head); lia|].
  intros Hlt Hbelow n Hn. destruct (st_stored s !! n) as [x|] eqn:Ex; [by eexists|]. exfalso.
  rewrite (has_gaps_seen startBlock a s n) in Em; [done|done|lia|  |done|done|done].
  split; [done|]. destruct (decide (st_stored s = ∅)) as [E0|]; [rewrite E0; vm_compute; done|].
  apply latest_number_below; [lia|]. intros m Hm. by apply Hs.
Qed.

(** C24: the indexer starts on blocks it compared with the node. A start that gets to run
    - wiped the database, which FORCE_REINDEX allows and a reset of the chain caused (a
      head more than 128 blocks below the stored one, a stale fork deeper than that), and
      starts over at the configured block; or
    - kept every stored block up to a last one that is not above the node's head, with the
      watermark and the tokens, and starts above the watermark: unless that last one is
      genesis, one turn of the check read from the node the hash of every stored block of
      the ten below the top it compared, and of the highest block kept if it is within 128
      of that top, and each is the stored one. It runs in standard mode from that last
      block, and then, with catch-up on, it is at most 100 blocks behind the node and no
      block of its range is missing as long as no stored block lies below the range; or
      with a scan from the start block to the node's head; or
    - could not read the stored head, compared nothing and goes on as if the database were
      empty, with every stored block kept. *)
Theorem start_on_compared_chain startBlock catchupEnabled a s d :
  is_u64 startBlock → 0 ≤ st_pruned s → is_u64 (st_pruned s + 1) → (∀ n, is_Some (st_stored s !! n) → 0 ≤ n < 2 ^ 62) →
  Forall (λ r, ∀ h, r_head r = Some h → 0 ≤ h) (sa_rounds a) → (∀ h, sa_head a = Some h → 0 ≤ h) →
  Start startBlock catchupEnabled a s = Some (Ok d) →
  (sd_store d = wiped ∧ sd_startBlock d = startBlock ∧ reset_seen a s) ∨
  (sa_latest_ok a = true ∧ ∃ last head, kept_start startBlock catchupEnabled a s d last head) ∨
  (sa_latest_ok a = false ∧ sd_store d = s ∧ startBlock ≤ sd_startBlock d ∧ (0 < st_pruned s → st_pruned s < sd_startBlock d) ∧
   ∃ head, sa_head a = Some head ∧ (sd_mode d = Standard 0 ∨ (catchupEnabled = true ∧ sd_mode d = Collecting (sd_startBlock d) head))).
Proof.
  intros Hsb Hp Hp1 Hs Hr Hh. unfold Start. destruct (sa_pruned_ok a); [|done]. destruct (sa_epoch_ok a); [|done]. cbn [negb].
  destruct (sa_head a) as [latestOnChain|] eqn:Eh; [|done]. specialize (Hh latestOnChain eq_refl).
  destruct (sa_latest_ok a) eqn:Hl; unfold last_indexed; rewrite Hl.
  2: { cbn [Z.ltb andb]. intros [= <-]. right. right. destruct (raised_start_spec startBlock s Hsb Hp Hp1) as [Hr1 Hr2]. cbn. split_and!; [done..|lia|done|].
       exists latestOnChain. split; [done|]. destruct (catchupEnabled && _) eqn:Em; [apply andb_true_iff in Em as [-> _]; by right|by left]. }
  set (latest := latest_number (st_stored s)).
  assert (∀ n, is_Some (st_stored s !! n) → is_u64 n) as Hu by (intros n Hn; specialize (Hs n Hn); unfold is_u64; lia).
  assert (0 < latest → (u64 (latestOnChain + maxReorgDepth) < latest ∨ ∃ stored e,
      checkStoredHead (sa_rounds a) latest latestOnChain (st_stored s) = Some (stored, Err e) ∧ (e = StaleForkTooDeep ∨ e = ChainReset)) →
      sa_force a = true → ∀ reached, after_wipe startBlock catchupEnabled a s reached = Ok d →
      sd_store d = wiped ∧ sd_startBlock d = startBlock ∧ reset_seen a s) as Hwipe.
  { intros Hpos Hev Hf reached. unfold after_wipe. destruct (sa_wipe_ok a); [|done]. intros [= <-]. split; [done|]. split; [done|].
    split; [done|]. split; [done|]. eauto. }
  destruct (Z.ltb_spec 0 latest) as [Hpos|Hzero]; cbn [andb].
  - destruct (Z.ltb_spec (u64 (latestOnChain + maxReorgDepth)) latest) as [Hlt|_].
    + destruct (sa_force a) eqn:Ef; [|done]. intros [= H]. left. eapply Hwipe; eauto.
    + destruct (checkStoredHead _ _ _ _) as [[stored r]|] eqn:Ec; [|done]. cbn [mbind option_bind]. intros [= H].
      destruct r as [[lastIndexed chainHead]|e].
      * injection H as <-. right. left. split; [done|]. exists lastIndexed, chainHead.
        apply check_loop_spec in Ec as (H1 & H2 & H3 & H4); cbn in *; [|done|by intros n Hn; apply latest_number_max|lia|done|done].
        subst stored. by apply choose_keeps.
      * destruct e; try done; (destruct (sa_force a) eqn:Ef; [|done]); left; eapply Hwipe; eauto 10.
  - intros [= <-]. right. left. split; [done|]. exists 0, latestOnChain.
    pose proof (latest_number_stored _ Hu) as [Hnn _]. assert (latest = 0) as E0 by (unfold latest in *; lia).
    assert (s = mkStart (upto 0 (st_stored s)) (st_tokens s) (st_pruned s)) as Es.
    { rewrite upto_all; [by destruct s|]. intros n Hn. rewrite <- E0. by apply latest_number_max. }
    pose proof (choose_keeps startBlock catchupEnabled a s 0 latestOnChain Hsb Hp Hp1 Hs Hl) as Hk. rewrite <- Es in Hk. rewrite E0. apply Hk; [unfold latest in *; lia|lia|intros ?; lia].
Qed.

(** The fork of [Reorg.stale_store] above block 2, found at a start. *)
Definition stale_start (tokens : gset gostring) : start_store := mkStart stale_store tokens 0.
Definition fork_answers (head : Z) (rounds : list round) (latest_ok : bool) : start_answers :=
  mkAns true latest_ok true true (Some head) true true rounds 0 true.

Lemma start_on_compared_chain_witness :
  ∃ d, Start 1 true (fork_answers 3 waiting_rounds true) (stale_start ∅) = Some (Ok d) ∧ sd_mode d = Standard 2 ∧
    st_stored (sd_store d) = upto 2 stale_store ∧ ∃ r, r ∈ waiting_rounds ∧ chain_hash (r_answers r) 2 = Ok 12.
Proof.
  assert ((λ r, match r with Ok d => Some (sd_mode d) | Err _ => None end) <$> Start 1 true (fork_answers 3 waiting_rounds true) (stale_start ∅) = Some (Some (Standard 2)))
    as E by (vm_compute; reflexivity).
  destruct (Start 1 true (fork_answers 3 waiting_rounds true) (stale_start ∅)) as [[d|e]|] eqn:Ed; [|done|done]. injection E as Em.
  exists d. split; [done|]. split; [done|].
  assert (∀ n, is_Some (stale_store !! n) → 0 ≤ n < 2 ^ 62) as Hs.
  { intros n Hn. assert (n ∈ dom stale_store) as Hd by (by apply elem_of_dom). unfold stale_store in Hd. rewrite !dom_insert_L, dom_singleton_L, !elem_of_union, !elem_of_singleton in Hd. lia. }
  destruct (start_on_compared_chain 1 true (fork_answers 3 waiting_rounds true) (stale_start ∅) d) as [(H & _)|[(_ & last & head & H & _ & _ & _ & _ & Hc & Hm)|(H & _)]];
    [by unfold is_u64|by cbn|by unfold is_u64|exact Hs| | |done| | |done].
  - repeat constructor; cbn; intros h [= <-]; lia.
  - intros h [= <-]. lia.
  - exfalso. assert ((λ r, match r with Ok d => bool_decide (st_stored (sd_store d) = ∅) | Err _ => false end) <$> Start 1 true (fork_answers 3 waiting_rounds true) (stale_start ∅) = Some false)
      as E0 by (vm_compute; reflexivity). rewrite Ed in E0. injection E0 as E0%bool_decide_eq_false. by rewrite H in E0.
  - rewrite Em in Hm. destruct Hm as [<- Hb]. destruct (Hb eq_refl) as [Hb' _]. split; [by rewrite H|]. destruct (Hc ltac:(lia)) as (r & top & Hr & Ht & Hcmp). exists r. split; [done|].
    apply (Hcmp 2 (mkHeader 12 11)); [|vm_compute; reflexivity]. split; [lia|]. right. split; [unfold maxReorgDepth; lia|intros m ?; lia].
Defined.

(** A wipe empties [tokens], but the cache was loaded before it and stays: ingest takes a
    token of the new chain at an old address for one it has stored. *)
Example wipe_keeps_token_cache (token : gostring) : ToLower token = token →
  ∃ d, Start 1 true (mkAns true true true true (Some 200) true true [] 0 true) (mkStart {[ 500 := mkHeader 1 2 ]} {[ token ]} 0) = Some (Ok d) ∧
    st_tokens (sd_store d) = ∅ ∧ token ∈ sd_cache d.
Proof.
  intros Ht. set (a := mkAns true true true true (Some 200) true true [] 0 true). set (s := mkStart {[ 500 := mkHeader 1 2 ]} {[ token ]} 0).
  exists (mkStarted wiped (loaded_tokens a s) 1 (Collecting 1 200)). split; [|split; [done|]].
  - unfold Start. change (last_indexed a s) with (latest_number {[ 500 := mkHeader 1 2 ]}). assert (latest_number {[ 500 := mkHeader 1 2 ]} = 500) as -> by (vm_compute; reflexivity). reflexivity.
  - cbn [sd_cache]. unfold loaded_tokens. cbn [a sa_tokens_ok s st_tokens]. apply elem_of_map. exists token. split; [done|]. by apply elem_of_singleton.
Qed.

(** When the stored head cannot be read the start takes the database for an empty one: the
    stale fork is not compared, and a standard start goes on from block 0. *)
Example unread_head_is_not_compared :
  ∃ d, Start 1 false (fork_answers 3 waiting_rounds false) (stale_start ∅) = Some (Ok d) ∧ sd_mode d = Standard 0 ∧ st_stored (sd_store d) = stale_store.
Proof. eexists. split; [by vm_compute|]. by split. Qed.

(** Blocks stored below the start block hide a hole: the count is of the whole table. *)
Definition holed_store : chain_store := {[ 1 := mkHeader 11 10; 2 := mkHeader 12 11; 3 := mkHeader 13 12; 5 := mkHeader 15 14 ]}.
Example blocks_below_hide_a_hole :
  has_gaps 3 (fork_answers 5 [] true) (mkStart holed_store ∅ 0) = false ∧ holed_store !! 4 = None ∧ has_gaps 1 (fork_answers 5 [] true) (mkStart holed_store ∅ 0) = true.
Proof. by vm_compute. Qed.
