(* ===== verification/Prefetch.v ===== *)
(** * The head loops: internal/indexer/prefetch.go, receipt_skip.go, the tick of
    indexer.go and the realtime loop of realtime.go

    A tick runs from [env], all that the node and the database answer during it:
    one answer per block number for the reads and the writes.  [tick] is what it
    changes: the stored chain, the set of blocks recorded as missing, and the
    state of [receiptSkip].  Requests for single blocks served between two
    blocks of a tick, metrics and callbacks are left out. *)

From S2P Require Import Prelude MissingRanges Reorg.

(** ** receipt_skip.go *)

Definition maxReceiptAttempts : Z := 10.

Record receiptSkip := mkSkip {
  block : Z; attempts : Z; skipped : Z; skippedHash : Z; recorded : bool }.

Inductive fetch_err := BlockUnavailable | ErrReceiptsUnavailable.

Record tick := mkTick { t_stored : chain_store; t_missing : gset Z; t_receipts : receiptSkip }.

Definition set_stored (s : chain_store) (t : tick) : tick := mkTick s (t_missing t) (t_receipts t).
Definition set_receipts (r : receiptSkip) (t : tick) : tick := mkTick (t_stored t) (t_missing t) r.

(** [receiptSkip.skip]; [requeue] is what RequeueMissingBlock meets. *)
Definition skip (requeue : fault) (blockNum : Z) (err : fetch_err) (t : tick) : tick * bool :=
  match err with
  | BlockUnavailable => (t, false)
  | ErrReceiptsUnavailable =>
      let s := t_receipts t in
      let tried := (if block s =? blockNum then attempts s else 0) + 1 in
      let s := mkSkip blockNum tried (skipped s) (skippedHash s) (recorded s) in
      if tried <? maxReceiptAttempts then (set_receipts s t, false)
      else match requeue with
           | Refused => (set_receipts s t, false)
           | AckLost => (mkTick (t_stored t) ({[blockNum]} ∪ t_missing t) s, false)
           | NoFault => (mkTick (t_stored t) ({[blockNum]} ∪ t_missing t)
                           (mkSkip blockNum 0 (skipped s) (skippedHash s) true), true)
           end
  end.

(** ** prefetch.go *)

Record raw_block := mkRaw { raw_hash : Z; raw_parent : Z; raw_empty : bool }.

Record fetchedBlock := mkFetched { number : Z; raw : option raw_block; ferr : option fetch_err }.

Inductive write_fault := WOk | WBeginFails | WFinishFails | WAckLost.
Inductive write_err := WriteFailed | StoredBlockDiffers (n : Z).

Record env := mkEnv {
  e_block : Z → option raw_block;      (* RawBlockByNumber *)
  e_receipts : Z → bool;               (* FetchReceiptsBatch *)
  e_slots : option nat;                (* slots handed out before the context ends *)
  e_write : Z → write_fault;           (* the block's transaction *)
  e_requeue : Z → fault;               (* RequeueMissingBlock *)
  e_anchor_ok : bool;                  (* GetBlock of the tick's cursor *)
  e_highest_ok : bool;                 (* HighestBlockAtOrBelow *)
  e_pruned : option Z;                 (* PrunedThrough *)
  e_skipped_hash : option Z;           (* RawBlockHash of the skipped block *)
  e_latest_ok : bool;                  (* GetLatestBlockNumber, in a revert *)
  e_del : Z → fault }.                 (* the deletes of a revert *)

Record loop_config := mkLoop { startBlock : Z; cursorMayBeUnstored : bool }.

Definition fetchBlockAndReceipts (e : env) (n : Z) : fetchedBlock :=
  match e_block e n with
  | None => mkFetched n None (Some BlockUnavailable)
  | Some r =>
      if raw_empty r then mkFetched n (Some r) None
      else mkFetched n (Some r) (if e_receipts e n then None else Some ErrReceiptsUnavailable)
  end.

(** The slots in block order, each filled by its read. *)
Definition prefetchBlocks (e : env) (from to : Z) : list fetchedBlock :=
  let l := fetchBlockAndReceipts e <$> seqZ from (to - from + 1) in
  match e_slots e with None => l | Some k => take k l end.

Definition HighestBlockAtOrBelow (stored : chain_store) (n : Z) : option (Z * header) :=
  let m := latest_number (upto n stored) in b ← upto n stored !! m; Some (m, b).

(** (from, hash, remembered, ok); hash 0 is none. *)
Definition indexingFloor (c : loop_config) (e : env) (lastIndexed : Z) : Z * Z * bool * bool :=
  match e_pruned e with
  | None => (lastIndexed, 0, false, false)
  | Some wm =>
      let floor := if (0 <? wm) && (startBlock c <? wm +₆₄ 1) then wm +₆₄ 1 else startBlock c in
      if floor =? 0 then (0, 0, false, true) else (floor -₆₄ 1, 0, false, true)
  end.

Definition drop_stale_skip (lastIndexed : Z) (s : receiptSkip) : receiptSkip :=
  if lastIndexed <? skipped s then mkSkip (block s) (attempts s) 0 0 (recorded s) else s.

Definition anchor (c : loop_config) (e : env) (lastIndexed : Z) (t : tick) : tick * (Z * Z * bool * bool) :=
  let s := drop_stale_skip lastIndexed (t_receipts t) in
  let t := set_receipts s t in
  if (lastIndexed =? 0) && (startBlock c =? 0) then (t, (0, 0, false, true)) else
  let rest :=
    if cursorMayBeUnstored c then (lastIndexed, 0, false, true)
    else if negb (e_highest_ok e) then (lastIndexed, 0, false, false)
    else match HighestBlockAtOrBelow (t_stored t) lastIndexed with
         | None => indexingFloor c e lastIndexed
         | Some (m, b) => (m, Hash b, false, true)
         end in
  if 0 <? lastIndexed then
    if negb (e_anchor_ok e) then (t, (lastIndexed, 0, false, false))
    else match t_stored t !! lastIndexed with
         | Some b => (t, (lastIndexed, Hash b, false, true))
         | None =>
             if (skipped s =? lastIndexed) && negb (skippedHash s =? 0)
             then (t, (lastIndexed, skippedHash s, true, true))
             else (t, rest)
         end
  else (t, rest).

Definition recheckSkipped (e : env) (t : tick) : tick :=
  let s := t_receipts t in
  match e_skipped_hash e with
  | Some h => if h =? skippedHash s then t
              else set_receipts (mkSkip (block s) (attempts s) 0 0 (recorded s)) t
  | None => set_receipts (mkSkip (block s) (attempts s) 0 0 (recorded s)) t
  end.

(** One block's transaction: a block stored with another hash refuses it, the
    same block is a no-op. *)
Definition write_block (e : env) (n : Z) (r : raw_block) (stored : chain_store) : chain_store * option write_err :=
  let put := <[n := mkHeader (raw_hash r) (raw_parent r)]> stored in
  match e_write e n, stored !! n with
  | WBeginFails, _ => (stored, Some WriteFailed)
  | w, Some b =>
      if Hash b =? raw_hash r then (stored, match w with WOk => None | _ => Some WriteFailed end)
      else (stored, Some (StoredBlockDiffers n))
  | WOk, None => (put, None)
  | WFinishFails, None => (stored, Some WriteFailed)
  | WAckLost, None => (put, Some WriteFailed)
  end.

(** The fuel of the revert is enough for every block from 1 up
    ([handleReorg_leaves_prefix]). *)
Definition revertStaleBlock (e : env) (err : write_err) (t : tick) : tick :=
  match err with
  | WriteFailed => t
  | StoredBlockDiffers n =>
      match handleReorg (e_latest_ok e) (e_del e) n (t_stored t) with
      | Some (s, _) => set_stored s t
      | None => t
      end
  end.

(** Whether a fetched block does not extend the block before it. *)
Definition breaks_chain (prevHash : Z) (b : fetchedBlock) : bool :=
  match raw b with
  | Some r => negb (prevHash =? 0) && negb (raw_parent r =? prevHash)
  | None => false
  end.

(** Moving past a block whose receipts never come. *)
Definition pass_block (e : env) (b : fetchedBlock) (err : fetch_err) (t : tick) : tick * option Z :=
  match raw b with
  | None => (t, None)
  | Some r =>
      let '(t, ok) := skip (e_requeue e (number b)) (number b) err t in
      if ok
      then let s := t_receipts t in
           (set_receipts (mkSkip (block s) (attempts s) (number b) (raw_hash r) (recorded s)) t, Some (raw_hash r))
      else (t, None)
  end.

Fixpoint prefetched_loop (e : env) (l : list fetchedBlock) (prevHash : Z) (remembered : bool) (last : Z) (t : tick)
  : tick * Z :=
  match l with
  | [] => (t, last)
  | b :: l =>
      if breaks_chain prevHash b then (if remembered then recheckSkipped e t else t, last)
      else match ferr b, raw b with
           | Some err, _ =>
               match pass_block e b err t with
               | (t, Some h) => prefetched_loop e l h false (number b) t
               | (t, None) => (t, last)
               end
           | None, None => (t, last)
           | None, Some r =>
               match write_block e (number b) r (t_stored t) with
               | (s, None) => prefetched_loop e l (raw_hash r) false (number b) (set_stored s t)
               | (s, Some err) => (revertStaleBlock e err (set_stored s t), last)
               end
           end
  end.

Definition indexPrefetched (c : loop_config) (e : env) (lastIndexed latest : Z) (t : tick) : tick * Z :=
  let '(t, (from, prevHash, remembered, ok)) := anchor c e lastIndexed t in
  if negb ok || (latest <=? from) then (t, from)
  else prefetched_loop e (prefetchBlocks e (from + 1) latest) prevHash remembered from t.

(** [finishOldest] over the whole queue: the blocks in flight are written in
    order; the first that fails gives the error, and the ones behind it are
    rolled back. *)
Fixpoint drain (e : env) (queue : list (Z * raw_block)) (last : Z) (t : tick) : tick * Z * option write_err :=
  match queue with
  | [] => (t, last, None)
  | (n, r) :: queue =>
      match write_block e n r (t_stored t) with
      | (s, None) => drain e queue n (set_stored s t)
      | (s, Some err) => (set_stored s t, last, Some err)
      end
  end.

(** The deferred revert, once every open transaction has been rolled back. *)
Definition finish (e : env) (r : tick * Z * option write_err) : tick * Z :=
  match r with
  | (t, last, None) => (t, last)
  | (t, last, Some err) => (revertStaleBlock e err t, last)
  end.

Fixpoint pipelined_loop (e : env) (depth : nat) (l : list fetchedBlock) (prevHash : Z) (remembered : bool)
    (queue : list (Z * raw_block)) (last : Z) (t : tick) : tick * Z :=
  match l with
  | [] => finish e (drain e queue last t)
  | b :: l =>
      if breaks_chain prevHash b
      then finish e (drain e queue last (if remembered then recheckSkipped e t else t))
      else match ferr b, raw b with
           | Some err, None => finish e (drain e queue last t)
           | Some err, Some _ =>
               match drain e queue last t with
               | (t, last, Some werr) => finish e (t, last, Some werr)
               | (t, last, None) =>
                   match pass_block e b err t with
                   | (t, Some h) => pipelined_loop e depth l h false [] (number b) t
                   | (t, None) => (t, last)
                   end
               end
           | None, None => finish e (drain e queue last t)
           | None, Some r =>
               if raw_empty r then
                 match drain e queue last t with
                 | (t, last, Some werr) => finish e (t, last, Some werr)
                 | (t, last, None) =>
                     match write_block e (number b) r (t_stored t) with
                     | (s, None) => pipelined_loop e depth l (raw_hash r) false [] (number b) (set_stored s t)
                     | (s, Some err) => finish e (set_stored s t, last, Some err)
                     end
                 end
               else
                 let queue := queue ++ [(number b, r)] in
                 if (depth <=? length queue)%nat then
                   match queue with
                   | [] => (t, last)
                   | (n, r0) :: queue =>
                       match write_block e n r0 (t_stored t) with
                       | (s, None) => pipelined_loop e depth l (raw_hash r) false queue n (set_stored s t)
                       | (s, Some err) => finish e (set_stored s t, last, Some err)
                       end
                   end
                 else pipelined_loop e depth l (raw_hash r) false queue last t
           end
  end.

Definition indexPipelined (c : loop_config) (e : env) (depth : nat) (lastIndexed latest : Z) (t : tick) : tick * Z :=
  let '(t, (from, prevHash, remembered, ok)) := anchor c e lastIndexed t in
  if negb ok || (latest <=? from) then (t, from)
  else pipelined_loop e depth (prefetchBlocks e (from + 1) latest) prevHash remembered [] from t.

(** ** The standard tick

    The reorg check and its revert have their own answers. *)

Record reorg_env := mkReorgEnv { g_answers : answers; g_latest_ok : bool; g_del : Z → fault }.

Definition index_loop (c : loop_config) (e : env) (pipelineDepth : Z) (last latest : Z) (t : tick) : tick * Z :=
  if 1 <? pipelineDepth then indexPipelined c e (Z.to_nat pipelineDepth) last latest t
  else indexPrefetched c e last latest t.

Definition standardTick (c : loop_config) (g : reorg_env) (e : env) (pipelineDepth lastIndexed latest : Z) (t : tick)
  : tick * Z :=
  if 0 <? lastIndexed then
    match detectReorg (g_answers g) (t_stored t) lastIndexed with
    | (_, Some _) => (t, lastIndexed)
    | (depth, None) =>
        if 0 <? depth then
          match handleReorg (g_latest_ok g) (g_del g) (lastIndexed - depth + 1) (t_stored t) with
          | Some (s, None) => index_loop c e pipelineDepth (lastIndexed - depth) latest (set_stored s t)
          | Some (s, Some _) => (set_stored s t, lastIndexed)
          | None => (t, lastIndexed)
          end
        else index_loop c e pipelineDepth lastIndexed latest t
    end
  else index_loop c e pipelineDepth lastIndexed latest t.

(** ** Realtime *)

Record realtime := mkRealtime {
  lastProcessedBlock : Z; behind : Z; lastSafe : Z; rt : tick; failedRevertFrom : Z; revertPending : bool }.

Definition set_cursor (n : Z) (r : realtime) : realtime :=
  mkRealtime n (behind r) (lastSafe r) (rt r) (failedRevertFrom r) (revertPending r).
Definition set_tick (t : tick) (r : realtime) : realtime :=
  mkRealtime (lastProcessedBlock r) (behind r) (lastSafe r) t (failedRevertFrom r) (revertPending r).

Definition safe_block (latest confirmations : Z) : Z := latest -₆₄ confirmations.

Definition Behind (r : realtime) : Z := if lastSafe r <=? lastProcessedBlock r then 0 else behind r.

(** [save] is what SaveMissingRanges meets; a bound above the bigint range fails
    to encode. *)
Definition jumpIfFarBehind (g : reorg_env) (save : fault) (limit safeBlock : Z) (r : realtime) : realtime * Z :=
  let last := lastProcessedBlock r in
  let r := mkRealtime last (if last <? safeBlock then safeBlock -₆₄ last else behind r) safeBlock
             (rt r) (failedRevertFrom r) (revertPending r) in
  if (limit =? 0) || (safeBlock <=? last +₆₄ limit) || revertPending r then (r, last) else
  let stays := if 0 <? last
               then match detectReorg (g_answers g) (t_stored (rt r)) last with
                    | (_, Some _) => true
                    | (depth, None) => 0 <? depth
                    end
               else false in
  if stays then (r, last) else
  let from := last +₆₄ 1 in
  let to := safeBlock -₆₄ 1 in
  let recorded_tick := mkTick (t_stored (rt r)) (t_missing (rt r) ∪ range_set from to) (t_receipts (rt r)) in
  if negb (bigint from && bigint to) || (to <? from) then (r, last)
  else match save with
       | Refused => (r, last)
       | AckLost => (set_tick recorded_tick r, last)
       | NoFault => (set_cursor to (set_tick recorded_tick r), to)
       end.

Definition resumeAfterFailedRevert (highest_ok : bool) (r : realtime) : realtime * bool :=
  if failedRevertFrom r =? 0 then (r, true)
  else if negb highest_ok then (r, false)
  else
    let cursor := lastProcessedBlock r in
    let resume := failedRevertFrom r -₆₄ 1 in
    let resume := match HighestBlockAtOrBelow (t_stored (rt r)) cursor with
                  | Some (m, _) => if resume <? m then m else resume
                  | None => resume
                  end in
    let cursor := if resume <? cursor then resume else cursor in
    (mkRealtime cursor (behind r) (lastSafe r) (rt r) 0 (revertPending r), true).

Definition realtime_loop : loop_config := mkLoop 0 true.

(** The loop, with the cursor and [behind] it leaves. *)
Definition realtime_index (e : env) (pipelineDepth safeBlock last : Z) (r : realtime) : realtime :=
  let '(t, n) := index_loop realtime_loop e pipelineDepth last safeBlock (rt r) in
  mkRealtime n (if last <? n then safeBlock -₆₄ n else behind r) (lastSafe r) t (failedRevertFrom r) (revertPending r).

(** [indexUpTo] once no failed revert is left to look at. *)
Definition check_and_index (g : reorg_env) (e : env) (pipelineDepth safeBlock last : Z) (r : realtime) : realtime :=
  if safeBlock <=? last then r
  else if 0 <? last then
    match detectReorg (g_answers g) (t_stored (rt r)) last with
    | (_, Some _) => r
    | (depth, None) =>
        if 0 <? depth then
          let from := last +₆₄ 1 -₆₄ depth in
          match realtime_handleReorg (g_latest_ok g) (g_del g) from (t_stored (rt r)) with
          | Some (s, Some _) =>
              mkRealtime (lastProcessedBlock r) (behind r) (lastSafe r) (set_stored s (rt r)) from true
          | Some (s, None) =>
              mkRealtime (last -₆₄ depth) (behind r) (lastSafe r) (set_stored s (rt r)) (failedRevertFrom r) false
          | None => r
          end
        else realtime_index e pipelineDepth safeBlock last
               (mkRealtime (lastProcessedBlock r) (behind r) (lastSafe r) (rt r) (failedRevertFrom r) false)
    end
  else realtime_index e pipelineDepth safeBlock last r.

Definition indexUpTo (g : reorg_env) (e : env) (highest_ok : bool) (pipelineDepth lastProcessed safeBlock : Z) (r : realtime)
  : realtime :=
  if failedRevertFrom r =? 0 then check_and_index g e pipelineDepth safeBlock lastProcessed r
  else match resumeAfterFailedRevert highest_ok r with
       | (r, false) => r
       | (r, true) => check_and_index g e pipelineDepth safeBlock (lastProcessedBlock r) r
       end.

(** One new head: [runSubscriptionMode] and [runPollingMode] do the same. *)
Record head_event := mkHead {
  h_latest : Z; h_jump : reorg_env; h_save : fault; h_reorg : reorg_env; h_env : env; h_highest_ok : bool }.

Definition on_head (confirmations limit pipelineDepth : Z) (h : head_event) (r : realtime) : realtime :=
  let safe := safe_block (h_latest h) confirmations in
  let '(r, last) := jumpIfFarBehind (h_jump h) (h_save h) limit safe r in
  indexUpTo (h_reorg h) (h_env h) (h_highest_ok h) pipelineDepth last safe r.

(** ** The pipelined loop is the sequential loop *)

Lemma drain_app e q1 q2 last t :
  drain e (q1 ++ q2) last t =
  match drain e q1 last t with
  | (t, last, None) => drain e q2 last t
  | r => r
  end.
Proof.
  revert last t. induction q1 as [|[n r] q1 IH]; intros last t; cbn; [done|].
  destruct (write_block e n r (t_stored t)) as [s [err|]]; [done|apply IH].
Qed.

Lemma pipelined_loop_eq e depth l prev rem queue last t :
  (rem = true → queue = []) →
  pipelined_loop e depth l prev rem queue last t =
  match drain e queue last t with
  | (t, last, None) => prefetched_loop e l prev rem last t
  | (t, last, Some err) => (revertStaleBlock e err t, last)
  end.
Proof.
  revert prev rem queue last t. induction l as [|b l IH]; intros prev rem queue last t Hrem.
  { cbn. by destruct (drain e queue last t) as [[t1 last1] [err|]]. }
  cbn [pipelined_loop prefetched_loop]. destruct (breaks_chain prev b).
  { destruct rem; [rewrite Hrem by done; done|]. by destruct (drain e queue last t) as [[t1 last1] [err|]]. }
  destruct (ferr b) as [err|] eqn:Ef.
  - destruct (raw b) as [r|] eqn:Er.
    + destruct (drain e queue last t) as [[t1 last1] [werr|]]; [done|].
      destruct (pass_block e b err t1) as [t2 [h|]]; [|done]. by rewrite IH.
    + unfold pass_block. rewrite Er. by destruct (drain e queue last t) as [[t1 last1] [werr|]].
  - destruct (raw b) as [r|] eqn:Er; [|by destruct (drain e queue last t) as [[t1 last1] [werr|]]].
    destruct (raw_empty r).
    + destruct (drain e queue last t) as [[t1 last1] [werr|]]; [done|].
      destruct (write_block e (number b) r (t_stored t1)) as [s [werr|]]; [done|]. by rewrite IH.
    + assert (∀ n0 r0 q s, queue ++ [(number b, r)] = (n0, r0) :: q →
        write_block e n0 r0 (t_stored t) = (s, None) →
        drain e q n0 (set_stored s t) = drain e (queue ++ [(number b, r)]) last t) as Hpop.
      { intros n0 r0 q s -> E. cbn. by rewrite E. }
      assert (match drain e (queue ++ [(number b, r)]) last t with
              | (t, last, None) => prefetched_loop e l (raw_hash r) false last t
              | (t, last, Some err) => (revertStaleBlock e err t, last)
              end =
              match drain e queue last t with
              | (t, last, None) =>
                  match write_block e (number b) r (t_stored t) with
                  | (s, None) => prefetched_loop e l (raw_hash r) false (number b) (set_stored s t)
                  | (s, Some err) => (revertStaleBlock e err (set_stored s t), last)
                  end
              | (t, last, Some err) => (revertStaleBlock e err t, last)
              end) as Hpush.
      { rewrite drain_app. destruct (drain e queue last t) as [[t1 last1] [werr|]]; [done|]. cbn.
        by destruct (write_block e (number b) r (t_stored t1)) as [s [werr|]]. }
      rewrite <-Hpush. destruct (_ <=? _)%nat; [|by rewrite IH].
      destruct (queue ++ [(number b, r)]) as [|[n0 r0] q] eqn:Eq; [by destruct queue|].
      destruct (write_block e n0 r0 (t_stored t)) as [s [werr|]] eqn:Ew; cbn.
      * by rewrite Ew.
      * rewrite IH by done. by rewrite Ew.
Qed.

(** ** What a loop moves past *)

Lemma revert_loop_below fuel del from n s s' e m :
  revert_loop fuel del from n s = Some (s', e) → m < from → s' !! m = s !! m.
Proof.
  revert n s. induction fuel as [|fuel IH]; intros n s; cbn [revert_loop]; [done|].
  destruct (Z.leb_spec from n); [|by intros [= <- _]].
  destruct (del n); [|by intros [= <- _]|].
  - intros E Hm. rewrite (IH _ _ E Hm). rewrite lookup_delete_ne; [done|lia].
  - intros [= <- _] Hm. rewrite lookup_delete_ne; [done|lia].
Qed.

Lemma revert_loop_keys fuel del from n s s' e m :
  revert_loop fuel del from n s = Some (s', e) → is_Some (s' !! m) → is_Some (s !! m).
Proof.
  revert n s. induction fuel as [|fuel IH]; intros n s; cbn [revert_loop]; [done|].
  assert (∀ s : chain_store, is_Some (delete n s !! m) → is_Some (s !! m)) as Hd.
  { intros s0 [x Hx]. apply lookup_delete_Some in Hx as [_ Hx]. eauto. }
  destruct (from <=? n); [|by intros [= <- _]].
  destruct (del n); [|by intros [= <- _]|intros [= <- _]; apply Hd].
  intros E Hm. apply Hd. by eapply IH.
Qed.

Lemma revertStaleBlock_below e err t m :
  match err with StoredBlockDiffers n => m < n | WriteFailed => True end →
  t_stored (revertStaleBlock e err t) !! m = t_stored t !! m.
Proof.
  destruct err as [|n]; [done|]. intros Hm. cbn. unfold handleReorg.
  destruct (e_latest_ok e); [|done].
  destruct (revert_loop _ _ _ _ _) as [[s err]|] eqn:E; [|done]. cbn. by eapply revert_loop_below.
Qed.

Lemma revertStaleBlock_missing e err t : t_missing (revertStaleBlock e err t) = t_missing t.
Proof. destruct err; [done|]. cbn. by destruct (handleReorg _ _ _ _) as [[]|]. Qed.

Lemma write_block_spec e n r s s' err :
  write_block e n r s = (s', err) →
  (∀ m, m ≠ n → s' !! m = s !! m) ∧
  match err with
  | None => ∃ b, s' !! n = Some b ∧ Hash b = raw_hash r
  | Some (StoredBlockDiffers m) => m = n
  | Some WriteFailed => True
  end.
Proof.
  unfold write_block.
  assert (∀ m, m ≠ n → <[n := mkHeader (raw_hash r) (raw_parent r)]> s !! m = s !! m) as Hput
    by (intros; by rewrite lookup_insert_ne).
  destruct (e_write e n), (s !! n) as [b|] eqn:E;
    try (destruct (Z.eqb_spec (Hash b) (raw_hash r))); intros [= <- <-]; split; try done; eauto.
  exists (mkHeader (raw_hash r) (raw_parent r)). split; [apply lookup_insert_eq|done].
Qed.

Lemma pass_block_spec e b err t t' h :
  pass_block e b err t = (t', h) →
  t_stored t' = t_stored t ∧ t_missing t ⊆ t_missing t' ∧
  (∀ x, h = Some x → number b ∈ t_missing t' ∧ ∃ r, raw b = Some r ∧ raw_hash r = x).
Proof.
  unfold pass_block. destruct (raw b) as [r|]; [|by intros [= <- <-]].
  unfold skip. destruct err; [by intros [= <- <-]|]. destruct (_ <? _); [by intros [= <- <-]|].
  destruct (e_requeue e (number b)); intros [= <- <-]; cbn; split_and!; try done; set_solver.
Qed.

(** A run of a loop from [last], with [prev] the hash its first block must
    extend. *)
Record moved (e : env) (prev last : Z) (t : tick) (last' : Z) (t' : tick) : Prop := {
  moved_range : last ≤ last';
  moved_below n : n ≤ last → t_stored t' !! n = t_stored t !! n;
  moved_missing : t_missing t ⊆ t_missing t';
  moved_done n : last < n ≤ last' → ∃ r, e_block e n = Some r ∧
    ((∃ b, t_stored t' !! n = Some b ∧ Hash b = raw_hash r) ∨ n ∈ t_missing t');
  moved_first r : last < last' → prev ≠ 0 → e_block e (last + 1) = Some r → raw_parent r = prev;
  moved_links n r r' : last < n < last' → e_block e n = Some r → e_block e (n + 1) = Some r' →
    raw_hash r ≠ 0 → raw_parent r' = raw_hash r }.

Lemma moved_stop e prev last t t' :
  (∀ n, n ≤ last → t_stored t' !! n = t_stored t !! n) → t_missing t ⊆ t_missing t' → moved e prev last t last t'.
Proof. intros H1 H2. split; [lia|done|done|intros; lia..]. Qed.

Lemma moved_step e prev last t t1 last' t' r :
  e_block e (last + 1) = Some r → (prev = 0 ∨ raw_parent r = prev) →
  (∀ n, n ≤ last → t_stored t1 !! n = t_stored t !! n) → t_missing t ⊆ t_missing t1 →
  ((∃ b, t_stored t1 !! (last + 1) = Some b ∧ Hash b = raw_hash r) ∨ last + 1 ∈ t_missing t1) →
  moved e (raw_hash r) (last + 1) t1 last' t' → moved e prev last t last' t'.
Proof.
  intros Hr Hp Hb Hm Hd [M1 M2 M3 M4 M5 M6]. split.
  - lia.
  - intros n Hn. rewrite M2 by lia. by apply Hb.
  - set_solver.
  - intros n Hn. destruct (decide (n = last + 1)) as [->|]; [|apply M4; lia].
    exists r. split; [done|]. destruct Hd as [(b & ? & ?)|?]; [|right; set_solver].
    left. exists b. by rewrite M2 by lia.
  - intros r' _ Hp' Hr'. rewrite Hr in Hr'. injection Hr' as <-. by destruct Hp.
  - intros n r1 r2 Hn H1 H2 Hz. destruct (decide (n = last + 1)) as [->|]; [|eapply M6; eauto; lia].
    rewrite Hr in H1. injection H1 as <-. eapply M5; [lia|done|done].
Qed.

Lemma prefetched_loop_moved e k prev rem last t :
  let '(t', last') := prefetched_loop e (fetchBlockAndReceipts e <$> seqZ (last + 1) (Z.of_nat k)) prev rem last t in
  moved e prev last t last' t' ∧ last' ≤ last + Z.of_nat k.
Proof.
  revert prev rem last t. induction k as [|k IH]; intros prev rem last t.
  { cbn. split; [by apply moved_stop|lia]. }
  rewrite seqZ_cons, fmap_cons by lia. cbn [prefetched_loop].
  replace (Z.pred (Z.of_nat (S k))) with (Z.of_nat k) by lia. replace (Z.succ (last + 1)) with (last + 1 + 1) by lia.
  remember (fetchBlockAndReceipts e (last + 1)) as b eqn:Eb.
  destruct (breaks_chain prev b) eqn:Ebr.
  { split; [|lia]. apply moved_stop; destruct rem; try done; unfold recheckSkipped; by repeat case_match. }
  unfold fetchBlockAndReceipts in Eb.
  destruct (e_block e (last + 1)) as [r|] eqn:Er; [|subst b; cbn; split; [by apply moved_stop|lia]].
  assert (prev = 0 ∨ raw_parent r = prev) as Hp.
  { subst b. destruct (raw_empty r); cbn in Ebr;
    apply andb_false_iff in Ebr as [E|E]; apply negb_false_iff, Z.eqb_eq in E; tauto. }
  clear Ebr. assert (∀ s err, write_block e (last + 1) r (t_stored t) = (s, err) →
    let '(t', last') := match err with
      | None => prefetched_loop e (fetchBlockAndReceipts e <$> seqZ (last + 1 + 1) (Z.of_nat k)) (raw_hash r) false (last + 1) (set_stored s t)
      | Some err => (revertStaleBlock e err (set_stored s t), last) end in
    moved e prev last t last' t' ∧ last' ≤ last + Z.of_nat (S k)) as Hw.
  { intros s err E. apply write_block_spec in E as [E1 E2]. destruct err as [err|].
    - split; [|lia]. apply moved_stop; [|by rewrite revertStaleBlock_missing].
      intros n Hn. rewrite revertStaleBlock_below by (destruct err; [done|lia]). cbn. apply E1. lia.
    - specialize (IH (raw_hash r) false (last + 1) (set_stored s t)).
      destruct (prefetched_loop e _ (raw_hash r) false (last + 1) (set_stored s t)) as [t' last'].
      destruct IH as [IH1 IH2]. split; [|lia].
      eapply (moved_step e prev last t (set_stored s t)); [done|done| |done|by left|done].
      intros n Hn. apply E1. lia. }
  destruct (raw_empty r) eqn:Ee; [|destruct (e_receipts e (last + 1))]; subst b; cbn [ferr raw number].
  1,2: destruct (write_block e (last + 1) r (t_stored t)) as [s [err|]] eqn:E; exact (Hw _ _ eq_refl).
  destruct (pass_block e _ ErrReceiptsUnavailable t) as [t1 [h|]] eqn:E;
    apply pass_block_spec in E as (E1 & E2 & E3); cbn in E3.
  - destruct (E3 h eq_refl) as (E4 & r' & [= <-] & <-).
    specialize (IH (raw_hash r) false (last + 1) t1).
    destruct (prefetched_loop e _ (raw_hash r) false (last + 1) t1) as [t' last']. destruct IH as [IH1 IH2].
    split; [|lia]. eapply (moved_step e prev last t t1); [done|done| |done|by right|done]. by rewrite E1.
  - split; [|lia]. apply moved_stop; [by rewrite E1|done].
Qed.

Lemma prefetchBlocks_seq e from to :
  ∃ k : nat, prefetchBlocks e from to = fetchBlockAndReceipts e <$> seqZ from (Z.of_nat k) ∧
    Z.of_nat k ≤ Z.max 0 (to - from + 1).
Proof.
  unfold prefetchBlocks.
  assert (seqZ from (to - from + 1) = seqZ from (Z.of_nat (Z.to_nat (to - from + 1)))) as ->.
  { unfold seqZ. by rewrite Nat2Z.id. }
  destruct (e_slots e) as [j|]; [|exists (Z.to_nat (to - from + 1)); split; [done|lia]].
  exists (Nat.min j (Z.to_nat (to - from + 1))). split; [|lia].
  rewrite <-fmap_take. f_equal. unfold seqZ. rewrite !Nat2Z.id, <-fmap_take. f_equal. apply take_seq.
Qed.

(** The numbers a loop may add to the store. *)
Lemma prefetched_loop_keys e k prev rem last t n :
  is_Some (t_stored (prefetched_loop e (fetchBlockAndReceipts e <$> seqZ (last + 1) (Z.of_nat k)) prev rem last t).1 !! n) →
  is_Some (t_stored t !! n) ∨ last < n ≤ last + Z.of_nat k.
Proof.
  revert prev rem last t. induction k as [|k IH]; intros prev rem last t; [by left|].
  rewrite seqZ_cons, fmap_cons by lia. cbn [prefetched_loop].
  replace (Z.pred (Z.of_nat (S k))) with (Z.of_nat k) by lia. replace (Z.succ (last + 1)) with (last + 1 + 1) by lia.
  assert (number (fetchBlockAndReceipts e (last + 1)) = last + 1) as Hnum.
  { unfold fetchBlockAndReceipts. by repeat case_match. }
  remember (fetchBlockAndReceipts e (last + 1)) as b eqn:Eb. clear Eb. rewrite Hnum.
  destruct (breaks_chain prev b).
  { destruct rem; [|by left]. unfold recheckSkipped. repeat case_match; by left. }
  destruct (ferr b) as [err|].
  - destruct (pass_block e b err t) as [t1 [h|]] eqn:E; apply pass_block_spec in E as (E1 & _ & _).
    + intros H%IH. rewrite E1 in H. destruct H; [by left|right; lia].
    + cbn. rewrite E1. by left.
  - destruct (raw b) as [r|]; [|by left].
    destruct (write_block e (last + 1) r (t_stored t)) as [s [err|]] eqn:E;
      apply write_block_spec in E as [E1 E2].
    + cbn. assert (∀ t, is_Some (t_stored (revertStaleBlock e err t) !! n) → is_Some (t_stored t !! n)) as Hr.
      { intros t0. destruct err as [|m]; [done|]. cbn. unfold handleReorg.
        destruct (e_latest_ok e); [|done]. destruct (revert_loop _ _ _ _ _) as [[s0 err0]|] eqn:E0; [|done]. cbn.
        intros H. eapply revert_loop_keys; eauto. }
      intros H%Hr. cbn in H. destruct (decide (n = last + 1)) as [->|Hne]; [right; lia|].
      left. by rewrite <-E1.
    + intros H%IH. cbn in H. destruct H as [H|H]; [|right; lia].
      destruct (decide (n = last + 1)) as [->|Hne]; [right; lia|]. left. by rewrite <-E1.
Qed.

Lemma indexPipelined_eq c e depth last latest t :
  indexPipelined c e depth last latest t = indexPrefetched c e last latest t.
Proof.
  unfold indexPipelined, indexPrefetched. destruct (anchor c e last t) as [t0 [[[from prev] rem] ok]].
  destruct (negb ok || _); [done|]. by rewrite pipelined_loop_eq.
Qed.

Lemma index_loop_prefetched c e depth last latest t :
  index_loop c e depth last latest t = indexPrefetched c e last latest t.
Proof. unfold index_loop. destruct (1 <? depth); [apply indexPipelined_eq|done]. Qed.

Lemma indexPrefetched_moved c e last latest t t0 from prev rem :
  anchor c e last t = (t0, (from, prev, rem, true)) → from < latest →
  let '(t', last') := indexPrefetched c e last latest t in moved e prev from t0 last' t' ∧ last' ≤ latest.
Proof.
  intros E Hlt. unfold indexPrefetched. rewrite E. cbn [negb orb].
  destruct (Z.leb_spec latest from); [lia|]. destruct (prefetchBlocks_seq e (from + 1) latest) as (k & -> & Hk).
  pose proof (prefetched_loop_moved e k prev rem from t0) as H'.
  destruct (prefetched_loop _ _ _ _ _ _) as [t' last']. destruct H' as [H1 H2]. split; [done|lia].
Qed.

Lemma anchor_stored c e last t : t_stored (anchor c e last t).1 = t_stored t ∧ t_missing (anchor c e last t).1 = t_missing t.
Proof. unfold anchor. repeat case_match; done. Qed.

Lemma HighestBlockAtOrBelow_spec s n m b : HighestBlockAtOrBelow s n = Some (m, b) → s !! m = Some b ∧ m ≤ n.
Proof.
  unfold HighestBlockAtOrBelow. destruct (upto n s !! latest_number (upto n s)) as [b'|] eqn:E; [|done].
  cbn. intros [= <- <-]. rewrite lookup_upto in E. by case_decide.
Qed.

(** ** Realtime never leaves a hole behind its cursor *)

(** [tracked start r]: every block between [start] and the cursor is stored or
    recorded; after a failed revert, up to the highest block it left, [m]. *)
Definition tracked (start : Z) (r : realtime) : Prop :=
  let s := t_stored (rt r) in
  (∀ n, is_Some (s !! n) → is_u64 n) ∧ 0 ≤ lastProcessedBlock r < H64 ∧
  (failedRevertFrom r ≠ 0 → revertPending r = true ∧ 1 ≤ failedRevertFrom r ≤ lastProcessedBlock r) ∧
  ∃ m, (failedRevertFrom r = 0 → lastProcessedBlock r ≤ m) ∧
       (failedRevertFrom r ≠ 0 → failedRevertFrom r - 1 ≤ m ∧ ∀ n, m < n → s !! n = None) ∧
       ∀ n, start < n ≤ lastProcessedBlock r → n ≤ m → is_Some (s !! n) ∨ n ∈ t_missing (rt r).

Lemma tracked_done start r n :
  tracked start r → failedRevertFrom r = 0 → start < n ≤ lastProcessedBlock r →
  is_Some (t_stored (rt r) !! n) ∨ n ∈ t_missing (rt r).
Proof. intros (_ & _ & _ & m & H1 & _ & H2) H0 Hn. apply H2; [done|]. specialize (H1 H0). lia. Qed.

(** A state whose last revert did not fail is tracked when each block is. *)
Lemma tracked_intro start r :
  (∀ n, is_Some (t_stored (rt r) !! n) → is_u64 n) → 0 ≤ lastProcessedBlock r < H64 → failedRevertFrom r = 0 →
  (∀ n, start < n ≤ lastProcessedBlock r → is_Some (t_stored (rt r) !! n) ∨ n ∈ t_missing (rt r)) →
  tracked start r.
Proof.
  intros H1 H2 H3 H4. split_and!; [done|lia|lia|done|]. exists (lastProcessedBlock r).
  split_and!; [lia|done|]. intros n Hn _. by apply H4.
Qed.

Lemma realtime_handleReorg_spec ok del from s :
  1 ≤ from → (∀ n, is_Some (s !! n) → is_u64 n) →
  ∃ m e, realtime_handleReorg ok del from s = Some (upto m s, e) ∧ from - 1 ≤ m ∧
    (e = None → upto m s = upto (from - 1) s).
Proof.
  intros Hf Hs. destruct (handleReorg_spec ok del from s Hf Hs) as (m & e & H1 & H2 & _ & H3).
  unfold realtime_handleReorg, handleReorg in *. destruct ok; [|eauto].
  destruct (_ && _); [|eauto]. exists (Z.max (latest_number s) (from - 1)), (Some ChainReset).
  rewrite upto_all; [split_and!; [done|lia|done]|]. intros n Hn. apply latest_number_max in Hn. lia.
Qed.

Lemma jump_tracked start g save limit safe r r' last :
  tracked start r → 0 ≤ safe < H64 → jumpIfFarBehind g save limit safe r = (r', last) →
  tracked start r' ∧ last = lastProcessedBlock r' ∧ lastProcessedBlock r ≤ last ∧
  failedRevertFrom r' = failedRevertFrom r ∧ t_stored (rt r') = t_stored (rt r).
Proof.
  intros Ht Hs. pose proof Ht as (Hk & Hc & Hf & m & Hm1 & Hm2 & Hm3). unfold jumpIfFarBehind. cbv zeta. cbn [revertPending rt].
  set (r1 := mkRealtime _ _ _ _ _ _).
  assert (tracked start r1) as Ht1 by done.
  destruct (_ || _ || revertPending r) eqn:Eg; [intros [= <- <-]; split_and!; try done; lia|].
  apply orb_false_iff in Eg as [Eg Erp]. apply orb_false_iff in Eg as [_ Eg]. apply Z.leb_gt in Eg.
  assert (failedRevertFrom r = 0) as H0.
  { destruct (decide (failedRevertFrom r = 0)); [done|]. destruct (Hf n) as [Hf' _]. congruence. }
  destruct (if 0 <? lastProcessedBlock r then _ else false); [intros [= <- <-]; split_and!; try done; lia|].
  assert (lastProcessedBlock r +₆₄ 1 = lastProcessedBlock r + 1) as -> by u64_lia.
  pose proof (u64_range (lastProcessedBlock r + limit)) as Hu. unfold is_u64 in Hu.
  assert (safe -₆₄ 1 = safe - 1) as -> by u64_lia.
  destruct (negb _ || _) eqn:E; [intros [= <- <-]; split_and!; try done; lia|].
  apply orb_false_iff in E as [_ E]. apply Z.ltb_ge in E.
  assert (∀ n, n ∈ range_set (lastProcessedBlock r + 1) (safe - 1) ↔ lastProcessedBlock r < n ≤ safe - 1) as Hrange.
  { intros n. unfold range_set. rewrite elem_of_list_to_set, elem_of_seqZ. lia. }
  destruct save; intros [= <- <-]; cbn.
  - split_and!; [|done|lia|done|done]. apply tracked_intro; cbn; [done|lia|done|].
    intros n Hn. rewrite elem_of_union, Hrange.
    destruct (decide (n ≤ lastProcessedBlock r)); [|right; right; lia].
    destruct (tracked_done start r n Ht H0); [lia|tauto..].
  - split_and!; try done; lia.
  - split_and!; [|done|lia|done|done]. apply tracked_intro; cbn; [done|lia|done|].
    intros n Hn. rewrite elem_of_union. destruct (tracked_done start r n Ht H0); [lia|tauto..].
Qed.

Lemma resume_tracked start ok r r' b :
  tracked start r → resumeAfterFailedRevert ok r = (r', b) →
  tracked start r' ∧ t_stored (rt r') = t_stored (rt r) ∧ (b = true → failedRevertFrom r' = 0).
Proof.
  intros Ht. pose proof Ht as (Hk & Hc & Hf & m & Hm1 & Hm2 & Hm3). unfold resumeAfterFailedRevert.
  destruct (Z.eqb_spec (failedRevertFrom r) 0) as [H0|H0]; [by intros [= <- <-]|].
  destruct ok; [|by intros [= <- <-]]. cbn [negb]. intros [= <- <-]. split; [|done].
  destruct (Hf H0) as [_ Hfr]. destruct (Hm2 H0) as [Hm Hnone].
  assert (failedRevertFrom r -₆₄ 1 = failedRevertFrom r - 1) as -> by u64_lia.
  set (resume := match HighestBlockAtOrBelow _ _ with Some _ => _ | None => _ end).
  assert (failedRevertFrom r - 1 ≤ resume ≤ m) as Hres.
  { subst resume. destruct (HighestBlockAtOrBelow _ _) as [[h b]|] eqn:E; [|lia].
    apply HighestBlockAtOrBelow_spec in E as [E1 E2].
    assert (h ≤ m) by (apply Znot_gt_le; intros ?; rewrite Hnone in E1 by lia; done).
    destruct (Z.ltb_spec (failedRevertFrom r - 1) h); lia. }
  apply tracked_intro; cbn; [done| |done|].
  - destruct (Z.ltb_spec resume (lastProcessedBlock r)); lia.
  - intros n Hn. apply Hm3; destruct (Z.ltb_spec resume (lastProcessedBlock r)); lia.
Qed.

(** Realtime's anchor is its cursor, stored or not. *)
Lemma realtime_anchor e last t :
  0 ≤ last → ∃ t0 h rem ok, anchor realtime_loop e last t = (t0, (last, h, rem, ok)).
Proof.
  intros Hl. unfold anchor, realtime_loop. cbn [startBlock cursorMayBeUnstored].
  destruct (Z.eqb_spec last 0) as [->|]; cbn [andb]; [by eexists _, _, _, _|].
  repeat case_match; by eexists _, _, _, _.
Qed.

Lemma index_tracked start e depth safe r bh rp :
  tracked start r → failedRevertFrom r = 0 → safe < H64 →
  let '(t, n) := index_loop realtime_loop e depth (lastProcessedBlock r) safe (rt r) in
  tracked start (mkRealtime n bh (lastSafe r) t (failedRevertFrom r) rp).
Proof.
  intros Ht H0 Hs. pose proof Ht as (Hk & Hc & _). rewrite index_loop_prefetched.
  destruct (realtime_anchor e (lastProcessedBlock r) (rt r)) as (t0 & h & rem & ok & Ea); [lia|].
  pose proof (anchor_stored realtime_loop e (lastProcessedBlock r) (rt r)) as [Es Em]. rewrite Ea in Es, Em. cbn in Es, Em.
  assert (∀ n, start < n ≤ lastProcessedBlock r → is_Some (t_stored t0 !! n) ∨ n ∈ t_missing t0) as Hold.
  { intros n Hn. rewrite Es, Em. by eapply tracked_done. }
  unfold indexPrefetched. rewrite Ea. destruct (negb ok || (safe <=? lastProcessedBlock r)) eqn:E.
  { apply tracked_intro; cbn; [by rewrite Es|lia|done|done]. }
  apply orb_false_iff in E as [_ E]. apply Z.leb_gt in E.
  destruct (prefetchBlocks_seq e (lastProcessedBlock r + 1) safe) as (k & -> & Hkk).
  pose proof (prefetched_loop_moved e k h rem (lastProcessedBlock r) t0) as Hm.
  pose proof (prefetched_loop_keys e k h rem (lastProcessedBlock r) t0) as Hkeys.
  destruct (prefetched_loop _ _ _ _ _ _) as [t' last']. destruct Hm as [[M1 M2 M3 M4 _ _] Hle]. cbn in Hkeys.
  apply tracked_intro; cbn; [|lia|done|].
  - intros n [Hn|Hn]%Hkeys; [rewrite Es in Hn; by apply Hk|]. unfold is_u64. lia.
  - intros n Hn. destruct (decide (n ≤ lastProcessedBlock r)).
    + rewrite M2 by lia. destruct (Hold n); [lia|by left|right; set_solver].
    + destruct (M4 n) as (x & _ & [(b & Hb & _)|?]); [lia|left; by rewrite Hb|by right].
Qed.

Lemma realtime_index_tracked start e depth safe r rp :
  tracked start r → failedRevertFrom r = 0 → safe < H64 →
  tracked start (realtime_index e depth safe (lastProcessedBlock r)
    (mkRealtime (lastProcessedBlock r) (behind r) (lastSafe r) (rt r) (failedRevertFrom r) rp)).
Proof.
  intros Ht H0 Hs. unfold realtime_index. cbn [rt behind lastSafe failedRevertFrom revertPending].
  pose proof (λ bh, index_tracked start e depth safe r bh rp Ht H0 Hs) as Hi.
  destruct (index_loop _ _ _ _ _ _) as [t n]. apply Hi.
Qed.

Lemma check_and_index_tracked start g e depth safe r :
  tracked start r → failedRevertFrom r = 0 → 0 ≤ safe < H64 →
  tracked start (check_and_index g e depth safe (lastProcessedBlock r) r).
Proof.
  intros Ht H0 Hs. pose proof Ht as (Hk & Hc & _). unfold check_and_index.
  destruct (Z.leb_spec safe (lastProcessedBlock r)); [done|].
  destruct (Z.ltb_spec 0 (lastProcessedBlock r)).
  2: { pose proof (realtime_index_tracked start e depth safe r (revertPending r) Ht H0 ltac:(lia)) as H'. by destruct r. }
  destruct (detectReorg _ _ _) as [d [err|]] eqn:Ed; [done|].
  destruct (Z.ltb_spec 0 d) as [Hd|]; [|apply realtime_index_tracked; [done|done|lia]].
  pose proof (detect_from_spec _ _ _ _ _ _ _ Ed) as [[->|(_ & Hdl & _)] _]; [lia|].
  assert (lastProcessedBlock r +₆₄ 1 = lastProcessedBlock r + 1) as -> by u64_lia.
  assert (lastProcessedBlock r + 1 -₆₄ d = lastProcessedBlock r + 1 - d) as -> by u64_lia.
  assert (lastProcessedBlock r -₆₄ d = lastProcessedBlock r - d) as -> by u64_lia.
  destruct (realtime_handleReorg_spec (g_latest_ok g) (g_del g) (lastProcessedBlock r + 1 - d) (t_stored (rt r)))
    as (m & err & -> & Hm & He); [lia|done|].
  destruct err as [err|].
  - split_and!; cbn; [by apply upto_u64|lia|lia|lia|]. exists m. split_and!; [lia| |].
    + intros _. split; [lia|]. intros n Hn. rewrite lookup_upto. case_decide; [lia|done].
    + intros n Hn Hnm. rewrite lookup_upto. case_decide; [|lia]. by eapply tracked_done.
  - apply tracked_intro; cbn; [by apply upto_u64|lia|done|].
    intros n Hn. rewrite He, lookup_upto by done. case_decide; [|lia]. eapply tracked_done; [done|done|lia].
Qed.

Lemma indexUpTo_tracked start g e ok depth safe r :
  tracked start r → 0 ≤ safe < H64 → tracked start (indexUpTo g e ok depth (lastProcessedBlock r) safe r).
Proof.
  intros Ht Hs. unfold indexUpTo. destruct (Z.eqb_spec (failedRevertFrom r) 0); [by apply check_and_index_tracked|].
  destruct (resumeAfterFailedRevert ok r) as [r' b] eqn:E.
  destruct (resume_tracked start ok r r' b Ht E) as (Ht' & _ & Hb). destruct b; [|done].
  apply check_and_index_tracked; auto.
Qed.

(** ** Properties *)

(** C4: the pipelined commit loop is the sequential loop: for every fetch
    result, write outcome, lost acknowledgement, stale block and pipeline depth,
    it leaves the same store, the same recorded blocks, the same skip state and
    the same last block. *)
Theorem indexPipelined_refines c e depth lastIndexed latest t :
  indexPipelined c e depth lastIndexed latest t = indexPrefetched c e lastIndexed latest t.
Proof. apply indexPipelined_eq. Qed.

(** every block a tick's loop moves past is stored with the hash the node
    served, or recorded as missing; the blocks it moves past extend each other
    and the anchor; nothing at or below the anchor changes; the loop never goes
    past the head. *)
Theorem index_loop_accounts c e depth lastIndexed latest t t0 from prev rem t' last' :
  anchor c e lastIndexed t = (t0, (from, prev, rem, true)) → from < latest →
  index_loop c e depth lastIndexed latest t = (t', last') →
  moved e prev from t0 last' t' ∧ last' ≤ latest.
Proof.
  intros Ha Hlt E. rewrite index_loop_prefetched in E.
  pose proof (indexPrefetched_moved c e lastIndexed latest t t0 from prev rem Ha Hlt) as H. by rewrite E in H.
Qed.

(** Blocks 1..4 of a chain; the receipts of block 3 are never served. *)
Definition short_chain (n : Z) : option raw_block :=
  if (1 <=? n) && (n <=? 4) then Some (mkRaw (100 + n) (99 + n) (n =? 2)) else None.
Definition sample_env : env :=
  mkEnv short_chain (λ n, negb (n =? 3)) None (λ n, if n =? 4 then WAckLost else WOk) (λ _, NoFault)
    true true (Some 0) None true (λ _, NoFault).
Definition sample_tick : tick := mkTick {[ 1 := mkHeader 101 100 ]} ∅ (mkSkip 3 9 0 0 false).

Definition sample_run : tick * Z := index_loop (mkLoop 1 false) sample_env 4 1 9 sample_tick.

Lemma index_loop_accounts_witness :
  sample_run.2 = 3 ∧ 3 ∈ t_missing sample_run.1 ∧ (∃ b, t_stored sample_run.1 !! 2 = Some b ∧ Hash b = 102).
Proof.
  destruct (index_loop_accounts (mkLoop 1 false) sample_env 4 1 9 sample_tick
    (anchor (mkLoop 1 false) sample_env 1 sample_tick).1 1 101 false sample_run.1 3) as [[_ _ _ Hd _ _] _];
    [vm_compute; reflexivity|lia|vm_compute; reflexivity|].
  split_and!; [vm_compute; reflexivity| |].
  - destruct (Hd 3 ltac:(lia)) as (r & [= <-] & [(b & Hb & _)|?]); [|done]. exfalso.
    revert Hb. vm_compute. discriminate.
  - destruct (Hd 2 ltac:(lia)) as (r & [= <-] & [?|Hm]); [done|]. exfalso.
    revert Hm. apply (bool_decide_eq_false_1 (2 ∈ t_missing sample_run.1)). vm_compute. reflexivity.
Defined.

(** C17: a standard tick indexes only on a store whose last ten blocks agree with
    the node: either the reorg check answered, the stale blocks (if any) were all
    reverted, and the loop runs on what is left, or the tick writes no block,
    records none and keeps its cursor. *)
Theorem standardTick_never_builds_on_stale c g e depth lastIndexed latest t :
  0 < lastIndexed → (∀ n, is_Some (t_stored t !! n) → is_u64 n) →
  let r := standardTick c g e depth lastIndexed latest t in
  (∃ d, 0 ≤ d ≤ lastIndexed ∧
     let s := if 0 <? d then upto (lastIndexed - d) (t_stored t) else t_stored t in
     (∀ n, 1 ≤ n → lastIndexed - 10 < n ≤ lastIndexed → agrees (g_answers g) s n) ∧
     r = index_loop c e depth (lastIndexed - d) latest (set_stored s t)) ∨
  (r.2 = lastIndexed ∧ t_missing r.1 = t_missing t ∧ ∃ m, t_stored r.1 = upto m (t_stored t)).
Proof.
  intros Hl Hk. cbv zeta. unfold standardTick. destruct (Z.ltb_spec 0 lastIndexed); [|lia].
  assert (∃ m, t_stored t = upto m (t_stored t)) as Hsame.
  { exists (latest_number (t_stored t)). symmetry. apply upto_all, latest_number_max. }
  destruct (detectReorg (g_answers g) (t_stored t) lastIndexed) as [d [err|]] eqn:Ed; [right; by split_and!|].
  pose proof (detect_from_spec _ _ _ _ _ _ _ Ed) as [H1 H2]. change (Z.of_nat maxReorgCheck) with 10 in *.
  assert (0 ≤ d ≤ lastIndexed) as Hd by (destruct H1 as [->|(? & ? & _)]; lia).
  assert (∀ n, 1 ≤ n → lastIndexed - 10 < n ≤ lastIndexed - d → agrees (g_answers g) (t_stored t) n) as Hag.
  { intros n Hn Hw. replace n with (lastIndexed - (lastIndexed - n)) by lia. apply H2; lia. }
  destruct (Z.ltb_spec 0 d).
  - destruct (handleReorg_spec (g_latest_ok g) (g_del g) (lastIndexed - d + 1) (t_stored t)) as (m & err & -> & Hm & _ & He);
      [lia|done|]. destruct err as [err|]; [right; split_and!; eauto|].
    left. exists d. split; [done|]. destruct (Z.ltb_spec 0 d); [|lia].
    rewrite He by done. replace (lastIndexed - d + 1 - 1) with (lastIndexed - d) by lia. split; [|done].
    intros n Hn Hw b Hb. rewrite lookup_upto in Hb. case_decide; [|done]. eapply Hag; [done|lia|done].
  - left. exists d. split; [done|]. assert (d = 0) as -> by lia. destruct (Z.ltb_spec 0 0); [lia|].
    rewrite Z.sub_0_r. split; [intros n Hn Hw; apply Hag; lia|]. by destruct t.
Qed.

Lemma standardTick_never_builds_on_stale_witness :
  let t := mkTick stale_store ∅ (mkSkip 0 0 0 0 false) in
  let r := standardTick (mkLoop 1 false) (mkReorgEnv new_fork true (λ _, NoFault))
             (mkEnv (λ n, if n <=? 6 then Some (mkRaw (10 + n) (9 + n) true) else None) (λ _, true) None (λ _, WOk)
                (λ _, NoFault) true true (Some 0) None true (λ _, NoFault)) 0 5 6 t in
  r.2 = 6 ∧ ((∃ d, 0 ≤ d ≤ 5) ∨ r.2 = 5).
Proof.
  cbv zeta. split; [vm_compute; reflexivity|].
  destruct (standardTick_never_builds_on_stale (mkLoop 1 false) (mkReorgEnv new_fork true (λ _, NoFault))
             (mkEnv (λ n, if n <=? 6 then Some (mkRaw (10 + n) (9 + n) true) else None) (λ _, true) None (λ _, WOk)
                (λ _, NoFault) true true (Some 0) None true (λ _, NoFault)) 0 5 6
             (mkTick stale_store ∅ (mkSkip 0 0 0 0 false)) ltac:(lia) stale_store_u64) as [(d & Hd & _)|(H & _)].
  - left. exists d. exact Hd.
  - right. exact H.
Defined.

(** C2: realtime leaves no hole behind its cursor: through any sequence of heads
    (jumps, reorgs, reverts that fail half way or lose their acknowledgement,
    unreadable stores, refused writes), every block above where it started and at
    or below the cursor is stored or recorded as missing, except after a failed
    revert, when that holds up to the highest block the revert left, until the
    next head moves the cursor down to it. *)
Theorem realtime_leaves_no_hole confirmations limit depth start heads r :
  0 ≤ confirmations → tracked start r → Forall (λ h, confirmations ≤ h_latest h < H64) heads →
  tracked start (foldl (λ r h, on_head confirmations limit depth h r) r heads).
Proof.
  intros Hc Ht Hh. revert r Ht. induction Hh as [|h heads Hl _ IH]; intros r Ht; [done|]. cbn [foldl].
  apply IH. unfold on_head, safe_block.
  assert (h_latest h -₆₄ confirmations = h_latest h - confirmations) as -> by u64_lia.
  destruct (jumpIfFarBehind _ _ _ _ r) as [r1 last] eqn:Ej.
  eapply (jump_tracked start) in Ej as (Ht1 & -> & _); [|exact Ht|lia].
  apply indexUpTo_tracked; [done|lia].
Qed.

(** A head whose revert loses an acknowledgement, then one that resumes. *)
Definition realtime_start : realtime :=
  mkRealtime 5 0 5 (mkTick stale_store ∅ (mkSkip 0 0 0 0 false)) 0 false.
Definition fork_env : env :=
  mkEnv (λ n, if n <=? 7 then Some (mkRaw (10 + n) (9 + n) true) else None) (λ _, true) None (λ _, WOk)
    (λ _, NoFault) true true (Some 0) None true (λ _, NoFault).
Definition fork_heads : list head_event :=
  [mkHead 7 (mkReorgEnv new_fork true (λ _, NoFault)) NoFault
     (mkReorgEnv new_fork true (λ n, if n =? 4 then AckLost else NoFault)) fork_env true;
   mkHead 8 (mkReorgEnv new_fork true (λ _, NoFault)) NoFault (mkReorgEnv new_fork true (λ _, NoFault)) fork_env true;
   mkHead 8 (mkReorgEnv new_fork true (λ _, NoFault)) NoFault (mkReorgEnv new_fork true (λ _, NoFault)) fork_env true].

Lemma realtime_leaves_no_hole_witness :
  tracked 0 (foldl (λ r h, on_head 1 0 0 h r) realtime_start fork_heads) ∧
  lastProcessedBlock (foldl (λ r h, on_head 1 0 0 h r) realtime_start fork_heads) = 7.
Proof.
  split; [|vm_compute; reflexivity].
  apply realtime_leaves_no_hole; [lia| |repeat constructor; cbn; lia].
  apply tracked_intro; cbn; [exact stale_store_u64|lia|reflexivity|].
  intros n Hn. left. assert (n = 1 ∨ n = 2 ∨ n = 3 ∨ n = 4 ∨ n = 5) as Hc by lia.
  destruct Hc as [->|[->|[->|[->| ->]]]]; eexists; vm_compute; reflexivity.
Defined.

(** The resume trusts the highest stored block.  A block another writer stores
    above the ones a failed revert deleted, before the next head, hides them: the
    cursor stays above blocks 3 and 4, stored nowhere and recorded nowhere. *)
Theorem resume_above_deleted_blocks :
  let failed := mkRealtime 5 0 5 (mkTick (upto 2 stale_store) ∅ (mkSkip 0 0 0 0 false)) 3 true in
  let filled := set_tick (mkTick (<[5 := mkHeader 15 14]> (upto 2 stale_store)) ∅ (mkSkip 0 0 0 0 false)) failed in
  let r := (resumeAfterFailedRevert true filled).1 in
  lastProcessedBlock r = 5 ∧ failedRevertFrom r = 0 ∧
  t_stored (rt r) !! 3 = None ∧ t_stored (rt r) !! 4 = None ∧ t_missing (rt r) = ∅.
Proof. vm_compute. split_and!; reflexivity. Qed.

(** With a head below the confirmations the safe block wraps around: realtime
    reports itself 2^64 - 1 blocks behind, which holds catch-up. *)
Theorem safe_block_wraps : safe_block 0 1 = 2 ^ 64 - 1.
Proof. reflexivity. Qed.
