(* ===== verification/StandardRetry.v ===== *)
(** * Retrying recorded blocks in standard mode:
    internal/indexer/standard_missing_retry.go

    A pass reads the lowest recorded ranges that are not paused and writes their
    blocks in order, at most [missingRetryBlocks] of them, each only when it fits
    between its stored neighbours.  The state is the table of recorded ranges
    ([MissingRanges.store]), the stored chain ([Reorg]) and the pauses kept in
    memory.  One clock reading stands for the several of a pass. *)

From S2P Require Import Prelude MissingRanges Reorg Prefetch.

Definition missingRetryBlocks : nat := 20.

Record missingAttempt := mkAttempt { failures : Z; nextTry : Z }.

Record retry_state := mkRetry {
  table : store; chain : chain_store;
  missingRetryAt : Z; missingBackoff : gmap Z missingAttempt; anyRecorded : bool }.

(** What the pass meets, per block number: the reads around a block, its fetch
    and its write ([w_env]), and the calls on the table. *)
Record pass_env := mkPass {
  has_ok : Z → bool; below_ok : Z → bool; above_ok : Z → bool; w_env : env;
  read_ok : bool; advance_fault : Z → fault }.

Definition retryMissingBlock (p : pass_env) (number : Z) (c : chain_store) : chain_store * bool :=
  if negb (has_ok p number) then (c, false) else
  match c !! number with
  | Some _ => (c, true)
  | None =>
      let f := fetchBlockAndReceipts (w_env p) number in
      match ferr f, raw f with
      | Some _, _ | None, None => (c, false)
      | None, Some r =>
          let fits_below :=
            if 0 <? number then
              if negb (below_ok p number) then false
              else match c !! (number - 1) with
                   | Some below => Hash below =? raw_parent r
                   | None => true
                   end
            else true in
          if negb fits_below then (c, false)
          else if negb (above_ok p number) then (c, false)
          else
            let fits_above := match c !! (number +₆₄ 1) with
                              | Some above => ParentHash above =? raw_hash r
                              | None => true
                              end in
            if negb fits_above then (c, false)
            else match write_block (w_env p) number r c with
                 | (c, None) => (c, true)
                 | (c, Some _) => (c, false)
                 end
      end
  end.

(** The blocks of one range, from [next] up: the rest of the budget, where it
    stopped, and whether a block failed. *)
Fixpoint retry_range (budget : nat) (p : pass_env) (lastIndexed to next : Z) (c : chain_store)
  : nat * Z * bool * chain_store :=
  match budget with
  | O => (O, next, false, c)
  | S budget =>
      if (next <=? to) && (next <=? lastIndexed) then
        match retryMissingBlock p next c with
        | (c, true) => retry_range budget p lastIndexed to (next +₆₄ 1) c
        | (c, false) => (budget, next, true, c)
        end
      else (S budget, next, false, c)
  end.

(** The pause doubles with each failure, up to 64 intervals. *)
Definition backOffMissing (now interval from block : Z) (m : gmap Z missingAttempt) : gmap Z missingAttempt :=
  let failed := match m !! from with Some a => failures a | None => 0 end + 1 in
  <[block := mkAttempt failed (now + Z.shiftl interval (Z.min (failed - 1) 6))]> (delete from m).

Definition pausedMissing (now : Z) (m : gmap Z missingAttempt) : list Z :=
  (filter (λ x, now < nextTry x.2) (map_to_list m)).*1.

(** [AdvanceMissingRange] as the pass meets it. *)
Definition advance_table (f : fault) (r : BlockRange) (next : Z) (s : store) : store :=
  match f, advance r next s with
  | Refused, _ | _, Err _ => s
  | _, Ok s' => s'
  end.

Fixpoint retry_ranges (ranges : list BlockRange) (budget : nat) (p : pass_env) (now interval lastIndexed : Z) (s : retry_state)
  : retry_state :=
  match ranges with
  | [] => s
  | r :: ranges =>
      if (lastIndexed <? FromNumber r) || (budget =? 0)%nat then s
      else
        let '(budget, next, failed, c) := retry_range budget p lastIndexed (ToNumber r) (FromNumber r) (chain s) in
        let m := if failed then backOffMissing now interval (FromNumber r) next (missingBackoff s)
                 else delete (FromNumber r) (missingBackoff s) in
        let t := if next =? FromNumber r then table s
                 else advance_table (advance_fault p (ID r)) r next (table s) in
        retry_ranges ranges budget p now interval lastIndexed
          (mkRetry t c (missingRetryAt s) m (anyRecorded s))
  end.

(** GetLowestMissingRanges on the table. *)
Definition lowest_ranges (limit : nat) (skip : list Z) (s : store) : list BlockRange :=
  take limit (merge_sort lowest_first
    (filter (λ r, FromNumber r ∉ i64 <$> skip)
       (clamp (history_from s) <$> filter (λ r, history_from s ≤ ToNumber r) (rows s)))).

Definition retryMissing (p : pass_env) (now interval lastIndexed : Z) (s : retry_state) : retry_state :=
  if negb (anyRecorded s) || (now <? missingRetryAt s) then s else
  let s := mkRetry (table s) (chain s) (now + interval) (missingBackoff s) (anyRecorded s) in
  let paused := pausedMissing now (missingBackoff s) in
  if negb (read_ok p) then s else
  let ranges := lowest_ranges missingRetryBlocks paused (table s) in
  if bool_decide (ranges = []) && bool_decide (paused = [])
  then mkRetry (table s) (chain s) (missingRetryAt s) ∅ false
  else retry_ranges ranges missingRetryBlocks p now interval lastIndexed s.

(** The query of [MissingRanges] is the one the pass runs. *)
Lemma lowest_ranges_query limit skip s o :
  (GetLowestMissingRanges (Z.of_nat limit) skip (mkWorld s o [])).2 = Ok (lowest_ranges limit skip s).
Proof.
  unfold GetLowestMissingRanges, query, statement, next_event. cbn.
  destruct (Z.ltb_spec (Z.of_nat limit) 0); [lia|]. cbn. by rewrite Nat2Z.id.
Qed.

(** ** The stored chain stays linked *)

Definition linked (c : chain_store) : Prop :=
  ∀ n a b, c !! n = Some a → c !! (n + 1) = Some b → ParentHash b = Hash a.

Lemma write_block_new e n r c c' err :
  write_block e n r c = (c', err) → c !! n = None →
  c' = c ∨ c' = <[n := mkHeader (raw_hash r) (raw_parent r)]> c.
Proof.
  unfold write_block. intros E Hn. rewrite Hn in E. destruct (e_write e n); injection E as <- <-; tauto.
Qed.

(** What a retried block may do to the store: nothing, or itself, fitting its
    neighbours. *)
Lemma retryMissingBlock_spec p n c c' b :
  0 ≤ n < W64 - 1 → retryMissingBlock p n c = (c', b) →
  (b = true → is_Some (c' !! n)) ∧
  (c' = c ∨ ∃ r, c !! n = None ∧ c' = <[n := mkHeader (raw_hash r) (raw_parent r)]> c ∧
     (∀ x, 0 < n → c !! (n - 1) = Some x → raw_parent r = Hash x) ∧
     (∀ x, c !! (n + 1) = Some x → ParentHash x = raw_hash r)).
Proof.
  intros Hn. unfold retryMissingBlock. destruct (has_ok p n); [|intros [= <- <-]; split; [done|by left]]. cbn [negb].
  destruct (c !! n) as [x|] eqn:Ec; [intros [= <- <-]; split; [by rewrite Ec|tauto]|].
  destruct (ferr _); [intros [= <- <-]; split; [done|by left]|]. destruct (raw _) as [r|]; [|intros [= <- <-]; split; [done|by left]].
  set (below := if 0 <? n then _ else true). destruct below eqn:Eb; [|intros [= <- <-]; split; [done|by left]]. cbn [negb].
  destruct (above_ok p n); [|intros [= <- <-]; split; [done|by left]]. cbn [negb].
  assert (n +₆₄ 1 = n + 1) as -> by u64_lia.
  set (above := match c !! (n + 1) with Some _ => _ | None => true end).
  destruct above eqn:Ea; [|intros [= <- <-]; split; [done|by left]]. cbn [negb].
  destruct (write_block (w_env p) n r c) as [c1 err] eqn:Ew.
  pose proof (write_block_new _ _ _ _ _ _ Ew Ec) as Hnew. apply write_block_spec in Ew as [_ Ew].
  assert (c1 = c ∨ ∃ r, c !! n = None ∧ c1 = <[n := mkHeader (raw_hash r) (raw_parent r)]> c ∧
     (∀ x, 0 < n → c !! (n - 1) = Some x → raw_parent r = Hash x) ∧
     (∀ x, c !! (n + 1) = Some x → ParentHash x = raw_hash r)) as Hres.
  { destruct Hnew as [->|Hnew]; [by left|right]. exists r. split_and!; [done|done| |].
    - intros x H0 Hx. subst below. revert Eb. destruct (Z.ltb_spec 0 n); [|lia].
      destruct (negb (below_ok p n)); [done|]. rewrite Hx. by intros ->%Z.eqb_eq.
    - intros x Hx. subst above. rewrite Hx in Ea. by apply Z.eqb_eq in Ea. }
  rewrite Ec in Hres. destruct err as [err|]; intros [= <- <-]; (split; [|exact Hres]); [done|].
  destruct Ew as (x & Hx & _). by rewrite Hx.
Qed.

Lemma linked_insert c n r :
  linked c → c !! n = None →
  (∀ x, c !! (n - 1) = Some x → raw_parent r = Hash x) →
  (∀ x, c !! (n + 1) = Some x → ParentHash x = raw_hash r) →
  linked (<[n := mkHeader (raw_hash r) (raw_parent r)]> c).
Proof.
  intros Hl Hn Hb Ha m a b H1 H2. apply lookup_insert_Some in H1, H2.
  destruct H1 as [[-> <-]|[H1 H1']], H2 as [[E <-]|[H2 H2']]; cbn.
  - lia.
  - by apply Ha.
  - apply Hb. by replace (n - 1) with m by lia.
  - by eapply Hl.
Qed.

(** The range loop: the store stays linked and only grows, and every block it
    moves past is stored. *)
Lemma retry_range_spec budget p last to next c budget' next' failed c' :
  0 ≤ next → to < W64 - 1 → linked c → (∀ n, is_Some (c !! n) → 0 ≤ n) →
  retry_range budget p last to next c = (budget', next', failed, c') →
  linked c' ∧ (∀ n, is_Some (c' !! n) → 0 ≤ n) ∧ next ≤ next' ≤ Z.max next (to + 1) ∧
  (∀ n, is_Some (c !! n) → is_Some (c' !! n)) ∧ (∀ n, next ≤ n < next' → is_Some (c' !! n)) ∧
  (budget' ≤ budget)%nat.
Proof.
  revert next c. induction budget as [|budget IH]; intros next c H0 Hto Hl Hp; cbn [retry_range].
  { intros [= <- <- <- <-]. split_and!; try done; lia. }
  destruct (_ && _) eqn:E; [|intros [= <- <- <- <-]; split_and!; try done; lia].
  apply andb_true_iff in E as [E _]. apply Z.leb_le in E.
  destruct (retryMissingBlock p next c) as [c1 b] eqn:Eb. apply retryMissingBlock_spec in Eb as [Hb Hc]; [|lia].
  assert (linked c1 ∧ (∀ n, is_Some (c1 !! n) → 0 ≤ n) ∧ ∀ n, is_Some (c !! n) → is_Some (c1 !! n)) as (Hl1 & Hp1 & Hs1).
  { destruct Hc as [->|(r & Hn & -> & Hbl & Hab)]; [done|]. split_and!.
    - apply linked_insert; [done|done| |done]. intros x Hx. apply Hbl; [|done].
      assert (0 ≤ next - 1) by (apply Hp; eauto). lia.
    - intros n Hx. destruct (decide (n = next)) as [->|]; [lia|]. rewrite lookup_insert_ne in Hx by done. by apply Hp.
    - intros n Hx. destruct (decide (n = next)) as [->|]; [rewrite lookup_insert_eq; eauto|]. by rewrite lookup_insert_ne. }
  destruct b.
  - assert (next +₆₄ 1 = next + 1) as -> by u64_lia. intros H. apply IH in H as (H1 & H2 & H3 & H4 & H5 & H6); [|lia|done..].
    split_and!; [done|done|lia|lia|auto| |lia]. intros n Hn. destruct (decide (n = next)) as [->|]; [auto|apply H5; lia].
  - intros [= <- <- <- <-]. split_and!; try done; lia.
Qed.

Lemma advance_table_ok f s x r next :
  table_ok s → x ∈ rows s → ID r = ID x → ToNumber r = ToNumber x → FromNumber x < next →
  table_ok (advance_table f r next s) ∧
  (∀ n, covers (rows s) n → covers (rows (advance_table f r next s)) n ∨ contains x n ∧ n < next) ∧
  (∀ n, covers (rows (advance_table f r next s)) n → covers (rows s) n) ∧
  (∀ y, ID y ≠ ID x → y ∈ rows s → y ∈ rows (advance_table f r next s)).
Proof.
  intros Hok Hx Hid Hto Hlt. unfold advance_table.
  destruct (advance r next s) as [s'|] eqn:E; [|destruct f; split_and!; auto].
  destruct (advance_ok s x r next s' Hok Hx Hid Hto Hlt E) as (H1 & _ & _ & H2).
  assert (∀ y, ID y ≠ ID x → y ∈ rows s → y ∈ rows s') as Hy.
  { intros y Hne Hy. revert E. unfold advance. rewrite Hid. repeat case_match; intros [= <-]; cbn.
    - apply list_elem_of_fmap. exists y. split; [|done]. by destruct (Z.eqb_spec (ID y) (ID x)).
    - apply list_elem_of_filter. split; [|done]. by apply Z.eqb_neq.
    - apply list_elem_of_filter. split; [|done]. by apply Z.eqb_neq. }
  destruct f; split_and!; auto; intros n Hn; try (by apply H2 in Hn); apply H2; auto.
Qed.

(** The rows a pass still has to work through. *)
Definition queued_rows (ranges : list BlockRange) (t : store) : Prop :=
  NoDup (ID <$> ranges) ∧
  Forall (λ r, 0 ≤ FromNumber r ∧ ToNumber r < H64 ∧ ∃ x, x ∈ rows t ∧ r = clamp (history_from t) x) ranges.

Lemma lowest_ranges_queued limit skip t :
  table_ok t → 0 ≤ history_from t → Forall (λ r, ToNumber r < H64) (rows t) →
  queued_rows (lowest_ranges limit skip t) t.
Proof.
  intros (Hid & _) Hh Hto. unfold lowest_ranges.
  set (l := clamp (history_from t) <$> filter (λ r, history_from t ≤ ToNumber r) (rows t)).
  assert (NoDup (ID <$> l)) as Hl.
  { unfold l. rewrite <-list_fmap_compose. eapply sublist_NoDup; [exact Hid|].
    change (ID ∘ clamp (history_from t)) with ID. apply fmap_sublist, sublist_filter. }
  set (k := take limit _).
  assert (∀ r, r ∈ k → r ∈ l) as Hin.
  { intros r Hr. assert (r ∈ merge_sort lowest_first (filter (λ r, FromNumber r ∉ i64 <$> skip) l)) as H.
    { eapply elem_of_sublist; [exact Hr|apply sublist_take]. }
    rewrite merge_sort_Permutation in H. by apply list_elem_of_filter in H as [_ ?]. }
  split.
  - eapply sublist_NoDup; [|apply fmap_sublist, sublist_take]. rewrite merge_sort_Permutation.
    eapply sublist_NoDup; [exact Hl|]. apply fmap_sublist, sublist_filter.
  - apply Forall_forall. intros r Hr. apply Hin, list_elem_of_fmap in Hr as (x & -> & Hx).
    apply list_elem_of_filter in Hx as [_ Hx]. rewrite Forall_forall in Hto. specialize (Hto x Hx).
    split_and!; [cbn; lia|done|eauto].
Qed.

Lemma advance_history f r next t : history_from (advance_table f r next t) = history_from t.
Proof. unfold advance_table, advance. by repeat case_match; simplify_eq/=. Qed.

Lemma queued_rows_tail r ranges t t' :
  queued_rows (r :: ranges) t → history_from t' = history_from t →
  (∀ y, ID y ≠ ID r → y ∈ rows t → y ∈ rows t') → queued_rows ranges t'.
Proof.
  intros [H1 H2] Hh Hy. rewrite fmap_cons in H1. apply NoDup_cons in H1 as [Hn H1]. split; [done|].
  apply Forall_cons in H2 as [_ H2]. apply Forall_forall. intros q Hq. rewrite Forall_forall in H2.
  destruct (H2 q Hq) as (E1 & E2 & x & Hx & E3). split_and!; [done..|]. exists x. rewrite Hh. split; [|done].
  apply Hy; [|done]. intros E. apply Hn, list_elem_of_fmap. exists q. split; [|done]. by rewrite E3, <-E.
Qed.

Definition sound_step (s s' : retry_state) : Prop :=
  linked (chain s') ∧ (∀ n, is_Some (chain s' !! n) → 0 ≤ n) ∧ table_ok (table s') ∧
  (∀ n, is_Some (chain s !! n) → is_Some (chain s' !! n)) ∧
  history_from (table s') = history_from (table s) ∧
  ∀ n, covers (rows (table s)) n →
    covers (rows (table s')) n ∨ is_Some (chain s' !! n) ∨ n < history_from (table s).

Lemma sound_trans a b c : sound_step a b → sound_step b c → sound_step a c.
Proof.
  intros (A1 & A2 & A3 & A4 & A5 & A6) (B1 & B2 & B3 & B4 & B5 & B6).
  split_and!; [done|done|done|auto|congruence|]. intros n Hn. destruct (A6 n Hn) as [H|[H|H]]; [|auto|auto].
  destruct (B6 n H) as [?|[?|H']]; [auto|auto|]. rewrite A5 in H'. auto.
Qed.

Lemma retry_ranges_sound ranges budget p now interval last s :
  linked (chain s) → (∀ n, is_Some (chain s !! n) → 0 ≤ n) → table_ok (table s) → queued_rows ranges (table s) →
  sound_step s (retry_ranges ranges budget p now interval last s).
Proof.
  revert budget s. induction ranges as [|r ranges IH]; intros budget s Hl Hp Ht Hq; cbn [retry_ranges].
  { split_and!; auto. }
  destruct (_ || _); [split_and!; auto|].
  destruct (retry_range budget p last (ToNumber r) (FromNumber r) (chain s)) as [[[b' next] failed] c] eqn:E.
  pose proof Hq as [_ Hq']. apply Forall_cons in Hq' as [(H0 & Hto & x & Hx & Ex) _].
  apply retry_range_spec in E as (E1 & E2 & E3 & E4 & E5 & _); [|lia|lia|done|done].
  set (t := if next =? FromNumber r then _ else _). set (m := if failed then _ else _).
  assert (history_from t = history_from (table s)) as Hh.
  { subst t. destruct (_ =? _); [done|apply advance_history]. }
  assert (table_ok t ∧ (∀ y, ID y ≠ ID r → y ∈ rows (table s) → y ∈ rows t) ∧
    ∀ n, covers (rows (table s)) n → covers (rows t) n ∨ is_Some (c !! n) ∨ n < history_from (table s)) as (Hok & Hy & Hc).
  { subst t. destruct (Z.eqb_spec next (FromNumber r)) as [|Hne]; [split_and!; auto|].
    assert (FromNumber x ≤ FromNumber r) by (rewrite Ex; cbn; lia).
    destruct (advance_table_ok (advance_fault p (ID r)) (table s) x r next) as (A1 & A2 & A3 & A4);
      [done|done|by rewrite Ex|by rewrite Ex|lia|].
    split_and!; [done|intros y Hy; apply A4; by rewrite Ex in Hy|]. intros n Hn. destruct (A2 n Hn) as [?|[Hc Hlt]]; [auto|].
    destruct (decide (FromNumber r ≤ n)); [right; left; apply E5; lia|]. right. right.
    unfold contains in Hc. rewrite Ex in n0. cbn in n0. lia. }
  eapply sound_trans; [|apply IH; cbn; [done|done|done|by eapply queued_rows_tail]].
  split_and!; cbn; auto.
Qed.

(** ** Properties *)

(** C23: a retry pass keeps the stored chain linked (each block's parent hash is the hash
    of the stored block below it), deletes no stored block, and takes a block off the
    record only once it is stored, or when it lies below the first block history is kept
    from (the part of a recorded range that retention has pruned goes with the range),
    whatever reads, fetches, writes and updates of the table fail. *)
Theorem retryMissing_fills p now interval lastIndexed s :
  linked (chain s) → (∀ n, is_Some (chain s !! n) → 0 ≤ n) → table_ok (table s) → 0 ≤ history_from (table s) →
  Forall (λ r, ToNumber r < H64) (rows (table s)) →
  let s' := retryMissing p now interval lastIndexed s in
  linked (chain s') ∧ table_ok (table s') ∧ (∀ n, is_Some (chain s !! n) → is_Some (chain s' !! n)) ∧
  ∀ n, covers (rows (table s)) n →
    covers (rows (table s')) n ∨ is_Some (chain s' !! n) ∨ n < history_from (table s).
Proof.
  intros Hl Hp Ht Hh Hto. cbv zeta. unfold retryMissing.
  destruct (negb (anyRecorded s) || _); [split_and!; auto|].
  destruct (negb (read_ok p)); [split_and!; auto|]. destruct (_ && _); [split_and!; auto|].
  set (s1 := mkRetry _ _ (now + interval) _ _).
  destruct (retry_ranges_sound (lowest_ranges missingRetryBlocks (pausedMissing now (missingBackoff s1)) (table s1))
    missingRetryBlocks p now interval lastIndexed s1) as (H1 & _ & H3 & H4 & _ & H6); [done..|by apply lowest_ranges_queued|].
  split_and!; auto.
Qed.

(** Block 3 fits, block 4's receipts are missing: the range shrinks to 4..5 and
    pauses. *)
Definition retry_sample : retry_state :=
  mkRetry (mkStore [mkRange 1 3 5] 2 ∅ 0 None)
    {[ 1 := mkHeader 101 100; 2 := mkHeader 102 101; 6 := mkHeader 106 105 ]} 0 ∅ true.
Definition retry_pass : pass_env :=
  mkPass (λ _, true) (λ _, true) (λ _, true)
    (mkEnv (λ n, Some (mkRaw (100 + n) (99 + n) false)) (λ n, negb (n =? 4)) None (λ _, WOk) (λ _, NoFault)
       true true (Some 0) None true (λ _, NoFault)) true (λ _, NoFault).

Lemma retryMissing_fills_witness :
  let s' := retryMissing retry_pass 10 5 6 retry_sample in
  rows (table s') = [mkRange 1 4 5] ∧ linked (chain s') ∧ is_Some (chain s' !! 3) ∧
  (nextTry <$> missingBackoff s' !! 4) = Some 15.
Proof.
  assert (linked (chain retry_sample)) as Hl.
  { intros n a b Ha Hb. cbn in Ha, Hb.
    rewrite !lookup_insert_Some, lookup_singleton_Some in Ha.
    rewrite !lookup_insert_Some, lookup_singleton_Some in Hb.
    destruct Ha as [[<- <-]|[? [[<- <-]|[? [<- <-]]]]], Hb as [[? <-]|[? [[? <-]|[? [? <-]]]]]; cbn; lia. }
  destruct (retryMissing_fills retry_pass 10 5 6 retry_sample) as (H & _); [done| | |cbn; lia| |].
  - intros n Hn. assert (n ∈ dom (chain retry_sample)) as Hd by (by apply elem_of_dom).
    unfold retry_sample in Hd. cbn in Hd. rewrite !dom_insert_L, dom_singleton_L in Hd. set_solver by lia.
  - unfold table_ok. cbn. split_and!; [apply NoDup_singleton|apply NoDup_singleton|by repeat constructor|by repeat constructor].
  - by repeat constructor.
  - cbv zeta. split_and!; [vm_compute; reflexivity|exact H|eexists; vm_compute; reflexivity|vm_compute; reflexivity].
Defined.

(** The pause after [k] failures in a row at the same block: the interval doubled
    [k - 1] times, at most 64 intervals. *)
Theorem backOffMissing_doubles now interval from block m :
  0 ≤ interval →
  match backOffMissing now interval from block m !! block with
  | Some a => failures a = (match m !! from with Some x => failures x | None => 0 end) + 1 ∧
              (1 ≤ failures a → nextTry a = now + interval * 2 ^ Z.min (failures a - 1) 6)
  | None => False
  end.
Proof.
  intros Hi. unfold backOffMissing. rewrite lookup_insert_eq. cbn. split; [done|].
  intros Hf. rewrite Z.shiftl_mul_pow2 by lia. done.
Qed.
