(* ===== verification/CallTrace.v ===== *)
(** * Call traces and the contracts created inside them:
    internal/rpc/trace.go and internal/indexer/internal_creations.go

    A trace is a tree of call frames.  [FlattenCallFrame] lists it in pre-order
    with a textual address per frame (the child indices joined by commas), and
    [internalCreations] works on that list alone: it looks frames up by the text
    of their address.  [live] is what it means on the tree. *)

From S2P Require Import Prelude GoStrings.

Inductive CallFrame := Frame {
  FType : gostring; FFrom : gostring; FTo : gostring; FValue : option Z;
  FGas : Z; FGasUsed : Z; FInput : gostring; FOutput : gostring; FError : gostring;
  Calls : list CallFrame }.

Section FrameInd.
Context (P : CallFrame → Prop).
Context (Hframe : ∀ t f to v g gu i o e cs, Forall P cs → P (Frame t f to v g gu i o e cs)).
Fixpoint CallFrame_ind' (f : CallFrame) : P f :=
  match f with
  | Frame t fr to v g gu i o e cs =>
      Hframe t fr to v g gu i o e cs
        ((fix all cs : Forall P cs :=
            match cs with
            | [] => Forall_nil_2 P
            | c :: cs => Forall_cons_2 P c cs (CallFrame_ind' c) (all cs)
            end) cs)
  end.
End FrameInd.

Record InternalTransaction := mkInternal {
  TxHash : gostring; BlockNumber : Z; TraceAddress : gostring; From : gostring; To : option gostring;
  Value : gostring; Gas : option Z; GasUsed : option Z; Input : option gostring; Output : option gostring;
  CallType : gostring; Error : option gostring; Timestamp : option Z }.

Definition Itoa (z : Z) : gostring := Text 10 z.

(** strings.Join(parts, ",") *)
Fixpoint join (parts : list gostring) : gostring :=
  match parts with
  | [] => []
  | [s] => s
  | s :: parts => s ++ $"," ++ join parts
  end.

Definition traceAddr (path : list Z) : gostring := join (Itoa <$> path).

Definition optional (s : gostring) : option gostring := if bool_decide (s = []) then None else Some s.
Definition optional_data (s : gostring) : option gostring :=
  if bool_decide (s = []) || bool_decide (s = $"0x") then None else Some s.
Definition optional_u64 (z : Z) : option Z := if 0 <? z then Some z else None.

Definition call_type (f : CallFrame) : gostring :=
  let t := ToLower (FType f) in
  if bool_decide (t ∈ [$"call"; $"delegatecall"; $"staticcall"; $"create"; $"create2"]) then t else $"call".

(** The row of one frame. *)
Definition row (txHash : gostring) (blockNumber : Z) (timestamp : option Z) (path : list Z) (f : CallFrame)
  : InternalTransaction :=
  mkInternal txHash blockNumber (traceAddr path) (FFrom f) (optional (FTo f))
    (match FValue f with Some v => Text 10 v | None => $"0" end)
    (optional_u64 (FGas f)) (optional_u64 (FGasUsed f))
    (optional_data (FInput f)) (optional_data (FOutput f)) (call_type f) (optional (FError f)) timestamp.

Section Flatten.
Context (txHash : gostring) (blockNumber : Z) (timestamp : option Z).

Fixpoint flattenCallFrameRecursive (path : list Z) (f : CallFrame) : list InternalTransaction :=
  row txHash blockNumber timestamp path f ::
  (fix children (i : Z) (cs : list CallFrame) : list InternalTransaction :=
     match cs with
     | [] => []
     | c :: cs => flattenCallFrameRecursive (path ++ [i]) c ++ children (i + 1) cs
     end) 0 (Calls f).

Definition FlattenCallFrame (f : CallFrame) : list InternalTransaction := flattenCallFrameRecursive [] f.
End Flatten.

(** ** internal_creations.go *)

Definition key (tx addr : gostring) : gostring := tx ++ $"/" ++ addr.

Definition failed_keys (frames : list InternalTransaction) : gset gostring :=
  list_to_set ((λ f, key (TxHash f) (TraceAddress f)) <$> filter (λ f, is_Some (Error f)) frames).

Definition comma : byte := x2c.

(** The loop from the last byte of the address down to the second. *)
Definition anyEnclosingFailed (failed : gset gostring) (tx traceAddress : gostring) : bool :=
  existsb (λ i, bool_decide (traceAddress !! i = Some comma) &&
                bool_decide (key tx (take i traceAddress) ∈ failed))
          (rev (seq 1 (length traceAddress - 1))).

Definition is_creation (f : InternalTransaction) : bool :=
  (bool_decide (CallType f = $"create") || bool_decide (CallType f = $"create2")) &&
  negb (bool_decide (TraceAddress f = [])) && bool_decide (is_Some (To f)) && bool_decide (Error f = None).

Definition internalCreations (frames : list InternalTransaction) : list InternalTransaction :=
  let failed := failed_keys frames in
  filter (λ f, is_creation f && negb (bool_decide (key (TxHash f) [] ∈ failed)) &&
               negb (anyEnclosingFailed failed (TxHash f) (TraceAddress f)) = true) frames.

(** ** The meaning on the tree *)

Definition create_frame (f : CallFrame) : bool :=
  bool_decide (ToLower (FType f) = $"create") || bool_decide (ToLower (FType f) = $"create2").

(** The creations that took effect: only successful frames are entered. *)
Fixpoint live (path : list Z) (f : CallFrame) : list (list Z * CallFrame) :=
  if bool_decide (FError f = []) then
    (if create_frame f && negb (bool_decide (path = [])) && negb (bool_decide (FTo f = [])) then [(path, f)] else []) ++
    (fix children (i : Z) (cs : list CallFrame) : list (list Z * CallFrame) :=
       match cs with
       | [] => []
       | c :: cs => live (path ++ [i]) c ++ children (i + 1) cs
       end) 0 (Calls f)
  else [].

(** ** trace.go: which failures fail a fetch *)

Inductive trace_err :=
| ErrNotTraced                        (* the node answered without a trace *)
| TraceTimedOut                       (* its error entry says timeout *)
| RPCError (code : Z) (msg : gostring)
| NoAnswer.                           (* transport, cancelled context *)

Definition rateLimited : Z := -32005.
Definition notRefusalSignals : list gostring := [$"timeout"; $"deadline"; $"rate limit"; $"too many requests"].
Definition missingStateSignals : list gostring := [$"state"; $"missing trie node"].
Definition methodAbsentSignals : list gostring :=
  [$"method not found"; $"not supported"; $"does not exist"; $"not available"; $"unsupported method"].

Definition NodeRefused (e : trace_err) : bool :=
  match e with
  | ErrNotTraced => true
  | RPCError code msg =>
      if code =? rateLimited then false
      else negb (existsb (Contains (ToLower msg)) notRefusalSignals)
  | TraceTimedOut | NoAnswer => false
  end.

Definition noTrace (msg : gostring) : trace_err :=
  if Contains (ToLower msg) $"timeout" then TraceTimedOut else ErrNotTraced.

Definition TracingAbsent (msg : gostring) : bool :=
  let msg := ToLower msg in
  if existsb (Contains msg) missingStateSignals then false else existsb (Contains msg) methodAbsentSignals.

(** [CheckTracingSupport], given the head and the answer to the probe. *)
Definition probe_block (head : Z) : Z := if 3 <? head then head -₆₄ 3 else head.
Definition CheckTracingSupport (head : option Z) (probe : Z → option gostring) : res unit bool :=
  match head with
  | None => Err tt
  | Some h => match probe (probe_block h) with
              | None => Ok true
              | Some msg => if TracingAbsent msg then Ok false else Err tt
              end
  end.

Record TraceBlockResult := mkTraceResult { tr_result : option CallFrame; tr_error : gostring }.

Definition traced (frame : option CallFrame) : bool :=
  match frame with Some f => negb (bool_decide (FType f = [])) | None => false end.

Inductive traceMode := skipFailures | failOnAny | skipRefusals.
#[export] Instance traceMode_eq_dec : EqDecision traceMode.
Proof. solve_decision. Defined.

Definition fails (m : traceMode) (e : trace_err) : bool :=
  match m with failOnAny => true | skipRefusals => negb (NodeRefused e) | skipFailures => false end.

Definition without_root (l : list InternalTransaction) : list InternalTransaction :=
  if (1 <? length l)%nat then drop 1 l else [].

Section Fetch.
Context (blockNumber timestamp : Z) (mode : traceMode).

Definition flatten_tx (txHash : gostring) (f : CallFrame) : list InternalTransaction :=
  without_root (FlattenCallFrame txHash blockNumber (Some timestamp) f).

(** One transaction of a block trace: its frames, or why it has none. *)
Definition block_entry (traces : gmap gostring TraceBlockResult) (txHash : gostring) : res trace_err CallFrame :=
  match traces !! txHash with
  | None => Err (noTrace [])
  | Some e =>
      match tr_result e with
      | Some f => if negb (bool_decide (tr_error e = [])) || negb (traced (Some f)) then Err (noTrace (tr_error e)) else Ok f
      | None => Err (noTrace (tr_error e))
      end
  end.

(** debug_traceTransaction: a frame without a call type is no trace. *)
Definition tx_entry (answer : gostring → res trace_err (option CallFrame)) (txHash : gostring) : res trace_err CallFrame :=
  match answer txHash with
  | Err e => Err e
  | Ok None => Err ErrNotTraced
  | Ok (Some f) => if traced (Some f) then Ok f else Err ErrNotTraced
  end.

Fixpoint collect (entry : gostring → res trace_err CallFrame) (txs : list gostring) : res trace_err (list InternalTransaction) :=
  match txs with
  | [] => Ok []
  | tx :: txs =>
      match entry tx with
      | Err e => if fails mode e then Err e else collect entry txs
      | Ok f => try rest := collect entry txs in Ok (flatten_tx tx f ++ rest)
      end
  end.

(** [traces] is the answer to debug_traceBlockByNumber, [answer] those to
    debug_traceTransaction, and [order] the order the per-transaction goroutines
    finish in. *)
Definition fetchTraces (traces : option (gmap gostring TraceBlockResult))
    (answer : gostring → res trace_err (option CallFrame)) (order txHashes : list gostring)
  : res trace_err (list InternalTransaction) :=
  if bool_decide (txHashes = []) then Ok []
  else match traces with
       | Some t => if bool_decide (t = ∅) then collect (tx_entry answer) order else collect (block_entry t) txHashes
       | None => collect (tx_entry answer) order
       end.
End Fetch.

(** ** Addresses as text *)

Lemma split_at_sep {A} (c : A) (a1 a2 l1 l2 : list A) :
  c ∉ a1 → c ∉ a2 → a1 ++ c :: l1 = a2 ++ c :: l2 → a1 = a2 ∧ l1 = l2.
Proof.
  revert a2. induction a1 as [|x a1 IH]; intros [|y a2] H1 H2 E; cbn in E; simplify_eq/=.
  - done.
  - set_solver.
  - set_solver.
  - destruct (IH a2) as [-> ->]; [set_solver..|done|done].
Qed.

Lemma Itoa_no_comma z : 0 ≤ z → comma ∉ Itoa z.
Proof.
  intros Hz. unfold Itoa, Text. destruct (Z.ltb_spec z 0); [lia|]. unfold FormatBase.
  intros (d & Hd & Hin)%list_elem_of_fmap.
  pose proof (digits_range 10 ltac:(lia) (S (Z.to_nat (Z.log2 z))) z Hz) as HF. rewrite Forall_forall in HF.
  specialize (HF d Hin). apply (f_equal byte_Z) in Hd. unfold hexdigit in Hd.
  destruct (Z.ltb_spec d 10); [|lia]. rewrite byte_Z_of_small in Hd by lia. change (byte_Z comma) with 44 in Hd. lia.
Qed.

Lemma Itoa_nonempty z : 0 ≤ z → Itoa z ≠ [].
Proof. intros Hz. unfold Itoa, Text. destruct (Z.ltb_spec z 0); [lia|]. apply FormatBase_nonempty; lia. Qed.

Lemma Itoa_inj x y : 0 ≤ x → 0 ≤ y → Itoa x = Itoa y → x = y.
Proof.
  intros Hx Hy. unfold Itoa, Text. destruct (Z.ltb_spec x 0), (Z.ltb_spec y 0); [lia..|].
  apply FormatBase_inj; [lia|done|done].
Qed.

Lemma join_cons s p : p ≠ [] → join (s :: p) = s ++ $"," ++ join p.
Proof. by destruct p. Qed.

Lemma join_snoc p s : p ≠ [] → join (p ++ [s]) = join p ++ $"," ++ s.
Proof.
  induction p as [|x p IH]; [done|]. intros _. destruct p as [|y p]; [done|].
  change ((x :: y :: p) ++ [s]) with (x :: ((y :: p) ++ [s])). rewrite join_cons by done.
  rewrite IH by done. rewrite (join_cons x (y :: p)) by done. by rewrite <-!(assoc_L (++)).
Qed.

Notation path_ok := (Forall (λ i, 0 ≤ i)).

Lemma traceAddr_nil p : path_ok p → traceAddr p = [] → p = [].
Proof.
  intros Hp. destruct Hp as [|x p Hx Hp]; [done|]. unfold traceAddr. rewrite fmap_cons.
  pose proof (Itoa_nonempty x Hx). destruct p as [|y p]; [done|]. rewrite fmap_cons, join_cons by done.
  by destruct (Itoa x).
Qed.

Lemma traceAddr_inj p q : path_ok p → path_ok q → traceAddr p = traceAddr q → p = q.
Proof.
  intros Hp. revert q. induction Hp as [|x p Hx Hp IH]; intros q Hq E.
  { symmetry. by apply traceAddr_nil. }
  destruct Hq as [|y q Hy Hq]; [by apply traceAddr_nil in E; [|by constructor]|].
  unfold traceAddr in E, IH. rewrite !fmap_cons in E.
  pose proof (Itoa_no_comma x Hx) as Hcx. pose proof (Itoa_no_comma y Hy) as Hcy.
  destruct (decide (p = [])) as [->|Hpn], (decide (q = [])) as [->|Hqn].
  - f_equal. by apply Itoa_inj.
  - exfalso. rewrite (join_cons (Itoa y)) in E by (by destruct q). cbn in E. rewrite E in Hcx.
    apply Hcx. set_solver.
  - exfalso. rewrite (join_cons (Itoa x)) in E by (by destruct p). cbn in E. rewrite <-E in Hcy.
    apply Hcy. set_solver.
  - rewrite !join_cons in E by (by destruct p, q). cbn in E.
    apply (split_at_sep comma) in E as [E1 E2]; [|done|done].
    f_equal; [by apply Itoa_inj|]. by apply IH.
Qed.

Definition proper_prefix (q p : list Z) : Prop := ∃ r, r ≠ [] ∧ p = q ++ r.

(** Cutting the text of an address at its commas gives the texts of the
    enclosing frames below the root. *)
Lemma traceAddr_cuts p s :
  path_ok p →
  (∃ i, (1 ≤ i)%nat ∧ traceAddr p !! i = Some comma ∧ take i (traceAddr p) = s) ↔
  ∃ q, q ≠ [] ∧ proper_prefix q p ∧ s = traceAddr q.
Proof.
  revert s. induction p as [|x p IH] using rev_ind; intros s Hp.
  { split; [by intros (i & _ & ? & _)|]. intros (q & Hq & (r & Hr & E) & _). by destruct q, r. }
  apply Forall_app in Hp as [Hp Hx]. rewrite Forall_singleton in Hx.
  pose proof (Itoa_no_comma x Hx) as Hcx.
  destruct (decide (p = [])) as [->|Hpn].
  { cbn. split.
    - intros (i & _ & Hi & _). exfalso. apply Hcx. by eapply list_elem_of_lookup_2.
    - intros (q & Hq & (r & Hr & E) & _). destruct q as [|? [|]]; [done|..]; destruct r; simplify_eq/=; done. }
  assert (traceAddr (p ++ [x]) = traceAddr p ++ comma :: Itoa x) as Et.
  { unfold traceAddr. rewrite fmap_app. cbn. rewrite join_snoc by (by destruct p). done. }
  rewrite Et. split.
  - intros (i & Hi1 & Hi & Hs). destruct (Nat.lt_trichotomy i (length (traceAddr p))) as [Hlt|[->|Hgt]].
    + rewrite lookup_app_l in Hi by done. rewrite take_app_le in Hs by lia.
      destruct (proj1 (IH s Hp)) as (q & Hq & (r & Hr & ->) & Hs'); [eauto|].
      exists q. split_and!; [done| |done]. exists (r ++ [x]). split; [by destruct r|by rewrite (assoc_L (++))].
    + rewrite take_app_length in Hs. exists p. split_and!; [done| |done]. by exists [x].
    + exfalso. rewrite lookup_app_r in Hi by lia. apply Hcx.
      destruct (i - length (traceAddr p))%nat as [|k] eqn:Ek; [lia|]. by eapply list_elem_of_lookup_2.
  - intros (q & Hq & (r & Hr & E) & ->).
    destruct r as [|y r _] using rev_ind; [done|]. rewrite (assoc_L (++)) in E. apply app_inj_tail in E as [E <-].
    destruct (decide (r = [])) as [->|Hrn].
    + rewrite app_nil_r in E. subst q. exists (length (traceAddr p)). split_and!.
      * pose proof (traceAddr_nil p Hp). destruct (traceAddr p); [tauto|cbn; lia].
      * by rewrite list_lookup_middle.
      * apply take_app_length.
    + destruct (proj2 (IH (traceAddr q) Hp)) as (i & Hi1 & Hi & Hs).
      { exists q. split_and!; [done| |done]. by exists r. }
      exists i. apply lookup_lt_Some in Hi as Hlt. split_and!; [done|by rewrite lookup_app_l|].
      rewrite take_app_le by lia. done.
Qed.

Lemma anyEnclosingFailed_spec failed tx p :
  path_ok p →
  anyEnclosingFailed failed tx (traceAddr p) = true ↔
  ∃ q, q ≠ [] ∧ proper_prefix q p ∧ key tx (traceAddr q) ∈ failed.
Proof.
  intros Hp. unfold anyEnclosingFailed. rewrite existsb_exists. split.
  - intros (i & Hi & H). apply andb_true_iff in H as [H1 H2].
    apply bool_decide_eq_true in H1, H2. apply in_rev in Hi. rewrite in_seq in Hi.
    destruct (proj1 (traceAddr_cuts p (take i (traceAddr p)) Hp)) as (q & Hq & Hpre & E);
      [exists i; split_and!; [lia|done|done]|].
    exists q. rewrite <-E. done.
  - intros (q & Hq & Hpre & Hk).
    destruct (proj2 (traceAddr_cuts p (traceAddr q) Hp)) as (i & Hi1 & Hi & Hs); [by eauto|].
    exists i. split.
    + apply in_rev. rewrite rev_involutive, in_seq. apply lookup_lt_Some in Hi. lia.
    + rewrite andb_true_iff, !bool_decide_eq_true, Hs. done.
Qed.

(** ** The list and the tree *)

(** The children of a frame, with their index. *)
Fixpoint kids {A} (g : Z → CallFrame → list A) (i : Z) (cs : list CallFrame) : list A :=
  match cs with
  | [] => []
  | c :: cs => g i c ++ kids g (i + 1) cs
  end.

Fixpoint nodes (path : list Z) (f : CallFrame) : list (list Z * CallFrame) :=
  (path, f) ::
  (fix children (i : Z) (cs : list CallFrame) : list (list Z * CallFrame) :=
     match cs with
     | [] => []
     | c :: cs => nodes (path ++ [i]) c ++ children (i + 1) cs
     end) 0 (Calls f).

Fixpoint node_at (p : list Z) (f : CallFrame) : option CallFrame :=
  match p with
  | [] => Some f
  | i :: p => c ← Calls f !! Z.to_nat i; node_at p c
  end.

Lemma nodes_unfold path f : nodes path f = (path, f) :: kids (λ i c, nodes (path ++ [i]) c) 0 (Calls f).
Proof.
  destruct f as [t fr to v g gu i o e cs]. cbn [nodes Calls]. f_equal. generalize 0.
  induction cs as [|c cs IH]; intros k; cbn; [done|]. by rewrite IH.
Qed.

Lemma live_unfold path f :
  live path f =
  if bool_decide (FError f = []) then
    (if create_frame f && negb (bool_decide (path = [])) && negb (bool_decide (FTo f = [])) then [(path, f)] else []) ++
    kids (λ i c, live (path ++ [i]) c) 0 (Calls f)
  else [].
Proof.
  destruct f as [t fr to v g gu i o e cs]. cbn [live Calls FError FTo]. case_bool_decide; [|done]. f_equal. generalize 0.
  induction cs as [|c cs IH]; intros k; cbn; [done|]. by rewrite IH.
Qed.

Lemma flatten_nodes tx bn ts path f :
  flattenCallFrameRecursive tx bn ts path f = (λ x, row tx bn ts x.1 x.2) <$> nodes path f.
Proof.
  revert path. induction f as [t fr to v g gu i o e cs IH] using CallFrame_ind'; intros path.
  cbn [flattenCallFrameRecursive nodes Calls fmap list_fmap]. f_equal. generalize 0.
  induction IH as [|c cs Hc _ IH]; intros k; [done|]. rewrite fmap_app, Hc, IH. done.
Qed.

Lemma elem_kids {A} (g : Z → CallFrame → list A) i cs x :
  0 ≤ i → x ∈ kids g i cs ↔ ∃ k c, i ≤ k ∧ cs !! Z.to_nat (k - i) = Some c ∧ x ∈ g k c.
Proof.
  revert i. induction cs as [|c cs IH]; intros i Hi; cbn [kids].
  { split; [by intros ?%not_elem_of_nil|]. by intros (k & c & _ & ? & _). }
  rewrite elem_of_app, IH by lia. split.
  - intros [H|(k & c' & Hk & Hc & Hx)].
    + exists i, c. split_and!; [lia| |done]. by replace (Z.to_nat (i - i)) with 0%nat by lia.
    + exists k, c'. split_and!; [lia| |done]. by replace (Z.to_nat (k - i)) with (S (Z.to_nat (k - (i + 1)))) by lia.
  - intros (k & c' & Hk & Hc & Hx). destruct (decide (k = i)) as [->|].
    + replace (Z.to_nat (i - i)) with 0%nat in Hc by lia. injection Hc as <-. by left.
    + right. exists k, c'. split_and!; [lia| |done].
      by replace (Z.to_nat (k - i)) with (S (Z.to_nat (k - (i + 1)))) in Hc by lia.
Qed.

Lemma elem_nodes path f q g :
  (q, g) ∈ nodes path f ↔ ∃ s, q = path ++ s ∧ path_ok s ∧ node_at s f = Some g.
Proof.
  revert path. induction f as [t fr to v gs gu i o e cs IH] using CallFrame_ind'; intros path.
  rewrite nodes_unfold, elem_of_cons, elem_kids by lia. cbn [Calls]. rewrite Forall_forall in IH. split.
  - intros [[= -> ->]|(k & c & Hk & Hc & Hx)].
    + exists []. by rewrite app_nil_r.
    + rewrite Z.sub_0_r in Hc. assert (c ∈ cs) as Hin by (by eapply list_elem_of_lookup_2).
      apply IH in Hx as (s & -> & Hs & Hn); [|done]. exists (k :: s). rewrite <-(assoc_L (++)).
      split_and!; [done|by constructor|]. cbn. by rewrite Hc.
  - intros (s & -> & Hs & Hn). destruct Hs as [|k s Hk Hs].
    + injection Hn as <-. left. by rewrite app_nil_r.
    + right. cbn in Hn. destruct (cs !! Z.to_nat k) as [c|] eqn:Ec; [|done]. cbn in Hn.
      exists k, c. rewrite Z.sub_0_r. split_and!; [done|done|]. apply IH; [by eapply list_elem_of_lookup_2|].
      exists s. split_and!; [|done|done]. by rewrite <-(assoc_L (++)).
Qed.

Lemma node_at_snoc p i root f c :
  node_at p root = Some f → Calls f !! Z.to_nat i = Some c → node_at (p ++ [i]) root = Some c.
Proof.
  revert root. induction p as [|k p IH]; intros root Hp Hc; cbn in *.
  - injection Hp as <-. by rewrite Hc.
  - destruct (Calls root !! Z.to_nat k) as [x|]; [|done]. cbn in *. by apply IH.
Qed.

Lemma filter_kids {A} (P : A → Prop) `{!∀ x, Decision (P x)} (g h : Z → CallFrame → list A) i cs :
  0 ≤ i → (∀ k c, i ≤ k → cs !! Z.to_nat (k - i) = Some c → filter P (g k c) = h k c) →
  filter P (kids g i cs) = kids h i cs.
Proof.
  revert i. induction cs as [|c cs IH]; intros i Hi Hg; cbn [kids]; [done|].
  rewrite filter_app, (Hg i c), IH; [done|lia| |lia|].
  - intros k c' Hk Hc. apply Hg; [lia|]. by replace (Z.to_nat (k - i)) with (S (Z.to_nat (k - (i + 1)))) by lia.
  - by replace (Z.to_nat (i - i)) with 0%nat by lia.
Qed.

Section Tree.
Context (root : CallFrame) (blockedb : list Z → bool).

Definition failed_at (q : list Z) : Prop := ∃ g, node_at q root = Some g ∧ FError g ≠ [].
Definition blocked (p : list Z) : Prop := ∃ q, proper_prefix q p ∧ failed_at q.

Definition keep (x : list Z * CallFrame) : bool :=
  create_frame x.2 && negb (bool_decide (x.1 = [])) && negb (bool_decide (FTo x.2 = [])) &&
  bool_decide (FError x.2 = []) && negb (blockedb x.1).

Context (Hblocked : ∀ q, path_ok q → q ≠ [] → blockedb q = true ↔ blocked q).

(** Keeping the creations no enclosing frame of which failed is walking the
    tree through its successful frames. *)
Lemma keep_live p f :
  path_ok p → node_at p root = Some f → ¬ blocked p → filter (λ x, keep x = true) (nodes p f) = live p f.
Proof using Hblocked.
  revert p. induction f as [t fr to v gs gu i o e cs IH] using CallFrame_ind'; intros p Hp Hn Hnb.
  rewrite nodes_unfold, live_unfold. cbn [Calls FError FTo]. rewrite filter_cons.
  assert (p ≠ [] → blockedb p = false) as Hbp.
  { intros Hpn. apply not_true_iff_false. rewrite Hblocked by done. done. }
  destruct (bool_decide (e = [])) eqn:Ee.
  - assert (filter (λ x, keep x = true) (kids (λ i c, nodes (p ++ [i]) c) 0 cs) = kids (λ i c, live (p ++ [i]) c) 0 cs) as Hk.
    { apply filter_kids; [lia|]. intros k c Hk0 Hc. rewrite Z.sub_0_r in Hc. rewrite Forall_forall in IH.
      apply IH; [by eapply list_elem_of_lookup_2| | |].
      - apply Forall_app. split; [done|by apply Forall_singleton].
      - by eapply node_at_snoc.
      - intros (q & (r & Hr & E) & Hq). destruct r as [|y r _] using rev_ind; [done|].
        rewrite (assoc_L (++)) in E. apply app_inj_tail in E as [E _].
        destruct (decide (r = [])) as [->|Hrn].
        + rewrite app_nil_r in E. subst q. destruct Hq as (g & Hg & Hge). rewrite Hn in Hg. injection Hg as <-.
          apply bool_decide_eq_true in Ee. done.
        + apply Hnb. exists q. split; [by exists r|done]. }
    rewrite Hk. set (f := Frame t fr to v gs gu i o e cs).
    assert (keep (p, f) = create_frame f && negb (bool_decide (p = [])) && negb (bool_decide (to = []))) as Ek.
    { unfold keep. cbn [fst snd FTo FError f]. rewrite Ee, andb_true_r.
      destruct (create_frame _), (bool_decide (p = [])) eqn:Ep, (bool_decide (to = [])); try done.
      apply bool_decide_eq_false in Ep. cbn. by rewrite (Hbp Ep). }
    rewrite <-Ek. case_decide as Hd; [by rewrite Hd|]. apply not_true_is_false in Hd. by rewrite Hd.
  - case_decide as Hkeep.
    { exfalso. unfold keep in Hkeep. cbn in Hkeep. rewrite Ee, andb_false_r in Hkeep. done. }
    apply filter_none. intros [q g] Hq Hkq. apply elem_kids in Hq as (k & c & Hk0 & Hc & Hq); [|lia].
    apply elem_nodes in Hq as (s & -> & Hs & _).
    unfold keep in Hkq. cbn [fst] in Hkq. apply andb_true_iff in Hkq as [_ Hkq]. apply negb_true_iff in Hkq.
    apply not_true_iff_false in Hkq. apply Hkq, Hblocked; [|by destruct p|].
    + apply Forall_app. split; [|done]. apply Forall_app. split; [done|by apply Forall_singleton].
    + exists p. split; [exists (k :: s); split; [done|by rewrite <-(assoc_L (++))]|].
      eexists. split; [exact Hn|]. cbn. by apply bool_decide_eq_false in Ee.
Qed.
End Tree.

(** ** A block's frames *)

Definition slash : byte := x2f.

Lemma key_inj tx tx' a a' : slash ∉ tx → slash ∉ tx' → key tx a = key tx' a' → tx = tx' ∧ a = a'.
Proof. apply split_at_sep. Qed.

Lemma optional_some s : is_Some (optional s) ↔ s ≠ [].
Proof. unfold optional. case_bool_decide; split; done. Qed.

Lemma call_type_create f : (call_type f = $"create" ∨ call_type f = $"create2") ↔ create_frame f = true.
Proof.
  unfold call_type, create_frame. rewrite orb_true_iff, !bool_decide_eq_true.
  case_bool_decide as H; [done|]. split; [by intros [?|?]|]. intros [E|E]; exfalso; apply H; rewrite E; set_solver.
Qed.

Lemma is_creation_row tx bn ts q g :
  path_ok q →
  is_creation (row tx bn ts q g) =
  create_frame g && negb (bool_decide (q = [])) && negb (bool_decide (FTo g = [])) && bool_decide (FError g = []).
Proof.
  intros Hq. apply eq_true_iff_eq. unfold is_creation. cbn [CallType TraceAddress To Error row].
  rewrite !andb_true_iff, !negb_true_iff, orb_true_iff, !bool_decide_eq_true, !bool_decide_eq_false, call_type_create, optional_some.
  assert (traceAddr q = [] ↔ q = []) as -> by (split; [by apply traceAddr_nil|by intros ->]).
  assert (optional (FError g) = None ↔ FError g = []) as ->; [|tauto].
  unfold optional. case_bool_decide; [done|]. split; done.
Qed.

Section Block.
Context (bn : Z) (ts : option Z) (trees : list (gostring * CallFrame)).
Context (Hnd : NoDup trees.*1) (Hslash : Forall (λ t, slash ∉ t.1) trees).

Definition block_frames : list InternalTransaction := trees ≫= λ t, FlattenCallFrame t.1 bn ts t.2.

Lemma elem_failed_keys tx f q :
  (tx, f) ∈ trees → path_ok q → key tx (traceAddr q) ∈ failed_keys block_frames ↔ failed_at f q.
Proof using Hnd Hslash.
  intros Ht Hq. rewrite Forall_forall in Hslash. unfold failed_keys, failed_at.
  rewrite elem_of_list_to_set, list_elem_of_fmap. split.
  - intros (r & E & [Herr Hr]%list_elem_of_filter). unfold block_frames in Hr.
    apply list_elem_of_bind in Hr as ([tx' f'] & Hr & Ht'). cbn in Hr. unfold FlattenCallFrame in Hr.
    rewrite flatten_nodes in Hr. apply list_elem_of_fmap in Hr as ([q' g] & -> & Hr). cbn in E, Herr.
    apply elem_nodes in Hr as (s & -> & Hs & Hg). cbn in E.
    apply key_inj in E as [-> E]; [|exact (Hslash _ Ht)|exact (Hslash _ Ht')].
    apply traceAddr_inj in E as ->; [|done|done].
    assert ((tx', f) = (tx', f')) as [= ->] by (by eapply (NoDup_fmap_elem_inj fst)).
    exists g. split; [done|]. by apply optional_some.
  - intros (g & Hg & He). exists (row tx bn ts q g). split; [done|]. apply list_elem_of_filter. split; [by apply optional_some|].
    unfold block_frames. apply list_elem_of_bind. exists (tx, f). split; [|done]. cbn. unfold FlattenCallFrame.
    rewrite flatten_nodes. apply list_elem_of_fmap. exists (q, g). split; [done|]. apply elem_nodes. by exists q.
Qed.

Lemma internalCreations_live :
  internalCreations block_frames = trees ≫= λ t, (λ x, row t.1 bn ts x.1 x.2) <$> live [] t.2.
Proof using Hnd Hslash.
  unfold internalCreations. set (failed := failed_keys block_frames). unfold block_frames. rewrite filter_bind.
  apply bind_ext_elem. intros [tx f] Ht. cbn [fst snd]. unfold FlattenCallFrame. rewrite flatten_nodes.
  set (blockedb q := bool_decide (key tx [] ∈ failed) || anyEnclosingFailed failed tx (traceAddr q)).
  assert (∀ q, path_ok q → q ≠ [] → blockedb q = true ↔ blocked f q) as Hb.
  { intros q Hq Hqn. unfold blockedb. rewrite orb_true_iff, bool_decide_eq_true, anyEnclosingFailed_spec by done.
    change (key tx []) with (key tx (traceAddr [])). unfold failed. rewrite (elem_failed_keys tx f []) by done. split.
    - intros [H|(p & _ & (r & Hr & ->) & H)]; [by exists []; split; [by exists q|]|].
      apply Forall_app in Hq as [Hp _]. apply (elem_failed_keys tx f) in H; [|done|done].
      exists p. split; [by exists r|done].
    - intros (p & (r & Hr & ->) & H). apply Forall_app in Hq as [Hp _].
      destruct (decide (p = [])) as [->|Hpn]; [by left|]. right. exists p.
      split_and!; [done|by exists r|]. by apply (elem_failed_keys tx f). }
  rewrite (filter_fmap_ext _ _ (λ x, keep blockedb x = true)).
  - f_equal. apply (keep_live f); [done|done|done|]. intros (q & (r & Hr & E) & _). by destruct q, r.
  - intros [q g] Hq. apply elem_nodes in Hq as (s & -> & Hs & _). cbn [fst snd app].
    unfold keep. cbn [fst snd]. rewrite is_creation_row by done. unfold blockedb. cbn [TxHash TraceAddress row].
    rewrite negb_orb, !andb_assoc. done.
Qed.
End Block.

(** ** Properties *)

(** C26: on the frames of a block (one trace per transaction, hashes distinct and
    without a slash), the list scan over textual addresses finds exactly the
    creations that took effect in the call trees: CREATE and CREATE2 frames below
    the root, with an address, that succeeded inside frames that all succeeded,
    in trace order. *)
Theorem internalCreations_are_the_live_ones bn ts trees :
  NoDup trees.*1 → Forall (λ t, slash ∉ t.1) trees →
  internalCreations (trees ≫= λ t, FlattenCallFrame t.1 bn ts t.2) =
  trees ≫= λ t, (λ x, row t.1 bn ts x.1 x.2) <$> live [] t.2.
Proof. intros Hnd Hslash. by apply internalCreations_live. Qed.

(** A call that creates a contract, next to a reverted call that created one. *)
Definition call_frame (err : gostring) (cs : list CallFrame) : CallFrame :=
  Frame $"CALL" $"0xaa" $"0xbb" None 0 0 [] [] err cs.
Definition create_at (to : gostring) : CallFrame := Frame $"CREATE2" $"0xbb" to None 0 0 [] $"0x60" [] [].
Definition sample_trace (root_error : gostring) : CallFrame :=
  call_frame root_error [call_frame $"execution reverted" [create_at $"0x01"]; call_frame [] [create_at $"0x02"]].

Lemma internalCreations_witness :
  internalCreations (FlattenCallFrame $"0xt1" 7 None (sample_trace [])) =
  [row $"0xt1" 7 None [1; 0] (create_at $"0x02")].
Proof.
  pose proof (internalCreations_are_the_live_ones 7 None [($"0xt1", sample_trace [])]) as H.
  rewrite !bind_one in H. cbn [fst snd] in H. rewrite H.
  - vm_compute. reflexivity.
  - apply NoDup_singleton.
  - apply Forall_singleton. apply (bool_decide_eq_false_1 (slash ∈ _)). vm_compute. reflexivity.
Defined.

(** The frame with its own failure forgotten. *)
Definition clear_error (f : CallFrame) : CallFrame :=
  Frame (FType f) (FFrom f) (FTo f) (FValue f) (FGas f) (FGasUsed f) (FInput f) (FOutput f) [] (Calls f).

Lemma without_root_drop tx bn ts f :
  without_root (FlattenCallFrame tx bn ts f) = drop 1 (FlattenCallFrame tx bn ts f).
Proof.
  unfold without_root, FlattenCallFrame. rewrite flatten_nodes, nodes_unfold.
  destruct (kids _ _ _); done.
Qed.

Lemma internalCreations_quiet_head x l :
  Error x = None → TraceAddress x = [] → internalCreations (x :: l) = internalCreations l.
Proof.
  intros He Ha. unfold internalCreations.
  assert (failed_keys (x :: l) = failed_keys l) as ->.
  { unfold failed_keys. rewrite filter_cons, decide_False; [done|]. rewrite He. by intros []. }
  rewrite filter_cons, decide_False; [done|]. unfold is_creation. rewrite Ha, (bool_decide_true (@nil byte = [])) by done. cbn [negb].
  by rewrite andb_false_r.
Qed.

(** the frames a block's trace fetch hands to ingest have no root, so ingest
    records the creations of a transaction as if its root call had succeeded;
    for a reverted transaction, none of whose creations took effect, these are
    the creations of its call tree with the root's failure forgotten. *)
Theorem ingest_ignores_root_failure bn ts tx f :
  slash ∉ tx →
  internalCreations (flatten_tx bn ts tx f) = (λ x, row tx bn (Some ts) x.1 x.2) <$> live [] (clear_error f).
Proof.
  intros Hs. unfold flatten_tx. rewrite without_root_drop.
  assert (drop 1 (FlattenCallFrame tx bn (Some ts) f) = drop 1 (FlattenCallFrame tx bn (Some ts) (clear_error f))) as ->.
  { unfold FlattenCallFrame. rewrite !flatten_nodes, !nodes_unfold. done. }
  pose proof (internalCreations_live bn (Some ts) [(tx, clear_error f)]) as H. unfold block_frames in H.
  rewrite !bind_one in H. cbn [fst snd] in H.
  rewrite <-H; [|apply NoDup_singleton|by apply Forall_singleton].
  unfold FlattenCallFrame. rewrite flatten_nodes, nodes_unfold. cbn [fmap list_fmap drop].
  by rewrite internalCreations_quiet_head.
Qed.

Lemma ingest_ignores_root_failure_witness :
  live [] (sample_trace $"out of gas") = [] ∧
  internalCreations (FlattenCallFrame $"0xt1" 7 (Some 9) (sample_trace $"out of gas")) = [] ∧
  internalCreations (flatten_tx 7 9 $"0xt1" (sample_trace $"out of gas")) = [row $"0xt1" 7 (Some 9) [1; 0] (create_at $"0x02")].
Proof.
  split_and!; [vm_compute; reflexivity..|].
  rewrite ingest_ignores_root_failure; [vm_compute; reflexivity|].
  apply (bool_decide_eq_false_1 (slash ∈ _)). vm_compute. reflexivity.
Defined.

(** What each transaction of a fetch comes to. *)
Definition entry_of (traces : option (gmap gostring TraceBlockResult)) (answer : gostring → res trace_err (option CallFrame))
  : gostring → res trace_err CallFrame :=
  match traces with
  | Some t => if bool_decide (t = ∅) then tx_entry answer else block_entry t
  | None => tx_entry answer
  end.

Lemma collect_ok bn ts mode entry txs out :
  collect bn ts mode entry txs = Ok out →
  (∀ tx e, tx ∈ txs → entry tx = Err e → fails mode e = false) ∧
  out = txs ≫= λ tx, match entry tx with Ok f => flatten_tx bn ts tx f | Err _ => [] end.
Proof.
  revert out. induction txs as [|tx txs IH]; intros out; cbn [collect].
  { intros [= <-]. split; [|done]. by intros ? ? ?%not_elem_of_nil. }
  destruct (entry tx) as [f|e] eqn:Ee.
  - destruct (collect bn ts mode entry txs) as [rest|] eqn:Er; [|done]. intros [= <-].
    destruct (IH _ eq_refl) as [H1 ->]. split; [|by rewrite bind_cons, Ee].
    intros tx' e' [->|Hin]%elem_of_cons E'; [congruence|eauto].
  - destruct (fails mode e) eqn:Ef; [done|]. intros H. destruct (IH _ H) as [H1 ->].
    split; [|by rewrite bind_cons, Ee]. intros tx' e' [->|Hin]%elem_of_cons E'; [congruence|eauto].
Qed.

Lemma collect_skip bn ts entry txs : ∃ out, collect bn ts skipFailures entry txs = Ok out.
Proof.
  induction txs as [|tx txs [out IH]]; cbn [collect]; [eauto|].
  destruct (entry tx); [rewrite IH; eexists; done|by eexists].
Qed.

(** a trace fetch in ingest's mode always answers; in the strict mode it
    answers only when every transaction has a trace; in the mode of a count that
    may go on without traces it answers only when every transaction left out was
    refused by the node (never for a timeout, a rate limit or no answer).  In
    every mode the answer is, up to the order the per-transaction calls finish
    in, the frames below the root of exactly the traced transactions. *)
Theorem fetchTraces_modes bn ts mode traces answer order txHashes :
  order ≡ₚ txHashes →
  (mode = skipFailures → ∃ out, fetchTraces bn ts mode traces answer order txHashes = Ok out) ∧
  ∀ out, fetchTraces bn ts mode traces answer order txHashes = Ok out →
    out ≡ₚ (txHashes ≫= λ tx, match entry_of traces answer tx with Ok f => flatten_tx bn ts tx f | Err _ => [] end) ∧
    (∀ tx e, tx ∈ txHashes → entry_of traces answer tx = Err e →
       mode = skipFailures ∨ (mode = skipRefusals ∧ NodeRefused e = true)).
Proof.
  intros Hord. unfold fetchTraces.
  assert (∀ m e, fails m e = false → m = skipFailures ∨ (m = skipRefusals ∧ NodeRefused e = true)) as Hf.
  { intros [] e; cbn; [by left|done|]. rewrite negb_false_iff. by right. }
  destruct (bool_decide (txHashes = [])) eqn:En.
  { apply bool_decide_eq_true in En as ->. split; [eauto|]. intros out [= <-]. split; [done|]. by intros ? ? ?%not_elem_of_nil. }
  assert (∃ txs, txs ≡ₚ txHashes ∧
    match traces with
    | Some t => if bool_decide (t = ∅) then collect bn ts mode (tx_entry answer) order else collect bn ts mode (block_entry t) txHashes
    | None => collect bn ts mode (tx_entry answer) order
    end = collect bn ts mode (entry_of traces answer) txs) as (txs & Hp & ->).
  { unfold entry_of. destruct traces as [t|]; [destruct (bool_decide (t = ∅))|]; eauto. }
  split; [intros ->; apply collect_skip|]. intros out H. apply collect_ok in H as [H1 ->]. split.
  - by rewrite Hp.
  - intros tx e Hin E. apply Hf. eapply H1; [by rewrite Hp|done].
Qed.

Lemma fetchTraces_modes_witness :
  let traces := Some {[ $"0xa" := mkTraceResult (Some (sample_trace [])) []; $"0xb" := mkTraceResult None $"Timeout" ]} in
  (∃ out, fetchTraces 7 9 skipFailures traces (λ _, Err NoAnswer) [$"0xa"; $"0xb"] [$"0xa"; $"0xb"] = Ok out ∧ length out = 4%nat) ∧
  fetchTraces 7 9 skipRefusals traces (λ _, Err NoAnswer) [$"0xa"; $"0xb"] [$"0xa"; $"0xb"] = Err TraceTimedOut.
Proof.
  cbv zeta. split; [|vm_compute; reflexivity].
  destruct (fetchTraces_modes 7 9 skipFailures
    (Some {[ $"0xa" := mkTraceResult (Some (sample_trace [])) []; $"0xb" := mkTraceResult None $"Timeout" ]})
    (λ _, Err NoAnswer) [$"0xa"; $"0xb"] [$"0xa"; $"0xb"] ltac:(reflexivity)) as [H _].
  destruct (H eq_refl) as [out E]. exists out. split; [exact E|].
  assert (match fetchTraces 7 9 skipFailures
    (Some {[ $"0xa" := mkTraceResult (Some (sample_trace [])) []; $"0xb" := mkTraceResult None $"Timeout" ]})
    (λ _, Err NoAnswer) [$"0xa"; $"0xb"] [$"0xa"; $"0xb"] with Ok out => length out = 4%nat | Err _ => False end) as HL
    by (vm_compute; reflexivity).
  by rewrite E in HL.
Defined.
