(* ===== verification/BuildBlock.v ===== *)
(** * From a node's block to the rows of a block

    [internal/indexer/indexer.go] ([buildBlock] and its helpers),
    [internal/indexer/token_cache.go], [internal/rpc/raw_block.go] (the fields it
    reads) and [contractFromCreation] of internal_creations.go. The answers of the
    node (code, traces, token metadata, token URIs) are parameters. *)

From S2P Require Import Prelude GoStrings EthCommon CallTrace AbiString BalanceWorker.

(** ** What the node gives *)

Record RawTransaction := mkRawTx {
  rt_hash : gostring; rt_from : gostring; rt_to : option gostring; rt_value : option Z; rt_gas : Z;
  rt_gasPrice : option Z; rt_input : gostring; rt_nonce : option Z; rt_type : Z;
  rt_maxFee : option Z; rt_maxPriority : option Z }.

Record RawBlock := mkRawBlock {
  rb_number : option Z; rb_hash : gostring; rb_parent : gostring; rb_timestamp : Z; rb_gasUsed : Z; rb_gasLimit : Z;
  rb_baseFee : option Z; rb_miner : gostring; rb_difficulty : option Z; rb_totalDifficulty : option Z; rb_size : Z;
  rb_nonce : gostring; rb_extra : gostring; rb_stateRoot : gostring; rb_txRoot : gostring; rb_receiptsRoot : gostring;
  rb_txs : list RawTransaction }.

Record receipt_log := mkReceiptLog {
  rl_address : gostring; rl_topics : list gostring; rl_data : gostring; rl_index : Z; rl_removed : bool }.
Record Receipt := mkReceipt { rc_status : Z; rc_gasUsed : Z; rc_contract : gostring; rc_logs : list receipt_log }.

(** [big.Int.Uint64]: the low 64 bits of the magnitude. *)
Definition big_Uint64 (z : Z) : Z := u64 (Z.abs z).

Definition NumberU64 (b : RawBlock) : Z := match rb_number b with None => 0 | Some n => big_Uint64 n end.
Definition DifficultyString (b : RawBlock) : gostring := match rb_difficulty b with None => $"0" | Some d => Text 10 d end.
Definition TotalDifficultyString (b : RawBlock) : gostring :=
  match rb_totalDifficulty b with None => $"0" | Some d => Text 10 d end.
(** [fmt.Sprintf] with sixteen hexadecimal digits of the eight bytes. *)
Definition NonceHex (b : RawBlock) : gostring :=
  if decide (length (rb_nonce b) = 8%nat) then $"0x" ++ EncodeToString (rb_nonce b) else $"0x0000000000000000".
Definition BaseFeeU64 (b : RawBlock) : option Z := big_Uint64 <$> rb_baseFee b.

(** ** The rows *)

Record block_row := mkBlockRow {
  br_number : Z; br_hash : gostring; br_parent : gostring; br_timestamp : Z; br_gasUsed : Z; br_gasLimit : Z;
  br_baseFee : option Z; br_txCount : Z; br_size : Z; br_difficulty : gostring; br_totalDifficulty : gostring;
  br_nonce : gostring; br_miner : gostring; br_extra : gostring; br_stateRoot : gostring; br_txRoot : gostring;
  br_receiptsRoot : gostring }.

Record tx_row := mkTxRow {
  tx_hash : gostring; tx_block : Z; tx_index : Z; tx_from : gostring; tx_to : option gostring;
  tx_contract : option gostring; tx_value : gostring; tx_gasUsed : Z; tx_gasPrice : Z; tx_gasLimit : Z;
  tx_maxFee : option Z; tx_maxPriority : option Z; tx_nonce : Z; tx_type : Z; tx_input : gostring; tx_status : Z;
  tx_error : option gostring }.

Record log_row := mkLogRow {
  lr_tx : gostring; lr_index : Z; lr_address : gostring; lr_topic0 : option gostring; lr_topic1 : option gostring;
  lr_topic2 : option gostring; lr_topic3 : option gostring; lr_data : gostring; lr_block : Z; lr_timestamp : Z;
  lr_removed : bool }.

Record transfer_row := mkTransferRow {
  tr_tx : gostring; tr_index : Z; tr_token : gostring; tr_from : gostring; tr_to : gostring; tr_value : gostring;
  tr_block : Z; tr_timestamp : Z; tr_kind : gostring; tr_type : gostring; tr_id : option gostring }.

Record contract_row := mkContractRow {
  cr_address : gostring; cr_bytecode : gostring; cr_hash : gostring; cr_creator : gostring; cr_tx : gostring;
  cr_block : Z }.

Record token_row := mkTokenRow {
  tk_address : gostring; tk_symbol : gostring; tk_name : option gostring; tk_decimals : Z; tk_type : gostring;
  tk_supply : option Z; tk_block : Z; tk_tx : option gostring }.

Record nft_row := mkNftRow { nf_token : gostring; nf_id : gostring; nf_owner : gostring; nf_uri : option gostring; nf_block : Z }.

Record AddressStatsDelta := mkDelta {
  ad_address : gostring; ad_txs : Z; ad_internal : Z; ad_transfers : Z; ad_sent : Z; ad_contract : bool;
  ad_last : Z; ad_block : Z }.

Record BlockData := mkBlockData {
  bd_block : option block_row; bd_txs : list tx_row; bd_logs : list log_row; bd_transfers : list transfer_row;
  bd_contracts : list contract_row; bd_tokens : list token_row; bd_nfts : list nft_row;
  bd_internal : list InternalTransaction; bd_stats : gmap gostring AddressStatsDelta; bd_skip_stats : bool }.

Definition TokenTypeERC20 : gostring := $"ERC20".
Definition TokenTypeERC721 : gostring := $"ERC721".
Definition TransferTypeTransfer : gostring := $"transfer".
Definition TransferTypeMint : gostring := $"mint".
Definition TransferTypeBurn : gostring := $"burn".
Definition transferTopic : gostring :=
  HexToHash $"0xddf252ad1be2c89b69c2b068fc378daa952ba7f163c4a11628f55a4df523b3ef".
Definition zeroAddress : gostring := HexToAddress $"0x0000000000000000000000000000000000000000".

(** ** Configuration and the node's answers *)

Record build_config := mkBuildConfig {
  CodeAtBlock : bool; StrictTraces : bool; SkipTraceRefusals : bool; SkipAddressStats : bool; CountersOnly : bool;
  tracingSupported : bool; SkipReceiptTxTypes : list Z }.

Inductive code_err := NodeErr (e : trace_err) | errNotSupported.

(** [n_codeAt] is [None] for a client without the method; [n_strict] and
    [n_refusal] say whether the client has the stricter tracers. *)
Record node_answers := mkNode {
  n_code : gostring → res code_err gostring;
  n_codeAt : option (gostring → Z → res code_err gostring);
  n_strict : bool; n_refusal : bool;
  n_traces : traceMode → list gostring → res trace_err (list InternalTransaction);
  n_metadata : list gostring → option (list (gostring * option TokenMetadataResult));
  n_uris : list (gostring * Z) → gmap nat gostring }.

Inductive contract_err := CodeFailed (e : code_err) | errContractUndecided.

Definition contractCode (c : build_config) (nd : node_answers) (address : gostring) (block : Z) : res contract_err gostring :=
  let at_latest (undecided : bool) :=
    match n_code nd address with
    | Err e => Err (CodeFailed e)
    | Ok code => if undecided && bool_decide (code = []) then Err errContractUndecided else Ok code
    end in
  if negb (CodeAtBlock c) then at_latest false
  else match n_codeAt nd with
       | None => at_latest true
       | Some f =>
           match f address block with
           | Ok code => Ok code
           | Err (NodeErr e) => if NodeRefused e then at_latest true else Err (CodeFailed (NodeErr e))
           | Err errNotSupported => at_latest true
           end
       end.

(** ** Address statistics *)

Section Build.
Context `{Keccak}.

Definition new_delta (key : gostring) (n : Z) : AddressStatsDelta := mkDelta key 0 0 0 0 false 0 n.

(** [addressDelta] returns a pointer into the map: an update of it is [alter]. *)
Definition addressDelta (address : gostring) (n : Z) (s : gmap gostring AddressStatsDelta) : gmap gostring AddressStatsDelta :=
  let key := ToLower address in
  match s !! key with Some _ => s | None => <[key := new_delta key n]> s end.
Definition on_delta (f : AddressStatsDelta → AddressStatsDelta) (address : gostring) (n : Z)
    (s : gmap gostring AddressStatsDelta) : gmap gostring AddressStatsDelta :=
  alter f (ToLower address) (addressDelta address n s).

Definition add_sent (d : AddressStatsDelta) := mkDelta (ad_address d) (ad_txs d) (ad_internal d) (ad_transfers d) (ad_sent d + 1) (ad_contract d) (ad_last d) (ad_block d).
Definition add_transfer (d : AddressStatsDelta) := mkDelta (ad_address d) (ad_txs d) (ad_internal d) (ad_transfers d + 1) (ad_sent d) (ad_contract d) (ad_last d) (ad_block d).
Definition add_internal (d : AddressStatsDelta) := mkDelta (ad_address d) (ad_txs d) (ad_internal d + 1) (ad_transfers d) (ad_sent d) (ad_contract d) (ad_last d) (ad_block d).
Definition add_txs (k : Z) (d : AddressStatsDelta) := mkDelta (ad_address d) (ad_txs d + k) (ad_internal d) (ad_transfers d) (ad_sent d) (ad_contract d) (ad_last d) (ad_block d).
Definition or_contract (b : bool) (d : AddressStatsDelta) := mkDelta (ad_address d) (ad_txs d) (ad_internal d) (ad_transfers d) (ad_sent d) (ad_contract d || b) (ad_last d) (ad_block d).

Definition bumpsNonce (txType : Z) : bool := (0 <=? txType) && (txType <=? 4).

(** ** The state of the loop over the transactions *)

Record build := mkBuild {
  b_txs : list tx_row; b_logs : list log_row; b_transfers : list transfer_row; b_contracts : list contract_row;
  b_nfts : list nft_row; b_stats : gmap gostring AddressStatsDelta; b_addressTxs : gmap gostring (gset Z);
  b_newTokens : list gostring; b_newTokenTx : gmap gostring gostring; b_work : list BalanceWork;
  b_uris : list (gostring * Z * nat); b_contractCache : gset gostring; b_codeErrs : list contract_err }.

Definition set_stats (s : gmap gostring AddressStatsDelta) (t : gmap gostring (gset Z)) (b : build) : build :=
  mkBuild (b_txs b) (b_logs b) (b_transfers b) (b_contracts b) (b_nfts b) s t (b_newTokens b) (b_newTokenTx b)
    (b_work b) (b_uris b) (b_contractCache b) (b_codeErrs b).

(** [touchAddressTx], then [f] on the delta it returns. *)
Definition touchAddressTx (f : AddressStatsDelta → AddressStatsDelta) (address : gostring) (txIndex n : Z) (b : build) : build :=
  let key := ToLower address in
  set_stats (on_delta f address n (b_stats b))
    (<[key := {[txIndex]} ∪ default ∅ (b_addressTxs b !! key)]> (b_addressTxs b)) b.

Definition countTransferParticipant (addr : gostring) (txIndex n : Z) (b : build) : build :=
  if decide (addr = zeroAddress) then b else touchAddressTx add_transfer (Address_Hex addr) txIndex n b.

(** ** One log *)

Context (c : build_config) (nd : node_answers) (tokenCache : gset gostring).
Context (blockNumber blockTimestamp : Z).

Definition topic_hex (l : receipt_log) (k : nat) : option gostring := Hash_Hex <$> (rl_topics l !! k).

Definition log_row_of (txh : gostring) (l : receipt_log) : log_row :=
  mkLogRow txh (i64 (rl_index l)) (Address_Hex (rl_address l)) (topic_hex l 0) (topic_hex l 1) (topic_hex l 2) (topic_hex l 3)
    (Bytes2Hex (rl_data l)) blockNumber blockTimestamp (rl_removed l).

(** A Transfer event: its parties, and the token id of one with four topics. *)
Definition transfer_event (l : receipt_log) : option (gostring * gostring * option Z) :=
  match rl_topics l with
  | t0 :: t1 :: t2 :: rest =>
      if decide (t0 = transferTopic)
      then Some (BytesToAddress t1, BytesToAddress t2, match rest with [t3] => Some (Hash_Big t3) | _ => None end)
      else None
  | _ => None
  end.

Definition transfer_row_of (txh : gostring) (l : receipt_log) (fromAddr toAddr : gostring) (id : option Z) : transfer_row :=
  let transferType := if decide (fromAddr = zeroAddress) then TransferTypeMint
                      else if decide (toAddr = zeroAddress) then TransferTypeBurn else TransferTypeTransfer in
  let value := match id with
               | Some _ => $"1"
               | None => if decide (rl_data l = []) then $"0" else Text 10 (be_Z (rl_data l))
               end in
  mkTransferRow txh (i64 (rl_index l)) (Address_Hex (rl_address l)) (Address_Hex fromAddr) (Address_Hex toAddr) value
    blockNumber blockTimestamp transferType (if decide (is_Some id) then TokenTypeERC721 else TokenTypeERC20) (Text 10 <$> id).

Definition work_of (addr token : gostring) : list BalanceWork :=
  if decide (addr = zeroAddress) then [] else [mkWork addr token blockNumber 0].

Definition add_transfer_log (txh : gostring) (idx : Z) (l : receipt_log) (fromAddr toAddr : gostring) (id : option Z) (b : build) : build :=
  let token := rl_address l in
  let nfts := match id with
              | Some i => [mkNftRow (Address_Hex token) (Text 10 i) (Address_Hex toAddr) None blockNumber]
              | None => []
              end in
  let uris := match id with
              | Some i => if decide (fromAddr = zeroAddress) then [(token, i, length (b_nfts b))] else []
              | None => []
              end in
  let known := bool_decide (ToLower (Address_Hex token) ∈ tokenCache) || bool_decide (is_Some (b_newTokenTx b !! token)) in
  let b := mkBuild (b_txs b) (b_logs b) (b_transfers b ++ [transfer_row_of txh l fromAddr toAddr id]) (b_contracts b)
    (b_nfts b ++ nfts) (b_stats b) (b_addressTxs b)
    (if known then b_newTokens b else b_newTokens b ++ [token])
    (if known then b_newTokenTx b else <[token := txh]> (b_newTokenTx b))
    (b_work b ++ work_of fromAddr token ++ work_of toAddr token) (b_uris b ++ uris) (b_contractCache b) (b_codeErrs b) in
  let b := countTransferParticipant fromAddr idx blockNumber b in
  if decide (toAddr = fromAddr) then b else countTransferParticipant toAddr idx blockNumber b.

Definition add_log (txh : gostring) (idx : Z) (b : build) (l : receipt_log) : build :=
  let b := mkBuild (b_txs b) (b_logs b ++ [log_row_of txh l]) (b_transfers b) (b_contracts b) (b_nfts b) (b_stats b)
    (b_addressTxs b) (b_newTokens b) (b_newTokenTx b) (b_work b) (b_uris b) (b_contractCache b) (b_codeErrs b) in
  match transfer_event l with
  | Some (fromAddr, toAddr, id) => add_transfer_log txh idx l fromAddr toAddr id b
  | None => b
  end.

(** ** One transaction *)

Definition created_address (rt : RawTransaction) (r : option Receipt) : option gostring :=
  match r with
  | Some r => if decide (rt_to rt = None ∧ rc_contract r ≠ zeroAddress) then Some (rc_contract r) else None
  | None => None
  end.

Definition tx_row_of (idx : Z) (rt : RawTransaction) (r : option Receipt) : tx_row :=
  mkTxRow (Hash_Hex (rt_hash rt)) blockNumber idx (Address_Hex (rt_from rt)) (Address_Hex <$> rt_to rt)
    (Address_Hex <$> created_address rt r)
    (match rt_value rt with None => $"0" | Some v => Text 10 v end)
    (match r with Some r => rc_gasUsed r | None => rt_gas rt end)
    (match rt_gasPrice rt with None => 0 | Some p => big_Uint64 p end) (rt_gas rt)
    (big_Uint64 <$> rt_maxFee rt) (big_Uint64 <$> rt_maxPriority rt) (default 0 (rt_nonce rt)) (i64 (rt_type rt))
    (if decide (rt_input rt = []) then [] else Bytes2Hex (rt_input rt))
    (match r with Some r => i64 (rc_status r) | None => 1 end)
    (match r with Some r => if rc_status r =? 0 then Some $"transaction reverted" else None | None => None end).

Definition code_hash (code : gostring) : gostring := Hash_Hex (BytesToHash (FromHex (Bytes2Hex code))).

(** A creation that did not revert and left code. *)
Definition add_creation (rt : RawTransaction) (r : option Receipt) (b : build) : build :=
  match r, created_address rt r with
  | Some rc, Some addr =>
      if rc_status rc =? 0 then b
      else match contractCode c nd addr blockNumber with
           | Err e =>
               if CodeAtBlock c
               then mkBuild (b_txs b) (b_logs b) (b_transfers b) (b_contracts b) (b_nfts b) (b_stats b) (b_addressTxs b)
                      (b_newTokens b) (b_newTokenTx b) (b_work b) (b_uris b) (b_contractCache b) (b_codeErrs b ++ [e])
               else b
           | Ok code =>
               if decide (code = []) then b
               else mkBuild (b_txs b) (b_logs b) (b_transfers b)
                      (b_contracts b ++ [mkContractRow (Address_Hex addr) (Bytes2Hex code) (code_hash code)
                                          (Address_Hex (rt_from rt)) (Hash_Hex (rt_hash rt)) blockNumber])
                      (b_nfts b) (on_delta (or_contract true) (Address_Hex addr) blockNumber (b_stats b)) (b_addressTxs b)
                      (b_newTokens b) (b_newTokenTx b) (b_work b) (b_uris b)
                      ({[ToLower (Address_Hex addr)]} ∪ b_contractCache b) (b_codeErrs b)
           end
  | _, _ => b
  end.

Definition add_tx_row (row : tx_row) (b : build) : build :=
  mkBuild (b_txs b ++ [row]) (b_logs b) (b_transfers b) (b_contracts b) (b_nfts b) (b_stats b)
    (b_addressTxs b) (b_newTokens b) (b_newTokenTx b) (b_work b) (b_uris b) (b_contractCache b) (b_codeErrs b).

Definition add_tx (receipts : gmap gostring Receipt) (idx : Z) (rt : RawTransaction) (b : build) : build :=
  let r := receipts !! rt_hash rt in
  let b := add_tx_row (tx_row_of idx rt r) b in
  let b := touchAddressTx (if bumpsNonce (i64 (rt_type rt)) then add_sent else id) (Address_Hex (rt_from rt)) idx blockNumber b in
  let b := match rt_to rt with
           | Some to => touchAddressTx (or_contract (bool_decide (ToLower (Address_Hex to) ∈ b_contractCache b)))
                          (Address_Hex to) idx blockNumber b
           | None => b
           end in
  let b := add_creation rt r b in
  match r with
  | None => b
  | Some r => foldl (add_log (Hash_Hex (rt_hash rt)) idx) b (rc_logs r)
  end.

Fixpoint add_txs_from (receipts : gmap gostring Receipt) (idx : Z) (txs : list RawTransaction) (b : build) : build :=
  match txs with
  | [] => b
  | rt :: txs => add_txs_from receipts (idx + 1) txs (add_tx receipts idx rt b)
  end.

(** ** After the loop *)

(** [for addr, txs := range addressTxs]: every key of it is a key of the stats,
    and each is changed once, so the order of the range does not matter. *)
Definition count_txs (t : gmap gostring (gset Z)) (s : gmap gostring AddressStatsDelta) : gmap gostring AddressStatsDelta :=
  merge (λ d k, match d, k with
                | Some d, Some txs => Some (add_txs (Z.of_nat (size txs)) d)
                | d, _ => d
                end) s t.

Definition count_internal (s : gmap gostring AddressStatsDelta) (it : InternalTransaction) : gmap gostring AddressStatsDelta :=
  let s := on_delta add_internal (From it) blockNumber s in
  match To it with
  | Some to => if EqualFold to (From it) then s else on_delta add_internal to blockNumber s
  | None => s
  end.

Definition strOr (s : option gostring) (fallback : gostring) : gostring :=
  match s with None => fallback | Some s => TrimSpace s end.

Definition contractFromCreation (getCode : gostring → res contract_err gostring) (it : InternalTransaction) (to : gostring) : option contract_row :=
  let code := TrimPrefix (strOr (Output it) []) $"0x" in
  let row code := mkContractRow (ToLower to) code (Hash_Hex (BytesToHash (FromHex code))) (ToLower (From it)) (CallTrace.TxHash it) blockNumber in
  if decide (code = []) then
    match getCode (HexToAddress to) with
    | Err _ => None
    | Ok raw => if decide (raw = []) then None else Some (row (Bytes2Hex raw))
    end
  else Some (row code).

(** The errors of the code reads of a frame: one when its output has no code. *)
Definition creation_err (it : InternalTransaction) (to : gostring) : list contract_err :=
  if CodeAtBlock c && bool_decide (TrimPrefix (strOr (Output it) []) $"0x" = []) then
    match contractCode c nd (HexToAddress to) blockNumber with Err e => [e] | Ok _ => [] end
  else [].

Definition add_internal_creation (b : build) (it : InternalTransaction) : build :=
  match To it with
  | None => b  (* internalCreations keeps only frames with a recipient *)
  | Some to =>
      let errs := b_codeErrs b ++ creation_err it to in
      match contractFromCreation (λ a, contractCode c nd a blockNumber) it to with
      | None => mkBuild (b_txs b) (b_logs b) (b_transfers b) (b_contracts b) (b_nfts b) (b_stats b) (b_addressTxs b)
                  (b_newTokens b) (b_newTokenTx b) (b_work b) (b_uris b) (b_contractCache b) errs
      | Some row =>
          mkBuild (b_txs b) (b_logs b) (b_transfers b) (b_contracts b ++ [row]) (b_nfts b)
            (on_delta (or_contract true) (cr_address row) blockNumber (b_stats b)) (b_addressTxs b)
            (b_newTokens b) (b_newTokenTx b) (b_work b) (b_uris b) ({[ToLower (cr_address row)]} ∪ b_contractCache b) errs
      end
  end.

Definition trace_mode : traceMode :=
  if n_strict nd && StrictTraces c then failOnAny
  else if n_refusal nd && SkipTraceRefusals c then skipRefusals else skipFailures.

(** The frames kept as rows, and the error of the fetch. *)
Definition fetch_internal (txHashes : list gostring) : list InternalTransaction * option trace_err :=
  if tracingSupported c && negb (bool_decide (txHashes = [])) then
    match n_traces nd trace_mode txHashes with
    | Err e => ([], Some e)
    | Ok l => (l, None)
    end
  else ([], None).

Definition add_internals (l : list InternalTransaction) (b : build) : build :=
  let b := set_stats (foldl count_internal (b_stats b) l) (b_addressTxs b) b in
  foldl add_internal_creation b (internalCreations l).

(** ** Tokens and token URIs *)

Definition new_token_rows (b : build) : list token_row :=
  if CountersOnly c || bool_decide (b_newTokens b = []) then []
  else match n_metadata nd (b_newTokens b) with
       | None => []
       | Some l => l ≫= λ '(addr, m),
           match m with
           | None => []
           | Some m =>
               let '(ty, decimals) := classifyNewToken
                 (existsb (λ t, bool_decide (tr_type t = TokenTypeERC721) && bool_decide (tr_token t = Address_Hex addr)) (b_transfers b))
                 (Decimals m) in
               [mkTokenRow (Address_Hex addr) (Symbol m) (Name m) decimals ty None blockNumber
                  (Some (default [] (b_newTokenTx b !! addr)))]
           end
       end.

Definition with_uri (u : gostring) (n : nft_row) : nft_row := mkNftRow (nf_token n) (nf_id n) (nf_owner n) (Some u) (nf_block n).

Definition nft_rows (b : build) : list nft_row :=
  if CountersOnly c || bool_decide (b_uris b = []) then b_nfts b
  else
    let uris := n_uris nd (fst <$> b_uris b) in
    foldl (λ rows '(k, (_, i)), match uris !! k with Some u => alter (with_uri u) i rows | None => rows end)
      (b_nfts b) (imap pair (b_uris b)).
End Build.

(** ** The whole block *)

Section BuildBlock.
Context `{Keccak} (c : build_config) (nd : node_answers).

Definition receiptTxHashes (b : RawBlock) : list gostring :=
  rt_hash <$> filter (λ t, i64 (rt_type t) ∉ SkipReceiptTxTypes c) (rb_txs b).

Definition block_row_of (b : RawBlock) : block_row :=
  mkBlockRow (NumberU64 b) (Hash_Hex (rb_hash b)) (Hash_Hex (rb_parent b)) (rb_timestamp b) (rb_gasUsed b) (rb_gasLimit b)
    (BaseFeeU64 b) (zlen (rb_txs b)) (rb_size b) (DifficultyString b) (TotalDifficultyString b) (NonceHex b)
    (Address_Hex (rb_miner b)) (Bytes2Hex (rb_extra b)) (Hash_Hex (rb_stateRoot b)) (Hash_Hex (rb_txRoot b))
    (Hash_Hex (rb_receiptsRoot b)).

(** The caches of the process. *)
Record caches := mkCaches { tokenCache : gset gostring; contractCache : gset gostring }.

Definition empty_build (cs : caches) : build := mkBuild [] [] [] [] [] ∅ ∅ [] ∅ [] [] (contractCache cs) [].

Record builtBlock := mkBuilt {
  built_data : BlockData; built_work : list BalanceWork; built_discovered : list gostring;
  built_tracesErr : option trace_err; built_codeErrs : list contract_err; built_contracts : gset gostring }.

Definition after_loop (cs : caches) (raw : RawBlock) (receipts : gmap gostring Receipt) : build :=
  let n := NumberU64 raw in
  let b := add_txs_from c nd (tokenCache cs) n (rb_timestamp raw) receipts 0 (rb_txs raw) (empty_build cs) in
  set_stats (count_txs (b_addressTxs b) (b_stats b)) (b_addressTxs b) b.

Definition buildBlock (cs : caches) (raw : RawBlock) (receipts : gmap gostring Receipt) : builtBlock :=
  let n := NumberU64 raw in
  let b := after_loop cs raw receipts in
  let '(internal, tracesErr) := fetch_internal c nd (receiptTxHashes raw) in
  let b := add_internals c nd n internal b in
  let tokens := new_token_rows c nd n b in
  mkBuilt
    (mkBlockData (Some (block_row_of raw)) (b_txs b) (b_logs b) (b_transfers b) (b_contracts b) tokens
       (nft_rows c nd b) internal (b_stats b) (SkipAddressStats c))
    (b_work b) (tk_address <$> tokens) tracesErr (b_codeErrs b) (b_contractCache b).

(** A block without transactions: the block row alone. *)
Definition insertEmptyBlock (raw : RawBlock) : block_row := block_row_of raw.

(** After the commit the discovered tokens are known. *)
Definition remember_tokens (b : builtBlock) (cs : caches) : caches :=
  mkCaches (list_to_set (ToLower <$> built_discovered b) ∪ tokenCache cs) (built_contracts b).
End BuildBlock.

(** ** What the database recounts

    [ledger_address_contributions] (migration 026) lists what each stored row of
    a block contributes to an address: the recount of the reconciliation, of the
    revert of a block and of [RebuildAddressStats]. Here it is on the rows of one
    block, stored in lower case as the writer stores them. *)

Record contribution := mkContribution { co_address : gostring; co_tx : option gostring; co_block : Z; co_sent : Z; co_internal : Z; co_transfers : Z }.

Definition zero_text : gostring := $"0x0000000000000000000000000000000000000000".

Definition tx_contributions (t : tx_row) : list contribution :=
  mkContribution (ToLower (tx_from t)) (Some (tx_hash t)) (tx_block t) (if (0 <=? tx_type t) && (tx_type t <=? 4) then 1 else 0) 0 0 ::
  match tx_to t with Some to => [mkContribution (ToLower to) (Some (tx_hash t)) (tx_block t) 0 0 0] | None => [] end.

Definition transfer_contributions (t : transfer_row) : list contribution :=
  let from := ToLower (tr_from t) in let to := ToLower (tr_to t) in
  (if decide (from = zero_text) then [] else [mkContribution from (Some (tr_tx t)) (tr_block t) 0 0 1]) ++
  (if decide (to = zero_text ∨ to = from) then [] else [mkContribution to (Some (tr_tx t)) (tr_block t) 0 0 1]).

Definition internal_contributions (it : InternalTransaction) : list contribution :=
  mkContribution (ToLower (From it)) None (CallTrace.BlockNumber it) 0 1 0 ::
  match To it with
  | Some to => if decide (ToLower to = ToLower (From it)) then [] else [mkContribution (ToLower to) None (CallTrace.BlockNumber it) 0 1 0]
  | None => []
  end.

Definition contract_contributions (r : contract_row) : list contribution := [mkContribution (ToLower (cr_address r)) None (cr_block r) 0 0 0].

Definition contributions (txs : list tx_row) (trs : list transfer_row) (its : list InternalTransaction) (crs : list contract_row)
    : list contribution :=
  (txs ≫= tx_contributions) ++ (trs ≫= transfer_contributions) ++ (its ≫= internal_contributions) ++ (crs ≫= contract_contributions).

(** [count(DISTINCT tx), sum(sent), sum(internal), sum(transfers) ... GROUP BY address]. *)
Definition of_address (a : gostring) (l : list contribution) : list contribution := filter (λ x, co_address x = a) l.
Definition total (f : contribution → Z) (a : gostring) (l : list contribution) : Z :=
  foldr (λ x acc, f x + acc) 0 (of_address a l).
Definition txs_seen (a : gostring) (l : list contribution) : gset gostring :=
  list_to_set (omap co_tx (of_address a l)).

Lemma of_address_cons a x l : of_address a (x :: l) = if decide (co_address x = a) then x :: of_address a l else of_address a l.
Proof. unfold of_address. rewrite filter_cons. done. Qed.

Lemma total_cons f a x l : total f a (x :: l) = (if decide (co_address x = a) then f x else 0) + total f a l.
Proof. unfold total. rewrite of_address_cons. by case_decide. Qed.

Lemma txs_seen_cons a x l :
  txs_seen a (x :: l) = (if decide (co_address x = a) then match co_tx x with Some h => {[h]} | None => ∅ end else ∅) ∪ txs_seen a l.
Proof. unfold txs_seen. rewrite of_address_cons. case_decide; cbn; [destruct (co_tx x); cbn|]; set_solver. Qed.

#[export] Instance of_address_proper a : Proper ((≡ₚ) ==> (≡ₚ)) (of_address a).
Proof. intros l1 l2 Hl. unfold of_address. by rewrite Hl. Qed.

Lemma total_perm f a l1 l2 : l1 ≡ₚ l2 → total f a l1 = total f a l2.
Proof.
  intros Hp. unfold total. apply (foldr_permutation (=) (λ x acc, f x + acc) 0); [|by rewrite Hp].
  intros ?????. lia.
Qed.

Lemma txs_seen_perm a l1 l2 : l1 ≡ₚ l2 → txs_seen a l1 = txs_seen a l2.
Proof. intros Hp. unfold txs_seen. apply list_to_set_perm_L. by rewrite Hp. Qed.

(** The deltas [s] and the touched transactions [t] are those of the
    contributions [l]; [k] is what the transaction counts have reached. *)
Section Counted.
Context (n : Z) (hash_at : Z → gostring).

Record counted (k : gostring → Z) (s : gmap gostring AddressStatsDelta) (t : gmap gostring (gset Z)) (l : list contribution) : Prop := {
  counted_some : ∀ a d, s !! a = Some d →
    ad_address d = a ∧ ad_block d = n ∧ ad_last d = 0 ∧ ad_txs d = k a ∧ ad_sent d = total co_sent a l ∧
    ad_internal d = total co_internal a l ∧ ad_transfers d = total co_transfers a l ∧ of_address a l ≠ [];
  counted_none : ∀ a, s !! a = None → of_address a l = [];
  counted_seen : ∀ a, txs_seen a l = set_map hash_at (default ∅ (t !! a)) }.

(** A function on deltas that adds what [x] counts. *)
Record adds (f : AddressStatsDelta → AddressStatsDelta) (x : contribution) : Prop := {
  adds_same : ∀ d, ad_address (f d) = ad_address d ∧ ad_block (f d) = ad_block d ∧ ad_last (f d) = ad_last d ∧ ad_txs (f d) = ad_txs d;
  adds_counts : ∀ d, ad_sent (f d) = co_sent x + ad_sent d ∧ ad_internal (f d) = co_internal x + ad_internal d ∧
    ad_transfers (f d) = co_transfers x + ad_transfers d }.

Lemma counted_perm k s t l1 l2 : l1 ≡ₚ l2 → counted k s t l1 → counted k s t l2.
Proof.
  intros Hp [H1 H2 H3]. split.
  - intros a d Hd. destruct (H1 a d Hd) as (?&?&?&?&E1&E2&E3&Hne). rewrite E1, E2, E3.
    rewrite !(total_perm _ _ _ _ Hp). split_and!; try done. intros E. apply Hne. apply Permutation_nil_r.
    rewrite <-E. by rewrite Hp.
  - intros a Ha. apply Permutation_nil_r. rewrite <-(H2 a Ha). by rewrite Hp.
  - intros a. by rewrite <-(txs_seen_perm a _ _ Hp).
Qed.

Lemma lookup_on_delta (f : AddressStatsDelta → AddressStatsDelta) (address : gostring) (s : gmap gostring AddressStatsDelta) (a : gostring) :
  on_delta f address n s !! a =
  if decide (ToLower address = a) then Some (f (default (new_delta a n) (s !! a))) else s !! a.
Proof.
  unfold on_delta, addressDelta. case_decide as E.
  - subst a. rewrite lookup_alter_eq. destruct (s !! ToLower address) eqn:Es; [by rewrite Es|]. by rewrite lookup_insert_eq.
  - rewrite lookup_alter_ne by done. destruct (s !! ToLower address); [done|]. by rewrite lookup_insert_ne.
Qed.

Lemma counted_cons (k : gostring → Z) (s : gmap gostring AddressStatsDelta) (t : gmap gostring (gset Z)) (l : list contribution) (f : AddressStatsDelta → AddressStatsDelta) (address : gostring) (x : contribution) (t' : gmap gostring (gset Z)) :
  counted k s t l → adds f x → co_address x = ToLower address → (s !! ToLower address = None → k (ToLower address) = 0) →
  (∀ a, default ∅ (t' !! a) = default ∅ (t !! a) ∨ a = ToLower address) →
  match co_tx x with Some h => {[h]} | None => (∅ : gset gostring) end ∪ set_map hash_at (default ∅ (t !! ToLower address))
    = set_map hash_at (default ∅ (t' !! ToLower address)) →
  counted k (on_delta f address n s) t' (x :: l).
Proof.
  intros [H1 H2 H3] [Hsame Hadd] Hx Hk Ht Hseen. split.
  - intros a d. rewrite lookup_on_delta, !total_cons, of_address_cons, Hx. case_decide as E.
    + intros [= <-]. destruct (Hsame (default (new_delta a n) (s !! a))) as (-> & -> & -> & ->).
      destruct (Hadd (default (new_delta a n) (s !! a))) as (-> & -> & ->).
      destruct (s !! a) as [d|] eqn:Es; cbn [from_option id].
      * destruct (H1 a d Es) as (->&->&->&->&->&->&->&_). done.
      * unfold total. rewrite (H2 a Es). subst a. cbn. rewrite Hk by done. done.
    + intros Hd. destruct (H1 a d Hd) as (?&?&?&?&->&->&->&?). done.
  - intros a. rewrite lookup_on_delta, of_address_cons, Hx. case_decide; [done|]. apply H2.
  - intros a. rewrite txs_seen_cons, Hx, H3. case_decide as E; [subst a; done|].
    destruct (Ht a) as [->|]; [|done]. set_solver.
Qed.
End Counted.

Lemma lower_Address_Hex `{Keccak} a : ToLower (Address_Hex a) = $"0x" ++ ToLower (EncodeToString a).
Proof. unfold Address_Hex. by rewrite ToLower_app, ToLower_checksum by apply EncodeToString_lowercase. Qed.

Lemma lower_Address_Hex_inj `{Keccak} a b : ToLower (Address_Hex a) = ToLower (Address_Hex b) → a = b.
Proof.
  rewrite !lower_Address_Hex. intros E%app_inv_head. apply (f_equal DecodeString) in E.
  rewrite !DecodeString_ToLower, !DecodeString_Encode in E. congruence.
Qed.

Lemma lower_zero `{Keccak} a : ToLower (Address_Hex a) = zero_text ↔ a = zeroAddress.
Proof.
  assert (zero_text = ToLower (Address_Hex zeroAddress)) as E.
  { rewrite lower_Address_Hex. vm_compute. reflexivity. }
  rewrite E. split; [apply lower_Address_Hex_inj|by intros ->].
Qed.

Definition no_count (_ : gostring) : Z := 0.

Section Loop.
Context `{Keccak} (c : build_config) (nd : node_answers) (cache : gset gostring) (n ts : Z) (hash_at : Z → gostring).

Definition rows_of (b : build) : list contribution := contributions (b_txs b) (b_transfers b) [] (b_contracts b).
(** The counters are those of the contributions [l], and only transactions below
    [idx] were touched. *)
Definition owes (idx : Z) (b : build) (l : list contribution) : Prop :=
  counted n hash_at no_count (b_stats b) (b_addressTxs b) l ∧
  (∀ a i, i ∈ default ∅ (b_addressTxs b !! a) → 0 ≤ i < idx).

Lemma owes_touch (idx i : Z) (b : build) (l : list contribution) (f : AddressStatsDelta → AddressStatsDelta) (address : gostring) (x : contribution) :
  owes idx b l → adds f x → co_address x = ToLower address → co_tx x = Some (hash_at i) → 0 ≤ i < idx →
  owes idx (touchAddressTx f address i n b) (x :: l).
Proof.
  intros [Hc Hi] Hf Hx Htx Hr. split.
  - cbn. eapply counted_cons; [done|done|done|done| |].
    + intros a. destruct (decide (a = ToLower address)) as [->|Hne]; [by right|]. left. by rewrite lookup_insert_ne.
    + rewrite Htx, lookup_insert_eq. cbn. rewrite set_map_union_L, set_map_singleton_L. done.
  - cbn. intros a j. destruct (decide (a = ToLower address)) as [->|Hne].
    + rewrite lookup_insert_eq. cbn. rewrite elem_of_union, elem_of_singleton. intros [->|Hj]; [done|by eapply Hi].
    + rewrite lookup_insert_ne by done. apply Hi.
Qed.

Lemma owes_perm idx b l1 l2 : l1 ≡ₚ l2 → owes idx b l1 → owes idx b l2.
Proof. intros Hp [Hc Hi]. split; [by eapply counted_perm|done]. Qed.

(** Only the counters matter. *)
Lemma owes_same idx b b' l : b_stats b' = b_stats b → b_addressTxs b' = b_addressTxs b → owes idx b l → owes idx b' l.
Proof. unfold owes. by intros -> ->. Qed.

Definition participant (a h : gostring) : list contribution :=
  if decide (a = zeroAddress) then [] else [mkContribution (ToLower (Address_Hex a)) (Some h) n 0 0 1].

Lemma owes_participant idx i b l a : owes idx b l → 0 ≤ i < idx →
  owes idx (countTransferParticipant a i n b) (participant a (hash_at i) ++ l).
Proof.
  intros Ho Hi. unfold countTransferParticipant, participant. case_decide; [done|].
  apply owes_touch; try done. split; intros d; cbn; split_and!; lia || done.
Qed.

Lemma rows_of_participant a i b : rows_of (countTransferParticipant a i n b) = rows_of b.
Proof. unfold countTransferParticipant. by destruct (decide (a = zeroAddress)). Qed.

Lemma transfer_row_contributions txh l f t id :
  transfer_contributions (transfer_row_of n ts txh l f t id) =
  participant f txh ++ (if decide (t = f) then [] else participant t txh).
Proof.
  unfold transfer_contributions, participant, transfer_row_of. cbn [tr_from tr_to tr_tx tr_block].
  rewrite (decide_ext (ToLower (Address_Hex f) = zero_text) (f = zeroAddress)) by apply lower_zero.
  f_equal. destruct (decide (t = f)) as [->|Hne]; [rewrite decide_True by auto; done|].
  destruct (decide (t = zeroAddress)) as [->|Hz].
  - rewrite decide_True; [done|]. left. by apply lower_zero.
  - rewrite decide_False; [done|]. intros [E%lower_zero|E%lower_Address_Hex_inj]; done.
Qed.

Lemma rows_snoc_transfer b txs trs crs r : txs = b_txs b → trs = b_transfers b ++ [r] → crs = b_contracts b →
  contributions txs trs [] crs ≡ₚ transfer_contributions r ++ rows_of b.
Proof.
  intros -> -> ->. unfold rows_of, contributions. rewrite bind_app, bind_one.
  rewrite <-!app_assoc, !(Permutation_app_comm (b_txs b ≫= _)). rewrite <-!app_assoc.
  rewrite (Permutation_app_comm (b_transfers b ≫= _)), <-!app_assoc. f_equiv. 
  rewrite (Permutation_app_comm (b_transfers b ≫= _)). by rewrite <-!app_assoc.
Qed.

Lemma add_log_owes idx i b l : owes idx b (rows_of b) → 0 ≤ i < idx →
  owes idx (add_log cache n ts (hash_at i) i b l) (rows_of (add_log cache n ts (hash_at i) i b l)).
Proof.
  intros Ho Hi. unfold add_log. destruct (transfer_event l) as [[[f t] id]|]; [|exact Ho].
  unfold add_transfer_log.
  match goal with |- owes _ (if _ then countTransferParticipant _ _ _ ?b else _) _ => set (b1 := b) end.
  assert (owes idx b1 (rows_of b)) as H1 by (by eapply owes_same; [..|exact Ho]).
  assert (rows_of b1 ≡ₚ participant f (hash_at i) ++ (if decide (t = f) then [] else participant t (hash_at i)) ++ rows_of b) as Hr.
  { unfold rows_of at 1. rewrite (rows_snoc_transfer b _ _ _ (transfer_row_of n ts (hash_at i) l f t id)) by done.
    by rewrite transfer_row_contributions, <-app_assoc. }
  apply (owes_participant idx i b1 _ f) in H1; [|done].
  destruct (decide (t = f)); rewrite !rows_of_participant.
  - eapply owes_perm; [symmetry; exact Hr|done].
  - apply (owes_participant idx i _ _ t) in H1; [|done]. eapply owes_perm; [|exact H1].
    rewrite Hr, !(assoc_L (++)). f_equiv. apply Permutation_app_comm.
Qed.

Lemma add_logs_owes idx i logs b : owes idx b (rows_of b) → 0 ≤ i < idx →
  owes idx (foldl (add_log cache n ts (hash_at i) i) b logs) (rows_of (foldl (add_log cache n ts (hash_at i) i) b logs)).
Proof. revert b. induction logs as [|l logs IH]; intros b Ho Hi; [done|]. apply IH; [|done]. by apply add_log_owes. Qed.

Lemma owes_weaken idx idx' b l : idx ≤ idx' → owes idx b l → owes idx' b l.
Proof. intros Hle [Hc Hi]. split; [done|]. intros a i Ha. specialize (Hi a i Ha). lia. Qed.

Lemma adds_or_contract b x : co_sent x = 0 → co_internal x = 0 → co_transfers x = 0 → adds (or_contract b) x.
Proof. intros E1 E2 E3. split; intros d; rewrite ?E1, ?E2, ?E3; cbn; done. Qed.

Lemma rows_snoc_tx b r : rows_of (add_tx_row r b) = (b_txs b ≫= tx_contributions) ++ tx_contributions r ++
  (b_transfers b ≫= transfer_contributions) ++ (b_contracts b ≫= contract_contributions).
Proof. unfold rows_of, contributions. cbn. rewrite bind_app, bind_one, <-app_assoc. done. Qed.

Lemma rows_snoc_tx_perm b r : rows_of (add_tx_row r b) ≡ₚ tx_contributions r ++ rows_of b.
Proof. rewrite rows_snoc_tx. rewrite Permutation_app_swap_app. done. Qed.

(** A contract row and the entry of its address. *)
Lemma owes_contract idx b row txs trs crs : owes idx b (rows_of b) →
  txs = b_txs b → trs = b_transfers b → crs = b_contracts b ++ [row] →
  counted n hash_at no_count (on_delta (or_contract true) (cr_address row) n (b_stats b)) (b_addressTxs b) (contributions txs trs [] crs).
Proof.
  intros [Hc _] -> -> ->. eapply counted_perm; [|eapply counted_cons with (x := mkContribution (ToLower (cr_address row)) None (cr_block row) 0 0 0)].
  - unfold contributions. rewrite bind_app, bind_one, !(assoc_L (++)). apply Permutation_cons_append.
  - rewrite <-!(assoc_L (++)). exact Hc.
  - by apply adds_or_contract.
  - done.
  - done.
  - auto.
  - cbn. set_solver.
Qed.

Lemma add_creation_owes idx rt r b : owes idx b (rows_of b) →
  owes idx (add_creation c nd n rt r b) (rows_of (add_creation c nd n rt r b)).
Proof.
  intros Ho. unfold add_creation. destruct r as [rc|]; [|done]. destruct (created_address rt (Some rc)); [|done].
  destruct (rc_status rc =? 0); [done|]. destruct (contractCode _ _ _ _) as [code|e].
  - destruct (decide (code = [])); [done|]. split; [|apply Ho]. cbn [b_stats b_addressTxs rows_of b_txs b_transfers b_contracts].
    by eapply (owes_contract idx b (mkContractRow _ _ _ _ _ _)).
  - by destruct (CodeAtBlock c).
Qed.

Lemma add_tx_owes receipts idx rt b : 0 ≤ idx → hash_at idx = Hash_Hex (rt_hash rt) → owes idx b (rows_of b) →
  owes (idx + 1) (add_tx c nd cache n ts receipts idx rt b) (rows_of (add_tx c nd cache n ts receipts idx rt b)).
Proof.
  intros Hidx Hh Ho. unfold add_tx. set (r := receipts !! rt_hash rt). set (row := tx_row_of n idx rt r).
  set (b1 := add_tx_row row b).
  assert (owes (idx + 1) b1 (rows_of b)) as H1.
  { eapply owes_same; [done|done|]. eapply owes_weaken; [|done]. lia. }
  set (x := mkContribution (ToLower (Address_Hex (rt_from rt))) (Some (Hash_Hex (rt_hash rt))) n (if bumpsNonce (i64 (rt_type rt)) then 1 else 0) 0 0).
  assert (adds (if bumpsNonce (i64 (rt_type rt)) then add_sent else id) x) as Hx.
  { subst x. destruct (bumpsNonce _); split; intros d; cbn; split_and!; lia || done. }
  pose proof (owes_touch (idx + 1) idx b1 _ _ (Address_Hex (rt_from rt)) x H1 Hx) as H2.
  specialize (H2 eq_refl ltac:(by rewrite Hh) ltac:(lia)).
  match goal with |- context [match rt_to rt with Some _ => _ | None => ?b end] => set (b2 := b) in * end.
  set (b3 := match rt_to rt with Some _ => _ | None => _ end).
  assert (owes (idx + 1) b3 (rows_of b3)) as H3.
  { assert (rows_of b3 = rows_of b1) as -> by (subst b3; by destruct (rt_to rt)).
    subst b1. eapply owes_perm; [symmetry; apply rows_snoc_tx_perm|].
    unfold tx_contributions, row, tx_row_of. cbn [tx_from tx_to tx_hash tx_type tx_block]. subst b3.
    destruct (rt_to rt) as [to|]; cbn [fmap option_fmap option_map]; [|exact H2].
    eapply owes_perm; [apply Permutation_swap|].
    apply owes_touch; [exact H2|by apply adds_or_contract|done|by rewrite Hh|lia]. }
  apply (add_creation_owes _ rt r) in H3. destruct r as [rc|]; [|done]. rewrite <-Hh. apply add_logs_owes; [done|lia].
Qed.

Lemma add_txs_owes receipts txs idx b : 0 ≤ idx →
  (∀ k rt, txs !! k = Some rt → hash_at (idx + Z.of_nat k) = Hash_Hex (rt_hash rt)) → owes idx b (rows_of b) →
  owes (idx + zlen txs) (add_txs_from c nd cache n ts receipts idx txs b) (rows_of (add_txs_from c nd cache n ts receipts idx txs b)).
Proof.
  revert idx b. induction txs as [|rt txs IH]; intros idx b Hidx Hh Ho.
  - cbn. by replace (idx + zlen (@nil RawTransaction)) with idx by (unfold zlen; cbn; lia).
  - cbn [add_txs_from]. rewrite zlen_cons, Z.add_assoc. apply IH; [lia| |].
    + intros k rt' Hk. rewrite <-(Hh (S k) rt') by done. f_equal. lia.
    + apply add_tx_owes; [done| |done]. rewrite <-(Hh O rt) by done. f_equal. lia.
Qed.
End Loop.

(** ** After the loop *)

Section After.
Context `{Keccak} (c : build_config) (nd : node_answers) (n : Z) (hash_at : Z → gostring).
Context (t : gmap gostring (gset Z)).

Definition tx_counts (a : gostring) : Z := Z.of_nat (size (default ∅ (t !! a))).

Lemma counted_count_txs s l : counted n hash_at no_count s t l → counted n hash_at tx_counts (count_txs t s) t l.
Proof.
  intros [H1 H2 H3]. split; [|intros a Ha; apply H2|done].
  - intros a d. unfold count_txs. rewrite lookup_merge. destruct (s !! a) as [d0|] eqn:Es; cbn; [|by destruct (t !! a)].
    destruct (H1 a d0 Es) as (?&?&?&E&?). unfold no_count in E. unfold tx_counts.
    destruct (t !! a) as [x|]; intros [= <-]; cbn; rewrite ?E, ?size_empty; split_and!; tauto || done.
  - unfold count_txs in Ha. rewrite lookup_merge in Ha. destruct (s !! a), (t !! a); cbn in Ha; done.
Qed.

Lemma tx_counts_zero s l a : counted n hash_at tx_counts s t l → s !! a = None → tx_counts a = 0.
Proof.
  intros [_ H2 H3] Ha. specialize (H3 a). unfold txs_seen in H3. rewrite (H2 a Ha) in H3. cbn in H3.
  unfold tx_counts. destruct (decide (default ∅ (t !! a) = ∅)) as [->|Hne]; [by rewrite size_empty|].
  apply set_choose_L in Hne as [i Hi]. exfalso. assert (hash_at i ∈ (∅ : gset gostring)) as Hin; [|set_solver].
  rewrite H3. by apply elem_of_map_2.
Qed.

(** An address is touched without a transaction. *)
Lemma counted_touch s l f (address : gostring) x : counted n hash_at tx_counts s t l → adds f x →
  co_address x = ToLower address → co_tx x = None → counted n hash_at tx_counts (on_delta f address n s) t (x :: l).
Proof.
  intros Hc Hf Hx Ht. eapply counted_cons; [done|done|done| |auto|].
  - intros Hn. by eapply tx_counts_zero.
  - rewrite Ht. set_solver.
Qed.

Lemma counted_internal s l it : counted n hash_at tx_counts s t l →
  counted n hash_at tx_counts (count_internal n s it) t (internal_contributions it ++ l).
Proof.
  intros Hc. unfold count_internal, internal_contributions, EqualFold.
  assert (∀ a, adds add_internal (mkContribution a None (CallTrace.BlockNumber it) 0 1 0)) as Hadd.
  { intros a. split; intros d; cbn; split_and!; lia || done. }
  pose proof (counted_touch s l add_internal (From it) (mkContribution (ToLower (From it)) None (CallTrace.BlockNumber it) 0 1 0) Hc (Hadd _) eq_refl eq_refl) as H1.
  destruct (To it) as [to|]; [|exact H1].
  destruct (decide (ToLower to = ToLower (From it))) as [E|Hne].
  - rewrite bool_decide_eq_true_2 by done. exact H1.
  - rewrite bool_decide_eq_false_2 by done. eapply counted_perm; [|eapply (counted_touch _ _ add_internal to _ H1 (Hadd _)); done].
    cbn. apply Permutation_swap.
Qed.

Lemma counted_internals its s l : counted n hash_at tx_counts s t l →
  counted n hash_at tx_counts (foldl (count_internal n) s its) t ((its ≫= internal_contributions) ++ l).
Proof.
  revert s l. induction its as [|it its IH]; intros s l Hc; [done|]. cbn [foldl]. rewrite bind_cons.
  eapply counted_perm; [|apply IH, counted_internal, Hc]. rewrite Permutation_app_swap_app. by rewrite <-app_assoc.
Qed.

Lemma counted_creations fs b l0 : counted n hash_at tx_counts (b_stats b) t (l0 ++ (b_contracts b ≫= contract_contributions)) →
  let b' := foldl (add_internal_creation c nd n) b fs in
  b_txs b' = b_txs b ∧ b_transfers b' = b_transfers b ∧ b_logs b' = b_logs b ∧ b_nfts b' = b_nfts b ∧ b_work b' = b_work b ∧
  counted n hash_at tx_counts (b_stats b') t (l0 ++ (b_contracts b' ≫= contract_contributions)).
Proof.
  revert b. induction fs as [|f fs IH]; intros b Hc; [done|]. cbn [foldl].
  assert (∃ b1, add_internal_creation c nd n b f = b1 ∧ b_txs b1 = b_txs b ∧ b_transfers b1 = b_transfers b ∧ b_logs b1 = b_logs b ∧
    b_nfts b1 = b_nfts b ∧ b_work b1 = b_work b ∧
    counted n hash_at tx_counts (b_stats b1) t (l0 ++ (b_contracts b1 ≫= contract_contributions))) as (b1 & -> & E1 & E2 & E3 & E4 & E5 & H1).
  { eexists. split; [done|]. unfold add_internal_creation. destruct (To f) as [to|]; [|done].
    destruct (contractFromCreation _ _ _ _) as [row|]; [|done]. cbn [b_txs b_transfers b_logs b_nfts b_work b_stats b_contracts].
    split_and!; [done..|]. rewrite bind_app, bind_one, (assoc_L (++)).
    eapply counted_perm; [apply Permutation_cons_append|].
    apply (counted_touch _ _ (or_contract true) (cr_address row)); [done|by apply adds_or_contract|done|done]. }
  destruct (IH b1 H1) as (F1 & F2 & F3 & F4 & F5 & H2).
  rewrite F1, F2, F3, F4, F5. done.
Qed.
End After.

Lemma set_map_size_inj (f : Z → gostring) (X : gset Z) :
  (∀ i j, i ∈ X → j ∈ X → f i = f j → i = j) → size (set_map f X : gset gostring) = size X.
Proof.
  intros Hinj. unfold set_map. rewrite size_list_to_set.
  - by rewrite length_fmap.
  - apply NoDup_fmap_2_strong; [|apply NoDup_elements]. intros x y Hx Hy. apply Hinj; by apply elem_of_elements.
Qed.

(** The recount of a block's rows, for one address. *)
Definition recount (n : Z) (l : list contribution) (a : gostring) (d : AddressStatsDelta) : Prop :=
  ad_address d = a ∧ ad_block d = n ∧ ad_last d = 0 ∧ ad_txs d = Z.of_nat (size (txs_seen a l)) ∧ ad_sent d = total co_sent a l ∧
  ad_internal d = total co_internal a l ∧ ad_transfers d = total co_transfers a l.

Definition data_contributions (d : BlockData) : list contribution :=
  contributions (bd_txs d) (bd_transfers d) (bd_internal d) (bd_contracts d).

(** The text of the hash of the transaction at an index. *)
Definition hash_text (txs : list RawTransaction) (i : Z) : gostring :=
  default [] (Hash_Hex <$> ((rt_hash <$> txs) !! Z.to_nat i)).

Lemma hash_at_inj txs i j : NoDup (rt_hash <$> txs) → 0 ≤ i < zlen txs → 0 ≤ j < zlen txs →
  hash_text txs i = hash_text txs j → i = j.
Proof.
  unfold hash_text, zlen. intros Hnd Hi Hj E.
  destruct (lookup_lt_is_Some_2 (rt_hash <$> txs) (Z.to_nat i)) as [hi Ei]; [rewrite length_fmap; lia|].
  destruct (lookup_lt_is_Some_2 (rt_hash <$> txs) (Z.to_nat j)) as [hj Ej]; [rewrite length_fmap; lia|].
  rewrite Ei, Ej in E. assert (Hash_Hex hi = Hash_Hex hj) as E' by exact E.
  apply (f_equal FromHex) in E'. rewrite !FromHex_Hash_Hex in E'. subst hj.
  assert (Z.to_nat i = Z.to_nat j) by (by eapply NoDup_lookup). lia.
Qed.

Lemma buildBlock_counted `{Keccak} c nd cs raw receipts : NoDup (rt_hash <$> rb_txs raw) →
  let d := built_data (buildBlock c nd cs raw receipts) in
  (∀ a, is_Some (bd_stats d !! a) ↔ of_address a (data_contributions d) ≠ []) ∧
  ∀ a δ, bd_stats d !! a = Some δ → recount (NumberU64 raw) (data_contributions d) a δ.
Proof.
  intros Hnd. set (hash_at := hash_text (rb_txs raw)).
  unfold buildBlock. destruct (fetch_internal c nd (receiptTxHashes c raw)) as [its terr].
  unfold after_loop.
  set (b0 := add_txs_from c nd (tokenCache cs) (NumberU64 raw) (rb_timestamp raw) receipts 0 (rb_txs raw) (empty_build cs)).
  assert (owes (NumberU64 raw) hash_at (zlen (rb_txs raw)) b0 (rows_of b0)) as [Hc Hidx].
  { apply (add_txs_owes c nd (tokenCache cs) (NumberU64 raw) (rb_timestamp raw) hash_at receipts (rb_txs raw) 0); [lia| |].
    - intros k rt Hk. unfold hash_at, hash_text. rewrite Z.add_0_l, Nat2Z.id, list_lookup_fmap, Hk. done.
    - split; [|intros a i; cbn; rewrite lookup_empty; set_solver].
      split; [intros a d; cbn; by rewrite lookup_empty|done|]. intros a. cbn. rewrite lookup_empty. set_solver. }
  set (t := b_addressTxs b0) in *. apply counted_count_txs in Hc.
  apply (counted_internals (NumberU64 raw) hash_at t its) in Hc.
  destruct (counted_creations c nd (NumberU64 raw) hash_at t (internalCreations its)
    (set_stats (foldl (count_internal (NumberU64 raw)) (count_txs t (b_stats b0)) its) t
       (set_stats (count_txs t (b_stats b0)) t b0))
    ((its ≫= internal_contributions) ++ (b_txs b0 ≫= tx_contributions) ++ (b_transfers b0 ≫= transfer_contributions)))
    as (E1 & E2 & _ & _ & _ & Hf).
  { cbn. eapply counted_perm; [|exact Hc]. unfold rows_of, contributions. cbn. by rewrite <-!(assoc_L (++)). }
  cbn in E1, E2. unfold add_internals. cbn [built_data bd_stats b_stats b_addressTxs set_stats].
  set (bf := foldl (add_internal_creation c nd (NumberU64 raw)) _ _) in *.
  unfold data_contributions. cbn [bd_txs bd_transfers bd_internal bd_contracts].
  assert (counted (NumberU64 raw) hash_at (tx_counts t) (b_stats bf) t
    (contributions (b_txs bf) (b_transfers bf) its (b_contracts bf))) as [H1 H2 H3].
  { eapply counted_perm; [|exact Hf]. rewrite E1, E2. unfold contributions. rewrite <-!(assoc_L (++)).
    rewrite Permutation_app_swap_app. f_equiv. apply Permutation_app_swap_app. }
  split.
  - intros a. split; [intros [d Hd]; by apply (H1 a d)|]. intros Hne. destruct (b_stats bf !! a) eqn:E; [by eexists|].
    by apply H2 in E.
  - intros a d Hd. destruct (H1 a d Hd) as (?&?&?&Etx&?&?&?&_). unfold recount. split_and!; try done.
    rewrite Etx, H3. unfold tx_counts. f_equal. symmetry. apply set_map_size_inj.
    intros i j Hi%Hidx Hj%Hidx. by apply hash_at_inj.
Qed.

(** ** The shape of the rows *)

(** The owner row a transfer of an NFT gives, its token URI apart. *)
Definition nft_part (r : nft_row) : gostring * gostring * gostring * Z := (nf_token r, nf_id r, nf_owner r, nf_block r).
Definition nft_of (t : transfer_row) : list (gostring * gostring * gostring * Z) :=
  match tr_id t with Some i => [(tr_token t, i, tr_to t, tr_block t)] | None => [] end.

(** The balance reads a transfer asks for. *)
Record shaped `{Keccak} (n : Z) (b : build) : Prop := {
  sh_txs : Forall (λ t, tx_block t = n) (b_txs b);
  sh_transfers : Forall (λ t, tr_block t = n) (b_transfers b);
  sh_contracts : Forall (λ r, cr_block r = n) (b_contracts b);
  sh_nfts : nft_part <$> b_nfts b = b_transfers b ≫= nft_of;
  sh_types : Forall (λ t, tr_type t = TokenTypeERC721 ↔ is_Some (tr_id t)) (b_transfers b);
  sh_values : Forall (λ t, is_Some (SetString 10 (tr_value t))) (b_transfers b);
  sh_work : ∀ t a, t ∈ b_transfers b → a ≠ zeroAddress → Address_Hex a = tr_from t ∨ Address_Hex a = tr_to t →
    ∃ w, w ∈ b_work b ∧ w_address w = a ∧ Address_Hex (w_token w) = tr_token t ∧ w_block w = n }.

Section Shape.
Context `{Keccak} (c : build_config) (nd : node_answers) (cache : gset gostring) (n ts : Z).

(** Only the rows matter. *)
Lemma shaped_same b b' : b_txs b' = b_txs b → b_transfers b' = b_transfers b → b_contracts b' = b_contracts b →
  b_nfts b' = b_nfts b → b_work b' = b_work b → shaped n b → shaped n b'.
Proof. intros E1 E2 E3 E4 E5 []. split; rewrite ?E1, ?E2, ?E3, ?E4, ?E5; done. Qed.

Lemma touch_shaped f a i b : shaped n b → shaped n (touchAddressTx f a i n b).
Proof. by apply shaped_same. Qed.

Lemma participant_shaped a i b : shaped n b → shaped n (countTransferParticipant a i n b).
Proof. unfold countTransferParticipant. destruct (decide (a = zeroAddress)); [done|]. apply touch_shaped. Qed.

Lemma work_of_in a token : a ≠ zeroAddress → mkWork a token n 0 ∈ work_of n a token.
Proof. intros. unfold work_of. rewrite decide_False by done. left. Qed.

Lemma add_log_shaped txh i b l : shaped n b → shaped n (add_log cache n ts txh i b l).
Proof.
  intros Hs. unfold add_log. destruct (transfer_event l) as [[[f t] id]|]; [|by eapply shaped_same; [..|exact Hs]].
  unfold add_transfer_log.
  match goal with |- shaped _ (if _ then countTransferParticipant _ _ _ ?b else _) => assert (shaped n b) as H1 end;
    [|destruct (decide (t = f)); repeat apply participant_shaped; done].
  destruct Hs as [H1 H2 H3 H4 H5 H7 H6]. split; cbn [b_txs b_transfers b_contracts b_nfts b_work]; [done| |done| | | |].
  - apply Forall_app_2; [done|]. apply Forall_singleton. done.
  - rewrite fmap_app, H4, bind_app, bind_one. f_equal. destruct id; done.
  - apply Forall_app_2; [done|]. apply Forall_singleton. cbn. destruct id; cbn; split; intros; try done; by destruct H0.
  - apply Forall_app_2; [done|]. apply Forall_singleton. cbn. destruct id; [by eexists|]. destruct (decide (rl_data l = [])); [by eexists|].
    rewrite SetString_Text by lia. by eexists.
  - intros tr a [Htr| ->%list_elem_of_singleton]%elem_of_app Ha Hor.
    + destruct (H6 tr a Htr Ha Hor) as (w & Hw & ?). exists w. split; [|done]. set_solver.
    + unfold transfer_row_of in Hor; cbn [tr_from tr_to] in Hor. destruct Hor as [E|E]; apply (f_equal FromHex) in E; rewrite !FromHex_Address_Hex in E; subst a;
        eexists (mkWork _ (rl_address l) n 0); (split; [|done]);
        pose proof (work_of_in f (rl_address l)); pose proof (work_of_in t (rl_address l)); set_solver.
Qed.

Lemma add_creation_shaped rt r b : shaped n b → shaped n (add_creation c nd n rt r b).
Proof.
  intros Hs. unfold add_creation. destruct r as [rc|]; [|done]. destruct (created_address _ _); [|done].
  destruct (_ =? 0); [done|]. destruct (contractCode _ _ _ _) as [code|];
    [|destruct (CodeAtBlock c); by eapply shaped_same; [..|exact Hs]].
  destruct (decide (code = [])); [done|]. destruct Hs. split; try done.
  cbn. apply Forall_app_2; [done|]. by apply Forall_singleton.
Qed.

Lemma add_tx_shaped receipts idx rt b : shaped n b → shaped n (add_tx c nd cache n ts receipts idx rt b).
Proof.
  intros Hs. unfold add_tx.
  assert (∀ logs b0, shaped n b0 → shaped n (foldl (add_log cache n ts (Hash_Hex (rt_hash rt)) idx) b0 logs)) as Hl.
  { induction logs; [done|]. intros. apply IHlogs. by apply add_log_shaped. }
  match goal with |- shaped n (match ?r with Some _ => _ | None => add_creation _ _ _ _ _ ?b end) => assert (shaped n b) as H1 end.
  - destruct (rt_to rt); repeat apply touch_shaped; (destruct Hs; split; try done); cbn; apply Forall_app_2; try done;
      by apply Forall_singleton.
  - apply (add_creation_shaped rt (receipts !! rt_hash rt)) in H1. destruct (receipts !! rt_hash rt); [by apply Hl|done].
Qed.

Lemma add_txs_shaped receipts txs idx b : shaped n b → shaped n (add_txs_from c nd cache n ts receipts idx txs b).
Proof. revert idx b. induction txs; intros idx b Hs; [done|]. cbn. by apply IHtxs, add_tx_shaped. Qed.

Lemma creations_shaped fs b : shaped n b → shaped n (foldl (add_internal_creation c nd n) b fs).
Proof.
  revert b. induction fs as [|f fs IH]; intros b Hs; [done|]. cbn [foldl]. apply IH. unfold add_internal_creation.
  destruct (To f); [|done]. destruct (contractFromCreation _ _ _ _) as [row|] eqn:E; [|by eapply shaped_same; [..|exact Hs]].
  assert (cr_block row = n) as Hr.
  { unfold contractFromCreation in E. repeat case_match; simplify_eq/=; done. }
  destruct Hs. split; try done. cbn. apply Forall_app_2; [done|]. by apply Forall_singleton.
Qed.
End Shape.

Lemma nft_rows_part c nd b : nft_part <$> nft_rows c nd b = nft_part <$> b_nfts b.
Proof.
  unfold nft_rows. destruct (_ || _); [done|]. set (uris := n_uris nd _). generalize (imap pair (b_uris b)) as l.
  generalize (b_nfts b) as rows. intros rows l. revert rows. induction l as [|[k [x i]] l IH]; intros rows; [done|].
  cbn [foldl]. rewrite IH. destruct (uris !! k) as [u|]; [|done].
  apply list_eq. intros j. rewrite !list_lookup_fmap. destruct (decide (i = j)) as [->|Hne].
  - rewrite list_lookup_alter_eq. destruct (rows !! j); done.
  - by rewrite list_lookup_alter_ne.
Qed.

(** What the writer may rely on: the rows are of one block, the counters are the
    recount of the rows, and the owner rows are the NFT transfers in order. *)
Record data_ok (d : BlockData) : Prop := {
  ok_block : ∃ b, bd_block d = Some b ∧ Forall (λ t, tx_block t = br_number b) (bd_txs d) ∧
    Forall (λ l, lr_block l = br_number b) (bd_logs d) ∧
    Forall (λ t, tr_block t = br_number b) (bd_transfers d) ∧ Forall (λ it, CallTrace.BlockNumber it = br_number b) (bd_internal d) ∧
    Forall (λ r, cr_block r = br_number b) (bd_contracts d) ∧
    ∀ a δ, bd_stats d !! a = Some δ → recount (br_number b) (data_contributions d) a δ;
  ok_seen : ∀ a, is_Some (bd_stats d !! a) ↔ of_address a (data_contributions d) ≠ [];
  ok_nfts : nft_part <$> bd_nfts d = bd_transfers d ≫= nft_of;
  ok_types : Forall (λ t, tr_type t = TokenTypeERC721 ↔ is_Some (tr_id t)) (bd_transfers d) }.

Section Built.
Context `{Keccak} (c : build_config) (nd : node_answers) (cs : caches) (raw : RawBlock) (receipts : gmap gostring Receipt).
(** A chain does not repeat a transaction in a block, and the tracer names the
    block it was asked for. *)
Hypothesis Hnd : NoDup (rt_hash <$> rb_txs raw).
Hypothesis Htraces : ∀ m hs l, n_traces nd m hs = Ok l → Forall (λ it, CallTrace.BlockNumber it = NumberU64 raw) l.

Definition built_state : build :=
  add_internals c nd (NumberU64 raw) (fetch_internal c nd (receiptTxHashes c raw)).1 (after_loop c nd cs raw receipts).

Lemma built_shaped : shaped (NumberU64 raw) built_state.
Proof.
  unfold built_state, add_internals. apply creations_shaped.
  eapply shaped_same; [..|apply (add_txs_shaped c nd (tokenCache cs) (NumberU64 raw) (rb_timestamp raw) receipts (rb_txs raw) 0 (empty_build cs))];
    try done. split; cbn; try apply Forall_nil_2; [done|]. intros t a Ht. by apply not_elem_of_nil in Ht.
Qed.

Lemma fetch_internal_blocks : Forall (λ it, CallTrace.BlockNumber it = NumberU64 raw) (fetch_internal c nd (receiptTxHashes c raw)).1.
Proof.
  unfold fetch_internal. destruct (_ && _); [|apply Forall_nil_2].
  destruct (n_traces _ _ _) as [l|] eqn:E; [by eapply Htraces|apply Forall_nil_2].
Qed.

Lemma built_logs_blocks : Forall (λ l, lr_block l = NumberU64 raw) (b_logs built_state).
Proof.
  unfold built_state, add_internals, after_loop. generalize (internalCreations (fetch_internal c nd (receiptTxHashes c raw)).1) as fs.
  assert (∀ fs b, b_logs (foldl (add_internal_creation c nd (NumberU64 raw)) b fs) = b_logs b) as Hf.
  { induction fs as [|f fs IH]; intros b; [done|]. cbn [foldl]. rewrite IH. unfold add_internal_creation.
    destruct (To f); [|done]. by destruct (contractFromCreation _ _ _ _). }
  intros fs. rewrite Hf. cbn [b_logs set_stats].
  assert (∀ txs i b, Forall (λ l, lr_block l = NumberU64 raw) (b_logs b) → Forall (λ l, lr_block l = NumberU64 raw)
    (b_logs (add_txs_from c nd (tokenCache cs) (NumberU64 raw) (rb_timestamp raw) receipts i txs b))) as Ht; [|apply Ht, Forall_nil_2].
  induction txs as [|rt txs IH]; intros i b Hb; [done|]. cbn [add_txs_from]. apply IH. unfold add_tx.
  assert (∀ r b0, b_logs (add_creation c nd (NumberU64 raw) rt r b0) = b_logs b0) as Hc.
  { intros r b0. unfold add_creation. repeat case_match; done. }
  assert (∀ logs b0, Forall (λ l, lr_block l = NumberU64 raw) (b_logs b0) → Forall (λ l, lr_block l = NumberU64 raw)
    (b_logs (foldl (add_log (tokenCache cs) (NumberU64 raw) (rb_timestamp raw) (Hash_Hex (rt_hash rt)) i) b0 logs))) as Hl.
  { induction logs as [|l logs IHl]; intros b0 H0; [done|]. cbn [foldl]. apply IHl. unfold add_log, add_transfer_log, countTransferParticipant.
    repeat case_match; cbn; apply Forall_app_2; try done; by apply Forall_singleton. }
  destruct (receipts !! rt_hash rt); [apply Hl|]; rewrite Hc; by destruct (rt_to rt).
Qed.

Lemma buildBlock_data_ok : data_ok (built_data (buildBlock c nd cs raw receipts)).
Proof.
  pose proof (buildBlock_counted c nd cs raw receipts Hnd) as [Hseen Hrec].
  pose proof built_shaped as [H1 H2 H3 H4 H5 _ _]. pose proof fetch_internal_blocks as Hi. pose proof built_logs_blocks as Hlg.
  unfold built_state in *. unfold buildBlock in *. destruct (fetch_internal c nd (receiptTxHashes c raw)) as [its terr].
  cbn [built_data fst] in *. split; [|done| |done].
  - exists (block_row_of raw). split_and!; try done.
  - cbn [bd_nfts bd_transfers]. by rewrite nft_rows_part.
Qed.

Lemma buildBlock_asks_balances t a : t ∈ bd_transfers (built_data (buildBlock c nd cs raw receipts)) → a ≠ zeroAddress →
  Address_Hex a = tr_from t ∨ Address_Hex a = tr_to t →
  ∃ w, w ∈ built_work (buildBlock c nd cs raw receipts) ∧ w_address w = a ∧ Address_Hex (w_token w) = tr_token t ∧ w_block w = NumberU64 raw.
Proof.
  pose proof (sh_work _ _ built_shaped t a) as Hw. unfold built_state in Hw. unfold buildBlock.
  destruct (fetch_internal c nd (receiptTxHashes c raw)). exact Hw.
Qed.
End Built.

(** C12: the counters a block adds to its addresses are the database's own
    recount of the block's rows: for every transaction, Transfer log, internal
    call and created contract the node returned, an address has a delta exactly
    when a row of the block mentions it, and the delta's transactions (counted
    once per transaction), sent transactions, internal calls and transfers are
    those of the rows; the zero address of a mint or burn is not counted, and a
    transfer or call to oneself counts once. Every holder of a transfer is also
    queued for a balance read. *)
Theorem buildBlock_counts_rows `{Keccak} c nd cs raw receipts :
  NoDup (rt_hash <$> rb_txs raw) →
  let d := built_data (buildBlock c nd cs raw receipts) in
  (∀ a, is_Some (bd_stats d !! a) ↔ of_address a (data_contributions d) ≠ []) ∧
  (∀ a δ, bd_stats d !! a = Some δ → recount (NumberU64 raw) (data_contributions d) a δ) ∧
  (∀ t a, t ∈ bd_transfers d → a ≠ zeroAddress → Address_Hex a = tr_from t ∨ Address_Hex a = tr_to t →
     ∃ w, w ∈ built_work (buildBlock c nd cs raw receipts) ∧ w_address w = a ∧ Address_Hex (w_token w) = tr_token t ∧
       w_block w = NumberU64 raw).
Proof.
  intros Hnd. destruct (buildBlock_counted c nd cs raw receipts Hnd) as [H1 H2]. split_and!; [done|done|].
  intros t a. apply buildBlock_asks_balances.
Qed.

(** ** A block *)

Definition quiet_node : node_answers :=
  mkNode (λ _, Ok [x60; x01]) None false false (λ _ _, Ok []) (λ l, Some ((λ a, (a, Some (mkMeta $"TKN" None 18))) <$> l)) (λ _, ∅).
Definition live_config : build_config := mkBuildConfig false false false false false true [126].
Definition sample_addr (k : Z) : gostring := be_bytes 20 k.
Definition sample_hash (k : Z) : gostring := be_bytes 32 k.
Definition transfer_log (i from to value : Z) : receipt_log :=
  mkReceiptLog (sample_addr 99) [transferTopic; be_bytes 32 from; be_bytes 32 to] (be_bytes 32 value) i false.

(** Account 1 mints to account 2 through the token, then account 2 deploys. *)
Definition sample_block : RawBlock :=
  mkRawBlock (Some 7) (sample_hash 70) (sample_hash 69) 1000 0 0 None (sample_addr 5) None None 0 [] [] (sample_hash 0)
    (sample_hash 0) (sample_hash 0)
    [mkRawTx (sample_hash 1) (sample_addr 1) (Some (sample_addr 99)) None 21000 None [] None 2 None None;
     mkRawTx (sample_hash 2) (sample_addr 2) None None 21000 None [x60] None 0 None None].
Definition sample_receipts : gmap gostring Receipt :=
  {[ sample_hash 1 := mkReceipt 1 21000 (sample_addr 0) [transfer_log 0 0 2 5; transfer_log 1 2 2 5];
     sample_hash 2 := mkReceipt 1 21000 (sample_addr 77) [] ]}.

Lemma buildBlock_counts_rows_witness :
  let kk := toy_keccak in
  recount 7 (data_contributions (built_data (buildBlock live_config quiet_node (mkCaches ∅ ∅) sample_block sample_receipts)))
    (ToLower (Address_Hex (sample_addr 2)))
    (mkDelta (ToLower (Address_Hex (sample_addr 2))) 2 0 2 1 false 0 7).
Proof.
  intros kk.
  destruct (@buildBlock_counts_rows kk live_config quiet_node (mkCaches ∅ ∅) sample_block sample_receipts) as (_ & Hr & _).
  - apply (bool_decide_eq_true_1 _). vm_compute. reflexivity.
  - apply Hr. vm_compute. reflexivity.
Defined.
