(* ===== verification/Receipts.v ===== *)
(** * The receipts of a block

    [FetchReceiptsBatch], [fetchLogsAsReceipts] and [callBudget] of [internal/rpc/rpc.go]:
    one request for the block, logs in place of receipts when the node refuses them, one
    request per transaction when it does not know the method. The goroutines of the last
    end in any order; a slot budget is shared by every caller. *)

From S2P Require Import Prelude GoStrings EthCommon BuildBlock.

(** A receipt and a log with the transaction the node says they are of. *)
Record node_receipt := mkNodeReceipt { nr_hash : gostring; nr_receipt : Receipt }.
Record node_log := mkNodeLog { nl_hash : gostring; nl_log : receipt_log }.
#[export] Instance receipt_log_eq_dec : EqDecision receipt_log.
Proof. solve_decision. Defined.

(** What the node answers: [eth_getBlockReceipts] (null, or receipts, null among them),
    [eth_getLogs], [eth_getTransactionReceipt] (a null one is an error of the client; so is
    a context that ends during the call). An error is its message. *)
Record receipts_node := mkReceiptsNode {
  rn_block : res gostring (option (list (option node_receipt)));
  rn_logs : res gostring (list node_log);
  rn_receipt : gostring → res gostring Receipt }.

(** What comes before a request per transaction: the limiter of the batch, then the slot
    and the rate of the shared budget; each ends with an error when the context does. *)
Record tx_waits := mkTxWaits { tw_limiter : gostring → res gostring unit; tw_acquire : gostring → res gostring unit }.

Inductive strategy := SBatch | SLogs | SPerTx.
Inductive receipts_err := Incomplete (tx : gostring) | NoReceipts | BothFailed (receipts logs : gostring) | TxFailed (tx msg : gostring) | NotAsked (tx msg : gostring).

Definition no_address : gostring := replicate 20 Byte.x00.
Definition synthetic : Receipt := mkReceipt 1 0 no_address [].
Definition add_node_log (m : gmap gostring Receipt) (l : node_log) : gmap gostring Receipt :=
  let r := default synthetic (m !! nl_hash l) in
  <[nl_hash l := mkReceipt (rc_status r) (rc_gasUsed r) (rc_contract r) (rc_logs r ++ [nl_log l])]> m.
Definition fetchLogsAsReceipts (logs : list node_log) : gmap gostring Receipt := foldl add_node_log ∅ logs.

(** The messages of a node that does not know the method. *)
Definition unsupported (msg : gostring) : bool :=
  Contains msg ($"method not found") || Contains msg ($"not supported") || Contains msg ($"does not exist").

(** [results[r.TxHash] = r]: a null entry is a nil dereference. *)
Fixpoint by_hash (l : list (option node_receipt)) (m : gmap gostring Receipt) : outcome (gmap gostring Receipt) :=
  match l with
  | [] => Val m
  | None :: _ => Panic
  | Some r :: l => by_hash l (<[nr_hash r := nr_receipt r]> m)
  end.

Section Fetch.
Context (node : receipts_node) (waits : tx_waits).

(** One goroutine of the group. *)
Definition one_receipt (h : gostring) : res receipts_err Receipt :=
  match tw_limiter waits h with
  | Err msg => Err (NotAsked h msg)
  | Ok _ => match tw_acquire waits h with
            | Err msg => Err (NotAsked h msg)
            | Ok _ => match rn_receipt node h with Err msg => Err (TxFailed h msg) | Ok r => Ok r end
            end
  end.

(** The goroutines by the order in which they end: the first error is the group's, and
    cancels the context of those still to come, whose results are no longer returned. *)
Fixpoint per_tx (order : list gostring) (m : gmap gostring Receipt) (first : option receipts_err) : res receipts_err (gmap gostring Receipt) :=
  match order with
  | [] => match first with Some e => Err e | None => Ok m end
  | h :: order =>
      match one_receipt h with
      | Ok r => per_tx order (<[h := r]> m) first
      | Err e => per_tx order m (match first with Some e0 => Some e0 | None => Some e end)
      end
  end.

Definition FetchReceiptsBatch (txHashes : list gostring) (with_block : bool) (order : list gostring)
  : outcome (res receipts_err (option strategy * gmap gostring Receipt)) :=
  if decide (txHashes = []) then Val (Ok (None, ∅))
  else
    let single := match per_tx order ∅ None with Ok m => Val (Ok (Some SPerTx, m)) | Err e => Val (Err e) end in
    if negb with_block then single
    else match rn_block node with
         | Ok (Some receipts) =>
             match by_hash receipts ∅ with
             | Panic => Panic
             | Val results =>
                 match list_find (λ h, results !! h = None) txHashes with
                 | Some (_, h) => Val (Err (Incomplete h))
                 | None => Val (Ok (Some SBatch, results))
                 end
             end
         | Ok None => Val (Err NoReceipts)
         | Err msg =>
             if unsupported msg then single
             else match rn_logs node with
                  | Ok logs => Val (Ok (Some SLogs, fetchLogsAsReceipts logs))
                  | Err lmsg => Val (Err (BothFailed msg lmsg))
                  end
         end.
End Fetch.

(** ** Lemmas *)

Lemma by_hash_spec l m : match by_hash l m with
  | Panic => None ∈ l
  | Val m' => None ∉ l ∧ ∀ h r, m' !! h = Some r → (m !! h = Some r ∨ Some (mkNodeReceipt h r) ∈ l)
  end.
Proof.
  revert m. induction l as [|[r|] l IH]; intros m; cbn [by_hash]; [split; [by intros ?%not_elem_of_nil|by left]| |left].
  specialize (IH (<[nr_hash r := nr_receipt r]> m)). destruct (by_hash l _) as [m'|]; [|by right]. destruct IH as [H1 H2]. split.
  - by intros [?|?]%elem_of_cons.
  - intros h x Hx. destruct (H2 h x Hx) as [Hm|?]; [|right; by right]. rewrite lookup_insert_Some in Hm. destruct Hm as [[<- <-]|[_ ?]]; [|by left].
    right. destruct r. left.
Qed.

Lemma by_hash_complete l m m' r : by_hash l m = Val m' → Some r ∈ l ∨ is_Some (m !! nr_hash r) → is_Some (m' !! nr_hash r).
Proof.
  revert m. induction l as [|[x|] l IH]; intros m; cbn [by_hash]; [| |done].
  - intros [= ->] [?%not_elem_of_nil|?]; done.
  - intros E Hr. apply (IH _ E). rewrite elem_of_cons in Hr. destruct (decide (nr_hash x = nr_hash r)) as [->|Hne]; [right; by rewrite lookup_insert_eq|].
    destruct Hr as [[[= ->]|?]|?]; [done|by left|right; by rewrite lookup_insert_ne].
Qed.
Lemma per_tx_failed node waits order m e : per_tx node waits order m (Some e) = Err e.
Proof. revert m. induction order as [|h order IH]; intros m; [done|]. cbn [per_tx]. by destruct (one_receipt _ _ h). Qed.
Lemma per_tx_spec node waits order m : match per_tx node waits order m None with
  | Ok m' => (∀ h, h ∈ order → ∃ r, one_receipt node waits h = Ok r ∧ m' !! h = Some r) ∧ (∀ h, h ∉ order → m' !! h = m !! h)
  | Err e => ∃ h, h ∈ order ∧ one_receipt node waits h = Err e
  end.
Proof.
  revert m. induction order as [|h order IH]; intros m; cbn [per_tx]; [split; [by intros ? ?%not_elem_of_nil|done]|].
  destruct (one_receipt node waits h) as [r|e] eqn:E; [|rewrite per_tx_failed; exists h; split; [left|done]].
  specialize (IH (<[h := r]> m)). destruct (per_tx _ _ _ _ _) as [m'|e].
  - destruct IH as [H1 H2]. split.
    + intros h' Hin. destruct (decide (h' ∈ order)) as [Ho|Ho]; [by apply H1|]. apply elem_of_cons in Hin as [->|Hin]; [|done].
      exists r. split; [done|]. rewrite H2 by done. by rewrite lookup_insert_eq.
    + intros h' [Hne Ho]%not_elem_of_cons. rewrite H2 by done. by rewrite lookup_insert_ne.
  - destruct IH as (h' & Hin & Hm). exists h'. split; [by right|done].
Qed.

(** Which errors a goroutine ends with, and what it took to get a receipt. *)
Lemma one_receipt_spec node waits h : match one_receipt node waits h with
  | Ok r => rn_receipt node h = Ok r ∧ tw_limiter waits h = Ok tt ∧ tw_acquire waits h = Ok tt
  | Err e => (∃ msg, e = TxFailed h msg ∧ rn_receipt node h = Err msg) ∨
      ∃ msg, e = NotAsked h msg ∧ (tw_limiter waits h = Err msg ∨ tw_acquire waits h = Err msg)
  end.
Proof.
  unfold one_receipt. destruct (tw_limiter waits h) as [[]|]; [|eauto 10]. destruct (tw_acquire waits h) as [[]|]; [|eauto 10].
  destruct (rn_receipt node h); eauto.
Qed.

(** The fallback, for the hashes in whatever order they end. *)
Lemma per_tx_block node waits txHashes order : order ≡ₚ txHashes → match per_tx node waits order ∅ None with
  | Ok m => (∀ h, h ∈ txHashes → ∃ r, rn_receipt node h = Ok r ∧ m !! h = Some r) ∧ ∀ h, h ∉ txHashes → m !! h = None
  | Err (TxFailed h msg) => h ∈ txHashes ∧ rn_receipt node h = Err msg
  | Err (NotAsked h msg) => h ∈ txHashes ∧ (tw_limiter waits h = Err msg ∨ tw_acquire waits h = Err msg)
  | Err _ => False
  end.
Proof.
  intros Hperm. pose proof (per_tx_spec node waits order ∅) as Hper. destruct (per_tx _ _ _ _ _) as [m|e].
  - destruct Hper as [H1 H2]. split; [|intros h Hh; rewrite H2; [done|by rewrite Hperm]].
    intros h Hh. destruct (H1 h) as (r & Hr & Hm); [by rewrite Hperm|]. exists r. split; [|done]. pose proof (one_receipt_spec node waits h) as Hs. rewrite Hr in Hs. apply Hs.
  - destruct Hper as (h & Hh & Hr). rewrite Hperm in Hh. pose proof (one_receipt_spec node waits h) as Hs. rewrite Hr in Hs.
    by destruct Hs as [(msg & -> & ?)|(msg & -> & ?)].
Qed.

(** A transaction with logs has one receipt with all of them, in order. *)
Definition logs_of (logs : list node_log) (h : gostring) : list receipt_log := nl_log <$> filter (λ l, nl_hash l = h) logs.
Lemma logs_as_receipts logs h : fetchLogsAsReceipts logs !! h =
  if decide (logs_of logs h = []) then None else Some (mkReceipt 1 0 no_address (logs_of logs h)).
Proof.
  unfold fetchLogsAsReceipts. induction logs as [|l logs IH] using rev_ind; [done|].
  rewrite foldl_app. cbn [foldl]. set (m := foldl add_node_log ∅ logs) in *. unfold add_node_log. cbn zeta. unfold logs_of in *. rewrite filter_app, fmap_app, filter_cons, filter_nil.
  destruct (decide (nl_hash l = h)) as [<-|Hne].
  - rewrite lookup_insert_eq, IH. cbn [fmap list_fmap]. destruct (decide (nl_log <$> filter _ logs = [])) as [E|Hn].
    + rewrite E. cbn. done.
    + rewrite decide_False by (by intros [? ?]%app_eq_nil). done.
  - rewrite lookup_insert_ne by done. rewrite IH. cbn [fmap list_fmap]. by rewrite app_nil_r.
Qed.

Lemma find_missing (m : gmap gostring Receipt) (l : list gostring) : match list_find (λ h, m !! h = None) l with
  | Some (_, h) => h ∈ l ∧ m !! h = None
  | None => ∀ h, h ∈ l → is_Some (m !! h)
  end.
Proof.
  destruct (list_find _ l) as [[i h]|] eqn:E.
  - apply list_find_Some in E as (E1 & E2 & _). split; [by eapply list_elem_of_lookup_2|done].
  - apply list_find_None in E. rewrite Forall_forall in E. intros h Hh. specialize (E h Hh). cbn in E. destruct (m !! h); [done|]. by destruct E.
Qed.

(** The panic, both ways: the list is walked to its null entry whatever it holds before. *)
Lemma by_hash_panics l m : by_hash l m = Panic ↔ None ∈ l.
Proof. pose proof (by_hash_spec l m) as H. destruct (by_hash l m) as [m'|]; [|done]. split; [done|]. intros Hn. by destruct H. Qed.
Lemma fetch_panics node waits txHashes with_block order : FetchReceiptsBatch node waits txHashes with_block order = Panic ↔
  txHashes ≠ [] ∧ with_block = true ∧ ∃ l, rn_block node = Ok (Some l) ∧ None ∈ l.
Proof.
  unfold FetchReceiptsBatch. destruct (decide (txHashes = [])) as [->|Hne]; [split; [done|by intros []]|].
  destruct (per_tx _ _ _ _ _) as [mp|ep]; (destruct with_block; cbn [negb]; [|split; [done|by intros (_ & ? & _)]]);
    (destruct (rn_block node) as [[l|]|msg] eqn:Eb; [|split; [done|by intros (_ & _ & l & [=] & _)]|
      split; [by destruct (unsupported msg), (rn_logs node)|by intros (_ & _ & l & [=] & _)]]).
  all: pose proof (by_hash_panics l ∅) as Hp; destruct (by_hash l ∅) as [m|]; [|split; [intros _; split_and!; [done..|]; exists l; split; [done|by apply Hp]|done]].
  all: split; [by destruct (list_find _ _) as [[? ?]|]|]; intros (_ & _ & l' & [= <-] & Hin); by apply Hp in Hin.
Qed.

(** C38: which receipts a block gets. Whatever the node answers, however the waits for the
    rate and for a slot end, and in whatever order the requests per transaction end. The
    client panics if and only if receipts of a block are asked for by its number, for at
    least one transaction, and the node's list has a null entry. Otherwise: receipts of
    the block are the node's entries, every entry has one and every transaction asked for
    has its own; receipts fetched one by one are the node's for each transaction and for no
    other; only when the node refuses the receipts of the block with an error that does not
    say the method is unknown are they made of its logs, and then every transaction with
    logs has all of them in order, and no other has a receipt. Or the block fails, with the
    transaction that had no receipt, the answers that failed, or the transaction whose
    request failed or was not made because the context or a limiter ended the wait. *)
Theorem receipts_of_a_block node waits txHashes with_block order : order ≡ₚ txHashes →
  (FetchReceiptsBatch node waits txHashes with_block order = Panic ↔
    txHashes ≠ [] ∧ with_block = true ∧ ∃ l, rn_block node = Ok (Some l) ∧ None ∈ l) ∧
  match FetchReceiptsBatch node waits txHashes with_block order with
  | Panic => True
  | Val (Ok (None, m)) => txHashes = [] ∧ m = ∅
  | Val (Ok (Some SBatch, m)) => ∃ l, rn_block node = Ok (Some l) ∧ (∀ h, h ∈ txHashes → is_Some (m !! h)) ∧
      (∀ h r, m !! h = Some r → Some (mkNodeReceipt h r) ∈ l) ∧ ∀ r, Some r ∈ l → is_Some (m !! nr_hash r)
  | Val (Ok (Some SPerTx, m)) => (with_block = false ∨ ∃ msg, rn_block node = Err msg ∧ unsupported msg = true) ∧
      (∀ h, h ∈ txHashes → ∃ r, rn_receipt node h = Ok r ∧ m !! h = Some r) ∧ ∀ h, h ∉ txHashes → m !! h = None
  | Val (Ok (Some SLogs, m)) => ∃ msg logs, with_block = true ∧ rn_block node = Err msg ∧ unsupported msg = false ∧ rn_logs node = Ok logs ∧
      ∀ h, m !! h = if decide (logs_of logs h = []) then None else Some (mkReceipt 1 0 no_address (logs_of logs h))
  | Val (Err (Incomplete h)) => h ∈ txHashes ∧ ∃ l, rn_block node = Ok (Some l) ∧ ∀ r, nr_hash r = h → Some r ∉ l
  | Val (Err NoReceipts) => rn_block node = Ok None
  | Val (Err (BothFailed msg lmsg)) => rn_block node = Err msg ∧ unsupported msg = false ∧ rn_logs node = Err lmsg
  | Val (Err (TxFailed h msg)) => h ∈ txHashes ∧ rn_receipt node h = Err msg
  | Val (Err (NotAsked h msg)) => h ∈ txHashes ∧ (tw_limiter waits h = Err msg ∨ tw_acquire waits h = Err msg)
  end.
Proof.
  intros Hperm. split; [apply fetch_panics|]. unfold FetchReceiptsBatch. destruct (decide (txHashes = [])) as [|Hne]; [done|].
  pose proof (per_tx_block node waits txHashes order Hperm) as Hper. destruct with_block; cbn [negb].
  2: { destruct (per_tx _ _ _ _ _) as [m|[]]; try done. split; [by left|done]. }
  destruct (rn_block node) as [[l|]|msg] eqn:Eb; [|done|].
  - pose proof (by_hash_spec l ∅) as Hl. destruct (by_hash l ∅) as [m|] eqn:Em; [|done]. destruct Hl as [Hn Hm].
    assert (∀ r, Some r ∈ l → is_Some (m !! nr_hash r)) as Hall by (intros r Hr; apply (by_hash_complete l ∅ m r); [done|by left]).
    pose proof (find_missing m txHashes) as Hf. destruct (list_find _ _) as [[i h]|].
    + destruct Hf as [Hh Hmiss]. split; [done|]. exists l. split; [done|]. intros r <- Hr. destruct (Hall r Hr) as [x Hx]. congruence.
    + exists l. split_and!; [done..| |done]. intros h r Hr. destruct (Hm h r Hr) as [Hx|?]; [by rewrite lookup_empty in Hx|done].
  - destruct (unsupported msg) eqn:Eu.
    + destruct (per_tx _ _ _ _ _) as [m|[]]; try done. split; [right; by exists msg|done].
    + destruct (rn_logs node) as [logs|lmsg] eqn:El; [|done]. exists msg, logs. split_and!; [done..|]. apply logs_as_receipts.
Qed.

(** A node that does not know the method, two transactions, answered in the other order. *)
Definition old_node : receipts_node :=
  mkReceiptsNode (Err ($"rpc error: code -32601, message: the method eth_getBlockReceipts does not exist")) (Ok [])
    (λ h, if decide (h = $"b") then Ok (mkReceipt 0 7 no_address []) else Ok (mkReceipt 1 9 no_address [])).
Definition no_waits : tx_waits := mkTxWaits (λ _, Ok tt) (λ _, Ok tt).
Lemma receipts_of_a_block_witness :
  ∃ m, FetchReceiptsBatch old_node no_waits [$"a"; $"b"] true [$"b"; $"a"] = Val (Ok (Some SPerTx, m)) ∧
    m !! ($"b") = Some (mkReceipt 0 7 no_address []) ∧ m !! ($"c") = None.
Proof.
  assert ([$"b"; $"a"] ≡ₚ [$"a"; $"b"]) as Hp by apply Permutation_swap.
  pose proof (receipts_of_a_block old_node no_waits [$"a"; $"b"] true [$"b"; $"a"] Hp) as H.
  assert (match FetchReceiptsBatch old_node no_waits [$"a"; $"b"] true [$"b"; $"a"] with Val (Ok (Some SPerTx, _)) => true | _ => false end = true)
    as E by (vm_compute; reflexivity).
  destruct (FetchReceiptsBatch _ _ _ _ _) as [[[[[]|] m]|e]|]; try discriminate E.
  exists m. split; [done|]. destruct H as [_ H]. destruct H as (_ & H1 & H2). split.
  - destruct (H1 ($"b")) as (r & Hr & ->); [by right; left|]. vm_compute in Hr. injection Hr as <-. done.
  - apply H2. apply (bool_decide_unpack _). vm_compute. exact I.
Defined.

(** A null in the list: the loop reads the hash of a nil receipt. *)
Example null_receipt_panics : FetchReceiptsBatch (mkReceiptsNode (Ok (Some [None])) (Ok []) (λ _, Err [])) no_waits [$"a"] true [$"a"] = Panic.
Proof. by vm_compute. Qed.
(** A context that ends while the second transaction waits for the rate fails the block,
    although the node has both receipts. *)
Example ended_wait_fails : FetchReceiptsBatch old_node (mkTxWaits (λ h, if decide (h = $"a") then Err ($"context canceled") else Ok tt) (λ _, Ok tt))
  [$"a"; $"b"] false [$"b"; $"a"] = Val (Err (NotAsked ($"a") ($"context canceled"))).
Proof. by vm_compute. Qed.

(** ** The budget every caller shares *)

(** A call waits for a slot, then for the rate, then runs. *)
Inductive call_phase := Queued | Paced | InCall | Over.
#[export] Instance call_phase_eq_dec : EqDecision call_phase.
Proof. solve_decision. Defined.
Record callBudget := mkBudget { cb_taken : nat; cb_calls : list call_phase }.

Definition hold (c : call_phase) : bool := match c with Paced | InCall => true | _ => false end.

Section Budget.
Context (workers : nat).

(** One step of one call: a slot, if one is free; the context is done while it waits for
    one; the rate lets it go, or the context ends, which gives the slot back; the call
    returns and gives it back. *)
Inductive budget_step : callBudget → callBudget → Prop :=
| bs_join b : budget_step b (mkBudget (cb_taken b) (Queued :: cb_calls b))
| bs_slot b i : cb_calls b !! i = Some Queued → (cb_taken b < workers)%nat → budget_step b (mkBudget (S (cb_taken b)) (<[i := Paced]> (cb_calls b)))
| bs_cancel b i : cb_calls b !! i = Some Queued → budget_step b (mkBudget (cb_taken b) (<[i := Over]> (cb_calls b)))
| bs_go b i : cb_calls b !! i = Some Paced → budget_step b (mkBudget (cb_taken b) (<[i := InCall]> (cb_calls b)))
| bs_late b i : cb_calls b !! i = Some Paced → budget_step b (mkBudget (pred (cb_taken b)) (<[i := Over]> (cb_calls b)))
| bs_release b i : cb_calls b !! i = Some InCall → budget_step b (mkBudget (pred (cb_taken b)) (<[i := Over]> (cb_calls b))).

Definition holding (l : list call_phase) : nat := length (filter (λ c, Is_true (hold c)) l).

Lemma holding_insert l i c c' : l !! i = Some c → (holding (<[i := c']> l) + (if hold c then 1 else 0) = holding l + (if hold c' then 1 else 0))%nat.
Proof.
  revert i. induction l as [|x l IH]; intros [|i] Hi; cbn in Hi; [done..| |].
  - injection Hi as ->. unfold holding. change (<[0%nat := c']> (c :: l)) with (c' :: l). rewrite !filter_cons. destruct (hold c'), (hold c); repeat case_decide; cbn; try done; lia.
  - specialize (IH i Hi). unfold holding in *. change (<[S i := c']> (x :: l)) with (x :: <[i := c']> l). rewrite !filter_cons. case_decide; cbn; lia.
Qed.

Lemma budget_invariant b : rtc budget_step (mkBudget 0 []) b → cb_taken b = holding (cb_calls b) ∧ (cb_taken b ≤ workers)%nat.
Proof.
  intros Hr. assert (cb_taken (mkBudget 0 []) = holding (cb_calls (mkBudget 0 [])) ∧ (cb_taken (mkBudget 0 []) ≤ workers)%nat) as H0 by (split; [done|cbn; lia]).
  revert H0. induction Hr as [|b1 b2 b3 Hs _ IH]; [done|]. intros [H1 H2]. apply IH. clear IH.
  destruct Hs as [b|b i Hi Hlt|b i Hi|b i Hi|b i Hi|b i Hi]; cbn [cb_taken cb_calls] in *; [split; [done|lia]|..];
    match goal with |- context [<[i := ?c']> _] => pose proof (holding_insert (cb_calls b) i _ c' Hi) as Hc end; cbn [hold] in Hc; split; lia.
Qed.
End Budget.

(** The calls in flight, over every batch at once, are never more than the budget's slots,
    and once every call is over all slots are free again. *)
Theorem call_budget_holds workers b : rtc (budget_step workers) (mkBudget 0 []) b →
  (length (filter (λ c, c = InCall) (cb_calls b)) ≤ workers)%nat ∧ (Forall (λ c, c = Over) (cb_calls b) → cb_taken b = 0%nat).
Proof.
  intros Hr. destruct (budget_invariant workers b Hr) as [H1 H2]. split.
  - assert (length (filter (λ c, c = InCall) (cb_calls b)) ≤ holding (cb_calls b))%nat as Hle; [|lia].
    clear. unfold holding. induction (cb_calls b) as [|c l IH]; [done|]. rewrite !filter_cons. destruct c; repeat case_decide; cbn in *; try done; lia.
  - intros Ha. rewrite H1. clear -Ha. unfold holding. induction Ha as [|c l -> _ IH]; [done|]. by rewrite filter_cons.
Qed.
