(* ===== verification/BlockWrite.v ===== *)
(** * Writing and reverting a block

    [internal/db/batch.go] ([BeginBlockData], [Finish], [writeSharedRows],
    [checkLogConflicts]), [internal/db/queries.go] ([InsertBlock], [DeleteBlock],
    [storedBlockDiffers]), [internal/db/address_stats_revert.go],
    [internal/db/nft_tokens_revert.go], [internal/db/categories.go].

    A transaction that commits is one step of the tables, one that fails leaves
    them. History is not pruned here: no ledger, no watermark; the keys of transactions,
    frames, logs and transfers, which the database keeps per history partition, are those
    of one partition. The balances and holder counts, which the same transactions touch,
    are in [Balances]. *)

From S2P Require Import Prelude GoStrings EthCommon CallTrace SqlOrder BuildBlock.

(** ** Categories of a transaction *)

Definition CategoryCoinTransfer : Z := Z.shiftl 1 0.
Definition CategoryContractCreation : Z := Z.shiftl 1 1.
Definition CategoryContractCall : Z := Z.shiftl 1 2.
Definition CategoryTokenTransfer : Z := Z.shiftl 1 3.

Definition isEmptyCalldata (input : gostring) : bool :=
  bool_decide (input = []) || bool_decide (input = $"0x") || bool_decide (input = $"0X").
Definition hasMethodSelector (input : gostring) : bool := (10 <=? length input)%nat.

Definition flag (b : bool) (bit c : Z) : Z := if b then Z.lor c bit else c.
Definition computeTxCategories (t : tx_row) (hasTokenTransfer : bool) : Z :=
  let c := flag (negb (bool_decide (tx_value t = [])) && negb (bool_decide (tx_value t = $"0")) && isEmptyCalldata (tx_input t))
             CategoryCoinTransfer 0 in
  let c := flag (bool_decide (tx_to t = None) && (tx_status t =? 1)) CategoryContractCreation c in
  let c := flag (bool_decide (is_Some (tx_to t)) && hasMethodSelector (tx_input t)) CategoryContractCall c in
  flag hasTokenTransfer CategoryTokenTransfer c.

Definition buildTokenTransferTxSet (trs : list transfer_row) : gset gostring := list_to_set (tr_tx <$> trs).

(** ** Tables *)

(** A row of tokens, its holder count apart. *)
Record token_rec := mkTokenRec {
  te_symbol : gostring; te_name : option gostring; te_decimals : Z; te_type : gostring; te_supply : option Z;
  te_block : Z; te_tx : option gostring; te_transfers : Z }.
Record nft_rec := mkNftRec { ne_owner : gostring; ne_uri : option gostring; ne_block : Z }.
Record address_rec := mkAddressRec {
  ae_txs : Z; ae_internal : Z; ae_transfers : Z; ae_sent : Z; ae_first : Z; ae_last : Z; ae_contract : bool }.
Record chain_counters := mkCounters { blocks_total : Z; transactions_total : Z; tokens_total : Z; addresses_total : Z; transfers_total : Z }.

Record tables := mkTables {
  s_blocks : gmap Z block_row;
  s_txs : gmap gostring (tx_row * Z);                    (* hash -> row, categories *)
  s_logs : gmap (Z * Z) log_row;                         (* block, log index *)
  s_transfers : gmap (Z * Z) transfer_row;
  s_internal : gmap (gostring * gostring) InternalTransaction;  (* transaction, trace address *)
  s_contracts : gmap gostring contract_row;
  s_tokens : gmap gostring token_rec;
  s_nfts : gmap (gostring * gostring) nft_rec;           (* collection, token id *)
  s_stats : gmap gostring address_rec;
  s_counters : chain_counters;
  s_reverted : gset gostring;                            (* ledger_reverted_address *)
  s_reverts : Z }.                                       (* the address_stats_reverts counter *)

(** ** The rows a block owns *)

Inductive write_err := StoredBlockDiffers | ErrLogIndexPerTransaction | NumericOverflow | InvalidValue.

(** NUMERIC(78, 0). *)
Definition numeric_max : Z := 10 ^ 78 - 1.
Definition fits_numeric (z : Z) : bool := (- numeric_max <=? z) && (z <=? numeric_max).
Definition clampSupply (z : Z) : Z := Z.min (Z.max z (- numeric_max)) numeric_max.

(** The writer stores addresses in lower case. *)
Definition lower_tx (t : tx_row) : tx_row :=
  mkTxRow (tx_hash t) (tx_block t) (tx_index t) (ToLower (tx_from t)) (ToLower <$> tx_to t) (tx_contract t) (tx_value t)
    (tx_gasUsed t) (tx_gasPrice t) (tx_gasLimit t) (tx_maxFee t) (tx_maxPriority t) (tx_nonce t) (tx_type t) (tx_input t)
    (tx_status t) (tx_error t).
Definition lower_log (l : log_row) : log_row :=
  mkLogRow (lr_tx l) (lr_index l) (ToLower (lr_address l)) (lr_topic0 l) (lr_topic1 l) (lr_topic2 l) (lr_topic3 l) (lr_data l)
    (lr_block l) (lr_timestamp l) (lr_removed l).
Definition lower_transfer (t : transfer_row) : transfer_row :=
  mkTransferRow (tr_tx t) (tr_index t) (ToLower (tr_token t)) (ToLower (tr_from t)) (ToLower (tr_to t)) (tr_value t)
    (tr_block t) (tr_timestamp t) (tr_kind t) (tr_type t) (tr_id t).
Definition lower_internal (it : InternalTransaction) : InternalTransaction :=
  mkInternal (TxHash it) (BlockNumber it) (TraceAddress it) (ToLower (From it)) (ToLower <$> To it) (Value it) (Gas it)
    (GasUsed it) (Input it) (Output it) (CallType it) (Error it) (Timestamp it).

(** [ON CONFLICT DO NOTHING]: the table, and whether a row was written. *)
Definition insert_new {K A} `{Countable K} (k : K) (v : A) (m : gmap K A) : gmap K A * bool :=
  match m !! k with Some _ => (m, false) | None => (<[k := v]> m, true) end.

(** The numeric columns of a transaction and a transfer. *)
Definition numeric_value (v : gostring) : res write_err Z :=
  match SetString 10 v with
  | None => Err InvalidValue
  | Some z => if fits_numeric z then Ok z else Err NumericOverflow
  end.

Fixpoint insert_txs (withTransfer : gset gostring) (txs : list tx_row) (m : gmap gostring (tx_row * Z)) (delta : Z)
    : res write_err (gmap gostring (tx_row * Z) * Z) :=
  match txs with
  | [] => Ok (m, delta)
  | t :: txs =>
      try _ := numeric_value (tx_value t) in
      let '(m, new) := insert_new (tx_hash t) (lower_tx t, computeTxCategories t (bool_decide (tx_hash t ∈ withTransfer))) m in
      insert_txs withTransfer txs m (if new then delta + 1 else delta)
  end.

(** The rows that found their place taken must be the same log again. *)
Definition same_log {A} (tx_of : A → gostring) (m : gmap (Z * Z) A) (x : Z * Z * gostring) : bool :=
  match m !! x.1 with Some r => EqualFold (tx_of r) x.2 | None => true end.
Definition checkLogConflicts {A} (tx_of : A → gostring) (m : gmap (Z * Z) A) (conflicts : list (Z * Z * gostring)) : bool :=
  forallb (same_log tx_of m) conflicts.

Fixpoint insert_logs (ls : list log_row) (m : gmap (Z * Z) log_row) (conflicts : list (Z * Z * gostring))
    : gmap (Z * Z) log_row * list (Z * Z * gostring) :=
  match ls with
  | [] => (m, conflicts)
  | l :: ls =>
      let '(m, new) := insert_new (lr_block l, lr_index l) (lower_log l) m in
      insert_logs ls m (if new then conflicts else conflicts ++ [(lr_block l, lr_index l, lr_tx l)])
  end.

(** What one batch moves of a token: transfers, and the supply its ERC20 mints
    and burns imply. *)
Definition tokenStatsDelta : Type := Z * Z.
Definition supply_of (from to : gostring) (v : Z) : Z :=
  (if decide (from = zero_text) then v else 0) - (if decide (to = zero_text) then v else 0).
Definition add_token_delta (token : gostring) (supply : Z) (ds : gmap gostring tokenStatsDelta) : gmap gostring tokenStatsDelta :=
  let '(n, s) := default (0, 0) (ds !! token) in <[token := (n + 1, s + supply)]> ds.

Record transfer_acc := mkTransferAcc {
  ta_table : gmap (Z * Z) transfer_row; ta_delta : Z; ta_tokens : gmap gostring tokenStatsDelta;
  ta_conflicts : list (Z * Z * gostring) }.

Fixpoint insert_transfers (trs : list transfer_row) (a : transfer_acc) : res write_err transfer_acc :=
  match trs with
  | [] => Ok a
  | t :: trs =>
      try v := numeric_value (tr_value t) in
      let '(m, new) := insert_new (tr_block t, tr_index t) (lower_transfer t) (ta_table a) in
      if new then
        let supply := if decide (tr_type t = TokenTypeERC20) then supply_of (ToLower (tr_from t)) (ToLower (tr_to t)) v else 0 in
        insert_transfers trs (mkTransferAcc m (ta_delta a + 1) (add_token_delta (ToLower (tr_token t)) supply (ta_tokens a)) (ta_conflicts a))
      else insert_transfers trs (mkTransferAcc m (ta_delta a) (ta_tokens a) (ta_conflicts a ++ [(tr_block t, tr_index t, tr_tx t)]))
  end.

Definition insert_internal (its : list InternalTransaction) (m : gmap (gostring * gostring) InternalTransaction) :=
  foldl (λ m it, (insert_new (TxHash it, TraceAddress it) (lower_internal it) m).1) m its.

(** ** BeginBlockData *)

Record begun := mkBegun { g_tables : tables; g_blocks : Z; g_txs : Z; g_transfers : Z; g_tokens : gmap gostring tokenStatsDelta }.
(** [None]: another writer had stored this block. *)

Definition storedBlockDiffers (s : tables) (b : block_row) : bool :=
  match s_blocks s !! br_number b with Some r => negb (EqualFold (br_hash r) (br_hash b)) | None => false end.

(** A block's number or its hash is taken. *)
Definition block_conflict (s : tables) (b : block_row) : bool :=
  bool_decide (is_Some (s_blocks s !! br_number b)) ||
  existsb (λ r, bool_decide (br_hash r = br_hash b)) (snd <$> map_to_list (s_blocks s)).

(** Everything after the block row. *)
Definition write_own (d : BlockData) (s : tables) (blocks : gmap Z block_row) (nblocks : Z) : res write_err (option begun) :=
  try (txs, ntxs) := insert_txs (buildTokenTransferTxSet (bd_transfers d)) (bd_txs d) (s_txs s) 0 in
  let '(logs, conflicts) := insert_logs (bd_logs d) (s_logs s) [] in
  if negb (checkLogConflicts lr_tx logs conflicts) then Err ErrLogIndexPerTransaction
  else
    try a := insert_transfers (bd_transfers d) (mkTransferAcc (s_transfers s) 0 ∅ []) in
    if negb (checkLogConflicts tr_tx (ta_table a) (ta_conflicts a)) then Err ErrLogIndexPerTransaction
    else Ok (Some (mkBegun
      (mkTables blocks txs logs (ta_table a) (insert_internal (bd_internal d) (s_internal s)) (s_contracts s) (s_tokens s)
         (s_nfts s) (s_stats s) (s_counters s) (s_reverted s) (s_reverts s))
      nblocks ntxs (ta_delta a) (ta_tokens a))).

Definition BeginBlockData (d : BlockData) (s : tables) : res write_err (option begun) :=
  match bd_block d with
  | None => write_own d s (s_blocks s) 0
  | Some b =>
      if block_conflict s b then if storedBlockDiffers s b then Err StoredBlockDiffers else Ok None
      else write_own d s (<[br_number b := b]> (s_blocks s)) 1
  end.

(** ** Finish: the rows blocks share

    Each phase works on its rows in key order, so that two writers cannot
    deadlock. A row is reached by one key, and the sorts are stable, so the
    tables it leaves are those of the rows taken in the order they came. *)

Definition insert_contracts (crs : list contract_row) (m : gmap gostring contract_row) : gmap gostring contract_row :=
  foldl (λ m r, (insert_new (ToLower (cr_address r)) r m).1) m crs.

Definition new_token (t : token_row) : token_rec :=
  mkTokenRec (tk_symbol t) (tk_name t) (tk_decimals t) (tk_type t) (tk_supply t) (tk_block t) (tk_tx t) 0.
Definition seen_token (t : token_row) (r : token_rec) : token_rec :=
  mkTokenRec (tk_symbol t) (match tk_name t with Some n => Some n | None => te_name r end) (tk_decimals t)
    (if decide (tk_type t = TokenTypeERC20) then te_type r else tk_type t)
    (match tk_supply t with Some n => Some n | None => te_supply r end)
    (Z.min (te_block r) (tk_block t)) (if tk_block t <? te_block r then tk_tx t else te_tx r) (te_transfers r).

(** The upserts, and the tokens they created. *)
Definition upsert_token (acc : gmap gostring token_rec * list gostring) (t : token_row) : gmap gostring token_rec * list gostring :=
  let '(m, seeds) := acc in
  let key := ToLower (tk_address t) in
  match m !! key with
  | Some r => (<[key := seen_token t r]> m, seeds)
  | None => (<[key := new_token t]> m, seeds ++ [key])
  end.

(** [token_counted]: the stored transfers of a token. *)
Definition values {K A} `{Countable K} (m : gmap K A) : list A := snd <$> map_to_list m.
Definition of_token (token : gostring) (m : gmap (Z * Z) transfer_row) : list transfer_row :=
  filter (λ t, tr_token t = token) (values m).
Definition transfer_supply (t : transfer_row) : Z :=
  if decide (tr_type t = TokenTypeERC20) then supply_of (tr_from t) (tr_to t) (default 0 (SetString 10 (tr_value t))) else 0.
Definition sum_supply (l : list transfer_row) : Z := foldr (λ t acc, transfer_supply t + acc) 0 l.

Definition set_counts (n : Z) (supply : option Z) (r : token_rec) : token_rec :=
  mkTokenRec (te_symbol r) (te_name r) (te_decimals r) (te_type r) supply (te_block r) (te_tx r) n.
Definition seed_token (m : gmap (Z * Z) transfer_row) (token : gostring) (r : token_rec) : token_rec :=
  let l := of_token token m in
  set_counts (zlen l) (if decide (te_type r = TokenTypeERC20) then Some (clampSupply (sum_supply l)) else te_supply r) r.
Definition apply_delta (d : tokenStatsDelta) (r : token_rec) : token_rec :=
  set_counts (te_transfers r + d.1)
    (if decide (te_type r = TokenTypeERC20) then Some (clampSupply (default 0 (te_supply r) + d.2)) else te_supply r) r.

(** A created row is seeded from the stored transfers, this block's among them;
    the others take the block's delta. *)
Definition count_tokens (m : gmap (Z * Z) transfer_row) (seeds : list gostring) (ds : gmap gostring tokenStatsDelta)
    (tokens : gmap gostring token_rec) : gmap gostring token_rec :=
  map_imap (λ token r, Some (if decide (token ∈ seeds) then seed_token m token r
                             else match ds !! token with Some d => apply_delta d r | None => r end)) tokens.

Definition upsert_nft (m : gmap (gostring * gostring) nft_rec) (n : nft_row) : gmap (gostring * gostring) nft_rec :=
  <[(nf_token n, nf_id n) :=
      match m !! (nf_token n, nf_id n) with
      | None => mkNftRec (nf_owner n) (nf_uri n) (nf_block n)
      | Some r => mkNftRec (if ne_block r <=? nf_block n then nf_owner n else ne_owner r)
                    (match ne_uri r with Some u => Some u | None => nf_uri n end) (Z.max (ne_block r) (nf_block n))
      end]> m.

Definition new_address (d : AddressStatsDelta) : address_rec :=
  mkAddressRec (ad_txs d) (ad_internal d) (ad_transfers d) (ad_sent d) (ad_block d) (Z.max (ad_block d) (ad_last d)) (ad_contract d).
Definition seen_address (d : AddressStatsDelta) (r : address_rec) : address_rec :=
  mkAddressRec (ae_txs r + ad_txs d) (ae_internal r + ad_internal d) (ae_transfers r + ad_transfers d) (ae_sent r + ad_sent d)
    (Z.min (ae_first r) (ad_block d)) (Z.max (ae_last r) (Z.max (ad_block d) (ad_last d))) (ae_contract r || ad_contract d).

(** [AddressStats] is keyed by the address of its entries. *)
Definition upsert_stats (ds : gmap gostring AddressStatsDelta) (m : gmap gostring address_rec) : gmap gostring address_rec :=
  merge (λ r d, match r, d with
                | Some r, Some d => Some (seen_address d r)
                | None, Some d => Some (new_address d)
                | r, None => r
                end) m ds.

Definition bump_counters (b t k a f : Z) (c : chain_counters) : chain_counters :=
  mkCounters (blocks_total c + b) (transactions_total c + t) (tokens_total c + k) (addresses_total c + a) (transfers_total c + f).

Definition writeSharedRows (d : BlockData) (g : begun) : tables :=
  let s := g_tables g in
  let contracts := insert_contracts (bd_contracts d) (s_contracts s) in
  let '(tokens, seeds) := foldl upsert_token (s_tokens s, []) (bd_tokens d) in
  let nfts := foldl upsert_nft (s_nfts s) (bd_nfts d) in
  let tokens := count_tokens (s_transfers s) seeds (g_tokens g) tokens in
  let stats := if bd_skip_stats d then s_stats s else upsert_stats (bd_stats d) (s_stats s) in
  mkTables (s_blocks s) (s_txs s) (s_logs s) (s_transfers s) (s_internal s) contracts tokens nfts stats
    (bump_counters (g_blocks g) (g_txs g) (zlen seeds) (Z.of_nat (size stats) - Z.of_nat (size (s_stats s))) (g_transfers g) (s_counters s))
    (s_reverted s) (s_reverts s).

Definition InsertBlockDataBatch (d : BlockData) (s : tables) : res write_err tables :=
  try w := BeginBlockData d s in Ok (match w with None => s | Some g => writeSharedRows d g end).

(** A block without transactions. *)
Definition InsertBlock (b : block_row) (s : tables) : res write_err tables :=
  if block_conflict s b then if storedBlockDiffers s b then Err StoredBlockDiffers else Ok s
  else Ok (mkTables (<[br_number b := b]> (s_blocks s)) (s_txs s) (s_logs s) (s_transfers s) (s_internal s) (s_contracts s)
             (s_tokens s) (s_nfts s) (s_stats s) (bump_counters 1 0 0 0 0 (s_counters s)) (s_reverted s) (s_reverts s)).

(** ** Reverting a block *)

Definition block_transfers (n : Z) (s : tables) : list transfer_row := filter (λ t, tr_block t = n) (values (s_transfers s)).
(** The block's transfers grouped by token. *)
Definition doomed (n : Z) (s : tables) (token : gostring) : list transfer_row := filter (λ t, tr_token t = token) (block_transfers n s).

Definition revert_token (l : list transfer_row) (r : token_rec) : token_rec :=
  set_counts (Z.max (te_transfers r - zlen l) 0)
    (if decide (te_type r = TokenTypeERC20) then Some (clampSupply (default 0 (te_supply r) - sum_supply l)) else te_supply r) r.

Definition revert_tokens (n : Z) (s : tables) : gmap gostring token_rec :=
  map_imap (λ token r, Some (if decide (doomed n s token = []) then r else revert_token (doomed n s token) r)) (s_tokens s).

Section Revert.
Context `{Keccak}.

Definition transfer_key (t : transfer_row) : Z * Z := (tr_block t, tr_index t).
Definition nft_moves (collection id : gostring) (s : tables) : list transfer_row :=
  filter (λ t, tr_token t = ToLower collection ∧ tr_id t = Some id ∧ tr_type t = TokenTypeERC721) (values (s_transfers s)).

(** The owner before the block: the newest move of another block, else the sender
    of the block's first move. [None]: the row goes. *)
Definition revert_nft (n : Z) (s : tables) (k : gostring * gostring) (r : nft_rec) : option nft_rec :=
  let below := n - 1 in
  let set_owner (owner : gostring) (block : Z) := Some (mkNftRec (Address_Hex (HexToAddress owner)) (ne_uri r) block) in
  if ne_block r <? n then Some r
  else match top transfer_key 1 (filter (λ t, tr_block t ≠ n) (nft_moves k.1 k.2 s)) with
       | t :: _ => set_owner (tr_to t) (tr_block t)
       | [] =>
           match last (order_by transfer_key (filter (λ t, tr_block t = n) (nft_moves k.1 k.2 s))) with
           | None => Some (mkNftRec (ne_owner r) (ne_uri r) below)
           | Some t => if decide (tr_from t = zero_text) then None else set_owner (tr_from t) below
           end
       end.

Definition revertNFTTokens (n : Z) (s : tables) : gmap (gostring * gostring) nft_rec := map_imap (revert_nft n s) (s_nfts s).
End Revert.

Definition stored_contributions (s : tables) : list contribution :=
  contributions (fst <$> values (s_txs s)) (values (s_transfers s)) (values (s_internal s)) (values (s_contracts s)).
(** [ledger_address_contributions(n, n+1)] on the stored rows. *)
Definition block_contributions (n : Z) (s : tables) : list contribution := filter (λ x, co_block x = n) (stored_contributions s).

(** The blocks other than [n] whose rows name the address: the thirteen
    subqueries of the revert. *)
Definition seen_elsewhere (a : gostring) (n : Z) (s : tables) : list Z :=
  let txs := fst <$> values (s_txs s) in
  filter (λ b, b ≠ n)
    ((tx_block <$> filter (λ t, tx_from t = a) txs) ++ (tx_block <$> filter (λ t, tx_to t = Some a) txs) ++
     (tr_block <$> filter (λ t, tr_from t = a ∧ a ≠ zero_text) (values (s_transfers s))) ++
     (tr_block <$> filter (λ t, tr_to t = a ∧ a ≠ zero_text) (values (s_transfers s))) ++
     (BlockNumber <$> filter (λ it, From it = a) (values (s_internal s))) ++
     (BlockNumber <$> filter (λ it, To it = Some a) (values (s_internal s))) ++
     (cr_block <$> filter (λ r, ToLower (cr_address r) = a) (values (s_contracts s)))).

Definition min_of (l : list Z) : option Z := match l with [] => None | x :: l => Some (foldr Z.min x l) end.
Definition max_of (l : list Z) : option Z := match l with [] => None | x :: l => Some (foldr Z.max x l) end.

(** Of the address's row, given what the block contributed. *)
Definition revert_address (n : Z) (s : tables) (a : gostring) (r : address_rec) : option address_rec :=
  let mine := block_contributions n s in
  if decide (of_address a mine = []) then Some r
  else
    let seen := seen_elsewhere a n s in
    if decide (seen = []) then
      if ae_first r <? n then
        Some (mkAddressRec (Z.max (ae_txs r - Z.of_nat (size (txs_seen a mine))) 0) (Z.max (ae_internal r - total co_internal a mine) 0)
          (Z.max (ae_transfers r - total co_transfers a mine) 0) (Z.max (ae_sent r - total co_sent a mine) 0)
          (ae_first r) (ae_last r)
          (if decide (is_Some (s_contracts s !! a ≫= λ c, guard (cr_block c = n);; Some c)) then false else ae_contract r))
      else None
    else
      Some (mkAddressRec (Z.max (ae_txs r - Z.of_nat (size (txs_seen a mine))) 0) (Z.max (ae_internal r - total co_internal a mine) 0)
        (Z.max (ae_transfers r - total co_transfers a mine) 0) (Z.max (ae_sent r - total co_sent a mine) 0)
        (if n <=? ae_first r then default (ae_first r) (min_of seen) else ae_first r)
        (if n <=? ae_last r then default (ae_last r) (max_of seen) else ae_last r)
        (if decide (is_Some (s_contracts s !! a ≫= λ c, guard (cr_block c = n);; Some c)) then false else ae_contract r)).

Definition revertAddressStats (n : Z) (s : tables) : gmap gostring address_rec := map_imap (revert_address n s) (s_stats s).

(** [ON CONFLICT DO UPDATE SET count = GREATEST(count + delta, 0)], on every one
    of the four counters. *)
Definition lower_counters (b t f a : Z) (c : chain_counters) : chain_counters :=
  if decide (b = 0 ∧ t = 0 ∧ f = 0 ∧ a = 0) then c
  else mkCounters (Z.max (blocks_total c - b) 0) (Z.max (transactions_total c - t) 0) (tokens_total c)
         (Z.max (addresses_total c - a) 0) (Z.max (transfers_total c - f) 0).

Definition without_block {K A} `{Countable K} (block_of : A → Z) (n : Z) (m : gmap K A) : gmap K A :=
  filter (λ kv, block_of kv.2 ≠ n) m.

Definition DeleteBlock `{Keccak} (n : Z) (s : tables) : tables :=
  let stats := revertAddressStats n s in
  let forgotten := Z.of_nat (size (s_stats s)) - Z.of_nat (size stats) in
  let txs := without_block (tx_block ∘ fst) n (s_txs s) in
  let revertedTxs := zlen (filter (λ t, tx_block t.1 = n) (values (s_txs s))) in
  mkTables (delete n (s_blocks s)) txs (without_block lr_block n (s_logs s)) (without_block tr_block n (s_transfers s))
    (without_block BlockNumber n (s_internal s)) (without_block cr_block n (s_contracts s))
    (revert_tokens n s) (revertNFTTokens n s) stats
    (lower_counters (if decide (is_Some (s_blocks s !! n)) then 1 else 0) revertedTxs (zlen (block_transfers n s)) forgotten (s_counters s))
    (list_to_set (co_address <$> block_contributions n s) ∪ s_reverted s) (s_reverts s + 1).

(** ** Values of a table *)

Section Values.
Context {K A : Type} `{Countable K}.
Implicit Types m : gmap K A.

Lemma length_values m : zlen (values m) = Z.of_nat (size m).
Proof. unfold values, zlen. by rewrite length_fmap, length_map_to_list. Qed.

Lemma values_insert k v m : m !! k = None → values (<[k := v]> m) ≡ₚ v :: values m.
Proof. intros. unfold values. by rewrite map_to_list_insert. Qed.

Lemma elem_of_values v m : v ∈ values m ↔ ∃ k, m !! k = Some v.
Proof.
  unfold values. rewrite list_elem_of_fmap. split.
  - intros ([k x] & -> & Hx%elem_of_map_to_list). eauto.
  - intros (k & Hk). exists (k, v). split; [done|]. by apply elem_of_map_to_list.
Qed.

Lemma values_filter (P : A → Prop) `{!∀ kv : K * A, Decision (P kv.2)} `{!∀ x, Decision (P x)} m :
  values (filter (λ kv, P kv.2) m) ≡ₚ filter P (values m).
Proof.
  unfold values. rewrite map_filter_alt, map_to_list_to_map.
  - rewrite (filter_fmap_ext snd P (λ kv : K * A, P kv.2)) by done. done.
  - apply NoDup_fmap_filter, NoDup_fst_map_to_list.
Qed.

Lemma values_without (block_of : A → Z) n m : values (without_block block_of n m) ≡ₚ filter (λ x, block_of x ≠ n) (values m).
Proof. unfold without_block. rewrite (values_filter (λ x, block_of x ≠ n)). done. Qed.

Lemma insert_new_size k v m : Z.of_nat (size (insert_new k v m).1) = Z.of_nat (size m) + if (insert_new k v m).2 then 1 else 0.
Proof. unfold insert_new. destruct (m !! k) eqn:E; cbn; [lia|]. rewrite map_size_insert_None by done. lia. Qed.
End Values.

(** ** Counters *)

(** Every counter is a count of the rows it counts. *)
Record counters_ok (s : tables) : Prop := {
  ok_blocks : blocks_total (s_counters s) = Z.of_nat (size (s_blocks s));
  ok_txs : transactions_total (s_counters s) = Z.of_nat (size (s_txs s));
  ok_transfers : transfers_total (s_counters s) = Z.of_nat (size (s_transfers s));
  ok_tokens : tokens_total (s_counters s) = Z.of_nat (size (s_tokens s));
  ok_addresses : addresses_total (s_counters s) = Z.of_nat (size (s_stats s));
  ok_token : ∀ token r, s_tokens s !! token = Some r → te_transfers r = zlen (of_token token (s_transfers s)) }.

Lemma insert_txs_size w txs m δ m' δ' : insert_txs w txs m δ = Ok (m', δ') →
  Z.of_nat (size m') - δ' = Z.of_nat (size m) - δ.
Proof.
  revert m δ. induction txs as [|t txs IH]; intros m δ; cbn [insert_txs].
  - intros [= <- <-]. done.
  - destruct (numeric_value _) as [v|]; [|done]. cbn [res_bind].
    pose proof (insert_new_size (tx_hash t) (lower_tx t, computeTxCategories t (bool_decide (tx_hash t ∈ w))) m) as Hs.
    destruct (insert_new _ _ m) as [m1 new]. cbn in Hs. intros E%IH. destruct new; lia.
Qed.

Lemma of_token_insert token k v m : m !! k = None →
  of_token token (<[k := v]> m) ≡ₚ (if decide (tr_token v = token) then [v] else []) ++ of_token token m.
Proof. intros E. unfold of_token. rewrite (values_insert k v m E), filter_cons. by case_decide. Qed.

Definition token_count (ds : gmap gostring tokenStatsDelta) (token : gostring) : Z := (default (0, 0) (ds !! token)).1.
Definition token_supply (ds : gmap gostring tokenStatsDelta) (token : gostring) : Z := (default (0, 0) (ds !! token)).2.

Lemma token_delta_count t s ds token :
  token_count (add_token_delta t s ds) token = token_count ds token + if decide (t = token) then 1 else 0.
Proof.
  unfold token_count, add_token_delta. destruct (default (0, 0) (ds !! t)) as [n u] eqn:E.
  case_decide as Et; [subst; rewrite lookup_insert_eq, E; done|by rewrite lookup_insert_ne, Z.add_0_r].
Qed.
Lemma token_delta_supply t s ds token :
  token_supply (add_token_delta t s ds) token = token_supply ds token + if decide (t = token) then s else 0.
Proof.
  unfold token_supply, add_token_delta. destruct (default (0, 0) (ds !! t)) as [n u] eqn:E.
  case_decide as Et; [subst; rewrite lookup_insert_eq, E; done|by rewrite lookup_insert_ne, Z.add_0_r].
Qed.

Lemma sum_supply_cons t l : sum_supply (t :: l) = transfer_supply t + sum_supply l.
Proof. done. Qed.
Lemma sum_supply_app l1 l2 : sum_supply (l1 ++ l2) = sum_supply l1 + sum_supply l2.
Proof. induction l1 as [|t l1 IH]; [done|]. rewrite <-app_comm_cons, !sum_supply_cons, IH. lia. Qed.
Lemma sum_supply_perm l1 l2 : l1 ≡ₚ l2 → sum_supply l1 = sum_supply l2.
Proof. induction 1; rewrite ?sum_supply_cons; lia. Qed.
Lemma zlen_perm {A} (l1 l2 : list A) : l1 ≡ₚ l2 → zlen l1 = zlen l2.
Proof. intros E. unfold zlen. by rewrite E. Qed.

Lemma insert_transfers_counts trs a a' : insert_transfers trs a = Ok a' →
  Z.of_nat (size (ta_table a')) - ta_delta a' = Z.of_nat (size (ta_table a)) - ta_delta a ∧
  ∀ token, zlen (of_token token (ta_table a')) - token_count (ta_tokens a') token =
           zlen (of_token token (ta_table a)) - token_count (ta_tokens a) token ∧
           sum_supply (of_token token (ta_table a')) - token_supply (ta_tokens a') token =
           sum_supply (of_token token (ta_table a)) - token_supply (ta_tokens a) token.
Proof.
  revert a. induction trs as [|t trs IH]; intros a; cbn [insert_transfers]; [by intros [= <-]|].
  destruct (numeric_value _) as [v|] eqn:Ev; [|done]. cbn [res_bind]. unfold insert_new.
  destruct (ta_table a !! (tr_block t, tr_index t)) as [r|] eqn:E; intros [Hs Ht]%IH; cbn in Hs.
  - split; [exact Hs|]. intros token. destruct (Ht token) as [H1 H2]. cbn in H1, H2. done.
  - split.
    + rewrite map_size_insert_None in Hs by done. lia.
    + intros token. destruct (Ht token) as [H1 H2]. cbn [ta_table ta_tokens] in H1, H2.
      rewrite (zlen_perm _ _ (of_token_insert token _ _ _ E)), zlen_app, token_delta_count in H1.
      rewrite (sum_supply_perm _ _ (of_token_insert token _ _ _ E)), sum_supply_app, token_delta_supply in H2.
      cbn [lower_transfer tr_token] in H1, H2. destruct (decide (ToLower (tr_token t) = token)).
      * split; [cbn in H1; unfold zlen in *; cbn in H1; lia|]. rewrite H2. cbn. unfold transfer_supply.
        cbn [lower_transfer tr_type tr_from tr_to tr_value]. unfold numeric_value in Ev.
        destruct (SetString 10 (tr_value t)) as [z|]; [|done]. destruct (fits_numeric z); [|done]. injection Ev as <-. cbn.
        destruct (decide (tr_type t = TokenTypeERC20)); lia.
      * split; [cbn in H1; unfold zlen in *; cbn in H1; lia|]. cbn in H2. lia.
Qed.

(** What the upserts leave of a row that was there. *)
Definition keeps_counts (l : list token_row) (r0 r : token_rec) : Prop :=
  te_transfers r = te_transfers r0 ∧
  (Forall (λ t, tk_supply t = None) l → te_supply r = te_supply r0 ∧ (te_type r = TokenTypeERC20 → te_type r0 = TokenTypeERC20)).

Lemma upsert_tokens_spec (l : list token_row) (tokens0 : gmap gostring token_rec) :
  let '(m, seeds) := foldl upsert_token (tokens0, []) l in
  Z.of_nat (size m) = Z.of_nat (size tokens0) + zlen seeds ∧
  ∀ token r, m !! token = Some r → token ∈ seeds ∨ ∃ r0, tokens0 !! token = Some r0 ∧ keeps_counts l r0 r.
Proof.
  induction l as [|t l IH] using rev_ind.
  - cbn. split; [unfold zlen; cbn; lia|]. intros token r Hr. right. exists r. done.
  - rewrite foldl_app. cbn [foldl]. destruct (foldl upsert_token (tokens0, []) l) as [m seeds]. destruct IH as [Hs Hr].
    unfold upsert_token. destruct (m !! ToLower (tk_address t)) as [r1|] eqn:E.
    + split; [rewrite map_size_insert_Some by eauto; done|]. intros token r.
      destruct (decide (token = ToLower (tk_address t))) as [->|Hne]; [rewrite lookup_insert_eq; intros [= <-]|rewrite lookup_insert_ne by done; intros Hm].
      * destruct (Hr _ _ E) as [?|(r0 & H0 & H1 & H2)]; [by left|]. right. exists r0. split; [done|]. split; [done|].
        rewrite Forall_app, Forall_singleton. intros [Hl Ht]. destruct (H2 Hl) as [H3 H4]. unfold seen_token. cbn [te_supply te_type].
        rewrite Ht. split; [done|]. destruct (decide (tk_type t = TokenTypeERC20)); [exact H4|]. intros. congruence.
      * destruct (Hr _ _ Hm) as [?|(r0 & H0 & H1 & H2)]; [by left|]. right. exists r0. split; [done|]. split; [done|].
        rewrite Forall_app. intros [Hl _]. auto.
    + split; [rewrite map_size_insert_None, zlen_app by done; unfold zlen in *; cbn; lia|]. intros token r.
      destruct (decide (token = ToLower (tk_address t))) as [->|Hne]; [left; set_solver|]. rewrite lookup_insert_ne by done. intros Hm.
      destruct (Hr _ _ Hm) as [?|(r0 & H0 & H1 & H2)]; [left; set_solver|]. right. exists r0. split; [done|]. split; [done|].
      rewrite Forall_app. intros [Hl _]. auto.
Qed.

Lemma size_map_imap_total {K A B} `{Countable K} (f : K → A → B) (m : gmap K A) :
  size (map_imap (λ k x, Some (f k x)) m) = size m.
Proof.
  induction m as [|k x m Hk IH] using map_ind; [done|].
  rewrite (map_imap_insert_Some _ k x m (f k x)) by done.
  rewrite !map_size_insert_None; [by rewrite IH|done|]. rewrite map_lookup_imap, Hk. done.
Qed.

(** What a begun write holds. *)
Record begun_ok (d : BlockData) (s : tables) (g : begun) : Prop := {
  bo_blocks : Z.of_nat (size (s_blocks (g_tables g))) = Z.of_nat (size (s_blocks s)) + g_blocks g;
  bo_txs : Z.of_nat (size (s_txs (g_tables g))) = Z.of_nat (size (s_txs s)) + g_txs g;
  bo_transfers : Z.of_nat (size (s_transfers (g_tables g))) = Z.of_nat (size (s_transfers s)) + g_transfers g;
  bo_token : ∀ token, zlen (of_token token (s_transfers (g_tables g))) = zlen (of_token token (s_transfers s)) + token_count (g_tokens g) token;
  bo_supply : ∀ token, sum_supply (of_token token (s_transfers (g_tables g))) =
    sum_supply (of_token token (s_transfers s)) + token_supply (g_tokens g) token;
  bo_shared : s_contracts (g_tables g) = s_contracts s ∧ s_tokens (g_tables g) = s_tokens s ∧ s_nfts (g_tables g) = s_nfts s ∧
    s_stats (g_tables g) = s_stats s ∧ s_counters (g_tables g) = s_counters s }.

(** The pieces of a write that began. *)
Record pieces (d : BlockData) (s : tables) (g : begun) : Prop := {
  pc_blocks : match bd_block d with
              | None => s_blocks (g_tables g) = s_blocks s ∧ g_blocks g = 0
              | Some b => s_blocks s !! br_number b = None ∧ s_blocks (g_tables g) = <[br_number b := b]> (s_blocks s) ∧ g_blocks g = 1
              end;
  pc_txs : insert_txs (buildTokenTransferTxSet (bd_transfers d)) (bd_txs d) (s_txs s) 0 = Ok (s_txs (g_tables g), g_txs g);
  pc_logs : ∃ conflicts, insert_logs (bd_logs d) (s_logs s) [] = (s_logs (g_tables g), conflicts);
  pc_transfers : ∃ conflicts, insert_transfers (bd_transfers d) (mkTransferAcc (s_transfers s) 0 ∅ []) =
    Ok (mkTransferAcc (s_transfers (g_tables g)) (g_transfers g) (g_tokens g) conflicts);
  pc_internal : s_internal (g_tables g) = insert_internal (bd_internal d) (s_internal s);
  pc_shared : s_contracts (g_tables g) = s_contracts s ∧ s_tokens (g_tables g) = s_tokens s ∧ s_nfts (g_tables g) = s_nfts s ∧
    s_stats (g_tables g) = s_stats s ∧ s_counters (g_tables g) = s_counters s }.

Lemma BeginBlockData_pieces d s g : BeginBlockData d s = Ok (Some g) → pieces d s g.
Proof.
  unfold BeginBlockData.
  assert (∀ blocks nb, write_own d s blocks nb = Ok (Some g) →
    s_blocks (g_tables g) = blocks ∧ g_blocks g = nb ∧
    ((match bd_block d with
      | None => s_blocks (g_tables g) = s_blocks s ∧ g_blocks g = 0
      | Some b => s_blocks s !! br_number b = None ∧ s_blocks (g_tables g) = <[br_number b := b]> (s_blocks s) ∧ g_blocks g = 1
      end) → pieces d s g)) as Hown.
  { intros blocks nb. unfold write_own. destruct (insert_txs _ _ _ _) as [[txs ntxs]|] eqn:Etx; [|done]. cbn [res_bind].
    destruct (insert_logs _ _ _) as [logs conflicts] eqn:El. destruct (negb _); [done|].
    destruct (insert_transfers _ _) as [a|] eqn:Etr; [|done]. cbn [res_bind]. destruct (negb _); [done|].
    intros [= <-]. cbn. split_and!; [done..|]. intros Hb. split; cbn; [done|done|by eexists| |done|done].
    destruct a. by eexists. }
  destruct (bd_block d) as [b|].
  - unfold block_conflict. destruct (s_blocks s !! br_number b) as [r|] eqn:E.
    + rewrite bool_decide_eq_true_2 by eauto. cbn. by destruct (storedBlockDiffers s b).
    + rewrite bool_decide_eq_false_2 by (intros [? ?]; done). cbn [orb].
      destruct (existsb _ _); [by destruct (storedBlockDiffers s b)|].
      intros (E1 & E2 & Hp)%Hown. apply Hp. done.
  - intros (E1 & E2 & Hp)%Hown. apply Hp. done.
Qed.

Lemma pieces_ok d s g : pieces d s g → begun_ok d s g.
Proof.
  intros [Hb Ht _ [cf Htr] _ Hsh]. apply insert_txs_size in Ht. apply insert_transfers_counts in Htr as [Hn Htk].
  cbn in Hn, Htk. unfold token_count, token_supply in Htk. setoid_rewrite lookup_empty in Htk. cbn in Htk.
  split; [|lia|lia| | |done].
  - destruct (bd_block d) as [b|]; [|destruct Hb as [-> ->]; lia]. destruct Hb as (Hn' & -> & ->).
    rewrite map_size_insert_None by done. lia.
  - intros token. destruct (Htk token) as [H1 _]. unfold token_count. lia.
  - intros token. destruct (Htk token) as [_ H2]. unfold token_supply. lia.
Qed.

Lemma lookup_count_tokens m seeds ds tokens token :
  count_tokens m seeds ds tokens !! token =
  (λ r, if decide (token ∈ seeds) then seed_token m token r else match ds !! token with Some d => apply_delta d r | None => r end) <$> tokens !! token.
Proof. unfold count_tokens. rewrite map_lookup_imap. by destruct (tokens !! token). Qed.

Lemma write_counters d s g : begun_ok d s g → counters_ok s → counters_ok (writeSharedRows d g).
Proof.
  intros [H1 H2 H3 H4 _ (Hc & Htk & Hn & Hst & Hcn)] [C1 C2 C3 C4 C5 C6]. unfold writeSharedRows.
  pose proof (upsert_tokens_spec (bd_tokens d) (s_tokens (g_tables g))) as Hu.
  destruct (foldl upsert_token _ _) as [tokens seeds]. destruct Hu as [Hsize Hrow].
  split; cbn [s_counters s_blocks s_txs s_transfers s_tokens s_stats bump_counters blocks_total transactions_total transfers_total tokens_total addresses_total].
  - rewrite Hcn. lia.
  - rewrite Hcn. lia.
  - rewrite Hcn. lia.
  - unfold count_tokens. rewrite size_map_imap_total, Hsize, Htk, Hcn. lia.
  - rewrite Hcn, Hst. lia.
  - intros token r. rewrite lookup_count_tokens. destruct (tokens !! token) as [r0|] eqn:E; [|done]. cbn. intros [= <-].
    case_decide as Hseed; [done|]. destruct (Hrow token r0 E) as [?|(r1 & Hr1 & Hk & _)]; [done|].
    rewrite Htk in Hr1. apply C6 in Hr1. specialize (H4 token). unfold token_count in H4.
    destruct (g_tokens g !! token) as [δ|]; cbn in H4 |- *; lia.
Qed.

Lemma zlen_filter_split {A} (P Q : A → Prop) `{!∀ x, Decision (P x), !∀ x, Decision (Q x)} (l : list A) :
  (∀ x, Q x ↔ ¬ P x) → zlen (filter P l) + zlen (filter Q l) = zlen l.
Proof.
  intros HQ. induction l as [|x l IH]; [done|]. pose proof (HQ x). rewrite !filter_cons.
  destruct (decide (P x)), (decide (Q x)); try tauto; rewrite !zlen_cons; lia.
Qed.

Lemma of_token_without token n m :
  of_token token (without_block tr_block n m) ≡ₚ filter (λ t, tr_block t ≠ n) (of_token token m).
Proof.
  unfold of_token. rewrite (values_without tr_block n m), !list_filter_filter.
  rewrite (list_filter_iff (λ x, tr_token x = token ∧ tr_block x ≠ n) (λ x, tr_block x ≠ n ∧ tr_token x = token)) by tauto. done.
Qed.

Lemma doomed_of_token n s token : doomed n s token = filter (λ t, tr_block t = n) (of_token token (s_transfers s)).
Proof.
  unfold doomed, block_transfers, of_token. rewrite !list_filter_filter. apply list_filter_iff. tauto.
Qed.

Lemma zlen_without {K A} `{Countable K} (block_of : A → Z) n (m : gmap K A) :
  Z.of_nat (size (without_block block_of n m)) = Z.of_nat (size m) - zlen (filter (λ x, block_of x = n) (values m)).
Proof.
  rewrite <-!length_values, (zlen_perm _ _ (values_without block_of n m)).
  pose proof (zlen_filter_split (λ x, block_of x = n) (λ x, block_of x ≠ n) (values m)) as E. rewrite <-E; [lia|done].
Qed.

Lemma size_imap_le {K A B} `{Countable K} (f : K → A → option B) (m : gmap K A) : (size (map_imap f m) ≤ size m)%nat.
Proof.
  rewrite <-!(size_dom (D := gset K)). apply subseteq_size. intros k.
  rewrite !elem_of_dom, map_lookup_imap. destruct (m !! k); [by eexists|by intros [? ?]].
Qed.

Lemma lower_counters_exact b t f a c :
  0 ≤ b ≤ blocks_total c → 0 ≤ t ≤ transactions_total c → 0 ≤ f ≤ transfers_total c → 0 ≤ a ≤ addresses_total c →
  lower_counters b t f a c =
  mkCounters (blocks_total c - b) (transactions_total c - t) (tokens_total c) (addresses_total c - a) (transfers_total c - f).
Proof. intros. unfold lower_counters. destruct c. cbn in *. case_decide; f_equal; lia. Qed.

Lemma size_delete_block {A} n (m : gmap Z A) :
  Z.of_nat (size (delete n m)) = Z.of_nat (size m) - (if decide (is_Some (m !! n)) then 1 else 0).
Proof.
  case_decide as E.
  - destruct E as [b E]. rewrite map_size_delete_Some by eauto. pose proof (map_size_ne_0_lookup_2 m n ltac:(eauto)). lia.
  - rewrite map_size_delete_None; [lia|]. by apply eq_None_not_Some.
Qed.

Lemma revert_counters `{Keccak} n s : counters_ok s → counters_ok (DeleteBlock n s).
Proof.
  intros [C1 C2 C3 C4 C5 C6].
  pose proof (zlen_without (tx_block ∘ fst) n (s_txs s)) as Ht. pose proof (zlen_without tr_block n (s_transfers s)) as Hf.
  pose proof (size_imap_le (revert_address n s) (s_stats s)) as Ha. fold (revertAddressStats n s) in Ha.
  pose proof (size_delete_block n (s_blocks s)) as Hb. fold (block_transfers n s) in Hf.
  change (filter (λ x, (tx_block ∘ fst) x = n) (values (s_txs s))) with (filter (λ t, tx_block t.1 = n) (values (s_txs s))) in Ht.
  pose proof (zlen_nonneg (filter (λ t, tx_block t.1 = n) (values (s_txs s)))). pose proof (zlen_nonneg (block_transfers n s)).
  assert (0 ≤ (if decide (is_Some (s_blocks s !! n)) then 1 else 0) ≤ 1) by (case_decide; lia).
  unfold DeleteBlock. rewrite lower_counters_exact by lia.
  split; cbn [s_counters s_blocks s_txs s_transfers s_tokens s_stats blocks_total transactions_total transfers_total tokens_total addresses_total];
    try lia.
  - unfold revert_tokens. by rewrite size_map_imap_total.
  - intros token r. unfold revert_tokens. rewrite map_lookup_imap. destruct (s_tokens s !! token) as [r0|] eqn:E; [|done].
    cbn [mbind option_bind]. apply C6 in E. rewrite (zlen_perm _ _ (of_token_without token n (s_transfers s))).
    pose proof (zlen_filter_split (λ t, tr_block t = n) (λ t, tr_block t ≠ n) (of_token token (s_transfers s)) ltac:(done)) as Hsp.
    rewrite <-doomed_of_token in Hsp. pose proof (zlen_nonneg (filter (λ t, tr_block t ≠ n) (of_token token (s_transfers s)))).
    destruct (decide (doomed n s token = [])) as [Ed|Ed]; intros [= <-]; [|cbn; lia].
    rewrite Ed in Hsp. unfold zlen in *. cbn in Hsp. lia.
Qed.

(** ** Every history of writes and reverts *)

Definition no_tables : tables := mkTables ∅ ∅ ∅ ∅ ∅ ∅ ∅ ∅ ∅ (mkCounters 0 0 0 0 0) ∅ 0.

(** A block written, one without transactions written, a block reverted. A write
    that fails leaves the tables, so it is no step. *)
Inductive table_step `{Keccak} (ok : tables → BlockData → Prop) : tables → tables → Prop :=
| step_write d s s' : ok s d → InsertBlockDataBatch d s = Ok s' → table_step ok s s'
| step_empty b s s' : InsertBlock b s = Ok s' → table_step ok s s'
| step_revert n s : table_step ok s (DeleteBlock n s).

Lemma InsertBlockDataBatch_cases d s s' : InsertBlockDataBatch d s = Ok s' →
  s' = s ∨ ∃ g, pieces d s g ∧ s' = writeSharedRows d g.
Proof.
  unfold InsertBlockDataBatch. destruct (BeginBlockData d s) as [[g|]|] eqn:E; cbn [res_bind]; intros [= <-]; [|by left].
  right. exists g. split; [|done]. by apply BeginBlockData_pieces.
Qed.

Definition block_only (b : block_row) (s : tables) : tables :=
  mkTables (<[br_number b := b]> (s_blocks s)) (s_txs s) (s_logs s) (s_transfers s) (s_internal s) (s_contracts s)
    (s_tokens s) (s_nfts s) (s_stats s) (bump_counters 1 0 0 0 0 (s_counters s)) (s_reverted s) (s_reverts s).

Lemma InsertBlock_cases b s s' : InsertBlock b s = Ok s' → s' = s ∨ (s_blocks s !! br_number b = None ∧ s' = block_only b s).
Proof.
  unfold InsertBlock, block_conflict. destruct (s_blocks s !! br_number b) as [r|] eqn:E.
  - rewrite bool_decide_eq_true_2 by eauto. cbn. destruct (storedBlockDiffers s b); [done|]. intros [= <-]. by left.
  - rewrite bool_decide_eq_false_2 by (intros [? ?]; done). cbn [orb].
    destruct (existsb _ _); [destruct (storedBlockDiffers s b); [done|intros [= <-]; by left]|]. intros [= <-]. by right.
Qed.

Lemma step_counters `{Keccak} ok s s' : counters_ok s → table_step ok s s' → counters_ok s'.
Proof.
  intros Hc Hst. destruct Hst as [d s0 s1 _ E|b s0 s1 E|n s0]; [| |by apply revert_counters].
  - apply InsertBlockDataBatch_cases in E as [->|(g & Hg & ->)]; [done|]. apply (write_counters d s0); [by apply pieces_ok|done].
  - apply InsertBlock_cases in E as [->|[E ->]]; [done|]. destruct Hc. split; try done; cbn; try lia.
    rewrite map_size_insert_None by done. lia.
Qed.

(** ** Supply *)

Definition supply_ok (s : tables) : Prop := ∀ token r, s_tokens s !! token = Some r → te_type r = TokenTypeERC20 →
  te_supply r = Some (sum_supply (of_token token (s_transfers s))).
Definition supplies_fit (s : tables) : Prop := ∀ token, - numeric_max ≤ sum_supply (of_token token (s_transfers s)) ≤ numeric_max.

Lemma clampSupply_fit z : - numeric_max ≤ z ≤ numeric_max → clampSupply z = z.
Proof. unfold clampSupply. lia. Qed.

Lemma write_supply d s g : pieces d s g → Forall (λ t, tk_supply t = None) (bd_tokens d) → supplies_fit (writeSharedRows d g) →
  supply_ok s → supply_ok (writeSharedRows d g).
Proof.
  intros Hg Hn Hfit Hs. destruct (pieces_ok _ _ _ Hg) as [_ _ _ _ H5 (_ & Htk & _)]. revert Hfit. unfold writeSharedRows.
  pose proof (upsert_tokens_spec (bd_tokens d) (s_tokens (g_tables g))) as Hu.
  destruct (foldl upsert_token _ _) as [tokens seeds]. destruct Hu as [_ Hrow]. unfold supplies_fit, supply_ok. cbn [s_transfers s_tokens].
  intros Hfit token r. rewrite lookup_count_tokens. destruct (tokens !! token) as [r0|] eqn:E; [|done]. cbn [fmap option_fmap option_map].
  intros [= <-]. specialize (Hfit token). destruct (decide (token ∈ seeds)).
  - unfold seed_token. cbn [te_type set_counts te_supply]. intros ->. rewrite decide_True by done. by rewrite clampSupply_fit.
  - destruct (Hrow token r0 E) as [?|(r1 & Hr1 & _ & Hk)]; [done|]. destruct (Hk Hn) as [Hsup Hty]. rewrite Htk in Hr1.
    specialize (H5 token). unfold token_supply in H5.
    destruct (g_tokens g !! token) as [[k sd]|]; cbn in H5.
    + unfold apply_delta. cbn [te_type set_counts te_supply]. intros Ht. rewrite decide_True by done.
      rewrite Hsup, (Hs token r1) by auto. cbn. rewrite clampSupply_fit by lia. f_equal. lia.
    + intros Ht. rewrite Hsup, (Hs token r1) by auto. f_equal. lia.
Qed.

Lemma sum_supply_filter_split n l :
  sum_supply (filter (λ t, tr_block t = n) l) + sum_supply (filter (λ t, tr_block t ≠ n) l) = sum_supply l.
Proof.
  induction l as [|t l IH]; [done|]. rewrite !filter_cons, sum_supply_cons.
  destruct (decide (tr_block t = n)), (decide (tr_block t ≠ n)); try done; rewrite sum_supply_cons; lia.
Qed.

Lemma revert_supply `{Keccak} n s : supplies_fit (DeleteBlock n s) → supply_ok s → supply_ok (DeleteBlock n s).
Proof.
  unfold supplies_fit, supply_ok. cbn [DeleteBlock s_transfers s_tokens]. intros Hfit Hs token r.
  specialize (Hfit token). unfold revert_tokens. rewrite map_lookup_imap. destruct (s_tokens s !! token) as [r0|] eqn:E; [|done].
  cbn [mbind option_bind]. rewrite (sum_supply_perm _ _ (of_token_without token n (s_transfers s))) in Hfit |- *.
  pose proof (sum_supply_filter_split n (of_token token (s_transfers s))) as Hsp. rewrite <-doomed_of_token in Hsp.
  destruct (decide (doomed n s token = [])) as [Ed|Ed]; intros [= <-].
  - intros Ht. rewrite (Hs token r0) by done. rewrite Ed in Hsp. cbn in Hsp. f_equal. lia.
  - unfold revert_token. cbn [te_type set_counts te_supply]. intros Ht. rewrite decide_True by done.
    rewrite (Hs token r0) by done. cbn. rewrite clampSupply_fit by lia. f_equal. lia.
Qed.

Lemma step_supply `{Keccak} s s' : supplies_fit s' → supply_ok s →
  table_step (λ _ d, Forall (λ t, tk_supply t = None) (bd_tokens d)) s s' → supply_ok s'.
Proof.
  intros Hfit Hs Hst. destruct Hst as [d s s' Hd E|b s s' E|n s]; [| |by apply revert_supply].
  - apply InsertBlockDataBatch_cases in E as [->|(g & Hg & ->)]; [done|]. by apply (write_supply d s).
  - by apply InsertBlock_cases in E as [->|[E ->]].
Qed.

(** ** Theorems *)

(** C6: every counter the tables keep counts the rows it names, after any
    history of blocks written (whatever they hold), blocks without transactions,
    replays of a stored block and reverts: [chain_counters] for blocks,
    transactions, transfers, tokens and addresses, and each token's
    [transfer_count] the stored transfers of the token, also for a token whose row
    is created after its first transfers were stored. *)
Theorem counters_exact `{Keccak} s : rtc (table_step (λ _ _, True)) no_tables s → counters_ok s.
Proof.
  apply rtc_invariant; [intros s1 s2; apply step_counters|].
  by split.
Qed.

(** C25: the supply of an ERC20 token is what its stored mints less its stored
    burns add up to, after any history of writes and reverts of the blocks
    [buildBlock] makes (it leaves the supply to the writer), as long as the sums
    stay within the column, past which they are clamped. *)
Theorem supply_exact `{Keccak} s :
  rtc (λ s s', table_step (λ _ d, Forall (λ t, tk_supply t = None) (bd_tokens d)) s s' ∧ supplies_fit s') no_tables s →
  supply_ok s.
Proof.
  apply rtc_invariant; [intros s1 s2 Hc [Hst Hfit]; by eapply step_supply|].
  done.
Qed.

Lemma insert_transfers_oversized trs t z a : t ∈ trs → SetString 10 (tr_value t) = Some z → numeric_max < z →
  ∃ e, insert_transfers trs a = Err e.
Proof.
  intros Ht Hz Hbig. revert a. induction trs as [|t' trs IH]; intros a; [by apply not_elem_of_nil in Ht|]. cbn [insert_transfers].
  destruct (numeric_value (tr_value t')) as [v|e] eqn:E; [|by eexists]. cbn [res_bind]. apply elem_of_cons in Ht as [<-|Ht].
  - unfold numeric_value, fits_numeric in E. rewrite Hz in E. destruct (Z.leb_spec z numeric_max); [lia|]. by rewrite andb_false_r in E.
  - destruct (insert_new _ _ _) as [m [|]]; apply IH; done.
Qed.

(** a block one of whose Transfer logs carries more than 78 digits is never
    stored: the value of a three topic Transfer log is all of its data, of any
    length, the column holds 78 digits, and the write of every table that does not
    have the block fails. *)
Theorem oversized_transfer_unstorable d b t z s :
  bd_block d = Some b → t ∈ bd_transfers d → SetString 10 (tr_value t) = Some z → numeric_max < z →
  block_conflict s b = false → ∃ e, InsertBlockDataBatch d s = Err e.
Proof.
  intros Hb Ht Hz Hbig Hc. unfold InsertBlockDataBatch, BeginBlockData. rewrite Hb, Hc. unfold write_own.
  destruct (insert_txs _ _ _ _) as [[txs n]|e]; [|by eexists]. cbn [res_bind]. destruct (insert_logs _ _ _) as [logs cf].
  destruct (negb _); [by eexists|].
  destruct (insert_transfers_oversized _ t z (mkTransferAcc (s_transfers s) 0 ∅ []) Ht Hz Hbig) as [e ->]. by eexists.
Qed.

(** ** Witnesses *)

Section Witnesses.
Local Instance toy : Keccak := toy_keccak.

Definition sample_data : BlockData := built_data (buildBlock live_config quiet_node (mkCaches ∅ ∅) sample_block sample_receipts).
Definition after (r : res write_err tables) : tables := match r with Ok s => s | Err _ => no_tables end.
Definition stored_sample : tables := after (InsertBlockDataBatch sample_data no_tables).

Definition succeeds (r : res write_err tables) : bool := match r with Ok _ => true | Err _ => false end.
Lemma after_succeeds r : succeeds r = true → r = Ok (after r).
Proof. by destruct r. Qed.
Lemma stored_sample_written : InsertBlockDataBatch sample_data no_tables = Ok stored_sample.
Proof. apply after_succeeds. vm_compute. reflexivity. Qed.

Lemma counters_exact_witness :
  counters_ok (DeleteBlock 7 stored_sample) ∧ s_counters stored_sample = mkCounters 1 2 1 4 2 ∧
  s_counters (DeleteBlock 7 stored_sample) = mkCounters 0 0 1 0 0.
Proof.
  split; [|vm_compute; done].
  apply counters_exact. apply rtc_l with stored_sample; [|apply rtc_once; constructor].
  apply (step_write _ sample_data); [done|]. apply stored_sample_written.
Defined.

Lemma supplies_fit_tokens s :
  Forall (λ t, - numeric_max ≤ sum_supply (of_token (tr_token t) (s_transfers s)) ≤ numeric_max) (values (s_transfers s)) → supplies_fit s.
Proof.
  rewrite Forall_forall. intros Hall token. destruct (of_token token (s_transfers s)) as [|t l] eqn:E; [cbn; unfold numeric_max; lia|].
  assert (t ∈ of_token token (s_transfers s)) as Ht by (rewrite E; left). unfold of_token in Ht. apply list_elem_of_filter in Ht as [<- Ht].
  rewrite <-E. by apply Hall.
Qed.

(** 5 minted; the self transfer moves nothing. *)
Lemma supply_exact_witness :
  supply_ok stored_sample ∧ te_supply <$> s_tokens stored_sample !! ToLower (Address_Hex (sample_addr 99)) = Some (Some 5).
Proof.
  split; [|vm_compute; done].
  apply supply_exact. apply rtc_once. split.
  - apply (step_write _ sample_data); [|apply stored_sample_written]. apply (bool_decide_eq_true_1 _). vm_compute. reflexivity.
  - apply supplies_fit_tokens, (bool_decide_eq_true_1 _). vm_compute. reflexivity.
Defined.

(** A Transfer event of two data words, as a contract may emit. *)
Definition wide_receipts : gmap gostring Receipt :=
  {[ sample_hash 1 := mkReceipt 1 21000 (sample_addr 0)
       [mkReceiptLog (sample_addr 99) [transferTopic; be_bytes 32 1; be_bytes 32 2] (be_bytes 64 (2 ^ 300)) 0 false];
     sample_hash 2 := mkReceipt 1 21000 (sample_addr 77) [] ]}.
Definition wide_data : BlockData := built_data (buildBlock live_config quiet_node (mkCaches ∅ ∅) sample_block wide_receipts).

Lemma oversized_transfer_unstorable_witness :
  ∃ b, bd_block wide_data = Some b ∧ ∀ s, block_conflict s b = false → ∃ e, InsertBlockDataBatch wide_data s = Err e.
Proof.
  destruct (bd_block wide_data) as [b|] eqn:Eb; [|exfalso; vm_compute in Eb; discriminate]. exists b. split; [done|]. intros s Hc.
  destruct (bd_transfers wide_data) as [|t l] eqn:Et; [exfalso; vm_compute in Et; discriminate|].
  apply (oversized_transfer_unstorable wide_data b t (2 ^ 300) s); [done|rewrite Et; left| |reflexivity|done].
  assert (Some t = head (bd_transfers wide_data)) as Ht by (by rewrite Et). vm_compute in Ht. injection Ht as ->. vm_compute. reflexivity.
Defined.
End Witnesses.
