(* ===== verification/BlockStats.v ===== *)
(** * Address statistics

    The rows of [address_stats] that [writeSharedRows] adds to and
    [revertAddressStats] subtracts from, compared with a recount of the stored
    rows. The operations are those of [BlockWrite]; the counters a block brings are
    those of [BuildBlock]. *)

From S2P Require Import Prelude GoStrings EthCommon CallTrace SqlOrder BuildBlock BlockWrite.

(** ** Contributions of the stored rows *)

Section Rows.
Context {R : Type} (f : R → list contribution) (block_of : R → Z).
Hypothesis Hblock : ∀ r x, x ∈ f r → co_block x = block_of r.

(** The rows of a block and the contributions of the block. *)
Lemma bind_rows_block (P : Z → Prop) `{!∀ z, Decision (P z)} (l : list R) :
  filter (λ r, P (block_of r)) l ≫= f = filter (λ x, P (co_block x)) (l ≫= f).
Proof.
  induction l as [|r l IH]; [done|]. rewrite filter_cons, bind_cons, filter_app, <-IH.
  destruct (decide (P (block_of r))).
  - rewrite bind_cons, (filter_all _ (f r)); [done|]. intros x Hx. by rewrite (Hblock r x Hx).
  - rewrite (filter_none _ (f r)); [done|]. intros x Hx. by rewrite (Hblock r x Hx).
Qed.
End Rows.

Lemma tx_contributions_block t x : x ∈ tx_contributions t → co_block x = tx_block t.
Proof. unfold tx_contributions. destruct (tx_to t); set_solver. Qed.
Lemma transfer_contributions_block t x : x ∈ transfer_contributions t → co_block x = tr_block t.
Proof. unfold transfer_contributions. repeat case_decide; set_solver. Qed.
Lemma internal_contributions_block t x : x ∈ internal_contributions t → co_block x = BlockNumber t.
Proof. unfold internal_contributions. destruct (To t); [case_decide|]; set_solver. Qed.
Lemma contract_contributions_block t x : x ∈ contract_contributions t → co_block x = cr_block t.
Proof. unfold contract_contributions. set_solver. Qed.

Lemma contributions_filter (P : Z → Prop) `{!∀ z, Decision (P z)} txs trs its crs :
  contributions (filter (λ t, P (tx_block t)) txs) (filter (λ t, P (tr_block t)) trs) (filter (λ it, P (BlockNumber it)) its)
    (filter (λ r, P (cr_block r)) crs) = filter (λ x, P (co_block x)) (contributions txs trs its crs).
Proof.
  unfold contributions.
  rewrite (bind_rows_block tx_contributions tx_block tx_contributions_block P),
    (bind_rows_block transfer_contributions tr_block transfer_contributions_block P),
    (bind_rows_block internal_contributions BlockNumber internal_contributions_block P),
    (bind_rows_block contract_contributions cr_block contract_contributions_block P), !filter_app. done.
Qed.

#[export] Instance contributions_proper : Proper ((≡ₚ) ==> (≡ₚ) ==> (≡ₚ) ==> (≡ₚ) ==> (≡ₚ)) contributions.
Proof. intros ?? E1 ?? E2 ?? E3 ?? E4. unfold contributions. by rewrite E1, E2, E3, E4. Qed.

Lemma app_swap_middle {A} (a b c d : list A) : (a ++ b) ++ (c ++ d) ≡ₚ (a ++ c) ++ (b ++ d).
Proof. rewrite <-!(assoc_L (++)). f_equiv. apply Permutation_app_swap_app. Qed.

Lemma contributions_app a1 a2 b1 b2 c1 c2 d1 d2 :
  contributions (a1 ++ a2) (b1 ++ b2) (c1 ++ c2) (d1 ++ d2) ≡ₚ contributions a1 b1 c1 d1 ++ contributions a2 b2 c2 d2.
Proof.
  unfold contributions. rewrite !bind_app. by rewrite (app_swap_middle (c1 ≫= _)), (app_swap_middle (b1 ≫= _)), (app_swap_middle (a1 ≫= _)).
Qed.

Lemma of_address_app a l1 l2 : of_address a (l1 ++ l2) = of_address a l1 ++ of_address a l2.
Proof. apply filter_app. Qed.
Lemma total_app f a l1 l2 : total f a (l1 ++ l2) = total f a l1 + total f a l2.
Proof. induction l1 as [|x l1 IH]; [done|]. rewrite <-app_comm_cons, !total_cons, IH. lia. Qed.
Lemma txs_seen_app a l1 l2 : txs_seen a (l1 ++ l2) = txs_seen a l1 ∪ txs_seen a l2.
Proof. unfold txs_seen. rewrite of_address_app, omap_app, list_to_set_app_L. done. Qed.
Lemma elem_of_txs_seen a h l : h ∈ txs_seen a l ↔ ∃ x, x ∈ l ∧ co_address x = a ∧ co_tx x = Some h.
Proof.
  unfold txs_seen, of_address. rewrite elem_of_list_to_set, list_elem_of_omap. setoid_rewrite list_elem_of_filter. naive_solver.
Qed.

Section InsertRows.
Context {K A R : Type} `{Countable K} (key : R → K) (val : R → A).

Definition insert_rows (m : gmap K A) (l : list R) : gmap K A := foldl (λ m r, (insert_new (key r) (val r) m).1) m l.

Lemma insert_new_lookup k v (m : gmap K A) i :
  (insert_new k v m).1 !! i = match m !! i with Some x => Some x | None => if decide (i = k) then Some v else None end.
Proof.
  unfold insert_new. destruct (m !! k) eqn:E; cbn.
  - destruct (m !! i) eqn:Ei; [done|]. case_decide; [congruence|done].
  - destruct (decide (i = k)) as [->|Hne]; [rewrite lookup_insert_eq, E; done|rewrite lookup_insert_ne by done; by destruct (m !! i)].
Qed.

(** Rows stay, and every other row is one of the list. *)
Lemma insert_rows_keeps m l k x : m !! k = Some x → insert_rows m l !! k = Some x.
Proof.
  revert m. induction l as [|r l IH]; intros m Hm; [done|]. apply IH. by rewrite insert_new_lookup, Hm.
Qed.
Lemma insert_rows_inv m l k x : insert_rows m l !! k = Some x → m !! k = Some x ∨ ∃ r, r ∈ l ∧ k = key r ∧ x = val r.
Proof.
  revert m. induction l as [|r l IH]; intros m Hm; [by left|]. apply IH in Hm as [Hm|(r' & Hr & ?)].
  - rewrite insert_new_lookup in Hm. destruct (m !! k); [by left|]. case_decide; simplify_eq. right. exists r. set_solver.
  - right. exists r'. set_solver.
Qed.

Lemma insert_rows_fresh m l : NoDup (key <$> l) → Forall (λ r, m !! key r = None) l →
  values (insert_rows m l) ≡ₚ (val <$> l) ++ values m ∧ Forall (λ r, insert_rows m l !! key r = Some (val r)) l.
Proof.
  revert m. induction l as [|r l IH]; intros m Hn Hf; [done|].
  rewrite fmap_cons, NoDup_cons in Hn. destruct Hn as [Hr Hn]. apply Forall_cons_1 in Hf as [Hmr Hf].
  change (insert_rows m (r :: l)) with (insert_rows (insert_new (key r) (val r) m).1 l).
  assert ((insert_new (key r) (val r) m).1 = <[key r := val r]> m) as -> by (unfold insert_new; by rewrite Hmr).
  destruct (IH (<[key r := val r]> m)) as [Hv Hall]; [done| |].
  { rewrite Forall_forall in Hf |- *. intros r' Hr'. rewrite lookup_insert_ne; [auto|]. intros E. apply Hr. rewrite E. by apply list_elem_of_fmap_2. }
  split.
  - rewrite Hv, (values_insert _ _ _ Hmr). rewrite fmap_cons. symmetry. apply Permutation_middle.
  - apply Forall_cons_2; [|done]. apply insert_rows_keeps. by rewrite lookup_insert_eq.
Qed.

(** With rows that are there already: those are dropped, and each has the row that stands
    for it. *)
Lemma insert_rows_dropped m l : ∃ dropped, (val <$> l) ++ values m ≡ₚ (val <$> dropped) ++ values (insert_rows m l) ∧
  Forall (λ r, r ∈ l ∧ (is_Some (m !! key r) ∨ ∃ r', r' ∈ l ∧ key r' = key r ∧ insert_rows m l !! key r = Some (val r'))) dropped.
Proof.
  revert m. induction l as [|r l IH]; intros m; [exists []; split; [done|constructor]|].
  change (insert_rows m (r :: l)) with (insert_rows (insert_new (key r) (val r) m).1 l). destruct (m !! key r) as [x|] eqn:E.
  - assert ((insert_new (key r) (val r) m).1 = m) as -> by (unfold insert_new; by rewrite E).
    destruct (IH m) as (dr & Hv & Hd). exists (r :: dr). split; [by rewrite !fmap_cons, <-!app_comm_cons, Hv|].
    constructor; [split; [left|left; by eexists]|]. eapply Forall_impl; [exact Hd|]. intros r' [? Hr]. split; [by right|]. destruct Hr as [?|(r2 & ? & ?)]; [by left|right; exists r2; split; [by right|done]].
  - assert ((insert_new (key r) (val r) m).1 = <[key r := val r]> m) as -> by (unfold insert_new; by rewrite E).
    destruct (IH (<[key r := val r]> m)) as (dr & Hv & Hd). exists dr. split.
    { rewrite <-Hv, (values_insert _ _ _ E), fmap_cons. apply Permutation_middle. }
    eapply Forall_impl; [exact Hd|]. intros r' [? Hr]. split; [by right|]. destruct (decide (key r' = key r)) as [Ek|Ek].
    + right. exists r. split; [left|]. split; [done|]. rewrite Ek. apply insert_rows_keeps. by rewrite lookup_insert_eq.
    + destruct Hr as [Hs|(r2 & ? & ?)]; [left; by rewrite lookup_insert_ne in Hs|right; exists r2; split; [by right|done]].
Qed.
End InsertRows.

(** ** Contributions that change nothing *)

(** One that counts nothing, of an address and a block that another one has too. *)
Definition silent (l : list contribution) (x : contribution) : Prop :=
  co_tx x = None ∧ co_sent x = 0 ∧ co_internal x = 0 ∧ co_transfers x = 0 ∧ ∃ y, y ∈ l ∧ co_address y = co_address x ∧ co_block y = co_block x.

Lemma silent_total f a X : Forall (λ x, f x = 0) X → total f a X = 0.
Proof. induction 1 as [|x X Hx _ IH]; [done|]. rewrite total_cons, IH, Hx. by case_decide. Qed.
Lemma silent_seen a X : Forall (λ x, co_tx x = None) X → txs_seen a X = ∅.
Proof. rewrite Forall_forall. intros HX. apply set_eq. intros h. rewrite elem_of_txs_seen. split; [|set_solver]. intros (x & Hx & _ & Hh). specialize (HX x Hx). congruence. Qed.
Lemma of_address_silent a X l : Forall (silent l) X → of_address a l = [] → of_address a X = [].
Proof.
  rewrite Forall_forall. intros HX Hl. apply elem_of_nil_inv. intros x. unfold of_address. rewrite list_elem_of_filter. intros [Ha Hx].
  destruct (HX x Hx) as (_ & _ & _ & _ & y & Hy & Hya & _). apply (not_elem_of_nil y). rewrite <-Hl. apply list_elem_of_filter. split; [congruence|done].
Qed.

Definition tx_val (w : gset gostring) (t : tx_row) : tx_row * Z := (lower_tx t, computeTxCategories t (bool_decide (tx_hash t ∈ w))).

Lemma insert_txs_rows w txs m δ m' δ' : insert_txs w txs m δ = Ok (m', δ') → m' = insert_rows tx_hash (tx_val w) m txs.
Proof.
  revert m δ. induction txs as [|t txs IH]; intros m δ; cbn [insert_txs]; [by intros [= <- _]|].
  destruct (numeric_value _); [|done]. cbn [res_bind].
  destruct (insert_new _ _ m) as [m1 new] eqn:E. intros ->%IH. unfold insert_rows. cbn [foldl]. unfold tx_val at 3. by rewrite E.
Qed.

Lemma insert_transfers_rows trs a a' : insert_transfers trs a = Ok a' → ta_table a' = insert_rows transfer_key lower_transfer (ta_table a) trs.
Proof.
  revert a. induction trs as [|t trs IH]; intros a; cbn [insert_transfers]; [by intros [= <-]|].
  destruct (numeric_value _); [|done]. cbn [res_bind].
  destruct (insert_new _ _ _) as [m1 new] eqn:E. unfold insert_rows. cbn [foldl]. unfold transfer_key at 2. rewrite E.
  destruct new; intros ->%IH; done.
Qed.

(** ** What a write relies on *)

(** The chain names a transaction and a frame once, and numbers logs per block; no
    transaction and no frame of the block is stored. A contract of the block may be: one
    created again, whose address another row of the block names (the frame that creates it). *)
Record fresh (s : tables) (d : BlockData) : Prop := {
  fr_txs : NoDup (tx_hash <$> bd_txs d) ∧ Forall (λ t, s_txs s !! tx_hash t = None) (bd_txs d);
  fr_transfers : NoDup (transfer_key <$> bd_transfers d) ∧ Forall (λ t, tr_tx t ∈ tx_hash <$> bd_txs d) (bd_transfers d);
  fr_internal : NoDup ((λ it, (TxHash it, TraceAddress it)) <$> bd_internal d) ∧
    Forall (λ it, s_internal s !! (TxHash it, TraceAddress it) = None) (bd_internal d);
  fr_contracts : Forall (λ r, s_contracts s !! ToLower (cr_address r) = None ∨
      of_address (ToLower (cr_address r)) (contributions (bd_txs d) (bd_transfers d) (bd_internal d) []) ≠ []) (bd_contracts d) }.

Definition lower_case (a : gostring) : Prop := ToLower a = a.

(** What holds of the stored rows. *)
Record rows_ok (s : tables) : Prop := {
  ro_transfers : ∀ k t, s_transfers s !! k = Some t → k = transfer_key t ∧ is_Some (s_blocks s !! tr_block t) ∧
    lower_case (tr_from t) ∧ lower_case (tr_to t) ∧ lower_case (tr_token t);
  ro_txs : ∀ h t c, s_txs s !! h = Some (t, c) → h = tx_hash t ∧ lower_case (tx_from t) ∧ (∀ a, tx_to t = Some a → lower_case a);
  ro_internal : ∀ k it, s_internal s !! k = Some it → lower_case (From it) ∧ (∀ a, To it = Some a → lower_case a);
  ro_hash : ∀ x h, x ∈ stored_contributions s → co_tx x = Some h → ∃ t c, s_txs s !! h = Some (t, c) ∧ tx_block t = co_block x }.

Lemma lower_tx_contributions t : tx_contributions (lower_tx t) = tx_contributions t.
Proof. unfold tx_contributions. cbn. rewrite ToLower_idemp. destruct (tx_to t); cbn; by rewrite ?ToLower_idemp. Qed.
Lemma lower_transfer_contributions t : transfer_contributions (lower_transfer t) = transfer_contributions t.
Proof. unfold transfer_contributions. cbn [lower_transfer tr_from tr_to tr_tx tr_block]. by rewrite !ToLower_idemp. Qed.
Lemma lower_internal_contributions it : internal_contributions (lower_internal it) = internal_contributions it.
Proof.
  unfold internal_contributions. cbn [lower_internal From To BlockNumber]. rewrite ToLower_idemp.
  destruct (To it); cbn [fmap option_fmap option_map]; by rewrite ?ToLower_idemp.
Qed.

Lemma bind_fmap_same {A B} (f : A → A) (h : A → list B) (Hh : ∀ a, h (f a) = h a) (l : list A) : (f <$> l) ≫= h = l ≫= h.
Proof. induction l as [|a l IH]; [done|]. by rewrite fmap_cons, !bind_cons, IH, Hh. Qed.

Lemma lower_contributions txs trs its crs :
  contributions (lower_tx <$> txs) (lower_transfer <$> trs) (lower_internal <$> its) crs = contributions txs trs its crs.
Proof.
  unfold contributions.
  rewrite (bind_fmap_same lower_tx _ lower_tx_contributions), (bind_fmap_same lower_transfer _ lower_transfer_contributions),
    (bind_fmap_same lower_internal _ lower_internal_contributions). done.
Qed.

Lemma insert_internal_rows its m : insert_internal its m = insert_rows (λ it, (TxHash it, TraceAddress it)) lower_internal m its.
Proof. done. Qed.
Lemma insert_contracts_rows crs m : insert_contracts crs m = insert_rows (λ r, ToLower (cr_address r)) id m crs.
Proof. done. Qed.

Lemma shared_parts d g : s_blocks (writeSharedRows d g) = s_blocks (g_tables g) ∧ s_txs (writeSharedRows d g) = s_txs (g_tables g) ∧
  s_transfers (writeSharedRows d g) = s_transfers (g_tables g) ∧ s_internal (writeSharedRows d g) = s_internal (g_tables g) ∧
  s_contracts (writeSharedRows d g) = insert_contracts (bd_contracts d) (s_contracts (g_tables g)) ∧
  s_nfts (writeSharedRows d g) = foldl upsert_nft (s_nfts (g_tables g)) (bd_nfts d) ∧
  s_stats (writeSharedRows d g) = (if bd_skip_stats d then s_stats (g_tables g) else upsert_stats (bd_stats d) (s_stats (g_tables g))).
Proof. unfold writeSharedRows. by destruct (foldl upsert_token _ _). Qed.

Section Write.
Context (d : BlockData) (s : tables) (g : begun).
Hypothesis Hd : data_ok d.
Hypothesis Hg : pieces d s g.
Hypothesis Hf : fresh s d.
Hypothesis Hs : rows_ok s.

Lemma transfers_fresh : Forall (λ t, s_transfers s !! transfer_key t = None) (bd_transfers d).
Proof.
  destruct (ok_block d Hd) as (b & Eb & _ & _ & Htr & _). pose proof (pc_blocks _ _ _ Hg) as Hb. rewrite Eb in Hb.
  rewrite Forall_forall in Htr |- *. intros t Ht. destruct (s_transfers s !! transfer_key t) as [r|] eqn:E; [|done].
  destruct (ro_transfers s Hs _ _ E) as (Ek & [b' Hb'] & _). destruct Hb as [Hb _].
  assert (tr_block r = br_number b); [|congruence]. rewrite <-(Htr t Ht). unfold transfer_key in Ek. congruence.
Qed.

Lemma write_tables :
  (fst <$> values (s_txs (g_tables g)) ≡ₚ (lower_tx <$> bd_txs d) ++ (fst <$> values (s_txs s))) ∧
  values (s_transfers (g_tables g)) ≡ₚ (lower_transfer <$> bd_transfers d) ++ values (s_transfers s) ∧
  values (s_internal (g_tables g)) ≡ₚ (lower_internal <$> bd_internal d) ++ values (s_internal s).
Proof.
  destruct Hf as [[F1 F1'] [F2 _] [F3 F3'] _]. split_and!.
  - pose proof (insert_txs_rows _ _ _ _ _ _ (pc_txs _ _ _ Hg)) as ->.
    destruct (insert_rows_fresh tx_hash (tx_val (buildTokenTransferTxSet (bd_transfers d))) _ _ F1 F1') as [-> _].
    rewrite fmap_app, <-list_fmap_compose. done.
  - destruct (pc_transfers _ _ _ Hg) as [cf E%insert_transfers_rows]. cbn in E. rewrite E.
    by destruct (insert_rows_fresh transfer_key lower_transfer _ _ F2 transfers_fresh) as [-> _].
  - rewrite (pc_internal _ _ _ Hg), insert_internal_rows. by destruct (insert_rows_fresh _ lower_internal _ _ F3 F3') as [-> _].
Qed.

Lemma data_blocks b x : bd_block d = Some b → x ∈ data_contributions d → co_block x = br_number b.
Proof.
  intros Eb. destruct (ok_block d Hd) as (b' & Eb' & H1 & _ & H2 & H3 & H4 & _). assert (b' = b) as -> by congruence.
  rewrite Forall_forall in H1; rewrite Forall_forall in H2; rewrite Forall_forall in H3; rewrite Forall_forall in H4. unfold data_contributions, contributions. rewrite !elem_of_app, !list_elem_of_bind.
  intros [(r & Hx & Hr)|[(r & Hx & Hr)|[(r & Hx & Hr)|(r & Hx & Hr)]]].
  - rewrite (tx_contributions_block _ _ Hx). auto.
  - rewrite (transfer_contributions_block _ _ Hx). auto.
  - rewrite (internal_contributions_block _ _ Hx). auto.
  - rewrite (contract_contributions_block _ _ Hx). auto.
Qed.

(** What is stored afterwards, with the contracts that were there already. *)
Lemma write_contributions : ∃ X, Forall (silent (stored_contributions (writeSharedRows d g))) X ∧
  X ++ stored_contributions (writeSharedRows d g) ≡ₚ data_contributions d ++ stored_contributions s.
Proof.
  destruct (pc_shared _ _ _ Hg) as [Hc _]. destruct write_tables as (E1 & E2 & E3).
  destruct (shared_parts d g) as (_ & E5 & E6 & E7 & E8 & _). rewrite Hc, insert_contracts_rows in E8.
  destruct (insert_rows_dropped (λ r, ToLower (cr_address r)) id (s_contracts s) (bd_contracts d)) as (dropped & Hv & Hdr). rewrite !list_fmap_id in Hv.
  set (now := insert_rows _ id (s_contracts s) (bd_contracts d)) in *.
  assert (stored_contributions (writeSharedRows d g) ≡ₚ
    contributions (lower_tx <$> bd_txs d) (lower_transfer <$> bd_transfers d) (lower_internal <$> bd_internal d) [] ++
    contributions (fst <$> values (s_txs s)) (values (s_transfers s)) (values (s_internal s)) (values now)) as Hnow.
  { unfold stored_contributions. rewrite E5, E6, E7, E8, E1, E2, E3. by rewrite <-contributions_app. }
  exists (dropped ≫= contract_contributions). split.
  - apply Forall_forall. intros x (r & Hx & Hr)%list_elem_of_bind. rewrite Forall_forall in Hdr. destruct (Hdr r Hr) as [Hin Hst].
    unfold contract_contributions in Hx. apply list_elem_of_singleton in Hx as ->. unfold silent. cbn. split_and!; [done..|].
    destruct (ok_block d Hd) as (b & Eb & _ & _ & _ & _ & H4 & _). rewrite Forall_forall in H4.
    destruct Hst as [Hst|(r' & Hr' & Ek & Enow)].
    + pose proof (fr_contracts s d Hf) as F. rewrite Forall_forall in F. destruct (F r Hin) as [Hn|Hn]; [rewrite Hn in Hst; by destruct Hst|].
      rewrite <-lower_contributions in Hn. destruct (of_address _ _) as [|y l] eqn:Ey; [done|].
      assert (y ∈ y :: l) as Hy by left. rewrite <-Ey in Hy. unfold of_address in Hy. apply list_elem_of_filter in Hy as [Ha Hy]. exists y. split; [|split; [done|]].
      * rewrite Hnow. apply elem_of_app. by left.
      * rewrite (H4 r Hin). rewrite lower_contributions in Hy. apply (data_blocks b); [done|]. unfold data_contributions, contributions in *. rewrite !elem_of_app in Hy |- *. cbn in Hy. rewrite elem_of_nil in Hy. tauto.
    + exists (mkContribution (ToLower (cr_address r')) None (cr_block r') 0 0 0). cbn. rewrite (H4 r Hin), (H4 r' Hr'), Ek. split; [|done].
      rewrite Hnow. unfold contributions. rewrite !elem_of_app. right. right. right. right. apply list_elem_of_bind. exists r'. split; [unfold contract_contributions; rewrite Ek, (H4 r' Hr'); left|].
      apply elem_of_values. by eexists.
  - rewrite Hnow. unfold stored_contributions, data_contributions. rewrite lower_contributions.
    transitivity (contributions [] [] [] dropped ++ contributions (bd_txs d) (bd_transfers d) (bd_internal d) [] ++
      contributions (fst <$> values (s_txs s)) (values (s_transfers s)) (values (s_internal s)) (values now)); [done|].
    rewrite <-!contributions_app. cbn [app]. by rewrite <-Hv.
Qed.
Lemma stored_after x : x ∈ stored_contributions (writeSharedRows d g) → x ∈ data_contributions d ∨ x ∈ stored_contributions s.
Proof. intros Hx. destruct write_contributions as (X & _ & HX). rewrite <-elem_of_app, <-HX. apply elem_of_app. by right. Qed.

Lemma data_hashes x h : x ∈ data_contributions d → co_tx x = Some h → h ∈ tx_hash <$> bd_txs d.
Proof.
  destruct (fr_transfers s d Hf) as [_ H2]. rewrite Forall_forall in H2.
  unfold data_contributions, contributions. rewrite !elem_of_app, !list_elem_of_bind.
  intros [(r & Hx & Hr)|[(r & Hx & Hr)|[(r & Hx & Hr)|(r & Hx & Hr)]]] Htx.
  - apply list_elem_of_fmap. exists r. split; [|done]. unfold tx_contributions in Hx. destruct (tx_to r); set_solver.
  - replace h with (tr_tx r); [auto|]. unfold transfer_contributions in Hx. repeat case_decide; set_solver.
  - unfold internal_contributions in Hx. destruct (To r); [case_decide|]; set_solver.
  - unfold contract_contributions in Hx. set_solver.
Qed.

Lemma write_rows_ok : rows_ok (writeSharedRows d g).
Proof.
  destruct (shared_parts d g) as (Eb & Et & Er & Ei & _). destruct (ok_block d Hd) as (b & Ed & Hall).
  pose proof (pc_blocks _ _ _ Hg) as Hb. rewrite Ed in Hb. destruct Hb as (_ & Hb & _).
  destruct (pc_transfers _ _ _ Hg) as [cf Etr%insert_transfers_rows]. cbn in Etr.
  pose proof (insert_txs_rows _ _ _ _ _ _ (pc_txs _ _ _ Hg)) as Etx.
  split.
  - intros k t. rewrite Er, Etr. intros [E|(r & Hr & -> & ->)]%insert_rows_inv.
    + destruct (ro_transfers s Hs k t E) as (-> & Hbt & Hlow). split; [done|]. split; [|done]. rewrite Eb, Hb.
      destruct (decide (tr_block t = br_number b)) as [->|]; [by rewrite lookup_insert_eq|by rewrite lookup_insert_ne].
    + split; [done|]. split; [|split_and!; apply ToLower_idemp]. rewrite Eb, Hb. cbn [lower_transfer tr_block].
      destruct Hall as (_ & _ & Htr & _). rewrite Forall_forall in Htr. rewrite (Htr r Hr), lookup_insert_eq. by eexists.
  - intros h t c. rewrite Et, Etx. intros [E|(r & Hr & -> & [= -> ->])]%insert_rows_inv; [by eapply ro_txs|].
    cbn. split_and!; [done|apply ToLower_idemp|]. intros a. destruct (tx_to r); cbn; [|done]. intros [= <-]. apply ToLower_idemp.
  - intros k it. rewrite Ei, (pc_internal _ _ _ Hg), insert_internal_rows. intros [E|(r & Hr & -> & ->)]%insert_rows_inv; [by eapply ro_internal|].
    split; [apply ToLower_idemp|]. cbn. intros a. destruct (To r); cbn; [|done]. intros [= <-]. apply ToLower_idemp.
  - intros x h Hin Hh. rewrite Et, Etx. destruct (stored_after x Hin) as [Hx|Hx].
    + pose proof (data_hashes x h Hx Hh) as (t & -> & Ht)%list_elem_of_fmap. rewrite (data_blocks b x Ed Hx).
      destruct (fr_txs s d Hf) as [F1 F2].
      destruct (insert_rows_fresh tx_hash (tx_val (buildTokenTransferTxSet (bd_transfers d))) _ _ F1 F2) as [_ Hl].
      rewrite Forall_forall in Hl. specialize (Hl t Ht). eexists _, _. split; [exact Hl|]. cbn.
      destruct Hall as [Hall _]. rewrite Forall_forall in Hall. auto.
    + destruct (ro_hash s Hs x h Hx Hh) as (t & c & E & ?). exists t, c. split; [|done]. by apply insert_rows_keeps.
Qed.
End Write.

(** ** The statistics are those of the stored rows *)

Record exact_row (l : list contribution) (a : gostring) (r : address_rec) : Prop := {
  ex_some : of_address a l ≠ [];
  ex_txs : ae_txs r = Z.of_nat (size (txs_seen a l));
  ex_internal : ae_internal r = total co_internal a l;
  ex_transfers : ae_transfers r = total co_transfers a l;
  ex_sent : ae_sent r = total co_sent a l;
  ex_first : (∀ x, x ∈ of_address a l → ae_first r ≤ co_block x) ∧ ∃ x, x ∈ of_address a l ∧ co_block x = ae_first r;
  ex_last : (∀ x, x ∈ of_address a l → co_block x ≤ ae_last r) ∧ ∃ x, x ∈ of_address a l ∧ co_block x = ae_last r }.

Definition stats_exact (s : tables) : Prop := ∀ a,
  match s_stats s !! a with
  | Some r => exact_row (stored_contributions s) a r
  | None => of_address a (stored_contributions s) = []
  end.

Lemma exact_row_perm l1 l2 a r : l1 ≡ₚ l2 → exact_row l1 a r → exact_row l2 a r.
Proof.
  intros Hp [H1 H2 H3 H4 H5 [H6 H6'] [H7 H7']]. split.
  - intros E. apply H1, Permutation_nil_r. by rewrite Hp, E.
  - by rewrite <-(txs_seen_perm a _ _ Hp).
  - by rewrite <-(total_perm _ a _ _ Hp).
  - by rewrite <-(total_perm _ a _ _ Hp).
  - by rewrite <-(total_perm _ a _ _ Hp).
  - split; [intros x; rewrite <-Hp; apply H6|]. destruct H6' as (x & ? & ?). exists x. by rewrite <-Hp.
  - split; [intros x; rewrite <-Hp; apply H7|]. destruct H7' as (x & ? & ?). exists x. by rewrite <-Hp.
Qed.

(** Contributions of other addresses do not matter. *)
Lemma exact_row_app_nil l1 l2 a r : of_address a l1 = [] → exact_row (l1 ++ l2) a r ↔ exact_row l2 a r.
Proof.
  intros E. assert (∀ f, total f a l1 = 0) as Ht by (intros f; unfold total; by rewrite E).
  assert (txs_seen a l1 = ∅) as Hx by (unfold txs_seen; by rewrite E).
  split; intros [X1 X2 X3 X4 X5 X6 X7]; split; rewrite ?of_address_app, ?txs_seen_app, ?total_app, ?E, ?Ht, ?Hx, ?union_empty_l_L in *; done.
Qed.

Lemma exact_row_silent X l a r : Forall (silent l) X → exact_row (X ++ l) a r → exact_row l a r.
Proof.
  intros HX [X1 X2 X3 X4 X5 [X6 X6'] [X7 X7']].
  assert (∀ x, x ∈ of_address a X → ∃ y, y ∈ of_address a l ∧ co_block y = co_block x) as Hc.
  { rewrite Forall_forall in HX. intros x. unfold of_address. setoid_rewrite list_elem_of_filter. intros [<- Hx]. destruct (HX x Hx) as (_ & _ & _ & _ & y & ? & ? & ?). eauto. }
  rewrite of_address_app in X1, X6, X6', X7, X7'. rewrite txs_seen_app in X2. rewrite total_app in X3, X4, X5.
  rewrite silent_seen, union_empty_l_L in X2 by (eapply Forall_impl; [exact HX|]; intros ? H; apply H).
  rewrite silent_total in X3, X4, X5 by (eapply Forall_impl; [exact HX|]; intros ? H; apply H).
  split; [|done|done..| |].
  - intros E. apply X1. by rewrite (of_address_silent a X l HX E), E.
  - split; [set_solver|]. destruct X6' as (x & [Hx|Hx]%elem_of_app & <-); [by apply Hc|eauto].
  - split; [set_solver|]. destruct X7' as (x & [Hx|Hx]%elem_of_app & <-); [by apply Hc|eauto].
Qed.

Section WriteStats.
Context (d : BlockData) (s : tables) (g : begun) (b : block_row).
Hypothesis Hd : data_ok d.
Hypothesis Hg : pieces d s g.
Hypothesis Hf : fresh s d.
Hypothesis Hs : rows_ok s.
Hypothesis Hb : bd_block d = Some b.
Hypothesis Hn : 0 ≤ br_number b.
Hypothesis Hskip : bd_skip_stats d = false.

Lemma data_recount a δ : bd_stats d !! a = Some δ → recount (br_number b) (data_contributions d) a δ.
Proof.
  destruct (ok_block d Hd) as (b' & Eb & _ & _ & _ & _ & _ & Hr). assert (b' = b) as -> by congruence. apply Hr.
Qed.

Lemma seen_disjoint a : txs_seen a (data_contributions d) ## txs_seen a (stored_contributions s).
Proof.
  intros h (x & Hx & _ & Hh)%elem_of_txs_seen (y & Hy & _ & Hh')%elem_of_txs_seen.
  apply (data_hashes d s g Hd Hg Hf Hs x h Hx) in Hh as (t & -> & Ht)%list_elem_of_fmap.
  destruct (ro_hash s Hs y _ Hy Hh') as (t' & c & E & _). destruct (fr_txs s d Hf) as [_ F]. rewrite Forall_forall in F.
  rewrite (F t Ht) in E. done.
Qed.

Lemma of_address_block a x : x ∈ of_address a (data_contributions d) → co_block x = br_number b.
Proof. unfold of_address. rewrite list_elem_of_filter. intros [_ Hx]. by eapply data_blocks. Qed.

Lemma exact_new a δ : bd_stats d !! a = Some δ → of_address a (stored_contributions s) = [] →
  exact_row (data_contributions d ++ stored_contributions s) a (new_address δ).
Proof.
  intros Hδ Hc. destruct (data_recount a δ Hδ) as (_ & E1 & E2 & E3 & E4 & E5 & E6).
  pose proof (proj1 (ok_seen d Hd a) ltac:(by rewrite Hδ)) as Hne.
  assert (∀ f, total f a (stored_contributions s) = 0) as Ht by (intros f; unfold total; by rewrite Hc).
  assert (txs_seen a (stored_contributions s) = ∅) as Hx by (unfold txs_seen; by rewrite Hc).
  destruct (of_address a (data_contributions d)) as [|y l] eqn:E; [done|].
  assert (co_block y = br_number b) as Hy by (apply (of_address_block a); rewrite E; left).
  split; rewrite ?of_address_app, ?txs_seen_app, ?total_app, ?Ht, ?Hx, ?Hc, ?E, ?app_nil_r; cbn [new_address ae_txs ae_internal ae_transfers ae_sent ae_first ae_last].
  - done.
  - rewrite E3. by rewrite union_empty_r_L.
  - lia.
  - lia.
  - lia.
  - split; [|exists y; split; [left|lia]]. intros x Hx'. rewrite E1, (of_address_block a x); [done|]. by rewrite E.
  - split; [|exists y; split; [left|lia]]. intros x Hx'. rewrite (of_address_block a x); [lia|]. by rewrite E.
Qed.

Lemma exact_seen a δ r : bd_stats d !! a = Some δ → exact_row (stored_contributions s) a r →
  exact_row (data_contributions d ++ stored_contributions s) a (seen_address δ r).
Proof.
  intros Hδ [X1 X2 X3 X4 X5 [X6 X6'] [X7 X7']]. destruct (data_recount a δ Hδ) as (_ & E1 & E2 & E3 & E4 & E5 & E6).
  pose proof (proj1 (ok_seen d Hd a) ltac:(by rewrite Hδ)) as Hne.
  destruct (of_address a (data_contributions d)) as [|y l] eqn:E; [done|].
  assert (co_block y = br_number b) as Hy by (apply (of_address_block a); rewrite E; left).
  split; rewrite ?of_address_app, ?txs_seen_app, ?total_app; cbn [seen_address ae_txs ae_internal ae_transfers ae_sent ae_first ae_last].
  - by rewrite E.
  - rewrite size_union by apply seen_disjoint. lia.
  - lia.
  - lia.
  - lia.
  - split.
    + intros x [Hx|Hx]%elem_of_app; [rewrite (of_address_block a x Hx); lia|]. specialize (X6 x Hx). lia.
    + destruct X6' as (z & Hz & Ez). destruct (Z.le_gt_cases (ae_first r) (ad_block δ)).
      * exists z. split; [set_solver|lia].
      * exists y. split; [rewrite E; set_solver|lia].
  - split.
    + intros x [Hx|Hx]%elem_of_app; [rewrite (of_address_block a x Hx); lia|]. specialize (X7 x Hx). lia.
    + destruct X7' as (z & Hz & Ez). destruct (Z.le_gt_cases (ad_block δ) (ae_last r)).
      * exists z. split; [set_solver|lia].
      * exists y. split; [rewrite E; set_solver|lia].
Qed.

Lemma write_stats : stats_exact s → stats_exact (writeSharedRows d g).
Proof.
  intros He a. specialize (He a). destruct (shared_parts d g) as (_ & _ & _ & _ & _ & _ & ->). rewrite Hskip.
  destruct (pc_shared _ _ _ Hg) as (_ & _ & _ & -> & _). unfold upsert_stats. rewrite lookup_merge.
  destruct (write_contributions d s g Hd Hg Hf Hs) as (X & HX & Hp).
  assert (∀ r, exact_row (data_contributions d ++ stored_contributions s) a r → exact_row (stored_contributions (writeSharedRows d g)) a r) as Hrow.
  { intros r Hr. apply (exact_row_silent X); [done|]. eapply exact_row_perm; [symmetry; exact Hp|done]. }
  assert (bd_stats d !! a = None → of_address a (data_contributions d) = []) as Hnone.
  { intros Eδ. destruct (decide (of_address a (data_contributions d) = [])) as [|Hne]; [done|]. apply (ok_seen d Hd a) in Hne as [? ?]. congruence. }
  destruct (s_stats s !! a) as [r|], (bd_stats d !! a) as [δ|] eqn:Eδ; cbn.
  - apply Hrow. by apply exact_seen.
  - apply Hrow. apply exact_row_app_nil; [by apply Hnone|done].
  - apply Hrow. by apply exact_new.
  - assert (of_address a (X ++ stored_contributions (writeSharedRows d g)) = []) as E; [|rewrite of_address_app in E; by apply app_eq_nil in E as [_ E]].
    apply Permutation_nil_r. rewrite Hp, of_address_app, He, app_nil_r. by rewrite Hnone.
Qed.
End WriteStats.

(** ** A revert *)

Lemma foldr_min_spec x l : (foldr Z.min x l = x ∨ foldr Z.min x l ∈ l) ∧ foldr Z.min x l ≤ x ∧ ∀ y, y ∈ l → foldr Z.min x l ≤ y.
Proof.
  induction l as [|z l (H1 & H2 & H3)]; cbn; [split; [by left|]; split; [lia|]; intros y Hy; by apply not_elem_of_nil in Hy|].
  split; [|split; [lia|intros y [->|Hy]%elem_of_cons; [lia|]; specialize (H3 y Hy); lia]].
  destruct (Z.min_spec z (foldr Z.min x l)) as [[_ ->]|[_ ->]]; [right; set_solver|]. destruct H1; [by left|right; set_solver].
Qed.
Lemma foldr_max_spec x l : (foldr Z.max x l = x ∨ foldr Z.max x l ∈ l) ∧ x ≤ foldr Z.max x l ∧ ∀ y, y ∈ l → y ≤ foldr Z.max x l.
Proof.
  induction l as [|z l (H1 & H2 & H3)]; cbn; [split; [by left|]; split; [lia|]; intros y Hy; by apply not_elem_of_nil in Hy|].
  split; [|split; [lia|intros y [->|Hy]%elem_of_cons; [lia|]; specialize (H3 y Hy); lia]].
  destruct (Z.max_spec z (foldr Z.max x l)) as [[_ ->]|[_ ->]]; [|right; set_solver]. destruct H1; [by left|right; set_solver].
Qed.
Lemma min_of_spec l d : l ≠ [] → default d (min_of l) ∈ l ∧ ∀ y, y ∈ l → default d (min_of l) ≤ y.
Proof.
  destruct l as [|x l]; [done|]. intros _. cbn. destruct (foldr_min_spec x l) as (H1 & H2 & H3). split; [set_solver|].
  intros y [->|Hy]%elem_of_cons; auto.
Qed.
Lemma max_of_spec l d : l ≠ [] → default d (max_of l) ∈ l ∧ ∀ y, y ∈ l → y ≤ default d (max_of l).
Proof.
  destruct l as [|x l]; [done|]. intros _. cbn. destruct (foldr_max_spec x l) as (H1 & H2 & H3). split; [set_solver|].
  intros y [->|Hy]%elem_of_cons; auto.
Qed.

Lemma contributions_nonneg txs trs its crs x : x ∈ contributions txs trs its crs → 0 ≤ co_sent x ∧ 0 ≤ co_internal x ∧ 0 ≤ co_transfers x.
Proof.
  unfold contributions. rewrite !elem_of_app, !list_elem_of_bind.
  intros [(r & Hx & _)|[(r & Hx & _)|[(r & Hx & _)|(r & Hx & _)]]].
  - unfold tx_contributions in Hx. apply elem_of_cons in Hx as [->|Hx].
    + cbn. destruct (_ && _); lia.
    + destruct (tx_to r); [|by apply not_elem_of_nil in Hx]. apply list_elem_of_singleton in Hx as ->. cbn. lia.
  - unfold transfer_contributions in Hx. apply elem_of_app in Hx as [Hx|Hx]; case_decide; try (by apply not_elem_of_nil in Hx);
      apply list_elem_of_singleton in Hx as ->; cbn; lia.
  - unfold internal_contributions in Hx. apply elem_of_cons in Hx as [->|Hx]; [cbn; lia|].
    destruct (To r); [case_decide|]; try (by apply not_elem_of_nil in Hx). apply list_elem_of_singleton in Hx as ->. cbn. lia.
  - apply list_elem_of_singleton in Hx as ->. cbn. lia.
Qed.

Lemma total_nonneg f a l : (∀ x, x ∈ l → 0 ≤ f x) → 0 ≤ total f a l.
Proof.
  induction l as [|x l IH]; intros Hl; [done|]. rewrite total_cons. specialize (IH ltac:(set_solver)).
  specialize (Hl x ltac:(set_solver)). case_decide; lia.
Qed.

Section NamedRows.
Context {R : Type} (f : R → list contribution) (block_of : R → Z).
Hypothesis Hblock : ∀ r x, x ∈ f r → co_block x = block_of r.

Lemma rows_block a b (Q : R → Prop) (l : list R) : (∀ r, r ∈ l → (∃ x, x ∈ f r ∧ co_address x = a) ↔ Q r) →
  (∃ x, x ∈ l ≫= f ∧ co_address x = a ∧ co_block x = b) ↔ ∃ r, r ∈ l ∧ Q r ∧ block_of r = b.
Proof.
  intros HQ. setoid_rewrite list_elem_of_bind. split.
  - intros (x & (r & Hx & Hr) & Ha & <-). exists r. split; [done|]. split; [apply HQ; eauto|]. symmetry. by apply Hblock.
  - intros (r & Hr & Hq & <-). apply (HQ r Hr) in Hq as (x & Hx & Ha). exists x. split; [eauto|]. split; [done|]. by apply Hblock.
Qed.
End NamedRows.

Lemma ex_or_named {A} (P1 P2 Q : A → Prop) : (∃ x, (P1 x ∨ P2 x) ∧ Q x) ↔ (∃ x, P1 x ∧ Q x) ∨ ∃ x, P2 x ∧ Q x.
Proof. naive_solver. Qed.

Lemma tx_named a t : lower_case (tx_from t) → (∀ c, tx_to t = Some c → lower_case c) →
  (∃ x, x ∈ tx_contributions t ∧ co_address x = a) ↔ tx_from t = a ∨ tx_to t = Some a.
Proof.
  intros H1 H2. unfold tx_contributions. setoid_rewrite elem_of_cons. rewrite H1. destruct (tx_to t) as [c|].
  - rewrite (H2 c eq_refl). setoid_rewrite list_elem_of_singleton. split; [|naive_solver].
    intros (x & [->| ->] & <-); cbn; [by left|by right].
  - setoid_rewrite elem_of_nil. split; [|naive_solver]. intros (x & [->|[]] & <-). by left.
Qed.

Lemma transfer_named a t : lower_case (tr_from t) → lower_case (tr_to t) →
  (∃ x, x ∈ transfer_contributions t ∧ co_address x = a) ↔ a ≠ zero_text ∧ (tr_from t = a ∨ tr_to t = a).
Proof.
  intros H1 H2. unfold transfer_contributions. rewrite H1, H2. setoid_rewrite elem_of_app. split.
  - intros (x & [Hx|Hx] & <-); case_decide; try (by apply not_elem_of_nil in Hx); apply list_elem_of_singleton in Hx as ->; cbn; naive_solver.
  - intros [Hz Ha]. destruct (decide (tr_from t = a)) as [Hfa|Hfa].
    + eexists. split; [left; rewrite decide_False by congruence; by apply list_elem_of_singleton|]. done.
    + destruct Ha as [?|Ha]; [done|]. eexists. split; [right; rewrite decide_False by naive_solver; by apply list_elem_of_singleton|]. done.
Qed.

Lemma internal_named a t : lower_case (From t) → (∀ c, To t = Some c → lower_case c) →
  (∃ x, x ∈ internal_contributions t ∧ co_address x = a) ↔ From t = a ∨ To t = Some a.
Proof.
  intros H1 H2. unfold internal_contributions. setoid_rewrite elem_of_cons. rewrite H1. destruct (To t) as [c|].
  - rewrite (H2 c eq_refl). split.
    + intros (x & [->|Hx] & <-); cbn; [by left|]. case_decide; [by apply not_elem_of_nil in Hx|]. apply list_elem_of_singleton in Hx as ->. by right.
    + destruct (decide (From t = a)) as [Hfa|Hfa]; [intros _; eexists; split; [by left|done]|]. intros [?|[= ->]]; [done|].
      eexists. split; [right; rewrite decide_False by congruence; by apply list_elem_of_singleton|]. done.
  - setoid_rewrite elem_of_nil. split; [|naive_solver]. intros (x & [->|[]] & <-). by left.
Qed.

Section RevertStats.
Context `{Keccak} (n : Z) (s : tables).
Hypothesis Hs : rows_ok s.

Lemma revert_contributions : stored_contributions (DeleteBlock n s) ≡ₚ filter (λ x, co_block x ≠ n) (stored_contributions s).
Proof.
  unfold stored_contributions. cbn [DeleteBlock s_txs s_transfers s_internal s_contracts].
  rewrite !values_without. rewrite <-(filter_fmap_ext fst (λ t, tx_block t ≠ n) (λ t, (tx_block ∘ fst) t ≠ n)) by done.
  apply reflexive_eq, (@contributions_filter (λ z, z ≠ n) (λ z, not_dec (decide_rel (=) z n))).
Qed.

Lemma contributions_split : stored_contributions s ≡ₚ block_contributions n s ++ filter (λ x, co_block x ≠ n) (stored_contributions s).
Proof.
  unfold block_contributions. induction (stored_contributions s) as [|x l IH]; [done|]. rewrite !filter_cons.
  destruct (decide (co_block x = n)), (decide (co_block x ≠ n)); try done.
  - by rewrite IH at 1.
  - rewrite IH at 1. apply Permutation_middle.
Qed.

Local Notation mine := (block_contributions n s).
Local Notation rest := (filter (λ x, co_block x ≠ n) (stored_contributions s)).

Lemma rest_nonneg (f : contribution → Z) a : f = co_sent ∨ f = co_internal ∨ f = co_transfers → 0 ≤ total f a rest.
Proof.
  intros Hf. apply total_nonneg. intros x [_ Hx]%list_elem_of_filter. apply contributions_nonneg in Hx.
  destruct Hf as [->|[->| ->]]; apply Hx.
Qed.

Lemma revert_disjoint a : txs_seen a mine ## txs_seen a rest.
Proof.
  intros h (x & [Hbx Hx]%list_elem_of_filter & _ & Hh)%elem_of_txs_seen (y & [Hby Hy]%list_elem_of_filter & _ & Hh')%elem_of_txs_seen.
  destruct (ro_hash s Hs x h Hx Hh) as (t & c & E & Ht). destruct (ro_hash s Hs y h Hy Hh') as (t' & c' & E' & Ht'). congruence.
Qed.

(** The thirteen subqueries find the blocks of the other contributions. *)
Lemma seen_elsewhere_spec a b : b ∈ seen_elsewhere a n s ↔ ∃ x, x ∈ of_address a rest ∧ co_block x = b.
Proof.
  transitivity (b ≠ n ∧ ∃ x, x ∈ stored_contributions s ∧ co_address x = a ∧ co_block x = b).
  2: { unfold of_address. setoid_rewrite list_elem_of_filter. setoid_rewrite list_elem_of_filter. naive_solver. }
  unfold seen_elsewhere. rewrite list_elem_of_filter. apply and_iff_compat_l. unfold stored_contributions, contributions.
  setoid_rewrite elem_of_app. setoid_rewrite elem_of_app. setoid_rewrite elem_of_app.
  rewrite !ex_or_named.
  rewrite (rows_block tx_contributions tx_block tx_contributions_block a b (λ t, tx_from t = a ∨ tx_to t = Some a)).
  2: { intros t ((t' & c) & -> & (k & E)%elem_of_values)%list_elem_of_fmap. destruct (ro_txs s Hs _ _ _ E) as (_ & ? & ?). by apply tx_named. }
  rewrite (rows_block transfer_contributions tr_block transfer_contributions_block a b (λ t, a ≠ zero_text ∧ (tr_from t = a ∨ tr_to t = a))).
  2: { intros t (k & E)%elem_of_values. destruct (ro_transfers s Hs _ _ E) as (_ & _ & ? & ? & _). by apply transfer_named. }
  rewrite (rows_block internal_contributions BlockNumber internal_contributions_block a b (λ t, From t = a ∨ To t = Some a)).
  2: { intros t (k & E)%elem_of_values. destruct (ro_internal s Hs _ _ E) as (? & ?). by apply internal_named. }
  rewrite (rows_block contract_contributions cr_block contract_contributions_block a b (λ r, ToLower (cr_address r) = a)).
  2: { intros t _. unfold contract_contributions. set_solver. }
  rewrite !elem_of_app, !list_elem_of_fmap. repeat setoid_rewrite list_elem_of_filter. naive_solver.
Qed.

Lemma rest_nil a : seen_elsewhere a n s = [] ↔ of_address a rest = [].
Proof.
  split; intros E; apply elem_of_nil_inv.
  - intros x Hx. apply (not_elem_of_nil (co_block x)). rewrite <-E. apply seen_elsewhere_spec. eauto.
  - intros b Hb%seen_elsewhere_spec. destruct Hb as (x & Hx & _). rewrite E in Hx. by apply not_elem_of_nil in Hx.
Qed.

Lemma of_mine a x : x ∈ of_address a mine → co_block x = n.
Proof. unfold of_address, block_contributions. rewrite !list_elem_of_filter. tauto. Qed.

Lemma revert_exact a r : exact_row (mine ++ rest) a r →
  match revert_address n s a r with Some r' => exact_row rest a r' | None => of_address a rest = [] end.
Proof.
  intros He. unfold revert_address. destruct (decide (of_address a mine = [])) as [Hm|Hm]; [by eapply exact_row_app_nil|].
  destruct (of_address a mine) as [|y l] eqn:Ey; [done|]. assert (co_block y = n) as Hy by (apply (of_mine a); rewrite Ey; left).
  destruct He as [_ X2 X3 X4 X5 [X6 (z & Hz & Ez)] [X7 _]].
  rewrite of_address_app in X6, X7, Hz. rewrite txs_seen_app, size_union in X2 by apply revert_disjoint. rewrite total_app in X3, X4, X5.
  assert (y ∈ of_address a mine ++ of_address a rest) as Hyin by (rewrite Ey; set_solver).
  pose proof (X6 y Hyin) as Hf. pose proof (X7 y Hyin) as Hl.
  pose proof (rest_nonneg co_sent a ltac:(tauto)). pose proof (rest_nonneg co_internal a ltac:(tauto)). pose proof (rest_nonneg co_transfers a ltac:(tauto)).
  destruct (decide (seen_elsewhere a n s = [])) as [Hn|Hn].
  - apply rest_nil in Hn. rewrite Hn, app_nil_r in Hz. rewrite (of_mine a z Hz) in Ez. destruct (Z.ltb_spec (ae_first r) n); [lia|done].
  - destruct (min_of_spec _ (ae_first r) Hn) as [Hmin Hmin']. destruct (max_of_spec _ (ae_last r) Hn) as [Hmax Hmax'].
    split; cbn [ae_txs ae_internal ae_transfers ae_sent ae_first ae_last]; try lia.
    + intros E%rest_nil. done.
    + destruct (Z.leb_spec n (ae_first r)).
      * split; [intros x Hx; apply Hmin', seen_elsewhere_spec; eauto|by apply seen_elsewhere_spec].
      * split; [intros x Hx; apply X6; set_solver|]. exists z. split; [|done].
        apply elem_of_app in Hz as [Hz|Hz]; [|done]. apply of_mine in Hz. lia.
    + destruct (Z.leb_spec n (ae_last r)); [|lia].
      split; [intros x Hx; apply Hmax', seen_elsewhere_spec; eauto|by apply seen_elsewhere_spec].
Qed.

Lemma revert_stats : stats_exact s → stats_exact (DeleteBlock n s).
Proof.
  intros He a. specialize (He a). cbn [DeleteBlock s_stats]. unfold revertAddressStats. rewrite map_lookup_imap.
  destruct (s_stats s !! a) as [r|]; cbn [mbind option_bind].
  - apply (exact_row_perm _ _ _ _ contributions_split) in He. apply revert_exact in He.
    destruct (revert_address n s a r); [eapply exact_row_perm; [symmetry; apply revert_contributions|done]|].
    apply Permutation_nil_r. rewrite <-He. unfold of_address. by rewrite revert_contributions.
  - assert (of_address a rest = []) as Hr.
    { apply elem_of_nil_inv. intros x. unfold of_address. rewrite !list_elem_of_filter. intros (Ha & _ & Hx).
      apply (not_elem_of_nil x). rewrite <-He. by apply list_elem_of_filter. }
    apply Permutation_nil_r. rewrite <-Hr. unfold of_address. by rewrite revert_contributions.
Qed.

Lemma lookup_without {K A} `{Countable K} (block_of : A → Z) (m : gmap K A) k x :
  without_block block_of n m !! k = Some x ↔ m !! k = Some x ∧ block_of x ≠ n.
Proof. unfold without_block. by rewrite map_lookup_filter_Some. Qed.

Lemma revert_rows_ok : rows_ok (DeleteBlock n s).
Proof.
  split.
  - intros k t. cbn [DeleteBlock s_transfers s_blocks]. rewrite lookup_without. intros [E Hb].
    destruct (ro_transfers s Hs k t E) as (? & ? & ?). split; [done|]. split; [by rewrite lookup_delete_ne|done].
  - intros h t c. cbn [DeleteBlock s_txs]. rewrite lookup_without. intros [E _]. by eapply ro_txs.
  - intros k it. cbn [DeleteBlock s_internal]. rewrite lookup_without. intros [E _]. by eapply ro_internal.
  - intros x h. rewrite revert_contributions, list_elem_of_filter. intros [Hb Hx] Hh.
    destruct (ro_hash s Hs x h Hx Hh) as (t & c & E & Ht). exists t, c. split; [|done]. cbn [DeleteBlock s_txs].
    apply lookup_without. split; [done|]. cbn. congruence.
Qed.
End RevertStats.

(** ** Every history *)

(** The block a chain serves: not yet stored, or the one stored. *)
Record chain_data (s : tables) (d : BlockData) : Prop := {
  cd_ok : data_ok d;
  cd_stats : bd_skip_stats d = false;
  cd_number : ∀ b, bd_block d = Some b → 0 ≤ br_number b;
  cd_fresh : ∀ b, bd_block d = Some b → s_blocks s !! br_number b = None → fresh s d }.

Definition exact_tables (s : tables) : Prop := rows_ok s ∧ stats_exact s.

Lemma no_tables_exact : exact_tables no_tables.
Proof.
  split; [split|].
  - intros k t. cbn. by rewrite lookup_empty.
  - intros h t c. cbn. by rewrite lookup_empty.
  - intros k it. cbn. by rewrite lookup_empty.
  - intros x h Hx. by apply not_elem_of_nil in Hx.
  - intros a. cbn. by rewrite lookup_empty.
Qed.

Lemma step_exact `{Keccak} s s' : exact_tables s → table_step chain_data s s' → exact_tables s'.
Proof.
  intros [Hr He] Hst. destruct Hst as [d s s' [Hd Hskip Hnum Hfr] E|b s s' E|n s].
  - apply InsertBlockDataBatch_cases in E as [->|(g & Hg & ->)]; [done|]. destruct (ok_block d Hd) as (b & Eb & _).
    pose proof (pc_blocks _ _ _ Hg) as Hb. rewrite Eb in Hb. specialize (Hfr b Eb (proj1 Hb)).
    split; [by apply (write_rows_ok d s)|by apply (write_stats d s g b); auto].
  - apply InsertBlock_cases in E as [->|[E ->]]; [done|]. split; [|done]. destruct Hr as [H1 H2 H3 H4]. split; try done.
    intros k t Ht. destruct (H1 k t Ht) as (? & ? & ?). split; [done|]. split; [|done]. cbn [block_only s_blocks].
    destruct (decide (br_number b = tr_block t)) as [->|]; [rewrite lookup_insert_eq; eauto|by rewrite lookup_insert_ne].
  - split; [by apply revert_rows_ok|by apply revert_stats].
Qed.

(** ** Theorem *)

(** C1: the statistics of every address are a recount of the stored rows, after any
    history of blocks of one chain written with statistics on, replayed, and reverted, in
    any order: an address has a row exactly when a stored transaction, transfer, internal
    call or created contract mentions it; its counters are the distinct transactions, sent
    transactions, internal calls and transfers of those rows, and its first and last blocks
    are the lowest and highest of them. A revert that takes the last mention of an address
    removes its row, and one that takes its first or last block finds the next among the
    remaining rows. Of a block that is written ([chain_data]): its data are those of
    buildBlock for that block, SkipAddressStats is off, and none of its transactions and
    call frames is stored already, as they are when a block of another fork shares a
    transaction (that write counts the transaction twice, see shared_tx_overcounts); a
    contract may be created again, if a row of the block besides its creation names it. *)
Theorem address_stats_exact `{Keccak} s : rtc (table_step chain_data) no_tables s → stats_exact s.
Proof. intros Hr. apply (rtc_invariant (table_step chain_data) exact_tables no_tables s); [intros ??; apply step_exact|apply no_tables_exact|done]. Qed.

Section Witness.
Local Instance toy : Keccak := toy_keccak.

Lemma sample_chain_data : chain_data no_tables sample_data.
Proof.
  split.
  - apply buildBlock_data_ok; [apply (bool_decide_eq_true_1 _); vm_compute; reflexivity|]. intros m hs l [= <-]. by constructor.
  - vm_compute. reflexivity.
  - intros b Hb. vm_compute in Hb. injection Hb as <-. cbn. lia.
  - intros b _ _. assert (Forall (λ r, s_contracts no_tables !! ToLower (cr_address r) = None) (bd_contracts sample_data)) as Hc
      by (apply (bool_decide_eq_true_1 _); vm_compute; reflexivity).
    split; [split; apply (bool_decide_eq_true_1 _); vm_compute; reflexivity..|]. eapply Forall_impl; [exact Hc|]. by left.
Qed.

(** Account 2 sent one transaction and took part in two; a revert forgets it. *)
Lemma address_stats_exact_witness :
  stats_exact stored_sample ∧ stats_exact (DeleteBlock 7 stored_sample) ∧
  s_stats stored_sample !! ToLower (Address_Hex (sample_addr 2)) = Some (mkAddressRec 2 0 2 1 7 7 false) ∧
  s_stats (DeleteBlock 7 stored_sample) !! ToLower (Address_Hex (sample_addr 2)) = None.
Proof.
  assert (rtc (table_step chain_data) no_tables stored_sample) as Hr.
  { apply rtc_once, (step_write _ sample_data); [apply sample_chain_data|apply stored_sample_written]. }
  split_and!; [by apply address_stats_exact| |vm_compute; reflexivity|vm_compute; reflexivity].
  apply address_stats_exact. eapply rtc_r; [exact Hr|]. constructor.
Defined.

(** The two transactions again in a block of another fork, while the first is stored: the
    rows stay those of the first block, the counters are added to. *)
Definition other_fork : BlockData :=
  built_data (buildBlock live_config quiet_node (mkCaches ∅ ∅)
    (mkRawBlock (Some 8) (sample_hash 80) (sample_hash 69) 1000 0 0 None (sample_addr 5) None None 0 [] [] (sample_hash 0) (sample_hash 0) (sample_hash 0) (rb_txs sample_block)) ∅).
Example shared_tx_overcounts : let s := after (InsertBlockDataBatch other_fork stored_sample) in let a := ToLower (Address_Hex (sample_addr 1)) in
  succeeds (InsertBlockDataBatch other_fork stored_sample) = true ∧
  size (s_txs s) = 2%nat ∧ size (txs_seen a (stored_contributions s)) = 1%nat ∧ ae_txs <$> s_stats s !! a = Some 2.
Proof. split_and!; vm_compute; reflexivity. Qed.
End Witness.
