(* ===== verification/Tally.v ===== *)
(** * Counting block by block

    Totals that blocks add to, one after another, in batches, in any order: an
    operation that is associative and commutative ([Semi]), with a zero ([Tally]).
    A total that has none, such as the first and last block of an address, becomes
    one in a map. *)

From S2P Require Import Prelude.

Class Semi (A : Type) := mkSemi {
  splus : A → A → A;
  splus_assoc x y z : splus x (splus y z) = splus (splus x y) z;
  splus_comm x y : splus x y = splus y x }.
Infix "⊕" := splus (at level 50, left associativity) : go_scope.

Class Tally (A : Type) `{Semi A} := mkTally {
  tzero : A;
  tzero_l x : tzero ⊕ x = x }.

Section Laws.
Context `{Tally A}.
Lemma tzero_r x : x ⊕ tzero = x.
Proof. by rewrite splus_comm, tzero_l. Qed.
Lemma splus_swap x y z : x ⊕ (y ⊕ z) = y ⊕ (x ⊕ z).
Proof. by rewrite !splus_assoc, (splus_comm x y). Qed.

Definition tsum (l : list A) : A := foldr splus tzero l.

Lemma tsum_app l k : tsum (l ++ k) = tsum l ⊕ tsum k.
Proof. unfold tsum. induction l as [|x l IH]; cbn; [by rewrite tzero_l|]. by rewrite IH, splus_assoc. Qed.
Lemma tsum_snoc l x : tsum (l ++ [x]) = tsum l ⊕ x.
Proof. rewrite tsum_app. cbn. by rewrite tzero_r. Qed.
Lemma tsum_singleton x : tsum [x] = x.
Proof. apply tzero_r. Qed.
#[global] Instance tsum_perm : Proper ((≡ₚ) ==> (=)) tsum.
Proof. unfold tsum. induction 1 as [|x l k _ IH|x y l|l k m _ IH1 _ IH2]; cbn; [done|by rewrite IH|apply splus_swap|by rewrite IH1]. Qed.
Lemma foldl_tsum l x : foldl splus x l = x ⊕ tsum l.
Proof. unfold tsum. revert x. induction l as [|y l IH]; intros x; cbn; [by rewrite tzero_r|]. by rewrite IH, splus_assoc. Qed.
End Laws.

(** ** Instances *)

#[export] Instance Z_semi : Semi Z := mkSemi Z Z.add Z.add_assoc Z.add_comm.
#[export] Instance Z_tally : Tally Z := mkTally Z _ 0 Z.add_0_l.

#[export] Program Instance prod_semi `{Semi A, Semi B} : Semi (A * B) := mkSemi (A * B) (λ x y, (x.1 ⊕ y.1, x.2 ⊕ y.2)) _ _.
Next Obligation. intros ???? [] [] []; cbn. by rewrite !splus_assoc. Qed.
Next Obligation. intros ???? [] []; cbn. f_equal; apply splus_comm. Qed.
#[export] Program Instance prod_tally `{Tally A, Tally B} : Tally (A * B) := mkTally (A * B) _ (tzero, tzero) _.
Next Obligation. intros ?????? []; cbn. by rewrite !tzero_l. Qed.

#[export] Program Instance gset_semi `{Countable K} : Semi (gset K) := mkSemi (gset K) (∪) _ _.
Next Obligation. intros K ?? x y z. set_solver. Qed.
Next Obligation. intros K ?? x y. set_solver. Qed.
#[export] Program Instance gset_tally `{Countable K} : Tally (gset K) := mkTally (gset K) _ ∅ _.
Next Obligation. intros K ?? x. set_solver. Qed.

(** A total that may be missing. *)
#[export] Program Instance option_semi `{Semi A} : Semi (option A) := mkSemi (option A) (union_with (λ x y, Some (x ⊕ y))) _ _.
Next Obligation. intros A ? [x|] [y|] [z|]; cbn; try done. by rewrite splus_assoc. Qed.
Next Obligation. intros A ? [x|] [y|]; cbn; try done. by rewrite splus_comm. Qed.
#[export] Program Instance option_tally `{Semi A} : Tally (option A) := mkTally (option A) _ None _.
Next Obligation. by intros A ? [x|]. Qed.

Definition map_plus `{Countable K, Semi A} (m1 m2 : gmap K A) : gmap K A := union_with (λ x y, Some (x ⊕ y)) m1 m2.
Lemma lookup_map_plus `{Countable K, Semi A} (m1 m2 : gmap K A) k :
  map_plus m1 m2 !! k = match m1 !! k, m2 !! k with Some x, Some y => Some (x ⊕ y) | Some x, None => Some x | None, o => o end.
Proof. unfold map_plus. rewrite lookup_union_with. by destruct (m1 !! k), (m2 !! k). Qed.
#[export] Program Instance gmap_semi `{Countable K, Semi A} : Semi (gmap K A) := mkSemi (gmap K A) map_plus _ _.
Next Obligation.
  intros K ?? A ? x y z. apply map_eq. intros k. rewrite !lookup_map_plus.
  destruct (x !! k), (y !! k), (z !! k); cbn; try done. by rewrite splus_assoc.
Qed.
Next Obligation. intros K ?? A ? x y. apply map_eq. intros k. rewrite !lookup_map_plus. destruct (x !! k), (y !! k); try done. by rewrite splus_comm. Qed.
#[export] Program Instance gmap_tally `{Countable K, Semi A} : Tally (gmap K A) := mkTally (gmap K A) _ ∅ _.
Next Obligation. intros K ?? A ? x. apply map_eq. intros k. cbn. rewrite lookup_map_plus, lookup_empty. by destruct (x !! k). Qed.

Section Maps.
Context `{Countable K, Semi A}.
Implicit Types m : gmap K A.
Lemma lookup_plus m1 m2 k : (m1 ⊕ m2) !! k = match m1 !! k, m2 !! k with Some x, Some y => Some (x ⊕ y) | Some x, None => Some x | None, o => o end.
Proof. apply lookup_map_plus. Qed.
Lemma plus_singleton m k x : m ⊕ {[ k := x ]} = <[k := match m !! k with Some y => y ⊕ x | None => x end]> m.
Proof.
  apply map_eq. intros j. rewrite lookup_plus. destruct (decide (j = k)) as [->|Hne].
  - rewrite lookup_singleton_eq, lookup_insert_eq. by destruct (m !! k).
  - rewrite lookup_singleton_ne, lookup_insert_ne by done. by destruct (m !! j).
Qed.

Lemma plus_empty_l m : ∅ ⊕ m = m.
Proof. exact (tzero_l m). Qed.
Lemma plus_empty_r m : m ⊕ ∅ = m.
Proof. exact (tzero_r m). Qed.

(** A key's total among the maps that have it. *)
Lemma lookup_tsum (l : list (gmap K A)) k x : tsum l !! k = Some x → ∃ m, m ∈ l ∧ is_Some (m !! k).
Proof.
  induction l as [|m l IH]; [intros E; cbn in E; by rewrite lookup_empty in E|].
  change (tsum (m :: l)) with (m ⊕ tsum l). rewrite lookup_plus. intros E. destruct (m !! k) eqn:Em.
  - exists m. split; [left|by rewrite Em].
  - destruct (IH E) as (m' & ? & ?). exists m'. split; [by right|done].
Qed.
End Maps.

(** ** The total of a map *)

Definition vsum {K A} `{Countable K, Tally A} (m : gmap K A) : A := tsum (map_to_list m).*2.

Section VSum.
Context `{Countable K, Tally A}.
Implicit Types m : gmap K A.

Lemma vsum_empty : vsum (∅ : gmap K A) = tzero.
Proof. unfold vsum. by rewrite map_to_list_empty. Qed.
Lemma vsum_insert m k x : m !! k = None → vsum (<[k := x]> m) = x ⊕ vsum m.
Proof. intros Hk. unfold vsum. by rewrite map_to_list_insert. Qed.
Lemma vsum_singleton (k : K) (x : A) : vsum ({[ k := x ]} : gmap K A) = x.
Proof. unfold vsum. rewrite map_to_list_singleton. apply tzero_r. Qed.
Lemma vsum_delete m k x : m !! k = Some x → vsum m = x ⊕ vsum (delete k m).
Proof. intros Hk. rewrite <-(insert_delete_id m k x Hk) at 1. apply vsum_insert, lookup_delete_eq. Qed.

Lemma vsum_plus m1 m2 : vsum (m1 ⊕ m2) = vsum m1 ⊕ vsum m2.
Proof.
  induction m2 as [|k x m2 Hk IH] using map_ind; [by rewrite plus_empty_r, vsum_empty, tzero_r|].
  assert (m1 ⊕ <[k := x]> m2 = (m1 ⊕ m2) ⊕ {[ k := x ]}) as ->.
  { rewrite <-splus_assoc, plus_singleton, Hk. done. }
  rewrite (vsum_insert m2), splus_swap, <-IH by done. set (m := m1 ⊕ m2). rewrite plus_singleton. destruct (m !! k) as [y|] eqn:E.
  - rewrite (vsum_delete m k y E), <-(insert_delete_eq m), vsum_insert by apply lookup_delete_eq. by rewrite splus_assoc, (splus_comm x y).
  - by rewrite vsum_insert.
Qed.
Lemma vsum_tsum (l : list (gmap K A)) : vsum (tsum l) = tsum (vsum <$> l).
Proof.
  induction l as [|m l IH]; [apply vsum_empty|]. rewrite fmap_cons. change (tsum (?x :: ?k)) with (x ⊕ tsum k). by rewrite vsum_plus, IH.
Qed.
End VSum.

(** A function that adds up adds up over a list. *)
Lemma tsum_hom {A B} `{Tally A, Tally B} (h : A → B) (l : list A) : h tzero = tzero → (∀ x y, h (x ⊕ y) = h x ⊕ h y) → h (tsum l) = tsum (h <$> l).
Proof.
  intros Hz Hp. induction l as [|x l IH]; [done|]. rewrite fmap_cons. change (tsum (?x :: ?k)) with (x ⊕ tsum k). by rewrite Hp, IH.
Qed.

(** What a sum of maps has at a key. *)
Lemma lookup_tsum_sum `{Countable K, Semi A} (l : list (gmap K A)) k : tsum l !! k = tsum ((λ m, m !! k) <$> l).
Proof.
  apply (tsum_hom (λ m : gmap K A, m !! k)); [apply lookup_empty|]. intros x y. rewrite lookup_plus. by destruct (x !! k), (y !! k).
Qed.
