(* ===== verification/Ledger.v ===== *)
(** * Span totals and the recount of pruned spans from the node

    [internal/db/span_totals.go], [internal/indexer/span_counter.go],
    [internal/indexer/node_recount.go], and [settleSpan] of [internal/db/verify.go]
    with [ledger_span_settle] (migration 026).

    A closed span of blocks keeps its totals in the ledger after its rows are
    pruned. The recount reads every block of the span longest unchecked from the
    node again and settles it. [node k n] is what the node and the shared caches
    give the [k]-th read of block [n]; the clock is a counter. *)

From S2P Require Import Prelude GoStrings EthCommon CallTrace SqlOrder BuildBlock BlockWrite Tally.

(** ** The totals of a span *)

Record AddressTotals := mkAddrTotals { at_txs : Z; at_sent : Z; at_internal : Z; at_transfers : Z; at_first : Z; at_last : Z }.
(** Transfers and supply. *)
Notation TokenTotals := (Z * Z)%type (only parsing).
Record SpanTotals := mkSpan {
  st_blocks : Z; st_txs : Z; st_transfers : Z; st_tokens : gmap gostring TokenTotals; st_addresses : gmap gostring AddressTotals }.
Definition NewSpanTotals : SpanTotals := mkSpan 0 0 0 ∅ ∅.

#[export] Instance AddressTotals_eq_dec : EqDecision AddressTotals.
Proof. solve_decision. Defined.
#[export] Instance SpanTotals_eq_dec : EqDecision SpanTotals.
Proof. solve_decision. Defined.

Inductive totals_err := InvalidValue (tx : gostring) (logIndex : Z).

Fixpoint add_transfers (trs : list transfer_row) (m : gmap gostring TokenTotals) : res totals_err (gmap gostring TokenTotals) :=
  match trs with
  | [] => Ok m
  | t :: trs =>
      let token := ToLower (tr_token t) in
      let '(n, supply) := default (0, 0) (m !! token) in
      if decide (tr_type t = TokenTypeERC20) then
        match SetString 10 (tr_value t) with
        | None => Err (InvalidValue (tr_tx t) (tr_index t))
        | Some v => add_transfers trs (<[token := (n + 1, supply + supply_of (ToLower (tr_from t)) (ToLower (tr_to t)) v)]> m)
        end
      else add_transfers trs (<[token := (n + 1, supply)]> m)
  end.

Definition add_address (d : AddressStatsDelta) (a : option AddressTotals) : AddressTotals :=
  let a := default (mkAddrTotals 0 0 0 0 (ad_block d) (ad_block d)) a in
  mkAddrTotals (at_txs a + ad_txs d) (at_sent a + ad_sent d) (at_internal a + ad_internal d) (at_transfers a + ad_transfers d)
    (Z.min (at_first a) (ad_block d)) (Z.max (at_last a) (ad_block d)).
(** The addresses of a map, in whatever order Go visits them. *)
Definition add_addresses (ds : gmap gostring AddressStatsDelta) (m : gmap gostring AddressTotals) : gmap gostring AddressTotals :=
  merge (λ a d, match d with Some d => Some (add_address d a) | None => a end) m ds.

Definition AddBlock (b : BlockData) (s : SpanTotals) : res totals_err SpanTotals :=
  try tokens := add_transfers (bd_transfers b) (st_tokens s) in
  Ok (mkSpan (st_blocks s + match bd_block b with Some _ => 1 | None => 0 end) (st_txs s + zlen (bd_txs b))
        (st_transfers s + zlen (bd_transfers b)) tokens (add_addresses (bd_stats b) (st_addresses s))).

(** ** Counting a span from the node *)

Inductive read_err := BlockFailed | ReceiptsFailed | TracesFailed (e : trace_err) | CodeErrs (es : list contract_err) | BadTotals (e : totals_err).

Record node_block := mkNodeBlock {
  nb_raw : option RawBlock; nb_receipts : list gostring → option (gmap gostring Receipt); nb_answers : node_answers; nb_caches : caches }.

Definition spanBlockReads : nat := 5.

(** [newSpanCounter]: the head path's configuration, strict and for old blocks. *)
Definition counter_config (c : build_config) : build_config :=
  mkBuildConfig true true (SkipTraceRefusals c) (SkipAddressStats c) true (tracingSupported c) (SkipReceiptTxTypes c).

Section Count.
Context `{Keccak} (c : build_config).

Definition span_block (nb : node_block) : res read_err BlockData :=
  match nb_raw nb with
  | None => Err BlockFailed
  | Some raw =>
      match nb_receipts nb (receiptTxHashes c raw) with
      | None => Err ReceiptsFailed
      | Some receipts =>
          let b := buildBlock c (nb_answers nb) (nb_caches nb) raw receipts in
          match built_tracesErr b with
          | Some e => Err (TracesFailed e)
          | None => match built_codeErrs b with [] => Ok (built_data b) | es => Err (CodeErrs es) end
          end
      end
  end.

Context (node : nat → Z → node_block).

(** One block, [tries] reads at most. *)
Fixpoint read_block (tries : nat) (n : Z) (k : nat) : nat * res read_err BlockData :=
  match tries with
  | O => (k, Err BlockFailed)
  | S tries => match span_block (node k n), tries with
               | Ok d, _ => (S k, Ok d)
               | Err e, O => (S k, Err e)
               | Err _, _ => read_block tries n (S k)
               end
  end.

Fixpoint count_blocks (ns : list Z) (totals : SpanTotals) (k : nat) : nat * res read_err SpanTotals :=
  match ns with
  | [] => (k, Ok totals)
  | n :: ns => match read_block spanBlockReads n k with
               | (k, Err e) => (k, Err e)
               | (k, Ok d) => match AddBlock d totals with
                              | Err e => (k, Err (BadTotals e))
                              | Ok totals => count_blocks ns totals k
                              end
               end
  end.
Definition count (lo hi : Z) (k : nat) : nat * res read_err SpanTotals := count_blocks (seqZ lo (hi - lo)) NewSpanTotals k.
End Count.

(** ** Spans and their checks *)

Inductive check_state := Unchecked | StOk | Drift | Repaired | Quarantined.
#[export] Instance check_state_eq_dec : EqDecision check_state.
Proof. solve_decision. Defined.

Record span_row := mkSpanRow {
  sp_lo : Z; sp_hi : Z; sp_state : check_state; sp_checked : option Z; sp_repairs : Z; sp_totals : SpanTotals }.
Record ledger := mkLedger { l_spans : list span_row; l_from : Z; l_clock : Z }.

(** [ledger_span_settle]: [recount] is staged; a differing counter is a
    differing row of the totals. *)
Definition span_settle (recount : SpanTotals) (repair : bool) (now : Z) (r : span_row) : span_row :=
  let fixed := bool_decide (sp_state r = Repaired ∨ sp_state r = Quarantined) in
  if decide (sp_totals r = recount) then
    mkSpanRow (sp_lo r) (sp_hi r) (if fixed then sp_state r else StOk) (Some now) (sp_repairs r) (sp_totals r)
  else if fixed || negb repair then
    mkSpanRow (sp_lo r) (sp_hi r) (if fixed then Quarantined else Drift) (Some now) (sp_repairs r) (sp_totals r)
  else mkSpanRow (sp_lo r) (sp_hi r) Repaired (Some now) (sp_repairs r + 1) recount.

Definition on_span (lo : Z) (f : span_row → span_row) (l : ledger) : ledger :=
  mkLedger ((λ r, if decide (sp_lo r = lo) then f r else r) <$> l_spans l) (l_from l) (l_clock l + 1).
Definition find_span (lo : Z) (l : ledger) : option span_row := snd <$> list_find (λ r, sp_lo r = lo) (l_spans l).

Definition touched (now : Z) (r : span_row) : span_row :=
  mkSpanRow (sp_lo r) (sp_hi r) (sp_state r) (Some now) (sp_repairs r) (sp_totals r).
Definition DeferPrunedSpan (lo : Z) (l : ledger) : ledger := on_span lo (touched (l_clock l)) l.

(** The span checked longest ago: never first, then by [lo]. *)
Definition check_key (r : span_row) : Z * Z := (- default (-1) (sp_checked r), - sp_lo r).
Definition prunable (from : Z) (r : span_row) : Prop := sp_hi r ≤ from ∧ sp_state r ≠ Quarantined.
#[export] Instance prunable_dec from r : Decision (prunable from r).
Proof. apply _. Defined.
Definition queue (l : ledger) : list span_row := filter (prunable (l_from l)) (l_spans l).
Definition NextPrunedSpan (l : ledger) : option (Z * Z) := (λ r, (sp_lo r, sp_hi r)) <$> head (order_by check_key (queue l)).

Definition PrunedSpanFrom (lo hi : Z) (l : ledger) : Z :=
  if decide (lo ≠ 0) then lo
  else match find_span lo l with Some r => if st_blocks (sp_totals r) =? hi - lo then lo else 1 | None => 1 end.

Inductive check := NoSuchSpan | Settled (drifted : bool) (state : check_state).
Definition SettleNodeSpan (lo hi : Z) (s : SpanTotals) (repair : bool) (l : ledger) : ledger * check :=
  match find_span lo l with
  | Some r =>
      if decide (sp_hi r = hi) then
        let r' := span_settle s repair (l_clock l) r in
        (on_span lo (span_settle s repair (l_clock l)) l, Settled (negb (bool_decide (sp_totals r = s))) (sp_state r'))
      else (l, NoSuchSpan)
  | None => (l, NoSuchSpan)
  end.

(** ** The recount of the next span *)

Inductive why := Undecided | Failing.
Record spanCounter := mkCounter { failingLo : Z; failures : Z; unchecked : gmap Z why }.

Definition nodeRecountFailuresBeforeDefer : Z := 2.

Definition leftUnchecked (lo : Z) (w : why) (sc : spanCounter) : spanCounter := mkCounter (failingLo sc) (failures sc) (<[lo := w]> (unchecked sc)).
Definition checked (lo hi : Z) (sc : spanCounter) : spanCounter :=
  mkCounter (failingLo sc) (failures sc) (filter (λ kw, ¬ (lo ≤ kw.1 < hi)) (unchecked sc)).
Definition set_failures (lo n : Z) (sc : spanCounter) : spanCounter := mkCounter lo n (unchecked sc).

Definition is_undecided (e : read_err) : bool :=
  match e with CodeErrs es => existsb (λ e, match e with errContractUndecided => true | CodeFailed _ => false end) es | _ => false end.

(** The store's operations, and which of them answer. *)
Inductive store_op := OpNext | OpFrom | OpDefer | OpSettle.

Inductive recounted := NothingPruned | LeftUndecided | Checked (c : check) | RecountFailed.

Section Recount.
Context `{Keccak} (c : build_config) (node : nat → Z → node_block) (repair : bool).
(** What other sessions do to the ledger while the span is counted. *)
Context (meanwhile : ledger → ledger) (answers : store_op → bool).

Definition RecountPrunedSpan (st : nat * spanCounter * ledger) : nat * spanCounter * ledger * recounted :=
  let '(k, sc, l) := st in
  if negb (answers OpNext) then (k, sc, l, RecountFailed)
  else match NextPrunedSpan l with
  | None => (k, sc, l, NothingPruned)
  | Some (lo, hi) =>
      if negb (answers OpFrom) then (k, sc, l, RecountFailed)
      else
        let '(k, r) := count (counter_config c) node (u64 (PrunedSpanFrom lo hi l)) (u64 hi) k in
        let l := meanwhile l in
        match r with
        | Ok totals =>
            let sc := if failingLo sc =? lo then set_failures lo 0 sc else sc in
            if negb (answers OpSettle) then (k, sc, l, RecountFailed)
            else match SettleNodeSpan lo hi totals repair l with
                 | (l, NoSuchSpan) => (k, sc, l, Checked NoSuchSpan)
                 | (l, s) => (k, checked lo hi sc, l, Checked s)
                 end
        | Err e =>
            if is_undecided e then
              if negb (answers OpDefer) then (k, sc, l, RecountFailed)
              else (k, leftUnchecked lo Undecided sc, DeferPrunedSpan lo l, LeftUndecided)
            else
              let n := (if failingLo sc =? lo then failures sc else 0) + 1 in
              if n <? nodeRecountFailuresBeforeDefer then (k, set_failures lo n sc, l, RecountFailed)
              else if negb (answers OpDefer) then (k, set_failures lo 0 sc, l, RecountFailed)
              else (k, leftUnchecked lo Failing (set_failures lo 0 sc), DeferPrunedSpan lo l, RecountFailed)
        end
  end.
End Recount.

(** ** Totals add up *)

#[export] Program Instance AddressTotals_semi : Semi AddressTotals :=
  mkSemi _ (λ a b, mkAddrTotals (at_txs a + at_txs b) (at_sent a + at_sent b) (at_internal a + at_internal b) (at_transfers a + at_transfers b)
    (Z.min (at_first a) (at_first b)) (Z.max (at_last a) (at_last b))) _ _.
Next Obligation. intros [] [] []; cbn. f_equal; lia. Qed.
Next Obligation. intros [] []; cbn. f_equal; lia. Qed.
#[export] Program Instance SpanTotals_semi : Semi SpanTotals :=
  mkSemi _ (λ a b, mkSpan (st_blocks a + st_blocks b) (st_txs a + st_txs b) (st_transfers a + st_transfers b)
    (st_tokens a ⊕ st_tokens b) (st_addresses a ⊕ st_addresses b)) _ _.
Next Obligation. intros [] [] []; cbn -[splus]. f_equal; try lia; apply splus_assoc. Qed.
Next Obligation. intros [] []; cbn -[splus]. f_equal; try lia; apply splus_comm. Qed.
#[export] Program Instance SpanTotals_tally : Tally SpanTotals := mkTally _ _ NewSpanTotals _.
Next Obligation.
  intros [b t f m a]. change (mkSpan (0 + b) (0 + t) (0 + f) (∅ ⊕ m) (∅ ⊕ a) = mkSpan b t f m a). f_equal; try lia; apply plus_empty_l.
Qed.

Lemma add_transfers_plus (trs : list transfer_row) (m : gmap gostring TokenTotals) :
  add_transfers trs m = match add_transfers trs ∅ with Ok t => Ok (m ⊕ t) | Err e => Err e end.
Proof.
  assert (∀ (m : gmap gostring TokenTotals) token s, let '(n, supply) := default (0, 0) (m !! token) in
    <[token := (n + 1, supply + s)]> m = m ⊕ {[ token := (1, s) ]}) as Hstep.
  { intros m' token s. rewrite plus_singleton. destruct (m' !! token) as [[n x]|]; done. }
  revert m. induction trs as [|t trs IH]; intros m; cbn [add_transfers].
  - f_equal. symmetry. apply plus_empty_r.
  - assert (∀ s, match add_transfers trs (m ⊕ {[ ToLower (tr_token t) := (1, s) ]}) with Ok t => Ok t | Err e => Err e end =
      match add_transfers trs (∅ ⊕ {[ ToLower (tr_token t) := (1, s) ]}) with Ok t => Ok (m ⊕ t) | Err e => Err e end) as Hs.
    { intros s. rewrite IH, (IH (∅ ⊕ _)). destruct (add_transfers trs ∅); [|done]. rewrite !splus_assoc. do 2 f_equal. apply (f_equal (λ x, x ⊕ _)).
      symmetry. apply plus_empty_r. }
    assert (∀ (r : res totals_err (gmap gostring TokenTotals)), match r with Ok t => Ok t | Err e => Err e end = r) as Hid by by intros [].
    pose proof (Hstep m (ToLower (tr_token t))) as H1. pose proof (Hstep ∅ (ToLower (tr_token t))) as H2.
    destruct (default (0, 0) (m !! ToLower (tr_token t))) as [n x]. destruct (default (0, 0) (∅ !! ToLower (tr_token t))) as [n0 x0].
    case_decide.
    + destruct (SetString 10 (tr_value t)) as [v|]; [|done]. rewrite H1, H2, <-Hs. by rewrite Hid.
    + specialize (H1 0). specialize (H2 0). rewrite !Z.add_0_r in H1, H2. rewrite H1, H2, <-Hs. by rewrite Hid.
Qed.

Lemma add_addresses_plus (ds : gmap gostring AddressStatsDelta) (m : gmap gostring AddressTotals) :
  add_addresses ds m = m ⊕ add_addresses ds ∅.
Proof.
  apply map_eq. intros a. unfold add_addresses. rewrite lookup_plus, !lookup_merge, lookup_empty.
  destruct (m !! a) as [x|], (ds !! a) as [d|]; try done. cbn. unfold add_address. cbn. do 2 f_equal; lia.
Qed.

(** What one block adds; nothing, where a value of its transfers is no number. *)
Definition countable (b : BlockData) : Prop := ∃ t, add_transfers (bd_transfers b) ∅ = Ok t.
Definition totals_of (b : BlockData) : SpanTotals := match AddBlock b NewSpanTotals with Ok t => t | Err _ => NewSpanTotals end.

Lemma AddBlock_plus b s : countable b → AddBlock b s = Ok (s ⊕ totals_of b).
Proof.
  intros [t Ht]. unfold totals_of, AddBlock, NewSpanTotals. cbn [st_blocks st_txs st_transfers st_tokens st_addresses].
  rewrite (add_transfers_plus _ (st_tokens s)), Ht. cbn [res_bind]. rewrite add_addresses_plus. destruct s as [b0 t0 f0 m a]; cbn -[splus].
  change (mkSpan b0 t0 f0 m a ⊕ mkSpan ?x ?y ?z ?u ?v) with (mkSpan (b0 + x) (t0 + y) (f0 + z) (m ⊕ u) (a ⊕ v)).
  done.
Qed.
Lemma AddBlock_Ok b s s' : AddBlock b s = Ok s' → countable b ∧ s' = s ⊕ totals_of b.
Proof.
  intros E. assert (countable b) as Hc.
  { revert E. unfold AddBlock. rewrite add_transfers_plus. destruct (add_transfers (bd_transfers b) ∅) as [t|] eqn:Et; [|done]. intros _. by exists t. }
  split; [done|]. rewrite (AddBlock_plus b s Hc) in E. congruence.
Qed.
Lemma totals_blocks b : countable b → st_blocks (totals_of b) = match bd_block b with Some _ => 1 | None => 0 end.
Proof. intros [t Ht]. unfold totals_of, AddBlock. cbn [NewSpanTotals st_tokens]. rewrite Ht. done. Qed.

(** The totals depend on the counted rows only. *)
Lemma totals_of_ext b b' : (bd_block b = None ↔ bd_block b' = None) → length (bd_txs b) = length (bd_txs b') →
  bd_transfers b = bd_transfers b' → bd_stats b = bd_stats b' → totals_of b = totals_of b'.
Proof.
  intros Hb Ht Hf Hs. unfold totals_of, AddBlock, zlen. rewrite Ht, Hf, Hs. destruct (bd_block b), (bd_block b'); try done; exfalso; naive_solver.
Qed.

(** ** A count is the sum of its blocks *)

Section CountSpec.
Context `{Keccak} (c : build_config) (node : nat → Z → node_block).

Lemma read_block_Ok tries n k k' d : read_block c node tries n k = (k', Ok d) → ∃ j, (k ≤ j < k')%nat ∧ span_block c (node j n) = Ok d.
Proof.
  revert k. induction tries as [|tries IH]; intros k; cbn [read_block]; [done|].
  destruct (span_block c (node k n)) as [d'|e] eqn:E.
  - destruct tries; intros [= <- <-]; exists k; (split; [lia|done]).
  - destruct tries; [done|]. intros (j & ? & ?)%IH. exists j. split; [lia|done].
Qed.
Lemma read_block_now tries n k d : (0 < tries)%nat → span_block c (node k n) = Ok d → read_block c node tries n k = (S k, Ok d).
Proof. destruct tries as [|tries]; [lia|]. intros _ E. cbn [read_block]. rewrite E. by destruct tries. Qed.

(** A read that succeeds within its tries. *)
Lemma read_block_within tries n k j d : (j < tries)%nat → span_block c (node (k + j)%nat n) = Ok d → (∀ i, (i < j)%nat → ∃ e, span_block c (node (k + i)%nat n) = Err e) →
  read_block c node tries n k = ((k + j + 1)%nat, Ok d).
Proof.
  revert k j. induction tries as [|tries IH]; intros k j Hj E He; [lia|]. destruct j as [|j].
  - rewrite Nat.add_0_r in E. rewrite (read_block_now _ n k d) by (done || lia). f_equal. lia.
  - cbn [read_block]. destruct (He 0%nat ltac:(lia)) as [e Hk]. rewrite Nat.add_0_r in Hk. rewrite Hk. destruct tries; [lia|].
    rewrite (IH (S k) j); [f_equal; lia|lia| |].
    + by replace (S k + j)%nat with (k + S j)%nat by lia.
    + intros i Hi. destruct (He (S i) ltac:(lia)) as [e' Hi']. exists e'. by replace (S k + i)%nat with (k + S i)%nat by lia.
Qed.

Lemma count_blocks_Ok ns totals k k' t : count_blocks c node ns totals k = (k', Ok t) →
  ∃ ds, Forall2 (λ n d, countable d ∧ ∃ j, span_block c (node j n) = Ok d) ns ds ∧ t = totals ⊕ tsum (totals_of <$> ds).
Proof.
  revert totals k. induction ns as [|n ns IH]; intros totals k; cbn [count_blocks].
  - intros [= <- <-]. exists []. split; [constructor|]. exact (eq_sym (tzero_r totals)).
  - destruct (read_block c node spanBlockReads n k) as [k1 [d|]] eqn:E; [|done]. apply read_block_Ok in E as (j & _ & E).
    destruct (AddBlock d totals) as [t1|] eqn:Ea; [|done]. apply AddBlock_Ok in Ea as [Hd ->]. intros (ds & Hds & ->)%IH.
    exists (d :: ds). split; [constructor; [by eauto|done]|]. rewrite fmap_cons. change (tsum (?x :: ?l)) with (x ⊕ tsum l). by rewrite splus_assoc.
Qed.

(** On a node that answers each block, at some try. *)
Lemma count_blocks_answers ns totals k (data : Z → BlockData) : (∀ n, n ∈ ns → countable (data n)) →
  (∀ n k, n ∈ ns → ∃ j, (j < spanBlockReads)%nat ∧ span_block c (node (k + j)%nat n) = Ok (data n) ∧
     ∀ i, (i < j)%nat → ∃ e, span_block c (node (k + i)%nat n) = Err e) →
  ∃ k', count_blocks c node ns totals k = (k', Ok (totals ⊕ tsum ((λ n, totals_of (data n)) <$> ns))).
Proof.
  revert totals k. induction ns as [|n ns IH]; intros totals k Hc Hr; cbn [count_blocks].
  - exists k. do 2 f_equal. exact (eq_sym (tzero_r totals)).
  - destruct (Hr n k ltac:(left)) as (j & Hj & Ej & He). rewrite (read_block_within _ n k j (data n) Hj Ej He).
    rewrite (AddBlock_plus _ totals (Hc n ltac:(left))). destruct (IH (totals ⊕ totals_of (data n)) (k + j + 1)%nat) as [k' E].
    + intros m Hm. apply Hc. by right.
    + intros m i Hm. apply Hr. by right.
    + exists k'. rewrite E, fmap_cons. change (tsum (?x :: ?l)) with (x ⊕ tsum l). by rewrite splus_assoc.
Qed.
End CountSpec.

(** ** Settling *)

Definition settle_all (r : span_row) (checks : list (SpanTotals * bool * Z)) : span_row :=
  foldl (λ r x, span_settle x.1.1 x.1.2 x.2 r) r checks.

Lemma settle_unrepaired r checks : sp_state r ≠ Repaired → sp_state r ≠ Quarantined → Forall (λ x, x.1.2 = true → x.1.1 = sp_totals r) checks →
  let r' := settle_all r checks in
  sp_state r' ≠ Repaired ∧ sp_state r' ≠ Quarantined ∧ sp_totals r' = sp_totals r ∧ sp_repairs r' = sp_repairs r.
Proof.
  intros H1 H2 Hall. revert r H1 H2 Hall. induction checks as [|[[s rep] now] checks IH]; intros r H1 H2 Hall; [done|].
  apply Forall_cons in Hall as [Hx Hall]. cbn in Hx. cbv zeta.
  change (settle_all r ((s, rep, now) :: checks)) with (settle_all (span_settle s rep now r) checks).
  assert (bool_decide (sp_state r = Repaired ∨ sp_state r = Quarantined) = false) as Hf by (apply bool_decide_eq_false_2; tauto).
  assert (sp_state (span_settle s rep now r) ≠ Repaired ∧ sp_state (span_settle s rep now r) ≠ Quarantined ∧
    sp_totals (span_settle s rep now r) = sp_totals r ∧ sp_repairs (span_settle s rep now r) = sp_repairs r) as (S1 & S2 & S3 & S4).
  { unfold span_settle. rewrite Hf. destruct (decide (sp_totals r = s)); [done|]. destruct rep; [|done]. cbn. destruct n. symmetry. auto. }
  destruct (IH (span_settle s rep now r) S1 S2) as (? & ? & ? & ?); [by rewrite S3|]. split_and!; try done; congruence.
Qed.

Lemma settle_repaired r checks : sp_state r = Repaired ∨ sp_state r = Quarantined →
  let r' := settle_all r checks in
  sp_totals r' = sp_totals r ∧ sp_repairs r' = sp_repairs r ∧
  sp_state r' = if decide (sp_state r = Quarantined ∨ Exists (λ x, x.1.1 ≠ sp_totals r) checks) then Quarantined else Repaired.
Proof.
  revert r. induction checks as [|[[s rep] now] checks IH]; intros r Hr; cbv zeta.
  - split_and!; try done. case_decide as E; [destruct E as [?|E%Exists_nil]; done|]. destruct Hr; [done|tauto].
  - change (settle_all r ((s, rep, now) :: checks)) with (settle_all (span_settle s rep now r) checks).
    assert (bool_decide (sp_state r = Repaired ∨ sp_state r = Quarantined) = true) as Hf by (by apply bool_decide_eq_true_2).
    assert (sp_totals (span_settle s rep now r) = sp_totals r ∧ sp_repairs (span_settle s rep now r) = sp_repairs r ∧
      sp_state (span_settle s rep now r) = if decide (sp_totals r = s) then sp_state r else Quarantined) as (S1 & S2 & S3).
    { unfold span_settle. rewrite Hf. by destruct (decide (sp_totals r = s)). }
    destruct (IH (span_settle s rep now r)) as (T1 & T2 & T3); [rewrite S3; case_decide; tauto|]. split_and!; [congruence|congruence|].
    cbn in T3 |- *. rewrite T3, S1, S3. clear IH T1 T2 T3. destruct (decide (sp_totals r = s)) as [E|E].
    + apply decide_ext. rewrite Exists_cons. cbn. naive_solver.
    + rewrite !decide_True; [done| |by left]. rewrite Exists_cons. cbn. naive_solver.
Qed.

(** a closed span is corrected once. Over any recounts, whatever they answer, the
    first that differs from the stored totals with repair on replaces them; no later
    one does: one that differs from the repaired totals quarantines the span, which
    keeps them, and without one the span stays repaired. *)
Theorem settle_repairs_once r before s now after : sp_state r ≠ Repaired → sp_state r ≠ Quarantined →
  Forall (λ x, x.1.2 = true → x.1.1 = sp_totals r) before → s ≠ sp_totals r →
  let r' := settle_all r (before ++ (s, true, now) :: after) in
  sp_totals r' = s ∧ sp_repairs r' = sp_repairs r + 1 ∧
  sp_state r' = if decide (Exists (λ x, x.1.1 ≠ s) after) then Quarantined else Repaired.
Proof.
  intros H1 H2 Hb Hs. unfold settle_all. rewrite foldl_app. cbn [foldl fst snd]. fold (settle_all r before).
  destruct (settle_unrepaired r before H1 H2 Hb) as (S1 & S2 & S3 & S4). set (r1 := settle_all r before) in *.
  assert (span_settle s true now r1 = mkSpanRow (sp_lo r1) (sp_hi r1) Repaired (Some now) (sp_repairs r1 + 1) s) as ->.
  { unfold span_settle. rewrite decide_False by congruence. rewrite bool_decide_eq_false_2 by tauto. done. }
  destruct (settle_repaired (mkSpanRow (sp_lo r1) (sp_hi r1) Repaired (Some now) (sp_repairs r1 + 1) s) after) as (T1 & T2 & T3); [by left|].
  unfold settle_all in *. rewrite T1, T2, T3. cbn. split_and!; [done|lia|]. apply decide_ext. naive_solver.
Qed.

Lemma settle_repairs_once_witness :
  let r := mkSpanRow 0 10 StOk None 0 (mkSpan 10 4 0 ∅ ∅) in
  sp_state (settle_all r ([(mkSpan 10 4 0 ∅ ∅, true, 1)] ++ (mkSpan 10 5 0 ∅ ∅, true, 2) :: [(mkSpan 10 6 0 ∅ ∅, true, 3)])) = Quarantined.
Proof.
  destruct (settle_repairs_once (mkSpanRow 0 10 StOk None 0 (mkSpan 10 4 0 ∅ ∅)) [(mkSpan 10 4 0 ∅ ∅, true, 1)] (mkSpan 10 5 0 ∅ ∅) 2
    [(mkSpan 10 6 0 ∅ ∅, true, 3)]) as (_ & _ & H); [done|done|by repeat constructor|done|]. cbn zeta. rewrite H. done.
Defined.

(** ** Every pruned span has its turn *)

Section Turns.
Context `{Keccak} (c : build_config) (node : nat → Z → node_block) (repair : bool).
Local Notation round := (λ st, (RecountPrunedSpan c node repair id (λ _, true) st).1).

Record well_dated (l : ledger) : Prop := {
  w_names : NoDup (sp_lo <$> l_spans l);
  w_times : ∀ r t, r ∈ l_spans l → sp_checked r = Some t → 0 ≤ t < l_clock l;
  w_clock : 0 ≤ l_clock l }.

Lemma same_span l r r' : well_dated l → r ∈ l_spans l → r' ∈ l_spans l → sp_lo r = sp_lo r' → r = r'.
Proof.
  intros W [i Hi]%list_elem_of_lookup [j Hj]%list_elem_of_lookup E. assert (i = j) as ->; [|congruence].
  eapply (NoDup_lookup _ i j (sp_lo r) (w_names _ W)); rewrite list_lookup_fmap; [by rewrite Hi|by rewrite Hj, E].
Qed.
Lemma find_span_is l r : well_dated l → r ∈ l_spans l → find_span (sp_lo r) l = Some r.
Proof.
  intros W Hr. unfold find_span. destruct (list_find _ _) as [[i r']|] eqn:E.
  - apply list_find_Some in E as (E & Hlo & _). cbn. f_equal. apply (same_span l); try done. by eapply list_elem_of_lookup_2.
  - apply list_find_None in E. rewrite Forall_forall in E. by destruct (E r Hr).
Qed.

Lemma elem_of_queue l r : r ∈ queue l ↔ prunable (l_from l) r ∧ r ∈ l_spans l.
Proof. apply list_elem_of_filter. Qed.

Lemma next_head l h : head (order_by check_key (queue l)) = Some h → h ∈ queue l ∧ ∀ r, r ∈ queue l → ¬ row_lt (check_key h) (check_key r).
Proof.
  intros Eh. destruct (order_by check_key (queue l)) as [|h' rest] eqn:E; [done|]. injection Eh as ->.
  pose proof (order_by_sorted check_key (queue l)) as Hs. rewrite E in Hs. apply StronglySorted_inv in Hs as [_ Hall]. split.
  - rewrite <-(elem_of_order_by check_key), E. left.
  - intros r. rewrite <-(elem_of_order_by check_key), E. intros [->|Hr]%elem_of_cons.
    + intros [?|[? ?]]; lia.
    + rewrite Forall_forall in Hall. apply (Hall r Hr).
Qed.

(** The spans before [x] in the queue. *)
Definition ahead (x : span_row) (l : ledger) : list span_row := filter (λ r, row_lt (check_key x) (check_key r)) (queue l).

Lemma head_ahead l h x : well_dated l → head (order_by check_key (queue l)) = Some h → x ∈ queue l → h ≠ x → h ∈ ahead x l.
Proof.
  intros W [Hh Hmin]%next_head Hx Hne. apply list_elem_of_filter. split; [|done]. specialize (Hmin x Hx).
  destruct (row_lt_trichotomy (check_key h) (check_key x)) as [?|[E|?]]; [done| |done]. exfalso. apply Hne.
  apply elem_of_queue in Hh as [_ Hh]. apply elem_of_queue in Hx as [_ Hx]. apply (same_span l); try done. unfold check_key in E. injection E. lia.
Qed.

Lemma length_filter_lose {A} (P : A → Prop) `{!∀ x, Decision (P x)} (g : A → A) (L : list A) :
  (∀ r, r ∈ L → P (g r) → P r) → (length (filter P (g <$> L)) ≤ length (filter P L))%nat.
Proof.
  induction L as [|r L IH]; intros Hm; [done|]. rewrite fmap_cons, !filter_cons. specialize (IH (λ r Hr, Hm r (list_elem_of_further _ _ _ Hr))).
  destruct (decide (P (g r))) as [Hg|]; [rewrite decide_True by (apply Hm; [left|done]); cbn; lia|]. destruct (decide (P r)); cbn; lia.
Qed.
Lemma length_filter_lose_one {A} (P : A → Prop) `{!∀ x, Decision (P x)} (g : A → A) (L : list A) h :
  (∀ r, r ∈ L → P (g r) → P r) → h ∈ L → P h → ¬ P (g h) → (length (filter P (g <$> L)) < length (filter P L))%nat.
Proof.
  induction L as [|r L IH]; intros Hm Hh Hp Hg; [by apply not_elem_of_nil in Hh|]. rewrite fmap_cons, !filter_cons.
  pose proof (length_filter_lose P g L (λ r Hr, Hm r (list_elem_of_further _ _ _ Hr))). apply elem_of_cons in Hh as [->|Hh].
  - rewrite decide_False, decide_True by done. cbn. lia.
  - specialize (IH (λ r Hr, Hm r (list_elem_of_further _ _ _ Hr)) Hh Hp Hg).
    destruct (decide (P (g r))) as [Hgr|]; [rewrite decide_True by (apply Hm; [left|done]); cbn; lia|]. destruct (decide (P r)); cbn; lia.
Qed.

(** The head goes to the back. *)
Record dated_now (l : ledger) (f : span_row → span_row) : Prop := {
  dn_same r : sp_lo (f r) = sp_lo r ∧ sp_hi (f r) = sp_hi r;
  dn_now r : sp_checked (f r) = Some (l_clock l) }.

Lemma back_not_ahead l x r : well_dated l → x ∈ l_spans l → sp_checked r = Some (l_clock l) → ¬ row_lt (check_key x) (check_key r).
Proof.
  intros W Hx Er Hlt. unfold check_key in Hlt. rewrite Er in Hlt. cbn in Hlt. pose proof (w_clock _ W).
  assert (default (-1) (sp_checked x) < l_clock l).
  { destruct (sp_checked x) as [t|] eqn:Et; cbn; [pose proof (w_times _ W x t Hx Et)|]; lia. }
  destruct Hlt as [?|[? ?]]; cbn in *; lia.
Qed.

Lemma to_the_back l f h x : well_dated l → dated_now l f → head (order_by check_key (queue l)) = Some h → x ∈ queue l → h ≠ x →
  let l' := on_span (sp_lo h) f l in well_dated l' ∧ x ∈ queue l' ∧ (length (ahead x l') < length (ahead x l))%nat.
Proof.
  intros W [Fs Fn] Eh Hx Hne l'. pose proof (head_ahead l h x W Eh Hx Hne) as Ha. apply next_head in Eh as [Hh _].
  pose proof Hh as Hh'. apply elem_of_queue in Hh' as [_ Hh']. pose proof Hx as Hx'. apply elem_of_queue in Hx' as [Hpx Hx'].
  assert (sp_lo x ≠ sp_lo h) as Hlo by (intros E; apply Hne; symmetry; by apply (same_span l)).
  assert (x ∈ l_spans l') as Hxl. { apply list_elem_of_fmap. exists x. by rewrite decide_False. }
  split_and!.
  - split; cbn.
    + replace (sp_lo <$> _) with (sp_lo <$> l_spans l); [apply (w_names _ W)|]. rewrite <-list_fmap_compose. apply list_fmap_ext.
      intros i r _. cbn. case_decide; [by destruct (Fs r)|done].
    + intros r t (r0 & -> & Hr0)%list_elem_of_fmap. pose proof (w_clock _ W). case_decide.
      * rewrite Fn. intros [= <-]. lia.
      * intros Et. pose proof (w_times _ W r0 t Hr0 Et). lia.
    + pose proof (w_clock _ W). lia.
  - by apply elem_of_queue.
  - unfold ahead, queue, l'. cbn [l_spans l_from on_span]. rewrite !list_filter_filter.
    apply (length_filter_lose_one (λ r, row_lt (check_key x) (check_key r) ∧ prunable (l_from l) r) _ _ h); [|done| |].
    + intros r Hr. case_decide as E; [|done]. intros [Hlt _]. by destruct (back_not_ahead l x (f r) W Hx' (Fn r)).
    + apply list_elem_of_filter in Ha as [? ?]. apply elem_of_queue in Hh as [? _]. done.
    + rewrite decide_True by done. intros [Hlt _]. by destruct (back_not_ahead l x (f h) W Hx' (Fn h)).
Qed.

Definition bonus (sc : spanCounter) (l : ledger) : Z :=
  if decide (failures sc = 1 ∧ fst <$> NextPrunedSpan l = Some (failingLo sc)) then 1 else 0.
Definition distance (x : span_row) (st : nat * spanCounter * ledger) : Z := 2 * zlen (ahead x st.2) - bonus st.1.2 st.2.

Record waits (x : span_row) (st : nat * spanCounter * ledger) : Prop := {
  wt_dated : well_dated st.2; wt_queued : x ∈ queue st.2; wt_failures : 0 ≤ failures st.1.2 ≤ 1 }.

Lemma settle_dated_now l totals : dated_now l (span_settle totals repair (l_clock l)).
Proof. split; intros r; unfold span_settle; destruct (decide (sp_totals r = totals)); try destruct (_ || _); done. Qed.
Lemma touched_dated_now l : dated_now l (touched (l_clock l)).
Proof. by split. Qed.

Lemma bonus_range sc l : 0 ≤ bonus sc l ≤ 1.
Proof. unfold bonus. case_decide; lia. Qed.

Lemma moved_on x k sc l k' sc' f h : waits x (k, sc, l) → dated_now l f → head (order_by check_key (queue l)) = Some h → h ≠ x → 0 ≤ failures sc' ≤ 1 →
  waits x (k', sc', on_span (sp_lo h) f l) ∧ distance x (k', sc', on_span (sp_lo h) f l) < distance x (k, sc, l).
Proof.
  intros [W Hq _] Hf Eh Hne Hfl. cbn in W, Hq. destruct (to_the_back l f h x W Hf Eh Hq Hne) as (W' & Hq' & Hlt).
  split; [by split|]. unfold distance. cbn [fst snd]. pose proof (bonus_range sc l). pose proof (bonus_range sc' (on_span (sp_lo h) f l)).
  unfold zlen. lia.
Qed.

Lemma round_moves x st : waits x st → NextPrunedSpan st.2 ≠ Some (sp_lo x, sp_hi x) → waits x (round st) ∧ distance x (round st) < distance x st.
Proof.
  intros Hw Hn. destruct st as [[k sc] l]. pose proof Hw as [W Hq Hfl]. cbn [fst snd] in *.
  unfold NextPrunedSpan in Hn. destruct (head (order_by check_key (queue l))) as [h|] eqn:Eh.
  2: { destruct (order_by check_key (queue l)) as [|? ?] eqn:E; [|done]. rewrite <-(elem_of_order_by check_key), E in Hq. by apply not_elem_of_nil in Hq. }
  assert (h ≠ x) as Hne by (intros ->; done). destruct (next_head l h Eh) as [Hhq _]. apply elem_of_queue in Hhq as [_ Hh].
  assert (NextPrunedSpan l = Some (sp_lo h, sp_hi h)) as En by (unfold NextPrunedSpan; by rewrite Eh).
  unfold RecountPrunedSpan. cbn [negb]. rewrite En. destruct (count _ node _ _ k) as [k1 [totals|e]].
  - cbv zeta. cbn [id negb]. unfold id, SettleNodeSpan. rewrite (find_span_is l h W Hh), decide_True by done. cbn [fst].
    eapply moved_on; [exact Hw|apply settle_dated_now|done|done|]. unfold checked, set_failures. destruct (_ =? _); cbn; lia.
  - cbv zeta. unfold id. destruct (is_undecided e); cbn [negb fst].
    { eapply moved_on; [exact Hw|apply touched_dated_now|done|done|done]. }
    destruct (Z.eqb_spec (failingLo sc) (sp_lo h)) as [Ef|Ef].
    + destruct (Z.ltb_spec (failures sc + 1) nodeRecountFailuresBeforeDefer) as [Hlt|Hge]; unfold nodeRecountFailuresBeforeDefer in *; cbn [fst].
      * split; [split; cbn; try done; lia|]. unfold distance, bonus. cbn [fst snd failures failingLo set_failures]. rewrite En. cbn.
        rewrite (decide_True (P := failures sc + 1 = 1 ∧ _)) by (split; [lia|done]). rewrite decide_False; [lia|]. intros [? _]. lia.
      * eapply moved_on; [exact Hw|apply touched_dated_now|done|done|cbn; lia].
    + change (0 + 1 <? nodeRecountFailuresBeforeDefer) with true. cbn [fst]. split; [split; cbn; try done; lia|].
      unfold distance, bonus. cbn [fst snd failures failingLo set_failures]. rewrite En. cbn.
      rewrite (decide_True (P := 0 + 1 = 1 ∧ _)) by done. rewrite decide_False; [lia|]. intros [_ [=]]. congruence.
Qed.

Lemma not_next x st : waits x st → NextPrunedSpan st.2 ≠ Some (sp_lo x, sp_hi x) → 1 ≤ distance x st.
Proof.
  intros [W Hq _] Hn. unfold NextPrunedSpan in Hn. destruct (head (order_by check_key (queue st.2))) as [h|] eqn:Eh.
  - assert (h ∈ ahead x st.2) as Ha by (apply head_ahead; try done; intros ->; done). unfold distance.
    pose proof (bonus_range st.1.2 st.2). destruct (ahead x st.2); [by apply not_elem_of_nil in Ha|]. rewrite zlen_cons.
    pose proof (zlen_nonneg l). lia.
  - destruct (order_by check_key (queue st.2)) as [|? ?] eqn:E; [|done]. rewrite <-(elem_of_order_by check_key), E in Hq. by apply not_elem_of_nil in Hq.
Qed.

Lemma has_its_turn x n st : waits x st → distance x st ≤ Z.of_nat n →
  ∃ i, (i ≤ n)%nat ∧ NextPrunedSpan (Nat.iter i round st).2 = Some (sp_lo x, sp_hi x).
Proof.
  revert st. induction n as [|n IH]; intros st Hw Hd;
    (destruct (decide (NextPrunedSpan st.2 = Some (sp_lo x, sp_hi x))) as [E|E]; [by exists 0%nat; split; [lia|]|]); pose proof (not_next x st Hw E); [lia|].
  destruct (round_moves x st Hw E) as [Hw' Hlt]. destruct (IH (round st) Hw' ltac:(lia)) as (i & Hi & Ei). exists (S i). split; [lia|].
  by rewrite Nat.iter_succ_r.
Qed.

Lemma ahead_bound x l : well_dated l → x ∈ queue l → zlen (ahead x l) < zlen (queue l).
Proof.
  intros W Hx. unfold zlen. apply Nat2Z.inj_lt. unfold ahead. apply (length_filter_lt (λ r, row_lt (check_key x) (check_key r)) _ x); [done|].
  intros [?|[? ?]]; lia.
Qed.
End Turns.

(** no pruned span waits behind another forever. Whatever the node answers (spans
    whose count fails every time, creations it cannot judge), with the store
    answering, every span in the queue is recounted within twice as many recounts as
    the queue has spans. *)
Theorem recount_reaches_all `{Keccak} c node repair k sc l x : well_dated l → 0 ≤ failures sc ≤ 1 → x ∈ queue l →
  ∃ i, Z.of_nat i < 2 * zlen (queue l) ∧
    NextPrunedSpan (Nat.iter i (λ st, (RecountPrunedSpan c node repair id (λ _, true) st).1) (k, sc, l)).2 = Some (sp_lo x, sp_hi x).
Proof.
  intros W Hf Hx. pose proof (ahead_bound x l W Hx). pose proof (zlen_nonneg (ahead x l)).
  destruct (has_its_turn c node repair x (Z.to_nat (2 * zlen (ahead x l))) (k, sc, l)) as (i & Hi & E); [by split| |].
  - unfold distance. cbn [fst snd]. pose proof (bonus_range sc l). lia.
  - exists i. split; [lia|done].
Qed.

(** Two pruned spans; the node answers nothing. *)
Lemma recount_reaches_all_witness : let H : Keccak := toy_keccak in
  let dead := mkNodeBlock None (λ _, None) (mkNode (λ _, Err errNotSupported) None false false (λ _ _, Ok []) (λ _, None) (λ _, ∅)) (mkCaches ∅ ∅) in
  let l := mkLedger [mkSpanRow 0 10 StOk None 0 NewSpanTotals; mkSpanRow 10 20 StOk (Some 3) 0 NewSpanTotals] 20 5 in
  ∃ i, Z.of_nat i < 4 ∧
    NextPrunedSpan (Nat.iter i (λ st, (RecountPrunedSpan (mkBuildConfig false false false false false false []) (λ _ _, dead) true id (λ _, true) st).1)
      (0%nat, mkCounter 0 0 ∅, l)).2 = Some (10, 20).
Proof.
  intros H dead l. apply (recount_reaches_all (mkBuildConfig false false false false false false []) (λ _ _, dead) true 0%nat (mkCounter 0 0 ∅) l
    (mkSpanRow 10 20 StOk (Some 3) 0 NewSpanTotals)).
  - split; [apply (bool_decide_eq_true_1 _); vm_compute; reflexivity| |done].
    intros r t [->|[->|[]%not_elem_of_nil]%elem_of_cons]%elem_of_cons [= <-]. cbn. lia.
  - done.
  - apply elem_of_queue. split; [by split|]. right. left.
Defined.
