(* ===== verification/StatsBackfill.v ===== *)
(** * The stats backfill: counting the blocks below START_BLOCK

    [internal/indexer/stats_backfill.go] and [internal/db/backfill.go].

    A deployment that starts at START_BLOCK walks the blocks below it on the node, in
    batches, and writes counters, state and ledger spans, never their rows. The
    process keeps what it fetched and built of a failed batch in memory, the
    database its progress: a step reads the progress, builds the next batch and
    commits it in one transaction. A day is its number since 1970, which its date
    text names. *)

From S2P Require Import Prelude GoStrings EthCommon CallTrace BalanceWorker BuildBlock BlockWrite Tally Ledger.

(** ** A batch *)

Record DayParts := mkDay {
  dp_first : Z; dp_blocks : Z; dp_sizeN : Z; dp_timeN : Z; dp_gasUsed : Z; dp_size : Z; dp_time : Z; dp_gasPrice : Z;
  dp_txs : Z; dp_successful : Z; dp_failed : Z; dp_transfers : Z }.
Definition NewDayParts (first : Z) : DayParts := mkDay first 0 0 0 0 0 0 0 0 0 0 0.
(** Parts add up; the first block is the lower one. *)
#[export] Program Instance DayParts_semi : Semi DayParts :=
  mkSemi _ (λ a b, mkDay (Z.min (dp_first a) (dp_first b)) (dp_blocks a + dp_blocks b) (dp_sizeN a + dp_sizeN b) (dp_timeN a + dp_timeN b)
    (dp_gasUsed a + dp_gasUsed b) (dp_size a + dp_size b) (dp_time a + dp_time b) (dp_gasPrice a + dp_gasPrice b) (dp_txs a + dp_txs b)
    (dp_successful a + dp_successful b) (dp_failed a + dp_failed b) (dp_transfers a + dp_transfers b)) _ _.
Next Obligation. intros [] [] []; cbn. f_equal; lia. Qed.
Next Obligation. intros [] []; cbn. f_equal; lia. Qed.

(** [Shared], [Contracts], [TokenFirstSeen] and [BalanceKeys] of a batch. *)
Record shared := mkShared {
  sh_tokens : list token_row; sh_nfts : list nft_row; sh_stats : gmap gostring AddressStatsDelta; sh_contracts : list contract_row;
  sh_firstSeen : gmap gostring (Z * gostring); sh_keys : list (gostring * gostring * Z) }.
Record BackfillBatch := mkBatch {
  bb_from : Z; bb_to : Z; bb_spans : gmap Z SpanTotals; bb_spanHi : gmap Z Z; bb_shared : shared;
  bb_days : gmap Z DayParts; bb_active : gmap Z (gset gostring); bb_lastTs : Z }.
Definition empty_batch (from to : Z) : BackfillBatch := mkBatch from to ∅ ∅ (mkShared [] [] ∅ [] ∅ []) ∅ ∅ 0.

Definition block_no (d : BlockData) : Z := match bd_block d with Some b => br_number b | None => 0 end.
Definition block_ts (d : BlockData) : Z := match bd_block d with Some b => br_timestamp b | None => 0 end.
Definition blockDay (ts : Z) : Z := i64 ts / 86400.

(** The three parts of [addDay]: the block, with its time since the one before, a
    transaction, the transfers. *)
Definition count_block (r : block_row) (prevTs : option Z) (p : DayParts) : DayParts :=
  let pair := match prevTs with Some prev => if 0 <? br_number r then Some (i64 (i64 (br_timestamp r) - prev)) else None | None => None end in
  mkDay (Z.min (dp_first p) (br_number r)) (dp_blocks p + 1) (dp_sizeN p + 1) (dp_timeN p + match pair with Some _ => 1 | None => 0 end)
    (dp_gasUsed p + br_gasUsed r) (dp_size p + br_size r) (dp_time p + default 0 pair) (dp_gasPrice p) (dp_txs p)
    (dp_successful p) (dp_failed p) (dp_transfers p).
Definition count_tx (p : DayParts) (t : tx_row) : DayParts :=
  mkDay (dp_first p) (dp_blocks p) (dp_sizeN p) (dp_timeN p) (dp_gasUsed p) (dp_size p) (dp_time p) (dp_gasPrice p + tx_gasPrice t) (dp_txs p + 1)
    (dp_successful p + if tx_status t =? 1 then 1 else 0) (dp_failed p + if tx_status t =? 0 then 1 else 0) (dp_transfers p).
Definition count_transfers (k : Z) (p : DayParts) : DayParts :=
  mkDay (dp_first p) (dp_blocks p) (dp_sizeN p) (dp_timeN p) (dp_gasUsed p) (dp_size p) (dp_time p) (dp_gasPrice p) (dp_txs p)
    (dp_successful p) (dp_failed p) (dp_transfers p + k).
Definition tx_parties (t : tx_row) : gset gostring :=
  {[ ToLower (tx_from t) ]} ∪ match tx_to t with Some a => {[ ToLower a ]} | None => ∅ end.

Definition addDay (d : BlockData) (prevTs : option Z) (b : BackfillBatch) : BackfillBatch :=
  match bd_block d with
  | None => b
  | Some r =>
      let day := blockDay (br_timestamp r) in
      let p := count_block r prevTs (default (NewDayParts (br_number r)) (bb_days b !! day)) in
      let p := count_transfers (zlen (bd_transfers d)) (foldl count_tx p (bd_txs d)) in
      mkBatch (bb_from b) (bb_to b) (bb_spans b) (bb_spanHi b) (bb_shared b) (<[day := p]> (bb_days b))
        (<[day := default ∅ (bb_active b !! day) ∪ ⋃ (tx_parties <$> bd_txs d)]> (bb_active b)) (i64 (br_timestamp r))
  end.

(** An entry of [AddressStats] has its key as its address. *)
Definition merge_delta (d : AddressStatsDelta) (m : option AddressStatsDelta) : AddressStatsDelta :=
  let m := default (mkDelta (ad_address d) 0 0 0 0 false 0 (ad_block d)) m in
  mkDelta (ad_address m) (ad_txs m + ad_txs d) (ad_internal m + ad_internal d) (ad_transfers m + ad_transfers d) (ad_sent m + ad_sent d)
    (ad_contract m || ad_contract d) (Z.max (ad_last m) (ad_block d)) (Z.min (ad_block m) (ad_block d)).
Definition merge_stats (ds m : gmap gostring AddressStatsDelta) : gmap gostring AddressStatsDelta :=
  merge (λ m d, match d with Some d => Some (merge_delta d m) | None => m end) m ds.

Definition see_token (m : gmap gostring (Z * gostring)) (t : transfer_row) : gmap gostring (Z * gostring) :=
  (insert_new (ToLower (tr_token t)) (tr_block t, tr_tx t) m).1.

Section Merge.
Context `{Keccak}.

Definition mergeShared (built : builtBlock) (s : shared) : shared :=
  let d := built_data built in
  mkShared (sh_tokens s ++ bd_tokens d) (sh_nfts s ++ bd_nfts d) (merge_stats (bd_stats d) (sh_stats s)) (sh_contracts s ++ bd_contracts d)
    (foldl see_token (sh_firstSeen s) (bd_transfers d))
    (sh_keys s ++ ((λ w, (ToLower (Address_Hex (w_token w)), ToLower (Address_Hex (w_address w)), w_block w)) <$> built_work built)).
End Merge.

Record StatsBackfillConfig := mkBackfillConfig { BatchBlocks : Z; SpanBlocks : Z; strictBlockTries : Z }.

Inductive backfill_err := FetchFailed | BuildFailed | TotalsFailed (e : totals_err) | ErrBackfillNotNext | StoreFailed | WaitsForCatchup.

Section Batch.
Context `{Keccak} (cfg : StatsBackfillConfig) (bc : build_config).

Definition spanOf (n target : Z) : Z * Z :=
  let lo := n - n mod SpanBlocks cfg in (lo, Z.min (lo +₆₄ SpanBlocks cfg) (target +₆₄ 1)).

Definition add_span (d : BlockData) (target : Z) (b : BackfillBatch) : res totals_err BackfillBatch :=
  let '(lo, hi) := spanOf (block_no d) target in
  try span := AddBlock d (default NewSpanTotals (bb_spans b !! lo)) in
  Ok (mkBatch (bb_from b) (bb_to b) (<[lo := span]> (bb_spans b))
        (match bb_spans b !! lo with Some _ => bb_spanHi b | None => <[lo := hi]> (bb_spanHi b) end)
        (bb_shared b) (bb_days b) (bb_active b) (bb_lastTs b)).

Definition set_shared (s : shared) (b : BackfillBatch) : BackfillBatch :=
  mkBatch (bb_from b) (bb_to b) (bb_spans b) (bb_spanHi b) s (bb_days b) (bb_active b) (bb_lastTs b).

(** The batch, the timestamp of the block and the tokens discovered. *)
Definition addBlock (built : builtBlock) (target : Z) (acc : BackfillBatch * option Z * list gostring)
    : res totals_err (BackfillBatch * option Z * list gostring) :=
  let '(b, prevTs, discovered) := acc in
  let d := built_data built in
  try b := add_span d target b in
  let b := set_shared (mergeShared built (bb_shared b)) b in
  let b := addDay d prevTs b in
  Ok (b, Some (i64 (block_ts d)), discovered ++ built_discovered built).

(** ** Reading and building *)

Definition fetched : Type := RawBlock * gmap gostring Receipt.
Record batchRetry := mkRetry { r_from : Z; r_to : Z; r_blocks : list (option fetched); r_built : list builtBlock }.
Record backfiller := mkBackfiller { k_failing : Z * Z; k_retrying : option batchRetry; k_caches : caches }.

(** What the node answers during one step: the reads, and the calls of the two
    builders of each block. *)
Record bnode := mkBnode {
  bn_raw : Z → option RawBlock; bn_receipts : Z → list gostring → option (gmap gostring Receipt);
  bn_strict : Z → node_answers; bn_lenient : Z → node_answers }.

(** [newBackfiller]: the strict and the lenient configuration. *)
Definition strict_config : build_config :=
  mkBuildConfig true true (SkipTraceRefusals bc) (SkipAddressStats bc) (CountersOnly bc) (tracingSupported bc) (SkipReceiptTxTypes bc).
Definition lenient_config : build_config :=
  mkBuildConfig true false true (SkipAddressStats bc) (CountersOnly bc) (tracingSupported bc) (SkipReceiptTxTypes bc).

Definition fetch_block (nd : bnode) (n : Z) : option fetched :=
  match bn_raw nd n with
  | None => None
  | Some raw => match bn_receipts nd n (receiptTxHashes strict_config raw) with Some rs => Some (raw, rs) | None => None end
  end.
(** Every block not fetched yet, whichever fail. *)
Definition fetch_blocks (nd : bnode) (from : Z) (blocks : list (option fetched)) : list (option fetched) :=
  imap (λ i f, match f with Some f => Some f | None => fetch_block nd (from + Z.of_nat i) end) blocks.

Definition code_refused (e : contract_err) : bool :=
  match e with errContractUndecided => true | CodeFailed (NodeErr e) => NodeRefused e | CodeFailed errNotSupported => false end.
Definition refusedOnly (b : builtBlock) : bool :=
  match built_tracesErr b with Some e => NodeRefused e | None => true end && forallb code_refused (built_codeErrs b).
Definition undecidedOnly (es : list contract_err) : bool :=
  forallb (λ e, match e with errContractUndecided => true | CodeFailed _ => false end) es.
Definition build_ok (b : builtBlock) : bool :=
  match built_tracesErr b, built_codeErrs b with None, [] => true | _, _ => false end.

(** The block failed again: its failures, and whether they are too many. *)
Definition givesUp (n : Z) (failing : Z * Z) : Z * Z * bool :=
  let tries := (if failing.1 =? n then failing.2 else 0) + 1 in (n, tries, strictBlockTries cfg <=? tries).

Definition seen_contracts (b : builtBlock) (cs : caches) : caches := mkCaches (tokenCache cs) (built_contracts b).

(** One block built, strictly or, given up on, leniently. *)
Definition build_one (nd : bnode) (f : fetched) (failing : Z * Z) (cs : caches) : Z * Z * caches * res backfill_err builtBlock :=
  let n := NumberU64 f.1 in
  let b := buildBlock strict_config (bn_strict nd n) cs f.1 f.2 in
  let cs := seen_contracts b cs in
  if build_ok b then (failing, cs, Ok b)
  else if negb (refusedOnly b) then (failing, cs, Err BuildFailed)
  else
    let '(failing, up) := givesUp n failing in
    if negb up then (failing, cs, Err BuildFailed)
    else
      let l := buildBlock lenient_config (bn_lenient nd n) cs f.1 f.2 in
      let cs := seen_contracts l cs in
      if negb (bool_decide (built_tracesErr l = None)) || negb (undecidedOnly (built_codeErrs l)) then (failing, cs, Err BuildFailed)
      else (failing, cs, Ok l).

(** [built]: kept of an earlier try, then those of this one. *)
Fixpoint build_blocks (nd : bnode) (fs : list fetched) (kept : list builtBlock) (target : Z) (failing : Z * Z) (cs : caches) (built : list builtBlock)
    (acc : BackfillBatch * option Z * list gostring)
    : Z * Z * caches * list builtBlock * res backfill_err (BackfillBatch * option Z * list gostring) :=
  match fs with
  | [] => (failing, cs, built, Ok acc)
  | f :: fs =>
      match kept with
      | b :: kept =>
          match addBlock b target acc with
          | Err e => (failing, cs, built, Err (TotalsFailed e))
          | Ok acc => build_blocks nd fs kept target failing cs built acc
          end
      | [] =>
          match build_one nd f failing cs with
          | (failing, cs, Err e) => (failing, cs, built, Err e)
          | (failing, cs, Ok b) =>
              let built := built ++ [b] in
              match addBlock b target acc with
              | Err e => (failing, cs, built, Err (TotalsFailed e))
              | Ok acc => build_blocks nd fs [] target failing cs built acc
              end
          end
      end
  end.

Definition retry_of (from to : Z) (m : backfiller) : batchRetry :=
  match k_retrying m with
  | Some r => if (r_from r =? from) && (r_to r =? to) then r else mkRetry from to (replicate (Z.to_nat (to - from)) None) []
  | None => mkRetry from to (replicate (Z.to_nat (to - from)) None) []
  end.

Definition batch (nd : bnode) (from to target : Z) (prevTs : option Z) (m : backfiller) : backfiller * res backfill_err (BackfillBatch * list gostring) :=
  let r := retry_of from to m in
  let blocks := fetch_blocks nd from (r_blocks r) in
  match mapM id blocks with
  | None => (mkBackfiller (k_failing m) (Some (mkRetry from to blocks (r_built r))) (k_caches m), Err FetchFailed)
  | Some fs =>
      match build_blocks nd fs (r_built r) target (k_failing m) (k_caches m) (r_built r) (empty_batch from to, prevTs, []) with
      | (failing, cs, built, Err e) => (mkBackfiller failing (Some (mkRetry from to blocks built)) cs, Err e)
      | (failing, cs, _, Ok (b, _, discovered)) => (mkBackfiller failing None cs, Ok (b, discovered))
      end
  end.
End Batch.

(** ** The database *)

(** [bs_retained]: the stored transfers, all above the target. *)
Record bstore := mkBstore {
  bs_target : Z; bs_through : Z; bs_complete : bool; bs_spanLo : option Z; bs_lastTs : option Z;
  bs_ledger : gmap Z (Z * SpanTotals); bs_stage : gmap Z SpanTotals;
  bs_days : gmap Z DayParts; bs_active : gmap Z (gset gostring); bs_activeN : gmap Z Z;
  bs_keys : gmap (gostring * gostring) Z;
  bs_contracts : gmap gostring contract_row; bs_tokens : gmap gostring token_rec; bs_nfts : gmap (gostring * gostring) nft_rec;
  bs_stats : gmap gostring address_rec; bs_counters : chain_counters; bs_retained : list transfer_row }.

(** [token_counted]: the stored transfers, the pruned spans of the ledger (here all
    of them), the span in progress. *)
Definition token_counted (token : gostring) (s : bstore) : Z * Z :=
  let rows := filter (λ t, tr_token t = token) (bs_retained s) in
  let ledger := tsum ((λ x : Z * SpanTotals, default (0, 0) (st_tokens x.2 !! token)) <$> (map_to_list (bs_ledger s)).*2) in
  let stage := match bs_spanLo s with
               | Some lo => match bs_stage s !! lo with Some t => default (0, 0) (st_tokens t !! token) | None => (0, 0) end
               | None => (0, 0)
               end in
  (zlen rows, sum_supply rows) ⊕ ledger ⊕ stage.

(** Every row takes the batch's delta, a created one on top of its seed. *)
Definition write_tokens (rows : list token_row) (deltas : gmap gostring (Z * Z)) (s : bstore) : gmap gostring token_rec * Z :=
  let '(tokens, seeds) := foldl upsert_token (bs_tokens s, []) rows in
  (map_imap (λ token r,
     let r := if decide (token ∈ seeds) then
                let '(n, supply) := token_counted token s in
                set_counts n (if decide (te_type r = TokenTypeERC20) then Some (clampSupply supply) else te_supply r) r
              else r in
     Some (match deltas !! token with Some d => apply_delta d r | None => r end)) tokens, zlen seeds).

Definition lowerTokenCreation (seen : gmap gostring (Z * gostring)) (tokens : gmap gostring token_rec) : gmap gostring token_rec :=
  map_imap (λ token r, Some (match seen !! token with
    | Some (n, tx) => if n <? te_block r then mkTokenRec (te_symbol r) (te_name r) (te_decimals r) (te_type r) (te_supply r) n (Some tx) (te_transfers r) else r
    | None => r end)) tokens.

(** [addToStage], and the spans the batch completes moved into the ledger, lowest first. *)
Fixpoint close_spans (los : list Z) (b : BackfillBatch) (ledger : gmap Z (Z * SpanTotals)) (stage : gmap Z SpanTotals) (open : option Z)
    : res backfill_err (gmap Z (Z * SpanTotals) * gmap Z SpanTotals * option Z) :=
  match los with
  | [] => Ok (ledger, stage, open)
  | lo :: los =>
      let t := default NewSpanTotals (stage !! lo) ⊕ default NewSpanTotals (bb_spans b !! lo) in
      let hi := default 0 (bb_spanHi b !! lo) in
      if hi <=? bb_to b then
        if decide (is_Some (ledger !! lo)) then Err StoreFailed
        else close_spans los b (<[lo := (hi, t)]> ledger) (delete lo stage) open
      else close_spans los b ledger (<[lo := t]> stage) (Some lo)
  end.
Definition sorted_los (b : BackfillBatch) : list Z := merge_sort Z.le (map_to_list (bb_spans b)).*1.

Definition add_days (b : BackfillBatch) (s : bstore) : gmap Z DayParts * gmap Z (gset gostring) * gmap Z Z :=
  let add (o : option DayParts) (p : option DayParts) :=
    match o, p with
    | Some d, Some p => Some (mkDay (Z.min (dp_first d) (dp_first p)) (dp_blocks d + dp_blocks p) (dp_sizeN d + dp_sizeN p) (dp_timeN d + dp_timeN p)
        (dp_gasUsed d + dp_gasUsed p) (dp_size d + dp_size p) (dp_time d + dp_time p) (dp_gasPrice d + dp_gasPrice p) (dp_txs d + dp_txs p)
        (dp_successful d + dp_successful p) (dp_failed d + dp_failed p) (dp_transfers d + dp_transfers p))
    | o, None => o
    | None, p => p
    end in
  (merge add (bs_days s) (bb_days b), bs_active s ⊕ bb_active b,
   merge (λ n f, match n, f with
                 | o, Some f => Some (default 0 o + Z.of_nat (size (f : gset gostring)))
                 | o, None => o
                 end) (bs_activeN s)
     (map_imap (λ day a, Some (a ∖ default ∅ (bs_active s !! day))) (bb_active b))).

Definition add_keys (ks : list (gostring * gostring * Z)) (m : gmap (gostring * gostring) Z) : gmap (gostring * gostring) Z :=
  foldl (λ m k, <[k.1 := match m !! k.1 with Some n => Z.max n k.2 | None => k.2 end]> m) m ks.

Definition CommitBackfillBatch (b : BackfillBatch) (s : bstore) : res backfill_err bstore :=
  if negb (bs_through s + 1 =? i64 (bb_from b)) || (bs_target s <? i64 (bb_to b) - 1) then Err ErrBackfillNotNext
  else
    let sh := bb_shared b in
    let all := tsum (map_to_list (bb_spans b)).*2 in
    let contracts := insert_contracts (sh_contracts sh) (bs_contracts s) in
    let '(tokens, created) := write_tokens (sh_tokens sh) (st_tokens all) s in
    let nfts := foldl upsert_nft (bs_nfts s) (sh_nfts sh) in
    let stats := upsert_stats (sh_stats sh) (bs_stats s) in
    let counters := bump_counters (st_blocks all) (st_txs all) created
                      (Z.of_nat (size stats) - Z.of_nat (size (bs_stats s))) (st_transfers all) (bs_counters s) in
    let tokens := lowerTokenCreation (sh_firstSeen sh) tokens in
    try (ledger, stage, open) := close_spans (sorted_los b) b (bs_ledger s) (bs_stage s) None in
    let '(days, active, activeN) := add_days b s in
    Ok (mkBstore (bs_target s) (i64 (bb_to b) - 1) (bs_complete s) open (Some (bb_lastTs b)) ledger stage days active activeN
          (add_keys (sh_keys sh) (bs_keys s)) contracts tokens nfts stats counters (bs_retained s)).

(** ** A step *)

(** How the commit ends: done, failed, or done with its answer lost. *)
Inductive commit_end := Committed | CommitFailed | AnswerLost.

Section Step.
Context `{Keccak} (cfg : StatsBackfillConfig) (bc : build_config).

(** [complete] is whether catch-up has stored what the completion counts. *)
Definition set_complete (s : bstore) : bstore :=
  mkBstore (bs_target s) (bs_through s) true (bs_spanLo s) (bs_lastTs s) (bs_ledger s) (bs_stage s) (bs_days s) (bs_active s) (bs_activeN s)
    (bs_keys s) (bs_contracts s) (bs_tokens s) (bs_nfts s) (bs_stats s) (bs_counters s) (bs_retained s).

Definition step (nd : bnode) (ends : commit_end) (caught_up : bool) (st : backfiller * bstore) : backfiller * bstore * res backfill_err bool :=
  let '(m, s) := st in
  if bs_complete s then (m, s, Ok true)
  else if bs_through s =? bs_target s then
    if caught_up then (m, set_complete s, Ok true) else (m, s, Err WaitsForCatchup)
  else
    let from := u64 (bs_through s + 1) in
    let to := Z.min (from +₆₄ BatchBlocks cfg) (u64 (bs_target s) +₆₄ 1) in
    match batch cfg bc nd from to (u64 (bs_target s)) (bs_lastTs s) m with
    | (m, Err e) => (m, s, Err e)
    | (m, Ok (b, discovered)) =>
        match ends with
        | CommitFailed => (m, s, Err StoreFailed)
        | _ =>
            match CommitBackfillBatch b s with
            | Err e => (m, s, Err e)
            | Ok s' =>
                match ends with
                | AnswerLost => (m, s', Err StoreFailed)
                | _ => (mkBackfiller (k_failing m) (k_retrying m)
                          (mkCaches (list_to_set (ToLower <$> discovered) ∪ tokenCache (k_caches m)) (contractCache (k_caches m))), s', Ok false)
                end
            end
        end
    end.

(** [InitStatsBackfill] on a database with no block at or below the target; the
    counters and state it starts from. *)
Definition InitStatsBackfill (target : Z) (tokens : gmap gostring token_rec) (nfts : gmap (gostring * gostring) nft_rec)
    (contracts : gmap gostring contract_row) (stats : gmap gostring address_rec) (counters : chain_counters) (retained : list transfer_row) : bstore :=
  mkBstore target (-1) false None None ∅ ∅ ∅ ∅ ∅ ∅ contracts tokens nfts stats counters retained.

(** Steps, and restarts, which lose what the process remembers. *)
Inductive event := EStep (nd : bnode) (ends : commit_end) (caught_up : bool) | ERestart (cs : caches).
Definition run_event (st : backfiller * bstore) (e : event) : backfiller * bstore :=
  match e with
  | EStep nd ends caught_up => (step nd ends caught_up st).1
  | ERestart cs => (mkBackfiller (0, 0) None cs, st.2)
  end.
End Step.
