(* ===== verification/BackfillProps.v ===== *)
(** * The stats backfill counts every block once

    What a batch and the database hold, as sums over the blocks counted so far. *)

From S2P Require Import Prelude GoStrings EthCommon CallTrace BalanceWorker BuildBlock BlockWrite Tally Ledger StatsBackfill.

(** ** What one block adds *)

#[export] Program Instance address_rec_semi : Semi address_rec :=
  mkSemi _ (λ a b, mkAddressRec (ae_txs a + ae_txs b) (ae_internal a + ae_internal b) (ae_transfers a + ae_transfers b) (ae_sent a + ae_sent b)
    (Z.min (ae_first a) (ae_first b)) (Z.max (ae_last a) (ae_last b)) (ae_contract a || ae_contract b)) _ _.
Next Obligation. intros [] [] []; cbn. f_equal; try lia. apply orb_assoc. Qed.
Next Obligation. intros [] []; cbn. f_equal; try lia. apply orb_comm. Qed.

(** Its part of its day, [prev] the timestamp of the block before. *)
Definition day_part (d : BlockData) (r : block_row) (prev : option Z) : DayParts :=
  count_transfers (zlen (bd_transfers d)) (foldl count_tx (count_block r prev (NewDayParts (br_number r))) (bd_txs d)).

Definition day_map (d : BlockData) (prev : option Z) : gmap Z DayParts :=
  match bd_block d with Some r => {[ blockDay (br_timestamp r) := day_part d r prev ]} | None => ∅ end.
Definition active_map (d : BlockData) : gmap Z (gset gostring) :=
  match bd_block d with Some r => {[ blockDay (br_timestamp r) := ⋃ (tx_parties <$> bd_txs d) ]} | None => ∅ end.
Definition rec_map (d : BlockData) : gmap gostring address_rec := new_address <$> bd_stats d.

Definition ts_of (d : BlockData) : Z := i64 (block_ts d).
Fixpoint days_sum (prev : option Z) (ds : list BlockData) : gmap Z DayParts :=
  match ds with [] => ∅ | d :: ds => day_map d prev ⊕ days_sum (Some (ts_of d)) ds end.
Definition last_ts (prev : option Z) (ds : list BlockData) : option Z := match last ds with Some d => Some (ts_of d) | None => prev end.

Lemma last_ts_cons prev d ds : last_ts prev (d :: ds) = last_ts (Some (ts_of d)) ds.
Proof. unfold last_ts. rewrite last_cons. by destruct (last ds). Qed.
Lemma days_sum_app prev ds es : days_sum prev (ds ++ es) = days_sum prev ds ⊕ days_sum (last_ts prev ds) es.
Proof.
  revert prev. induction ds as [|d ds IH]; intros prev; cbn [app days_sum]; [by rewrite plus_empty_l|].
  by rewrite IH, splus_assoc, last_ts_cons.
Qed.

Lemma count_block_plus r prev q : count_block r prev q = q ⊕ count_block r prev (NewDayParts (br_number r)).
Proof. unfold count_block, splus. cbn. f_equal; lia. Qed.
Lemma count_txs_plus q p txs : foldl count_tx (q ⊕ p) txs = q ⊕ foldl count_tx p txs.
Proof.
  revert p. induction txs as [|t txs IH]; intros p; cbn [foldl]; [done|]. rewrite <-IH. f_equal. unfold count_tx, splus. cbn. f_equal; lia.
Qed.
Lemma count_transfers_plus k q p : count_transfers k (q ⊕ p) = q ⊕ count_transfers k p.
Proof. unfold count_transfers, splus. cbn. f_equal; lia. Qed.

(** ** A batch is a sum *)

Lemma addDay_days d prev b : bb_days (addDay d prev b) = bb_days b ⊕ day_map d prev.
Proof.
  unfold addDay, day_map. destruct (bd_block d) as [r|]; [|by rewrite plus_empty_r]. cbn [bb_days]. rewrite plus_singleton. f_equal.
  unfold day_part. destruct (bb_days b !! blockDay (br_timestamp r)) as [q|]; cbn [default from_option id]; [|done].
  by rewrite <-count_transfers_plus, <-count_txs_plus, <-count_block_plus.
Qed.
Lemma addDay_active d prev b : bb_active (addDay d prev b) = bb_active b ⊕ active_map d.
Proof.
  unfold addDay, active_map. destruct (bd_block d) as [r|]; [|by rewrite plus_empty_r]. cbn [bb_active]. rewrite plus_singleton. f_equal.
  destruct (bb_active b !! blockDay (br_timestamp r)) as [q|]; cbn [default from_option id]; [done|]. set_solver.
Qed.

Lemma new_address_merge d m : ad_last d = 0 ∧ 0 ≤ ad_block d → ad_block m ≤ ad_last m → new_address (merge_delta d (Some m)) = new_address m ⊕ new_address d.
Proof. intros H0 Hm. unfold new_address, merge_delta, splus. cbn. f_equal; lia. Qed.

(** The deltas of one block. *)
Definition fresh_stats (d : BlockData) : Prop := ∀ a δ, bd_stats d !! a = Some δ → ad_last δ = 0 ∧ 0 ≤ ad_block δ.
Definition spread (m : gmap gostring AddressStatsDelta) : Prop := ∀ a δ, m !! a = Some δ → ad_block δ ≤ ad_last δ.

Lemma merge_stats_recs d m : fresh_stats d → spread m →
  new_address <$> merge_stats (bd_stats d) m = (new_address <$> m) ⊕ rec_map d ∧ spread (merge_stats (bd_stats d) m).
Proof.
  intros Hf Hm. split.
  - apply map_eq. intros a. unfold merge_stats, rec_map. rewrite lookup_plus, !lookup_fmap, lookup_merge.
    destruct (m !! a) as [x|] eqn:Em, (bd_stats d !! a) as [δ|] eqn:Ed; cbn [fmap option_fmap option_map diag_None]; try done.
    + f_equal. apply new_address_merge; [by eapply Hf|by eapply Hm].
    + f_equal. pose proof (Hf a δ Ed). unfold new_address, merge_delta. cbn. f_equal; lia.
  - intros a δ. unfold merge_stats. rewrite lookup_merge. destruct (m !! a) as [x|] eqn:Em, (bd_stats d !! a) as [δ0|] eqn:Ed; cbn [diag_None]; try done; intros [= <-].
    + cbn. lia.
    + by eapply Hm.
    + cbn. lia.
Qed.

Section Spans.
Context (cfg : StatsBackfillConfig) (target : Z).
Hypothesis Hspan : 1 ≤ SpanBlocks cfg < 2 ^ 62.
Hypothesis Htarget : 0 ≤ target < 2 ^ 62.

Definition span_lo (n : Z) : Z := n - n mod SpanBlocks cfg.
Definition span_hi (lo : Z) : Z := Z.min (lo + SpanBlocks cfg) (target + 1).
Definition span_map (d : BlockData) : gmap Z SpanTotals := {[ span_lo (block_no d) := totals_of d ]}.

Lemma span_lo_range n : 0 ≤ n → 0 ≤ span_lo n ≤ n ∧ n < span_lo n + SpanBlocks cfg ∧ span_lo n mod SpanBlocks cfg = 0.
Proof.
  intros Hn. unfold span_lo. pose proof (Z.mod_pos_bound n (SpanBlocks cfg) ltac:(lia)). pose proof (Z.mod_le n (SpanBlocks cfg) Hn ltac:(lia)).
  split_and!; try lia. rewrite Zminus_mod_idemp_r, Z.sub_diag. apply Z.mod_0_l. lia.
Qed.
Lemma span_lo_unique n lo : lo mod SpanBlocks cfg = 0 → lo ≤ n < lo + SpanBlocks cfg → span_lo n = lo.
Proof.
  intros Hlo Hn. unfold span_lo. apply Z.mod_divide in Hlo as [q ->]; [|lia].
  replace n with ((n - q * SpanBlocks cfg) + q * SpanBlocks cfg) at 2 by lia. rewrite Z.mod_add by lia. rewrite Z.mod_small by lia. lia.
Qed.
Lemma spanOf_exact n : 0 ≤ n ≤ target → spanOf cfg n target = (span_lo n, span_hi (span_lo n)).
Proof.
  intros Hn. destruct (span_lo_range n ltac:(lia)) as (? & ? & _). unfold spanOf, span_hi. fold (span_lo n).
  rewrite !u64_small by (unfold is_u64; lia). done.
Qed.

Record ok_block (n : Z) (d : BlockData) : Prop := {
  ob_row : ∃ r, bd_block d = Some r ∧ br_number r = n;
  ob_fresh : fresh_stats d }.
Lemma ok_block_no n d : ok_block n d → block_no d = n.
Proof. intros [(r & E & En) _]. unfold block_no. by rewrite E. Qed.

Record batch_of (prev : option Z) (from to : Z) (ds : list BlockData) (b : BackfillBatch) (p : option Z) : Prop := {
  bo_range : bb_from b = from ∧ bb_to b = to;
  bo_spans : bb_spans b = tsum (span_map <$> ds);
  bo_hi : ∀ lo, bb_spanHi b !! lo = if decide (is_Some (bb_spans b !! lo)) then Some (span_hi lo) else None;
  bo_days : bb_days b = days_sum prev ds;
  bo_active : bb_active b = tsum (active_map <$> ds);
  bo_recs : new_address <$> sh_stats (bb_shared b) = tsum (rec_map <$> ds);
  bo_spread : spread (sh_stats (bb_shared b));
  bo_prev : p = last_ts prev ds;
  bo_last : ds ≠ [] → Some (bb_lastTs b) = last_ts prev ds;
  bo_countable : Forall countable ds }.

Lemma batch_of_empty prev from to : batch_of prev from to [] (empty_batch from to) prev.
Proof.
  by split.
Qed.

Lemma last_ts_snoc prev ds d : last_ts prev (ds ++ [d]) = Some (ts_of d).
Proof. unfold last_ts. by rewrite last_snoc. Qed.

Lemma addBlock_spec `{Keccak} prev from to ds b p x n disc b' p' disc' : batch_of prev from to ds b p → ok_block n (built_data x) → 0 ≤ n ≤ target →
  addBlock cfg x target (b, p, disc) = Ok (b', p', disc') → batch_of prev from to (ds ++ [built_data x]) b' p'.
Proof.
  intros [B1 B2 B3 B4 B5 B6 B7 B8 B9 B10] Hx Hn. pose proof (ok_block_no _ _ Hx) as Eno. destruct Hx as [(r & Er & En) Hf].
  unfold addBlock, add_span. rewrite Eno, (spanOf_exact n Hn). destruct (AddBlock _ _) as [span|] eqn:Ea; [|done]. cbn [res_bind].
  apply AddBlock_Ok in Ea as [Hc ->]. destruct (merge_stats_recs _ _ Hf B7) as [Hrec Hspread].
  cbv zeta. set (b1 := mkBatch _ _ _ _ _ _ _ _).
  assert (addDay (built_data x) p (set_shared (mergeShared x (bb_shared b1)) b1) = mkBatch (bb_from b) (bb_to b) (bb_spans b1) (bb_spanHi b1)
    (mergeShared x (bb_shared b)) (bb_days b ⊕ day_map (built_data x) p) (bb_active b ⊕ active_map (built_data x)) (ts_of (built_data x))) as ->.
  { rewrite <-(addDay_days _ _ b), <-(addDay_active _ p b). unfold addDay, ts_of, block_ts. by rewrite Er. }
  intros [= <- <- <-].
  assert (∀ lo, bb_spans b1 !! lo = (bb_spans b ⊕ span_map (built_data x)) !! lo) as Hsp.
  { intros lo. unfold span_map. rewrite plus_singleton, Eno. cbn [b1 bb_spans]. destruct (bb_spans b !! span_lo n); [done|].
    apply (f_equal (λ t, <[span_lo n := t]> (bb_spans b) !! lo)). exact (tzero_l (totals_of (built_data x))). }
  split; rewrite ?fmap_app, ?tsum_app; cbn [fmap list_fmap bb_from bb_to bb_spans bb_spanHi bb_days bb_active bb_shared bb_lastTs]; rewrite ?tsum_singleton.
  - done.
  - rewrite <-B2. by apply map_eq.
  - intros lo. unfold b1. cbn [bb_spanHi bb_spans]. destruct (bb_spans b !! span_lo n) as [t|] eqn:Et.
    + rewrite B3. destruct (decide (lo = span_lo n)) as [->|Hne]; [rewrite lookup_insert_eq, Et; by rewrite !decide_True by eauto|].
      by rewrite lookup_insert_ne by done.
    + destruct (decide (lo = span_lo n)) as [->|Hne]; [rewrite !lookup_insert_eq; by rewrite decide_True by eauto|].
      rewrite !lookup_insert_ne by done. apply B3.
  - rewrite days_sum_app, B8, B4. cbn [days_sum]. by rewrite plus_empty_r.
  - by rewrite B5.
  - by rewrite <-B6.
  - done.
  - by rewrite last_ts_snoc.
  - intros _. by rewrite last_ts_snoc.
  - apply Forall_app. split; [done|by apply Forall_singleton].
Qed.

(** ** What is built *)

Section Builds.
Context `{Keccak} (bc : build_config).

(** A block of the node, built with every trace and code it needs, or counted
    without what the node refuses. *)
Definition is_build (n : Z) (b : builtBlock) : Prop :=
  ∃ nd cs raw rs, NumberU64 raw = n ∧ NoDup (rt_hash <$> rb_txs raw) ∧
  ((b = buildBlock (strict_config bc) nd cs raw rs ∧ build_ok b = true) ∨
   (b = buildBlock (lenient_config bc) nd cs raw rs ∧ built_tracesErr b = None ∧ undecidedOnly (built_codeErrs b) = true)).

Lemma buildBlock_row c nd cs raw rs : bd_block (built_data (buildBlock c nd cs raw rs)) = Some (block_row_of raw).
Proof. unfold buildBlock. by destruct (fetch_internal c nd (receiptTxHashes c raw)). Qed.

Lemma is_build_ok n b : 0 ≤ n → is_build n b → ok_block n (built_data b).
Proof.
  intros Hn (nd & cs & raw & rs & En & Hnd & Hb).
  assert (∃ c, b = buildBlock c nd cs raw rs) as [c ->] by (destruct Hb as [[-> _]|[-> _]]; eauto). split.
  - eexists. split; [apply buildBlock_row|exact En].
  - intros a δ Hδ. destruct (buildBlock_counted c nd cs raw rs Hnd) as [_ Hr]. destruct (Hr a δ Hδ) as (_ & -> & -> & _). lia.
Qed.

Definition fetched_ok (n : Z) (f : fetched) : Prop := NumberU64 f.1 = n ∧ NoDup (rt_hash <$> rb_txs f.1).
(** The node answers the block it is asked for; a hash names one transaction. *)
Definition node_ok (nd : bnode) : Prop := ∀ n raw, bn_raw nd n = Some raw → NumberU64 raw = n ∧ NoDup (rt_hash <$> rb_txs raw).

Lemma build_one_ok nd f failing cs n failing' cs' b : fetched_ok n f → build_one cfg bc nd f failing cs = (failing', cs', Ok b) → is_build n b.
Proof.
  intros [En Hnd]. unfold build_one. set (s := buildBlock (strict_config bc) _ cs f.1 f.2). destruct (build_ok s) eqn:Es.
  - intros [= <- <- <-]. exists (bn_strict nd (NumberU64 f.1)), cs, f.1, f.2. split_and!; [done|done|]. by left.
  - destruct (refusedOnly s); [|done]. cbn [negb]. destruct (givesUp cfg (NumberU64 f.1) failing) as [failing1 []]; [|done]. cbn [negb].
    set (l := buildBlock (lenient_config bc) _ _ _ _). case_bool_decide as Et; [|done]. destruct (undecidedOnly (built_codeErrs l)) eqn:Eu; [|done].
    intros [= <- <- <-]. eexists _, _, f.1, f.2. split_and!; [done|done|]. right. by split_and!.
Qed.

Definition builds (from : Z) (bs : list builtBlock) : Prop := ∀ i b, bs !! i = Some b → is_build (from + Z.of_nat i) b.
Lemma builds_snoc from bs b : builds from bs → is_build (from + zlen bs) b → builds from (bs ++ [b]).
Proof. intros Hbs Hb i x [[_ Hx]|[-> <-]]%lookup_snoc_Some; [auto|]. exact Hb. Qed.

Lemma build_blocks_ok prev from to nd fs kept pre failing cs b p disc failing' cs' built' r : 0 ≤ from → from + zlen pre + zlen fs ≤ target + 1 →
  (∀ i f, fs !! i = Some f → fetched_ok (from + zlen pre + Z.of_nat i) f) → builds from (pre ++ kept) →
  batch_of prev from to (built_data <$> pre) b p →
  build_blocks cfg bc nd fs kept target failing cs (pre ++ kept) (b, p, disc) = (failing', cs', built', r) →
  builds from built' ∧ ∀ b' p' disc', r = Ok (b', p', disc') →
    ∃ bs, zlen bs = zlen pre + zlen fs ∧ builds from bs ∧ batch_of prev from to (built_data <$> bs) b' p'.
Proof.
  intros Hfrom. revert kept pre failing cs b p disc. induction fs as [|f fs IH]; intros kept pre failing cs b p disc Hto Hfs Hbs Hb; cbn [build_blocks].
  - intros [= <- <- <- <-]. split; [done|]. intros b' p' disc' [= <- <- <-]. exists pre. split; [change (zlen []) with 0; lia|]. split; [|done].
    intros i x Hx. apply Hbs. by apply lookup_app_l_Some.
  - assert (∀ x r0, is_build (from + zlen pre) x → addBlock cfg x target (b, p, disc) = Ok r0 →
      batch_of prev from to (built_data <$> pre ++ [x]) r0.1.1 r0.1.2) as Hadd.
    { intros x [[b1 p1] d1] Hx Ea. rewrite fmap_app. cbn [fst snd]. pose proof (zlen_nonneg pre). pose proof (zlen_nonneg fs). rewrite zlen_cons in Hto.
      eapply (addBlock_spec prev from to _ b p x (from + zlen pre)); [done|by apply is_build_ok; [lia|]|lia|exact Ea]. }
    assert (∀ x : builtBlock, ∀ i g, fs !! i = Some g → fetched_ok (from + zlen (pre ++ [x]) + Z.of_nat i) g) as Hfs'.
    { intros x i g Hg. rewrite zlen_app. specialize (Hfs (S i) g Hg). replace (from + (zlen pre + zlen [x]) + Z.of_nat i) with (from + zlen pre + Z.of_nat (S i))
        by (unfold zlen; cbn; lia). done. }
    assert (∀ x : builtBlock, from + zlen (pre ++ [x]) + zlen fs ≤ target + 1 ∧ zlen (pre ++ [x]) + zlen fs = zlen pre + zlen (f :: fs)) as Hlen.
    { intros x. rewrite zlen_cons in Hto |- *. rewrite zlen_app. change (zlen [x]) with 1. lia. }
    destruct kept as [|x kept].
    + rewrite app_nil_r in *. destruct (build_one cfg bc nd f failing cs) as [[failing1 cs1] [x|e]] eqn:E1; [|by intros [= <- <- <- <-]].
      assert (is_build (from + zlen pre) x) as Hx. { eapply build_one_ok; [|exact E1]. specialize (Hfs 0%nat f eq_refl). by rewrite Z.add_0_r in Hfs. }
      assert (builds from (pre ++ [x])) as Hpx by (by apply builds_snoc).
      destruct (addBlock cfg x target (b, p, disc)) as [[[b1 p1] d1]|e] eqn:Ea; [|by intros [= <- <- <- <-]].
      intros E. destruct (IH [] (pre ++ [x]) failing1 cs1 b1 p1 d1) as [Hb1 Hr]; try done; [apply Hlen|by apply Hfs'|by rewrite app_nil_r|exact (Hadd x _ Hx Ea)|by rewrite app_nil_r|].
      split; [done|]. intros b' p' disc' Er. destruct (Hr b' p' disc' Er) as (bs & El & ?). exists bs. split; [|done]. destruct (Hlen x). lia.
    + assert (is_build (from + zlen pre) x) as Hx. { apply Hbs. by rewrite lookup_app_r, Nat.sub_diag by lia. }
      destruct (addBlock cfg x target (b, p, disc)) as [[[b1 p1] d1]|e] eqn:Ea; [|by intros [= <- <- <- <-]].
      rewrite cons_middle, (assoc_L (++)) in Hbs |- *. intros E.
      destruct (IH kept (pre ++ [x]) failing cs b1 p1 d1) as [Hb1 Hr]; try done; [apply Hlen|by apply Hfs'|exact (Hadd x _ Hx Ea)|].
      split; [done|]. intros b' p' disc' Er. destruct (Hr b' p' disc' Er) as (bs & El & ?). exists bs. split; [|done]. destruct (Hlen x). lia.
Qed.

(** What the process remembers of a failed batch. *)
Definition mem_ok (m : backfiller) : Prop := ∀ r, k_retrying m = Some r →
  length (r_blocks r) = Z.to_nat (r_to r - r_from r) ∧
  (∀ i f, r_blocks r !! i = Some (Some f) → fetched_ok (r_from r + Z.of_nat i) f) ∧ builds (r_from r) (r_built r).

Lemma retry_of_ok from to m : mem_ok m → let r := retry_of from to m in r_from r = from ∧ length (r_blocks r) = Z.to_nat (to - from) ∧
  (∀ i f, r_blocks r !! i = Some (Some f) → fetched_ok (from + Z.of_nat i) f) ∧ builds from (r_built r).
Proof.
  intros Hm. cbv zeta. assert (let r := mkRetry from to (replicate (Z.to_nat (to - from)) None) [] in r_from r = from ∧ length (r_blocks r) = Z.to_nat (to - from) ∧
    (∀ i f, r_blocks r !! i = Some (Some f) → fetched_ok (from + Z.of_nat i) f) ∧ builds from (r_built r)) as Hnew.
  { cbn. split_and!; [done|apply length_replicate| |by intros i b]. intros i f [? _]%lookup_replicate_1. done. }
  unfold retry_of. destruct (k_retrying m) as [r|] eqn:E; [|exact Hnew]. destruct (_ && _) eqn:Eb; [|exact Hnew].
  apply andb_true_iff in Eb as [E1%Z.eqb_eq E2%Z.eqb_eq]. destruct (Hm r E) as (H1 & H2 & H3). subst from to. done.
Qed.

Lemma fetch_block_ok nd n f : node_ok nd → fetch_block bc nd n = Some f → fetched_ok n f.
Proof.
  intros Hnd. unfold fetch_block. destruct (bn_raw nd n) as [raw|] eqn:E; [|done]. destruct (bn_receipts nd n _) as [rs|]; [|done].
  intros [= <-]. apply (Hnd n raw E).
Qed.

Lemma fetch_blocks_ok nd from blocks i f : node_ok nd → (∀ i f, blocks !! i = Some (Some f) → fetched_ok (from + Z.of_nat i) f) →
  fetch_blocks bc nd from blocks !! i = Some (Some f) → fetched_ok (from + Z.of_nat i) f.
Proof.
  intros Hnd Hb. unfold fetch_blocks. rewrite list_lookup_imap. destruct (blocks !! i) as [[g|]|] eqn:E; cbn; [|intros [= E']|done].
  - intros [= <-]. by apply Hb.
  - by eapply fetch_block_ok.
Qed.

Lemma batch_ok nd from to prev m m' r : node_ok nd → mem_ok m → 0 ≤ from ≤ to → to ≤ target + 1 →
  batch cfg bc nd from to target prev m = (m', r) → mem_ok m' ∧ ∀ b disc, r = Ok (b, disc) →
    ∃ bs p, zlen bs = to - from ∧ builds from bs ∧ batch_of prev from to (built_data <$> bs) b p.
Proof.
  intros Hnd Hm Hft Hto. destruct (retry_of_ok from to m Hm) as (R1 & R2 & R3 & R4). unfold batch.
  set (r0 := retry_of from to m) in *. pose proof (fetch_blocks_ok nd from (r_blocks r0)) as Hf. set (blocks := fetch_blocks bc nd from (r_blocks r0)) in *.
  assert (length blocks = Z.to_nat (to - from)) as Hlen by (unfold blocks, fetch_blocks; by rewrite length_imap).
  assert (∀ failing cs bs, builds from bs → mem_ok (mkBackfiller failing (Some (mkRetry from to blocks bs)) cs)) as Hmem.
  { intros failing cs bs Hbs r1 [= <-]. cbn. split_and!; [done| |done]. intros i f. by apply Hf. }
  destruct (mapM id blocks) as [fs|] eqn:Em; [|intros [= <- <-]; split; [by apply Hmem|done]].
  apply mapM_Some_1 in Em. pose proof (Forall2_length _ _ _ Em) as Hl.
  destruct (build_blocks cfg bc nd fs (r_built r0) target _ _ (r_built r0) _) as [[[failing cs] built] rr] eqn:Eb.
  destruct (build_blocks_ok prev from to nd fs (r_built r0) [] (k_failing m) (k_caches m) (empty_batch from to) prev [] failing cs built rr) as [Hb Hr];
    [lia|unfold zlen; cbn [length]; lia| |exact R4|apply batch_of_empty|exact Eb|].
  - intros i f Hi. change (zlen []) with 0. rewrite Z.add_0_r. apply Hf; [done|done|].
    destruct (Forall2_lookup_r _ _ _ _ _ Em Hi) as (x & Hx & Ex). unfold id in Ex. by subst x.
  - destruct rr as [[[b p] disc]|e]; intros [= <- <-].
    + split; [by intros ? ?|]. intros b' disc' [= <- <-]. destruct (Hr b p disc eq_refl) as (bs & El & ? & ?). exists bs, p. split; [|done].
      unfold zlen in *. cbn [length] in El. lia.
    + split; [by apply Hmem|done].
Qed.
End Builds.

(** ** The spans of the blocks counted *)

Definition all_spans (ds : list BlockData) : gmap Z SpanTotals := tsum (span_map <$> ds).
Definition all_totals (ds : list BlockData) : SpanTotals := tsum (totals_of <$> ds).

Definition numbered (from : Z) (ds : list BlockData) : Prop := ∀ i d, ds !! i = Some d → ok_block (from + Z.of_nat i) d.
Lemma numbered_app from ds es : numbered from ds → numbered (from + zlen ds) es → numbered from (ds ++ es).
Proof.
  intros H1 H2 i d [Hd|[Hi Hd]]%lookup_app_Some; [auto|]. specialize (H2 _ _ Hd). unfold zlen in H2.
  by replace (from + Z.of_nat (length ds) + Z.of_nat (i - length ds)) with (from + Z.of_nat i) in H2 by lia.
Qed.

Lemma vsum_all ds : vsum (all_spans ds) = all_totals ds.
Proof.
  unfold all_spans, all_totals. rewrite vsum_tsum, <-list_fmap_compose. f_equal. apply list_fmap_ext. intros i d _. apply vsum_singleton.
Qed.

(** A span that has a total has a block, and the other way round. *)
Lemma all_spans_key from ds lo : numbered from ds → is_Some (all_spans ds !! lo) → ∃ n, from ≤ n < from + zlen ds ∧ span_lo n = lo.
Proof.
  intros Hn [t Ht]. apply lookup_tsum in Ht as (m & (d & -> & Hd)%list_elem_of_fmap & Hm). apply list_elem_of_lookup in Hd as [i Hi].
  pose proof (lookup_lt_Some _ _ _ Hi). exists (from + Z.of_nat i). unfold zlen. split; [lia|].
  unfold span_map in Hm. rewrite (ok_block_no _ _ (Hn i d Hi)) in Hm. by apply lookup_singleton_is_Some in Hm.
Qed.
Lemma all_spans_has from ds n : numbered from ds → from ≤ n < from + zlen ds → is_Some (all_spans ds !! span_lo n).
Proof.
  intros Hn Hr. unfold zlen in Hr. destruct (lookup_lt_is_Some_2 ds (Z.to_nat (n - from))) as [d Hd]; [lia|].
  pose proof (ok_block_no _ _ (Hn _ _ Hd)) as Eno. rewrite Z2Nat.id in Eno by lia. replace (from + (n - from)) with n in Eno by lia.
  apply list_elem_of_lookup_2 in Hd. unfold all_spans. clear Hn Hr. induction ds as [|e ds IH]; [by apply not_elem_of_nil in Hd|].
  rewrite fmap_cons. change (tsum (?x :: ?k)) with (x ⊕ tsum k). rewrite lookup_plus. apply elem_of_cons in Hd as [->|Hd].
  - unfold span_map at 1. rewrite Eno, lookup_singleton_eq. by destruct (tsum _ !! _).
  - destruct (IH Hd) as [t ->]. by destruct (span_map e !! span_lo n).
Qed.
Lemma all_spans_app ds es : all_spans (ds ++ es) = all_spans ds ⊕ all_spans es.
Proof. unfold all_spans. by rewrite fmap_app, tsum_app. Qed.
Lemma all_totals_app ds es : all_totals (ds ++ es) = all_totals ds ⊕ all_totals es.
Proof. unfold all_totals. by rewrite fmap_app, tsum_app. Qed.

(** A span reaches past a block exactly when the block is in it or below. *)
Lemma span_hi_above n : 0 ≤ n ≤ target → n < span_hi (span_lo n).
Proof. intros Hn. destruct (span_lo_range n ltac:(lia)) as (? & ? & _). unfold span_hi. lia. Qed.
Lemma span_lo_reaches n m : 0 ≤ n ≤ m → m < span_hi (span_lo n) → span_lo m = span_lo n.
Proof.
  intros Hn Hm. destruct (span_lo_range n ltac:(lia)) as (? & ? & ?). apply span_lo_unique; [done|]. unfold span_hi in Hm. lia.
Qed.

(** ** Closing spans *)

Record closed (b : BackfillBatch) (los : list Z) (ledger ledger' : gmap Z (Z * SpanTotals)) (stage stage' : gmap Z SpanTotals) (open open' : option Z) : Prop := {
  cl_other : ∀ lo, lo ∉ los → ledger' !! lo = ledger !! lo ∧ stage' !! lo = stage !! lo;
  cl_done : ∀ lo, lo ∈ los → let hi := default 0 (bb_spanHi b !! lo) in let t := default NewSpanTotals (stage !! lo) ⊕ default NewSpanTotals (bb_spans b !! lo) in
    if hi <=? bb_to b then ledger' !! lo = Some (hi, t) ∧ stage' !! lo = None else ledger' !! lo = ledger !! lo ∧ stage' !! lo = Some t;
  cl_open : (∀ lo, open' = Some lo → open = Some lo ∨ (lo ∈ los ∧ bb_to b < default 0 (bb_spanHi b !! lo))) ∧
    (is_Some open ∨ (∃ lo, lo ∈ los ∧ bb_to b < default 0 (bb_spanHi b !! lo)) → is_Some open') }.

Lemma close_spans_ok b los ledger stage open : NoDup los → (∀ lo, lo ∈ los → default 0 (bb_spanHi b !! lo) ≤ bb_to b → ledger !! lo = None) →
  ∃ ledger' stage' open', close_spans los b ledger stage open = Ok (ledger', stage', open') ∧ closed b los ledger ledger' stage stage' open open'.
Proof.
  revert ledger stage open. induction los as [|lo los IH]; intros ledger stage open Hnd Hfree; cbn [close_spans].
  - exists ledger, stage, open. split; [done|]. split; [done|by intros ? ?%not_elem_of_nil|]. split; [by left|]. by intros [?|(lo & ?%not_elem_of_nil & _)].
  - apply NoDup_cons in Hnd as [Hlo Hnd]. set (t := default NewSpanTotals (stage !! lo) ⊕ _). set (hi := default 0 (bb_spanHi b !! lo)).
    assert (∀ x, x ∈ los → x ≠ lo) as Hne by (intros x Hx ->; done). destruct (Z.leb_spec hi (bb_to b)) as [Hle|Hgt].
    + rewrite decide_False by (intros [? E]; rewrite (Hfree lo ltac:(left) Hle) in E; done).
      destruct (IH (<[lo := (hi, t)]> ledger) (delete lo stage) open Hnd) as (l' & s' & o' & E & [C1 C2 C3]).
      { intros x Hx Hh. rewrite lookup_insert_ne by (symmetry; auto). apply Hfree; [by right|done]. }
      exists l', s', o'. split; [done|]. split.
      * intros x [Hx1 Hx2]%not_elem_of_cons. destruct (C1 x Hx2) as [-> ->]. by rewrite lookup_insert_ne, lookup_delete_ne by done.
      * intros x [->|Hx]%elem_of_cons; cbv zeta.
        -- fold hi. destruct (Z.leb_spec hi (bb_to b)); [|lia]. destruct (C1 lo Hlo) as [-> ->]. by rewrite lookup_insert_eq, lookup_delete_eq.
        -- specialize (C2 x Hx). cbv zeta in C2. rewrite lookup_insert_ne, lookup_delete_ne in C2 by (symmetry; auto). exact C2.
      * destruct C3 as [C3 C4]. split.
        -- intros x Hx. destruct (C3 x Hx) as [?|[? ?]]; [by left|right]. split; [by right|done].
        -- intros Ho. apply C4. destruct Ho as [?|(x & [->|Hx]%elem_of_cons & Hh)]; [by left|fold hi in Hh; lia|right; eauto].
    + destruct (IH ledger (<[lo := t]> stage) (Some lo) Hnd) as (l' & s' & o' & E & [C1 C2 C3]); [intros x Hx; apply Hfree; by right|].
      exists l', s', o'. split; [done|]. split.
      * intros x [Hx1 Hx2]%not_elem_of_cons. destruct (C1 x Hx2) as [-> ->]. by rewrite lookup_insert_ne by done.
      * intros x [->|Hx]%elem_of_cons; cbv zeta.
        -- fold hi. destruct (Z.leb_spec hi (bb_to b)); [lia|]. destruct (C1 lo Hlo) as [-> ->]. by rewrite lookup_insert_eq.
        -- specialize (C2 x Hx). cbv zeta in C2. rewrite lookup_insert_ne in C2 by (symmetry; auto). exact C2.
      * destruct C3 as [C3 C4]. split.
        -- intros x Hx. destruct (C3 x Hx) as [[= <-]|[? ?]]; right; [split; [left|by fold hi]|split; [by right|done]].
        -- intros _. apply C4. left. by eexists.
Qed.

Lemma sorted_los_NoDup b : NoDup (sorted_los b).
Proof. unfold sorted_los. rewrite (merge_sort_Permutation Z.le). apply NoDup_fst_map_to_list. Qed.
Lemma elem_of_sorted_los b lo : lo ∈ sorted_los b ↔ is_Some (bb_spans b !! lo).
Proof.
  unfold sorted_los. rewrite (merge_sort_Permutation Z.le), list_elem_of_fmap. split.
  - intros ([k t] & -> & Hin%elem_of_map_to_list). by eexists.
  - intros [t Ht]. exists (lo, t). split; [done|]. by apply elem_of_map_to_list.
Qed.

(** The spans complete below [n] are in the ledger, the one in progress is staged. *)
Record spans_ok (n : Z) (all : gmap Z SpanTotals) (ledger : gmap Z (Z * SpanTotals)) (stage : gmap Z SpanTotals) (open : option Z) : Prop := {
  so_ledger : ∀ lo x, ledger !! lo = Some x ↔ all !! lo = Some x.2 ∧ x.1 = span_hi lo ∧ x.1 ≤ n;
  so_stage : ∀ lo t, stage !! lo = Some t ↔ all !! lo = Some t ∧ n < span_hi lo;
  so_open : ∀ lo, open = Some lo ↔ is_Some (stage !! lo) }.

Section CloseAll.
Context (ds es : list BlockData) (b : BackfillBatch) (ledger : gmap Z (Z * SpanTotals)) (stage : gmap Z SpanTotals) (open : option Z).
Hypothesis (Hds : numbered 0 ds) (Hes : numbered (zlen ds) es) (Hne : es ≠ []) (Htop : zlen ds + zlen es ≤ target + 1).
Hypothesis (Hso : spans_ok (zlen ds) (all_spans ds) ledger stage open).
Hypothesis (Hsp : bb_spans b = all_spans es) (Hto : bb_to b = zlen ds + zlen es).
Hypothesis (Hhi : ∀ lo, bb_spanHi b !! lo = if decide (is_Some (bb_spans b !! lo)) then Some (span_hi lo) else None).

Lemma es_pos : 0 ≤ zlen ds ∧ 0 < zlen es.
Proof. destruct es; [done|]. rewrite zlen_cons. pose proof (zlen_nonneg ds). pose proof (zlen_nonneg l). lia. Qed.
(** A span the batch adds to is not complete before it. *)
Lemma batch_span_open lo : is_Some (all_spans es !! lo) → zlen ds < span_hi lo.
Proof.
  intros Hin. destruct es_pos. destruct (all_spans_key _ _ _ Hes Hin) as (n & Hn & <-). pose proof (span_hi_above n ltac:(lia)). lia.
Qed.
(** A span it does not add to is complete, if there is one. *)
Lemma other_span_done lo : is_Some (all_spans ds !! lo) → all_spans es !! lo = None → span_hi lo ≤ zlen ds.
Proof.
  intros Hin Hno. destruct es_pos. destruct (all_spans_key _ _ _ Hds Hin) as (n & Hn & <-). destruct (Z.le_gt_cases (span_hi (span_lo n)) (zlen ds)); [done|].
  destruct (all_spans_has (zlen ds) es (zlen ds) Hes ltac:(lia)) as [t Ht]. rewrite (span_lo_reaches n (zlen ds)) in Ht by lia. congruence.
Qed.
(** Only the span of the last block can stay open. *)
Lemma one_open lo : is_Some (all_spans es !! lo) → zlen ds + zlen es < span_hi lo → lo = span_lo (zlen ds + zlen es - 1).
Proof.
  intros Hin Hlt. destruct es_pos. destruct (all_spans_key _ _ _ Hes Hin) as (n & Hn & <-). symmetry. apply span_lo_reaches; lia.
Qed.

Lemma batch_hi lo : is_Some (all_spans es !! lo) → default 0 (bb_spanHi b !! lo) = span_hi lo.
Proof. intros Hin. by rewrite Hhi, Hsp, decide_True. Qed.
Lemma batch_total lo x : all_spans es !! lo = Some x → default NewSpanTotals (stage !! lo) ⊕ default NewSpanTotals (bb_spans b !! lo) = default NewSpanTotals ((all_spans ds ⊕ all_spans es) !! lo).
Proof.
  intros Hx. rewrite Hsp, Hx, lookup_plus, Hx. cbn [default from_option id]. pose proof (batch_span_open lo ltac:(by eexists)) as Hlt.
  destruct (all_spans ds !! lo) as [a|] eqn:Ea.
  - by rewrite (proj2 (so_stage _ _ _ _ _ Hso lo a)).
  - destruct (stage !! lo) as [a|] eqn:Es; [apply (so_stage _ _ _ _ _ Hso) in Es as [? _]; congruence|]. exact (tzero_l x).
Qed.

Lemma close_all : ∃ ledger' stage' open', close_spans (sorted_los b) b ledger stage None = Ok (ledger', stage', open') ∧
  spans_ok (zlen (ds ++ es)) (all_spans (ds ++ es)) ledger' stage' open'.
Proof.
  destruct es_pos as [Hd0 He0].
  assert (∀ lo, lo ∈ sorted_los b ↔ is_Some (all_spans es !! lo)) as Hlos by (intros lo; by rewrite elem_of_sorted_los, Hsp).
  destruct (close_spans_ok b (sorted_los b) ledger stage None (sorted_los_NoDup b)) as (l' & s' & o' & E & [C1 C2 [C3 C4]]).
  { intros lo Hin%Hlos Hle. rewrite (batch_hi lo Hin) in Hle. destruct (ledger !! lo) as [x|] eqn:El; [|done].
    apply (so_ledger _ _ _ _ _ Hso) in El as (_ & Ex & ?). pose proof (batch_span_open lo Hin). lia. }
  exists l', s', o'. split; [done|]. rewrite zlen_app, all_spans_app.
  assert (∀ lo, is_Some (all_spans es !! lo) → if span_hi lo <=? zlen ds + zlen es
      then l' !! lo = Some (span_hi lo, default NewSpanTotals ((all_spans ds ⊕ all_spans es) !! lo)) ∧ s' !! lo = None
      else l' !! lo = None ∧ s' !! lo = Some (default NewSpanTotals ((all_spans ds ⊕ all_spans es) !! lo))) as Hin.
  { intros lo Hin. pose proof Hin as Hlo. apply Hlos in Hlo. specialize (C2 lo Hlo). cbv zeta in C2. destruct Hin as [x Hx].
    rewrite (batch_total lo x Hx), (batch_hi lo ltac:(by eexists)), Hto in C2. destruct (span_hi lo <=? _); [done|].
    destruct C2 as [-> ->]. split; [|done]. destruct (ledger !! lo) as [y|] eqn:El; [|done].
    apply (so_ledger _ _ _ _ _ Hso) in El as (_ & Ey & ?). pose proof (batch_span_open lo ltac:(by eexists)). lia. }
  assert (∀ lo, all_spans es !! lo = None → l' !! lo = ledger !! lo ∧ s' !! lo = stage !! lo ∧ (all_spans ds ⊕ all_spans es) !! lo = all_spans ds !! lo) as Hout.
  { intros lo Hno. destruct (C1 lo) as [-> ->]; [rewrite Hlos, Hno; by intros [? ?]|]. split_and!; try done. rewrite lookup_plus, Hno. by destruct (all_spans ds !! lo). }
  assert (∀ lo x, all_spans es !! lo = Some x → is_Some ((all_spans ds ⊕ all_spans es) !! lo)) as Hsome.
  { intros lo x Hx. rewrite lookup_plus, Hx. by destruct (all_spans ds !! lo). }
  split.
  - intros lo [hi t]. cbn [fst snd]. destruct (all_spans es !! lo) as [x|] eqn:Ex.
    + destruct (Hsome lo x Ex) as [y Hy]. specialize (Hin lo ltac:(by eexists)). rewrite Hy in Hin |- *. cbn [default from_option id] in Hin.
      destruct (Z.leb_spec (span_hi lo) (zlen ds + zlen es)); destruct Hin as [-> _]; naive_solver lia.
    + destruct (Hout lo Ex) as (-> & _ & ->). rewrite (so_ledger _ _ _ _ _ Hso). cbn [fst snd]. split; [intros (? & ? & ?); split_and!; try done; lia|].
      intros (Ha & -> & ?). split_and!; try done. apply other_span_done; [by eexists|done].
  - intros lo t. destruct (all_spans es !! lo) as [x|] eqn:Ex.
    + destruct (Hsome lo x Ex) as [y Hy]. specialize (Hin lo ltac:(by eexists)). rewrite Hy in Hin |- *. cbn [default from_option id] in Hin.
      destruct (Z.leb_spec (span_hi lo) (zlen ds + zlen es)); destruct Hin as [_ ->]; naive_solver lia.
    + destruct (Hout lo Ex) as (_ & -> & ->). rewrite (so_stage _ _ _ _ _ Hso). split; intros [Ha Hlt]; exfalso;
        pose proof (other_span_done lo ltac:(by eexists) Ex); lia.
  - assert (∀ lo, is_Some (s' !! lo) ↔ is_Some (all_spans es !! lo) ∧ zlen ds + zlen es < span_hi lo) as Hs'.
    { intros lo. destruct (all_spans es !! lo) as [x|] eqn:Ex.
      - specialize (Hin lo ltac:(by eexists)). destruct (Z.leb_spec (span_hi lo) (zlen ds + zlen es)); destruct Hin as [_ ->].
        + split; [by intros [? ?]|lia].
        + split; [by split; [eexists|]|by eexists].
      - destruct (Hout lo Ex) as (_ & -> & _). split; [|by intros [[? ?] ?]]. intros [t Ht]. exfalso.
        apply (so_stage _ _ _ _ _ Hso) in Ht as [Ha ?]. pose proof (other_span_done lo ltac:(by eexists) Ex). lia. }
    intros lo. rewrite Hs'. split.
    + intros ->. destruct (C3 lo eq_refl) as [?|[Hl%Hlos Hh]]; [done|]. rewrite (batch_hi lo Hl), Hto in Hh. done.
    + intros [Hl Hh]. destruct C4 as [lo' ->].
      { right. exists lo. rewrite Hlos, (batch_hi lo Hl), Hto. done. }
      destruct (C3 lo' eq_refl) as [?|[Hl'%Hlos Hh']]; [done|]. rewrite (batch_hi lo' Hl'), Hto in Hh'. f_equal.
      by rewrite (one_open lo Hl Hh), (one_open lo' Hl' Hh').
Qed.
End CloseAll.

(** ** Tokens *)

Definition tok (token : gostring) (t : SpanTotals) : Z * Z := default (0, 0) (st_tokens t !! token).
Lemma tok_plus token a b : tok token (a ⊕ b) = tok token a ⊕ tok token b.
Proof.
  unfold tok. change (st_tokens (a ⊕ b)) with (st_tokens a ⊕ st_tokens b). rewrite lookup_plus.
  destruct (st_tokens a !! token) as [[]|], (st_tokens b !! token) as [[]|]; cbn; f_equal; lia.
Qed.
Lemma tok_zero token : tok token tzero = tzero.
Proof. done. Qed.

Lemma token_counted_all ds s token : spans_ok (zlen ds) (all_spans ds) (bs_ledger s) (bs_stage s) (bs_spanLo s) →
  let rows := filter (λ t, tr_token t = token) (bs_retained s) in
  token_counted token s = (zlen rows, sum_supply rows) ⊕ tok token (all_totals ds).
Proof.
  intros [S1 S2 S3]. cbv zeta. unfold token_counted. rewrite <-splus_assoc. f_equal.
  assert (all_spans ds = (snd <$> bs_ledger s) ⊕ bs_stage s) as Hall.
  { apply map_eq. intros lo. rewrite lookup_plus, lookup_fmap. destruct (bs_ledger s !! lo) as [x|] eqn:El; cbn [fmap option_fmap option_map].
    - apply S1 in El as (Ha & Eh & Hle). destruct (bs_stage s !! lo) as [t|] eqn:Et; [apply S2 in Et as [_ Hlt]; lia|done].
    - destruct (bs_stage s !! lo) as [t|] eqn:Et; [by apply S2 in Et as [? _]|]. destruct (all_spans ds !! lo) as [t|] eqn:Ea; [|done]. exfalso.
      destruct (Z.le_gt_cases (span_hi lo) (zlen ds)) as [Hc|Hc]; [|pose proof (proj2 (S2 lo t) (conj Ea Hc)); congruence].
      pose proof (proj2 (S1 lo (span_hi lo, t)) (conj Ea (conj eq_refl Hc))). congruence. }
  rewrite <-(vsum_all ds), Hall, vsum_plus, tok_plus. f_equal.
  - unfold vsum. rewrite map_to_list_fmap, (tsum_hom (tok token)) by (done || apply tok_plus). f_equal.
    rewrite <-!list_fmap_compose. apply list_fmap_ext. done.
  - destruct (bs_spanLo s) as [lo|] eqn:Eo.
    + destruct (proj1 (S3 lo) eq_refl) as [t Ht]. rewrite Ht. assert (bs_stage s = {[ lo := t ]}) as ->; [|by rewrite vsum_singleton].
      apply map_eq. intros lo'. destruct (decide (lo' = lo)) as [->|Hne]; [by rewrite lookup_singleton_eq|]. rewrite lookup_singleton_ne by done.
      destruct (bs_stage s !! lo') eqn:E; [|done]. pose proof (proj2 (S3 lo') ltac:(by eexists)). congruence.
    + assert (bs_stage s = ∅) as ->; [|done]. apply map_empty. intros lo. destruct (bs_stage s !! lo) eqn:E; [|done].
      pose proof (proj2 (S3 lo) ltac:(by eexists)). congruence.
Qed.

Definition token_rows (token : gostring) (s : bstore) : Z := zlen (filter (λ t, tr_token t = token) (bs_retained s)).
Definition tokens_exact (s : bstore) (ds : list BlockData) : Prop :=
  ∀ token r, bs_tokens s !! token = Some r → te_transfers r = token_rows token s + (tok token (all_totals ds)).1.

Lemma write_tokens_ok ds es rows s tokens created : spans_ok (zlen ds) (all_spans ds) (bs_ledger s) (bs_stage s) (bs_spanLo s) → tokens_exact s ds →
  write_tokens rows (st_tokens (all_totals es)) s = (tokens, created) →
  (∀ token r, tokens !! token = Some r → te_transfers r = token_rows token s + (tok token (all_totals (ds ++ es))).1) ∧
  Z.of_nat (size tokens) = Z.of_nat (size (bs_tokens s)) + created.
Proof.
  intros Hso Hex. unfold write_tokens. pose proof (upsert_tokens_spec rows (bs_tokens s)) as Hu. destruct (foldl upsert_token _ _) as [m seeds].
  destruct Hu as [Hsize Hrow]. intros [= <- <-]. split; [|by rewrite size_map_imap_total].
  intros token r. rewrite map_lookup_imap. destruct (m !! token) as [r0|] eqn:Em; [|done]. cbn [mbind option_bind]. intros [= <-].
  rewrite all_totals_app, tok_plus. cbn [fst splus prod_semi]. set (r1 := if decide (token ∈ seeds) then _ else _).
  assert (te_transfers r1 = token_rows token s + (tok token (all_totals ds)).1) as Hr1.
  { unfold r1. case_decide as Hs.
    - exact (f_equal fst (token_counted_all ds s token Hso)).
    - destruct (Hrow token r0 Em) as [?|(r2 & H2 & [Hk _])]; [done|]. by rewrite Hk, (Hex token r2 H2). }
  unfold tok at 2. destruct (st_tokens (all_totals es) !! token) as [[n x]|] eqn:Ed; cbn [default from_option id].
  - unfold apply_delta. cbn. rewrite Hr1. unfold splus; cbn. lia.
  - rewrite Hr1. cbn. lia.
Qed.
Lemma lower_tokens (seen : gmap gostring (Z * gostring)) (m : gmap gostring token_rec) token r : lowerTokenCreation seen m !! token = Some r → ∃ r0, m !! token = Some r0 ∧ te_transfers r = te_transfers r0.
Proof.
  unfold lowerTokenCreation. rewrite map_lookup_imap. destruct (m !! token) as [r0|]; [|done]. cbn [mbind option_bind]. intros [= <-]. exists r0. split; [done|].
  destruct (seen !! token) as [[n tx]|]; [|done]. by destruct (n <? te_block r0).
Qed.

(** ** The database is a sum *)

Lemma upsert_stats_plus (ds : gmap gostring AddressStatsDelta) (m : gmap gostring address_rec) : upsert_stats ds m = m ⊕ (new_address <$> ds).
Proof.
  apply map_eq. intros a. unfold upsert_stats. rewrite lookup_plus, lookup_fmap, lookup_merge. by destruct (m !! a) as [x|], (ds !! a) as [d|].
Qed.
Lemma add_days_plus b s : (add_days b s).1.1 = bs_days s ⊕ bb_days b.
Proof.
  apply map_eq. intros day. unfold add_days. cbn [fst]. rewrite lookup_plus, lookup_merge. by destruct (bs_days s !! day), (bb_days b !! day).
Qed.

Definition sized (active : gmap Z (gset gostring)) : gmap Z Z := (λ a, Z.of_nat (size a)) <$> active.
Lemma add_days_sized b s : bs_activeN s = sized (bs_active s) → (add_days b s).2 = sized (bs_active s ⊕ bb_active b).
Proof.
  intros E. apply map_eq. intros day. unfold add_days, sized. cbn [snd]. rewrite lookup_fmap, lookup_plus, lookup_merge, map_lookup_imap, E.
  unfold sized. rewrite lookup_fmap. destruct (bs_active s !! day) as [a|], (bb_active b !! day) as [f|]; cbn [mbind option_bind fmap option_fmap option_map diag_None default from_option id]; try done.
  - f_equal. pose proof (size_union_alt a f) as Hu. change (a ⊕ f) with (a ∪ f). lia.
  - f_equal. replace (f ∖ ∅) with f by set_solver. lia.
Qed.

Record counted (s0 s : bstore) (ds : list BlockData) : Prop := {
  ct_through : bs_through s = zlen ds - 1; ct_target : bs_target s = target; ct_bound : zlen ds ≤ target + 1;
  ct_numbered : numbered 0 ds; ct_countable : Forall countable ds;
  ct_spans : spans_ok (zlen ds) (all_spans ds) (bs_ledger s) (bs_stage s) (bs_spanLo s);
  ct_days : bs_days s = days_sum None ds;
  ct_active : bs_active s = tsum (active_map <$> ds) ∧ bs_activeN s = sized (bs_active s);
  ct_last : bs_lastTs s = last_ts None ds;
  ct_stats : bs_stats s = bs_stats s0 ⊕ tsum (rec_map <$> ds);
  ct_counters : blocks_total (bs_counters s) = blocks_total (bs_counters s0) + st_blocks (all_totals ds) ∧
    transactions_total (bs_counters s) = transactions_total (bs_counters s0) + st_txs (all_totals ds) ∧
    transfers_total (bs_counters s) = transfers_total (bs_counters s0) + st_transfers (all_totals ds) ∧
    tokens_total (bs_counters s) - Z.of_nat (size (bs_tokens s)) = tokens_total (bs_counters s0) - Z.of_nat (size (bs_tokens s0)) ∧
    addresses_total (bs_counters s) - Z.of_nat (size (bs_stats s)) = addresses_total (bs_counters s0) - Z.of_nat (size (bs_stats s0));
  ct_retained : bs_retained s = bs_retained s0;
  ct_tokens : tokens_exact s ds }.

Lemma commit_counted s0 s ds es b p : counted s0 s ds → numbered (zlen ds) es → es ≠ [] → zlen ds + zlen es ≤ target + 1 →
  batch_of (bs_lastTs s) (zlen ds) (zlen ds + zlen es) es b p → ∃ s', CommitBackfillBatch b s = Ok s' ∧ counted s0 s' (ds ++ es).
Proof.
  intros [T1 T2 T3 T4 T5 T6 T7 [T8 T8'] T9 T10 (N1 & N2 & N3 & N4 & N5) T11 T12] Hes Hne Htop [[B0 B1] B2 B3 B4 B5 B6 B7 B8 B9 B10].
  destruct (close_all ds es b (bs_ledger s) (bs_stage s) (bs_spanLo s) T4 Hes Hne Htop T6 B2 B1 B3) as (l' & s' & o' & Ec & Hso').
  pose proof (zlen_nonneg ds). assert (0 < zlen es) by (destruct es; [done|]; rewrite zlen_cons; pose proof (zlen_nonneg es); lia).
  assert (tsum (map_to_list (bb_spans b)).*2 = all_totals es) as Hall by (rewrite <-vsum_all; unfold vsum, all_spans; by rewrite B2).
  unfold CommitBackfillBatch. rewrite T1, T2, B0, B1, !i64_small by lia. replace (zlen ds - 1 + 1) with (zlen ds) by lia. rewrite Z.eqb_refl. cbn [negb orb].
  destruct (Z.ltb_spec target (zlen ds + zlen es - 1)); [lia|]. rewrite Hall.
  destruct (write_tokens _ _ s) as [tokens created] eqn:Ew. destruct (write_tokens_ok ds es _ s tokens created T6 T12 Ew) as [Htok Hsize].
  rewrite Ec. cbn [res_bind]. pose proof (add_days_plus b s) as Hd. pose proof (add_days_sized b s T8') as Hn.
  assert ((add_days b s).1.2 = bs_active s ⊕ bb_active b) as Ha by done. destruct (add_days b s) as [[days active] activeN]. cbn [fst snd] in Hd, Hn, Ha. subst days active activeN.
  eexists. split; [done|]. split; cbn [bs_through bs_target bs_ledger bs_stage bs_spanLo bs_days bs_active bs_activeN bs_lastTs bs_stats bs_counters bs_retained bs_tokens].
  - rewrite zlen_app. lia.
  - done.
  - rewrite zlen_app. lia.
  - apply numbered_app; [done|]. by rewrite Z.add_0_l.
  - by apply Forall_app.
  - done.
  - by rewrite days_sum_app, T7, B4, T9.
  - split; [|done]. by rewrite fmap_app, tsum_app, T8, B5.
  - rewrite (B9 Hne), T9. unfold last_ts. rewrite last_app. destruct (last es) eqn:El; [done|]. by apply last_None in El.
  - by rewrite upsert_stats_plus, T10, B6, fmap_app, tsum_app, splus_assoc.
  - rewrite all_totals_app. unfold bump_counters. cbn [blocks_total transactions_total transfers_total tokens_total addresses_total].
    change (st_blocks (?x ⊕ ?y)) with (st_blocks x + st_blocks y). change (st_txs (?x ⊕ ?y)) with (st_txs x + st_txs y).
    change (st_transfers (?x ⊕ ?y)) with (st_transfers x + st_transfers y).
    assert (size (lowerTokenCreation (sh_firstSeen (bb_shared b)) tokens) = size tokens) as -> by apply size_map_imap_total.
    split_and!; lia.
  - done.
  - intros token r (r0 & Hr0 & ->)%lower_tokens. by rewrite (Htok token r0 Hr0).
Qed.

(** ** A span's total is the sum of its blocks *)

Definition blocks_in (lo hi : Z) (ds : list BlockData) : list BlockData := take (Z.to_nat (hi - lo)) (drop (Z.to_nat lo) ds).

Lemma all_spans_lookup ds lo : numbered 0 ds → lo mod SpanBlocks cfg = 0 → 0 ≤ lo < zlen ds →
  all_spans ds !! lo = Some (tsum (totals_of <$> blocks_in lo (lo + SpanBlocks cfg) ds)).
Proof.
  intros Hn Hlo Hr. induction ds as [|d ds IH] using rev_ind; [unfold zlen in Hr; cbn in Hr; lia|]. rewrite zlen_app in Hr. change (zlen [d]) with 1 in Hr.
  assert (numbered 0 ds) as Hds by (intros i e Hi; apply Hn; by apply lookup_app_l_Some).
  assert (block_no d = zlen ds) as Eno. { apply ok_block_no. specialize (Hn (length ds) d). rewrite Z.add_0_l in Hn. apply Hn. by apply list_lookup_middle. }
  rewrite all_spans_app. unfold all_spans at 2. cbn [fmap list_fmap]. rewrite tsum_singleton. unfold span_map. rewrite Eno, lookup_plus.
  assert (drop (Z.to_nat lo) (ds ++ [d]) = drop (Z.to_nat lo) ds ++ [d]) as Ed by (apply drop_app_le; unfold zlen in Hr; lia).
  assert (length (drop (Z.to_nat lo) ds) = Z.to_nat (zlen ds - lo)) as El by (rewrite length_drop; unfold zlen; lia).
  unfold blocks_in in *. rewrite Ed. destruct (decide (zlen ds < lo + SpanBlocks cfg)) as [Hin|Hout].
  - rewrite (span_lo_unique (zlen ds) lo Hlo ltac:(lia)), lookup_singleton_eq. rewrite take_ge by (rewrite length_app, El; cbn; lia).
    rewrite fmap_app, tsum_app. cbn [fmap list_fmap]. rewrite tsum_singleton. destruct (decide (lo = zlen ds)) as [->|Hne].
    + destruct (all_spans ds !! zlen ds) as [t|] eqn:Ea.
      * exfalso. destruct (all_spans_key 0 ds (zlen ds) Hds ltac:(by eexists)) as (m & Hm & Em). destruct (span_lo_range m ltac:(lia)). lia.
      * rewrite drop_ge by (unfold zlen; lia). f_equal. exact (eq_sym (tzero_l _)).
    + rewrite (IH Hds ltac:(lia)). rewrite take_ge by (rewrite El; lia). done.
  - rewrite lookup_singleton_ne.
    + rewrite (IH Hds ltac:(lia)), take_app_le by (rewrite El; lia). done.
    + intros E. destruct (span_lo_range (zlen ds) (zlen_nonneg ds)) as (? & ? & _). lia.
Qed.

(** The ledger of the backfill, span by span. *)
Lemma ledger_spans ds ledger stage open lo hi t : numbered 0 ds → zlen ds ≤ target + 1 → spans_ok (zlen ds) (all_spans ds) ledger stage open →
  ledger !! lo = Some (hi, t) ↔ lo mod SpanBlocks cfg = 0 ∧ 0 ≤ lo < hi ∧ hi = Z.min (lo + SpanBlocks cfg) (target + 1) ∧ hi ≤ zlen ds ∧
    t = tsum (totals_of <$> blocks_in lo hi ds).
Proof.
  intros Hn Hb [S1 _ _]. rewrite S1. cbn [fst snd]. fold (span_hi lo).
  assert (∀ lo, 0 ≤ lo → span_hi lo ≤ zlen ds → blocks_in lo (lo + SpanBlocks cfg) ds = blocks_in lo (span_hi lo) ds) as Hcut.
  { intros l Hl Hle. unfold blocks_in, span_hi in *. assert (length (drop (Z.to_nat l) ds) = (length ds - Z.to_nat l)%nat) as El by apply length_drop.
    destruct (Z.min_spec (l + SpanBlocks cfg) (target + 1)) as [[? E]|[? E]]; rewrite E in *; [done|]. unfold zlen in *. rewrite !take_ge; [done|rewrite El; lia..]. }
  split.
  - intros (Ha & -> & Hle). destruct (all_spans_key 0 ds lo Hn ltac:(by eexists)) as (n & Hr & <-). destruct (span_lo_range n ltac:(lia)) as (? & ? & Hm).
    pose proof (span_hi_above n ltac:(lia)). split_and!; try done; try lia. rewrite (all_spans_lookup ds _ Hn Hm ltac:(lia)) in Ha.
    rewrite <-(Hcut (span_lo n)) by lia. congruence.
  - intros (Hm & Hr & -> & Hle & ->). split_and!; try done. rewrite (all_spans_lookup ds lo Hn Hm ltac:(lia)), Hcut by lia. done.
Qed.

(** ** Any number of steps and restarts *)

Section System.
Context `{Keccak} (bc : build_config).
Hypothesis Hbatch : 1 ≤ BatchBlocks cfg < 2 ^ 62.

Definition sys_ok (s0 : bstore) (st : backfiller * bstore) : Prop :=
  mem_ok bc st.1 ∧ ∃ bs, builds bc 0 bs ∧ counted s0 st.2 (built_data <$> bs).

Lemma builds_numbered from bs : 0 ≤ from → builds bc from bs → numbered from (built_data <$> bs).
Proof.
  intros Hf Hb i d. rewrite list_lookup_fmap. destruct (bs !! i) as [b|] eqn:E; [|done]. intros [= <-]. eapply is_build_ok; [lia|]. by apply Hb.
Qed.

Lemma complete_counted s0 s ds : counted s0 s ds → counted s0 (set_complete s) ds.
Proof. by intros []. Qed.

(** One batch, from what the progress says. *)
Lemma next_batch s0 s bs nd m m' r : node_ok nd → mem_ok bc m → builds bc 0 bs → counted s0 s (built_data <$> bs) → bs_through s ≠ target →
  let from := u64 (bs_through s + 1) in let to := Z.min (from +₆₄ BatchBlocks cfg) (u64 (bs_target s) +₆₄ 1) in
  batch cfg bc nd from to (u64 (bs_target s)) (bs_lastTs s) m = (m', r) →
  mem_ok bc m' ∧ ∀ b disc, r = Ok (b, disc) → ∃ s' cs, CommitBackfillBatch b s = Ok s' ∧ builds bc 0 (bs ++ cs) ∧
    counted s0 s' (built_data <$> bs ++ cs) ∧ zlen cs = to - from ∧ 0 < zlen cs.
Proof.
  intros Hnd Hm Hbs Hc Hne. pose proof Hc as [T1 T2 T3 _ _ _ _ _ _ _ _ _ _]. unfold zlen in T1, T3. rewrite length_fmap in T1, T3. fold (zlen bs) in T1, T3.
  pose proof (zlen_nonneg bs). assert (u64 (bs_through s + 1) = zlen bs) as -> by (rewrite u64_small; [|unfold is_u64]; lia).
  assert (u64 (bs_target s) = target) as -> by (rewrite u64_small; [|unfold is_u64]; lia). cbv zeta. rewrite !u64_small by (unfold is_u64; lia).
  intros E. set (to := Z.min _ _) in *. assert (zlen bs < to ≤ target + 1) by lia.
  destruct (batch_ok bc nd (zlen bs) to (bs_lastTs s) m m' r Hnd Hm ltac:(lia) ltac:(lia) E) as [Hm' Hr]. split; [done|].
  intros b disc Er. destruct (Hr b disc Er) as (cs & p & El & Hcs & Hb).
  assert (zlen (built_data <$> cs) = zlen cs) as Ecs by (unfold zlen; by rewrite length_fmap).
  assert (zlen (built_data <$> bs) = zlen bs) as Ebs by (unfold zlen; by rewrite length_fmap).
  destruct (commit_counted s0 s (built_data <$> bs) (built_data <$> cs) b p Hc) as (s' & E' & Hc').
  - rewrite Ebs. apply builds_numbered; [lia|done].
  - intros E0%fmap_nil_inv. subst cs. unfold zlen in El at 1. cbn in El. lia.
  - lia.
  - rewrite Ebs, Ecs, El. by replace (zlen bs + (to - zlen bs)) with to by lia.
  - exists s', cs. split_and!; [done| |by rewrite fmap_app|done|lia].
    intros i x [Hx|[Hi Hx]]%lookup_app_Some; [by apply Hbs|]. specialize (Hcs _ _ Hx). unfold zlen in Hcs.
    by replace (Z.of_nat (length bs) + Z.of_nat (i - length bs)) with (0 + Z.of_nat i) in Hcs by lia.
Qed.

Lemma step_ok s0 nd ends caught_up st : node_ok nd → sys_ok s0 st → sys_ok s0 (step cfg bc nd ends caught_up st).1.
Proof.
  intros Hnd [Hm (bs & Hbs & Hc)]. destruct st as [m s]. cbn [fst snd] in *. unfold step. destruct (bs_complete s); [split; [done|by exists bs]|].
  pose proof (ct_target _ _ _ Hc) as Et. destruct (Z.eqb_spec (bs_through s) (bs_target s)) as [|Hne].
  { destruct caught_up; (split; [done|]); exists bs; (split; [done|]); [by apply complete_counted|done]. }
  destruct (batch _ _ _ _ _ _ _ m) as [m' r] eqn:E. rewrite Et in Hne.
  destruct (next_batch s0 s bs nd m m' r Hnd Hm Hbs Hc Hne E) as [Hm' Hr]. destruct r as [[b disc]|e]; [|split; [done|by exists bs]].
  destruct (Hr b disc eq_refl) as (s' & cs & Ecm & Hb' & Hc' & _).
  destruct ends; rewrite ?Ecm; cbn [fst snd]; (split; [done|]); cbn [fst snd]; first [by exists (bs ++ cs)|by exists bs].
Qed.
Lemma run_ok s0 st events : Forall (λ e, match e with EStep nd _ _ => node_ok nd | ERestart _ => True end) events → sys_ok s0 st →
  sys_ok s0 (foldl (run_event cfg bc) st events).
Proof.
  intros Hall. revert st. induction Hall as [|e events He Hall IH]; intros st Hs; cbn [foldl]; [done|]. apply IH. destruct e as [nd ends cu|cs]; cbn [run_event].
  - by apply step_ok.
  - destruct Hs as [_ Hs]. by split.
Qed.

Lemma init_counted tokens nfts contracts stats counters retained :
  (∀ token r, tokens !! token = Some r → te_transfers r = zlen (filter (λ t, tr_token t = token) retained)) →
  counted (InitStatsBackfill target tokens nfts contracts stats counters retained) (InitStatsBackfill target tokens nfts contracts stats counters retained) [].
Proof.
  intros Ht. split; try done.
  - change (zlen []) with 0. lia.
  - split; cbn.
    + intros lo x. rewrite lookup_empty. split; [done|]. by intros [[=] _].
    + intros lo t. rewrite lookup_empty. split; [done|]. by intros [[=] _].
    + intros lo. rewrite lookup_empty. split; [done|]. by intros [? ?].
  - symmetry. exact (plus_empty_r _).
  - cbn. split_and!; lia.
  - intros token r Hr. rewrite (Ht token r Hr). change (tok token (all_totals [])) with (0, 0). unfold token_rows. cbn [fst bs_retained InitStatsBackfill]. lia.
Qed.
End System.
End Spans.
