(* ===== verification/BackfillRun.v ===== *)
(** * Runs of the stats backfill

    After any steps, failures and restarts the database holds the sums of the blocks
    it says it has counted; a node that answers brings the walk to its target. *)

From S2P Require Import Prelude GoStrings EthCommon CallTrace BalanceWorker BuildBlock BlockWrite Tally Ledger StatsBackfill BackfillProps.

(** ** A built block can be counted *)

Lemma add_transfers_Ok (trs : list transfer_row) (m : gmap gostring TokenTotals) : Forall (λ t, is_Some (SetString 10 (tr_value t))) trs → ∃ t, add_transfers trs m = Ok t.
Proof.
  intros Hall. revert m. induction Hall as [|t trs [v Hv] _ IH]; intros m; cbn [add_transfers]; [by eexists|].
  destruct (default (0, 0) (m !! ToLower (tr_token t))) as [n supply]. rewrite Hv. destruct (decide (tr_type t = TokenTypeERC20)); apply IH.
Qed.
Lemma build_countable `{Keccak} c nd cs raw rs : countable (built_data (buildBlock c nd cs raw rs)).
Proof.
  apply add_transfers_Ok. pose proof (sh_values _ _ (built_shaped c nd cs raw rs)) as Hv. unfold built_state in Hv. unfold buildBlock.
  destruct (fetch_internal c nd (receiptTxHashes c raw)). exact Hv.
Qed.

(** ** Completion *)

Definition done_right (s : bstore) : Prop := bs_complete s = true → bs_through s = bs_target s.

Lemma commit_complete b s s' : CommitBackfillBatch b s = Ok s' → bs_complete s' = bs_complete s.
Proof.
  unfold CommitBackfillBatch. destruct (_ || _); [done|]. destruct (write_tokens _ _ s). destruct (close_spans _ _ _ _ _) as [[[l st] o]|]; [|done].
  cbn [res_bind]. destruct (add_days b s) as [[? ?] ?]. by intros [= <-].
Qed.
Lemma step_done_right `{Keccak} cfg bc nd ends caught_up st : done_right st.2 → done_right (step cfg bc nd ends caught_up st).1.2.
Proof.
  destruct st as [m s]. cbn [snd]. intros Hd. unfold step. destruct (bs_complete s) eqn:Ec; [done|].
  destruct (Z.eqb_spec (bs_through s) (bs_target s)) as [E|_]; [by destruct caught_up; cbn [fst snd]; [intros _; cbn|]|].
  destruct (batch _ _ _ _ _ _ _ m) as [m' [[b disc]|e]]; [|done].
  destruct ends; try done; destruct (CommitBackfillBatch b s) as [s'|] eqn:E; try done; cbn [fst snd]; intros E'; by rewrite (commit_complete b s s' E), Ec in E'.
Qed.
Lemma run_done_right `{Keccak} cfg bc st events : done_right st.2 → done_right (foldl (run_event cfg bc) st events).2.
Proof.
  revert st. induction events as [|e events IH]; intros st Hd; cbn [foldl]; [done|]. apply IH. destruct e; cbn [run_event snd]; [by apply step_done_right|done].
Qed.

(** ** Every block once *)

Definition event_ok (e : event) : Prop := match e with EStep nd _ _ => node_ok nd | ERestart _ => True end.

(** What the database holds of the blocks [0 .. through]. *)
Record holds (cfg : StatsBackfillConfig) (s0 s : bstore) (ds : list BlockData) : Prop := {
  hd_ledger : ∀ lo hi t, bs_ledger s !! lo = Some (hi, t) ↔
    lo mod SpanBlocks cfg = 0 ∧ 0 ≤ lo < hi ∧ hi = Z.min (lo + SpanBlocks cfg) (bs_target s + 1) ∧ hi ≤ bs_through s + 1 ∧
    t = tsum (totals_of <$> blocks_in lo hi ds);
  hd_days : bs_days s = days_sum None ds;
  hd_active : bs_active s = tsum (active_map <$> ds) ∧ bs_activeN s = sized (bs_active s);
  hd_stats : bs_stats s = bs_stats s0 ⊕ tsum (rec_map <$> ds);
  hd_counters : blocks_total (bs_counters s) = blocks_total (bs_counters s0) + zlen ds ∧
    transactions_total (bs_counters s) = transactions_total (bs_counters s0) + st_txs (tsum (totals_of <$> ds)) ∧
    transfers_total (bs_counters s) = transfers_total (bs_counters s0) + st_transfers (tsum (totals_of <$> ds)) ∧
    tokens_total (bs_counters s) - Z.of_nat (size (bs_tokens s)) = tokens_total (bs_counters s0) - Z.of_nat (size (bs_tokens s0)) ∧
    addresses_total (bs_counters s) - Z.of_nat (size (bs_stats s)) = addresses_total (bs_counters s0) - Z.of_nat (size (bs_stats s0));
  hd_tokens : ∀ token r, bs_tokens s !! token = Some r →
    te_transfers r = zlen (filter (λ t, tr_token t = token) (bs_retained s0)) + (tok token (tsum (totals_of <$> ds))).1 }.

Lemma tsum_blocks (ds : list BlockData) : Forall (λ d, countable d ∧ is_Some (bd_block d)) ds → st_blocks (tsum (totals_of <$> ds)) = zlen ds.
Proof.
  induction 1 as [|d ds [Hc [r Hr]] _ IH]; [done|]. rewrite fmap_cons, zlen_cons. change (tsum (?x :: ?l)) with (x ⊕ tsum l).
  change (st_blocks (?x ⊕ ?y)) with (st_blocks x + st_blocks y). rewrite IH, (totals_blocks d Hc), Hr. lia.
Qed.

(** C35: no block below START_BLOCK is counted twice or skipped. *)
Theorem backfill_counts_once `{Keccak} cfg bc target tokens nfts contracts stats counters retained cs events :
  1 ≤ SpanBlocks cfg < 2 ^ 62 → 1 ≤ BatchBlocks cfg < 2 ^ 62 → 0 ≤ target < 2 ^ 62 →
  (∀ token r, tokens !! token = Some r → te_transfers r = zlen (filter (λ t, tr_token t = token) retained)) →
  Forall event_ok events →
  let s0 := InitStatsBackfill target tokens nfts contracts stats counters retained in
  let s := (foldl (run_event cfg bc) (mkBackfiller (0, 0) None cs, s0) events).2 in
  bs_target s = target ∧ bs_through s ≤ target ∧ (bs_complete s = true → bs_through s = target) ∧
  ∃ bs, zlen bs = bs_through s + 1 ∧ builds bc 0 bs ∧ holds cfg s0 s (built_data <$> bs).
Proof.
  intros Hs Hb Ht Hex Hev s0 s.
  destruct (run_ok cfg target Hs Ht bc Hb s0 (mkBackfiller (0, 0) None cs, s0) events Hev) as [_ (bs & Hbs & Hc)].
  { split; [done|]. exists []. split; [done|]. by apply init_counted. }
  fold s in Hc. pose proof (run_done_right cfg bc (mkBackfiller (0, 0) None cs, s0) events ltac:(done)) as Hd. fold s in Hd.
  pose proof Hc as [T1 T2 T3 T4 T5 T6 T7 T8 _ T10 T11 T12 T13].
  assert (zlen (built_data <$> bs) = zlen bs) as El by (unfold zlen; by rewrite length_fmap).
  split_and!; [done|lia|intros E; by rewrite (Hd E)|]. exists bs. split_and!; [lia|done|]. split; try done.
  - intros lo hi t. rewrite T2, T1. replace (zlen (built_data <$> bs) - 1 + 1) with (zlen (built_data <$> bs)) by lia.
    eapply ledger_spans; done.
  - destruct T11 as (E & T11). split; [|exact T11]. rewrite E. f_equal. apply tsum_blocks, Forall_lookup_2. intros i d Hi. split.
    + by eapply Forall_lookup_1.
    + destruct (ob_row _ _ (T4 i d Hi)) as (r & -> & _). by eexists.
  - intros token r Hr. rewrite <-T12. by apply T13.
Qed.

(** ** A node that answers *)

Section Progress.
Context `{Keccak} (cfg : StatsBackfillConfig) (bc : build_config) (nd : bnode).

(** The node has the block, its receipts, and every trace and code its strict build
    asks for. *)
Definition serves (n : Z) : Prop := ∃ raw rs, bn_raw nd n = Some raw ∧ NumberU64 raw = n ∧
  bn_receipts nd n (receiptTxHashes (strict_config bc) raw) = Some rs ∧
  ∀ cs, build_ok (buildBlock (strict_config bc) (bn_strict nd n) cs raw rs) = true.
Definition good (f : fetched) : Prop := ∀ cs, build_ok (buildBlock (strict_config bc) (bn_strict nd (NumberU64 f.1)) cs f.1 f.2) = true.

Lemma fetch_serves from k : (∀ i, (i < k)%nat → serves (from + Z.of_nat i)) →
  ∃ fs, mapM id (fetch_blocks bc nd from (replicate k None)) = Some fs ∧ Forall good fs.
Proof.
  intros Hs. assert (Forall (λ o, ∃ f, o = Some f ∧ good f) (fetch_blocks bc nd from (replicate k None))) as Hf.
  { apply Forall_lookup_2. intros i o. unfold fetch_blocks. rewrite list_lookup_imap. destruct (replicate k None !! i) eqn:E; [|done]. apply lookup_replicate in E as [-> Hi].
    cbn. intros [= <-]. destruct (Hs i Hi) as (raw & rs & E1 & En & E2 & Hb). unfold fetch_block. rewrite E1, E2. eexists. split; [done|]. intros cs. cbn. by rewrite En. }
  induction Hf as [|o l (f & -> & Hg) _ (fs & E & IH)]; [by exists []|]. exists (f :: fs). split; [by cbn; rewrite E|by constructor].
Qed.

Lemma addBlock_Ok x target acc : countable (built_data x) → ∃ acc', addBlock cfg x target acc = Ok acc'.
Proof.
  intros Hc. destruct acc as [[b p] disc]. unfold addBlock, add_span. destruct (spanOf cfg _ target). rewrite (AddBlock_plus _ _ Hc). cbn [res_bind]. by eexists.
Qed.
Lemma build_good fs target failing cs built acc : Forall good fs → ∃ cs' built' acc', build_blocks cfg bc nd fs [] target failing cs built acc = (failing, cs', built', Ok acc').
Proof.
  intros Hg. revert cs built acc. induction Hg as [|f fs Hf _ IH]; intros cs built acc; cbn [build_blocks]; [by do 3 eexists|].
  unfold build_one. rewrite Hf. set (x := buildBlock _ _ cs f.1 f.2).
  destruct (addBlock_Ok x target acc) as [acc' ->]; [apply build_countable|]. apply IH.
Qed.
Lemma batch_serves from to target prev m : k_retrying m = None → 0 ≤ from → (∀ n, from ≤ n < to → serves n) →
  ∃ m' b disc, batch cfg bc nd from to target prev m = (m', Ok (b, disc)) ∧ k_retrying m' = None.
Proof.
  intros Em Hf Hs. unfold batch, retry_of. rewrite Em. cbn [r_blocks r_built].
  destruct (fetch_serves from (Z.to_nat (to - from))) as (fs & -> & Hg); [intros i Hi; apply Hs; lia|].
  destruct (build_good fs target (k_failing m) (k_caches m) [] (empty_batch from to, prev, []) Hg) as (cs & built & [[b p] disc] & ->). by do 3 eexists.
Qed.

Context (target : Z).
Hypotheses (Hspan : 1 ≤ SpanBlocks cfg < 2 ^ 62) (Hbatch : 1 ≤ BatchBlocks cfg < 2 ^ 62) (Htarget : 0 ≤ target < 2 ^ 62).
Hypotheses (Hnd : node_ok nd) (Hserves : ∀ n, 0 ≤ n ≤ target → serves n).

Definition healthy (s0 : bstore) (st : backfiller * bstore) : Prop := sys_ok cfg target bc s0 st ∧ k_retrying st.1 = None ∧ done_right st.2.
Notation good_step := (λ st, run_event cfg bc st (EStep nd Committed true)).

Lemma good_step_through s0 st : healthy s0 st → healthy s0 (good_step st) ∧ bs_through (good_step st).2 = Z.min (bs_through st.2 + BatchBlocks cfg) target ∧
  (bs_through st.2 = target → bs_complete (good_step st).2 = true).
Proof.
  intros (Hok & Hr & Hd). destruct Hok as [Hm (bs & Hbs & Hc)]. pose proof (step_ok cfg target Hspan Htarget bc Hbatch s0 nd Committed true st Hnd (conj Hm (ex_intro _ bs (conj Hbs Hc)))) as Hok'.
  pose proof (step_done_right cfg bc nd Committed true st Hd) as Hd'. pose proof Hc as [T1 T2 T3 _ _ _ _ _ _ _ _ _ _]. pose proof (zlen_nonneg (built_data <$> bs)).
  cbn [run_event]. unfold healthy. destruct st as [m s]. cbn [fst snd] in *. revert Hok' Hd'. unfold step.
  destruct (bs_complete s) eqn:Ec; [intros Hok' Hd'; specialize (Hd Ec); cbn [fst snd]; refine (conj (conj Hok' (conj Hr Hd')) (conj _ (λ _, Ec))); lia|].
  destruct (Z.eqb_spec (bs_through s) (bs_target s)) as [E|Hne]; [intros Hok' Hd'; cbn [fst snd bs_through bs_complete set_complete]; refine (conj (conj Hok' (conj Hr Hd')) (conj _ (λ _, eq_refl))); lia|].
  destruct (batch_serves (u64 (bs_through s + 1)) (Z.min (u64 (bs_through s + 1) +₆₄ BatchBlocks cfg) (u64 (bs_target s) +₆₄ 1)) (u64 (bs_target s)) (bs_lastTs s) m Hr) as (m' & b & disc & Eb & Em').
  { apply u64_range. }
  { intros n. rewrite T2, (u64_small (bs_through s + 1)), (u64_small target), !u64_small by (unfold is_u64; lia). intros Hn. apply Hserves. lia. }
  destruct (next_batch cfg target Hspan Htarget bc Hbatch s0 s bs nd m m' _ Hnd Hm Hbs Hc ltac:(lia) Eb) as [_ Hn].
  destruct (Hn b disc eq_refl) as (s' & cs & Es & _ & Hc' & Hl & _). rewrite Eb, Es. cbn [fst snd k_retrying]. intros Hok' Hd'.
  refine (conj (conj Hok' (conj Em' Hd')) (conj _ _)); [|lia].
  rewrite (ct_through _ _ _ _ _ Hc'), fmap_app, zlen_app. unfold zlen at 2. rewrite length_fmap. fold (zlen cs). rewrite Hl, T2, (u64_small (bs_through s + 1)), (u64_small target), !u64_small by (unfold is_u64; lia). lia.
Qed.

Lemma good_steps_through s0 st k : healthy s0 st → let st' := Nat.iter k good_step st in
  healthy s0 st' ∧ Z.min target (bs_through st.2 + Z.of_nat k * BatchBlocks cfg) ≤ bs_through st'.2.
Proof.
  intros Hh. cbv zeta. induction k as [|k [IH1 IH2]]; [split; [done|]; cbn; lia|]. rewrite Nat.iter_succ.
  destruct (good_step_through s0 _ IH1) as (? & -> & _). split; [done|]. lia.
Qed.
End Progress.

(** the backfill ends. Whatever failed before, after a restart a node that has
    every block, with its receipts, traces and code, brings the walk to its target
    and marks it complete in one step per batch and one more. *)
Theorem backfill_completes `{Keccak} cfg bc target tokens nfts contracts stats counters retained cs events cs' nd k :
  1 ≤ SpanBlocks cfg < 2 ^ 62 → 1 ≤ BatchBlocks cfg < 2 ^ 62 → 0 ≤ target < 2 ^ 62 →
  (∀ token r, tokens !! token = Some r → te_transfers r = zlen (filter (λ t, tr_token t = token) retained)) →
  Forall event_ok events → node_ok nd → (∀ n, 0 ≤ n ≤ target → serves bc nd n) → target + 1 ≤ Z.of_nat k * BatchBlocks cfg →
  let st := foldl (run_event cfg bc) (mkBackfiller (0, 0) None cs, InitStatsBackfill target tokens nfts contracts stats counters retained) events in
  let st' := Nat.iter (S k) (λ st, run_event cfg bc st (EStep nd Committed true)) (run_event cfg bc st (ERestart cs')) in
  bs_complete st'.2 = true ∧ bs_through st'.2 = target.
Proof.
  intros Hs Hb Ht Hex Hev Hnd Hsv Hk st st'. set (s0 := InitStatsBackfill target tokens nfts contracts stats counters retained) in *.
  destruct (run_ok cfg target Hs Ht bc Hb s0 (mkBackfiller (0, 0) None cs, s0) events Hev) as [_ Hsys].
  { split; [done|]. exists []. split; [done|]. by apply init_counted. }
  pose proof (run_done_right cfg bc (mkBackfiller (0, 0) None cs, s0) events ltac:(done)) as Hd. fold st in Hsys, Hd.
  assert (healthy cfg bc target s0 (run_event cfg bc st (ERestart cs'))) as Hh by by split_and!.
  assert (-1 ≤ bs_through st.2) by (destruct Hsys as (bs & _ & Hc); rewrite (ct_through _ _ _ _ _ Hc); pose proof (zlen_nonneg (built_data <$> bs)); lia).
  destruct (good_steps_through cfg bc nd target Hs Hb Ht Hnd Hsv s0 _ k Hh) as [Hh' Hle]. cbn [run_event snd] in Hle.
  destruct (good_step_through cfg bc nd target Hs Hb Ht Hnd Hsv s0 _ Hh') as (_ & Et & Hc). unfold st'. rewrite Nat.iter_succ.
  assert (bs_through (Nat.iter k (λ st, run_event cfg bc st (EStep nd Committed true)) (run_event cfg bc st (ERestart cs'))).2 = target) as Ek.
  { destruct Hh' as [[_ (bs & _ & Hcs)] _]. pose proof (ct_bound _ _ _ _ _ Hcs). pose proof (ct_through _ _ _ _ _ Hcs) as Ethr. cbn [run_event] in *. lia. }
  split; [by apply Hc|]. rewrite Et, Ek. lia.
Qed.

(** ** A walk of four blocks *)

Definition walk_block (n : Z) : RawBlock :=
  mkRawBlock (Some n) (sample_hash (100 + n)) (sample_hash (99 + n)) (1000 * n) 21000 0 None (sample_addr 5) None None 500 [] [] (sample_hash 0)
    (sample_hash 0) (sample_hash 0) [mkRawTx (sample_hash n) (sample_addr 1) (Some (sample_addr 2)) None 21000 None [] None 2 None None].
Definition walk_node : bnode :=
  mkBnode (λ n, if (0 <=? n) && (n <? 100) then Some (walk_block n) else None)
    (λ n _, Some {[ sample_hash n := mkReceipt 1 21000 (sample_addr 0) [transfer_log 0 0 2 5] ]}) (λ _, quiet_node) (λ _, quiet_node).
Definition down_node : bnode := mkBnode (λ _, None) (λ _ _, None) (λ _, quiet_node) (λ _, quiet_node).
Definition walk_config : StatsBackfillConfig := mkBackfillConfig 2 3 5.
Definition walk_events : list event :=
  [EStep down_node Committed true; EStep walk_node CommitFailed true; EStep walk_node AnswerLost true; ERestart (mkCaches ∅ ∅)].

Lemma walk_node_ok : node_ok walk_node.
Proof.
  intros n raw. unfold walk_node, bn_raw. destruct (Z.leb_spec 0 n), (Z.ltb_spec n 100); try done. intros [= <-]. split.
  - unfold NumberU64, big_Uint64. cbn. rewrite u64_small; [|unfold is_u64]; lia.
  - cbn. apply NoDup_singleton.
Qed.
Lemma walk_events_ok : Forall event_ok walk_events.
Proof. apply Forall_cons_2; [by intros ? ?|]. do 2 (apply Forall_cons_2; [apply walk_node_ok|]). apply Forall_cons_2; [done|apply Forall_nil_2]. Qed.

Local Instance toy : Keccak := toy_keccak.
Lemma backfill_counts_once_witness :
  let s0 := InitStatsBackfill 3 ∅ ∅ ∅ ∅ (mkCounters 10 0 0 0 0) [] in
  let s := (foldl (run_event walk_config live_config) (mkBackfiller (0, 0) None (mkCaches ∅ ∅), s0) (walk_events ++ [EStep walk_node Committed true])).2 in
  bs_through s = 3 ∧ blocks_total (bs_counters s) = 14 ∧ ∃ bs, zlen bs = 4 ∧ builds live_config 0 bs ∧ holds walk_config s0 s (built_data <$> bs).
Proof.
  intros s0 s. assert (bs_through s = 3) as E3 by (vm_compute; reflexivity).
  destruct (backfill_counts_once walk_config live_config 3 ∅ ∅ ∅ ∅ (mkCounters 10 0 0 0 0) [] (mkCaches ∅ ∅) (walk_events ++ [EStep walk_node Committed true]))
    as (_ & _ & _ & bs & El & Hb & Hh); [cbn [SpanBlocks walk_config]; lia|cbn [BatchBlocks walk_config]; lia|lia|by intros ? ?|apply Forall_app; split; [apply walk_events_ok|apply Forall_singleton, walk_node_ok]|].
  fold s0 s in El, Hh. split; [done|]. split; [vm_compute; reflexivity|]. exists bs. rewrite E3 in El. exact (conj El (conj Hb Hh)).
Defined.

Lemma backfill_completes_witness :
  let st := foldl (run_event walk_config live_config) (mkBackfiller (0, 0) None (mkCaches ∅ ∅), InitStatsBackfill 3 ∅ ∅ ∅ ∅ (mkCounters 0 0 0 0 0) []) walk_events in
  bs_through st.2 = 1 ∧
  bs_complete (Nat.iter 3 (λ st, run_event walk_config live_config st (EStep walk_node Committed true)) (run_event walk_config live_config st (ERestart (mkCaches ∅ ∅)))).2 = true.
Proof.
  intros st. split; [vm_compute; reflexivity|].
  apply (backfill_completes walk_config live_config 3 ∅ ∅ ∅ ∅ (mkCounters 0 0 0 0 0) [] (mkCaches ∅ ∅) walk_events (mkCaches ∅ ∅) walk_node 2);
    [cbn [SpanBlocks walk_config]; lia|cbn [BatchBlocks walk_config]; lia|lia|by intros ? ?|apply walk_events_ok|apply walk_node_ok| |cbn [BatchBlocks walk_config]; lia].
  intros n Hn. assert (n = 0 ∨ n = 1 ∨ n = 2 ∨ n = 3) as Hc by lia.
  destruct Hc as [-> | [-> | [-> | ->]]]; eexists _, _; (split; [reflexivity|]); (split; [reflexivity|]); (split; [reflexivity|]); intros cs; vm_compute; reflexivity.
Defined.
