(* ===== verification/BackfillStart.v ===== *)
(** * Before and after the walk: preparing the stats backfill, reading its balances

    [PrepareStatsBackfill], [ReconcileForStart], [historicalTraces] and
    [readBalances] of [internal/indexer/stats_backfill.go], with the queries of
    [internal/db/backfill.go] they make. Addresses are lower-case hex of one length,
    whose text order is their byte order. *)

From S2P Require Import Prelude GoStrings EthCommon Balances CallTrace BuildBlock StatsBackfill.

Definition PruneFloorGap : Z := 12800.

(** ** Preparing *)

(** What the start asks the node; an error is its message. *)
Record start_node := mkStartNode {
  sn_head : res gostring Z; sn_block : Z → res gostring RawBlock; sn_oldTracer : bool; sn_strictTracer : bool;
  sn_traceOld : Z → option gostring; sn_traceStrict : list gostring → Z → option gostring }.

(** The row of stats_backfill (target, through, complete), the stored blocks,
    prune_state. *)
Record start_db := mkStartDb { sd_backfill : option (Z * Z * bool); sd_blocks : gset Z; sd_pruned : Z * Z }.

Inductive start_err := NodeSays (msg : gostring) | NotFinal | DayNotFinal | NoOldTraces (msg : gostring) | BlocksStored | DbFailed.

Section Start.
Context (node : start_node).

Definition tracesOldBlock (block : Z) : option gostring :=
  match sn_block node block with
  | Err msg => Some msg
  | Ok raw =>
      if negb (sn_strictTracer node) || bool_decide (rb_txs raw = []) then sn_traceOld node block
      else sn_traceStrict node (rt_hash <$> rb_txs raw) block
  end.

Definition historicalTraces (startBlock : Z) : res start_err unit :=
  if negb (sn_oldTracer node) || (startBlock <? 2) then Ok tt
  else match tracesOldBlock 1 with
       | None => Ok tt
       | Some msg => if TracingAbsent msg then Ok tt else Err (NoOldTraces msg)
       end.

Definition init_backfill (target ts : Z) (s : start_db) : start_db * res start_err unit :=
  if bool_decide (set_Exists (λ n, n ≤ i64 target) (sd_blocks s)) then (s, Err BlocksStored)
  else match sd_backfill s with
       | Some _ => (s, Err DbFailed)
       | None => (mkStartDb (Some (i64 target, -1, false)) (sd_blocks s) (i64 target, i64 ts), Ok tt)
       end.

Definition read (block : Z) : res start_err RawBlock := match sn_block node block with Ok r => Ok r | Err msg => Err (NodeSays msg) end.

(** The checks of a first start, in order: the target and its timestamp. *)
Definition first_start (startBlock : Z) (traces : bool) : res start_err (Z * Z) :=
  try head := match sn_head node with Ok h => Ok h | Err msg => Err (NodeSays msg) end in
  if head <? startBlock +₆₄ PruneFloorGap then Err NotFinal
  else
    try first := read startBlock in
    try floor := read (head -₆₄ PruneFloorGap) in
    if negb (blockDay (rb_timestamp first) <? blockDay (rb_timestamp floor)) then Err DayNotFinal
    else
      try _ := (if traces then historicalTraces startBlock else Ok tt) in
      try prev := read (startBlock -₆₄ 1) in
      Ok (startBlock -₆₄ 1, rb_timestamp prev).

Definition PrepareStatsBackfill (startBlock : Z) (traces db_answers : bool) (s : start_db) : start_db * res start_err unit :=
  if startBlock =? 0 then (s, Ok tt)
  else if negb db_answers then (s, Err DbFailed)
  else match sd_backfill s with
       | Some (target, through, complete) =>
           (s, if traces && negb complete && (through <? target) then historicalTraces startBlock else Ok tt)
       | None =>
           match first_start startBlock traces with
           | Err e => (s, Err e)
           | Ok (target, ts) => init_backfill target ts s
           end
       end.

(** [reconcile]: what the re-derivation of the counters does, and whether it ends. *)
Definition ReconcileForStart (reconcile : start_db → start_db * bool) (startBlock : Z) (backfill traces db_answers : bool) (s : start_db) : start_db * res start_err unit :=
  match reconcile s with
  | (s, false) => (s, Err DbFailed)
  | (s, true) => if backfill then PrepareStatsBackfill startBlock traces db_answers s else (s, Ok tt)
  end.
End Start.

(** ** Reading the balances *)

Inductive call_answer := CallFailed | Reverted | Returned (out : gostring).
#[export] Instance call_answer_eq_dec : EqDecision call_answer.
Proof. solve_decision. Defined.

(** The keys not read yet with their newest block, and what a read writes. *)
Record reads := mkReads { rd_after : option (gostring * gostring); rd_keys : gmap (gostring * gostring) Z; rd_tables : Balances.tables }.

Definition key_le (a b : gostring * gostring) : Prop := ¬ Balances.key_lt b a.
#[export] Instance key_lt_dec a b : Decision (Balances.key_lt a b).
Proof. unfold Balances.key_lt. apply _. Defined.
#[export] Instance key_le_dec : RelDecision key_le.
Proof. intros a b. unfold key_le. apply _. Defined.

Definition NextBackfillBalanceKeys (after : option (gostring * gostring)) (n : nat) (keys : gmap (gostring * gostring) Z) : list (gostring * gostring) :=
  take n (filter (λ k, Balances.key_lt (default ([], []) after) k) (merge_sort key_le (map_to_list keys).*1)).

(** The balances are stored first, then the keys dropped: how that ends. *)
Inductive settle_end := SettleDone | NotInserted | NotDeleted.
Definition SettleBackfillBalances (settled : list (gostring * gostring)) (balances : list Balances.Balance) (ends : settle_end) (r : reads) : reads :=
  match ends with
  | NotInserted => r
  | NotDeleted => mkReads (rd_after r) (rd_keys r) (InsertCurrentBalances balances (rd_tables r))
  | SettleDone => mkReads (rd_after r) (filter (λ kn, kn.1 ∉ settled) (rd_keys r)) (InsertCurrentBalances balances (rd_tables r))
  end.

Definition read_row (answer : gostring * gostring → call_answer) (keys : gmap (gostring * gostring) Z) (k : gostring * gostring) : option Balances.Balance :=
  match answer k with
  | Returned out => if zlen out <? 32 then None else Some (Balances.mkBalance k.2 k.1 (default 0 (keys !! k)) (be_Z (take 32 out)) 0)
  | _ => None
  end.

(** The keys of the next pass; past the last one it starts over. *)
Definition next_keys (n : nat) (r : reads) : option (gostring * gostring) * list (gostring * gostring) :=
  match NextBackfillBalanceKeys (rd_after r) n (rd_keys r), rd_after r with
  | [], Some _ => (None, NextBackfillBalanceKeys None n (rd_keys r))
  | keys, after => (after, keys)
  end.

(** One pass: how many keys it took, unless it failed. *)
Definition readBalances (n : nat) (answer : gostring * gostring → call_answer) (ends : settle_end) (r : reads) : reads * option Z :=
  let '(after, keys) := next_keys n r in
  match last keys with
  | None => (mkReads after (rd_keys r) (rd_tables r), Some 0)
  | Some k =>
      let r := mkReads (Some k) (rd_keys r) (rd_tables r) in
      let settled := filter (λ k, answer k ≠ CallFailed) keys in
      (SettleBackfillBalances settled (omap (read_row answer (rd_keys r)) keys) ends r,
       match ends with SettleDone => if decide (settled = keys) then Some (zlen keys) else None | _ => None end)
  end.

(** ** The range is final *)

(** a backfill that starts covers final blocks only. When the start's checks
    pass, the database is told to count exactly the blocks below START_BLOCK, none of
    which it stores, and every block of START_BLOCK's day or before is below the
    node's reorg floor. *)
Theorem prepare_range_final node startBlock traces db_answers s s' (chain : Z → Z) head :
  0 < startBlock < 2 ^ 63 → sn_head node = Ok head → 0 ≤ head < 2 ^ 63 →
  (∀ n raw, sn_block node n = Ok raw → i64 (rb_timestamp raw) = chain n) → (∀ m n, 0 ≤ m ≤ n → n ≤ head → chain m ≤ chain n) →
  sd_backfill s = None → PrepareStatsBackfill node startBlock traces db_answers s = (s', Ok tt) →
  sd_backfill s' = Some (startBlock - 1, -1, false) ∧ (sd_pruned s').1 = startBlock - 1 ∧ (∀ n, n ∈ sd_blocks s → startBlock ≤ n) ∧
  startBlock < head - PruneFloorGap ∧
  ∀ n, 0 ≤ n ≤ head → chain n / 86400 ≤ chain startBlock / 86400 → n < head - PruneFloorGap.
Proof.
  intros Hsb Eh Hh Hchain Hmono Es. unfold PrepareStatsBackfill. destruct (Z.eqb_spec startBlock 0) as [|_]; [lia|]. destruct db_answers; [|done]. cbn [negb].
  rewrite Es. unfold first_start. rewrite Eh. cbn [res_bind]. unfold PruneFloorGap in *. rewrite (u64_small (startBlock + 12800)) by (unfold is_u64; lia).
  destruct (Z.ltb_spec head (startBlock + 12800)) as [|Hge]; [done|]. rewrite !u64_small by (unfold is_u64; lia).
  unfold read. destruct (sn_block node startBlock) as [first|] eqn:E1; [|done]. cbn [res_bind].
  destruct (sn_block node (head - 12800)) as [floor|] eqn:E2; [|done]. cbn [res_bind].
  unfold blockDay. rewrite (Hchain _ _ E1), (Hchain _ _ E2). destruct (Z.ltb_spec (chain startBlock / 86400) (chain (head - 12800) / 86400)) as [Hday|]; [|done]. cbn [negb].
  destruct (if traces then _ else _) as [[]|]; [|done]. cbn [res_bind]. destruct (sn_block node (startBlock - 1)) as [prev|] eqn:E3; [|done]. cbn [res_bind].
  unfold init_backfill. case_bool_decide as Hb; [done|]. rewrite Es, i64_small in * by lia. intros [= <-]. cbn [sd_backfill sd_pruned fst].
  assert (∀ n, 0 ≤ n ≤ head → chain n / 86400 ≤ chain startBlock / 86400 → n < head - 12800) as Hfin.
  { intros n Hn Hd. destruct (Z.lt_ge_cases n (head - 12800)) as [|Hc]; [done|]. pose proof (Hmono (head - 12800) n ltac:(lia) ltac:(lia)) as Hm.
    pose proof (Z.div_le_mono _ _ 86400 ltac:(lia) Hm). lia. }
  split_and!; try done; [|apply Hfin; lia].
  intros n Hn. destruct (Z.le_gt_cases startBlock n) as [|Hlt]; [done|]. exfalso. apply Hb. exists n. split; [done|lia].
Qed.

(** ** Every key has its turn *)

Lemma key_lt_total a b : ¬ key_lt a b → ¬ key_lt b a → a = b.
Proof.
  destruct a as [t a], b as [t' b]. unfold key_lt. cbn. intros H1 H2.
  assert (t = t') as -> by (apply str_lt_total; [destruct (str_lt t t')|destruct (str_lt t' t)]; naive_solver). f_equal.
  apply str_lt_total; [destruct (str_lt a b)|destruct (str_lt b a)]; naive_solver.
Qed.
#[export] Instance key_le_trans : Transitive key_le.
Proof.
  intros a b c Hab Hbc Hca. unfold key_le in *. destruct (decide (key_lt a b)) as [H|H]; [by apply Hbc, (key_lt_trans c a b)|].
  assert (a = b) as -> by (apply key_lt_total; [exact H|exact Hab]). done.
Qed.
#[export] Instance key_le_total : Total key_le.
Proof. intros a b. destruct (decide (key_lt b a)) as [H|H]; [right|by left]. intros H'. by apply (key_lt_irrefl a), (key_lt_trans a b a). Qed.

Notation after_key a := (default ([], []) a).
Notation open_keys r := (dom (rd_keys r)).

Lemma sorted_after (a : option (gostring * gostring)) (keys : gmap (gostring * gostring) Z) :
  StronglySorted key_le (filter (λ k, key_lt (after_key a) k) (merge_sort key_le (map_to_list keys).*1)).
Proof. apply StronglySorted_filter, StronglySorted_merge_sort; apply _. Qed.
Lemma elem_of_sorted_after (a : option (gostring * gostring)) (keys : gmap (gostring * gostring) Z) (k : gostring * gostring) :
  k ∈ filter (λ k, key_lt (after_key a) k) (merge_sort key_le (map_to_list keys).*1) ↔ key_lt (after_key a) k ∧ k ∈ dom keys.
Proof.
  rewrite list_elem_of_filter, (merge_sort_Permutation key_le), list_elem_of_fmap, elem_of_dom. f_equiv. split.
  - intros ([k' n] & -> & Hk%elem_of_map_to_list). by eexists.
  - intros [n Hn]. exists (k, n). split; [done|]. by apply elem_of_map_to_list.
Qed.

(** The keys a pass takes: open ones past the one before; those it leaves out are further on. *)
Lemma next_batch_keys a n keys last_k : last (NextBackfillBalanceKeys a n keys) = Some last_k →
  key_lt (after_key a) last_k ∧ last_k ∈ dom keys ∧
  ∀ k, k ∈ dom keys → key_lt (after_key a) k → k ∉ NextBackfillBalanceKeys a n keys → key_lt last_k k.
Proof.
  unfold NextBackfillBalanceKeys. intros Hl. pose proof (last_Some_elem_of _ _ Hl) as Hin. pose proof (sorted_after a keys) as Hs.
  set (l := filter _ _) in *. assert (last_k ∈ l) as Hll by (rewrite <-(take_drop n l); apply elem_of_app; by left).
  apply elem_of_sorted_after in Hll as [H1 H2]. split_and!; [done|done|]. intros k Hk Hak Hnot.
  assert (k ∈ drop n l) as Hd.
  { assert (k ∈ l) as Hkl by by apply elem_of_sorted_after. rewrite <-(take_drop n l) in Hkl. apply elem_of_app in Hkl as [?|?]; [done|done]. }
  rewrite <-(take_drop n l) in Hs. pose proof (StronglySorted_app_1_elem_of _ _ _ _ _ Hs Hin Hd) as Hle.
  destruct (decide (key_lt last_k k)) as [|Hn]; [done|]. assert (last_k = k) as E by (by apply key_lt_total). by subst.
Qed.
Lemma next_batch_none a n keys : (1 ≤ n)%nat → NextBackfillBalanceKeys a n keys = [] → ∀ k, k ∈ dom keys → ¬ key_lt (after_key a) k.
Proof.
  intros Hn E k Hk Hlt. unfold NextBackfillBalanceKeys in E. assert (k ∈ filter (λ k, key_lt (after_key a) k) (merge_sort key_le (map_to_list keys).*1)) as Hin
    by by apply elem_of_sorted_after. destruct (filter _ _) as [|x l]; [by apply not_elem_of_nil in Hin|]. destruct n; [lia|done].
Qed.

Section Fair.
Context (n : nat) (Hn : (1 ≤ n)%nat) (k : gostring * gostring) (Hk : k ≠ ([], [])).

Definition steps_left (r : reads) : nat :=
  let a := after_key (rd_after r) in
  if decide (key_lt a k) then size (filter (λ x, key_lt a x ∧ key_lt x k) (open_keys r))
  else size (open_keys r) + size (filter (λ x, key_lt a x) (open_keys r)).

Lemma nil_first : key_lt ([], []) k.
Proof. destruct k as [[|x t] [|y a]]; [done|right|left|left]; done. Qed.

(** What one pass leaves. *)
Lemma pass_leaves answer ends r : let r' := (readBalances n answer ends r).1 in
  open_keys r' ⊆ open_keys r ∧ (k ∈ open_keys r → k ∉ (next_keys n r).2 → k ∈ open_keys r') ∧
  rd_after r' = match last (next_keys n r).2 with Some x => Some x | None => (next_keys n r).1 end.
Proof.
  unfold readBalances. destruct (next_keys n r) as [after keys]. cbn [fst snd]. destruct (last keys) as [x|]; cbn; [|done].
  destruct ends; cbn; try done. split_and!; [|intros [m Hm]%elem_of_dom Hno|done].
  - intros y [m Hm]%elem_of_dom. apply map_lookup_filter_Some in Hm as [Hm _]. apply elem_of_dom. by eexists.
  - apply elem_of_dom. exists m. apply map_lookup_filter_Some. split; [done|]. cbn. rewrite list_elem_of_filter. by intros [_ ?].
Qed.

Lemma size_filter_lt (P Q : gostring * gostring → Prop) `{!∀ x, Decision (P x), !∀ x, Decision (Q x)} (X Y : gset (gostring * gostring)) x :
  X ⊆ Y → (∀ y, P y → Q y) → x ∈ Y → Q x → ¬ P x → (size (filter P X) < size (filter Q Y))%nat.
Proof. intros HXY HPQ Hx HQ HP. apply subset_size. split; [set_solver|]. intros Hs. specialize (Hs x). rewrite !elem_of_filter in Hs. naive_solver. Qed.

Lemma pass_nearer answer ends r : k ∈ open_keys r → k ∉ (next_keys n r).2 → (steps_left (readBalances n answer ends r).1 < steps_left r)%nat.
Proof.
  intros Hin Hno. destruct (pass_leaves answer ends r) as (Hsub & _ & Ea). unfold steps_left. rewrite Ea. revert Hno. clear Ea.
  assert (∀ a x, last (NextBackfillBalanceKeys a n (rd_keys r)) = Some x → key_lt (after_key a) k → k ∉ NextBackfillBalanceKeys a n (rd_keys r) →
    key_lt x k ∧ (size (filter (λ y, key_lt x y ∧ key_lt y k) (open_keys (readBalances n answer ends r).1)) <
      size (filter (λ y, key_lt (after_key a) y ∧ key_lt y k) (open_keys r)))%nat) as Hahead.
  { intros a x Hx Hak Hno. destruct (next_batch_keys a n (rd_keys r) x Hx) as (H1 & H2 & H3). specialize (H3 k Hin Hak Hno). split; [done|].
    eapply (size_filter_lt _ _ _ _ x Hsub); [|done|done|intros [H _]; by apply key_lt_irrefl in H]. intros y [? ?]. split; [by eapply key_lt_trans|done]. }
  unfold next_keys. destruct (NextBackfillBalanceKeys (rd_after r) n (rd_keys r)) as [|y l] eqn:E.
  - pose proof (next_batch_none (rd_after r) n (rd_keys r) Hn E k Hin) as Hnk. destruct (rd_after r) as [a|] eqn:Ea; [|by destruct Hnk; apply nil_first].
    cbn [fst snd]. intros Hno. destruct (last (NextBackfillBalanceKeys None n (rd_keys r))) as [x|] eqn:El.
    + destruct (Hahead None x El nil_first Hno) as [Hxk Hlt]. rewrite (decide_True (P := key_lt x k)) by done. rewrite (decide_False (P := key_lt (after_key (Some a)) k)) by done.
      cbn [default from_option id]. eapply Nat.lt_le_trans; [exact Hlt|]. etrans; [apply (subseteq_size _ (open_keys r)); set_solver|lia].
    + apply last_None in El. by destruct (next_batch_none None n (rd_keys r) Hn El k Hin nil_first).
  - cbn [fst snd]. rewrite <-E. intros Hno. destruct (last (NextBackfillBalanceKeys (rd_after r) n (rd_keys r))) as [x|] eqn:El; [|apply last_None in El; by rewrite E in El].
    cbn [default from_option id]. destruct (decide (key_lt (after_key (rd_after r)) k)) as [Hak|Hak].
    + destruct (Hahead _ x El Hak Hno) as [Hxk Hlt]. by rewrite decide_True by done.
    + destruct (next_batch_keys _ n (rd_keys r) x El) as (H1 & H2 & _). rewrite decide_False by (intros Hc; apply Hak; by eapply key_lt_trans).
      apply Nat.add_le_lt_mono; [by apply subseteq_size|]. eapply (size_filter_lt _ _ _ _ x Hsub); [|done|done|apply key_lt_irrefl].
      intros z. by apply key_lt_trans.
Qed.
End Fair.

(** [passes]: what the node answers and how the settling ends, pass by pass. *)
Definition read_passes (n : nat) (passes : list ((gostring * gostring → call_answer) * settle_end)) (r : reads) : reads :=
  foldl (λ r p, (readBalances n p.1 p.2 r).1) r passes.

(** no balance the walk touched waits forever. Whatever the node answers and
    however the settling of each pass ends, a key that is to be read is taken within
    twice as many passes as there are keys. *)
Theorem balance_reads_fair n k passes r : (1 ≤ n)%nat → k ≠ ([], []) → k ∈ dom (rd_keys r) → (2 * size (rd_keys r) ≤ length passes)%nat →
  ∃ i, (i < length passes)%nat ∧ k ∈ (next_keys n (read_passes n (take i passes) r)).2.
Proof.
  intros Hn Hk. assert (∀ r, k ∈ dom (rd_keys r) → (steps_left k r < 2 * size (rd_keys r))%nat) as Hb.
  { intros r0 Hin. rewrite <-(size_dom (rd_keys r0)). unfold steps_left. set (a := default _ _).
    assert (size (filter (λ x, key_lt a x ∧ key_lt x k) (dom (rd_keys r0))) < size (dom (rd_keys r0)))%nat.
    { apply subset_size. split; [set_solver|]. intros Hs. specialize (Hs k Hin). apply elem_of_filter in Hs as [[_ Hc] _]. by apply key_lt_irrefl in Hc. }
    case_decide as Hak; [lia|]. assert (size (filter (λ x, key_lt a x) (dom (rd_keys r0))) < size (dom (rd_keys r0)))%nat; [|lia].
    apply subset_size. split; [set_solver|]. intros Hs. specialize (Hs k Hin). by apply elem_of_filter in Hs as [Hc _]. }
  intros Hin Hlen. assert (steps_left k r < length passes)%nat as Hl by (specialize (Hb r Hin); lia). clear Hlen Hb. revert r Hin Hl.
  induction passes as [|[answer ends] passes IH]; intros r Hin Hl; [cbn in Hl; lia|].
  destruct (decide (k ∈ (next_keys n r).2)) as [Ht|Hno]; [exists 0%nat; split; [cbn; lia|done]|].
  pose proof (pass_nearer n Hn k Hk answer ends r Hin Hno) as Hlt. destruct (pass_leaves n k answer ends r) as (_ & Hstay & _).
  destruct (IH (readBalances n answer ends r).1) as (i & Hi & Ht); [by apply Hstay|cbn in Hl; lia|].
  exists (S i). split; [cbn; lia|]. exact Ht.
Qed.

(** ** Instances *)

Definition day_block (n : Z) : RawBlock :=
  mkRawBlock (Some n) [] [] (10 * n) 0 0 None [] None None 0 [] [] [] [] [] [].
Definition start_chain : start_node := mkStartNode (Ok 40000) (λ n, if (0 <=? n) && (n <=? 40000) then Ok (day_block n) else Err $"no block") true true (λ _, None) (λ _ _, None).

Lemma prepare_range_final_witness :
  PrepareStatsBackfill start_chain 9000 true true (mkStartDb None {[ 9000 ]} (-1, 0)) = (mkStartDb (Some (8999, -1, false)) {[ 9000 ]} (8999, 89990), Ok tt) ∧
  ∀ n, 0 ≤ n ≤ 40000 → 10 * n / 86400 ≤ 10 * 9000 / 86400 → n < 27200.
Proof.
  assert (PrepareStatsBackfill start_chain 9000 true true (mkStartDb None {[ 9000 ]} (-1, 0)) =
    (mkStartDb (Some (8999, -1, false)) {[ 9000 ]} (8999, 89990), Ok tt)) as E by (vm_compute; reflexivity).
  split; [exact E|]. apply (prepare_range_final start_chain 9000 true true (mkStartDb None {[ 9000 ]} (-1, 0)) _ (λ n, 10 * n) 40000) with (7 := E); try done; try lia.
  intros n raw. unfold start_chain, sn_block. destruct (Z.leb_spec 0 n), (Z.leb_spec n 40000); try done. intros [= <-]. cbn. apply i64_small. lia.
Defined.

Lemma balance_reads_fair_witness :
  let a := ($"0xa1", $"0x01") in let b := ($"0xa1", $"0x02") in
  let r := mkReads (Some b) {[ a := 5; b := 6 ]} no_tables in
  ∃ i, (i < 4)%nat ∧ a ∈ (next_keys 1 (read_passes 1 (take i (replicate 4 (λ _, CallFailed, SettleDone))) r)).2.
Proof.
  intros a b r. apply (balance_reads_fair 1 a (replicate 4 (λ _, CallFailed, SettleDone)) r); [lia|done| |].
  - apply elem_of_dom. exists 5. vm_compute. reflexivity.
  - vm_compute. lia.
Defined.
