(* ===== verification/Session.v ===== *)
(** * Calls made of statements

    A call of the program is a sequence of statements on a state it shares: a query, a
    transaction, a critical section under a mutex. Others run between any two of them;
    a statement is done, fails, or is done with its answer lost. *)

From S2P Require Import Prelude.

Inductive stmt_end := Done | Failed | Unheard.

Section Session.
Context {S : Type}.

(** A call counts its statements and answers, or fails. *)
Definition M (A : Type) : Type := nat → S → nat * S * option A.
Definition ret {A} (a : A) : M A := λ k y, (k, y, Some a).
Definition fail {A} : M A := λ k y, (k, y, None).
Definition bind {A B} (m : M A) (f : A → M B) : M B :=
  λ k y, match m k y with (k, y, Some a) => f a k y | (k, y, None) => (k, y, None) end.
(** On an error the clean-up runs and the error stays. *)
Definition on_error {A} (m : M A) (clean : M unit) : M A :=
  λ k y, match m k y with (k, y, Some a) => (k, y, Some a) | (k, y, None) => match clean k y with (k, y, _) => (k, y, None) end end.

(** The error as a value: the caller goes on. *)
Definition caught {A} (m : M A) : M (option A) := λ k y, let '(k, y, r) := m k y in (k, y, Some r).

(** What others do before each statement, and how each ends. *)
Context (env : nat → S → S) (out : nat → stmt_end).
Definition stmt {A} (f : S → S * option A) : M A :=
  λ k y, let y := env k y in
    match out k with
    | Failed => (Datatypes.S k, y, None)
    | Unheard => (Datatypes.S k, (f y).1, None)
    | Done => let '(y, r) := f y in (Datatypes.S k, y, r)
    end.
(** An operation on the process' memory does not fail. *)
Definition mem {A} (f : S → S * A) : M A := λ k y, let '(y, a) := f (env k y) in (Datatypes.S k, y, Some a).

(** ** What a call guarantees *)

Context (step : S → S → Prop).
(** An assertion no step of the others breaks. *)
Definition stable (P : S → Prop) : Prop := ∀ y y', step y y' → P y → P y'.
Hypothesis Henv : ∀ k y, rtc step y (env k y).

Lemma env_stable P k y : stable P → P y → P (env k y).
Proof. intros HP Hy. specialize (Henv k y). induction Henv as [|y z u Hz _ IH]; [done|]. apply IH, (HP y); done. Qed.
Lemma stable_conj P Q : stable P → stable Q → stable (λ y, P y ∧ Q y).
Proof. intros HP HQ y y' Hs [? ?]. split; [by apply (HP y)|by apply (HQ y)]. Qed.

(** From [P], [m] answers with [Q] or fails with [E]. *)
Definition spec {A} (P : S → Prop) (m : M A) (Q : A → S → Prop) (E : S → Prop) : Prop :=
  ∀ k y, P y → match m k y with (_, y', Some a) => Q a y' | (_, y', None) => E y' end.

Lemma spec_ret {A} (P : S → Prop) (a : A) Q E : (∀ y, P y → Q a y) → spec P (ret a) Q E.
Proof. intros H k y Hy. by apply H. Qed.
Lemma spec_fail {A} (P : S → Prop) Q E : (∀ y, P y → E y) → spec P (fail (A := A)) Q E.
Proof. intros H k y Hy. by apply H. Qed.
Lemma spec_bind {A B} P (m : M A) (f : A → M B) R Q E : spec P m R E → (∀ a, spec (R a) (f a) Q E) → spec P (bind m f) Q E.
Proof. intros Hm Hf k y Hy. unfold bind. specialize (Hm k y Hy). destruct (m k y) as [[k' y'] [a|]]; [by apply Hf|done]. Qed.
Lemma spec_on_error {A} P (m : M A) clean Q E E' : spec P m Q E' → spec E' clean (λ _, E) E → spec P (on_error m clean) Q E.
Proof. intros Hm Hc k y Hy. unfold on_error. specialize (Hm k y Hy). destruct (m k y) as [[k' y'] [a|]]; [done|]. specialize (Hc k' y' Hm). by destruct (clean k' y') as [[? ?] [?|]]. Qed.
Lemma spec_caught {A} P (m : M A) Q E E' : spec P m Q E → spec P (caught m) (λ r y, match r with Some a => Q a y | None => E y end) E'.
Proof. intros Hm k y Hy. unfold caught. specialize (Hm k y Hy). by destruct (m k y) as [[k' y'] [a|]]. Qed.
Lemma spec_stmt {A} P (f : S → S * option A) Q E : stable P → (∀ y, P y → E y ∧ E (f y).1 ∧ ∀ a, (f y).2 = Some a → Q a (f y).1) → spec P (stmt f) Q E.
Proof.
  intros HP Hf k y Hy. unfold stmt. destruct (Hf (env k y)) as (H1 & H2 & H3); [by apply env_stable|]. destruct (out k); [|done|done].
  destruct (f (env k y)) as [y' [a|]]; [by apply H3|done].
Qed.
Lemma spec_mem {A} P (f : S → S * A) Q E : stable P → (∀ y, P y → Q (f y).2 (f y).1) → spec P (mem f) Q E.
Proof. intros HP Hf k y Hy. unfold mem. specialize (Hf (env k y)). destruct (f (env k y)) as [y' a]. apply Hf. by apply env_stable. Qed.
Lemma spec_pre {A} (P P' : S → Prop) (m : M A) Q E : (∀ y, P y → P' y) → spec P' m Q E → spec P m Q E.
Proof. intros H Hm k y Hy. by apply Hm, H. Qed.
Lemma spec_post {A} P (m : M A) (Q Q' : A → S → Prop) E : (∀ a y, Q a y → Q' a y) → spec P m Q E → spec P m Q' E.
Proof. intros H Hm k y Hy. specialize (Hm k y Hy). destruct (m k y) as [[k' y'] [a|]]; [by apply H|done]. Qed.
End Session.
Arguments M : clear implicits.
