(* ===== verification/CacheReconcile.v ===== *)
(** * The balance cache at the start

    [reconcileTokenBalancesCurrent] of [internal/db/db.go] and [ReseedHolderCounts] of
    [holder_count.go] ([holder_count_reseed.sql]): before ingest, the current balances take
    the newest history row of each key, and every holder count is counted again. A build
    without the incremental writer may have left either behind. *)

From S2P Require Import Prelude GoStrings Balances Session.

Definition history_keys (h : gmap (balanceKey * Z) Z) : gset balanceKey := set_map fst (dom h).
(** The upsert of the newest row: not over a newer one, and not over the same. *)
Definition take_latest (h : gmap (balanceKey * Z) Z) (c : gmap balanceKey (Z * Z)) (k : balanceKey) : gmap balanceKey (Z * Z) :=
  match latest_row h k with
  | None => c
  | Some row =>
      match c !! k with
      | None => <[k := row]> c
      | Some cached => if decide (cached.2 ≤ row.2 ∧ cached ≠ row) then <[k := row]> c else c
      end
  end.
Definition reconcileTokenBalancesCurrent (s : tables) : tables :=
  mkTables (history s) (foldl (take_latest (history s)) (current s) (elements (history_keys (history s))))
    (holder_count s) (rereads s) (reorg_epoch s) (history_from s).

(** The count is cast to a 32-bit integer: the statement fails past it. *)
Definition fits_int (z : Z) : bool := z <? 2 ^ 31.
Definition ReseedHolderCounts (s : tables) : tables * option unit :=
  if forallb (λ x : gostring * Z, fits_int (holders (current s) x.1)) (map_to_list (holder_count s))
  then (mkTables (history s) (current s) (map_imap (λ t n, let m := holders (current s) t in Some (if n =? m then n else m)) (holder_count s))
          (rereads s) (reorg_epoch s) (history_from s), Some tt)
  else (s, None).

(** The balance steps of [Reconcile]. *)
Definition reconcile_balances (out : nat → stmt_end) : M tables unit :=
  Session.bind (stmt (λ (_ : nat) (s : tables), s) out (λ s, (reconcileTokenBalancesCurrent s, Some tt))) (λ _,
  stmt (λ (_ : nat) (s : tables), s) out ReseedHolderCounts).

(** ** Properties *)

Definition newer_of (row cached : option (Z * Z)) : option (Z * Z) :=
  match row, cached with
  | Some r, Some c => Some (if c.2 <=? r.2 then r else c)
  | Some r, None => Some r
  | None, c => c
  end.
Lemma take_latest_at h c k k' : take_latest h c k !! k' = if decide (k = k') then newer_of (latest_row h k) (c !! k) else c !! k'.
Proof.
  unfold take_latest, newer_of. destruct (latest_row h k) as [row|]; [|case_decide; by subst].
  destruct (c !! k) as [cached|] eqn:E.
  - destruct (decide (k = k')) as [<-|Hne].
    + destruct (Z.leb_spec cached.2 row.2); destruct (decide (cached.2 ≤ row.2 ∧ cached ≠ row)) as [Hd|Hd]; rewrite ?lookup_insert_eq, ?E; try done; [|lia].
      f_equal. destruct (decide (cached = row)); [done|]. by destruct Hd.
    + destruct (decide _); [by rewrite lookup_insert_ne|done].
  - case_decide as Hk; [subst; by rewrite lookup_insert_eq|by rewrite lookup_insert_ne].
Qed.
Lemma newer_idem r c : newer_of r (newer_of r c) = newer_of r c.
Proof. destruct r as [r|], c as [c|]; cbn; [|by rewrite Z.leb_refl|done..]. destruct (Z.leb_spec c.2 r.2); [by rewrite Z.leb_refl|]. destruct (Z.leb_spec c.2 r.2); [lia|done]. Qed.
Lemma fold_latest (h : gmap (balanceKey * Z) Z) (keys : list balanceKey) (c : gmap balanceKey (Z * Z)) (k : balanceKey) : foldl (take_latest h) c keys !! k = if decide (k ∈ keys) then newer_of (latest_row h k) (c !! k) else c !! k.
Proof.
  revert c. induction keys as [|x keys IH]; intros c; cbn [foldl]; [by rewrite decide_False by apply not_elem_of_nil|].
  rewrite IH, take_latest_at. destruct (decide (x = k)) as [->|Hx].
  - rewrite (decide_True (P := k ∈ k :: keys)) by left. case_decide; [apply newer_idem|done].
  - destruct (decide (k ∈ keys)); [by rewrite decide_True by (by right)|]. rewrite decide_False; [done|]. by intros [?|?]%elem_of_cons.
Qed.

Lemma reconciled_at s k : current (reconcileTokenBalancesCurrent s) !! k = newer_of (latest_row (history s) k) (current s !! k).
Proof.
  unfold reconcileTokenBalancesCurrent. cbn [current]. rewrite fold_latest. case_decide as Hk; [done|]. rewrite elem_of_elements in Hk.
  pose proof (latest_row_spec (history s) k) as Hl. destruct (latest_row (history s) k) as [[v b]|]; [|done]. destruct Hl as [Hl _]. destruct Hk.
  unfold history_keys. apply elem_of_map. exists (k, b). split; [done|]. apply elem_of_dom. eauto.
Qed.
Lemma reconciled_fix s : (∀ k, newer_of (latest_row (history s) k) (current s !! k) = current s !! k) → reconcileTokenBalancesCurrent s = s.
Proof.
  intros Hn. assert (current (reconcileTokenBalancesCurrent s) = current s) as E by (apply map_eq; intros k; by rewrite reconciled_at).
  destruct s. unfold reconcileTokenBalancesCurrent in *. cbn in *. by rewrite E.
Qed.
Lemma ops_holders_exact (ops : list balance_op) s : Forall op_ok ops → holders_exact s → holders_exact (foldl run_op s ops).
Proof.
  intros Hops. revert s. induction Hops as [|[wh l|number hs] ops Ho _ IH]; intros s Hs; cbn [foldl run_op]; [done|by apply IH, flush_holders_exact|by apply IH, revert_holders_exact].
Qed.
Lemma reseed_holders s s' u : ReseedHolderCounts s = (s', Some u) → history s' = history s ∧ current s' = current s ∧ holders_exact s' ∧
  (∀ t, holder_count s' !! t = (λ _, holders (current s) t) <$> holder_count s !! t) ∧ ReseedHolderCounts s' = (s', Some tt).
Proof.
  unfold ReseedHolderCounts. destruct (forallb _ _) eqn:Ef; [|done]. intros [= <- _]. cbn [history current holder_count].
  assert (∀ t, map_imap (λ t n, let m := holders (current s) t in Some (if n =? m then n else m)) (holder_count s) !! t = (λ _, holders (current s) t) <$> holder_count s !! t) as Ht.
  { intros t. rewrite map_lookup_imap. destruct (holder_count s !! t) as [n|]; [|done]. cbn. destruct (Z.eqb_spec n (holders (current s) t)); congruence. }
  split; [done|]. split; [done|]. split; [|split; [done|]].
  - intros t n. cbn [holder_count]. rewrite Ht. destruct (holder_count s !! t); [|done]. by intros [= <-].
  - match goal with |- (if ?b then _ else _) = _ => assert (b = true) as -> end.
    { apply forallb_forall. intros [t n] Hin. apply list_elem_of_In, elem_of_map_to_list in Hin. cbn zeta in Ht. rewrite Ht in Hin. destruct (holder_count s !! t) as [n0|] eqn:En; [|done].
      rewrite forallb_forall in Ef. apply (Ef (t, n0)). by apply list_elem_of_In, elem_of_map_to_list. }
    f_equal. f_equal. apply map_eq. intros t. cbn zeta in *. rewrite map_lookup_imap, !Ht. destruct (holder_count s !! t); [|done]. cbn. by rewrite Z.eqb_refl.
Qed.

(** a start repairs the balances a build without the writer left behind. From any
    tables, a reconciliation that ends leaves the history, gives every key the newer of
    its newest history row and what was cached, and every token the number of its
    holders, which any sequence of flushes and reverts after it keeps exact; run again it
    changes nothing. One that fails leaves the history and no key older than it was. *)
Theorem restart_repairs_balances (out : nat → stmt_end) (s : tables) (ops : list balance_op) : Forall op_ok ops →
  match reconcile_balances out 0%nat s with
  | (_, s', Some _) => history s' = history s ∧ (∀ k, current s' !! k = newer_of (latest_row (history s) k) (current s !! k)) ∧
      holders_exact (foldl run_op s' ops) ∧ (reconcile_balances (λ _, Done) 0%nat s').1.2 = s'
  | (_, s', None) => history s' = history s ∧ ∀ k, current s' !! k = current s !! k ∨ current s' !! k = newer_of (latest_row (history s) k) (current s !! k)
  end.
Proof.
  intros Hops. assert (∀ k, current (reconcileTokenBalancesCurrent s) !! k = newer_of (latest_row (history s) k) (current s !! k)) as Hk by apply reconciled_at.
  unfold reconcile_balances, Session.bind, stmt. destruct (out 0%nat); [|by eauto|by eauto].
  destruct (ReseedHolderCounts (reconcileTokenBalancesCurrent s)) as [s' r] eqn:Er.
  assert (history s' = history s ∧ current s' = current (reconcileTokenBalancesCurrent s)) as [Hh Hcur].
  { revert Er. unfold ReseedHolderCounts. destruct (forallb _ _); by intros [= <- _]. }
  destruct (out 1%nat); [|by eauto|cbn [fst]; rewrite Hh, Hcur; by eauto]. destruct r as [[]|]; [|rewrite Hh, Hcur; by eauto].
  destruct (reseed_holders _ _ _ Er) as (_ & _ & Hex & _ & Hagain). split; [done|]. split; [intros k; by rewrite Hcur|]. split.
  - by apply ops_holders_exact.
  - cbn [fst snd]. rewrite (reconciled_fix s'), Hagain; [done|]. intros k. by rewrite Hh, Hcur, Hk, newer_idem.
Qed.

Definition a_key : balanceKey := ($"0xaa", $"0x01").
(** The history went on to block 5 without the cache. *)
Definition stale_cache : tables := mkTables {[ (a_key, 5) := 7; (a_key, 2) := 3 ]} {[ a_key := (3, 2) ]} {[ $"0xaa" := 9 ]} ∅ 0 0.
Lemma restart_repairs_balances_witness :
  let r := reconcile_balances (λ _, Done) 0%nat stale_cache in
  holders_exact (foldl run_op r.1.2 [Revert 5 []]) ∧ current r.1.2 !! a_key = Some (7, 5) ∧ holder_count r.1.2 !! ($"0xaa") = Some 1 ∧
  current (foldl run_op r.1.2 [Revert 5 []]) !! a_key = Some (3, 2).
Proof.
  intros r. split; [|subst r; vm_compute; done].
  pose proof (restart_repairs_balances (λ _, Done) stale_cache [Revert 5 []] (ltac:(by repeat constructor))) as T. subst r.
  assert ((reconcile_balances (λ _, Done) 0%nat stale_cache).2 = Some tt) as E by (vm_compute; reflexivity).
  destruct (reconcile_balances (λ _, Done) 0%nat stale_cache) as [[k s'] [u|]]; [|done]. exact (proj1 (proj2 (proj2 T))).
Defined.
