(* ===== verification/Reseed.v ===== *)
(** * The counters re-seeded at the start

    [reseedCounters] of [internal/db/db.go] with [prunedButAttached], [countRetained],
    [retainedTokenTotalsSQL] and the view [prune_offsets] (migration 028): the chain
    counters and the counters of the tokens set from the rows still stored, the closed
    spans below the prune watermark and what a stats backfill has staged of its span in
    progress, before ingest starts. A prune moves the watermark past whole
    partitions and detaches them later, one table after another; a start may find it
    anywhere in between. *)

From S2P Require Import Prelude GoStrings BuildBlock BlockWrite Session.
From stdpp Require Import strings.
Local Open Scope Z_scope.

Inductive rtable := RBlocks | RTransactions | RTransfers.

(** A partition of the history: the blocks of its rows of [blocks] and [transactions], its
    transfers, and the tables it is still attached to. *)
Record rpart := mkRPart { rp_hi : option Z; rp_blocks : list Z; rp_txs : list Z; rp_transfers : list transfer_row; rp_attached : rtable → bool }.
(** A closed span of the ledger: its end, its chain totals, its tokens. *)
Record rspan := mkRSpan { rs_hi : Z; rs_blocks : Z; rs_txs : Z; rs_transfers : Z; rs_tokens : gmap gostring (Z * Z) }.
(** [e_stage] is the stage tables' totals by the span's start, [e_open] the answer of
    [stats_backfill_open_span]. *)
Record reseed_db := mkReseed {
  e_parts : list rpart; e_from : Z; e_spans : list rspan; e_stage : list (Z * rspan); e_open : option Z; e_addresses : Z;
  e_tokens : gmap gostring token_rec; e_counters : chain_counters }.
Definition put_counters (c : chain_counters) (s : reseed_db) : reseed_db :=
  mkReseed (e_parts s) (e_from s) (e_spans s) (e_stage s) (e_open s) (e_addresses s) (e_tokens s) c.
Definition put_tokens (m : gmap gostring token_rec) (s : reseed_db) : reseed_db :=
  mkReseed (e_parts s) (e_from s) (e_spans s) (e_stage s) (e_open s) (e_addresses s) m (e_counters s).

(** ** What the statements read *)

Definition below (from : Z) (p : rpart) : bool := match rp_hi p with Some h => h <=? from | None => false end.
Definition in_parent (t : rtable) (parts : list rpart) : list rpart := filter (λ p, Is_true (rp_attached p t)) parts.
(** Past the watermark and not yet detached. *)
Definition prunedButAttached (s : reseed_db) (t : rtable) : list rpart :=
  filter (λ p, Is_true (below (e_from s) p)) (in_parent t (e_parts s)).

Definition rows_of (t : rtable) (p : rpart) : Z :=
  match t with RBlocks => zlen (rp_blocks p) | RTransactions => zlen (rp_txs p) | RTransfers => zlen (rp_transfers p) end.
Definition count_parent (t : rtable) (s : reseed_db) : Z := foldr (λ p n, rows_of t p + n) 0 (in_parent t (e_parts s)).

Definition pruned_spans (s : reseed_db) : list rspan := filter (λ x, rs_hi x ≤ e_from s) (e_spans s).
Definition open_stage (s : reseed_db) : list rspan := (filter (λ p : Z * rspan, Some p.1 = e_open s) (e_stage s)).*2.
(** The [UNION ALL] of the view. *)
Definition offset_rows (s : reseed_db) : list rspan := pruned_spans s ++ open_stage s.
Definition prune_offset (t : rtable) (s : reseed_db) : Z :=
  foldr (λ x n, match t with RBlocks => rs_blocks x | RTransactions => rs_txs x | RTransfers => rs_transfers x end + n) 0 (offset_rows s).

(** Counts and supplies by token. *)
Definition add_total (token : gostring) (d : Z * Z) (m : gmap gostring (Z * Z)) : gmap gostring (Z * Z) :=
  let '(n, v) := default (0, 0) (m !! token) in <[token := (n + d.1, v + d.2)]> m.
Definition add_rows (sign : Z) (l : list transfer_row) (m : gmap gostring (Z * Z)) : gmap gostring (Z * Z) :=
  foldr (λ r m, add_total (tr_token r) (sign, sign * transfer_supply r) m) m l.
Definition retainedTokenTotals (pruned : list rpart) (s : reseed_db) : gmap gostring (Z * Z) :=
  foldr (λ p m, add_rows (-1) (rp_transfers p) m) (add_rows 1 (mjoin (rp_transfers <$> in_parent RTransfers (e_parts s))) ∅) pruned.
Definition add_totals (a b : gmap gostring (Z * Z)) : gmap gostring (Z * Z) :=
  union_with (λ x y, Some (x.1 + y.1, x.2 + y.2)) a b.
Definition token_offsets (s : reseed_db) : gmap gostring (Z * Z) := foldr (λ x m, add_totals (rs_tokens x) m) ∅ (offset_rows s).

(** ** What they write *)

(** The update leaves the rows that are right. *)
Definition write_totals (byToken : gmap gostring (Z * Z)) (m : gmap gostring token_rec) : gmap gostring token_rec :=
  map_imap (λ token r, Some match byToken !! token with
    | Some (n, v) =>
        if decide (te_transfers r ≠ n ∨ te_type r = TokenTypeERC20 ∧ te_supply r ≠ Some v)
        then set_counts n (if decide (te_type r = TokenTypeERC20) then Some (clampSupply v) else te_supply r) r else r
    | None => r
    end) m.
(** [zeroTokenCountersSQL]. *)
Definition zero_tokens (s : reseed_db) : gmap gostring token_rec :=
  map_imap (λ token r, Some (
    if decide (te_transfers r ≠ 0 ∧ Forall (λ t, tr_token t ≠ token) (mjoin (rp_transfers <$> in_parent RTransfers (e_parts s))) ∧ token_offsets s !! token = None)
    then set_counts 0 (te_supply r) r else r)) (e_tokens s).

Section Reseed.
Context (out : nat → stmt_end).
Local Notation stmt := (stmt (λ (_ : nat) (s : reseed_db), s) out).
Local Notation "'do' x ← m ; k" := (Session.bind m (λ x, k)) (at level 200, x pattern, m at level 100, k at level 200).
Definition select {A} (f : reseed_db → A) : M reseed_db A := stmt (λ s, (s, Some (f s))).
Definition update (f : reseed_db → reseed_db) : M reseed_db unit := stmt (λ s, (f s, Some tt)).

Fixpoint subtract (t : rtable) (pruned : list rpart) (n : Z) : M reseed_db Z :=
  match pruned with
  | [] => Session.ret n
  | p :: pruned => do c ← select (λ _, rows_of t p); subtract t pruned (n - c)
  end.
Definition countRetained (t : rtable) (pruned : list rpart) : M reseed_db Z := do n ← select (count_parent t); subtract t pruned n.
Definition counted (t : rtable) (pruned : rtable → list rpart) : M reseed_db Z :=
  do n ← countRetained t (pruned t); do offset ← select (prune_offset t); Session.ret (n + offset).

Definition reseedChainCounters (pruned : rtable → list rpart) : M reseed_db unit :=
  do blocks ← counted RBlocks pruned;
  do txs ← counted RTransactions pruned;
  do transfers ← counted RTransfers pruned;
  do addresses ← select e_addresses;
  do tokens ← select (λ s, Z.of_nat (size (e_tokens s)));
  update (put_counters (mkCounters blocks txs tokens addresses transfers)).

Definition reseedTokenCounters (pruned : rtable → list rpart) : M reseed_db unit :=
  do retained ← select (retainedTokenTotals (pruned RTransfers));
  do offsets ← select token_offsets;
  update (λ s, put_tokens (write_totals (add_totals retained offsets) (e_tokens s)) s).

Definition reseedCounters : M reseed_db unit :=
  do pruned ← select prunedButAttached;
  do _ ← reseedChainCounters pruned;
  do _ ← reseedTokenCounters pruned;
  update (λ s, put_tokens (zero_tokens s) s).
End Reseed.
