(* ===== verification/ReseedProps.v ===== *)
(** * What the re-seed leaves

    Whatever the counters were and wherever a prune stopped, a re-seed that ends leaves
    every counter at the count of the whole chain, its pruned part taken from the ledger. *)

From S2P Require Import Prelude GoStrings BuildBlock BlockWrite Session Reseed.
From stdpp Require Import strings.
Local Open Scope Z_scope.

(** ** Sums over rows *)

Definition wsum {A} (g : A → Z) (l : list A) : Z := foldr (λ x n, g x + n) 0 l.
Lemma wsum_app {A} (g : A → Z) l k : wsum g (l ++ k) = wsum g l + wsum g k.
Proof. induction l as [|x l IH]; cbn; [done|]. unfold wsum in *. rewrite IH. lia. Qed.
Lemma wsum_perm {A} (g : A → Z) l k : l ≡ₚ k → wsum g l = wsum g k.
Proof. induction 1; cbn; unfold wsum in *; lia. Qed.
Lemma wsum_split {A} (g : A → Z) (P Q : A → Prop) `{∀ x, Decision (P x)} `{∀ x, Decision (Q x)} l :
  (∀ x, Q x ↔ ¬ P x) → wsum g l = wsum g (filter P l) + wsum g (filter Q l).
Proof.
  intros HQ. induction l as [|x l IH]; [done|]. rewrite !filter_cons. unfold wsum in *.
  destruct (decide (P x)) as [HP|HP], (decide (Q x)) as [HQ'|HQ']; cbn; [by apply HQ in HQ'|lia|lia|by destruct HQ'; apply HQ].
Qed.
Lemma wsum_one {A} (l : list A) : wsum (λ _, 1) l = zlen l.
Proof. unfold zlen. induction l as [|x l IH]; cbn; [done|]. unfold wsum in IH. lia. Qed.
Lemma wsum_token (g : transfer_row → Z) token l : wsum (λ r, if decide (tr_token r = token) then g r else 0) l = wsum g (filter (λ r, tr_token r = token) l).
Proof. induction l as [|x l IH]; [done|]. rewrite filter_cons. unfold wsum in *. cbn. destruct (decide (tr_token x = token)); cbn; lia. Qed.

(** ** The chain the database holds *)

Record chain_rows := mkChain { ch_blocks : list Z; ch_txs : list Z; ch_transfers : list transfer_row }.

(** The watermark lies between partitions; those above it are attached to every table. *)
Definition all_rows {A} (P : A → Prop) (l : list A) : Prop := ∀ x, x ∈ l → P x.
Definition placed (s : reseed_db) : Prop := ∀ p, p ∈ e_parts s →
  if below (e_from s) p
  then all_rows (λ b, b < e_from s) (rp_blocks p) ∧ all_rows (λ b, b < e_from s) (rp_txs p) ∧ all_rows (λ r, tr_block r < e_from s) (rp_transfers p)
  else (∀ t, rp_attached p t = true) ∧
       all_rows (λ b, e_from s ≤ b) (rp_blocks p) ∧ all_rows (λ b, e_from s ≤ b) (rp_txs p) ∧ all_rows (λ r, e_from s ≤ tr_block r) (rp_transfers p).

(** The rows above the watermark are the chain's; a partition below it holds rows of the
    chain; the ledger's spans below it, with the totals staged of a backfill's span in
    progress, count the rest. *)
Record holds_chain (s : reseed_db) (H : chain_rows) : Prop := {
  hc_placed : placed s;
  hc_blocks : filter (λ b, e_from s ≤ b) (mjoin (rp_blocks <$> e_parts s)) ≡ₚ filter (λ b, e_from s ≤ b) (ch_blocks H);
  hc_txs : filter (λ b, e_from s ≤ b) (mjoin (rp_txs <$> e_parts s)) ≡ₚ filter (λ b, e_from s ≤ b) (ch_txs H);
  hc_transfers : filter (λ r, e_from s ≤ tr_block r) (mjoin (rp_transfers <$> e_parts s)) ≡ₚ filter (λ r, e_from s ≤ tr_block r) (ch_transfers H);
  hc_pruned : ∀ p r, p ∈ e_parts s → below (e_from s) p = true → r ∈ rp_transfers p → r ∈ ch_transfers H;
  hc_offsets : prune_offset RBlocks s = zlen (filter (λ b, b < e_from s) (ch_blocks H)) ∧
    prune_offset RTransactions s = zlen (filter (λ b, b < e_from s) (ch_txs H)) ∧
    prune_offset RTransfers s = zlen (filter (λ r, tr_block r < e_from s) (ch_transfers H));
  hc_tokens : ∀ token, let l := filter (λ r, tr_token r = token) (filter (λ r, tr_block r < e_from s) (ch_transfers H)) in
    token_offsets s !! token = if decide (l = []) then None else Some (zlen l, sum_supply l) }.

Definition exact_counters (H : chain_rows) (s : reseed_db) : chain_counters :=
  mkCounters (zlen (ch_blocks H)) (zlen (ch_txs H)) (Z.of_nat (size (e_tokens s))) (e_addresses s) (zlen (ch_transfers H)).
(** The supply of an ERC20 token is its mints less its burns; one never transferred keeps
    what it has. *)
Definition exact_token (H : chain_rows) (token : gostring) (r : token_rec) : token_rec :=
  let l := filter (λ r, tr_token r = token) (ch_transfers H) in
  set_counts (zlen l) (if decide (te_type r = TokenTypeERC20 ∧ l ≠ []) then Some (clampSupply (sum_supply l)) else te_supply r) r.

(** ** Retained rows *)

Lemma mjoin_fmap_cons {A B} (f : A → list B) x l : mjoin (f <$> x :: l) = f x ++ mjoin (f <$> l).
Proof. done. Qed.
Lemma retained_sum {A} (f : rpart → list A) (blk : A → Z) (g : A → Z) t from (parts : list rpart) :
  (∀ p, p ∈ parts → if below from p then all_rows (λ x, blk x < from) (f p) else rp_attached p t = true ∧ all_rows (λ x, from ≤ blk x) (f p)) →
  wsum g (mjoin (f <$> in_parent t parts)) - wsum g (mjoin (f <$> filter (λ p, Is_true (below from p)) (in_parent t parts))) =
  wsum g (filter (λ x, from ≤ blk x) (mjoin (f <$> parts))).
Proof.
  induction parts as [|p parts IH]; intros Hp; [done|]. specialize (IH (λ q Hq, Hp q (proj2 (elem_of_cons parts q p) (or_intror Hq)))).
  specialize (Hp p ltac:(left)). rewrite mjoin_fmap_cons, filter_app, wsum_app. unfold in_parent in *. rewrite filter_cons.
  destruct (below from p) eqn:Eb.
  - assert (filter (λ x, from ≤ blk x) (f p) = []) as ->.
    { apply filter_none. intros x Hx Hle. specialize (Hp x Hx). cbn in Hp. lia. }
    change (wsum g []) with 0. case_decide; [|lia]. rewrite filter_cons, decide_True by (by rewrite Eb). rewrite !mjoin_fmap_cons, !wsum_app. lia.
  - destruct Hp as [Ha Hall]. rewrite Ha, decide_True by done. rewrite filter_cons, decide_False by (rewrite Eb; intros []).
    rewrite (filter_all (λ x, from ≤ blk x) (f p)) by done. rewrite mjoin_fmap_cons, wsum_app. lia.
Qed.

(** The rows of the chain, retained and pruned. *)
Lemma chain_sum {A} (f : rpart → list A) (blk : A → Z) (g : A → Z) t from (parts : list rpart) (l : list A) :
  (∀ p, p ∈ parts → if below from p then all_rows (λ x, blk x < from) (f p) else rp_attached p t = true ∧ all_rows (λ x, from ≤ blk x) (f p)) →
  filter (λ x, from ≤ blk x) (mjoin (f <$> parts)) ≡ₚ filter (λ x, from ≤ blk x) l →
  wsum g (mjoin (f <$> in_parent t parts)) - wsum g (mjoin (f <$> filter (λ p, Is_true (below from p)) (in_parent t parts))) + wsum g (filter (λ x, blk x < from) l) =
  wsum g l.
Proof.
  intros Hp Hl. rewrite (retained_sum f blk g t from parts Hp), (wsum_perm g _ _ Hl).
  symmetry. apply wsum_split. intros x. lia.
Qed.

(** ** Totals by token *)

Definition at_token (m : gmap gostring (Z * Z)) (t : gostring) : Z * Z := default (0, 0) (m !! t).
Definition of_tok (t : gostring) (l : list transfer_row) : list transfer_row := filter (λ r, tr_token r = t) l.
Lemma add_total_at token d m t : at_token (add_total token d m) t = if decide (token = t) then ((at_token m t).1 + d.1, (at_token m t).2 + d.2) else at_token m t.
Proof.
  unfold add_total, at_token. destruct (default (0, 0) (m !! token)) as [n v] eqn:E. case_decide as Et; [subst; by rewrite lookup_insert_eq, E|by rewrite lookup_insert_ne].
Qed.
Lemma add_total_some token d m t : is_Some (add_total token d m !! t) ↔ token = t ∨ is_Some (m !! t).
Proof.
  unfold add_total. destruct (default (0, 0) (m !! token)) as [n v]. destruct (decide (token = t)) as [->|Ht]; [rewrite lookup_insert_eq|rewrite lookup_insert_ne by done]; naive_solver.
Qed.
Lemma add_rows_at sg l m t : at_token (add_rows sg l m) t = ((at_token m t).1 + sg * wsum (λ _, 1) (of_tok t l), (at_token m t).2 + sg * wsum transfer_supply (of_tok t l)).
Proof.
  unfold of_tok. induction l as [|r l IH]; [cbn; by destruct (at_token m t); f_equal; cbn; lia|].
  cbn [add_rows foldr]. rewrite add_total_at. fold (add_rows sg l m). rewrite IH, filter_cons. cbn [fst snd].
  unfold wsum. case_decide; cbn [foldr]; f_equal; lia.
Qed.
Lemma add_rows_some sg l m t : is_Some (add_rows sg l m !! t) ↔ (∃ r, r ∈ l ∧ tr_token r = t) ∨ is_Some (m !! t).
Proof.
  induction l as [|r l IH]; [split; [by right|intros [(r & ?%elem_of_nil & _)|?]; done]|].
  cbn [add_rows foldr]. rewrite add_total_some. fold (add_rows sg l m). rewrite IH. setoid_rewrite elem_of_cons. naive_solver.
Qed.
Lemma subtract_at (pruned : list rpart) m t : at_token (foldr (λ p m, add_rows (-1) (rp_transfers p) m) m pruned) t =
  ((at_token m t).1 - wsum (λ _, 1) (of_tok t (mjoin (rp_transfers <$> pruned))), (at_token m t).2 - wsum transfer_supply (of_tok t (mjoin (rp_transfers <$> pruned)))).
Proof.
  unfold of_tok. induction pruned as [|p pruned IH]; [cbn; by destruct (at_token m t); f_equal; cbn; lia|].
  cbn [foldr]. rewrite add_rows_at, IH, mjoin_fmap_cons, filter_app, !wsum_app. unfold of_tok. cbn [fst snd]. f_equal; lia.
Qed.
Lemma subtract_some (pruned : list rpart) m t : is_Some (foldr (λ p m, add_rows (-1) (rp_transfers p) m) m pruned !! t) ↔
  (∃ r, r ∈ mjoin (rp_transfers <$> pruned) ∧ tr_token r = t) ∨ is_Some (m !! t).
Proof.
  induction pruned as [|p pruned IH]; [split; [by right|intros [(r & ?%elem_of_nil & _)|?]; done]|].
  cbn [foldr]. rewrite add_rows_some, IH, mjoin_fmap_cons. setoid_rewrite elem_of_app. naive_solver.
Qed.
Lemma add_totals_at a b t : at_token (add_totals a b) t = ((at_token a t).1 + (at_token b t).1, (at_token a t).2 + (at_token b t).2).
Proof. unfold at_token, add_totals. rewrite lookup_union_with. destruct (a !! t) as [[? ?]|], (b !! t) as [[? ?]|]; cbn; f_equal; lia. Qed.
Lemma add_totals_some a b t : is_Some (add_totals a b !! t) ↔ is_Some (a !! t) ∨ is_Some (b !! t).
Proof. unfold add_totals. rewrite lookup_union_with. destruct (a !! t), (b !! t); cbn; rewrite ?is_Some_alt; cbn; naive_solver. Qed.

Section Run.
Context (out : nat → stmt_end) (s0 : reseed_db) (H : chain_rows).
Hypothesis Hc : holds_chain s0 H.
(** The column cannot hold more. *)
Hypothesis Hfits : ∀ token r z, e_tokens s0 !! token = Some r → te_supply r = Some z → fits_numeric z = true.

Lemma placed_as (t : rtable) p : p ∈ e_parts s0 → if below (e_from s0) p
  then all_rows (λ b, b < e_from s0) (rp_blocks p) ∧ all_rows (λ b, b < e_from s0) (rp_txs p) ∧ all_rows (λ r, tr_block r < e_from s0) (rp_transfers p)
  else rp_attached p t = true ∧ all_rows (λ b, e_from s0 ≤ b) (rp_blocks p) ∧ all_rows (λ b, e_from s0 ≤ b) (rp_txs p) ∧ all_rows (λ r, e_from s0 ≤ tr_block r) (rp_transfers p).
Proof. intros Hp. pose proof (hc_placed s0 H Hc p Hp) as Hq. destruct (below (e_from s0) p); naive_solver. Qed.

(** What the counts of a table come to. *)
Definition total (t : rtable) : Z := match t with RBlocks => zlen (ch_blocks H) | RTransactions => zlen (ch_txs H) | RTransfers => zlen (ch_transfers H) end.
Lemma rows_sum {A} (f : rpart → list A) (l : list rpart) : foldr (λ p n, zlen (f p) + n) 0 l = wsum (λ _, 1) (mjoin (f <$> l)).
Proof. induction l as [|p l IH]; [done|]. cbn [foldr]. rewrite mjoin_fmap_cons, wsum_app, wsum_one. lia. Qed.
Lemma total_counted t : count_parent t s0 - foldr (λ p n, rows_of t p + n) 0 (prunedButAttached s0 t) + prune_offset t s0 = total t.
Proof.
  destruct (hc_offsets s0 H Hc) as (O1 & O2 & O3). unfold count_parent, prunedButAttached, total, rows_of.
  destruct t; rewrite rows_sum, rows_sum; [rewrite O1|rewrite O2|rewrite O3]; rewrite <- !wsum_one.
  - apply (chain_sum rp_blocks id); [|apply (hc_blocks s0 H Hc)]. intros p Hp. pose proof (placed_as RBlocks p Hp). destruct (below _ p); naive_solver.
  - apply (chain_sum rp_txs id); [|apply (hc_txs s0 H Hc)]. intros p Hp. pose proof (placed_as RTransactions p Hp). destruct (below _ p); naive_solver.
  - apply (chain_sum rp_transfers tr_block); [|apply (hc_transfers s0 H Hc)]. intros p Hp. pose proof (placed_as RTransfers p Hp). destruct (below _ p); naive_solver.
Qed.

Lemma parent_row r : r ∈ mjoin (rp_transfers <$> in_parent RTransfers (e_parts s0)) → r ∈ ch_transfers H.
Proof.
  rewrite list_elem_of_join. intros (l & Hr & (p & -> & Hp)%list_elem_of_fmap). unfold in_parent in Hp. apply list_elem_of_filter in Hp as [_ Hp].
  pose proof (placed_as RTransfers p Hp) as Hpl. destruct (below (e_from s0) p) eqn:Eb; [by eapply (hc_pruned s0 H Hc)|].
  destruct Hpl as (_ & _ & _ & Hge). specialize (Hge r Hr). cbn in Hge.
  assert (r ∈ filter (λ r, e_from s0 ≤ tr_block r) (mjoin (rp_transfers <$> e_parts s0))) as Hin.
  { apply list_elem_of_filter. split; [done|]. apply list_elem_of_join. exists (rp_transfers p). split; [done|]. by apply list_elem_of_fmap_2. }
  rewrite (hc_transfers s0 H Hc) in Hin. by apply list_elem_of_filter in Hin as [_ ?].
Qed.
Lemma retained_row r : r ∈ ch_transfers H → e_from s0 ≤ tr_block r → r ∈ mjoin (rp_transfers <$> in_parent RTransfers (e_parts s0)).
Proof.
  intros Hr Hge. assert (r ∈ filter (λ r, e_from s0 ≤ tr_block r) (ch_transfers H)) as Hin by (by apply list_elem_of_filter).
  rewrite <- (hc_transfers s0 H Hc) in Hin. apply list_elem_of_filter in Hin as [_ Hin]. apply list_elem_of_join in Hin as (l & Hl & (p & -> & Hp)%list_elem_of_fmap).
  apply list_elem_of_join. exists (rp_transfers p). split; [done|]. apply list_elem_of_fmap_2. unfold in_parent. apply list_elem_of_filter. split; [|done].
  pose proof (placed_as RTransfers p Hp) as Hpl. destruct (below (e_from s0) p); [|by destruct Hpl as [-> _]]. destruct Hpl as (_ & _ & Hlt). specialize (Hlt r Hl). cbn in Hlt. lia.
Qed.

Definition by_token : gmap gostring (Z * Z) := add_totals (retainedTokenTotals (prunedButAttached s0 RTransfers) s0) (token_offsets s0).
Lemma of_tok_below t l : of_tok t (filter (λ r, tr_block r < e_from s0) l) = filter (λ r, tr_block r < e_from s0) (of_tok t l).
Proof. unfold of_tok. rewrite !list_filter_filter. apply list_filter_iff. naive_solver. Qed.
Lemma by_token_some t : is_Some (by_token !! t) ↔ of_tok t (ch_transfers H) ≠ [].
Proof.
  unfold by_token. rewrite add_totals_some. unfold retainedTokenTotals. rewrite subtract_some, add_rows_some, (hc_tokens s0 H Hc t).
  fold (of_tok t (filter (λ r, tr_block r < e_from s0) (ch_transfers H))). split.
  - intros Hor Hnil. assert (∀ r, r ∈ ch_transfers H → tr_token r ≠ t) as Hno.
    { intros r Hr Et. assert (r ∈ of_tok t (ch_transfers H)) as Hin by (by apply list_elem_of_filter). rewrite Hnil in Hin. by apply elem_of_nil in Hin. }
    rewrite of_tok_below, Hnil in Hor. cbn in Hor. destruct Hor as [[(r & Hr & Et)|[(r & Hr & Et)|Hm]]|Hm].
    + apply (Hno r); [|done]. apply parent_row. apply list_elem_of_join in Hr as (l & Hl & (p & -> & Hp)%list_elem_of_fmap). apply list_elem_of_join.
      exists (rp_transfers p). split; [done|]. apply list_elem_of_fmap_2. by apply list_elem_of_filter in Hp as [_ ?].
    + apply (Hno r); [|done]. by apply parent_row.
    + rewrite lookup_empty in Hm. by destruct Hm.
    + by destruct Hm.
  - intros Hne. destruct (of_tok t (ch_transfers H)) as [|r l] eqn:E; [done|].
    assert (r ∈ of_tok t (ch_transfers H)) as Hin by (rewrite E; left). apply list_elem_of_filter in Hin as [Et Hr].
    destruct (decide (e_from s0 ≤ tr_block r)) as [Hge|Hlt]; [left; right; left; exists r; split; [by apply retained_row|done]|right].
    case_decide as Hn; [|done]. assert (r ∈ of_tok t (filter (λ r, tr_block r < e_from s0) (ch_transfers H))) as Hin.
    { apply list_elem_of_filter. split; [done|]. apply list_elem_of_filter. split; [lia|done]. }
    rewrite Hn in Hin. by apply elem_of_nil in Hin.
Qed.
Lemma by_token_at t : at_token by_token t = (zlen (of_tok t (ch_transfers H)), sum_supply (of_tok t (ch_transfers H))).
Proof.
  assert (∀ g, wsum g (of_tok t (mjoin (rp_transfers <$> in_parent RTransfers (e_parts s0)))) - wsum g (of_tok t (mjoin (rp_transfers <$> prunedButAttached s0 RTransfers))) +
    wsum g (of_tok t (filter (λ r, tr_block r < e_from s0) (ch_transfers H))) = wsum g (of_tok t (ch_transfers H))) as Hg.
  { intros g. unfold of_tok. rewrite <- !wsum_token. unfold prunedButAttached. apply (chain_sum rp_transfers tr_block); [|apply (hc_transfers s0 H Hc)].
    intros p Hp. pose proof (placed_as RTransfers p Hp). destruct (below _ p); naive_solver. }
  unfold by_token, retainedTokenTotals. rewrite add_totals_at, subtract_at, add_rows_at. cbn [fst snd].
  assert (at_token ∅ t = (0, 0)) as -> by done.
  assert (at_token (token_offsets s0) t = (wsum (λ _, 1) (of_tok t (filter (λ r, tr_block r < e_from s0) (ch_transfers H))),
    wsum transfer_supply (of_tok t (filter (λ r, tr_block r < e_from s0) (ch_transfers H))))) as ->.
  { unfold at_token. rewrite (hc_tokens s0 H Hc t). fold (of_tok t (filter (λ r, tr_block r < e_from s0) (ch_transfers H))). case_decide as En; [by rewrite En|]. by rewrite wsum_one. }
  cbn [fst snd]. rewrite <- wsum_one. f_equal; [rewrite <- (Hg (λ _, 1)); lia|]. change (sum_supply (of_tok t (ch_transfers H))) with (wsum transfer_supply (of_tok t (ch_transfers H))).
  rewrite <- (Hg transfer_supply). lia.
Qed.

(** ** The writes *)

Lemma clamp_fits z : fits_numeric z = true → clampSupply z = z.
Proof. unfold fits_numeric, clampSupply. intros [H1%Z.leb_le H2%Z.leb_le]%andb_true_iff. lia. Qed.
Lemma write_lookup t : write_totals by_token (e_tokens s0) !! t =
  (if decide (of_tok t (ch_transfers H) = []) then id else exact_token H t) <$> e_tokens s0 !! t.
Proof.
  unfold write_totals. rewrite map_lookup_imap. destruct (e_tokens s0 !! t) as [r|] eqn:Er; [|done]. cbn [mbind option_bind fmap option_fmap option_map]. f_equal.
  destruct (decide (of_tok t (ch_transfers H) = [])) as [Hn|Hn].
  - destruct (by_token !! t) as [nv|] eqn:Eb; [|done]. exfalso. by apply (by_token_some t); [eauto|].
  - destruct (proj2 (by_token_some t) Hn) as [[n v] Eb]. pose proof (by_token_at t) as Ha. unfold at_token in Ha. rewrite Eb in Ha |- *. injection Ha as -> ->.
    unfold exact_token. fold (of_tok t (ch_transfers H)). case_decide as Hg.
    + unfold set_counts. f_equal. repeat case_decide; naive_solver.
    + destruct r as [a b c ty sup e f n]. unfold set_counts. cbn in *. assert (n = zlen (of_tok t (ch_transfers H))) as -> by (destruct (decide (n = zlen (of_tok t (ch_transfers H)))); naive_solver).
      f_equal. case_decide as Hty; [|done]. destruct Hty as [Hty _]. assert (sup = Some (sum_supply (of_tok t (ch_transfers H)))) as ->.
      { destruct (decide (sup = Some (sum_supply (of_tok t (ch_transfers H))))); naive_solver. }
      f_equal. symmetry. apply clamp_fits. by eapply Hfits.
Qed.

Definition frame (s : reseed_db) : Prop := e_parts s = e_parts s0 ∧ e_from s = e_from s0 ∧ e_spans s = e_spans s0 ∧ e_addresses s = e_addresses s0 ∧ e_stage s = e_stage s0 ∧ e_open s = e_open s0.
Lemma frame_reads s : frame s → (∀ t, count_parent t s = count_parent t s0) ∧ (∀ t, prune_offset t s = prune_offset t s0) ∧ token_offsets s = token_offsets s0 ∧
  (∀ p, retainedTokenTotals p s = retainedTokenTotals p s0) ∧ prunedButAttached s = prunedButAttached s0.
Proof.
  intros (E1 & E2 & E3 & E4 & E5 & E6). unfold count_parent, prune_offset, token_offsets, retainedTokenTotals, prunedButAttached, offset_rows, pruned_spans, open_stage.
  by rewrite E1, E2, E3, E5, E6.
Qed.
Lemma zero_lookup s t : frame s → e_tokens s = write_totals by_token (e_tokens s0) → zero_tokens s !! t = exact_token H t <$> e_tokens s0 !! t.
Proof.
  intros Hf Et. unfold zero_tokens. rewrite map_lookup_imap, Et, write_lookup. destruct (e_tokens s0 !! t) as [r|] eqn:Er; [|done]. cbn [fmap option_fmap option_map mbind option_bind]. f_equal.
  destruct (frame_reads s Hf) as (_ & _ & -> & _ & _). destruct Hf as (-> & _). rewrite (hc_tokens s0 H Hc t). fold (of_tok t (filter (λ r, tr_block r < e_from s0) (ch_transfers H))). rewrite (of_tok_below t). destruct (decide (of_tok t (ch_transfers H) = [])) as [Hn|Hn]; cbn [id].
  - unfold exact_token. fold (of_tok t (ch_transfers H)). rewrite (decide_False (P := te_type r = TokenTypeERC20 ∧ of_tok t (ch_transfers H) ≠ [])) by naive_solver.
    match goal with |- (if ?d then _ else _) = _ => destruct d as [Hz|Hz] end; [by rewrite Hn|].
    destruct r as [a b c ty sup e f n]. unfold set_counts. cbn in *. rewrite Hn in *. f_equal. destruct (decide (n = 0)); [done|]. destruct Hz. split; [done|]. split; [|by rewrite decide_True].
    apply Forall_forall. intros x Hx%parent_row Hxt. assert (x ∈ of_tok t (ch_transfers H)) as Hin by (by apply list_elem_of_filter). rewrite Hn in Hin. by apply elem_of_nil in Hin.
  - rewrite decide_False; [done|]. intros (_ & Hall & Hnone). case_decide as Hb; [|done]. destruct (of_tok t (ch_transfers H)) as [|x l] eqn:El; [done|].
    assert (x ∈ of_tok t (ch_transfers H)) as Hx by (rewrite El; left). apply list_elem_of_filter in Hx as [Hxt Hx].
    destruct (decide (e_from s0 ≤ tr_block x)) as [Hge|Hlt]; [apply (retained_row x Hx) in Hge; rewrite Forall_forall in Hall; by apply (Hall x)|].
    rewrite filter_cons_True in Hb by lia. done.
Qed.

(** ** The statements *)

Local Notation spec := (spec (S := reseed_db)).
Lemma select_spec {A} (P : reseed_db → Prop) (f : reseed_db → A) : spec P (select out f) (λ a s, P s ∧ a = f s) P.
Proof. intros k s Hs. unfold select, stmt. by destruct (out k). Qed.
Lemma update_spec (P Q E : reseed_db → Prop) f : (∀ s, P s → E s ∧ E (f s) ∧ Q (f s)) → spec P (update out f) (λ _ s, Q s) E.
Proof. intros Hf k s Hs. unfold update, stmt. destruct (Hf s Hs) as (? & ? & ?). by destruct (out k). Qed.
Lemma subtract_spec (P : reseed_db → Prop) t pruned n : spec P (subtract out t pruned n) (λ a s, P s ∧ a = n - foldr (λ p n, rows_of t p + n) 0 pruned) P.
Proof.
  revert n. induction pruned as [|p pruned IH]; intros n; cbn [subtract foldr]; [apply spec_ret; intros; split; [done|lia]|].
  eapply spec_bind; [apply select_spec|]. intros c. intros k s [Hs ->]. specialize (IH (n - rows_of t p) k s Hs).
  destruct (subtract out t pruned _ k s) as [[? ?] [?|]]; [|done]. destruct IH as [? ->]. split; [done|lia].
Qed.
Lemma counted_spec (P : reseed_db → Prop) t : (∀ s, P s → frame s) → spec P (counted out t (prunedButAttached s0)) (λ a s, P s ∧ a = total t) P.
Proof.
  intros HP. unfold counted, countRetained. eapply spec_bind; [eapply spec_bind; [apply select_spec|]; intros n; apply (spec_pre _ (λ s, P s ∧ n = count_parent t s0))|].
  - intros s [Hs ->]. split; [done|]. by apply (frame_reads s (HP s Hs)).
  - intros k s [Hs ->]. exact (subtract_spec P t (prunedButAttached s0 t) (count_parent t s0) k s Hs).
  - intros n. intros k s [Hs ->]. pose proof (select_spec P (prune_offset t) k s Hs) as Hsel. unfold Session.bind, Session.ret. destruct (select out (prune_offset t) k s) as [[k' s'] [o|]]; [|done].
    destruct Hsel as [Hs' ->]. split; [done|]. destruct (frame_reads s' (HP s' Hs')) as (_ & -> & _). apply total_counted.
Qed.

Definition was (s : reseed_db) : Prop := frame s ∧ e_tokens s = e_tokens s0 ∧ e_counters s = e_counters s0.
Definition chain_right (s : reseed_db) : Prop := frame s ∧ e_tokens s = e_tokens s0 ∧ e_counters s = exact_counters H s0.
Definition tokens_set (s : reseed_db) : Prop := frame s ∧ e_tokens s = write_totals by_token (e_tokens s0) ∧ e_counters s = exact_counters H s0.
(** Each counter is what it was, or right. *)
Definition partly (s : reseed_db) : Prop := frame s ∧ (e_counters s = e_counters s0 ∨ e_counters s = exact_counters H s0) ∧
  ∀ t, e_tokens s !! t = e_tokens s0 !! t ∨ e_tokens s !! t = exact_token H t <$> e_tokens s0 !! t.
Definition reseeded (s : reseed_db) : Prop := frame s ∧ e_counters s = exact_counters H s0 ∧ ∀ t, e_tokens s !! t = exact_token H t <$> e_tokens s0 !! t.
Lemma was_partly s : was s → partly s.
Proof. intros (? & E1 & E2). split; [done|]. rewrite E1, E2. split; [by left|by left]. Qed.
Lemma chain_right_partly s : chain_right s → partly s.
Proof. intros (? & E1 & E2). split; [done|]. rewrite E1, E2. split; [by right|by left]. Qed.
Lemma tokens_set_partly s : tokens_set s → partly s.
Proof.
  intros (? & Et & E2). split; [done|]. rewrite E2. split; [by right|]. intros t. rewrite Et, write_lookup. case_decide; [left|by right]. by destruct (e_tokens s0 !! t).
Qed.
Lemma reseeded_partly s : reseeded s → partly s.
Proof. intros (? & E2 & Ht). split; [done|]. rewrite E2. split; [by right|]. intros t. right. apply Ht. Qed.

Lemma spec_err {A} P (m : M reseed_db A) Q (E E' : reseed_db → Prop) : (∀ s, E s → E' s) → spec P m Q E → spec P m Q E'.
Proof. intros HE Hm k s Hs. specialize (Hm k s Hs). destruct (m k s) as [[? ?] [?|]]; auto. Qed.
Lemma spec_is {A B} (P : reseed_db → Prop) (m : M reseed_db B) Q E (a v : A) : (a = v → spec P m Q E) → spec (λ s, P s ∧ a = v) m Q E.
Proof. intros Hm k s [Hs Ha]. by apply Hm. Qed.
Lemma chain_spec : spec was (reseedChainCounters out (prunedButAttached s0)) (λ _ s, chain_right s) partly.
Proof.
  assert (∀ t, spec was (counted out t (prunedButAttached s0)) (λ a s, was s ∧ a = total t) partly) as Hcount.
  { intros t. eapply spec_err; [apply was_partly|]. apply counted_spec. by intros s [? _]. }
  unfold reseedChainCounters. eapply spec_bind; [apply Hcount|]. intros b. apply spec_is. intros ->.
  eapply spec_bind; [apply Hcount|]. intros x. apply spec_is. intros ->.
  eapply spec_bind; [apply Hcount|]. intros f. apply spec_is. intros ->.
  eapply spec_bind; [eapply spec_err; [apply was_partly|apply select_spec]|]. intros a.
  eapply spec_bind; [eapply spec_err; [|apply select_spec]; by intros s [?%was_partly _]|]. intros n.
  apply update_spec. intros s [[Hw Ha] ->]. split; [by apply was_partly|]. destruct Hw as (Hf & Et & Ec).
  assert (chain_right (put_counters (mkCounters (total RBlocks) (total RTransactions) (Z.of_nat (size (e_tokens s))) a (total RTransfers)) s)) as Hr.
  { split; [done|]. split; [done|]. cbn. rewrite Ha. destruct Hf as (_ & _ & _ & -> & _). by rewrite Et. }
  split; [by apply chain_right_partly|done].
Qed.
Lemma token_spec : spec chain_right (reseedTokenCounters out (prunedButAttached s0)) (λ _ s, tokens_set s) partly.
Proof.
  unfold reseedTokenCounters. eapply spec_bind; [eapply spec_err; [apply chain_right_partly|apply select_spec]|]. intros retained.
  eapply spec_bind; [eapply spec_err; [|apply select_spec]; by intros s [?%chain_right_partly _]|]. intros offsets.
  apply update_spec. intros s [[Hw ->] ->]. split; [by apply chain_right_partly|]. destruct Hw as (Hf & Et & Ec). destruct (frame_reads s Hf) as (_ & _ & -> & -> & _).
  match goal with |- partly ?x ∧ _ => assert (tokens_set x) as Hr end; [|split; [by apply tokens_set_partly|done]].
  split; [done|]. split; [|done]. cbn. rewrite Et. done.
Qed.
Lemma reseed_spec : spec was (reseedCounters out) (λ _ s, reseeded s) partly.
Proof.
  unfold reseedCounters. eapply spec_bind; [eapply spec_err; [apply was_partly|apply select_spec]|]. intros pruned.
  apply (spec_pre _ (λ s, was s ∧ pruned = prunedButAttached s0)).
  { intros s [Hs ->]. split; [done|]. destruct Hs as [Hf _]. by destruct (frame_reads s Hf) as (_ & _ & _ & _ & ->). }
  apply spec_is. intros ->. eapply spec_bind; [apply chain_spec|]. intros []. eapply spec_bind; [apply token_spec|]. intros [].
  apply update_spec. intros s Hs. split; [by apply tokens_set_partly|]. destruct Hs as (Hf & Et & Ec).
  match goal with |- partly ?x ∧ _ => assert (reseeded x) as Hr end; [|split; [by apply reseeded_partly|done]].
  split; [done|]. split; [done|]. intros t. cbn. by apply zero_lookup.
Qed.
End Run.

(** Without a failed statement every step answers. *)
Definition ends {A} (out : nat → stmt_end) (m : M reseed_db A) : Prop := (∀ i, out i = Done) → ∀ k s, ∃ k' s' a, m k s = (k', s', Some a).
Lemma ends_bind {A B} out (m : M reseed_db A) (f : A → M reseed_db B) : ends out m → (∀ a, ends out (f a)) → ends out (Session.bind m f).
Proof. intros Hm Hf Hd k s. destruct (Hm Hd k s) as (k' & s' & a & E). unfold Session.bind. rewrite E. by apply Hf. Qed.
Lemma ends_select {A} out (f : reseed_db → A) : ends out (select out f).
Proof. intros Hd k s. unfold select, stmt. rewrite Hd. eauto. Qed.
Lemma ends_update out f : ends out (update out f).
Proof. intros Hd k s. unfold update, stmt. rewrite Hd. eauto. Qed.
Lemma ends_ret {A} out (a : A) : ends out (Session.ret a).
Proof. intros Hd k s. unfold Session.ret. eauto. Qed.
Lemma ends_subtract out t pruned n : ends out (subtract out t pruned n).
Proof. revert n. induction pruned as [|p pruned IH]; intros n; cbn [subtract]; [apply ends_ret|]. apply ends_bind; [apply ends_select|]. intros c. apply IH. Qed.
Lemma reseed_ends out k s : (∀ i, out i = Done) → is_Some (reseedCounters out k s).2.
Proof.
  intros Hd. assert (ends out (reseedCounters out)) as He; [|destruct (He Hd k s) as (? & ? & ? & ->); by eexists].
  repeat first [apply ends_select|apply ends_update|apply ends_ret|apply ends_subtract|apply ends_bind|intros ?].
Qed.

(** C19: the re-seed at the start counts the whole chain. Let a database hold the chain
    [H]: its rows above the prune watermark, some partitions below it still attached to
    some of the tables, and the rest counted by the ledger's closed spans below it and the
    totals staged of a stats backfill's span in progress. Whatever its counters say, a re-seed that ends leaves blocks, transactions and transfers at the number of
    rows of [H], addresses and tokens at their tables' sizes, every token with the number
    of its transfers and every ERC20 token that has one with its mints less its burns,
    bounded as the column is; one that fails anywhere leaves each counter as it was or
    right; and without a failed statement it ends. *)
Theorem reseed_counts_chain (out : nat → stmt_end) (s : reseed_db) (H : chain_rows) :
  holds_chain s H → (∀ token r z, e_tokens s !! token = Some r → te_supply r = Some z → fits_numeric z = true) →
  match reseedCounters out 0%nat s with
  | (_, s', Some _) => e_counters s' = exact_counters H s ∧ ∀ t, e_tokens s' !! t = exact_token H t <$> e_tokens s !! t
  | (_, s', None) => (e_counters s' = e_counters s ∨ e_counters s' = exact_counters H s) ∧
      (∀ t, e_tokens s' !! t = e_tokens s !! t ∨ e_tokens s' !! t = exact_token H t <$> e_tokens s !! t) ∧ ¬ ∀ i, out i = Done
  end.
Proof.
  intros Hc Hfits. pose proof (reseed_spec out s H Hc Hfits 0%nat s ltac:(done)) as Hr. pose proof (reseed_ends out 0%nat s) as Hend.
  destruct (reseedCounters out 0%nat s) as [[k s'] [u|]]; [by destruct Hr as (_ & ? & ?)|]. destruct Hr as (_ & ? & ?). split; [done|]. split; [done|]. intros Hd. by destruct (Hend Hd).
Qed.

(** ** A prune stopped in the middle *)

Definition mint (block : Z) (amount : gostring) : transfer_row :=
  mkTransferRow ($"0xt") 0 ($"0xa") zero_text ($"0xb") amount block 0 [] TokenTypeERC20 None.
(** [5, 10) is detached from blocks and transactions and still attached to
    token_transfers; a backfill has staged what it counted of [0, 5). *)
Definition half_detached : rpart := mkRPart (Some 10) [6] [6] [mint 6 ($"5")] (λ t, match t with RTransfers => true | _ => false end).
Definition retained_part : rpart := mkRPart None [12] [12; 12] [mint 12 ($"2")] (λ _, true).
Definition token_with (n : Z) (supply : Z) : token_rec := mkTokenRec ($"T") None 18 TokenTypeERC20 (Some supply) 3 None n.
Definition half_pruned : reseed_db :=
  mkReseed [half_detached; retained_part] 10 [mkRSpan 10 1 1 1 {[ $"0xa" := (1, 5) ]}] [(0, mkRSpan 5 1 2 1 {[ $"0xa" := (1, 4) ]})] (Some 0) 7
    {[ $"0xa" := token_with 9 1; $"0xc" := token_with 4 6 ]} (mkCounters 0 0 0 0 0).
Definition its_chain : chain_rows := mkChain [1; 6; 12] [1; 1; 6; 12; 12] [mint 1 ($"4"); mint 6 ($"5"); mint 12 ($"2")].

Lemma half_pruned_holds : holds_chain half_pruned its_chain.
Proof.
  split; cbn [half_pruned e_parts e_from e_spans its_chain ch_blocks ch_txs ch_transfers].
  - intros p [->|[->|[]%elem_of_nil]%elem_of_cons]%elem_of_cons; cbn; split_and!; try done; intros x [->|[]%elem_of_nil]%elem_of_cons || (intros x [->|[->|[]%elem_of_nil]%elem_of_cons]%elem_of_cons); cbn; lia.
  - reflexivity.
  - reflexivity.
  - reflexivity.
  - intros p r [->|[->|[]%elem_of_nil]%elem_of_cons]%elem_of_cons; [|done]. intros _ [->|[]%elem_of_nil]%elem_of_cons. right. left.
  - split_and!; reflexivity.
  - intros token. change (filter (λ r, tr_block r < 10) [mint 1 ($"4"); mint 6 ($"5"); mint 12 ($"2")]) with [mint 1 ($"4"); mint 6 ($"5")].
    change (token_offsets half_pruned) with (add_totals {[ $"0xa" := (1, 5) ]} (add_totals {[ $"0xa" := (1, 4) ]} ∅)).
    destruct (decide (token = $"0xa")) as [->|Hne]; [reflexivity|].
    unfold add_totals. rewrite !lookup_union_with, !lookup_singleton_ne, lookup_empty by done.
    rewrite !filter_cons_False by (intros E; apply Hne; symmetry; exact E). done.
Qed.

Definition summary (s : reseed_db) (t : gostring) : option (Z * option Z) := (λ r, (te_transfers r, te_supply r)) <$> e_tokens s !! t.
(** The re-seed of that database, and one whose last statement fails. *)
Lemma reseed_counts_chain_witness :
  (let r := reseedCounters (λ _, Done) 0%nat half_pruned in
   e_counters r.1.2 = mkCounters 3 5 2 7 3 ∧ summary r.1.2 ($"0xa") = Some (3, Some 11)) ∧
  (let r := reseedCounters (λ i, if bool_decide (i = 12%nat) then Failed else Done) 0%nat half_pruned in
   e_counters r.1.2 = e_counters half_pruned ∨ e_counters r.1.2 = mkCounters 3 5 2 7 3).
Proof.
  assert (∀ token r z, e_tokens half_pruned !! token = Some r → te_supply r = Some z → fits_numeric z = true) as Hfits.
  { intros token r z Hr Hz. cbn in Hr. apply lookup_insert_Some in Hr as [[<- <-]|[_ Hr]]; [by injection Hz as <-|].
    apply lookup_singleton_Some in Hr as [_ <-]. by injection Hz as <-. }
  split; intros r; subst r.
  - pose proof (reseed_counts_chain (λ _, Done) half_pruned its_chain half_pruned_holds Hfits) as T.
    destruct (reseedCounters (λ _, Done) 0%nat half_pruned) as [[k s'] [u|]]; [|by destruct T as (_ & _ & T); destruct T].
    destruct T as [T1 T2]. split; [exact T1|]. cbn [fst snd]. unfold summary. rewrite T2. vm_compute. reflexivity.
  - pose proof (reseed_counts_chain (λ i, if bool_decide (i = 12%nat) then Failed else Done) half_pruned its_chain half_pruned_holds Hfits) as T.
    destruct (reseedCounters _ 0%nat half_pruned) as [[k s'] [u|]]; [right; exact (proj1 T)|exact (proj1 T)].
Defined.

(** An ERC20 token with no transfer gets its count zeroed and keeps its supply. *)
Example supply_without_transfers_kept : summary (reseedCounters (λ _, Done) 0%nat half_pruned).1.2 ($"0xc") = Some (0, Some 6).
Proof. vm_compute. reflexivity. Qed.
