(* ===== verification/ChainChecks.v ===== *)
(** * The chain checks

    [chainChecker] of [internal/indexer/chain_checks.go] with [CheckBlocksTotal],
    [NextTokenSupply], [NextTxCountSpan] and [RecordTxCountCheck] of
    [internal/db/chain_checks.go] and [BlockTransactionCounts] of [internal/rpc/rpc.go]:
    each pass compares the block total, one token's supply, a sample of balances, a sample
    of nonces and one closed span with the node, and reports what differs. The samples,
    drawn at random by the database, are arguments; a pass is not cancelled. *)

From S2P Require Import Prelude GoStrings EthCommon Balances.

Record BlocksCheck := mkBlocks { bc_total : Z; bc_head : Z; bc_applicable : bool; bc_fromGenesis : bool; bc_genesis : bool }.
Record BalanceSample := mkBalanceSample { bs_token : gostring; bs_address : gostring; bs_balance : Z; bs_head : Z }.
Record SenderSample := mkSender { ss_address : gostring; ss_sent : Z; ss_head : Z }.
(** A row of [ledger_spans] with its transactions. *)
Record check_span := mkCheckSpan { cs_lo : Z; cs_hi : Z; cs_txs : Z; cs_checked : option Z; cs_agrees : option bool }.
(** The tokens with a supply. *)
Record check_db := mkCheckDb { kd_blocks : BlocksCheck; kd_tokens : gmap gostring Z; kd_head : option Z; kd_spans : list check_span }.

Record ChainCheckResult := mkResult {
  r_blocks : Z; r_applicable : bool; r_supply : Z * Z; r_balances : Z * Z; r_nonces : Z * Z; r_span : option bool }.
Definition no_result : ChainCheckResult := mkResult 0 false (0, 0) (0, 0) (0, 0) None.
Record chainChecker := mkChecker { c_lastToken : gostring; c_suspects : gmap gostring Z }.

(** What the node answers: a call at a block, as a number; a nonce; a block's number of
    transactions. *)
Record check_node := mkCheckNode { nd_call : gostring → gostring → Z → option Z; nd_nonce : gostring → Z → option Z; nd_txs : Z → option Z }.

Definition totalSupplySelector : gostring := FromHex $"0x18160ddd".
Definition balanceOfSelector : gostring := FromHex $"0x70a08231".
Definition txCountBatch : Z := 100.

(** ** The database *)

(** [ORDER BY address <= $1, address LIMIT 1]. *)
Definition token_le (a b : gostring) : Prop := str_lt b a = false.
#[export] Instance token_le_dec a b : Decision (token_le a b).
Proof. unfold token_le. apply _. Defined.
Definition tokens_sorted (m : gmap gostring Z) : list gostring := merge_sort token_le (elements (dom m)).
Definition next_token (after : gostring) (l : list gostring) : option gostring :=
  match list_find (λ a, str_lt after a = true) l with Some (_, a) => Some a | None => head l end.
Definition NextTokenSupply (after : gostring) (d : check_db) : res unit (option (gostring * Z * Z)) :=
  match next_token after (tokens_sorted (kd_tokens d)), kd_head d with
  | None, _ => Ok None
  | Some _, None => Err tt
  | Some t, Some h => Ok (Some (t, default 0 (kd_tokens d !! t), h))
  end.

(** [ORDER BY chain_checked_at NULLS FIRST, lo LIMIT 1]. *)
Definition span_before (a b : check_span) : bool :=
  match cs_checked a, cs_checked b with
  | None, None => cs_lo a <=? cs_lo b
  | None, Some _ => true
  | Some _, None => false
  | Some x, Some y => (x <? y) || (x =? y) && (cs_lo a <=? cs_lo b)
  end.
Definition NextTxCountSpan (l : list check_span) : option check_span :=
  foldr (λ a acc, match acc with None => Some a | Some b => if span_before a b then Some a else Some b end) None l.
Definition RecordTxCountCheck (lo now : Z) (agrees : bool) (l : list check_span) : list check_span :=
  (λ s, if cs_lo s =? lo then mkCheckSpan (cs_lo s) (cs_hi s) (cs_txs s) (Some now) (Some agrees) else s) <$> l.

(** ** The node *)

Fixpoint sum_counts (node : check_node) (ns : list Z) : option Z :=
  match ns with [] => Some 0 | n :: ns => a ← nd_txs node n; b ← sum_counts node ns; Some (a + b) end.
(** One request here: the range is no longer than a batch. *)
Definition BlockTransactionCounts (node : check_node) (from to : Z) : option Z := u64 <$> sum_counts node (seqZ from (to - from)).
Fixpoint span_loop (fuel : nat) (node : check_node) (from hi onChain : Z) : option (option Z) :=
  match fuel with
  | O => None
  | S fuel =>
      if from <? hi then
        match BlockTransactionCounts node from (Z.min (u64 (from + txCountBatch)) hi) with
        | None => Some None
        | Some n => span_loop fuel node (u64 (from + txCountBatch)) hi (u64 (onChain + n))
        end
      else Some (Some onChain)
  end.

(** ** A pass *)

Section Pass.
Context (countFrom : Z) (node : check_node).

(** The block total against the head, and whether the counts start at genesis. *)
Definition blocks_drift (b : BlocksCheck) : Z * bool :=
  let first := if bc_fromGenesis b then 0 else i64 countFrom in
  let fromGenesis := first =? 0 in
  let first := if (first =? 0) && negb (bc_genesis b) then 1 else first in
  (if bc_applicable b && (0 <=? bc_head b) then bc_total b - (bc_head b + 1 - first) else 0, fromGenesis).

Definition bump2 (p : Z * Z) (drifted : bool) : Z * Z := (p.1 + 1, p.2 + if drifted then 1 else 0).

Definition checkSupply (d : check_db) (c : chainChecker) (r : ChainCheckResult) : chainChecker * ChainCheckResult * bool :=
  match NextTokenSupply (c_lastToken c) d with
  | Err _ => (c, r, false)
  | Ok None => (c, r, true)
  | Ok (Some (token, supply, head)) =>
      let c := mkChecker token (c_suspects c) in
      match nd_call node (HexToAddress token) totalSupplySelector head with
      | None => (c, r, true)
      | Some v => (c, mkResult (r_blocks r) (r_applicable r) (bump2 (r_supply r) (negb (v =? supply))) (r_balances r) (r_nonces r) (r_span r), true)
      end
  end.

Definition suspect_key (s : BalanceSample) : gostring := bs_token s ++ $"/" ++ bs_address s.
Definition on_chain (s : BalanceSample) : option Z :=
  nd_call node (HexToAddress (bs_token s)) (balanceOfSelector ++ LeftPadBytes (HexToAddress (bs_address s)) 32) (bs_head s).
Definition check_balance (acc : gmap gostring Z * (Z * Z)) (s : BalanceSample) : gmap gostring Z * (Z * Z) :=
  let '(suspects, n) := acc in
  match on_chain s with
  | None => (suspects, n)
  | Some v =>
      if v =? bs_balance s then (delete (suspect_key s) suspects, bump2 n false)
      else if bool_decide (suspects !! suspect_key s = Some (bs_balance s)) then (suspects, bump2 n true)
      else (<[suspect_key s := bs_balance s]> suspects, bump2 n false)
  end.
Definition checkBalances (samples : list BalanceSample) (c : chainChecker) (r : ChainCheckResult) : chainChecker * ChainCheckResult :=
  let '(suspects, n) := foldl check_balance (c_suspects c, r_balances r) samples in
  (mkChecker (c_lastToken c) suspects, mkResult (r_blocks r) (r_applicable r) (r_supply r) n (r_nonces r) (r_span r)).

Definition checkNonces (samples : list SenderSample) (r : ChainCheckResult) : ChainCheckResult :=
  let n := foldl (λ n s, match nd_nonce node (HexToAddress (ss_address s)) (ss_head s) with
                         | None => n
                         | Some v => bump2 n (negb (v =? ss_sent s)) end) (r_nonces r) samples in
  mkResult (r_blocks r) (r_applicable r) (r_supply r) (r_balances r) n (r_span r).

(** [ok]: how the reads and the write of the database end, by their order. *)
Definition checkSpanTxCount (ok : nat → bool) (now : Z) (d : check_db) (r : ChainCheckResult) : option (check_db * ChainCheckResult * bool) :=
  if negb (ok 4%nat) then Some (d, r, false)
  else match NextTxCountSpan (kd_spans d) with
       | None => Some (d, r, true)
       | Some s =>
           match span_loop (S (Z.to_nat (cs_hi s - cs_lo s))) node (u64 (cs_lo s)) (u64 (cs_hi s)) 0 with
           | None => None
           | Some None => Some (d, r, false)
           | Some (Some onChain) =>
               let agrees := i64 onChain =? cs_txs s in
               let r := mkResult (r_blocks r) (r_applicable r) (r_supply r) (r_balances r) (r_nonces r) (Some (negb agrees)) in
               if ok 5%nat then Some (mkCheckDb (kd_blocks d) (kd_tokens d) (kd_head d) (RecordTxCountCheck (cs_lo s) now agrees (kd_spans d)), r, true)
               else Some (d, r, false)
           end
       end.

Definition check_pass (ok : nat → bool) (samples : list BalanceSample) (senders : list SenderSample) (now : Z) (d : check_db) (c : chainChecker)
  : option (check_db * chainChecker * ChainCheckResult * bool) :=
  if negb (ok 0%nat) then Some (d, c, no_result, false)
  else
    let '(drift, fromGenesis) := blocks_drift (kd_blocks d) in
    let r := mkResult drift (bc_applicable (kd_blocks d)) (0, 0) (0, 0) (0, 0) None in
    if negb (ok 1%nat) then Some (d, c, r, false)
    else match checkSupply d c r with
         | (c, r, false) => Some (d, c, r, false)
         | (c, r, true) =>
             if negb (ok 2%nat) then Some (d, c, r, false)
             else
               let '(c, r) := checkBalances samples c r in
               let nonces := fromGenesis && bc_applicable (kd_blocks d) in
               if nonces && negb (ok 3%nat) then Some (d, c, r, false)
               else
                 let r := if nonces then checkNonces senders r else r in
                 match checkSpanTxCount ok now d r with Some (d, r, e) => Some (d, c, r, e) | None => None end
         end.
End Pass.
