(* ===== verification/ChainChecksProps.v ===== *)
(** * What the chain checks reach

    The tokens in turn, the closed spans in turn, and no alarm for a balance seen to
    differ once. *)

From S2P Require Import Prelude GoStrings EthCommon Balances ChainChecks.

(** ** A span counted in batches *)

Definition counts_sum (f : Z → Z) (ns : list Z) : Z := foldr (λ n acc, f n + acc) 0 ns.
Lemma counts_sum_app f l k : counts_sum f (l ++ k) = counts_sum f l + counts_sum f k.
Proof. induction l as [|x l IH]; cbn; [done|]. unfold counts_sum in *. lia. Qed.
Lemma sum_counts_exact node f ns : (∀ n, n ∈ ns → nd_txs node n = Some (f n)) → sum_counts node ns = Some (counts_sum f ns).
Proof.
  induction ns as [|n ns IH]; intros Hn; [done|]. cbn [sum_counts]. rewrite (Hn n) by left. cbn. rewrite IH; [done|]. intros m Hm. apply Hn. by right.
Qed.
Lemma span_loop_exact fuel node f from hi acc : 0 ≤ from → hi + txCountBatch < 2 ^ 64 → (Z.to_nat (hi - from) < fuel)%nat →
  (∀ n, from ≤ n < hi → nd_txs node n = Some (f n)) →
  span_loop fuel node from hi (u64 acc) = Some (Some (u64 (acc + counts_sum f (seqZ from (hi - from))))).
Proof.
  revert from acc. induction fuel as [|fuel IH]; intros from acc Hf Hhi Hfuel Hn; [lia|]. cbn [span_loop]. unfold txCountBatch in *.
  destruct (Z.ltb_spec from hi) as [Hlt|Hge].
  - rewrite (u64_small (from + 100)) by (unfold is_u64; lia). unfold BlockTransactionCounts.
    rewrite (sum_counts_exact node f) by (intros n ?%elem_of_seqZ; apply Hn; lia). cbn [fmap option_fmap option_map]. assert (u64 (u64 acc + u64 (counts_sum f (seqZ from (Z.min (from + 100) hi - from)))) = u64 (acc + counts_sum f (seqZ from (Z.min (from + 100) hi - from)))) as ->
      by (unfold u64; by rewrite <- Z.add_mod by lia).
    rewrite IH; [|lia|lia|lia|intros; apply Hn; lia]. do 3 f_equal. rewrite <- Z.add_assoc. f_equal. destruct (Z.le_gt_cases (from + 100) hi).
    + rewrite Z.min_l by lia. rewrite <- counts_sum_app. f_equal. replace (from + 100 - from) with 100 by lia.
      replace (hi - from) with (100 + (hi - (from + 100))) by lia. by rewrite (seqZ_app from 100 (hi - (from + 100))) by lia.
    + rewrite Z.min_r by lia. rewrite (seqZ_nil (from + 100)) by lia. cbn. lia.
  - rewrite seqZ_nil by lia. cbn. by rewrite Z.add_0_r.
Qed.

(** ** The tokens in turn *)

Definition ascending (l : list gostring) : Prop := ∀ i j a b, l !! i = Some a → l !! j = Some b → (i < j)%nat → str_lt a b = true.
(** [p] tokens are at or below [last]. *)
Definition place (l : list gostring) (last : gostring) (p : nat) : Prop := (p ≤ length l)%nat ∧ ∀ j a, l !! j = Some a → (str_lt last a = true ↔ (p ≤ j)%nat).
Lemma place_of l i a : ascending l → l !! i = Some a → place l a (S i).
Proof.
  intros Hl Hi. split; [by apply lookup_lt_Some in Hi|]. intros j b Hj. split.
  - intros Hlt. destruct (Nat.lt_trichotomy i j) as [?|[->|Hji]]; [lia| |].
    + rewrite Hi in Hj. injection Hj as ->. by rewrite str_lt_irrefl in Hlt.
    + pose proof (Hl j i b a Hj Hi Hji) as Hba. pose proof (str_lt_trans _ _ _ Hlt Hba) as Haa. by rewrite str_lt_irrefl in Haa.
  - intros Hij. by apply (Hl i j).
Qed.
Lemma place_exists l last : ascending l → ∃ p, place l last p.
Proof.
  induction l as [|x l IH]; intros Hl; [exists 0%nat; split; [done|by intros]|].
  destruct IH as (p & Hp & Hj). { intros i j a b Hi Hj Hij. apply (Hl (S i) (S j)); [done|done|lia]. }
  destruct (str_lt last x) eqn:Ex.
  - exists 0%nat. split; [lia|]. intros [|j] a Ha; [injection Ha as <-; split; [lia|done]|]. split; [lia|]. intros _.
    apply (str_lt_trans last x); [done|]. apply (Hl 0%nat (S j)); [done|done|lia].
  - exists (S p). split; [cbn; lia|]. intros [|j] a Ha; [injection Ha as <-; rewrite Ex; split; [done|lia]|]. rewrite (Hj j a Ha). lia.
Qed.
Lemma next_token_at l last p : place l last p → l ≠ [] → next_token last l = l !! (p mod length l)%nat.
Proof.
  intros [Hp Hj] Hne. assert (0 < length l)%nat as Hn by (destruct l; cbn; [done|lia]). unfold next_token. destruct (list_find _ l) as [[j a]|] eqn:E.
  - apply list_find_Some in E as (Ha & Hlt & Hmin). apply (Hj j a Ha) in Hlt. assert (p = j) as ->; [|rewrite Nat.mod_small; [done|by apply lookup_lt_Some in Ha]].
    destruct (Nat.lt_trichotomy p j) as [Hpj|[?|?]]; [|done|lia]. destruct (lookup_lt_is_Some_2 l p) as [b Hb]; [apply lookup_lt_Some in Ha; lia|].
    exfalso. apply (Hmin p b Hb Hpj). by apply (Hj p b Hb).
  - assert (p = length l) as ->; [|by rewrite Nat.Div0.mod_same; destruct l]. apply list_find_None in E. rewrite Forall_forall in E.
    destruct (decide (p < length l)%nat) as [Hlt|?]; [|lia]. destruct (lookup_lt_is_Some_2 l p Hlt) as [b Hb]. exfalso. apply (E b); [by eapply list_elem_of_lookup_2|]. by apply (Hj p b Hb).
Qed.
Lemma tokens_ascending m : ascending (tokens_sorted m).
Proof.
  assert (Transitive token_le) as Htr.
  { intros a b c H1 H2. unfold token_le in *. destruct (str_lt c a) eqn:E; [|done]. destruct (str_lt a b) eqn:E2.
    - pose proof (str_lt_trans _ _ _ E E2) as E3. congruence.
    - assert (a = b) as -> by (by apply str_lt_total). congruence. }
  assert (Total token_le) as Hto.
  { intros a b. unfold token_le. destruct (str_lt b a) eqn:E; [right|by left]. destruct (str_lt a b) eqn:E2; [|done]. pose proof (str_lt_trans _ _ _ E E2) as E3. by rewrite str_lt_irrefl in E3. }
  assert (StronglySorted token_le (tokens_sorted m)) as Hs by (apply StronglySorted_merge_sort; apply _).
  assert (NoDup (tokens_sorted m)) as Hnd by (unfold tokens_sorted; rewrite merge_sort_Permutation; apply NoDup_elements).
  intros i j a b Hi Hj Hij. destruct (str_lt a b) eqn:E; [done|]. exfalso.
  assert (token_le a b) as Hab.
  { revert i j Hi Hj Hij. clear Hnd. induction Hs as [|x l Hs IH Hall]; intros i j Hi Hj Hij; [done|]. destruct i as [|i], j as [|j]; [lia| |lia|by eapply (IH i j); [..|lia]].
    injection Hi as ->. rewrite Forall_forall in Hall. apply Hall. by eapply list_elem_of_lookup_2. }
  assert (a = b) as -> by (apply str_lt_total; done). pose proof (NoDup_lookup _ _ _ _ Hnd Hi Hj). lia.
Qed.

(** ** The spans in turn *)

Lemma span_before_trans a b c : span_before a b = true → span_before b c = true → span_before a c = true.
Proof.
  unfold span_before. destruct (cs_checked a) as [x|], (cs_checked b) as [y|], (cs_checked c) as [z|]; try done; rewrite ?orb_true_iff, ?andb_true_iff, ?Z.ltb_lt, ?Z.eqb_eq, ?Z.leb_le; lia.
Qed.
Lemma span_before_total a b : span_before a b = false → span_before b a = true.
Proof.
  unfold span_before. destruct (cs_checked a) as [x|], (cs_checked b) as [y|]; try done; rewrite ?orb_false_iff, ?andb_false_iff, ?orb_true_iff, ?andb_true_iff, ?Z.ltb_lt, ?Z.ltb_ge, ?Z.eqb_eq, ?Z.eqb_neq, ?Z.leb_le, ?Z.leb_gt; lia.
Qed.
Lemma next_span_first l : match NextTxCountSpan l with Some s => s ∈ l ∧ ∀ x, x ∈ l → span_before s x = true | None => l = [] end.
Proof.
  induction l as [|a l IH]; [done|]. cbn [NextTxCountSpan foldr]. fold (NextTxCountSpan l). destruct (NextTxCountSpan l) as [b|].
  - destruct IH as [Hb Hall]. destruct (span_before a b) eqn:E.
    + split; [left|]. intros x [->|Hx]%elem_of_cons; [|by eapply span_before_trans; [|apply Hall]]. destruct (span_before a a) eqn:Ea; [done|]. by rewrite (span_before_total _ _ Ea) in Ea.
    + split; [by right|]. intros x [->|Hx]%elem_of_cons; [by apply span_before_total|by apply Hall].
  - subst l. split; [left|]. intros x [->|[]%elem_of_nil]%elem_of_cons. destruct (span_before a a) eqn:Ea; [done|]. by rewrite (span_before_total _ _ Ea) in Ea.
Qed.

(** Not checked after [t]. *)
Definition unchecked (t : Z) (s : check_span) : Prop := match cs_checked s with Some x => x ≤ t | None => True end.
#[export] Instance unchecked_dec t s : Decision (unchecked t s).
Proof. unfold unchecked. destruct (cs_checked s); apply _. Defined.
Definition waiting (t : Z) (l : list check_span) : nat := length (filter (unchecked t) l).

Lemma record_other lo now agrees l : (∀ s, s ∈ l → cs_lo s ≠ lo) → RecordTxCountCheck lo now agrees l = l.
Proof.
  induction l as [|s l IH]; intros Hn; [done|]. unfold RecordTxCountCheck in *. cbn. destruct (Z.eqb_spec (cs_lo s) lo) as [E|]; [exfalso; by apply (Hn s); [left|]|].
  f_equal. apply IH. intros x Hx. apply Hn. by right.
Qed.
Lemma record_waiting t now agrees l s : t < now → NoDup (cs_lo <$> l) → s ∈ l → unchecked t s → waiting t l = S (waiting t (RecordTxCountCheck (cs_lo s) now agrees l)).
Proof.
  intros Ht. induction l as [|x l IH]; intros Hnd Hs Hu; [by apply elem_of_nil in Hs|]. apply NoDup_cons in Hnd as [Hx Hnd]. unfold waiting in *. cbn [RecordTxCountCheck fmap list_fmap].
  destruct (Z.eqb_spec (cs_lo x) (cs_lo s)) as [E|E].
  - assert (x = s) as ->. { apply elem_of_cons in Hs as [->|Hs]; [done|]. destruct Hx. rewrite E. by apply list_elem_of_fmap_2. }
    rewrite filter_cons_True by done. rewrite filter_cons_False by (cbn; lia). cbn. do 2 f_equal.
    fold (RecordTxCountCheck (cs_lo s) now agrees l). rewrite record_other; [done|]. intros y Hy Ey. apply Hx. rewrite <- Ey. by apply list_elem_of_fmap_2.
  - apply elem_of_cons in Hs as [->|Hs]; [done|]. fold (RecordTxCountCheck (cs_lo s) now agrees l). specialize (IH Hnd Hs Hu).
    rewrite !filter_cons. case_decide; cbn; lia.
Qed.
Lemma record_lo lo now agrees l : cs_lo <$> RecordTxCountCheck lo now agrees l = cs_lo <$> l.
Proof. unfold RecordTxCountCheck. induction l as [|s l IH]; [done|]. cbn. f_equal; [by destruct (cs_lo s =? lo)|done]. Qed.

(** ** Passes in a row *)

Record check_turn := mkTurn { tu_node : check_node; tu_samples : list BalanceSample; tu_senders : list SenderSample; tu_now : Z }.
(** The database, the checker and the tokens looked at. *)
Fixpoint run_checks (countFrom : Z) (ts : list check_turn) (d : check_db) (c : chainChecker) : option (check_db * chainChecker * list gostring) :=
  match ts with
  | [] => Some (d, c, [])
  | t :: ts =>
      match check_pass countFrom (tu_node t) (λ _, true) (tu_samples t) (tu_senders t) (tu_now t) d c with
      | Some (d, c, _, _) => '(d', c', l) ← run_checks countFrom ts d c; Some (d', c', c_lastToken c :: l)
      | None => None
      end
  end.

Definition span_ok (s : check_span) : Prop := 0 ≤ cs_lo s ≤ cs_hi s ∧ cs_hi s + txCountBatch < 2 ^ 64.
Definition counts_of (node : check_node) (s : check_span) : Prop := ∀ n, cs_lo s ≤ n < cs_hi s → is_Some (nd_txs node n).
(** The shape no pass changes. *)
Definition shape (l : list check_span) : list (Z * Z) := (λ s, (cs_lo s, cs_hi s)) <$> l.
Lemma record_shape lo now agrees l : shape (RecordTxCountCheck lo now agrees l) = shape l.
Proof. unfold shape, RecordTxCountCheck. induction l as [|s l IH]; [done|]. cbn. f_equal; [by destruct (cs_lo s =? lo)|done]. Qed.

Lemma pass_ends countFrom t d c : is_Some (kd_head d) → (∀ s, s ∈ kd_spans d → span_ok s ∧ counts_of (tu_node t) s) →
  ∃ d' c' r e, check_pass countFrom (tu_node t) (λ _, true) (tu_samples t) (tu_senders t) (tu_now t) d c = Some (d', c', r, e) ∧
    kd_blocks d' = kd_blocks d ∧ kd_tokens d' = kd_tokens d ∧ kd_head d' = kd_head d ∧
    c_lastToken c' = default (c_lastToken c) (next_token (c_lastToken c) (tokens_sorted (kd_tokens d))) ∧
    kd_spans d' = match NextTxCountSpan (kd_spans d) with
                  | Some s => RecordTxCountCheck (cs_lo s) (tu_now t) (i64 (u64 (counts_sum (λ n, default 0 (nd_txs (tu_node t) n)) (seqZ (cs_lo s) (cs_hi s - cs_lo s)))) =? cs_txs s) (kd_spans d)
                  | None => kd_spans d
                  end.
Proof.
  intros [h Hh] Hs. unfold check_pass. cbn [negb]. destruct (blocks_drift countFrom (kd_blocks d)) as [drift fromGenesis].
  set (r0 := mkResult drift _ _ _ _ _). assert (∃ c1 r1, checkSupply (tu_node t) d c r0 = (c1, r1, true) ∧ c_lastToken c1 = default (c_lastToken c) (next_token (c_lastToken c) (tokens_sorted (kd_tokens d)))) as (c1 & r1 & E1 & L1).
  { unfold checkSupply, NextTokenSupply. rewrite Hh. destruct (next_token _ _) as [tok|]; [|by eauto]. destruct (nd_call _ _ _ _); eauto. }
  rewrite E1. unfold checkBalances. destruct (foldl _ _ _) as [suspects n]. rewrite andb_false_r. set (r2 := if fromGenesis && _ then _ else _).
  unfold checkSpanTxCount. cbn [negb]. pose proof (next_span_first (kd_spans d)) as Hn. destruct (NextTxCountSpan (kd_spans d)) as [s|].
  - destruct Hn as [Hin _]. destruct (Hs s Hin) as [[H1 H2] Hc]. unfold txCountBatch in H2. rewrite (u64_small (cs_lo s)), (u64_small (cs_hi s)) by (unfold is_u64; lia).
    pose proof (span_loop_exact (S (Z.to_nat (cs_hi s - cs_lo s))) (tu_node t) (λ n, default 0 (nd_txs (tu_node t) n)) (cs_lo s) (cs_hi s) 0) as El.
    change (u64 0) with 0 in El. rewrite El; [|lia|unfold txCountBatch; lia|lia|intros m Hm; destruct (Hc m Hm) as [v Hv]; by rewrite Hv].
    rewrite Z.add_0_l. eexists _, _, _, _. split; [reflexivity|]. cbn. done.
  - eexists _, _, _, _. split; [reflexivity|]. done.
Qed.

Lemma shape_in (l k : list check_span) s : shape l = shape k → s ∈ l → ∃ s', s' ∈ k ∧ cs_lo s' = cs_lo s ∧ cs_hi s' = cs_hi s.
Proof.
  intros E Hs. assert ((cs_lo s, cs_hi s) ∈ shape k) as Hin by (rewrite <- E; by apply (list_elem_of_fmap_2 (λ s, (cs_lo s, cs_hi s)))).
  apply list_elem_of_fmap in Hin as (s' & [= -> ->] & Hs'). eauto.
Qed.
(** Passes from time [t0] on. *)
Definition turns_ok (t0 : Z) (d : check_db) (ts : list check_turn) : Prop :=
  is_Some (kd_head d) ∧ NoDup (cs_lo <$> kd_spans d) ∧ (∀ s, s ∈ kd_spans d → span_ok s) ∧
  (∀ t, t ∈ ts → t0 < tu_now t ∧ ∀ s, s ∈ kd_spans d → counts_of (tu_node t) s).
(** One pass, and what it leaves the next ones. *)
Lemma turns_step countFrom t0 t ts d c : turns_ok t0 d (t :: ts) →
  ∃ d' c' r e, check_pass countFrom (tu_node t) (λ _, true) (tu_samples t) (tu_senders t) (tu_now t) d c = Some (d', c', r, e) ∧
    kd_spans d' = match NextTxCountSpan (kd_spans d) with
                  | Some s => RecordTxCountCheck (cs_lo s) (tu_now t) (i64 (u64 (counts_sum (λ n, default 0 (nd_txs (tu_node t) n)) (seqZ (cs_lo s) (cs_hi s - cs_lo s)))) =? cs_txs s) (kd_spans d)
                  | None => kd_spans d
                  end ∧
    turns_ok t0 d' ts ∧ kd_tokens d' = kd_tokens d ∧ c_lastToken c' = default (c_lastToken c) (next_token (c_lastToken c) (tokens_sorted (kd_tokens d))).
Proof.
  intros (Hh & Hnd & Hok & Hts). destruct (Hts t ltac:(left)) as [Hnow Hc].
  destruct (pass_ends countFrom t d c Hh (λ s Hs, conj (Hok s Hs) (Hc s Hs))) as (d1 & c1 & r & e & Hp & Eb & Et & Eh & El & Es).
  assert (shape (kd_spans d1) = shape (kd_spans d)) as Hshape by (rewrite Es; destruct (NextTxCountSpan _); [apply record_shape|done]).
  assert (cs_lo <$> kd_spans d1 = cs_lo <$> kd_spans d) as Hlo by (rewrite Es; destruct (NextTxCountSpan _); [apply record_lo|done]).
  exists d1, c1, r, e. split_and!; [done..| |done|done]. split; [by rewrite Eh|]. split; [by rewrite Hlo|]. split.
  - intros s Hs. destruct (shape_in _ _ s Hshape Hs) as (s' & Hs' & E1 & E2). specialize (Hok s' Hs'). unfold span_ok in *. by rewrite E1, E2 in Hok.
  - intros t' Ht'. destruct (Hts t' ltac:(by right)) as [? Hc']. split; [done|]. intros s Hs n Hn. destruct (shape_in _ _ s Hshape Hs) as (s' & Hs' & E1 & E2). apply (Hc' s' Hs'). by rewrite E1, E2.
Qed.

Lemma run_reaches countFrom t0 ts d c : turns_ok t0 d ts → (∀ p, place (tokens_sorted (kd_tokens d)) (c_lastToken c) p →
  ∃ d' c' l, run_checks countFrom ts d c = Some (d', c', l) ∧ (waiting t0 (kd_spans d') ≤ waiting t0 (kd_spans d) - length ts)%nat ∧
    (tokens_sorted (kd_tokens d) ≠ [] → ∀ i, (i < length ts)%nat → l !! i = tokens_sorted (kd_tokens d) !! ((p + i) mod length (tokens_sorted (kd_tokens d)))%nat)).
Proof.
  revert d c. induction ts as [|t ts IH]; intros d c Hok p Hp; [exists d, c, []; split; [done|]; split; [cbn; lia|]; intros _ i Hi; cbn in Hi; lia|].
  cbn [run_checks]. destruct (turns_step countFrom t0 t ts d c Hok) as (d1 & c1 & r & e & -> & Es & Hok1 & Et & El).
  destruct Hok as (_ & Hnd & _ & Hts). destruct (Hts t ltac:(left)) as [Hnow _].
  assert (waiting t0 (kd_spans d1) ≤ waiting t0 (kd_spans d) - 1)%nat as Hw.
  { rewrite Es. pose proof (next_span_first (kd_spans d)) as Hn. destruct (NextTxCountSpan (kd_spans d)) as [s|]; [|rewrite Hn; unfold waiting; cbn; lia]. destruct Hn as [Hs Hmin].
    destruct (decide (unchecked t0 s)) as [Hu|Hu]; [rewrite (record_waiting t0 (tu_now t) (i64 (u64 (counts_sum (λ n, default 0 (nd_txs (tu_node t) n)) (seqZ (cs_lo s) (cs_hi s - cs_lo s)))) =? cs_txs s) (kd_spans d) s Hnow Hnd Hs Hu); lia|].
    assert (filter (unchecked t0) (kd_spans d) = []) as Hnone.
    { apply filter_none. intros x Hx Hux. apply Hu. specialize (Hmin x Hx). unfold span_before, unchecked in *. destruct (cs_checked s) as [y|], (cs_checked x) as [z|]; try done.
      rewrite orb_true_iff, andb_true_iff, Z.ltb_lt, Z.eqb_eq in Hmin. lia. }
    assert (filter (unchecked t0) (RecordTxCountCheck (cs_lo s) (tu_now t) (i64 (u64 (counts_sum (λ n, default 0 (nd_txs (tu_node t) n)) (seqZ (cs_lo s) (cs_hi s - cs_lo s)))) =? cs_txs s) (kd_spans d)) = []) as Hnone'.
    { apply filter_none. intros x Hx Hux. unfold RecordTxCountCheck in Hx. apply list_elem_of_fmap in Hx as (y & -> & Hy). destruct (cs_lo y =? cs_lo s); [unfold unchecked in Hux; cbn in Hux; lia|].
      assert (y ∈ filter (unchecked t0) (kd_spans d)) as Hin by (by apply list_elem_of_filter). rewrite Hnone in Hin. by apply elem_of_nil in Hin. }
    unfold waiting. rewrite Hnone'. cbn. lia. }
  set (q := if decide (tokens_sorted (kd_tokens d) = []) then p else S (p mod length (tokens_sorted (kd_tokens d)))).
  assert (place (tokens_sorted (kd_tokens d1)) (c_lastToken c1) q) as Hq.
  { rewrite Et, El. unfold q. case_decide as Hnil; [by rewrite Hnil in Hp |- *|]. rewrite (next_token_at _ _ p Hp Hnil).
    destruct (lookup_lt_is_Some_2 (tokens_sorted (kd_tokens d)) (p mod length (tokens_sorted (kd_tokens d)))) as [a Ha].
    { apply Nat.mod_upper_bound. by destruct (tokens_sorted (kd_tokens d)). }
    rewrite Ha. apply place_of; [apply tokens_ascending|done]. }
  destruct (IH d1 c1 Hok1 q Hq) as (d' & c' & l & Hrun & Hw' & Htok).
  rewrite Hrun. cbn [mbind option_bind]. exists d', c', (c_lastToken c1 :: l). split; [done|]. split; [cbn [length]; lia|].
  intros Hne i Hi. destruct i as [|i].
  - rewrite Nat.add_0_r, El, <- (next_token_at _ _ p Hp Hne). cbn. destruct (next_token _ _) as [a|] eqn:En; [done|]. rewrite (next_token_at _ _ p Hp Hne) in En.
    apply lookup_ge_None in En. pose proof (Nat.mod_upper_bound p (length (tokens_sorted (kd_tokens d)))). assert (length (tokens_sorted (kd_tokens d)) ≠ 0%nat) by (by destruct (tokens_sorted (kd_tokens d))). lia.
  - cbn [lookup list_lookup length] in *. rewrite Et in Htok. rewrite Htok by (done || lia). f_equal. unfold q. rewrite decide_False by done.
    rewrite Nat.add_succ_l, <- Nat.add_succ_r. rewrite Nat.Div0.add_mod_idemp_l. done.
Qed.

Lemma turn_of (n p k : nat) : (k < n)%nat → ∃ i, (i < n)%nat ∧ ((p + i) mod n = k)%nat.
Proof.
  intros Hk. exists ((k + (n - p mod n)) mod n)%nat. split; [apply Nat.mod_upper_bound; lia|]. rewrite Nat.Div0.add_mod_idemp_r.
  pose proof (Nat.mod_upper_bound p n ltac:(lia)). pose proof (Nat.div_mod_eq p n) as Ed.
  replace (p + (k + (n - p mod n)))%nat with (k + (p / n + 1) * n)%nat by lia. rewrite Nat.Div0.mod_add. by apply Nat.mod_small.
Qed.

(** The comparison of a span with the node: the sum of the node's counts over its blocks,
    as the code's 64 bits keep it, against the transactions the ledger has for it. *)
Definition node_agrees (node : check_node) (s : check_span) : bool :=
  i64 (u64 (counts_sum (λ n, default 0 (nd_txs node n)) (seqZ (cs_lo s) (cs_hi s - cs_lo s)))) =? cs_txs s.
Definition compared (t : check_turn) (s : check_span) : Prop :=
  cs_checked s = Some (tu_now t) ∧ cs_agrees s = Some (node_agrees (tu_node t) s).
(** What no pass changes of a span. *)
Definition of_ledger (s : check_span) : Z * Z * Z := (cs_lo s, cs_hi s, cs_txs s).

Lemma record_of_ledger lo now agrees l : of_ledger <$> RecordTxCountCheck lo now agrees l = of_ledger <$> l.
Proof. unfold RecordTxCountCheck. induction l as [|s l IH]; [done|]. cbn. f_equal; [by destruct (cs_lo s =? lo)|done]. Qed.
Lemma recorded t l s x : NoDup (cs_lo <$> l) → s ∈ l → x ∈ RecordTxCountCheck (cs_lo s) (tu_now t) (node_agrees (tu_node t) s) l → x ∈ l ∨ compared t x.
Proof.
  intros Hnd Hs Hx. unfold RecordTxCountCheck in Hx. apply list_elem_of_fmap in Hx as (y & -> & Hy). destruct (Z.eqb_spec (cs_lo y) (cs_lo s)) as [E|]; [|by left].
  assert (y = s) as -> by (by eapply (NoDup_fmap_elem_inj cs_lo)). by right.
Qed.
Lemma run_compares countFrom t0 ts d c d' c' l : turns_ok t0 d ts → run_checks countFrom ts d c = Some (d', c', l) →
  of_ledger <$> kd_spans d' = of_ledger <$> kd_spans d ∧ ∀ s, s ∈ kd_spans d' → s ∈ kd_spans d ∨ ∃ t, t ∈ ts ∧ compared t s.
Proof.
  revert d c l. induction ts as [|t ts IH]; intros d c l Hok; cbn [run_checks]; [intros [= <- <- <-]; split; [done|by left]|].
  destruct (turns_step countFrom t0 t ts d c Hok) as (d1 & c1 & r & e & -> & Es & Hok1 & _).
  destruct (run_checks countFrom ts d1 c1) as [[[d2 c2] l2]|] eqn:E2; [|done]. cbn. intros [= <- <- <-]. destruct (IH d1 c1 l2 Hok1 E2) as [I1 I2].
  destruct Hok as (_ & Hnd & _). pose proof (next_span_first (kd_spans d)) as Hn.
  destruct (NextTxCountSpan (kd_spans d)) as [s|]; rewrite Es in I1, I2.
  - split; [by rewrite I1, record_of_ledger|]. intros x Hx. destruct (I2 x Hx) as [Hin|(t' & Ht' & ?)]; [|right; exists t'; split; [by right|done]].
    destruct (recorded t (kd_spans d) s x) as [?|?]; [done|apply Hn|done|by left|right; exists t; split; [left|done]].
  - split; [done|]. intros x Hx. destruct (I2 x Hx) as [?|(t' & Ht' & ?)]; [by left|right; exists t'; split; [by right|done]].
Qed.

(** C37: the chain checks reach everything they take in turn. Let the node answer the
    transaction counts of the closed spans and the database its statements, and let no
    span be marked checked later than [t0], before the first pass. Then the passes end;
    as many passes as there are tokens with a supply look at each of them, wherever the
    turn was; and after as many passes as there are closed spans every span was compared by
    one of these passes: it carries the time of that pass, and the answer recorded is
    whether the sum of the node's counts over all blocks of the span, each block once
    whatever the batches, kept in 64 bits, is the number of transactions of the ledger,
    which no pass changes. *)
Theorem chain_checks_reach_all (countFrom t0 : Z) (ts : list check_turn) (d : check_db) (c : chainChecker) :
  turns_ok t0 d ts → (∀ s, s ∈ kd_spans d → unchecked t0 s) → (size (kd_tokens d) ≤ length ts)%nat → (length (kd_spans d) ≤ length ts)%nat →
  ∃ d' c' l, run_checks countFrom ts d c = Some (d', c', l) ∧ (∀ t, is_Some (kd_tokens d !! t) → t ∈ l) ∧
    of_ledger <$> kd_spans d' = of_ledger <$> kd_spans d ∧
    ∀ s, s ∈ kd_spans d' → ∃ t, t ∈ ts ∧ cs_checked s = Some (tu_now t) ∧
      cs_agrees s = Some (i64 (u64 (counts_sum (λ n, default 0 (nd_txs (tu_node t) n)) (seqZ (cs_lo s) (cs_hi s - cs_lo s)))) =? cs_txs s).
Proof.
  intros Hok Hold Hn Hs. destruct (place_exists (tokens_sorted (kd_tokens d)) (c_lastToken c) (tokens_ascending _)) as [p Hp].
  destruct (run_reaches countFrom t0 ts d c Hok p Hp) as (d' & c' & l & Hrun & Hw & Htok).
  destruct (run_compares countFrom t0 ts d c d' c' l Hok Hrun) as [Hled Hcmp]. exists d', c', l. split; [done|]. split.
  - intros t Ht. assert (t ∈ tokens_sorted (kd_tokens d)) as Hin.
    { unfold tokens_sorted. rewrite merge_sort_Permutation. by apply elem_of_elements, elem_of_dom. }
    apply list_elem_of_lookup in Hin as [k Hk]. assert (length (tokens_sorted (kd_tokens d)) = size (kd_tokens d)) as Hlen.
    { unfold tokens_sorted. rewrite (Permutation_length (merge_sort_Permutation token_le _)), <- size_dom. done. }
    destruct (turn_of (length (tokens_sorted (kd_tokens d))) p k) as (i & Hi & Ei); [by eapply lookup_lt_Some|].
    apply (list_elem_of_lookup_2 l i). rewrite Htok, Ei; [done|by destruct (tokens_sorted (kd_tokens d))|lia].
  - split; [done|]. intros s Hin. destruct (Hcmp s Hin) as [Hd|(t & Ht & Hc1 & Hc2)]; [exfalso|by exists t].
    assert (s ∈ filter (unchecked t0) (kd_spans d')) as Hf by (apply list_elem_of_filter; split; [by apply Hold|done]).
    assert (waiting t0 (kd_spans d) ≤ length (kd_spans d))%nat by (unfold waiting; apply length_filter). unfold waiting in *. destruct (filter (unchecked t0) (kd_spans d')); [by apply elem_of_nil in Hf|cbn in Hw; lia].
Qed.

(** ** Balances *)

Definition differs (node : check_node) (s : BalanceSample) : Prop := ∃ v, on_chain node s = Some v ∧ v ≠ bs_balance s.
(** Two passes in which the key differed, with the same stored value. *)
Theorem balance_alarm_confirmed (node : check_node) (samples : list BalanceSample) (suspects : gmap gostring Z) (n : Z * Z) :
  NoDup (suspect_key <$> samples) →
  let '(suspects', n') := foldl (check_balance node) (suspects, n) samples in
  (∀ key v, suspects' !! key = Some v → suspects !! key = Some v ∨ ∃ s, s ∈ samples ∧ differs node s ∧ suspect_key s = key ∧ bs_balance s = v) ∧
  (n.2 < n'.2 → ∃ s, s ∈ samples ∧ differs node s ∧ suspects !! suspect_key s = Some (bs_balance s)).
Proof.
  revert suspects n. induction samples as [|s samples IH]; intros suspects n Hnd; cbn [foldl]; [split; [by left|lia]|].
  apply NoDup_cons in Hnd as [Hs Hnd]. destruct (check_balance node (suspects, n) s) as [susp1 n1] eqn:E. specialize (IH susp1 n1 Hnd). destruct (foldl _ _ samples) as [susp' n'].
  destruct IH as [I1 I2].
  assert ((∀ key v, susp1 !! key = Some v → suspects !! key = Some v ∨ (differs node s ∧ suspect_key s = key ∧ bs_balance s = v)) ∧ (∀ key, key ≠ suspect_key s → susp1 !! key = suspects !! key) ∧
    (n.2 < n1.2 → differs node s ∧ suspects !! suspect_key s = Some (bs_balance s)) ∧ n.2 ≤ n1.2) as (J1 & J2 & J3 & J4).
  { revert E. unfold check_balance. destruct (on_chain node s) as [v|] eqn:Ev; [|intros [= <- <-]; split_and!; auto; lia].
    destruct (Z.eqb_spec v (bs_balance s)) as [->|Hv]; [intros [= <- <-]; cbn; split_and!; [intros key w [_ ?]%lookup_delete_Some; by left|intros; by rewrite lookup_delete_ne|lia|lia]|].
    assert (differs node s) by (by exists v). case_bool_decide as Eb; intros [= <- <-]; cbn.
    - split_and!; [by left|done|done|lia].
    - split_and!; [intros key w [[<- <-]|[_ ?]]%lookup_insert_Some; [by right|by left]|intros; by rewrite lookup_insert_ne|lia|lia]. }
  split.
  - intros key v Hk. destruct (I1 key v Hk) as [Hk1|(x & Hx & ? & ? & ?)]; [destruct (J1 key v Hk1) as [?|(? & ? & ?)]; [by left|right; exists s; split; [left|done]]|right; exists x; split; [by right|done]].
  - intros Hlt. destruct (decide (n.2 < n1.2)) as [Hd|Hd]; [exists s; split; [left|by apply J3]|]. destruct (I2 ltac:(lia)) as (x & Hx & Hdx & Hsx). exists x. split; [by right|]. split; [done|].
    rewrite <- J2; [done|]. intros Ek. apply Hs. rewrite <- Ek. by apply list_elem_of_fmap_2.
Qed.

(** Three tokens, two spans, from the middle of the turn. *)
Definition quiet_node : check_node := mkCheckNode (λ _ _ _, None) (λ _ _, None) (λ _, Some 1).
Definition checked_db : check_db :=
  mkCheckDb (mkBlocks 300 299 true false true) {[ $"0xa" := 1; $"0xb" := 2; $"0xc" := 3 ]} (Some 299)
    [mkCheckSpan 0 250 250 (Some 4) None; mkCheckSpan 250 260 9 None None].
Definition three_passes : list check_turn := (λ t, mkTurn quiet_node [] [] t) <$> [5; 6; 7].
Lemma chain_checks_reach_all_witness :
  (∃ d' c' l, run_checks 0 three_passes checked_db (mkChecker ($"0xb") ∅) = Some (d', c', l) ∧ (∀ t, is_Some (kd_tokens checked_db !! t) → t ∈ l) ∧
    of_ledger <$> kd_spans d' = of_ledger <$> kd_spans checked_db ∧
    ∀ s, s ∈ kd_spans d' → ∃ t, t ∈ three_passes ∧ cs_checked s = Some (tu_now t) ∧
      cs_agrees s = Some (i64 (u64 (counts_sum (λ n, default 0 (nd_txs (tu_node t) n)) (seqZ (cs_lo s) (cs_hi s - cs_lo s)))) =? cs_txs s)) ∧
  (λ x, (x.2, cs_agrees <$> kd_spans x.1.1)) <$> run_checks 0 three_passes checked_db (mkChecker ($"0xb") ∅) = Some ([$"0xc"; $"0xa"; $"0xb"], [Some true; Some false]).
Proof.
  split; [|vm_compute; reflexivity]. apply (chain_checks_reach_all 0 4 three_passes checked_db (mkChecker ($"0xb") ∅)).
  - split; [by eexists|]. split; [by apply (bool_decide_unpack _)|]. split.
    + intros s [->|[->|[]%elem_of_nil]%elem_of_cons]%elem_of_cons; unfold span_ok, txCountBatch; cbn; lia.
    + intros t Ht. split; [|intros s _ n _; apply list_elem_of_fmap in Ht as (? & -> & _); by eexists].
      apply list_elem_of_fmap in Ht as (x & -> & [->|[->|[->|[]%elem_of_nil]%elem_of_cons]%elem_of_cons]%elem_of_cons); cbn; lia.
  - intros s [->|[->|[]%elem_of_nil]%elem_of_cons]%elem_of_cons; unfold unchecked; cbn; lia || done.
  - vm_compute. lia.
  - cbn. lia.
Defined.
