(* ===== verification/EventBus.v ===== *)
(** * The event bus

    [Bus] of [internal/events/bus.go]: channels of a hundred events by event type, a
    publisher that drops what a full channel cannot take, and a close that closes every
    subscribed channel once. A send to a closed channel and a second close of one panic.
    The mutex makes each method one step; readers take from their channels in between. *)

From S2P Require Import Prelude.

Inductive EventType := EventBlockNew | EventTxNew | EventAddressActivity | EventPriceUpdate | EventSyncStatus.
#[export] Instance EventType_eq_dec : EqDecision EventType.
Proof. solve_decision. Defined.

Section Bus.
Context {Data : Type}.
Record Event := mkEvent { ev_type : EventType; ev_data : Data }.

Record chan := mkChan { ch_buffer : list Event; ch_closed : bool }.
(** Channels are numbered as they are made. *)
Record Bus := mkBus { b_subscribers : EventType → list nat; b_closed : bool; b_chans : list chan }.
Definition NewBus : Bus := mkBus (λ _, []) false [].
Definition buffer_size : nat := 100.

Definition subscribe_in (ts : list EventType) (b : Bus) : Bus * nat :=
  let ch := length (b_chans b) in
  (mkBus (λ t, if decide (t ∈ ts) then (b_subscribers b t ++ [ch])%list else b_subscribers b t) (b_closed b) (b_chans b ++ [mkChan [] false]), ch).
Definition Subscribe (t : EventType) : Bus → Bus * nat := subscribe_in [t].
Definition SubscribeAll : Bus → Bus * nat := subscribe_in [EventBlockNew; EventTxNew; EventAddressActivity; EventPriceUpdate; EventSyncStatus].

(** The first of the list, in each list. *)
Fixpoint remove_first (ch : nat) (l : list nat) : list nat :=
  match l with [] => [] | x :: l => if decide (x = ch) then l else x :: remove_first ch l end.
Definition Unsubscribe (ch : nat) (b : Bus) : Bus := mkBus (λ t, remove_first ch (b_subscribers b t)) (b_closed b) (b_chans b).

(** A send that does not wait. *)
Definition send (e : Event) (chans : list chan) (ch : nat) : outcome (list chan) :=
  match chans !! ch with
  | None => Val chans
  | Some c =>
      if ch_closed c then Panic
      else if decide (length (ch_buffer c) < buffer_size)%nat then Val (<[ch := mkChan (ch_buffer c ++ [e]) false]> chans) else Val chans
  end.
Fixpoint send_all (e : Event) (subs : list nat) (chans : list chan) : outcome (list chan) :=
  match subs with
  | [] => Val chans
  | ch :: subs => match send e chans ch with Panic => Panic | Val chans => send_all e subs chans end
  end.
Definition Publish (e : Event) (b : Bus) : outcome Bus :=
  if b_closed b then Val b
  else match send_all e (b_subscribers b (ev_type e)) (b_chans b) with Panic => Panic | Val chans => Val (mkBus (b_subscribers b) false chans) end.

Definition all_types : list EventType := [EventBlockNew; EventTxNew; EventAddressActivity; EventPriceUpdate; EventSyncStatus].
Definition close_chan (chans : list chan) (ch : nat) : outcome (list chan) :=
  match chans !! ch with
  | None => Val chans
  | Some c => if ch_closed c then Panic else Val (<[ch := mkChan (ch_buffer c) true]> chans)
  end.
(** [closedChans] keeps a channel of several lists from being closed twice; the lists in
    the order a map gives them. *)
Fixpoint close_all (subs closed : list nat) (chans : list chan) : outcome (list chan) :=
  match subs with
  | [] => Val chans
  | ch :: subs =>
      if decide (ch ∈ closed) then close_all subs closed chans
      else match close_chan chans ch with Panic => Panic | Val chans => close_all subs (ch :: closed) chans end
  end.
Definition Close (order : list EventType) (b : Bus) : outcome Bus :=
  match close_all (order ≫= b_subscribers b) [] (b_chans b) with Panic => Panic | Val chans => Val (mkBus (λ _, []) true chans) end.

(** A reader takes the oldest event. *)
Definition receive (ch : nat) (b : Bus) : Bus :=
  mkBus (b_subscribers b) (b_closed b) (alter (λ c, mkChan (tail (ch_buffer c)) (ch_closed c)) ch (b_chans b)).

Inductive bus_op := OpSubscribe (ts : list EventType) | OpUnsubscribe (ch : nat) | OpPublish (e : Event) | OpClose (order : list EventType) | OpReceive (ch : nat).
Definition bus_step (b : Bus) (o : bus_op) : outcome Bus :=
  match o with
  | OpSubscribe ts => Val (subscribe_in ts b).1
  | OpUnsubscribe ch => Val (Unsubscribe ch b)
  | OpPublish e => Publish e b
  | OpClose order => Close order b
  | OpReceive ch => Val (receive ch b)
  end.
Fixpoint bus_run (b : Bus) (os : list bus_op) : outcome Bus :=
  match os with [] => Val b | o :: os => match bus_step b o with Panic => Panic | Val b => bus_run b os end end.

(** ** Properties *)

(** Subscribed channels are open, once in each list, and no buffer overflows. *)
Record bus_ok (b : Bus) : Prop := {
  bo_open : ∀ t ch, ch ∈ b_subscribers b t → ∃ c, b_chans b !! ch = Some c ∧ ch_closed c = false;
  bo_once : ∀ t, NoDup (b_subscribers b t);
  bo_size : ∀ ch c, b_chans b !! ch = Some c → (length (ch_buffer c) ≤ buffer_size)%nat }.

Lemma remove_first_sub ch l x : x ∈ remove_first ch l → x ∈ l.
Proof. induction l as [|y l IH]; [done|]. cbn. case_decide; [by right|]. intros [->|?]%elem_of_cons; [left|right; auto]. Qed.
Lemma remove_first_nodup ch l : NoDup l → NoDup (remove_first ch l).
Proof. induction 1 as [|y l Hy Hl IH]; [constructor|]. cbn. case_decide; [done|]. constructor; [|done]. intros ?%remove_first_sub. done. Qed.

Definition open_in (chans : list chan) (ch : nat) : Prop := ∃ c, chans !! ch = Some c ∧ ch_closed c = false.
Definition sized (chans : list chan) : Prop := ∀ ch c, chans !! ch = Some c → (length (ch_buffer c) ≤ buffer_size)%nat.
(** What a publish does to one channel. *)
Definition delivered (e : Event) (c : chan) : chan := if decide (length (ch_buffer c) < buffer_size)%nat then mkChan (ch_buffer c ++ [e]) (ch_closed c) else c.
Lemma send_all_spec e subs chans : NoDup subs → (∀ ch, ch ∈ subs → open_in chans ch) →
  ∃ chans', send_all e subs chans = Val chans' ∧ ∀ ch, chans' !! ch = (if decide (ch ∈ subs) then delivered e else id) <$> chans !! ch.
Proof.
  intros Hnd. revert chans. induction Hnd as [|ch subs Hch Hnd IH]; intros chans Hopen; cbn [send_all].
  { exists chans. split; [done|]. intros ch. rewrite decide_False by apply not_elem_of_nil. by destruct (chans !! ch). }
  destruct (Hopen ch ltac:(left)) as (c & Hc & Hcl). unfold send. rewrite Hc, Hcl.
  set (chans1 := if decide (length (ch_buffer c) < buffer_size)%nat then <[ch := mkChan (ch_buffer c ++ [e]) false]> chans else chans).
  assert (∀ x, chans1 !! x = (if decide (x = ch) then delivered e else id) <$> chans !! x) as H1.
  { intros x. unfold chans1, delivered. destruct (decide (x = ch)) as [->|Hx].
    - rewrite Hc. cbn. case_decide; [by rewrite list_lookup_insert_eq, Hcl by (by eapply lookup_lt_Some)|done].
    - case_decide; [rewrite list_lookup_insert_ne by done|]; by destruct (chans !! x). }
  destruct (IH chans1) as (chans' & E & H2).
  { intros x Hx. assert (x ≠ ch) by (by intros ->). destruct (Hopen x ltac:(by right)) as (cx & Hcx & Hxo). exists cx. rewrite H1, decide_False, Hcx by done. done. }
  exists chans'. split.
  - revert E. unfold chans1. case_decide; done.
  - intros x. rewrite H2, H1. destruct (decide (x = ch)) as [->|Hx].
    + rewrite (decide_False (P := ch ∈ subs)), (decide_True (P := ch ∈ ch :: subs)) by (done || left). by destruct (chans !! ch).
    + destruct (decide (x ∈ subs)); [rewrite decide_True by (by right)|rewrite decide_False by (by intros [?|?]%elem_of_cons)]; by destruct (chans !! x).
Qed.
Lemma close_all_spec subs closed chans : (∀ ch, ch ∈ subs → ch ∉ closed → open_in chans ch) →
  ∃ chans', close_all subs closed chans = Val chans' ∧ length chans' = length chans ∧
    ∀ ch, chans' !! ch = (if decide (ch ∈ subs ∧ ch ∉ closed) then λ c, mkChan (ch_buffer c) true else id) <$> chans !! ch.
Proof.
  revert closed chans. induction subs as [|ch subs IH]; intros closed chans Hopen; cbn [close_all].
  { exists chans. split; [done|]. split; [done|]. intros ch. rewrite decide_False by (by intros [?%elem_of_nil _]). by destruct (chans !! ch). }
  destruct (decide (ch ∈ closed)) as [Hcl|Hcl].
  - destruct (IH closed chans) as (chans' & E & El & H). { intros x Hx. apply Hopen. by right. }
    exists chans'. split; [done|]. split; [done|]. intros x. rewrite H. destruct (decide (x ∈ subs ∧ x ∉ closed)) as [[? ?]|Hn].
    + rewrite decide_True; [done|]. split; [by right|done].
    + rewrite decide_False; [done|]. intros [[->|?]%elem_of_cons ?]; naive_solver.
  - destruct (Hopen ch ltac:(left) Hcl) as (c & Hc & Hco). unfold close_chan. rewrite Hc, Hco.
    destruct (IH (ch :: closed) (<[ch := mkChan (ch_buffer c) true]> chans)) as (chans' & E & El & H).
    { intros x Hx Hnc. apply not_elem_of_cons in Hnc as [Hne Hnc]. destruct (Hopen x ltac:(by right) Hnc) as (cx & Hcx & ?). exists cx. rewrite list_lookup_insert_ne by done. done. }
    exists chans'. split; [done|]. split; [by rewrite El, length_insert|]. intros x. rewrite H. destruct (decide (x = ch)) as [->|Hx].
    + rewrite list_lookup_insert_eq by (by eapply lookup_lt_Some). rewrite (decide_False (P := ch ∈ subs ∧ _)) by (intros [_ Hn]; apply Hn; left).
      rewrite (decide_True (P := ch ∈ ch :: subs ∧ ch ∉ closed)) by (split; [left|done]). by rewrite Hc.
    + rewrite list_lookup_insert_ne by done. destruct (decide (x ∈ subs ∧ x ∉ ch :: closed)) as [[? Hn]|Hn].
      * rewrite decide_True; [done|]. split; [by right|]. by apply not_elem_of_cons in Hn as [_ ?].
      * rewrite decide_False; [done|]. intros [[->|?]%elem_of_cons ?]; [done|]. apply Hn. split; [done|]. by apply not_elem_of_cons.
Qed.

Lemma bus_ok_new : bus_ok NewBus.
Proof. split; [by intros t ch ?%elem_of_nil|constructor|done]. Qed.
Lemma subscribe_ok ts b : bus_ok b → bus_ok (subscribe_in ts b).1.
Proof.
  intros [Ho Hn Hs]. assert (∀ t ch, ch ∈ b_subscribers b t → (ch < length (b_chans b))%nat) as Hlt by (intros t ch Hch; destruct (Ho t ch Hch) as (c & Hc & _); by eapply lookup_lt_Some).
  split; cbn [subscribe_in fst b_subscribers b_chans].
  - intros t ch Hch. assert (ch ∈ b_subscribers b t ∨ ch = length (b_chans b)) as [Hin| ->].
    { case_decide; [|by left]. by rewrite elem_of_app, list_elem_of_singleton in Hch. }
    + destruct (Ho t ch Hin) as (c & Hc & ?). exists c. split; [by apply lookup_app_l_Some|done].
    + exists (mkChan [] false). split; [by rewrite lookup_app_r, Nat.sub_diag by done|done].
  - intros t. case_decide; [|done]. apply NoDup_app. split; [done|]. split; [|apply NoDup_singleton].
    intros x Hx ->%list_elem_of_singleton. apply Hlt in Hx. lia.
  - intros ch c [Hc|[_ Hc]]%lookup_app_Some; [by eapply Hs|]. destruct (ch - length (b_chans b))%nat; [injection Hc as <-; cbn; unfold buffer_size; lia|done].
Qed.
Lemma delivered_size e c : (length (ch_buffer c) ≤ buffer_size)%nat → (length (ch_buffer (delivered e c)) ≤ buffer_size)%nat.
Proof. unfold delivered. case_decide; [|done]. cbn. rewrite length_app. cbn. lia. Qed.
Lemma delivered_closed e c : ch_closed (delivered e c) = ch_closed c.
Proof. unfold delivered. by case_decide. Qed.
(** A publish gives the event once to each channel of its type that has room. *)
Lemma publish_spec e b : bus_ok b → ∃ b', Publish e b = Val b' ∧ b_subscribers b' = b_subscribers b ∧ b_closed b' = b_closed b ∧
  ∀ ch, b_chans b' !! ch = (if decide (b_closed b = false ∧ ch ∈ b_subscribers b (ev_type e)) then delivered e else id) <$> b_chans b !! ch.
Proof.
  intros [Ho Hn Hs]. unfold Publish. destruct (b_closed b) eqn:Ec.
  - exists b. split; [done|]. split; [done|]. split; [done|]. intros ch. rewrite decide_False by naive_solver. by destruct (b_chans b !! ch).
  - destruct (send_all_spec e (b_subscribers b (ev_type e)) (b_chans b) (Hn _) (Ho _)) as (chans & -> & H). eexists. split; [done|]. split; [done|]. split; [done|].
    intros ch. cbn. rewrite H. destruct (decide (ch ∈ b_subscribers b (ev_type e))); [rewrite decide_True by done|rewrite decide_False by naive_solver]; done.
Qed.
Lemma bus_step_ok b o : bus_ok b → ∃ b', bus_step b o = Val b' ∧ bus_ok b'.
Proof.
  intros Hb. pose proof Hb as [Ho Hn Hs]. destruct o as [ts|ch|e|order|ch]; cbn [bus_step].
  - eexists. split; [done|]. by apply subscribe_ok.
  - eexists. split; [done|]. split; cbn; [intros t x Hx; by eapply Ho, remove_first_sub|intros t; by apply remove_first_nodup|done].
  - destruct (publish_spec e b Hb) as (b' & E & E1 & E2 & E3). exists b'. split; [done|]. split; rewrite ?E1.
    + intros t x Hx. destruct (Ho t x Hx) as (c & Hc & Hcl). rewrite E3, Hc. match goal with |- context [decide ?P] => destruct (decide P) end; [exists (delivered e c); split; [done|by rewrite delivered_closed]|by exists c].
    + done.
    + intros x c. rewrite E3. destruct (b_chans b !! x) as [cx|] eqn:Ex; [|done]. match goal with |- context [decide ?P] => destruct (decide P) end; [intros [= <-]; by apply delivered_size, (Hs x)|intros [= <-]; by apply (Hs x)].
  - unfold Close. destruct (close_all_spec (order ≫= b_subscribers b) [] (b_chans b)) as (chans & -> & _ & H).
    { intros x (t & Hx & _)%list_elem_of_bind _. by apply (Ho t). }
    eexists. split; [done|]. split; cbn; [by intros t x ?%elem_of_nil|constructor|]. intros x c. rewrite H. destruct (b_chans b !! x) as [cx|] eqn:Ex; [|done].
    match goal with |- context [decide ?P] => destruct (decide P) end; intros [= <-]; by apply (Hs x cx).
  - eexists. split; [done|]. unfold receive. split; cbn; [|done|].
    + intros t x Hx. destruct (Ho t x Hx) as (c & Hc & Hcl). destruct (decide (x = ch)) as [->|Hne]; [|exists c; by rewrite list_lookup_alter_ne].
      rewrite list_lookup_alter_eq, Hc. eexists. split; [done|]. done.
    + intros x c Hx. destruct (decide (x = ch)) as [->|Hne]; [|rewrite list_lookup_alter_ne in Hx by done; by apply (Hs x)].
      rewrite list_lookup_alter_eq in Hx. destruct (b_chans b !! ch) as [cx|] eqn:Ex; [|done]. injection Hx as <-. specialize (Hs ch cx Ex). destruct (ch_buffer cx); cbn in *; lia.
Qed.

(** The bus never panics: through any sequence of subscriptions, unsubscriptions,
    publishes, closes and reads, no send meets a closed channel and no channel is closed
    twice; no channel holds more than a hundred events; and a publish appends the event
    once to each channel subscribed to its type that has room, and to no other. *)
Theorem bus_never_panics (os : list bus_op) : ∃ b, bus_run NewBus os = Val b ∧ bus_ok b ∧
  ∀ e, ∃ b', Publish e b = Val b' ∧ ∀ ch, b_chans b' !! ch = (if decide (b_closed b = false ∧ ch ∈ b_subscribers b (ev_type e)) then delivered e else id) <$> b_chans b !! ch.
Proof.
  assert (∀ b0, bus_ok b0 → ∃ b, bus_run b0 os = Val b ∧ bus_ok b) as Hrun.
  { induction os as [|o os IH]; intros b0 Hb; cbn [bus_run]; [eauto|]. destruct (bus_step_ok b0 o Hb) as (b1 & -> & Hb1). by apply IH. }
  destruct (Hrun NewBus bus_ok_new) as (b & E & Hb). exists b. split; [done|]. split; [done|]. intros e. destruct (publish_spec e b Hb) as (b' & ? & _ & _ & ?). eauto.
Qed.
End Bus.

(** A channel made after [Close] is open for good: nothing is sent to it and the next
    reader waits. *)
Example subscribe_after_close : (λ b, (b_closed b, b_chans b)) <$> match bus_run (Data := Z) NewBus [OpClose all_types; OpSubscribe [EventTxNew]; OpPublish (mkEvent EventTxNew 1)] with Val b => Some b | Panic => None end
  = Some (true, [mkChan [] false]).
Proof. reflexivity. Qed.
