(* ===== verification/RunningCheck.v ===== *)
(** * The transaction of a running repair

    The transaction of [repairDrifts], with [repairable] and [settleRunning] of
    [internal/db/verify.go], [ledger_running_diff_chain_token] (migration 026) and the
    statement [runningTruth]: counters that ingest keeps by increments, against the closed
    spans of the ledger and the rows above them. Blocks, reverts, span closes and
    settlements of the ledger commit between its statements. The addresses it hands on are
    rebased after it ([RunningRepair]). *)

From S2P Require Import Prelude Session.
From stdpp Require Import strings.
Local Open Scope Z_scope.

Inductive family := FToken | FChain | FAddress.
#[export] Instance family_eq_dec : EqDecision family.
Proof. solve_decision. Defined.
#[export] Instance family_countable : Countable family.
Proof.
  refine (inj_countable' (λ f, match f with FToken => 0 | FChain => 1 | FAddress => 2 end)%nat
    (λ n, match n with 0 => FToken | 1 => FChain | _ => FAddress end)%nat _). by intros [].
Defined.

(** A row of a running table, and one of its columns. *)
Notation rowkey := (family * string)%type.
Notation ckey := (family * string * string)%type.
Record Drift := mkDrift { dr_key : ckey; dr_stored : option Z; dr_recount : option Z }.
#[export] Instance Drift_eq_dec : EqDecision Drift.
Proof. solve_decision. Defined.

(** [ledger_repairs]: [rp_lo] is the span a settlement corrected, none for a running
    counter. *)
Record repair := mkRepair { rp_at : Z; rp_lo : option Z; rp_key : ckey; rp_stored : option Z; rp_repaired : option Z }.

(** The open transaction of a repair: its [now()], whether it holds the rebase lock, the
    rows it holds with the values they had, the rows of its own in the two tables. *)
Record repair_tx := mkTx { x_now : Z; x_rebase : bool; x_locked : gset rowkey; x_old : gmap ckey (option Z); x_ids : gset nat; x_quarantined : gset rowkey }.

(** [v_written]: the counters repairs have written and committed or are about to. *)
Record vstate := mkV {
  v_closed : gmap ckey Z; v_open : gmap ckey Z; v_running : gmap ckey (option Z);
  v_repairs : gmap nat repair; v_next : nat; v_quarantine : gset rowkey; v_clock : Z; v_tx : option repair_tx; v_written : gset ckey }.

Definition set_running (m : gmap ckey (option Z)) (s : vstate) : vstate :=
  mkV (v_closed s) (v_open s) m (v_repairs s) (v_next s) (v_quarantine s) (v_clock s) (v_tx s) (v_written s).
Definition set_ledger (c o : gmap ckey Z) (s : vstate) : vstate :=
  mkV c o (v_running s) (v_repairs s) (v_next s) (v_quarantine s) (v_clock s) (v_tx s) (v_written s).
Definition set_repairs (m : gmap nat repair) (n : nat) (s : vstate) : vstate :=
  mkV (v_closed s) (v_open s) (v_running s) m n (v_quarantine s) (v_clock s) (v_tx s) (v_written s).
Definition set_quarantine (q : gset rowkey) (s : vstate) : vstate :=
  mkV (v_closed s) (v_open s) (v_running s) (v_repairs s) (v_next s) q (v_clock s) (v_tx s) (v_written s).
Definition set_tx (x : option repair_tx) (s : vstate) : vstate :=
  mkV (v_closed s) (v_open s) (v_running s) (v_repairs s) (v_next s) (v_quarantine s) (v_clock s) x (v_written s).
Definition set_written (w : gset ckey) (s : vstate) : vstate :=
  mkV (v_closed s) (v_open s) (v_running s) (v_repairs s) (v_next s) (v_quarantine s) (v_clock s) (v_tx s) w.

(** The column, a NULL read as 0, and [runningTruth]: the closed spans, with what the open
    backfill span has staged, and the open rows. *)
Definition value (s : vstate) (k : ckey) : Z := default 0 (default None (v_running s !! k)).
Definition truth (s : vstate) (k : ckey) : Z := default 0 (v_closed s !! k) + default 0 (v_open s !! k).
Definition right_counter (s : vstate) (k : ckey) : Prop := value s k = truth s k.

(** [ledger_running_diff_chain_token]. *)
Definition running_diff (s : vstate) : list Drift :=
  (λ k, mkDrift k (Some (value s k)) (Some (truth s k))) <$> filter (λ k, value s k ≠ truth s k ∧ k.1.1 ≠ FAddress) (elements (dom (v_running s))).

(** ** The statements of a repair *)

Definition in_tx {A} (f : repair_tx → vstate → vstate * option A) (s : vstate) : vstate * option A :=
  match v_tx s with Some x => f x s | None => (s, None) end.

Definition begin_tx (s : vstate) : vstate * option unit := (set_tx (Some (mkTx (v_clock s) false ∅ ∅ ∅ ∅)) s, Some tt).
Definition lock_rebase : vstate → vstate * option unit :=
  in_tx (λ x s, (set_tx (Some (mkTx (x_now x) true (x_locked x) (x_old x) (x_ids x) (x_quarantined x))) s, Some tt)).

(** The last settlement of any counter of the row. *)
Definition last_settled (rk : rowkey) (s : vstate) : option Z :=
  map_fold (λ (_ : nat) (r : repair) acc,
      if decide ((rp_key r).1 = rk ∧ is_Some (rp_lo r)) then Some (match acc with Some a => Z.max a (rp_at r) | None => rp_at r end) else acc)
    None (v_repairs s).
(** Repaired before, and no settlement of its row since. *)
Definition repaired_before (k : ckey) (s : vstate) : bool :=
  existsb (λ p : nat * repair, bool_decide (rp_lo p.2 = None ∧ rp_key p.2 = k) && match last_settled k.1 s with Some a => a <? rp_at p.2 | None => true end)
    (map_to_list (v_repairs s)).
Definition repair_flags (k : ckey) (s : vstate) : vstate * option (bool * bool) :=
  (s, Some (bool_decide (k.1 ∈ v_quarantine s), repaired_before k s)).
Definition quarantine_row (rk : rowkey) : vstate → vstate * option unit :=
  in_tx (λ x s, (set_quarantine ({[ rk ]} ∪ v_quarantine s)
    (set_tx (Some (mkTx (x_now x) (x_rebase x) (x_locked x) (x_old x) (x_ids x) (if decide (rk ∈ v_quarantine s) then x_quarantined x else {[ rk ]} ∪ x_quarantined x))) s), Some tt)).

(** The insert of a repair takes the default date: the start of the transaction. *)
Definition log_repair (d : Drift) : vstate → vstate * option nat :=
  in_tx (λ x s, (set_repairs (<[v_next s := mkRepair (x_now x) None (dr_key d) (dr_stored d) (dr_recount d)]> (v_repairs s)) (S (v_next s))
    (set_tx (Some (mkTx (x_now x) (x_rebase x) (x_locked x) (x_old x) ({[ v_next s ]} ∪ x_ids x) (x_quarantined x))) s), Some (v_next s))).
Definition unlog (id : nat) : vstate → vstate * option unit :=
  in_tx (λ x s, (set_repairs (delete id (v_repairs s)) (v_next s) s, Some tt)).
Definition relog (id : nat) (k : ckey) (running truth_ : Z) : vstate → vstate * option unit :=
  in_tx (λ x s, (set_repairs (alter (λ r, mkRepair (rp_at r) (rp_lo r) k (Some running) (Some truth_)) id (v_repairs s)) (v_next s) s, Some tt)).

(** [SELECT ... FOR UPDATE]: none without a row. *)
Definition lock_read (k : ckey) : vstate → vstate * option (option Z) :=
  in_tx (λ x s, match v_running s !! k with
    | None => (s, Some None)
    | Some v => (set_tx (Some (mkTx (x_now x) (x_rebase x) ({[ k.1 ]} ∪ x_locked x) (<[k := default v (x_old x !! k)]> (x_old x)) (x_ids x) (x_quarantined x))) s, Some (Some (default 0 v)))
    end).
Definition read_truth (k : ckey) (s : vstate) : vstate * option Z := (s, Some (truth s k)).
Definition write_counter (k : ckey) (v : Z) : vstate → vstate * option unit :=
  in_tx (λ x s, (set_written ({[ k ]} ∪ v_written s) (set_running (<[k := Some v]> (v_running s)) s), Some tt)).

Definition commit_tx : vstate → vstate * option unit := in_tx (λ x s, (set_tx None s, Some tt)).
(** The rows go back to what they were, the repair's own rows are gone. *)
Definition rollback_tx (w0 : gset ckey) (s : vstate) : vstate * unit :=
  (match v_tx s with
   | None => s
   | Some x => set_written w0 (set_tx None (set_running (x_old x ∪ v_running s)
       (set_quarantine (v_quarantine s ∖ x_quarantined x) (set_repairs (filter (λ p, p.1 ∉ x_ids x) (v_repairs s)) (v_next s) s))))
   end, tt).

(** ** The repair *)

Section Repair.
Context (env : nat → vstate → vstate) (out : nat → stmt_end).
Local Notation stmt := (stmt env out).
Local Notation mem := (mem env).
Local Notation "'do' x ← m ; k" := (Session.bind m (λ x, k)) (at level 200, x pattern, m at level 100, k at level 200).

Definition running_column (k : ckey) : bool :=
  match k.1.1 with
  | FChain => String.eqb k.2 "count"
  | FToken => String.eqb k.2 "transfers" || String.eqb k.2 "supply"
  | FAddress => String.eqb k.2 "txs" || String.eqb k.2 "sent" || String.eqb k.2 "internal" || String.eqb k.2 "transfers"
  end.

Definition settleRunning (d : Drift) : M vstate unit :=
  let k := dr_key d in
  if negb (running_column k) then Session.fail
  else
    do logged ← stmt (log_repair d);
    do row ← stmt (lock_read k);
    match row with
    | None => stmt (unlog logged)
    | Some running =>
        do t ← stmt (read_truth k);
        do same ← stmt (λ s, (s, Some (running =? t)));
        if same : bool then stmt (unlog logged)
        else
          do _ ← stmt (write_counter k t);
          stmt (relog logged k running t)
    end.

Definition repairable (d : Drift) : M vstate bool :=
  do (quarantined, again) ← stmt (repair_flags (dr_key d));
  if quarantined : bool then Session.ret false
  else if again : bool then do _ ← stmt (quarantine_row (dr_key d).1); Session.ret false
  else Session.ret true.

(** Tokens by address, then the chain counters, then the addresses, which are collected. *)
Definition rank (f : family) : Z := match f with FToken => 0 | FChain => 1 | FAddress => 2 end.
Definition drift_le (a b : Drift) : Prop :=
  rank (dr_key a).1.1 < rank (dr_key b).1.1 ∨
  rank (dr_key a).1.1 = rank (dr_key b).1.1 ∧ String.leb (dr_key a).1.2 (dr_key b).1.2 = true.
#[export] Instance drift_le_dec a b : Decision (drift_le a b).
Proof. unfold drift_le. apply _. Defined.

(** [addresses] in the order they are met, [byAddress] the drifts of all of them. *)
Fixpoint repair_loop (drifts : list Drift) (addresses : list string) (byAddress : list Drift) : M vstate (list string * list Drift) :=
  match drifts with
  | [] => Session.ret (addresses, byAddress)
  | d :: drifts =>
      do r ← repairable d;
      if negb r then repair_loop drifts addresses byAddress
      else if decide ((dr_key d).1.1 = FAddress) then
        repair_loop drifts (if decide ((dr_key d).1.2 ∈ addresses) then addresses else addresses ++ [(dr_key d).1.2]) (byAddress ++ [d])
      else do _ ← settleRunning d; repair_loop drifts addresses byAddress
  end.

Definition repair_drifts (drifts : list Drift) (w0 : gset ckey) : M vstate (list string * list Drift) :=
  let drifts := merge_sort drift_le drifts in
  on_error
    (do _ ← stmt begin_tx;
     do _ ← (if decide (Exists (λ d, (dr_key d).1.1 ≠ FAddress) drifts) then stmt lock_rebase else Session.ret tt);
     do found ← repair_loop drifts [] [];
     do _ ← stmt commit_tx;
     Session.ret found)
    (mem (rollback_tx w0)).
End Repair.
