(* ===== verification/RunningCheckProps.v ===== *)
(** * What the running check repairs

    Blocks, reverts, span closes and settlements between the statements of a repair: every
    drifted counter it may write is its truth when the transaction commits, and stays it. *)

From S2P Require Import Prelude Session RunningCheck.
From stdpp Require Import strings.
Local Open Scope Z_scope.

(** ** What the other sessions do *)

Definition add_map (m δ : gmap ckey Z) : gmap ckey Z := union_with (λ a b, Some (a + b)) m δ.
Definition at_key (m : gmap ckey Z) (k : ckey) : Z := default 0 (m !! k).
Lemma at_add m δ k : at_key (add_map m δ) k = at_key m k + at_key δ k.
Proof. unfold at_key, add_map. rewrite lookup_union_with. destruct (m !! k), (δ !! k); cbn; lia. Qed.
Lemma at_negate (m : gmap ckey Z) (k : ckey) : at_key (Z.opp <$> m) k = - at_key m k.
Proof. unfold at_key. rewrite lookup_fmap. destruct (m !! k); cbn; lia. Qed.

(** A counter of a row nobody holds. *)
Definition unheld (s : vstate) (k : ckey) : Prop := match v_tx s with Some x => k.1 ∉ x_locked x | None => True end.
Definition bump (f : ckey → Z → Z → Z) (δ : gmap ckey Z) (m : gmap ckey (option Z)) : gmap ckey (option Z) :=
  map_imap (λ k v, Some (match δ !! k with Some d => Some (f k (default 0 v) d) | None => v end)) m.
(** A revert stops at zero, but for a supply. *)
Definition lowered (k : ckey) (v d : Z) : Z := if decide (k = (k.1, "supply"%string)) then v - d else Z.max 0 (v - d).

(** A block, or a batch of the stats backfill, adds to the counters it counts for and to
    what is still open; a revert takes both back; a close moves rows into the ledger; a
    settlement, which needs the rebase lock, changes the ledger and dates its corrections.
    Rows are neither created nor removed. *)
Inductive other : vstate → vstate → Prop :=
| o_block δ s : (∀ k, is_Some (δ !! k) → unheld s k) →
    other s (set_running (bump (λ _ v d, v + d) δ (v_running s)) (set_ledger (v_closed s) (add_map (v_open s) δ) s))
| o_revert δ s : (∀ k, is_Some (δ !! k) → unheld s k) → (∀ k, k ≠ (k.1, "supply"%string) → is_Some (δ !! k) → at_key δ k ≤ truth s k) →
    other s (set_running (bump lowered δ (v_running s)) (set_ledger (v_closed s) (add_map (v_open s) (Z.opp <$> δ)) s))
| o_close δ s : other s (set_ledger (add_map (v_closed s) δ) (add_map (v_open s) (Z.opp <$> δ)) s)
| o_settle closed lo k s : match v_tx s with Some x => x_rebase x = false | None => True end →
    other s (set_repairs (<[v_next s := mkRepair (v_clock s) (Some lo) k None None]> (v_repairs s)) (S (v_next s)) (set_ledger closed (v_open s) s))
| o_clock c s : v_clock s ≤ c → other s (mkV (v_closed s) (v_open s) (v_running s) (v_repairs s) (v_next s) (v_quarantine s) c (v_tx s) (v_written s)).

Lemma truth_keys s k : truth s k = at_key (v_closed s) k + at_key (v_open s) k.
Proof. done. Qed.
Lemma value_bump (f : ckey → Z → Z → Z) (δ : gmap ckey Z) (s : vstate) (k : ckey) : value (set_running (bump f δ (v_running s)) s) k =
  match δ !! k, v_running s !! k with Some d, Some _ => f k (value s k) d | _, _ => value s k end.
Proof. unfold value, bump. cbn. rewrite map_lookup_imap. destruct (v_running s !! k), (δ !! k); done. Qed.
Lemma bump_dom (f : ckey → Z → Z → Z) (δ : gmap ckey Z) (m : gmap ckey (option Z)) (k : ckey) : bump f δ m !! k = None ↔ m !! k = None.
Proof. unfold bump. rewrite map_lookup_imap. destruct (m !! k); cbn; done. Qed.

(** A right counter with a row stays right, unless the ledger is settled. *)
Lemma right_stays s s' k : other s s' → right_counter s k → is_Some (v_running s !! k) → (∃ x, v_tx s = Some x ∧ x_rebase x = true) → right_counter s' k.
Proof.
  unfold right_counter. intros Ho Hr [v Hv] (x & Hx & Hh). destruct Ho as [δ s Hf|δ s Hf Hle|δ s|cl lo k' s Hs|c s Hc].
  - change (value (set_running (bump (λ _ v d, v + d) δ (v_running s)) s) k = at_key (v_closed s) k + at_key (add_map (v_open s) δ) k).
    rewrite value_bump, Hv, at_add, Hr, truth_keys. unfold at_key. destruct (δ !! k); cbn; lia.
  - change (value (set_running (bump lowered δ (v_running s)) s) k = at_key (v_closed s) k + at_key (add_map (v_open s) (Z.opp <$> δ)) k).
    rewrite value_bump, Hv, at_add, at_negate, Hr, truth_keys. unfold at_key. destruct (δ !! k) as [d|] eqn:Ed; cbn; [|lia].
    unfold lowered. case_decide as Hsup; [lia|]. specialize (Hle k Hsup ltac:(by eexists)). unfold at_key in Hle. rewrite Ed, truth_keys in Hle. unfold at_key in *. cbn in Hle. lia.
  - change (value s k = at_key (add_map (v_closed s) δ) k + at_key (add_map (v_open s) (Z.opp <$> δ)) k). rewrite !at_add, at_negate, Hr, truth_keys. lia.
  - rewrite Hx in Hs. congruence.
  - done.
Qed.

(** What a held row keeps: its value, and its truth while the rebase lock is held. *)
Lemma held_stays s s' k x : other s s' → v_tx s = Some x → k.1 ∈ x_locked x → x_rebase x = true → value s' k = value s k ∧ truth s' k = truth s k.
Proof.
  intros Ho Hx Hk Hh. rewrite !truth_keys. destruct Ho as [δ s Hf|δ s Hf Hle|δ s|cl lo k' s Hs|c s Hc].
  - assert (δ !! k = None) as Hn. { apply eq_None_not_Some. intros Hd. apply Hf in Hd. unfold unheld in Hd. by rewrite Hx in Hd. }
    split; [etrans; [apply (value_bump (λ _ v d, v + d) δ s k)|]; by rewrite Hn|]. cbn. rewrite at_add. unfold at_key. rewrite Hn. cbn. lia.
  - assert (δ !! k = None) as Hn. { apply eq_None_not_Some. intros Hd. apply Hf in Hd. unfold unheld in Hd. by rewrite Hx in Hd. }
    split; [etrans; [apply (value_bump lowered δ s k)|]; by rewrite Hn|]. cbn. rewrite at_add, at_negate. unfold at_key. rewrite Hn. cbn. lia.
  - split; [done|]. cbn. rewrite !at_add, at_negate. lia.
  - rewrite Hx in Hs. congruence.
  - done.
Qed.
Lemma other_same s s' : other s s' → v_tx s' = v_tx s ∧ v_written s' = v_written s ∧ v_quarantine s' = v_quarantine s ∧ (∀ k, v_running s' !! k = None ↔ v_running s !! k = None).
Proof. intros []; cbn; split_and!; try done; apply bump_dom. Qed.

(** ** Inside the transaction *)

Section Inside.
Context (env : nat → vstate → vstate) (out : nat → stmt_end).
Hypothesis Henv : ∀ k s, rtc other s (env k s).
(** What was quarantined and written before, and the counters that drift. *)
Context (q0 : gset rowkey) (w0 : gset ckey) (keys : list ckey).

(** Written: drifted counters of rows that were not quarantined. *)
Definition writes_ok (s : vstate) : Prop := ∃ W : gset ckey, v_written s = w0 ∪ W ∧ ∀ k, k ∈ W → k ∈ keys ∧ k.1 ∉ q0 ∧ k.1.1 ≠ FAddress.
(** A counter the repair is through with. *)
Definition through (x : repair_tx) (s : vstate) (k : ckey) : Prop :=
  k.1 ∈ v_quarantine s ∨ v_running s !! k = None ∨ (k.1 ∈ x_locked x ∧ right_counter s k).
Definition inside (held : bool) (ks : list ckey) (s : vstate) : Prop :=
  ∃ x, v_tx s = Some x ∧ (held = true → x_rebase x = true) ∧ (ks ≠ [] → held = true) ∧ writes_ok s ∧ q0 ⊆ v_quarantine s ∧
    ∀ k, k ∈ ks → through x s k.

Lemma inside_stable held ks : stable other (inside held ks).
Proof.
  intros s s' Ho (x & Hx & Hh & Hks & Hw & Hq & Ht). destruct (other_same s s' Ho) as (E1 & E2 & E3 & E4).
  exists x. rewrite E1, E3. split_and!; [done|done|done|unfold writes_ok in *; by rewrite E2|done|].
  intros k Hk. destruct (Ht k Hk) as [?|[?|[Hl Hr]]]; [left; by rewrite E3|right; left; by apply E4|right; right]. split; [done|].
  unfold right_counter in *. destruct (held_stays s s' k x Ho Hx Hl) as [-> ->]; [|done]. apply Hh, Hks. by intros ->; apply not_elem_of_nil in Hk.
Qed.

(** Statements that keep the ledger and the counters. *)
Lemma inside_frame held ks s s' : inside held ks s → (∃ x x', v_tx s = Some x ∧ v_tx s' = Some x' ∧ (x_rebase x = true → x_rebase x' = true) ∧ x_locked x ⊆ x_locked x') →
  v_closed s' = v_closed s → v_open s' = v_open s → v_running s' = v_running s → v_written s' = v_written s → v_quarantine s ⊆ v_quarantine s' → inside held ks s'.
Proof.
  intros (x & Hx & Hh & Hks & Hw & Hq & Ht) (x1 & x' & Hx1 & Hx' & Hreb & Hl) E1 E2 E3 E4 E5. rewrite Hx in Hx1. injection Hx1 as <-.
  exists x'. split_and!; [done|auto|done|unfold writes_ok in *; by rewrite E4|set_solver|].
  intros k Hk. destruct (Ht k Hk) as [?|[?|[Hlk Hr]]]; [left; set_solver|right; left; by rewrite E3|right; right]. split; [set_solver|].
  unfold right_counter, value, truth in *. by rewrite E1, E2, E3.
Qed.

Local Notation spec := (spec (S := vstate)).
(** Every statement is done, and every counter has a column. *)
Definition healthy : Prop := (∀ i, out i = Done) ∧ ∀ k, k ∈ keys → k.1.1 ≠ FAddress → running_column k = true.
Definition fails (held : bool) (ks : list ckey) (s : vstate) : Prop := inside held ks s ∧ ¬ healthy.

Lemma s_stmt {A} (P : vstate → Prop) (f : vstate → vstate * option A) (Q : A → vstate → Prop) held ks : stable other P → (∀ s, P s → inside held ks s) →
  (∀ s, P s → inside held ks (f s).1 ∧ ∃ a, (f s).2 = Some a ∧ Q a (f s).1) → spec P (stmt env out f) Q (fails held ks).
Proof.
  intros HP Hi Hf k s Hs. unfold stmt. assert (P (env k s)) as Hs' by (by eapply env_stable). destruct (Hf _ Hs') as (H1 & a & Ha & Hq). unfold fails, healthy.
  destruct (out k) eqn:Eo.
  - destruct (f (env k s)) as [s' r]. cbn in *. by rewrite Ha.
  - split; [by apply Hi|]. intros [Hd _]. by rewrite Hd in Eo.
  - split; [done|]. intros [Hd _]. by rewrite Hd in Eo.
Qed.

(** The row held, its value and its truth. *)
Definition holds_row (ks : list ckey) (k : ckey) (v : Z) (s : vstate) : Prop :=
  inside true ks s ∧ (∃ x, v_tx s = Some x ∧ k.1 ∈ x_locked x) ∧ value s k = v ∧ is_Some (v_running s !! k).
Lemma holds_row_stable ks k v : stable other (holds_row ks k v).
Proof.
  intros s s' Ho (Hi & (x & Hx & Hk) & Hv & Hr). destruct (other_same s s' Ho) as (E1 & _ & _ & E4).
  assert (x_rebase x = true) as Hh by (destruct Hi as (x' & Hx' & Hh & _); rewrite Hx in Hx'; injection Hx' as <-; by apply Hh).
  split; [by eapply inside_stable|]. destruct (held_stays s s' k x Ho Hx Hk Hh) as [-> _]. split; [exists x; by rewrite E1|]. split; [done|].
  destruct (v_running s' !! k) eqn:E; [done|]. apply E4 in E. rewrite E in Hr. by destruct Hr.
Qed.
Definition knows_truth (ks : list ckey) (k : ckey) (v t : Z) (s : vstate) : Prop := holds_row ks k v s ∧ truth s k = t.
Lemma knows_truth_stable ks k v t : stable other (knows_truth ks k v t).
Proof.
  intros s s' Ho [Hr Ht]. split; [by eapply holds_row_stable|]. destruct Hr as (Hi & (x & Hx & Hk) & _).
  assert (x_rebase x = true) as Hh by (destruct Hi as (x' & Hx' & Hh & _); rewrite Hx in Hx'; injection Hx' as <-; by apply Hh).
  by destruct (held_stays s s' k x Ho Hx Hk Hh) as [_ ->].
Qed.

Lemma inside_through ks k s : inside true ks s → (∀ x, v_tx s = Some x → through x s k) → inside true (k :: ks) s.
Proof.
  intros (x & Hx & Hh & Hks & Hw & Hq & Ht) Hk. exists x. split_and!; [done|done|done|done|done|]. intros k' [->|Hin]%elem_of_cons; auto.
Qed.
Lemma inside_weaken held k ks s : inside held (k :: ks) s → inside held ks s.
Proof. intros (x & Hx & Hh & Hks & Hw & Hq & Ht). exists x. split_and!; [done|done|intros _; by apply Hks|done|done|]. intros k' Hk'. apply Ht. by right. Qed.

Lemma log_inside held ks d s : inside held ks s → inside held ks (log_repair d s).1 ∧ ∃ a, (log_repair d s).2 = Some a.
Proof.
  intros Hi. pose proof Hi as (x & Hx & _). unfold log_repair, in_tx. rewrite Hx. cbn. split; [|by eexists].
  eapply inside_frame; [exact Hi| |done..]. eexists x, _. split_and!; [done|reflexivity|done|done].
Qed.
Lemma repairs_inside held ks s m n : inside held ks s → inside held ks (set_repairs m n s).
Proof. intros Hi. pose proof Hi as (x & Hx & _). eapply inside_frame; [exact Hi| |done..]. exists x, x. done. Qed.
Lemma unlog_inside held ks id s : inside held ks s → inside held ks (unlog id s).1 ∧ (unlog id s).2 = Some tt.
Proof. intros Hi. pose proof Hi as (x & Hx & _). unfold unlog, in_tx. rewrite Hx. split; [by apply repairs_inside|done]. Qed.
Lemma relog_inside held ks id k v t s : inside held ks s → inside held ks (relog id k v t s).1 ∧ (relog id k v t s).2 = Some tt.
Proof. intros Hi. pose proof Hi as (x & Hx & _). unfold relog, in_tx. rewrite Hx. split; [by apply repairs_inside|done]. Qed.

Lemma lock_read_inside ks k s : inside true ks s → inside true ks (lock_read k s).1 ∧
  ∃ r, (lock_read k s).2 = Some r ∧ match r with Some v => holds_row ks k v (lock_read k s).1 | None => v_running (lock_read k s).1 !! k = None end.
Proof.
  intros Hi. pose proof Hi as (x & Hx & _). unfold lock_read, in_tx. rewrite Hx. destruct (v_running s !! k) as [v|] eqn:Er; cbn; [|split; [done|by exists None]].
  assert (inside true ks (set_tx (Some (mkTx (x_now x) (x_rebase x) ({[k.1]} ∪ x_locked x) (<[k:=default v (x_old x !! k)]> (x_old x)) (x_ids x) (x_quarantined x))) s)) as Hi'.
  { eapply inside_frame; [exact Hi| |done..]. eexists x, _. split_and!; [done|reflexivity|done|cbn; set_solver]. }
  split; [done|]. eexists. split; [done|]. split; [done|]. split; [eexists; split; [reflexivity|cbn; set_solver]|]. unfold value. cbn. by rewrite Er.
Qed.

Lemma write_inside ks k v t s : knows_truth ks k v t s → k ∈ keys → k.1 ∉ q0 → k.1.1 ≠ FAddress → inside true (k :: ks) (write_counter k t s).1 ∧ (write_counter k t s).2 = Some tt.
Proof.
  intros [(Hi & (x & Hx & Hl) & Hv & Hr) Ht] Hk Hq Hfam. destruct Hi as (x' & Hx' & Hh & Hks & (W & EW & HW) & Hq0 & Hth). rewrite Hx in Hx'. injection Hx' as <-.
  unfold write_counter, in_tx. rewrite Hx. cbn [fst snd]. split; [|done]. exists x. split_and!; [done|done|done| |done|].
  - exists ({[ k ]} ∪ W). cbn. split; [rewrite EW; set_solver|]. intros k' [->%elem_of_singleton|Hin]%elem_of_union; [done|by apply HW].
  - assert (∀ k', truth (set_written ({[k]} ∪ v_written s) (set_running (<[k:=Some t]> (v_running s)) s)) k' = truth s k') as Et by done.
    intros k' Hin. destruct (decide (k' = k)) as [->|Hne].
    + right. right. split; [done|]. unfold right_counter. rewrite Et, Ht. unfold value. cbn. by rewrite lookup_insert_eq.
    + apply elem_of_cons in Hin as [?|Hin]; [done|]. destruct (Hth k' Hin) as [?|[?|[? Hr']]]; [by left|right; left; cbn; by rewrite lookup_insert_ne|right; right].
      split; [done|]. unfold right_counter in *. rewrite Et, <- Hr'. unfold value. cbn. by rewrite lookup_insert_ne.
Qed.

(** [settleRunning] leaves the counter right, its row held, or without a row. *)
Lemma settleRunning_spec d ks : dr_key d ∈ keys → (dr_key d).1 ∉ q0 → (dr_key d).1.1 ≠ FAddress →
  spec (inside true ks) (settleRunning env out d) (λ _ s, inside true (dr_key d :: ks) s) (fails true ks).
Proof.
  intros Hk Hq Hfam. unfold settleRunning. set (k := dr_key d) in *. destruct (running_column k) eqn:Hcol; cbn [negb].
  2: { apply spec_fail. intros s Hs. split; [done|]. intros [_ Hc]. by rewrite Hc in Hcol. }
  eapply spec_bind; [apply (s_stmt _ _ (λ _ s, inside true ks s) true ks); [apply inside_stable|done|]|].
  { intros s Hs. destruct (log_inside true ks d s Hs) as [? [a ?]]. eauto. }
  intros logged. eapply spec_bind; [apply (s_stmt _ _ (λ r s, inside true ks s ∧ match r with Some v => holds_row ks k v s | None => v_running s !! k = None end) true ks); [apply inside_stable|done|]|].
  { intros s Hs. destruct (lock_read_inside ks k s Hs) as (H1 & r & H2 & H3). eauto. }
  intros [v|].
  - apply (spec_pre _ (holds_row ks k v)); [by intros s [_ ?]|].
    eapply spec_bind; [apply (s_stmt _ _ (λ t s, knows_truth ks k v t s) true ks); [apply holds_row_stable|by intros s [? _]|]|].
    { intros s Hs. cbn. split; [by destruct Hs|]. eexists. split; [done|]. done. }
    intros t. eapply spec_bind; [apply (s_stmt _ _ (λ b s, knows_truth ks k v t s ∧ b = (v =? t)) true ks); [apply knows_truth_stable|by intros s [[? _] _]|]|].
    { intros s Hs. cbn. split; [by destruct Hs as [[? _] _]|]. eexists. done. }
    intros same. destruct same.
    + apply (spec_pre _ (λ s, knows_truth ks k v t s ∧ v = t)); [intros s [? E]; split; [done|]; symmetry in E; by apply Z.eqb_eq in E|].
      apply (s_stmt _ _ _ true ks); [intros s s' Ho [? ?]; split; [by eapply knows_truth_stable|done]|by intros s [[[? _] _] _]|].
      intros s [[(Hi & (x & Hx & Hl) & Hv & Hr) Ht] ->]. split; [by apply unlog_inside|]. exists tt. split; [by eapply unlog_inside|]. apply unlog_inside. apply inside_through; [done|].
      intros x' Hx'. rewrite Hx in Hx'. injection Hx' as <-. right. right. split; [done|]. unfold right_counter. congruence.
    + apply (spec_pre _ (knows_truth ks k v t)); [by intros s [? _]|].
      eapply spec_bind; [apply (s_stmt _ _ (λ _ s, inside true (k :: ks) s) true ks); [apply knows_truth_stable|by intros s [[? _] _]|]|].
      { intros s Hs. destruct (write_inside ks k v t s Hs Hk Hq Hfam) as [Hw Ew]. split; [by eapply inside_weaken|eauto]. }
      intros []. intros i s Hs. pose proof (s_stmt (inside true (k :: ks)) (relog logged k v t) (λ _ s, inside true (k :: ks) s) true (k :: ks)) as Hlast.
      specialize (Hlast (inside_stable true (k :: ks)) (λ s H, H)). specialize (Hlast ltac:(intros s0 Hs0; destruct (relog_inside true (k :: ks) logged k v t s0 Hs0); eauto) i s Hs).
      destruct (stmt env out _ i s) as [[i' s'] [u|]]; [done|]. destruct Hlast as [? ?]. split; [by eapply inside_weaken|done].
  - apply (s_stmt _ _ _ true ks); [|by intros s [? _]|].
    + intros s s' Ho [Hi Hn]. split; [by eapply inside_stable|]. by apply (other_same s s' Ho).
    + intros s [Hi Hn]. split; [by apply unlog_inside|]. exists tt. split; [by eapply unlog_inside|]. apply unlog_inside, inside_through; [done|]. intros x _. by right; left.
Qed.

Lemma repairable_spec d held ks :
  spec (inside held ks) (repairable env out d) (λ r s, inside held ks s ∧ if r : bool then (dr_key d).1 ∉ q0 else (dr_key d).1 ∈ v_quarantine s) (fails held ks).
Proof.
  unfold repairable. eapply spec_bind; [apply (s_stmt _ _ (λ r s, inside held ks s ∧ r.1 = bool_decide ((dr_key d).1 ∈ v_quarantine s)) held ks); [apply inside_stable|done|]|].
  { intros s Hs. cbn. split; [done|]. eexists. done. }
  intros [quarantined again]. cbn [fst]. destruct quarantined.
  - apply spec_ret. intros s [Hi E]. split; [done|]. symmetry in E. by apply bool_decide_eq_true in E.
  - destruct again.
    + apply (spec_pre _ (inside held ks)); [by intros s [? _]|].
      eapply spec_bind; [apply (s_stmt _ _ (λ _ s, inside held ks s ∧ (dr_key d).1 ∈ v_quarantine s) held ks); [apply inside_stable|done|]|].
      { intros s Hs. pose proof Hs as (x & Hx & _). unfold quarantine_row, in_tx. rewrite Hx. cbn [fst snd].
        assert (inside held ks (set_quarantine ({[(dr_key d).1]} ∪ v_quarantine s) (set_tx (Some (mkTx (x_now x) (x_rebase x) (x_locked x) (x_old x) (x_ids x)
          (if decide ((dr_key d).1 ∈ v_quarantine s) then x_quarantined x else {[(dr_key d).1]} ∪ x_quarantined x))) s))) as Hi.
        { eapply inside_frame; [exact Hs| |done..|cbn; set_solver]. eexists x, _. split_and!; [done|reflexivity|done|done]. }
        split; [done|]. eexists. split; [done|]. split; [done|]. cbn. set_solver. }
      intros []. by apply spec_ret.
    + apply spec_ret. intros s [Hi E]. split; [done|]. symmetry in E. apply bool_decide_eq_false in E. destruct Hi as (x & _ & _ & _ & _ & Hq & _). set_solver.
Qed.

(** All drifts of a list handled. *)
Definition handled (drifts : list Drift) (ks : list ckey) : Prop := ∀ d, d ∈ drifts → (dr_key d).1.1 ≠ FAddress → dr_key d ∈ ks.
Lemma inside_nil held ks s : inside held ks s → inside held [] s.
Proof. induction ks as [|k ks IH]; [done|]. intros H%inside_weaken. by apply IH. Qed.

Lemma repair_loop_spec drifts held ks addresses byAddress : (∀ d, d ∈ drifts → dr_key d ∈ keys ∧ ((dr_key d).1.1 ≠ FAddress → held = true)) →
  spec (inside held ks) (repair_loop env out drifts addresses byAddress) (λ _ s, ∃ ks', inside held ks' s ∧ handled drifts ks' ∧ ks ⊆ ks') (fails held []).
Proof.
  revert ks addresses byAddress. induction drifts as [|d drifts IH]; intros ks addresses byAddress Hd; cbn [repair_loop].
  { apply spec_ret. intros s Hs. exists ks. split; [done|]. split; [by intros ? ?%not_elem_of_nil|done]. }
  destruct (Hd d ltac:(left)) as [Hk Hheld]. assert (∀ d', d' ∈ drifts → dr_key d' ∈ keys ∧ ((dr_key d').1.1 ≠ FAddress → held = true)) as Hd' by (intros; apply Hd; by right).
  assert (∀ ks1 addrs byA, (∀ k, k ∈ ks → k ∈ ks1) → ((dr_key d).1.1 ≠ FAddress → dr_key d ∈ ks1) →
    spec (inside held ks1) (repair_loop env out drifts addrs byA) (λ _ s, ∃ ks', inside held ks' s ∧ handled (d :: drifts) ks' ∧ ks ⊆ ks') (fails held [])) as Hrest.
  { intros ks1 addrs byA Hsub Hin i s Hs. specialize (IH ks1 addrs byA Hd' i s Hs). destruct (repair_loop env out drifts addrs byA i s) as [[i' s'] [a|]]; [|done].
    destruct IH as (ks' & H1 & H2 & H3). exists ks'. split; [done|]. split; [intros d' [->|Hd1]%elem_of_cons; auto|]. intros k Hk1. apply H3, Hsub. done. }
  intros i s Hs. pose proof (repairable_spec d held ks i s Hs) as Hr. unfold Session.bind. destruct (repairable env out d i s) as [[i1 s1] [r|]].
  2: { destruct Hr as [? ?]. split; [by eapply inside_nil|done]. }
  destruct Hr as [Hi Hr]. destruct r; cbn [negb].
  - destruct (decide ((dr_key d).1.1 = FAddress)) as [Ha|Hna]; [by apply (Hrest ks _ _ (λ k H, H) (λ H, False_ind _ (H Ha)) i1 s1)|].
    assert (held = true) as -> by auto. pose proof (settleRunning_spec d ks Hk Hr Hna i1 s1 Hi) as Hset.
    destruct (settleRunning env out d i1 s1) as [[i2 s2] [u|]]; [|destruct Hset as [? ?]; split; [by eapply inside_nil|done]].
    apply (Hrest (dr_key d :: ks) addresses byAddress); [by right|left|done].
  - destruct (decide ((dr_key d).1.1 = FAddress)) as [Ha|Hna]; [by apply (Hrest ks addresses byAddress (λ k H, H) (λ H, False_ind _ (H Ha)) i1 s1)|].
    assert (held = true) as -> by auto.
    apply (Hrest (dr_key d :: ks) addresses byAddress); [by right|left|]. apply inside_through; [done|]. intros x _. by left.
Qed.

(** ** The transaction *)

(** Not open, and what it may have written. *)
Definition outside (s : vstate) : Prop := v_tx s = None ∧ writes_ok s.
Definition settled (ks : list ckey) (s : vstate) : Prop :=
  outside s ∧ ∀ k, k ∈ ks → k.1 ∈ v_quarantine s ∨ v_running s !! k = None ∨ right_counter s k.
Definition before (s : vstate) : Prop := v_tx s = None ∧ v_written s = w0 ∧ q0 ⊆ v_quarantine s.
Lemma before_stable : stable other before.
Proof. intros s s' Ho (? & ? & ?). destruct (other_same s s' Ho) as (E1 & E2 & E3 & _). unfold before. by rewrite E1, E2, E3. Qed.
Lemma before_writes s : v_written s = w0 → writes_ok s.
Proof. intros E. exists ∅. split; [set_solver|]. by intros k ?%elem_of_empty. Qed.

(** Open, or closed with what it was allowed to write. *)
Definition undoable (s : vstate) : Prop := (is_Some (v_tx s) ∨ outside s) ∧ ¬ healthy.
Lemma undoable_outside s : outside (rollback_tx w0 s).1 ↔ (is_Some (v_tx s) ∨ outside s).
Proof.
  unfold rollback_tx, outside. destruct (v_tx s) as [x|] eqn:Ex; cbn; [|rewrite Ex; split; [intros ?; by right|intros [[? ?]|?]; done]].
  split; [intros _; left; by eexists|]. intros _. split; [done|]. by apply before_writes.
Qed.
Lemma rollback_spec : spec undoable (mem env (rollback_tx w0)) (λ _ s, outside s ∧ ¬ healthy) (λ s, outside s ∧ ¬ healthy).
Proof.
  apply spec_mem with other; [done| |].
  - intros s s' Ho [H ?]. split; [|done]. destruct (other_same s s' Ho) as (E1 & E2 & _). unfold outside, writes_ok in *. by rewrite E1, E2.
  - intros s [H ?]. split; [by apply undoable_outside|done].
Qed.

Lemma begin_spec : spec before (stmt env out begin_tx) (λ _ s, inside false [] s) undoable.
Proof.
  intros i s Hs. assert (before (env i s)) as (H1 & H2 & H3) by (by eapply env_stable; [..|apply before_stable|]). unfold stmt. unfold undoable, healthy.
  destruct (out i) eqn:Eo; cbn.
  - eexists. cbn. split_and!; [reflexivity|done|done|by apply before_writes|done|]. by intros k ?%not_elem_of_nil.
  - split; [right; split; [done|by apply before_writes]|]. intros [Hd _]. by rewrite Hd in Eo.
  - split; [left; by eexists|]. intros [Hd _]. by rewrite Hd in Eo.
Qed.
Lemma rebase_lock_spec : spec (inside false []) (stmt env out lock_rebase) (λ _ s, inside true [] s) (fails false []).
Proof.
  apply s_stmt; [apply inside_stable|done|]. intros s Hs. pose proof Hs as (x & Hx & Hh & Hks & Hw & Hq & Ht). unfold lock_rebase, in_tx. rewrite Hx. cbn [fst snd].
  assert (inside true [] (set_tx (Some (mkTx (x_now x) true (x_locked x) (x_old x) (x_ids x) (x_quarantined x))) s)) as Hi.
  { eexists. split_and!; [reflexivity|done|done|done|done|]. by intros k ?%not_elem_of_nil. }
  split; [|by exists tt]. destruct Hi as (x' & H). exists x'. naive_solver.
Qed.
Lemma fails_undoable held ks s : fails held ks s → undoable s.
Proof. intros [(x & Hx & _) ?]. split; [left; by eexists|done]. Qed.
Lemma commit_spec held ks : spec (inside held ks) (stmt env out commit_tx) (λ _ s, settled ks s) undoable.
Proof.
  intros i s Hs. assert (inside held ks (env i s)) as Hs' by (by eapply env_stable; [..|apply inside_stable|]). unfold stmt. unfold undoable, healthy, commit_tx, in_tx.
  pose proof Hs' as (x & Hx & Hh & Hks & Hw & Hq & Ht). rewrite Hx. destruct (out i) eqn:Eo; cbn.
  - split; [done|]. intros k Hk. destruct (Ht k Hk) as [?|[?|[_ ?]]]; auto.
  - split; [left; by eexists|]. intros [Hd _]. by rewrite Hd in Eo.
  - split; [right; done|]. intros [Hd _]. by rewrite Hd in Eo.
Qed.
Lemma spec_error {A} P (m : M vstate A) Q (E E' : vstate → Prop) : (∀ s, E s → E' s) → spec P m Q E → spec P m Q E'.
Proof. intros H Hm i s Hs. specialize (Hm i s Hs). destruct (m i s) as [[? ?] [?|]]; auto. Qed.

Lemma repair_drifts_spec drifts : (∀ d, d ∈ drifts → dr_key d ∈ keys) →
  spec before (repair_drifts env out drifts w0) (λ _ s, ∃ ks, handled drifts ks ∧ settled ks s) (λ s, outside s ∧ ¬ healthy).
Proof.
  intros Hd. unfold repair_drifts. apply spec_on_error with undoable; [|apply rollback_spec].
  set (ds := merge_sort drift_le drifts). assert (∀ d, d ∈ ds ↔ d ∈ drifts) as Hperm by (intros; unfold ds; by rewrite (merge_sort_Permutation drift_le drifts)).
  assert (∀ held, (∀ d, d ∈ ds → (dr_key d).1.1 ≠ FAddress → held = true) →
    spec (inside held []) (Session.bind (repair_loop env out ds [] []) (λ a, Session.bind (stmt env out commit_tx) (λ _, Session.ret a)))
      (λ _ s, ∃ ks, handled drifts ks ∧ settled ks s) undoable) as Hbody.
  { intros held Hh. eapply spec_bind; [eapply spec_error; [|apply (repair_loop_spec ds held [] [] []); intros d Hin; split; [by apply Hd, Hperm|by apply Hh]]; apply fails_undoable|].
    intros a i s (ks & Hi & Hks & _). pose proof (commit_spec held ks i s Hi) as Hc. unfold Session.bind, Session.ret.
    destruct (stmt env out commit_tx i s) as [[i' s'] [u|]]; [|done]. exists ks. split; [|done]. intros d Hin. apply Hks, Hperm. done. }
  eapply spec_bind; [apply begin_spec|]. intros []. case_decide as He.
  - eapply spec_bind; [eapply spec_error; [apply fails_undoable|apply rebase_lock_spec]|]. intros []. by apply Hbody.
  - intros i s Hs. unfold Session.bind at 1, Session.ret at 1. apply (Hbody false); [|done]. intros d Hin Hna. destruct He. apply Exists_exists. eauto.
Qed.
End Inside.

(** ** The addresses handed on *)

Section Handed.
Context (env : nat → vstate → vstate) (out : nat → stmt_end).
Hypothesis Henv : ∀ k s, rtc other s (env k s).
Local Notation spec := (spec (S := vstate)).
Definition quarantines (Q : gset rowkey) (s : vstate) : Prop := Q ⊆ v_quarantine s.
Definition anything (s : vstate) : Prop := True.
Lemma quarantines_stable Q : stable other (quarantines Q).
Proof. intros s s' Ho. unfold quarantines. by destruct (other_same s s' Ho) as (_ & _ & -> & _). Qed.
Lemma q_stmt {A} Q (f : vstate → vstate * option A) : (∀ s, v_quarantine s ⊆ v_quarantine (f s).1) → spec (quarantines Q) (stmt env out f) (λ _, quarantines Q) anything.
Proof. intros Hf. apply (spec_stmt env out other Henv); [apply quarantines_stable|]. intros s Hs. split; [done|]. split; [done|]. intros a _. specialize (Hf s). unfold quarantines in *. set_solver. Qed.
(** No statement but the rollback lifts a quarantine. *)
Ltac q_stmts := apply q_stmt; intros ?; unfold log_repair, lock_read, unlog, relog, write_counter, read_truth, begin_tx, lock_rebase, commit_tx, in_tx; repeat case_match; done.
Lemma settle_quarantines Q d : spec (quarantines Q) (settleRunning env out d) (λ _, quarantines Q) anything.
Proof.
  unfold settleRunning. destruct (negb _); [by apply spec_fail|]. eapply spec_bind; [q_stmts|]. intros id. eapply spec_bind; [q_stmts|].
  intros [v|]; [|q_stmts]. eapply spec_bind; [q_stmts|]. intros t. eapply spec_bind; [q_stmts|]. intros [|]; [q_stmts|]. eapply spec_bind; [q_stmts|]. intros []. q_stmts.
Qed.
(** A drift that may not be repaired is quarantined. *)
Lemma repairable_quarantines Q d : spec (quarantines Q) (repairable env out d) (λ r, quarantines (if r : bool then Q else {[ (dr_key d).1 ]} ∪ Q)) anything.
Proof.
  unfold repairable. apply spec_bind with (λ r s, quarantines (if r.1 : bool then {[ (dr_key d).1 ]} ∪ Q else Q) s).
  - apply (spec_stmt env out other Henv); [apply quarantines_stable|]. intros s Hs. split; [done|]. split; [done|]. intros r [= <-]. cbn.
    case_bool_decide; unfold quarantines in *; set_solver.
  - intros [[|] again]; cbn [fst]; [by apply spec_ret|]. destruct again; [|by apply spec_ret].
    apply spec_bind with (λ _, quarantines ({[ (dr_key d).1 ]} ∪ Q)); [|intros []; by apply spec_ret].
    apply (spec_stmt env out other Henv); [apply quarantines_stable|]. intros s Hs. split; [done|]. split; [done|]. intros []. unfold quarantine_row, in_tx.
    destruct (v_tx s); cbn; [|done]. unfold quarantines in *. intros _. cbn. set_solver.
Qed.

(** Every address that drifts is quarantined or handed on, once, and no other. *)
Definition of_address_row (d : Drift) : Prop := (dr_key d).1.1 = FAddress.
Record handed_on (drifts : list Drift) (addresses : list string) (r : list string * list Drift) : Prop := {
  hd_nodup : NoDup r.1; hd_kept : ∀ a, a ∈ addresses → a ∈ r.1; hd_drifts : Forall of_address_row r.2;
  hd_from : ∀ a, a ∈ r.1 → a ∈ addresses ∨ ∃ d, d ∈ drifts ∧ of_address_row d ∧ (dr_key d).1.2 = a }.
Definition accounted (drifts : list Drift) (Q : gset rowkey) (addresses : list string) : Prop :=
  ∀ d, d ∈ drifts → (dr_key d).1.1 = FAddress → (dr_key d).1 ∈ Q ∨ (dr_key d).1.2 ∈ addresses.
Lemma loop_hands_on drifts : ∀ Q addresses byAddress, NoDup addresses → Forall of_address_row byAddress →
  spec (quarantines Q) (repair_loop env out drifts addresses byAddress)
    (λ r s, ∃ Q', quarantines Q' s ∧ Q ⊆ Q' ∧ accounted drifts Q' r.1 ∧ handed_on drifts addresses r) anything.
Proof.
  induction drifts as [|d drifts IH]; intros Q addresses byAddress Hnd Hby; cbn [repair_loop].
  { apply spec_ret. intros s Hs. exists Q. split_and!; [done|done|by intros ? ?%not_elem_of_nil|]. split; auto. }
  eapply spec_bind; [apply repairable_quarantines|]. intros r.
  assert (∀ Q1 as1 byA, Q ⊆ Q1 → NoDup as1 → Forall of_address_row byA → (∀ a, a ∈ addresses → a ∈ as1) →
    (∀ a, a ∈ as1 → a ∈ addresses ∨ of_address_row d ∧ (dr_key d).1.2 = a) → (of_address_row d → (dr_key d).1 ∈ Q1 ∨ (dr_key d).1.2 ∈ as1) →
    spec (quarantines Q1) (repair_loop env out drifts as1 byA)
      (λ r s, ∃ Q', quarantines Q' s ∧ Q ⊆ Q' ∧ accounted (d :: drifts) Q' r.1 ∧ handed_on (d :: drifts) addresses r) anything) as Hrest.
  { intros Q1 as1 byA HQ Hn Hb Has Hfrom Hd. eapply spec_post; [|by apply IH]. intros r' s (Q' & H1 & H2 & H3 & [H4 H5 H6 H7]). exists Q'. split_and!; [done|set_solver| |split; auto].
    - intros d' [->|Hd']%elem_of_cons Hf; [|by apply H3]. destruct (Hd Hf); [left; set_solver|right; auto].
    - intros a [Ha|(d' & Hd' & Hf & Ha)]%H7; [|right; exists d'; split; [by right|done]]. destruct (Hfrom a Ha) as [?|[? ?]]; [by left|right; exists d; split; [left|done]]. }
  destruct r; cbn [negb].
  - case_decide as Ha.
    + apply Hrest; [done| | | | |].
      * case_decide; [done|]. apply NoDup_app. split; [done|]. split; [|apply NoDup_singleton]. intros x Hx ->%list_elem_of_singleton. done.
      * by apply Forall_app_2; [|constructor].
      * intros a Hin. case_decide; [done|]. by apply elem_of_app; left.
      * intros a. case_decide; [by left|]. intros [?| ->%list_elem_of_singleton]%elem_of_app; [by left|by right].
      * intros _. right. case_decide; [done|]. apply elem_of_app. right. left.
    + eapply spec_bind; [apply settle_quarantines|]. intros []. apply Hrest; [done|done|done|done|by left|done].
  - apply Hrest; [set_solver|done|done|done|by left|]. intros _. left. set_solver.
Qed.

Lemma repair_hands_on drifts w0 : spec (λ _, True) (repair_drifts env out drifts w0)
  (λ r s, accounted drifts (v_quarantine s) r.1 ∧ handed_on drifts [] r) anything.
Proof.
  unfold repair_drifts. apply spec_on_error with anything; [|by intros k s _; unfold mem; destruct (rollback_tx _ _)].
  set (ds := merge_sort drift_le drifts). assert (∀ d, d ∈ drifts ↔ d ∈ ds) as Hperm by (intros d; unfold ds; by rewrite (merge_sort_Permutation drift_le drifts)).
  apply (spec_pre _ (quarantines ∅)); [intros s _; unfold quarantines; set_solver|].
  eapply spec_bind; [q_stmts|]. intros []. eapply spec_bind with (λ _, quarantines ∅); [case_decide; [q_stmts|by apply spec_ret]|]. intros [].
  eapply spec_bind; [apply loop_hands_on; constructor|]. intros found.
  assert (∀ Q', accounted ds Q' found.1 → spec (quarantines Q') (Session.bind (stmt env out commit_tx) (λ _, Session.ret found))
    (λ r s, accounted drifts (v_quarantine s) r.1 ∧ r = found) anything) as Hc.
  { intros Q' Hacc. eapply spec_bind; [q_stmts|]. intros []. apply spec_ret. intros s Hs. split; [|done]. intros d Hd Hf.
    destruct (Hacc d (proj1 (Hperm d) Hd) Hf); [left; unfold quarantines in Hs; set_solver|by right]. }
  intros k s (Q' & HQ & _ & Hacc & Hh). specialize (Hc Q' Hacc k s HQ). destruct (Session.bind _ _ k s) as [[k' s'] [u|]]; [|done].
  destruct Hc as [Hc ->]. split; [done|]. destruct Hh as [H1 H2 H3 H4]. split; [done|done|done|]. intros a Ha. destruct (H4 a Ha) as [?|(d & Hd & ?)]; [by left|right].
  exists d. by rewrite Hperm.
Qed.
End Handed.
