(* ===== verification/PrunedReads.v ===== *)
(** * Reads beside pruning

    [internal/grpcserver]: the cached prune watermark ([retention.go]), the lookups that
    fall back to the node ([node_lookup.go]) and the handlers that read one block
    ([handlers_blocks.go], [handlers_transactions.go], [handlers_internal_tx.go]), with
    the queries they call ([internal/db/queries.go], [batch_reads.go]). Between any two
    statements of a call the head moves, the watermark moves up and the tables behind it
    are dropped one by one, and other calls refresh the same cache. *)

From S2P Require Import Prelude Session.

(** ** The tables *)

(** What is stored of a block: its hash, the hashes of its transactions, its frames. *)
Record prow := mkProw { pr_hash : gostring; pr_txs : list gostring; pr_internal : list gostring }.
Inductive ptable := PBlocks | PTxs | PInternal.
#[export] Instance ptable_eq_dec : EqDecision ptable.
Proof. solve_decision. Defined.

(** [sd_through], [sd_ts]: [prune_state]; [sd_dropped t]: the last block dropped of [t],
    -1 when none is. *)
Record serve_db := mkServeDb { sd_blocks : gmap Z prow; sd_through : Z; sd_ts : Z; sd_dropped : ptable → Z }.

(** A block's row as table [t] holds it. *)
Definition seen (t : ptable) (n : Z) (s : serve_db) : option prow := if decide (n ≤ sd_dropped s t) then None else sd_blocks s !! n.

Definition GetBlock_row (n : Z) (s : serve_db) : option prow := seen PBlocks n s.
Definition GetBlockByHash (h : gostring) (s : serve_db) : option (Z * prow) :=
  head (filter (λ nb, pr_hash nb.2 = h ∧ is_Some (seen PBlocks nb.1 s)) (map_to_list (sd_blocks s))).
Definition GetTransactionsByBlock (n : Z) (s : serve_db) : list gostring := match seen PTxs n s with Some b => pr_txs b | None => [] end.
Definition GetInternalTransactionsByBlock (n : Z) (s : serve_db) : list gostring := match seen PInternal n s with Some b => pr_internal b | None => [] end.
Definition GetTransactionWithCategories (h : gostring) (s : serve_db) : option gostring :=
  if decide (Exists (λ nb, is_Some (seen PTxs nb.1 s) ∧ h ∈ pr_txs nb.2) (map_to_list (sd_blocks s))) then Some h else None.
(** A block without transactions has no group, so no row. *)
Definition BatchGetBlockTransactionCounts_rows (nums : list Z) (s : serve_db) : gmap Z Z :=
  list_to_map (omap (λ n, match GetTransactionsByBlock n s with [] => None | txs => Some (n, Z.of_nat (length txs)) end) (remove_dups nums)).

(** ** The cached watermark *)

Definition watermarkTTL : Z := 5000000000.
(** [wm_readAt]: [None] before the first read. *)
Record watermark := mkWatermark { wm_through : Z; wm_timestamp : Z; wm_readAt : option Z; wm_started : Z; wm_applied : Z }.

(** [v_reads]: the refreshes of other calls under way, by the number they drew, with
    what they have read. *)
Record serve_sys := mkServe { v_db : serve_db; v_cache : watermark; v_reads : gmap Z (option (Z * Z)); v_now : Z }.
Definition set_cache (c : watermark) (y : serve_sys) : serve_sys := mkServe (v_db y) c (v_reads y) (v_now y).
Definition set_reads (r : gmap Z (option (Z * Z))) (y : serve_sys) : serve_sys := mkServe (v_db y) (v_cache y) r (v_now y).
Definition set_db (s : serve_db) (y : serve_sys) : serve_sys := mkServe s (v_cache y) (v_reads y) (v_now y).

Definition fresh (y : serve_sys) : bool := match wm_readAt (v_cache y) with Some t => v_now y - t <? watermarkTTL | None => false end.
Definition start_read (c : watermark) : watermark := mkWatermark (wm_through c) (wm_timestamp c) (wm_readAt c) (wm_started c + 1) (wm_applied c).
(** A read that started after the one applied replaces it. *)
Definition apply_read (read : Z) (v : Z * Z) (now : Z) (c : watermark) : watermark :=
  if wm_applied c <? read then mkWatermark v.1 v.2 (Some now) (wm_started c) read else c.

(** ** The handlers *)

Inductive code := InvalidArgument | NotFound | OutOfRange | Internal | Unavailable.
Inductive answer (A : Type) := Served (a : A) | FromNode (a : A) | Code (c : code).
Arguments Served {A}. Arguments FromNode {A}. Arguments Code {A}.

(** What [nodelookup] answers, by the number of the call: an error, nothing, a block. *)
Record node_source := mkNode {
  ns_block : nat → Z → option (option prow); ns_hash : nat → gostring → Z → option (option prow); ns_tx : nat → gostring → Z → option (option gostring) }.

Section Handlers.
Context (env : nat → serve_sys → serve_sys) (out : nat → stmt_end) (lookup : option node_source).
Notation "'let!' x := m 'in' k" := (bind m (λ x, k)) (at level 10, x pattern, m at level 100, k at level 200).
Notation M := (M serve_sys).

Definition query {A} (f : serve_db → A) : M (option A) := caught (stmt env out (λ y, (y, Some (f (v_db y))))).
Definition ask {A} (f : nat → A) : M A := λ k y, (S k, env k y, Some (f k)).

(** [None]: the query failed, answered as Internal. *)
Definition refreshPrunedThrough : M (option (Z * Z)) :=
  let! read := mem env (λ y, (set_cache (start_read (v_cache y)) y, wm_started (v_cache y) + 1)) in
  let! v := query (λ s, (sd_through s, sd_ts s)) in
  match v with
  | None => ret None
  | Some v => mem env (λ y, let c := apply_read read v (v_now y) (v_cache y) in (set_cache c y, Some (wm_through c, wm_timestamp c)))
  end.
Definition prunedThrough : M (option (Z * Z)) :=
  let! (through, ts, fresh) := mem env (λ y, (y, (wm_through (v_cache y), wm_timestamp (v_cache y), fresh y))) in
  if fresh : bool then ret (Some (through, ts)) else refreshPrunedThrough.

Definition outOfRetention (block through : Z) : option code := if (0 <? through) && (block <=? through) then Some OutOfRange else None.
Definition retained (read : M (option (Z * Z))) (block : Z) : M (option code) :=
  let! r := read in ret (match r with None => Some Internal | Some (through, _) => outOfRetention block through end).
Definition checkRetained : Z → M (option code) := retained prunedThrough.
Definition recheckRetained : Z → M (option code) := retained refreshPrunedThrough.
(** The code is the same with the note on pruned history. *)
Definition notFoundByHash : M code := let! _ := prunedThrough in ret NotFound.

(** The watermark when pruned history is served from the node. *)
Definition prunedThroughForNode : M (option (option (node_source * Z))) :=
  match lookup with
  | None => ret (Some None)
  | Some nd => let! r := prunedThrough in ret (match r with None => None | Some (through, _) => Some (if 0 <? through then Some (nd, through) else None) end)
  end.

(** A block from the node, an error, or neither. *)
Inductive pruned_block := NodeBlock (b : prow) | PrunedErr (c : code) | NotPruned.
Definition prunedBlockByNumber (n : Z) : M pruned_block :=
  let! r := prunedThroughForNode in
  match r with
  | None => ret (PrunedErr Internal)
  | Some None => ret NotPruned
  | Some (Some (nd, through)) =>
      if through <? n then ret NotPruned
      else let! b := ask (λ k, ns_block nd k n) in
           ret (match b with None => PrunedErr Unavailable | Some None => PrunedErr NotFound | Some (Some b) => NodeBlock b end)
  end.
Definition prunedBlockByHash (h : gostring) : M pruned_block :=
  let! r := prunedThroughForNode in
  match r with
  | None => ret (PrunedErr Internal)
  | Some None => ret NotPruned
  | Some (Some (nd, through)) =>
      let! b := ask (λ k, ns_hash nd k h through) in
      ret (match b with None => PrunedErr Unavailable | Some None => NotPruned | Some (Some b) => NodeBlock b end)
  end.

Definition GetBlock_by_number (n : Z) : M (answer prow) :=
  let! nb := prunedBlockByNumber n in
  match nb with
  | NodeBlock b => ret (FromNode b)
  | PrunedErr c => ret (Code c)
  | NotPruned =>
      let! e := checkRetained n in
      match e with Some c => ret (Code c) | None =>
      let! b := query (GetBlock_row n) in
      match b with
      | None => ret (Code Internal)
      | Some (Some b) => ret (Served b)
      | Some None => let! e := recheckRetained n in ret (Code (match e with Some c => c | None => NotFound end))
      end end
  end.
Definition GetBlock_by_hash (h : gostring) : M (answer prow) :=
  if decide (h = []) then ret (Code InvalidArgument) else
  let! b := query (GetBlockByHash h) in
  match b with
  | None => ret (Code Internal)
  | Some (Some (_, b)) => ret (Served b)
  | Some None =>
      let! nb := prunedBlockByHash h in
      match nb with
      | NodeBlock b => ret (FromNode b)
      | PrunedErr c => ret (Code c)
      | NotPruned => let! c := notFoundByHash in ret (Code c)
      end
  end.
Definition GetTransaction (h : gostring) : M (answer gostring) :=
  if decide (h = []) then ret (Code InvalidArgument) else
  let! t := query (GetTransactionWithCategories h) in
  match t with
  | None => ret (Code Internal)
  | Some (Some t) => ret (Served t)
  | Some None =>
      let! r := prunedThroughForNode in
      match r with
      | None => ret (Code Internal)
      | Some None => let! c := notFoundByHash in ret (Code c)
      | Some (Some (nd, through)) =>
          let! t := ask (λ k, ns_tx nd k h through) in
          match t with
          | None => ret (Code Unavailable)
          | Some (Some t) => ret (FromNode t)
          | Some None => let! c := notFoundByHash in ret (Code c)
          end
      end
  end.

(** Rows of one block; none are looked at again against a fresh watermark. *)
Definition rows_by_number (rows : Z → serve_db → list gostring) (n : Z) : M (answer (list gostring)) :=
  let! e := checkRetained n in
  match e with Some c => ret (Code c) | None =>
  let! r := query (rows n) in
  match r with
  | None => ret (Code Internal)
  | Some [] => let! e := recheckRetained n in ret (match e with Some c => Code c | None => Served [] end)
  | Some l => ret (Served l)
  end end.
Definition ListTransactions_by_number (n : Z) : M (answer (list gostring)) :=
  let! nb := prunedBlockByNumber n in
  match nb with
  | NodeBlock b => ret (FromNode (pr_txs b))
  | PrunedErr c => ret (Code c)
  | NotPruned => rows_by_number GetTransactionsByBlock n
  end.
Definition ListTransactions_by_hash (h : gostring) : M (answer (list gostring)) :=
  let! b := query (GetBlockByHash h) in
  match b with
  | None => ret (Code Internal)
  | Some None =>
      let! nb := prunedBlockByHash h in
      match nb with
      | NodeBlock b => ret (FromNode (pr_txs b))
      | PrunedErr c => ret (Code c)
      | NotPruned => let! c := notFoundByHash in ret (Code c)
      end
  | Some (Some (n, _)) =>
      let! r := query (GetTransactionsByBlock n) in
      ret (match r with None => Code Internal | Some l => Served l end)
  end.
Definition ListInternalTransactions_by_number : Z → M (answer (list gostring)) := rows_by_number GetInternalTransactionsByBlock.
Definition ListInternalTransactions_by_hash (h : gostring) : M (answer (list gostring)) :=
  let! b := query (GetBlockByHash h) in
  match b with
  | None => ret (Code Internal)
  | Some None => let! c := notFoundByHash in ret (Code c)
  | Some (Some (n, _)) =>
      let! r := query (GetInternalTransactionsByBlock n) in
      ret (match r with None => Code Internal | Some l => Served l end)
  end.

(** The counts of several blocks, 0 for those without a row. *)
Definition BatchGetBlockTransactionCounts (nums : list Z) : M (answer (gmap Z Z)) :=
  match nums with
  | [] => ret (Served ∅)
  | n :: rest =>
      let oldest := foldr Z.min n rest in
      let! e := checkRetained oldest in
      match e with Some c => ret (Code c) | None =>
      let! r := query (BatchGetBlockTransactionCounts_rows nums) in
      match r with
      | None => ret (Code Internal)
      | Some counts =>
          let filled := counts ∪ list_to_map ((λ n, (n, 0)) <$> nums) in
          if decide (is_Some (counts !! oldest)) then ret (Served filled)
          else let! e := recheckRetained oldest in ret (match e with Some c => Code c | None => Served filled end)
      end end
  end.
End Handlers.

(** ** What others do *)

Section Steps.
(** The blocks no revert takes: those deep enough below the head. *)
Context (keep : Z → Prop).

Definition set_through (w ts : Z) (s : serve_db) : serve_db := mkServeDb (sd_blocks s) w ts (sd_dropped s).
Definition set_dropped (t : ptable) (d : Z) (s : serve_db) : serve_db :=
  mkServeDb (sd_blocks s) (sd_through s) (sd_ts s) (λ t', if decide (t' = t) then d else sd_dropped s t').
Definition set_rows (bs : gmap Z prow) (s : serve_db) : serve_db := mkServeDb bs (sd_through s) (sd_ts s) (sd_dropped s).

(** Retention moves the watermark, then drops tables up to it; the head is indexed and
    reverted above it; other calls refresh the cache; time passes. *)
Inductive serve_step (y : serve_sys) : serve_sys → Prop :=
| s_prune w ts : 0 < w → sd_through (v_db y) ≤ w → serve_step y (set_db (set_through w ts (v_db y)) y)
| s_drop t d : 0 < sd_through (v_db y) → sd_dropped (v_db y) t ≤ d ≤ sd_through (v_db y) → serve_step y (set_db (set_dropped t d (v_db y)) y)
| s_store n b : sd_through (v_db y) < n → sd_blocks (v_db y) !! n = None → serve_step y (set_db (set_rows (<[n := b]> (sd_blocks (v_db y))) (v_db y)) y)
| s_revert n : sd_through (v_db y) < n → ¬ keep n → serve_step y (set_db (set_rows (delete n (sd_blocks (v_db y))) (v_db y)) y)
| s_ticket : serve_step y (set_reads (<[wm_started (v_cache y) + 1 := None]> (v_reads y)) (set_cache (start_read (v_cache y)) y))
| s_read t : v_reads y !! t = Some None → serve_step y (set_reads (<[t := Some (sd_through (v_db y), sd_ts (v_db y))]> (v_reads y)) y)
| s_apply t v : v_reads y !! t = Some (Some v) → serve_step y (set_reads (delete t (v_reads y)) (set_cache (apply_read t v (v_now y) (v_cache y)) y))
| s_giveup t : serve_step y (set_reads (delete t (v_reads y)) y)
| s_tick now : serve_step y (mkServe (v_db y) (v_cache y) (v_reads y) now).

(** [g t]: the watermark when refresh [t] drew its number. What a refresh read, and what
    is cached, was stored after that. *)
Record cache_ok (g : Z → Z) (y : serve_sys) : Prop := {
  co_mono : ∀ a b, 1 ≤ a ≤ b → b ≤ wm_started (v_cache y) → g a ≤ g b;
  co_below : ∀ a, 1 ≤ a ≤ wm_started (v_cache y) → g a ≤ sd_through (v_db y);
  co_applied : 0 ≤ wm_applied (v_cache y) ≤ wm_started (v_cache y) ∧ (0 < wm_applied (v_cache y) → g (wm_applied (v_cache y)) ≤ wm_through (v_cache y));
  co_cached : 0 ≤ wm_through (v_cache y) ≤ sd_through (v_db y);
  co_reads : ∀ t v, v_reads y !! t = Some v → 1 ≤ t ≤ wm_started (v_cache y) ∧ ∀ w, v = Some w → g t ≤ w.1 ∧ 0 ≤ w.1 ≤ sd_through (v_db y) }.
Definition db_ok (s : serve_db) : Prop := 0 ≤ sd_through s ∧ ∀ t, sd_dropped s t ≤ sd_through s ∧ (0 ≤ sd_dropped s t → 0 < sd_through s).

(** Refresh [r] drew its number when the watermark was at [lo] or above. *)
Definition since (r lo : Z) (g : Z → Z) (y : serve_sys) : Prop := 1 ≤ r ≤ wm_started (v_cache y) ∧ lo ≤ g r.

Lemma step_cache g y y' : serve_step y y' → db_ok (v_db y) → cache_ok g y → db_ok (v_db y') ∧ ∃ g', cache_ok g' y' ∧ ∀ a, 1 ≤ a ≤ wm_started (v_cache y) → g' a = g a.
Proof.
  intros Hs Hd Hc. pose proof Hd as [Hd0 Hdt]. pose proof Hc as [H1 H2 [H3 H3'] H4 H5]. destruct Hs; cbn.
  - split; [split; [cbn; lia|]; intros t; destruct (Hdt t); cbn in *; lia|]. exists g. split; [|done]. split; cbn; try done; try lia.
    + intros a Ha. specialize (H2 a Ha). lia.
    + intros t v Hv. destruct (H5 t v Hv) as [? Hw]. split; [done|]. intros x Hx. specialize (Hw x Hx). lia.
  - split; [|exists g; split; [|done]; by split]. split; [done|]. intros t'. cbn. destruct (Hdt t'). case_decide; [lia|done].
  - split; [done|]. exists g. split; [|done]. by split.
  - split; [done|]. exists g. split; [|done]. by split.
  - split; [done|]. exists (λ a, if decide (a = wm_started (v_cache y) + 1) then sd_through (v_db y) else g a).
    split; [|intros a Ha; rewrite decide_False by lia; done]. split; cbn.
    + intros a b Ha Hb. destruct (decide (b = _)); [|rewrite decide_False by lia; apply H1; lia]. destruct (decide (a = _)); [lia|]. apply H2. lia.
    + intros a Ha. destruct (decide (a = _)); [lia|]. apply H2. lia.
    + rewrite decide_False by lia. split; [lia|done].
    + done.
    + intros t v [[<- <-]|[Hne Hv]]%lookup_insert_Some; [split; [lia|done]|]. destruct (H5 t v Hv) as [? ?]. split; [lia|]. rewrite decide_False by lia. done.
  - split; [done|]. exists g. split; [|done]. split; cbn; try done. intros t' v [[<- <-]|[Hne Hv]]%lookup_insert_Some; [|by apply H5].
    destruct (H5 t None ltac:(done)) as [? _]. split; [done|]. intros x [= <-]. cbn. specialize (H2 t ltac:(done)). lia.
  - split; [done|]. destruct (H5 t (Some v) ltac:(done)) as [Ht Hv]. destruct (Hv v eq_refl) as [Hg Hv']. exists g. unfold apply_read. destruct (Z.ltb_spec (wm_applied (v_cache y)) t).
    + split; [|done]. split; cbn; [done|done|split; [lia|done]|lia|]. intros t' v' [_ Hv'']%lookup_delete_Some. by apply H5.
    + split; [|done]. split; cbn; [done|done|done|done|]. intros t' v' [_ Hv'']%lookup_delete_Some. by apply H5.
  - split; [done|]. exists g. split; [|done]. split; cbn; try done. intros t' v' [_ Hv'']%lookup_delete_Some. by apply H5.
  - split; [done|]. exists g. split; [|done]. by split.
Qed.

(** ** Assertions *)

Notation stable := (stable serve_step).
(** [K] holds of the tables whatever others do. *)
Definition kept (K : serve_db → Prop) : Prop := ∀ y y', serve_step y y' → K (v_db y) → K (v_db y').
Definition good (K : serve_db → Prop) (y : serve_sys) : Prop := db_ok (v_db y) ∧ (∃ g, cache_ok g y) ∧ K (v_db y).
Definition reading (r lo : Z) (K : serve_db → Prop) (y : serve_sys) : Prop := db_ok (v_db y) ∧ (∃ g, cache_ok g y ∧ since r lo g y) ∧ K (v_db y).
Definition have_read (r lo : Z) (v : Z * Z) (K : serve_db → Prop) (y : serve_sys) : Prop :=
  db_ok (v_db y) ∧ (∃ g, cache_ok g y ∧ since r lo g y ∧ g r ≤ v.1) ∧ 0 ≤ v.1 ≤ sd_through (v_db y) ∧ K (v_db y).

Lemma step_through y y' : serve_step y y' → sd_through (v_db y) ≤ sd_through (v_db y') ∧ wm_started (v_cache y) ≤ wm_started (v_cache y').
Proof. intros []; cbn; unfold apply_read; try lia. destruct (_ <? _); cbn; lia. Qed.

Lemma stable_good K : kept K → stable (good K).
Proof. intros HK y y' Hs (H1 & (g & H2) & H3). destruct (step_cache g y y' Hs H1 H2) as (? & g' & ? & _). split_and!; [done|by exists g'|by apply (HK y)]. Qed.
Lemma stable_reading r lo K : kept K → stable (reading r lo K).
Proof.
  intros HK y y' Hs (H1 & (g & H2 & H3 & H4) & H5). destruct (step_cache g y y' Hs H1 H2) as (? & g' & ? & E). destruct (step_through y y' Hs) as [? ?].
  split_and!; [done| |by apply (HK y)]. exists g'. split; [done|]. split; [lia|]. rewrite E by lia. done.
Qed.
Lemma stable_have_read r lo v K : kept K → stable (have_read r lo v K).
Proof.
  intros HK y y' Hs (H1 & (g & H2 & [H3 H4] & H5) & H6 & H7). destruct (step_cache g y y' Hs H1 H2) as (? & g' & ? & E). destruct (step_through y y' Hs) as [? ?].
  split_and!; [done| |lia|lia|by apply (HK y)]. exists g'. split; [done|]. unfold since. rewrite E by lia. split_and!; [lia|lia|done|done].
Qed.
Lemma kept_and K K' : kept K → kept K' → kept (λ s, K s ∧ K' s).
Proof. intros H1 H2 y y' Hs [? ?]. split; [by apply (H1 y)|by apply (H2 y)]. Qed.
Lemma kept_through w : kept (λ s, w ≤ sd_through s).
Proof. intros y y' Hs. destruct (step_through y y' Hs). lia. Qed.
Lemma kept_row n b : keep n → kept (λ s, sd_blocks s !! n = Some b).
Proof.
  intros Hk y y' Hs. destruct Hs as [| |m c Hm Hn|m Hm Hnk| | | | |]; cbn; try done; intros Hb.
  - rewrite lookup_insert_ne; [done|congruence].
  - rewrite lookup_delete_ne; [done|]. intros ->. done.
Qed.

(** ** The refresh *)

Section Calls.
Context (env : nat → serve_sys → serve_sys) (out : nat → stmt_end) (lookup : option node_source).
Hypothesis Henv : ∀ k y, rtc serve_step y (env k y).
Notation spec_mem := (spec_mem env serve_step Henv).
Notation spec_stmt := (spec_stmt env out serve_step Henv).

Lemma query_spec {A} (f : serve_db → A) P E : stable P → spec P (query env out f) (λ r y, P y ∧ ∀ a, r = Some a → a = f (v_db y)) E.
Proof.
  intros HP. eapply spec_post, (spec_caught P _ (λ a y, P y ∧ a = f (v_db y)) P).
  - intros [a|] y Hy; [destruct Hy as [? ->]; split; [done|by intros ? [= <-]]|by split].
  - apply spec_stmt; [done|]. cbn. intros y Hy. split_and!; [done|done|]. by intros a [= <-].
Qed.
Lemma ask_spec {A} (f : nat → A) P E : stable P → spec P (ask env f) (λ a y, P y ∧ ∃ k, a = f k) E.
Proof. intros HP k y Hy. cbn. split; [by apply (env_stable env serve_step Henv)|by exists k]. Qed.

(** A refresh answers a watermark stored at or after its start. *)
Lemma refresh_spec lo K E : kept K → (∀ s, db_ok s → K s → lo ≤ sd_through s) →
  spec (good K) (refreshPrunedThrough env out) (λ r y, good K y ∧ ∀ w ts, r = Some (w, ts) → lo ≤ w ∧ 0 ≤ w ≤ sd_through (v_db y)) E.
Proof.
  intros HK Hlo. unfold refreshPrunedThrough. apply (spec_bind _ _ _ (λ r y, reading r lo K y)).
  { apply spec_mem; [by apply stable_good|]. intros y (H1 & (g & H2) & H3). cbn [fst snd].
    destruct (step_cache g y _ (s_ticket y) H1 H2) as (Hd & g' & Hc & E'). split_and!; [done| |done]. exists (λ a, if decide (a = wm_started (v_cache y) + 1) then sd_through (v_db y) else g a).
    pose proof H2 as [M1 M2 [M3 M3'] M4 M5]. split.
    - split; cbn.
      + intros a b Ha Hb. destruct (decide (b = _)); [|rewrite decide_False by lia; apply M1; lia]. destruct (decide (a = _)); [lia|]. apply M2. lia.
      + intros a Ha. destruct (decide (a = _)); [lia|]. apply M2. lia.
      + rewrite decide_False by lia. split; [lia|done].
      + done.
      + intros t v Hv. destruct (M5 t v Hv) as [? ?]. split; [lia|]. rewrite decide_False by lia. done.
    - split; cbn; [|rewrite decide_True by done; by apply Hlo]. split; [|lia]. lia. }
  intros r. apply (spec_bind _ _ _ (λ v y, match v with None => good K y | Some v => have_read r lo v K y end)).
  { eapply spec_post, query_spec, stable_reading, HK. intros [v|] y [(H1 & (g & H2 & H3) & H4) Hv]; cbn; [|split_and!; [done|by exists g|done]].
    specialize (Hv v eq_refl). subst v. cbn. pose proof H1 as [Hp _]. refine (conj H1 (conj _ (conj (conj Hp (Z.le_refl _)) H4))). exists g. refine (conj H2 (conj H3 _)). destruct H3. by apply H2. }
  intros [v|]; [|apply spec_ret; intros y Hy; split; [done|by intros ? ? [=]]].
  apply spec_mem; [by apply stable_have_read|]. intros y (H1 & (g & H2 & [H3 H4] & H5) & H6 & H7). cbn [fst snd].
  pose proof H2 as [M1 M2 [M3 M3'] M4 M5]. unfold apply_read. destruct (Z.ltb_spec (wm_applied (v_cache y)) r) as [Hlt|Hge]; cbn.
  - split; [split_and!; [done| |done]|intros w ts [= <- <-]; cbn; lia]. exists g. split; cbn; [done|done|split; [lia|done]|lia|done].
  - split; [split_and!; [done| |done]|].
    + exists g. by split.
    + intros w ts [= <- <-]. split; [|lia]. specialize (M3' ltac:(lia)). pose proof (M1 r (wm_applied (v_cache y)) ltac:(lia) ltac:(lia)). lia.
Qed.

Lemma pruned_spec K E : kept K → spec (good K) (prunedThrough env out) (λ r y, good K y ∧ ∀ w ts, r = Some (w, ts) → 0 ≤ w ≤ sd_through (v_db y)) E.
Proof.
  intros HK. unfold prunedThrough. apply (spec_bind _ _ _ (λ r y, good K y ∧ 0 ≤ r.1.1 ≤ sd_through (v_db y))).
  - apply spec_mem; [by apply stable_good|]. intros y Hy. cbn. split; [done|]. destruct Hy as (_ & (g & Hc) & _). apply (co_cached _ _ Hc).
  - intros [[through ts] [|]]; [apply spec_ret; intros y [? ?]; split; [done|]; by intros w ts' [= <- <-]|].
    apply (spec_pre _ (good K)); [tauto|]. eapply spec_post, (refresh_spec 0 K E HK); [|by intros s' [? _] _]. intros r y [? Hr]. split; [done|]. intros w ts' Hw. by apply (Hr w ts').
Qed.

(** What a check may answer: nothing, a failed query, a pruned block. *)
Definition checked (n : Z) (e : option code) (y : serve_sys) : Prop :=
  match e with None => True | Some c => c = Internal ∨ c = OutOfRange ∧ n ≤ sd_through (v_db y) end.

Lemma outOfRetention_checked n w y : w ≤ sd_through (v_db y) → checked n (outOfRetention n w) y.
Proof. intros Hw. unfold outOfRetention, checked. destruct (Z.ltb_spec 0 w), (Z.leb_spec n w); cbn; try done. right. split; [done|lia]. Qed.

Lemma check_spec n K E : kept K → spec (good K) (checkRetained env out n) (λ e y, good K y ∧ checked n e y) E.
Proof.
  intros HK. unfold checkRetained, retained. eapply spec_bind; [by apply pruned_spec|]. intros [[w ts]|]; apply spec_ret; intros y [Hg Hw]; (split; [done|]); [|by left].
  apply outOfRetention_checked. by apply (Hw w ts).
Qed.
(** A pruned block does not pass the second look. *)
Lemma recheck_spec n K E : kept K → (∀ s, K s → n ≤ sd_through s ∧ 0 < sd_through s) →
  spec (good K) (recheckRetained env out n) (λ e y, good K y ∧ e ≠ None ∧ checked n e y) E.
Proof.
  intros HK Hn. unfold recheckRetained, retained. eapply spec_bind; [apply (refresh_spec (Z.max n 1) K E HK); intros s' _ Hs; specialize (Hn s' Hs); lia|].
  intros [[w ts]|]; apply spec_ret; intros y [Hg Hw]; (split; [done|]); [|split; [done|by left]]. destruct (Hw w ts eq_refl) as [? [? ?]].
  split; [|by apply outOfRetention_checked]. unfold outOfRetention. destruct (Z.ltb_spec 0 w), (Z.leb_spec n w); cbn; try done; lia.
Qed.
Lemma recheck_any n K E : kept K → spec (good K) (recheckRetained env out n) (λ e y, good K y ∧ checked n e y) E.
Proof.
  intros HK. unfold recheckRetained, retained. eapply spec_bind; [apply (refresh_spec 0 K E HK); by intros s' [? _]|].
  intros [[w ts]|]; apply spec_ret; intros y [Hg Hw]; (split; [done|]); [|by left]. apply outOfRetention_checked. by apply (Hw w ts).
Qed.

(** ** The handlers *)

Section Row.
Context (n : Z) (b : prow).
Hypothesis (Hkeep : keep n) (Hn : 0 ≤ n).
Definition row_is (s : serve_db) : Prop := sd_blocks s !! n = Some b.
Definition gone (s : serve_db) : Prop := row_is s ∧ n ≤ sd_through s ∧ 0 < sd_through s.

Lemma kept_row_is : kept row_is.
Proof. by apply kept_row. Qed.
Lemma kept_gone : kept gone.
Proof.
  apply kept_and; [apply kept_row_is|]. apply kept_and; [apply kept_through|]. intros y y' Hs Hp. destruct (step_through y y' Hs). lia.
Qed.
(** A row that is not seen was dropped, so the watermark is above it. *)
Lemma unseen_gone t y : good row_is y → seen t n (v_db y) = None → good gone y.
Proof.
  intros ([Hz Hd] & Hc & Hr). unfold seen. rewrite Hr. case_decide as Hle; [|done]. intros _. destruct (Hd t) as [? Hp].
  refine (conj (conj Hz Hd) (conj Hc (conj Hr (conj _ _)))); [lia|]. apply Hp. lia.
Qed.
Lemma seen_row t y r : good row_is y → seen t n (v_db y) = Some r → r = b.
Proof. intros (_ & _ & Hr). unfold seen. rewrite Hr. case_decide; [done|]. by intros [= <-]. Qed.

(** The answers a handler may give for the block. *)
Definition honest {A} (show : prow → A) (a : answer A) (y : serve_sys) : Prop :=
  match a with
  | Served x => x = show b
  | FromNode x => n ≤ sd_through (v_db y) ∧ ∃ nd k r, lookup = Some nd ∧ ns_block nd k n = Some (Some r) ∧ x = show r
  | Code OutOfRange => n ≤ sd_through (v_db y)
  | Code NotFound => ∃ nd k, lookup = Some nd ∧ ns_block nd k n = Some None
  | Code Unavailable => ∃ nd k, lookup = Some nd ∧ ns_block nd k n = None
  | Code Internal => True
  | Code InvalidArgument => False
  end.

Lemma honest_checked {A} (show : prow → A) e y c : checked n (Some c) y → e = c → honest show (Code e) y.
Proof. intros [->|[-> ?]] ->; done. Qed.

(** The node's part. *)
Lemma pruned_block_spec E : spec (good row_is) (prunedBlockByNumber env out lookup n) (λ r y, good row_is y ∧
  match r with
  | NodeBlock x => n ≤ sd_through (v_db y) ∧ ∃ nd k, lookup = Some nd ∧ ns_block nd k n = Some (Some x)
  | PrunedErr c => honest id (Code c) y
  | NotPruned => True
  end) E.
Proof.
  unfold prunedBlockByNumber, prunedThroughForNode. destruct lookup as [nd|] eqn:El; [|apply (spec_bind _ _ _ (λ r y, good row_is y ∧ r = Some None)); [by apply spec_ret|]].
  2: intros r k y [Hy ->]; by apply (spec_ret (good row_is)).
  apply (spec_bind _ _ _ (λ r y, good row_is y ∧ ∀ nd' w, r = Some (Some (nd', w)) → nd' = nd ∧ 0 < w ≤ sd_through (v_db y))).
  { eapply spec_bind; [apply pruned_spec, kept_row_is|]. intros [[w ts]|]; apply spec_ret; intros y [Hy Hw]; (split; [done|]); [|by intros ? ? [=]].
    intros nd' w'. destruct (Z.ltb_spec 0 w); [|by intros [=]]. intros [= <- <-]. split; [done|]. specialize (Hw w ts eq_refl). lia. }
  intros [[[nd' w]|]|].
  - destruct (Z.ltb_spec w n); [apply spec_ret; by intros y [? _]|]. apply (spec_bind _ _ _ (λ a y, (good gone y ∧ ∃ k, a = ns_block nd' k n) ∧ nd' = nd)).
    + intros k y [Hg Hw']. destruct (Hw' nd' w eq_refl) as [-> ?]. pose proof (ask_spec (λ k, ns_block nd k n) (good gone) E (stable_good _ kept_gone) k y) as Ha. split; [|done]. apply Ha.
      destruct Hg as (G1 & G2 & G3). refine (conj G1 (conj G2 (conj G3 (conj _ _)))); lia.
    + intros a. apply spec_ret. intros y [[(H1 & H2 & [H3 [H4 _]]) [k ->]] ->]. split; [done|]. destruct (ns_block nd k n) as [[x|]|] eqn:Ex; cbn; [split; [done|]|..]; by exists nd, k.
  - apply spec_ret. by intros y [? _].
  - apply spec_ret. by intros y [? _].
Qed.

(** A read of one table, and the second look when it shows nothing. *)
Lemma GetBlock_spec E : spec (good row_is) (GetBlock_by_number env out lookup n) (λ a y, good row_is y ∧ honest id a y) E.
Proof.
  unfold GetBlock_by_number. eapply spec_bind; [apply pruned_block_spec|]. intros [x|c|].
  - apply spec_ret. intros y [Hg [Hle (nd & k & ? & ?)]]. split; [done|]. split; [done|]. by exists nd, k, x.
  - apply spec_ret. by intros y [? ?].
  - apply (spec_pre _ (good row_is)); [tauto|]. eapply spec_bind; [apply check_spec, kept_row_is|]. intros [c|].
    + apply spec_ret. intros y [? Hc]. split; [done|]. by apply (honest_checked id c y c).
    + apply (spec_pre _ (good row_is)); [tauto|]. eapply spec_bind; [apply query_spec, stable_good, kept_row_is|]. intros [[r|]|].
      * apply spec_ret. intros y [Hg Hr]. split; [done|]. symmetry in Hr. cbn. by apply (seen_row PBlocks y), Hr.
      * apply (spec_pre _ (good gone)); [intros y [Hg Hr]; apply (unseen_gone PBlocks); [done|]; symmetry; by apply Hr|].
        eapply spec_bind; [apply (recheck_spec n gone); [apply kept_gone|by intros s' [_ ?]]|]. intros e. apply spec_ret. intros y [(H1 & H2 & [H3 _]) [Hne Hc]].
        split; [done|]. destruct e as [c|]; [|done]. by apply (honest_checked id c y c).
      * apply spec_ret. by intros y [? _].
Qed.

Lemma rows_spec t (show : prow → list gostring) (f : Z → serve_db → list gostring) E :
  (∀ s, f n s = match seen t n s with Some r => show r | None => [] end) →
  spec (good row_is) (rows_by_number env out f n) (λ a y, good row_is y ∧ honest show a y) E.
Proof.
  intros Hf. unfold rows_by_number. eapply spec_bind; [apply check_spec, kept_row_is|]. intros [c|].
  { apply spec_ret. intros y [? Hc]. split; [done|]. by apply (honest_checked show c y c). }
  apply (spec_pre _ (good row_is)); [tauto|]. apply (spec_bind _ _ _ (λ r y, match r with Some [] => good gone y ∨ good row_is y ∧ show b = [] | Some l => good row_is y ∧ l = show b | None => good row_is y end)).
  { eapply spec_post, query_spec, stable_good, kept_row_is. intros [l|] y [Hg Hl]; [|done]. specialize (Hl l eq_refl). rewrite Hf in Hl. destruct (seen t n (v_db y)) as [r|] eqn:Er.
    - rewrite <-(seen_row t y r Hg Er). destruct l; [right|]; by split.
    - subst l. left. by apply (unseen_gone t). }
  intros [[|x l]|]; [|apply spec_ret; by intros y [? ->]|by apply spec_ret]. intros k y [Hg|[Hg Hb]].
  - revert k y Hg. eapply spec_bind; [apply (recheck_spec n gone); [apply kept_gone|by intros s' [_ ?]]|]. intros e. apply spec_ret. intros y [(H1 & H2 & [H3 _]) [Hne Hc]].
    split; [done|]. destruct e as [c|]; [|done]. by apply (honest_checked show c y c).
  - revert k y Hg. eapply spec_bind; [apply (recheck_any n row_is), kept_row_is|]. intros e. apply spec_ret. intros y [Hg Hc]. split; [done|].
    destruct e as [c|]; [by apply (honest_checked show c y c)|]. cbn. by rewrite Hb.
Qed.
Lemma ListTransactions_spec E : spec (good row_is) (ListTransactions_by_number env out lookup n) (λ a y, good row_is y ∧ honest pr_txs a y) E.
Proof.
  unfold ListTransactions_by_number. eapply spec_bind; [apply pruned_block_spec|]. intros [x|c|].
  - apply spec_ret. intros y [Hg [Hle (nd & k & ? & ?)]]. split; [done|]. split; [done|]. by exists nd, k, x.
  - apply spec_ret. by intros y [? ?].
  - apply (spec_pre _ (good row_is)); [tauto|]. by apply (rows_spec PTxs).
Qed.
Lemma ListInternal_spec E : spec (good row_is) (ListInternalTransactions_by_number env out n) (λ a y, good row_is y ∧ honest pr_internal a y) E.
Proof. by apply (rows_spec PInternal). Qed.
End Row.

(** *** The counts of several blocks *)

Lemma counts_lookup nums s' m : m ∈ nums → BatchGetBlockTransactionCounts_rows nums s' !! m =
  match GetTransactionsByBlock m s' with [] => None | txs => Some (Z.of_nat (length txs)) end.
Proof.
  intros Hm. unfold BatchGetBlockTransactionCounts_rows. set (l := omap _ _).
  assert (∀ v, (m, v) ∈ l ↔ match GetTransactionsByBlock m s' with [] => False | txs => v = Z.of_nat (length txs) end) as Hl.
  { intros v. unfold l. rewrite list_elem_of_omap. split.
    - intros (x & _ & Hx). destruct (GetTransactionsByBlock x s') eqn:Ex; [done|]. injection Hx as -> <-. by rewrite Ex.
    - destruct (GetTransactionsByBlock m s') eqn:Ex; [done|]. intros ->. exists m. rewrite elem_of_remove_dups, Ex. done. }
  destruct (GetTransactionsByBlock m s') eqn:Ex.
  - apply not_elem_of_list_to_map_1. intros ([m' v] & -> & Hv)%list_elem_of_fmap. by apply Hl in Hv.
  - apply elem_of_list_to_map_1'; [|by apply Hl]. intros v Hv. by apply Hl in Hv.
Qed.

Section Batch.
Context (nums : list Z) (rows : Z → prow).
Hypothesis Hnums : ∀ m, m ∈ nums → keep m ∧ 0 ≤ m.
Definition rows_are (s : serve_db) : Prop := ∀ m, m ∈ nums → sd_blocks s !! m = Some (rows m).
Lemma kept_rows_are : kept rows_are.
Proof. intros y y' Hs H m Hm. exact (kept_row m (rows m) (proj1 (Hnums m Hm)) y y' Hs (H m Hm)). Qed.

Definition counted (a : answer (gmap Z Z)) (y : serve_sys) : Prop :=
  match a with
  | Served c => ∀ m, m ∈ nums → c !! m = Some (Z.of_nat (length (pr_txs (rows m))))
  | Code c => c = Internal ∨ c = OutOfRange ∧ ∃ m, m ∈ nums ∧ m ≤ sd_through (v_db y)
  | FromNode _ => False
  end.

Lemma oldest_spec n rest : foldr Z.min n rest ∈ n :: rest ∧ ∀ m, m ∈ n :: rest → foldr Z.min n rest ≤ m.
Proof.
  induction rest as [|x rest [IH1 IH2]]; cbn; [split; [left|]; by intros m ->%list_elem_of_singleton|]. split.
  - destruct (Z.min_spec x (foldr Z.min n rest)) as [[_ ->]|[_ ->]]; [right; left|]. apply elem_of_cons in IH1 as [->|?]; [left|by do 2 right].
  - intros m [->|[->|?]%elem_of_cons]%elem_of_cons; [specialize (IH2 n ltac:(left)); lia|lia|]. specialize (IH2 m ltac:(by right)). lia.
Qed.

(** The oldest block seen, all are. *)
Lemma counts_filled s' o : rows_are s' → o ∈ nums → (∀ m, m ∈ nums → o ≤ m) → sd_dropped s' PTxs < o → ∀ m, m ∈ nums →
  (BatchGetBlockTransactionCounts_rows nums s' ∪ list_to_map ((λ n, (n, 0)) <$> nums)) !! m = Some (Z.of_nat (length (pr_txs (rows m)))).
Proof.
  intros Hr Ho Hmin Hd m Hm. rewrite lookup_union, (counts_lookup nums s' m Hm).
  assert (GetTransactionsByBlock m s' = pr_txs (rows m)) as ->.
  { unfold GetTransactionsByBlock, seen. specialize (Hmin m Hm). rewrite decide_False by lia. by rewrite (Hr m Hm). }
  assert ((list_to_map ((λ n, (n, 0)) <$> nums) : gmap Z Z) !! m = Some 0) as ->.
  { apply elem_of_list_to_map_1'; [by intros y (x & [= <- <-] & _)%list_elem_of_fmap|].
    apply list_elem_of_fmap. by exists m. }
  by destruct (pr_txs (rows m)).
Qed.

End Batch.

Lemma batch_spec nums rows E : (∀ m, m ∈ nums → keep m ∧ 0 ≤ m) →
  spec (good (rows_are nums rows)) (BatchGetBlockTransactionCounts env out nums) (λ a y, good (rows_are nums rows) y ∧ counted nums rows a y) E.
Proof.
  intros Hnums. pose proof (kept_rows_are nums rows Hnums) as Hkept.
  unfold BatchGetBlockTransactionCounts. destruct nums as [|n rest]; [apply spec_ret; intros y Hy; split; [done|]; by intros m ?%not_elem_of_nil|].
  destruct (oldest_spec n rest) as [Ho Hmin]. set (nums := n :: rest) in *. set (o := foldr Z.min n rest) in *. clearbody o.
  assert (∀ c e y, checked o (Some c) y → e = c → counted nums rows (Code e) y) as Hck by (intros c e y [->|[-> ?]] ->; [by left|right; split; [done|]; by exists o]).
  eapply spec_bind; [apply check_spec, Hkept|]. intros [c|]; [apply spec_ret; intros y [? Hc]; split; [done|by apply (Hck c)]|].
  apply (spec_pre _ (good (rows_are nums rows))); [tauto|].
  set (fill c := c ∪ list_to_map ((λ n, (n, 0)) <$> nums) : gmap Z Z).
  apply (spec_bind _ _ _ (λ r y, match r with
    | Some c => good (λ s, rows_are nums rows s ∧ o ≤ sd_through s ∧ 0 < sd_through s) y ∧ c !! o = None ∨ good (rows_are nums rows) y ∧ counted nums rows (Served (fill c)) y
    | None => good (rows_are nums rows) y end)).
  { eapply spec_post, query_spec, stable_good, Hkept. intros [c|] y [Hg Hc]; [|done]. rewrite (Hc c eq_refl). destruct Hg as ([Hz Hd] & Hca & Hr).
    destruct (decide (sd_dropped (v_db y) PTxs < o)) as [Hlt|Hge].
    - right. split; [done|]. unfold fill. intros m Hm. by apply (counts_filled nums rows (v_db y) o).
    - left. destruct (Hd PTxs) as [? Hp], (Hnums o Ho) as [_ Ho0]. split.
      + refine (conj (conj Hz Hd) (conj Hca (conj Hr (conj _ _)))); [lia|]. apply Hp. lia.
      + rewrite counts_lookup by done. unfold GetTransactionsByBlock, seen. by rewrite decide_True by lia. }
  intros [c|]; [|apply spec_ret; intros y Hy; split; [done|by left]]. fold (fill c). case_decide as Hs.
  - apply spec_ret. intros y [[_ E']|[? ?]]; [|done]. rewrite E' in Hs. by destruct Hs.
  - intros k y [[Hg _]|[Hg Hc]].
    + revert k y Hg. eapply spec_bind; [apply (recheck_spec o _ E); [|by intros s' [_ ?]]|].
      { apply kept_and; [apply Hkept|]. apply kept_and; [apply kept_through|]. intros y y' Hst Hp. destruct (step_through y y' Hst). lia. }
      intros e. apply spec_ret. intros y [(H1 & H2 & [H3 _]) [Hne Hc]]. split; [done|]. destruct e as [c'|]; [|done]. by apply (Hck c').
    + pose proof (recheck_any o (rows_are nums rows) E Hkept k y Hg) as Hre. unfold bind. destruct (recheckRetained env out o k y) as [[k' y'] [e|]]; [|done].
      destruct Hre as [Hg' Hck']. cbn. split; [done|]. destruct e as [c'|]; [by apply (Hck c')|]. done.
Qed.
End Calls.
End Steps.

(** ** Theorems *)

(** The server starts before anything is pruned or read. *)
Definition serve_start (bs : gmap Z prow) (now : Z) : serve_sys := mkServe (mkServeDb bs 0 0 (λ _, -1)) (mkWatermark 0 0 None 0 0) ∅ now.

Lemma start_good bs now : db_ok (v_db (serve_start bs now)) ∧ ∃ g, cache_ok g (serve_start bs now).
Proof. split; [split; cbn; [lia|]; intros t; lia|]. exists (λ _, 0). by split; cbn; try done; try lia; intros; lia. Qed.
Lemma runs_good keep bs now y : rtc (serve_step keep) (serve_start bs now) y → db_ok (v_db y) ∧ ∃ g, cache_ok g y.
Proof.
  intros Hr. pose proof (start_good bs now) as Hs. induction Hr as [|a b c Hab _ IH]; [done|]. apply IH. destruct Hs as [H1 (g & H2)].
  destruct (step_cache keep g a b Hab H1 H2) as (? & g' & ? & _). split; [done|by exists g'].
Qed.

(** The answer of a call. *)
Definition ans {A} (r : nat * serve_sys * option A) (P : A → serve_sys → Prop) : Prop := ∃ k y a, r = (k, y, Some a) ∧ P a y.
Lemma spec_ans {A} P (m : M serve_sys A) Q k y : spec P m Q (λ _, False) → P y → ans (m k y) Q.
Proof. intros Hm Hy. specialize (Hm k y Hy). destruct (m k y) as [[k' y'] [a|]]; [|done]. by exists k', y', a. Qed.

(** C11: Reads by block number while retention prunes and drops tables and other calls
    refresh the same cached watermark, in any interleaving and with any query failing: the
    block, its transactions and its internal transactions, asked for by the number of an
    indexed block that is not reverted, are the block's own rows, or the answer that it is
    pruned (and it is), or an error of the database or the node; such a call never answers
    that the block does not exist (unless the node says so of a pruned one) and never an
    empty list in the place of the rows; a batch of counts it serves has the right count
    for every block. A list by block hash is not covered: it does not look at the watermark
    again, and answers an empty list for a block dropped meanwhile (see
    list_by_hash_serves_none). *)
Theorem pruned_reads_sound keep env out lookup bs now y n b nums rows k :
  rtc (serve_step keep) (serve_start bs now) y → (∀ k y, rtc (serve_step keep) y (env k y)) → keep n → 0 ≤ n → sd_blocks (v_db y) !! n = Some b →
  (∀ m, m ∈ nums → keep m ∧ 0 ≤ m ∧ sd_blocks (v_db y) !! m = Some (rows m)) →
  ans (GetBlock_by_number env out lookup n k y) (honest lookup n b id) ∧
  ans (ListTransactions_by_number env out lookup n k y) (honest lookup n b pr_txs) ∧
  ans (ListInternalTransactions_by_number env out n k y) (honest lookup n b pr_internal) ∧
  ans (BatchGetBlockTransactionCounts env out nums k y) (counted nums rows).
Proof.
  intros Hr Henv Hk Hn Hb Hnums. destruct (runs_good keep bs now y Hr) as [Hd Hc]. assert (good (row_is n b) y) as Hg by by split_and!.
  assert (∀ A (show : prow → A) (m : M serve_sys (answer A)), spec (good (row_is n b)) m (λ a y, good (row_is n b) y ∧ honest lookup n b show a y) (λ _, False) → ans (m k y) (honest lookup n b show)) as Hans.
  { intros A show m Hm. apply (spec_ans (good (row_is n b))); [|done]. eapply spec_post, Hm. by intros a y' [_ ?]. }
  split_and!.
  - apply Hans. by apply (GetBlock_spec keep).
  - apply Hans. by apply (ListTransactions_spec keep).
  - apply Hans. by apply (ListInternal_spec keep).
  - apply (spec_ans (good (rows_are nums rows))).
    + eapply spec_post, (batch_spec keep env out Henv); [by intros a y' [_ ?]|]. intros m Hm. by destruct (Hnums m Hm) as (? & ? & _).
    + refine (conj Hd (conj Hc _)). intros m Hm. by apply Hnums.
Qed.

(** *** Two runs

    Block 7 is pruned and dropped while it is read: by number the call says so, by hash
    it answers an empty list of its two transactions. *)
Definition seven : prow := mkProw $"0x77" [$"0x71"; $"0x72"] [].
Definition race_db : serve_sys := serve_start {[ 7 := seven ]} 100.
(** The watermark moves to 7 and the transactions are dropped before statement [at]. *)
Definition race (at_ : nat) (k : nat) (y : serve_sys) : serve_sys :=
  if decide (k = at_ ∧ sd_through (v_db y) = 0 ∧ sd_dropped (v_db y) PTxs = -1) then set_db (set_dropped PTxs 7 (set_through 7 5 (v_db y))) y else y.

Lemma race_steps keep at_ k y : rtc (serve_step keep) y (race at_ k y).
Proof.
  unfold race. case_decide as Hc; [|done]. destruct Hc as (_ & E0 & E1). eapply rtc_l; [apply (s_prune keep y 7 5); lia|].
  apply rtc_once. apply (s_drop keep (set_db (set_through 7 5 (v_db y)) y) PTxs 7); cbn; lia.
Qed.

Example list_by_number_says_pruned : ∃ k y, ListTransactions_by_number (race 3) (λ _, Done) None 7 0%nat race_db = (k, y, Some (Code OutOfRange)).
Proof. eexists _, _. vm_compute. reflexivity. Qed.
Example list_by_hash_serves_none : ∃ k y, ListTransactions_by_hash (race 1) (λ _, Done) None $"0x77" 0%nat race_db = (k, y, Some (Served [])) ∧ GetTransactionsByBlock 7 (v_db race_db) ≠ [].
Proof. eexists _, _. split; [vm_compute; reflexivity|done]. Qed.

Lemma pruned_reads_sound_witness :
  ans (ListTransactions_by_number (race 3) (λ _, Done) None 7 0%nat race_db) (honest None 7 seven pr_txs) ∧
  ans (BatchGetBlockTransactionCounts (race 3) (λ _, Done) [7] 0%nat race_db) (counted [7] (λ _, seven)).
Proof.
  destruct (pruned_reads_sound (λ _, True) (race 3) (λ _, Done) None {[ 7 := seven ]} 100 race_db 7 seven [7] (λ _, seven) 0%nat) as (_ & H1 & _ & H2).
  - apply rtc_refl.
  - apply race_steps.
  - exact I.
  - lia.
  - reflexivity.
  - intros m ->%list_elem_of_singleton. split_and!; [exact I|lia|reflexivity].
  - exact (conj H1 H2).
Defined.
