(* ===== verification/ApiMap.v ===== *)
(** * Rows as the API shows them

    [internal/grpcserver/mappers.go]: the messages made of blocks, transactions, logs,
    token transfers, internal calls and address statistics; with the transaction as
    [internal/types] has it, its categories ([internal/db/categories.go],
    [buildCategoriesFromBits] of [queries.go]) and the queries that read it back. A
    message is the record of its fields. *)

From S2P Require Import Prelude GoStrings EthCommon CallTrace BuildBlock BlockWrite.


(** ** Small conversions *)

(** A timestamp message is its seconds. *)
Definition unixToProto (ts : Z) : option Z := if decide (ts = 0) then None else Some (i64 ts).
Definition unixPtrToProto (ts : option Z) : option Z := ts ≫= unixToProto.
Definition strOrEmpty (s : option gostring) : gostring := default [] s.
Definition ptrUint64OrZero (p : option Z) : Z := default 0 p.
(** The BigInt message is its text, empty when there is none. *)
Definition bigIntFromUint64Ptr (u : option Z) : gostring := match u with None => [] | Some u => Text 10 u end.
Definition bigIntFromPtrString (s : option gostring) : gostring := default [] s.

(** ** Blocks *)

Record api_block := mkApiBlock {
  ab_number : Z; ab_hash : gostring; ab_parent : gostring; ab_timestamp : option Z; ab_miner : gostring; ab_gasUsed : Z;
  ab_gasLimit : Z; ab_baseFee : gostring; ab_difficulty : gostring; ab_totalDifficulty : gostring; ab_stateRoot : gostring;
  ab_txRoot : gostring; ab_receiptsRoot : gostring; ab_extra : gostring; ab_nonce : gostring; ab_size : Z; ab_txCount : Z }.

Definition mapBlock (b : block_row) : api_block :=
  mkApiBlock (br_number b) (br_hash b) (br_parent b) (unixToProto (br_timestamp b)) (br_miner b) (br_gasUsed b) (br_gasLimit b)
    (bigIntFromUint64Ptr (br_baseFee b)) (br_difficulty b) (br_totalDifficulty b) (br_stateRoot b) (br_txRoot b)
    (br_receiptsRoot b) (br_extra b) (br_nonce b) (br_size b) (u32 (br_txCount b)).

(** ** Transactions *)

(** [types.Transaction]: the row, the block's timestamp and the category labels. *)
Record Transaction := mkTransaction { t_row : tx_row; t_timestamp : Z; t_categories : list gostring }.

Definition TxTypeDeposit : Z := 126.
Definition TxCategoryCoinTransfer : gostring := $"coin_transfer".
Definition TxCategoryContractCall : gostring := $"contract_call".
Definition TxCategoryContractCreation : gostring := $"contract_creation".
Definition TxCategoryTokenTransfer : gostring := $"token_transfer".
Definition TxCategorySystemTransaction : gostring := $"system_transaction".

Definition label (bits bit : Z) (name : gostring) : list gostring := if decide (Z.land bits bit = 0) then [] else [name].
Definition buildCategoriesFromBits (txType bits : Z) : list gostring :=
  if decide (txType = TxTypeDeposit) then [TxCategorySystemTransaction]
  else label bits CategoryContractCreation TxCategoryContractCreation ++ label bits CategoryContractCall TxCategoryContractCall ++
       label bits CategoryCoinTransfer TxCategoryCoinTransfer ++ label bits CategoryTokenTransfer TxCategoryTokenTransfer.
Definition TxCategoryNames (t : tx_row) (hasTokenTransfer : bool) : list gostring :=
  buildCategoriesFromBits (tx_type t) (computeTxCategories t hasTokenTransfer).

Inductive TransactionCategory := CoinTransfer | ContractCreation | ContractCall | TokenTransferCategory.
Inductive TransactionStatus := StatusUnspecified | StatusSuccess | StatusFailed.

Definition mapTxCategory (c : gostring) : option TransactionCategory :=
  if decide (c = $"coin_transfer") then Some CoinTransfer
  else if decide (c = $"contract_creation") then Some ContractCreation
  else if decide (c = $"contract_call") then Some ContractCall
  else if decide (c = $"token_transfer") then Some TokenTransferCategory else None.
Definition mapTxCategories (cats : list gostring) : list TransactionCategory := omap mapTxCategory cats.
Definition mapTxStatus (s : Z) : TransactionStatus :=
  if decide (s = 1) then StatusSuccess else if decide (s = 0) then StatusFailed else StatusUnspecified.

Record api_tx := mkApiTx {
  at_hash : gostring; at_block : Z; at_timestamp : option Z; at_index : Z; at_from : gostring; at_to : gostring;
  at_value : gostring; at_gas : Z; at_gasUsed : Z; at_gasPrice : gostring; at_effective : gostring; at_maxFee : gostring;
  at_maxPriority : gostring; at_nonce : Z; at_input : gostring; at_method : gostring; at_status : TransactionStatus;
  at_type : Z; at_cumulative : Z; at_contract : gostring; at_categories : list TransactionCategory }.

Definition mapTransaction (t : Transaction) : api_tx :=
  let r := t_row t in
  mkApiTx (tx_hash r) (tx_block r) (unixToProto (t_timestamp t)) (u32 (tx_index r)) (tx_from r) (strOrEmpty (tx_to r))
    (tx_value r) 0 (tx_gasUsed r) (Text 10 (tx_gasPrice r)) [] (bigIntFromUint64Ptr (tx_maxFee r))
    (bigIntFromUint64Ptr (tx_maxPriority r)) (tx_nonce r) (tx_input r)
    (if (10 <=? length (tx_input r))%nat then take 10 (tx_input r) else []) (mapTxStatus (tx_status r)) (u32 (tx_type r)) 0
    (strOrEmpty (tx_contract r)) (mapTxCategories (t_categories t)).
Definition mapTransactions (l : list Transaction) : list api_tx := mapTransaction <$> l.

(** ** Logs, transfers, internal calls *)

Record api_log := mkApiLog {
  al_block : Z; al_timestamp : option Z; al_tx : gostring; al_index : Z; al_address : gostring; al_topics : list gostring;
  al_data : gostring; al_removed : bool }.
Definition mapLog (l : log_row) : api_log :=
  mkApiLog (lr_block l) (unixToProto (lr_timestamp l)) (lr_tx l) (u32 (lr_index l)) (lr_address l)
    (filter (λ t, t ≠ []) (omap id [lr_topic0 l; lr_topic1 l; lr_topic2 l; lr_topic3 l])) (lr_data l) (lr_removed l).

Inductive TokenType := TokenTypeUnspecified | ERC20 | ERC721 | ERC1155.
Definition mapTokenType (s : gostring) : TokenType :=
  if decide (s = $"ERC20" ∨ s = $"erc20") then ERC20
  else if decide (s = $"ERC721" ∨ s = $"erc721") then ERC721
  else if decide (s = $"ERC1155" ∨ s = $"erc1155") then ERC1155 else TokenTypeUnspecified.

Record api_transfer := mkApiTransfer {
  ax_tx : gostring; ax_index : Z; ax_block : Z; ax_timestamp : option Z; ax_token : gostring; ax_type : TokenType;
  ax_from : gostring; ax_to : gostring; ax_value : gostring; ax_id : gostring }.
Definition mapTokenTransfer (t : transfer_row) : api_transfer :=
  mkApiTransfer (tr_tx t) (u32 (tr_index t)) (tr_block t) (unixToProto (tr_timestamp t)) (tr_token t) (mapTokenType (tr_type t))
    (tr_from t) (tr_to t) (tr_value t) (bigIntFromPtrString (tr_id t)).

Record api_internal := mkApiInternal {
  ai_tx : gostring; ai_block : Z; ai_timestamp : option Z; ai_trace : gostring; ai_call : gostring; ai_from : gostring;
  ai_to : gostring; ai_value : gostring; ai_gas : Z; ai_gasUsed : Z; ai_input : gostring; ai_output : gostring; ai_error : gostring }.
Definition mapInternalTx (it : InternalTransaction) : api_internal :=
  mkApiInternal (TxHash it) (BlockNumber it) (unixPtrToProto (Timestamp it)) (TraceAddress it) (CallType it) (From it)
    (strOrEmpty (To it)) (Value it) (ptrUint64OrZero (Gas it)) (ptrUint64OrZero (GasUsed it)) (strOrEmpty (Input it))
    (strOrEmpty (Output it)) (strOrEmpty (Error it)).

(** ** Address statistics *)

(** [types.AddressStats]: counters of 64 bits; the first and last block, if any. *)
Record AddressStats := mkAddressStats {
  as_address : gostring; as_contract : bool; as_txs : Z; as_sent : Z; as_transfers : Z; as_first : option Z; as_last : option Z }.
Record api_address := mkApiAddress {
  aa_address : gostring; aa_contract : bool; aa_in : Z; aa_out : Z; aa_tokens : Z; aa_first_at : option Z; aa_last_at : option Z;
  aa_first_block : Z; aa_last_block : Z }.

Definition txCountIn (a : AddressStats) : Z := if as_txs a <? as_sent a then 0 else u64 (as_txs a - as_sent a).
Definition mapAddressStats (a : AddressStats) : api_address :=
  mkApiAddress (as_address a) (as_contract a) (txCountIn a) (u64 (as_sent a)) (u64 (as_transfers a)) (unixPtrToProto (as_first a))
    (unixPtrToProto (as_last a)) (ptrUint64OrZero (as_first a)) (ptrUint64OrZero (as_last a)).

(** The row [GetAddressStats] reads; an address without one has zeros. *)
Definition GetAddressStats (address : gostring) (s : tables) : AddressStats :=
  match s_stats s !! ToLower address with
  | Some r => mkAddressStats (ToLower address) (ae_contract r) (ae_txs r) (ae_sent r) (ae_transfers r) (Some (ae_first r)) (Some (ae_last r))
  | None => mkAddressStats address false 0 0 0 None None
  end.

(** The two counts shown add up to the transactions of the address, and a row that has
    drifted does not wrap. *)
Lemma shown_counts (a : AddressStats) : 0 ≤ as_txs a < W64 → 0 ≤ as_sent a < W64 →
  aa_in (mapAddressStats a) + aa_out (mapAddressStats a) = Z.max (as_txs a) (as_sent a).
Proof.
  intros Ht Hs. cbn [aa_in aa_out mapAddressStats]. unfold txCountIn. rewrite (u64_small (as_sent a)) by done.
  destruct (Z.ltb_spec (as_txs a) (as_sent a)); [lia|]. rewrite u64_small; [lia|]. unfold is_u64. lia.
Qed.

(** ** Reading transactions back *)

(** The value column is a number; its text is the number's. *)
Definition value_text (v : gostring) : gostring := match SetString 10 v with Some z => Text 10 z | None => v end.
(** The block_timestamp column is written with the row, from the row of its block. *)
Definition timestamp_of (s : tables) (t : tx_row) : Z := match s_blocks s !! tx_block t with Some b => br_timestamp b | None => 0 end.
Definition set_contract (a : option gostring) (t : tx_row) : tx_row :=
  mkTxRow (tx_hash t) (tx_block t) (tx_index t) (tx_from t) (tx_to t) a (value_text (tx_value t)) (tx_gasUsed t) (tx_gasPrice t)
    (tx_gasLimit t) (tx_maxFee t) (tx_maxPriority t) (tx_nonce t) (tx_type t) (tx_input t) (tx_status t) (tx_error t).

Definition GetBlock (n : Z) (s : tables) : option block_row := s_blocks s !! n.

(** [LEFT JOIN contracts ON creation_tx = hash AND to_address IS NULL]: a row per match,
    one row with no contract when there is none. *)
Definition created_by (s : tables) (t : tx_row) : list gostring :=
  if decide (tx_to t = None) then fst <$> filter (λ kr, cr_tx kr.2 = tx_hash t) (map_to_list (s_contracts s)) else [].
Definition joined (s : tables) (t : tx_row) : list (option gostring) :=
  match created_by s t with [] => [None] | l => Some <$> l end.

(** The rows of the query; the call returns the first the database gives, which may be
    any of them. *)
Definition GetTransactionWithCategories (hash : gostring) (s : tables) : list Transaction :=
  match s_txs s !! hash with
  | None => []
  | Some (t, bits) =>
      (λ a, mkTransaction (set_contract a t) (timestamp_of s t) (buildCategoriesFromBits (tx_type t) bits)) <$> joined s t
  end.

Definition by_index (a b : tx_row) : Prop := tx_index a ≤ tx_index b.
#[export] Instance by_index_dec : RelDecision by_index.
Proof. intros a b. unfold by_index. apply _. Defined.

(** [GetTransactionsByBlock] reads neither the contract nor the categories. *)
Definition GetTransactionsByBlock (n : Z) (s : tables) : list Transaction :=
  (λ t, mkTransaction (set_contract None t) (timestamp_of s t) []) <$>
  merge_sort by_index (filter (λ t, tx_block t = n) (fst <$> values (s_txs s))).
