(* ===== verification/NodeMap.v ===== *)
(** * A pruned block read from the node

    [internal/nodelookup/map.go]: the rows a block would have had, made of the node's
    block and receipts. Against the rows ingest stores of the same answers and the
    queries that read them back. *)

From S2P Require Import Prelude GoStrings EthCommon CallTrace BuildBlock BlockWrite BlockStats ApiMap.

(** ** MapBlock *)

(** A receipt with the hash of its transaction; a nil pointer is [None]. *)
Definition node_receipts : Type := list (option (gostring * Receipt)).
Definition byHash (rs : node_receipts) : gmap gostring Receipt :=
  foldl (λ m r, match r with Some (h, r) => <[h := r]> m | None => m end) ∅ rs.

Definition hasTransferTopic (l : receipt_log) : bool := bool_decide (head (rl_topics l) = Some transferTopic).

Section Map.
Context `{Keccak}.

Definition mapNodeTransaction (rt : RawTransaction) (r : option Receipt) (number timestamp idx : Z) : Transaction :=
  let row := mkTxRow (Hash_Hex (rt_hash rt)) number idx (ToLower (Address_Hex (rt_from rt)))
    ((λ to, ToLower (Address_Hex to)) <$> rt_to rt)
    (match r with
     | Some r => if decide (rt_to rt = None ∧ rc_contract r ≠ zeroAddress) then Some (ToLower (Address_Hex (rc_contract r))) else None
     | None => None
     end)
    (match rt_value rt with None => $"0" | Some v => Text 10 v end)
    (match r with Some r => rc_gasUsed r | None => rt_gas rt end)
    (match rt_gasPrice rt with None => 0 | Some p => big_Uint64 p end) (rt_gas rt)
    (big_Uint64 <$> rt_maxFee rt) (big_Uint64 <$> rt_maxPriority rt) (default 0 (rt_nonce rt)) (i64 (rt_type rt))
    (Bytes2Hex (rt_input rt))
    (match r with Some r => i64 (rc_status r) | None => 1 end)
    (match r with Some r => if rc_status r =? 0 then Some $"transaction reverted" else None | None => None end) in
  let hasTransfer := match r with Some r => existsb hasTransferTopic (rc_logs r) | None => false end in
  mkTransaction row timestamp (TxCategoryNames row hasTransfer).

Record NodeBlock := mkNodeBlock { nb_block : block_row; nb_txs : list Transaction; nb_size : Z }.

Definition MapBlock (raw : RawBlock) (rs : node_receipts) : NodeBlock :=
  let receipts := byHash rs in
  let txs := imap (λ i rt, mapNodeTransaction rt (receipts !! rt_hash rt) (NumberU64 raw) (rb_timestamp raw) (Z.of_nat i)) (rb_txs raw) in
  mkNodeBlock (block_row_of raw) txs
    (512 + zlen (rb_extra raw) + foldr (λ t acc, 400 + zlen (tx_input (t_row t)) + acc) 0 txs).

(** ** What ingest makes of the same answers *)

(** A Transfer event the indexer records; a log that only starts like one. *)
Definition recorded (l : receipt_log) : bool := bool_decide (is_Some (transfer_event l)).
Definition some_log (f : receipt_log → bool) (r : option Receipt) : bool :=
  match r with Some r => existsb f (rc_logs r) | None => false end.

Section Rows.
Context (c : build_config) (nd : node_answers) (cache : gset gostring) (n ts : Z) (receipts : gmap gostring Receipt).

(** The hash of a transaction, once per Transfer event of it. *)
Definition transfers_of (rt : RawTransaction) : list gostring :=
  match receipts !! rt_hash rt with
  | Some r => (λ _, Hash_Hex (rt_hash rt)) <$> filter (λ l, recorded l = true) (rc_logs r)
  | None => []
  end.

Lemma add_log_rows txh i b l : b_txs (add_log cache n ts txh i b l) = b_txs b ∧
  tr_tx <$> b_transfers (add_log cache n ts txh i b l) = (tr_tx <$> b_transfers b) ++ if recorded l then [txh] else [].
Proof.
  unfold add_log, recorded. destruct (transfer_event l) as [[[f t] id]|] eqn:E.
  - rewrite bool_decide_eq_true_2 by eauto. unfold add_transfer_log, countTransferParticipant.
    repeat case_decide; cbn [b_txs b_transfers set_stats touchAddressTx]; rewrite ?fmap_app; done.
  - rewrite bool_decide_eq_false_2 by (intros [? ?]; done). cbn. by rewrite app_nil_r.
Qed.

Lemma add_logs_rows txh i ls b : b_txs (foldl (add_log cache n ts txh i) b ls) = b_txs b ∧
  tr_tx <$> b_transfers (foldl (add_log cache n ts txh i) b ls) =
    (tr_tx <$> b_transfers b) ++ ((λ _, txh) <$> filter (λ l, recorded l = true) ls).
Proof.
  revert b. induction ls as [|l ls IH]; intros b; [cbn; by rewrite app_nil_r|]. cbn [foldl].
  destruct (IH (add_log cache n ts txh i b l)) as [-> ->]. destruct (add_log_rows txh i b l) as [-> ->]. split; [done|].
  rewrite <-(assoc_L (++)). f_equal. rewrite filter_cons. destruct (recorded l); by case_decide.
Qed.

Lemma add_creation_rows rt r b : b_txs (add_creation c nd n rt r b) = b_txs b ∧
  b_transfers (add_creation c nd n rt r b) = b_transfers b.
Proof. unfold add_creation. repeat case_match; done. Qed.

Lemma add_tx_rows idx rt b : b_txs (add_tx c nd cache n ts receipts idx rt b) = b_txs b ++ [tx_row_of n idx rt (receipts !! rt_hash rt)] ∧
  tr_tx <$> b_transfers (add_tx c nd cache n ts receipts idx rt b) = (tr_tx <$> b_transfers b) ++ transfers_of rt.
Proof.
  unfold add_tx, transfers_of.
  match goal with |- context [add_creation c nd n rt ?r ?b] => set (b3 := b); destruct (add_creation_rows rt r b3) as [E1 E2] end.
  assert (b_txs b3 = b_txs b ++ [tx_row_of n idx rt (receipts !! rt_hash rt)] ∧ b_transfers b3 = b_transfers b) as [F1 F2]
    by (subst b3; by destruct (rt_to rt)).
  destruct (receipts !! rt_hash rt) as [r|].
  - destruct (add_logs_rows (Hash_Hex (rt_hash rt)) idx (rc_logs r) (add_creation c nd n rt (Some r) b3)) as [-> ->].
    by rewrite E1, E2, F1, F2.
  - by rewrite E1, E2, F1, F2, app_nil_r.
Qed.

Lemma add_txs_rows txs idx b :
  b_txs (add_txs_from c nd cache n ts receipts idx txs b) =
    b_txs b ++ imap (λ i rt, tx_row_of n (idx + Z.of_nat i) rt (receipts !! rt_hash rt)) txs ∧
  tr_tx <$> b_transfers (add_txs_from c nd cache n ts receipts idx txs b) = (tr_tx <$> b_transfers b) ++ (txs ≫= transfers_of).
Proof.
  revert idx b. induction txs as [|rt txs IH]; intros idx b; [cbn; by rewrite !app_nil_r|]. cbn [add_txs_from].
  destruct (IH (idx + 1) (add_tx c nd cache n ts receipts idx rt b)) as [-> ->]. destruct (add_tx_rows idx rt b) as [-> ->].
  rewrite <-!(assoc_L (++)). cbn [imap app mbind list_bind]. split; [|done]. rewrite Z.add_0_r.
  rewrite (imap_ext (λ i rt, tx_row_of n (idx + 1 + Z.of_nat i) rt (receipts !! rt_hash rt))
    ((λ i rt, tx_row_of n (idx + Z.of_nat i) rt (receipts !! rt_hash rt)) ∘ S)); [done|].
  intros i x _. cbn [compose]. f_equal. lia.
Qed.
End Rows.

Lemma creations_rows c nd n fs b : b_txs (foldl (add_internal_creation c nd n) b fs) = b_txs b ∧
  b_transfers (foldl (add_internal_creation c nd n) b fs) = b_transfers b.
Proof.
  revert b. induction fs as [|f fs IH]; intros b; [done|]. cbn [foldl].
  destruct (IH (add_internal_creation c nd n b f)) as [-> ->]. unfold add_internal_creation. repeat case_match; done.
Qed.

Lemma buildBlock_rows (c : build_config) (nd : node_answers) (cs : caches) (raw : RawBlock) (receipts : gmap gostring Receipt) : let d := built_data (buildBlock c nd cs raw receipts) in
  bd_block d = Some (block_row_of raw) ∧
  bd_txs d = imap (λ i rt, tx_row_of (NumberU64 raw) (Z.of_nat i) rt (receipts !! rt_hash rt)) (rb_txs raw) ∧
  tr_tx <$> bd_transfers d = rb_txs raw ≫= transfers_of receipts.
Proof.
  unfold buildBlock. destruct (fetch_internal c nd (receiptTxHashes c raw)) as [its err]. cbn [built_data bd_block bd_txs bd_transfers].
  unfold add_internals. destruct (creations_rows c nd (NumberU64 raw) (internalCreations its)
    (set_stats (foldl (count_internal (NumberU64 raw)) (b_stats (after_loop c nd cs raw receipts)) its)
       (b_addressTxs (after_loop c nd cs raw receipts)) (after_loop c nd cs raw receipts))) as [-> ->].
  unfold after_loop. cbn [b_txs b_transfers set_stats].
  destruct (add_txs_rows c nd (tokenCache cs) (NumberU64 raw) (rb_timestamp raw) receipts (rb_txs raw) 0 (empty_build cs)) as [-> ->].
  cbn. split_and!; done.
Qed.
(** ** The stored rows *)

Lemma some_log_true f r : some_log f r = true ↔ ∃ rc l, r = Some rc ∧ l ∈ rc_logs rc ∧ f l = true.
Proof.
  destruct r as [rc|]; cbn; [|naive_solver]. rewrite existsb_exists. setoid_rewrite <-list_elem_of_In. naive_solver.
Qed.

Lemma elem_of_transfer_set (receipts : gmap gostring Receipt) (rt : RawTransaction) (txs : list RawTransaction) (trs : list transfer_row) : NoDup (rt_hash <$> txs) → rt ∈ txs → tr_tx <$> trs = txs ≫= transfers_of receipts →
  bool_decide (Hash_Hex (rt_hash rt) ∈ buildTokenTransferTxSet trs) = some_log recorded (receipts !! rt_hash rt).
Proof.
  intros Hnd Hin E. apply Bool.eq_iff_eq_true. rewrite bool_decide_eq_true, some_log_true.
  unfold buildTokenTransferTxSet. rewrite elem_of_list_to_set, E, list_elem_of_bind. split.
  - intros (rt' & Hh & _). unfold transfers_of in Hh. destruct (receipts !! rt_hash rt') as [rc|] eqn:Er; [|by apply not_elem_of_nil in Hh].
    apply list_elem_of_fmap in Hh as (l & Eh & Hl). apply list_elem_of_filter in Hl as [Hl1 Hl2].
    apply (f_equal FromHex) in Eh. rewrite !FromHex_Hash_Hex in Eh. rewrite Eh. by exists rc, l.
  - intros (rc & l & Er & Hl & Hr). exists rt. split; [|done]. unfold transfers_of. rewrite Er.
    apply list_elem_of_fmap. exists l. split; [done|]. by apply list_elem_of_filter.
Qed.

Lemma rows_nodup (raw : RawBlock) (receipts : gmap gostring Receipt) : NoDup (rt_hash <$> rb_txs raw) →
  NoDup (tx_hash <$> imap (λ i rt, tx_row_of (NumberU64 raw) (Z.of_nat i) rt (receipts !! rt_hash rt)) (rb_txs raw)).
Proof.
  intros Hnd. assert (∀ (f : nat → RawTransaction → tx_row) l, (∀ i rt, tx_hash (f i rt) = Hash_Hex (rt_hash rt)) →
    tx_hash <$> imap f l = Hash_Hex <$> (rt_hash <$> l)) as Hm.
  { intros f l Hf. rewrite fmap_imap. rewrite <-list_fmap_compose. apply list_eq. intros i. rewrite list_lookup_imap, list_lookup_fmap.
    destruct (l !! i); [|done]. cbn. by rewrite Hf. }
  rewrite Hm by done. apply NoDup_fmap_2; [|done]. intros a b Hab. apply (f_equal FromHex) in Hab. by rewrite !FromHex_Hash_Hex in Hab.
Qed.

Section Stored.
Context (c : build_config) (nd : node_answers) (cs : caches) (raw : RawBlock) (receipts : gmap gostring Receipt) (s s' : tables).
Hypothesis Hnd : NoDup (rt_hash <$> rb_txs raw).
Hypothesis Hnew : block_conflict s (block_row_of raw) = false.
Hypothesis Hfresh : ∀ rt, rt ∈ rb_txs raw → s_txs s !! Hash_Hex (rt_hash rt) = None.
Hypothesis Hwrite : InsertBlockDataBatch (built_data (buildBlock c nd cs raw receipts)) s = Ok s'.

(** The row of the i-th transaction. *)
Definition ingested (i : nat) (rt : RawTransaction) : tx_row := tx_row_of (NumberU64 raw) (Z.of_nat i) rt (receipts !! rt_hash rt).

Lemma stored_block_rows : s_blocks s' !! NumberU64 raw = Some (block_row_of raw) ∧
  (∀ i rt, rb_txs raw !! i = Some rt → s_txs s' !! Hash_Hex (rt_hash rt) =
     Some (lower_tx (ingested i rt), computeTxCategories (ingested i rt) (some_log recorded (receipts !! rt_hash rt)))) ∧
  fst <$> values (s_txs s') ≡ₚ (lower_tx <$> imap ingested (rb_txs raw)) ++ (fst <$> values (s_txs s)).
Proof.
  destruct (buildBlock_rows c nd cs raw receipts) as (Eb & Et & Etr). set (d := built_data (buildBlock c nd cs raw receipts)) in *.
  revert Hwrite. unfold InsertBlockDataBatch, BeginBlockData. rewrite Eb, Hnew.
  destruct (write_own d s (<[br_number (block_row_of raw) := block_row_of raw]> (s_blocks s)) 1) as [[g|]|] eqn:Ew; [..|done].
  2:{ exfalso. revert Ew. unfold write_own. destruct (insert_txs _ _ _ _) as [[txs ntxs]|]; [|done]. cbn [res_bind].
      destruct (insert_logs _ _ _). destruct (negb _); [done|]. destruct (insert_transfers _ _); [|done]. cbn [res_bind]. by destruct (negb _). }
  cbn [res_bind]. intros [= <-].
  assert (pieces d s g) as Hp. { apply BeginBlockData_pieces. unfold BeginBlockData. by rewrite Eb, Hnew. }
  assert (s_blocks (writeSharedRows d g) = s_blocks (g_tables g) ∧ s_txs (writeSharedRows d g) = s_txs (g_tables g)) as [-> ->].
  { unfold writeSharedRows. by destruct (foldl upsert_token _ _). }
  pose proof (pc_blocks _ _ _ Hp) as Hb. rewrite Eb in Hb. destruct Hb as (_ & -> & _).
  pose proof (insert_txs_rows _ _ _ _ _ _ (pc_txs _ _ _ Hp)) as ->.
  destruct (insert_rows_fresh tx_hash (tx_val (buildTokenTransferTxSet (bd_transfers d))) (s_txs s) (bd_txs d)) as [Hv Hall].
  { rewrite Et. by apply rows_nodup. }
  { rewrite Et, Forall_forall. intros t Ht. apply elem_of_lookup_imap in Ht as (i & rt & -> & Hi). cbn. apply Hfresh.
    by eapply list_elem_of_lookup_2. }
  split_and!.
  - by rewrite lookup_insert_eq.
  - intros i rt Hi. rewrite Et, Forall_forall in Hall. specialize (Hall (ingested i rt)).
    assert (ingested i rt ∈ imap ingested (rb_txs raw)) as Hin by (apply elem_of_lookup_imap; eauto).
    specialize (Hall Hin). cbn [tx_hash ingested tx_row_of] in Hall. rewrite Et, Hall. f_equal. unfold tx_val. f_equal. f_equal.
    apply (elem_of_transfer_set receipts rt (rb_txs raw)); [done| |done]. by eapply list_elem_of_lookup_2.
  - rewrite Hv, fmap_app, <-list_fmap_compose, Et. done.
Qed.
End Stored.
(** ** What the API shows of them *)

Definition shown_as (contract : gostring) (cats : list TransactionCategory) (t : api_tx) : api_tx :=
  mkApiTx (at_hash t) (at_block t) (at_timestamp t) (at_index t) (at_from t) (at_to t) (at_value t) (at_gas t) (at_gasUsed t)
    (at_gasPrice t) (at_effective t) (at_maxFee t) (at_maxPriority t) (at_nonce t) (at_input t) (at_method t) (at_status t)
    (at_type t) (at_cumulative t) contract cats.

(** The contract a creation names in its receipt. *)
Definition node_created (rt : RawTransaction) (r : option Receipt) : list gostring :=
  match created_address rt r with Some a => [ToLower (Address_Hex a)] | None => [] end.

Lemma categories_same t b1 b2 :
  mapTxCategories (TxCategoryNames t b1) = mapTxCategories (TxCategoryNames t b2) ↔ tx_type t = TxTypeDeposit ∨ b1 = b2.
Proof.
  unfold TxCategoryNames, buildCategoriesFromBits. case_decide as Hd; [naive_solver|].
  unfold computeTxCategories. generalize (negb (bool_decide (tx_value t = [])) && negb (bool_decide (tx_value t = $"0")) && isEmptyCalldata (tx_input t)).
  generalize (bool_decide (tx_to t = None) && (tx_status t =? 1)). generalize (bool_decide (is_Some (tx_to t)) && hasMethodSelector (tx_input t)).
  intros x y z. destruct x, y, z, b1, b2; vm_compute; naive_solver.
Qed.

Lemma value_text_Text v : value_text (Text 10 v) = Text 10 v.
Proof. unfold value_text. by rewrite SetString_Text by lia. Qed.

Lemma shown_row (raw : RawBlock) (r : option Receipt) (i : nat) (rt : RawTransaction) (a : option gostring) (cats : list gostring) :
  let t := mkTransaction (set_contract a (lower_tx (tx_row_of (NumberU64 raw) (Z.of_nat i) rt r))) (rb_timestamp raw) cats in
  mapTransaction t = shown_as (strOrEmpty a) (mapTxCategories cats)
    (mapTransaction (mapNodeTransaction rt r (NumberU64 raw) (rb_timestamp raw) (Z.of_nat i))).
Proof.
  unfold mapTransaction, shown_as, mapNodeTransaction, set_contract, lower_tx, tx_row_of.
  cbn [t_row t_timestamp t_categories tx_hash tx_block tx_index tx_from tx_to tx_contract tx_value tx_gasUsed tx_gasPrice tx_gasLimit tx_maxFee
    tx_maxPriority tx_nonce tx_type tx_input tx_status tx_error at_hash at_block at_timestamp at_index at_from at_to at_value at_gas at_gasUsed
    at_gasPrice at_effective at_maxFee at_maxPriority at_nonce at_input at_method at_status at_type at_cumulative].
  assert ((if decide (rt_input rt = []) then [] else Bytes2Hex (rt_input rt)) = Bytes2Hex (rt_input rt)) as ->
    by (case_decide as E; [by rewrite E|done]).
  f_equal.
  - by destruct (rt_to rt).
  - destruct (rt_value rt); [apply value_text_Text|done].
Qed.

Lemma computeTxCategories_row (raw : RawBlock) (r : option Receipt) (i : nat) (rt : RawTransaction) (b : bool) :
  computeTxCategories (tx_row_of (NumberU64 raw) (Z.of_nat i) rt r) b =
  computeTxCategories (t_row (mapNodeTransaction rt r (NumberU64 raw) (rb_timestamp raw) (Z.of_nat i))) b.
Proof.
  unfold computeTxCategories, mapNodeTransaction, tx_row_of. cbn [t_row tx_value tx_input tx_to tx_status].
  assert ((if decide (rt_input rt = []) then [] else Bytes2Hex (rt_input rt)) = Bytes2Hex (rt_input rt)) as ->
    by (case_decide as E; [by rewrite E|done]).
  by destruct (rt_to rt).
Qed.

Lemma lookup_node_tx (raw : RawBlock) (rs : node_receipts) (i : nat) (rt : RawTransaction) : rb_txs raw !! i = Some rt →
  nb_txs (MapBlock raw rs) !! i =
  Some (mapNodeTransaction rt (byHash rs !! rt_hash rt) (NumberU64 raw) (rb_timestamp raw) (Z.of_nat i)).
Proof. intros Hi. cbn [nb_txs MapBlock]. by rewrite list_lookup_imap, Hi. Qed.

(** The transactions of a block come back in the order they have in it. *)
Lemma sort_by_index (l : list tx_row) (l' : list tx_row) :
  (∀ i t, l !! i = Some t → tx_index t = Z.of_nat i) → l' ≡ₚ l → merge_sort by_index l' = l.
Proof.
  intros Hi Hp. assert (Transitive by_index) by (intros a b d; unfold by_index; lia).
  assert (Total by_index) by (intros a b; unfold by_index; lia).
  apply (StronglySorted_unique_strong by_index).
  - intros a b Ha Hb Hab Hba. rewrite merge_sort_Permutation, Hp in Ha. apply list_elem_of_lookup in Ha as [j Hj], Hb as [k Hk].
    pose proof (Hi _ _ Hj). pose proof (Hi _ _ Hk). unfold by_index in Hab, Hba. assert (j = k) as -> by lia. congruence.
  - by apply StronglySorted_merge_sort.
  - clear Hp l'. assert (∀ k, (∀ i t, l !! i = Some t → tx_index t = k + Z.of_nat i) → StronglySorted by_index l) as Hs;
      [|apply (Hs 0); intros i t Ht; rewrite (Hi i t Ht); lia].
    clear Hi. induction l as [|t l IH]; intros k Hk; constructor.
    + apply (IH (k + 1)). intros i x Hx. rewrite (Hk (S i) x Hx). lia.
    + rewrite Forall_forall. intros x Hx. apply list_elem_of_lookup in Hx as [j Hj]. unfold by_index.
      rewrite (Hk 0%nat t eq_refl), (Hk (S j) x Hj). lia.
  - by rewrite merge_sort_Permutation.
Qed.

(** C39: a pruned block reads from the node as it read from the database. For a block
    ingest stored from the node's answers, the block is the same; a transaction looked up
    by its hash is the same in every field but two: its categories agree exactly when it
    is a deposit or has a recorded token transfer or no log that starts like one (a
    Transfer topic with fewer than three topics sets the category from the node only),
    and its contract agrees when the stored contracts of the transaction are the one its
    receipt names. The list of a block's transactions has the same transactions in the
    same order, but from the database no contract and no categories. *)
Theorem pruned_block_reads_same (c : build_config) (nd : node_answers) (cs : caches) (raw : RawBlock)
    (receipts : gmap gostring Receipt) (rs : node_receipts) (s s' : tables) :
  NoDup (rt_hash <$> rb_txs raw) →
  (∀ rt, rt ∈ rb_txs raw → receipts !! rt_hash rt = byHash rs !! rt_hash rt) →
  block_conflict s (block_row_of raw) = false →
  (∀ rt, rt ∈ rb_txs raw → s_txs s !! Hash_Hex (rt_hash rt) = None) →
  Forall (λ t, tx_block t ≠ NumberU64 raw) (fst <$> values (s_txs s)) →
  InsertBlockDataBatch (built_data (buildBlock c nd cs raw receipts)) s = Ok s' →
  GetBlock (NumberU64 raw) s' = Some (nb_block (MapBlock raw rs)) ∧
  (∀ i rt, rb_txs raw !! i = Some rt →
     let h := Hash_Hex (rt_hash rt) in let r := byHash rs !! rt_hash rt in
     ∃ nt, nb_txs (MapBlock raw rs) !! i = Some nt ∧ GetTransactionWithCategories h s' ≠ [] ∧
     ∀ t, t ∈ GetTransactionWithCategories h s' →
       mapTransaction t = shown_as (at_contract (mapTransaction t)) (at_categories (mapTransaction t)) (mapTransaction nt) ∧
       (at_categories (mapTransaction t) = at_categories (mapTransaction nt) ↔
          i64 (rt_type rt) = TxTypeDeposit ∨ some_log recorded r = some_log hasTransferTopic r) ∧
       (created_by s' (t_row t) = node_created rt r → at_contract (mapTransaction t) = at_contract (mapTransaction nt))) ∧
  mapTransactions (GetTransactionsByBlock (NumberU64 raw) s') = shown_as [] [] <$> mapTransactions (nb_txs (MapBlock raw rs)).
Proof.
  intros Hnd Hrs Hnew Hfresh Hother Hw.
  destruct (stored_block_rows c nd cs raw receipts s s' Hnd Hnew Hfresh Hw) as (Hb & Htx & Hall).
  assert (∀ i rt, timestamp_of s' (lower_tx (ingested raw receipts i rt)) = rb_timestamp raw) as Hts.
  { intros i rt. unfold timestamp_of. cbn [tx_block lower_tx ingested tx_row_of]. by rewrite Hb. }
  split_and!; [done| |].
  - intros i rt Hi h r. specialize (Htx i rt Hi). fold h in Htx. pose proof (lookup_node_tx raw rs i rt Hi) as Hn. fold r in Hn.
    assert (receipts !! rt_hash rt = r) as Er by (apply Hrs; by eapply list_elem_of_lookup_2).
    eexists. split; [exact Hn|]. unfold GetTransactionWithCategories. rewrite Htx. unfold ingested at 1. rewrite Er. split.
    { intros E. apply fmap_nil_inv in E. unfold joined in E. by destruct (created_by _ _). }
    intros t Ht. apply list_elem_of_fmap in Ht as (a & -> & Ha). rewrite Hts. unfold ingested. rewrite Er. rewrite shown_row.
    cbn [at_contract at_categories shown_as t_row]. split_and!; [done| |].
    + unfold ingested. rewrite (computeTxCategories_row raw). change (tx_type (lower_tx ?t)) with (tx_type t).
      change (at_categories (mapTransaction ?t)) with (mapTxCategories (t_categories t)).
      apply (categories_same (t_row (mapNodeTransaction rt r (NumberU64 raw) (rb_timestamp raw) (Z.of_nat i)))).
    + intros Hc. unfold joined in Ha.
      assert (created_by s' (set_contract a (lower_tx (tx_row_of (NumberU64 raw) (Z.of_nat i) rt r))) =
              created_by s' (lower_tx (ingested raw receipts i rt))) as Ec by (unfold ingested; by rewrite Er).
      rewrite <-Ec, Hc in Ha. unfold node_created, created_address in Ha.
      unfold mapNodeTransaction, mapTransaction. cbn [t_row tx_contract at_contract].
      destruct r as [rc|]; [case_decide|]; apply list_elem_of_singleton in Ha as ->; done.
  - unfold GetTransactionsByBlock, mapTransactions.
    rewrite (sort_by_index (lower_tx <$> imap (ingested raw receipts) (rb_txs raw))).
    + rewrite <-!list_fmap_compose. apply list_eq. intros i. cbn [nb_txs MapBlock]. rewrite !list_lookup_fmap, !list_lookup_imap.
      destruct (rb_txs raw !! i) as [rt|] eqn:Hi; [|done]. cbn [fmap option_fmap option_map compose]. f_equal. rewrite Hts.
      unfold ingested. rewrite (Hrs rt) by (by eapply list_elem_of_lookup_2). apply shown_row.
    + intros i t. rewrite list_lookup_fmap, list_lookup_imap. destruct (rb_txs raw !! i); [|done]. cbn. by intros [= <-].
    + rewrite Hall, filter_app. rewrite (filter_all _ (lower_tx <$> _)).
      * rewrite (filter_none _ (fst <$> _)); [by rewrite app_nil_r|]. intros t Ht. rewrite Forall_forall in Hother. by apply Hother.
      * intros t Ht. apply list_elem_of_fmap in Ht as (t' & -> & Ht'). apply elem_of_lookup_imap in Ht' as (j & rt & -> & _). done.
Qed.
End Map.

(** ** Blocks *)

Section Witnesses.
Local Instance toy_node : Keccak := toy_keccak.

Definition sample_node_receipts : node_receipts :=
  [Some (sample_hash 1, mkReceipt 1 21000 (sample_addr 0) [transfer_log 0 0 2 5; transfer_log 1 2 2 5]); None;
   Some (sample_hash 2, mkReceipt 1 21000 (sample_addr 77) [])].

Lemma sample_receipts_agree : ∀ rt, rt ∈ rb_txs sample_block → sample_receipts !! rt_hash rt = byHash sample_node_receipts !! rt_hash rt.
Proof.
  intros rt Hin. repeat (apply elem_of_cons in Hin as [->|Hin]; [vm_compute; reflexivity|]). by apply not_elem_of_nil in Hin.
Qed.

(** A mint and a deployment, stored and then read from the node. *)
Lemma pruned_block_reads_same_witness :
  GetBlock 7 stored_sample = Some (nb_block (MapBlock sample_block sample_node_receipts)) ∧
  mapTransactions (GetTransactionsByBlock 7 stored_sample) =
    shown_as [] [] <$> mapTransactions (nb_txs (MapBlock sample_block sample_node_receipts)).
Proof.
  destruct (pruned_block_reads_same live_config quiet_node (mkCaches ∅ ∅) sample_block sample_receipts sample_node_receipts
    no_tables stored_sample) as (Hb & _ & Hl).
  - apply (bool_decide_eq_true_1 _). vm_compute. reflexivity.
  - exact sample_receipts_agree.
  - vm_compute. reflexivity.
  - intros rt _. apply lookup_empty.
  - apply Forall_nil_2.
  - exact stored_sample_written.
  - split; [exact Hb|exact Hl].
Defined.

(** A deployment that reverted, whose receipt still names an address, and a call with a
    log that has the Transfer topic alone: the node's answers show the address and the
    token transfer, the database's neither. *)
Definition odd_block : RawBlock :=
  mkRawBlock (Some 7) (sample_hash 70) (sample_hash 69) 1000 0 0 None (sample_addr 5) None None 0 [] [] (sample_hash 0)
    (sample_hash 0) (sample_hash 0)
    [mkRawTx (sample_hash 1) (sample_addr 1) (Some (sample_addr 99)) None 21000 None [] None 2 None None;
     mkRawTx (sample_hash 2) (sample_addr 2) None None 21000 None [x60] None 0 None None].
Definition odd_node_receipts : node_receipts :=
  [Some (sample_hash 1, mkReceipt 1 21000 (sample_addr 0) [mkReceiptLog (sample_addr 9) [transferTopic] [] 0 false]);
   Some (sample_hash 2, mkReceipt 0 21000 (sample_addr 77) [])].
Definition odd_stored : tables :=
  after (InsertBlockDataBatch (built_data (buildBlock live_config quiet_node (mkCaches ∅ ∅) odd_block (byHash odd_node_receipts))) no_tables).
Definition odd_read (k : Z) : list api_tx := mapTransactions (GetTransactionWithCategories (Hash_Hex (sample_hash k)) odd_stored).
Definition odd_node : list api_tx := mapTransactions (nb_txs (MapBlock odd_block odd_node_receipts)).

Example node_shows_more :
  at_contract <$> odd_node = [[]; ToLower (Address_Hex (sample_addr 77))] ∧ at_contract <$> odd_read 2 = [[]] ∧
  at_categories <$> odd_node = [[TokenTransferCategory]; []] ∧ at_categories <$> odd_read 1 = [[]].
Proof. vm_compute. split_and!; reflexivity. Qed.
End Witnesses.
