(* ===== verification/ContractsRule.v ===== *)
(** * Which stored frames created contracts

    [internal/db/contracts_backfill.go]: the query that writes a contracts row for the
    creation frames in internal_transactions, against the rule ingest applies to the
    frames of a block ([internalCreations], [contractFromCreation]). *)

From S2P Require Import Prelude GoStrings EthCommon CallTrace BuildBlock BlockWrite BlockStats.

(** ** LIKE *)

Definition percent : byte := x25.
Definition underscore : byte := x5f.
Definition backslash : byte := x5c.

Fixpoint suffixes (s : gostring) : list gostring := s :: match s with [] => [] | _ :: s => suffixes s end.

(** [s LIKE p] with the default escape; a pattern that ends in the escape is refused. *)
Fixpoint like (p s : gostring) : bool :=
  match p with
  | [] => bool_decide (s = [])
  | c :: p' =>
      if decide (c = percent) then existsb (like p') (suffixes s)
      else if decide (c = underscore) then match s with [] => false | _ :: s => like p' s end
      else if decide (c = backslash)
           then match p' with
                | [] => false
                | e :: p'' => match s with [] => false | d :: s => bool_decide (d = e) && like p'' s end
                end
           else match s with [] => false | d :: s => bool_decide (d = c) && like p' s end
  end.

Definition plain (p : gostring) : Prop := percent ∉ p ∧ underscore ∉ p ∧ backslash ∉ p.
#[export] Instance plain_dec p : Decision (plain p).
Proof. unfold plain. apply _. Defined.

Lemma like_plain p q s : plain p → like (p ++ q) s = true ↔ ∃ t, s = p ++ t ∧ like q t = true.
Proof.
  intros (H1 & H2 & H3). revert s. induction p as [|c p IH]; intros s.
  { cbn. split; [by exists s|]. by intros (t & -> & ?). }
  apply not_elem_of_cons in H1 as [? H1], H2 as [? H2], H3 as [? H3]. cbn [app like].
  rewrite !decide_False by done. destruct s as [|d s]; [split; [done|by intros (t & ? & _)]|].
  rewrite andb_true_iff, bool_decide_eq_true, (IH H1 H2 H3). naive_solver.
Qed.
Lemma like_percent s : like [percent] s = true.
Proof.
  cbn [like]. rewrite decide_True by done. apply existsb_exists. exists []. split; [|done].
  induction s as [|c s IH]; cbn; [by left|]. right. exact IH.
Qed.

(** ** The query *)

(** [c.trace_address LIKE p.trace_address || ',%'] *)
Definition encloses (p c : InternalTransaction) : bool :=
  bool_decide (TraceAddress p = []) || like (TraceAddress p ++ $",%") (TraceAddress c).
Definition enclosing_failed (frames : list InternalTransaction) (c : InternalTransaction) : bool :=
  existsb (λ p, bool_decide (TxHash p = TxHash c) && bool_decide (is_Some (Error p)) && encloses p c) frames.
Definition has_output_code (f : InternalTransaction) : bool :=
  match Output f with Some out => like $"0x%" out && (2 <? length out)%nat | None => false end.
Definition sql_creation (frames : list InternalTransaction) (c : InternalTransaction) : bool :=
  (bool_decide (CallType c = $"create") || bool_decide (CallType c = $"create2")) && negb (bool_decide (TraceAddress c = [])) &&
  bool_decide (Error c = None) && bool_decide (is_Some (To c)) && has_output_code c && negb (enclosing_failed frames c).
Definition selected (frames : list InternalTransaction) : list InternalTransaction :=
  filter (λ c, sql_creation frames c = true) frames.

(** Trace addresses are digits and commas, hashes have no slash. *)
Definition named (f : InternalTransaction) : Prop := plain (TraceAddress f) ∧ slash ∉ TxHash f.

Lemma enclosing_failed_spec frames c : Forall named frames → named c →
  enclosing_failed frames c =
  bool_decide (key (TxHash c) [] ∈ failed_keys frames) || anyEnclosingFailed (failed_keys frames) (TxHash c) (TraceAddress c).
Proof.
  intros Hn [_ Hc]. rewrite Forall_forall in Hn.
  assert (∀ a, key (TxHash c) a ∈ failed_keys frames ↔
    ∃ p, p ∈ frames ∧ TxHash p = TxHash c ∧ is_Some (Error p) ∧ TraceAddress p = a) as Hk.
  { intros a. unfold failed_keys. rewrite elem_of_list_to_set, list_elem_of_fmap. setoid_rewrite list_elem_of_filter. split.
    - intros (p & E & He & Hp). destruct (Hn p Hp) as [_ Hs]. apply key_inj in E as [E1 E2]; [|done|done]. by exists p.
    - intros (p & Hp & E1 & He & E2). exists p. by rewrite E1, E2. }
  apply Bool.eq_iff_eq_true. rewrite orb_true_iff, bool_decide_eq_true, Hk. unfold enclosing_failed, anyEnclosingFailed.
  rewrite !existsb_exists. split.
  - intros (p & Hp%list_elem_of_In & Hb). rewrite !andb_true_iff, !bool_decide_eq_true in Hb. destruct Hb as [[Htx Herr] Hen].
    unfold encloses in Hen. rewrite orb_true_iff, bool_decide_eq_true in Hen. destruct Hen as [He|Hl]; [left; by exists p|].
    destruct (decide (TraceAddress p = [])) as [He|He]; [left; by exists p|]. right.
    destruct (Hn p Hp) as [Hpl _]. apply (like_plain _ _ _ Hpl) in Hl as (t & Et & Hl).
    destruct t as [|d t]; [done|]. assert (d = comma) as ->.
    { cbn in Hl. apply andb_true_iff in Hl as [Hd _]. by apply bool_decide_eq_true in Hd. }
    exists (length (TraceAddress p)). rewrite Et. split.
    + rewrite <-in_rev, in_seq, length_app. cbn. destruct (TraceAddress p); [done|cbn; lia].
    + rewrite list_lookup_middle by done. rewrite take_app_length, andb_true_iff, !bool_decide_eq_true. split; [done|].
      apply Hk. by exists p.
  - intros [(p & Hp & Htx & Herr & Ha)|(i & _ & Hb)].
    + exists p. split; [by apply list_elem_of_In|]. unfold encloses. rewrite Htx, Ha, !bool_decide_eq_true_2 by done. done.
    + rewrite andb_true_iff, !bool_decide_eq_true in Hb. destruct Hb as [Hi Hf]. apply Hk in Hf as (p & Hp & Htx & Herr & Ha).
      exists p. split; [by apply list_elem_of_In|]. rewrite (bool_decide_eq_true_2 _ Htx), (bool_decide_eq_true_2 _ Herr). cbn [andb].
      unfold encloses. rewrite orb_true_iff. right. destruct (Hn p Hp) as [Hpl _]. apply (like_plain _ _ _ Hpl).
      exists (drop i (TraceAddress c)). rewrite Ha, take_drop. split; [done|].
      rewrite (drop_S _ _ _ Hi). change ($",%") with ([comma] ++ [percent]). apply like_plain; [by vm_compute; set_solver|].
      eexists. split; [done|]. apply like_percent.
Qed.

(** The query selects the creations ingest would, those with code in their output. *)
Lemma selected_rule frames : Forall named frames → selected frames = filter (λ f, has_output_code f = true) (internalCreations frames).
Proof.
  intros Hn. unfold selected, internalCreations. rewrite list_filter_filter. apply filter_ext_elem. intros f Hf.
  pose proof Hn as Hn'. rewrite Forall_forall in Hn'. unfold sql_creation. rewrite (enclosing_failed_spec frames f Hn (Hn' f Hf)).
  unfold is_creation. destruct (_ || _), (bool_decide (TraceAddress f = [])), (bool_decide (Error f = None)), (bool_decide (is_Some (To f))),
    (has_output_code f), (bool_decide (key _ _ ∈ _)), (anyEnclosingFailed _ _ _); cbn; naive_solver.
Qed.

(** ** The row *)

(** [lpad(s, n, '0')] and [right(s, n)] *)
Definition lpad0 (s : gostring) (n : nat) : gostring := replicate (n - length s) x30 ++ take n s.
Definition right_of (s : gostring) (n : nat) : gostring := drop (length s - n) s.

Definition sql_row (f : InternalTransaction) : option contract_row :=
  match To f, Output f with
  | Some to, Some out =>
      Some (mkContractRow (ToLower to) (drop 2 out) ($"0x" ++ lpad0 (right_of (drop 2 out) 64) 64) (ToLower (From f)) (TxHash f) (BlockNumber f))
  | _, _ => None
  end.

Lemma EncodeToString_zeros n : EncodeToString (replicate n x00) = replicate (2 * n) x30.
Proof.
  induction n as [|n IH]; [done|]. change (replicate (S n) x00) with ([x00] ++ replicate n x00). rewrite EncodeToString_app, IH.
  replace (2 * S n)%nat with (2 + 2 * n)%nat by lia. rewrite replicate_add. done.
Qed.
Lemma drop_EncodeToString n code : drop (2 * n) (EncodeToString code) = EncodeToString (drop n code).
Proof.
  destruct (decide (n ≤ length code)%nat) as [Hle|Hgt].
  - rewrite <-(take_drop n code) at 1. rewrite EncodeToString_app, drop_app_length'; [done|].
    rewrite length_EncodeToString, length_take. lia.
  - rewrite (drop_ge code), drop_ge; [done|rewrite length_EncodeToString; lia|lia].
Qed.

(** The hash columns agree: both are the last 32 bytes of the code. *)
Lemma sql_hash code : $"0x" ++ lpad0 (right_of (EncodeToString code) 64) 64 = Hash_Hex (BytesToHash code).
Proof.
  unfold Hash_Hex, BytesToHash, setBytes, lpad0, right_of. f_equal. rewrite length_EncodeToString.
  replace (2 * length code - 64)%nat with (2 * (length code - HashLength))%nat by (unfold HashLength; lia).
  rewrite drop_EncodeToString, length_EncodeToString, length_drop.
  assert ((if (HashLength <? length code)%nat then drop (length code - HashLength) code else code) = drop (length code - HashLength) code) as ->.
  { destruct (Nat.ltb_spec HashLength (length code)); [done|]. replace (length code - HashLength)%nat with 0%nat by lia. done. }
  rewrite EncodeToString_app, EncodeToString_zeros, length_drop.
  rewrite take_ge by (rewrite length_EncodeToString, length_drop; unfold HashLength; lia). do 2 f_equal. unfold HashLength. lia.
Qed.

Lemma FromHex_Encode code : FromHex (EncodeToString code) = code.
Proof.
  destruct code as [|b code]; [done|]. unfold FromHex. pose proof (EncodeToString_lowercase (b :: code)) as Hl.
  assert (∀ s c, Forall (λ c, in_range 97 102 c || in_range 48 57 c = true) s → s !! 1%nat = Some c → c ≠ x78 ∧ c ≠ x58) as Hx.
  { intros s c Hs Hc. rewrite Forall_lookup in Hs. specialize (Hs _ _ Hc). split; intros ->; by vm_compute in Hs. }
  assert (length (EncodeToString (b :: code)) = 2 * S (length code))%nat as Hlen by (by rewrite length_EncodeToString).
  pose proof (DecodeString_Encode (b :: code)) as Hd.
  destruct (EncodeToString (b :: code)) as [|x [|y s]]; [cbn in Hlen; lia..|].
  destruct (Hx (x :: y :: s) y Hl eq_refl) as [H1 H2]. rewrite bool_decide_eq_false_2 by done. cbn [take].
  rewrite (bool_decide_eq_false_2 ([x; y] = $"0x")) by (intros [= _ ->]; done).
  rewrite (bool_decide_eq_false_2 ([x; y] = $"0X")) by (intros [= _ ->]; done). rewrite andb_false_r, bool_decide_eq_false_2 by done.
  rewrite Hlen. replace (Nat.odd (2 * S (length code))) with false by (symmetry; rewrite Nat.odd_mul; done). by rewrite Hd.
Qed.

Lemma hex_no_space code : Forall (λ b, is_space b = false) (EncodeToString code).
Proof.
  eapply Forall_impl; [apply EncodeToString_lowercase|]. intros c. revert c.
  assert (∀ c, implb (in_range 97 102 c || in_range 48 57 c) (negb (is_space c)) = true) as Hc by (apply forall_bytes; vm_compute; reflexivity).
  intros c Hr. specialize (Hc c). rewrite Hr in Hc. cbn in Hc. by apply negb_true_iff.
Qed.

(** A frame whose output is code in hex gives the row ingest makes of it. *)
Lemma sql_row_is n getCode f to code : To f = Some to → code ≠ [] → Output f = Some ($"0x" ++ EncodeToString code) → BlockNumber f = n →
  sql_row f = contractFromCreation n getCode f to.
Proof.
  intros Ht Hc Ho Hn. unfold sql_row, contractFromCreation. rewrite Ht, Ho. cbn [strOr].
  assert (Forall (λ b, is_space b = false) ($"0x" ++ EncodeToString code)) as Hsp.
  { apply Forall_app. split; [by repeat constructor|apply hex_no_space]. }
  rewrite (TrimSpace_nospace _ Hsp), TrimPrefix_app.
  assert (EncodeToString code ≠ []) as Hne.
  { intros E. apply (f_equal length) in E. rewrite length_EncodeToString in E. destruct code; [done|cbn in E; lia]. }
  rewrite decide_False by done. change (drop 2 ($"0x" ++ EncodeToString code)) with (EncodeToString code).
  by rewrite sql_hash, FromHex_Encode, Hn.
Qed.

(** ** The insert *)

Definition by_block (a b : InternalTransaction) : Prop := BlockNumber a ≤ BlockNumber b.
#[export] Instance by_block_dec : RelDecision by_block.
Proof. intros a b. unfold by_block. apply _. Defined.

(** [DISTINCT ON (to_address) ... ORDER BY to_address, block_number]: of each address the
    frame of the lowest block. *)
Fixpoint distinct_on (seen : gset (option gostring)) (l : list InternalTransaction) : list InternalTransaction :=
  match l with
  | [] => []
  | f :: l => if decide (To f ∈ seen) then distinct_on seen l else f :: distinct_on ({[To f]} ∪ seen) l
  end.
Definition backfill_rows (frames : list InternalTransaction) : list contract_row :=
  omap sql_row (distinct_on ∅ (merge_sort by_block (selected frames))).

(** [ON CONFLICT (address) DO NOTHING]: the table, and the rows inserted. *)
Definition insert_contract (acc : gmap gostring contract_row * Z) (r : contract_row) : gmap gostring contract_row * Z :=
  let '(m, new) := insert_new (ToLower (cr_address r)) r acc.1 in (m, if new then acc.2 + 1 else acc.2).
Definition BackfillContractsFromInternalTransactions (frames : list InternalTransaction) (m : gmap gostring contract_row)
    : gmap gostring contract_row * Z := foldl insert_contract (m, 0) (backfill_rows frames).

Lemma insert_rows_all {K A R} `{Countable K} (rkey : R → K) (val : R → A) (m : gmap K A) (l : list R) r :
  r ∈ l → is_Some (insert_rows rkey val m l !! rkey r).
Proof.
  revert m. induction l as [|x l IH]; intros m Hr; [by apply not_elem_of_nil in Hr|].
  apply elem_of_cons in Hr as [->|Hr]; [|by apply (IH (insert_new (rkey x) (val x) m).1)].
  destruct ((insert_new (rkey x) (val x) m).1 !! rkey x) as [v|] eqn:E.
  - exists v. by apply (insert_rows_keeps rkey val (insert_new (rkey x) (val x) m).1 l).
  - exfalso. rewrite insert_new_lookup in E. destruct (m !! rkey x); [done|]. by rewrite decide_True in E.
Qed.

Lemma backfill_insert_rows (frames : list InternalTransaction) (m : gmap gostring contract_row) :
  (BackfillContractsFromInternalTransactions frames m).1 = insert_rows (λ r, ToLower (cr_address r)) id m (backfill_rows frames).
Proof.
  unfold BackfillContractsFromInternalTransactions. generalize 0 as n. generalize (backfill_rows frames) as l. intros l.
  revert m. induction l as [|r l IH]; intros m n; [done|]. unfold insert_rows in *. cbn [foldl]. unfold insert_contract at 2. cbn [fst snd id].
  destruct (insert_new _ _ m) as [m' b]. apply IH.
Qed.

Lemma backfill_counts (frames : list InternalTransaction) (m : gmap gostring contract_row) :
  let '(m', n) := BackfillContractsFromInternalTransactions frames m in n = Z.of_nat (size m') - Z.of_nat (size m).
Proof.
  unfold BackfillContractsFromInternalTransactions.
  assert (∀ l acc, let '(m', n) := foldl insert_contract acc l in n - acc.2 = Z.of_nat (size m') - Z.of_nat (size acc.1)) as Hc.
  { induction l as [|r l IH]; intros acc; cbn [foldl]; [destruct acc; cbn; lia|]. specialize (IH (insert_contract acc r)).
    destruct (foldl insert_contract (insert_contract acc r) l) as [m' n]. unfold insert_contract in IH.
    pose proof (insert_new_size (ToLower (cr_address r)) r acc.1) as Hs. destruct (insert_new _ _ acc.1) as [m1 [|]]; cbn in *; lia. }
  specialize (Hc (backfill_rows frames) (m, 0)). destruct (foldl _ _ _). cbn in Hc. lia.
Qed.

Lemma distinct_on_spec (l : list InternalTransaction) (seen : gset (option gostring)) :
  StronglySorted by_block l →
  (∀ f, f ∈ distinct_on seen l → f ∈ l ∧ To f ∉ seen ∧ ∀ g, g ∈ l → To g = To f → BlockNumber f ≤ BlockNumber g) ∧
  (∀ f, f ∈ l → To f ∈ seen ∨ ∃ g, g ∈ distinct_on seen l ∧ To g = To f).
Proof.
  revert seen. induction l as [|x l IH]; intros seen Hs; [split; intros f Hf; by apply not_elem_of_nil in Hf|].
  apply StronglySorted_inv in Hs as [Hs Hx]. rewrite Forall_forall in Hx. cbn [distinct_on]. case_decide as Hd.
  - destruct (IH seen Hs) as [H1 H2]. split.
    + intros f Hf. destruct (H1 f Hf) as (Hin & Hns & Hmin). split_and!; [by right|done|]. intros g [->|Hg]%elem_of_cons E; [congruence|by apply Hmin].
    + intros f [->|Hf]%elem_of_cons; [by left|by apply H2].
  - destruct (IH ({[To x]} ∪ seen) Hs) as [H1 H2]. split.
    + intros f [->|Hf]%elem_of_cons.
      * split_and!; [by left|done|]. intros g [->|Hg]%elem_of_cons _; [lia|]. by apply Hx.
      * destruct (H1 f Hf) as (Hin & Hns & Hmin). split_and!; [by right|set_solver|]. intros g [->|Hg]%elem_of_cons E; [set_solver|by apply Hmin].
    + intros f [->|Hf]%elem_of_cons; [right; exists x; split; [by left|done]|].
      destruct (H2 f Hf) as [Hin|(g & Hg & E)]; [|right; exists g; split; [by right|done]].
      apply elem_of_union in Hin as [Hin|Hin]; [|by left]. apply elem_of_singleton in Hin. right. exists x. split; [by left|done].
Qed.

Lemma first_frames (frames : list InternalTransaction) : let l := distinct_on ∅ (merge_sort by_block (selected frames)) in
  (∀ f, f ∈ l → f ∈ selected frames ∧ ∀ g, g ∈ selected frames → To g = To f → BlockNumber f ≤ BlockNumber g) ∧
  (∀ f, f ∈ selected frames → ∃ g, g ∈ l ∧ To g = To f).
Proof.
  assert (Transitive by_block) by (intros a b d; unfold by_block; lia).
  assert (Total by_block) by (intros a b; unfold by_block; lia).
  destruct (distinct_on_spec (merge_sort by_block (selected frames)) ∅) as [H1 H2]; [by apply StronglySorted_merge_sort|]. split.
  - intros f Hf. destruct (H1 f Hf) as (Hin & _ & Hmin). rewrite merge_sort_Permutation in Hin. split; [done|].
    intros g Hg. apply Hmin. by rewrite merge_sort_Permutation.
  - intros f Hf. destruct (H2 f) as [?|?]; [by rewrite merge_sort_Permutation|set_solver|done].
Qed.

Lemma selected_row frames f : f ∈ selected frames → ∃ to r, To f = Some to ∧ sql_row f = Some r ∧ cr_address r = ToLower to.
Proof.
  unfold selected. intros [Hs _]%list_elem_of_filter. unfold sql_creation in Hs. rewrite !andb_true_iff in Hs.
  destruct Hs as [[[_ Ht] Ho] _]. apply bool_decide_eq_true in Ht as [to Ht]. unfold has_output_code in Ho.
  destruct (Output f) as [out|] eqn:Eo; [|done]. exists to. unfold sql_row. rewrite Ht, Eo. by eexists.
Qed.

(** What the query leaves: the rows there were, and for the address of every creation in
    the stored frames with code in its output a row, made of its first one. *)
Lemma backfill_from_frames (frames : list InternalTransaction) (m : gmap gostring contract_row) : Forall named frames →
  Forall (λ f, ToLower <$> To f = To f) frames →
  let m' := (BackfillContractsFromInternalTransactions frames m).1 in
  (∀ a r, m !! a = Some r → m' !! a = Some r) ∧
  (∀ f to, f ∈ internalCreations frames → has_output_code f = true → To f = Some to → is_Some (m' !! to)) ∧
  (∀ a r, m' !! a = Some r → m !! a = None → ∃ f, f ∈ internalCreations frames ∧ To f = Some a ∧ sql_row f = Some r ∧
     ∀ g, g ∈ internalCreations frames → has_output_code g = true → To g = Some a → BlockNumber f ≤ BlockNumber g).
Proof.
  intros Hn Hlow m'. subst m'. rewrite backfill_insert_rows. pose proof (selected_rule frames Hn) as Hsel.
  assert (∀ f, f ∈ selected frames ↔ f ∈ internalCreations frames ∧ has_output_code f = true) as Hin.
  { intros f. rewrite Hsel, list_elem_of_filter. tauto. }
  assert (∀ f to, f ∈ selected frames → To f = Some to → ToLower to = to) as Hto.
  { intros f to Hf Ht. unfold selected in Hf. apply list_elem_of_filter in Hf as [_ Hf]. rewrite Forall_forall in Hlow.
    specialize (Hlow f Hf). rewrite Ht in Hlow. by injection Hlow. }
  destruct (first_frames frames) as [F1 F2]. split_and!.
  - intros a r. apply insert_rows_keeps.
  - intros f to Hf Ho Ht. assert (f ∈ selected frames) as Hs by (by apply Hin). destruct (F2 f Hs) as (g & Hg & E).
    destruct (F1 g Hg) as [Hgs _]. destruct (selected_row frames g Hgs) as (to' & r & Ht' & Hr & Ha).
    assert (to' = to) as -> by congruence. rewrite (Hto f to Hs Ht) in Ha.
    destruct (insert_rows _ id m (backfill_rows frames) !! to) as [r'|] eqn:El; [by eexists|]. exfalso.
    assert (r ∈ backfill_rows frames) as Hrin by (unfold backfill_rows; apply list_elem_of_omap; by exists g).
    apply (insert_rows_all (λ r, ToLower (cr_address r)) id m) in Hrin as [x Hx]. rewrite Ha, (Hto f to Hs Ht) in Hx. congruence.
  - intros a r Hm Hnone. apply insert_rows_inv in Hm as [?|(r' & Hr & -> & ->)]; [congruence|].
    unfold backfill_rows in Hr. apply list_elem_of_omap in Hr as (f & Hf & Er). destruct (F1 f Hf) as [Hs Hmin].
    destruct (selected_row frames f Hs) as (to & r0 & Ht & Er0 & Ha). assert (r0 = r') as -> by congruence.
    assert (ToLower (cr_address r') = to) as Eto by (rewrite Ha, ToLower_idemp; by eapply Hto).
    exists f. cbn. rewrite Eto. split_and!; [by apply Hin|done|done|]. intros g Hg Ho Hgt. apply Hmin; [by apply Hin|congruence].
Qed.
