(* ===== verification/ContractsBackfill.v ===== *)
(** * Backfilling the contracts created inside calls

    [internal/indexer/contracts_backfill.go], with [ExistingContracts] of
    [internal/db/contracts_backfill.go] and [InsertContract] of [queries.go]: the
    creations still in the database first, then those of a list, each transaction of it
    traced on the node unless its contracts are all there. Other sessions run between any
    two statements; what the node answers is given by the number of the request. *)

From S2P Require Import Prelude GoStrings EthCommon CallTrace Balances BuildBlock BlockWrite BlockStats ContractsRule Session.

(** ** The list *)

Record Creation := mkCreation { c_address : gostring; c_tx : gostring; c_block : Z; c_creator : gostring }.
#[export] Instance Creation_eq_dec : EqDecision Creation.
Proof. solve_decision. Defined.

(** One row, its fields as encoding/csv reads them. *)
Definition read_creation (row : list gostring) : option Creation :=
  match row with
  | a :: tx :: n :: rest =>
      if (length rest <=? 1)%nat && HasPrefix a $"0x" && HasPrefix tx $"0x" then
        match ParseUint 10 (TrimSpace n) with
        | Some block => Some (mkCreation (ToLower (TrimSpace a)) (ToLower (TrimSpace tx)) block
                                (match rest with [c] => ToLower (TrimSpace c) | _ => [] end))
        | None => None
        end
      else None
  | _ => None
  end.
Definition header_row (rows : list (list gostring)) : bool :=
  match rows with (a :: _) :: _ => bool_decide (TrimSpace a = $"address") | _ => false end.
Definition ReadCreationsCSV (rows : list (list gostring)) : option (list Creation) :=
  mapM read_creation (if header_row rows then tail rows else rows).

(** ** The node, the tables, the report *)

(** Each answer with the wait of the rate limiter before it: [None] is an error. *)
Record receipt_head := mkHead { rh_status : Z; rh_block : option Z }.
Record backfill_node := mkBackfillNode {
  bn_receipt : nat → gostring → option (option receipt_head);
  bn_trace : nat → gostring → option CallFrame;
  bn_tx : nat → gostring → option (option (option gostring));  (* the transaction, its recipient *)
  bn_code : nat → gostring → option gostring }.

Record cb_sys := mkCb { cb_frames : list InternalTransaction; cb_contracts : gmap gostring contract_row }.
Definition set_contracts (m : gmap gostring contract_row) (y : cb_sys) : cb_sys := mkCb (cb_frames y) m.

Record ContractsBackfillReport := mkCbReport {
  FromInternalTransactions : Z; TxsTraced : Z; TxsSkipped : Z; Written : Z;
  NotCreated : list gostring; Unlisted : list gostring; FailedTxs : gset gostring }.
Definition no_report : ContractsBackfillReport := mkCbReport 0 0 0 0 [] [] ∅.

Inductive cb_err := StoreError | Stopped.

(** ** Transactions in the order of their blocks *)

Definition listed_of (listed : list Creation) (tx : gostring) : list Creation := filter (λ c, c_tx c = tx) listed.
Definition first_block (listed : list Creation) (tx : gostring) : Z :=
  match listed_of listed tx with c :: _ => c_block c | [] => 0 end.
Definition tx_before (listed : list Creation) (a b : gostring) : Prop :=
  first_block listed a < first_block listed b ∨ (first_block listed a = first_block listed b ∧ str_lt b a = false).
#[export] Instance tx_before_dec listed : RelDecision (tx_before listed).
Proof. intros a b. unfold tx_before. apply _. Defined.
Definition listed_txs (listed : list Creation) : list gostring :=
  merge_sort (tx_before listed) (elements (list_to_set (c_tx <$> listed) : gset gostring)).

Section Run.
Context `{Keccak} (env : nat → cb_sys → cb_sys) (out : nat → stmt_end) (node : backfill_node) (cancelled : nat → bool).
Notation "'let!' x := m 'in' k" := (bind m (λ x, k)) (at level 10, x pattern, m at level 100, k at level 200).
Notation M := (M cb_sys).

Definition cb_ask {A} (f : nat → A) : M A := λ k y, (S k, env k y, Some (f k)).
Definition cb_stmt {A} (f : cb_sys → cb_sys * A) : M (option A) := caught (stmt env out (λ y, let '(y, a) := f y in (y, Some a))).

(** ** Statements *)

Definition ExistingContracts (addresses : list gostring) : M (option (gset gostring)) :=
  cb_stmt (λ y, (y, filter (λ a, is_Some (cb_contracts y !! a)) (list_to_set addresses : gset gostring))).
Definition InsertContract (r : contract_row) : M (option unit) :=
  cb_stmt (λ y, (set_contracts (insert_new (ToLower (cr_address r)) r (cb_contracts y)).1 y, tt)).
Definition from_internal : M (option Z) :=
  cb_stmt (λ y, let '(m, n) := BackfillContractsFromInternalTransactions (cb_frames y) (cb_contracts y) in (set_contracts m y, n)).

(** ** The contracts of a transaction *)

Definition code_answer (k : nat) (a : gostring) : res contract_err gostring :=
  match bn_code node k a with Some code => Ok code | None => Err (CodeFailed errNotSupported) end.

Fixpoint creation_rows (block : Z) (fs : list InternalTransaction) : M (list contract_row) :=
  match fs with
  | [] => ret []
  | f :: fs =>
      let! r := cb_ask (λ k, match To f with Some to => contractFromCreation block (code_answer k) f to | None => None end) in
      let! rs := creation_rows block fs in
      ret (match r with Some r => r :: rs | None => rs end)
  end.

(** [None]: an error; the report names the transaction. *)
Definition tracedCreations (tx : gostring) : M (option (list contract_row)) :=
  let hash := HexToHash tx in
  let! r := cb_ask (λ k, bn_receipt node k hash) in
  match r with
  | Some (Some (mkHead _ (Some n))) =>
      let! t := cb_ask (λ k, bn_trace node k hash) in
      match t with
      | None => ret None
      | Some frame =>
          let block := big_Uint64 n in
          let! rs := creation_rows block (internalCreations (FlattenCallFrame (Hash_Hex hash) block None frame)) in ret (Some rs)
      end
  | _ => ret None
  end.

(** Without traces: the code at the latest block, the creator listed or the recipient. *)
Fixpoint untraced_rows (hash : gostring) (block : Z) (sentTo : option gostring) (want : list Creation) : M (option (list contract_row)) :=
  match want with
  | [] => ret (Some [])
  | c :: want =>
      let creator := match c_creator c, sentTo with [], Some to => Address_Hex to | l, _ => l end in
      let! code := cb_ask (λ k, bn_code node k (HexToAddress (c_address c))) in
      match code with
      | None => ret None
      | Some code =>
          let! rs := untraced_rows hash block sentTo want in
          ret (match rs with
               | None => None
               | Some rs =>
                   if decide (code = [] ∨ creator = []) then Some rs
                   else Some (mkContractRow (c_address c) (Bytes2Hex code) (Hash_Hex (BytesToHash code)) (ToLower creator) (Hash_Hex hash) block :: rs)
               end)
      end
  end.
Definition untracedCreations (tx : gostring) (want : list Creation) : M (option (list contract_row)) :=
  let hash := HexToHash tx in
  let! r := cb_ask (λ k, bn_receipt node k hash) in
  match r with
  | Some (Some (mkHead status (Some n))) =>
      if negb (status =? 1) then ret (Some [])
      else let! sent := cb_ask (λ k, bn_tx node k hash) in
           match sent with
           | None => ret None
           | Some sent => untraced_rows hash (big_Uint64 n) (match sent with Some to => to | None => None end) want
           end
  | _ => ret None
  end.

(** ** The run *)

(** The contracts made that were not there; [None]: a write failed. *)
Fixpoint write_created (have : gset gostring) (created : list contract_row) (written : Z) : M (Z * bool) :=
  match created with
  | [] => ret (written, true)
  | r :: created =>
      if decide (cr_address r ∈ have) then write_created have created written
      else let! e := InsertContract r in
           match e with None => ret (written, false) | Some _ => write_created have created (written + 1) end
  end.

(** [if !made[c.Address] ...; delete(made, c.Address)] *)
Definition note_created (p : gset gostring * list gostring) (c : Creation) : gset gostring * list gostring :=
  (p.1 ∖ {[c_address c]}, if decide (c_address c ∈ p.1) then p.2 else p.2 ++ [c_address c]).
Definition not_created (made : gset gostring) (want : list Creation) : list gostring := (foldl note_created (made, []) want).2.
Definition unlisted (made : gset gostring) (want : list Creation) : list gostring := elements (made ∖ list_to_set (c_address <$> want)).

(** The report of one transaction; an error ends the run. *)
Definition backfill_tx (withoutTraces : bool) (tx : gostring) (want : list Creation) (rep : ContractsBackfillReport)
    : M (ContractsBackfillReport * option cb_err) :=
  let addresses := c_address <$> want in
  let! have := ExistingContracts addresses in
  match have with
  | None => ret (rep, Some StoreError)
  | Some have =>
      if decide (size have = length addresses)
      then ret (mkCbReport (FromInternalTransactions rep) (TxsTraced rep) (TxsSkipped rep + 1) (Written rep) (NotCreated rep) (Unlisted rep) (FailedTxs rep), None)
      else
        let! created := (if withoutTraces then untracedCreations tx want else tracedCreations tx) in
        match created with
        | None =>
            let! stop := cb_ask cancelled in
            if stop : bool then ret (rep, Some Stopped)
            else ret (mkCbReport (FromInternalTransactions rep) (TxsTraced rep) (TxsSkipped rep) (Written rep) (NotCreated rep) (Unlisted rep)
                        ({[tx]} ∪ FailedTxs rep), None)
        | Some created =>
            let! (written, ok) := write_created have created (Written rep) in
            let made := list_to_set (cr_address <$> created) in
            if ok : bool
            then ret (mkCbReport (FromInternalTransactions rep) (TxsTraced rep + 1) (TxsSkipped rep) written
                        (NotCreated rep ++ not_created made want) (Unlisted rep ++ unlisted made want) (FailedTxs rep), None)
            else ret (mkCbReport (FromInternalTransactions rep) (TxsTraced rep + 1) (TxsSkipped rep) written (NotCreated rep) (Unlisted rep)
                        (FailedTxs rep), Some StoreError)
        end
  end.

Fixpoint backfill_txs (withoutTraces : bool) (listed : list Creation) (txs : list gostring) (rep : ContractsBackfillReport)
    : M (ContractsBackfillReport * option cb_err) :=
  match txs with
  | [] => ret (rep, None)
  | tx :: txs =>
      let! (rep, e) := backfill_tx withoutTraces tx (listed_of listed tx) rep in
      match e with None => backfill_txs withoutTraces listed txs rep | Some _ => ret (rep, e) end
  end.

Definition BackfillContracts (withoutTraces : bool) (listed : list Creation) : M (ContractsBackfillReport * option cb_err) :=
  let! n := from_internal in
  match n with
  | None => ret (no_report, Some StoreError)
  | Some n => backfill_txs withoutTraces listed (listed_txs listed) (mkCbReport n 0 0 0 [] [] ∅)
  end.
End Run.
