(* ===== verification/ContractsBackfillProps.v ===== *)
(** * What the contracts backfill guarantees

    Whatever other sessions write meanwhile, whatever the node answers and whatever fails:
    rows stay as they are, new ones come from the stored frames or from the node's answers
    for a listed transaction, and a listed contract is there at the end, or reported. *)

From S2P Require Import Prelude GoStrings EthCommon CallTrace BuildBlock BlockWrite BlockStats ContractsRule Session ContractsBackfill.

Section Guarantee.
Context `{Keccak} (env : nat → cb_sys → cb_sys) (out : nat → stmt_end) (node : backfill_node) (cancelled : nat → bool).
Context (keep : gostring → Prop) (J : contract_row → Prop) (listed : list Creation) (withoutTraces : bool).

(** A row made of the node's trace of a transaction. *)
Definition from_trace (tx : gostring) (r : contract_row) : Prop :=
  ∃ k1 k2 k3 status n frame f to, let block := big_Uint64 n in let hash := HexToHash tx in
    bn_receipt node k1 hash = Some (Some (mkHead status (Some n))) ∧ bn_trace node k2 hash = Some frame ∧
    f ∈ internalCreations (FlattenCallFrame (Hash_Hex hash) block None frame) ∧ To f = Some to ∧
    contractFromCreation block (code_answer node k3) f to = Some r.
(** A row made of the list, the receipt and the code there is now. *)
Definition from_list (tx : gostring) (r : contract_row) : Prop :=
  ∃ k1 k2 n c code, let hash := HexToHash tx in
    bn_receipt node k1 hash = Some (Some (mkHead 1 (Some n))) ∧ c ∈ listed ∧ c_tx c = tx ∧
    bn_code node k2 (HexToAddress (c_address c)) = Some code ∧ code ≠ [] ∧ cr_address r = c_address c ∧
    cr_bytecode r = Bytes2Hex code ∧ cr_tx r = Hash_Hex hash ∧ cr_block r = big_Uint64 n ∧ cr_creator r ≠ [].
Definition made_of (tx : gostring) (r : contract_row) : Prop := if withoutTraces then from_list tx r else from_trace tx r.
Definition justified (r : contract_row) : Prop := J r ∨ ∃ tx, tx ∈ c_tx <$> listed ∧ made_of tx r.

(** What the other sessions do: the rows of [keep] stay, new ones are of [J]. *)
Definition others (y y' : cb_sys) : Prop :=
  (∀ a r, keep a → cb_contracts y !! a = Some r → cb_contracts y' !! a = Some r) ∧
  (∀ a r, cb_contracts y' !! a = Some r → cb_contracts y !! a = Some r ∨ J r).
Hypothesis Henv : ∀ k y, rtc others y (env k y).

Definition ext (y y' : cb_sys) : Prop :=
  (∀ a r, keep a → cb_contracts y !! a = Some r → cb_contracts y' !! a = Some r) ∧
  (∀ a r, cb_contracts y' !! a = Some r → cb_contracts y !! a = Some r ∨ justified r).
Lemma ext_refl y : ext y y.
Proof. split; [done|]. intros a r Hr. by left. Qed.
Lemma ext_trans x y z : ext x y → ext y z → ext x z.
Proof.
  intros [A1 A2] [B1 B2]. split; [intros a r Hk Hr; by apply B1, A1|]. intros a r Hr. destruct (B2 a r Hr) as [Hy|?]; [by apply A2|by right].
Qed.
Lemma others_ext y y' : others y y' → ext y y'.
Proof. intros [A1 A2]. split; [done|]. intros a r Hr. destruct (A2 a r Hr) as [?|?]; [by left|right; by left]. Qed.

(** There is a row at each of these addresses that others keep. *)
Definition there (A : gset gostring) (y : cb_sys) : Prop := ∀ a, a ∈ A → keep a → is_Some (cb_contracts y !! a).
Lemma there_ext A y y' : ext y y' → there A y → there A y'.
Proof. intros [Hk _] Ht a Ha Hka. destruct (Ht a Ha Hka) as [r Hr]. exists r. by apply Hk. Qed.

Context (y0 : cb_sys).
Definition since_start (A : gset gostring) (y : cb_sys) : Prop := ext y0 y ∧ there A y.
Lemma since_step (A : gset gostring) (y y' : cb_sys) : ext y y' → since_start A y → since_start A y'.
Proof. intros He [H1 H2]. split; [by eapply ext_trans|by eapply there_ext]. Qed.
Lemma since_stable (A : gset gostring) : stable others (since_start A).
Proof. intros y y' Ho. by apply since_step, others_ext. Qed.
Lemma since_mono (A B : gset gostring) (y : cb_sys) : B ⊆ A → since_start A y → since_start B y.
Proof. intros Hs [? Ht]. split; [done|]. intros a Ha. apply Ht. set_solver. Qed.

Lemma cb_ask_spec {X : Type} (A : gset gostring) (f : nat → X) : spec (since_start A) (cb_ask env f) (λ a y, (∃ k, a = f k) ∧ since_start A y) (λ _, False).
Proof. intros k y Hy. cbn. split; [by eexists|]. eapply env_stable; [exact Henv|apply since_stable|done]. Qed.

(** A statement that adds justified rows and keeps the others. *)
Lemma cb_stmt_spec {X : Type} (A : gset gostring) (B : X → gset gostring) (f : cb_sys → cb_sys * X) (Q : X → Prop) :
  (∀ y, since_start A y → ext y (f y).1) → (∀ y, since_start A y → there (B (f y).2) (f y).1 ∧ Q (f y).2) →
  spec (since_start A) (cb_stmt env out f)
    (λ r y, match r with Some x => Q x ∧ since_start (A ∪ B x) y | None => since_start A y end) (λ _, False).
Proof.
  intros He Hb. unfold cb_stmt.
  eapply spec_post; [|apply (spec_caught _ _ (λ x y, Q x ∧ since_start (A ∪ B x) y) (since_start A))].
  { intros r y Hr. exact Hr. }
  eapply spec_stmt; [exact Henv|apply since_stable|]. intros y Hy. specialize (He y Hy). specialize (Hb y Hy).
  destruct (f y) as [y' x]. cbn in *. assert (since_start A y') as Hy' by (by eapply since_step). split_and!; [done|done|].
  intros a [= <-]. split; [by apply Hb|]. destruct Hy' as [H1 H2], Hb as [H3 _]. split; [done|].
  intros b [Hb|Hb]%elem_of_union; [by apply H2|by apply H3].
Qed.

(** ** The contracts of a transaction *)

Lemma creation_rows_spec (A : gset gostring) (block : Z) (fs : list InternalTransaction) :
  spec (since_start A) (creation_rows env node block fs)
    (λ rs y, since_start A y ∧ ∀ r, r ∈ rs → ∃ k f to, f ∈ fs ∧ To f = Some to ∧ contractFromCreation block (code_answer node k) f to = Some r)
    (λ _, False).
Proof.
  induction fs as [|f fs IH]; cbn [creation_rows].
  { apply spec_ret. intros y Hy. split; [done|]. intros r Hr. by apply not_elem_of_nil in Hr. }
  eapply spec_bind; [apply cb_ask_spec|]. intros r. cbn beta. intros k y [[k' Er] Hy]. revert k y Hy.
  eapply spec_bind; [exact IH|]. intros rs. apply spec_ret. intros y [Hy Hrs]. split; [done|]. intros x Hx.
  assert (x ∈ rs ∨ r = Some x) as [Hx'|Hx'] by (destruct r; [apply elem_of_cons in Hx as [->|?]; tauto|tauto]).
  - destruct (Hrs x Hx') as (k & g & to & Hg & ?). exists k, g, to. split; [by right|done].
  - subst r. destruct (To f) as [to|] eqn:Et; [|done]. exists k', f, to. split; [by left|done].
Qed.

(** The rows of a transaction are made of it. *)
Lemma tracedCreations_spec (A : gset gostring) (tx : gostring) :
  spec (since_start A) (tracedCreations env node tx)
    (λ o y, since_start A y ∧ ∀ rs r, o = Some rs → r ∈ rs → from_trace tx r ∧ ToLower (cr_address r) = cr_address r) (λ _, False).
Proof.
  unfold tracedCreations. eapply spec_bind; [apply cb_ask_spec|]. intros rc k y [[k1 Er] Hy]. revert k y Hy.
  destruct rc as [[[status [n|]]|]|]; try (apply spec_ret; intros y Hy; split; done).
  eapply spec_bind; [apply cb_ask_spec|]. intros t k y [[k2 Et] Hy]. revert k y Hy.
  destruct t as [frame|]; [|apply spec_ret; intros y Hy; split; done].
  eapply spec_bind; [apply creation_rows_spec|]. intros rs. apply spec_ret. intros y [Hy Hrs]. split; [done|].
  intros rs' r [= <-] Hr. destruct (Hrs r Hr) as (k3 & f & to & Hf & Hto & Hc). split.
  - by exists k1, k2, k3, status, n, frame, f, to.
  - unfold contractFromCreation in Hc. repeat case_match; simplify_eq/=; apply ToLower_idemp.
Qed.

Lemma untraced_rows_spec (A : gset gostring) (tx : gostring) (n : Z) (sent : option gostring) (want : list Creation) : (∃ k, bn_receipt node k (HexToHash tx) = Some (Some (mkHead 1 (Some n)))) →
  (∀ c, c ∈ want → c ∈ listed ∧ c_tx c = tx) →
  spec (since_start A) (untraced_rows env node (HexToHash tx) (big_Uint64 n) sent want)
    (λ o y, since_start A y ∧ ∀ rs r, o = Some rs → r ∈ rs → from_list tx r) (λ _, False).
Proof.
  intros [k1 Hrc]. induction want as [|c want IH]; intros Hw; cbn [untraced_rows].
  { apply spec_ret. intros y Hy. split; [done|]. intros rs r [= <-] Hr. by apply not_elem_of_nil in Hr. }
  eapply spec_bind; [apply cb_ask_spec|]. intros code k y [[k2 Ec] Hy]. revert k y Hy.
  destruct code as [code|]; [|apply spec_ret; intros y Hy; split; done].
  eapply spec_bind; [apply IH; intros c' Hc'; apply Hw; by right|]. intros o. apply spec_ret. intros y [Hy Ho]. split; [done|].
  intros rs' r E Hr. destruct o as [rs|]; [|done]. case_decide as Hd; injection E as <-; [by eapply Ho|].
  apply elem_of_cons in Hr as [->|Hr]; [|by eapply Ho]. destruct (Hw c ltac:(left)) as [Hl Htx].
  exists k1, k2, n, c, code. cbn. split_and!; try done; [by intros ->; apply Hd; left|].
  intros E. apply Hd. right. apply (f_equal length) in E. rewrite length_ToLower in E. by apply nil_length_inv.
Qed.
Lemma untracedCreations_spec (A : gset gostring) (tx : gostring) (want : list Creation) : (∀ c, c ∈ want → c ∈ listed ∧ c_tx c = tx) →
  spec (since_start A) (untracedCreations env node tx want)
    (λ o y, since_start A y ∧ ∀ rs r, o = Some rs → r ∈ rs → from_list tx r) (λ _, False).
Proof.
  intros Hw. unfold untracedCreations. eapply spec_bind; [apply cb_ask_spec|]. intros rc k y [[k1 Er] Hy]. revert k y Hy.
  destruct rc as [[[status [n|]]|]|]; try (apply spec_ret; intros y Hy; split; done).
  destruct (Z.eqb_spec status 1) as [->|]; cbn [negb].
  - eapply spec_bind; [apply cb_ask_spec|]. intros t k y [_ Hy]. revert k y Hy.
    destruct t as [sent|]; [|apply spec_ret; intros y Hy; split; done]. apply untraced_rows_spec; [|done]. by exists k1.
  - apply spec_ret. intros y Hy. split; [done|]. intros rs r [= <-] Hr. by apply not_elem_of_nil in Hr.
Qed.

(** ** Writing them *)

Lemma insert_contract_ext (r : contract_row) (y : cb_sys) : justified r →
  ext y (set_contracts (insert_new (ToLower (cr_address r)) r (cb_contracts y)).1 y) ∧
  is_Some ((insert_new (ToLower (cr_address r)) r (cb_contracts y)).1 !! ToLower (cr_address r)).
Proof.
  intros Hj. split; [split|]; cbn.
  - intros a x _ Hx. by rewrite insert_new_lookup, Hx.
  - intros a x. rewrite insert_new_lookup. destruct (cb_contracts y !! a); [by left|]. case_decide; [|done]. intros [= <-]. by right.
  - rewrite insert_new_lookup. destruct (cb_contracts y !! _); [by eexists|]. rewrite decide_True by done. by eexists.
Qed.

Lemma write_created_spec (A have : gset gostring) (created : list contract_row) (written : Z) : have ⊆ A →
  (∀ r, r ∈ created → justified r ∧ ToLower (cr_address r) = cr_address r) →
  spec (since_start A) (write_created env out have created written)
    (λ p y, since_start A y ∧ (p.2 = true → there (list_to_set (cr_address <$> created)) y)) (λ _, False).
Proof.
  intros Hh. revert A Hh written. induction created as [|r created IH]; intros A Hh written Hc; cbn [write_created].
  { apply spec_ret. intros y Hy. split; [done|]. intros _ a Ha. set_solver. }
  assert (∀ r', r' ∈ created → justified r' ∧ ToLower (cr_address r') = cr_address r') as Hc' by (intros r' Hr'; apply Hc; by right).
  case_decide as Hd.
  - eapply spec_post; [|by apply (IH A)]. intros [w ok] y [Hy Ht]. split; [done|]. intros Hok a. rewrite fmap_cons, list_to_set_cons.
    intros [Ha|Ha]%elem_of_union; [|by apply Ht]. apply elem_of_singleton in Ha as ->. destruct Hy as [_ Hy]. apply Hy. set_solver.
  - destruct (Hc r ltac:(left)) as [Hj Hlow]. eapply spec_bind.
    + unfold InsertContract. apply (cb_stmt_spec A (λ _, {[cr_address r]}) _ (λ _, True)).
      * intros y _. by apply insert_contract_ext.
      * intros y _. split; [|done]. intros a Ha _. apply elem_of_singleton in Ha as ->.
        destruct (insert_contract_ext r y Hj) as [_ Hs]. by rewrite Hlow in *.
    + intros [u|]; cbn beta iota.
      * intros k y [_ Hy]. revert k y Hy. eapply spec_post; [|by apply (IH (A ∪ {[cr_address r]})); [set_solver|]].
        intros [w ok] y [Hy Ht]. split; [eapply since_mono; [|exact Hy]; set_solver|]. intros Hok a.
        rewrite fmap_cons, list_to_set_cons. intros [Ha|Ha]%elem_of_union; [|by apply Ht].
        destruct Hy as [_ Hy]. apply Hy. set_solver.
      * apply spec_ret. intros y Hy. split; done.
Qed.

Lemma not_created_spec (want : list Creation) (made : gset gostring) c : c ∈ want → c_address c ∉ made → c_address c ∈ not_created made want.
Proof.
  unfold not_created. intros Hc Hm.
  assert (∀ want p, c_address c ∉ p.1 → c_address c ∈ p.2 ∨ c ∈ want → c_address c ∈ (foldl note_created p want).2) as Hgo.
  { clear. induction want as [|d w IH]; intros p Hp Hor; cbn [foldl]; [destruct Hor as [?|Hn]; [done|by apply not_elem_of_nil in Hn]|].
    apply IH; unfold note_created; cbn; [set_solver|]. destruct Hor as [Hl|Hd]; [left; case_decide; [done|set_solver]|].
    apply elem_of_cons in Hd as [<-|Hd]; [|by right]. left. rewrite decide_False by done. set_solver. }
  specialize (Hgo want (made, []) Hm (or_intror Hc)). exact Hgo.
Qed.

(** ** One transaction *)

Definition handled (rep : ContractsBackfillReport) : Z := TxsTraced rep + TxsSkipped rep + Z.of_nat (size (FailedTxs rep)).

Record outcome_of (tx : gostring) (want : list Creation) (B : gset gostring) (rep rep' : ContractsBackfillReport) : Prop := {
  oc_listed : ∀ c, c ∈ want → c_address c ∈ B ∨ tx ∈ FailedTxs rep' ∨ c_address c ∈ NotCreated rep';
  oc_failed : FailedTxs rep ⊆ FailedTxs rep' ∧ FailedTxs rep' ⊆ {[tx]} ∪ FailedTxs rep;
  oc_not : ∀ a, a ∈ NotCreated rep → a ∈ NotCreated rep';
  oc_handled : tx ∉ FailedTxs rep → handled rep' = handled rep + 1 }.

Lemma all_there (addresses : list gostring) (have : gset gostring) : have ⊆ list_to_set addresses → size have = length addresses →
  ∀ a, a ∈ addresses → a ∈ have.
Proof.
  intros Hsub Hsize a Ha.
  assert (size (list_to_set addresses : gset gostring) ≤ length addresses)%nat as Hle.
  { clear. induction addresses as [|x l IH]; [done|]. rewrite list_to_set_cons. cbn.
    pose proof (size_union_alt {[x]} (list_to_set l : gset gostring)) as E. rewrite size_singleton in E.
    pose proof (subseteq_size (list_to_set l ∖ {[x]}) (list_to_set l : gset gostring)) as E2. specialize (E2 ltac:(set_solver)). lia. }
  assert (have ≡ list_to_set addresses) as Heq; [|set_solver]. apply set_subseteq_size_equiv; [done|]. lia.
Qed.

Lemma backfill_tx_spec (A : gset gostring) (tx : gostring) (rep : ContractsBackfillReport) :
  tx ∈ c_tx <$> listed → Forall (λ c, ToLower (c_address c) = c_address c) listed →
  spec (since_start A) (backfill_tx env out node cancelled withoutTraces tx (listed_of listed tx) rep)
    (λ p y, since_start A y ∧ (p.2 = None → ∃ B, since_start (A ∪ B) y ∧ outcome_of tx (listed_of listed tx) B rep p.1)) (λ _, False).
Proof.
  intros Htx Hlow. set (want := listed_of listed tx).
  assert (∀ c, c ∈ want → c ∈ listed ∧ c_tx c = tx) as Hw by (intros c Hc; unfold want, listed_of in Hc; by apply list_elem_of_filter in Hc as [? ?]).
  unfold backfill_tx. eapply spec_bind.
  { unfold ExistingContracts.
    apply (cb_stmt_spec A id _ (λ have, have ⊆ list_to_set (c_address <$> want))); [intros y _; apply ext_refl|].
    intros y _. cbn [fst snd id]. split; [|set_solver]. intros a Ha _. by apply elem_of_filter in Ha as [Ha _]. }
  intros [have|]; cbn beta iota; [|apply spec_ret; intros y Hy; split; done]. intros k y [Hsub Hy]. revert k y Hy. unfold id.
  destruct (decide (size have = length (c_address <$> want))) as [Hsize|_].
  { apply spec_ret. intros y Hy. split; [eapply since_mono; [|exact Hy]; set_solver|]. intros _. exists have. split; [done|].
    split; cbn; [|set_solver|done|unfold handled; cbn; lia]. intros c Hc. left. eapply all_there; [done|done|]. by apply list_elem_of_fmap_2. }
  eapply spec_bind with (R := λ o y, since_start (A ∪ have) y ∧ ∀ rs r, o = Some rs → r ∈ rs → justified r ∧ ToLower (cr_address r) = cr_address r).
  { assert (∀ r, made_of tx r → justified r) as Hj by (intros r Hr; right; by exists tx). unfold made_of in Hj. destruct withoutTraces.
    - eapply spec_post; [|by apply untracedCreations_spec]. intros o y [Hy Hr]. split; [done|]. intros rs r E Hin. specialize (Hr rs r E Hin).
      split; [by apply Hj|]. destruct Hr as (_ & _ & _ & c & _ & _ & Hc & _ & _ & _ & -> & _). rewrite Forall_forall in Hlow. by apply Hlow.
    - eapply spec_post; [|by apply tracedCreations_spec]. intros o y [Hy Hr]. split; [done|]. intros rs r E Hin. specialize (Hr rs r E Hin).
      destruct Hr as [Hr ?]. split; [by apply Hj|done]. }
  intros [created|].
  - intros k y [Hy Hc]. revert k y Hy. eapply spec_bind; [apply (write_created_spec (A ∪ have)); [set_solver|by intros r; apply (Hc created)]|].
    intros [written [|]]; apply spec_ret; intros y [Hy Ht]; (split; [eapply since_mono; [|exact Hy]; set_solver|]); [|done].
    intros _. exists (list_to_set (cr_address <$> created)). split.
    + destruct Hy as [H1 H2]. split; [done|]. intros a [Ha|Ha]%elem_of_union; [apply H2; set_solver|by apply (Ht eq_refl)].
    + split; cbn [FailedTxs NotCreated]; [|set_solver|set_solver|unfold handled; cbn; lia].
      intros c Hcw. destruct (decide (c_address c ∈ (list_to_set (cr_address <$> created) : gset gostring))) as [Hm|Hm]; [by left|].
      right. right. apply elem_of_app. right. by apply not_created_spec.
  - intros k y [Hy _]. revert k y Hy. eapply spec_bind; [apply cb_ask_spec|]. intros [|] k y [_ Hy]; revert k y Hy; apply spec_ret; intros y Hy.
    + split; [eapply since_mono; [|exact Hy]; set_solver|done].
    + split; [eapply since_mono; [|exact Hy]; set_solver|]. intros _. exists ∅. split; [eapply since_mono; [|exact Hy]; set_solver|].
      split; cbn [FailedTxs NotCreated]; [intros c _; right; left; set_solver|set_solver|done|].
      intros Hf. unfold handled. cbn. rewrite size_union by set_solver. rewrite size_singleton. lia.
Qed.

(** ** The list *)

Record outcomes (txs : list gostring) (B : gset gostring) (rep rep' : ContractsBackfillReport) : Prop := {
  os_listed : ∀ c, c ∈ listed → c_tx c ∈ txs → c_address c ∈ B ∨ c_tx c ∈ FailedTxs rep' ∨ c_address c ∈ NotCreated rep';
  os_failed : FailedTxs rep ⊆ FailedTxs rep' ∧ FailedTxs rep' ⊆ list_to_set txs ∪ FailedTxs rep;
  os_not : ∀ a, a ∈ NotCreated rep → a ∈ NotCreated rep';
  os_handled : NoDup txs → (∀ tx, tx ∈ txs → tx ∉ FailedTxs rep) → handled rep' = handled rep + zlen txs }.

Lemma backfill_txs_spec (txs : list gostring) (A : gset gostring) (rep : ContractsBackfillReport) :
  (∀ tx, tx ∈ txs → tx ∈ c_tx <$> listed) → Forall (λ c, ToLower (c_address c) = c_address c) listed →
  spec (since_start A) (backfill_txs env out node cancelled withoutTraces listed txs rep)
    (λ p y, since_start A y ∧ (p.2 = None → ∃ B, since_start (A ∪ B) y ∧ outcomes txs B rep p.1)) (λ _, False).
Proof.
  intros Hin Hlow. revert A rep. induction txs as [|tx txs IH]; intros A rep; cbn [backfill_txs].
  { apply spec_ret. intros y Hy. split; [done|]. intros _. exists ∅. split; [eapply since_mono; [|exact Hy]; set_solver|].
    split; cbn; [intros c _ Hc; by apply not_elem_of_nil in Hc|set_solver|done|intros _ _; unfold zlen; cbn; lia]. }
  eapply spec_bind; [apply (backfill_tx_spec A tx rep); [apply Hin; by left|done]|]. intros [rep1 [e|]].
  { apply spec_ret. intros y [Hy _]. by split. }
  intros k y [Hy Hone]. destruct (Hone eq_refl) as (B1 & Hy1 & O1). revert k y Hy Hone Hy1. cbn [fst snd] in *.
  assert (∀ tx', tx' ∈ txs → tx' ∈ c_tx <$> listed) as Hin' by (intros; apply Hin; by right).
  intros k y _ _ Hy1. pose proof (IH Hin' (A ∪ B1) rep1 k y Hy1) as Hrest.
  destruct (backfill_txs env out node cancelled withoutTraces listed txs rep1 k y) as [[k' y'] [[rep2 e2]|]]; [|done].
  destruct Hrest as [Hy' Hone]. split; [eapply since_mono; [|exact Hy']; set_solver|]. cbn [fst snd] in *. intros He.
  destruct (Hone He) as (B2 & Hy2 & O2). exists (B1 ∪ B2). split; [eapply since_mono; [|exact Hy2]; set_solver|].
  destruct O1 as [L1 F1 N1 C1], O2 as [L2 F2 N2 C2]. split.
  - intros c Hc [Htx|Htx]%elem_of_cons.
    + destruct (L1 c) as [?|[?|?]]; [unfold listed_of; by apply list_elem_of_filter|set_solver|right; left; set_solver|right; right; by apply N2].
    + destruct (L2 c Hc Htx) as [?|?]; [set_solver|by right].
  - clear -F1 F2. destruct F1 as [F1 F1'], F2 as [F2 F2']. split; [by etrans|]. set_solver.
  - intros a Ha. by apply N2, N1.
  - intros Hnd Hf. apply NoDup_cons in Hnd as [Hn Hnd]. rewrite C2; [|done|].
    + rewrite C1 by (apply Hf; by left). rewrite zlen_cons. lia.
    + intros tx' Htx' Hbad. destruct F1 as [_ F1]. apply F1 in Hbad. apply elem_of_union in Hbad as [->%elem_of_singleton|Hbad]; [done|].
      by apply (Hf tx'); [right|].
Qed.

Lemma elem_of_listed_txs tx : tx ∈ listed_txs listed ↔ tx ∈ c_tx <$> listed.
Proof. unfold listed_txs. rewrite merge_sort_Permutation, elem_of_elements, elem_of_list_to_set. done. Qed.
Lemma NoDup_listed_txs : NoDup (listed_txs listed).
Proof. unfold listed_txs. rewrite merge_sort_Permutation. apply NoDup_elements. Qed.
End Guarantee.

(** C31: the contracts backfill writes what it may and leaves nothing out unsaid. While other
    sessions add contracts, and keep those of [keep], with any statement failing or losing
    its answer, any node request failing and the run stopped anywhere: a row of [keep] stays
    as it is; a new row is another session's, or made of a creation in the stored frames (by
    the rule of ingest), or of the node's answers for a listed transaction. A run that
    returns without an error handled every listed transaction (traced, skipped or failed);
    each listed contract has its row, or its transaction is among the failed ones, or it is
    reported as not created; and every creation of the stored frames with code in its output
    has its row. *)
Theorem contracts_backfill_accounts `{Keccak} env out node cancelled (keep : gostring → Prop) (J : contract_row → Prop)
    (listed : list Creation) (withoutTraces : bool) (k : nat) (y : cb_sys) :
  (∀ k y, rtc (others keep J) y (env k y)) → Forall (λ c, ToLower (c_address c) = c_address c) listed →
  let frames := cb_frames (env k y) in
  Forall named frames → Forall (λ f, ToLower <$> To f = To f) frames →
  ∃ k' y' rep e, BackfillContracts env out node cancelled withoutTraces listed k y = (k', y', Some (rep, e)) ∧
  (∀ a r, keep a → cb_contracts y !! a = Some r → cb_contracts y' !! a = Some r) ∧
  (∀ a r, cb_contracts y' !! a = Some r → cb_contracts y !! a = Some r ∨ J r ∨
     (∃ f, f ∈ internalCreations frames ∧ sql_row f = Some r) ∨
     (∃ tx, tx ∈ c_tx <$> listed ∧ made_of node listed withoutTraces tx r)) ∧
  (e = None →
     TxsTraced rep + TxsSkipped rep + Z.of_nat (size (FailedTxs rep)) = zlen (listed_txs listed) ∧
     (∀ c, c ∈ listed → keep (c_address c) →
        is_Some (cb_contracts y' !! c_address c) ∨ c_tx c ∈ FailedTxs rep ∨ c_address c ∈ NotCreated rep) ∧
     (∀ f to, f ∈ internalCreations frames → has_output_code f = true → To f = Some to → keep to → is_Some (cb_contracts y' !! to))).
Proof.
  intros Henv Hlow frames Hn Hto. subst frames. set (y1 := env k y).
  assert (ext node keep J listed withoutTraces y y1) as Hy1.
  { assert (∀ u v, rtc (others keep J) u v → ext node keep J listed withoutTraces u v) as Hrtc.
    { induction 1 as [|u v w Huv _ IH]; [apply ext_refl|]. eapply ext_trans; [by apply others_ext|done]. }
    apply Hrtc, Henv. }
  destruct (backfill_from_frames (cb_frames y1) (cb_contracts y1) Hn Hto) as (K1 & K2 & K3).
  set (m2 := (BackfillContractsFromInternalTransactions (cb_frames y1) (cb_contracts y1)).1) in *.
  assert (∀ y2, cb_contracts y2 = cb_contracts y1 ∨ cb_contracts y2 = m2 → ∀ y', ext node keep J listed withoutTraces y2 y' →
    (∀ a r, keep a → cb_contracts y !! a = Some r → cb_contracts y' !! a = Some r) ∧
    (∀ a r, cb_contracts y' !! a = Some r → cb_contracts y !! a = Some r ∨ J r ∨
       (∃ f, f ∈ internalCreations (cb_frames y1) ∧ sql_row f = Some r) ∨
       (∃ tx, tx ∈ c_tx <$> listed ∧ made_of node listed withoutTraces tx r))) as Hsafe.
  { intros y2 Hy2 y' [E1 E2]. destruct Hy1 as [D1 D2]. split.
    - intros a r Hk Hr. apply E1; [done|]. destruct Hy2 as [-> | ->]; [by apply D1|]. apply K1. by apply D1.
    - intros a r Hr. destruct (E2 a r Hr) as [Hr2|[?|?]]; [|by right; left|by right; right; right].
      assert (cb_contracts y1 !! a = Some r ∨ ∃ f, f ∈ internalCreations (cb_frames y1) ∧ sql_row f = Some r) as [Hr1|?]; [|..].
      { destruct Hy2 as [E | E]; rewrite E in Hr2; [by left|]. destruct (cb_contracts y1 !! a) as [r0|] eqn:E0.
        - left. apply K1 in E0. congruence.
        - right. destruct (K3 a r Hr2 E0) as (f & ? & _ & ? & _). by exists f. }
      + destruct (D2 a r Hr1) as [?|[?|?]]; [by left|by right; left|by right; right; right].
      + by right; right; left. }
  unfold BackfillContracts, bind, from_internal, cb_stmt, caught, stmt. fold y1.
  destruct (BackfillContractsFromInternalTransactions (cb_frames y1) (cb_contracts y1)) as [m n] eqn:Eb. cbn [fst] in m2. subst m2.
  destruct (out k).
  - pose proof (backfill_txs_spec env out node cancelled keep J listed withoutTraces Henv (set_contracts m y1) (listed_txs listed) ∅
      (mkCbReport n 0 0 0 [] [] ∅)) as Hspec.
    specialize (Hspec ltac:(intros tx; apply elem_of_listed_txs) Hlow (S k) (set_contracts m y1)).
    destruct (backfill_txs _ _ _ _ _ _ _ _ _ _) as [[k' y'] [[rep e]|]].
    2:{ exfalso. apply Hspec. split; [apply ext_refl|]. intros a Ha. set_solver. }
    destruct Hspec as [[He _] Hok]; [split; [apply ext_refl|]; intros a Ha; set_solver|].
    exists k', y', rep, e. split; [done|]. destruct (Hsafe (set_contracts m y1) (or_intror eq_refl) y' He) as [S1 S2]. split_and!; [done|done|].
    intros ->. destruct (Hok eq_refl) as (B & [_ HB] & [L F N C]). cbn [fst] in *. split_and!.
    + change (handled rep = zlen (listed_txs listed)). rewrite (C (NoDup_listed_txs listed)); [done|]. intros tx _. cbn. set_solver.
    + intros c Hc Hk. destruct (L c Hc) as [Hb|[?|?]]; [apply elem_of_listed_txs; by apply list_elem_of_fmap_2| |by right; left|by right; right].
      left. apply HB; [set_solver|done].
    + intros f to Hf Ho Ht Hk. destruct (K2 f to Hf Ho Ht) as [r Hr]. exists r. destruct He as [He1 _]. by apply He1.
  - exists (S k), y1, no_report, (Some StoreError). split; [done|].
    destruct (Hsafe y1 (or_introl eq_refl) y1 (ext_refl _ _ _ _ _ _)) as [S1 S2]. split_and!; done.
  - exists (S k), (set_contracts m y1), no_report, (Some StoreError). split; [done|].
    destruct (Hsafe (set_contracts m y1) (or_intror eq_refl) (set_contracts m y1) (ext_refl _ _ _ _ _ _)) as [S1 S2]. split_and!; done.
Qed.

(** ** The list and its rerun *)

Lemma read_creations_lower rows listed : ReadCreationsCSV rows = Some listed → Forall (λ c, ToLower (c_address c) = c_address c) listed.
Proof.
  unfold ReadCreationsCSV. generalize (if header_row rows then tail rows else rows) as l. intros l E. apply mapM_Some_1 in E.
  induction E as [|row c l listed Hc _ IH]; constructor; [|done]. unfold read_creation in Hc.
  repeat case_match; simplify_eq/=; apply ToLower_idemp.
Qed.

(** A transaction whose listed contracts are all there is skipped, with nothing asked of
    the node, if the list names each of them once. *)
Lemma complete_tx_skipped `{Keccak} env out node cancelled withoutTraces tx want rep k y : out k = Done → NoDup (c_address <$> want) →
  (∀ c, c ∈ want → is_Some (cb_contracts (env k y) !! c_address c)) →
  backfill_tx env out node cancelled withoutTraces tx want rep k y =
  (S k, env k y, Some (mkCbReport (FromInternalTransactions rep) (TxsTraced rep) (TxsSkipped rep + 1) (Written rep) (NotCreated rep)
                         (Unlisted rep) (FailedTxs rep), None)).
Proof.
  intros Ho Hnd Hall. unfold backfill_tx, bind, ExistingContracts, cb_stmt, caught, stmt. rewrite Ho. cbn beta iota.
  rewrite decide_True; [done|].
  assert (filter (λ a, is_Some (cb_contracts (env k y) !! a)) (list_to_set (c_address <$> want) : gset gostring) = list_to_set (c_address <$> want)) as ->.
  { apply set_eq. intros a. rewrite elem_of_filter, elem_of_list_to_set. split; [tauto|]. intros Ha. split; [|done].
    apply list_elem_of_fmap in Ha as (c & -> & Hc). by apply Hall. }
  by rewrite size_list_to_set.
Qed.

(** ** A run *)

Section Example.
Local Instance toy_backfill : Keccak := toy_keccak.

Definition factory_tx : gostring := Hash_Hex (sample_hash 1).
Definition made_at (k : Z) : gostring := ToLower (Address_Hex (sample_addr k)).
(** A call that creates contract 7 with code 60. *)
Definition factory_trace : CallFrame :=
  Frame $"CALL" (made_at 1) (made_at 99) None 0 0 [] [] []
    [Frame $"CREATE" (made_at 99) (made_at 7) None 0 0 [] $"0x60" [] []].
Definition factory_node : backfill_node :=
  mkBackfillNode (λ _ _, Some (Some (mkHead 1 (Some 7)))) (λ _ _, Some factory_trace) (λ _ _, Some (Some (Some (sample_addr 99))))
    (λ _ _, Some [x60]).
Definition factory_list : list Creation := [mkCreation (made_at 7) factory_tx 7 []; mkCreation (made_at 8) factory_tx 7 []].
Definition empty_cb : cb_sys := mkCb [] ∅.
Definition quiet_env (k : nat) (y : cb_sys) : cb_sys := y.
Definition run_twice (listed : list Creation) : option (ContractsBackfillReport * ContractsBackfillReport) :=
  let '(_, y, r1) := BackfillContracts quiet_env (λ _, Done) factory_node (λ _, false) false listed 0%nat empty_cb in
  let '(_, _, r2) := BackfillContracts quiet_env (λ _, Done) factory_node (λ _, false) false listed 0%nat y in
  match r1, r2 with Some (r1, _), Some (r2, _) => Some (r1, r2) | _, _ => None end.

Lemma contracts_backfill_accounts_witness :
  ∃ k' y' rep e, BackfillContracts quiet_env (λ _, Done) factory_node (λ _, false) false factory_list 0%nat empty_cb = (k', y', Some (rep, e)) ∧
    (e = None → is_Some (cb_contracts y' !! made_at 7) ∨ factory_tx ∈ FailedTxs rep ∨ made_at 7 ∈ NotCreated rep).
Proof.
  destruct (contracts_backfill_accounts quiet_env (λ _, Done) factory_node (λ _, false) (λ _, True) (λ _, False) factory_list false 0%nat empty_cb)
    as (k' & y' & rep & e & E & _ & _ & Hok).
  - intros k y. apply rtc_refl.
  - apply (bool_decide_eq_true_1 _). vm_compute. reflexivity.
  - apply Forall_nil_2.
  - apply Forall_nil_2.
  - exists k', y', rep, e. split; [exact E|]. intros He. destruct (Hok He) as (_ & Hl & _).
    apply (Hl (mkCreation (made_at 7) factory_tx 7 [])); [left|done].
Defined.

(** The contract the trace makes is written, the other listed one reported. A list that
    names a contract twice is never complete: the contract is reported as not created
    although it was, and each run traces the transaction again. *)
Example backfill_twice :
  run_twice [mkCreation (made_at 7) factory_tx 7 []] = Some (mkCbReport 0 1 0 1 [] [] ∅, mkCbReport 0 0 1 0 [] [] ∅) ∧
  run_twice factory_list = Some (mkCbReport 0 1 0 1 [made_at 8] [] ∅, mkCbReport 0 1 0 0 [made_at 8] [] ∅) ∧
  run_twice [mkCreation (made_at 7) factory_tx 7 []; mkCreation (made_at 7) factory_tx 7 []] =
    Some (mkCbReport 0 1 0 1 [made_at 7] [] ∅, mkCbReport 0 1 0 0 [made_at 7] [] ∅).
Proof. vm_compute. split_and!; reflexivity. Qed.
End Example.
