(* ===== verification/AddressTruth.v ===== *)
(** * Address counters and their truth

    [address_stats] beside the ledger it can be counted from again ([internal/db]):
    [ledger_address_truth] (migration 032, as [address_rebase.go] calls it), what ingest,
    the stats backfill, a revert ([address_stats_revert.go]), a span close, pruning and a
    settlement of the ledger ([verify.go]) do to both. *)

From S2P Require Import Prelude Tally.

(** ** Rows *)

(** The counters of an address with its first and last block; [None] is NULL. *)
Record stat := mkStat { a_txs : Z; a_sent : Z; a_internal : Z; a_transfers : Z; a_first : option Z; a_last : option Z }.
#[export] Instance stat_eq_dec : EqDecision stat.
Proof. solve_decision. Defined.

(** [LEAST] and [GREATEST] pass over NULL. *)
Definition LEAST (x y : option Z) : option Z := union_with (λ x y, Some (x `min` y)) x y.
Definition GREATEST (x y : option Z) : option Z := union_with (λ x y, Some (x `max` y)) x y.

Definition add_stat (r δ : stat) : stat :=
  mkStat (a_txs r + a_txs δ) (a_sent r + a_sent δ) (a_internal r + a_internal δ) (a_transfers r + a_transfers δ)
    (LEAST (a_first r) (a_first δ)) (GREATEST (a_last r) (a_last δ)).
#[export] Program Instance stat_semi : Semi stat := mkSemi stat add_stat _ _.
Next Obligation. intros [????[]?] [????[]?] [????[]?]; unfold add_stat; cbn; f_equal; try lia; try (f_equal; lia); destruct a_last0, a_last1, a_last2; cbn; f_equal; lia. Qed.
Next Obligation. intros [????[]?] [????[]?]; unfold add_stat; cbn; f_equal; try lia; try (f_equal; lia); destruct a_last0, a_last1; cbn; f_equal; lia. Qed.

(** ** The tables *)

(** [t_blocks]: what [ledger_address_contributions] counts in each stored block;
    [t_from]: [history_from], the blocks below it are pruned; [t_ledger]: the rows of the
    closed spans by their [lo]; [t_spans]: their [hi] and whether they are rebased;
    [t_stage]: the open span of the stats backfill; [t_reverted]: [ledger_reverted_address],
    with the transaction that wrote each row (its xmin); [t_total]: [addresses_total];
    [t_days]: the pending [address_days_recount]. *)
Record stats_db := mkStats {
  t_rows : gmap gostring stat; t_blocks : gmap Z (gmap gostring stat); t_from : Z;
  t_ledger : gmap Z (gmap gostring stat); t_spans : gmap Z (Z * bool); t_stage : gmap gostring stat;
  t_reverted : gmap gostring Z; t_xid : Z; t_total : Z; t_days : Z }.

(** [ledger_closed_through]. *)
Definition closed_through (s : stats_db) : Z := map_fold (λ _ hr m, hr.1 `max` m) 0 (t_spans s).
(** The rows above the closed spans, by block. *)
Definition open_blocks (s : stats_db) : gmap Z (gmap gostring stat) := filter (λ nb, closed_through s ≤ nb.1) (t_blocks s).
Definition ledger_address_truth (s : stats_db) : gmap gostring stat := vsum (t_ledger s) ⊕ t_stage s ⊕ vsum (open_blocks s).
(** The row of an address is its truth. *)
Definition exact (a : gostring) (s : stats_db) : Prop := t_rows s !! a = ledger_address_truth s !! a.

(** ** What moves them *)

Definition count_rows (D rows : gmap gostring stat) : Z := Z.of_nat (size (rows ⊕ D)) - Z.of_nat (size rows).
(** A block is stored: each address's row is created or added to. *)
Definition store_block (n : Z) (D : gmap gostring stat) (s : stats_db) : stats_db :=
  mkStats (t_rows s ⊕ D) (<[n := D]> (t_blocks s)) (t_from s) (t_ledger s) (t_spans s) (t_stage s) (t_reverted s) (t_xid s)
    (t_total s + count_rows D (t_rows s)) (t_days s).
(** A batch of the stats backfill adds to its open span; a span it completes is closed. *)
Definition backfill_batch (D : gmap gostring stat) (s : stats_db) : stats_db :=
  mkStats (t_rows s ⊕ D) (t_blocks s) (t_from s) (t_ledger s) (t_spans s) (t_stage s ⊕ D) (t_reverted s) (t_xid s)
    (t_total s + count_rows D (t_rows s)) (t_days s).
Definition backfill_close (lo hi : Z) (s : stats_db) : stats_db :=
  mkStats (t_rows s) (t_blocks s) (t_from s) (<[lo := t_stage s]> (t_ledger s)) (<[lo := (hi, false)]> (t_spans s)) ∅ (t_reverted s) (t_xid s) (t_total s) (t_days s).
(** [ledger_close_span]. *)
Definition close_span (lo hi : Z) (s : stats_db) : stats_db :=
  mkStats (t_rows s) (t_blocks s) (t_from s) (<[lo := vsum (filter (λ nb, lo ≤ nb.1 < hi) (t_blocks s))]> (t_ledger s))
    (<[lo := (hi, false)]> (t_spans s)) (t_stage s) (t_reverted s) (t_xid s) (t_total s) (t_days s).
Definition prune_rows (w : Z) (s : stats_db) : stats_db :=
  mkStats (t_rows s) (filter (λ nb, w ≤ nb.1) (t_blocks s)) w (t_ledger s) (t_spans s) (t_stage s) (t_reverted s) (t_xid s) (t_total s) (t_days s).

(** A recorded address is a new version of its row. *)
Definition record_reverted (X : gset gostring) (s : stats_db) : gmap gostring Z := gset_to_gmap (t_xid s) X ∪ t_reverted s.

(** [ledger_span_settle] with [truthMoved]: the rows of span [lo] become [L]. *)
Definition moved_addresses (L L' : gmap gostring stat) : gset gostring := filter (λ a, L !! a ≠ L' !! a) (dom L ∪ dom L').
Definition settle_moves (lo : Z) (L : gmap gostring stat) (s : stats_db) : stats_db :=
  mkStats (t_rows s) (t_blocks s) (t_from s) (<[lo := L]> (t_ledger s)) (t_spans s) (t_stage s)
    (record_reverted (moved_addresses (default ∅ (t_ledger s !! lo)) L) s) (t_xid s + 1) (t_total s) (t_days s).

(** ** A revert *)

(** The blocks an address is stored in, but [n]. *)
Definition stored_elsewhere (a : gostring) (n : Z) (s : stats_db) : gset Z := dom (filter (λ nb, is_Some (nb.2 !! a) ∧ nb.1 ≠ n) (t_blocks s)).
Definition min_block (X : gset Z) : option Z := set_fold (λ x m, LEAST (Some x) m) None X.
Definition max_block (X : gset Z) : option Z := set_fold (λ x m, GREATEST (Some x) m) None X.
(** The newest closed span holding the address, and the open span of the backfill. *)
Definition newest_span (a : gostring) (s : stats_db) : option stat :=
  max_block (dom (filter (λ lr, is_Some (lr.2 !! a)) (t_ledger s))) ≫= λ lo, t_ledger s !! lo ≫= λ L, L !! a.
Definition ledger_last (a : gostring) (s : stats_db) : option Z := GREATEST (newest_span a s ≫= a_last) ((t_stage s !! a) ≫= a_last).

Definition lower (x d : Z) : Z := (x - d) `max` 0.
Definition at_or_after (n : Z) (x : option Z) : bool := match x with Some x => n <=? x | None => false end.
(** Of an address's row, with what the block counted for it; [None]: removed. *)
Definition revert_row (a : gostring) (n : Z) (δ : stat) (s : stats_db) (r : stat) : option stat :=
  let seen := stored_elsewhere a n s in
  let stillSeen := match a_first r with Some f => f <? n | None => false end in
  if bool_decide (seen = ∅) && negb stillSeen then None
  else
    let last := if decide (seen = ∅) then ledger_last a s else max_block seen in
    Some (mkStat (lower (a_txs r) (a_txs δ)) (lower (a_sent r) (a_sent δ)) (lower (a_internal r) (a_internal δ)) (lower (a_transfers r) (a_transfers δ))
      (if at_or_after n (a_first r) then union (min_block seen) (a_first r) else a_first r)
      (if at_or_after n (a_last r) then union last (a_last r) else a_last r)).

Definition revert_stats (n : Z) (D : gmap gostring stat) (s : stats_db) : gmap gostring stat :=
  map_imap (λ a r, match D !! a with Some δ => revert_row a n δ s r | None => Some r end) (t_rows s).
Definition revert_block (n : Z) (D : gmap gostring stat) (s : stats_db) : stats_db :=
  let rows := revert_stats n D s in
  mkStats rows (delete n (t_blocks s)) (t_from s) (t_ledger s) (t_spans s) (t_stage s) (record_reverted (dom D) s) (t_xid s + 1)
    (lower (t_total s) (Z.of_nat (size (t_rows s)) - Z.of_nat (size rows))) (t_days s).

(** ** Steps of the others *)

Definition block_ok (n : Z) (D : gmap gostring stat) : Prop :=
  ∀ a δ, D !! a = Some δ → a_first δ = Some n ∧ a_last δ = Some n ∧ 0 ≤ a_txs δ ∧ 0 ≤ a_sent δ ∧ 0 ≤ a_internal δ ∧ 0 ≤ a_transfers δ.
(** The ends of [o] are blocks of [P], and its counts not negative. *)
Definition ends (P : Z → Prop) (o : option stat) : Prop :=
  ∀ q, o = Some q → 0 ≤ a_txs q ∧ 0 ≤ a_sent q ∧ 0 ≤ a_internal q ∧ 0 ≤ a_transfers q ∧ ∃ f l, a_first q = Some f ∧ a_last q = Some l ∧ P f ∧ P l.
(** [o] reaches block [n]. *)
Definition reaches (n : Z) (o : option stat) : Prop := ∃ q f l, o = Some q ∧ a_first q = Some f ∧ a_last q = Some l ∧ f ≤ n ≤ l.

(** A block of a closed span in which [a] is seen: still stored, or pruned. *)
Definition saw (a : gostring) (s : stats_db) (n : Z) : Prop := t_from s ≤ n → is_Some (t_blocks s !! n ≫= (.!! a)).
(** The rows of span [lo, hi) are counted from its blocks. *)
Definition span_counts (lo hi : Z) (L : gmap gostring stat) (s : stats_db) : Prop :=
  (∀ a, ends (λ n, lo ≤ n < hi ∧ saw a s n) (L !! a)) ∧
  (∀ a n D, lo ≤ n < hi → t_blocks s !! n = Some D → is_Some (D !! a) → reaches n (L !! a)).

Record stats_ok (s : stats_db) : Prop := {
  so_blocks : ∀ n D, t_blocks s !! n = Some D → t_from s ≤ n ∧ block_ok n D;
  so_ledger : ∀ lo L, t_ledger s !! lo = Some L → ∃ hi b, t_spans s !! lo = Some (hi, b) ∧ span_counts lo hi L s;
  so_spans : ∀ lo hi b, t_spans s !! lo = Some (hi, b) → lo < hi ∧ is_Some (t_ledger s !! lo);
  so_apart : ∀ lo hi b lo' hi' b', t_spans s !! lo = Some (hi, b) → t_spans s !! lo' = Some (hi', b') → lo < lo' → hi ≤ lo';
  so_covered : ∀ n D, t_blocks s !! n = Some D → n < closed_through s → ∃ lo hi b, t_spans s !! lo = Some (hi, b) ∧ lo ≤ n < hi;
  so_stage : ∀ a, ends (λ n, n < t_from s) (t_stage s !! a);
  so_xid : ∀ a v, t_reverted s !! a = Some v → v < t_xid s }.

(** One transaction of the others, with the addresses whose rows it takes and whether it
    holds the revert lock. *)
Inductive stats_step (s : stats_db) : gset gostring → bool → stats_db → Prop :=
| t_store n D : t_blocks s !! n = None → closed_through s ≤ n → t_from s ≤ n → block_ok n D → stats_step s (dom D) false (store_block n D s)
| t_backfill D : (∀ a, ends (λ n, n < t_from s) (D !! a)) → stats_step s (dom D) false (backfill_batch D s)
| t_backfill_close lo hi : lo < hi ≤ t_from s → t_spans s !! lo = None → t_ledger s !! lo = None →
    (∀ lo' hi' b, t_spans s !! lo' = Some (hi', b) → hi' ≤ lo ∨ hi ≤ lo') → (∀ a, ends (λ n, lo ≤ n < hi) (t_stage s !! a)) → stats_step s ∅ false (backfill_close lo hi s)
| t_close lo hi : lo = closed_through s `max` t_from s → lo < hi → stats_step s ∅ false (close_span lo hi s)
| t_prune w : t_from s ≤ w ≤ closed_through s → stats_step s ∅ false (prune_rows w s)
| t_revert n D : t_blocks s !! n = Some D → closed_through s ≤ n → stats_step s (dom D ∩ dom (t_rows s)) true (revert_block n D s).

(** ** Sums by address *)

Lemma lookup_oplus (m1 m2 : gmap gostring stat) a : (m1 ⊕ m2) !! a = m1 !! a ⊕ m2 !! a.
Proof. rewrite lookup_plus. by destruct (m1 !! a), (m2 !! a). Qed.
Lemma oplus_None_r (o : option stat) : o ⊕ None = o.
Proof. by destruct o. Qed.
Lemma oplus_None (o o' : option stat) : o ⊕ o' = None ↔ o = None ∧ o' = None.
Proof. destruct o, o'; cbn; naive_solver. Qed.

Lemma vsum_lookup_delete (m : gmap Z (gmap gostring stat)) n D a : m !! n = Some D → vsum m !! a = D !! a ⊕ vsum (delete n m) !! a.
Proof. intros E. by rewrite (vsum_delete m n D E), lookup_oplus. Qed.
Lemma vsum_lookup_insert (m : gmap Z (gmap gostring stat)) n D a : m !! n = None → vsum (<[n := D]> m) !! a = D !! a ⊕ vsum m !! a.
Proof. intros E. by rewrite vsum_insert, lookup_oplus by done. Qed.

Lemma ends_plus (P : Z → Prop) o o' : ends P o → ends P o' → ends P (o ⊕ o').
Proof.
  intros H1 H2. destruct o as [q1|], o' as [q2|]; [|done|done|done]. intros q [= <-].
  destruct (H1 q1 eq_refl) as (? & ? & ? & ? & f1 & l1 & E1 & E2 & ? & ?), (H2 q2 eq_refl) as (? & ? & ? & ? & f2 & l2 & E3 & E4 & ? & ?).
  cbn. rewrite E1, E2, E3, E4. cbn. split_and!; try lia. eexists _, _. split_and!; [done|done| |].
  - by destruct (Z.min_spec f1 f2) as [[_ ->]|[_ ->]].
  - by destruct (Z.max_spec l1 l2) as [[_ ->]|[_ ->]].
Qed.
Lemma ends_impl (P Q : Z → Prop) o : (∀ n, P n → Q n) → ends P o → ends Q o.
Proof. intros HPQ H q Hq. destruct (H q Hq) as (? & ? & ? & ? & f & l & ? & ? & ? & ?). split_and!; try done. exists f, l. split_and!; auto. Qed.
Lemma ends_vsum (P : Z → Prop) (m : gmap Z (gmap gostring stat)) (a : gostring) : (∀ n D, m !! n = Some D → ends P (D !! a)) → ends P (vsum m !! a).
Proof.
  induction m as [|n D m Hn IH] using map_ind; intros H; [rewrite vsum_empty; by intros q ?|].
  rewrite vsum_lookup_insert by done. apply ends_plus; [apply (H n), lookup_insert_eq|]. apply IH. intros n' D' E. apply (H n'). rewrite lookup_insert_ne; [done|congruence].
Qed.
Lemma reaches_plus (P : Z → Prop) n o o' : ends P o' → reaches n o → reaches n (o ⊕ o').
Proof.
  intros H (q & f & l & -> & E1 & E2 & ?). destruct o' as [q'|]; [|by exists q, f, l]. destruct (H q' eq_refl) as (_ & _ & _ & _ & f' & l' & E3 & E4 & _).
  eexists _, _, _. split; [done|]. cbn. rewrite E1, E2, E3, E4. cbn. split_and!; [done|done|lia|lia].
Qed.
Lemma reaches_vsum (P : Z → Prop) (m : gmap Z (gmap gostring stat)) (a : gostring) n k D : (∀ n D, m !! n = Some D → ends P (D !! a)) → m !! k = Some D → reaches n (D !! a) → reaches n (vsum m !! a).
Proof.
  intros H E Hr. rewrite (vsum_lookup_delete m k D a E). apply (reaches_plus P); [|done]. apply ends_vsum. intros n' D' [_ E']%lookup_delete_Some. by apply (H n').
Qed.
Lemma ends_block n D a (P : Z → Prop) : block_ok n D → P n → ends P (D !! a).
Proof. intros H Hn q Hq. destruct (H a q Hq) as (? & ? & ? & ? & ? & ?). split_and!; try done. by exists n, n. Qed.
Lemma reaches_block n D a : block_ok n D → is_Some (D !! a) → reaches n (D !! a).
Proof. intros H [q Hq]. destruct (H a q Hq) as (? & ? & _). exists q, n, n. split_and!; try done; lia. Qed.

(** ** The closed prefix *)

Lemma closed_insert s lo hi b m : t_spans s !! lo = None → map_fold (λ _ (hr : Z * bool) m, hr.1 `max` m) m (<[lo := (hi, b)]> (t_spans s)) = hi `max` map_fold (λ _ hr m, hr.1 `max` m) m (t_spans s).
Proof. intros E. rewrite map_fold_insert_L; [done| |done]. intros. cbn. lia. Qed.
Lemma closed_spec (m : gmap Z (Z * bool)) : let c := map_fold (λ _ (hr : Z * bool) m, hr.1 `max` m) 0 m in
  (∀ lo hi b, m !! lo = Some (hi, b) → hi ≤ c) ∧ (c = 0 ∨ ∃ lo b, m !! lo = Some (c, b)) ∧ 0 ≤ c.
Proof.
  induction m as [|lo [hi b] m Hn IH] using map_ind; cbn zeta in *; [rewrite map_fold_empty; split_and!; [done|by left|lia]|].
  rewrite map_fold_insert_L by (try done; intros; cbn; lia). cbn [fst]. set (c := map_fold _ 0 m) in *. destruct IH as (H1 & H2 & H3). split_and!; [| |lia].
  - intros lo' hi' b' [[<- [= <- <-]]|[_ E]]%lookup_insert_Some; [lia|]. specialize (H1 _ _ _ E). lia.
  - destruct (Z.max_spec hi c) as [[? ->]|[? ->]]; [|right; exists lo, b; by rewrite lookup_insert_eq]. destruct H2 as [?|(lo' & b' & E)]; [by left|].
    right. exists lo', b'. rewrite lookup_insert_ne; [done|congruence].
Qed.
Lemma span_closed s lo hi b : t_spans s !! lo = Some (hi, b) → hi ≤ closed_through s.
Proof. intros E. by apply (proj1 (closed_spec (t_spans s)) lo hi b). Qed.

(** ** The truth, step by step *)

Lemma truth_lookup s a : ledger_address_truth s !! a = (vsum (t_ledger s) !! a ⊕ t_stage s !! a) ⊕ vsum (open_blocks s) !! a.
Proof. unfold ledger_address_truth. by rewrite !lookup_oplus. Qed.

Lemma filter_insert_in (P : Z * gmap gostring stat → Prop) `{!∀ x, Decision (P x)} (m : gmap Z (gmap gostring stat)) n D : P (n, D) → filter P (<[n := D]> m) = <[n := D]> (filter P m).
Proof. intros. by apply map_filter_insert_True. Qed.

Lemma open_store n D s : t_blocks s !! n = None → closed_through s ≤ n → open_blocks (store_block n D s) = <[n := D]> (open_blocks s) ∧ open_blocks s !! n = None.
Proof. intros E Hn. split; [by apply filter_insert_in|]. apply map_lookup_filter_None. by left. Qed.
Lemma store_truth n D s a : t_blocks s !! n = None → closed_through s ≤ n → ledger_address_truth (store_block n D s) !! a = ledger_address_truth s !! a ⊕ D !! a.
Proof.
  intros E Hn. rewrite !truth_lookup. destruct (open_store n D s E Hn) as [-> E']. rewrite vsum_lookup_insert by done. cbn [store_block t_ledger t_stage].
  rewrite (splus_comm (D !! a)). by rewrite splus_assoc.
Qed.
Lemma backfill_truth D s a : ledger_address_truth (backfill_batch D s) !! a = ledger_address_truth s !! a ⊕ D !! a.
Proof.
  rewrite !truth_lookup. change (open_blocks (backfill_batch D s)) with (open_blocks s). cbn [backfill_batch t_ledger t_stage]. rewrite lookup_oplus.
  rewrite splus_assoc, <-(splus_assoc _ (D !! a)), (splus_comm (D !! a)). by rewrite splus_assoc.
Qed.
Lemma revert_truth n D s a : t_blocks s !! n = Some D → closed_through s ≤ n → ledger_address_truth s !! a = ledger_address_truth (revert_block n D s) !! a ⊕ D !! a.
Proof.
  intros E Hn. rewrite !truth_lookup. cbn [revert_block t_ledger t_stage]. assert (open_blocks (revert_block n D s) = delete n (open_blocks s)) as -> by apply map_filter_delete.
  rewrite (vsum_lookup_delete (open_blocks s) n D a); [|by apply map_lookup_filter_Some]. rewrite (splus_comm (D !! a)). by rewrite splus_assoc.
Qed.

Section Wf.
Context (s : stats_db) (Hok : stats_ok s).

Lemma block_bound n D : t_blocks s !! n = Some D → t_from s ≤ n ∧ block_ok n D.
Proof. apply (so_blocks _ Hok). Qed.
Lemma fresh_span lo : closed_through s ≤ lo → t_spans s !! lo = None ∧ t_ledger s !! lo = None.
Proof.
  intros Hlo. assert (t_spans s !! lo = None) as E.
  { destruct (t_spans s !! lo) as [[hi b]|] eqn:E; [|done]. destruct (so_spans _ Hok lo hi b E). pose proof (span_closed s lo hi b E). lia. }
  split; [done|]. destruct (t_ledger s !! lo) as [L|] eqn:E'; [|done]. destruct (so_ledger _ Hok lo L E') as (hi & b & E'' & _). congruence.
Qed.

Lemma closed_close lo hi : closed_through s ≤ lo → lo < hi → closed_through (close_span lo hi s) = hi.
Proof. intros Hlo Hhi. destruct (fresh_span lo Hlo). unfold closed_through at 1. cbn [close_span t_spans]. rewrite closed_insert by done. unfold closed_through in *. lia. Qed.
Lemma close_truth lo hi : lo = closed_through s `max` t_from s → lo < hi → ledger_address_truth (close_span lo hi s) = ledger_address_truth s.
Proof.
  intros Hlo Hhi. destruct (fresh_span lo ltac:(lia)) as [_ E]. pose proof (closed_close lo hi ltac:(lia) Hhi) as Hc. unfold ledger_address_truth, open_blocks. rewrite Hc.
  cbn [close_span t_ledger t_stage t_blocks]. rewrite vsum_insert by done. set (ours := filter (λ nb, lo ≤ nb.1 < hi) (t_blocks s)). set (above := filter (λ nb, hi ≤ nb.1) (t_blocks s)).
  assert (filter (λ nb, closed_through s ≤ nb.1) (t_blocks s) = ours ⊕ above) as ->.
  { apply map_eq. intros n. rewrite lookup_plus. unfold ours, above. rewrite !map_lookup_filter. destruct (t_blocks s !! n) as [D|] eqn:En; cbn; [|done].
    destruct (block_bound n D En) as [? _]. repeat case_guard; cbn in *; try done; lia. }
  rewrite (vsum_plus ours above). rewrite (splus_comm (vsum ours)). rewrite !splus_assoc. f_equal. by rewrite <-!splus_assoc, (splus_comm (vsum ours)).
Qed.
Lemma closed_backfill lo hi : t_spans s !! lo = None → closed_through (backfill_close lo hi s) = hi `max` closed_through s.
Proof. intros E. unfold closed_through at 1. cbn [backfill_close t_spans]. by rewrite closed_insert. Qed.
Lemma backfill_close_truth lo hi : hi ≤ t_from s → t_spans s !! lo = None → t_ledger s !! lo = None → ledger_address_truth (backfill_close lo hi s) = ledger_address_truth s.
Proof.
  intros Hhi E E'. unfold ledger_address_truth, open_blocks. rewrite (closed_backfill lo hi E). cbn [backfill_close t_ledger t_stage t_blocks]. rewrite vsum_insert by done.
  rewrite plus_empty_r. rewrite (splus_comm (t_stage s)). f_equal. f_equal. apply map_filter_strong_ext. intros n D. cbn. split; intros [? En]; (split; [|done]); destruct (block_bound n D En); lia.
Qed.
Lemma prune_truth w : w ≤ closed_through s → ledger_address_truth (prune_rows w s) = ledger_address_truth s.
Proof.
  intros Hw. unfold ledger_address_truth, open_blocks. change (closed_through (prune_rows w s)) with (closed_through s). cbn [prune_rows t_ledger t_stage t_blocks]. f_equal. f_equal.
  rewrite map_filter_filter. apply map_filter_strong_ext. intros n D. cbn. intuition lia.
Qed.

(** What a closed block of the address is to the ledger. *)
Lemma ledger_ends a (P : Z → Prop) : (∀ n, n < closed_through s → saw a s n → P n) → ends P (vsum (t_ledger s) !! a).
Proof.
  intros HP. apply ends_vsum. intros lo L E. destruct (so_ledger _ Hok lo L E) as (hi & b & E' & H1 & _). eapply ends_impl, H1. intros n [? ?]. apply HP; [|done].
  pose proof (span_closed s lo hi b E'). lia.
Qed.
Lemma ledger_reaches a n D : t_blocks s !! n = Some D → is_Some (D !! a) → n < closed_through s → reaches n (vsum (t_ledger s) !! a).
Proof.
  intros E Ha Hn. destruct (so_covered _ Hok n D E Hn) as (lo & hi & b & E' & Hin). destruct (so_spans _ Hok lo hi b E') as [_ [L EL]].
  destruct (so_ledger _ Hok lo L EL) as (hi' & b' & E'' & _ & Hr). rewrite E' in E''. injection E'' as <- <-.
  eapply (reaches_vsum (λ _, True)); [|exact EL|by apply (Hr a n D)]. intros lo' L' EL'. destruct (so_ledger _ Hok lo' L' EL') as (? & ? & _ & H & _). by eapply ends_impl, H.
Qed.
Lemma open_ends a (P : Z → Prop) : (∀ n D, t_blocks s !! n = Some D → closed_through s ≤ n → is_Some (D !! a) → P n) → ends P (vsum (open_blocks s) !! a).
Proof.
  intros HP. apply ends_vsum. intros n D [E Hn]%map_lookup_filter_Some. cbn in Hn. intros q Hq. eapply (ends_block n D a P); [by apply block_bound| |done]. by apply (HP n D); [..|rewrite Hq].
Qed.
Lemma open_reaches a n D : t_blocks s !! n = Some D → is_Some (D !! a) → closed_through s ≤ n → reaches n (vsum (open_blocks s) !! a).
Proof.
  intros E Ha Hn. eapply (reaches_vsum (λ _, True)); [|by apply map_lookup_filter_Some|apply reaches_block; [by apply block_bound|done]].
  intros n' D' [E' _]%map_lookup_filter_Some. apply (ends_block n'); [by apply block_bound|done].
Qed.
End Wf.

(** ** A revert keeps an exact row exact *)

Lemma min_block_spec X : match min_block X with None => X = ∅ | Some m => m ∈ X ∧ ∀ x, x ∈ X → m ≤ x end.
Proof.
  unfold min_block. apply (set_fold_ind_L (λ m X, match m with None => X = ∅ | Some m => m ∈ X ∧ ∀ x, x ∈ X → m ≤ x end)); [done|].
  intros x Y [m|] Hx; [intros [Hm Hle]|intros ->]; cbn.
  - split; [destruct (Z.min_spec x m) as [[_ ->]|[_ ->]]; set_solver|]. intros y [->%elem_of_singleton|Hy]%elem_of_union; [lia|]. specialize (Hle y Hy). lia.
  - split; [set_solver|]. intros y [->%elem_of_singleton|Hy]%elem_of_union; [lia|set_solver].
Qed.
Lemma max_block_spec X : match max_block X with None => X = ∅ | Some m => m ∈ X ∧ ∀ x, x ∈ X → x ≤ m end.
Proof.
  unfold max_block. apply (set_fold_ind_L (λ m X, match m with None => X = ∅ | Some m => m ∈ X ∧ ∀ x, x ∈ X → x ≤ m end)); [done|].
  intros x Y [m|] Hx; [intros [Hm Hle]|intros ->]; cbn.
  - split; [destruct (Z.max_spec x m) as [[_ ->]|[_ ->]]; set_solver|]. intros y [->%elem_of_singleton|Hy]%elem_of_union; [lia|]. specialize (Hle y Hy). lia.
  - split; [set_solver|]. intros y [->%elem_of_singleton|Hy]%elem_of_union; [lia|set_solver].
Qed.

Lemma vsum_lookup_None (m : gmap Z (gmap gostring stat)) (a : gostring) : (∀ n D, m !! n = Some D → D !! a = None) → vsum m !! a = None.
Proof.
  induction m as [|n D m Hn IH] using map_ind; intros H; [by rewrite vsum_empty|]. rewrite vsum_lookup_insert by done. apply oplus_None. split; [apply (H n), lookup_insert_eq|].
  apply IH. intros n' D' E. apply (H n'). rewrite lookup_insert_ne; [done|congruence].
Qed.
Lemma last_plus (o o' : option stat) : (o ⊕ o') ≫= a_last = GREATEST (o ≫= a_last) (o' ≫= a_last).
Proof. destruct o as [q|], o' as [q'|]; cbn; try done; [|by destruct (a_last q')]. by destruct (a_last q). Qed.

Section Revert.
Context (s : stats_db) (Hok : stats_ok s) (a : gostring).

Lemma newest_last : newest_span a s ≫= a_last = vsum (t_ledger s) !! a ≫= a_last.
Proof.
  unfold newest_span. set (X := dom _). pose proof (max_block_spec X) as HX. destruct (max_block X) as [lo|]; cbn.
  - destruct HX as [(L & EL)%elem_of_dom Hmax]. apply map_lookup_filter_Some in EL as [EL [δ Eδ]]. cbn in Eδ. rewrite EL. cbn. rewrite Eδ. cbn.
    destruct (so_ledger s Hok lo L EL) as (hi & b & Esp & He & _). destruct (He a δ Eδ) as (_ & _ & _ & _ & f & l & _ & El & _ & [? _]).
    rewrite (vsum_lookup_delete _ lo L a EL), last_plus, Eδ. cbn [mbind option_bind]. rewrite El.
    assert (ends (λ n, n < lo) (vsum (delete lo (t_ledger s)) !! a)) as Hr.
    { apply ends_vsum. intros lo' L' [Hne EL']%lookup_delete_Some. intros q Hq. destruct (so_ledger s Hok lo' L' EL') as (hi' & b' & Esp' & He' & _).
      assert (lo' ∈ X) as Hin by (apply elem_of_dom; exists L'; apply map_lookup_filter_Some; split; [done|cbn; by rewrite Hq]). specialize (Hmax lo' Hin).
      pose proof (so_apart s Hok _ _ _ _ _ _ Esp' Esp ltac:(lia)). eapply (ends_impl _ (λ n, n < lo)); [|exact (He' a)|exact Hq]. cbn. intros n [? _]. lia. }
    destruct (vsum (delete lo (t_ledger s)) !! a) as [q|]; [|done]. destruct (Hr q eq_refl) as (_ & _ & _ & _ & f' & l' & _ & El' & _ & ?). cbn. rewrite El'. cbn. f_equal. lia.
  - rewrite vsum_lookup_None; [done|]. intros lo L EL. destruct (L !! a) eqn:Ea; [|done]. assert (lo ∈ X) as Hin; [|set_solver].
    apply elem_of_dom. exists L. apply map_lookup_filter_Some. split; [done|cbn; by rewrite Ea].
Qed.

Context (n : Z) (D : gmap gostring stat) (En : t_blocks s !! n = Some D) (Hn : closed_through s ≤ n).
Notation seen := (stored_elsewhere a n s).
Notation rest := (ledger_address_truth (revert_block n D s) !! a).

Lemma elem_of_elsewhere m : m ∈ seen ↔ m ≠ n ∧ ∃ D', t_blocks s !! m = Some D' ∧ is_Some (D' !! a).
Proof. unfold stored_elsewhere. rewrite elem_of_dom. unfold is_Some at 1. setoid_rewrite map_lookup_filter_Some. naive_solver. Qed.
Lemma rest_parts : rest = (vsum (t_ledger s) !! a ⊕ t_stage s !! a) ⊕ vsum (delete n (open_blocks s)) !! a.
Proof. rewrite truth_lookup. cbn [revert_block t_ledger t_stage]. by assert (open_blocks (revert_block n D s) = delete n (open_blocks s)) as -> by apply map_filter_delete. Qed.
Lemma closed_part_ends : ends (λ m, (m ∈ seen ∨ m < t_from s) ∧ m < n) (vsum (t_ledger s) !! a ⊕ t_stage s !! a).
Proof.
  destruct (block_bound s Hok n D En). apply ends_plus.
  - apply ledger_ends; [done|]. intros m Hm Hs. split; [|lia]. destruct (decide (m < t_from s)) as [|Hf]; [by right|]. left. apply elem_of_elsewhere. split; [lia|].
    destruct (Hs ltac:(lia)) as [δ Eδ]. destruct (t_blocks s !! m) as [D'|] eqn:E'; [|done]. exists D'. split; [done|]. cbn in Eδ. by rewrite Eδ.
  - eapply ends_impl, (so_stage s Hok). cbn. intros m ?. split; [by right|lia].
Qed.
Lemma rest_ends : ends (λ m, m ∈ seen ∨ m < t_from s) rest.
Proof.
  rewrite rest_parts. apply ends_plus; [eapply ends_impl, closed_part_ends; by intros m [? _]|]. apply ends_vsum. intros m D' [Hne [E' _]%map_lookup_filter_Some]%lookup_delete_Some.
  intros q Hq. eapply (ends_block m D' a); [by apply (block_bound s Hok)| |done]. left. apply elem_of_elsewhere. split; [done|]. exists D'. split; [done|by rewrite Hq].
Qed.
Lemma rest_reaches m : m ∈ seen → reaches m rest.
Proof.
  intros (Hne & D' & E' & Ha)%elem_of_elsewhere. rewrite rest_parts. assert (∀ m' D'', delete n (open_blocks s) !! m' = Some D'' → ends (λ _, True) (D'' !! a)) as Hd.
  { intros m' D'' [_ [E'' _]%map_lookup_filter_Some]%lookup_delete_Some. apply (ends_block m'); [by apply (block_bound s Hok)|done]. }
  destruct (decide (closed_through s ≤ m)).
  - rewrite splus_comm. eapply reaches_plus; [apply closed_part_ends|]. eapply (reaches_vsum (λ _, True) _ a m m D' Hd); [|apply reaches_block; [by apply (block_bound s Hok)|done]].
    rewrite lookup_delete_ne by done. apply map_lookup_filter_Some. done.
  - eapply reaches_plus; [by apply ends_vsum|]. eapply reaches_plus; [apply (so_stage s Hok)|]. eapply ledger_reaches; [done..|lia].
Qed.
Lemma rest_unseen : seen = ∅ → rest = vsum (t_ledger s) !! a ⊕ t_stage s !! a.
Proof.
  intros Hs. rewrite rest_parts, (vsum_lookup_None (delete n (open_blocks s))); [by rewrite oplus_None_r|]. intros m D' [Hne [E' _]%map_lookup_filter_Some]%lookup_delete_Some.
  destruct (D' !! a) eqn:Ea; [|done]. assert (m ∈ seen) as Hin; [|set_solver]. apply elem_of_elsewhere. split; [done|]. exists D'. by rewrite Ea.
Qed.
Lemma lower_plus x y : 0 ≤ x → lower (x + y) y = x.
Proof. unfold lower. lia. Qed.

Lemma revert_row_unseen δ r : seen = ∅ → a_first δ = Some n → a_last δ = Some n → rest ⊕ Some δ = Some r → revert_row a n δ s r = rest.
Proof.
  intros Hs Ef El Hr. unfold revert_row. rewrite bool_decide_eq_true_2 by done. rewrite decide_True by done. pose proof (rest_unseen Hs) as E. pose proof closed_part_ends as He. rewrite <-E in He.
  assert (ledger_last a s = rest ≫= a_last) as -> by (by rewrite E, last_plus, <-newest_last). clear E.
  destruct rest as [q|]; cbn in Hr; injection Hr as <-; [|rewrite Ef; cbn; by rewrite Z.ltb_irrefl].
  destruct (He q eq_refl) as (? & ? & ? & ? & f & l & Ef' & El' & [_ ?] & [_ ?]). cbn [a_first a_last add_stat a_txs a_sent a_internal a_transfers]. rewrite Ef, El, Ef', El'. cbn [LEAST GREATEST union_with option_union_with].
  replace (f `min` n) with f by lia. replace (l `max` n) with n by lia. cbn [at_or_after andb]. destruct (Z.ltb_spec f n); [|lia]. cbn [negb andb]. destruct (Z.leb_spec n f); [lia|]. rewrite Z.leb_refl. cbn [mbind option_bind].
  rewrite El', !lower_plus by done. destruct q. cbn in *. by subst.
Qed.
Lemma revert_row_seen δ r : seen ≠ ∅ → a_first δ = Some n → a_last δ = Some n → rest ⊕ Some δ = Some r → revert_row a n δ s r = rest.
Proof.
  intros Hs Ef El Hr. unfold revert_row. rewrite bool_decide_eq_false_2, decide_False by done. cbn [andb]. destruct (block_bound s Hok n D En) as [Hfrom _].
  pose proof (min_block_spec seen) as Hmin. pose proof (max_block_spec seen) as Hmax. destruct (min_block seen) as [m|]; [|done]. destruct (max_block seen) as [M|]; [|done].
  destruct Hmin as [Hm Hmin], Hmax as [HM Hmax]. assert (t_from s ≤ M) as HMf. { apply elem_of_elsewhere in HM as (_ & D' & E' & _). by apply (block_bound s Hok M D'). }
  destruct (rest_reaches m Hm) as (q & f & l & Eq & Ef' & El' & ?). destruct (rest_reaches M HM) as (q' & f'' & l'' & Eq' & _ & El'' & ?). rewrite Eq in Eq'. injection Eq' as <-. rewrite El' in El''. injection El'' as <-.
  destruct (rest_ends q Eq) as (? & ? & ? & ? & f1 & l1 & E1 & E2 & Pf & Pl). rewrite Ef' in E1. injection E1 as <-. rewrite El' in E2. injection E2 as <-. rewrite Eq in Hr |- *.
  cbn in Hr. injection Hr as <-. cbn [a_first a_last add_stat a_txs a_sent a_internal a_transfers]. rewrite Ef, El, Ef', El'. cbn [LEAST GREATEST union_with option_union_with].
  assert (l = M) as -> by (destruct Pl as [Hl|?]; [specialize (Hmax l Hl)|]; lia). rewrite !lower_plus by done.
  cbn [at_or_after]. destruct (Z.leb_spec n (M `max` n)); [|lia]. destruct (Z.leb_spec n (f `min` n)).
  - assert (f = m) as -> by (destruct Pf as [Hf|?]; [specialize (Hmin f Hf)|]; lia). destruct q. cbn in *. by subst.
  - replace (f `min` n) with f by lia. destruct q. cbn in *. by subst.
Qed.

Lemma revert_exact_row : exact a s → exact a (revert_block n D s).
Proof.
  unfold exact. intros Hex. rewrite (revert_truth n D s a En Hn) in Hex. cbn [revert_block t_rows]. unfold revert_stats. rewrite map_lookup_imap, Hex.
  destruct (D !! a) as [δ|] eqn:Ea; [|rewrite oplus_None_r; by destruct rest]. destruct (block_bound s Hok n D En) as [_ Hb]. destruct (Hb a δ Ea) as (Ef & El & _).
  destruct (rest ⊕ Some δ) as [r|] eqn:Hr; [|by apply oplus_None in Hr as [_ ?]]. cbn. destruct (decide (seen = ∅)); [by apply revert_row_unseen|by apply revert_row_seen].
Qed.
End Revert.

(** ** The steps keep the tables well-formed *)

Lemma span_counts_mono lo hi L s s' : (∀ m, lo ≤ m < hi → t_blocks s' !! m = t_blocks s !! m ∨ m < t_from s' ∧ t_blocks s' !! m = None) → t_from s ≤ t_from s' →
  span_counts lo hi L s → span_counts lo hi L s'.
Proof.
  intros Hb Hf [H1 H2]. split.
  - intros a. eapply ends_impl, H1. intros m [Hm Hs]. split; [done|]. intros Hf'. destruct (Hb m Hm) as [->|[? _]]; [apply Hs; lia|lia].
  - intros a m D Hm E. destruct (Hb m Hm) as [Eb|[_ Eb]]; rewrite Eb in E; [by apply H2|done].
Qed.
Lemma store_ok n D s : stats_ok s → t_blocks s !! n = None → closed_through s ≤ n → t_from s ≤ n → block_ok n D → stats_ok (store_block n D s).
Proof.
  intros Hok E Hn Hf HD. pose proof Hok as [H1 H2 H3 H4 H5 H6 H7]. split; try done; cbn [store_block t_blocks t_from t_ledger t_spans t_stage].
  - intros m D' [[<- <-]|[_ E']]%lookup_insert_Some; [done|by apply H1].
  - intros lo L EL. destruct (H2 lo L EL) as (hi & b & Es & Hc). exists hi, b. split; [done|]. eapply span_counts_mono, Hc; [|done]. intros m Hm. left. cbn.
    pose proof (span_closed s lo hi b Es). rewrite lookup_insert_ne by lia. done.
  - change (closed_through (store_block n D s)) with (closed_through s). intros m D' [[<- <-]|[_ E']]%lookup_insert_Some ?; [lia|by apply (H5 m D')].
Qed.
Lemma backfill_ok D s : stats_ok s → (∀ a, ends (λ n, n < t_from s) (D !! a)) → stats_ok (backfill_batch D s).
Proof. intros [H1 H2 H3 H4 H5 H6 H7] HD. split; try done. cbn [backfill_batch t_stage t_from]. intros a. rewrite lookup_oplus. by apply ends_plus. Qed.

(** A span is added. *)
Lemma add_span_ok lo hi L s s' : stats_ok s → t_blocks s' = t_blocks s → t_from s' = t_from s → t_reverted s' = t_reverted s → t_xid s' = t_xid s →
  t_ledger s' = <[lo := L]> (t_ledger s) → t_spans s' = <[lo := (hi, false)]> (t_spans s) →
  lo < hi → (∀ lo' hi' b, t_spans s !! lo' = Some (hi', b) → hi' ≤ lo ∨ hi ≤ lo') → span_counts lo hi L s →
  (∀ n D, t_blocks s !! n = Some D → n < closed_through s' → n < closed_through s ∨ lo ≤ n < hi) → (∀ a, ends (λ n, n < t_from s) (t_stage s' !! a)) → stats_ok s'.
Proof.
  intros Hok Eb Ef Er Ex El Es Hlt Hap Hsc Hcov Hst. pose proof Hok as [H1 H2 H3 H4 H5 H6 H7]. split; rewrite ?Eb, ?Ef, ?Er, ?Ex, ?El, ?Es; try done.
  - intros lo' L' [[<- <-]|[Hne E]]%lookup_insert_Some.
    + exists hi, false. rewrite lookup_insert_eq. split; [done|]. eapply span_counts_mono, Hsc; [|lia]. intros m _. left. by rewrite Eb.
    + destruct (H2 lo' L' E) as (hi' & b & E' & Hc). exists hi', b. rewrite lookup_insert_ne by done. split; [done|]. eapply span_counts_mono, Hc; [|lia]. intros m _. left. by rewrite Eb.
  - intros lo' hi' b [[<- [= <- <-]]|[Hne E]]%lookup_insert_Some; [rewrite lookup_insert_eq; split; [lia|done]|]. rewrite lookup_insert_ne by done. by apply (H3 _ _ b).
  - intros lo1 hi1 b1 lo2 hi2 b2 [[<- [= <- <-]]|[Hne1 E1]]%lookup_insert_Some [[<- [= <- <-]]|[Hne2 E2]]%lookup_insert_Some Hl; [lia| | |by apply (H4 lo1 hi1 b1 lo2 hi2 b2)].
    + destruct (Hap lo2 hi2 b2 E2); [|lia]. destruct (H3 _ _ _ E2). lia.
    + destruct (Hap lo1 hi1 b1 E1); lia.
  - intros n D E Hn. destruct (Hcov n D E Hn) as [Hn'|?]; [|exists lo, hi, false; rewrite lookup_insert_eq; done].
    destruct (H5 n D E Hn') as (lo' & hi' & b & E' & ?). exists lo', hi', b. split; [|done]. rewrite lookup_insert_ne; [done|]. intros <-.
    destruct (Hap lo hi' b E'); [lia|]. lia.
Qed.
Lemma backfill_close_ok lo hi s : stats_ok s → lo < hi ≤ t_from s → t_spans s !! lo = None → (∀ lo' hi' b, t_spans s !! lo' = Some (hi', b) → hi' ≤ lo ∨ hi ≤ lo') →
  (∀ a, ends (λ n, lo ≤ n < hi) (t_stage s !! a)) → stats_ok (backfill_close lo hi s).
Proof.
  intros Hok Hhi E Hap Hst. eapply (add_span_ok lo hi (t_stage s)); try done; [lia| |].
  - split; [intros a; eapply ends_impl, Hst; cbn; intros m Hm; split; [done|]; intros ?; lia|]. intros a m D Hm Em. destruct (so_blocks s Hok m D Em). lia.
  - intros m D Em. rewrite closed_backfill by done. destruct (so_blocks s Hok m D Em). lia.
Qed.
Lemma close_ok lo hi s : stats_ok s → lo = closed_through s `max` t_from s → lo < hi → stats_ok (close_span lo hi s).
Proof.
  intros Hok Hlo Hhi. eapply (add_span_ok lo hi (vsum (filter (λ nb, lo ≤ nb.1 < hi) (t_blocks s)))); try done.
  - intros lo' hi' b E. pose proof (span_closed s lo' hi' b E). lia.
  - split.
    + intros a. apply ends_vsum. intros m D [E Hm]%map_lookup_filter_Some. cbn in Hm. intros q Hq. eapply (ends_block m D a); [by apply (so_blocks s Hok)| |done]. split; [done|]. intros _. rewrite E. cbn. by rewrite Hq.
    + intros a m D Hm E Ha. eapply (reaches_vsum (λ _, True)); [|by apply map_lookup_filter_Some|apply reaches_block; [by apply (so_blocks s Hok)|done]].
      intros m' D' [E' _]%map_lookup_filter_Some. apply (ends_block m'); [by apply (so_blocks s Hok)|done].
  - intros m D E. rewrite (closed_close s Hok lo hi) by lia. destruct (so_blocks s Hok m D E). lia.
  - apply (so_stage s Hok).
Qed.
Lemma prune_ok w s : stats_ok s → t_from s ≤ w ≤ closed_through s → stats_ok (prune_rows w s).
Proof.
  intros Hok Hw. pose proof Hok as [H1 H2 H3 H4 H5 H6 H7]. split; try done; cbn [prune_rows t_blocks t_from t_ledger t_spans t_stage].
  - intros m D [E Hm]%map_lookup_filter_Some. split; [done|by apply (H1 m)].
  - intros lo L EL. destruct (H2 lo L EL) as (hi & b & Es & Hc). exists hi, b. split; [done|]. eapply span_counts_mono, Hc; [|cbn; lia]. intros m Hm. cbn. rewrite map_lookup_filter.
    destruct (t_blocks s !! m) as [D|] eqn:E; cbn; [|by left]. case_guard; cbn in *; [by left|right; split; [lia|done]].
  - intros m D [E Hm]%map_lookup_filter_Some ?. by apply (H5 m D).
  - intros a. eapply ends_impl, H6. cbn. intros m. lia.
Qed.
Lemma revert_ok n D s : stats_ok s → t_blocks s !! n = Some D → closed_through s ≤ n → stats_ok (revert_block n D s).
Proof.
  intros Hok E Hn. pose proof Hok as [H1 H2 H3 H4 H5 H6 H7]. split; try done; cbn [revert_block t_blocks t_from t_ledger t_spans t_stage t_reverted t_xid].
  - intros m D' [_ E']%lookup_delete_Some. by apply H1.
  - intros lo L EL. destruct (H2 lo L EL) as (hi & b & Es & Hc). exists hi, b. split; [done|]. eapply span_counts_mono, Hc; [|done]. intros m Hm. left. cbn.
    pose proof (span_closed s lo hi b Es). rewrite lookup_delete_ne by lia. done.
  - change (closed_through (revert_block n D s)) with (closed_through s). intros m D' [_ E']%lookup_delete_Some ?. by apply (H5 m D').
  - intros a v. unfold record_reverted. rewrite lookup_union_Some_raw, lookup_gset_to_gmap_Some. intros [[_ <-]|[_ Hv]]; [lia|]. specialize (H7 a v Hv). lia.
Qed.
Lemma settle_ok lo hi b L s : stats_ok s → t_spans s !! lo = Some (hi, b) → span_counts lo hi L s → stats_ok (settle_moves lo L s).
Proof.
  intros Hok E HL. pose proof Hok as [H1 H2 H3 H4 H5 H6 H7]. split; try done; cbn [settle_moves t_blocks t_from t_ledger t_spans t_stage t_reverted t_xid].
  - intros lo' L' [[<- <-]|[_ E']]%lookup_insert_Some; [by exists hi, b|by apply H2].
  - intros lo' hi' b' E'. split; [by apply (H3 lo' hi' b')|]. destruct (decide (lo' = lo)) as [->|]; [by rewrite lookup_insert_eq|]. rewrite lookup_insert_ne by done. by apply (H3 lo' hi' b').
  - intros a v. unfold record_reverted. rewrite lookup_union_Some_raw, lookup_gset_to_gmap_Some. intros [[_ <-]|[_ Hv]]; [lia|]. specialize (H7 a v Hv). lia.
Qed.

Lemma stats_step_ok s X b s' : stats_step s X b s' → stats_ok s → stats_ok s'.
Proof.
  intros Hs Hok. destruct Hs; [by apply store_ok|by apply backfill_ok|by apply backfill_close_ok|by apply close_ok|by apply prune_ok|by apply revert_ok].
Qed.

(** ** Exact rows stay exact, and the rows stay counted *)

Lemma stats_step_exact s X b s' a : stats_step s X b s' → stats_ok s → exact a s → exact a s'.
Proof.
  intros Hs Hok Hex. unfold exact in *. destruct Hs as [n D|D|lo hi|lo hi|w|n D].
  - rewrite store_truth by done. cbn [store_block t_rows]. by rewrite lookup_oplus, Hex.
  - rewrite backfill_truth. cbn [backfill_batch t_rows]. by rewrite lookup_oplus, Hex.
  - rewrite backfill_close_truth by (done || lia). done.
  - rewrite close_truth by done. done.
  - rewrite prune_truth by (done || lia). done.
  - by apply revert_exact_row.
Qed.

Definition counted_rows (s : stats_db) : Prop := t_total s = Z.of_nat (size (t_rows s)).
Lemma revert_rows_fewer n D s : (size (revert_stats n D s) ≤ size (t_rows s))%nat.
Proof.
  rewrite <-!(size_dom (D := gset gostring)). apply subseteq_size. intros a [r Hr]%elem_of_dom. unfold revert_stats in Hr. rewrite map_lookup_imap in Hr.
  apply elem_of_dom. destruct (t_rows s !! a); [done|done].
Qed.
Lemma step_counted s X b s' : stats_step s X b s' → counted_rows s → counted_rows s'.
Proof.
  unfold counted_rows. intros Hs Hc. destruct Hs; try done; cbn [store_block backfill_batch revert_block t_total t_rows].
  1-2: unfold count_rows; lia. pose proof (revert_rows_fewer n D s). unfold lower. lia.
Qed.
