(* ===== verification/AddressRebase.v ===== *)
(** * Rebasing address counters on the ledger

    [internal/db/address_rebase.go]: setting the rows of [address_stats] to their truth
    without holding them while it is counted, the repair of a bucket
    ([address_repair.go]) and the rebase of the closed spans. A batch is one transaction:
    it reads rows and truth in one snapshot, then takes the rows, looks which a revert
    changed since, and adds its corrections to what ingest has made of the rows
    meanwhile. *)

From S2P Require Import Prelude Tally Session Balances AddressTruth.

(** ** The state of a rebase *)

(** What a transaction has not committed: the rows it holds, with their new value
    ([None]: deleted), what it adds to [addresses_total] and to [address_days_recount],
    and the entries of [ledger_reverted_address] it deletes. *)
Record rebase_tx := mkRebaseTx { x_rows : gmap gostring (option stat); x_total : Z; x_days : Z; x_seen : gmap gostring Z }.
Definition no_tx : rebase_tx := mkRebaseTx ∅ 0 0 ∅.

(** [r_held]: the rebase lock; [r_revlock]: the revert lock; [r_astray]: the addresses
    whose truth a settlement of the ledger moved, or whose row a revert removed although
    it still has a truth. *)
Record rebase_sys := mkRebase { r_db : stats_db; r_held : bool; r_revlock : bool; r_tx : rebase_tx; r_astray : gset gostring }.
Definition set_tx (t : rebase_tx) (y : rebase_sys) : rebase_sys := mkRebase (r_db y) (r_held y) (r_revlock y) t (r_astray y).
Definition set_row (a : gostring) (b : option stat) (y : rebase_sys) : rebase_sys :=
  set_tx (mkRebaseTx (<[a := b]> (x_rows (r_tx y))) (x_total (r_tx y)) (x_days (r_tx y)) (x_seen (r_tx y))) y.
Definition hold (h : bool) (y : rebase_sys) : rebase_sys := mkRebase (r_db y) h (r_revlock y) (r_tx y) (r_astray y).
Definition take_revlock (y : rebase_sys) : rebase_sys := mkRebase (r_db y) (r_held y) true (r_tx y) (r_astray y).
(** A row as the transaction sees it. *)
Definition row_of (a : gostring) (y : rebase_sys) : option stat := match x_rows (r_tx y) !! a with Some b => b | None => t_rows (r_db y) !! a end.

Definition apply_rows (held : gmap gostring (option stat)) (rows : gmap gostring stat) : gmap gostring stat :=
  merge (λ b r, match b with Some b => b | None => r end) held rows.
Definition commit_tx (y : rebase_sys) : stats_db :=
  let s := r_db y in let t := r_tx y in
  mkStats (apply_rows (x_rows t) (t_rows s)) (t_blocks s) (t_from s) (t_ledger s) (t_spans s) (t_stage s)
    (filter (λ av, x_seen t !! av.1 ≠ Some av.2) (t_reverted s)) (t_xid s) (t_total s + x_total t) (t_days s + x_days t).

(** ** Rows read *)

Record RebaseResult := mkResult { Changed : Z; Created : Z; Removed : Z; FirstSeenFrom : option Z }.
Definition no_result : RebaseResult := mkResult 0 0 0 None.
Definition add_result (r o : RebaseResult) : RebaseResult :=
  mkResult (Changed r + Changed o) (Created r + Created o) (Removed r + Removed o) (LEAST (FirstSeenFrom r) (FirstSeenFrom o)).

Definition no_stat : stat := mkStat 0 0 0 0 None None.
(** [v_row], [v_want]: zeros and NULLs for an address without a row, or without a truth. *)
Record rebaseRow := mkRebaseRow { v_address : gostring; v_creatable : bool; v_present : bool; v_seen : bool; v_row : stat; v_want : stat; v_reverted : option Z }.

Definition sameBlock (a b : option Z) : bool := bool_decide (a = b).
Definition differs (v : rebaseRow) : bool :=
  negb ((a_txs (v_row v) =? a_txs (v_want v)) && (a_sent (v_row v) =? a_sent (v_want v)) && (a_internal (v_row v) =? a_internal (v_want v)) &&
        (a_transfers (v_row v) =? a_transfers (v_want v)) && sameBlock (a_first (v_row v)) (a_first (v_want v)) && sameBlock (a_last (v_row v)) (a_last (v_want v))).
Definition creates (v : rebaseRow) : bool := negb (v_present v) && v_seen v && v_creatable v && differs v.

Definition read_row (creatable : bool) (s : stats_db) (a : gostring) : rebaseRow :=
  mkRebaseRow a creatable (bool_decide (is_Some (t_rows s !! a))) (bool_decide (is_Some (ledger_address_truth s !! a)))
    (default no_stat (t_rows s !! a)) (default no_stat (ledger_address_truth s !! a)) (t_reverted s !! a).

(** By address, in byte order. *)
Definition byte_le (v w : rebaseRow) : Prop := str_lt (v_address w) (v_address v) = false.
#[export] Instance byte_le_dec : RelDecision byte_le.
Proof. intros v w. unfold byte_le. apply _. Defined.

Definition rebaseBatch : nat := 1000.
Fixpoint batches {A} (fuel : nat) (l : list A) : list (list A) :=
  match fuel, l with
  | S fuel, _ :: _ => take rebaseBatch l :: batches fuel (drop rebaseBatch l)
  | _, _ => []
  end.

(** [UPDATE address_stats ...] of a present row, given the truth the statement counts. *)
Definition corrected (v : rebaseRow) (truth : option stat) (r : stat) : stat :=
  mkStat (a_txs r + (a_txs (v_want v) - a_txs (v_row v))) (a_sent r + (a_sent (v_want v) - a_sent (v_row v)))
    (a_internal r + (a_internal (v_want v) - a_internal (v_row v))) (a_transfers r + (a_transfers (v_want v) - a_transfers (v_row v)))
    (if decide (a_first r ≠ a_first (v_row v)) then LEAST (a_first r) (a_first (v_want v))
     else if decide (a_first (v_want v) = a_first (v_row v)) then a_first r else truth ≫= a_first)
    (if decide (a_last r ≠ a_last (v_row v)) then GREATEST (a_last r) (a_last (v_want v))
     else if decide (a_last (v_want v) = a_last (v_row v)) then a_last r else truth ≫= a_last).
(** The earlier of the old and the new first block, if it moved. *)
Definition moved_first (v : rebaseRow) : option Z :=
  if sameBlock (a_first (v_row v)) (a_first (v_want v)) then None else LEAST (a_first (v_row v)) (a_first (v_want v)).

Section Rebase.
Context (env : nat → rebase_sys → rebase_sys) (out : nat → stmt_end).
Notation "'let!' x := m 'in' k" := (bind m (λ x, k)) (at level 10, x pattern, m at level 100, k at level 200).
Notation M := (M rebase_sys).
Notation exec f := (stmt env out f).
(** A statement on tables that are not modelled. *)
Definition elsewhere : M unit := exec (λ y, (y, Some tt)).

(** *** Taking the rows *)

Definition lock_row (a : gostring) : M unit :=
  exec (λ y, (match row_of a y with Some r => set_row a (Some r) y | None => y end, Some tt)).
(** [INSERT ... ON CONFLICT (address) DO UPDATE SET address = s.address]: whether the row
    is new. *)
Definition insert_empty (a : gostring) : M bool :=
  exec (λ y, match row_of a y with Some r => (set_row a (Some r) y, Some false) | None => (set_row a (Some no_stat) y, Some true) end).

Fixpoint lockBatchRows (read : list rebaseRow) (inserted : gset gostring) : M (gset gostring) :=
  match read with
  | [] => ret inserted
  | v :: read =>
      if v_present v then let! _ := lock_row (v_address v) in lockBatchRows read inserted
      else if creates v then
        let! fresh := insert_empty (v_address v) in lockBatchRows read (if fresh : bool then {[ v_address v ]} ∪ inserted else inserted)
      else lockBatchRows read inserted
  end.

(** The version of an entry the read did not see. *)
Definition newer_version (versions : gmap gostring Z) (v : rebaseRow) : Prop :=
  match versions !! v_address v with Some ver => v_reverted v ≠ Some ver | None => False end.
#[export] Instance newer_version_dec versions v : Decision (newer_version versions v).
Proof. unfold newer_version. destruct (versions !! v_address v); apply _. Defined.

(** The addresses a revert has recorded since the read, and those inserted. *)
Definition revertedSinceRead (read : list rebaseRow) : M (gset gostring * gset gostring) :=
  let! _ := if existsb creates read then exec (λ y, (take_revlock y, Some tt)) else ret tt in
  let! inserted := lockBatchRows read ∅ in
  let! versions := exec (λ y, (y, Some (t_reverted (r_db y)))) in
  ret (list_to_set (v_address <$> filter (newer_version versions) read), inserted).

(** *** Writing them *)

(** [rebaseRecount]: the row becomes the truth, counted now, or is removed. *)
Definition rebaseRecount (a : gostring) : M bool :=
  exec (λ y, match ledger_address_truth (r_db y) !! a, row_of a y with
             | Some t, Some _ => (set_row a (Some t) y, Some false)
             | None, Some _ => (set_row a None y, Some true)
             | _, None => (y, Some false)
             end).
Definition correct (v : rebaseRow) : M unit :=
  exec (λ y, (match row_of (v_address v) y with
              | Some r => set_row (v_address v) (Some (corrected v (ledger_address_truth (r_db y) !! v_address v) r)) y
              | None => y end, Some tt)).
Definition create (v : rebaseRow) : M bool :=
  exec (λ y, match row_of (v_address v) y with
             | Some r => (set_row (v_address v) (Some (add_stat r (v_want v))) y, Some false)
             | None => (set_row (v_address v) (Some (v_want v)) y, Some true)
             end).

Definition b2z (b : bool) : Z := if b then 1 else 0.
Definition write_row (stale inserted : gset gostring) (v : rebaseRow) : M RebaseResult :=
  let a := v_address v in
  let is_stale := bool_decide (a ∈ stale) in
  if v_present v && (negb (v_seen v) || is_stale) then
    let! _ := lock_row a in
    let! gone := rebaseRecount a in
    ret (mkResult (b2z (negb gone)) 0 (b2z gone) (a_first (v_row v)))
  else if v_present v && differs v then
    let! _ := if sameBlock (a_first (v_row v)) (a_first (v_want v)) && sameBlock (a_last (v_row v)) (a_last (v_want v)) then ret tt else lock_row a in
    let! _ := correct v in
    ret (mkResult 1 0 0 (moved_first v))
  else if creates v && is_stale then
    let! gone := rebaseRecount a in
    ret (if bool_decide (a ∈ inserted) then mkResult (b2z (negb gone)) (b2z (negb gone)) 0 (a_first (v_want v))
         else mkResult (b2z (negb gone)) 0 (b2z gone) (a_first (v_want v)))
  else if creates v then
    let! fresh := create v in
    ret (mkResult 1 (b2z (bool_decide (a ∈ inserted)) + b2z fresh) 0 (moved_first v))
  else ret no_result.

Fixpoint write_rows (stale inserted : gset gostring) (read : list rebaseRow) (r : RebaseResult) : M RebaseResult :=
  match read with
  | [] => ret r
  | v :: read => let! o := write_row stale inserted v in write_rows stale inserted read (add_result r o)
  end.

Definition add_total (n : Z) (y : rebase_sys) : rebase_sys :=
  set_tx (mkRebaseTx (x_rows (r_tx y)) (x_total (r_tx y) + n) (x_days (r_tx y)) (x_seen (r_tx y))) y.
Definition add_days (y : rebase_sys) : rebase_sys :=
  set_tx (mkRebaseTx (x_rows (r_tx y)) (x_total (r_tx y)) (x_days (r_tx y) + 1) (x_seen (r_tx y))) y.
(** The entries the read saw, by version: one written since is another. *)
Definition delete_seen (read : list rebaseRow) (y : rebase_sys) : rebase_sys :=
  set_tx (mkRebaseTx (x_rows (r_tx y)) (x_total (r_tx y)) (x_days (r_tx y))
    (list_to_map (omap (λ v, (λ ver, (v_address v, ver)) <$> v_reverted v) read))) y.

Definition applyRebaseRows (read : list rebaseRow) (after : M unit) : M RebaseResult :=
  let read := merge_sort byte_le read in
  let! (stale, inserted) := revertedSinceRead read in
  let! r := write_rows stale inserted read no_result in
  let! _ := if decide (Created r = Removed r) then ret tt else exec (λ y, (add_total (Created r - Removed r) y, Some tt)) in
  let! _ := if decide (FirstSeenFrom r = None) then ret tt else exec (λ y, (add_days y, Some tt)) in
  let! _ := if existsb (λ v, bool_decide (is_Some (v_reverted v))) read then exec (λ y, (delete_seen read y, Some tt)) else ret tt in
  let! _ := after in
  ret r.

(** *** Transactions *)

(** A transaction that commits, or leaves nothing behind; [session]: the rebase lock is the
    session's and outlives it. *)
Definition rollback (session : bool) : M unit := mem env (λ y, (mkRebase (r_db y) (r_held y && session) false no_tx (r_astray y), tt)).
Definition commit (session : bool) : M unit := exec (λ y, (mkRebase (commit_tx y) (r_held y && session) false no_tx (r_astray y), Some tt)).
Definition in_tx {A} (session : bool) (m : M A) : M A := on_error (let! r := m in let! _ := commit session in ret r) (rollback session).
Definition rebase_lock : M unit := exec (λ y, (hold true y, Some tt)).

Definition rebaseAddressBatchLocked (batch : list gostring) (create : gset gostring) (inBatch : M unit) : M RebaseResult :=
  let! read := exec (λ y, (y, Some ((λ a, read_row (bool_decide (a ∈ create)) (r_db y) a) <$> batch))) in
  applyRebaseRows read inBatch.
Definition rebaseAddressBatch (batch : list gostring) (create : gset gostring) (inBatch : M unit) : M RebaseResult :=
  in_tx false (let! _ := rebase_lock in rebaseAddressBatchLocked batch create inBatch).

Fixpoint rebase_batches (bs : list (list gostring)) (create : gset gostring) (inBatch : M unit) (total : RebaseResult) : M RebaseResult :=
  match bs with
  | [] => ret total
  | b :: bs => let! r := rebaseAddressBatch b (create ∩ list_to_set b) inBatch in rebase_batches bs create inBatch (add_result total r)
  end.
Definition address_le (a b : gostring) : Prop := str_lt b a = false.
#[export] Instance address_le_dec : RelDecision address_le.
Proof. intros a b. unfold address_le. apply _. Defined.
Definition rebaseAddresses (addresses create : list gostring) (inBatch : M unit) : M RebaseResult :=
  let addresses := merge_sort address_le addresses in
  rebase_batches (batches (length addresses) addresses) (list_to_set create) inBatch no_result.
Definition RebaseAddresses (addresses create : list gostring) : M RebaseResult := rebaseAddresses addresses create (ret tt).

(** *** A batch of the repair is halved when it runs out of time *)

(** [timedOut k]: the error of the transaction that ends at statement [k] is its deadline's. *)
Fixpoint repairAddresses (timedOut : nat → bool) (fuel : nat) (addresses : list gostring) : M RebaseResult :=
  match fuel with
  | O => fail
  | S fuel =>
      λ k y, match in_tx false (let! _ := rebase_lock in rebaseAddressBatchLocked addresses (list_to_set addresses) (ret tt)) k y with
      | (k, y, Some r) => (k, y, Some r)
      | (k, y, None) =>
          if negb (timedOut k) then (k, y, None)
          else if (length addresses =? 1)%nat then (k, y, None)
          else (let half := Nat.div (length addresses) 2 in
                let! first := repairAddresses timedOut fuel (take half addresses) in
                let! second := repairAddresses timedOut fuel (drop half addresses) in
                ret (add_result first second)) k y
      end
  end.

(** *** The closed spans *)

(** The zero address is not one of a span's. *)
Definition zeroAddress : gostring := $"0x0000000000000000000000000000000000000000".
(** [stageSpanSelect]: the addresses of the span, and those of reverted blocks, whose row
    is not their truth or is recorded. *)
Definition staged_row (v : rebaseRow) : bool :=
  (v_present v && negb (bool_decide (v_row v = v_want v))) || (negb (v_present v) && v_creatable v && v_seen v) || bool_decide (is_Some (v_reverted v)).
Definition stage_rows (lo : Z) (s : stats_db) : list rebaseRow :=
  let span := default ∅ (t_ledger s !! lo) in
  filter staged_row (read_row true s <$> elements (dom span ∖ {[ zeroAddress ]})) ++
  filter staged_row (read_row false s <$> elements (dom (t_reverted s) ∖ dom span)).
Definition stageSpanRebase (lo : Z) : M (list rebaseRow) :=
  let! _ := elsewhere in let! _ := elsewhere in
  let! rows := exec (λ y, (y, Some (stage_rows lo (r_db y)))) in
  let! _ := elsewhere in let! _ := elsewhere in
  ret rows.

Fixpoint apply_staged (bs : list (list rebaseRow)) (total : RebaseResult) : M RebaseResult :=
  match bs with
  | [] => ret total
  | b :: bs => let! r := in_tx true (let! _ := elsewhere in applyRebaseRows b (ret tt)) in apply_staged bs (add_result total r)
  end.
Definition mark_rebased (lo : Z) (s : stats_db) : stats_db :=
  mkStats (t_rows s) (t_blocks s) (t_from s) (t_ledger s) (alter (λ hr, (hr.1, true)) lo (t_spans s)) (t_stage s) (t_reverted s) (t_xid s) (t_total s) (t_days s).
Fixpoint rebase_each (los : list Z) : M unit :=
  match los with
  | [] => ret tt
  | lo :: los =>
      let! staged := stageSpanRebase lo in
      let staged := merge_sort byte_le staged in
      let! _ := apply_staged (batches (length staged) staged) no_result in
      let! _ := exec (λ y, (mkRebase (mark_rebased lo (r_db y)) (r_held y) (r_revlock y) (r_tx y) (r_astray y), Some tt)) in
      let! _ := elsewhere in
      rebase_each los
  end.
(** The lock is given back whether the spans were rebased or not. *)
Definition rebaseSpans (los : list Z) : M unit :=
  let release := mem env (λ y, (hold false y, tt)) in
  let! _ := on_error (let! _ := rebase_lock in rebase_each los) release in release.

Definition pending_spans (s : stats_db) : list Z := merge_sort Z.le (elements (dom (filter (λ lr, lr.2.2 = false) (t_spans s)))).
(** The day recount only reads what is modelled, and clears the pending count it read. *)
Definition recountPendingDays : M unit :=
  let! _ := elsewhere in
  let! pending := exec (λ y, (y, Some (t_days (r_db y)))) in
  if decide (pending = 0) then ret tt else
  let! _ := elsewhere in let! _ := elsewhere in
  exec (λ y, (if decide (t_days (r_db y) = pending)
              then mkRebase (mkStats (t_rows (r_db y)) (t_blocks (r_db y)) (t_from (r_db y)) (t_ledger (r_db y)) (t_spans (r_db y)) (t_stage (r_db y))
                     (t_reverted (r_db y)) (t_xid (r_db y)) (t_total (r_db y)) 0) (r_held y) (r_revlock y) (r_tx y) (r_astray y)
              else y, Some tt)).
(** [ready]: the indexes of the ledger are built. *)
Definition rebasePendingSpans (ready : bool) : M unit :=
  if negb ready then ret tt else
  let! _ := recountPendingDays in
  let! los := exec (λ y, (y, Some (pending_spans (r_db y)))) in
  if decide (los = []) then ret tt else
  let! _ := rebaseSpans los in recountPendingDays.
End Rebase.
