(* ===== verification/AddressRebaseSpec.v ===== *)
(** * What a rebase guarantees

    Others store blocks, revert them, close spans, prune and run the stats backfill
    between any two statements of a rebase; the rows it holds they do not touch. *)

From S2P Require Import Prelude Tally Session Balances AddressTruth AddressRebase.

(** ** What others do *)

(** The addresses a revert left without the row their truth asks for. *)
Definition wrongly_removed (s s' : stats_db) : gset gostring := filter (λ a, t_rows s' !! a = None ∧ ledger_address_truth s' !! a ≠ None) (dom (t_rows s)).

(** A transaction of the others waits for the rows it takes and for the revert lock; a
    settlement of the ledger, and another rebase, for the rebase lock. Another rebase
    keeps exact rows exact. *)
Inductive rebase_step (y : rebase_sys) : rebase_sys → Prop :=
| x_other X rv s' : stats_step (r_db y) X rv s' → X ## dom (x_rows (r_tx y)) → (rv = true → r_revlock y = false) →
    rebase_step y (mkRebase s' (r_held y) (r_revlock y) (r_tx y) (r_astray y ∪ wrongly_removed (r_db y) s'))
| x_settle lo hi b L : r_held y = false → t_spans (r_db y) !! lo = Some (hi, b) → span_counts lo hi L (r_db y) →
    rebase_step y (mkRebase (settle_moves lo L (r_db y)) (r_held y) (r_revlock y) (r_tx y)
      (r_astray y ∪ moved_addresses (default ∅ (t_ledger (r_db y) !! lo)) L))
| x_rebase s' : r_held y = false → t_blocks s' = t_blocks (r_db y) → t_from s' = t_from (r_db y) → t_ledger s' = t_ledger (r_db y) → t_spans s' = t_spans (r_db y) →
    t_stage s' = t_stage (r_db y) → t_reverted s' ⊆ t_reverted (r_db y) → t_xid s' = t_xid (r_db y) →
    (∀ a, exact a (r_db y) → exact a s') → (counted_rows (r_db y) → counted_rows s') → rebase_step y (mkRebase s' (r_held y) (r_revlock y) (r_tx y) (r_astray y)).

(** ** Assertions *)

Definition settled (a : gostring) (y : rebase_sys) : Prop := exact a (r_db y) ∨ a ∈ r_astray y.
#[export] Instance settled_dec a y : Decision (settled a y).
Proof. unfold settled, exact. apply _. Defined.
(** The addresses of rebased spans are settled. *)
Definition spans_settled (y : rebase_sys) : Prop :=
  ∀ lo hi L a, t_spans (r_db y) !! lo = Some (hi, true) → t_ledger (r_db y) !! lo = Some L → is_Some (L !! a) → a ≠ zeroAddress → settled a y.
(** What is known and stays: settled addresses; the addresses of spans, but those a
    settlement has added; spans, and that they are rebased. *)
Record known := mkKnown { k_settled : gostring → Prop; k_spans : list (Z * gset gostring); k_flags : list (Z * Z * bool) }.
Definition bounded (lo : Z) (A : gset gostring) (y : rebase_sys) : Prop := ∃ L, t_ledger (r_db y) !! lo = Some L ∧ ∀ a, is_Some (L !! a) → a ∈ A ∨ a ∈ r_astray y.
Definition flagged (lo hi : Z) (b : bool) (y : rebase_sys) : Prop := ∃ b', t_spans (r_db y) !! lo = Some (hi, b') ∧ (b = true → b' = true).
Definition knows (X : known) (y : rebase_sys) : Prop :=
  (∀ a, k_settled X a → settled a y) ∧ (∀ lo A, (lo, A) ∈ k_spans X → bounded lo A y) ∧ ∀ lo hi b, (lo, hi, b) ∈ k_flags X → flagged lo hi b y.
Definition rebase_inv (X : known) (y : rebase_sys) : Prop := stats_ok (r_db y) ∧ counted_rows (r_db y) ∧ spans_settled y ∧ knows X y.

Lemma step_spans s S rv s' lo hi L a : stats_step s S rv s' → stats_ok s → t_spans s' !! lo = Some (hi, true) → t_ledger s' !! lo = Some L → is_Some (L !! a) →
  t_spans s !! lo = Some (hi, true) ∧ t_ledger s !! lo = Some L.
Proof.
  intros Hs Hok. destruct Hs as [n D|D|lo' hi'|lo' hi'|w|n D]; try done; cbn; (destruct (decide (lo = lo')) as [->|Hne]; [rewrite lookup_insert_eq; by intros [=]|rewrite !lookup_insert_ne by done; done]).
Qed.
Lemma settle_truth lo L s a : a ∉ moved_addresses (default ∅ (t_ledger s !! lo)) L → is_Some (t_ledger s !! lo) → ledger_address_truth (settle_moves lo L s) !! a = ledger_address_truth s !! a.
Proof.
  intros Ha [L0 E]. rewrite E in Ha. cbn in Ha. rewrite !truth_lookup. change (open_blocks (settle_moves lo L s)) with (open_blocks s). cbn [settle_moves t_ledger t_stage].
  rewrite (vsum_lookup_delete (t_ledger s) lo L0 a E). rewrite <-insert_delete_eq, vsum_lookup_insert by apply lookup_delete_eq.
  assert (L !! a = L0 !! a) as ->; [|done]. destruct (decide (L0 !! a = L !! a)) as [|Hne]; [done|]. exfalso. apply Ha. unfold moved_addresses. apply elem_of_filter. split; [done|].
  rewrite elem_of_union, !elem_of_dom. destruct (L0 !! a), (L !! a); [by left; eauto|by left; eauto|by right; eauto|done].
Qed.

Lemma rebase_frame s s' a : t_blocks s' = t_blocks s → t_ledger s' = t_ledger s → t_spans s' = t_spans s → t_stage s' = t_stage s → ledger_address_truth s' !! a = ledger_address_truth s !! a.
Proof. intros E1 E2 E3 E4. unfold ledger_address_truth, open_blocks, closed_through. by rewrite E1, E2, E3, E4. Qed.
Lemma ok_frame s s' : t_blocks s' = t_blocks s → t_from s' = t_from s → t_ledger s' = t_ledger s → t_spans s' = t_spans s → t_stage s' = t_stage s →
  t_reverted s' ⊆ t_reverted s → t_xid s' = t_xid s → stats_ok s → stats_ok s'.
Proof.
  intros E1 E2 E3 E4 E5 Hr E6 [H1 H2 H3 H4 H5 H6 H7]. unfold span_counts, saw, closed_through in *. split; unfold span_counts, saw, closed_through; rewrite ?E1, ?E2, ?E3, ?E4, ?E5, ?E6; try done.
  intros a v Hv. apply (H7 a). by apply (lookup_weaken _ _ _ _ Hv).
Qed.

Lemma step_settled y y' a : rebase_step y y' → stats_ok (r_db y) → settled a y → settled a y'.
Proof.
  intros Hs Hok [Hex|Ha].
  - destruct Hs as [S rv s' Hs _ _|lo hi b L _ Esp _|s' _ E1 _ E2 E3 E4 _ _ Hex' _].
    + left. by apply (stats_step_exact _ S rv _ a Hs).
    + destruct (decide (a ∈ moved_addresses (default ∅ (t_ledger (r_db y) !! lo)) L)); [right; set_solver|]. left. unfold exact. cbn [r_db].
      rewrite settle_truth; [exact Hex|done|by apply (so_spans _ Hok lo hi b)].
    + left. by apply Hex'.
  - right. destruct Hs; cbn; set_solver.
Qed.
Lemma step_ledger s S rv s' lo : stats_step s S rv s' → stats_ok s → is_Some (t_ledger s !! lo) → t_ledger s' !! lo = t_ledger s !! lo ∧ t_spans s' !! lo = t_spans s !! lo.
Proof.
  intros Hs Hok [L EL]. destruct (so_ledger s Hok lo L EL) as (hi & b & Es & _). destruct Hs as [n D|D|lo' hi' _ E1 E2 _|lo' hi' Hlo _|w|n D]; try done; cbn.
  - rewrite !lookup_insert_ne by congruence. done.
  - destruct (fresh_span s Hok lo' ltac:(lia)). rewrite !lookup_insert_ne by congruence. done.
Qed.
Lemma step_bounded y y' lo A : rebase_step y y' → stats_ok (r_db y) → bounded lo A y → bounded lo A y'.
Proof.
  intros Hs Hok (L & EL & HA). destruct Hs as [S rv s' Hs _ _|lo' hi b L' _ Esp HL|s' _ F1 F2 F3 F4 F5 F6 F7 Hex Hcr]; unfold bounded; cbn [r_db r_astray].
  - exists L. destruct (step_ledger _ S rv s' lo Hs Hok) as [-> _]; [by rewrite EL|]. split; [done|]. intros a Ha. destruct (HA a Ha); [by left|right; set_solver].
  - cbn [settle_moves t_ledger]. destruct (decide (lo = lo')) as [<-|Hne]; [|rewrite lookup_insert_ne by done; exists L; split; [done|]; intros a Ha; destruct (HA a Ha); [by left|right; set_solver]].
    rewrite lookup_insert_eq. exists L'. split; [done|]. intros a Ha. rewrite EL. cbn. destruct (decide (L !! a = L' !! a)) as [E|Hne]; [rewrite <-E in Ha; destruct (HA a Ha); [by left|right; set_solver]|].
    right. apply elem_of_union. right. unfold moved_addresses. apply elem_of_filter. split; [done|]. rewrite elem_of_union, !elem_of_dom. by right.
  - exists L. by rewrite F3.
Qed.
Lemma step_flagged y y' lo hi b : rebase_step y y' → stats_ok (r_db y) → flagged lo hi b y → flagged lo hi b y'.
Proof.
  intros Hs Hok (b' & Es & Hb). exists b'. split; [|done]. destruct (so_spans _ Hok lo hi b' Es) as [_ [L EL]].
  destruct Hs as [S rv s' Hs _ _|lo' hi' b2 L' _ Esp HL|s' _ F1 F2 F3 F4 F5 F6 F7 Hex Hcr]; cbn [r_db]; [|done|by rewrite F4].
  destruct (step_ledger _ S rv s' lo Hs Hok) as [_ ->]; [by rewrite EL|done].
Qed.
Lemma step_knows X y y' : rebase_step y y' → stats_ok (r_db y) → knows X y → knows X y'.
Proof.
  intros Hs Hok (H1 & H2 & H3). split_and!.
  - intros a Ha. apply (step_settled y); auto.
  - intros lo A Hin. apply (step_bounded y); auto.
  - intros lo hi b Hin. apply (step_flagged y); auto.
Qed.
Lemma rebase_step_inv X y y' : rebase_step y y' → rebase_inv X y → rebase_inv X y'.
Proof.
  intros Hs (Hok & Hc & Hsp & HX). refine (conj _ (conj _ (conj _ (step_knows X y y' Hs Hok HX)))).
  - destruct Hs as [S rv s' Hs _ _|lo hi b L _ Esp HL|s' _ E1 E2 E3 E4 E5 E6 E7 _ _]; cbn; [by apply (stats_step_ok _ S rv _ Hs)|by apply (settle_ok lo hi b)|by apply (ok_frame (r_db y))].
  - destruct Hs as [S rv s' Hs _ _|lo hi b L _ Esp HL|s' _ E1 E2 E3 E4 E5 E6 E7 _ Hcr]; cbn; [by apply (step_counted _ S rv _ Hs)|done|by apply Hcr].
  - intros lo hi L a E1 E2 Ha Hz. destruct (decide (settled a y)) as [Hse|Hn]; [by apply (step_settled y)|].
    destruct Hs as [S rv s' Hs _ _|lo' hi' b L' _ Esp HL|s' _ F1 F2 F3 F4 F5 F6 F7 Hex Hcr]; cbn [r_db] in *.
    + destruct (step_spans _ S rv _ lo hi L a Hs Hok E1 E2 Ha). destruct Hn. by apply (Hsp lo hi L).
    + cbn in E1, E2. destruct (decide (lo = lo')) as [->|Hne]; [|rewrite lookup_insert_ne in E2 by done; destruct Hn; by apply (Hsp lo hi L)].
      rewrite lookup_insert_eq in E2. injection E2 as <-. destruct (so_spans _ Hok lo' hi true E1) as [_ [L0 EL]].
      destruct (decide (L0 !! a = L' !! a)) as [El|Hne]; [destruct Hn; apply (Hsp lo' hi L0); [done|done|by rewrite El|done]|]. right. cbn. rewrite EL. cbn. apply elem_of_union. right.
      unfold moved_addresses. apply elem_of_filter. split; [done|]. rewrite elem_of_union, !elem_of_dom. by right.
    + rewrite F4 in E1. rewrite F3 in E2. destruct Hn. by apply (Hsp lo hi L).
Qed.

(** ** A read row, followed *)

(** What one transaction does to the row and the truth of an address: it adds the same to
    both, or it is a revert, which records the address. *)
Lemma step_effect s S rv s' a : stats_step s S rv s' → stats_ok s →
  (t_xid s ≤ t_xid s' ∧ t_reverted s' !! a = t_reverted s !! a ∧
   ∃ e, t_rows s' !! a = t_rows s !! a ⊕ e ∧ ledger_address_truth s' !! a = ledger_address_truth s !! a ⊕ e ∧ (a ∉ S → e = None)) ∨
  (rv = true ∧ (a ∈ S ∨ t_rows s !! a = None) ∧ t_xid s' = t_xid s + 1 ∧ t_reverted s' !! a = Some (t_xid s) ∧ (t_rows s !! a = None → t_rows s' !! a = None)).
Proof.
  intros Hs Hok. destruct Hs as [n D|D|lo hi|lo hi|w|n D En Hn].
  - left. split_and!; [done|done|]. exists (D !! a). rewrite store_truth by done. cbn [store_block t_rows]. rewrite lookup_oplus. split_and!; [done|done|]. apply not_elem_of_dom.
  - left. split_and!; [done|done|]. exists (D !! a). rewrite backfill_truth by done. cbn [backfill_batch t_rows]. rewrite lookup_oplus. split_and!; [done|done|]. apply not_elem_of_dom.
  - left. split_and!; [done|done|]. exists None. rewrite backfill_close_truth by (done || lia). by rewrite !oplus_None_r.
  - left. split_and!; [done|done|]. exists None. rewrite close_truth by done. by rewrite !oplus_None_r.
  - left. split_and!; [done|done|]. exists None. rewrite prune_truth by (done || lia). by rewrite !oplus_None_r.
  - assert (t_rows (revert_block n D s) !! a = t_rows s !! a ≫= λ r, match D !! a with Some δ => revert_row a n δ s r | None => Some r end) as Er.
    { cbn [revert_block t_rows]. unfold revert_stats. rewrite map_lookup_imap. by destruct (t_rows s !! a). }
    destruct (D !! a) as [δ|] eqn:Ea.
    + right. assert (a ∈ dom D) by by apply elem_of_dom. split_and!; [done| |done| |intros E; by rewrite Er, E].
      * destruct (t_rows s !! a) eqn:E; [left|by right]. apply elem_of_intersection. split; [done|by apply elem_of_dom].
      * cbn [revert_block t_reverted]. unfold record_reverted. apply lookup_union_Some_l. by apply lookup_gset_to_gmap_Some.
    + left. split_and!; [cbn; lia| |].
      * cbn [revert_block t_reverted]. unfold record_reverted. rewrite lookup_union_r; [done|]. apply lookup_gset_to_gmap_None. by apply not_elem_of_dom.
      * exists None. rewrite (revert_truth n D s a En Hn), Ea, Er, !oplus_None_r. split_and!; [by destruct (t_rows s !! a)|done|done].
Qed.

Definition row_read (v : rebaseRow) : option stat := if v_present v then Some (v_row v) else None.
Definition want_read (v : rebaseRow) : option stat := if v_seen v then Some (v_want v) else None.
(** The row and the truth have moved by the same since the read. *)
Definition tracked (v : rebaseRow) (y : rebase_sys) : Prop :=
  ∃ d, t_rows (r_db y) !! v_address v = row_read v ⊕ d ∧ ledger_address_truth (r_db y) !! v_address v = want_read v ⊕ d.
(** A revert has recorded the address since the read. *)
Definition newer (v : rebaseRow) (y : rebase_sys) : Prop :=
  ∃ ver, t_reverted (r_db y) !! v_address v = Some ver ∧ ∀ w, v_reverted v = Some w → w < ver.
Record follows (v : rebaseRow) (y : rebase_sys) : Prop := {
  fo_track : tracked v y ∨ newer v y ∧ (v_present v = true → is_Some (t_rows (r_db y) !! v_address v) ∨ settled (v_address v) y);
  fo_none : v_present v = false → v_seen v = false → settled (v_address v) y;
  fo_version : ∀ w, v_reverted v = Some w → w < t_xid (r_db y) }.

Lemma removed_settled y y' a : rebase_step y y' → is_Some (t_rows (r_db y) !! a) → r_held y = true → is_Some (t_rows (r_db y') !! a) ∨ settled a y'.
Proof.
  intros Hs Ha Hh. destruct (t_rows (r_db y') !! a) as [r|] eqn:Er; [left; eauto|right]. destruct Hs as [S rv s' Hs _ _| |]; [|congruence..]. cbn in *.
  destruct (ledger_address_truth s' !! a) eqn:Et; [|left; unfold exact; cbn [r_db]; by rewrite Er, Et]. right. cbn. apply elem_of_union. right.
  unfold wrongly_removed. apply elem_of_filter. split; [split; [done|by rewrite Et]|by apply elem_of_dom].
Qed.
Lemma step_follows v y y' : rebase_step y y' → stats_ok (r_db y) → r_held y = true → follows v y → follows v y'.
Proof.
  intros Hs Hok Hh [H1 H2 H3]. pose proof (step_settled y y' (v_address v) Hs Hok) as Hset. pose proof (removed_settled y y' (v_address v) Hs) as Hrem.
  assert (v_present v = true → is_Some (t_rows (r_db y) !! v_address v) ∨ settled (v_address v) y → is_Some (t_rows (r_db y') !! v_address v) ∨ settled (v_address v) y') as Hpres.
  { intros _ [?|?]; [by apply Hrem|right; by apply Hset]. }
  assert (v_present v = true → is_Some (t_rows (r_db y) !! v_address v) ∨ settled (v_address v) y) as Hpres'.
  { intros Hp. destruct H1 as [(d & Er & _)|[_ H]]; [|by apply H]. left. rewrite Er. unfold row_read. rewrite Hp. by destruct d. }
  destruct Hs as [S rv s' Hs _ _| |]; [|congruence..]. cbn [r_db] in *. destruct (step_effect _ S rv s' (v_address v) Hs Hok) as [(Hx & Erv & e & Er & Et & _)|(_ & _ & Hx & Erv & _)].
  - split; cbn [r_db].
    + destruct H1 as [(d & E1 & E2)|[(ver & Ev & Hlt) H]]; [left|right].
      * exists (d ⊕ e). cbn [r_db]. rewrite Er, Et, E1, E2. by rewrite !splus_assoc.
      * split; [exists ver; cbn [r_db]; by rewrite Erv|]. auto.
    + intros Hp Hse. apply Hset. auto.
    + intros w Hw. specialize (H3 w Hw). lia.
  - split; cbn [r_db].
    + right. split; [exists (t_xid (r_db y)); split; [done|by apply H3]|]. auto.
    + intros Hp Hse. apply Hset. auto.
    + intros w Hw. specialize (H3 w Hw). lia.
Qed.

Lemma truth_first s a q : stats_ok s → ledger_address_truth s !! a = Some q → is_Some (a_first q).
Proof.
  intros Hok. rewrite truth_lookup. assert (ends (λ _, True) (vsum (t_ledger s) !! a ⊕ t_stage s !! a ⊕ vsum (open_blocks s) !! a)) as He.
  { repeat apply ends_plus; [by apply ledger_ends|by eapply ends_impl, (so_stage s Hok)|by apply open_ends]. }
  intros E. destruct (He q E) as (_ & _ & _ & _ & f & l & Ef & _). by rewrite Ef.
Qed.
(** What the read knows of its rows. *)
Record read_ok (v : rebaseRow) : Prop := {
  ro_row : v_present v = false → v_row v = no_stat;
  ro_want : v_seen v = true → is_Some (a_first (v_want v)) }.
Lemma read_row_ok c s a : stats_ok s → read_ok (read_row c s a).
Proof.
  intros Hok. split; cbn.
  - intros H%bool_decide_eq_false_1. by destruct (t_rows s !! a); [destruct H|].
  - intros [q Hq]%bool_decide_eq_true_1. rewrite Hq. cbn. by apply (truth_first s a).
Qed.
Lemma read_row_follows c y a : stats_ok (r_db y) → follows (read_row c (r_db y) a) y.
Proof.
  intros Hok. split; cbn [read_row v_address v_present v_seen v_row v_want v_reverted].
  - left. exists None. unfold row_read, want_read. cbn [read_row v_address v_present v_seen v_row v_want]. rewrite !oplus_None_r. split; [destruct (t_rows (r_db y) !! a)|destruct (ledger_address_truth (r_db y) !! a)]; [by rewrite bool_decide_eq_true_2 by eauto|by rewrite bool_decide_eq_false_2 by (by intros [])|by rewrite bool_decide_eq_true_2 by eauto|by rewrite bool_decide_eq_false_2 by (by intros [])].
  - intros H1%bool_decide_eq_false_1 H2%bool_decide_eq_false_1. left. unfold exact. apply eq_None_not_Some in H1, H2. congruence.
  - apply (so_xid _ Hok).
Qed.
Lemma differs_false v : differs v = false → v_row v = v_want v.
Proof.
  unfold differs, sameBlock. rewrite negb_false_iff, !andb_true_iff, !Z.eqb_eq, !bool_decide_eq_true. destruct (v_row v), (v_want v). cbn. intros (((((-> & ->) & ->) & ->) & ->) & ->). done.
Qed.
Lemma creates_iff v : read_ok v → v_present v = false → v_seen v = true → v_creatable v = true → creates v = true.
Proof.
  intros [H1 H2] Hp Hs Hc. unfold creates. rewrite Hp, Hs, Hc. cbn. destruct (differs v) eqn:E; [done|]. apply differs_false in E. rewrite (H1 Hp) in E.
  destruct (H2 Hs) as [f Hf]. rewrite <-E in Hf. done.
Qed.

(** ** The correction *)

Lemma least_moved (f w x : option Z) : LEAST f x ≠ f → LEAST (LEAST f x) w = LEAST w x.
Proof. destruct f as [f|], x as [x|], w as [w|]; cbn; try done; intros H; f_equal; try lia; destruct (decide (x < f)); try lia; exfalso; apply H; f_equal; lia. Qed.
Lemma greatest_moved (f w x : option Z) : GREATEST f x ≠ f → GREATEST (GREATEST f x) w = GREATEST w x.
Proof. destruct f as [f|], x as [x|], w as [w|]; cbn; try done; intros H; f_equal; try lia; destruct (decide (f < x)); try lia; exfalso; apply H; f_equal; lia. Qed.
Lemma first_plus (r : stat) (d : option stat) : Some r ⊕ d ≫= a_first = LEAST (a_first r) (d ≫= a_first).
Proof. destruct d as [q|]; cbn; [done|]. by destruct (a_first r). Qed.
Lemma last_plus_some (r : stat) (d : option stat) : Some r ⊕ d ≫= a_last = GREATEST (a_last r) (d ≫= a_last).
Proof. destruct d as [q|]; cbn; [done|]. by destruct (a_last r). Qed.

Lemma corrected_tracked v d r t : Some (v_row v) ⊕ d = Some r → Some (v_want v) ⊕ d = Some t → corrected v (Some t) r = t.
Proof.
  intros Hr Ht. pose proof (first_plus (v_row v) d) as F1. pose proof (first_plus (v_want v) d) as F2. pose proof (last_plus_some (v_row v) d) as L1. pose proof (last_plus_some (v_want v) d) as L2.
  rewrite Hr in F1, L1. rewrite Ht in F2, L2. cbn in F1, F2, L1, L2.
  assert (a_txs r - a_txs (v_row v) = a_txs t - a_txs (v_want v) ∧ a_sent r - a_sent (v_row v) = a_sent t - a_sent (v_want v) ∧
          a_internal r - a_internal (v_row v) = a_internal t - a_internal (v_want v) ∧ a_transfers r - a_transfers (v_row v) = a_transfers t - a_transfers (v_want v)) as (? & ? & ? & ?).
  { destruct d as [q|]; cbn in Hr, Ht; injection Hr as <-; injection Ht as <-; cbn; lia. }
  assert (corrected v (Some t) r = mkStat (a_txs t) (a_sent t) (a_internal t) (a_transfers t) (a_first t) (a_last t)) as ->; [|by destruct t].
  unfold corrected. f_equal; try lia.
  - case_decide as Hd1; [rewrite F1 in Hd1 |- *; rewrite F2; by apply least_moved|]. case_decide as Hd2; [|done]. rewrite F1, F2, Hd2. done.
  - case_decide as Hd1; [rewrite L1 in Hd1 |- *; rewrite L2; by apply greatest_moved|]. case_decide as Hd2; [|done]. rewrite L1, L2, Hd2. done.
Qed.
Lemma no_stat_plus q : add_stat no_stat q = q.
Proof. destruct q as [x1 x2 x3 x4 f l]. unfold add_stat. cbn. f_equal; [by destruct f|by destruct l]. Qed.
