(* ===== verification/AddressRebaseRun.v ===== *)
(** * A batch of a rebase, statement by statement *)

From S2P Require Import Prelude Tally Session Balances AddressTruth AddressRebase AddressRebaseSpec.

(** ** The rows a transaction holds *)

Notation held y := (x_rows (r_tx y)).
Notation rows_of y := (t_rows (r_db y)).
Notation truth_of y := (ledger_address_truth (r_db y)).

Lemma apply_rows_lookup h rows a : apply_rows h rows !! a = match h !! a with Some b => b | None => rows !! a end.
Proof. unfold apply_rows. rewrite lookup_merge. by destruct (h !! a), (rows !! a). Qed.
Lemma apply_rows_empty rows : apply_rows ∅ rows = rows.
Proof. apply map_eq. intros a. by rewrite apply_rows_lookup, lookup_empty. Qed.
Lemma apply_rows_insert h rows a b : apply_rows (<[a := b]> h) rows = match b with Some r => <[a := r]> (apply_rows h rows) | None => delete a (apply_rows h rows) end.
Proof.
  apply map_eq. intros i. rewrite apply_rows_lookup. destruct (decide (i = a)) as [->|Hne].
  - rewrite lookup_insert_eq. destruct b; [by rewrite lookup_insert_eq|by rewrite lookup_delete_eq].
  - rewrite lookup_insert_ne by done. destruct b; [rewrite lookup_insert_ne by done|rewrite lookup_delete_ne by done]; by rewrite apply_rows_lookup.
Qed.

Definition one (b : option stat) : Z := if b then 1 else 0.
Lemma size_set (m : gmap gostring stat) a b : Z.of_nat (size (match b with Some r => <[a := r]> m | None => delete a m end)) = Z.of_nat (size m) + one b - one (m !! a).
Proof.
  destruct b as [r|], (m !! a) as [x|] eqn:E; cbn [one].
  - rewrite map_size_insert, E. cbn. lia.
  - rewrite map_size_insert, E. cbn. lia.
  - rewrite map_size_delete, E. cbn. assert (size m ≠ 0)%nat by (intros Hs; apply map_size_empty_inv in Hs; subst; done). lia.
  - rewrite delete_id by done. lia.
Qed.
(** By how much the rows of the table change when the transaction commits. *)
Definition net (h : gmap gostring (option stat)) (rows : gmap gostring stat) : Z := Z.of_nat (size (apply_rows h rows)) - Z.of_nat (size rows).
Lemma net_empty rows : net ∅ rows = 0.
Proof. unfold net. rewrite apply_rows_empty. lia. Qed.
Lemma net_insert h rows a b : net (<[a := b]> h) rows = net h rows + one b - one (match h !! a with Some b => b | None => rows !! a end).
Proof. unfold net. rewrite apply_rows_insert, size_set, apply_rows_lookup. lia. Qed.
Lemma net_same h rows rows' : (∀ a, a ∈ dom h → rows' !! a = rows !! a) → net h rows' = net h rows.
Proof.
  induction h as [|a b h Ha IH] using map_ind; intros H; [by rewrite !net_empty|]. rewrite !net_insert, Ha. rewrite (H a) by set_solver.
  rewrite IH; [done|]. intros i Hi. apply H. set_solver.
Qed.

(** A held row exists, or nothing is reverted. *)
Definition locked (y : rebase_sys) : Prop := ∀ a, a ∈ dom (held y) → is_Some (rows_of y !! a) ∨ r_revlock y = true.
(** What others leave of the transaction's. *)
Record untouched (y y' : rebase_sys) : Prop := {
  un_tx : r_tx y' = r_tx y; un_revlock : r_revlock y' = r_revlock y; un_held : r_held y' = r_held y;
  un_rows : ∀ a, a ∈ dom (held y) → rows_of y' !! a = rows_of y !! a;
  un_truth : ∀ a, a ∈ dom (held y) → truth_of y' !! a = truth_of y !! a;
  un_settled : ∀ a, settled a y → settled a y';
  un_newer : ∀ v, newer v y → newer v y' }.

Lemma step_untouched y y' : rebase_step y y' → stats_ok (r_db y) → r_held y = true → locked y → untouched y y'.
Proof.
  intros Hs Hok Hh Hl. pose proof (λ a, step_settled y y' a Hs Hok) as Hset. destruct Hs as [S rv s' Hs Hd Hr| |]; [|congruence..]. cbn in *.
  assert (∀ a, a ∈ dom (held y) → t_rows s' !! a = rows_of y !! a ∧ ledger_address_truth s' !! a = truth_of y !! a) as Hf.
  { intros a Ha. destruct (step_effect _ S rv s' a Hs Hok) as [(_ & _ & e & E1 & E2 & He)|(-> & Ha' & _)].
    - rewrite E1, E2, He by set_solver. by rewrite !oplus_None_r.
    - destruct Ha' as [?|En]; [set_solver|]. destruct (Hl a Ha) as [[r Er]|Hrev]; [congruence|]. rewrite Hr in Hrev; done. }
  split; cbn; try done.
  - intros a Ha. by apply Hf.
  - intros a Ha. by apply Hf.
  - intros v (ver & Ev & Hlt). unfold newer. cbn. destruct (step_effect _ S rv s' (v_address v) Hs Hok) as [(_ & -> & _)|(_ & _ & _ & -> & _)]; [by exists ver|].
    exists (t_xid (r_db y)). split; [done|]. intros w Hw. specialize (Hlt w Hw). pose proof (so_xid _ Hok _ _ Ev). lia.
Qed.

(** ** Assertions *)

Section Batch.
(** [later]: rows read in the same snapshot, for other batches. *)
Context (X : known) (read later : list rebaseRow).
Context (Hread : Forall read_ok read) (Hnd : NoDup (v_address <$> read)).

Lemma elem_of_app_l (v : rebaseRow) l l' : v ∈ l → v ∈ l ++ l'.
Proof. intros. apply elem_of_app. by left. Qed.
Definition base (y : rebase_sys) : Prop := rebase_inv X y ∧ (r_held y = true ∧ x_total (r_tx y) = 0 ∧ x_seen (r_tx y) = ∅) ∧ ∀ v, v ∈ read ++ later → follows v y.
Lemma step_base y y' : rebase_step y y' → base y → base y'.
Proof.
  intros Hs (H1 & [H2 H2'] & H3). split; [by apply (rebase_step_inv X y)|]. destruct H1 as [Hok _]. split.
  - destruct Hs; done.
  - intros v Hv. apply (step_follows v y); auto.
Qed.
(** [F] speaks only of what others leave. *)
Definition ours (F : rebase_sys → Prop) : Prop := ∀ y y', untouched y y' → F y → F y'.
Definition during (F : rebase_sys → Prop) (y : rebase_sys) : Prop := base y ∧ locked y ∧ F y.
Lemma during_stable F : ours F → stable rebase_step (during F).
Proof.
  intros HF y y' Hs (Hb & Hl & Hy). pose proof Hb as ((Hok & _) & [Hh _] & _). pose proof (step_untouched y y' Hs Hok Hh Hl) as Hu. split; [by apply (step_base y)|]. split; [|by apply (HF y)].
  intros a Ha. rewrite (un_tx _ _ Hu) in Ha. rewrite (un_rows _ _ Hu a Ha), (un_revlock _ _ Hu). by apply Hl.
Qed.
Lemma ours_and F G : ours F → ours G → ours (λ y, F y ∧ G y).
Proof. intros HF HG y y' Hu [? ?]. split; [by apply (HF y)|by apply (HG y)]. Qed.
Lemma ours_all {A} (P : A → Prop) (F : A → rebase_sys → Prop) : (∀ a, ours (F a)) → ours (λ y, ∀ a, P a → F a y).
Proof. intros HF y y' Hu H a Ha. apply (HF a y); auto. Qed.
Lemma ours_net c : ours (λ y, net (held y) (rows_of y) = c).
Proof. intros y y' Hu <-. rewrite (un_tx _ _ Hu). apply net_same. apply (un_rows _ _ Hu). Qed.
Lemma ours_tx (F : rebase_tx → bool → Prop) : ours (λ y, F (r_tx y) (r_revlock y)).
Proof. intros y y' Hu. by rewrite (un_tx _ _ Hu), (un_revlock _ _ Hu). Qed.

(** Before its write: the row is held as it is, or inserted empty ([I]), or a revert has
    removed it since the read ([S]). *)
Record ready (S I : gset gostring) (v : rebaseRow) (y : rebase_sys) : Prop := {
  re_value : ∀ b, held y !! v_address v = Some b → is_Some b ∧ (b = rows_of y !! v_address v ∨ v_address v ∈ I ∧ b = Some no_stat ∧ rows_of y !! v_address v = None);
  re_inserted : v_address v ∈ I → creates v = true;
  re_present : v_present v = true → v_address v ∈ dom (held y) ∨ v_address v ∈ S ∧ settled (v_address v) y;
  re_creates : creates v = true → v_address v ∈ dom (held y);
  re_held : v_address v ∈ dom (held y) → v_present v = true ∨ creates v = true;
  re_tracked : v_address v ∈ dom (held y) → v_address v ∉ S → tracked v y }.
(** After it: a held row is the truth. *)
Record written (v : rebaseRow) (y : rebase_sys) : Prop := {
  wr_value : ∀ b, held y !! v_address v = Some b → b = truth_of y !! v_address v;
  wr_present : v_present v = true → v_address v ∈ dom (held y) ∨ settled (v_address v) y;
  wr_creates : creates v = true → v_address v ∈ dom (held y) }.

Lemma ours_ready S I v : ours (ready S I v).
Proof.
  intros y y' Hu [H1 H2 H3 H4 H5 H6]. split; rewrite ?(un_tx _ _ Hu); try done.
  - intros b Hb. rewrite (un_rows _ _ Hu) by (by apply elem_of_dom). by apply H1.
  - intros Hp. destruct (H3 Hp) as [?|[? ?]]; [by left|right; split; [done|by apply (un_settled _ _ Hu)]].
  - intros Ha Hn. destruct (H6 Ha Hn) as (d & ? & ?). exists d. by rewrite (un_rows _ _ Hu), (un_truth _ _ Hu).
Qed.
Lemma ours_written v : ours (written v).
Proof.
  intros y y' Hu [H1 H2 H3]. split; rewrite ?(un_tx _ _ Hu); try done.
  - intros b Hb. rewrite (un_truth _ _ Hu) by (by apply elem_of_dom). by apply H1.
  - intros Hp. destruct (H2 Hp); [by left|right; by apply (un_settled _ _ Hu)].
Qed.

(** A row set changes nothing of the others. *)
Lemma set_row_base a b y : base y → base (set_row a b y).
Proof.
  intros (H1 & H2 & H3). split; [exact H1|]. split; [done|]. intros v Hv. destruct (H3 v Hv) as [F1 F2 F3]. split; done.
Qed.
Lemma set_row_locked a b y : locked y → is_Some (rows_of y !! a) ∨ r_revlock y = true → locked (set_row a b y).
Proof. intros Hl Ha i. cbn. rewrite dom_insert_L, elem_of_union, elem_of_singleton. intros [->|Hi]; [done|by apply Hl]. Qed.
Lemma set_row_held a b y i : i ≠ a → held (set_row a b y) !! i = held y !! i ∧ (i ∈ dom (held (set_row a b y)) ↔ i ∈ dom (held y)).
Proof. intros Hi. cbn. rewrite lookup_insert_ne by done. split; [done|]. rewrite dom_insert_L. set_solver. Qed.
Lemma set_row_ready a b S I v y : v_address v ≠ a → ready S I v y → ready S I v (set_row a b y).
Proof.
  intros Hne [H1 H2 H3 H4 H5 H6]. destruct (set_row_held a b y (v_address v) Hne) as [E1 E2]. split; rewrite ?E1, ?E2; try done.
Qed.
Lemma set_row_written a b v y : v_address v ≠ a → written v y → written v (set_row a b y).
Proof. intros Hne [H1 H2 H3]. destruct (set_row_held a b y (v_address v) Hne) as [E1 E2]. split; rewrite ?E1, ?E2; try done. Qed.
Lemma set_row_net a b y : net (held (set_row a b y)) (rows_of (set_row a b y)) = net (held y) (rows_of y) + one b - one (row_of a y).
Proof. cbn. by rewrite net_insert. Qed.

(** ** Statements on one row *)

Context (env : nat → rebase_sys → rebase_sys) (out : nat → stmt_end) (Henv : ∀ k y, rtc rebase_step y (env k y)).
Notation spec_stmt := (spec_stmt env out rebase_step Henv).

(** [Fr] is of other rows; [F] of the row before, [Q] after; [c] counts the table's rows. *)
Definition middle (Fr F : rebase_sys → Prop) (c : Z) : rebase_sys → Prop := during (λ y, (Fr y ∧ F y) ∧ net (held y) (rows_of y) = c).
Lemma middle_stable Fr F c : ours Fr → ours F → stable rebase_step (middle Fr F c).
Proof. intros H1 H2. apply during_stable. apply ours_and; [by apply ours_and|apply ours_net]. Qed.

Lemma row_stmt {A} a (f : rebase_sys → rebase_sys * option A) Fr F (Q : A → rebase_sys → Prop) (δ : A → Z) c :
  ours Fr → ours F → (∀ y b, Fr y → Fr (set_row a b y)) →
  (∀ y, base y → locked y → Fr y → F y →
     (∃ b x, f y = (set_row a b y, Some x) ∧ (is_Some (rows_of y !! a) ∨ r_revlock y = true) ∧ δ x = one b - one (row_of a y) ∧ Q x (set_row a b y)) ∨
     (∃ x, f y = (y, Some x) ∧ δ x = 0 ∧ Q x y)) →
  spec (middle Fr F c) (stmt env out f) (λ x, middle Fr (Q x) (c + δ x)) (rebase_inv X).
Proof.
  intros HFr HF Hset Hf. apply spec_stmt; [by apply middle_stable|]. intros y (Hb & Hl & (H1 & H2) & Hc). pose proof Hb as (Hinv & _).
  destruct (Hf y Hb Hl H1 H2) as [(b & x & -> & Hla & Hd & HQ)|(x & -> & Hd & HQ)]; cbn [fst snd].
  - split_and!; [done|exact Hinv|]. intros x' [= <-]. refine (conj (set_row_base a b y Hb) (conj (set_row_locked a b y Hl Hla) _)). split; [split; [by apply Hset|done]|].
    rewrite set_row_net. lia.
  - split_and!; [done|done|]. intros x' [= <-]. refine (conj Hb (conj Hl _)). split; [done|]. lia.
Qed.

(** *** The rows are taken *)

Record taken (I : gset gostring) (v : rebaseRow) (y : rebase_sys) : Prop := {
  ta_value : ∀ b, held y !! v_address v = Some b → is_Some b ∧ (b = rows_of y !! v_address v ∨ v_address v ∈ I ∧ b = Some no_stat ∧ rows_of y !! v_address v = None);
  ta_inserted : v_address v ∈ I → creates v = true;
  ta_present : v_present v = true → v_address v ∈ dom (held y) ∨ newer v y ∧ settled (v_address v) y;
  ta_creates : creates v = true → v_address v ∈ dom (held y);
  ta_held : v_address v ∈ dom (held y) → v_present v = true ∨ creates v = true }.
Lemma ours_taken I v : ours (taken I v).
Proof.
  intros y y' Hu [H1 H2 H3 H4 H5]. split; rewrite ?(un_tx _ _ Hu); try done.
  - intros b Hb. rewrite (un_rows _ _ Hu) by (by apply elem_of_dom). by apply H1.
  - intros Hp. destruct (H3 Hp) as [?|[? ?]]; [by left|right; split; [by apply (un_newer _ _ Hu)|by apply (un_settled _ _ Hu)]].
Qed.
Lemma set_row_taken a b I v y : v_address v ≠ a → taken I v y → taken I v (set_row a b y).
Proof. intros Hne [H1 H2 H3 H4 H5]. destruct (set_row_held a b y (v_address v) Hne) as [E1 E2]. split; rewrite ?E1, ?E2; try done. Qed.
Lemma taken_more I v y i : v_address v ≠ i → taken I v y → taken ({[ i ]} ∪ I) v y.
Proof.
  intros Hne [H1 H2 H3 H4 H5]. split; try done.
  - intros b Hb. destruct (H1 b Hb) as [? [?|(? & ? & ?)]]; (split; [done|]); [by left|right]. split_and!; [set_solver|done|done].
  - intros [E%elem_of_singleton|?]%elem_of_union; [done|by apply H2].
Qed.

(** [others]: the rows of [done] are taken, and no other but [a]. *)
Definition others (I : gset gostring) (done : list rebaseRow) (a : gostring) (y : rebase_sys) : Prop :=
  (∀ u, u ∈ done → taken I u y) ∧ (∀ i, i ∈ dom (held y) → i = a ∨ i ∈ v_address <$> done) ∧ (existsb creates read = true → r_revlock y = true).
Lemma ours_others I done a : ours (others I done a).
Proof.
  apply ours_and; [apply ours_all; intros; apply ours_taken|]. apply ours_and; [|intros y y' Hu; by rewrite (un_revlock _ _ Hu)].
  intros y y' Hu. by rewrite (un_tx _ _ Hu).
Qed.
Lemma set_row_others I done a b y : a ∉ v_address <$> done → others I done a y → others I done a (set_row a b y).
Proof.
  intros Ha (H1 & H2 & H3). split_and!; [|intros i; cbn; rewrite dom_insert_L, elem_of_union, elem_of_singleton; intros [->|?]; [by left|by apply H2]|done].
  intros u Hu. apply set_row_taken; [|by apply H1]. intros E. apply Ha. apply list_elem_of_fmap. exists u. by rewrite E.
Qed.

Definition free (a : gostring) (y : rebase_sys) : Prop := a ∉ dom (held y).
Lemma ours_free a : ours (free a).
Proof. intros y y' Hu. unfold free. by rewrite (un_tx _ _ Hu). Qed.
Lemma row_of_free a y : free a y → row_of a y = rows_of y !! a.
Proof. intros Hf. unfold row_of. by apply not_elem_of_dom in Hf as ->. Qed.

Lemma lock_row_spec I done v c : v ∈ read → v_present v = true → v_address v ∉ v_address <$> done → v_address v ∉ I →
  spec (middle (others I done (v_address v)) (free (v_address v)) c) (lock_row env out (v_address v)) (λ _, middle (others I done (v_address v)) (taken I v) c) (rebase_inv X).
Proof.
  intros Hv Hp Hd HI. set (a := v_address v) in *. eapply spec_post; [|eapply (row_stmt a _ (others I done a) (free a) (λ _, taken I v) (λ _, 0)); [apply ours_others|apply ours_free|intros; by apply set_row_others|]].
  { intros ? y. cbn beta. by rewrite Z.add_0_r. }
  intros y Hb Hl Hfr Hfree. rewrite (row_of_free a y Hfree). assert (creates v = false) as Hcr by (unfold creates; by rewrite Hp). destruct (rows_of y !! a) as [r|] eqn:Er.
  - left. exists (Some r), tt. split_and!; [done|by left|cbn; lia|]. split; cbn; fold a; try (by rewrite dom_insert_L; intros; left; set_solver); try (by rewrite Hcr); try (by intros ?%HI).
    intros b. rewrite lookup_insert_eq. intros [= <-]. split; [done|]. left. by rewrite Er.
  - right. exists tt. split_and!; [done|done|]. split; fold a; try (by intros ?%HI); try (by rewrite Hcr).
    + intros b Hb'. apply not_elem_of_dom in Hfree. congruence.
    + intros _. right. destruct Hb as (_ & _ & Hfo). destruct (fo_track v y (Hfo v (elem_of_app_l v read later Hv))) as [(d & E & _)|[Hn Hs]].
      * fold a in E. rewrite Er in E. unfold row_read in E. rewrite Hp in E. by destruct d.
      * split; [done|]. destruct (Hs Hp) as [[x Hx]|?]; [|done]. fold a in Hx. congruence.
Qed.
Lemma insert_spec I done v c : v ∈ read → creates v = true → v_address v ∉ v_address <$> done → v_address v ∉ I →
  spec (middle (others I done (v_address v)) (free (v_address v)) c) (insert_empty env out (v_address v))
    (λ fresh, middle (others I done (v_address v)) (taken (if fresh : bool then {[ v_address v ]} ∪ I else I) v) (c + b2z fresh)) (rebase_inv X).
Proof.
  intros Hv Hcr Hd HI. set (a := v_address v) in *. apply (row_stmt a _ _ _ (λ fresh : bool, taken (if fresh then {[ a ]} ∪ I else I) v) b2z); [apply ours_others|apply ours_free|intros; by apply set_row_others|].
  intros y Hb Hl Hfr Hfree. rewrite (row_of_free a y Hfree). assert (v_present v = false) as Hp by (unfold creates in Hcr; by destruct (v_present v)).
  assert (r_revlock y = true) as Hrl. { apply (proj2 (proj2 Hfr)). apply existsb_exists. exists v. split; [by apply list_elem_of_In|done]. }
  left. destruct (rows_of y !! a) as [r|] eqn:Er; [exists (Some r), false|exists (Some no_stat), true]; (split_and!; [done|by right|done|]); split; cbn; fold a; try done; try (by right); try (by rewrite Hp); try (by rewrite dom_insert_L; set_solver).
  - intros b. rewrite lookup_insert_eq. intros [= <-]. split; [done|]. left. by rewrite Er.
  - intros b. rewrite lookup_insert_eq. intros [= <-]. split; [done|]. right. split_and!; [set_solver|done|done].
Qed.

Definition taking (I : gset gostring) (done : list rebaseRow) : rebase_sys → Prop :=
  during (λ y, ((∀ u, u ∈ done → taken I u y) ∧ (∀ i, i ∈ dom (held y) → i ∈ v_address <$> done) ∧ (existsb creates read = true → r_revlock y = true)) ∧
    net (held y) (rows_of y) = Z.of_nat (size I)).
Lemma taking_middle I done v y : v_address v ∉ v_address <$> done → taking I done y → middle (others I done (v_address v)) (free (v_address v)) (Z.of_nat (size I)) y.
Proof.
  intros Hv (Hb & Hl & (H1 & H2 & H3) & Hc). refine (conj Hb (conj Hl (conj (conj (conj H1 (conj _ H3)) _) Hc))); [intros i Hi; right; by apply H2|].
  by intros ?%H2.
Qed.
Lemma middle_taking I done v y : middle (others I done (v_address v)) (taken I v) (Z.of_nat (size I)) y → taking I (done ++ [v]) y.
Proof.
  intros (Hb & Hl & ((H1 & H2 & H3) & H4) & Hc). refine (conj Hb (conj Hl (conj (conj _ (conj _ H3)) Hc))).
  - intros u [Hu| ->%list_elem_of_singleton]%elem_of_app; [by apply H1|done].
  - intros i Hi. rewrite fmap_app. apply elem_of_app. destruct (H2 i Hi) as [->|?]; [right; by apply list_elem_of_singleton|by left].
Qed.
Lemma taking_more I done v y : v_address v ∉ v_address <$> done → v_address v ∉ I → middle (others I done (v_address v)) (taken ({[ v_address v ]} ∪ I) v) (Z.of_nat (size I) + 1) y →
  taking ({[ v_address v ]} ∪ I) (done ++ [v]) y.
Proof.
  intros Hv HI (Hb & Hl & ((H1 & H2 & H3) & H4) & Hc). apply middle_taking. refine (conj Hb (conj Hl (conj (conj (conj _ (conj H2 H3)) H4) _))).
  - intros u Hu. apply taken_more; [|by apply H1]. intros E. apply Hv. apply list_elem_of_fmap. exists u. by rewrite E.
  - rewrite Hc, size_union by set_solver. rewrite size_singleton. lia.
Qed.

Lemma NoDup_middle done v rest : NoDup (v_address <$> done ++ v :: rest) → v_address v ∉ v_address <$> done.
Proof. rewrite fmap_app. cbn. intros (_ & Hd & _)%NoDup_app Hin. apply (Hd _ Hin). by left. Qed.

Lemma lockBatchRows_spec rest : ∀ pre I, read = pre ++ rest → I ⊆ list_to_set (v_address <$> pre) →
  spec (taking I pre) (lockBatchRows env out rest I) (λ I' y, I' ⊆ list_to_set (v_address <$> read) ∧ taking I' read y) (rebase_inv X).
Proof.
  induction rest as [|v rest IH]; intros pre I Er HI; [rewrite app_nil_r in Er; subst; apply spec_ret; done|]. cbn [lockBatchRows].
  assert (v_address v ∉ v_address <$> pre) as Hv by (apply (NoDup_middle pre v rest); by rewrite <-Er).
  assert (v_address v ∉ I) as HvI by (intros Hin; apply Hv; apply HI in Hin; by apply elem_of_list_to_set in Hin).
  assert (v ∈ read) as Hin by (rewrite Er; apply elem_of_app; right; by left). assert (read = (pre ++ [v]) ++ rest) as Er' by (rewrite Er; by rewrite <-app_assoc).
  assert (∀ I', I' ⊆ {[ v_address v ]} ∪ I → I' ⊆ list_to_set (v_address <$> pre ++ [v])) as HI'.
  { intros I' Hs i Hi. rewrite fmap_app, list_to_set_app. apply Hs, elem_of_union in Hi as [Hi|Hi]; [set_solver|]. apply elem_of_union. left. by apply HI. }
  assert (∀ c y, taking c pre y → c = I → middle (others I pre (v_address v)) (free (v_address v)) (Z.of_nat (size I)) y) as Hpre by (intros c y Hy ->; by apply taking_middle).
  destruct (v_present v) eqn:Hp; [|destruct (creates v) eqn:Hcr].
  - eapply spec_bind; [eapply spec_pre; [|by apply lock_row_spec]; intros y Hy; by apply (Hpre I)|]. intros ?. eapply spec_pre, (IH (pre ++ [v])); [|done|apply HI'; set_solver].
    intros y. apply middle_taking.
  - eapply spec_bind; [eapply spec_pre; [|by apply insert_spec]; intros y Hy; by apply (Hpre I)|]. intros fresh. cbn beta. destruct fresh; cbn [b2z].
    + eapply spec_pre, (IH (pre ++ [v])); [|done|apply HI'; set_solver]. intros y. by apply taking_more.
    + rewrite Z.add_0_r. eapply spec_pre, (IH (pre ++ [v])); [|done|apply HI'; set_solver]. intros y. apply middle_taking.
  - eapply spec_pre, (IH (pre ++ [v])); [|done|apply HI'; set_solver]. intros y Hy. apply middle_taking. destruct (Hpre I y Hy eq_refl) as (Hb & Hl & (Ho & Hf) & Hc).
    refine (conj Hb (conj Hl (conj (conj Ho _) Hc))). split; try (by rewrite ?Hp, ?Hcr); try (by intros ?%HvI); try (by intros ?%Hf).
    intros b Hb'. destruct Hf. by apply elem_of_dom.
Qed.

(** *** Which of them a revert changed since the read *)

Lemma taken_ready I v y : v ∈ read → base y → taken I v y → let S := list_to_set (v_address <$> filter (newer_version (t_reverted (r_db y))) read) in ready S I v y.
Proof.
  intros Hv Hb [H1 H2 H3 H4 H5] S. assert (newer v y → v_address v ∈ S) as HS.
  { intros (ver & Ev & Hlt). unfold S. apply elem_of_list_to_set, list_elem_of_fmap. exists v. split; [done|]. apply list_elem_of_filter. split; [|done].
    unfold newer_version. rewrite Ev. intros E. specialize (Hlt ver E). lia. }
  split; try done.
  - intros Hp. destruct (H3 Hp) as [?|[? ?]]; [by left|right; auto].
  - intros Ha Hn. destruct Hb as (_ & _ & Hf). destruct (fo_track v y (Hf v (elem_of_app_l v read later Hv))) as [?|[? _]]; [done|]. by apply HS in H.
Qed.

(** The rows of [done] are written, those of [rest] are ready. *)
Definition writing (S I : gset gostring) (done rest : list rebaseRow) (c : Z) : rebase_sys → Prop :=
  during (λ y, ((∀ u, u ∈ done → written u y) ∧ (∀ u, u ∈ rest → ready S I u y) ∧ ∀ i, i ∈ dom (held y) → i ∈ v_address <$> read) ∧ net (held y) (rows_of y) = c).

Definition start (y : rebase_sys) : Prop := base y ∧ r_tx y = no_tx.
Lemma start_taking y : start y → (existsb creates read = true → r_revlock y = true) → taking ∅ [] y.
Proof.
  intros [Hb Ht] Hrl. refine (conj Hb (conj _ (conj (conj _ (conj _ Hrl)) _))); rewrite ?Ht; cbn.
  - intros a. rewrite Ht. cbn. by rewrite dom_empty_L, elem_of_empty.
  - by intros u ?%not_elem_of_nil.
  - by intros i; rewrite dom_empty_L, elem_of_empty.
  - by rewrite net_empty, size_empty.
Qed.
Lemma start_stable : stable rebase_step start.
Proof. intros y y' Hs [Hb Ht]. split; [by apply (step_base y)|]. by destruct Hs. Qed.

Lemma revertedSinceRead_spec :
  spec start (revertedSinceRead env out read) (λ SI y, SI.2 ⊆ list_to_set (v_address <$> read) ∧ writing SI.1 SI.2 [] read (Z.of_nat (size SI.2)) y) (rebase_inv X).
Proof.
  unfold revertedSinceRead. apply (spec_bind _ _ _ (λ _ y, taking ∅ [] y)).
  { destruct (existsb creates read) eqn:Ec; [|apply spec_ret; intros y Hy; apply start_taking; [done|by rewrite Ec]]. apply spec_stmt; [apply start_stable|].
    intros y Hy. pose proof Hy as [Hb Ht]. pose proof Hb as (Hi & _). split_and!; [done|exact Hi|]. intros [] _. cbn [fst]. apply start_taking; [|done].
    split; [|done]. destruct Hb as (H1 & H2 & H3). split; [exact H1|]. split; [done|]. intros v Hv. destruct (H3 v Hv). by split. }
  intros _. eapply spec_bind; [apply (lockBatchRows_spec read [] ∅); [done|set_solver]|]. intros I. cbn beta.
  apply (spec_bind _ _ _ (λ vs y, I ⊆ list_to_set (v_address <$> read) ∧ writing (list_to_set (v_address <$> filter (newer_version vs) read)) I [] read (Z.of_nat (size I)) y)).
  - apply spec_stmt.
    + intros y y' Hs [? Ht]. split; [done|]. revert Hs Ht. apply (during_stable (λ y, _)). apply ours_and; [|apply ours_net]. apply ours_and; [apply ours_all; intros; apply ours_taken|].
      apply ours_and; [|intros z z' Hu; by rewrite (un_revlock _ _ Hu)]. intros z z' Hu. by rewrite (un_tx _ _ Hu).
    + intros y [HI (Hb & Hl & (H1 & H2 & H3) & Hc)]. cbn [fst snd]. pose proof Hb as (Hi & _). split_and!; [done|done|]. intros vs [= <-]. split; [done|].
      refine (conj Hb (conj Hl (conj (conj _ (conj _ H2)) Hc))); [by intros u ?%not_elem_of_nil|]. intros u Hu. apply taken_ready; [done|done|by apply H1].
  - intros vs. apply spec_ret. done.
Qed.

(** *** The writes *)

Section Write.
Context (S I : gset gostring) (pre post : list rebaseRow) (v : rebaseRow) (Er : read = pre ++ v :: post).
Notation a := (v_address v).
Definition apart (y : rebase_sys) : Prop := (∀ u, u ∈ pre → written u y) ∧ (∀ u, u ∈ post → ready S I u y) ∧ ∀ i, i ∈ dom (held y) → i ∈ v_address <$> read.

Lemma v_in : v ∈ read.
Proof. rewrite Er. apply elem_of_app. right. by left. Qed.
Lemma apart_ne u : u ∈ pre ∨ u ∈ post → v_address u ≠ a.
Proof.
  intros Hu E. pose proof Hnd as H. rewrite Er, fmap_app in H. cbn in H. apply NoDup_app in H as (_ & H1 & H2). destruct Hu as [Hu|Hu].
  - apply (H1 (v_address u)); [apply list_elem_of_fmap; by exists u|]. rewrite E. by left.
  - apply NoDup_cons in H2 as [H2 _]. apply H2. rewrite <-E. apply list_elem_of_fmap. by exists u.
Qed.
Lemma ours_apart : ours apart.
Proof.
  apply ours_and; [apply ours_all; intros; apply ours_written|]. apply ours_and; [apply ours_all; intros; apply ours_ready|]. intros y y' Hu. by rewrite (un_tx _ _ Hu).
Qed.
Lemma set_row_apart b y : apart y → apart (set_row a b y).
Proof.
  intros (H1 & H2 & H3). split_and!.
  - intros u Hu. apply set_row_written; [apply apart_ne; by left|by apply H1].
  - intros u Hu. apply set_row_ready; [apply apart_ne; by right|by apply H2].
  - intros i. cbn. rewrite dom_insert_L, elem_of_union, elem_of_singleton. intros [->|?]; [apply list_elem_of_fmap; exists v; split; [done|apply v_in]|by apply H3].
Qed.
Lemma ours_const (P : Prop) : ours (λ _, P).
Proof. by intros y y' _. Qed.

(** The row is held, or there is none and the address is settled. *)
Definition holding (y : rebase_sys) : Prop := (∃ r, held y !! a = Some (Some r)) ∨ a ∉ dom (held y) ∧ settled a y ∧ creates v = false.
Lemma ours_holding : ours holding.
Proof.
  intros y y' Hu [H|(H1 & H2 & H3)]; unfold holding; rewrite (un_tx _ _ Hu); [by left|right; split_and!; [done|by apply (un_settled _ _ Hu)|done]].
Qed.
Lemma held_row y r : held y !! a = Some (Some r) → row_of a y = Some r ∧ a ∈ dom (held y).
Proof. intros E. unfold row_of. rewrite E. split; [done|]. apply elem_of_dom. by rewrite E. Qed.
Lemma written_value b y : held y !! a = Some b → b = truth_of y !! a → written v y.
Proof. intros E Hb. assert (a ∈ dom (held y)) by (apply elem_of_dom; by rewrite E). split; [by intros b' Hb'; congruence|by left|done]. Qed.
Lemma set_row_value b y : held (set_row a b y) !! a = Some b.
Proof. cbn. apply lookup_insert_eq. Qed.
Lemma set_row_done b y : b = truth_of y !! a → written v (set_row a b y).
Proof. intros E. apply (written_value b); [apply set_row_value|done]. Qed.

Lemma recount_spec c : spec (middle apart holding c) (rebaseRecount env out a) (λ gone, middle apart (written v) (c + - b2z gone)) (rebase_inv X).
Proof.
  eapply (row_stmt a _ apart holding (λ _, written v) (λ gone, - b2z gone)); [apply ours_apart|apply ours_holding|intros; by apply set_row_apart|].
  intros y Hb Hl Hfr Hh. assert (∀ r, row_of a y = Some r → is_Some (rows_of y !! a) ∨ r_revlock y = true) as Hlk.
  { intros r Hr. unfold row_of in Hr. destruct (held y !! a) as [b|] eqn:Eh; [apply Hl; apply elem_of_dom; by rewrite Eh|]. left. by rewrite Hr. }
  destruct (row_of a y) as [r|] eqn:Hr.
  - destruct (truth_of y !! a) as [t|] eqn:Et; left; [exists (Some t), false|exists None, true]; (split_and!; [done|by apply (Hlk r)|done|apply set_row_done; by rewrite Et]).
  - right. exists false. destruct Hh as [(r & Eh)|(Hd & Hs & Hc)]; [apply held_row in Eh as [Eh _]; congruence|]. split_and!; [by destruct (truth_of y !! a)|done|].
    split; [intros b Hb'; destruct Hd; apply elem_of_dom; by rewrite Hb'|by right|by rewrite Hc].
Qed.

Lemma ready_held y : ready S I v y → a ∈ dom (held y) → ∃ r, held y !! a = Some (Some r).
Proof. intros [H1 _ _ _ _ _] [b Hb]%elem_of_dom. destruct (H1 b Hb) as [[r ->] _]. by exists r. Qed.

(** A row that is held is taken again; one that is not is taken if it is there by now. *)
Lemma take_again c : v_present v = true → spec (middle apart (ready S I v) c) (lock_row env out a) (λ _, middle apart holding c) (rebase_inv X).
Proof.
  intros Hp. assert (creates v = false) as Hcr by (unfold creates; by rewrite Hp).
  eapply spec_post; [|eapply (row_stmt a _ apart (ready S I v) (λ _, holding) (λ _, 0)); [apply ours_apart|apply ours_ready|intros; by apply set_row_apart|]]; [intros ? y; cbn beta; by rewrite Z.add_0_r|].
  intros y Hb Hl Hfr Hr. destruct (row_of a y) as [r|] eqn:Ero.
  - left. exists (Some r), tt. split_and!; [done| |cbn; lia|left; exists r; apply set_row_value]. destruct (decide (a ∈ dom (held y))) as [|Hd]; [by apply Hl|].
    left. unfold row_of in Ero. apply not_elem_of_dom in Hd. rewrite Hd in Ero. by rewrite Ero.
  - right. exists tt. split_and!; [done|done|]. right. destruct (decide (a ∈ dom (held y))) as [Hd|Hd].
    + destruct (ready_held y Hr Hd) as [r Eh]. apply held_row in Eh as [Eh _]. congruence.
    + destruct (re_present _ _ _ _ Hr Hp) as [?|[_ ?]]; [done|]. done.
Qed.

(** Held as it is, and tracked. *)
Definition held_tracked (y : rebase_sys) : Prop := tracked v y ∧ ∃ r, held y !! a = Some (Some r) ∧ (rows_of y !! a = Some r ∨ a ∈ I ∧ r = no_stat ∧ rows_of y !! a = None).
Lemma ours_held_tracked : ours held_tracked.
Proof.
  intros y y' Hu ((d & E1 & E2) & r & Eh & Hr). destruct (held_row y r Eh) as [_ Hd]. unfold held_tracked, tracked.
  rewrite (un_tx _ _ Hu), (un_rows _ _ Hu a Hd), (un_truth _ _ Hu a Hd). split; [by exists d|by exists r].
Qed.
Lemma ready_tracked y : ready S I v y → a ∈ dom (held y) → a ∉ S → held_tracked y.
Proof.
  intros Hr Hd Hn. split; [by apply (re_tracked _ _ _ _ Hr)|]. destruct (ready_held y Hr Hd) as [r Eh]. exists r. split; [done|].
  destruct (re_value _ _ _ _ Hr _ Eh) as [_ [E|(? & [= ->] & ?)]]; [by left|by right].
Qed.

Lemma lock_tracked c : spec (middle apart held_tracked c) (lock_row env out a) (λ _, middle apart held_tracked c) (rebase_inv X).
Proof.
  eapply spec_post; [|eapply (row_stmt a _ apart held_tracked (λ _, held_tracked) (λ _, 0)); [apply ours_apart|apply ours_held_tracked|intros; by apply set_row_apart|]]; [intros ? y; cbn beta; by rewrite Z.add_0_r|].
  intros y Hb Hl Hfr Hh. pose proof Hh as (Ht & r & Eh & Hr). destruct (held_row y r Eh) as [Ero Hd]. rewrite Ero. left. exists (Some r), tt. split_and!; [done|by apply Hl|cbn; lia|].
  split; [exact Ht|]. exists r. split; [apply set_row_value|done].
Qed.
Lemma correct_spec c : v_present v = true → v_seen v = true → spec (middle apart held_tracked c) (correct env out v) (λ _, middle apart (written v) c) (rebase_inv X).
Proof.
  intros Hp Hse. eapply spec_post; [|eapply (row_stmt a _ apart held_tracked (λ _, written v) (λ _, 0)); [apply ours_apart|apply ours_held_tracked|intros; by apply set_row_apart|]]; [intros ? y; cbn beta; by rewrite Z.add_0_r|].
  intros y Hb Hl Hfr ((d & E1 & E2) & r & Eh & Hr). destruct (held_row y r Eh) as [Ero Hd]. rewrite Ero. left. eexists _, tt. split_and!; [done|by apply Hl|cbn; lia|].
  apply set_row_done. unfold row_read in E1. unfold want_read in E2. rewrite Hp in E1. rewrite Hse in E2. destruct Hr as [Hr|(_ & _ & Hn)]; [|rewrite Hn in E1; by destruct d].
  rewrite Hr in E1. destruct (truth_of y !! a) as [t|] eqn:Et; [|by destruct d]. by rewrite (corrected_tracked v d r t).
Qed.
Lemma create_spec c : creates v = true → spec (middle apart held_tracked c) (create env out v) (λ fresh, middle apart (written v) (c + b2z fresh)) (rebase_inv X).
Proof.
  intros Hcr. unfold creates in Hcr. rewrite !andb_true_iff, negb_true_iff in Hcr. destruct Hcr as [[[Hp Hse] _] _].
  eapply (row_stmt a _ apart held_tracked (λ _, written v) b2z); [apply ours_apart|apply ours_held_tracked|intros; by apply set_row_apart|].
  intros y Hb Hl Hfr ((d & E1 & E2) & r & Eh & Hr). destruct (held_row y r Eh) as [Ero Hd]. rewrite Ero. left. eexists _, false. split_and!; [done|by apply Hl|cbn; lia|].
  apply set_row_done. unfold row_read in E1. unfold want_read in E2. rewrite Hp in E1. rewrite Hse in E2. rewrite E2. destruct Hr as [Hr|(_ & -> & Hn)].
  - rewrite Hr in E1. destruct d as [q|]; [|done]. cbn in E1. injection E1 as ->. cbn. f_equal. apply (@splus_comm stat stat_semi q (v_want v)).
  - rewrite Hn in E1. destruct d as [q|]; [done|]. rewrite oplus_None_r. by rewrite no_stat_plus.
Qed.

Lemma middle_impl (F G : rebase_sys → Prop) c c' y : (∀ y, base y → F y → G y) → c = c' → middle apart F c y → middle apart G c' y.
Proof. intros H -> (Hb & Hl & (Hf & Hy) & Hc). exact (conj Hb (conj Hl (conj (conj Hf (H y Hb Hy)) Hc))). Qed.

Lemma write_row_spec c : spec (middle apart (ready S I v) c) (write_row env out S I v)
  (λ o, middle apart (written v) (c + Created o - Removed o - b2z (bool_decide (a ∈ I)))) (rebase_inv X).
Proof.
  unfold write_row. destruct (v_present v) eqn:Hp; cbn [andb].
  - assert (creates v = false) as Hcr by (unfold creates; by rewrite Hp). rewrite Hcr. cbn [andb].
    destruct (decide (a ∈ I)) as [HI|HI].
    { intros k y (_ & _ & (_ & Hr) & _). pose proof (re_inserted _ _ _ _ Hr HI). congruence. }
    rewrite (bool_decide_eq_false_2 (a ∈ I)) by done. destruct (negb (v_seen v) || bool_decide (a ∈ S)) eqn:Est.
    + eapply spec_bind; [by apply take_again|]. intros ?. eapply spec_bind; [apply recount_spec|]. intros gone. apply spec_ret. intros y. apply middle_impl; [done|]. cbn. lia.
    + apply orb_false_iff in Est as [Hse%negb_false_iff HS%bool_decide_eq_false_1].
      assert (∀ y, middle apart (ready S I v) c y → middle apart held_tracked c y) as Htr.
      { intros y. apply middle_impl; [|done]. intros z _ Hr. destruct (re_present _ _ _ _ Hr Hp) as [Hd|[? _]]; [|done]. by apply ready_tracked. }
      destruct (differs v) eqn:Hdf.
      * eapply (spec_bind _ _ _ (λ _, middle apart held_tracked c)).
        { destruct (sameBlock _ _ && _); [by apply spec_ret|]. eapply spec_pre, lock_tracked. exact Htr. }
        intros ?. eapply spec_bind; [by apply correct_spec|]. intros ?. apply spec_ret. intros y. apply middle_impl; [done|]. cbn. lia.
      * apply spec_ret. intros y Hy%Htr. revert Hy. apply middle_impl; [|cbn; lia]. intros z _ ((d & E1 & E2) & r & Eh & Hr). apply (written_value (Some r)); [done|].
        unfold row_read in E1. unfold want_read in E2. rewrite Hp in E1. rewrite Hse in E2. rewrite (differs_false v Hdf) in E1. destruct Hr as [Hr|(? & _)]; [|done]. congruence.
  - destruct (creates v) eqn:Hcr; cbn [andb].
    + destruct (decide (a ∈ S)) as [HS|HS]; [rewrite bool_decide_eq_true_2 by done|rewrite bool_decide_eq_false_2 by done].
      * eapply spec_bind; [eapply spec_pre; [|apply recount_spec]|].
        { intros y. apply middle_impl; [|reflexivity]. intros z _ Hr. left. apply ready_held; [done|]. by apply (re_creates _ _ _ _ Hr). }
        intros gone. apply spec_ret. intros y. apply middle_impl; [done|]. destruct (bool_decide (a ∈ I)), gone; cbn; lia.
      * eapply spec_bind; [eapply spec_pre; [|by apply create_spec]|].
        { intros y. apply middle_impl; [|reflexivity]. intros z _ Hr. apply ready_tracked; [done| |done]. by apply (re_creates _ _ _ _ Hr). }
        intros fresh. apply spec_ret. intros y. apply middle_impl; [done|]. cbn. lia.
    + apply spec_ret. intros y Hy. pose proof Hy as (_ & _ & (_ & Hr) & _). assert (a ∉ I) as HI by (intros HI; pose proof (re_inserted _ _ _ _ Hr HI); congruence).
      revert Hy. apply middle_impl; [|rewrite bool_decide_eq_false_2 by done; cbn; lia]. intros z _ Hz. assert (a ∉ dom (held z)) as Hd by (intros Hd; destruct (re_held _ _ _ _ Hz Hd); congruence).
      split; [intros b Hb; destruct Hd; apply elem_of_dom; by rewrite Hb|by rewrite Hp|by rewrite Hcr].
Qed.
End Write.

(** ** A batch *)

Definition left_to (I : gset gostring) (rest : list rebaseRow) : Z := Z.of_nat (size (I ∩ list_to_set (v_address <$> rest))).
Lemma left_cons I v rest : v_address v ∉ v_address <$> rest → left_to I (v :: rest) = b2z (bool_decide (v_address v ∈ I)) + left_to I rest.
Proof.
  intros Hv. unfold left_to. cbn [fmap list_fmap list_to_set]. assert (v_address v ∉ (list_to_set (v_address <$> rest) : gset gostring)) as Hv' by by rewrite elem_of_list_to_set.
  case_bool_decide as HI; cbn [b2z].
  - replace (I ∩ ({[ v_address v ]} ∪ list_to_set (v_address <$> rest))) with ({[ v_address v ]} ∪ (I ∩ list_to_set (v_address <$> rest)) : gset gostring) by set_solver.
    rewrite size_union by set_solver. rewrite size_singleton. lia.
  - replace (I ∩ ({[ v_address v ]} ∪ list_to_set (v_address <$> rest))) with (I ∩ list_to_set (v_address <$> rest) : gset gostring) by set_solver. lia.
Qed.

Lemma write_rows_spec S I rest : ∀ pre r, read = pre ++ rest →
  spec (writing S I pre rest (Created r - Removed r + left_to I rest)) (write_rows env out S I rest r) (λ r, writing S I read [] (Created r - Removed r)) (rebase_inv X).
Proof.
  induction rest as [|v rest IH]; intros pre r Er; cbn [write_rows].
  - rewrite app_nil_r in Er. subst pre. apply spec_ret. intros y. unfold left_to. cbn. rewrite intersection_empty_r_L, size_empty. by rewrite Z.add_0_r.
  - assert (v_address v ∉ v_address <$> rest) as Hv. { pose proof Hnd as H. rewrite Er, fmap_app in H. cbn in H. apply NoDup_app in H as (_ & _ & H). by apply NoDup_cons in H as [H _]. }
    eapply spec_bind; [eapply spec_pre; [|by apply (write_row_spec S I pre rest v)]|].
    + intros y (Hb & Hl & (H1 & H2 & H3) & Hc). refine (conj Hb (conj Hl (conj (conj (conj H1 (conj _ H3)) _) Hc))); [intros u Hu; apply H2; by right|apply H2; by left].
    + intros o. cbn beta. eapply spec_pre, (IH (pre ++ [v]) (add_result r o)); [|by rewrite Er, <-app_assoc]. intros y (Hb & Hl & ((H1 & H2 & H3) & H4) & Hc).
      refine (conj Hb (conj Hl (conj (conj _ (conj H2 H3)) _))).
      * intros u [Hu| ->%list_elem_of_singleton]%elem_of_app; [by apply H1|done].
      * rewrite Hc, (left_cons I v rest Hv). cbn. lia.
Qed.
End Batch.
