(* ===== verification/AddressRebaseProps.v ===== *)
(** * Rebases settle their addresses

    The batch as one transaction, [RebaseAddresses], the repair that halves its batches,
    and the rebase of the closed spans. *)

From S2P Require Import Prelude Tally Session Balances AddressTruth AddressRebase AddressRebaseSpec AddressRebaseRun.

Definition either (X : known) (Y : gostring → Prop) : known := mkKnown (λ a, k_settled X a ∨ Y a) (k_spans X) (k_flags X).
(** The addresses a batch settles: those with a row, those it may create, and those that
    have neither row nor truth. *)
Definition gains (read : list rebaseRow) (a : gostring) : Prop := ∃ v, v ∈ read ∧ v_address v = a ∧ (v_present v = true ∨ v_creatable v = true ∨ v_seen v = false).

Lemma inv_impl X Y y : (∀ a, k_settled X a → k_settled Y a) → k_spans X = k_spans Y → k_flags X = k_flags Y → rebase_inv Y y → rebase_inv X y.
Proof. intros H E1 E2 (H1 & H2 & H3 & H4 & H5 & H6). refine (conj H1 (conj H2 (conj H3 (conj _ (conj _ _))))); [auto|by rewrite E1|by rewrite E2]. Qed.

Section Commit.
Context (X : known) (read later : list rebaseRow) (Hread : Forall read_ok read) (Hnd : NoDup (v_address <$> read ++ later)).

(** Every row is written; [c] more rows, and [t] to be counted. *)
Record sealed (c t : Z) (y : rebase_sys) : Prop := {
  se_inv : rebase_inv X y; se_held : r_held y = true; se_follows : ∀ v, v ∈ read ++ later → follows v y; se_locked : locked y;
  se_written : ∀ u, u ∈ read → written u y; se_dom : ∀ i, i ∈ dom (held y) → i ∈ v_address <$> read;
  se_net : net (held y) (rows_of y) = c; se_total : x_total (r_tx y) = t; se_seen : ∀ i, i ∈ dom (x_seen (r_tx y)) → i ∈ v_address <$> read }.

Lemma sealed_stable c t : stable rebase_step (sealed c t).
Proof.
  intros y y' Hs [H1 H2 H3 H4 H5 H6 H7 H8 H9]. pose proof (proj1 H1) as Hok. pose proof (step_untouched y y' Hs Hok H2 H4) as Hu. split; rewrite ?(un_tx _ _ Hu); try done.
  - by apply (rebase_step_inv X y).
  - by rewrite (un_held _ _ Hu).
  - intros v Hv. apply (step_follows v y); auto.
  - intros a Ha. rewrite (un_tx _ _ Hu) in Ha. rewrite (un_rows _ _ Hu a Ha), (un_revlock _ _ Hu). by apply H4.
  - intros u Hi. apply (ours_written u y); auto.
  - rewrite <-H7. apply net_same, (un_rows _ _ Hu).
Qed.
Lemma writing_sealed S I c y : writing X read later S I read [] c y → sealed c 0 y.
Proof.
  intros ((H1 & (H2 & H3 & H4) & H5) & Hl & (H6 & _ & H7) & Hc). split; try done. intros i. rewrite H4, dom_empty_L. by intros ?%elem_of_empty.
Qed.

(** *** The commit *)

Context (y : rebase_sys) (c : Z) (Hs : sealed c c y).
Notation y' h := (mkRebase (commit_tx y) h false no_tx (r_astray y)).

Lemma commit_truth a : ledger_address_truth (commit_tx y) !! a = truth_of y !! a.
Proof. by apply rebase_frame. Qed.
Lemma commit_held a : a ∈ dom (held y) → exact a (commit_tx y).
Proof.
  intros Ha. unfold exact. rewrite commit_truth. cbn [commit_tx t_rows]. rewrite apply_rows_lookup. pose proof Ha as [b Hb]%elem_of_dom. rewrite Hb.
  apply (se_dom _ _ _ Hs), list_elem_of_fmap in Ha as (u & -> & Hu). by apply (wr_value _ _ (se_written _ _ _ Hs u Hu)).
Qed.
Lemma commit_free a : a ∉ dom (held y) → t_rows (commit_tx y) !! a = rows_of y !! a.
Proof. intros Ha. cbn [commit_tx t_rows]. rewrite apply_rows_lookup. by apply not_elem_of_dom in Ha as ->. Qed.
Lemma commit_settled h a : settled a y → settled a (y' h).
Proof.
  intros [Hex|Ha]; [left|by right]. cbn [r_db]. destruct (decide (a ∈ dom (held y))); [by apply commit_held|]. unfold exact. rewrite commit_truth, commit_free by done. exact Hex.
Qed.
Lemma commit_ok : stats_ok (commit_tx y) ∧ counted_rows (commit_tx y).
Proof.
  pose proof (se_inv _ _ _ Hs) as (Hok & Hc & _). split.
  - apply (ok_frame (r_db y)); try done. cbn [commit_tx t_reverted]. apply map_filter_subseteq.
  - unfold counted_rows in *. cbn [commit_tx t_total t_rows]. pose proof (se_net _ _ _ Hs) as Hn. rewrite (se_total _ _ _ Hs). unfold net in Hn. lia.
Qed.
Lemma commit_inv h : rebase_inv (either X (gains read)) (y' h).
Proof.
  pose proof (se_inv _ _ _ Hs) as (Hok & Hc & Hsp & HX & HX2 & HX3). destruct commit_ok as [Hok' Hc']. refine (conj Hok' (conj Hc' (conj _ (conj _ (conj HX2 HX3))))).
  - intros lo hi L a E1 E2 Ha Hz. apply commit_settled. by apply (Hsp lo hi L).
  - intros a [Ha|(v & Hv & <- & Hor)]; [by apply commit_settled, HX|]. pose proof (se_written _ _ _ Hs v Hv) as Hw. pose proof (se_follows _ _ _ Hs v (elem_of_app_l v read later Hv)) as Hf.
    assert (v_address v ∈ dom (held y) ∨ settled (v_address v) y) as [Hd|Hd]; [|left; by apply commit_held|by apply commit_settled].
    destruct (v_present v) eqn:Hp; [by apply (wr_present _ _ Hw)|]. destruct (v_seen v) eqn:Hse; [|right; by apply (fo_none v y Hf)].
    destruct Hor as [?|[Hcr|?]]; [done| |done]. left. apply (wr_creates _ _ Hw). apply creates_iff; try done. rewrite Forall_forall in Hread. by apply Hread.
Qed.
(** Rows of the same snapshot that are not this batch's are followed on. *)
Lemma commit_follows h v : v ∈ later → follows v (y' h).
Proof.
  intros Hv. assert (v_address v ∉ v_address <$> read) as Hn.
  { intros Hin. rewrite fmap_app in Hnd. apply NoDup_app in Hnd as (_ & Hd & _). apply (Hd _ Hin). apply list_elem_of_fmap. by exists v. }
  destruct (se_follows _ _ _ Hs v (proj2 (elem_of_app _ _ _) (or_intror Hv))) as [F1 F2 F3].
  assert (t_rows (commit_tx y) !! v_address v = rows_of y !! v_address v) as Er by (apply commit_free; intros Hd; by apply Hn, (se_dom _ _ _ Hs)).
  split; cbn [r_db].
  - destruct F1 as [(d & E1 & E2)|[(ver & Ev & Hlt) F]]; [left; exists d; cbn [r_db]; by rewrite Er, commit_truth|right]. split.
    + exists ver. split; [|done]. cbn [r_db commit_tx t_reverted]. apply map_lookup_filter_Some. split; [done|]. cbn. intros E. apply Hn, (se_seen _ _ _ Hs), elem_of_dom. by rewrite E.
    + intros Hp. destruct (F Hp) as [?|?]; [left; by rewrite Er|right; by apply commit_settled].
  - intros Hp Hse. by apply commit_settled, F2.
  - done.
Qed.
End Commit.

(** ** Transactions *)

Section Calls.
Context (env : nat → rebase_sys → rebase_sys) (out : nat → stmt_end) (Henv : ∀ k y, rtc rebase_step y (env k y)).
Notation spec_stmt := (spec_stmt env out rebase_step Henv).
Notation spec_mem := (spec_mem env rebase_step Henv).

Lemma inv_stable X : stable rebase_step (rebase_inv X).
Proof. intros y y'. apply rebase_step_inv. Qed.
(** A statement that changes nothing modelled. *)
Definition quiet (m : M rebase_sys unit) : Prop := ∀ (P E : rebase_sys → Prop), stable rebase_step P → (∀ y, P y → E y) → spec P m (λ _, P) E.
Lemma quiet_ret : quiet (ret tt).
Proof. intros P E _ _. by apply spec_ret. Qed.
Lemma quiet_elsewhere : quiet (elsewhere env out).
Proof. intros P E HP HE. apply spec_stmt; [done|]. cbn. auto. Qed.

Section Apply.
Context (X : known) (read later : list rebaseRow) (Hread : Forall read_ok read) (Hnd : NoDup (v_address <$> read ++ later)).

Lemma sealed_stmt (P : bool) (f : rebase_sys → rebase_sys) c t t' : (∀ y, sealed X read later c t y → sealed X read later c t' (f y)) → (P = false → t = t') →
  spec (sealed X read later c t) (if P then stmt env out (λ y, (f y, Some tt)) else ret tt) (λ _, sealed X read later c t') (rebase_inv X).
Proof.
  intros Hf Ht. destruct P; [|apply spec_ret; by rewrite Ht]. apply spec_stmt; [apply sealed_stable|]. cbn. intros y Hy. pose proof (Hf y Hy) as Hy'.
  split_and!; [apply Hy|apply Hy'|done].
Qed.
(** Only what the transaction adds besides its rows changes. *)
Lemma sealed_tx c t t' y n days seen : sealed X read later c t y → t' = n → (∀ i, i ∈ dom (seen : gmap gostring Z) → i ∈ v_address <$> read) →
  sealed X read later c t' (set_tx (mkRebaseTx (held y) n days seen) y).
Proof. intros [H1 H2 H3 H4 H5 H6 H7 H8 H9] -> Hseen. split; try done; try apply H1; intros v Hv; [destruct (H3 v Hv); by split|destruct (H5 v Hv); by split]. Qed.

Lemma seen_addresses (l : list rebaseRow) i : i ∈ dom (list_to_map (omap (λ v, (λ ver, (v_address v, ver)) <$> v_reverted v) l) : gmap gostring Z) → i ∈ v_address <$> l.
Proof.
  intros Hi. apply elem_of_dom in Hi as [ver Hi]. apply elem_of_list_to_map_2 in Hi. apply list_elem_of_omap in Hi as (v & Hv & E). destruct (v_reverted v); [|done]. injection E as <- _.
  apply list_elem_of_fmap. by exists v.
Qed.

Lemma apply_sorted_spec after : quiet after →
  spec (start X read later) (bind (revertedSinceRead env out read) (λ '(stale, inserted), bind (write_rows env out stale inserted read no_result) (λ r,
    bind (if decide (Created r = Removed r) then ret tt else stmt env out (λ y, (add_total (Created r - Removed r) y, Some tt))) (λ _,
    bind (if decide (FirstSeenFrom r = None) then ret tt else stmt env out (λ y, (add_days y, Some tt))) (λ _,
    bind (if existsb (λ v, bool_decide (is_Some (v_reverted v))) read then stmt env out (λ y, (delete_seen read y, Some tt)) else ret tt) (λ _,
    bind after (λ _, ret r)))))))
    (λ r y, sealed X read later (Created r - Removed r) (Created r - Removed r) y) (rebase_inv X).
Proof.
  intros Hq. assert (NoDup (v_address <$> read)) as Hnd' by (rewrite fmap_app in Hnd; by apply NoDup_app in Hnd as [? _]).
  eapply spec_bind; [by apply revertedSinceRead_spec|]. intros [S I]. cbn beta iota. cbn [fst snd].
  eapply spec_bind; [eapply spec_pre; [|by apply (write_rows_spec X read later Hread Hnd' env out Henv S I read [] no_result)]|].
  { intros y [HI Hw]. unfold left_to. replace (I ∩ list_to_set (v_address <$> read)) with I by set_solver. exact Hw. }
  intros r. set (c := Created r - Removed r). apply (spec_pre _ (sealed X read later c 0)); [intros y; apply writing_sealed|].
  eapply (spec_bind _ _ _ (λ _, sealed X read later c c)).
  { pose proof (sealed_stmt (negb (bool_decide (Created r = Removed r))) (add_total c) c 0 c) as H. case_decide as Hd.
    - rewrite bool_decide_eq_true_2 in H by done. apply H; [|cbn; intros _; unfold c; lia]. intros y Hy. eapply sealed_tx; [exact Hy|rewrite (se_total _ _ _ _ _ _ Hy); lia|apply Hy].
    - rewrite bool_decide_eq_false_2 in H by done. apply H; [|done]. intros y Hy. eapply sealed_tx; [exact Hy|rewrite (se_total _ _ _ _ _ _ Hy); lia|apply Hy]. }
  intros ?. eapply (spec_bind _ _ _ (λ _, sealed X read later c c)).
  { pose proof (sealed_stmt (negb (bool_decide (FirstSeenFrom r = None))) add_days c c c) as H. case_decide as Hd; [rewrite bool_decide_eq_true_2 in H by done|rewrite bool_decide_eq_false_2 in H by done];
      (apply H; [|done]; intros y Hy; eapply sealed_tx; [exact Hy|by rewrite (se_total _ _ _ _ _ _ Hy)|apply Hy]). }
  intros ?. eapply (spec_bind _ _ _ (λ _, sealed X read later c c)).
  { apply sealed_stmt; [|done]. intros y Hy. eapply sealed_tx; [exact Hy|by rewrite (se_total _ _ _ _ _ _ Hy)|]. intros i. apply seen_addresses. }
  intros ?. eapply spec_bind; [apply Hq; [apply sealed_stable|]; intros y Hy; apply Hy|]. intros ?. by apply spec_ret.
Qed.
End Apply.

Lemma start_perm X read read' later y : read ≡ₚ read' → start X read later y → start X read' later y.
Proof. intros Hp [(H1 & H2 & H3) H4]. refine (conj (conj H1 (conj H2 _)) H4). intros v. rewrite <-Hp. apply H3. Qed.
Lemma gains_perm read read' a : read ≡ₚ read' → gains read a → gains read' a.
Proof. intros Hp (v & Hv & H). exists v. by rewrite <-Hp. Qed.

(** [idle]: no transaction is open. *)
Definition idle (y : rebase_sys) : Prop := r_tx y = no_tx ∧ r_revlock y = false.
Lemma idle_stable : stable rebase_step idle.
Proof. intros y y' Hs [? ?]. by destruct Hs. Qed.

(** A batch of rows read in one snapshot, applied in a transaction: its addresses are
    settled, the rows of later batches are followed on; or nothing has happened. *)
Lemma tx_spec {A} session X (P : rebase_sys → Prop) (m : M rebase_sys A) (R : list rebaseRow → Prop) later :
  (∀ read, R read → Forall read_ok read ∧ NoDup (v_address <$> read ++ later)) →
  spec P m (λ _ y, ∃ read c, R read ∧ sealed X read later c c y) (rebase_inv X) →
  spec P (in_tx env out session m)
    (λ _ y, (∃ read, R read ∧ rebase_inv (either X (gains read)) y) ∧ idle y ∧ r_held y = session ∧ ∀ v, v ∈ later → session = true → follows v y)
    (λ y, rebase_inv X y ∧ idle y ∧ (session = false → r_held y = false)).
Proof.
  intros HR Hm. unfold in_tx. apply (spec_on_error _ _ _ _ _ (rebase_inv X)).
  - eapply spec_bind; [exact Hm|]. intros x. eapply (spec_bind _ _ _ (λ _ y, (∃ read, R read ∧ rebase_inv (either X (gains read)) y) ∧ idle y ∧ r_held y = session ∧ ∀ v, v ∈ later → session = true → follows v y)).
    + apply spec_stmt.
      * intros y y' Hs (read & c & Hr & Hy). exists read, c. split; [done|]. by apply (sealed_stable X read later c c y).
      * intros y (read & c & Hr & Hy). destruct (HR read Hr) as [Hok Hnd]. cbn [fst snd]. pose proof (commit_inv X read later Hok y c Hy (r_held y && session)) as Hci. split_and!.
        -- apply Hy.
        -- revert Hci. apply inv_impl; [by left|done|done].
        -- intros [] _. refine (conj (ex_intro _ read (conj Hr Hci)) (conj (conj eq_refl eq_refl) (conj _ _))).
           ++ cbn. by rewrite (se_held _ _ _ _ _ _ Hy).
           ++ intros v Hv _. by apply (commit_follows X read later Hnd y c Hy).
    + intros ?. by apply spec_ret.
  - apply spec_mem; [apply inv_stable|]. intros y Hy. cbn [fst snd]. refine (conj Hy (conj (conj eq_refl eq_refl) _)). cbn. intros ->. by rewrite andb_false_r.
Qed.

Lemma applyRebaseRows_spec X read later after : Forall read_ok read → NoDup (v_address <$> read ++ later) → quiet after →
  spec (start X read later) (applyRebaseRows env out read after) (λ _ y, ∃ read' c, read' ≡ₚ read ∧ sealed X read' later c c y) (rebase_inv X).
Proof.
  intros Hok Hnd Hq. pose proof (merge_sort_Permutation byte_le read) as Hp. unfold applyRebaseRows. cbv zeta. set (l := merge_sort byte_le read) in *. clearbody l.
  apply (spec_pre _ (start X l later)); [intros y; by apply start_perm|]. eapply spec_post; [|apply apply_sorted_spec; [by rewrite Hp|by rewrite Hp|done]].
  intros r y Hy. by exists l, (Created r - Removed r).
Qed.

(** ** Rebasing addresses *)

Definition quiescent (X : known) (y : rebase_sys) : Prop := rebase_inv X y ∧ idle y ∧ r_held y = false.
Lemma quiescent_stable X : stable rebase_step (quiescent X).
Proof. intros y y' Hs (H1 & H2 & H3). refine (conj (rebase_step_inv X y y' Hs H1) (conj (idle_stable y y' Hs H2) _)). by destruct Hs. Qed.
Lemma quiescent_impl X Y y : (∀ a, k_settled X a → k_settled Y a) → k_spans X = k_spans Y → k_flags X = k_flags Y → quiescent Y y → quiescent X y.
Proof. intros H E1 E2 (H1 & H2). split; [by apply (inv_impl X Y)|done]. Qed.

Definition working (X : known) (y : rebase_sys) : Prop := rebase_inv X y ∧ r_held y = true ∧ r_tx y = no_tx.
Lemma working_stable X : stable rebase_step (working X).
Proof. intros y y' Hs (H1 & H2 & H3). refine (conj (rebase_step_inv X y y' Hs H1) _). by destruct Hs. Qed.
Lemma lock_spec X (P : rebase_sys → Prop) : stable rebase_step P → (∀ y, P y → rebase_inv X y ∧ r_tx y = no_tx) → spec P (rebase_lock env out) (λ _, working X) (rebase_inv X).
Proof. intros HP H. apply spec_stmt; [done|]. intros y Hy. destruct (H y Hy) as [Hi Ht]. cbn [fst snd]. split_and!; [done|exact Hi|]. intros [] _. by split. Qed.

Definition reads (batch : list gostring) (create : gset gostring) (read : list rebaseRow) : Prop :=
  v_address <$> read = batch ∧ Forall read_ok read ∧ ∀ v, v ∈ read → v_address v ∈ create → v_creatable v = true.
Lemma locked_spec X batch create inBatch : NoDup batch → quiet inBatch →
  spec (working X) (rebaseAddressBatchLocked env out batch create inBatch) (λ _ y, ∃ read c, (∃ read', reads batch create read' ∧ read ≡ₚ read') ∧ sealed X read [] c c y) (rebase_inv X).
Proof.
  intros Hnd Hq. unfold rebaseAddressBatchLocked. apply (spec_bind _ _ _ (λ read y, reads batch create read ∧ start X read [] y)).
  - apply spec_stmt; [apply working_stable|]. intros y (Hi & Hh & Ht). cbn [fst snd]. split_and!; [done|done|]. intros read [= <-]. pose proof (proj1 Hi) as Hok. split; [split_and!|].
    + rewrite <-list_fmap_compose. apply list_fmap_id.
    + apply Forall_fmap, Forall_true. intros a. by apply read_row_ok.
    + intros v (a & -> & _)%list_elem_of_fmap Ha. cbn in *. by apply bool_decide_eq_true_2.
    + refine (conj (conj Hi (conj (conj Hh _) _)) Ht); [by rewrite Ht|]. intros v. rewrite app_nil_r. intros (a & -> & _)%list_elem_of_fmap. by apply read_row_follows.
  - intros read k y [Hr Hst]. pose proof Hr as (Ha & Hok & _). pose proof (applyRebaseRows_spec X read [] inBatch Hok ltac:(by rewrite app_nil_r, Ha) Hq k y Hst) as Hsp.
    destruct (applyRebaseRows env out read inBatch k y) as [[k' y'] [r|]]; [|done]. destruct Hsp as (read' & c & Hp & Hs). exists read', c. split; [by exists read|done].
Qed.

(** The transaction of a batch: the lock, then the batch. *)
Definition batch_tx (batch : list gostring) (create : gset gostring) (inBatch : M rebase_sys unit) : M rebase_sys RebaseResult :=
  in_tx env out false (bind (rebase_lock env out) (λ _, rebaseAddressBatchLocked env out batch create inBatch)).
Definition both (batch : list gostring) (create : gset gostring) (a : gostring) : Prop := a ∈ batch ∧ a ∈ create.
Lemma rebase_batch_spec X batch create inBatch : NoDup batch → quiet inBatch →
  spec (quiescent X) (batch_tx batch create inBatch) (λ _, quiescent (either X (both batch create))) (quiescent X).
Proof.
  intros Hnd Hq k y Hy. set (R := λ read, ∃ read', reads batch create read' ∧ read ≡ₚ read').
  assert (∀ read, R read → Forall read_ok read ∧ NoDup (v_address <$> read ++ [])) as HR.
  { intros read (read' & (E & Hok & _) & Hp). rewrite Hp. split; [done|]. by rewrite app_nil_r, E. }
  assert (spec (quiescent X) (bind (rebase_lock env out) (λ _, rebaseAddressBatchLocked env out batch create inBatch)) (λ _ y, ∃ read c, R read ∧ sealed X read [] c c y) (rebase_inv X)) as Hm.
  { eapply spec_bind; [apply (lock_spec X (quiescent X)); [apply quiescent_stable|by intros z (? & [? _] & _)]|]. intros ?. by apply locked_spec. }
  pose proof (tx_spec false X (quiescent X) _ R [] HR Hm k y Hy) as Hb.
  unfold batch_tx. destruct (in_tx env out false _ k y) as [[k' y'] [r|]]; [|by destruct Hb as (H1 & H2 & H3); refine (conj H1 (conj H2 _)); auto].
  destruct Hb as ((read & (read' & (E & _ & Hcr) & Hp) & Hi) & Hid & Hh & _). refine (conj _ (conj Hid Hh)). revert Hi. apply inv_impl; [|done|done]. intros a [Ha|[Hb Hc]]; [by left|right].
  apply (gains_perm read' read); [done|]. rewrite <-E in Hb. apply list_elem_of_fmap in Hb as (v & -> & Hv). exists v. split_and!; [done|done|]. right. left. by apply Hcr.
Qed.

Lemma rebase_batches_spec bs create inBatch : quiet inBatch → Forall NoDup bs → ∀ X total,
  spec (quiescent X) (rebase_batches env out bs create inBatch total) (λ _, quiescent (either X (both (concat bs) create))) (quiescent X).
Proof.
  intros Hq Hnd. induction Hnd as [|b bs Hb Hnd IH]; intros X total; cbn [rebase_batches].
  - apply spec_ret. intros y. apply quiescent_impl; [|done|done]. intros a [?|[?%not_elem_of_nil _]]; done.
  - intros k y Hy. unfold bind. pose proof (rebase_batch_spec X b (create ∩ list_to_set b) inBatch Hb Hq k y Hy) as H1. change (rebaseAddressBatch env out b (create ∩ list_to_set b) inBatch k y) with (batch_tx b (create ∩ list_to_set b) inBatch k y).
    destruct (batch_tx b _ inBatch k y) as [[k' y'] [r|]]; [|done]. specialize (IH _ (add_result total r) k' y' H1). destruct (rebase_batches env out bs create inBatch _ k' y') as [[k'' y''] [r'|]].
    + revert IH. apply quiescent_impl; [|done|done]. intros a [Ha|[Ha Hc]]; [left; by left|]. cbn [concat] in Ha. apply elem_of_app in Ha as [Ha|Ha]; [left; right|right; by split]. split; [done|].
      apply elem_of_intersection. split; [done|by apply elem_of_list_to_set].
    + revert IH. apply quiescent_impl; [by left|done|done].
Qed.

Lemma batches_concat {A} fuel (l : list A) : (length l ≤ fuel)%nat → concat (batches fuel l) = l.
Proof.
  revert l. induction fuel as [|fuel IH]; intros [|x l] Hl; try done; [cbn in Hl; lia|]. cbn [batches concat]. rewrite IH; [apply take_drop|].
  rewrite length_drop. unfold rebaseBatch. cbn in Hl. cbn [length]. lia.
Qed.
Lemma concat_nodup {A} (bs : list (list A)) : NoDup (concat bs) → Forall NoDup bs.
Proof. induction bs as [|b bs IH]; [constructor|]. cbn. intros (H1 & _ & H2)%NoDup_app. constructor; auto. Qed.
Lemma rebaseAddresses_spec X addresses create inBatch : quiet inBatch → NoDup addresses →
  spec (quiescent X) (rebaseAddresses env out addresses create inBatch) (λ _, quiescent (either X (λ a, a ∈ addresses ∧ a ∈ create))) (quiescent X).
Proof.
  intros Hq Hnd. pose proof (merge_sort_Permutation address_le addresses) as Hp. unfold rebaseAddresses. cbv zeta. set (l := merge_sort address_le addresses) in *. clearbody l.
  pose proof (batches_concat (length l) l ltac:(lia)) as E. eapply spec_post; [|apply rebase_batches_spec; [done|]; apply concat_nodup; by rewrite E, Hp].
  intros r y. apply quiescent_impl; [|done|done]. intros a [Ha|[Ha Hc]]; [by left|right]. split; [by rewrite E, Hp|by apply elem_of_list_to_set].
Qed.

(** *** The repair *)

Lemma repairAddresses_spec timedOut fuel : ∀ X addresses, NoDup addresses →
  spec (quiescent X) (repairAddresses env out timedOut fuel addresses) (λ _, quiescent (either X (.∈ addresses))) (quiescent X).
Proof.
  induction fuel as [|fuel IH]; intros X addresses Hnd; cbn [repairAddresses]; [by apply spec_fail|]. intros k y Hy.
  pose proof (rebase_batch_spec X addresses (list_to_set addresses) (ret tt) Hnd quiet_ret k y Hy) as H1. unfold batch_tx in H1. destruct (in_tx env out false _ k y) as [[k' y'] [r|]].
  { revert H1. apply quiescent_impl; [|done|done]. intros a [?|Ha]; [by left|right]. split; [done|by apply elem_of_list_to_set]. }
  destruct (negb (timedOut k')); [done|]. destruct (length addresses =? 1)%nat; [done|]. set (half := Nat.div (length addresses) 2). clearbody half.
  assert (NoDup (take half addresses) ∧ NoDup (drop half addresses)) as [Hn1 Hn2] by (rewrite <-(take_drop half addresses) in Hnd; by apply NoDup_app in Hnd as (? & _ & ?)).
  assert (spec (quiescent X) (bind (repairAddresses env out timedOut fuel (take half addresses)) (λ first, bind (repairAddresses env out timedOut fuel (drop half addresses)) (λ second, ret (add_result first second))))
    (λ _, quiescent (either X (.∈ addresses))) (quiescent X)) as Hsp; [|by apply Hsp].
  eapply spec_bind; [by apply IH|]. intros first. intros k2 y2 Hy2. unfold bind. pose proof (IH _ (drop half addresses) Hn2 k2 y2 Hy2) as H2.
  destruct (repairAddresses env out timedOut fuel (drop half addresses) k2 y2) as [[k3 y3] [r3|]]; cbn.
  - revert H2. apply quiescent_impl; [|done|done]. intros a [Ha|Ha]; [left; by left|]. rewrite <-(take_drop half addresses) in Ha. apply elem_of_app in Ha as [Ha|Ha]; [left; by right|by right].
  - revert H2. apply quiescent_impl; [by left|done|done].
Qed.
(** The halves end: more fuel than addresses makes no difference. *)
Lemma repair_fuel timedOut fuel : ∀ fuel' addresses, addresses ≠ [] → (length addresses ≤ fuel)%nat → (length addresses ≤ fuel')%nat → ∀ k y,
  repairAddresses env out timedOut fuel addresses k y = repairAddresses env out timedOut fuel' addresses k y.
Proof.
  induction fuel as [|fuel IH]; intros [|fuel'] addresses Hne H1 H2 k y; [done|destruct addresses; [done|cbn in H1; lia]|destruct addresses; [done|cbn in H2; lia]|].
  cbn [repairAddresses]. destruct (in_tx env out false _ k y) as [[k' y'] [r|]]; [done|]. destruct (negb (timedOut k')); [done|]. destruct (Nat.eqb_spec (length addresses) 1) as [|Hl]; [done|].
  set (half := Nat.div (length addresses) 2). assert (0 < half < length addresses)%nat as Hh.
  { assert (length addresses ≠ 0)%nat by (by destruct addresses). split; [apply Nat.div_str_pos; lia|apply Nat.div_lt; lia]. }
  clearbody half. assert (take half addresses ≠ [] ∧ drop half addresses ≠ []) as [Ht Hd].
  { split; intros E; apply (f_equal length) in E; rewrite ?length_take, ?length_drop in E; cbn in E; lia. }
  unfold bind. rewrite (IH fuel' (take half addresses)) by (try done; rewrite length_take; lia). destruct (repairAddresses env out timedOut fuel' (take half addresses) k' y') as [[k2 y2] [r2|]]; [|done].
  by rewrite (IH fuel' (drop half addresses)) by (try done; rewrite length_drop; lia).
Qed.
End Calls.
