(* ===== verification/AddressRebaseSpans.v ===== *)
(** * The rebase of the closed spans, and what the rebases promise *)

From S2P Require Import Prelude Tally Session Balances AddressTruth AddressRebase AddressRebaseSpec AddressRebaseRun AddressRebaseProps.

(** ** Marking a span *)

Lemma closed_mark lo s : closed_through (mark_rebased lo s) = closed_through s.
Proof.
  assert (∀ m : gmap Z (Z * bool), map_fold (λ _ hr m, hr.1 `max` m) 0 m = map_fold (λ _ (h : Z) m, h `max` m) 0 (fst <$> m)) as E by (intros m; by rewrite map_fold_fmap).
  unfold closed_through. cbn [mark_rebased t_spans]. rewrite !E. f_equal. apply map_eq. intros i. rewrite !lookup_fmap. destruct (decide (i = lo)) as [->|]; [rewrite lookup_alter_eq|by rewrite lookup_alter_ne].
  by destruct (t_spans s !! lo) as [[]|].
Qed.
Lemma mark_spans lo s i hi b : t_spans (mark_rebased lo s) !! i = Some (hi, b) → ∃ b', t_spans s !! i = Some (hi, b') ∧ (b = b' ∨ i = lo).
Proof.
  cbn [mark_rebased t_spans]. destruct (decide (i = lo)) as [->|]; [rewrite lookup_alter_eq|rewrite lookup_alter_ne by done; eauto].
  destruct (t_spans s !! lo) as [[hi' b']|]; [|done]. intros [= <- _]. eauto.
Qed.
Lemma mark_spans_inv lo s i hi b : t_spans s !! i = Some (hi, b) → ∃ b', t_spans (mark_rebased lo s) !! i = Some (hi, b') ∧ (b = true ∨ i = lo → b' = true).
Proof.
  intros E. cbn [mark_rebased t_spans]. destruct (decide (i = lo)) as [->|]; [rewrite lookup_alter_eq, E|rewrite lookup_alter_ne, E by done]; eexists; (split; [done|]); [done|by intros [?|?]].
Qed.
Lemma mark_truth lo s a : ledger_address_truth (mark_rebased lo s) !! a = ledger_address_truth s !! a.
Proof. unfold ledger_address_truth, open_blocks. rewrite closed_mark. done. Qed.
Lemma mark_ok lo s : stats_ok s → stats_ok (mark_rebased lo s).
Proof.
  intros [H1 H2 H3 H4 H5 H6 H7]. split; rewrite ?closed_mark; try done.
  - intros lo' L EL. destruct (H2 lo' L EL) as (hi & b & E & Hc). destruct (mark_spans_inv lo s lo' hi b E) as (b' & E' & _). by exists hi, b'.
  - intros lo' hi b (b' & E & _)%mark_spans. by apply (H3 lo' hi b').
  - intros lo1 hi1 b1 lo2 hi2 b2 (b1' & E1 & _)%mark_spans (b2' & E2 & _)%mark_spans. by apply (H4 lo1 hi1 b1' lo2 hi2 b2').
  - intros n D E Hn. destruct (H5 n D E Hn) as (lo' & hi & b & E' & ?). destruct (mark_spans_inv lo s lo' hi b E') as (b' & ? & _). by exists lo', hi, b'.
Qed.
Definition marked (lo : Z) (y : rebase_sys) : rebase_sys := mkRebase (mark_rebased lo (r_db y)) (r_held y) (r_revlock y) (r_tx y) (r_astray y).
Definition flag (X : known) (lo hi : Z) : known := mkKnown (k_settled X) (k_spans X) ((lo, hi, true) :: k_flags X).
Lemma mark_settled lo y a : settled a y → settled a (marked lo y).
Proof. intros [H|?]; [left|by right]. unfold exact. cbn [marked r_db]. rewrite mark_truth. exact H. Qed.
Lemma mark_inv X lo hi A y : rebase_inv X y → (lo, A) ∈ k_spans X → (lo, hi, false) ∈ k_flags X → (∀ a, a ∈ A → a ≠ zeroAddress → k_settled X a) → rebase_inv (flag X lo hi) (marked lo y).
Proof.
  intros (Hok & Hc & Hsp & HX & HS & HF) HA Hfl Hset. refine (conj (mark_ok lo _ Hok) (conj Hc (conj _ (conj _ (conj HS _))))).
  - intros lo' hi' L a E1 E2 Ha Hz. apply mark_settled. destruct (mark_spans lo _ lo' hi' true E1) as (b' & E & [<-| ->]); [by apply (Hsp lo' hi' L)|].
    destruct (HS lo A HA) as (L' & EL & Hb). cbn [marked r_db mark_rebased t_ledger] in E2. rewrite EL in E2. injection E2 as <-. destruct (Hb a Ha) as [?|?]; [apply HX; auto|by right].
  - intros a Ha. by apply mark_settled, HX.
  - assert (∀ lo' hi' b, (lo', hi', b) ∈ k_flags X → (b = true ∨ lo' = lo → True) → flagged lo' hi' b (marked lo y) ∧ (lo' = lo → flagged lo' hi' true (marked lo y))) as Hkeep.
    { intros lo' hi' b Hin _. destruct (HF lo' hi' b Hin) as (b' & E & Hb). destruct (mark_spans_inv lo _ lo' hi' b' E) as (b2 & E2 & Hb2). split.
      - exists b2. split; [done|]. auto.
      - intros ->. exists b2. split; [done|]. auto. }
    intros lo' hi' b Hin. cbn [flag k_flags] in Hin. apply elem_of_cons in Hin as [[= -> -> ->]|Hin]; [by apply (Hkeep lo hi false)|by apply Hkeep].
Qed.

(** ** The stage *)

Lemma ledger_truth lo L a s : t_ledger s !! lo = Some L → is_Some (L !! a) → is_Some (ledger_address_truth s !! a).
Proof.
  intros EL [q Hq]. apply not_eq_None_Some. rewrite truth_lookup. intros [[H _]%oplus_None _]%oplus_None. rewrite (vsum_lookup_delete _ lo L a EL), Hq in H. by apply oplus_None in H as [? _].
Qed.
Lemma staged_ok lo s : stats_ok s → Forall read_ok (stage_rows lo s).
Proof.
  intros Hok. apply Forall_forall. intros v. unfold stage_rows. rewrite elem_of_app, !list_elem_of_filter, !list_elem_of_fmap. intros [[_ (a & -> & _)]|[_ (a & -> & _)]]; by apply read_row_ok.
Qed.
Lemma read_rows_nodup (c : bool) (s : stats_db) (A : gset gostring) : NoDup (v_address <$> filter staged_row (read_row c s <$> elements A)).
Proof.
  apply (sublist_NoDup _ (v_address <$> (read_row c s <$> elements A))); [|apply fmap_sublist, sublist_filter]. rewrite <-list_fmap_compose. assert (v_address ∘ read_row c s <$> elements A = elements A) as -> by apply list_fmap_id.
  apply NoDup_elements.
Qed.
Lemma stage_nodup lo s : NoDup (v_address <$> stage_rows lo s).
Proof.
  unfold stage_rows. rewrite fmap_app. apply NoDup_app. split_and!; [apply read_rows_nodup| |apply read_rows_nodup].
  intros a (v & -> & [_ (a1 & -> & H1)%list_elem_of_fmap]%list_elem_of_filter)%list_elem_of_fmap (w & Ew & [_ (a2 & -> & H2)%list_elem_of_fmap]%list_elem_of_filter)%list_elem_of_fmap.
  cbn in Ew. subst. apply elem_of_elements in H1, H2. set_solver.
Qed.
Lemma stage_cover lo L s a : t_ledger s !! lo = Some L → is_Some (L !! a) → a ≠ zeroAddress → exact a s ∨ ∃ v, v ∈ stage_rows lo s ∧ v_address v = a ∧ v_creatable v = true.
Proof.
  intros EL Ha Hz. destruct (ledger_truth lo L a s EL Ha) as [t Et]. set (v := read_row true s a). destruct (staged_row v) eqn:Hs.
  - right. exists v. split_and!; [|done|done]. unfold stage_rows. apply elem_of_app. left. apply list_elem_of_filter. split; [by apply Is_true_true|]. apply list_elem_of_fmap. exists a. split; [done|].
    rewrite EL. apply elem_of_elements, elem_of_difference. split; [by apply elem_of_dom|set_solver].
  - left. unfold staged_row in Hs. rewrite !orb_false_iff in Hs. destruct Hs as [[H1 H2] _]. unfold v in *. cbn [read_row v_present v_row v_want v_creatable v_seen] in *. unfold exact. rewrite Et in *. cbn [default from_option id] in *.
    rewrite (bool_decide_eq_true_2 (is_Some (Some t))) in H2 by done. destruct (t_rows s !! a) as [r|] eqn:Er; [|cbn in H2; done].
    rewrite bool_decide_eq_true_2 in H1 by done. cbn in H1. apply negb_false_iff, bool_decide_eq_true_1 in H1. by rewrite H1.
Qed.

(** ** The spans *)

Section Spans.
Context (env : nat → rebase_sys → rebase_sys) (out : nat → stmt_end) (Henv : ∀ k y, rtc rebase_step y (env k y)).
Notation spec_stmt := (spec_stmt env out rebase_step Henv).
Notation spec_mem := (spec_mem env rebase_step Henv).

Lemma inv_weaken X Y y : (∀ a, k_settled X a → k_settled Y a) → (∀ e, e ∈ k_spans X → e ∈ k_spans Y) → (∀ e, e ∈ k_flags X → e ∈ k_flags Y) → rebase_inv Y y → rebase_inv X y.
Proof. intros H E1 E2 (H1 & H2 & H3 & H4 & H5 & H6). refine (conj H1 (conj H2 (conj H3 (conj _ (conj _ _))))); auto. Qed.

(** Between transactions, when a call fails. *)
Definition safe (X : known) (y : rebase_sys) : Prop := rebase_inv X y ∧ idle y.
Lemma safe_weaken X Y y : (∀ a, k_settled X a → k_settled Y a) → (∀ e, e ∈ k_spans X → e ∈ k_spans Y) → (∀ e, e ∈ k_flags X → e ∈ k_flags Y) → safe Y y → safe X y.
Proof. intros H E1 E2 [H1 H2]. split; [by apply (inv_weaken X Y)|done]. Qed.
Definition span_open (X : known) (rest : list rebaseRow) (y : rebase_sys) : Prop := rebase_inv X y ∧ r_held y = true ∧ idle y ∧ ∀ v, v ∈ rest → follows v y.
Lemma span_open_stable X rest : stable rebase_step (span_open X rest).
Proof.
  intros y y' Hs (H1 & H2 & H3 & H4). refine (conj (rebase_step_inv X y y' Hs H1) (conj _ (conj (idle_stable y y' Hs H3) _))); [by destruct Hs|].
  intros v Hv. apply (step_follows v y); [done|apply H1|done|auto].
Qed.
Lemma quiet_working X rest (E : rebase_sys → Prop) : (∀ y, safe X y → E y) → spec (span_open X rest) (elsewhere env out) (λ _, span_open X rest) E.
Proof. intros HE. apply (quiet_elsewhere env out Henv); [apply span_open_stable|]. intros y (H1 & _ & H2 & _). apply HE. by split. Qed.

Lemma apply_staged_spec bs : Forall read_ok (concat bs) → NoDup (v_address <$> concat bs) → ∀ X total,
  spec (span_open X (concat bs)) (apply_staged env out bs total) (λ _, span_open (either X (gains (concat bs))) []) (safe X).
Proof.
  induction bs as [|b bs IH]; intros Hok Hnd X total; cbn [apply_staged].
  - apply spec_ret. intros y (H1 & H2 & H3 & _). refine (conj _ (conj H2 (conj H3 _))); [|by intros v ?%not_elem_of_nil]. revert H1. apply inv_impl; [|done|done].
    intros a [?|(v & Hv & _)]; [done|by apply not_elem_of_nil in Hv].
  - cbn [concat] in *. apply Forall_app in Hok as [Hb Hbs]. pose proof Hnd as Hnd'. rewrite fmap_app in Hnd'. apply NoDup_app in Hnd' as (_ & _ & Hnd').
    assert (∀ read, read ≡ₚ b → Forall read_ok read ∧ NoDup (v_address <$> read ++ concat bs)) as HR by (intros read ->; done).
    assert (spec (span_open X (b ++ concat bs)) (bind (elsewhere env out) (λ _, applyRebaseRows env out b (ret tt))) (λ _ y, ∃ read c, read ≡ₚ b ∧ sealed X read (concat bs) c c y) (rebase_inv X)) as Hm.
    { eapply spec_bind; [apply quiet_working; by intros y [? _]|]. intros ?. eapply spec_pre, (applyRebaseRows_spec env out Henv X b (concat bs)); [|done|done|apply quiet_ret].
      intros y (H1 & H2 & [H3 H3'] & H4). refine (conj (conj H1 (conj (conj H2 _) H4)) H3). by rewrite H3. }
    eapply spec_bind.
    + intros k y Hy. pose proof (tx_spec env out Henv true X _ _ (λ read, read ≡ₚ b) (concat bs) HR Hm k y Hy) as Hb'.
      destruct (in_tx env out true _ k y) as [[k' y'] [r|]]; [exact Hb'|]. destruct Hb' as (Hi & Hid & _). by split.
    + intros r. cbn beta. intros k y ((read & Hp & Hi) & Hid & Hh & Hf).
      assert (span_open (either X (gains b)) (concat bs) y) as Hy.
      { refine (conj _ (conj Hh (conj Hid _))); [|intros v Hv; by apply Hf]. revert Hi. apply inv_impl; [|done|done]. intros a [?|Ha]; [by left|right]. by apply (gains_perm b read). }
      pose proof (IH Hbs Hnd' (either X (gains b)) (add_result total r) k y Hy) as H2. destruct (apply_staged env out bs _ k y) as [[k' y'] [r'|]].
      * destruct H2 as (H2 & H3). split; [|done]. revert H2. apply inv_impl; [|done|done]. intros a [?|(v & Hv & E)]; [left; by left|]. apply elem_of_app in Hv as [Hv|Hv]; [left; right; by exists v|right; by exists v].
      * revert H2. apply safe_weaken; [by left|done|done].
Qed.

(** What the stage knows: the addresses of the span, and that those not staged are exact. *)
Definition staged_known (X : known) (lo : Z) (A : gset gostring) (rows : list rebaseRow) : known :=
  mkKnown (λ a, k_settled X a ∨ (a ∈ A ∧ a ≠ zeroAddress ∧ ¬ ∃ v, v ∈ rows ∧ v_address v = a ∧ v_creatable v = true)) ((lo, A) :: k_spans X) (k_flags X).
Lemma stage_spec X lo : (∃ hi, (lo, hi, false) ∈ k_flags X) →
  spec (span_open X []) (stageSpanRebase env out lo)
    (λ rows y, Forall read_ok rows ∧ NoDup (v_address <$> rows) ∧ ∃ A, span_open (staged_known X lo A rows) rows y) (safe X).
Proof.
  intros [hi Hfl]. unfold stageSpanRebase. do 2 (eapply spec_bind; [by apply quiet_working|]; intros []).
  eapply (spec_bind _ _ _ (λ rows y, Forall read_ok rows ∧ NoDup (v_address <$> rows) ∧ ∃ A, span_open (staged_known X lo A rows) rows y)).
  - apply spec_stmt; [apply span_open_stable|]. intros y (H1 & H2 & H3 & _). cbn [fst snd]. split_and!; [by split|by split|]. intros rows [= <-]. pose proof H1 as (Hok & Hc & Hsp & HX & HS & HF).
    split_and!; [by apply staged_ok|apply stage_nodup|]. destruct (HF lo hi false Hfl) as (b & Es & _). destruct (so_spans _ Hok lo hi b Es) as [_ [L EL]]. exists (dom L).
    refine (conj (conj Hok (conj Hc (conj Hsp (conj _ (conj _ HF))))) (conj H2 (conj H3 _))).
    + intros i [Ha|(Ha & Hz & Hn)]; [by apply HX|]. left. destruct (stage_cover lo L (r_db y) i EL) as [?|?]; [by apply elem_of_dom|done|done|done].
    + intros lo' A' [[= -> ->]|Hin]%elem_of_cons; [|by apply HS]. exists L. split; [done|]. intros a Ha. left. by apply elem_of_dom.
    + intros v. unfold stage_rows. rewrite elem_of_app, !list_elem_of_filter, !list_elem_of_fmap. intros [[_ (a & -> & _)]|[_ (a & -> & _)]]; by apply read_row_follows.
  - intros rows. assert (∀ m : M rebase_sys unit, quiet m → spec (λ y, Forall read_ok rows ∧ NoDup (v_address <$> rows) ∧ ∃ A, span_open (staged_known X lo A rows) rows y) m
      (λ _ y, Forall read_ok rows ∧ NoDup (v_address <$> rows) ∧ ∃ A, span_open (staged_known X lo A rows) rows y) (safe X)) as Hq.
    { intros m Hm. apply Hm; [intros y y' Hs (? & ? & A & HA); split_and!; [done|done|]; exists A; by apply (span_open_stable _ _ y)|].
      intros y (_ & _ & A & HA & _ & Hid & _). split; [|done]. revert HA. apply inv_weaken; [by left|intros e He; by right|done]. }
    do 2 (eapply spec_bind; [apply Hq, (quiet_elsewhere env out Henv)|]; intros ?). by apply spec_ret.
Qed.

Lemma gains_staged X lo A rows a : a ∈ A → a ≠ zeroAddress → k_settled (either (staged_known X lo A rows) (gains rows)) a.
Proof.
  intros Ha Hz. destruct (decide (Exists (λ v, v_address v = a ∧ v_creatable v = true) rows)) as [(v & Hv & E & Hc)%Exists_exists|Hn].
  - right. exists v. split_and!; [done|done|]. right. by left.
  - left. right. split_and!; [done|done|]. intros (v & Hv & E). apply Hn, Exists_exists. by exists v.
Qed.
Lemma mark_spec X lo hi A rows l : (lo, hi, false) ∈ k_flags X → rows ≡ₚ l →
  spec (span_open (either (staged_known X lo A rows) (gains l)) []) (stmt env out (λ y, (marked lo y, Some tt))) (λ _, span_open (flag X lo hi) []) (safe X).
Proof.
  intros Hfl Hp. apply spec_stmt; [apply span_open_stable|]. intros y (H1 & H2 & H3 & _). cbn [fst snd].
  assert (rebase_inv (either (staged_known X lo A rows) (gains rows)) y) as H1' by (revert H1; apply inv_impl; [|done|done]; intros a [?|?]; [by left|right; by apply (gains_perm rows l)]).
  assert (rebase_inv (flag X lo hi) (marked lo y)) as Hm.
  { eapply inv_weaken; [| | |apply (mark_inv _ lo hi A y H1'); [by left|done|intros a Ha Hz; by apply gains_staged]]; cbn.
    - intros a Ha. left. by left.
    - intros e He. by right.
    - done. }
  split_and!.
  - split; [|done]. revert H1. apply inv_weaken; cbn; [intros a Ha; left; by left|intros e He; by right|done].
  - split; [|done]. revert Hm. apply inv_weaken; [done|done|intros e He; by right].
  - intros [] _. refine (conj Hm (conj H2 (conj H3 _))). by intros v ?%not_elem_of_nil.
Qed.

Definition flags_done (los : list Z) (X : known) (y : rebase_sys) : Prop := ∀ lo hi b, lo ∈ los → (lo, hi, b) ∈ k_flags X → flagged lo hi true y.
Lemma flagged_same lo hi hi' b b' X y : rebase_inv X y → (lo, hi, b) ∈ k_flags X → (lo, hi', b') ∈ k_flags X → hi = hi'.
Proof. intros (_ & _ & _ & _ & _ & HF) H1 H2. destruct (HF _ _ _ H1) as (? & E1 & _), (HF _ _ _ H2) as (? & E2 & _). congruence. Qed.

Lemma rebase_each_spec los : ∀ X, (∀ lo, lo ∈ los → ∃ hi, (lo, hi, false) ∈ k_flags X) →
  spec (span_open X []) (rebase_each env out los) (λ _ y, span_open X [] y ∧ flags_done los X y) (safe X).
Proof.
  induction los as [|lo los IH]; intros X Hfl; cbn [rebase_each].
  - apply spec_ret. intros y Hy. split; [done|]. by intros lo hi b ?%not_elem_of_nil.
  - destruct (Hfl lo ltac:(by left)) as [hi Hlo]. eapply spec_bind; [apply stage_spec; by exists hi|]. intros rows k y (Hok & Hnd & A & Hy). cbv zeta. set (l := merge_sort byte_le rows).
    pose proof (merge_sort_Permutation byte_le rows) as Hp. fold l in Hp. pose proof (batches_concat (length l) l ltac:(lia)) as E.
    revert k y Hy. eapply spec_bind.
    { eapply (spec_pre _ (span_open (staged_known X lo A rows) (concat (batches (length l) l)))).
      - intros y (H1 & H2 & H3 & H4). refine (conj H1 (conj H2 (conj H3 _))). intros v. rewrite E, Hp. apply H4.
      - intros k y Hy. pose proof (apply_staged_spec (batches (length l) l) ltac:(by rewrite E, Hp) ltac:(by rewrite E, Hp) (staged_known X lo A rows) no_result k y Hy) as Hsp.
        destruct (apply_staged env out _ no_result k y) as [[k' y'] [r|]]; [exact Hsp|]. revert Hsp. apply safe_weaken; cbn; [intros a Ha; by left|intros e He; by right|done]. }
    intros ?. cbn beta. rewrite E. eapply spec_bind; [by apply (mark_spec X lo hi A rows l)|]. intros ?. cbn beta.
    eapply spec_bind; [apply quiet_working; intros y; apply safe_weaken; [done|done|intros e He; by right]|]. intros ?. cbn beta.
    intros k y Hy. pose proof (IH (flag X lo hi) ltac:(intros lo' Hin; destruct (Hfl lo' ltac:(by right)) as [hi' ?]; exists hi'; by right) k y Hy) as Hsp.
    destruct (rebase_each env out los k y) as [[k' y'] [r|]].
    + destruct Hsp as [(H1 & H2) H3]. assert (rebase_inv X y') as Hi by (revert H1; apply inv_weaken; [done|done|intros e He; by right]). split; [by split|].
      intros lo' hi' b [->|Hin]%elem_of_cons Hfl'; [|apply (H3 lo' hi' b); [done|by right]]. rewrite (flagged_same lo hi' hi b false X y' Hi Hfl' Hlo). apply H1. by left.
    + revert Hsp. apply safe_weaken; [done|done|intros e He; by right].
Qed.

Lemma held_flags X los (F : rebase_sys → Prop) : stable rebase_step F → (∀ y, F y → rebase_inv X y) → stable rebase_step (λ y, F y ∧ flags_done los X y).
Proof. intros HF Hi y y' Hs [H1 H2]. split; [by apply (HF y)|]. intros lo hi b Hin Hfl. apply (step_flagged y); [done|apply (Hi y H1)|by apply (H2 lo hi b)]. Qed.
Lemma rebaseSpans_spec X los : (∀ lo, lo ∈ los → ∃ hi, (lo, hi, false) ∈ k_flags X) →
  spec (quiescent X) (rebaseSpans env out los) (λ _ y, quiescent X y ∧ flags_done los X y) (quiescent X).
Proof.
  intros Hfl. unfold rebaseSpans. cbv zeta. eapply (spec_bind _ _ _ (λ _ y, span_open X [] y ∧ flags_done los X y)).
  - apply (spec_on_error _ _ _ _ _ (safe X)).
    + eapply (spec_bind _ _ _ (λ _, span_open X [])); [|intros ?; by apply rebase_each_spec]. apply spec_stmt; [apply quiescent_stable|]. intros y (H1 & H2 & H3). cbn [fst snd].
      split_and!; [by split|by split|]. intros [] _. refine (conj H1 (conj eq_refl (conj H2 _))). by intros v ?%not_elem_of_nil.
    + apply spec_mem; [intros y y' Hs [H1 H2]; split; [by apply (rebase_step_inv X y)|by apply (idle_stable y)]|]. intros y [H1 H2]. by split.
  - intros ?. apply spec_mem; [apply held_flags; [apply span_open_stable|by intros y [? _]]|]. intros y [(H1 & H2 & H3 & _) H4]. by split.
Qed.
Lemma recountPendingDays_spec X (F : rebase_sys → Prop) : stable rebase_step F → (∀ y, F y → quiescent X y) → (∀ y s', F y → t_rows s' = rows_of y → t_blocks s' = t_blocks (r_db y) → t_from s' = t_from (r_db y) → t_ledger s' = t_ledger (r_db y) →
    t_spans s' = t_spans (r_db y) → t_stage s' = t_stage (r_db y) → t_reverted s' = t_reverted (r_db y) → t_xid s' = t_xid (r_db y) → t_total s' = t_total (r_db y) →
    F (mkRebase s' (r_held y) (r_revlock y) (r_tx y) (r_astray y))) →
  spec F (recountPendingDays env out) (λ _, F) (quiescent X).
Proof.
  intros HF Hq Hdays. assert (spec F (elsewhere env out) (λ _, F) (quiescent X)) as He by (by apply (quiet_elsewhere env out Henv)).
  unfold recountPendingDays. eapply spec_bind; [exact He|]. intros ?. eapply (spec_bind _ _ _ (λ _, F)); [apply spec_stmt; [done|]; cbn; auto|]. intros pending. case_decide; [by apply spec_ret|].
  do 2 (eapply spec_bind; [exact He|]; intros ?). apply spec_stmt; [done|]. intros y Hy. cbn [fst snd]. case_decide; [|auto].
  assert (F (mkRebase (mkStats (rows_of y) (t_blocks (r_db y)) (t_from (r_db y)) (t_ledger (r_db y)) (t_spans (r_db y)) (t_stage (r_db y)) (t_reverted (r_db y)) (t_xid (r_db y)) (t_total (r_db y)) 0)
    (r_held y) (r_revlock y) (r_tx y) (r_astray y))) by (by apply Hdays). auto.
Qed.
Lemma days_quiescent X y s' : quiescent X y → t_rows s' = rows_of y → t_blocks s' = t_blocks (r_db y) → t_from s' = t_from (r_db y) → t_ledger s' = t_ledger (r_db y) →
  t_spans s' = t_spans (r_db y) → t_stage s' = t_stage (r_db y) → t_reverted s' = t_reverted (r_db y) → t_xid s' = t_xid (r_db y) → t_total s' = t_total (r_db y) →
  quiescent X (mkRebase s' (r_held y) (r_revlock y) (r_tx y) (r_astray y)).
Proof.
  intros ((Hok & Hc & Hsp & HX & HS & HF) & Hid & Hh) E0 E1 E2 E3 E4 E5 E6 E7 E8. assert (∀ a, ledger_address_truth s' !! a = truth_of y !! a) as Et by (intros a; by apply rebase_frame).
  assert (∀ a, settled a y → settled a (mkRebase s' (r_held y) (r_revlock y) (r_tx y) (r_astray y))) as Hset.
  { intros a [Hex|?]; [left|by right]. unfold exact. cbn [r_db]. rewrite Et, E0. exact Hex. }
  refine (conj (conj _ (conj _ (conj _ (conj _ (conj _ _))))) (conj Hid Hh)); cbn [r_db].
  - apply (ok_frame (r_db y)); try done. by rewrite E6.
  - unfold counted_rows. by rewrite E0, E8.
  - intros lo hi L a. cbn [r_db]. rewrite E3, E4. intros. apply Hset. by apply (Hsp lo hi L).
  - intros a Ha. by apply Hset, HX.
  - intros lo A Hin. destruct (HS lo A Hin) as (L & EL & ?). exists L. cbn [r_db]. by rewrite E3.
  - intros lo hi b Hin. destruct (HF lo hi b Hin) as (b' & ? & ?). exists b'. cbn [r_db]. by rewrite E4.
Qed.

(** What is known of the spans listed. *)
Definition listed (X : known) (s : stats_db) : known := mkKnown (k_settled X) (k_spans X) ((λ e, (e.1, e.2.1, e.2.2)) <$> map_to_list (t_spans s)).
Lemma elem_of_listed X s lo hi b : (lo, hi, b) ∈ k_flags (listed X s) ↔ t_spans s !! lo = Some (hi, b).
Proof. cbn [listed k_flags]. rewrite list_elem_of_fmap. rewrite <-elem_of_map_to_list. split; [intros ([? [? ?]] & [= -> -> ->] & ?); done|intros; by exists (lo, (hi, b))]. Qed.
Lemma elem_of_pending s lo : lo ∈ pending_spans s ↔ ∃ hi, t_spans s !! lo = Some (hi, false).
Proof.
  unfold pending_spans. rewrite merge_sort_Permutation, elem_of_elements, elem_of_dom. unfold is_Some. setoid_rewrite map_lookup_filter_Some. cbn. split; [intros ([hi b] & E & Hb); cbn in Hb; subst; by exists hi|intros [hi E]; by exists (hi, false)].
Qed.

Definition all_done (X : known) (y : rebase_sys) : Prop := ∀ lo hi b, (lo, hi, b) ∈ k_flags X → flagged lo hi true y.
Definition also (X Y : known) : known := mkKnown (k_settled X) (k_spans X) (k_flags X ++ k_flags Y).
Lemma listed_inv X y : quiescent X y → quiescent (also X (listed X (r_db y))) y.
Proof.
  intros ((Hok & Hc & Hsp & HX & HS & HF) & Hr). refine (conj (conj Hok (conj Hc (conj Hsp (conj HX (conj HS _))))) Hr). intros lo hi b [?|Hin]%elem_of_app; [by apply HF|].
  apply elem_of_listed in Hin. by exists b.
Qed.
Lemma quiescent_weaken X Y y : (∀ a, k_settled X a → k_settled Y a) → (∀ e, e ∈ k_spans X → e ∈ k_spans Y) → (∀ e, e ∈ k_flags X → e ∈ k_flags Y) → quiescent Y y → quiescent X y.
Proof. intros H E1 E2 [H1 H2]. split; [by apply (inv_weaken X Y)|done]. Qed.
Lemma also_weaken X Y y : quiescent (also X Y) y → quiescent X y.
Proof. apply quiescent_weaken; [done|done|]. intros e He. apply elem_of_app. by left. Qed.
(** A span known was pending when the list was read, and is done, or was rebased then. *)
Lemma listed_done X s y y' : quiescent X y → r_db y = s → quiescent (also X (listed X s)) y' → flags_done (pending_spans s) (also X (listed X s)) y' → all_done X y'.
Proof.
  intros (Hi & _) Es (Hi' & _) Hd lo hi b Hin. pose proof Hi as (_ & _ & _ & _ & _ & HF). destruct (HF lo hi b Hin) as (b' & E & _). rewrite Es in E.
  assert ((lo, hi, b') ∈ k_flags (also X (listed X s))) as Hin' by (apply elem_of_app; right; by apply elem_of_listed).
  destruct b'; [by apply Hi'|]. apply (Hd lo hi false); [|done]. apply elem_of_pending. by exists hi.
Qed.

Lemma rebasePendingSpans_spec X : spec (quiescent X) (rebasePendingSpans env out true) (λ _ y, quiescent X y ∧ all_done X y) (quiescent X).
Proof.
  unfold rebasePendingSpans. cbn [negb]. eapply spec_bind; [apply recountPendingDays_spec; [apply quiescent_stable|done|intros; by apply days_quiescent]|]. intros ?. cbn beta.
  eapply (spec_bind _ _ _ (λ los y, ∃ s, los = pending_spans s ∧ (∃ y0, quiescent X y0 ∧ r_db y0 = s) ∧ quiescent (also X (listed X s)) y)).
  { apply spec_stmt; [apply quiescent_stable|]. intros y Hy. cbn [fst snd]. split_and!; [done|done|]. intros los [= <-]. exists (r_db y). split_and!; [done|by exists y|by apply listed_inv]. }
  intros los k y (s & -> & (y0 & Hy0 & E0) & Hy). case_decide as Hnil.
  - cbn. split; [by apply (also_weaken X (listed X s))|]. apply (listed_done X s y0); [done|done|done|]. rewrite Hnil. by intros lo hi b ?%not_elem_of_nil.
  - revert k y Hy. eapply (spec_bind _ _ _ (λ _ y, quiescent X y ∧ all_done X y)).
    + intros k y Hy. pose proof (rebaseSpans_spec (also X (listed X s)) (pending_spans s)) as Hsp. specialize (Hsp ltac:(intros lo Hin; apply elem_of_pending in Hin as [hi ?]; exists hi; apply elem_of_app; right; by apply elem_of_listed) k y Hy).
      destruct (rebaseSpans env out (pending_spans s) k y) as [[k' y'] [r|]]; [|by apply (also_weaken X (listed X s))]. destruct Hsp as [H1 H2]. split; [by apply (also_weaken X (listed X s))|]. by apply (listed_done X s y0).
    + intros ?. cbn beta. assert (stable rebase_step (λ y, quiescent X y ∧ all_done X y)) as Hst.
      { intros y y' Hs [H1 H2]. split; [by apply (quiescent_stable X y)|]. intros lo hi b Hin. apply (step_flagged y); [done|apply H1|by apply (H2 lo hi b)]. }
      apply recountPendingDays_spec; [done|by intros y [? _]|]. intros y s' [H1 H2] E0' E1 E2 E3 E4 E5 E6 E7 E8. split; [by apply days_quiescent|].
      intros lo hi b Hin. destruct (H2 lo hi b Hin) as (b' & ? & ?). exists b'. cbn [r_db]. by rewrite E4.
Qed.

(** ** Calls succeed when their statements do *)

Hypothesis Hdone : ∀ k, out k = Done.
Definition succeeds {A} (m : M rebase_sys A) : Prop := ∀ k y, (m k y).2 ≠ None.
Lemma succ_ret {A} (a : A) : succeeds (ret a).
Proof. done. Qed.
Lemma succ_bind {A B} (m : M rebase_sys A) (f : A → M rebase_sys B) : succeeds m → (∀ a, succeeds (f a)) → succeeds (bind m f).
Proof. intros Hm Hf k y. unfold bind. specialize (Hm k y). destruct (m k y) as [[k' y'] [a|]]; [apply Hf|done]. Qed.
Lemma succ_stmt {A} (f : rebase_sys → rebase_sys * option A) : (∀ y, (f y).2 ≠ None) → succeeds (stmt env out f).
Proof. intros Hf k y. unfold stmt. rewrite Hdone. specialize (Hf (env k y)). by destruct (f (env k y)). Qed.
Lemma succ_mem {A} (f : rebase_sys → rebase_sys * A) : succeeds (mem env f).
Proof. intros k y. unfold mem. by destruct (f (env k y)). Qed.
Lemma succ_on_error {A} (m : M rebase_sys A) c : succeeds m → succeeds (on_error m c).
Proof. intros Hm k y. unfold on_error. specialize (Hm k y). by destruct (m k y) as [[k' y'] [a|]]. Qed.
Lemma succ_if {A} (b : bool) (m n : M rebase_sys A) : succeeds m → succeeds n → succeeds (if b then m else n).
Proof. by destruct b. Qed.
Lemma succ_decide {A} (P : Prop) (d : Decision P) (m n : M rebase_sys A) : succeeds m → succeeds n → succeeds (if d then m else n).
Proof. by destruct d. Qed.
End Spans.
