(* ===== verification/AddressRebaseDone.v ===== *)
(** * What the rebases promise *)

From S2P Require Import Prelude Tally Session Balances AddressTruth AddressRebase AddressRebaseSpec AddressRebaseRun AddressRebaseProps AddressRebaseSpans.

(** ** A call whose statements are done succeeds *)

Section Success.
Context (env : nat → rebase_sys → rebase_sys) (out : nat → stmt_end) (Hdone : ∀ k, out k = Done).
Ltac succ := repeat first [apply succ_ret | apply succ_if | apply succ_decide | apply succ_bind; [|intros ?] | apply succ_mem | apply succ_on_error |
  apply (succ_stmt env out Hdone); intros ?; cbn; repeat case_match; done].

Lemma lockBatchRows_succ read : ∀ inserted, succeeds (lockBatchRows env out read inserted).
Proof.
  induction read as [|v read IH]; intros inserted; cbn [lockBatchRows]; [apply succ_ret|]. unfold lock_row, insert_empty. repeat apply succ_if; [| |apply IH]; (apply succ_bind; [succ|intros ?; apply IH]).
Qed.
Lemma write_row_succ S I v : succeeds (write_row env out S I v).
Proof. unfold write_row, lock_row, rebaseRecount, correct, create. cbv zeta. succ. Qed.
Lemma write_rows_succ S I read : ∀ r, succeeds (write_rows env out S I read r).
Proof. induction read as [|v read IH]; intros r; cbn [write_rows]; [apply succ_ret|]. apply succ_bind; [apply write_row_succ|intros ?; apply IH]. Qed.
Lemma apply_succ read after : succeeds after → succeeds (applyRebaseRows env out read after).
Proof.
  intros Ha. unfold applyRebaseRows, revertedSinceRead. cbv zeta. apply succ_bind; [succ; apply lockBatchRows_succ|]. intros [S I].
  apply succ_bind; [apply write_rows_succ|]. intros r. succ. done.
Qed.
Lemma in_tx_succ {A} session (m : M rebase_sys A) : succeeds m → succeeds (in_tx env out session m).
Proof. intros Hm. unfold in_tx, commit. succ. done. Qed.
Lemma rebase_batches_succ bs create : ∀ r, succeeds (rebase_batches env out bs create (ret tt) r).
Proof.
  induction bs as [|b bs IH]; intros r; cbn [rebase_batches]; [succ|]. apply succ_bind; [|intros ?; apply IH]. apply in_tx_succ.
  unfold rebase_lock, rebaseAddressBatchLocked. do 2 (apply succ_bind; [succ|intros ?]). apply apply_succ, succ_ret.
Qed.
Lemma rebase_each_succ los : succeeds (rebase_each env out los).
Proof.
  induction los as [|lo los IH]; cbn [rebase_each]; [succ|]. unfold stageSpanRebase, elsewhere. apply succ_bind; [succ|]. intros rows. cbv zeta.
  apply succ_bind; [|intros ?; do 2 (apply succ_bind; [succ|intros ?]); apply IH]. generalize (batches (length (merge_sort byte_le rows)) (merge_sort byte_le rows)). intros bs. generalize no_result.
  induction bs as [|b bs IHb]; intros r; cbn [apply_staged]; [succ|]. apply succ_bind; [|intros ?; apply IHb]. apply in_tx_succ.
  apply succ_bind; [unfold elsewhere; succ|intros ?]. apply apply_succ, succ_ret.
Qed.
Lemma pending_succ : succeeds (rebasePendingSpans env out true).
Proof. unfold rebasePendingSpans, recountPendingDays, rebaseSpans, rebase_lock, elsewhere. cbn [negb]. cbv zeta. succ. apply rebase_each_succ. Qed.
End Success.

(** ** Theorems *)

(** Between the calls: no transaction is open and no lock held, the tables are
    well-formed, [addresses_total] counts the rows, and every address of a rebased span
    has its truth. *)
Record at_rest (y : rebase_sys) : Prop := {
  ar_ok : stats_ok (r_db y); ar_counted : counted_rows (r_db y); ar_spans : spans_settled y; ar_idle : idle y; ar_held : r_held y = false }.
Definition knows_exact (y : rebase_sys) : known := mkKnown (λ a, settled a y) [] ((λ e, (e.1, e.2.1, e.2.2)) <$> map_to_list (t_spans (r_db y))).
Lemma rest_quiescent y : at_rest y → quiescent (knows_exact y) y.
Proof.
  intros [H1 H2 H3 H4 H5]. refine (conj (conj H1 (conj H2 (conj H3 (conj _ (conj _ _))))) (conj H4 H5)); [done|by intros ?? ?%not_elem_of_nil|].
  intros lo hi b Hin. cbn in Hin. apply list_elem_of_fmap in Hin as ([lo' [hi' b']] & [= -> -> ->] & Hin). apply elem_of_map_to_list in Hin. by exists b'.
Qed.
Lemma quiescent_rest X y : quiescent X y → at_rest y ∧ ∀ a, k_settled X a → settled a y.
Proof. intros ((H1 & H2 & H3 & H4 & _) & H5 & H6). done. Qed.

(** C9: While blocks are stored and reverted, spans close, retention prunes, the backfill
    adds and other rebases run, in any interleaving with its statements and with any
    statement failing: [RebaseAddresses], and the repair that halves a batch which runs
    out of time, leave every settled address settled and [addresses_total] the number of
    rows; if they succeed, and they do unless a statement fails, the row of every address
    they were given is its truth, but for an address whose drifted row a revert removed
    or whose ledger a settlement moved. The halving ends. *)
Theorem rebase_settles env out timedOut y k addresses : (∀ k y, rtc rebase_step y (env k y)) → at_rest y → addresses ≠ [] → NoDup addresses →
  (∀ call, call = RebaseAddresses env out addresses addresses ∨ call = repairAddresses env out timedOut (length addresses) addresses →
     match call k y with (_, y', r) =>
       at_rest y' ∧ (∀ a, settled a y → settled a y') ∧ (r ≠ None → ∀ a, a ∈ addresses → settled a y') ∧ ((∀ k, out k = Done) → r ≠ None) end) ∧
  (∀ fuel, (length addresses ≤ fuel)%nat → repairAddresses env out timedOut fuel addresses k y = repairAddresses env out timedOut (length addresses) addresses k y).
Proof.
  intros Henv Hy Hne Hnd. split; [|intros fuel Hf; by apply repair_fuel]. set (X := knows_exact y).
  assert (∀ call P, spec (quiescent X) call (λ _ : RebaseResult, quiescent (either X P)) (quiescent X) → (∀ a, a ∈ addresses → P a) → ((∀ k, out k = Done) → succeeds call) →
    match call k y with (_, y', r) => at_rest y' ∧ (∀ a, settled a y → settled a y') ∧ (r ≠ None → ∀ a, a ∈ addresses → settled a y') ∧ ((∀ k, out k = Done) → r ≠ None) end) as Hall.
  { intros call P Hsp HP Hsu. specialize (Hsp k y (rest_quiescent y Hy)). pose proof (λ Hd, Hsu Hd k y) as Hsu'. destruct (call k y) as [[k' y'] [r|]]; apply quiescent_rest in Hsp as [H1 H2]; split_and!; try done.
    - intros a Ha. apply H2. by left.
    - intros _ a Ha. apply H2. right. auto. }
  intros call [->| ->].
  - eapply Hall; [apply rebaseAddresses_spec; [done|apply quiet_ret|done]|done|]. intros Hd. apply rebase_batches_succ, Hd.
  - eapply Hall; [by apply repairAddresses_spec|done|]. intros Hd k' y'. destruct addresses as [|a l]; [done|]. cbn [length repairAddresses].
    pose proof (in_tx_succ env out Hd false (bind (rebase_lock env out) (λ _, rebaseAddressBatchLocked env out (a :: l) (list_to_set (a :: l)) (ret tt)))) as Hs.
    assert (succeeds (bind (rebase_lock env out) (λ _, rebaseAddressBatchLocked env out (a :: l) (list_to_set (a :: l)) (ret tt)))) as Hs'.
    { apply succ_bind; [apply succ_stmt; done|]. intros ?. apply succ_bind; [by apply succ_stmt|]. intros ?. apply apply_succ; [done|apply succ_ret]. }
    specialize (Hs Hs' k' y'). by destruct (in_tx env out false _ k' y') as [[? ?] [?|]].
Qed.


(** ** Runs *)

Definition alice : gostring := $"0xa1".
Definition seen_in (n : Z) : gmap gostring stat := {[ alice := mkStat 1 1 0 0 (Some n) (Some n) ]}.
Definition no_stats : stats_db := mkStats ∅ ∅ 0 ∅ ∅ ∅ ∅ 1 0 0.
Definition with_rows (rows : gmap gostring stat) (s : stats_db) : stats_db :=
  mkStats rows (t_blocks s) (t_from s) (t_ledger s) (t_spans s) (t_stage s) (t_reverted s) (t_xid s) (Z.of_nat (size rows)) (t_days s).
Definition resting (s : stats_db) : rebase_sys := mkRebase s false false no_tx ∅.

Lemma seen_in_ok n : block_ok n (seen_in n).
Proof. unfold seen_in. intros a δ [<- <-]%lookup_singleton_Some. cbn. split_and!; done || lia. Qed.
Lemma no_stats_ok : stats_ok no_stats.
Proof. split; cbn; try done; intros; by rewrite ?lookup_empty in *. Qed.
Lemma resting_rest s : stats_ok s → counted_rows s → Forall (λ e, e.2.2 = false) (map_to_list (t_spans s)) → at_rest (resting s).
Proof.
  intros H1 H2 H3. split; try done. intros lo hi L a E _ _ _. exfalso. rewrite Forall_forall in H3. specialize (H3 (lo, (hi, true))). cbn in H3. by discriminate (H3 (proj2 (elem_of_map_to_list _ _ _) E)).
Qed.

(** Span [0, 2) is closed with block 1, and the row counts seven transactions. *)
Definition drifted : stats_db := with_rows {[ alice := mkStat 7 0 0 0 (Some 1) (Some 1) ]} (close_span 0 2 (store_block 1 (seen_in 1) no_stats)).
Lemma drifted_rest : at_rest (resting drifted).
Proof.
  apply resting_rest; [|reflexivity|apply (bool_decide_eq_true_1 _); vm_compute; reflexivity]. eapply (ok_frame (close_span 0 2 (store_block 1 (seen_in 1) no_stats))); try done.
  apply close_ok; [|done|lia]. apply store_ok; [apply no_stats_ok|done|done|done|apply seen_in_ok].
Qed.
(** Block [n] is stored before statement [at_], if no row of its is held. *)
Definition stores_at (at_ : nat) (n : Z) (k : nat) (y : rebase_sys) : rebase_sys :=
  if decide (k = at_ ∧ t_blocks (r_db y) !! n = None ∧ closed_through (r_db y) ≤ n ∧ t_from (r_db y) ≤ n ∧ (dom (seen_in n) : gset gostring) ## dom (x_rows (r_tx y)))
  then let s' := store_block n (seen_in n) (r_db y) in mkRebase s' (r_held y) (r_revlock y) (r_tx y) (r_astray y ∪ wrongly_removed (r_db y) s') else y.
Lemma stores_steps at_ n k y : rtc rebase_step y (stores_at at_ n k y).
Proof.
  unfold stores_at. case_decide as Hc; [|done]. destruct Hc as (_ & H1 & H2 & H3 & H4). apply rtc_once. by apply (x_other y (dom (seen_in n)) false); [apply t_store; try done; apply seen_in_ok|..].
Qed.

Definition settled_run {A} (r : nat * rebase_sys * option A) (row : stat) : Prop :=
  match r with (_, y', o) => o ≠ None ∧ settled alice y' ∧ t_rows (r_db y') !! alice = Some row end.
Lemma rebase_settles_witness :
  settled_run (RebaseAddresses (stores_at 2 2) (λ _, Done) [alice] [alice] 0%nat (resting drifted)) (mkStat 2 2 0 0 (Some 1) (Some 2)).
Proof.
  destruct (rebase_settles (stores_at 2 2) (λ _, Done) (λ _, false) (resting drifted) 0%nat [alice]) as [H _].
  - apply stores_steps.
  - apply drifted_rest.
  - discriminate.
  - apply NoDup_singleton.
  - specialize (H _ (or_introl eq_refl)). assert (t_rows (r_db (RebaseAddresses (stores_at 2 2) (λ _, Done) [alice] [alice] 0%nat (resting drifted)).1.2) !! alice = Some (mkStat 2 2 0 0 (Some 1) (Some 2))) as Hrow by (vm_compute; reflexivity).
    unfold settled_run. destruct (RebaseAddresses (stores_at 2 2) (λ _, Done) [alice] [alice] 0%nat (resting drifted)) as [[k' y'] r]. destruct H as (_ & _ & H1 & H2).
    exact (conj (H2 (λ _, eq_refl)) (conj (H1 (H2 (λ _, eq_refl)) alice (list_elem_of_here alice [])) Hrow)).
Defined.

(** *** A row that a revert removes while its span is rebased

    Alice is seen in block 1, pruned, and in block 5; her row has drifted, its first block
    too late. Block 5 is reverted after the stage is read: the revert finds no earlier
    block and removes the row, the batch has no row to set, and the span is marked. The
    next rebase reads her as an address it may not create, and forgets her. *)
Definition late : stats_db := with_rows {[ alice := mkStat 7 0 0 0 (Some 5) (Some 5) ]} (store_block 5 (seen_in 5) (prune_rows 2 (close_span 0 2 (store_block 1 (seen_in 1) no_stats)))).
Definition reverts_at (at_ : nat) (k : nat) (y : rebase_sys) : rebase_sys :=
  if decide (k = at_ ∧ t_blocks (r_db y) !! 5 = Some (seen_in 5) ∧ closed_through (r_db y) ≤ 5 ∧ (dom (seen_in 5) ∩ dom (t_rows (r_db y)) : gset gostring) ## dom (x_rows (r_tx y)) ∧ r_revlock y = false)
  then let s' := revert_block 5 (seen_in 5) (r_db y) in mkRebase s' (r_held y) (r_revlock y) (r_tx y) (r_astray y ∪ wrongly_removed (r_db y) s') else y.
Lemma reverts_steps at_ k y : rtc rebase_step y (reverts_at at_ k y).
Proof.
  unfold reverts_at. case_decide as Hc; [|done]. destruct Hc as (_ & H1 & H2 & H3 & H4). apply rtc_once. by apply (x_other y (dom (seen_in 5) ∩ dom (t_rows (r_db y))) true); [apply t_revert|..].
Qed.
Lemma late_rest : at_rest (resting late).
Proof.
  apply resting_rest; [|reflexivity|apply (bool_decide_eq_true_1 _); vm_compute; reflexivity]. eapply (ok_frame (store_block 5 (seen_in 5) (prune_rows 2 (close_span 0 2 (store_block 1 (seen_in 1) no_stats))))); try done.
  apply store_ok; [apply prune_ok; [apply close_ok; [|done|lia]; apply store_ok; [apply no_stats_ok|done|done|done|apply seen_in_ok]|by vm_compute]|done|by vm_compute|done|apply seen_in_ok].
Qed.
Definition after_first : rebase_sys := (rebasePendingSpans (reverts_at 9) (λ _, Done) true 0%nat (resting late)).1.2.
Definition after_second : rebase_sys :=
  (rebasePendingSpans (λ _ y, y) (λ _, Done) true 0%nat (resting (close_span 2 6 (r_db after_first)))).1.2.
Example row_lost_for_good :
  t_rows (r_db after_first) !! alice = None ∧ t_reverted (r_db after_first) !! alice = Some 1 ∧ t_spans (r_db after_first) !! 0 = Some (2, true) ∧
  t_rows (r_db after_second) !! alice = None ∧ t_reverted (r_db after_second) !! alice = None ∧
  ledger_address_truth (r_db after_second) !! alice = Some (mkStat 1 1 0 0 (Some 1) (Some 1)).
Proof. vm_compute. done. Qed.
