(* ===== verification/RunningRepair.v ===== *)
(** * The running check

    [CheckRunning] and [repairDrifts] of [internal/db/verify.go]: the drifts of the chain
    and token counters and of a bucket of addresses ([ledger_running_diff_address],
    migration 036) are read in one snapshot; the counters are repaired in one transaction
    ([RunningCheck]), then the addresses it hands on are rebased batch by batch
    ([AddressRebase]), each batch putting its repairs on record in its own transaction,
    and the days are recounted. *)

From S2P Require Import Prelude GoStrings Session Balances AddressTruth AddressRebase RunningCheck.
From stdpp Require Import strings.
Local Open Scope Z_scope.

(** The counters and the address rows, and the repairs a batch has not committed. *)
Record check_sys := mkCheck { c_counters : vstate; c_addresses : rebase_sys; c_logged : list repair }.

(** ** The drifts of a bucket of addresses *)

Definition to_address (a : string) : gostring := list_byte_of_string a.
Definition of_address (a : gostring) : string := string_of_list_byte a.

Definition address_columns (row want : option stat) : list (string * option Z * option Z) :=
  [("txs"%string, a_txs <$> row, a_txs <$> want); ("sent"%string, a_sent <$> row, a_sent <$> want);
   ("internal"%string, a_internal <$> row, a_internal <$> want); ("transfers"%string, a_transfers <$> row, a_transfers <$> want);
   ("first_seen"%string, row ≫= a_first, want ≫= a_first); ("last_seen"%string, row ≫= a_last, want ≫= a_last)].
Definition address_drifts (s : stats_db) (a : gostring) : list Drift :=
  omap (λ p, if decide (default 0 p.1.2 = default 0 p.2) then None else Some (mkDrift (FAddress, of_address a, p.1.1) p.1.2 p.2))
    (address_columns (t_rows s !! a) (ledger_address_truth s !! a)).
(** [ledger_running_diff_address]. *)
Definition running_diff_address (in_bucket : gostring → bool) (s : stats_db) : list Drift :=
  filter (λ a, in_bucket a = true) (elements (dom (t_rows s) ∪ dom (ledger_address_truth s) : gset gostring)) ≫= address_drifts s.

Definition repair_row (now : Z) (d : Drift) : repair := mkRepair now None (dr_key d) (dr_stored d) (dr_recount d).
Definition put_repair (s : vstate) (r : repair) : vstate := set_repairs (<[v_next s := r]> (v_repairs s)) (S (v_next s)) s.

Section Check.
(** What others do to the counters and to the addresses, and how each statement ends. *)
Context (envV : nat → vstate → vstate) (envA : nat → rebase_sys → rebase_sys) (out : nat → stmt_end).
Local Notation M := (Session.M check_sys).
Local Notation "'do' x ← m ; k" := (Session.bind m (λ x, k)) (at level 200, x pattern, m at level 100, k at level 200).
Definition check_env (k : nat) (c : check_sys) : check_sys := mkCheck (envV k (c_counters c)) (envA k (c_addresses c)) (c_logged c).
Local Notation stmt := (Session.stmt check_env out).

(** A call on one part; the others go on with the other. *)
Fixpoint elapse {S} (env : nat → S → S) (n k : nat) (s : S) : S := match n with O => s | Datatypes.S n => elapse env n (Datatypes.S k) (env k s) end.
Definition on_counters {A} (m : Session.M vstate A) : M A := λ k c,
  let '(k', v, a) := m k (c_counters c) in (k', mkCheck v (elapse envA (k' - k) k (c_addresses c)) (c_logged c), a).
Definition on_addresses {A} (m : Session.M rebase_sys A) : M A := λ k c,
  let '(k', r, a) := m k (c_addresses c) in (k', mkCheck (elapse envV (k' - k) k (c_counters c)) r (c_logged c), a).

(** ** A batch of addresses *)

(** [logRepair], dated when it runs. *)
Definition logRepair (d : Drift) : M unit :=
  stmt (λ c, (mkCheck (c_counters c) (c_addresses c) (c_logged c ++ [repair_row (v_clock (c_counters c)) d])%list, Some tt)).
Fixpoint log_repairs (ds : list Drift) : M unit :=
  match ds with [] => Session.ret tt | d :: ds => do _ ← logRepair d; log_repairs ds end.
Definition end_batch (s : stats_db) (r : rebase_sys) : rebase_sys := mkRebase s (r_held r && false) false no_tx (r_astray r).
Definition commit_batch : M unit :=
  stmt (λ c, (mkCheck (foldl put_repair (c_counters c) (c_logged c)) (end_batch (AddressRebase.commit_tx (c_addresses c)) (c_addresses c)) [], Some tt)).
Definition rollback_batch : M unit :=
  mem check_env (λ c, (mkCheck (c_counters c) (end_batch (r_db (c_addresses c)) (c_addresses c)) [], tt)).

Definition drifts_of (batch : list gostring) (byAddress : list Drift) : list Drift :=
  batch ≫= λ a, filter (λ d, to_address (dr_key d).1.2 = a) byAddress.
Definition repair_batch (batch : list gostring) (create : gset gostring) (byAddress : list Drift) : M RebaseResult :=
  on_error
    (do r ← on_addresses (Session.bind (rebase_lock envA out) (λ _, rebaseAddressBatchLocked envA out batch create (Session.ret tt)));
     do _ ← log_repairs (drifts_of batch byAddress);
     do _ ← commit_batch;
     Session.ret r)
    rollback_batch.
Fixpoint repair_batches (bs : list (list gostring)) (create : gset gostring) (byAddress : list Drift) (total : RebaseResult) : M RebaseResult :=
  match bs with
  | [] => Session.ret total
  | b :: bs => do r ← repair_batch b (create ∩ list_to_set b) byAddress; repair_batches bs create byAddress (add_result total r)
  end.
(** [rebaseAddresses] with the callback that logs. *)
Definition rebase_drifted (addresses : list string) (byAddress : list Drift) : M RebaseResult :=
  let addresses := merge_sort address_le (to_address <$> addresses) in
  repair_batches (batches (length addresses) addresses) (list_to_set addresses) byAddress no_result.

(** ** The check *)

Definition repairDrifts (drifts : list Drift) (w0 : gset ckey) : M unit :=
  do (addresses, byAddress) ← on_counters (repair_drifts envV out drifts w0);
  if decide (addresses = []) then Session.ret tt
  else do _ ← rebase_drifted addresses byAddress; on_addresses (recountPendingDays envA out).

Definition CheckRunning (in_bucket : gostring → bool) (repair_ : bool) (w0 : gset ckey) : M (list Drift) :=
  do drifts ← stmt (λ c, (c, Some (running_diff (c_counters c) ++ running_diff_address in_bucket (r_db (c_addresses c)))%list));
  if negb repair_ || bool_decide (drifts = []) then Session.ret drifts
  else do _ ← repairDrifts drifts w0; Session.ret drifts.
End Check.
