(* ===== verification/RunningRepairProps.v ===== *)
(** * What the running check repairs

    Blocks, reverts, span closes, settlements and other rebases between the statements of
    a check: every drifted counter it may write is its truth when its transaction commits,
    and every drifted address it may repair when the check answers. *)

From S2P Require Import Prelude GoStrings Tally Session Balances AddressTruth AddressRebase AddressRebaseSpec AddressRebaseRun AddressRebaseProps AddressRebaseSpans AddressRebaseDone.
From S2P Require Import RunningCheck RunningCheckProps RunningRepair.
From stdpp Require Import strings.
Local Open Scope Z_scope.
Local Notation settled := AddressRebaseSpec.settled.

(** ** Both halves of the state *)

(** After the transaction of the counters: others, and the repairs of addresses put on
    record. *)
Definition address_repair (r : repair) : Prop := rp_lo r = None ∧ (rp_key r).1.1 = FAddress.
Inductive checked : vstate → vstate → Prop :=
| k_other s s' : other s s' → checked s s'
| k_record r s : address_repair r → checked s (put_repair s r).
Lemma checked_same s s' : rtc checked s s' → v_tx s' = v_tx s ∧ v_written s' = v_written s ∧ v_quarantine s' = v_quarantine s.
Proof.
  induction 1 as [|s s1 s' Hs _ (-> & -> & ->)]; [done|]. destruct Hs as [s s2 Ho|r s Hr]; [|done].
  by destruct (other_same s s2 Ho) as (-> & -> & -> & _).
Qed.
Lemma rtc_checked s s' : rtc other s s' → rtc checked s s'.
Proof. apply rtc_subrel. apply k_other. Qed.
Lemma put_repairs_checked rows s : Forall address_repair rows → rtc checked s (foldl put_repair s rows).
Proof. intros Hr. revert s. induction Hr as [|r rows Hr _ IH]; intros s; cbn; [done|]. eapply rtc_l; [by apply k_record|apply IH]. Qed.
Lemma elapse_rtc {S} (R : S → S → Prop) (env : nat → S → S) n k s : (∀ k s, rtc R s (env k s)) → rtc R s (elapse env n k s).
Proof. intros HR. revert k s. induction n as [|n IH]; intros k s; cbn; [done|]. etrans; [apply HR|apply IH]. Qed.
Lemma stable_rtc {S} (R : S → S → Prop) (P : S → Prop) s s' : stable R P → rtc R s s' → P s → P s'.
Proof. intros HP. induction 1; [done|]. eauto. Qed.

Lemma bind_assoc {S A B C} (m : Session.M S A) (f : A → Session.M S B) (g : B → Session.M S C) k y :
  Session.bind (Session.bind m f) g k y = Session.bind m (λ a, Session.bind (f a) g) k y.
Proof. unfold Session.bind. by destruct (m k y) as [[? ?] [?|]]. Qed.
Lemma bind_ext {S A B} (m : Session.M S A) (f g : A → Session.M S B) : (∀ a k y, f a k y = g a k y) → ∀ k y, Session.bind m f k y = Session.bind m g k y.
Proof. intros Hf k y. unfold Session.bind. by destruct (m k y) as [[? ?] [?|]]. Qed.
Lemma on_error_ext {S A} (m m' : Session.M S A) clean k y : m k y = m' k y → on_error m clean k y = on_error m' clean k y.
Proof. unfold on_error. by intros ->. Qed.

Section Check.
Context (envV : nat → vstate → vstate) (envA : nat → rebase_sys → rebase_sys) (out : nat → stmt_end).
Hypothesis HV : ∀ k s, rtc other s (envV k s).
Hypothesis HA : ∀ k y, rtc rebase_step y (envA k y).
Local Notation env := (check_env envV envA).

(** *** What a call does to the addresses *)

Definition sim {A} (m : Session.M check_sys A) (mr : Session.M rebase_sys A) : Prop :=
  ∀ k c, mr k (c_addresses c) = ((m k c).1.1, c_addresses (m k c).1.2, (m k c).2).
Lemma sim_ret {A} (a : A) : sim (Session.ret a) (Session.ret a).
Proof. done. Qed.
Lemma sim_bind {A B} (m : Session.M check_sys A) (f : A → Session.M check_sys B) mr fr : sim m mr → (∀ a, sim (f a) (fr a)) → sim (Session.bind m f) (Session.bind mr fr).
Proof. intros Hm Hf k c. unfold Session.bind. rewrite Hm. destruct (m k c) as [[k' c'] [a|]]; cbn; [by rewrite Hf|done]. Qed.
Lemma sim_on_error {A} (m : Session.M check_sys A) clean mr cr : sim m mr → sim clean cr → sim (on_error m clean) (on_error mr cr).
Proof. intros Hm Hc k c. unfold on_error. rewrite Hm. destruct (m k c) as [[k' c'] [a|]]; cbn; [done|]. rewrite Hc. by destruct (clean k' c') as [[? ?] ?]. Qed.
Lemma sim_stmt {A} (f : check_sys → check_sys * option A) g : (∀ c, g (c_addresses c) = (c_addresses (f c).1, (f c).2)) → sim (stmt env out f) (stmt envA out g).
Proof.
  intros Hf k c. unfold stmt. specialize (Hf (env k c)). cbn [c_addresses check_env] in Hf. destruct (out k); cbn; rewrite ?Hf; [|done|done].
  by destruct (f (env k c)) as [c' [a|]].
Qed.
Lemma sim_mem {A} (f : check_sys → check_sys * A) g : (∀ c, g (c_addresses c) = (c_addresses (f c).1, (f c).2)) → sim (mem env f) (mem envA g).
Proof. intros Hf k c. unfold mem. specialize (Hf (env k c)). cbn [c_addresses check_env] in Hf. rewrite Hf. by destruct (f (env k c)). Qed.
Lemma sim_addresses {A} (m : Session.M rebase_sys A) : sim (on_addresses envV m) m.
Proof. intros k c. unfold on_addresses. by destruct (m k (c_addresses c)) as [[k' r] a]. Qed.

(** The log of a batch, as the addresses see it. *)
Fixpoint elsewheres (n : nat) : Session.M rebase_sys unit :=
  match n with O => Session.ret tt | S n => Session.bind (elsewhere envA out) (λ _, elsewheres n) end.
Lemma elsewheres_quiet n : quiet (elsewheres n).
Proof.
  induction n as [|n IH]; cbn [elsewheres]; [apply quiet_ret|]. intros P E HP HE. eapply spec_bind; [by apply (quiet_elsewhere envA out HA)|]. intros ?. by apply IH.
Qed.
Lemma elsewheres_succ n : (∀ k, out k = Done) → succeeds (elsewheres n).
Proof. intros Hd. induction n as [|n IH]; cbn [elsewheres]; [apply succ_ret|]. apply succ_bind; [by apply succ_stmt|]. done. Qed.
Lemma log_sim ds : sim (log_repairs envV envA out ds) (elsewheres (length ds)).
Proof. induction ds as [|d ds IH]; cbn [log_repairs elsewheres length]; [apply sim_ret|]. apply sim_bind; [by apply sim_stmt|done]. Qed.

(** The callback comes last. *)
Lemma after_last batch create after k y : rebaseAddressBatchLocked envA out batch create after k y =
  Session.bind (rebaseAddressBatchLocked envA out batch create (Session.ret tt)) (λ r, Session.bind after (λ _, Session.ret r)) k y.
Proof.
  unfold rebaseAddressBatchLocked. rewrite bind_assoc. revert k y. apply bind_ext. intros read k y. unfold applyRebaseRows. cbv zeta. rewrite bind_assoc. revert k y. apply bind_ext.
  intros [stale inserted] k y. do 4 (rewrite bind_assoc; revert k y; apply bind_ext; intros ? k y). done.
Qed.

Lemma batch_sim batch create byAddress :
  ∀ k c, rebaseAddressBatch envA out batch create (elsewheres (length (drifts_of batch byAddress))) k (c_addresses c) =
    ((repair_batch envV envA out batch create byAddress k c).1.1, c_addresses (repair_batch envV envA out batch create byAddress k c).1.2,
     (repair_batch envV envA out batch create byAddress k c).2).
Proof.
  intros k c. unfold repair_batch. set (n := length (drifts_of batch byAddress)). set (body := λ after, Session.bind (rebase_lock envA out) (λ _, rebaseAddressBatchLocked envA out batch create after)).
  transitivity (on_error (Session.bind (body (Session.ret tt)) (λ r, Session.bind (elsewheres n) (λ _, Session.bind (AddressRebase.commit envA out false) (λ _, Session.ret r))))
    (AddressRebase.rollback envA false) k (c_addresses c)).
  - unfold rebaseAddressBatch, AddressRebase.in_tx. apply on_error_ext. unfold body. rewrite !bind_assoc. generalize (c_addresses c). revert k.
    apply bind_ext. intros [] k y. unfold Session.bind at 1. rewrite after_last. fold (Session.bind (Session.bind (rebaseAddressBatchLocked envA out batch create (Session.ret tt)) (λ r, Session.bind (elsewheres n) (λ _, Session.ret r)))
      (λ r, Session.bind (AddressRebase.commit envA out false) (λ _, Session.ret r)) k y).
    rewrite bind_assoc. revert k y. apply bind_ext. intros r k y. rewrite bind_assoc. revert k y. apply bind_ext. done.
  - revert k c. apply sim_on_error; [|by apply sim_mem]. apply sim_bind; [apply sim_addresses|]. intros r. apply sim_bind; [apply log_sim|]. intros []. apply sim_bind; [by apply sim_stmt|]. intros []. apply sim_ret.
Qed.

(** *** What a call does to the counters *)

Definition records (c c' : check_sys) : Prop := rtc checked (c_counters c) (c_counters c') ∧ (Forall address_repair (c_logged c) → Forall address_repair (c_logged c')).
Definition keeps {A} (m : Session.M check_sys A) : Prop := ∀ k c, Forall address_repair (c_logged c) → records c (m k c).1.2.
Lemma keeps_ret {A} (a : A) : keeps (Session.ret a).
Proof. intros k c Hc. by split. Qed.
Lemma keeps_bind {A B} (m : Session.M check_sys A) (f : A → Session.M check_sys B) : keeps m → (∀ a, keeps (f a)) → keeps (Session.bind m f).
Proof.
  intros Hm Hf k c Hc. unfold Session.bind. specialize (Hm k c Hc). destruct (m k c) as [[k' c'] [a|]]; [|done]. destruct Hm as [H1 H2].
  destruct (Hf a k' c' (H2 Hc)) as [H3 H4]. split; [by etrans|auto].
Qed.
Lemma keeps_on_error {A} (m : Session.M check_sys A) clean : keeps m → keeps clean → keeps (on_error m clean).
Proof.
  intros Hm Hf k c Hc. unfold on_error. specialize (Hm k c Hc). destruct (m k c) as [[k' c'] [a|]]; [done|]. destruct Hm as [H1 H2].
  destruct (Hf k' c' (H2 Hc)) as [H3 H4]. destruct (clean k' c') as [[? ?] ?]. split; [by etrans|auto].
Qed.
Lemma env_records k c : records c (env k c).
Proof. split; [apply rtc_checked, HV|done]. Qed.
Lemma keeps_stmt {A} (f : check_sys → check_sys * option A) : (∀ c, Forall address_repair (c_logged c) → records c (f c).1) → keeps (stmt env out f).
Proof.
  intros Hf k c Hc. destruct (env_records k c) as [H1 H2]. destruct (Hf (env k c) (H2 Hc)) as [H3 H4]. unfold stmt.
  assert (records c (f (env k c)).1) as Hr by (split; [by etrans|auto]). destruct (out k); [|by split|done]. by destruct (f (env k c)).
Qed.
Lemma keeps_addresses {A} (m : Session.M rebase_sys A) : keeps (on_addresses envV m).
Proof. intros k c Hc. unfold on_addresses. destruct (m k (c_addresses c)) as [[k' r] a]. split; [|done]. cbn. by apply rtc_checked, elapse_rtc. Qed.
Lemma keeps_log ds : Forall of_address_row ds → keeps (log_repairs envV envA out ds).
Proof.
  induction 1 as [|d ds Hd _ IH]; cbn [log_repairs]; [apply keeps_ret|]. apply keeps_bind; [|done]. apply keeps_stmt. intros c Hc. split; [done|]. intros _. cbn.
  apply Forall_app. split; [done|]. by constructor.
Qed.
Lemma keeps_batch batch create byAddress : Forall of_address_row byAddress → keeps (repair_batch envV envA out batch create byAddress).
Proof.
  intros Hby. unfold repair_batch. apply keeps_on_error.
  - apply keeps_bind; [apply keeps_addresses|]. intros r. apply keeps_bind.
    + apply keeps_log. apply Forall_forall. intros d (a & Hd & _)%list_elem_of_bind. apply list_elem_of_filter in Hd as [_ Hd]. rewrite Forall_forall in Hby. by apply Hby.
    + intros []. apply keeps_bind; [|intros []; apply keeps_ret]. apply keeps_stmt. intros c Hc. split; [by apply put_repairs_checked|by constructor].
  - intros k c Hc. unfold rollback_batch, mem. split; [apply env_records|by constructor].
Qed.

(** *** The batches *)

Lemma batch_succeeds batch create n : (∀ k, out k = Done) → succeeds (rebaseAddressBatch envA out batch create (elsewheres n)).
Proof.
  intros Hd. apply (in_tx_succ envA out Hd). apply succ_bind; [by apply succ_stmt|]. intros []. apply succ_bind; [by apply succ_stmt|]. intros read.
  apply (apply_succ envA out Hd). by apply elsewheres_succ.
Qed.
(** From [P], [m] records and answers with [Q]; it fails with [P] only if a statement
    does. *)
Definition repairs {A} (P Q : rebase_sys → Prop) (m : Session.M check_sys A) : Prop := ∀ k c, P (c_addresses c) → Forall address_repair (c_logged c) →
  records c (m k c).1.2 ∧ match (m k c).2 with Some _ => Q (c_addresses (m k c).1.2) | None => P (c_addresses (m k c).1.2) ∧ ¬ ∀ i, out i = Done end.

Lemma repair_batch_repairs X batch create byAddress : NoDup batch → Forall of_address_row byAddress →
  repairs (quiescent X) (quiescent (either X (both batch create))) (repair_batch envV envA out batch create byAddress).
Proof.
  intros Hnd Hby k c Hq Hl. split; [by apply keeps_batch|].
  pose proof (rebase_batch_spec envA out HA X batch create (elsewheres (length (drifts_of batch byAddress))) Hnd (elsewheres_quiet _) k (c_addresses c) Hq) as Hs.
  pose proof (λ Hd, batch_succeeds batch create (length (drifts_of batch byAddress)) Hd k (c_addresses c)) as Hsucc.
  unfold batch_tx in Hs. fold (rebaseAddressBatch envA out batch create (elsewheres (length (drifts_of batch byAddress)))) in Hs.
  rewrite batch_sim in Hs, Hsucc. destruct (repair_batch envV envA out batch create byAddress k c) as [[k' c'] [r|]]; cbn in *; [done|]. split; [done|]. intros Hd. by apply (Hsucc Hd).
Qed.
Lemma repair_batches_repairs bs create byAddress : Forall NoDup bs → Forall of_address_row byAddress → ∀ X total,
  repairs (quiescent X) (quiescent (either X (both (concat bs) create))) (repair_batches envV envA out bs create byAddress total).
Proof.
  intros Hnd Hby. induction Hnd as [|b bs Hb Hnd IH]; intros X total k c Hq Hl; cbn [repair_batches].
  { split; [by split|]. cbn. revert Hq. apply quiescent_impl; [|done|done]. intros a [?|[?%not_elem_of_nil _]]; done. }
  unfold Session.bind. destruct (repair_batch_repairs X b (create ∩ list_to_set b) byAddress Hb Hby k c Hq Hl) as [[H1 H1'] H2].
  destruct (repair_batch envV envA out b (create ∩ list_to_set b) byAddress k c) as [[k' c'] [r|]]; cbn in H1, H1', H2; [|by split].
  destruct (IH _ (add_result total r) k' c' H2 (H1' Hl)) as [[H3 H3'] H4]. split; [split; [by etrans|auto]|].
  destruct (repair_batches envV envA out bs create byAddress (add_result total r) k' c') as [[k2 c2] [r2|]]; cbn in H4 |- *.
  - revert H4. apply quiescent_impl; [|done|done]. intros a [Ha|[Ha Hc]]; [left; by left|]. cbn [concat] in Ha. apply elem_of_app in Ha as [Ha|Ha]; [left; right|right; by split].
    split; [done|]. apply elem_of_intersection. split; [done|by apply elem_of_list_to_set].
  - destruct H4 as [H4 ?]. split; [|done]. revert H4. apply quiescent_impl; [by left|done|done].
Qed.

#[local] Instance to_address_inj : Inj (=) (=) to_address.
Proof. intros x y E. apply (f_equal string_of_list_byte) in E. unfold to_address in E. by rewrite !string_of_list_byte_of_string in E. Qed.
Lemma rebase_drifted_repairs X addresses byAddress : NoDup addresses → Forall of_address_row byAddress →
  repairs (quiescent X) (quiescent (either X (.∈ to_address <$> addresses))) (rebase_drifted envV envA out addresses byAddress).
Proof.
  intros Hnd Hby k c Hq Hl. unfold rebase_drifted. cbv zeta. pose proof (merge_sort_Permutation address_le (to_address <$> addresses)) as Hp. set (l := merge_sort _ _) in *. clearbody l.
  pose proof (batches_concat (length l) l ltac:(lia)) as E. assert (Forall NoDup (batches (length l) l)) as Hb by (apply concat_nodup; rewrite E, Hp; by apply (NoDup_fmap_2 to_address)).
  destruct (repair_batches_repairs _ (list_to_set l) byAddress Hb Hby X no_result k c Hq Hl) as [H1 H2]. split; [done|].
  destruct (repair_batches envV envA out _ _ byAddress no_result k c) as [[k' c'] [r|]]; cbn in H2 |- *; [|done].
  revert H2. apply quiescent_impl; [|done|done]. intros a [Ha|Ha]; [by left|right]. split; [by rewrite E, Hp|]. apply elem_of_list_to_set. by rewrite Hp.
Qed.

Lemma recount_repairs X : repairs (quiescent X) (quiescent X) (on_addresses envV (recountPendingDays envA out)).
Proof.
  intros k c Hq Hl. split; [by apply keeps_addresses|].
  pose proof (recountPendingDays_spec envA out HA X (quiescent X) (quiescent_stable X) (λ y H, H) ltac:(intros; by apply days_quiescent) k (c_addresses c) Hq) as Hs.
  assert ((∀ k, out k = Done) → succeeds (recountPendingDays envA out)) as Hsucc.
  { intros Hd. unfold recountPendingDays, elsewhere. do 2 (apply succ_bind; [by apply succ_stmt|intros ?]). apply succ_decide; [apply succ_ret|].
    do 2 (apply succ_bind; [by apply succ_stmt|intros ?]). by apply succ_stmt. }
  specialize (λ Hd, Hsucc Hd k (c_addresses c)). unfold on_addresses. destruct (recountPendingDays envA out k (c_addresses c)) as [[k' r] [a|]]; cbn in *; [done|].
  split; [done|]. intros Hd. by apply (Hsucc Hd).
Qed.

(** The addresses that are rebased after the transaction. *)
Lemma tail_repairs X found : NoDup found.1 → Forall of_address_row found.2 →
  repairs (quiescent X) (quiescent (either X (.∈ to_address <$> found.1)))
    (if decide (found.1 = []) then Session.ret tt else Session.bind (rebase_drifted envV envA out found.1 found.2) (λ _, on_addresses envV (recountPendingDays envA out))).
Proof.
  intros Hnd Hby k c Hq Hl. destruct (decide (found.1 = [])) as [->|Hne].
  { split; [by split|]. cbn. revert Hq. apply quiescent_impl; [|done|done]. by intros a [?|?%not_elem_of_nil]. }
  destruct (rebase_drifted_repairs X found.1 found.2 Hnd Hby k c Hq Hl) as [[H1 H1'] H2]. unfold Session.bind.
  destruct (rebase_drifted envV envA out found.1 found.2 k c) as [[k' c'] [r|]]; cbn in H1, H1', H2; [|by split].
  destruct (recount_repairs _ k' c' H2 (H1' Hl)) as [[H3 H3'] H4]. split; [split; [by etrans|auto]|].
  destruct (on_addresses envV (recountPendingDays envA out) k' c') as [[k2 c2] [[]|]]; cbn in H4 |- *; [done|]. destruct H4 as [H4 ?]. split; [|done].
  revert H4. apply quiescent_impl; [by left|done|done].
Qed.
Lemma elapse_quiescent X n k r : quiescent X r → quiescent X (elapse envA n k r).
Proof. apply (stable_rtc rebase_step); [apply quiescent_stable|]. by apply elapse_rtc. Qed.
End Check.

(** ** The drifts of addresses *)

Lemma in_running_diff s k : k ∈ dr_key <$> running_diff s ↔ is_Some (v_running s !! k) ∧ ¬ right_counter s k ∧ k.1.1 ≠ FAddress.
Proof.
  unfold running_diff. rewrite <- list_fmap_compose, list_fmap_id, list_elem_of_filter, elem_of_elements, elem_of_dom. unfold right_counter. naive_solver.
Qed.
Lemma address_drifts_key s a d : d ∈ address_drifts s a → (dr_key d).1 = (FAddress, of_address a).
Proof. unfold address_drifts. intros (p & _ & E)%list_elem_of_omap. case_decide; [done|]. by injection E as <-. Qed.
Lemma diff_address_family in_bucket s d : d ∈ running_diff_address in_bucket s → of_address_row d.
Proof. intros (a & Hd & _)%list_elem_of_bind. apply address_drifts_key in Hd. unfold of_address_row. by rewrite Hd. Qed.
(** A row that differs from its truth is read. *)
Lemma drifts_read in_bucket s a d : in_bucket a = true → d ∈ address_drifts s a → d ∈ running_diff_address in_bucket s.
Proof.
  intros Hb Hd. apply list_elem_of_bind. exists a. split; [done|]. apply list_elem_of_filter. split; [done|]. apply elem_of_elements, elem_of_union. rewrite !elem_of_dom.
  destruct (t_rows s !! a) eqn:E1; [left; by eexists|]. destruct (ledger_address_truth s !! a) eqn:E2; [right; by eexists|]. unfold address_drifts in Hd. rewrite E1, E2 in Hd. by apply not_elem_of_nil in Hd.
Qed.
Lemma of_to_address a : to_address (of_address a) = a.
Proof. apply list_byte_of_string_of_list_byte. Qed.

(** What the transaction of a repair settles. *)
Definition repaired (snap vc : vstate) : Prop :=
  ∀ k, is_Some (v_running snap !! k) → ¬ right_counter snap k → k.1.1 ≠ FAddress → k.1 ∈ v_quarantine vc ∨ v_running vc !! k = None ∨ right_counter vc k.
Definition wrote_only (v0 snap v' : vstate) : Prop :=
  ∃ W : gset ckey, v_written v' = v_written v0 ∪ W ∧ ∀ k, k ∈ W → k.1 ∉ v_quarantine v0 ∧ k.1.1 ≠ FAddress ∧ is_Some (v_running snap !! k) ∧ ¬ right_counter snap k.
Lemma counters_repaired envV out v0 in_bucket s k :
  (∀ k s, rtc other s (envV k s)) → v_tx v0 = None → (∀ k, is_Some (v_running (envV 0%nat v0) !! k) → running_column k = true) →
  let snap := envV 0%nat v0 in let ds := (running_diff snap ++ running_diff_address in_bucket s)%list in
  match repair_drifts envV out ds (v_written v0) k snap with
  | (_, v', r) => v_tx v' = None ∧ wrote_only v0 snap v' ∧
      match r with Some found => repaired snap v' ∧ accounted ds (v_quarantine v') found.1 ∧ handed_on ds [] found | None => ¬ ∀ i, out i = Done end
  end.
Proof.
  intros HV Hx Hcol snap ds. assert (rtc other v0 snap) as Hsnap by apply HV. destruct (checked_same v0 snap (rtc_checked _ _ Hsnap)) as (Hx' & Hw & Hq).
  assert (∀ k : ckey, k ∈ dr_key <$> ds ∧ k.1.1 ≠ FAddress ↔ is_Some (v_running snap !! k) ∧ ¬ right_counter snap k ∧ k.1.1 ≠ FAddress) as Hkeys.
  { intros k'. unfold ds. rewrite fmap_app, elem_of_app, in_running_diff, list_elem_of_fmap. split; [|naive_solver].
    intros [[?|(d & -> & Hd)] Hf]; [done|]. by apply diff_address_family in Hd. }
  assert (∀ v, writes_ok (v_quarantine v0) (v_written v0) (dr_key <$> ds) v → wrote_only v0 snap v) as Hwrites.
  { intros v (W & EW & HW). exists W. split; [done|]. intros k' Hk'. destruct (HW k' Hk') as (H1 & H2 & H3). destruct (Hkeys k') as [Hk'' _]. naive_solver. }
  pose proof (repair_hands_on envV out HV ds (v_written v0) k snap I) as Hhand.
  pose proof (repair_drifts_spec envV out HV (v_quarantine v0) (v_written v0) (dr_key <$> ds) ds (list_elem_of_fmap_2 dr_key ds) k snap) as Hrep.
  specialize (Hrep ltac:(unfold before; rewrite Hq, Hx', Hx; done)). destruct (repair_drifts envV out ds (v_written v0) k snap) as [[i v'] [found|]].
  - destruct Hrep as (ks & Hks & [Ho1 Ho2] & Hst). split; [done|]. split; [by apply Hwrites|]. split; [|done]. intros k' H1 H2 H3. apply Hst.
    destruct (proj2 (Hkeys k') (conj H1 (conj H2 H3))) as [Hin _]. apply list_elem_of_fmap in Hin as (d & -> & Hd). by apply Hks.
  - destruct Hrep as [[Ho1 Ho2] Hn]. split; [done|]. split; [by apply Hwrites|]. intros Hd. apply Hn. split; [done|]. intros k' Hk' Hf. apply Hcol. by apply Hkeys.
Qed.

(** C33: what a running check with repair does, whatever blocks, reverts, span closes,
    settlements of the ledger and other rebases run between its statements, and whichever
    of these fail. It reads the drifts of the chain and token counters and of a bucket of
    addresses in one snapshot. Of the chain and token counters it writes only such as were
    wrong in that snapshot and whose rows were not quarantined. When it answers, each of
    those that was wrong was, when the transaction that repairs them committed, quarantined,
    without a row, or its truth; what comes after that in these tables is what others do,
    and the repairs of addresses put on record, and nothing of its own if no address
    drifted. Each address of the bucket that had drifted is quarantined or settled: its row
    is its truth, but for one whose drifted row a revert removed or whose ledger a
    settlement moved. In any case no transaction is left open and no rebase lock held,
    every settled address stays settled and [addresses_total] counts the rows; and it fails
    only if a statement does. *)
Theorem running_check_repairs (envV : nat → vstate → vstate) (envA : nat → rebase_sys → rebase_sys) (out : nat → stmt_end) (in_bucket : gostring → bool) (v0 : vstate) (r0 : rebase_sys) :
  (∀ k s, rtc other s (envV k s)) → (∀ k y, rtc rebase_step y (envA k y)) → v_tx v0 = None → at_rest r0 →
  (∀ k, is_Some (v_running (envV 0%nat v0) !! k) → running_column k = true) →
  let snap := envV 0%nat v0 in let rows := r_db (envA 0%nat r0) in
  match CheckRunning envV envA out in_bucket true (v_written v0) 0%nat (mkCheck v0 r0 []) with
  | (_, c, res) =>
      v_tx (c_counters c) = None ∧ at_rest (c_addresses c) ∧ (∀ a, settled a r0 → settled a (c_addresses c)) ∧ wrote_only v0 snap (c_counters c) ∧
      match res with
      | Some drifts => drifts = (running_diff snap ++ running_diff_address in_bucket rows)%list ∧
          (∃ committed, repaired snap committed ∧ rtc checked committed (c_counters c) ∧ (running_diff_address in_bucket rows = [] → c_counters c = committed)) ∧
          ∀ a, in_bucket a = true → address_drifts rows a ≠ [] → (FAddress, of_address a) ∈ v_quarantine (c_counters c) ∨ settled a (c_addresses c)
      | None => ¬ ∀ i, out i = Done
      end
  end.
Proof.
  intros HV HA Hx Hr0 Hcol snap rows. unfold CheckRunning. set (ds := (running_diff snap ++ running_diff_address in_bucket rows)%list). set (X := knows_exact r0).
  assert (quiescent X (envA 0%nat r0)) as Hq0 by (apply (stable_rtc rebase_step _ r0); [apply quiescent_stable|apply HA|by apply rest_quiescent]).
  assert (∀ r, quiescent X r → at_rest r ∧ ∀ a, settled a r0 → settled a r) as Hrest by (intros r Hq; by apply quiescent_rest in Hq).
  destruct (checked_same v0 snap (rtc_checked _ _ (HV 0%nat v0))) as (Hx' & Hw & _).
  assert (wrote_only v0 snap snap) as Hnone by (exists ∅; rewrite Hw; split; [set_solver|by intros k ?%elem_of_empty]).
  unfold Session.bind at 1. unfold stmt at 1. cbn [check_env c_counters c_addresses c_logged]. fold snap rows ds. destruct (out 0%nat) eqn:E0; cbn [fst snd c_counters c_addresses].
  2-3: destruct (Hrest _ Hq0); split_and!; [exact (eq_trans Hx' Hx)|done|done|done|intros Hd; by rewrite Hd in E0].
  cbn [negb orb]. case_bool_decide as Hnil.
  { destruct (Hrest _ Hq0). cbn [Session.ret c_counters c_addresses]. apply app_nil in Hnil as [Hn1 Hn2]. split_and!; [exact (eq_trans Hx' Hx)|done|done|done|done| |].
    - exists snap. split_and!; [|done|done]. intros k H1 H2 H3. assert (k ∈ dr_key <$> running_diff snap) as Hin by (by apply in_running_diff). rewrite Hn1 in Hin. by apply not_elem_of_nil in Hin.
    - intros a Hb Hne. destruct (address_drifts rows a) as [|d l] eqn:Ed; [done|]. assert (d ∈ running_diff_address in_bucket rows) as Hin by (apply (drifts_read in_bucket rows a d Hb); rewrite Ed; left).
      rewrite Hn2 in Hin. by apply not_elem_of_nil in Hin. }
  pose proof (counters_repaired envV out v0 in_bucket rows 1%nat HV Hx Hcol) as Hrep. cbv zeta in Hrep. fold snap ds in Hrep. unfold repairDrifts, Session.bind, on_counters.
  change (check_env envV envA 0%nat (mkCheck v0 r0 [])) with (mkCheck snap (envA 0%nat r0) []). cbn [c_counters c_addresses c_logged].
  destruct (repair_drifts envV out ds (v_written v0) 1%nat snap) as [[k1 vc] [found|]]; destruct Hrep as (H1 & H2 & H3).
  2: { destruct (Hrest _ (elapse_quiescent envA HA X (k1 - 1) 1%nat _ Hq0)) as [Hr Hset]. exact (conj H1 (conj Hr (conj Hset (conj H2 H3)))). }
  destruct H3 as (H3 & Hacc & Hhand). pose proof (hd_nodup _ _ _ Hhand) as Hnd. pose proof (hd_drifts _ _ _ Hhand) as Hby.
  set (c1 := mkCheck vc (elapse envA (k1 - 1) 1%nat (envA 0%nat r0)) []). assert (quiescent X (c_addresses c1)) as Hq1 by (by apply elapse_quiescent).
  pose proof (tail_repairs envV envA out HV HA X found Hnd Hby k1 c1 Hq1 ltac:(constructor)) as [[Hrec _] Hend].
  destruct found as [addresses byAddress]. cbn [fst snd] in *. unfold Session.bind in Hrec, Hend.
  match goal with |- context [match ?m k1 c1 with _ => _ end] => destruct (m k1 c1) as [[k2 c2] [u|]] eqn:Em end; cbn [Session.ret fst snd] in *;
    destruct (checked_same _ _ Hrec) as (E1 & E2 & E3); cbn [c1 c_counters] in *.
  - destruct (quiescent_rest _ _ Hend) as [Hr Hset]. split_and!; [by rewrite E1|done|intros a Ha; apply Hset; by left|destruct H2 as (W & EW & HW); exists W; by rewrite E2|done| |].
    + exists vc. split_and!; [done|done|]. intros Hno. assert (addresses = []) as ->.
      { destruct addresses as [|a l]; [done|]. destruct (hd_from _ _ _ Hhand a ltac:(left)) as [?%not_elem_of_nil|(d & Hd & Hf & _)]; [done|]. unfold ds in Hd. rewrite Hno, app_nil_r in Hd.
        assert (dr_key d ∈ dr_key <$> running_diff snap) as Hin by (by apply list_elem_of_fmap_2). apply in_running_diff in Hin as (_ & _ & Hin). done. }
      cbn in Em. by injection Em as _ <- _.
    + intros a Hb Hne. destruct (address_drifts rows a) as [|d l] eqn:Ed; [done|]. assert (d ∈ address_drifts rows a) as Hd by (rewrite Ed; left).
      pose proof (address_drifts_key rows a d Hd) as Hk. rewrite E3. destruct (Hacc d) as [Hin|Hin]; [apply elem_of_app; right; by eapply drifts_read|by rewrite Hk|left; by rewrite <- Hk|right].
      apply Hset. right. rewrite Hk in Hin. cbn in Hin. rewrite <- (of_to_address a). by apply list_elem_of_fmap_2.
  - destruct Hend as [Hq2 Hfail]. destruct (Hrest _ Hq2). split_and!; [by rewrite E1|done|done|destruct H2 as (W & EW & HW); exists W; by rewrite E2|done].
Qed.

(** ** On a token and an address *)

Definition usdc : ckey := (FToken, "0xa"%string, "transfers"%string).
(** Seven on record, five in the rows. *)
Definition counters_off : vstate := mkV {[ usdc := 2 ]} {[ usdc := 3 ]} {[ usdc := Some 7 ]} ∅ 0%nat ∅ 0 None ∅.
(** A span closes before each statement. *)
Definition closing : nat → vstate → vstate := λ _ s, set_ledger (add_map (v_closed s) {[ usdc := 1 ]}) (add_map (v_open s) (Z.opp <$> {[ usdc := 1 ]})) s.
(** Alice's row is wrong too, and a block with her is stored while she is rebased. *)
Definition checked_run (envV : nat → vstate → vstate) (out : nat → stmt_end) : nat * check_sys * option (list Drift) :=
  CheckRunning envV (stores_at 13 2) out (λ _, true) true ∅ 0%nat (mkCheck counters_off (resting AddressRebaseDone.drifted) []).
Definition bad_rebase (i : nat) : stmt_end := if bool_decide (i = 14%nat) then Failed else Done.

Definition check_outcome (p : nat * check_sys * option (list Drift)) : Z * option Z * nat * bool :=
  (value (c_counters p.1.2) usdc, a_txs <$> t_rows (r_db (c_addresses p.1.2)) !! alice, size (v_repairs (c_counters p.1.2)), bool_decide (is_Some p.2)).

(** The check of both, spans closing, and one whose rebase fails after the transaction of
    the counters. *)
Lemma running_check_repairs_witness :
  (settled alice (c_addresses (checked_run closing (λ _, Done)).1.2) ∧ check_outcome (checked_run closing (λ _, Done)) = (5, Some 2, 3%nat, true)) ∧
  (v_tx (c_counters (checked_run closing bad_rebase).1.2) = None ∧ check_outcome (checked_run closing bad_rebase) = (5, Some 8, 1%nat, false)).
Proof.
  assert (∀ k s, rtc other s (closing k s)) as HV by (intros; apply rtc_once, o_close).
  assert (∀ k, is_Some (v_running (closing 0%nat counters_off) !! k) → running_column k = true) as Hcol.
  { intros k [v Hv]. change (({[ usdc := Some 7 ]} : gmap ckey (option Z)) !! k = Some v) in Hv. apply lookup_singleton_Some in Hv as [<- _]. reflexivity. }
  assert (∀ out, _) as T by (intros out; exact (running_check_repairs closing (stores_at 13 2) out (λ _, true) counters_off (resting AddressRebaseDone.drifted) HV (stores_steps 13 2) eq_refl drifted_rest Hcol)).
  split; (split; [|vm_compute; reflexivity]).
  - specialize (T (λ _, Done)). cbv zeta in T. change (v_written counters_off) with (∅ : gset ckey) in T. unfold checked_run.
    assert (v_quarantine (c_counters (checked_run closing (λ _, Done)).1.2) = ∅ ∧ address_drifts (r_db (stores_at 13 2 0%nat (resting AddressRebaseDone.drifted))) alice ≠ []) as [Hq Hne].
    { split; vm_compute; done. }
    unfold checked_run in Hq. destruct (CheckRunning _ _ _ _ _ _ _ _) as [[i c] [drifts|]]; cbn [fst snd] in *; destruct T as (_ & _ & _ & _ & T); [|by destruct T].
    destruct T as (_ & _ & T). destruct (T alice eq_refl Hne) as [Hin|?]; [|done]. rewrite Hq in Hin. by apply elem_of_empty in Hin.
  - specialize (T bad_rebase). cbv zeta in T. change (v_written counters_off) with (∅ : gset ckey) in T. unfold checked_run.
    destruct (CheckRunning _ _ _ _ _ _ _ _) as [[i c] res]. apply (proj1 T).
Defined.

(** The repair of a chain or token counter carries the date its transaction began, and the
    rebase lock is waited for after that: a settlement that lands in between is dated
    later, although the repair read the ledger it left, and a counter that drifts again is
    repaired again instead of quarantined. *)
Definition settling : nat → vstate → vstate := λ i s,
  if bool_decide (i = 2%nat) then set_repairs (<[v_next s := mkRepair 5 (Some 0) usdc None None]> (v_repairs s)) (S (v_next s)) (set_ledger {[ usdc := 1 ]} (v_open s) s) else s.
Example repair_dated_before_settlement :
  let s' := c_counters (checked_run settling (λ _, Done)).1.2 in
  (value s' usdc, v_repairs s' !! 1%nat, last_settled usdc.1 s', repaired_before usdc s') = (4, Some (mkRepair 0 None usdc (Some 7) (Some 4)), Some 5, false).
Proof. vm_compute. reflexivity. Qed.
