(* ===== verification/DailyFold.v ===== *)
(** * Daily statistics: the fold of stored blocks into days

    [internal/db/daily_fold.go] and the watermark of [queries.go], with the SQL
    functions they call (migrations 012, 021, 037).

    Blocks are stored in any order: the head first, older ones by catch-up. A
    watermark says through which block the days are counted; the fold counts the run
    of stored blocks above it in a snapshot and applies the count only if no writer of
    the daily tables committed since. A block stored below the watermark is missed by
    the fold: the process notes its day, and the fold recounts a noted day once its
    blocks are complete. Writers store and revert blocks between any two statements. *)

From S2P Require Import Prelude GoStrings StatsBackfill Tally Session.

(** ** The tables *)

Record stx := mkStx { sx_from : gostring; sx_to : option gostring; sx_price : Z; sx_status : Z }.
Record sblock := mkSblock { sb_ts : Z; sb_gas : Z; sb_size : option Z; sb_txs : list stx; sb_transfers : Z }.
Notation blocks := (gmap Z sblock).

(** A row of daily_stats_acc; one of daily_stats, its averages as sums and counts. *)
Record arow := mkArow { ar_parts : DayParts; ar_active : Z; ar_before : option Z }.
Record day_row := mkDayRow {
  dr_blocks : Z; dr_txs : Z; dr_gas : Z; dr_gasPrice : Z * Z; dr_successful : Z; dr_failed : Z; dr_active : Z; dr_blockTime : Z * Z;
  dr_size : Z * Z; dr_transfers : Z; dr_cumulativeTxs : option Z; dr_newAddresses : Z; dr_newContracts : Z; dr_addresses : Z; dr_contracts : Z }.

(** [dd_seen]: first_seen and is_contract of address_stats; [dd_moves]: the first_seen
    moves no recount has taken in; [dd_offset]: the transactions pruned. *)
Record daily_db := mkDaily {
  dd_blocks : blocks; dd_watermark : option Z; dd_generation : Z; dd_acc : gmap Z arow; dd_active : gmap Z (gset gostring);
  dd_stats : gmap Z day_row; dd_seen : list (Z * bool); dd_moves : option Z; dd_pruned : Z; dd_prunedTs : Z; dd_offset : Z; dd_backfill : bool }.

Definition set_days (wm : option Z) (gen : Z) (acc : gmap Z arow) (active : gmap Z (gset gostring)) (stats : gmap Z day_row) (s : daily_db) : daily_db :=
  mkDaily (dd_blocks s) wm gen acc active stats (dd_seen s) (dd_moves s) (dd_pruned s) (dd_prunedTs s) (dd_offset s) (dd_backfill s).
Definition set_blocks (bs : blocks) (s : daily_db) : daily_db :=
  mkDaily bs (dd_watermark s) (dd_generation s) (dd_acc s) (dd_active s) (dd_stats s) (dd_seen s) (dd_moves s) (dd_pruned s) (dd_prunedTs s) (dd_offset s) (dd_backfill s).

Definition history_from (s : daily_db) : Z := if 0 <? dd_pruned s then dd_pruned s + 1 else 0.
(** [daily_stats_day(timestamp)], [timestamp / 86400]. *)
Definition day (ts : Z) : Z := ts / 86400.

(** ** What blocks add to their days *)

(** The join with the block before, the transactions and the transfers of one block. *)
Definition part_of (bs : blocks) (n : Z) (b : sblock) : DayParts :=
  let prev := bs !! (n - 1) in
  mkDay n 1 (match sb_size b with Some _ => 1 | None => 0 end) (match prev with Some _ => 1 | None => 0 end) (sb_gas b) (default 0 (sb_size b))
    (match prev with Some p => sb_ts b - sb_ts p | None => 0 end) (tsum (sx_price <$> sb_txs b)) (zlen (sb_txs b))
    (zlen (filter (λ t, sx_status t = 1) (sb_txs b))) (zlen (filter (λ t, sx_status t = 0) (sb_txs b))) (sb_transfers b).
Definition users (b : sblock) : gset gostring :=
  ⋃ ((λ t, {[ sx_from t ]} ∪ match sx_to t with Some a => {[ a ]} | None => ∅ end) <$> sb_txs b).

Section Sums.
Context (P : Z → Prop) `{!∀ n, Decision (P n)}.
Definition chosen (bs : blocks) : list (Z * sblock) := filter (λ nb, P nb.1) (map_to_list bs).
Definition sums (bs : blocks) : gmap Z DayParts := tsum ((λ nb, {[ day (sb_ts nb.2) := part_of bs nb.1 nb.2 ]}) <$> chosen bs).
Definition sets (bs : blocks) : gmap Z (gset gostring) := tsum ((λ nb, {[ day (sb_ts nb.2) := users nb.2 ]}) <$> chosen bs).
End Sums.

(** The blocks of a day up to the watermark. *)
Definition of_day (w d : Z) (bs : blocks) : list (Z * sblock) := filter (λ nb, nb.1 ≤ w ∧ day (sb_ts nb.2) = d) (map_to_list bs).

(** [COALESCE(max(number), wm)] over the numbers that are [wm] plus their rank: the run
    of stored blocks above [wm], at most [limit]. *)
Fixpoint run_to (limit : nat) (bs : blocks) (wm : Z) : Z :=
  match limit with O => wm | S limit => if decide (is_Some (bs !! (wm + 1))) then run_to limit bs (wm + 1) else wm end.

Definition min_list (l : list Z) : option Z := match l with [] => None | x :: l => Some (foldr Z.min x l) end.
Definition max_list (l : list Z) : option Z := match l with [] => None | x :: l => Some (foldr Z.max x l) end.

(** The aggregated day before [d], among those [P] holds for. *)
Definition day_before (d : Z) (P : arow → bool) (acc : gmap Z arow) : option arow :=
  match max_list (filter (λ d', d' < d ∧ (P <$> acc !! d') = Some true) (map_to_list acc).*1) with Some d' => acc !! d' | None => None end.

(** The retained transactions before [d]'s first second, and those pruned. *)
Definition txs_before_day (s : daily_db) (d : Z) : Z :=
  zlen ((filter (λ nb, sb_ts nb.2 < d * 86400 ∧ history_from s ≤ nb.1) (map_to_list (dd_blocks s))) ≫= λ nb, sb_txs nb.2) + dd_offset s.

Definition before_txs (a : arow) : option Z := (λ b, b + dp_txs (ar_parts a)) <$> ar_before a.

(** ** One day's row *)

Definition day_row_of (s : daily_db) (acc : gmap Z arow) (w d : Z) (a : arow) : day_row :=
  let p := ar_parts a in
  let lo := dp_first p in
  let hi := match min_list (filter (λ d', d < d') (map_to_list acc).*1) with
            | Some d' => match acc !! d' with Some n => dp_first (ar_parts n) | None => w + 1 end
            | None => w + 1
            end in
  mkDayRow (dp_blocks p) (dp_txs p) (dp_gasUsed p) (dp_gasPrice p, dp_txs p) (dp_successful p) (dp_failed p) (ar_active a) (dp_time p, dp_timeN p)
    (dp_size p, dp_sizeN p) (dp_transfers p) (before_txs a)
    (zlen (filter (λ x, lo ≤ x.1 < hi) (dd_seen s))) (zlen (filter (λ x, x.2 = true ∧ lo ≤ x.1 < hi) (dd_seen s)))
    (zlen (filter (λ x, x.1 < hi) (dd_seen s))) (zlen (filter (λ x, x.2 = true ∧ x.1 < hi) (dd_seen s))).

(** [writeDaysSQL]: the rows of the days from [from] on. *)
Definition write_days (s : daily_db) (acc : gmap Z arow) (from w : Z) (stats : gmap Z day_row) : gmap Z day_row :=
  map_imap (λ d a, if decide (from ≤ d) then Some (day_row_of s acc w d a) else None) acc ∪ stats.

(** ** The staged count *)

Record staged := mkStaged {
  fs_acc : gmap Z arow; fs_active : gmap Z (gset gostring); fs_gone : gmap Z (gset gostring); fs_reset : gset Z; fs_stats : gmap Z day_row }.

Definition fresh_users (wm upto : Z) (s : daily_db) : gmap Z (gset gostring) :=
  map_imap (λ d x, Some (x ∖ default ∅ (dd_active s !! d))) (sets (λ n, wm < n ≤ upto) (dd_blocks s)).

(** The four inserts of [stageAdvance]: the blocks' sums, their transactions and
    transfers, the addresses not in the day's set yet. *)
Definition add_sums (new : gmap Z DayParts) (fresh : gmap Z (gset gostring)) (acc : gmap Z arow) : gmap Z arow :=
  map_imap (λ d a, Some (mkArow (ar_parts a) (ar_active a + Z.of_nat (size (default ∅ (fresh !! d)))) (ar_before a)))
    (merge (λ a p, match a, p with
                   | Some a, Some p => Some (mkArow (ar_parts a ⊕ p) (ar_active a) (ar_before a))
                   | None, Some p => Some (mkArow p 0 None)
                   | a, None => a
                   end) acc new).

(** The transactions before each day that has no count of them yet. *)
Definition fill_before (s : daily_db) (acc : gmap Z arow) : gmap Z arow :=
  map_imap (λ d a, Some (match ar_before a with
    | Some _ => a
    | None => mkArow (ar_parts a) (ar_active a)
                (Some (match day_before d (λ p, bool_decide (is_Some (ar_before p))) acc ≫= before_txs with Some n => n | None => txs_before_day s d end))
    end)) acc.

Definition block_day (n : Z) (s : daily_db) : option Z := (λ b, day (sb_ts b)) <$> dd_blocks s !! n.

Definition stageAdvance (wm upto : Z) (s : daily_db) (f : staged) : staged :=
  let fresh := fresh_users wm upto s in
  let acc := fill_before s (add_sums (sums (λ n, wm < n ≤ upto) (dd_blocks s)) fresh (fs_acc f)) in
  mkStaged acc (fs_active f ⊕ fresh) (fs_gone f) (fs_reset f)
    (match block_day (wm + 1) s with Some d => write_days s acc d upto (fs_stats f) | None => fs_stats f end).

(** ** The recount of a late day *)

Definition recountDay (s : daily_db) (w d : Z) (f : staged) : staged :=
  let all := ⋃ ((λ nb, users nb.2) <$> of_day w d (dd_blocks s)) in
  let active := <[d := all]> (fs_active f) in
  mkStaged (match tsum ((λ nb, Some (part_of (dd_blocks s) nb.1 nb.2)) <$> of_day w d (dd_blocks s)) with
            | Some p => <[d := mkArow p (Z.of_nat (size all)) None]> (fs_acc f)
            | None => fs_acc f
            end) active (fs_gone f) ({[ d ]} ∪ fs_reset f) (fs_stats f).

(** What the query says of a day: whole, empty, the day of the block after its last. *)
Definition day_info (s : daily_db) (w d : Z) : bool * bool * option Z :=
  let ns := (of_day w d (dd_blocks s)).*1 in
  match min_list ns, max_list ns with
  | Some lo, Some hi =>
      (bool_decide (zlen ns = hi - lo + 1) &&
       (bool_decide (min_list (map_to_list (dd_blocks s)).*1 = Some lo) || bool_decide (is_Some (dd_blocks s !! (lo - 1)))) &&
       (bool_decide (hi = w) || bool_decide (is_Some (dd_blocks s !! (hi + 1)))),
       false, block_day (hi + 1) s)
  | _, _ => (false, true, None)
  end.

Definition partlyPruned (s : daily_db) : option Z :=
  if 0 <? dd_pruned s then min_list (filter (λ n, history_from s ≤ n) (map_to_list (dd_blocks s)).*1) ≫= λ n, block_day n s else None.

(** The days a recount carries into, while they are complete too. *)
Fixpoint grow (fuel : nat) (next : gmap Z Z) (group : gset Z) : gset Z :=
  match fuel with
  | O => group
  | S fuel =>
      let more := list_to_set (omap (λ d, next !! d) (elements group)) ∖ group in
      if decide (more = ∅) then group else grow fuel next (more ∪ group)
  end.

Record recounting := mkRecounting { rc_from : option Z; rc_later : list Z; rc_pending : list Z }.

(** The rows of the query: the complete days, the day after each, the days missing
    blocks; a day without blocks is none of them. *)
Definition classify (s : daily_db) (w : Z) (days : list Z) : list Z * gmap Z Z * list Z :=
  let days := merge_sort Z.le (remove_dups days) in
  (filter (λ d, (day_info s w d).1.1 = true) days,
   list_to_map (omap (λ d, match day_info s w d with (true, _, Some a) => if decide (a = d) then None else Some (d, a) | _ => None end) days),
   filter (λ d, (day_info s w d).1 = (false, false)) days).

Definition recount_group (first : Z) (next : gmap Z Z) (acc : gmap Z arow) : gset Z :=
  let filled := match min_list (map_to_list acc).*1 with Some agg => list_to_set (seqZ first (agg - first)) | None => ∅ end in
  grow (S (size next)) next ({[ first ]} ∪ filled).

Definition recountDays (s : daily_db) (w : Z) (days : list Z) (f : staged) : staged * recounting :=
  let days := match partlyPruned s with Some p => filter (λ d, p < d) days | None => days end in
  let '(complete, next, pending) := classify s w days in
  match complete with
  | [] => (f, mkRecounting None [] pending)
  | first :: _ =>
      let group := recount_group first next (fs_acc f) in
      (foldl (λ f d, recountDay s w d f) f (merge_sort Z.le (elements group)),
       mkRecounting (Some first) (filter (λ d, d ∉ group) complete) pending)
  end.

Definition firstOfSeveralDays (s : daily_db) (first last : Z) : option Z :=
  match block_day first s, block_day last s with
  | Some a, Some b => if decide (a = b) then None else Some a
  | _, _ => None
  end.

Definition rewriteFrom (s : daily_db) (from w : Z) (acc : gmap Z arow) (stats : gmap Z day_row) : gmap Z arow * gmap Z day_row :=
  let before := match day_before from (λ _, true) acc ≫= before_txs with Some n => n | None => txs_before_day s from end in
  let acc' := map_imap (λ d a, Some (if decide (from ≤ d)
    then mkArow (ar_parts a) (ar_active a)
           (Some (before + tsum ((λ da, dp_txs (ar_parts da.2)) <$> filter (λ da, from ≤ da.1 < d) (map_to_list acc))))
    else a)) acc in
  let start := default from (max_list (filter (λ d, d < from) (map_to_list acc).*1)) in
  (acc', write_days s acc' start w stats).

(** What the apply changes in the address sets of the recounted days. *)
Definition stageRecountedSets (s : daily_db) (w : Z) (f : staged) : staged :=
  match block_day w s with
  | None => f
  | Some D =>
      let gone := map_imap (λ d l, if decide (d ∈ fs_reset f ∧ D ≤ d) then Some (l ∖ default ∅ (fs_active f !! d)) else None) (dd_active s) in
      let active := map_imap (λ d x, if decide (d ∈ fs_reset f)
                      then if decide (d < D) then None else Some (x ∖ default ∅ (dd_active s !! d)) else Some x) (fs_active f) in
      mkStaged (fs_acc f) active (fs_gone f ⊕ gone) (fs_reset f) (fs_stats f)
  end.

(** ** A count and its apply *)

Record foldSnapshot := mkSnapshot { sn_watermark : Z; sn_generation : Z; sn_moves : option Z; sn_pruned : Z }.
Record foldCount := mkCount {
  fc_snapshot : foldSnapshot; fc_upto : Z; fc_keptFrom : option Z; fc_recounted : bool; fc_later : list Z; fc_pending : list Z; fc_staged : staged }.

Definition earliest (a b : option Z) : option Z :=
  match a, b with Some x, Some y => Some (if y <? x then y else x) | None, y => y | x, None => x end.

(** [countFold], from the watermark its snapshot reads. *)
Definition count_from (limit : Z) (days : list Z) (s : daily_db) (wm : Z) : foldCount :=
  let upto := run_to (Z.to_nat limit) (dd_blocks s) wm in
  let f := mkStaged (dd_acc s) ∅ ∅ ∅ ∅ in
  let moved := wm <? upto in
  let f := if moved then stageAdvance wm upto s f else f in
  let '(f, rc) := recountDays s upto days f in
  let from := earliest (rc_from rc) (if moved then firstOfSeveralDays s (wm + 1) upto else None) in
  let f := match from with
           | Some d => let '(acc, stats) := rewriteFrom s d upto (fs_acc f) (fs_stats f) in mkStaged acc (fs_active f) (fs_gone f) (fs_reset f) stats
           | None => f
           end in
  mkCount (mkSnapshot wm (dd_generation s) (dd_moves s) (dd_pruned s)) upto
    (if moved then (λ d, d - 1) <$> block_day upto s else None) (bool_decide (is_Some (rc_from rc))) (rc_later rc) (rc_pending rc)
    (stageRecountedSets s upto f).
(** Without a row of the watermark the query fails. *)
Definition countFold (limit : Z) (days : list Z) (s : daily_db) : option foldCount := count_from limit days s <$> dd_watermark s.

(** [daily_stats_fold_apply]. *)
Definition kept_sets (keptFrom : option Z) (m : gmap Z (gset gostring)) : gmap Z (gset gostring) :=
  match keptFrom with Some k => filter (λ dx, k ≤ dx.1) m | None => m end.
Definition fold_apply (c : foldCount) (s : daily_db) : daily_db * bool :=
  let sn := fc_snapshot c in
  let f := fc_staged c in
  if bool_decide (dd_watermark s = Some (sn_watermark sn) ∧ dd_generation s = sn_generation sn ∧ dd_moves s = sn_moves sn ∧ dd_pruned s = sn_pruned sn) then
    let left := map_imap (λ d l, Some (l ∖ default ∅ (fs_gone f !! d))) (dd_active s) in
    (set_days (Some (fc_upto c)) (dd_generation s + 1) (fs_acc f ∪ dd_acc s)
       (kept_sets (fc_keptFrom c) left ⊕ kept_sets (fc_keptFrom c) (fs_active f)) (fs_stats f ∪ dd_stats s) s, true)
  else (s, false).

(** [lockedFold]: [daily_stats_advance] over at most [limit] blocks, without a recount. *)
Definition lockedFold (limit : Z) (s : daily_db) : daily_db * option Z :=
  match dd_watermark s with
  | None => (s, None)
  | Some wm =>
      let upto := run_to (Z.to_nat limit) (dd_blocks s) wm in
      if wm <? upto then
        let f := stageAdvance wm upto s (mkStaged (dd_acc s) ∅ ∅ ∅ (dd_stats s)) in
        let active := kept_sets ((λ d, d - 1) <$> block_day upto s) (dd_active s ⊕ fs_active f) in
        let '(acc, stats) := match firstOfSeveralDays s (wm + 1) upto with
                             | Some d => rewriteFrom s d upto (fs_acc f) (fs_stats f)
                             | None => (fs_acc f, fs_stats f)
                             end in
        (set_days (Some upto) (dd_generation s + 1) acc active stats s, Some upto)
      else (set_days (Some wm) (dd_generation s + 1) (dd_acc s) (dd_active s) (dd_stats s) s, Some wm)
  end.

(** ** The watermark *)

(** [startDailyStatsWatermarkSQL]; whether a watermark exists. *)
Definition start_watermark (s : daily_db) : daily_db * bool :=
  match dd_watermark s with
  | Some _ => (s, true)
  | None =>
      match max_list (map_to_list (dd_blocks s)).*1 ≫= λ n, block_day n s with
      | None => (s, false)
      | Some newest =>
          match min_list (filter (λ nb, newest * 86400 ≤ sb_ts nb.2) (map_to_list (dd_blocks s))).*1 with
          | None => (s, false)
          | Some first =>
              if bool_decide (is_Some (dd_blocks s !! (first - 1))) ||
                 (bool_decide (filter (λ n, n < first) (map_to_list (dd_blocks s)).*1 = []) && negb (dd_backfill s))
              then (set_days (Some (first - 1)) 0 (dd_acc s) (dd_active s) (dd_stats s) s, true)
              else (s, false)
          end
      end
  end.

(** [daily_stats_invalidate]; [None]: it raises. *)
Definition invalidate (n : Z) (s : daily_db) : option daily_db :=
  let bumped := set_days (dd_watermark s) (dd_generation s + 1) (dd_acc s) (dd_active s) (dd_stats s) s in
  match dd_watermark s, block_day n s with
  | Some w, Some d =>
      if w <? n then Some bumped
      else if (0 <? dd_pruned s) && (d * 86400 <=? dd_prunedTs s) then None
      else
        let low := min_list (filter (λ nb, d * 86400 ≤ sb_ts nb.2) (map_to_list (dd_blocks s))).*1 in
        Some (set_days ((λ m, m - 1) <$> low) (dd_generation s + 1) (filter (λ da, da.1 < d) (dd_acc s)) (filter (λ da, da.1 < d) (dd_active s)) (dd_stats s) s)
  | _, _ => Some bumped
  end.

(** [keepDailyStatsWatermarkOnStoredBlocks]. *)
Definition keep_on_stored (s : daily_db) : daily_db :=
  match dd_watermark s with
  | None => s
  | Some w =>
      let below := max_list (filter (λ n, n ≤ w) (map_to_list (dd_blocks s)).*1) in
      let floor := min_list (filter (λ n, n ≤ w) ((λ a, dp_first (ar_parts a)) <$> (map_to_list (dd_acc s)).*2)) in
      match below, floor with
      | Some b, Some f => let target := Z.max b (f - 1) in
                          if target <? w then set_days (Some target) (dd_generation s) (dd_acc s) (dd_active s) (dd_stats s) s else s
      | _, _ => s
      end
  end.

(** What the revert of a block does to the days, in its transaction. *)
Definition delete_block (n : Z) (s : daily_db) : option daily_db :=
  (λ s, set_blocks (delete n (dd_blocks s)) (keep_on_stored s)) <$> invalidate n s.

(** ** What the process remembers *)

Record lateDays := mkLate { l_watermark : option Z; l_days : gset Z; l_searched : bool }.
Definition fresh_late : lateDays := mkLate None ∅ false.

Definition noteBlock (number timestamp : Z) (l : lateDays) : lateDays :=
  if match l_watermark l with Some w => w <? i64 number | None => false end then l
  else mkLate (l_watermark l) ({[ Z.quot (i64 timestamp) 86400 ]} ∪ l_days l) (l_searched l).
Definition take_days (l : lateDays) : lateDays * (list Z * bool) :=
  (mkLate (l_watermark l) ∅ (l_searched l), (elements (l_days l), negb (l_searched l))).
Definition giveBack (days : list Z) (search : bool) (l : lateDays) : lateDays :=
  mkLate (l_watermark l) (list_to_set days ∪ l_days l) (if search then false else l_searched l).
Definition advanced (w : Z) (searched : bool) (l : lateDays) : lateDays :=
  mkLate (Some w) (l_days l) (if searched then true else l_searched l).

(** [searchLateDays]: the days whose stored blocks are not all counted. *)
Definition uncounted (s : daily_db) (w d : Z) : bool :=
  let stored := of_day w d (dd_blocks s) in
  let pairs := filter (λ nb, is_Some (dd_blocks s !! (nb.1 - 1))) stored in
  match dd_acc s !! d with
  | Some a => negb (dp_blocks (ar_parts a) =? zlen stored) || negb (dp_timeN (ar_parts a) =? zlen pairs)
  | None => match dd_stats s !! d with Some r => negb (dr_blocks r =? zlen stored) | None => true end
  end.
Definition searchLateDays (s : daily_db) : list Z * bool :=
  match dd_watermark s with
  | None => ([], false)
  | Some w => (filter (λ d, uncounted s w d = true) (remove_dups ((λ nb, day (sb_ts nb.2)) <$> filter (λ nb, nb.1 ≤ w) (map_to_list (dd_blocks s)))), true)
  end.

(** ** A call of the fold

    [y_unnoted]: blocks committed whose day the writer has yet to note; [y_stalls]: the
    calls in a row that applied nothing. *)

Record sys := mkSys { y_db : daily_db; y_late : lateDays; y_unnoted : list (Z * Z); y_stalls : Z }.
Definition on_db (f : daily_db → daily_db) (y : sys) : sys := mkSys (f (y_db y)) (y_late y) (y_unnoted y) (y_stalls y).
Definition on_late (f : lateDays → lateDays) (y : sys) : sys := mkSys (y_db y) (f (y_late y)) (y_unnoted y) (y_stalls y).
Definition set_stalls (k : Z) (y : sys) : sys := mkSys (y_db y) (y_late y) (y_unnoted y) k.

Definition foldCounts : nat := 3.
Definition foldStallsBeforeLocked : Z := 5.
Definition defaultFoldMaxBlocks : Z := 2000.

Section Advance.
(** What others do before each statement, how each ends, [DailyStatsFoldMaxBlocks]. *)
Context (env : nat → sys → sys) (out : nat → stmt_end) (maxBlocks : Z).

Notation M := (M sys).
Notation stmt := (stmt env out).
Notation mem := (mem env).
Definition query {A} (f : daily_db → option A) : M A := stmt (λ y, (y, f (y_db y))).

Definition limit : Z := if maxBlocks <=? 0 then defaultFoldMaxBlocks else maxBlocks.

Notation "'let!' x := m 'in' k" := (bind m (λ x, k)) (at level 10, x pattern, m at level 100, k at level 200).

Definition apply (c : foldCount) : M bool :=
  stmt (λ y, let '(s, ok) := fold_apply c (y_db y) in (on_db (λ _, s) y, Some ok)).

(** Counting until an apply is accepted, [tries] times at most; [inl]: nothing left. *)
Fixpoint count_apply (tries : nat) (days : list Z) (last : option foldCount) : M (foldCount + option foldCount * bool) :=
  match tries with
  | O => ret (inr (last, false))
  | S tries =>
      let! c := query (countFold limit days) in
      if (fc_upto c =? sn_watermark (fc_snapshot c)) && negb (fc_recounted c) then ret (inl c)
      else
        let! ok := apply c in
        if ok then ret (inr (Some c, true)) else count_apply tries days (Some c)
  end.

(** The watermark, the days still missing blocks, whether everything is through. *)
Fixpoint fold_loop (fuel : nat) (days pending : list Z) : M (option Z * list Z * bool) :=
  match fuel with
  | O => fail
  | S fuel =>
      let! r := count_apply foldCounts days None in
      match r with
      | inl c => ret (Some (fc_upto c), pending ++ fc_pending c, true)
      | inr (Some c, true) =>
          let! _ := mem (λ y, (set_stalls 0 y, tt)) in
          if (fc_upto c - sn_watermark (fc_snapshot c) <? limit) && bool_decide (fc_later c = [])
          then ret (Some (fc_upto c), pending ++ fc_pending c, true)
          else fold_loop fuel (fc_later c) (pending ++ fc_pending c)
      | inr (Some c, false) =>
          let! stalls := mem (λ y, (set_stalls (y_stalls y + 1) y, y_stalls y + 1)) in
          if stalls <? foldStallsBeforeLocked then ret (Some (sn_watermark (fc_snapshot c)), [], false)
          else
            let! _ := mem (λ y, (set_stalls 0 y, tt)) in
            let! upto := stmt (λ y, let '(s, upto) := lockedFold limit (y_db y) in (on_db (λ _, s) y, Some upto)) in
            ret (upto, [], false)
      | inr (None, _) => fail
      end
  end.

Definition fold (fuel : nat) (days : list Z) : M (option Z * list Z * bool) :=
  let! started := stmt (λ y, let '(s, ok) := start_watermark (y_db y) in (on_db (λ _, s) y, Some ok)) in
  if negb started then ret (None, [], false) else fold_loop fuel days [].

Definition AdvanceDailyStats (fuel : nat) : M Z :=
  let! (days, search) := mem (λ y, let '(l, r) := take_days (y_late y) in (on_late (λ _, l) y, r)) in
  let give days search := mem (λ y, (on_late (giveBack days search) y, tt)) in
  let! (days, searched) :=
    (if search
     then on_error (let! (found, ok) := query (λ s, Some (searchLateDays s)) in ret (days ++ found, ok)) (give days true)
     else ret (days, false)) in
  let! (upto, pending, done) := on_error (fold fuel days) (give days search) in
  match upto with
  | None => let! _ := give days search in ret 0
  | Some w =>
      let! _ := (if done : bool then give pending (search && negb searched) else give days search) in
      let! _ := mem (λ y, (on_late (advanced w (searched && done)) y, tt)) in
      ret w
  end.
End Advance.
