(* ===== verification/DailyFoldProps.v ===== *)
(** * What the daily fold accounts for

    The aggregate of a day against the count of its stored blocks, under any
    interleaving of folds, block writes, reverts and restarts. *)

From S2P Require Import Prelude GoStrings StatsBackfill Tally DailyFold.

Notation parts acc := (ar_parts <$> acc).

(** ** The count of a day's stored blocks *)

(** What counting the stored blocks up to [w] gives for day [d]. *)
Definition truth (bs : blocks) (w d : Z) : option DayParts := sums (λ n, n ≤ w) bs !! d.

Lemma tsum_omit {A B} `{Tally B} (f : A → B) (P : A → Prop) `{!∀ x, Decision (P x)} (l : list A) : (∀ x, x ∈ l → ¬ P x → f x = tzero) →
  tsum (f <$> l) = tsum (f <$> filter P l).
Proof.
  induction l as [|x l IH]; intros Hf; [done|]. rewrite fmap_cons, filter_cons. change (tsum (?y :: ?k)) with (y ⊕ tsum k).
  rewrite IH by (intros y Hy; apply Hf; by right). case_decide as Hx; [done|]. rewrite (Hf x) by (left || done). apply tzero_l.
Qed.

Section Choose.
Context (P : Z → Prop) `{!∀ n, Decision (P n)}.
Lemma sums_lookup bs d : sums P bs !! d = tsum ((λ nb, Some (part_of bs nb.1 nb.2)) <$> filter (λ nb, P nb.1 ∧ day (sb_ts nb.2) = d) (map_to_list bs)).
Proof.
  unfold sums, chosen. rewrite lookup_tsum_sum, <-list_fmap_compose. set (f := compose _ _).
  rewrite (tsum_omit f (λ nb, day (sb_ts nb.2) = d)).
  - rewrite list_filter_filter. erewrite list_filter_iff; [|intros nb; apply and_comm]. f_equal. apply list_fmap_ext. intros i [n b] Hi.
    apply list_elem_of_lookup_2, list_elem_of_filter in Hi as [[_ Hd] _]. unfold f. cbn in *. by rewrite Hd, lookup_singleton_eq.
  - intros [n b] _ Hne. unfold f. cbn in *. by rewrite lookup_singleton_ne.
Qed.
End Choose.

Lemma truth_of_day bs w d : truth bs w d = tsum ((λ nb, Some (part_of bs nb.1 nb.2)) <$> of_day w d bs).
Proof. apply sums_lookup. Qed.

Lemma elem_of_of_day bs w d n b : (n, b) ∈ of_day w d bs ↔ bs !! n = Some b ∧ n ≤ w ∧ day (sb_ts b) = d.
Proof. unfold of_day. rewrite list_elem_of_filter, elem_of_map_to_list. cbn. tauto. Qed.
Lemma NoDup_of_day bs w d : NoDup (of_day w d bs).
Proof. apply NoDup_filter, NoDup_map_to_list. Qed.

Lemma sums_split bs w u : w ≤ u → sums (λ n, n ≤ u) bs = sums (λ n, n ≤ w) bs ⊕ sums (λ n, w < n ≤ u) bs.
Proof.
  intros Hwu. unfold sums. rewrite <-tsum_app, <-fmap_app. apply tsum_perm. apply fmap_Permutation. unfold chosen.
  apply NoDup_Permutation; [apply NoDup_filter, NoDup_map_to_list| |].
  - apply NoDup_app. split_and!; [apply NoDup_filter, NoDup_map_to_list| |apply NoDup_filter, NoDup_map_to_list].
    intros x [Hx _]%list_elem_of_filter [Hy _]%list_elem_of_filter. lia.
  - intros x. rewrite elem_of_app, !list_elem_of_filter. split; [intros [? ?]; destruct (Z.le_gt_cases x.1 w); [left|right]; (split; [lia|done])|].
    intros [[? ?]|[? ?]]; (split; [lia|done]).
Qed.

Lemma part_of_ext bs bs' n b : (sb_ts <$> bs !! (n - 1)) = (sb_ts <$> bs' !! (n - 1)) → part_of bs n b = part_of bs' n b.
Proof. intros E. unfold part_of. destruct (bs !! (n - 1)), (bs' !! (n - 1)); cbn in E; simplify_eq; [|done]. by rewrite E. Qed.

(** Two stores with the same blocks on the day, and the same blocks before those. *)
Lemma truth_ext bs bs' w w' d : (∀ n b, day (sb_ts b) = d → bs !! n = Some b ∧ n ≤ w ↔ bs' !! n = Some b ∧ n ≤ w') →
  (∀ n b, bs !! n = Some b → n ≤ w → day (sb_ts b) = d → (sb_ts <$> bs !! (n - 1)) = (sb_ts <$> bs' !! (n - 1))) → truth bs w d = truth bs' w' d.
Proof.
  intros H1 H2. rewrite !truth_of_day. assert (of_day w d bs ≡ₚ of_day w' d bs') as Hp.
  { apply NoDup_Permutation; [apply NoDup_of_day..|]. intros [n b]. rewrite !elem_of_of_day. naive_solver. }
  rewrite <-Hp. f_equal. apply list_fmap_ext. intros i [n b] Hi. apply list_elem_of_lookup_2, elem_of_of_day in Hi as (? & ? & ?). cbn. f_equal.
  by apply part_of_ext, (H2 n b).
Qed.
Lemma truth_None bs w d : (∀ n b, bs !! n = Some b → n ≤ w → day (sb_ts b) ≠ d) → truth bs w d = None.
Proof.
  intros Hn. rewrite truth_of_day. rewrite (elem_of_nil_inv (of_day w d bs)); [done|]. intros [n b] (H1 & H2 & H3)%elem_of_of_day. by apply (Hn n b).
Qed.

Lemma tsum_Some {A B} `{Semi B} (f : A → B) (l : list A) : l ≠ [] → is_Some (tsum ((λ x, Some (f x)) <$> l)).
Proof. destruct l as [|x l]; [done|]. intros _. cbn. destruct (foldr _ _ _); by eexists. Qed.
Lemma truth_is_Some bs w d n b : bs !! n = Some b → n ≤ w → day (sb_ts b) = d → is_Some (truth bs w d).
Proof.
  intros H1 H2 H3. rewrite truth_of_day. apply (tsum_Some (λ nb : Z * sblock, part_of bs nb.1 nb.2)). intros E.
  assert ((n, b) ∈ of_day w d bs) as Hin by by apply elem_of_of_day. rewrite E in Hin. by apply not_elem_of_nil in Hin.
Qed.
Lemma truth_has bs w d p : truth bs w d = Some p → ∃ n b, bs !! n = Some b ∧ n ≤ w ∧ day (sb_ts b) = d.
Proof.
  rewrite truth_of_day. destruct (of_day w d bs) as [|[n b] l] eqn:E; [done|]. intros _. exists n, b. apply elem_of_of_day. rewrite E. left.
Qed.

(** ** A row counts some of its day's blocks

    Never a block twice, nor one that is not stored: the blocks [B], and the pairs with
    the block before of those in [Pr]. *)

Definition part_sel (bs : blocks) (Pr : gset Z) (n : Z) (b : sblock) : DayParts :=
  if decide (n ∈ Pr) then part_of bs n b else part_of (delete (n - 1) bs) n b.
Definition psum (bs : blocks) (Pr : gset Z) (l : list Z) : option DayParts := tsum ((λ n, part_sel bs Pr n <$> bs !! n) <$> l).

Record partial (bs : blocks) (w d : Z) (p : DayParts) (B Pr : gset Z) : Prop := {
  pt_blocks : ∀ n, n ∈ B → ∃ b, bs !! n = Some b ∧ n ≤ w ∧ day (sb_ts b) = d;
  pt_pairs : ∀ n, n ∈ Pr → n ∈ B ∧ is_Some (bs !! (n - 1));
  pt_sum : psum bs Pr (elements B) = Some p }.

Lemma psum_app bs Pr l k : psum bs Pr (l ++ k) = psum bs Pr l ⊕ psum bs Pr k.
Proof. unfold psum. by rewrite fmap_app, tsum_app. Qed.
Lemma psum_cons bs Pr n l : psum bs Pr (n :: l) = (part_sel bs Pr n <$> bs !! n) ⊕ psum bs Pr l.
Proof. done. Qed.
Lemma psum_perm bs Pr l k : l ≡ₚ k → psum bs Pr l = psum bs Pr k.
Proof. unfold psum. by intros ->. Qed.
Lemma psum_ext bs bs' Pr Pr' l : (∀ n, n ∈ l → bs !! n = bs' !! n ∧ (n ∈ Pr ↔ n ∈ Pr') ∧ (n ∈ Pr → bs !! (n - 1) = bs' !! (n - 1))) →
  psum bs Pr l = psum bs' Pr' l.
Proof.
  intros Hl. unfold psum. f_equal. apply list_fmap_ext. intros i n Hi. apply list_elem_of_lookup_2 in Hi. destruct (Hl n Hi) as (-> & Hp & Hpre).
  destruct (bs' !! n) as [b|]; [|done]. cbn. f_equal. unfold part_sel. destruct (decide (n ∈ Pr)) as [H1|H1].
  - rewrite decide_True by tauto. apply part_of_ext. by rewrite Hpre.
  - rewrite decide_False by tauto. apply part_of_ext. by rewrite !lookup_delete_eq.
Qed.

Lemma psum_counts bs Pr l p : (∀ n, n ∈ l → is_Some (bs !! n)) → (∀ n, n ∈ Pr → is_Some (bs !! (n - 1))) → psum bs Pr l = Some p →
  dp_blocks p = zlen l ∧ dp_timeN p = zlen (filter (λ n, n ∈ Pr) l).
Proof.
  intros Hl HPr. revert p. induction l as [|n l IH]; intros p; [done|]. rewrite psum_cons, zlen_cons.
  destruct (Hl n ltac:(left)) as [b Hb]. rewrite Hb. cbn [fmap option_fmap option_map].
  assert (dp_blocks (part_sel bs Pr n b) = 1 ∧ dp_timeN (part_sel bs Pr n b) = if decide (n ∈ Pr) then 1 else 0) as [E1 E2].
  { unfold part_sel. case_decide as Hn; unfold part_of; cbn; [|by rewrite lookup_delete_eq]. by destruct (HPr n Hn) as [? ->]. }
  rewrite filter_cons. specialize (IH ltac:(intros m Hm; apply Hl; by right)). destruct (psum bs Pr l) as [q|] eqn:Eq.
  - destruct (IH q eq_refl) as [F1 F2]. intros [= <-]. cbn [dp_blocks dp_timeN]. rewrite E1, E2, F1, F2. case_decide; rewrite ?zlen_cons; lia.
  - destruct l as [|m l]; [intros [= <-]; cbn; rewrite E1, E2; by case_decide|]. exfalso. destruct (Hl m ltac:(right; left)) as [bm Hbm].
    rewrite psum_cons, Hbm in Eq. cbn in Eq. by destruct (psum bs Pr l).
Qed.

(** All of a day's blocks, with every pair. *)
Definition paired (bs : blocks) (X : gset Z) : gset Z := filter (λ n, is_Some (bs !! (n - 1))) X.
Lemma part_sel_paired bs Pr n b : (n ∈ Pr ↔ is_Some (bs !! (n - 1))) → part_sel bs Pr n b = part_of bs n b.
Proof.
  intros Hn. unfold part_sel. case_decide as H; [done|]. apply part_of_ext. rewrite lookup_delete_eq.
  destruct (bs !! (n - 1)) eqn:E; [|done]. exfalso. apply H, Hn. by eexists.
Qed.

Section AllOf.
Context (P : Z → Prop) `{!∀ n, Decision (P n)}.
Definition day_blocks (d : Z) (bs : blocks) : list (Z * sblock) := filter (λ nb, P nb.1 ∧ day (sb_ts nb.2) = d) (map_to_list bs).
Definition all_in (d : Z) (bs : blocks) : gset Z := list_to_set (day_blocks d bs).*1.

Lemma elem_of_day_blocks bs d n b : (n, b) ∈ day_blocks d bs ↔ bs !! n = Some b ∧ P n ∧ day (sb_ts b) = d.
Proof. unfold day_blocks. rewrite list_elem_of_filter, elem_of_map_to_list. cbn. tauto. Qed.
Lemma elem_of_all_in bs d n : n ∈ all_in d bs ↔ ∃ b, bs !! n = Some b ∧ P n ∧ day (sb_ts b) = d.
Proof.
  unfold all_in. rewrite elem_of_list_to_set, list_elem_of_fmap. split.
  - intros ([m b] & -> & Hm%elem_of_day_blocks). by exists b.
  - intros [b Hb]. exists (n, b). split; [done|]. by apply elem_of_day_blocks.
Qed.
Lemma NoDup_day_blocks bs d : NoDup (day_blocks d bs).*1.
Proof. apply (NoDup_fmap_filter fst), NoDup_fst_map_to_list. Qed.
Lemma sums_psum bs d Pr : (∀ n, n ∈ all_in d bs → n ∈ Pr ↔ is_Some (bs !! (n - 1))) → sums P bs !! d = psum bs Pr (elements (all_in d bs)).
Proof.
  intros HPr. rewrite sums_lookup. fold (day_blocks d bs). unfold all_in. rewrite (psum_perm _ _ _ (day_blocks d bs).*1) by (apply elements_list_to_set, NoDup_day_blocks).
  unfold psum. rewrite <-list_fmap_compose. f_equal. apply list_fmap_ext. intros i [n b] Hi. apply list_elem_of_lookup_2 in Hi. cbn.
  pose proof Hi as (Hb & ? & ?)%elem_of_day_blocks. rewrite Hb. cbn. f_equal. symmetry. apply part_sel_paired, HPr.
  apply elem_of_all_in. by exists b.
Qed.
End AllOf.

Notation all_of bs w d := (all_in (λ n, n ≤ w) d bs).
Lemma truth_psum bs w d : truth bs w d = psum bs (paired bs (all_of bs w d)) (elements (all_of bs w d)).
Proof. apply sums_psum. intros n Hn. unfold paired. rewrite elem_of_filter. tauto. Qed.
Lemma truth_partial bs w d p : truth bs w d = Some p → partial bs w d p (all_of bs w d) (paired bs (all_of bs w d)).
Proof.
  intros E. split.
  - intros n Hn. by apply elem_of_all_in in Hn.
  - intros n [? ?]%elem_of_filter. done.
  - by rewrite <-truth_psum.
Qed.

Lemma size_filter_elements (P : Z → Prop) `{!∀ x, Decision (P x)} (X : gset Z) : size (filter P X) = length (filter P (elements X)).
Proof.
  unfold size, set_size. cbn. apply Permutation_length, NoDup_Permutation; [apply NoDup_elements|apply NoDup_filter, NoDup_elements|].
  intros x. by rewrite elem_of_elements, elem_of_filter, list_elem_of_filter, elem_of_elements.
Qed.

(** A row that counts as many blocks and pairs as are stored counts them all. *)
Lemma partial_full bs w d p B Pr : partial bs w d p B Pr → dp_blocks p = zlen (of_day w d bs) →
  dp_timeN p = zlen (filter (λ nb, is_Some (bs !! (nb.1 - 1))) (of_day w d bs)) → truth bs w d = Some p.
Proof.
  intros [H1 H2 H3] E1 E2. destruct (psum_counts bs Pr (elements B) p) as [F1 F2]; [| |done|].
  { intros n (b & ? & _)%elem_of_elements%H1. by eexists. }
  { intros n Hn. by apply H2. }
  assert (B ⊆ all_of bs w d) as HB by (intros n Hn; by apply elem_of_all_in, H1).
  assert (Z.of_nat (size (all_of bs w d)) = zlen (of_day w d bs)) as Es.
  { unfold all_in, zlen. rewrite size_list_to_set by apply NoDup_day_blocks. by rewrite length_fmap. }
  assert (B = all_of bs w d) as ->.
  { apply set_subseteq_size_eq; [done|]. unfold size, set_size in *. cbn in *. unfold zlen in F1. lia. }
  assert (Pr = paired bs (all_of bs w d)) as ->; [|by rewrite truth_psum].
  assert (Pr ⊆ paired bs (all_of bs w d)) as HP by (intros n [? ?]%H2; by apply elem_of_filter).
  apply set_subseteq_size_eq; [done|]. unfold paired. rewrite size_filter_elements.
  assert (filter (λ n, n ∈ Pr) (all_of bs w d) = Pr) as EP by (apply set_eq; intros n; rewrite elem_of_filter; split; [tauto|]; intros Hn; split; [done|by apply H2]).
  rewrite <-EP, size_filter_elements. enough (length (filter (λ n, is_Some (bs !! (n - 1))) (elements (all_of bs w d))) =
    length (filter (λ nb, is_Some (bs !! (nb.1 - 1))) (of_day w d bs))) by (unfold zlen in *; lia).
  unfold all_in. rewrite (elements_list_to_set _ (NoDup_day_blocks _ bs d)). by rewrite (filter_fmap_ext fst _ (λ nb, is_Some (bs !! (nb.1 - 1)))), length_fmap.
Qed.

(** The same blocks and pairs, stored elsewhere. *)
Lemma partial_moved bs bs' w w' d p B Pr : partial bs w d p B Pr → (∀ n, n ∈ B → bs' !! n = bs !! n ∧ n ≤ w') →
  (∀ n, n ∈ Pr → bs' !! (n - 1) = bs !! (n - 1)) → partial bs' w' d p B Pr.
Proof.
  intros [H1 H2 H3] HB HP. split.
  - intros n Hn. destruct (HB n Hn) as [-> ?]. destruct (H1 n Hn) as (b & ? & _ & ?). by exists b.
  - intros n Hn. rewrite (HP n Hn). by apply H2.
  - rewrite <-H3. symmetry. apply psum_ext. intros n Hn%elem_of_elements. destruct (HB n Hn) as [-> _]. split_and!; [done|done|]. intros. symmetry. by apply HP.
Qed.
(** The blocks above the watermark added. *)
Lemma partial_extend bs w u d o p : w ≤ u → (∀ q, o = Some q → ∃ B Pr, partial bs w d q B Pr) → o ⊕ sums (λ n, w < n ≤ u) bs !! d = Some p →
  ∃ B Pr, partial bs u d p B Pr.
Proof.
  intros Hwu Ho. set (N := all_in (λ n, w < n ≤ u) d bs). assert (∀ n, n ∈ N → w < n ≤ u) as HN by (intros n (b & _ & ? & _)%elem_of_all_in; done).
  assert (∀ B Pr, (∀ n, n ∈ B → ∃ b, bs !! n = Some b ∧ n ≤ w ∧ day (sb_ts b) = d) → (∀ n, n ∈ Pr → n ∈ B ∧ is_Some (bs !! (n - 1))) →
    psum bs Pr (elements B) = o → o ⊕ sums (λ n, w < n ≤ u) bs !! d = Some p → partial bs u d p (B ∪ N) (Pr ∪ paired bs N)) as Hgo.
  { intros B Pr HB HP Eo E. assert (∀ n, n ∈ B → n ∉ N) as Hdis by (intros n (b & _ & ? & _)%HB Hn%HN; lia). split.
    - intros n [(b & ? & ? & ?)%HB|(b & ? & ? & ?)%elem_of_all_in]%elem_of_union; exists b; (split_and!; [done|lia|done]).
    - intros n [[? ?]%HP|[? ?]%elem_of_filter]%elem_of_union; set_solver.
    - rewrite <-E. rewrite (psum_perm _ _ _ (elements B ++ elements N)) by (rewrite elements_disj_union; [done|set_solver]). rewrite psum_app. f_equal.
      + rewrite <-Eo. apply psum_ext. intros n Hn%elem_of_elements. split_and!; try done. unfold paired. rewrite elem_of_union, elem_of_filter.
        specialize (Hdis n Hn). tauto.
      + symmetry. apply sums_psum. intros n Hn. fold N in Hn. rewrite elem_of_union. unfold paired. rewrite elem_of_filter.
        assert (n ∉ Pr); [|tauto]. intros [Hc _]%HP. by apply (Hdis n). }
  destruct o as [q|]; intros E.
  - destruct (Ho q eq_refl) as (B & Pr & [H1 H2 H3]). eexists _, _. by apply (Hgo B Pr).
  - exists (∅ ∪ N), (∅ ∪ paired bs N). apply (Hgo ∅ ∅); try done; set_solver.
Qed.

(** ** What a count stages *)

Lemma parts_add_sums new fresh acc : parts (add_sums new fresh acc) = parts acc ⊕ new.
Proof.
  apply map_eq. intros d. unfold add_sums. rewrite lookup_plus, !lookup_fmap, map_lookup_imap, lookup_merge.
  by destruct (acc !! d) as [a|], (new !! d) as [p|].
Qed.
Lemma parts_fill_before s acc : parts (fill_before s acc) = parts acc.
Proof.
  apply map_eq. intros d. unfold fill_before. rewrite !lookup_fmap, map_lookup_imap. destruct (acc !! d) as [a|]; [|done]. cbn. by destruct (ar_before a).
Qed.
Lemma parts_stageAdvance wm upto s f : parts (fs_acc (stageAdvance wm upto s f)) = parts (fs_acc f) ⊕ sums (λ n, wm < n ≤ upto) (dd_blocks s).
Proof. unfold stageAdvance. cbn [fs_acc]. by rewrite parts_fill_before, parts_add_sums. Qed.
Lemma parts_rewriteFrom s from w acc stats : parts (rewriteFrom s from w acc stats).1 = parts acc.
Proof.
  apply map_eq. intros d. unfold rewriteFrom. cbn [fst]. rewrite !lookup_fmap, map_lookup_imap. destruct (acc !! d) as [a|]; [|done]. cbn. by case_decide.
Qed.
Lemma fs_acc_sets s w f : fs_acc (stageRecountedSets s w f) = fs_acc f.
Proof. unfold stageRecountedSets. by destruct (block_day w s). Qed.

Lemma parts_recountDay s w d f : parts (fs_acc (recountDay s w d f)) =
  match truth (dd_blocks s) w d with Some p => <[d := p]> (parts (fs_acc f)) | None => parts (fs_acc f) end.
Proof. unfold recountDay. cbn [fs_acc]. rewrite truth_of_day. destruct (tsum _) as [p|]; [|done]. by rewrite fmap_insert. Qed.
Lemma parts_recounts s w l f d : parts (fs_acc (foldl (λ f d, recountDay s w d f) f l)) !! d =
  if decide (d ∈ l) then match truth (dd_blocks s) w d with Some p => Some p | None => parts (fs_acc f) !! d end else parts (fs_acc f) !! d.
Proof.
  revert f. induction l as [|e l IH]; intros f; cbn [foldl]; [done|]. rewrite IH. rewrite parts_recountDay.
  destruct (decide (d = e)) as [->|Hne].
  - rewrite (decide_True (P := e ∈ e :: l)) by left. destruct (truth (dd_blocks s) w e) as [p|]; [rewrite lookup_insert_eq|]; by case_decide.
  - assert (∀ o : gmap Z DayParts, match truth (dd_blocks s) w e with Some p => <[e := p]> o | None => o end !! d = o !! d) as E
      by (intros o; destruct (truth (dd_blocks s) w e); [by rewrite lookup_insert_ne|done]).
    rewrite E. destruct (decide (d ∈ l)) as [Hl|Hl]; [rewrite decide_True by (by right); done|]. rewrite decide_False; [done|].
    intros [?|?]%elem_of_cons; done.
Qed.

(** Lowest and highest of a list. *)
Lemma minl_spec l : match min_list l with Some x => x ∈ l ∧ ∀ y, y ∈ l → x ≤ y | None => l = [] end.
Proof.
  destruct l as [|x l]; [done|]. cbn. assert (∀ x, foldr Z.min x l ∈ x :: l ∧ ∀ y, y ∈ x :: l → foldr Z.min x l ≤ y) as H; [|apply H].
  clear x. intros x. induction l as [|z l [IH1 IH2]]; cbn; [split; [left|]; by intros y ->%list_elem_of_singleton|]. split.
  - destruct (Z.min_spec z (foldr Z.min x l)) as [[_ ->]|[_ ->]]; [right; left|]. apply elem_of_cons in IH1 as [->|?]; [left|by do 2 right].
  - intros y [->|[->|?]%elem_of_cons]%elem_of_cons; [specialize (IH2 x ltac:(left)); lia|lia|]. specialize (IH2 y ltac:(by right)). lia.
Qed.
Lemma maxl_spec l : match max_list l with Some x => x ∈ l ∧ ∀ y, y ∈ l → y ≤ x | None => l = [] end.
Proof.
  destruct l as [|x l]; [done|]. cbn. assert (∀ x, foldr Z.max x l ∈ x :: l ∧ ∀ y, y ∈ x :: l → y ≤ foldr Z.max x l) as H; [|apply H].
  clear x. intros x. induction l as [|z l [IH1 IH2]]; cbn; [split; [left|]; by intros y ->%list_elem_of_singleton|]. split.
  - destruct (Z.max_spec z (foldr Z.max x l)) as [[_ ->]|[_ ->]]; [|right; left]. apply elem_of_cons in IH1 as [->|?]; [left|by do 2 right].
  - intros y [->|[->|?]%elem_of_cons]%elem_of_cons; [specialize (IH2 x ltac:(left)); lia|lia|]. specialize (IH2 y ltac:(by right)). lia.
Qed.

(** ** Which days are recounted *)

Lemma day_info_empty s w d : (day_info s w d).1.2 = true → of_day w d (dd_blocks s) = [].
Proof.
  unfold day_info. pose proof (minl_spec (of_day w d (dd_blocks s)).*1) as Hm. destruct (min_list _) as [lo|]; [|intros _; by apply fmap_nil_inv in Hm].
  pose proof (maxl_spec (of_day w d (dd_blocks s)).*1) as Hx. destruct (max_list _) as [hi|]; [done|]. rewrite Hx in Hm. by destruct Hm as [Hm%not_elem_of_nil _].
Qed.
Lemma day_info_after s w d lo hi : of_day w d (dd_blocks s) ≠ [] → (∀ n b, (n, b) ∈ of_day w d (dd_blocks s) → n ≤ hi) →
  (∃ b, (hi, b) ∈ of_day w d (dd_blocks s)) → lo = hi + 1 → (day_info s w d).2 = block_day lo s.
Proof.
  intros Hne Hmax [b Hb] ->. unfold day_info. pose proof (minl_spec (of_day w d (dd_blocks s)).*1) as Hm. destruct (min_list _) as [m|].
  2: by apply fmap_nil_inv in Hm. pose proof (maxl_spec (of_day w d (dd_blocks s)).*1) as Hx. destruct (max_list _) as [x|].
  - cbn. destruct Hx as [[[y c] [-> Hy]]%list_elem_of_fmap Hall]. specialize (Hmax y c Hy). specialize (Hall hi). cbn in *.
    assert (hi ≤ y) by (apply Hall, list_elem_of_fmap; by exists (hi, b)). by replace y with hi by lia.
  - by apply fmap_nil_inv in Hx.
Qed.

Lemma day_info_nonempty s w d : (day_info s w d).1.2 = false → of_day w d (dd_blocks s) ≠ [].
Proof.
  unfold day_info. pose proof (minl_spec (of_day w d (dd_blocks s)).*1) as Hm. destruct (min_list _) as [m|]; [|done]. intros _ E. rewrite E in Hm.
  by destruct Hm as [Hm%not_elem_of_nil _].
Qed.

Definition whole s w d : Prop := (day_info s w d).1.1 = true.
Lemma classify_spec s w days C N Q : classify s w days = (C, N, Q) →
  (∀ d, d ∈ C ↔ d ∈ days ∧ whole s w d) ∧ (∀ d, d ∈ Q → d ∈ days) ∧
  (∀ d, d ∈ days → d ∈ C ∨ d ∈ Q ∨ of_day w d (dd_blocks s) = []) ∧
  (∀ d a, d ∈ C → (day_info s w d).2 = Some a → a ≠ d → N !! d = Some a).
Proof.
  intros [= <- <- <-]. assert (∀ d, d ∈ merge_sort Z.le (remove_dups days) ↔ d ∈ days) as Hs.
  { intros d. rewrite (merge_sort_Permutation Z.le). apply elem_of_remove_dups. }
  split_and!.
  - intros d. rewrite list_elem_of_filter, Hs. unfold whole. tauto.
  - intros d [_ ?%Hs]%list_elem_of_filter. done.
  - intros d Hd%Hs. destruct (day_info s w d) as [[[] []] a] eqn:E.
    + left. apply list_elem_of_filter. by rewrite E.
    + left. apply list_elem_of_filter. by rewrite E.
    + right. right. apply day_info_empty. by rewrite E.
    + right. left. apply list_elem_of_filter. by rewrite E.
  - intros d a [Hw Hd]%list_elem_of_filter Ha Hne. apply elem_of_list_to_map_1'.
    + intros y (e & _ & He)%list_elem_of_omap. destruct (day_info s w e) as [[[] ?] [b|]] eqn:E; try done. case_decide; [done|]. injection He as <- <-. rewrite E in Ha. by injection Ha.
    + apply list_elem_of_omap. exists d. split; [done|]. destruct (day_info s w d) as [[wh em] o]. cbn in Hw, Ha. subst wh o. by rewrite decide_False.
Qed.

Definition closed_under (next : gmap Z Z) (g : gset Z) : Prop := ∀ d a, d ∈ g → next !! d = Some a → a ∈ g.

Lemma size_of_list (l : list Z) : (size (list_to_set l : gset Z) ≤ length l)%nat.
Proof.
  induction l as [|x l IH]; [done|]. cbn [list_to_set length]. pose proof (size_union_alt {[ x ]} (list_to_set l : gset Z)) as E. rewrite size_singleton in E.
  assert (size ((list_to_set l : gset Z) ∖ {[ x ]}) ≤ size (list_to_set l : gset Z))%nat by (apply subseteq_size; set_solver). lia.
Qed.

Lemma grow_closed fuel next g : (size ((list_to_set (map_to_list next).*2 : gset Z) ∖ g) < fuel)%nat → g ⊆ grow fuel next g ∧ closed_under next (grow fuel next g).
Proof.
  revert g. induction fuel as [|fuel IH]; intros g Hsz; [lia|]. cbn [grow]. set (more := list_to_set (omap (λ d, next !! d) (elements g)) ∖ g).
  assert (∀ d a, d ∈ g → next !! d = Some a → a ∉ g → a ∈ more) as Hmore.
  { intros d a Hd Ha Hn. unfold more. apply elem_of_difference. split; [|done]. apply elem_of_list_to_set, list_elem_of_omap. exists d. by rewrite elem_of_elements. }
  case_decide as Em.
  - split; [done|]. intros d a Hd Ha. destruct (decide (a ∈ g)); [done|]. specialize (Hmore d a Hd Ha ltac:(done)). rewrite Em in Hmore. set_solver.
  - destruct (IH (more ∪ g)) as [H1 H2]; [|split; [set_solver|done]]. eapply Nat.lt_le_trans; [|apply Nat.lt_succ_r; exact Hsz]. apply subset_size.
    apply set_choose_L in Em as [x Hx]. assert (x ∈ (list_to_set (map_to_list next).*2 : gset Z)) as HI.
    { unfold more in Hx. apply elem_of_difference in Hx as [(d & _ & Hd)%elem_of_list_to_set%list_elem_of_omap _].
      apply elem_of_list_to_set, list_elem_of_fmap. exists (d, x). split; [done|]. by apply elem_of_map_to_list. }
    assert (x ∉ g) by (unfold more in Hx; set_solver). set_solver.
Qed.
Lemma recount_group_spec first next acc : first ∈ recount_group first next acc ∧ closed_under next (recount_group first next acc).
Proof.
  unfold recount_group. set (g := {[ first ]} ∪ _). destruct (grow_closed (S (size next)) next g) as [H1 H2].
  - apply Nat.lt_succ_r. etrans; [apply (subseteq_size _ (list_to_set (map_to_list next).*2)); set_solver|]. etrans; [apply size_of_list|].
    rewrite length_fmap. by rewrite <-length_map_to_list.
  - split; [|done]. apply H1. unfold g. set_solver.
Qed.

(** The recount of late days: those recounted, and where the others go. *)
Record recounts (s : daily_db) (w : Z) (days : list Z) (G : gset Z) (rc : recounting) : Prop := {
  rs_later : ∀ d, d ∈ rc_later rc → d ∈ days; rs_pending : ∀ d, d ∈ rc_pending rc → d ∈ days;
  rs_days : ∀ d, d ∈ days → d ∈ rc_later rc ∨ d ∈ rc_pending rc ∨ of_day w d (dd_blocks s) = [] ∨
    (d ∈ G ∧ ∀ a, (day_info s w d).2 = Some a → a ∈ G);
  rs_none : rc_from rc = None → rc_later rc = [] ∧ G = ∅ }.

Lemma recountDays_spec s w days f : dd_pruned s = 0 → ∃ G, recounts s w days G (recountDays s w days f).2 ∧
  ∀ d, parts (fs_acc (recountDays s w days f).1) !! d =
    if decide (d ∈ G) then match truth (dd_blocks s) w d with Some p => Some p | None => parts (fs_acc f) !! d end else parts (fs_acc f) !! d.
Proof.
  intros Hp. unfold recountDays, partlyPruned. rewrite Hp. cbn [Z.ltb Z.compare]. destruct (classify s w days) as [[C N] Q] eqn:Ec.
  destruct (classify_spec s w days C N Q Ec) as (H1 & H2 & H3 & H4). destruct C as [|first C].
  - exists ∅. split; [|intros d; by rewrite decide_False by set_solver]. split; cbn; try done; [by intros d ?%not_elem_of_nil|].
    intros d Hd. destruct (H3 d Hd) as [?%not_elem_of_nil|[?|?]]; tauto.
  - set (G := recount_group first N (fs_acc f)). destruct (recount_group_spec first N (fs_acc f)) as [HG1 HG2]. fold G in HG1, HG2. exists G. split.
    + split; cbn [fst snd rc_later rc_pending rc_from]; [by intros d [_ [? _]%H1]%list_elem_of_filter|done| |done].
      intros d Hd. destruct (H3 d Hd) as [Hc|[?|?]]; [|tauto|tauto]. destruct (decide (d ∈ G)) as [Hg|Hg]; [|left; by apply list_elem_of_filter].
      right. right. right. split; [done|]. intros a Ha. destruct (decide (a = d)) as [->|Hne]; [done|]. by apply (HG2 d a), H4.
    + intros d. cbn [fst]. rewrite parts_recounts. assert (d ∈ merge_sort Z.le (elements G) ↔ d ∈ G) as HE
        by (rewrite (merge_sort_Permutation Z.le); apply elem_of_elements).
      destruct (decide (d ∈ G)); [rewrite decide_True by tauto|rewrite decide_False by tauto]; done.
Qed.

(** The staged aggregate. *)
Record counts (s : daily_db) (days : list Z) (c : foldCount) (G : gset Z) (w : Z) : Prop := {
  cn_snapshot : sn_watermark (fc_snapshot c) = w ∧ sn_generation (fc_snapshot c) = dd_generation s;
  cn_upto : w ≤ fc_upto c ∧ ∀ n, w < n ≤ fc_upto c → is_Some (dd_blocks s !! n);
  cn_rc : recounts s (fc_upto c) days G (mkRecounting (if fc_recounted c then Some 0 else None) (fc_later c) (fc_pending c));
  cn_acc : ∀ d, parts (fs_acc (fc_staged c)) !! d =
    if decide (d ∈ G) then match truth (dd_blocks s) (fc_upto c) d with Some p => Some p | None => (parts (dd_acc s) ⊕ sums (λ n, w < n ≤ fc_upto c) (dd_blocks s)) !! d end
    else (parts (dd_acc s) ⊕ sums (λ n, w < n ≤ fc_upto c) (dd_blocks s)) !! d;
  cn_stats : dom (fs_stats (fc_staged c)) ⊆ dom (fs_acc (fc_staged c)) }.

(** Rows are written for aggregated days only; those of [S] were there before. *)
Section Rows.
Context (S : gset Z).
Lemma dom_write_days s acc from w stats : dom stats ⊆ dom acc ∪ S → dom (write_days s acc from w stats) ⊆ dom acc ∪ S.
Proof.
  intros Hd d. unfold write_days. rewrite dom_union, elem_of_union. intros [Hi|?]; [|by apply Hd]. apply elem_of_dom in Hi as [r Hr].
  rewrite map_lookup_imap in Hr. destruct (acc !! d) eqn:E; [|done]. apply elem_of_union. left. apply elem_of_dom. by eexists.
Qed.
Lemma dom_parts (acc acc' : gmap Z arow) : parts acc = parts acc' → dom acc = dom acc'.
Proof. intros E. by rewrite <-(dom_fmap_L ar_parts acc), E, dom_fmap_L. Qed.
Lemma dom_rewriteFrom s from w acc stats : dom stats ⊆ dom acc ∪ S → dom (rewriteFrom s from w acc stats).2 ⊆ dom (rewriteFrom s from w acc stats).1 ∪ S.
Proof. intros Hd. apply dom_write_days. rewrite (dom_parts _ acc); [done|]. apply (parts_rewriteFrom s from w acc stats). Qed.
Lemma dom_stageAdvance wm upto s f : dom (fs_stats f) ⊆ dom (fs_acc f) ∪ S → dom (fs_stats (stageAdvance wm upto s f)) ⊆ dom (fs_acc (stageAdvance wm upto s f)) ∪ S.
Proof.
  intros Hd. assert (dom (fs_acc f) ⊆ dom (fs_acc (stageAdvance wm upto s f))) as Hg.
  { intros d. rewrite <-!(dom_fmap_L ar_parts), parts_stageAdvance, !elem_of_dom. intros [p Hp]. rewrite lookup_plus, Hp. by destruct (sums _ _ !! d). }
  unfold stageAdvance in *. cbn [fs_acc fs_stats] in *. destruct (block_day (wm + 1) s); [apply dom_write_days|]; set_solver.
Qed.
Lemma dom_recounts s w l f : dom (fs_stats f) ⊆ dom (fs_acc f) ∪ S →
  dom (fs_stats (foldl (λ f d, recountDay s w d f) f l)) ⊆ dom (fs_acc (foldl (λ f d, recountDay s w d f) f l)) ∪ S.
Proof.
  revert f. induction l as [|e l IH]; intros f Hd; [done|]. cbn [foldl]. apply IH. unfold recountDay. cbn [fs_stats fs_acc]. destruct (tsum _); [rewrite dom_insert|]; set_solver.
Qed.
Lemma dom_recountDays s w days f : dom (fs_stats f) ⊆ dom (fs_acc f) ∪ S → dom (fs_stats (recountDays s w days f).1) ⊆ dom (fs_acc (recountDays s w days f).1) ∪ S.
Proof. intros Hd. unfold recountDays. destruct (classify _ _ _) as [[[|first C] N] Q]; [done|]. cbn [fst]. by apply dom_recounts. Qed.
End Rows.

Lemma run_to_spec k bs w : w ≤ run_to k bs w ≤ w + Z.of_nat k ∧ ∀ n, w < n ≤ run_to k bs w → is_Some (bs !! n).
Proof.
  revert w. induction k as [|k IH]; intros w; cbn [run_to]; [split; [lia|intros; lia]|]. case_decide as Hs; [|split; [lia|intros; lia]].
  destruct (IH (w + 1)) as [H1 H2]. split; [lia|]. intros n Hn. destruct (decide (n = w + 1)) as [->|]; [done|]. apply H2. lia.
Qed.

Lemma sums_empty_range bs w : sums (λ n, w < n ≤ w) bs = ∅.
Proof. unfold sums, chosen. rewrite (elem_of_nil_inv (filter _ _)); [done|]. intros nb [? _]%list_elem_of_filter. lia. Qed.

Lemma countFold_spec limit days s c : dd_pruned s = 0 → countFold limit days s = Some c → ∃ w G, dd_watermark s = Some w ∧ counts s days c G w.
Proof.
  intros Hp. unfold countFold. destruct (dd_watermark s) as [w|]; [|done]. cbn. intros [= <-]. unfold count_from.
  destruct (run_to_spec (Z.to_nat limit) (dd_blocks s) w) as [Hu Hr]. set (upto := run_to _ _ w) in *.
  set (f1 := if w <? upto then _ else _). assert (parts (fs_acc f1) = parts (dd_acc s) ⊕ sums (λ n, w < n ≤ upto) (dd_blocks s)) as Ef1.
  { unfold f1. destruct (Z.ltb_spec w upto); [apply parts_stageAdvance|]. replace upto with w by lia. by rewrite sums_empty_range, plus_empty_r. }
  assert (dom (fs_stats f1) ⊆ dom (fs_acc f1) ∪ ∅) as Hd1 by (unfold f1; destruct (w <? upto); [apply dom_stageAdvance|]; cbn; set_solver).
  pose proof (dom_recountDays ∅ s upto days f1 Hd1) as Hd2.
  destruct (recountDays_spec s upto days f1 Hp) as (G & HG & Hacc). destruct (recountDays s upto days f1) as [f2 rc]. cbn [fst snd] in HG, Hacc, Hd2.
  exists w, G. split; [done|]. split; cbn [fc_snapshot sn_watermark sn_generation fc_upto fc_recounted fc_later fc_pending fc_staged]; [done|split; [lia|done]| | |].
  - destruct HG as [A1 A2 A3 A4]. split; try done. case_bool_decide as Hs; [done|]. intros _. apply A4. destruct (rc_from rc); [exfalso; apply Hs; by eexists|done].
  - intros d. rewrite fs_acc_sets. rewrite <-Ef1, <-Hacc. destruct (earliest _ _) as [from|]; [|done].
    destruct (rewriteFrom s from upto (fs_acc f2) (fs_stats f2)) as [acc st] eqn:Er. cbn [fs_acc]. pose proof (parts_rewriteFrom s from upto (fs_acc f2) (fs_stats f2)) as Hrw.
    rewrite Er in Hrw. cbn in Hrw. by rewrite Hrw.
  - rewrite fs_acc_sets. assert (∀ f, fs_stats (stageRecountedSets s upto f) = fs_stats f) as -> by (intros f; unfold stageRecountedSets; by destruct (block_day upto s)).
    destruct (earliest _ _) as [from|]; [|set_solver]. pose proof (dom_rewriteFrom ∅ s from upto (fs_acc f2) (fs_stats f2) Hd2) as Hrw.
    destruct (rewriteFrom s from upto (fs_acc f2) (fs_stats f2)). set_solver.
Qed.
