(* ===== verification/DailyFoldEnv.v ===== *)
(** * The daily fold beside the writers of blocks

    What holds of the aggregates and of the process' memory between any two statements,
    and that block writes, notes and reverts keep it. *)

From S2P Require Import Prelude GoStrings StatsBackfill Tally DailyFold DailyFoldProps.

(** ** The state *)

Definition monotone (bs : blocks) : Prop := ∀ m n bm bn, bs !! m = Some bm → bs !! n = Some bn → m ≤ n → sb_ts bm ≤ sb_ts bn.
Definition in_range (bs : blocks) : Prop := ∀ n b, bs !! n = Some b → 0 ≤ n < 2 ^ 63 ∧ 0 ≤ sb_ts b < 2 ^ 63.

(** A day that has a row and no aggregate lies above the blocks below the watermark:
    none of its blocks is, or will be stored, at or below it. *)
Definition above (bs : blocks) (w d : Z) : Prop := ∃ v, -1 ≤ v ≤ w ∧ (v = -1 ∨ ∃ b, bs !! v = Some b ∧ day (sb_ts b) < d) ∧
  ∀ n, v < n ≤ w → ∃ b, bs !! n = Some b ∧ day (sb_ts b) ≠ d.

Record core (s : daily_db) : Prop := {
  o_mono : monotone (dd_blocks s); o_range : in_range (dd_blocks s); o_pruned : dd_pruned s = 0;
  o_none : dd_watermark s = None → dd_acc s = ∅ ∧ dd_stats s = ∅;
  o_low : ∀ w, dd_watermark s = Some w → -1 ≤ w;
  o_partial : ∀ w d p, dd_watermark s = Some w → parts (dd_acc s) !! d = Some p → ∃ B Pr, partial (dd_blocks s) w d p B Pr }.
Definition no_stale (s : daily_db) : Prop := ∀ w d, dd_watermark s = Some w → dd_acc s !! d = None → is_Some (dd_stats s !! d) → above (dd_blocks s) w d.

Record mem_ok (y : sys) : Prop := {
  m_watermark : ∀ x, l_watermark (y_late y) = Some x → ∃ w, dd_watermark (y_db y) = Some w ∧ ∀ n, x < n ≤ w → is_Some (dd_blocks (y_db y) !! n);
  m_unnoted : ∀ n ts, (n, ts) ∈ y_unnoted y → 0 ≤ n < 2 ^ 63 ∧ 0 ≤ ts < 2 ^ 63;
  m_searched : l_searched (y_late y) = true → is_Some (dd_watermark (y_db y)) }.

(** Day [d] is noted, or a writer is about to note it for a block at or below [w]. *)
Definition marked (y : sys) (w d : Z) : Prop := d ∈ l_days (y_late y) ∨
  ∃ n b, (n, sb_ts b) ∈ y_unnoted y ∧ dd_blocks (y_db y) !! n = Some b ∧ n ≤ w ∧ day (sb_ts b) = d ∧ ∀ x, l_watermark (y_late y) = Some x → n ≤ x.

(** A stored block of [d], or the block before it, has its day in [X]. *)
Definition dirty (X : Z → Prop) (bs : blocks) (w d : Z) : Prop := ∃ n b, bs !! n = Some b ∧ n ≤ w ∧ day (sb_ts b) = d ∧
  (X d ∨ ∃ p, bs !! (n - 1) = Some p ∧ X (day (sb_ts p))).
Definition accounted (X : Z → Prop) (s : daily_db) (w : Z) : Prop := ∀ d, parts (dd_acc s) !! d = truth (dd_blocks s) w d ∨ dirty X (dd_blocks s) w d.
Definition acct (X : Z → Prop) (y : sys) : Prop := ∃ w, dd_watermark (y_db y) = Some w ∧ accounted (λ e, marked y w e ∨ X e) (y_db y) w.

Lemma dirty_mono (X X' : Z → Prop) bs bs' w w' d : (∀ e, X e → X' e) → bs ⊆ bs' → w ≤ w' → dirty X bs w d → dirty X' bs' w' d.
Proof.
  intros HX Hb Hw (n & b & H1 & H2 & H3 & H4). exists n, b. split_and!; [by eapply lookup_weaken|lia|done|]. destruct H4 as [?|(p & Hp & ?)]; [left; auto|right].
  exists p. split; [by eapply lookup_weaken|auto].
Qed.

(** Blocks stored since: where they change a count, their day is marked. *)
Lemma truth_grew (X : Z → Prop) bs bs' w d : bs ⊆ bs' → (∀ n b, bs' !! n = Some b → bs !! n = None → n ≤ w → X (day (sb_ts b))) →
  truth bs w d = truth bs' w d ∨ dirty X bs' w d.
Proof.
  intros Hsub Hnew. destruct (decide (Exists (λ nb, bs !! nb.1 = None ∨ bs !! (nb.1 - 1) = None ∧ is_Some (bs' !! (nb.1 - 1))) (of_day w d bs'))) as [He|Hn].
  - right. apply Exists_exists in He as ([n b] & (Hb & Hw & Hd)%elem_of_of_day & Hc). cbn in Hc. exists n, b. split_and!; try done.
    destruct Hc as [Hc|[Hc [p Hp]]]; [left; subst d; by eapply Hnew|right]. exists p. split; [done|]. eapply Hnew; [done|done|lia].
  - left. apply not_Exists_Forall in Hn; [|apply _]. rewrite Forall_forall in Hn.
    assert (∀ n b, bs' !! n = Some b → n ≤ w → day (sb_ts b) = d → bs !! n = Some b ∧ bs !! (n - 1) = bs' !! (n - 1)) as Hsame.
    { intros n b Hb Hw Hd. specialize (Hn (n, b)). cbn in Hn. assert ((n, b) ∈ of_day w d bs') as Hin by by apply elem_of_of_day. specialize (Hn Hin). split.
      - destruct (bs !! n) as [c|] eqn:E; [|tauto]. pose proof (lookup_weaken _ _ _ _ E Hsub). congruence.
      - destruct (bs !! (n - 1)) as [c|] eqn:E; [by rewrite (lookup_weaken _ _ _ _ E Hsub)|]. destruct (bs' !! (n - 1)) eqn:E'; [|done].
        exfalso. apply Hn. right. split; [done|by eexists]. }
    apply truth_ext.
    + intros n b Hd. split; intros [Hb Hw]; (split; [|done]); [by eapply lookup_weaken|by apply (Hsame n b)].
    + intros n b Hb Hw Hd. by rewrite (proj2 (Hsame n b (lookup_weaken _ _ _ _ Hb Hsub) Hw Hd)).
Qed.

(** ** What others do *)

Definition with_db (s : daily_db) (y : sys) : sys := mkSys s (y_late y) (y_unnoted y) (y_stalls y).

(** Writers of blocks commit, then note; reverts, except of a day that starts in a gap
    (which the code logs, and leaves to an operator); writers of address_stats and of
    the backfill's end; writers that only move the generation. *)
Inductive env_step (y : sys) : sys → Prop :=
| e_store n b : dd_blocks (y_db y) !! n = None → monotone (<[n := b]> (dd_blocks (y_db y))) → in_range (<[n := b]> (dd_blocks (y_db y))) →
    env_step y (mkSys (set_blocks (<[n := b]> (dd_blocks (y_db y))) (y_db y)) (y_late y) ((n, sb_ts b) :: y_unnoted y) (y_stalls y))
| e_note U U' n ts : y_unnoted y = U ++ (n, ts) :: U' → env_step y (mkSys (y_db y) (noteBlock n ts (y_late y)) (U ++ U') (y_stalls y))
| e_delete n s : delete_block n (y_db y) = Some s →
    (∀ w w', dd_watermark (y_db y) = Some w → n ≤ w → is_Some (dd_blocks (y_db y) !! n) → dd_watermark s = Some w' → w' = -1 ∨ is_Some (dd_blocks s !! w')) →
    env_step y (with_db s y)
| e_seen seen moves backfill : env_step y (with_db (mkDaily (dd_blocks (y_db y)) (dd_watermark (y_db y)) (dd_generation (y_db y)) (dd_acc (y_db y)) (dd_active (y_db y))
    (dd_stats (y_db y)) seen moves (dd_pruned (y_db y)) (dd_prunedTs (y_db y)) (dd_offset (y_db y)) backfill) y)
| e_bump : env_step y (with_db (set_days (dd_watermark (y_db y)) (dd_generation (y_db y) + 1) (dd_acc (y_db y)) (dd_active (y_db y)) (dd_stats (y_db y)) (y_db y)) y).

(** *** A block above the watermark is reverted *)

Section Lower.
Context (y : sys) (w w' n : Z) (bs' : blocks).
Notation bs := (dd_blocks (y_db y)).
Hypothesis (Hcore : core (y_db y)) (Hw : dd_watermark (y_db y) = Some w) (Hww : w' ≤ w) (Hbs : bs' = delete n bs).

(** The watermark drops over no block that is on a day of [D]. *)
Context (D : Z → Prop).
Hypothesis HD : ∀ m b, bs !! m = Some b → m ≤ w → D (day (sb_ts b)) → m ≤ w' ∧ m ≠ n.
Hypothesis HDdown : ∀ m b p, bs !! m = Some b → bs !! (m - 1) = Some p → D (day (sb_ts b)) → D (day (sb_ts p)).

Lemma kept_block m b : bs !! m = Some b → m ≤ w → D (day (sb_ts b)) → bs' !! m = Some b ∧ m ≤ w'.
Proof. intros Hm Hle Hd. destruct (HD m b Hm Hle Hd). split; [|done]. rewrite Hbs, lookup_delete_ne by congruence. done. Qed.
Lemma kept_before m b : bs !! m = Some b → m ≤ w → D (day (sb_ts b)) → bs' !! (m - 1) = bs !! (m - 1).
Proof.
  intros Hm Hle Hd. destruct (bs !! (m - 1)) as [p|] eqn:E; [apply (kept_block (m - 1) p); [done|lia|exact (HDdown m b p Hm E Hd)]|].
  rewrite Hbs. destruct (decide (m - 1 = n)) as [<-|]; [apply lookup_delete_eq|]. rewrite lookup_delete_ne by congruence. done.
Qed.
Lemma lowered_truth d : D d → truth bs w d = truth bs' w' d.
Proof.
  intros Hd. apply truth_ext.
  - intros m b E. subst d. split; intros [Hm Hle]; [by apply kept_block|]. rewrite Hbs in Hm. apply lookup_delete_Some in Hm as [? ?]. split; [done|lia].
  - intros m b Hm Hle E. subst d. by rewrite (kept_before m b).
Qed.
Lemma lowered_partial d p B Pr : D d → partial bs w d p B Pr → partial bs' w' d p B Pr.
Proof.
  intros Hd Hp. pose proof Hp as [H1 H2 _]. eapply partial_moved; [exact Hp| |].
  - intros m Hm. destruct (H1 m Hm) as (b & Hb & Hle & E). subst d. destruct (kept_block m b) as [-> ?]; done.
  - intros m Hm. destruct (H2 m Hm) as [HmB _]. destruct (H1 m HmB) as (b & Hb & Hle & E). subst d. by apply (kept_before m b).
Qed.
Lemma lowered_marked (s : daily_db) e : dd_blocks s = bs' → D e → marked y w e → marked (with_db s y) w' e.
Proof.
  intros Es He [?|(m & b & H1 & H2 & H3 & H4 & H5)]; [by left|]. subst e. destruct (kept_block m b H2 H3 He) as [? ?]. right. exists m, b. cbn [with_db y_db y_unnoted y_late].
  by rewrite Es.
Qed.
Lemma lowered_dirty (X : Z → Prop) (s : daily_db) d : dd_blocks s = bs' → D d → dirty (λ e, marked y w e ∨ X e) bs w d → dirty (λ e, marked (with_db s y) w' e ∨ X e) bs' w' d.
Proof.
  intros Es Hd (m & b & H1 & H2 & H3 & H4). subst d. destruct (kept_block m b H1 H2 Hd) as [Hm ?]. exists m, b. split_and!; try done.
  destruct H4 as [[?|?]|(p & Hp & HX)]; [left; left; by apply lowered_marked|by left; right|right]. exists p. split; [by rewrite (kept_before m b)|].
  destruct HX as [?|?]; [left|by right]. apply lowered_marked; try done. exact (HDdown m b p H1 Hp Hd).
Qed.
End Lower.

Lemma keep_spec s w : in_range (dd_blocks s) → dd_watermark s = Some w → -1 ≤ w → ∃ w', keep_on_stored s = set_days (Some w') (dd_generation s) (dd_acc s) (dd_active s) (dd_stats s) s ∧
  -1 ≤ w' ≤ w ∧ ∀ m b, dd_blocks s !! m = Some b → m ≤ w → m ≤ w'.
Proof.
  intros Hr Ew Hw. assert (s = set_days (Some w) (dd_generation s) (dd_acc s) (dd_active s) (dd_stats s) s) as Es by (rewrite <-Ew; by destruct s).
  unfold keep_on_stored. rewrite Ew. pose proof (maxl_spec (filter (λ n, n ≤ w) (map_to_list (dd_blocks s)).*1)) as Hm.
  destruct (max_list _) as [b|]; [|exists w; split_and!; [done|lia|lia|done]]. destruct Hm as [[Hbw [[b' x] [-> Hx]]%list_elem_of_fmap]%list_elem_of_filter Hall].
  destruct (min_list _) as [f|]; [|exists w; split_and!; [done|lia|lia|done]]. cbn in *.
  apply elem_of_map_to_list in Hx. pose proof (Hr _ _ Hx) as [[? _] _].
  destruct (Z.ltb_spec (Z.max b' (f - 1)) w); [|exists w; split_and!; [done|lia|lia|done]]. eexists. split; [done|]. split; [lia|]. intros m c Hm Hle.
  enough (m ≤ b') by lia. apply Hall, list_elem_of_filter. split; [done|]. apply list_elem_of_fmap. exists (m, c). split; [done|]. by apply elem_of_map_to_list.
Qed.

Record lowered (s s' : daily_db) (n w w' : Z) (D : Z → Prop) : Prop := {
  lw_wm : dd_watermark s = Some w ∧ dd_watermark s' = Some w' ∧ -1 ≤ w' ≤ w;
  lw_kept : ∀ m b, dd_blocks s !! m = Some b → m ≤ w → D (day (sb_ts b)) → m ≤ w' ∧ m ≠ n;
  lw_acc : ∀ d, (D d ∧ parts (dd_acc s') !! d = parts (dd_acc s) !! d) ∨ (¬ D d ∧ dd_acc s' !! d = None);
  lw_below : ∀ m b, dd_blocks s !! m = Some b → m ≤ w' → D (day (sb_ts b)) ∧ m ≠ n;
  lw_down : ∀ d e, D d → e ≤ d → D e;
  lw_cut : (∀ d, D d) ∨ n ≤ w ∧ is_Some (dd_blocks s !! n) }.

Lemma delete_block_spec n s s' : core s → delete_block n s = Some s' →
  dd_blocks s' = delete n (dd_blocks s) ∧ dd_generation s' = dd_generation s + 1 ∧ dd_stats s' = dd_stats s ∧ dd_pruned s' = dd_pruned s ∧
  ((dd_watermark s = None ∧ dd_watermark s' = None ∧ dd_acc s' = dd_acc s) ∨ ∃ w w' D, lowered s s' n w w' D).
Proof.
  intros [Hmono Hr Hp Hn Hl _]. unfold delete_block. destruct (invalidate n s) as [s1|] eqn:Ei; [|done]. cbn. intros [= <-]. revert Ei. unfold invalidate.
  set (bumped := set_days (dd_watermark s) _ _ _ _ s).
  assert ((∀ w, dd_watermark s = Some w → w < n ∨ dd_blocks s !! n = None) → Some bumped = Some s1 →
    dd_blocks (set_blocks (delete n (dd_blocks s1)) (keep_on_stored s1)) = delete n (dd_blocks s) ∧
    dd_generation (set_blocks (delete n (dd_blocks s1)) (keep_on_stored s1)) = dd_generation s + 1 ∧
    dd_stats (set_blocks (delete n (dd_blocks s1)) (keep_on_stored s1)) = dd_stats s ∧
    dd_pruned (set_blocks (delete n (dd_blocks s1)) (keep_on_stored s1)) = dd_pruned s ∧
    ((dd_watermark s = None ∧ dd_watermark (set_blocks (delete n (dd_blocks s1)) (keep_on_stored s1)) = None ∧
      dd_acc (set_blocks (delete n (dd_blocks s1)) (keep_on_stored s1)) = dd_acc s) ∨
     ∃ w w' D, lowered s (set_blocks (delete n (dd_blocks s1)) (keep_on_stored s1)) n w w' D)) as Hbump.
  { intros Hab [= <-]. destruct (dd_watermark s) as [w|] eqn:Ew.
    - destruct (keep_spec bumped w Hr eq_refl (Hl w eq_refl)) as (w' & -> & Hw' & Hk). split_and!; try done. right. exists w, w', (λ _, True).
      assert (∀ m b, dd_blocks s !! m = Some b → m ≤ w → m ≠ n) as Hne by (intros m b Hm Hle ->; destruct (Hab w eq_refl); [lia|congruence]).
      split; try done; [|by left|intros m b Hm Hle; split; [done|apply (Hne m b Hm); lia]|by left]. intros m b Hm Hle _. split; [by apply (Hk m b)|by apply (Hne m b)].
    - assert (keep_on_stored bumped = bumped) as -> by done. split_and!; try done. by left. }
  destruct (dd_watermark s) as [w|] eqn:Ew; [|apply Hbump; by intros ? [=]].
  destruct (block_day n s) as [d0|] eqn:Ed; [|apply Hbump; intros ? [= <-]; right; unfold block_day in Ed; by destruct (dd_blocks s !! n)].
  destruct (Z.ltb_spec w n) as [Hwn|Hwn]; [apply Hbump; intros ? [= <-]; by left|]. rewrite Hp. cbn [Z.ltb Z.compare andb].
  unfold block_day in Ed. destruct (dd_blocks s !! n) as [bn|] eqn:En; [|done]. cbn in Ed. injection Ed as Ed.
  pose proof (minl_spec (filter (λ nb, d0 * 86400 ≤ sb_ts nb.2) (map_to_list (dd_blocks s))).*1) as Hm.
  assert (∀ b, d0 * 86400 ≤ sb_ts b ↔ d0 ≤ day (sb_ts b)) as Hday.
  { intros b. unfold day. pose proof (Z.div_mod (sb_ts b) 86400 ltac:(lia)). pose proof (Z.mod_pos_bound (sb_ts b) 86400 ltac:(lia)). nia. }
  assert (n ∈ (filter (λ nb, d0 * 86400 ≤ sb_ts nb.2) (map_to_list (dd_blocks s))).*1) as Hnin.
  { apply list_elem_of_fmap. exists (n, bn). split; [done|]. apply list_elem_of_filter. split; [apply Hday; cbn; lia|by apply elem_of_map_to_list]. }
  destruct (min_list _) as [low|]; [|rewrite Hm in Hnin; by apply not_elem_of_nil in Hnin].
  destruct Hm as [([low' bl] & -> & [Hlt Hlb%elem_of_map_to_list]%list_elem_of_filter)%list_elem_of_fmap Hmin]. cbn [fst snd] in *. pose proof (Hmin n Hnin) as Hln.
  assert (∀ m b, dd_blocks s !! m = Some b → day (sb_ts b) < d0 ↔ m < low') as Hcut.
  { intros m b Hb. split.
    - intros Hd. destruct (Z.lt_ge_cases m low') as [|Hge]; [done|]. pose proof (Hmono _ _ _ _ Hlb Hb Hge). apply Hday in Hlt.
      pose proof (Z.div_le_mono (sb_ts bl) (sb_ts b) 86400 ltac:(lia) ltac:(lia)). unfold day in *. lia.
    - intros Hlt'. destruct (Z.lt_ge_cases (day (sb_ts b)) d0) as [|Hge]; [done|]. exfalso. enough (low' ≤ m) by lia. apply Hmin, list_elem_of_fmap.
      exists (m, b). split; [done|]. apply list_elem_of_filter. split; [by apply Hday|by apply elem_of_map_to_list]. }
  destruct (Hr _ _ Hlb) as [[? _] _]. change ((λ m, m - 1) <$> Some low') with (Some (low' - 1)).
  set (s2 := set_days (Some (low' - 1)) (dd_generation s + 1) (filter (λ da, da.1 < d0) (dd_acc s)) (filter (λ da, da.1 < d0) (dd_active s)) (dd_stats s) s). intros [= <-]. destruct (keep_spec s2 (low' - 1) Hr eq_refl ltac:(lia)) as (w' & -> & Hw' & Hk). split_and!; try done. right.
  exists w, w', (λ d, d < d0). split.
  - split_and!; try done; lia.
  - intros m b Hm Hle Hd. pose proof (proj1 (Hcut m b Hm) Hd). split; [apply (Hk m b Hm); lia|lia].
  - intros d. cbn. destruct (decide (d < d0)) as [Hd|Hd]; [left|right]; (split; [done|]).
    + rewrite !lookup_fmap. f_equal. destruct (dd_acc s !! d) eqn:E; [by apply map_lookup_filter_Some|apply map_lookup_filter_None; by left].
    + apply map_lookup_filter_None. right. intros x _. cbn. lia.
  - intros m b Hm Hle. assert (m < low') by lia. split; [by apply (Hcut m b Hm)|lia].
  - intros; lia.
  - right. split; [done|]. rewrite En. by eexists.
Qed.

(** *** Every step of the others keeps the state *)

Definition ok (y : sys) : Prop := core (y_db y) ∧ no_stale (y_db y) ∧ mem_ok y.

Lemma marked_store y n b w e : dd_blocks (y_db y) !! n = None → marked y w e →
  marked (mkSys (set_blocks (<[n := b]> (dd_blocks (y_db y))) (y_db y)) (y_late y) ((n, sb_ts b) :: y_unnoted y) (y_stalls y)) w e.
Proof.
  intros Hn [?|(m & c & H1 & H2 & H3 & H4 & H5)]; [by left|right]. exists m, c. cbn. split_and!; [by right| |done..]. rewrite lookup_insert_ne; [done|congruence].
Qed.
(** A block stored at or below the watermark is above the one the process remembers in
    no case, so its writer will note it. *)
Lemma marked_new y n b w : ok y → dd_watermark (y_db y) = Some w → dd_blocks (y_db y) !! n = None → n ≤ w →
  marked (mkSys (set_blocks (<[n := b]> (dd_blocks (y_db y))) (y_db y)) (y_late y) ((n, sb_ts b) :: y_unnoted y) (y_stalls y)) w (day (sb_ts b)).
Proof.
  intros (_ & _ & [Hm _ _]) Hw Hn Hle. right. exists n, b. cbn. split_and!; [left|apply lookup_insert_eq|done|done|]. intros x Hx.
  destruct (Hm x Hx) as (w1 & E & Hst). rewrite Hw in E. injection E as <-. destruct (Z.le_gt_cases n x) as [|Hlt]; [done|]. destruct (Hst n ltac:(lia)) as [? ?]. congruence.
Qed.
Lemma marked_note y U U' n ts w e : in_range (dd_blocks (y_db y)) → y_unnoted y = U ++ (n, ts) :: U' → marked y w e →
  marked (mkSys (y_db y) (noteBlock n ts (y_late y)) (U ++ U') (y_stalls y)) w e.
Proof.
  intros Hr EU. assert (∀ e, e ∈ l_days (y_late y) → e ∈ l_days (noteBlock n ts (y_late y))) as Hgrow.
  { intros f Hf. unfold noteBlock. destruct (match _ with Some _ => _ | None => _ end); [done|]. cbn. set_solver. }
  assert (l_watermark (noteBlock n ts (y_late y)) = l_watermark (y_late y)) as Ew by (unfold noteBlock; by destruct (match _ with Some _ => _ | None => _ end)).
  intros [?|(m & c & H1 & H2 & H3 & H4 & H5)]; [left; by apply Hgrow|]. rewrite EU in H1.
  destruct (decide ((m, sb_ts c) = (n, ts))) as [[= -> <-]|Hne].
  - left. cbn. destruct (Hr _ _ H2) as [Hn Hts]. unfold noteBlock. rewrite !i64_small by lia.
    rewrite Z.quot_div_nonneg by lia. fold (day (sb_ts c)). rewrite H4. destruct (l_watermark (y_late y)) as [x|]; [|cbn; set_solver].
    specialize (H5 x eq_refl). destruct (Z.ltb_spec x n); [lia|]. cbn. set_solver.
  - right. exists m, c. cbn. rewrite Ew. split_and!; try done. apply elem_of_app in H1 as [?|[?|?]%elem_of_cons]; apply elem_of_app; [by left|done|by right].
Qed.

Lemma above_store bs w d n b : bs !! n = None → above bs w d → above (<[n := b]> bs) w d.
Proof.
  intros Hn (v & H1 & H2 & H3). exists v. split_and!; try lia.
  - destruct H2 as [?|(c & ? & ?)]; [by left|right]. exists c. split; [|done]. rewrite lookup_insert_ne; congruence.
  - intros m Hm. destruct (H3 m Hm) as (c & ? & ?). exists c. split; [|done]. rewrite lookup_insert_ne; congruence.
Qed.
Lemma partial_sub bs bs' w d p B Pr : bs ⊆ bs' → partial bs w d p B Pr → partial bs' w d p B Pr.
Proof.
  intros Hsub Hp. pose proof Hp as [H1 H2 _]. eapply partial_moved; [exact Hp| |].
  - intros m (c & Hc & ? & _)%H1. split; [|done]. by rewrite Hc, (lookup_weaken _ _ _ _ Hc Hsub).
  - intros m [_ [c Hc]]%H2. by rewrite Hc, (lookup_weaken _ _ _ _ Hc Hsub).
Qed.

Lemma store_keeps y n b X : dd_blocks (y_db y) !! n = None → monotone (<[n := b]> (dd_blocks (y_db y))) → in_range (<[n := b]> (dd_blocks (y_db y))) →
  let y' := mkSys (set_blocks (<[n := b]> (dd_blocks (y_db y))) (y_db y)) (y_late y) ((n, sb_ts b) :: y_unnoted y) (y_stalls y) in
  ok y → ok y' ∧ (acct X y → acct X y').
Proof.
  intros Hn Hmono Hr y' Hok. pose proof Hok as ([_ Hr0 Hp Hno Hl Hpart] & Hst & [Hm1 Hm2 Hm3]).
  assert (dd_blocks (y_db y) ⊆ <[n := b]> (dd_blocks (y_db y))) as Hsub by by apply insert_subseteq. split; [split; [|split]|].
  - split; try done. intros w d p Hw Hd. destruct (Hpart w d p Hw Hd) as (B & Pr & HB). exists B, Pr. by apply (partial_sub (dd_blocks (y_db y))).
  - intros w d Hw Ha Hs. apply above_store; [done|]. by apply Hst.
  - split; cbn; [|intros m ts [[= -> ->]|?]%elem_of_cons; [|by apply Hm2]|done].
    + intros x Hx. destruct (Hm1 x Hx) as (w & Hw & Hall). exists w. split; [done|]. intros m Hm. destruct (Hall m Hm) as [c Hc]. exists c. by eapply lookup_weaken.
    + apply (Hr n b), lookup_insert_eq.
  - intros (w & Hw & Hacc). exists w. split; [done|]. intros d. cbn [y' y_db set_blocks dd_acc dd_blocks].
    destruct (truth_grew (λ e, marked y' w e ∨ X e) (dd_blocks (y_db y)) (<[n := b]> (dd_blocks (y_db y))) w d Hsub) as [E|?]; [| |by right].
    { intros m c Hm Hm0 Hle. left. destruct (decide (m = n)) as [->|Hne]; [|rewrite lookup_insert_ne in Hm by done; congruence].
      rewrite lookup_insert_eq in Hm. injection Hm as <-. by apply marked_new. }
    destruct (Hacc d) as [E'|Hd]; [left; by rewrite E'|right]. eapply dirty_mono; [|exact Hsub|reflexivity|exact Hd]. intros e [?|?]; [left; by apply marked_store|by right].
Qed.
Lemma note_keeps y U U' n ts X : y_unnoted y = U ++ (n, ts) :: U' → let y' := mkSys (y_db y) (noteBlock n ts (y_late y)) (U ++ U') (y_stalls y) in
  ok y → ok y' ∧ (acct X y → acct X y').
Proof.
  intros EU y' (Hc & Hst & [Hm1 Hm2 Hm3]).
  assert (l_watermark (noteBlock n ts (y_late y)) = l_watermark (y_late y) ∧ l_searched (noteBlock n ts (y_late y)) = l_searched (y_late y)) as [Ew Es]
    by (unfold noteBlock; by destruct (match _ with Some _ => _ | None => _ end)). split.
  - split; [done|split; [done|]]. split; cbn; rewrite ?Ew, ?Es; try done. intros m t Hm. apply Hm2. rewrite EU. set_solver.
  - intros (w & Hw & Hacc). exists w. split; [done|]. intros d. destruct (Hacc d) as [?|Hd]; [by left|right].
    eapply dirty_mono; [|reflexivity|reflexivity|exact Hd]. intros e [?|?]; [left; apply marked_note; [apply Hc|done|done]|by right].
Qed.

(** The day of a block is not decreasing in its number. *)
Lemma day_mono bs m n bm bn : monotone bs → bs !! m = Some bm → bs !! n = Some bn → m ≤ n → day (sb_ts bm) ≤ day (sb_ts bn).
Proof. intros Hm H1 H2 Hle. unfold day. apply Z.div_le_mono; [lia|]. by apply (Hm m n). Qed.

(** A revert lowers the watermark over the days it cuts off. *)
Section Delete.
Context (y : sys) (s : daily_db) (n w w' : Z) (D : Z → Prop).
Hypothesis (Hok : ok y) (Hl : lowered (y_db y) s n w w' D) (Hbs : dd_blocks s = delete n (dd_blocks (y_db y))).

Lemma lowered_down m b p : dd_blocks (y_db y) !! m = Some b → dd_blocks (y_db y) !! (m - 1) = Some p → D (day (sb_ts b)) → D (day (sb_ts p)).
Proof. intros Hm Hp Hd. destruct Hok as ([Hmono _ _ _ _ _] & _). apply (lw_down _ _ _ _ _ _ Hl _ _ Hd). apply (day_mono _ (m - 1) m p b Hmono); [done|done|lia]. Qed.
Lemma lowered_stored m b : dd_blocks (y_db y) !! m = Some b → m ≤ w' → dd_blocks s !! m = Some b.
Proof. intros Hm Hle. destruct (lw_below _ _ _ _ _ _ Hl m b Hm Hle). rewrite Hbs, lookup_delete_ne; [done|congruence]. Qed.
Lemma lowered_acc d : (D d ∧ parts (dd_acc s) !! d = parts (dd_acc (y_db y)) !! d) ∨ ¬ D d ∧ parts (dd_acc s) !! d = None.
Proof. destruct (lw_acc _ _ _ _ _ _ Hl d) as [?|[? E]]; [by left|right]. split; [done|]. by rewrite lookup_fmap, E. Qed.

Lemma lowered_partials d p : parts (dd_acc s) !! d = Some p → ∃ B Pr, partial (dd_blocks s) w' d p B Pr.
Proof.
  destruct Hl as [(Hw & _ & Hww) Hk _ _ _ _]. pose proof Hok as (Hc & _). destruct (lowered_acc d) as [[Hd ->]|[_ ->]]; [|done]. intros Hp.
  destruct (o_partial _ Hc w d p Hw Hp) as (B & Pr & HB). exists B, Pr. by apply (lowered_partial y w w' n (dd_blocks s) Hbs D Hk lowered_down).
Qed.
Lemma lowered_above d : dd_stats s = dd_stats (y_db y) → (w' = -1 ∨ is_Some (dd_blocks s !! w') ∨ ∀ d, D d) → dd_acc s !! d = None → is_Some (dd_stats s !! d) → above (dd_blocks s) w' d.
Proof.
  intros Es Hside Ha Hs. rewrite Es in Hs. destruct Hl as [(Hw & _ & Hww) Hk _ Hb Hdown _]. pose proof Hok as (_ & Hst & _).
  destruct (lowered_acc d) as [[Hd E]|[Hd _]].
  - rewrite !lookup_fmap, Ha in E. destruct (dd_acc (y_db y) !! d) eqn:Ea; [done|]. destruct (Hst w d Hw Ea Hs) as (v & H1 & H2 & H3).
    destruct (Z.le_gt_cases v w') as [Hv|Hv].
    + exists v. split_and!; try lia; [destruct H2 as [?|(b & ? & ?)]; [by left|right; exists b; split; [by apply lowered_stored|done]]|].
      intros m Hm. destruct (H3 m ltac:(lia)) as (b & ? & ?). exists b. split; [apply lowered_stored; [done|lia]|done].
    + destruct H2 as [?|(b & Hvb & Hlt)]; [lia|]. destruct (Hk v b Hvb ltac:(lia)) as [? _]; [|lia]. apply (Hdown d); [done|lia].
  - exists w'. split; [lia|]. split; [|intros; lia]. destruct Hside as [?|[[b Hw'b]|?]]; [by left| |by destruct Hd]. right. exists b. split; [done|].
    rewrite Hbs in Hw'b. apply lookup_delete_Some in Hw'b as [_ Hb']. destruct (Hb w' b Hb' ltac:(lia)) as [HDb _].
    destruct (Z.lt_ge_cases (day (sb_ts b)) d) as [|Hge]; [done|]. exfalso. apply Hd. by apply (Hdown _ _ HDb).
Qed.
Lemma lowered_acct X : acct X y → acct X (with_db s y).
Proof.
  destruct Hl as [(Hw & Hw' & Hww) Hk _ Hb _ _]. intros (w1 & E & Hacc). rewrite Hw in E. injection E as <-. exists w'. split; [done|]. intros d. cbn [with_db y_db].
  destruct (lowered_acc d) as [[Hd ->]|[Hd ->]].
  - rewrite <-(lowered_truth y w w' n (dd_blocks s) ltac:(lia) Hbs D Hk lowered_down d Hd). destruct (Hacc d) as [?|?]; [by left|right].
    by apply (lowered_dirty y w w' n (dd_blocks s) Hbs D Hk lowered_down).
  - left. symmetry. apply truth_None. intros m b Hm Hle Ed. subst d. rewrite Hbs in Hm. apply lookup_delete_Some in Hm as [_ Hm]. by destruct (Hb m b Hm Hle).
Qed.
End Delete.

Lemma monotone_sub bs bs' : bs' ⊆ bs → monotone bs → monotone bs'.
Proof. intros Hs Hm m n bm bn H1 H2. apply Hm; by eapply lookup_weaken. Qed.
Lemma in_range_sub bs bs' : bs' ⊆ bs → in_range bs → in_range bs'.
Proof. intros Hs Hm n b H1. by apply Hm, (lookup_weaken _ _ _ _ H1). Qed.

Lemma delete_keeps y n s X : delete_block n (y_db y) = Some s →
  (∀ w w', dd_watermark (y_db y) = Some w → n ≤ w → is_Some (dd_blocks (y_db y) !! n) → dd_watermark s = Some w' → w' = -1 ∨ is_Some (dd_blocks s !! w')) →
  ok y → ok (with_db s y) ∧ (acct X y → acct X (with_db s y)).
Proof.
  intros Hdel Hside Hok. pose proof Hok as ([Hmono Hr Hp Hno Hl Hpart] & Hst & [Hm1 Hm2 Hm3]).
  destruct (delete_block_spec n _ s (proj1 Hok) Hdel) as (Hbs & _ & Estat & Epr & Hcase).
  assert (dd_blocks s ⊆ dd_blocks (y_db y)) as Hsub by (rewrite Hbs; apply delete_subseteq).
  pose proof (monotone_sub _ _ Hsub Hmono). pose proof (in_range_sub _ _ Hsub Hr). destruct Hcase as [(Hw & Hw' & Ea)|(w & w' & D & HL)].
  - split; [|intros (w & E & _); congruence]. split; [split; try done; cbn; try congruence|split; [intros w d E; cbn in E; congruence|split; cbn]].
    + intros _. rewrite Ea, Estat. by apply Hno.
    + intros x Hx. destruct (Hm1 x Hx) as (w & ? & _). congruence.
    + done.
    + intros E. destruct (Hm3 E) as [? ?]. congruence.
  - destruct (lw_wm _ _ _ _ _ _ HL) as (Hw & Hw' & Hww). split; [|exact (lowered_acct y s n w w' D Hok HL Hbs X)].
    split; [split; try done; cbn; try congruence|split; [|split]].
    + intros v E. rewrite Hw' in E. injection E as <-. lia.
    + intros v d p E. rewrite Hw' in E. injection E as <-. by apply (lowered_partials y s n w w' D).
    + intros v d E Ha Hs. cbn in *. rewrite Hw' in E. injection E as <-. apply (lowered_above y s n w w' D Hok HL Hbs); try done.
      destruct (lw_cut _ _ _ _ _ _ HL) as [|[Hle Hn]]; [by right; right|]. destruct (Hside w w' Hw Hle Hn Hw'); [by left|by right; left].
    + intros x Hx. cbn in *. destruct (Hm1 x Hx) as (v & E & Hall). rewrite Hw in E. injection E as <-. exists w'. split; [done|]. intros m Hm.
      destruct (Hall m ltac:(lia)) as [b Hb]. exists b. apply (lowered_stored y s n w w' D HL Hbs); [done|lia].
    + done.
    + intros _. cbn. by eexists.
Qed.

(** The watermark is at most [v]. *)
Definition at_most (v : Z) (y : sys) : Prop := ∃ w, dd_watermark (y_db y) = Some w ∧ w ≤ v.

Lemma env_keeps X y y' : env_step y y' → ok y → ok y' ∧ l_searched (y_late y') = l_searched (y_late y) ∧ (acct X y → acct X y') ∧ ∀ v, at_most v y → at_most v y'.
Proof.
  intros [n b Hn Hm Hr|U U' n ts EU|n s Hd Hs|seen moves backfill|] Hok.
  - destruct (store_keeps y n b X Hn Hm Hr Hok). by split_and!.
  - destruct (note_keeps y U U' n ts X EU Hok). split_and!; try done. cbn. unfold noteBlock. by destruct (match _ with Some _ => _ | None => _ end).
  - destruct (delete_keeps y n s X Hd Hs Hok). split_and!; try done. intros v (w & Hw & Hle).
    destruct (delete_block_spec n _ s (proj1 Hok) Hd) as (_ & _ & _ & _ & [(? & _ & _)|(w1 & w' & D & HL)]); [congruence|].
    destruct (lw_wm _ _ _ _ _ _ HL) as (Hw1 & Hw' & ?). rewrite Hw in Hw1. injection Hw1 as <-. exists w'. split; [done|lia].
  - destruct Hok as ([H1 H2 H3 H4 H5 H6] & H7 & [H8 H9 H10]). (split; [split; [by split|split; [done|by split]]|by split_and!]).
  - destruct Hok as ([H1 H2 H3 H4 H5 H6] & H7 & [H8 H9 H10]). (split; [split; [by split|split; [done|by split]]|by split_and!]).
Qed.
