(* ===== verification/DailyFoldStep.v ===== *)
(** * The statements of the daily fold

    What starting the watermark, a search, a count, its apply and the fold under the
    lock each do to what is accounted for. *)

From S2P Require Import Prelude GoStrings StatsBackfill Tally DailyFold DailyFoldProps DailyFoldEnv.

(** ** A count is applied to what it counted *)

(** Between a count at [y1] and its apply at [y], with the generation unmoved. *)
Record snapped (y1 y : sys) (w : Z) : Prop := {
  sp_wm : dd_watermark (y_db y) = Some w; sp_acc : dd_acc (y_db y) = dd_acc (y_db y1); sp_stats : dd_stats (y_db y) = dd_stats (y_db y1);
  sp_blocks : dd_blocks (y_db y1) ⊆ dd_blocks (y_db y);
  sp_new : ∀ n b, dd_blocks (y_db y) !! n = Some b → dd_blocks (y_db y1) !! n = None → n ≤ w → marked y w (day (sb_ts b));
  sp_marked : ∀ e, marked y1 w e → marked y w e }.
Definition snap (y1 : sys) (w : Z) (y : sys) : Prop :=
  dd_generation (y_db y1) ≤ dd_generation (y_db y) ∧ (dd_generation (y_db y) = dd_generation (y_db y1) → snapped y1 y w).

Lemma snap_refl y w : dd_watermark (y_db y) = Some w → snap y w y.
Proof. intros Hw. split; [done|]. intros _. split; try done. intros n b H1 H2. congruence. Qed.

Lemma env_snap y1 w y y' : env_step y y' → ok y → snap y1 w y → snap y1 w y'.
Proof.
  intros He Hok [Hg Hs]. destruct He as [n b Hn Hm Hr|U U' n ts EU|n s Hd Hside|seen moves backfill|].
  - split; [done|]. intros E. destruct (Hs E) as [H1 H2 H3 H4 H5 H6]. split; try done; cbn.
    + etrans; [exact H4|]. by apply insert_subseteq.
    + intros m c Hc Hm1 Hle. destruct (decide (m = n)) as [->|Hne].
      * rewrite lookup_insert_eq in Hc. injection Hc as <-. by apply marked_new.
      * rewrite lookup_insert_ne in Hc by done. apply marked_store; [done|]. by apply (H5 m).
    + intros e He. apply marked_store; [done|]. by apply H6.
  - split; [done|]. intros E. destruct (Hs E) as [H1 H2 H3 H4 H5 H6]. pose proof (o_range _ (proj1 Hok)). split; try done; cbn.
    + intros m c Hc Hm1 Hle. apply marked_note; [done|done|]. by apply (H5 m).
    + intros e He. apply marked_note; [done|done|]. by apply H6.
  - destruct (delete_block_spec n _ s (proj1 Hok) Hd) as (_ & Eg & _). split; cbn; [lia|]. intros E. lia.
  - split; [done|]. intros E. destruct (Hs E) as [H1 H2 H3 H4 H5 H6]. by split.
  - split; cbn; [lia|]. intros E. lia.
Qed.

Section Folded.
Context (y1 y : sys) (w u : Z) (G : gset Z) (s : daily_db).
Notation bs1 := (dd_blocks (y_db y1)).
Hypothesis (Hok1 : ok y1) (Hok : ok y) (Hsnap : snapped y1 y w) (Hw1 : dd_watermark (y_db y1) = Some w).
Hypothesis (Hu : w ≤ u) (Hrun : ∀ n, w < n ≤ u → is_Some (bs1 !! n)).
Hypothesis (Hbs : dd_blocks s = dd_blocks (y_db y)) (Hwm : dd_watermark s = Some u) (Hpruned : dd_pruned s = dd_pruned (y_db y)).
Hypothesis Hacc : ∀ d, parts (dd_acc s) !! d = if decide (d ∈ G) then truth bs1 u d else parts (dd_acc (y_db y1)) !! d ⊕ sums (λ n, w < n ≤ u) bs1 !! d.
Hypothesis Hstats : ∀ d, is_Some (dd_stats s !! d) → is_Some (dd_acc s !! d) ∨ is_Some (dd_stats (y_db y1) !! d).

Lemma folded_partial d p : parts (dd_acc s) !! d = Some p → ∃ B Pr, partial (dd_blocks s) u d p B Pr.
Proof.
  rewrite Hacc, Hbs. pose proof (sp_blocks _ _ _ Hsnap) as Hsub. enough (∀ o, o = Some p → (o = truth bs1 u d ∨ o = parts (dd_acc (y_db y1)) !! d ⊕ sums (λ n, w < n ≤ u) bs1 !! d) →
    ∃ B Pr, partial bs1 u d p B Pr) as H.
  { intros E. destruct (H _ E) as (B & Pr & ?); [case_decide; auto|]. exists B, Pr. by apply (partial_sub bs1). }
  intros o Eo [->| ->]; [by eexists _, _; apply truth_partial|]. eapply partial_extend; [exact Hu| |exact Eo]. intros q Hq. by apply (o_partial _ (proj1 Hok1) w).
Qed.
(** A day with blocks in the run has an aggregate. *)
Lemma folded_run d n b : w < n ≤ u → bs1 !! n = Some b → day (sb_ts b) = d → is_Some (parts (dd_acc s) !! d).
Proof.
  intros Hn Hb Hd. rewrite Hacc. case_decide; [apply (truth_is_Some bs1 u d n b); [done|lia|done]|].
  assert (is_Some (sums (λ n, w < n ≤ u) bs1 !! d)) as [p ->]; [|by destruct (parts _ !! d); eexists].
  rewrite sums_lookup. apply tsum_Some. intros E. apply (not_elem_of_nil (n, b)). rewrite <-E. apply list_elem_of_filter. split; [done|]. by apply elem_of_map_to_list.
Qed.

Lemma folded_ok : ok (with_db s y).
Proof.
  pose proof Hok as (Hc & _ & [Hm1 Hm2 Hm3]). pose proof Hok1 as (Hc1 & Hst1 & _). destruct Hsnap as [Hw Ea Es Hsub _ _]. split; [split|split; [|split]]; cbn; try congruence.
  - rewrite Hbs. apply Hc.
  - rewrite Hbs. apply Hc.
  - rewrite Hpruned. apply Hc.
  - intros v E. rewrite Hwm in E. injection E as <-. pose proof (o_low _ Hc1 w Hw1). lia.
  - intros v d p E. rewrite Hwm in E. injection E as <-. apply folded_partial.
  - intros v d E Ha Hd. cbn in *. rewrite Hwm in E. injection E as <-. rewrite Hbs.
    assert (dd_acc (y_db y1) !! d = None) as Ha1.
    { destruct (dd_acc (y_db y1) !! d) as [a|] eqn:E1; [|done]. pose proof (Hacc d) as E. rewrite !lookup_fmap, Ha, E1 in E. cbn in E.
      case_decide; [|by destruct (sums _ _ !! d)]. destruct (o_partial _ Hc1 w d (ar_parts a) Hw1) as (B & Pr & [HB _ Hsum]); [by rewrite lookup_fmap, E1|].
      destruct (decide (B = ∅)) as [->|(n & Hn)%set_choose_L]; [done|]. destruct (HB n Hn) as (b & ? & ? & ?).
      destruct (truth_is_Some bs1 u d n b) as [? Ht]; [done|lia|done|]. congruence. }
    destruct (Hstats d Hd) as [[a Hx]|Hd1]; [congruence|]. destruct (Hst1 w d Hw1 Ha1 Hd1) as (v & H1 & H2 & H3). exists v. split_and!; try lia.
    + destruct H2 as [?|(b & ? & ?)]; [by left|right]. exists b. split; [by eapply lookup_weaken|done].
    + intros n Hn. destruct (Z.le_gt_cases n w) as [Hle|Hgt].
      * destruct (H3 n ltac:(lia)) as (b & ? & ?). exists b. split; [by eapply lookup_weaken|done].
      * destruct (Hrun n ltac:(lia)) as [b Hb]. exists b. split; [by eapply lookup_weaken|]. intros Eb.
        destruct (folded_run d n b ltac:(lia) Hb Eb) as [? Hp]. rewrite lookup_fmap, Ha in Hp. done.
  - intros x Hx. destruct (Hm1 x Hx) as (v & E & Hall). rewrite Hw in E. injection E as <-. exists u. split; [done|]. rewrite Hbs. intros n Hn.
    destruct (Z.le_gt_cases n w); [apply Hall; lia|]. destruct (Hrun n ltac:(lia)) as [b Hb]. exists b. by eapply lookup_weaken.
  - done.
  - intros _. by eexists.
Qed.

(** A recounted day's exact; the day after it, when its first block follows, too. *)
Lemma folded_next e n b p : bs1 !! n = Some b → n ≤ w → bs1 !! (n - 1) = Some p → day (sb_ts p) = e → day (sb_ts b) ≠ e → (day_info (y_db y1) u e).2 = Some (day (sb_ts b)).
Proof.
  intros Hb Hle Hp He Hne. pose proof (o_mono _ (proj1 Hok1)) as Hmono. assert ((n - 1, p) ∈ of_day u e bs1) as Hin by (apply elem_of_of_day; split_and!; [done|lia|done]).
  rewrite (day_info_after (y_db y1) u e n (n - 1)).
  - unfold block_day. by rewrite Hb.
  - intros E. rewrite E in Hin. by apply not_elem_of_nil in Hin.
  - intros m c (Hm & _ & Ec)%elem_of_of_day. destruct (Z.le_gt_cases m (n - 1)) as [|Hgt]; [done|].
    pose proof (day_mono _ n m b c Hmono Hb Hm ltac:(lia)). pose proof (day_mono _ (n - 1) n p b Hmono Hp Hb ltac:(lia)). lia.
  - by exists p.
  - lia.
Qed.

Lemma folded_acct (X X' : Z → Prop) :
  (∀ e, X e → X' e ∨ of_day u e bs1 = [] ∨ e ∈ G ∧ ∀ a, (day_info (y_db y1) u e).2 = Some a → a ∈ G) →
  accounted (λ e, marked y1 w e ∨ X e) (y_db y1) w → acct X' (with_db s y).
Proof.
  intros HX HA. destruct Hsnap as [Hw _ _ Hsub Hnew Hmk]. exists u. split; [done|]. cbn [with_db y_db].
  assert (∀ e, marked y w e → marked (with_db s y) u e) as Hmarked.
  { intros e [?|(n & b & H1 & H2 & H3 & H4 & H5)]; [by left|right]. exists n, b. cbn [with_db y_db y_unnoted y_late]. rewrite Hbs. split_and!; try done. lia. }
  assert (∀ d, parts (dd_acc s) !! d = truth bs1 u d → parts (dd_acc s) !! d = truth (dd_blocks s) u d ∨ dirty (λ e, marked (with_db s y) u e ∨ X' e) (dd_blocks s) u d) as Hexact.
  { intros d ->. apply truth_grew; [by rewrite Hbs|]. intros n b Hb Hn Hle. left. rewrite Hbs in Hb. apply Hmarked, (Hnew n); [done|done|].
    destruct (Z.le_gt_cases n w); [done|]. destruct (Hrun n ltac:(lia)) as [? ?]. congruence. }
  intros d. destruct (decide (d ∈ G)) as [Hd|Hd]; [apply Hexact; by rewrite Hacc, decide_True|].
  destruct (HA d) as [E|(n & b & Hb & Hle & Eb & Hc)].
  { apply Hexact. rewrite Hacc, decide_False, E by done. unfold truth. rewrite (sums_split bs1 w u Hu). rewrite lookup_plus. by destruct (sums (λ n, n ≤ w) bs1 !! d), (sums (λ n, w < n ≤ u) bs1 !! d). }
  right. exists n, b. assert (∀ m c, bs1 !! m = Some c → dd_blocks s !! m = Some c) as Hkeep by (intros m c Hm; rewrite Hbs; by eapply lookup_weaken).
  assert (∀ e m c, bs1 !! m = Some c → m ≤ w → day (sb_ts c) = e → of_day u e bs1 ≠ []) as Hne.
  { intros e m c Hm Hlm He E. apply (not_elem_of_nil (m, c)). rewrite <-E. apply elem_of_of_day. split_and!; [done|lia|done]. }
  split_and!; [by apply Hkeep|lia|done|]. destruct Hc as [[Hm|Hx]|(p & Hp & [Hm|Hx])].
  - left. left. by apply Hmarked, Hmk.
  - destruct (HX d Hx) as [?|[?|[? _]]]; [by left; right|by destruct (Hne d n b)|done].
  - right. exists p. split; [by apply Hkeep|]. left. by apply Hmarked, Hmk.
  - destruct (HX _ Hx) as [?|[?|[HG Hnext]]]; [right; exists p; split; [by apply Hkeep|by right]|by destruct (Hne (day (sb_ts p)) (n - 1) p Hp ltac:(lia))|].
    exfalso. apply Hd. subst d. destruct (decide (day (sb_ts b) = day (sb_ts p))) as [->|Hdiff]; [done|]. apply Hnext. by apply (folded_next _ n b p).
Qed.
End Folded.

(** ** What each statement does *)

(** A row is of some block. *)
Lemma partial_nonempty bs w d p B Pr : partial bs w d p B Pr → is_Some (truth bs w d).
Proof.
  intros [HB _ Hs]. destruct (decide (B = ∅)) as [->|(n & Hn)%set_choose_L]; [done|]. destruct (HB n Hn) as (b & ? & ? & ?). by apply (truth_is_Some bs w d n b).
Qed.

Lemma search_finds y days w : ok y → searchLateDays (y_db y) = (days, true) → dd_watermark (y_db y) = Some w → accounted (λ e, e ∈ days) (y_db y) w.
Proof.
  intros ([Hmono Hr _ _ _ Hpart] & Hst & _). unfold searchLateDays. intros E Hw. rewrite Hw in E. injection E as <-. intros d.
  destruct (truth (dd_blocks (y_db y)) w d) as [t|] eqn:Et.
  - destruct (truth_has _ _ _ _ Et) as (n & b & Hb & Hle & Hd). destruct (uncounted (y_db y) w d) eqn:Eu.
    { right. exists n, b. split_and!; try done. left. apply list_elem_of_filter. split; [done|]. apply elem_of_remove_dups, list_elem_of_fmap. exists (n, b). split; [done|].
      apply list_elem_of_filter. split; [done|]. by apply elem_of_map_to_list. }
    left. revert Eu. unfold uncounted. rewrite lookup_fmap. destruct (dd_acc (y_db y) !! d) as [a|] eqn:Ea.
    + intros [E1 E2]%orb_false_iff. apply negb_false_iff, Z.eqb_eq in E1, E2. destruct (Hpart w d (ar_parts a) Hw) as (B & Pr & HB); [by rewrite lookup_fmap, Ea|].
      rewrite <-Et. symmetry. by apply (partial_full _ _ _ _ B Pr).
    + destruct (dd_stats (y_db y) !! d) as [r|] eqn:Es; [|done]. intros _. exfalso. destruct (Hst w d Hw Ea) as (v & H1 & H2 & H3); [by rewrite Es; eexists|].
      destruct (Z.le_gt_cases n v) as [Hv|Hv].
      * destruct (Hr _ _ Hb) as [[? _] _]. destruct H2 as [?|(c & Hc & ?)]; [lia|]. pose proof (day_mono _ n v b c Hmono Hb Hc Hv). lia.
      * destruct (H3 n ltac:(lia)) as (c & ? & ?). congruence.
  - left. destruct (parts (dd_acc (y_db y)) !! d) as [p|] eqn:Ep; [|done]. destruct (Hpart w d p Hw Ep) as (B & Pr & HB). destruct (partial_nonempty _ _ _ _ _ _ HB) as [? ?]. congruence.
Qed.

Lemma start_keeps y : ok y → ok (with_db (start_watermark (y_db y)).1 y) ∧ (∀ X, acct X y → acct X (with_db (start_watermark (y_db y)).1 y)) ∧
  ((start_watermark (y_db y)).2 = true → is_Some (dd_watermark (start_watermark (y_db y)).1)).
Proof.
  intros Hok. assert (with_db (y_db y) y = y) as Ey by by destruct y. unfold start_watermark. destruct (dd_watermark (y_db y)) as [w|] eqn:Hw; cbn [fst snd].
  { rewrite Ey. by split_and!. }
  destruct (_ ≫= _) as [newest|]; cbn [fst snd]; [|rewrite Ey; by split_and!]. pose proof (minl_spec (filter (λ nb, newest * 86400 ≤ sb_ts nb.2) (map_to_list (dd_blocks (y_db y)))).*1) as Hm.
  destruct (min_list _) as [first|]; cbn [fst snd]; [|rewrite Ey; by split_and!]. destruct (_ || _); cbn [fst snd]; [|rewrite Ey; by split_and!].
  destruct Hm as [([m b] & -> & [_ Hb%elem_of_map_to_list]%list_elem_of_filter)%list_elem_of_fmap _]. cbn [fst] in *.
  pose proof Hok as ([Hmono Hr Hp Hno Hl Hpart] & Hst & [Hm1 Hm2 Hm3]). destruct (Hno Hw) as [Ea Es]. destruct (Hr _ _ Hb) as [[? _] _]. split_and!; [|intros X (w & ? & _); congruence|by eexists].
  split; [split; try done; cbn|split; [|split; cbn; [|done|by eexists]]].
  - intros w [= <-]. lia.
  - intros w d p _ E. by rewrite Ea in E.
  - intros w d _ _ Hs. cbn in Hs. rewrite Es in Hs. by destruct Hs.
  - intros x Hx. destruct (Hm1 x Hx) as (w & ? & _). congruence.
Qed.

(** An accepted apply leaves to recount what the count left. *)
Lemma apply_keeps limit days c y1 y s : ok y1 → ok y → countFold limit days (y_db y1) = Some c → snap y1 (sn_watermark (fc_snapshot c)) y → fold_apply c (y_db y) = (s, true) →
  ok (with_db s y) ∧ at_most (fc_upto c) (with_db s y) ∧ (∀ d, d ∈ fc_later c ++ fc_pending c → d ∈ days) ∧
  ∀ X X' : Z → Prop, (∀ e, X e → X' e ∨ e ∈ days) → (∀ e, e ∈ fc_later c ++ fc_pending c → X' e) →
    accounted (λ e, marked y1 (sn_watermark (fc_snapshot c)) e ∨ X e) (y_db y1) (sn_watermark (fc_snapshot c)) → acct X' (with_db s y).
Proof.
  intros Hok1 Hok Hc [_ Hsnap]. destruct (countFold_spec limit days (y_db y1) c (o_pruned _ (proj1 Hok1)) Hc) as (w & G & Hw1 & [[Ew Eg] [Hu Hrun] Hrc Hacc Hst]). rewrite Ew in Hsnap |- *.
  unfold fold_apply. case_bool_decide as Hd; [|done]. destruct Hd as (Hw & Eg' & _). rewrite Ew in Hw. specialize (Hsnap ltac:(congruence)). intros E. injection E as <-.
  match goal with |- context [with_db ?s _] => set (s' := s) end.
  assert (∀ d, parts (dd_acc s') !! d = if decide (d ∈ G) then truth (dd_blocks (y_db y1)) (fc_upto c) d
    else parts (dd_acc (y_db y1)) !! d ⊕ sums (λ n, w < n ≤ fc_upto c) (dd_blocks (y_db y1)) !! d) as Hacc'.
  { intros d. cbn [s' set_days dd_acc]. rewrite map_fmap_union, lookup_union, Hacc, (sp_acc _ _ _ Hsnap), lookup_plus.
    set (a := parts (dd_acc (y_db y1)) !! d). set (z := sums (λ n, w < n ≤ fc_upto c) (dd_blocks (y_db y1)) !! d).
    case_decide; [|by destruct a, z]. destruct (truth _ _ d) as [t|] eqn:Et; [by destruct a|]. unfold truth in Et. rewrite (sums_split _ w) in Et by done. rewrite lookup_plus in Et.
    fold z in Et. assert (a = None) as ->; [|by destruct (sums (λ n, n ≤ w) _ !! d), z]. destruct a as [p|] eqn:Ea; [|done].
    destruct (o_partial _ (proj1 Hok1) w d p Hw1 Ea) as (B & Pr & HB). destruct (partial_nonempty _ _ _ _ _ _ HB) as [t Ht]. unfold truth in Ht. rewrite Ht in Et. by destruct z. }
  assert (∀ d, is_Some (dd_stats s' !! d) → is_Some (dd_acc s' !! d) ∨ is_Some (dd_stats (y_db y1) !! d)) as Hstats.
  { intros d. cbn [s' set_days dd_acc dd_stats]. rewrite (sp_stats _ _ _ Hsnap). intros [?|?]%lookup_union_is_Some; [left|by right].
    apply lookup_union_is_Some. left. apply elem_of_dom, Hst, elem_of_dom. done. }
  assert (∀ d, d ∈ fc_later c ++ fc_pending c → d ∈ days) as Hin by (intros d [?%(rs_later _ _ _ _ _ Hrc)|?%(rs_pending _ _ _ _ _ Hrc)]%elem_of_app; done).
  split_and!; [|by eexists|done|].
  - by apply (folded_ok y1 y w (fc_upto c) G s').
  - intros X X' HX HX'. apply (folded_acct y1 y w (fc_upto c) G s' Hok1 Hsnap Hu Hrun eq_refl eq_refl Hacc'). intros e He. destruct (HX e He) as [?|Hdays]; [by left|].
    destruct (rs_days _ _ _ _ _ Hrc e Hdays) as [?|[?|[?|?]]]; [left; apply HX'; set_solver|left; apply HX'; set_solver|tauto|tauto].
Qed.

(** A count that has nothing to apply leaves only the days that miss blocks. *)
Lemma count_idle limit days c y : ok y → countFold limit days (y_db y) = Some c → fc_upto c = sn_watermark (fc_snapshot c) → fc_recounted c = false →
  at_most (fc_upto c) y ∧ (∀ d, d ∈ fc_pending c → d ∈ days) ∧
  ∀ X X' : Z → Prop, (∀ e, X e → X' e ∨ e ∈ days) → (∀ e, e ∈ fc_pending c → X' e) → acct X y → acct X' y.
Proof.
  intros Hok Hc Eu Er. destruct (countFold_spec limit days (y_db y) c (o_pruned _ (proj1 Hok)) Hc) as (w & G & Hw & [[Ew _] _ Hrc _ _]). rewrite Ew in Eu.
  rewrite Eu, Er in *. destruct (rs_none _ _ _ _ _ Hrc eq_refl) as [El EG]. cbn in El. split_and!; [by exists w|exact (rs_pending _ _ _ _ _ Hrc)|].
  intros X X' HX HX' (w' & Hw' & HA). rewrite Hw in Hw'. injection Hw' as <-. assert (y = with_db (y_db y) y) as -> by by destruct y.
  apply (folded_acct y y w w ∅ (y_db y) Hok) with (X := X); try done.
  - by apply snap_refl.
  - intros; lia.
  - intros d. rewrite decide_False by set_solver. rewrite sums_empty_range. by destruct (parts _ !! d).
  - intros e He. destruct (HX e He) as [?|Hd]; [by left|]. destruct (rs_days _ _ _ _ _ Hrc e Hd) as [?|[?|[?|[? _]]]]; cbn in *.
    + rewrite El in *. by destruct (not_elem_of_nil e).
    + left. by apply HX'.
    + tauto.
    + subst G. set_solver.
Qed.

Lemma locked_keeps limit y : ok y → ok (with_db (lockedFold limit (y_db y)).1 y) ∧ (∀ X, acct X y → acct X (with_db (lockedFold limit (y_db y)).1 y)) ∧
  ∀ u, (lockedFold limit (y_db y)).2 = Some u → at_most u (with_db (lockedFold limit (y_db y)).1 y).
Proof.
  intros Hok. assert (with_db (y_db y) y = y) as Ey by by destruct y. unfold lockedFold. destruct (dd_watermark (y_db y)) as [w|] eqn:Hw; cbn [fst snd]; [|rewrite Ey; by split_and!].
  destruct (run_to_spec (Z.to_nat limit) (dd_blocks (y_db y)) w) as [[Hu _] Hrun]. set (u := run_to _ _ _) in *. assert (snapped y y w) as Hsnap by by apply snap_refl.
  assert (∀ s, dd_blocks s = dd_blocks (y_db y) → dd_watermark s = Some u → dd_pruned s = dd_pruned (y_db y) →
    parts (dd_acc s) = parts (dd_acc (y_db y)) ⊕ sums (λ n, w < n ≤ u) (dd_blocks (y_db y)) →
    (∀ d, is_Some (dd_stats s !! d) → is_Some (dd_acc s !! d) ∨ is_Some (dd_stats (y_db y) !! d)) → ok (with_db s y) ∧ (∀ X, acct X y → acct X (with_db s y))) as Hstep.
  { intros s E1 E2 E3 E4 E5. assert (∃ G : gset Z, G = ∅) as [G EG] by by eexists. assert (∀ d, parts (dd_acc s) !! d = if decide (d ∈ G) then truth (dd_blocks (y_db y)) u d
      else parts (dd_acc (y_db y)) !! d ⊕ sums (λ n, w < n ≤ u) (dd_blocks (y_db y)) !! d) as Hacc.
    { intros d. rewrite E4, lookup_plus, decide_False by set_solver. by destruct (parts _ !! d), (sums _ _ !! d). }
    split; [by apply (folded_ok y y w u G s)|]. intros X (w' & Hw' & HA). rewrite Hw in Hw'. injection Hw' as <-.
    apply (folded_acct y y w u G s Hok Hsnap Hu Hrun E1 E2 Hacc X); [by left|done]. }
  destruct (Z.ltb_spec w u) as [Hlt|Hge].
  - set (f := stageAdvance w u (y_db y) (mkStaged (dd_acc (y_db y)) ∅ ∅ ∅ (dd_stats (y_db y)))).
    assert (dom (fs_stats f) ⊆ dom (fs_acc f) ∪ dom (dd_stats (y_db y))) as Hdom by (apply dom_stageAdvance; cbn; set_solver).
    match goal with |- context [let '(acc, stats) := ?m in _] => set (r := m) end.
    assert (parts r.1 = parts (dd_acc (y_db y)) ⊕ sums (λ n, w < n ≤ u) (dd_blocks (y_db y)) ∧ dom r.2 ⊆ dom r.1 ∪ dom (dd_stats (y_db y))) as [Hr1 Hr2].
    { unfold r. destruct (firstOfSeveralDays _ _ _) as [d0|]; [|split; [apply parts_stageAdvance|done]]. rewrite parts_rewriteFrom. split; [apply parts_stageAdvance|by apply dom_rewriteFrom]. }
    destruct r as [acc stats]. cbn [fst snd] in *. destruct (Hstep (set_days (Some u) (dd_generation (y_db y) + 1) acc (kept_sets ((λ d, d - 1) <$> block_day u (y_db y))
      (dd_active (y_db y) ⊕ fs_active f)) stats (y_db y))); try done.
    { intros d Hd%elem_of_dom%Hr2%elem_of_union. by rewrite !elem_of_dom in Hd. }
    split_and!; try done. intros v [= <-]. by exists u.
  - assert (u = w) as Eu by lia. cbn [fst snd]. destruct (Hstep (set_days (Some w) (dd_generation (y_db y) + 1) (dd_acc (y_db y)) (dd_active (y_db y)) (dd_stats (y_db y)) (y_db y))); try done.
    + by rewrite Eu.
    + cbn [set_days dd_acc dd_blocks]. by rewrite Eu, sums_empty_range, plus_empty_r.
    + by right.
    + split_and!; try done. intros v [= <-]. by exists w.
Qed.
