(* ===== verification/DailyFoldRun.v ===== *)
(** * Runs of the daily fold

    Folds, block writes, reverts and restarts in any order: every day is what its
    stored blocks make it, or the process knows it is to be recounted. *)

From S2P Require Import Prelude GoStrings StatsBackfill Tally DailyFold DailyFoldProps DailyFoldEnv DailyFoldStep Session.

(** ** Assertions the others keep *)

Notation stable := (stable env_step).
Definition guarded (R : sys → Prop) : Prop := ∀ y y', env_step y y' → ok y → R y → R y'.

(** [b]: whether the process has searched; [q]: whether the days are accounted for, with
    those of [X] to be recounted. *)
Definition hold (b q : bool) (X : Z → Prop) (y : sys) : Prop := ok y ∧ l_searched (y_late y) = b ∧ (q = true → acct X y).

Lemma stable_hold b q X R : guarded R → stable (λ y, hold b q X y ∧ R y).
Proof. intros HR y y' He [(H1 & H2 & H3) H4]. destruct (env_keeps X y y' He H1) as (? & ? & ? & _). split; [split_and!; [done|congruence|auto]|by apply (HR y)]. Qed.
Lemma guarded_True : guarded (λ _, True).
Proof. done. Qed.
Lemma guarded_at_most v : guarded (at_most v).
Proof. intros y y' He Hok. by apply (env_keeps (λ _, False) y y' He Hok). Qed.
Lemma guarded_snap y1 w : guarded (snap y1 w).
Proof. intros y y' He Hok. by apply env_snap. Qed.
Lemma guarded_and R R' : guarded R → guarded R' → guarded (λ y, R y ∧ R' y).
Proof. intros H1 H2 y y' He Hok [? ?]. split; [by apply (H1 y)|by apply (H2 y)]. Qed.
Lemma guarded_pure (P : Prop) : guarded (λ _, P).
Proof. intros y y' _ _ HP. exact HP. Qed.
Create HintDb fold.
#[export] Hint Resolve stable_hold guarded_True guarded_at_most guarded_snap guarded_and guarded_pure : fold.

Lemma acct_mono (X X' : Z → Prop) y : (∀ e, X e → X' e) → acct X y → acct X' y.
Proof.
  intros HX (w & Hw & HA). exists w. split; [done|]. intros d. destruct (HA d) as [?|Hd]; [by left|right]. eapply dirty_mono; [|done|done|exact Hd]. intros e [?|?]; auto.
Qed.
Lemma hold_mono b q (X X' : Z → Prop) y : (∀ e, X e → X' e) → hold b q X y → hold b q X' y.
Proof. intros HX (? & ? & H). split_and!; try done. intros Hq. by eapply acct_mono, H. Qed.

(** Taking the noted days leaves them with the caller; giving days back notes them. *)
Lemma acct_relate (X X' : Z → Prop) y y' : y_db y' = y_db y → (∀ w, dd_watermark (y_db y) = Some w → ∀ e, marked y w e ∨ X e → marked y' w e ∨ X' e) → acct X y → acct X' y'.
Proof.
  intros Ed HX (w & Hw & HA). exists w. rewrite Ed. split; [done|]. intros d. destruct (HA d) as [?|Hd]; [by left|right]. eapply dirty_mono; [|done|done|exact Hd]. by apply HX.
Qed.
Lemma ok_late y l : ok y → (∀ x, l_watermark l = Some x → at_most x y ∨ l_watermark (y_late y) = Some x) → (l_searched l = true → is_Some (dd_watermark (y_db y))) → ok (on_late (λ _, l) y).
Proof.
  intros (Hc & Hst & [Hm1 Hm2 Hm3]) Hw Hs. split_and!; [done|done|]. split; cbn; [|done|done]. intros x Hx. destruct (Hw x Hx) as [(w & ? & ?)|?]; [|by apply Hm1].
  exists w. split; [done|]. intros n Hn. lia.
Qed.

Lemma hold_stalls b q X k y : hold b q X y → hold b q X (set_stalls k y).
Proof. intros ((Hc & Hs & [Hm1 Hm2 Hm3]) & Hb & Hq). split_and!; try done. Qed.

Section Specs.
Context (env : nat → sys → sys) (out : nat → stmt_end) (maxBlocks : Z).
Hypothesis Henv : ∀ k y, rtc env_step y (env k y).

Notation spec_stmt := (spec_stmt env out env_step Henv).
Notation spec_mem := (spec_mem env env_step Henv).

(** ** The loop of the fold *)

Section Loop.
Context (b q : bool) (all : list Z).
Notation E := (hold b q (λ e, e ∈ all)).
Notation held days := (hold b q (λ e, e ∈ days)).

Definition counted (days pend : list Z) (r : foldCount + option foldCount * bool) (y : sys) : Prop :=
  match r with
  | inl c => held (pend ++ fc_pending c) y ∧ at_most (fc_upto c) y ∧ pend ++ fc_pending c ⊆ all
  | inr (Some c, true) => held (fc_later c ++ pend ++ fc_pending c) y ∧ at_most (fc_upto c) y ∧ fc_later c ++ pend ++ fc_pending c ⊆ all
  | inr (Some c, false) => held (days ++ pend) y ∧ at_most (sn_watermark (fc_snapshot c)) y
  | inr (None, _) => held (days ++ pend) y
  end.

Lemma held_all days y : days ⊆ all → held days y → E y.
Proof. intros Hs. apply hold_mono. intros e. apply Hs. Qed.

Lemma apply_spec c y1 days pend : ok y1 → countFold (limit maxBlocks) days (y_db y1) = Some c → (q = true → acct (λ e, e ∈ days ++ pend) y1) → days ++ pend ⊆ all →
  spec (λ y, held (days ++ pend) y ∧ snap y1 (sn_watermark (fc_snapshot c)) y ∧ at_most (sn_watermark (fc_snapshot c)) y) (apply env out c)
    (λ r y, if r then counted days pend (inr (Some c, true)) y else counted days pend (inr (Some c, false)) y) E.
Proof.
  intros Hok1 Hc HA Hall. apply spec_stmt; [auto with fold|]. intros y (Hh & Hs & Hm). pose proof Hh as (Hok & Hb & Hq). split; [by apply (held_all (days ++ pend))|].
  destruct (fold_apply c (y_db y)) as [s [|]] eqn:Ea; cbn [fst snd].
  - destruct (apply_keeps _ days c y1 y s Hok1 Hok Hc Hs Ea) as (H1 & H2 & H3 & H4).
    assert (fc_later c ++ pend ++ fc_pending c ⊆ all) as Hsub by set_solver.
    assert (held (fc_later c ++ pend ++ fc_pending c) (with_db s y)) as Hh'.
    { split_and!; [done|done|]. intros Eq. destruct (countFold_spec _ days (y_db y1) c (o_pruned _ (proj1 Hok1)) Hc) as (w & G & Hw1 & [[Ew _] _ _ _ _]). rewrite Ew in H4.
      destruct (HA Eq) as (w' & Hw' & HA1). rewrite Hw1 in Hw'. injection Hw' as <-. apply (H4 (λ e, e ∈ days ++ pend)); [|set_solver|done]. set_solver. }
    split; [by apply (held_all (fc_later c ++ pend ++ fc_pending c))|]. intros a [= <-]. split_and!; done.
  - assert (on_db (λ _, s) y = y) as ->.
    { unfold fold_apply in Ea. case_bool_decide; [done|]. injection Ea as <-. by destruct y. }
    split; [by apply (held_all (days ++ pend))|]. intros a [= <-]. done.
Qed.

Lemma count_apply_spec tries days pend last : days ++ pend ⊆ all →
  spec (λ y, held (days ++ pend) y ∧ ∀ c, last = Some c → at_most (sn_watermark (fc_snapshot c)) y) (count_apply env out maxBlocks tries days last) (counted days pend) E.
Proof.
  intros Hall. revert last. induction tries as [|tries IH]; intros last; cbn [count_apply].
  { apply spec_ret. intros y [Hh Hl]. destruct last as [c|]; [split; [done|by apply Hl]|done]. }
  eapply spec_bind with (R := λ c y, ∃ y1, ok y1 ∧ countFold (limit maxBlocks) days (y_db y1) = Some c ∧ (q = true → acct (λ e, e ∈ days ++ pend) y1) ∧ 
    held (days ++ pend) y ∧ snap y1 (sn_watermark (fc_snapshot c)) y ∧ at_most (sn_watermark (fc_snapshot c)) y ∧
    (fc_upto c = sn_watermark (fc_snapshot c) → fc_recounted c = false → counted days pend (inl c) y)).
  - unfold query. apply (spec_pre _ (λ y, held (days ++ pend) y ∧ True)); [tauto|]. apply spec_stmt; [auto with fold|]. cbn [fst snd]. intros y [Hh _].
    pose proof (held_all _ _ Hall Hh). split_and!; [done|done|]. intros c Hc. destruct Hh as (Hok & Hb & Hq). exists y.
    destruct (countFold_spec _ days (y_db y) c (o_pruned _ (proj1 Hok)) Hc) as (w & G & Hw & [[Ew _] _ _ _ _]). rewrite Ew.
    split_and!; try done; [by apply snap_refl|by exists w|]. intros Eu Er. rewrite <-Ew in Eu. destruct (count_idle _ days c y Hok Hc Eu Er) as (H1 & H2 & H3).
    split_and!; try done; [|set_solver]. split_and!; try done. intros Eq. apply (H3 (λ e, e ∈ days ++ pend)); [set_solver|set_solver|auto].
  - intros c. destruct ((fc_upto c =? sn_watermark (fc_snapshot c)) && negb (fc_recounted c)) eqn:Ec.
    + apply andb_true_iff in Ec as [Eu%Z.eqb_eq Er%negb_true_iff]. apply spec_ret. intros y (y1 & _ & _ & _ & _ & _ & _ & H). by apply H.
    + intros k y (y1 & Hok1 & Hc & HA & Hh & Hs & Hm & _). eapply (spec_bind _ _ _ _ _ _ (apply_spec c y1 days pend Hok1 Hc HA Hall)); [|done].
      intros [|]; [by apply spec_ret|]. eapply spec_pre, IH. intros z [? ?]. split; [done|]. by intros ? [= <-].
Qed.

(** The answer of a fold: through which block, with what left over. *)
Definition folded (r : option Z * list Z * bool) (y : sys) : Prop :=
  match r with
  | (Some w, pend, fin) => at_most w y ∧ held (if fin then pend else all) y
  | (None, _, _) => E y
  end.

Lemma fold_loop_spec fuel days pend : days ++ pend ⊆ all → spec (held (days ++ pend)) (fold_loop env out maxBlocks fuel days pend) folded E.
Proof.
  revert days pend. induction fuel as [|fuel IH]; intros days pend Hall; cbn [fold_loop]; [apply spec_fail; intros y; by apply held_all|].
  eapply spec_bind; [eapply spec_pre, count_apply_spec; [|exact Hall]; by intros y Hy; split|]. intros [c|[[c|] [|]]]; unfold counted.
  - apply spec_ret. intros y (? & ? & _). done.
  - apply (spec_bind _ _ _ (λ _ y, held (fc_later c ++ pend ++ fc_pending c) y ∧ at_most (fc_upto c) y ∧ fc_later c ++ pend ++ fc_pending c ⊆ all)).
    { apply spec_mem; [auto with fold|]. intros y (? & ? & ?). split_and!; [by apply hold_stalls|done|done]. }
    intros []. case_match eqn:Ec.
    + apply andb_true_iff in Ec as [_ Ec%bool_decide_eq_true]. apply spec_ret. rewrite Ec. by intros y (? & ? & _).
    + intros k y (Hh & _ & Hs). by apply IH.
  - apply (spec_bind _ _ _ (λ _ y, held (days ++ pend) y ∧ at_most (sn_watermark (fc_snapshot c)) y)).
    { apply spec_mem; [auto with fold|]. intros y (? & ?). split; [by apply hold_stalls|done]. }
    intros stalls. case_match; [apply spec_ret; intros y [? ?]; split; [done|by apply (held_all (days ++ pend))]|].
    apply (spec_bind _ _ _ (λ _ y, held (days ++ pend) y ∧ True)).
    { apply spec_mem; [auto with fold|]. intros y (? & ?). split; [by apply hold_stalls|done]. }
    intros []. apply (spec_bind _ _ _ (λ u y, match u with Some u => at_most u y | None => True end ∧ E y)).
    + apply spec_stmt; [auto with fold|]. intros y [Hh _]. pose proof (held_all _ _ Hall Hh) as HE. pose proof HE as (Hok & Hb & Hq). split; [done|].
      destruct (locked_keeps (limit maxBlocks) y Hok) as (H1 & H2 & H3). destruct (lockedFold (limit maxBlocks) (y_db y)) as [s u]. cbn [fst snd] in *.
      assert (E (on_db (λ _, s) y)) by (split_and!; [done|done|intros ?; by apply H2, Hq]). split; [done|]. intros a [= <-]. split; [|done]. destruct u; [by apply H3|done].
    + intros u. apply spec_ret. intros y [? ?]. by destruct u.
  - apply spec_fail. intros y. by apply held_all.
  - apply spec_fail. intros y. by apply held_all.
Qed.

Lemma fold_spec fuel : spec E (fold env out maxBlocks fuel all) folded E.
Proof.
  unfold fold. apply (spec_bind _ _ _ (λ _, E)).
  - apply (spec_pre _ (λ y, E y ∧ True)); [done|]. apply spec_stmt; [auto with fold|]. intros y [HE _]. pose proof HE as (Hok & Hb & Hq). split; [done|].
    destruct (start_keeps y Hok) as (H1 & H2 & _). destruct (start_watermark (y_db y)) as [s started]. cbn [fst snd] in *.
    assert (E (on_db (λ _, s) y)) by (split_and!; [done|done|intros ?; by apply H2, Hq]). split; [done|]. by intros a [= <-].
  - intros [|]; cbn [negb]; [|by apply spec_ret]. eapply spec_pre, fold_loop_spec; rewrite app_nil_r; done.
Qed.
End Loop.

(** ** A call *)

Definition settled (y : sys) : Prop := ok y ∧ (l_searched (y_late y) = true → acct (λ _, False) y).

Lemma take_settled y : settled y → let '(l, (days, search)) := take_days (y_late y) in hold (negb search) (negb search) (λ e, e ∈ days) (on_late (λ _, l) y).
Proof.
  intros [Hok Hq]. cbn. rewrite negb_involutive. split_and!; [|done|].
  - apply ok_late; cbn; [done|by right|]. apply Hok.
  - intros Es. eapply acct_relate; [| |by apply Hq]; [done|]. intros w _ e [[?|?]|?]; [right; by apply elem_of_elements|left; by right|done].
Qed.
Lemma give_holds b q (days : list Z) (search : bool) y : hold b q (λ e, e ∈ days) y → hold (if search then false else b) q (λ _, False) (on_late (giveBack days search) y).
Proof.
  intros (Hok & Hb & Hq). split_and!; [|by rewrite <-Hb|].
  - apply (ok_late y (giveBack days search (y_late y))); cbn; [done|by right|]. destruct search; [done|]. apply Hok.
  - intros Eq. eapply acct_relate; [| |by apply Hq]; [done|]. intros w _ e [[?|?]|?]; left; [left; cbn; set_solver|by right|left; cbn; set_solver].
Qed.
Lemma advanced_holds b q v (searched : bool) y : hold b q (λ _, False) y → at_most v y → (searched = true → q = true) →
  hold (if searched then true else b) q (λ _, False) (on_late (advanced v searched) y).
Proof.
  intros (Hok & Hb & Hq) Hv Hs. split_and!; [|by rewrite <-Hb|].
  - apply (ok_late y (advanced v searched (y_late y))); cbn; [done|left; congruence|]. destruct Hv as (w & -> & _). by eexists.
  - intros Eq. eapply acct_relate; [| |by apply Hq]; [done|]. intros w Hw e [[?|(n & c & H1 & H2 & H3 & H4 & H5)]|?]; left; [by left| |done]. right. exists n, c. split_and!; try done.
    cbn. intros x [= <-]. destruct Hv as (w' & Hw' & ?). rewrite Hw in Hw'. injection Hw' as <-. lia.
Qed.
Lemma hold_settled b q y : (b = true → q = true) → hold b q (λ _, False) y → settled y.
Proof. intros Hbq (? & Hb & Hq). split; [done|]. intros E. apply Hq, Hbq. congruence. Qed.

Lemma give_settled b q (days : list Z) (search : bool) R : (b = true → q = true) → guarded R →
  spec (λ y, hold b q (λ e, e ∈ days) y ∧ R y) (mem env (λ y, (on_late (giveBack days search) y, tt))) (λ _, settled) settled.
Proof.
  intros Hbq HR. apply spec_mem; [auto with fold|]. intros y [Hh _]. eapply hold_settled, give_holds, Hh. by destruct search.
Qed.

Lemma search_spec b (days : list Z) (search : bool) : search = negb b →
  spec (hold b b (λ e, e ∈ days)) (if search then on_error (bind (query env out (λ s, Some (searchLateDays s))) (λ '(found, done), ret (days ++ found, done)))
    (mem env (λ y, (on_late (giveBack days true) y, tt))) else ret (days, false))
    (λ '(days, searched) y, hold b (b || searched) (λ e, e ∈ days) y ∧ (searched = true → search = true)) settled.
Proof.
  intros ->. destruct b; cbn [negb orb]; [apply spec_ret; by intros y Hy|].
  eapply spec_on_error; [|apply (give_settled false false days true (λ _, True)); [done|apply guarded_True]].
  apply (spec_bind _ _ _ (λ r y, hold false r.2 (λ e, e ∈ days ++ r.1) y)); [|intros [found fin]; apply spec_ret; by intros y Hy].
  unfold query. apply (spec_pre _ (λ y, hold false false (λ e, e ∈ days) y ∧ True)); [done|]. apply spec_stmt; [auto with fold|]. cbn [fst snd]. intros y Hy.
  refine (conj Hy (conj Hy _)). intros r [= <-]. destruct Hy as [(Hok & Hb & _) _]. split_and!; try done. intros Es. destruct (searchLateDays (y_db y)) as [found fin] eqn:E. cbn [fst snd] in *.
  subst fin. destruct (dd_watermark (y_db y)) as [w|] eqn:Hw; [|unfold searchLateDays in E; by rewrite Hw in E]. exists w. split; [done|]. intros d.
  destruct (search_finds y found w Hok E Hw d) as [?|Hd]; [by left|right]. eapply dirty_mono; [|done|done|exact Hd]. cbn. set_solver.
Qed.

Lemma advance_spec fuel : spec settled (AdvanceDailyStats env out maxBlocks fuel) (λ _, settled) settled.
Proof.
  intros k0 y0 Hs0. revert k0 y0 Hs0. enough (∀ b, spec (hold b b (λ _, False)) (AdvanceDailyStats env out maxBlocks fuel) (λ _, settled) settled) as H.
  { intros k y [Hok Hq]. apply (H (l_searched (y_late y)) k y). by split_and!. }
  intros b. unfold AdvanceDailyStats. apply (spec_bind _ _ _ (λ r y, r.2 = negb b ∧ hold b b (λ e, e ∈ r.1) y)).
  { apply (spec_pre _ (λ y, hold b b (λ _, False) y ∧ True)); [done|]. apply spec_mem; [auto with fold|]. intros y [Hh _]. pose proof (take_settled y (hold_settled _ _ _ id Hh)) as Ht.
    destruct Hh as (_ & Hb & _). cbn in *. rewrite Hb in *. by rewrite negb_involutive in Ht. }
  intros [days search] k y [Es Hy]. cbn [fst snd] in Es, Hy. revert k y Hy. eapply spec_bind; [by apply search_spec|]. intros [days1 searched].
  set (q := b || searched). assert (b = true → q = true) as Hbq by (unfold q; by intros ->).
  eapply spec_bind with (R := λ r y, folded b q days1 r y ∧ (searched = true → search = true)).
  { intros k y [Hh Hse]. pose proof (spec_on_error _ _ (mem env (λ y, (on_late (giveBack days1 search) y, tt))) _ settled _ (fold_spec b q days1 fuel)
      (spec_pre (hold b q (λ e, e ∈ days1)) (λ y, hold b q (λ e, e ∈ days1) y ∧ True) _ _ _ (λ y Hy, conj Hy I) (give_settled b q days1 search (λ _, True) Hbq guarded_True)) k y Hh) as Hf.
    destruct (on_error _ _ k y) as [[k' y'] [r|]]; [by split|done]. }
  intros [[[w|] pending] fin]; cbn [folded].
  - apply (spec_bind _ _ _ (λ _ y, hold b q (λ _, False) y ∧ at_most w y)).
    + assert (∀ (days : list Z) (back : bool), (back = true → b = false) → spec (λ y, (at_most w y ∧ hold b q (λ e, e ∈ days) y) ∧ (searched = true → search = true))
        (mem env (λ y, (on_late (giveBack days back) y, tt))) (λ _ y, hold b q (λ _, False) y ∧ at_most w y) settled) as Hgive.
      { intros l back Hback. apply (spec_pre _ (λ y, hold b q (λ e, e ∈ l) y ∧ at_most w y)); [tauto|]. apply spec_mem; [auto with fold|]. intros y [Hh Hw]. split; [|done].
        pose proof (give_holds b q l back y Hh) as Hg. destruct back; [|exact Hg]. rewrite (Hback eq_refl). exact Hg. }
      destruct fin; apply Hgive; subst search; [|by intros ->%negb_true_iff]. by intros [->%negb_true_iff _]%andb_true_iff.
    + intros []. apply (spec_bind _ _ _ (λ _, settled)); [|intros []; by apply spec_ret]. apply spec_mem; [auto with fold|]. intros y [Hh Hw]. cbn [fst snd].
      eapply hold_settled, (advanced_holds _ q w (searched && fin)); [|exact Hh|exact Hw|]; unfold q; clear; destruct b, searched, fin; done.
  - apply (spec_bind _ _ _ (λ _, settled)); [|intros []; by apply spec_ret]. exact (give_settled b q days1 search _ Hbq (guarded_pure (searched = true → search = true))).
Qed.
End Specs.

(** ** Any run *)

(** The others, a call of the fold with what they do during it, a restart: the memory
    of the process is gone, with the notes its writers had yet to make. *)
Inductive run_step (y : sys) : sys → Prop :=
| r_other y' : env_step y y' → run_step y y'
| r_fold env out maxBlocks fuel k k' y' r : (∀ k y, rtc env_step y (env k y)) → AdvanceDailyStats env out maxBlocks fuel k y = (k', y', r) → run_step y y'
| r_restart : run_step y (mkSys (y_db y) fresh_late [] 0).

(** The daily tables are empty. *)
Definition first_start (s : daily_db) : Prop :=
  monotone (dd_blocks s) ∧ in_range (dd_blocks s) ∧ dd_watermark s = None ∧ dd_acc s = ∅ ∧ dd_stats s = ∅ ∧ dd_pruned s = 0.

Lemma start_settled s : first_start s → settled (mkSys s fresh_late [] 0).
Proof.
  intros (H1 & H2 & H3 & H4 & H5 & H6). split; [|done]. split_and!; cbn.
  - split; try done; congruence.
  - intros w d Hw. cbn in Hw. congruence.
  - split; cbn; [done|by intros n ts ?%not_elem_of_nil|done].
Qed.
Lemma run_settled y y' : run_step y y' → settled y → settled y'.
Proof.
  intros [z He|env out maxBlocks fuel k k' z r Henv Ha|] [Hok Hq].
  - destruct (env_keeps (λ _, False) y z He Hok) as (H1 & H2 & H3 & _). split; [done|]. rewrite H2. auto.
  - pose proof (advance_spec env out maxBlocks Henv fuel k y (conj Hok Hq)) as Hs. rewrite Ha in Hs. by destruct r.
  - split; [|done]. destruct Hok as (Hc & Hst & _). split_and!; [done|done|]. split; cbn; [done|by intros n ts ?%not_elem_of_nil|done].
Qed.
Lemma runs_settled s y : first_start s → rtc run_step (mkSys s fresh_late [] 0) y → settled y.
Proof. intros Hs Hr. assert (settled (mkSys s fresh_late [] 0)) as H by by apply start_settled. induction Hr as [|a b c Hab _ IH]; [done|]. apply IH. by eapply run_settled. Qed.

(** C7: the summed columns of the daily aggregates (blocks, transactions, gas, fees and the
    other parts a day's row adds up; the count of active addresses is not among them, see
    active_counted_twice). In any run of folds, block writes, reverts, lost answers and
    restarts from empty daily tables: a row counts some of its day's stored blocks up to
    the watermark, none twice and none reverted; once a search has run, a day's sums are
    those of all of them, or the process has noted (or a writer is about to note) that day
    or the day of the block before one of its blocks; nothing noted, the sums of every row
    are exact. Blocks are in the order of their times; a revert is one that leaves the
    watermark at a stored block or below all (the code logs the others, of a day that
    starts in a gap, and leaves them to an operator); retention prunes nothing meanwhile. *)
Theorem daily_fold_accounts s y : first_start s → rtc run_step (mkSys s fresh_late [] 0) y →
  (∀ w d p, dd_watermark (y_db y) = Some w → parts (dd_acc (y_db y)) !! d = Some p → ∃ B Pr, partial (dd_blocks (y_db y)) w d p B Pr) ∧
  (l_searched (y_late y) = true → ∃ w, dd_watermark (y_db y) = Some w ∧
    (∀ d, parts (dd_acc (y_db y)) !! d = truth (dd_blocks (y_db y)) w d ∨ dirty (marked y w) (dd_blocks (y_db y)) w d) ∧
    (l_days (y_late y) = ∅ → y_unnoted y = [] → parts (dd_acc (y_db y)) = sums (λ n, n ≤ w) (dd_blocks (y_db y)))).
Proof.
  intros Hs Hr. destruct (runs_settled s y Hs Hr) as [Hok Hq]. split; [apply Hok|]. intros (w & Hw & HA)%Hq. exists w.
  assert (∀ d, parts (dd_acc (y_db y)) !! d = truth (dd_blocks (y_db y)) w d ∨ dirty (marked y w) (dd_blocks (y_db y)) w d) as HA'.
  { intros d. destruct (HA d) as [?|Hd]; [by left|right]. eapply dirty_mono; [|done|done|exact Hd]. by intros e [?|?]. }
  split_and!; [done|done|]. intros El Eu. apply map_eq. intros d. destruct (HA' d) as [?|Hd]; [done|]. exfalso.
  assert (∀ e, ¬ marked y w e) as Hno by (intros e [?|(n & b & Hn & _)]; [set_solver|rewrite Eu in Hn; by apply not_elem_of_nil in Hn]).
  destruct Hd as (n & b & _ & _ & _ & [Hm|(p & _ & Hm)]); by apply Hno in Hm.
Qed.
