(* ===== verification/DailyFoldDone.v ===== *)
(** * A call of the fold that nobody disturbs

    With the stored blocks in one run and no statement failing, one call brings the
    watermark to the last block, and every day's row to the count of its blocks. *)

From S2P Require Import Prelude GoStrings StatsBackfill Tally DailyFold DailyFoldProps DailyFoldEnv DailyFoldStep DailyFoldRun Session.

(** The stored blocks are those from [lo] to [hi]. *)
Definition one_run (lo hi : Z) (bs : blocks) : Prop := ∀ n, is_Some (bs !! n) ↔ lo ≤ n ≤ hi.

Lemma run_to_full k bs w lo hi : one_run lo hi bs → lo - 1 ≤ w ≤ hi → run_to k bs w = Z.min (w + Z.of_nat k) hi.
Proof.
  intros Hrun. revert w. induction k as [|k IH]; intros w Hw; cbn [run_to]; [lia|]. case_decide as Hs.
  - apply Hrun in Hs. rewrite IH by lia. lia.
  - assert (¬ lo ≤ w + 1 ≤ hi) by (intros ?; by apply Hs, Hrun). lia.
Qed.

(** A day of such blocks is whole. *)
Lemma day_info_whole s w d lo hi : one_run lo hi (dd_blocks s) → monotone (dd_blocks s) → w ≤ hi → (day_info s w d).1 = (true, false) ∨ (day_info s w d).1 = (false, true).
Proof.
  intros Hrun Hmono Hw. unfold day_info. set (ns := (of_day w d (dd_blocks s)).*1). pose proof (minl_spec ns) as Hm. pose proof (maxl_spec ns) as Hx.
  assert (∀ n, n ∈ ns ↔ ∃ b, dd_blocks s !! n = Some b ∧ n ≤ w ∧ day (sb_ts b) = d) as Hns.
  { intros n. unfold ns. rewrite list_elem_of_fmap. split; [intros ([m b] & -> & Hm'%elem_of_of_day); by exists b|]. intros [b Hb]. exists (n, b). split; [done|]. by apply elem_of_of_day. }
  assert (∀ n, is_Some (dd_blocks s !! n) → lo ≤ n ≤ hi) as Hlo by (intros n; apply Hrun).
  destruct (min_list ns) as [l|]; [|by right]. destruct (max_list ns) as [h|]; [|by right]. left. cbn [fst]. f_equal. destruct Hm as [Hl Hl'], Hx as [Hh Hh'].
  apply Hns in Hl as (bl & Hbl & Hlw & Hld), Hh as (bh & Hbh & Hhw & Hhd). pose proof (Hlo l ltac:(by eexists)). pose proof (Hlo h ltac:(by eexists)).
  assert (l ≤ h) as Hlh by (apply Hh', Hns; by exists bl). rewrite !andb_true_iff, !orb_true_iff, !bool_decide_eq_true. split_and!.
  - assert (ns ≡ₚ seqZ l (h - l + 1)) as E.
    { apply NoDup_Permutation; [apply (NoDup_fmap_filter fst), NoDup_fst_map_to_list|apply NoDup_seqZ|]. intros n. rewrite elem_of_seqZ. split.
      - intros Hn. specialize (Hl' n Hn). specialize (Hh' n Hn). lia.
      - intros Hn. destruct (proj2 (Hrun n) ltac:(lia)) as [b Hb]. apply Hns. exists b. split_and!; [done|lia|].
        pose proof (day_mono _ l n bl b Hmono Hbl Hb ltac:(lia)). pose proof (day_mono _ n h b bh Hmono Hb Hbh ltac:(lia)). lia. }
    unfold zlen. rewrite E, length_seqZ. lia.
  - destruct (decide (l = lo)) as [->|Hne]; [left|right; apply Hrun; lia]. pose proof (minl_spec (map_to_list (dd_blocks s)).*1) as Hm.
    assert (∀ n, n ∈ (map_to_list (dd_blocks s)).*1 ↔ is_Some (dd_blocks s !! n)) as Hel.
    { intros n. rewrite list_elem_of_fmap. split; [intros ([m b] & -> & Hm'%elem_of_map_to_list); by eexists|]. intros [b Hb]. exists (n, b). by rewrite elem_of_map_to_list. }
    destruct (min_list _) as [x|]; [|assert (lo ∈ (map_to_list (dd_blocks s)).*1) as Hin by (apply Hel; by eexists); rewrite Hm in Hin; by apply not_elem_of_nil in Hin].
    destruct Hm as [Hx1%Hel%Hrun Hx2]. f_equal. specialize (Hx2 lo). rewrite Hel in Hx2. specialize (Hx2 ltac:(by eexists)). lia.
  - destruct (decide (h = w)); [by left|right]. apply Hrun. lia.
Qed.

(** What a count then leaves: nothing pending, and of the complete days fewer. *)
Lemma recount_progress s w days f lo hi : one_run lo hi (dd_blocks s) → monotone (dd_blocks s) → w ≤ hi →
  let rc := (recountDays s w days f).2 in
  rc_pending rc = [] ∧ (∀ d, d ∈ rc_later rc → d ∈ days) ∧ (rc_from rc = None → rc_later rc = []) ∧ ∀ d, rc_from rc = Some d → d ∈ days ∧ d ∉ rc_later rc.
Proof.
  intros Hrun Hmono Hw. unfold recountDays. set (days1 := match partlyPruned s with Some _ => _ | None => _ end).
  assert (∀ d, d ∈ days1 → d ∈ days) as Hsub by (intros d; unfold days1; destruct (partlyPruned s); [|done]; by intros [_ ?]%list_elem_of_filter).
  destruct (classify s w days1) as [[C N] Q] eqn:Ec. assert (Q = []) as ->.
  { apply elem_of_nil_inv. intros d Hd. unfold classify in Ec. injection Ec as _ _ <-. apply list_elem_of_filter in Hd as [Hd _]. destruct (day_info_whole s w d lo hi Hrun Hmono Hw); congruence. }
  destruct (classify_spec s w days1 C N [] Ec) as (H1 & _). destruct C as [|first C]; cbn [snd rc_pending rc_later rc_from].
  - split_and!; try done. by intros d ?%not_elem_of_nil.
  - split_and!; try done; [intros d [_ [? _]%H1]%list_elem_of_filter; by apply Hsub|]. intros d [= <-]. split; [apply Hsub, H1; left|].
    intros [Hn _]%list_elem_of_filter. apply Hn, recount_group_spec.
Qed.

Lemma count_fields limit days s w : dd_watermark s = Some w → ∃ c f, countFold limit days s = Some c ∧ fc_snapshot c = mkSnapshot w (dd_generation s) (dd_moves s) (dd_pruned s) ∧
  fc_upto c = run_to (Z.to_nat limit) (dd_blocks s) w ∧ let rc := (recountDays s (fc_upto c) days f).2 in
  fc_later c = rc_later rc ∧ fc_pending c = rc_pending rc ∧ fc_recounted c = bool_decide (is_Some (rc_from rc)).
Proof.
  intros Hw. unfold countFold. rewrite Hw. cbn [fmap option_fmap option_map]. exists (count_from limit days s w).
  eexists (if w <? run_to (Z.to_nat limit) (dd_blocks s) w then stageAdvance w (run_to (Z.to_nat limit) (dd_blocks s) w) s _ else _). split; [done|]. unfold count_from.
  destruct (recountDays s _ days _) as [f2 rc] eqn:E. cbn [fc_snapshot fc_upto fc_later fc_pending fc_recounted]. rewrite E. by cbn [snd].
Qed.

Section Quiet.
Context (maxBlocks lo hi : Z).
Definition quiet (k : nat) (y : sys) : sys := y.
Definition fine (k : nat) : stmt_end := Done.
Notation lim := (limit maxBlocks).

Lemma limit_pos : 0 < lim.
Proof. unfold limit, defaultFoldMaxBlocks. destruct (Z.leb_spec maxBlocks 0); lia. Qed.

(** The blocks, the memory of the process and the pending notes are as before; the
    watermark is at [w]. *)
Record same_but (y y' : sys) (w : Z) : Prop := {
  sa_blocks : dd_blocks (y_db y') = dd_blocks (y_db y); sa_late : y_late y' = y_late y; sa_unnoted : y_unnoted y' = y_unnoted y; sa_wm : dd_watermark (y_db y') = Some w }.

(** One count is applied at once. *)
Lemma quiet_count tries days last k y w : dd_watermark (y_db y) = Some w → one_run lo hi (dd_blocks (y_db y)) → monotone (dd_blocks (y_db y)) → lo - 1 ≤ w ≤ hi →
  ∃ c k' y', same_but y y' (fc_upto c) ∧ fc_upto c = Z.min (w + lim) hi ∧ sn_watermark (fc_snapshot c) = w ∧ fc_pending c = [] ∧ (∀ d, d ∈ fc_later c → d ∈ days) ∧
    (fc_later c = [] ∨ ∃ d, d ∈ days ∧ d ∉ fc_later c) ∧
    (count_apply quiet fine maxBlocks (S tries) days last k y = (k', y', Some (inr (Some c, true))) ∨
     count_apply quiet fine maxBlocks (S tries) days last k y = (k', y', Some (inl c)) ∧ fc_upto c = w).
Proof.
  intros Hw Hrun Hmono Hwb. destruct (count_fields lim days (y_db y) w Hw) as (c & f & Ec & Es & Eu & El & Ep & Er).
  pose proof limit_pos. rewrite (run_to_full _ _ _ lo hi Hrun Hwb), Z2Nat.id in Eu by lia.
  destruct (recount_progress (y_db y) (fc_upto c) days f lo hi Hrun Hmono ltac:(lia)) as (P1 & P2 & P3 & P4). set (rc := (recountDays _ _ _ f).2) in *.
  rewrite <-El, <-Ep in *. assert (fc_later c = [] ∨ ∃ d, d ∈ days ∧ d ∉ fc_later c) as Hprog.
  { destruct (rc_from rc) as [d|]; [right; exists d; by apply P4|left; by apply P3]. }
  remember (count_apply quiet fine maxBlocks (S tries) days last k y) as r eqn:E. cbn [count_apply] in E. unfold bind at 1, query, stmt at 1, fine at 1 in E.
  change (quiet k y) with y in E. rewrite Ec, Es in E. cbn [sn_watermark] in E. destruct ((fc_upto c =? w) && negb (fc_recounted c)) eqn:Ei.
  - apply andb_true_iff in Ei as [E1%Z.eqb_eq _]. exists c, (S k), y. split_and!; try done; [by split; try done; rewrite E1|by rewrite Es|by right].
  - exists c, (S (S k)), (on_db (λ _, (fold_apply c (y_db y)).1) y). unfold bind, apply, stmt, fine at 1 in E. change (quiet (S k) y) with y in E. revert E. unfold fold_apply.
    rewrite Es. cbn [sn_watermark sn_generation sn_moves sn_pruned]. rewrite bool_decide_eq_true_2 by done. cbn [fst]. intros ->. split_and!; try done; first [by rewrite Es|by left].
Qed.

Lemma quiet_loop fuel days pend k y w : dd_watermark (y_db y) = Some w → one_run lo hi (dd_blocks (y_db y)) → monotone (dd_blocks (y_db y)) → lo - 1 ≤ w ≤ hi →
  (Z.to_nat (hi - w) + size (list_to_set days : gset Z) < fuel)%nat →
  ∃ k' y', fold_loop quiet fine maxBlocks fuel days pend k y = (k', y', Some (Some hi, pend, true)) ∧ same_but y y' hi.
Proof.
  revert days k y w. induction fuel as [|fuel IH]; intros days k y w Hw Hrun Hmono Hwb Hf; [lia|]. cbn [fold_loop]. unfold bind at 1, foldCounts.
  destruct (quiet_count 2 days None k y w Hw Hrun Hmono Hwb) as (c & k1 & y1 & [S1 S2 S3 S4] & Eu & Esn & Ep & Hsub & Hprog & Hrun1). pose proof limit_pos.
  destruct Hrun1 as [-> | [-> E]].
  - unfold bind, mem. change (quiet k1 y1) with y1. rewrite Esn, Ep, app_nil_r. case_match eqn:Ec.
    + apply andb_true_iff in Ec as [E%Z.ltb_lt _]. assert (fc_upto c = hi) as <- by lia. by eexists _, _.
    + assert (fc_later c ⊆ days) as Hsub' by (intros d; apply Hsub).
      assert (size (list_to_set (fc_later c) : gset Z) ≤ size (list_to_set days : gset Z))%nat by (apply subseteq_size; set_solver).
      edestruct (IH (fc_later c) (S k1) (set_stalls 0 y1) (fc_upto c)) as (k' & y' & E & [T1 T2 T3 T4]); cbn; try done; [by rewrite S1|by rewrite S1|lia| |].
      * apply andb_false_iff in Ec as [E%Z.ltb_ge|E%bool_decide_eq_false]; [lia|]. destruct Hprog as [|(d & Hd & Hd')]; [done|].
        assert (size (list_to_set (fc_later c) : gset Z) < size (list_to_set days : gset Z))%nat; [|lia]. apply subset_size. split; [set_solver|].
        intros Hc. apply Hd'. apply (elem_of_list_to_set (C := gset Z)), Hc, elem_of_list_to_set, Hd.
      * rewrite E. eexists _, _. split; [done|]. cbn in *. split; congruence.
  - unfold ret. rewrite Ep, app_nil_r. assert (fc_upto c = hi) as <- by lia. by eexists _, _.
Qed.

(** The days found are days of stored blocks. *)
Lemma search_size s : (size (list_to_set (searchLateDays s).1 : gset Z) ≤ size (dd_blocks s))%nat.
Proof.
  unfold searchLateDays. destruct (dd_watermark s) as [w|]; [|cbn [fst]; rewrite list_to_set_nil, size_empty; lia]. cbn [fst]. set (l := _ <$> filter _ _).
  assert (size (list_to_set l : gset Z) ≤ size (dd_blocks s))%nat as Hl.
  { etrans; [apply size_of_list|]. unfold l. rewrite length_fmap. etrans; [apply length_filter|]. by rewrite length_map_to_list. }
  etrans; [|exact Hl]. apply subseteq_size. intros d. rewrite !elem_of_list_to_set, list_elem_of_filter, elem_of_remove_dups. tauto.
Qed.

Lemma quiet_advance fuel k y w : dd_watermark (y_db y) = Some w → one_run lo hi (dd_blocks (y_db y)) → monotone (dd_blocks (y_db y)) → lo - 1 ≤ w ≤ hi →
  (Z.to_nat (hi - w) + size (l_days (y_late y)) + size (dd_blocks (y_db y)) < fuel)%nat →
  ∃ k' y', AdvanceDailyStats quiet fine maxBlocks fuel k y = (k', y', Some hi) ∧ dd_watermark (y_db y') = Some hi ∧ dd_blocks (y_db y') = dd_blocks (y_db y) ∧
    y_unnoted y' = y_unnoted y ∧ y_late y' = mkLate (Some hi) ∅ true.
Proof.
  intros Hw Hrun Hmono Hwb Hf. set (y1 := on_late (λ _, (take_days (y_late y)).1) y). set (days := elements (l_days (y_late y)) ++ (if l_searched (y_late y) then [] else (searchLateDays (y_db y)).1)).
  assert (size (list_to_set days : gset Z) ≤ size (l_days (y_late y)) + size (dd_blocks (y_db y)))%nat as Hsz.
  { unfold days. rewrite list_to_set_app_L, list_to_set_elements_L. rewrite size_union_alt. apply Nat.add_le_mono; [done|].
    etrans; [apply subseteq_size, (subseteq_difference_l _ _ _ (reflexivity _))|]. destruct (l_searched (y_late y)); [rewrite list_to_set_nil, size_empty; lia|apply search_size]. }
  destruct (quiet_loop fuel days [] (if l_searched (y_late y) then S (S k) else S (S (S k))) y1 w Hw Hrun Hmono Hwb ltac:(lia)) as (k2 & y2 & Eloop & [S1 S2 S3 S4]).
  unfold AdvanceDailyStats, take_days. unfold bind at 1, mem at 1. change (quiet k y) with y. cbn [fst snd]. change (on_late _ y) with y1.
  set (k1 := if l_searched (y_late y) then S k else S (S k)).
  match goal with |- context [bind (if _ then ?a else ?b) _ _ _] =>
    assert ((if negb (l_searched (y_late y)) then a else b) (S k) y1 = (k1, y1, Some (days, negb (l_searched (y_late y))))) as Esearch end.
  { unfold days, k1. destruct (l_searched (y_late y)); cbn [negb]; [by rewrite app_nil_r|]. unfold on_error, bind, query, stmt, fine. change (quiet (S k) y1) with y1.
    cbn [y1 on_late y_db]. unfold searchLateDays. rewrite Hw. done. }
  assert (fold quiet fine maxBlocks fuel days k1 y1 = (k2, y2, Some (Some hi, [], true))) as Efold.
  { unfold fold, bind at 1, stmt, fine at 1. change (quiet k1 y1) with y1. unfold start_watermark. change (y_db y1) with (y_db y) at 1. rewrite Hw. cbn [negb].
    assert (on_db (λ _, y_db y1) y1 = y1) as -> by done. rewrite <-Eloop. unfold k1. by destruct (l_searched (y_late y)). }
  unfold bind at 1. rewrite Esearch. unfold bind at 1, on_error. rewrite Efold. unfold bind, mem, ret. change (quiet k2 y2) with y2.
  eexists _, _. split; [done|]. unfold quiet. cbn [on_late y_db y_unnoted y_late]. split_and!; [done|done|done|]. rewrite S2. unfold y1, advanced, giveBack. cbn. rewrite union_empty_l_L.
  by destruct (l_searched (y_late y)).
Qed.
End Quiet.

(** After any run, when the stored blocks are one run, their writers have noted them and
    the watermark is not below it, one undisturbed call of the fold ends with the
    watermark at the last block, nothing left to recount, and the aggregates the count of
    every stored block; its loop makes at most one turn for each block above the
    watermark and each day to recount. *)
Theorem daily_fold_completes s y w lo hi maxBlocks fuel k : first_start s → rtc run_step (mkSys s fresh_late [] 0) y → y_unnoted y = [] →
  one_run lo hi (dd_blocks (y_db y)) → dd_watermark (y_db y) = Some w → lo - 1 ≤ w ≤ hi →
  (Z.to_nat (hi - w) + size (l_days (y_late y)) + size (dd_blocks (y_db y)) < fuel)%nat →
  ∃ k' y', AdvanceDailyStats quiet fine maxBlocks fuel k y = (k', y', Some hi) ∧ dd_watermark (y_db y') = Some hi ∧ y_late y' = mkLate (Some hi) ∅ true ∧
    parts (dd_acc (y_db y')) = sums (λ n, n ≤ hi) (dd_blocks (y_db y)).
Proof.
  intros Hs Hr Hun Hrun Hw Hwb Hf. pose proof (runs_settled s y Hs Hr) as Hset.
  destruct (quiet_advance maxBlocks lo hi fuel k y w Hw Hrun (o_mono _ (proj1 (proj1 Hset))) Hwb Hf) as (k' & y' & E & H1 & H2 & H3 & H4).
  exists k', y'. split_and!; try done. pose proof (advance_spec quiet fine maxBlocks ltac:(intros; reflexivity) fuel k y Hset) as Hset'. rewrite E in Hset'. destruct Hset' as [_ Hq].
  rewrite H4 in Hq. destruct (Hq eq_refl) as (w' & Hw' & HA). rewrite H1 in Hw'. injection Hw' as <-. unfold accounted in HA. rewrite H2 in HA. apply map_eq. intros d.
  destruct (HA d) as [?|(n & b & _ & _ & _ & Hd)]; [done|]. exfalso.
  assert (∀ e, ¬ (marked y' hi e ∨ False)) as Hno.
  { intros e [[Hin|(m & c & Hm & _)]|?]; [rewrite H4 in Hin; set_solver|rewrite H3, Hun in Hm; by apply not_elem_of_nil in Hm|done]. }
  destruct Hd as [Hm|(p & _ & Hm)]; by apply Hno in Hm.
Qed.

(** *** A run: block 5 of day 1 and block 6 of day 2 are stored, the fold starts, block 4
    of day 1 is stored late. *)
Definition blk (ts : Z) : sblock := mkSblock ts 10 (Some 100) [] 0.
Definition first_db : daily_db := mkDaily {[ 5 := blk 100000; 6 := blk 200000 ]} None 0 ∅ ∅ ∅ [] None 0 0 0 false.
Definition call (y : sys) : sys := (AdvanceDailyStats quiet fine 0 10%nat 0%nat y).1.2.
Definition late_block (y : sys) : sys :=
  mkSys (set_blocks (<[4 := blk 90000]> (dd_blocks (y_db y))) (y_db y)) (y_late y) ((4, 90000) :: y_unnoted y) (y_stalls y).
Definition noted (y : sys) : sys := mkSys (y_db y) (noteBlock 4 90000 (y_late y)) [] (y_stalls y).
Definition run_end : sys := noted (late_block (call (call (mkSys first_db fresh_late [] 0)))).

Lemma monotone_check (bs : blocks) : bool_decide (map_Forall (λ n b, map_Forall (λ m c, m ≤ n → sb_ts c ≤ sb_ts b) bs) bs) = true → monotone bs.
Proof. intros Hb%bool_decide_eq_true m n bm bn Hm Hn. apply (Hb n bn Hn m bm Hm). Qed.
Lemma range_check (bs : blocks) : bool_decide (map_Forall (λ n b, 0 ≤ n < 2 ^ 63 ∧ 0 ≤ sb_ts b < 2 ^ 63) bs) = true → in_range bs.
Proof. intros Hb%bool_decide_eq_true n b Hn. apply (Hb n b Hn). Qed.

Lemma first_db_start : first_start first_db.
Proof. split_and!; try done; [apply monotone_check|apply range_check]; vm_compute; reflexivity. Qed.
Lemma call_step y : run_step y (call y).
Proof. unfold call. destruct (AdvanceDailyStats quiet fine 0 10%nat 0%nat y) as [[k' y'] r] eqn:E. exact (r_fold y quiet fine 0 10%nat 0%nat k' y' r ltac:(intros; reflexivity) E). Qed.
Lemma run_end_runs : rtc run_step (mkSys first_db fresh_late [] 0) run_end.
Proof.
  eapply rtc_l; [apply call_step|]. eapply rtc_l; [apply call_step|]. eapply rtc_l; [apply (r_other _ (late_block (call (call (mkSys first_db fresh_late [] 0))))), e_store|].
  - vm_compute. reflexivity.
  - apply monotone_check. vm_compute. reflexivity.
  - apply range_check. vm_compute. reflexivity.
  - apply rtc_once, r_other. apply (e_note _ [] []). vm_compute. reflexivity.
Qed.

Example run_end_state : l_searched (y_late run_end) = true ∧ l_days (y_late run_end) = {[ 1 ]} ∧ dd_watermark (y_db run_end) = Some 6.
Proof. vm_compute. done. Qed.

Lemma daily_fold_completes_witness : ∃ k' y', AdvanceDailyStats quiet fine 0 10%nat 0%nat run_end = (k', y', Some 6) ∧ dd_watermark (y_db y') = Some 6 ∧ y_late y' = mkLate (Some 6) ∅ true ∧
  parts (dd_acc (y_db y')) = sums (λ n, n ≤ 6) (dd_blocks (y_db run_end)).
Proof.
  apply (daily_fold_completes first_db run_end 6 4 6 0 10%nat 0%nat first_db_start run_end_runs).
  - reflexivity.
  - intros n. change (dd_blocks (y_db run_end)) with ({[ 4 := blk 90000; 5 := blk 100000; 6 := blk 200000 ]} : blocks).
    rewrite !lookup_insert_is_Some, lookup_singleton_is_Some. lia.
  - apply (proj2 (proj2 run_end_state)).
  - lia.
  - vm_compute. lia.
Defined.

Lemma daily_fold_accounts_witness : l_searched (y_late run_end) = true ∧ l_days (y_late run_end) = {[ 1 ]} ∧
  ∀ d, parts (dd_acc (y_db run_end)) !! d = truth (dd_blocks (y_db run_end)) 6 d ∨ dirty (marked run_end 6) (dd_blocks (y_db run_end)) 6 d.
Proof.
  destruct (daily_fold_accounts first_db run_end first_db_start run_end_runs) as [_ H]. destruct (H (proj1 run_end_state)) as (w & Hw & HA & _).
  assert (w = 6) as -> by (pose proof (proj2 (proj2 run_end_state)); congruence). exact (conj (proj1 run_end_state) (conj (proj1 (proj2 run_end_state)) HA)).
Defined.

(** *** A day's addresses counted twice

    Day 3 is indexed first, then blocks of days 2 and 1: block 8 of day 2 is missing when
    day 1 is complete, and day 2 is recounted with it, its address set not kept. The
    process restarts, and a revert of day 3 brings the watermark onto block 7 of day 2;
    block 8, stored after that, is counted with an empty set, and no search finds the
    day. *)
Definition tx_block (ts : Z) (a : gostring) : sblock := mkSblock ts 10 (Some 100) [mkStx a None 1 1] 0.
Definition store (n : Z) (b : sblock) (y : sys) : sys :=
  mkSys (set_blocks (<[n := b]> (dd_blocks (y_db y))) (y_db y)) (noteBlock n (sb_ts b) (y_late y)) (y_unnoted y) (y_stalls y).
Definition revert (n : Z) (y : sys) : sys := match delete_block n (y_db y) with Some s => with_db s y | None => y end.
Definition sender : gostring := [Byte.x01].
Definition twice : sys :=
  let y := mkSys (mkDaily ∅ None 0 ∅ ∅ ∅ [] None 0 0 0 false) fresh_late [] 0 in
  let y := call (call (store 10 (tx_block 300000 sender) (store 9 (tx_block 290000 sender) y))) in
  let y := call (store 6 (tx_block 100000 sender) (store 5 (tx_block 90000 sender) (store 7 (tx_block 180000 sender) y))) in
  let y := call (revert 9 (revert 10 (mkSys (y_db y) fresh_late [] 0))) in
  call (call (store 8 (tx_block 190000 sender) y)).

Example active_counted_twice : (ar_active <$> dd_acc (y_db twice) !! 2) = Some 2 ∧
  size (⋃ ((λ nb, users nb.2) <$> of_day 8 2 (dd_blocks (y_db twice)))) = 1%nat ∧ dd_watermark (y_db twice) = Some 8 ∧
  (searchLateDays (y_db twice)).1 = [] ∧ l_days (y_late twice) = ∅.
Proof. vm_compute. done. Qed.
