(* ===== verification/Throttle.v ===== *)
(** * When the daily statistics are recomputed

    [dailyStatsThrottle] of [internal/indexer/indexer.go] and what calls it
    ([scheduleDailyStats], [scheduleDeferredDailyStats], [insertEmptyBlock]): each stored
    block marks its day, a run takes all marked days, runs are spaced, and a timer takes
    what the last blocks left. The critical sections of the mutex interleave; days and
    times are integers. *)

From S2P Require Import Prelude.

Record dailyStatsThrottle := mkThrottle { th_last : option Z; th_running : bool; th_armed : bool; th_dirty : gset Z }.
Definition new_throttle : dailyStatsThrottle := mkThrottle None false false ∅.

Section Throttle.
Context (minInterval : Z).

(** The clock is read twice: for the interval, and for the start of the run. A zero day
    marks nothing. *)
Definition due (t : dailyStatsThrottle) (blockNumber : Z) (day : option Z) (now1 now2 : Z) : dailyStatsThrottle * option (list Z) :=
  let t := mkThrottle (th_last t) (th_running t) (th_armed t) (match day with Some d => {[ d ]} ∪ th_dirty t | None => th_dirty t end) in
  if th_running t || bool_decide (th_dirty t = ∅) then (t, None)
  else if (if minInterval <=? 0 then negb (Z.rem blockNumber 100 =? 0) else match th_last t with Some l => now1 - l <? minInterval | None => false end)
  then (t, None)
  else (mkThrottle (Some now2) true (th_armed t) ∅, Some (merge_sort Z.le (elements (th_dirty t)))).

Definition markDirty (d : Z) (t : dailyStatsThrottle) : dailyStatsThrottle :=
  mkThrottle (th_last t) (th_running t) (th_armed t) ({[ d ]} ∪ th_dirty t).
Definition run_done (t : dailyStatsThrottle) : dailyStatsThrottle := mkThrottle (th_last t) false (th_armed t) (th_dirty t).
(** A millisecond, in nanoseconds. *)
Definition arm (now : Z) (t : dailyStatsThrottle) : dailyStatsThrottle * option Z :=
  if (minInterval <=? 0) || th_running t || th_armed t || bool_decide (th_dirty t = ∅) then (t, None)
  else (mkThrottle (th_last t) (th_running t) true (th_dirty t),
        Some (Z.max (match th_last t with Some l => minInterval - (now - l) | None => 0 end) 1000000)).
Definition disarm (t : dailyStatsThrottle) : dailyStatsThrottle := mkThrottle (th_last t) (th_running t) false (th_dirty t).

(** ** The goroutines *)

(** Where each is: before [scheduleDailyStats], before [markDirty] of an empty block,
    before [scheduleDeferredDailyStats], in [AdvanceDailyStats] with the days it took (and
    the commits it covers), marking them again after a failure, before [done], waiting as
    a timer, before [disarm]. *)
Inductive proc :=
| Schedule (blockNumber : Z) (day : option Z) | Mark (day : Z) | Deferred
| Run (days : list Z) (covers : gset (nat * Z)) | Remark (days : list Z) | Finish
| Timer (at_ : Z) | Fire.

(** [y_owed]: the commits, numbered, whose day no successful run that started after them
    has recomputed. [y_starts]: when runs started, newest first. *)
Record system := mkSystem {
  y_throttle : dailyStatsThrottle; y_procs : list proc; y_clock : Z; y_stopped : bool;
  y_owed : gset (nat * Z); y_next : nat; y_starts : list Z }.
Definition start_system : system := mkSystem new_throttle [] 0 false ∅ 0 [].

Definition spawn (p : proc) (y : system) : system :=
  mkSystem (y_throttle y) (p :: y_procs y) (y_clock y) (y_stopped y) (y_owed y) (y_next y) (y_starts y).
Definition commit (day : Z) (y : system) : system :=
  mkSystem (y_throttle y) (y_procs y) (y_clock y) (y_stopped y) ({[ (y_next y, day) ]} ∪ y_owed y) (S (y_next y)) (y_starts y).
Definition set_throttle (t : dailyStatsThrottle) (y : system) : system :=
  mkSystem t (y_procs y) (y_clock y) (y_stopped y) (y_owed y) (y_next y) (y_starts y).
Definition set_procs (ps : list proc) (y : system) : system :=
  mkSystem (y_throttle y) ps (y_clock y) (y_stopped y) (y_owed y) (y_next y) (y_starts y).
Definition paid (covers : gset (nat * Z)) (y : system) : system :=
  mkSystem (y_throttle y) (y_procs y) (y_clock y) (y_stopped y) (y_owed y ∖ covers) (y_next y) (y_starts y).
Definition started_at (now : Z) (y : system) : system :=
  mkSystem (y_throttle y) (y_procs y) now (y_stopped y) (y_owed y) (y_next y) (now :: y_starts y).

(** What one goroutine does next, [now] being the second reading of the clock. [ok]: the
    run succeeds. *)
Definition turn (p : proc) (now : Z) (ok : bool) (y : system) : option system :=
  match p with
  | Schedule n day =>
      Some (if y_stopped y then y
            else match due (y_throttle y) n day (y_clock y) now with
                 | (t, None) => spawn Deferred (set_throttle t y)
                 | (t, Some days) => spawn (Run days (filter (λ c, c.2 ∈ days) (y_owed y))) (started_at now (set_throttle t y))
                 end)
  | Mark d => Some (spawn Deferred (set_throttle (markDirty d (y_throttle y)) y))
  | Deferred => Some (match arm (y_clock y) (y_throttle y) with
                      | (t, Some wait) => spawn (Timer (y_clock y + wait)) (set_throttle t y)
                      | (t, None) => set_throttle t y
                      end)
  | Run days covers => Some (if ok then spawn Finish (paid covers y) else spawn (Remark days) y)
  | Remark (d :: days) => Some (spawn (Remark days) (set_throttle (markDirty d (y_throttle y)) y))
  | Remark [] => Some (spawn Finish y)
  | Finish => Some (spawn Deferred (set_throttle (run_done (y_throttle y)) y))
  | Timer at_ => if at_ <=? y_clock y then Some (spawn Fire y) else None
  | Fire => Some (spawn (Schedule 0 None) (set_throttle (disarm (y_throttle y)) y))
  end.

Inductive step : system → system → Prop :=
| step_commit n day y : step y (spawn (Schedule n (Some day)) (commit day y))
| step_empty day y : step y (spawn (Mark day) (commit day y))
| step_tick now y : y_clock y ≤ now → step y (mkSystem (y_throttle y) (y_procs y) now (y_stopped y) (y_owed y) (y_next y) (y_starts y))
| step_stop y : step y (mkSystem (y_throttle y) (y_procs y) (y_clock y) true (y_owed y) (y_next y) (y_starts y))
| step_turn l1 p l2 now ok y y' : y_procs y = (l1 ++ p :: l2)%list → y_clock y ≤ now →
    turn p now ok (set_procs (l1 ++ l2)%list y) = Some y' → step y y'.

(** ** What stays true *)

Definition runs (p : proc) : bool := match p with Run _ _ | Remark _ | Finish => true | _ => false end.
Definition times (p : proc) : bool := match p with Timer _ | Fire => true | _ => false end.
Definition in_flight (f : proc → bool) (y : system) : nat := length (filter (λ p, Is_true (f p)) (y_procs y)).

(** Who recomputes the day of a commit. *)
Definition accounted (y : system) (c : nat * Z) : Prop :=
  c.2 ∈ th_dirty (y_throttle y) ∨
  ∃ p, p ∈ y_procs y ∧ match p with
    | Schedule _ (Some d) | Mark d => d = c.2
    | Run _ covers => c ∈ covers
    | Remark days => c.2 ∈ days
    | _ => False
    end.

Fixpoint spaced (l : list Z) : Prop :=
  match l with a :: (b :: _) as l' => b + minInterval ≤ a ∧ spaced l' | _ => True end.

Record throttled (y : system) : Prop := {
  tt_running : in_flight runs y = if th_running (y_throttle y) then 1%nat else 0%nat;
  tt_armed : in_flight times y = if th_armed (y_throttle y) then 1%nat else 0%nat;
  tt_covers : ∀ days covers c, Run days covers ∈ y_procs y → c ∈ covers → c.2 ∈ days;
  tt_last : th_last (y_throttle y) = head (y_starts y);
  tt_spaced : 0 < minInterval → spaced (y_starts y);
  tt_owed : y_stopped y = false → ∀ c, c ∈ y_owed y → accounted y c;
  tt_pending : y_stopped y = false → 0 < minInterval → th_dirty (y_throttle y) ≠ ∅ →
    th_running (y_throttle y) = true ∨ th_armed (y_throttle y) = true ∨
    ∃ p, p ∈ y_procs y ∧ match p with Schedule _ _ | Deferred => True | _ => False end }.

Definition count (f : proc → bool) (l : list proc) : nat := length (filter (λ p, Is_true (f p)) l).
Lemma count_cons f p l : count f (p :: l) = ((if f p then 1 else 0) + count f l)%nat.
Proof. unfold count. rewrite filter_cons. destruct (f p); by case_decide. Qed.
Lemma count_split f l1 p l2 : count f (l1 ++ p :: l2) = ((if f p then 1 else 0) + count f (l1 ++ l2))%nat.
Proof. unfold count. rewrite !filter_app, filter_cons, !length_app. destruct (f p); case_decide; cbn; try done; lia. Qed.
Lemma elem_split (p q : proc) l1 l2 : q ∈ (l1 ++ p :: l2)%list ↔ q = p ∨ q ∈ (l1 ++ l2)%list.
Proof. rewrite !elem_of_app, elem_of_cons. tauto. Qed.

(** The rest of a state when [p] is taken out of it. *)
Record without (p : proc) (y y0 : system) : Prop := {
  wo_throttle : y_throttle y0 = y_throttle y; wo_stopped : y_stopped y0 = y_stopped y; wo_owed : y_owed y0 = y_owed y;
  wo_starts : y_starts y0 = y_starts y; wo_clock : y_clock y0 = y_clock y;
  wo_procs : ∀ q, q ∈ y_procs y ↔ q = p ∨ q ∈ y_procs y0;
  wo_count : ∀ f, count f (y_procs y) = ((if f p then 1 else 0) + count f (y_procs y0))%nat }.

Lemma take_out l1 p l2 y : y_procs y = (l1 ++ p :: l2)%list → without p y (set_procs (l1 ++ l2)%list y).
Proof. intros E. split; try done; rewrite E; intros; [apply elem_split|apply count_split]. Qed.

Lemma accounted_move p y y0 y' c : without p y y0 → accounted y c →
  (c.2 ∈ th_dirty (y_throttle y) → accounted y' c) → (∀ q, q ∈ y_procs y0 → q ∈ y_procs y') →
  (match p with Schedule _ (Some d) | Mark d => d = c.2 | Run _ covers => c ∈ covers | Remark days => c.2 ∈ days | _ => False end → accounted y' c) →
  accounted y' c.
Proof.
  intros Hw [Hd|(q & Hq & Hm)] H1 H2 H3; [auto|]. apply (wo_procs _ _ _ Hw) in Hq as [->|Hq]; [auto|]. right. exists q. auto.
Qed.

(** A turn that replaces [p] by the processes [new]. *)
Definition bit (b : bool) : nat := if b then 1 else 0.
Definition marks (p : proc) (c : nat * Z) : Prop :=
  match p with Schedule _ (Some d) | Mark d => d = c.2 | Run _ covers => c ∈ covers | Remark days => c.2 ∈ days | _ => False end.
Definition looks (p : proc) : Prop := match p with Schedule _ _ | Deferred => True | _ => False end.

Lemma swap_throttled p new y y0 y' : without p y y0 → throttled y → y_procs y' = (new ++ y_procs y0)%list →
  let t := y_throttle y in let t' := y_throttle y' in
  (count runs new + bit (th_running t) = bit (runs p) + bit (th_running t'))%nat →
  (count times new + bit (th_armed t) = bit (times p) + bit (th_armed t'))%nat →
  (∀ days covers c, Run days covers ∈ new → c ∈ covers → c.2 ∈ days) →
  th_last t' = head (y_starts y') → (0 < minInterval → spaced (y_starts y')) →
  y_stopped y' = y_stopped y → y_owed y' ⊆ y_owed y →
  (y_stopped y = false → ∀ c, c ∈ y_owed y' → c.2 ∈ th_dirty t ∨ marks p c → accounted y' c) →
  (y_stopped y = false → 0 < minInterval → th_dirty t' ≠ ∅ →
    th_running t' = true ∨ th_armed t' = true ∨ (∃ q, q ∈ new ∧ looks q) ∨
    th_dirty t ≠ ∅ ∧ ¬ looks p ∧ th_running t' = th_running t ∧ th_armed t' = th_armed t) →
  throttled y'.
Proof.
  intros Hw [T1 T2 T3 T4 T5 T6 T7] Hp t t' Erun Earm Hr El Hsp Es Ho Hacc Hpend.
  assert (∀ f, count f (new ++ y_procs y0) = count f new + count f (y_procs y0))%nat as Hsum by (intros f; unfold count; by rewrite filter_app, length_app).
  unfold bit in *. split.
  - unfold in_flight in *. fold (count runs (y_procs y')). fold (count runs (y_procs y)) in T1. rewrite Hp, Hsum. rewrite (wo_count _ _ _ Hw) in T1. subst t t'. lia.
  - unfold in_flight in *. fold (count times (y_procs y')). fold (count times (y_procs y)) in T2. rewrite Hp, Hsum. rewrite (wo_count _ _ _ Hw) in T2. subst t t'. lia.
  - intros days covers c. rewrite Hp. intros [Hin|Hin]%elem_of_app; [by apply Hr|]. apply T3. apply (wo_procs _ _ _ Hw). by right.
  - done.
  - done.
  - rewrite Es. intros Hs c Hcin. eapply accounted_move; [exact Hw|by apply T6; [|apply Ho]| | |].
    + intros Hcd. apply Hacc; auto.
    + intros q Hq. rewrite Hp. set_solver.
    + intros Hm. apply Hacc; auto.
  - rewrite Es, Hp. intros Hs Hm Hne. destruct (Hpend Hs Hm Hne) as [?|[?|[(q & Hq & Hk)|(Hne0 & Hk & E1 & E2)]]]; [by auto..| |].
    + right. right. exists q. split; [set_solver|done].
    + subst t t'. rewrite E1, E2. destruct (T7 Hs Hm Hne0) as [?|[?|(q & Hq & Hk')]]; [by auto..|].
      apply (wo_procs _ _ _ Hw) in Hq as [->|Hq]; [by destruct Hk|]. right. right. exists q. split; [set_solver|done].
Qed.

Lemma runs_running p y y0 : without p y y0 → throttled y → runs p = true → th_running (y_throttle y) = true.
Proof.
  intros Hw T Hp. pose proof (tt_running y T) as E. unfold in_flight in E. fold (count runs (y_procs y)) in E. rewrite (wo_count _ _ _ Hw), Hp in E.
  destruct (th_running (y_throttle y)); [done|lia].
Qed.
Lemma times_armed p y y0 : without p y y0 → throttled y → times p = true → th_armed (y_throttle y) = true.
Proof.
  intros Hw T Hp. pose proof (tt_armed y T) as E. unfold in_flight in E. fold (count times (y_procs y)) in E. rewrite (wo_count _ _ _ Hw), Hp in E.
  destruct (th_armed (y_throttle y)); [done|lia].
Qed.
Lemma accounted_new p y c : p ∈ y_procs y → marks p c → accounted y c.
Proof. intros Hp Hm. right. by exists p. Qed.

(** [due] returns no days, having marked its own, or all of them. *)
Lemma due_spec t n day now1 now2 : let dirty := match day with Some d => {[ d ]} ∪ th_dirty t | None => th_dirty t end in
  match due t n day now1 now2 with
  | (t', None) => t' = mkThrottle (th_last t) (th_running t) (th_armed t) dirty
  | (t', Some days) => th_running t = false ∧ t' = mkThrottle (Some now2) true (th_armed t) ∅ ∧ (∀ d, d ∈ dirty → d ∈ days) ∧
      (0 < minInterval → ∀ l, th_last t = Some l → l + minInterval ≤ now1)
  end.
Proof.
  cbn zeta. unfold due. cbn [th_running th_dirty th_last th_armed]. destruct (th_running t); [done|]. cbn [orb]. case_bool_decide; [done|].
  destruct (if minInterval <=? 0 then _ else _) eqn:E; [done|]. split_and!; [done|done| |].
  - intros d Hd. rewrite merge_sort_Permutation. by apply elem_of_elements.
  - intros Hm l Hl. destruct (Z.leb_spec minInterval 0); [lia|]. rewrite Hl in E. apply Z.ltb_ge in E. lia.
Qed.

(** The side conditions of [swap_throttled] that hold by computation. *)
Ltac exchange Hw T new := eapply (swap_throttled _ new _ _ _ Hw T); [reflexivity|..]; cbn [spawn set_throttle started_at paid y_throttle y_procs y_stopped y_owed y_starts y_clock];
  pose proof Hw as [W1 W2 W3 W4 W5 _ _]; pose proof T as [_ _ _ T4 T5 _ _]; rewrite ?W1, ?W2, ?W3, ?W4;
  try first [done|cbn; lia|by intros ??? ?%not_elem_of_nil|by intros ??? ?%list_elem_of_singleton].

Lemma schedule_throttled n day now ok y y0 y' : without (Schedule n day) y y0 → throttled y → y_clock y ≤ now → turn (Schedule n day) now ok y0 = Some y' → throttled y'.
Proof.
  intros Hw T Hnow. cbn [turn]. rewrite (wo_stopped _ _ _ Hw). destruct (y_stopped y) eqn:Es.
  { intros [= <-]. exchange Hw T ([] : list proc); rewrite Es; done. }
  rewrite (wo_throttle _ _ _ Hw), (wo_clock _ _ _ Hw), (wo_owed _ _ _ Hw). pose proof (due_spec (y_throttle y) n day (y_clock y) now) as Hd. cbn zeta in Hd.
  destruct (due _ _ _ _ _) as [t' [ds|]]; intros [= <-].
  - destruct Hd as (Hnr & -> & Hall & Hgap). exchange Hw T [Run ds (filter (λ c, c.2 ∈ ds) (y_owed y))].
    + rewrite Hnr. done.
    + intros ds' cv c Hin%list_elem_of_singleton. injection Hin as -> ->. by intros [? _]%elem_of_filter.
    + intros Hm. destruct (y_starts y) as [|b l] eqn:Ey; [done|]. split; [|by apply T5]. rewrite T4 in Hgap. specialize (Hgap Hm b eq_refl). lia.
    + intros _ c Hc Hcd. apply (accounted_new (Run ds (filter (λ c, c.2 ∈ ds) (y_owed y)))); [left|]. apply elem_of_filter. split; [|done].
      apply Hall. destruct day as [d|]; destruct Hcd as [Hcd|Hcd]; cbn in Hcd; [set_solver|subst; set_solver|done|done].
  - subst t'. exchange Hw T [Deferred].
    + intros _ c Hc Hcd. left. cbn. destruct day as [d|]; destruct Hcd as [Hcd|Hcd]; cbn in Hcd; [set_solver|subst; set_solver|done|done].
    + intros _ _ _. right. right. left. exists Deferred. split; [by apply list_elem_of_singleton|done].
Qed.

Lemma deferred_throttled now ok y y0 y' : without Deferred y y0 → throttled y → turn Deferred now ok y0 = Some y' → throttled y'.
Proof.
  intros Hw T. cbn [turn]. rewrite (wo_throttle _ _ _ Hw), (wo_clock _ _ _ Hw). unfold arm. destruct (_ || _) eqn:E; intros [= <-].
  - exchange Hw T ([] : list proc).
    + intros _ c Hc [Hcd|[]]. by left.
    + intros _ Hm Hne. rewrite !orb_true_iff, bool_decide_eq_true in E. destruct E as [[[?%Z.leb_le|?]|?]|?]; [lia|by auto..|done].
  - apply orb_false_iff in E as [[[_ E2]%orb_false_iff E3]%orb_false_iff _]. exchange Hw T [Timer (y_clock y + Z.max (match th_last (y_throttle y) with Some l => minInterval - (y_clock y - l) | None => 0 end) 1000000)].
    + rewrite E3. done.
    + intros _ c Hc [Hcd|[]]. by left.
Qed.

Lemma turn_throttled p now ok y y0 y' : without p y y0 → throttled y → y_clock y ≤ now → turn p now ok y0 = Some y' → throttled y'.
Proof.
  intros Hw T Hnow. destruct p as [n day|d| |days covers|[|d days]| |at_|]; [by eapply schedule_throttled| |by eapply deferred_throttled|..]; cbn [turn].
  - intros [= <-]. rewrite (wo_throttle _ _ _ Hw). exchange Hw T [Deferred].
    + intros _ c Hc Hcd. left. destruct Hcd as [Hcd|Hcd]; cbn in *; [|subst]; set_solver.
    + intros _ _ _. right. right. left. exists Deferred. split; [by apply list_elem_of_singleton|done].
  - pose proof (runs_running _ _ _ Hw T eq_refl) as Er. destruct ok; intros [= <-].
    + exchange Hw T [Finish]; [set_solver| |by intros _ _ _; left].
      intros _ c [_ Hc]%elem_of_difference [Hcd|Hcd]; [left; cbn; by rewrite W1|done].
    + exchange Hw T [Remark days]; [|by intros _ _ _; left]. intros _ c Hc [Hcd|Hcd]; [left; cbn; by rewrite W1|].
      apply (accounted_new (Remark days)); [left|]. apply (tt_covers _ T days covers); [apply (wo_procs _ _ _ Hw); by left|done].
  - pose proof (runs_running _ _ _ Hw T eq_refl) as Er. intros [= <-]. exchange Hw T [Finish]; [|by intros _ _ _; left].
    intros _ c Hc [Hcd|Hcd]; [left; cbn; by rewrite W1|by apply not_elem_of_nil in Hcd].
  - pose proof (runs_running _ _ _ Hw T eq_refl) as Er. intros [= <-]. rewrite (wo_throttle _ _ _ Hw). exchange Hw T [Remark days]; [|by intros _ _ _; left].
    intros _ c Hc [Hcd|Hcd]; [left; cbn; set_solver|]. cbn in Hcd. apply elem_of_cons in Hcd as [<-|Hcd]; [left; cbn; set_solver|].
    apply (accounted_new (Remark days)); [left|done].
  - pose proof (runs_running _ _ _ Hw T eq_refl) as Er. intros [= <-]. rewrite (wo_throttle _ _ _ Hw). exchange Hw T [Deferred].
    + rewrite Er. done.
    + intros _ c Hc [Hcd|[]]. by left.
    + intros _ _ _. right. right. left. exists Deferred. split; [by apply list_elem_of_singleton|done].
  - destruct (at_ <=? y_clock y0); intros [= <-]. pose proof (times_armed _ _ _ Hw T eq_refl) as Ea. exchange Hw T [Fire]; [|by intros _ _ _; right; left].
    intros _ c Hc [Hcd|[]]. left. cbn. by rewrite W1.
  - pose proof (times_armed _ _ _ Hw T eq_refl) as Ea. intros [= <-]. rewrite (wo_throttle _ _ _ Hw). exchange Hw T [Schedule 0 None].
    + rewrite Ea. done.
    + intros _ c Hc [Hcd|[]]. by left.
    + intros _ _ _. right. right. left. exists (Schedule 0 None). split; [by apply list_elem_of_singleton|done].
Qed.
End Throttle.

Lemma step_throttled minInterval y y' : step minInterval y y' → throttled minInterval y → throttled minInterval y'.
Proof.
  intros Hs T. destruct Hs as [n day y|day y|now y Hn|y|l1 p l2 now ok y y' Hp Hn Ht].
  - destruct T as [T1 T2 T3 T4 T5 T6 T7]. split; [exact T1|exact T2| |exact T4|exact T5| |].
    + intros ds cv c. cbn. intros [?|Hin]%elem_of_cons; [done|by apply T3].
    + intros Hs c. cbn. intros [->%elem_of_singleton|Hc]%elem_of_union; [apply (accounted_new (Schedule n (Some day))); [left|done]|].
      destruct (T6 Hs c Hc) as [?|(q & Hq & ?)]; [by left|right]. exists q. split; [by right|done].
    + intros _ _ _. right. right. exists (Schedule n (Some day)). split; [left|done].
  - destruct T as [T1 T2 T3 T4 T5 T6 T7]. split; [exact T1|exact T2| |exact T4|exact T5| |].
    + intros ds cv c. cbn. intros [?|Hin]%elem_of_cons; [done|by apply T3].
    + intros Hs c. cbn. intros [->%elem_of_singleton|Hc]%elem_of_union; [apply (accounted_new (Mark day)); [left|done]|].
      destruct (T6 Hs c Hc) as [?|(q & Hq & ?)]; [by left|right]. exists q. split; [by right|done].
    + intros Hs Hm Hne. destruct (T7 Hs Hm Hne) as [?|[?|(q & Hq & ?)]]; [by auto..|]. right. right. exists q. split; [by right|done].
  - by destruct T.
  - by destruct T.
  - eapply turn_throttled; [by apply take_out|done|done|done].
Qed.

(** Without an interval, the hundredth block takes every marked day. *)
Lemma due_takes minInterval t n day now1 now2 d : minInterval ≤ 0 → th_running t = false → d ∈ th_dirty t → Z.rem n 100 = 0 →
  ∃ days, (due minInterval t n day now1 now2).2 = Some days ∧ d ∈ days.
Proof.
  intros Hm Hr Hd Hn. unfold due. cbn [th_running th_dirty th_last]. set (dirty := match day with Some d => _ | None => _ end).
  assert (d ∈ dirty) as Hin by (subst dirty; destruct day; set_solver). rewrite Hr. rewrite bool_decide_eq_false_2 by set_solver. cbn [orb].
  destruct (Z.leb_spec minInterval 0); [|lia]. rewrite Hn. cbn. eexists. split; [done|]. rewrite merge_sort_Permutation. by apply elem_of_elements.
Qed.


(** ** Playing a run *)

Inductive event := ECommit (n day : Z) | EEmpty (day : Z) | ETick (now : Z) | ETurn (i : nat) (now : Z) (ok : bool).
Definition play_one (minInterval : Z) (e : event) (y : system) : option system :=
  match e with
  | ECommit n day => Some (spawn (Schedule n (Some day)) (commit day y))
  | EEmpty day => Some (spawn (Mark day) (commit day y))
  | ETick now => if y_clock y <=? now then Some (mkSystem (y_throttle y) (y_procs y) now (y_stopped y) (y_owed y) (y_next y) (y_starts y)) else None
  | ETurn i now ok =>
      match y_procs y !! i with
      | Some p => if y_clock y <=? now then turn minInterval p now ok (set_procs (delete i (y_procs y)) y) else None
      | None => None
      end
  end.
Fixpoint play (minInterval : Z) (es : list event) (y : system) : option system :=
  match es with [] => Some y | e :: es => play_one minInterval e y ≫= play minInterval es end.

Lemma play_one_step minInterval e y y' : play_one minInterval e y = Some y' → step minInterval y y'.
Proof.
  destruct e as [n day|day|now|i now ok]; cbn [play_one].
  - intros [= <-]. constructor.
  - intros [= <-]. constructor.
  - destruct (Z.leb_spec (y_clock y) now); [|done]. intros [= <-]. by constructor.
  - destruct (y_procs y !! i) as [p|] eqn:Ei; [|done]. destruct (Z.leb_spec (y_clock y) now); [|done]. intros Ht.
    eapply (step_turn _ (take i (y_procs y)) p (drop (S i) (y_procs y))); [symmetry; by apply take_drop_middle|done|]. by rewrite <- delete_take_drop.
Qed.
Lemma play_steps minInterval es y y' : play minInterval es y = Some y' → rtc (step minInterval) y y'.
Proof.
  revert y. induction es as [|e es IH]; intros y; cbn [play]; [by intros [= <-]|].
  intros (y1 & H1 & H2)%bind_Some. eapply rtc_l; [by eapply play_one_step|by apply IH].
Qed.

(** Day 19 starts a run; an empty block of day 20 comes meanwhile, the run fails, the
    timer takes both days. *)
Definition quiet_evening : list event :=
  [ECommit 100 19; ETurn 0 10 true; EEmpty 20; ETurn 0 20 true; ETurn 0 20 true; ETurn 0 30 false; ETurn 0 30 true; ETurn 0 30 true;
   ETurn 0 40 true; ETurn 0 50 true; ETick 3000000000; ETurn 0 3000000000 true; ETurn 0 3000000000 true; ETurn 0 3000000000 true;
   ETurn 0 3000000000 true; ETurn 0 3000000000 true; ETurn 0 3000000000 true].


(** Without an interval, a day whose last block is not a hundredth one: nothing is left to
    happen, and the day is not recomputed. *)
Example zero_interval_waits :
  (λ y, (y_procs y, elements (y_owed y), y_starts y)) <$> play 0 [ECommit 101 19; ETurn 0 10 true; ETurn 0 20 true] start_system = Some ([], [(0%nat, 19)], []).
Proof. vm_compute. reflexivity. Qed.
