(* ===== verification/RpcBatch.v ===== *)
(** * Batched node calls

    [pkg/eth/rpclient/batch.go]: one JSON-RPC batch per request. The calls take ids from
    the client's counter; the replies come in any order and are put back by id. What the
    transport answers is a parameter. *)

From S2P Require Import Prelude.

(** A call's failure: the HTTP status, or anything else. *)
Inductive batch_err := HTTPStatusError (code : Z) | OtherError.

(** A reply of the batch: its id, whether it is an error, the raw result (a [None] is
    null or missing). *)
Record batch_reply (raw : Type) := mkReply { rp_id : Z; rp_error : bool; rp_result : option raw }.
Arguments mkReply {raw}.
Arguments rp_id {raw}.
Arguments rp_error {raw}.
Arguments rp_result {raw}.

(** The transport: no answer, a status, a body that is not a batch, or the replies. *)
Inductive transport (raw : Type) := NoAnswer | Status (code : Z) | BadBody | Replies (l : list (batch_reply raw)).
Arguments NoAnswer {raw}.
Arguments Status {raw}.
Arguments BadBody {raw}.
Arguments Replies {raw}.

Section Batch.
Context {raw A : Type} (decode : raw → option A).

(** [index]: the ids of a batch of [n] calls, from the counter [last]. *)
Definition batch_ids (last : Z) (n : nat) : list Z := (λ i, u64 (last + 1 + Z.of_nat i)) <$> seq 0 n.
(** The last call that has the id, as the map keeps it. *)
Definition batch_index (ids : list Z) (id : Z) : option nat := last (filter (λ i, ids !! i = Some id) (seq 0 (length ids))).

Definition place_reply (ids : list Z) (out : list (option A)) (r : batch_reply raw) : res batch_err (list (option A)) :=
  match batch_index ids (rp_id r) with
  | None => Err OtherError
  | Some i =>
      if rp_error r then Err OtherError
      else match rp_result r with
           | None => Ok out
           | Some x => match decode x with Some a => Ok (<[i := Some a]> out) | None => Err OtherError end
           end
  end.

Fixpoint place_replies (ids : list Z) (out : list (option A)) (l : list (batch_reply raw)) : res batch_err (list (option A)) :=
  match l with
  | [] => Ok out
  | r :: l => match place_reply ids out r with Ok out => place_replies ids out l | Err e => Err e end
  end.

Definition BatchCallContext (last : Z) (n : nat) (answer : transport raw) : res batch_err (list (option A)) :=
  let out := replicate n None in
  match n with
  | O => Ok out
  | _ =>
      match answer with
      | NoAnswer => Err OtherError
      | Status code => Err (HTTPStatusError code)
      | BadBody => Err OtherError
      | Replies l => if (length l =? n)%nat then place_replies (batch_ids last n) out l else Err OtherError
      end
  end.

(** ** Every result is at the call that asked for it *)

Lemma batch_ids_length last n : length (batch_ids last n) = n.
Proof. unfold batch_ids. by rewrite length_fmap, length_seq. Qed.

Lemma batch_index_Some ids id i : batch_index ids id = Some i → ids !! i = Some id.
Proof. unfold batch_index. intros H%last_Some_elem_of%list_elem_of_filter. tauto. Qed.

(** Each entry holds what some reply with the entry's own id said. *)
Lemma place_replies_own (P : nat → A → Prop) ids out l out' : (∀ i a, out !! i = Some (Some a) → P i a) →
  (∀ r i x a, r ∈ l → ids !! i = Some (rp_id r) → rp_result r = Some x → decode x = Some a → P i a) →
  place_replies ids out l = Ok out' → length out' = length out ∧ ∀ i a, out' !! i = Some (Some a) → P i a.
Proof.
  revert out. induction l as [|r l IH]; intros out Ho Hl E; cbn in E; [by injection E as <-|].
  unfold place_reply in E. destruct (batch_index ids (rp_id r)) as [i|] eqn:Ei; [|done]. apply batch_index_Some in Ei.
  destruct (rp_error r); [done|].
  assert (∀ r' i x a, r' ∈ l → ids !! i = Some (rp_id r') → rp_result r' = Some x → decode x = Some a → P i a) as Hl'.
  { intros r' i' x a Hr. apply Hl. by right. }
  destruct (rp_result r) as [x|] eqn:Ex; [|by apply IH]. destruct (decode x) as [a|] eqn:Ea; [|done].
  destruct (IH (<[i := Some a]> out)) as [Hlen Hout']; [|done|done|split; [by rewrite Hlen, length_insert|done]].
  intros j b. destruct (decide (j = i)) as [->|Hne]; [|rewrite list_lookup_insert_ne by done; apply Ho].
  destruct (decide (i < length out)%nat); [rewrite list_lookup_insert_eq by done|rewrite list_insert_ge by lia; apply Ho].
  intros [= <-]. apply (Hl r i x a); [left|done|done|done].
Qed.

Lemma BatchCallContext_own (P : nat → A → Prop) last n answer out :
  (∀ l r i x a, answer = Replies l → r ∈ l → batch_ids last n !! i = Some (rp_id r) → rp_result r = Some x → decode x = Some a → P i a) →
  BatchCallContext last n answer = Ok out → length out = n ∧ ∀ i a, out !! i = Some (Some a) → P i a.
Proof.
  intros HP. unfold BatchCallContext. destruct n as [|n]; [by intros [= <-]|]. destruct answer as [|code| |l]; [done|done|done|].
  destruct (length l =? S n)%nat; [|done]. intros E. rewrite <-(length_replicate (S n) (None : option A)).
  apply (place_replies_own P (batch_ids last (S n)) _ l); [|by intros r i x a Hr; apply (HP l)|done].
  intros i a Hi. by apply lookup_replicate_1 in Hi as [? _].
Qed.
End Batch.
