(* ===== verification/RefillWrite.v ===== *)
(** * Writing refilled days

    [internal/db/daily_refill.go]: days counted from the node, their checkpoints, and the
    one transaction that writes them into the daily tables: the refilled rows, the block
    range of every day, the addresses first seen in it, and the running totals. *)

From S2P Require Import Prelude.

Record RefillDay := mkRefillDay {
  rd_Date : Z; rd_FirstBlock : Z; rd_LastBlock : Z; rd_Blocks : Z; rd_Txs : Z; rd_GasUsed : Z; rd_SizeSum : Z; rd_SizeN : Z;
  rd_BlockTimeSum : Z; rd_BlockTimeN : Z; rd_GasPriceSum : option Z; rd_ActiveAddresses : option Z; rd_SuccessfulTxs : option Z;
  rd_FailedTxs : option Z; rd_TokenTransfers : option Z }.

(** ** The tables

    A date is its day number. An average is its sum and count, 0 when the count is. *)

Record stats_row := mkStatsRow {
  s_blocks : Z; s_txs : Z; s_gas : Z; s_gasPrice : Z * Z; s_successful : Z; s_failed : Z; s_active : Z; s_blockTime : Z * Z; s_size : Z * Z;
  s_transfers : Z; s_newAddresses : Z; s_newContracts : Z; s_cumTxs : Z; s_cumAddresses : Z; s_cumContracts : Z }.
Record acc_row := mkAccRow {
  a_first : option Z; a_blocks : Z; a_gas : Z; a_sizeSum : Z; a_sizeN : Z; a_timeSum : Z; a_timeN : Z; a_txs : Z; a_gasPrice : Z;
  a_successful : Z; a_failed : Z; a_active : Z; a_transfers : Z; a_before : option Z }.

(** [t_counter]: transactions_total; [t_txs]: the blocks of the stored transactions;
    [t_seen]: first_seen and is_contract of address_stats. *)
Record daily_tables := mkTables {
  t_stats : gmap Z stats_row; t_acc : gmap Z acc_row; t_watermark : option Z; t_generation : Z; t_counter : option Z; t_txs : list Z;
  t_seen : list (option Z * bool) }.
Definition with_stats (m : gmap Z stats_row) (t : daily_tables) : daily_tables :=
  mkTables m (t_acc t) (t_watermark t) (t_generation t) (t_counter t) (t_txs t) (t_seen t).
Definition set_acc (m : gmap Z acc_row) (t : daily_tables) : daily_tables :=
  mkTables (t_stats t) m (t_watermark t) (t_generation t) (t_counter t) (t_txs t) (t_seen t).
(** [generation + 1] of the watermark's row, where there is one. *)
Definition bump (t : daily_tables) : daily_tables :=
  mkTables (t_stats t) (t_acc t) (t_watermark t) (match t_watermark t with Some _ => t_generation t + 1 | None => t_generation t end) (t_counter t) (t_txs t)
    (t_seen t).
Definition watermark_of (t : daily_tables) : Z := default (-1) (t_watermark t).

(** ** The refilled rows *)

Definition sql_coalesce {A} (x : option A) (y : option A) (z : A) : A := default z (match x with Some _ => x | None => y end).

(** The row of daily_stats: its other columns stay, or are 0. *)
Definition refill_stats (r : RefillDay) (d : option stats_row) : stats_row :=
  let keep (f : stats_row → Z) := default 0 (f <$> d) in
  mkStatsRow (rd_Blocks r) (rd_Txs r) (rd_GasUsed r) (sql_coalesce ((λ s, (s, rd_Txs r)) <$> rd_GasPriceSum r) (s_gasPrice <$> d) (0, 0))
    (sql_coalesce (rd_SuccessfulTxs r) (s_successful <$> d) 0) (sql_coalesce (rd_FailedTxs r) (s_failed <$> d) 0)
    (sql_coalesce (rd_ActiveAddresses r) (s_active <$> d) 0) (rd_BlockTimeSum r, rd_BlockTimeN r) (rd_SizeSum r, rd_SizeN r)
    (sql_coalesce (rd_TokenTransfers r) (s_transfers <$> d) 0)
    (keep s_newAddresses) (keep s_newContracts) (keep s_cumTxs) (keep s_cumAddresses) (keep s_cumContracts).

Definition refill_acc (r : RefillDay) (o : option acc_row) : acc_row :=
  mkAccRow (Some (i64 (rd_FirstBlock r))) (rd_Blocks r) (rd_GasUsed r) (rd_SizeSum r) (rd_SizeN r) (rd_BlockTimeSum r) (rd_BlockTimeN r) (rd_Txs r)
    (sql_coalesce (rd_GasPriceSum r) (a_gasPrice <$> o) 0) (sql_coalesce (rd_SuccessfulTxs r) (a_successful <$> o) 0)
    (sql_coalesce (rd_FailedTxs r) (a_failed <$> o) 0) (sql_coalesce (rd_ActiveAddresses r) (a_active <$> o) 0)
    (sql_coalesce (rd_TokenTransfers r) (a_transfers <$> o) 0) (o ≫= a_before).

(** Both inserts read the tables as they were: one statement each. *)
Definition upsert_days {A} (f : RefillDay → option A → A) (days : list RefillDay) (m : gmap Z A) : gmap Z A :=
  list_to_map ((λ r, (rd_Date r, f r (m !! rd_Date r))) <$> days) ∪ m.

(** ** The block range of each day *)

Record DaySpan := mkDaySpan { sp_Date : Z; sp_Lo : Z; sp_Hi : Z }.
Record DayRow := mkDayRow { dw_Date : Z; dw_TotalBlocks : Z; dw_FirstBlock : option Z }.

Section Spans.
Context (days : list DayRow).

Definition next (i : nat) : bool :=
  match days !! i, days !! S i with Some a, Some b => dw_Date b =? dw_Date a + 1 | _, _ => false end.
Definition total_blocks (i : nat) : Z := default 0 (dw_TotalBlocks <$> days !! i).

(** The inner loop: the days from [j] on whose first block is not recorded, each
    starting where the one before ends. *)
Fixpoint guess_run (fuel : nat) (first : list (option Z)) (i j : nat) (at_ : Z) (guess : list (nat * Z)) : nat * Z * list (nat * Z) :=
  match fuel with
  | O => (j, at_, guess)
  | S fuel =>
      match first !! j with
      | Some None => if (i <? j)%nat && negb (next (j - 1)) then (j, at_, guess) else guess_run fuel first i (S j) (u64 (at_ + total_blocks j)) (guess ++ [(j, at_)])
      | _ => (j, at_, guess)
      end
  end.

Definition take_guess (first : list (option Z)) (guess : list (nat * Z)) : list (option Z) := foldl (λ f kv, <[kv.1 := Some kv.2]> f) first guess.

(** The outer loop; [i = j] at the end of a run, then [i++]. *)
Fixpoint infer (fuel : nat) (i : nat) (first : list (option Z)) (inferred : list (nat * Z)) : list (option Z) * list (nat * Z) :=
  match fuel with
  | O => (first, inferred)
  | S fuel =>
      match first !! i, first !! (i - 1)%nat with
      | Some None, Some (Some f) =>
          if next (i - 1) then
            let '(j, at_, guess) := guess_run (length days) first i i (u64 (f + total_blocks (i - 1))) [] in
            match first !! j with
            | Some (Some g) => if next (j - 1) && (at_ =? g) then infer fuel (S j) (take_guess first guess) (inferred ++ guess) else infer fuel (S j) first inferred
            | _ => infer fuel (S j) first inferred
            end
          else infer fuel (S i) first inferred
      | _, _ => infer fuel (S i) first inferred
      end
  end.

Definition place_day (watermark : Z) (first : list (option Z)) (i : nat) (d : DayRow) : DaySpan + Z :=
  match first !! i with
  | Some (Some lo) =>
      if (i =? length days - 1)%nat then if lo <? u64 (watermark + 1) then inl (mkDaySpan (dw_Date d) lo (u64 (watermark + 1))) else inr (dw_Date d)
      else if next i then match first !! S i with Some (Some hi) => inl (mkDaySpan (dw_Date d) lo hi) | _ => inr (dw_Date d) end else inr (dw_Date d)
  | _ => inr (dw_Date d)
  end.

Definition daySpans (watermark : Z) : list DaySpan * gmap Z Z * list Z :=
  let '(first, inferred) := infer (length days) 1 (dw_FirstBlock <$> days) [] in
  let placed := imap (place_day watermark first) days in
  (omap (λ p, match p with inl s => Some s | inr _ => None end) placed,
   list_to_map (omap (λ kv, (λ d, (dw_Date d, kv.2)) <$> days !! kv.1) inferred),
   omap (λ p, match p with inl _ => None | inr d => Some d end) placed).
End Spans.

(** ** The addresses of each day *)

(** [SELECT ... WHERE hi > first_seen ORDER BY hi LIMIT 1]; [spans] as the query meets
    them. *)
Definition span_of (spans : list DaySpan) (seen : Z) : option DaySpan :=
  foldl (λ best sp, if seen <? sp_Hi sp then match best with Some b => if sp_Hi sp <? sp_Hi b then Some sp else best | None => Some sp end else best)
    None spans.

Definition placed (spans : list DaySpan) (seen : list (option Z * bool)) : list (Z * bool * bool) :=
  omap (λ a, match a.1 with Some n => (λ sp, (sp_Date sp, bool_decide (sp_Lo sp ≤ n), a.2)) <$> span_of spans n | None => None end) seen.

(** Per day: the new addresses and contracts, and all those placed in it. *)
Definition new_in (p : list (Z * bool * bool)) (d : Z) : Z := zlen (filter (λ x, x.1.1 = d ∧ x.1.2 = true) p).
Definition new_contracts_in (p : list (Z * bool * bool)) (d : Z) : Z := zlen (filter (λ x, x.1.1 = d ∧ x.1.2 = true ∧ x.2 = true) p).
Definition below_in (p : list (Z * bool * bool)) (d : Z) : Z := zlen (filter (λ x, x.1.1 = d) p).
Definition below_contracts_in (p : list (Z * bool * bool)) (d : Z) : Z := zlen (filter (λ x, x.1.1 = d ∧ x.2 = true) p).
(** [sum(...) OVER (ORDER BY hi)], peers included. *)
Definition running (spans : list DaySpan) (f : Z → Z) (hi : Z) : Z := foldr Z.add 0 ((λ sp, f (sp_Date sp)) <$> filter (λ sp, sp_Hi sp ≤ hi) spans).

Definition set_addresses (na nc ca cc : Z) (s : stats_row) : stats_row :=
  mkStatsRow (s_blocks s) (s_txs s) (s_gas s) (s_gasPrice s) (s_successful s) (s_failed s) (s_active s) (s_blockTime s) (s_size s) (s_transfers s)
    na nc (s_cumTxs s) ca cc.
Definition count_day (spans : list DaySpan) (p : list (Z * bool * bool)) (m : gmap Z stats_row) (sp : DaySpan) : gmap Z stats_row :=
  alter (set_addresses (new_in p (sp_Date sp)) (new_contracts_in p (sp_Date sp)) (running spans (below_in p) (sp_Hi sp))
           (running spans (below_contracts_in p) (sp_Hi sp))) (sp_Date sp) m.

(** The rows of the query, in date order. *)
Definition dates (t : daily_tables) : list Z := merge_sort Z.le (map_to_list (t_stats t)).*1.
Definition day_rows (t : daily_tables) : list DayRow :=
  omap (λ d, (λ s, mkDayRow d (u64 (s_blocks s)) (u64 <$> (t_acc t !! d ≫= a_first))) <$> t_stats t !! d) (dates t).

Definition record_first (inferred : gmap Z Z) (m : gmap Z acc_row) : gmap Z acc_row :=
  map_imap (λ d a, Some (match a_first a, inferred !! d with
                         | None, Some n => mkAccRow (Some (i64 n)) (a_blocks a) (a_gas a) (a_sizeSum a) (a_sizeN a) (a_timeSum a) (a_timeN a) (a_txs a)
                                             (a_gasPrice a) (a_successful a) (a_failed a) (a_active a) (a_transfers a) (a_before a)
                         | _, _ => a
                         end)) m.

(** [meet] is the order in which a query meets the rows of refill_spans. *)
Definition recountDailyAddressColumns (meet : list DaySpan → list DaySpan) (t : daily_tables) : daily_tables :=
  let '(spans, inferred, _) := daySpans (day_rows t) (u64 (Z.max (watermark_of t) 0)) in
  let spans := (λ sp, mkDaySpan (sp_Date sp) (i64 (sp_Lo sp)) (i64 (sp_Hi sp))) <$> spans in
  let p := placed (meet spans) (t_seen t) in
  with_stats (foldl (count_day spans p) (t_stats t) spans) (set_acc (record_first inferred (t_acc t)) t).

(** ** The running total of transactions *)

(** The recursive query: from the newest day back, day by day. *)
Fixpoint day_ends (fuel : nat) (m : gmap Z stats_row) (d cumulative : Z) : list (Z * Z * Z) :=
  match fuel with
  | O => []
  | S fuel => match m !! d with Some s => (d, s_txs s, cumulative) :: day_ends fuel m (d - 1) (cumulative - s_txs s) | None => [] end
  end.
Definition newest (t : daily_tables) : option Z := last (dates t).
(** The counter less the stored transactions above the watermark. *)
Definition counted_through (t : daily_tables) : option Z :=
  (λ c, c - zlen (filter (λ n, watermark_of t < n) (t_txs t))) <$> t_counter t.

Definition set_cumulative (c : Z) (s : stats_row) : stats_row :=
  mkStatsRow (s_blocks s) (s_txs s) (s_gas s) (s_gasPrice s) (s_successful s) (s_failed s) (s_active s) (s_blockTime s) (s_size s) (s_transfers s)
    (s_newAddresses s) (s_newContracts s) c (s_cumAddresses s) (s_cumContracts s).
Definition set_before (b : Z) (a : acc_row) : acc_row :=
  mkAccRow (a_first a) (a_blocks a) (a_gas a) (a_sizeSum a) (a_sizeN a) (a_timeSum a) (a_timeN a) (a_txs a) (a_gasPrice a) (a_successful a) (a_failed a)
    (a_active a) (a_transfers a) (Some b).

(** No counter is a null cumulative, which the column refuses. *)
Definition write_cumulative (t : daily_tables) : option daily_tables :=
  match newest t with
  | None => Some t
  | Some d =>
      match counted_through t with
      | None => None
      | Some c =>
          let ends := day_ends (size (t_stats t)) (t_stats t) d c in
          Some (with_stats (foldl (λ m e, alter (set_cumulative e.2) e.1.1 m) (t_stats t) ends)
                  (set_acc (foldl (λ m e, alter (set_before (e.2 - e.1.2)) e.1.1 m) (t_acc t) ends) t))
      end
  end.

(** ** The transaction *)

Inductive refill_write_err := ErrRefillAboveWatermark (date : Z) | WriteFailed.

Definition refilled (days : list RefillDay) (t : daily_tables) : daily_tables :=
  with_stats (upsert_days refill_stats days (t_stats t)) (set_acc (upsert_days refill_acc days (t_acc t)) (bump t)).

Definition WriteRefilledDailyStats (meet : list DaySpan → list DaySpan) (days : list RefillDay) (dry : bool) (t : daily_tables) :
    daily_tables * res refill_write_err (list (Z * stats_row)) :=
  match List.find (λ r, watermark_of t <? i64 (rd_LastBlock r)) days with
  | Some r => (t, Err (ErrRefillAboveWatermark (rd_Date r)))
  | None =>
      if bool_decide (NoDup (rd_Date <$> days)) then
        match write_cumulative (recountDailyAddressColumns meet (refilled days t)) with
        | None => (t, Err WriteFailed)
        | Some t' =>
            let rows := match rd_Date <$> days with
                        | [] => []
                        | x :: l => omap (λ d, (λ s, (d, s)) <$> t_stats t' !! d) (filter (λ d, foldr Z.min x l ≤ d) (dates t'))
                        end in
            (if dry then t else t', Ok rows)
        end
      else (t, Err WriteFailed)
  end.
