(* ===== verification/RefillWriteProps.v ===== *)
(** * What writing refilled days keeps

    The block range given to a day, the addresses counted in it, and the running total. *)

From S2P Require Import Prelude RefillWrite.

(** ** The block ranges *)

Section Spans.
Context (days : list DayRow) (start : Z → Z).
(** [start d] is the first block of day [d] or later. A recorded first block is true, a
    day's block count does not exceed the day. *)
Hypothesis Hfirst : ∀ r f, r ∈ days → dw_FirstBlock r = Some f → f = start (dw_Date r).
Hypothesis Htotal : ∀ r, r ∈ days → 0 ≤ dw_TotalBlocks r ≤ start (dw_Date r + 1) - start (dw_Date r).
Hypothesis Hu64 : ∀ r, r ∈ days → 0 ≤ start (dw_Date r) ∧ start (dw_Date r + 1) < W64.

Definition true_at (k : nat) (v : Z) : Prop := ∀ r, days !! k = Some r → v = start (dw_Date r).
Definition true_first (first : list (option Z)) : Prop := ∀ k v, first !! k = Some (Some v) → true_at k v.

Lemma next_true i a b : next days i = true → days !! i = Some a → days !! S i = Some b → dw_Date b = dw_Date a + 1.
Proof. unfold next. intros H Ha Hb. rewrite Ha, Hb in H. by apply Z.eqb_eq in H. Qed.

Lemma total_of i r : days !! i = Some r → total_blocks days i = dw_TotalBlocks r.
Proof. intros H. unfold total_blocks. by rewrite H. Qed.

(** A run whose end is true had every day true: none was below its day. *)
Lemma guess_run_true fuel first i j v g j' v' g' : (i ≤ j)%nat → length first = length days →
  guess_run days fuel first i j v g = (j', v', g') →
  0 ≤ v → (∀ r, days !! j = Some r → i = j ∨ next days (j - 1) = true → v ≤ start (dw_Date r)) →
  ∃ h, g' = g ++ h ∧ (j ≤ j')%nat ∧
    (next days (j' - 1) = true → (i < j')%nat → true_at j' v' → (j' < length days)%nat →
     (i < j → next days (j - 1) = true)%nat ∧ true_at j v ∧ Forall (λ kv, true_at kv.1 kv.2) h).
Proof.
  revert j v g. induction fuel as [|fuel IH]; intros j v g Hij Hlen E Hv Hle; cbn [guess_run] in E.
  { injection E as <- <- <-. exists []. rewrite app_nil_r. split_and!; [done|lia|]. intros ????. split_and!; [done|done|constructor]. }
  assert (∃ h, g = g ++ h ∧ (j ≤ j)%nat ∧ (next days (j - 1) = true → (i < j)%nat → true_at j v → (j < length days)%nat →
     (i < j → next days (j - 1) = true)%nat ∧ true_at j v ∧ Forall (λ kv, true_at kv.1 kv.2) h)) as Hstop.
  { exists []. rewrite app_nil_r. split_and!; [done|lia|]. intros ????. split_and!; [done|done|constructor]. }
  destruct (first !! j) as [[f|]|] eqn:Ef; [by injection E as <- <- <-| |by injection E as <- <- <-].
  destruct ((i <? j)%nat && negb (next days (j - 1))) eqn:Eb; [by injection E as <- <- <-|].
  assert (i < j → next days (j - 1) = true)%nat as Hn.
  { intros Hlt. apply andb_false_iff in Eb as [Eb|Eb]; [apply Nat.ltb_ge in Eb; lia|]. by destruct (next days (j - 1)). }
  destruct (lookup_lt_is_Some_2 days j) as [r Er]; [rewrite <-Hlen; by apply lookup_lt_Some in Ef|].
  pose proof (list_elem_of_lookup_2 _ _ _ Er) as Hr. pose proof (Htotal r Hr) as Ht. pose proof (Hu64 r Hr) as [Hu1 Hu2].
  assert (v ≤ start (dw_Date r)) as Hvr. { apply Hle; [done|]. destruct (decide (i = j)); [by left|right; apply Hn; lia]. }
  rewrite (total_of j r Er), u64_small in E by (unfold is_u64; lia).
  destruct (IH (S j) (v + dw_TotalBlocks r) (g ++ [(j, v)])) as (h & -> & Hj & Hend); [lia|done|done|lia| |].
  { intros r' Er' [?|Hnx]; [lia|]. rewrite Nat.sub_succ, Nat.sub_0_r in Hnx. rewrite (next_true j r r') by done. lia. }
  exists ((j, v) :: h). rewrite <-app_assoc. split_and!; [done|lia|]. intros Hnx Hi Ht' Hlt.
  destruct (Hend Hnx) as (Hnj & Hat & Hall); [lia|done|done|]. rewrite Nat.sub_succ, Nat.sub_0_r in Hnj.
  assert (true_at j v) as Hjv.
  { intros r2 Er2. rewrite Er in Er2. injection Er2 as <-. destruct (lookup_lt_is_Some_2 days (S j)) as [r' Er']; [lia|]. specialize (Hat r' Er').
    rewrite (next_true j r r') in Hat; [lia|apply Hnj; lia|done|done]. }
  split_and!; [done|done|by constructor].
Qed.

Lemma take_guess_true first g : true_first first → Forall (λ kv, true_at kv.1 kv.2) g → true_first (take_guess first g).
Proof.
  revert first. induction g as [|[k v] g IH]; intros first Hf Hg; [done|]. apply Forall_cons in Hg as [Hk Hg]. cbn. apply IH; [|done].
  intros k' v' E. destruct (decide (k' = k)) as [->|Hne]; [|rewrite list_lookup_insert_ne in E by done; by apply Hf].
  apply list_lookup_insert_Some in E as [(_ & [= ->] & _)|[? _]]; done.
Qed.
Lemma take_guess_length first g : length (take_guess first g) = length first.
Proof. revert first. induction g as [|[k v] g IH]; intros first; [done|]. cbn. rewrite IH. apply length_insert. Qed.

(** What is inferred is true. *)
Lemma infer_true fuel i first g first' g' : (1 ≤ i)%nat → length first = length days → true_first first → Forall (λ kv, true_at kv.1 kv.2) g →
  infer days fuel i first g = (first', g') → length first' = length days ∧ true_first first' ∧ Forall (λ kv, true_at kv.1 kv.2) g'.
Proof.
  revert i first g. induction fuel as [|fuel IH]; intros i first g Hi Hlen Hf Hg E; cbn [infer] in E; [by injection E as <- <-|].
  assert (∀ i, (1 ≤ i)%nat → infer days fuel i first g = (first', g') → length first' = length days ∧ true_first first' ∧ Forall (λ kv, true_at kv.1 kv.2) g') as Hgo.
  { intros i' Hi'. by apply IH. }
  destruct (first !! i) as [[?|]|] eqn:Ei; [by apply (Hgo (S i)); [lia|]| |by apply (Hgo (S i)); [lia|]].
  destruct (first !! (i - 1)%nat) as [[f|]|] eqn:Ef; [|by apply (Hgo (S i)); [lia|]|by apply (Hgo (S i)); [lia|]].
  destruct (next days (i - 1)) eqn:En; [|by apply (Hgo (S i)); [lia|]].
  destruct (guess_run days (length days) first i i (u64 (f + total_blocks days (i - 1))) []) as [[j at_] guess] eqn:Er.
  assert (i < length days)%nat as Hlt by (rewrite <-Hlen; by apply lookup_lt_Some in Ei).
  destruct (lookup_lt_is_Some_2 days (i - 1)) as [r0 E0]; [lia|]. destruct (lookup_lt_is_Some_2 days i) as [r1 E1]; [lia|].
  pose proof (list_elem_of_lookup_2 _ _ _ E0) as H0. pose proof (Htotal r0 H0) as Ht. pose proof (Hu64 r0 H0) as [Hu1 Hu2].
  assert (dw_Date r1 = dw_Date r0 + 1) as Hd1. { apply (next_true (i - 1)); [done|done|]. by replace (S (i - 1)) with i by lia. }
  pose proof (Hf _ _ Ef _ E0) as Ef0. rewrite (total_of _ r0 E0), u64_small in Er by (unfold is_u64; lia).
  destruct (guess_run_true _ _ _ _ _ _ _ _ _ (Nat.le_refl i) Hlen Er) as (h & -> & Hj & Hend); [lia| |].
  { intros r Hr _. simplify_eq. rewrite Hd1. lia. }
  destruct (first !! j) as [[w|]|] eqn:Ej; [|by apply (Hgo (S j)); [lia|]|by apply (Hgo (S j)); [lia|]].
  destruct (next days (j - 1) && (at_ =? w)) eqn:Eb; [|by apply (Hgo (S j)); [lia|]].
  apply andb_true_iff in Eb as [Hnx ->%Z.eqb_eq]. cbn in E. pose proof (lookup_lt_Some _ _ _ Ej) as Hjl.
  destruct Hend as (_ & _ & Hh); [done| |by apply Hf|lia|].
  { destruct (decide (i = j)) as [->|]; [by rewrite Ei in Ej|lia]. }
  apply (IH (S j) (take_guess first h) (g ++ h)); [lia|by rewrite take_guess_length|by apply take_guess_true|by apply Forall_app|done].
Qed.

(** With every count exact and both ends of a run of days recorded, all are inferred. *)
Section Exact.
Hypothesis Hexact : ∀ r, r ∈ days → dw_TotalBlocks r = start (dw_Date r + 1) - start (dw_Date r).
Hypothesis Hnext : ∀ i, (S i < length days)%nat → next days i = true.
Notation n := (length days).
Definition knows (first : list (option Z)) (k : nat) : Prop := ∃ v, first !! k = Some (Some v).

Lemma guess_run_lands fuel first i j v g j' v' g' : (j < n)%nat → (n - j ≤ fuel)%nat → length first = n → knows first (n - 1) → true_at j v →
  guess_run days fuel first i j v g = (j', v', g') →
  (j ≤ j')%nat ∧ knows first j' ∧ true_at j' v' ∧ (∀ kv, kv ∈ g → kv ∈ g') ∧ ∀ k, (j ≤ k < j')%nat → ∃ u, (k, u) ∈ g'.
Proof.
  revert j v g. induction fuel as [|fuel IH]; intros j v g Hj Hfuel Hlen Hlast Ht E; [lia|]. cbn [guess_run] in E.
  destruct (first !! j) as [[f|]|] eqn:Ef.
  - injection E as <- <- <-. split_and!; [lia|by exists f|done|done|]. intros k ?. lia.
  - destruct (lookup_lt_is_Some_2 days j Hj) as [r Er]. pose proof (list_elem_of_lookup_2 _ _ _ Er) as Hr.
    assert (S j < n)%nat as Hsj. { destruct Hlast as [u Hu]. destruct (decide (j = n - 1)%nat) as [->|]; [congruence|lia]. }
    assert (((i <? j)%nat && negb (next days (j - 1))) = false) as Eb.
    { destruct (decide (i < j)%nat); [|apply andb_false_iff; left; apply Nat.ltb_ge; lia]. rewrite Hnext by lia. apply andb_false_r. }
    rewrite Eb in E. pose proof (Hexact r Hr). pose proof (Hu64 r Hr) as [? ?]. pose proof (Htotal r Hr). specialize (Ht r Er) as Htr.
    rewrite (total_of j r Er), u64_small in E by (unfold is_u64; lia).
    destruct (IH (S j) (v + dw_TotalBlocks r) (g ++ [(j, v)])) as (? & ? & ? & Hg & Hk); [lia|lia|done|done| |done|].
    { intros r' Er'. rewrite (next_true j r r') by (done || by apply Hnext). lia. }
    split_and!; [lia|done|done| |].
    + intros kv Hkv. apply Hg, elem_of_app. by left.
    + intros k Hjk. destruct (decide (k = j)) as [->|]; [|apply Hk; lia]. exists v. apply Hg, elem_of_app. right. by left.
  - apply lookup_ge_None in Ef. lia.
Qed.

Lemma take_guess_keeps first g k : knows first k → knows (take_guess first g) k.
Proof.
  revert first. induction g as [|[j v] g IH]; intros first [u Hu]; [by exists u|]. cbn. apply IH. destruct (decide (k = j)) as [->|].
  - exists v. apply list_lookup_insert_eq. by apply lookup_lt_Some in Hu.
  - exists u. by rewrite list_lookup_insert_ne.
Qed.
Lemma take_guess_knows first g k u : (k, u) ∈ g → (k < length first)%nat → knows (take_guess first g) k.
Proof.
  revert first. induction g as [|[j v] g IH]; intros first Hk Hl; [by apply not_elem_of_nil in Hk|]. cbn.
  apply elem_of_cons in Hk as [[= -> ->]|Hk]; [|apply IH; [done|by rewrite length_insert]].
  apply take_guess_keeps. exists v. by apply list_lookup_insert_eq.
Qed.

Lemma infer_all fuel i first g : (1 ≤ i)%nat → (n ≤ i + fuel)%nat → length first = n → true_first first → knows first (n - 1) → (∀ k, (k < i)%nat → (k < n)%nat → knows first k) →
  ∀ k, (k < n)%nat → knows (infer days fuel i first g).1 k.
Proof.
  revert i first g. induction fuel as [|fuel IH]; intros i first g Hi Hfuel Hlen Hf Hlast Hk; cbn [infer]; [intros k ?; apply Hk; lia|].
  assert (knows first i ∨ n ≤ i → ∀ k, (k < n)%nat → knows (infer days fuel (S i) first g).1 k)%nat as Hskip.
  { intros Hor. apply IH; [lia|lia|done|done|done|]. intros k Hks Hkn. destruct (decide (k = i)) as [->|]; [|apply Hk; lia]. destruct Hor; [done|lia]. }
  destruct (first !! i) as [[u|]|] eqn:Ei; [by apply Hskip; left; exists u| |by apply Hskip; right; rewrite <-Hlen; apply lookup_ge_None].
  assert (i < n)%nat as Hin by (rewrite <-Hlen; by apply lookup_lt_Some in Ei).
  destruct (Hk (i - 1)%nat) as [f Ef]; [lia|lia|]. rewrite Ef, Hnext by lia.
  destruct (guess_run days n first i i (u64 (f + total_blocks days (i - 1))) []) as [[j at_] guess] eqn:Er.
  destruct (lookup_lt_is_Some_2 days (i - 1)) as [r0 E0]; [lia|]. destruct (lookup_lt_is_Some_2 days i) as [r1 E1]; [lia|].
  pose proof (list_elem_of_lookup_2 _ _ _ E0) as H0. pose proof (Htotal r0 H0). pose proof (Hexact r0 H0). pose proof (Hu64 r0 H0) as [Hu1 Hu2].
  assert (dw_Date r1 = dw_Date r0 + 1) as Hd1. { apply (next_true (i - 1)); [apply Hnext; lia|done|]. by replace (S (i - 1)) with i by lia. }
  pose proof (Hf _ _ Ef _ E0) as Ef0. rewrite (total_of _ r0 E0), u64_small in Er by (unfold is_u64; lia).
  destruct (guess_run_lands n first i i (f + dw_TotalBlocks r0) [] j at_ guess) as (Hj & [w Ew] & Hat & _ & Hcov); [done|lia|done|done| |done|].
  { intros r Hr. rewrite E1 in Hr. injection Hr as <-. rewrite Hd1. lia. }
  rewrite Ew. pose proof (lookup_lt_Some _ _ _ Ew) as Hjl. destruct (lookup_lt_is_Some_2 days j) as [rj Erj]; [lia|].
  assert (i ≠ j) as Hne by (intros ->; congruence).
  rewrite (Hat rj Erj), (Hf _ _ Ew rj Erj), Z.eqb_refl, Hnext by lia. cbn [andb].
  assert (Forall (λ kv, true_at kv.1 kv.2) guess) as Hg.
  { destruct (guess_run_true _ _ _ _ _ _ _ _ _ (Nat.le_refl i) Hlen Er) as (h & -> & _ & Hend); [lia|intros r Hr _; simplify_eq; rewrite Hd1; lia|].
    apply Hend; [apply Hnext; lia|lia|done|lia]. }
  apply IH; [lia|lia|by rewrite take_guess_length|by apply take_guess_true|by apply take_guess_keeps|].
  intros k Hkj Hkn. destruct (decide (k < i)%nat); [apply take_guess_keeps, Hk; lia|]. destruct (decide (k = j)) as [->|]; [by apply take_guess_keeps; exists w|].
  destruct (Hcov k) as [u Hu]; [lia|]. apply (take_guess_knows _ _ _ u); [done|lia].
Qed.
End Exact.

(** The range a day is given: from its first block to the next day's, the newest day's to
    the watermark. *)
Definition true_span (wm : Z) (sp : DaySpan) : Prop := ∃ i r, days !! i = Some r ∧ sp_Date sp = dw_Date r ∧ sp_Lo sp = start (dw_Date r) ∧
  if decide (S i = length days) then sp_Hi sp = wm + 1 ∧ sp_Lo sp < sp_Hi sp else sp_Hi sp = start (dw_Date r + 1).

Lemma place_day_true wm first i r sp : 0 ≤ wm < W64 - 1 → true_first first → days !! i = Some r → place_day days wm first i r = inl sp → true_span wm sp ∧ sp_Date sp = dw_Date r ∧
  (sp_Hi sp = start (dw_Date r + 1) ∨ S i = length days).
Proof.
  intros Hwm Hf Er. pose proof (lookup_lt_Some _ _ _ Er) as Hlt. unfold place_day. rewrite (u64_small (wm + 1)) by (unfold is_u64; lia).
  destruct (first !! i) as [[lo|]|] eqn:Ei; [|done|done].
  pose proof (Hf _ _ Ei r Er) as Elo. destruct (Nat.eqb_spec i (length days - 1)).
  - destruct (Z.ltb_spec lo (wm + 1)); [|done]. intros [= <-]. split_and!; [|done|right; lia]. exists i, r. cbn. rewrite decide_True by lia. done.
  - destruct (next days i) eqn:En; [|done]. destruct (first !! S i) as [[hi|]|] eqn:Eh; [|done|done]. intros [= <-].
    destruct (lookup_lt_is_Some_2 days (S i)) as [r' Er']; [lia|]. pose proof (Hf _ _ Eh r' Er') as Ehi. rewrite (next_true i r r' En Er Er') in Ehi.
    split_and!; [|done|by left]. exists i, r. cbn. rewrite decide_False by lia. done.
Qed.

Lemma first_true : true_first (dw_FirstBlock <$> days).
Proof.
  intros k v E r Er. rewrite list_lookup_fmap, Er in E. cbn in E. injection E as E. apply (Hfirst r); [by apply list_elem_of_lookup_2 in Er|done].
Qed.

Lemma daySpans_true wm spans inferred skipped : 0 ≤ wm < W64 - 1 → daySpans days wm = (spans, inferred, skipped) →
  (∀ sp, sp ∈ spans → true_span wm sp) ∧ ∀ d v, inferred !! d = Some v → v = start d.
Proof.
  intros Hwm. unfold daySpans. destruct (infer days (length days) 1 (dw_FirstBlock <$> days) []) as [first g] eqn:E.
  destruct (infer_true _ _ _ _ _ _ (Nat.le_refl 1) ltac:(apply length_fmap) first_true ltac:(constructor) E) as (_ & Hf & Hg).
  intros [= <- <- <-]. split.
  - intros sp (p & Hp & Esp)%list_elem_of_omap. apply elem_of_lookup_imap in Hp as (i & r & -> & Er). destruct (place_day days wm first i r) as [sp'|] eqn:Ep; [|done].
    injection Esp as ->. by apply (place_day_true wm first i r).
  - intros d v H%elem_of_list_to_map_2. apply list_elem_of_omap in H as ([k u] & Hk & Ekv). cbn in Ekv.
    destruct (days !! k) as [r|] eqn:Er; [|done]. injection Ekv as <- <-. rewrite Forall_forall in Hg. exact (Hg _ Hk r Er).
Qed.
End Spans.

(** ** The ranges in order *)

Lemma StronglySorted_omap_imap {A B C} (R : C → C → Prop) (f : B → option C) (g : nat → A → B) (l : list A) :
  (∀ i j x y c d, (i < j)%nat → l !! i = Some x → l !! j = Some y → f (g i x) = Some c → f (g j y) = Some d → R c d) → StronglySorted R (omap f (imap g l)).
Proof.
  revert g. induction l as [|x l IH]; intros g H; [constructor|]. rewrite imap_cons. cbn.
  assert (StronglySorted R (omap f (imap (g ∘ S) l))) as Hs.
  { apply IH. intros i j a b c d Hij Ha Hb. apply (H (S i) (S j)); [lia|done|done]. }
  destruct (f (g 0%nat x)) as [c|] eqn:Ec; [|done]. constructor; [done|]. apply Forall_forall. intros d (p & Hp & Ed)%list_elem_of_omap.
  apply elem_of_lookup_imap in Hp as (j & y & -> & Ey). apply (H 0%nat (S j) x y); [lia|done|done|done|done].
Qed.

Definition before (a b : DaySpan) : Prop := sp_Hi a ≤ sp_Lo b ∧ sp_Date a < sp_Date b.

Section Ordered.
Context (days : list DayRow) (start : Z → Z).
Hypothesis Hfirst : ∀ r f, r ∈ days → dw_FirstBlock r = Some f → f = start (dw_Date r).
Hypothesis Htotal : ∀ r, r ∈ days → 0 ≤ dw_TotalBlocks r ≤ start (dw_Date r + 1) - start (dw_Date r).
Hypothesis Hu64 : ∀ r, r ∈ days → 0 ≤ start (dw_Date r) ∧ start (dw_Date r + 1) < W64.
Hypothesis Hmono : ∀ x y, x ≤ y → start x ≤ start y.
Hypothesis Hsorted : ∀ i j a b, (i < j)%nat → days !! i = Some a → days !! j = Some b → dw_Date a < dw_Date b.
(** Every day has a block. *)
Hypothesis Hfull : ∀ r, r ∈ days → start (dw_Date r) < start (dw_Date r + 1).

Lemma daySpans_ordered wm spans inferred skipped : 0 ≤ wm < W64 - 1 → daySpans days wm = (spans, inferred, skipped) →
  StronglySorted before spans ∧ Forall (λ sp, sp_Lo sp < sp_Hi sp) spans.
Proof.
  intros Hwm E. destruct (daySpans_true days start Hfirst Htotal Hu64 wm spans inferred skipped Hwm E) as [Htrue _]. split.
  - revert E. unfold daySpans. destruct (infer days (length days) 1 (dw_FirstBlock <$> days) []) as [first g] eqn:E.
    destruct (infer_true days start Htotal Hu64 _ _ _ _ _ _ (Nat.le_refl 1) ltac:(apply length_fmap) (first_true days start Hfirst) ltac:(constructor) E) as (_ & Hf & _).
    intros [= <- <- <-]. apply StronglySorted_omap_imap. intros i j a b c d Hij Ha Hb Hc Hd.
    destruct (place_day days wm first i a) as [c'|] eqn:Ec; [|done]. injection Hc as ->.
    destruct (place_day days wm first j b) as [d'|] eqn:Ed; [|done]. injection Hd as ->.
    destruct (place_day_true days start wm first i a c Hwm Hf Ha Ec) as (_ & Hca & Hhi). destruct (place_day_true days start wm first j b d Hwm Hf Hb Ed) as ((k & r & Hr & Hdr & Hlo & _) & Hdb & _).
    pose proof (Hsorted i j a b Hij Ha Hb). apply lookup_lt_Some in Hb. destruct Hhi as [Hhi|]; [|lia].
    split; [|lia]. rewrite Hhi, Hlo. apply Hmono. rewrite <-Hdr, Hdb. lia.
  - apply Forall_forall. intros sp Hsp. destruct (Htrue sp Hsp) as (i & r & Hr & _ & Hlo & Hhi). destruct (decide (S i = length days)); [tauto|].
    rewrite Hlo, Hhi. apply Hfull. by apply list_elem_of_lookup_2 in Hr.
Qed.

(** With every count exact, the days in one run and both ends recorded, every day gets
    its range (the newest if a block of it is counted). *)
Lemma daySpans_all wm spans inferred skipped : 0 ≤ wm < W64 - 1 → daySpans days wm = (spans, inferred, skipped) →
  (∀ r, r ∈ days → dw_TotalBlocks r = start (dw_Date r + 1) - start (dw_Date r)) → (∀ i, (S i < length days)%nat → next days i = true) →
  (∀ r, head days = Some r ∨ last days = Some r → is_Some (dw_FirstBlock r)) → (∀ r, last days = Some r → start (dw_Date r) ≤ wm) → skipped = [] ∧ sp_Date <$> spans = dw_Date <$> days.
Proof.
  intros Hwm E Hexact Hnext Hends Hnew. revert E. unfold daySpans. destruct (infer days (length days) 1 (dw_FirstBlock <$> days) []) as [first g] eqn:E.
  destruct (infer_true days start Htotal Hu64 _ _ _ _ _ _ (Nat.le_refl 1) ltac:(apply length_fmap) (first_true days start Hfirst) ltac:(constructor) E) as (_ & Hf & _).
  assert (∀ k, (k < length days)%nat → knows first k) as Hk.
  { destruct (decide (days = [])) as [->|Hne]; [cbn; lia|].
    pose proof (infer_all days start Htotal Hu64 Hexact Hnext (length days) 1 (dw_FirstBlock <$> days) [] ltac:(lia) ltac:(lia) ltac:(apply length_fmap) (first_true days start Hfirst)) as Hall.
    rewrite E in Hall. apply Hall.
    - destruct (last days) as [r|] eqn:El; [|by apply last_None in El]. destruct (Hends r) as [v Hv]; [by right|]. exists v. rewrite last_lookup in El.
      rewrite list_lookup_fmap, Nat.sub_1_r, El. cbn. by rewrite Hv.
    - intros k Hk1 Hk2. assert (k = 0%nat) as -> by lia. destruct days as [|r l] eqn:Ed; [done|]. destruct (Hends r) as [v Hv]; [by left|]. exists v. cbn. by rewrite Hv. }
  assert (∀ i r, days !! i = Some r → ∃ sp, place_day days wm first i r = inl sp ∧ sp_Date sp = dw_Date r) as Hin.
  { intros i r Er. pose proof (lookup_lt_Some _ _ _ Er) as Hlt. unfold place_day. destruct (Hk i Hlt) as [v Hv]. rewrite Hv.
    pose proof (Hf _ _ Hv r Er) as Hvr. rewrite (u64_small (wm + 1)) by (unfold is_u64; lia). destruct (Nat.eqb_spec i (length days - 1)) as [Hi|].
    - assert (start (dw_Date r) ≤ wm). { apply Hnew. rewrite last_lookup, <-Er. f_equal. lia. } destruct (Z.ltb_spec v (wm + 1)); [|lia]. by eexists.
    - rewrite Hnext by lia. destruct (Hk (S i)) as [u Hu]; [lia|]. rewrite Hu. by eexists. }
  intros [= <- <- <-]. clear -Hin. revert Hin. generalize (place_day days wm first). induction days as [|r l IH]; intros g Hin; [done|]. rewrite imap_cons. cbn.
  destruct (Hin 0%nat r) as (sp & -> & Hd); [done|]. destruct (IH (g ∘ S)) as [IH1 IH2]; [intros i x Hx; by apply (Hin (S i))|]. rewrite IH1. split; [done|].
  rewrite fmap_cons. by rewrite Hd, IH2.
Qed.
End Ordered.

(** ** One pass over the addresses *)

Section Placed.
Context (spans met : list DaySpan) (Hsorted : StronglySorted before spans) (Hfull : Forall (λ sp, sp_Lo sp < sp_Hi sp) spans) (Hmet : met ≡ₚ spans).

Lemma spans_apart a b : a ∈ spans → b ∈ spans → a = b ∨ before a b ∨ before b a.
Proof.
  clear Hfull Hmet. induction Hsorted as [|x l Hl IH Hx]; [by intros ?%not_elem_of_nil|]. rewrite Forall_forall in Hx.
  intros [->|Ha]%elem_of_cons [->|Hb]%elem_of_cons; [by left|by right; left; apply Hx|by right; right; apply Hx|by apply IH].
Qed.
Lemma span_date a b : a ∈ spans → b ∈ spans → sp_Date a = sp_Date b → a = b.
Proof. intros Ha Hb E. destruct (spans_apart a b Ha Hb) as [|[[? ?]|[? ?]]]; [done|lia|lia]. Qed.

Lemma span_of_min l best n : (∀ b, best = Some b → n < sp_Hi b) →
  match foldl (λ best sp, if n <? sp_Hi sp then match best with Some b => if sp_Hi sp <? sp_Hi b then Some sp else best | None => Some sp end else best) best l with
  | Some sp => (sp ∈ l ∨ best = Some sp) ∧ n < sp_Hi sp ∧ (∀ b, b ∈ l → n < sp_Hi b → sp_Hi sp ≤ sp_Hi b) ∧ ∀ b, best = Some b → sp_Hi sp ≤ sp_Hi b
  | None => best = None ∧ ∀ b, b ∈ l → sp_Hi b ≤ n
  end.
Proof.
  revert best. induction l as [|x l IH]; intros best Hb; cbn.
  { destruct best as [b|]; [|split; [done|]; by intros ? ?%not_elem_of_nil]. split_and!; [by right|by apply Hb|by intros ? ?%not_elem_of_nil|intros ? [= <-]; lia]. }
  set (best' := if n <? sp_Hi x then _ else best).
  assert (∀ b, best' = Some b → n < sp_Hi b) as Hb'.
  { intros b. unfold best'. destruct (Z.ltb_spec n (sp_Hi x)); [|apply Hb]. destruct best as [b'|]; [|by intros [= <-]]. destruct (sp_Hi x <? sp_Hi b'); [by intros [= <-]|apply Hb]. }
  specialize (IH best' Hb'). destruct (foldl _ best' l) as [sp|].
  - destruct IH as (Hin & Hn & Hl & Hbest). unfold best' in *. split_and!; [|done| |].
    + destruct Hin as [?|Hin]; [left; by right|]. destruct (n <? sp_Hi x); [|by right]. destruct best as [b'|]; [|injection Hin as ->; left; by left].
      destruct (sp_Hi x <? sp_Hi b'); [injection Hin as ->; left; by left|by right].
    + intros b [->|Hbl]%elem_of_cons Hnb; [|by apply Hl]. destruct (Z.ltb_spec n (sp_Hi x)); [|lia]. destruct best as [b'|]; [|by apply Hbest].
      destruct (Z.ltb_spec (sp_Hi x) (sp_Hi b')); [by apply Hbest|]. specialize (Hbest b' eq_refl). lia.
    + intros b ->. destruct (Z.ltb_spec n (sp_Hi x)); [|by apply Hbest]. destruct (Z.ltb_spec (sp_Hi x) (sp_Hi b)); [|by apply Hbest]. specialize (Hbest x eq_refl). lia.
  - destruct IH as [Hnone Hl]. unfold best' in Hnone. destruct (Z.ltb_spec n (sp_Hi x)).
    + destruct best as [b'|]; [|done]. by destruct (sp_Hi x <? sp_Hi b').
    + split; [done|]. intros b [->|?]%elem_of_cons; [lia|by apply Hl].
Qed.

(** The first range ending above a block: the one that holds it, or the next. *)
Lemma span_of_Some n sp : span_of met n = Some sp ↔ sp ∈ spans ∧ n < sp_Hi sp ∧ ∀ b, b ∈ spans → n < sp_Hi b → sp_Hi sp ≤ sp_Hi b.
Proof.
  pose proof (span_of_min met None n ltac:(done)) as H. unfold span_of. set (f := foldl _ None met) in *. clearbody f.
  assert (∀ b, b ∈ met ↔ b ∈ spans) as Hm by (intros b; by rewrite Hmet). destruct f as [sp'|]; setoid_rewrite Hm in H.
  - destruct H as ([Hin|?] & Hn & Hmin & _); [|done]. split.
    + intros [= <-]. split_and!; [done|done|]. intros b Hb. by apply Hmin.
    + intros (Hsp & Hnsp & Hmin'). f_equal. specialize (Hmin sp Hsp Hnsp). specialize (Hmin' sp' Hin Hn). rewrite Forall_forall in Hfull.
      destruct (spans_apart sp sp' Hsp Hin) as [->|[[? ?]|[? ?]]]; [done| |]; [specialize (Hfull sp' Hin)|specialize (Hfull sp Hsp)]; lia.
  - destruct H as [_ Hno]. split; [done|]. intros (Hsp & Hnsp & _). specialize (Hno sp Hsp). lia.
Qed.

Lemma span_holds n sp : sp ∈ spans → sp_Lo sp ≤ n < sp_Hi sp → span_of met n = Some sp.
Proof.
  intros Hsp Hn. apply span_of_Some. split_and!; [done|lia|]. intros b Hb Hnb. rewrite Forall_forall in Hfull.
  destruct (spans_apart sp b Hsp Hb) as [->|[[? ?]|[? ?]]]; [lia| |lia]. specialize (Hfull b Hb). lia.
Qed.

(** What a count of the placed addresses counts. *)
Lemma count_placed (P : Z * bool * bool → Prop) `{!∀ x, Decision (P x)} (Q : option Z * bool → Prop) `{!∀ x, Decision (Q x)} seen :
  (∀ n c, Q (Some n, c) ↔ ∃ sp, span_of met n = Some sp ∧ P (sp_Date sp, bool_decide (sp_Lo sp ≤ n), c)) → (∀ c, ¬ Q (None, c)) →
  zlen (filter P (placed met seen)) = zlen (filter Q seen).
Proof.
  intros HQ HN. induction seen as [|[[n|] c] seen IH]; [done| |]; unfold placed in *; cbn [omap list_omap fst snd].
  - rewrite (filter_cons Q). destruct (span_of met n) as [sp|] eqn:E; cbn [fmap option_fmap option_map].
    + rewrite filter_cons. destruct (decide (P (sp_Date sp, bool_decide (sp_Lo sp ≤ n), c))) as [HP|HP].
      * rewrite decide_True by (apply HQ; by exists sp). unfold zlen in *. cbn. lia.
      * rewrite decide_False; [done|]. rewrite HQ. intros (sp' & Esp & HP'). rewrite E in Esp. injection Esp as <-. done.
    + rewrite decide_False; [done|]. rewrite HQ. intros (sp' & Esp & _). congruence.
  - rewrite (filter_cons Q), decide_False by apply HN. done.
Qed.

Definition seen_in (lo hi : Z) (a : option Z * bool) : Prop := match a.1 with Some n => lo ≤ n < hi | None => False end.
Definition seen_below (hi : Z) (a : option Z * bool) : Prop := match a.1 with Some n => n < hi | None => False end.
#[global] Instance seen_in_dec lo hi a : Decision (seen_in lo hi a).
Proof. unfold seen_in. destruct a.1; apply _. Defined.
#[global] Instance seen_below_dec hi a : Decision (seen_below hi a).
Proof. unfold seen_below. destruct a.1; apply _. Defined.

(** The new ones of a day are those first seen in its range. *)
Lemma new_in_spec sp seen : sp ∈ spans → new_in (placed met seen) (sp_Date sp) = zlen (filter (seen_in (sp_Lo sp) (sp_Hi sp)) seen).
Proof.
  intros Hsp. apply count_placed; [|by intros c ?]. intros n c. cbn. split.
  - intros Hn. exists sp. split; [by apply span_holds|]. cbn. split; [done|]. apply bool_decide_eq_true. lia.
  - intros (sp' & (Hin & Hn & _)%span_of_Some & Hd & Hlo%bool_decide_eq_true). cbn in *. rewrite <-(span_date sp' sp Hin Hsp Hd). lia.
Qed.
Lemma new_contracts_in_spec sp seen : sp ∈ spans →
  new_contracts_in (placed met seen) (sp_Date sp) = zlen (filter (λ a, seen_in (sp_Lo sp) (sp_Hi sp) a ∧ a.2 = true) seen).
Proof.
  intros Hsp. apply count_placed; [|by intros c [? _]]. intros n c. cbn. split.
  - intros [Hn ->]. exists sp. split; [by apply span_holds|]. cbn. split_and!; [done| |done]. apply bool_decide_eq_true. lia.
  - intros (sp' & (Hin & Hn & _)%span_of_Some & Hd & Hlo%bool_decide_eq_true & ->). cbn in *. rewrite <-(span_date sp' sp Hin Hsp Hd). split; [lia|done].
Qed.

(** A sum over the days of what is placed in each counts what is placed in any. *)
Lemma running_placed (P : Z * bool * bool → Prop) `{!∀ x, Decision (P x)} l p : NoDup (sp_Date <$> l) →
  foldr Z.add 0 ((λ sp, zlen (filter (λ x, x.1.1 = sp_Date sp ∧ P x) p)) <$> l) = zlen (filter (λ x, x.1.1 ∈ sp_Date <$> l ∧ P x) p).
Proof.
  induction l as [|sp l IH]; intros Hnd; [|rewrite !fmap_cons in *; cbn [foldr]].
  { cbn. rewrite (filter_none _ p); [done|]. intros x _ [Hx _]. by apply not_elem_of_nil in Hx. }
  apply NoDup_cons in Hnd as [Hsp Hnd]. rewrite IH by done. clear IH. induction p as [|x p IH]; [done|]. rewrite !filter_cons.
  assert (x.1.1 = sp_Date sp → x.1.1 ∉ sp_Date <$> l) by (intros ->; done). pose proof (elem_of_cons (sp_Date <$> l) x.1.1 (sp_Date sp)).
  repeat case_decide; rewrite ?zlen_cons; try lia; exfalso; tauto.
Qed.

Lemma spans_dates_NoDup l : StronglySorted before l → NoDup (sp_Date <$> l).
Proof.
  induction 1 as [|x l Hl IH Hx]; cbn; [constructor|]. constructor; [|done]. intros (y & E & Hy)%list_elem_of_fmap.
  rewrite Forall_forall in Hx. destruct (Hx y Hy). lia.
Qed.

Lemma running_spec (P : bool → Prop) `{!∀ c, Decision (P c)} sp seen : sp ∈ spans →
  foldr Z.add 0 ((λ s, zlen (filter (λ x, x.1.1 = sp_Date s ∧ P x.2) (placed met seen))) <$> filter (λ s, sp_Hi s ≤ sp_Hi sp) spans)
  = zlen (filter (λ a, seen_below (sp_Hi sp) a ∧ P a.2) seen).
Proof.
  intros Hsp. rewrite (running_placed (λ x, P x.2)) by (by apply spans_dates_NoDup, StronglySorted_filter).
  apply count_placed; [|by intros c [? _]]. intros n c. cbn. split.
  - intros [Hn Hc]. destruct (span_of met n) as [s|] eqn:E.
    + exists s. split; [done|]. split; [|done]. apply list_elem_of_fmap. exists s. split; [done|]. apply list_elem_of_filter. apply span_of_Some in E as (? & _ & Hmin). split; [by apply Hmin|done].
    + exfalso. pose proof (span_of_min met None n ltac:(done)) as Hs. unfold span_of in E. rewrite E in Hs. destruct Hs as [_ Hs]. specialize (Hs sp). rewrite Hmet in Hs. specialize (Hs Hsp). lia.
  - intros (s & (Hin & Hn & _)%span_of_Some & (s' & Hd & [Hhi Hin']%list_elem_of_filter)%list_elem_of_fmap & Hc). cbn in *.
    rewrite (span_date s s' Hin Hin' Hd) in *. split; [lia|done].
Qed.
End Placed.

(** ** The rows of the tables *)

Lemma dates_elem t d : d ∈ dates t ↔ is_Some (t_stats t !! d).
Proof.
  unfold dates. rewrite merge_sort_Permutation. split.
  - intros ([d' s] & -> & H%elem_of_map_to_list)%list_elem_of_fmap. by exists s.
  - intros [s Hs]. apply list_elem_of_fmap. exists (d, s). split; [done|]. by apply elem_of_map_to_list.
Qed.
Lemma dates_sorted t : StronglySorted Z.lt (dates t).
Proof.
  assert (NoDup (dates t)) as Hnd by (unfold dates; rewrite merge_sort_Permutation; apply NoDup_fst_map_to_list).
  assert (StronglySorted Z.le (dates t)) as Hs by (apply (StronglySorted_merge_sort Z.le)).
  revert Hnd Hs. generalize (dates t). induction l as [|x l IH]; [constructor|]. intros [Hx Hnd]%NoDup_cons [Hs Hall]%StronglySorted_inv.
  constructor; [by apply IH|]. rewrite Forall_forall in Hall |- *. intros y Hy. specialize (Hall y Hy). assert (x ≠ y) by (intros ->; done). lia.
Qed.

Lemma day_rows_list t : day_rows t = (λ d, mkDayRow d (u64 (default 0 (s_blocks <$> t_stats t !! d))) (u64 <$> (t_acc t !! d ≫= a_first))) <$> dates t.
Proof.
  unfold day_rows. assert (∀ d, d ∈ dates t → is_Some (t_stats t !! d)) as H by (intros d; apply dates_elem). induction (dates t) as [|d l IH]; [done|].
  destruct (H d) as [s Hs]; [by left|]. cbn. rewrite Hs. cbn. f_equal. apply IH. intros d' ?. apply H. by right.
Qed.
Lemma day_rows_elem t r : r ∈ day_rows t → ∃ s, t_stats t !! dw_Date r = Some s ∧ dw_TotalBlocks r = u64 (s_blocks s) ∧ dw_FirstBlock r = u64 <$> (t_acc t !! dw_Date r ≫= a_first).
Proof.
  rewrite day_rows_list. intros (d & -> & [s Hs]%dates_elem)%list_elem_of_fmap. cbn. rewrite Hs. by exists s.
Qed.
Lemma day_rows_sorted t i j a b : (i < j)%nat → day_rows t !! i = Some a → day_rows t !! j = Some b → dw_Date a < dw_Date b.
Proof.
  rewrite day_rows_list, !list_lookup_fmap. intros Hij. destruct (dates t !! i) as [x|] eqn:Ex; [|done]. destruct (dates t !! j) as [y|] eqn:Ey; [|done].
  intros [= <-] [= <-]. cbn. apply (StronglySorted_lookup_lt Z.lt (dates t) i j); [apply dates_sorted|done..].
Qed.
