(* ===== verification/RefillRecount.v ===== *)
(** * The daily tables after a refill

    Where the recorded first blocks are the days' first blocks and no day counts more
    blocks than it has, the recount puts every address in the day it was first seen in. *)

From S2P Require Import Prelude RefillWrite RefillWriteProps.

(** A first block that is recorded stays known. *)
Lemma infer_keeps days fuel i first g k : knows first k → knows (infer days fuel i first g).1 k.
Proof.
  revert i first g. induction fuel as [|fuel IH]; intros i first g Hk; [done|]. cbn [infer].
  destruct (first !! i) as [[?|]|]; [by apply IH| |by apply IH]. destruct (first !! (i - 1)%nat) as [[f|]|]; [|by apply IH|by apply IH].
  destruct (next days (i - 1)); [|by apply IH]. destruct (guess_run _ _ _ _ _ _ _) as [[j at_] guess].
  destruct (first !! j) as [[w|]|]; [|by apply IH|by apply IH]. destruct (next days (j - 1) && (at_ =? w)); [|by apply IH]. by apply IH, take_guess_keeps.
Qed.

Lemma daySpans_recorded days start wm spans inferred skipped i r : 
  (∀ r f, r ∈ days → dw_FirstBlock r = Some f → f = start (dw_Date r)) → 0 ≤ wm < W64 - 1 → daySpans days wm = (spans, inferred, skipped) →
  days !! i = Some r → is_Some (dw_FirstBlock r) →
  (S i = length days ∧ start (dw_Date r) ≤ wm) ∨ (∃ r', days !! S i = Some r' ∧ dw_Date r' = dw_Date r + 1 ∧ is_Some (dw_FirstBlock r')) →
  (∀ v, (infer days (length days) 1 (dw_FirstBlock <$> days) []).1 !! i = Some (Some v) → v = start (dw_Date r)) →
  ∃ sp, sp ∈ spans ∧ sp_Date sp = dw_Date r.
Proof.
  intros Hfirst Hwm E Er [f Hf] Hor Hv. revert E Hv. unfold daySpans. destruct (infer days (length days) 1 (dw_FirstBlock <$> days) []) as [first g] eqn:Ei.
  assert (∀ k r f, days !! k = Some r → dw_FirstBlock r = Some f → knows first k) as Hk.
  { intros k r' f' Hr' Hf'. change first with (first, g).1. rewrite <-Ei. apply infer_keeps. exists f'. by rewrite list_lookup_fmap, Hr'; cbn; rewrite Hf'. }
  intros [= <- <- <-] Hv. destruct (Hk i r f Er Hf) as [v Ev]. cbn in Hv. specialize (Hv v Ev).
  assert (∃ sp, place_day days wm first i r = inl sp ∧ sp_Date sp = dw_Date r) as (sp & Esp & Hd).
  { unfold place_day. rewrite Ev, (u64_small (wm + 1)) by (unfold is_u64; lia). destruct Hor as [[Hi Hle]|(r' & Er' & Hd & [f' Hf'])].
    - replace (i =? length days - 1)%nat with true by (symmetry; apply Nat.eqb_eq; lia). destruct (Z.ltb_spec v (wm + 1)); [by eexists|lia].
    - pose proof (lookup_lt_Some _ _ _ Er'). replace (i =? length days - 1)%nat with false by (symmetry; apply Nat.eqb_neq; lia).
      replace (next days i) with true by (unfold next; rewrite Er, Er'; symmetry; by apply Z.eqb_eq).
      destruct (Hk (S i) r' f' Er' Hf') as [v' Ev']. rewrite Ev'. by eexists. }
  exists sp. split; [|done]. apply list_elem_of_omap. exists (inl sp). split; [|done]. apply elem_of_lookup_imap. by exists i, r.
Qed.

Section Layout.
Context (start : Z → Z) (Hmono : ∀ x y, x ≤ y → start x ≤ start y) (Hrange : ∀ d, 0 ≤ start d < H64).

(** [start d]: the first block of day [d] or later. *)
Record layout (t : daily_tables) : Prop := mkLayout {
  ly_first : ∀ d a f, t_acc t !! d = Some a → a_first a = Some f → f = start d;
  ly_blocks : ∀ d s, t_stats t !! d = Some s → 0 ≤ s_blocks s ≤ start (d + 1) - start d;
  ly_full : ∀ d s, t_stats t !! d = Some s → start d < start (d + 1);
  ly_watermark : 0 ≤ watermark_of t < H64 - 1 }.

Definition recorded (t : daily_tables) (d : Z) : Prop := ∃ a f, t_acc t !! d = Some a ∧ a_first a = Some f.

(** The blocks of a day: to the next day's first, the newest day's to the watermark. *)
Definition day_end (t : daily_tables) (d : Z) : Z := if decide (newest t = Some d) then watermark_of t + 1 else start (d + 1).
Definition counted_addresses (t : daily_tables) (d : Z) (s : stats_row) : stats_row :=
  set_addresses (zlen (filter (seen_in (start d) (day_end t d)) (t_seen t))) (zlen (filter (λ a, seen_in (start d) (day_end t d) a ∧ a.2 = true) (t_seen t)))
    (zlen (filter (seen_below (day_end t d)) (t_seen t))) (zlen (filter (λ a, seen_below (day_end t d) a ∧ a.2 = true) (t_seen t))) s.

Lemma rows_first t : layout t → ∀ r f, r ∈ day_rows t → dw_FirstBlock r = Some f → f = start (dw_Date r).
Proof.
  intros HL r f (s & _ & _ & E)%day_rows_elem Hf. rewrite E in Hf. destruct (t_acc t !! dw_Date r) as [a|] eqn:Ea; [|done]. cbn in Hf.
  destruct (a_first a) as [n|] eqn:En; [|done]. injection Hf as <-. rewrite <-(ly_first t HL _ _ _ Ea En). pose proof (Hrange (dw_Date r)).
  rewrite <-(ly_first t HL _ _ _ Ea En) in *. apply u64_small. unfold is_u64. lia.
Qed.
Lemma rows_total t : layout t → ∀ r, r ∈ day_rows t → 0 ≤ dw_TotalBlocks r ≤ start (dw_Date r + 1) - start (dw_Date r).
Proof.
  intros HL r (s & Es & -> & _)%day_rows_elem. pose proof (ly_blocks t HL _ _ Es). pose proof (Hrange (dw_Date r)). pose proof (Hrange (dw_Date r + 1)).
  rewrite u64_small by (unfold is_u64; lia). lia.
Qed.
Lemma rows_u64 (t : daily_tables) : ∀ r, r ∈ day_rows t → 0 ≤ start (dw_Date r) ∧ start (dw_Date r + 1) < W64.
Proof. intros r _. pose proof (Hrange (dw_Date r)). pose proof (Hrange (dw_Date r + 1)). lia. Qed.
Lemma rows_full t : layout t → ∀ r, r ∈ day_rows t → start (dw_Date r) < start (dw_Date r + 1).
Proof. intros HL r (s & Es & _)%day_rows_elem. by apply (ly_full t HL _ _ Es). Qed.

Lemma day_rows_dates t i r : day_rows t !! i = Some r → dates t !! i = Some (dw_Date r).
Proof. rewrite day_rows_list, list_lookup_fmap. destruct (dates t !! i); [|done]. by intros [= <-]. Qed.
Lemma newest_index t i r : day_rows t !! i = Some r → S i = length (day_rows t) ↔ newest t = Some (dw_Date r).
Proof.
  intros Er. pose proof (day_rows_dates t i r Er) as Ed. unfold newest. rewrite last_lookup. assert (length (day_rows t) = length (dates t)) as -> by (by rewrite day_rows_list, length_fmap).
  split; [intros <-; done|]. intros Hp. pose proof (lookup_lt_Some _ _ _ Ed) as Hlt. destruct (decide (S i = length (dates t))); [done|]. exfalso.
  assert (dw_Date r < dw_Date r); [|lia]. apply (StronglySorted_lookup_lt Z.lt (dates t) i (pred (length (dates t)))); [apply dates_sorted|done|done|lia].
Qed.

Lemma cast_spans (t : daily_tables) (spans : list DaySpan) : layout t → (∀ sp, sp ∈ spans → true_span (day_rows t) start (watermark_of t) sp) →
  (λ sp, mkDaySpan (sp_Date sp) (i64 (sp_Lo sp)) (i64 (sp_Hi sp))) <$> spans = spans.
Proof.
  intros HL H. rewrite <-(list_fmap_id spans) at 2. apply list_fmap_ext. intros i sp Hi. destruct (H sp) as (j & r & _ & _ & Hlo & Hhi); [by apply list_elem_of_lookup_2 in Hi|].
  pose proof (Hrange (dw_Date r)). pose proof (Hrange (dw_Date r + 1)). pose proof (ly_watermark t HL). destruct sp as [d lo hi]; cbn in *.
  rewrite !i64_small; [done| |lia]. destruct (decide (S j = length (day_rows t))); lia.
Qed.

(** Counting the days one after another. *)
Lemma count_days_lookup spans p l (m : gmap Z stats_row) d : NoDup (sp_Date <$> l) →
  foldl (count_day spans p) m l !! d =
  match List.find (λ sp, sp_Date sp =? d) l with
  | Some sp => set_addresses (new_in p d) (new_contracts_in p d) (running spans (below_in p) (sp_Hi sp)) (running spans (below_contracts_in p) (sp_Hi sp)) <$> m !! d
  | None => m !! d
  end.
Proof.
  revert m. induction l as [|sp l IH]; intros m Hnd; [done|]. rewrite fmap_cons in Hnd. apply NoDup_cons in Hnd as [Hsp Hnd]. cbn [foldl List.find].
  rewrite IH by done. unfold count_day. destruct (Z.eqb_spec (sp_Date sp) d) as [<-|Hne].
  - rewrite lookup_alter_eq. destruct (List.find _ l) as [sp'|] eqn:E; [|done]. apply List.find_some in E as [Hin%list_elem_of_In Hd%Z.eqb_eq].
    exfalso. apply Hsp, list_elem_of_fmap. by exists sp'.
  - by rewrite lookup_alter_ne.
Qed.

Lemma spans_find (spans : list DaySpan) sp : NoDup (sp_Date <$> spans) → sp ∈ spans → List.find (λ s, sp_Date s =? sp_Date sp) spans = Some sp.
Proof.
  induction spans as [|x l IH]; intros Hnd Hsp; [by apply not_elem_of_nil in Hsp|]. rewrite fmap_cons in Hnd. apply NoDup_cons in Hnd as [Hx Hnd]. cbn.
  apply elem_of_cons in Hsp as [->|Hsp]; [by rewrite Z.eqb_refl|]. destruct (Z.eqb_spec (sp_Date x) (sp_Date sp)) as [E|]; [|by apply IH].
  exfalso. apply Hx, list_elem_of_fmap. by exists sp.
Qed.

(** The day after [d] in the tables is the next row. *)
Lemma dates_next t i d : dates t !! i = Some d → (d + 1) ∈ dates t → dates t !! S i = Some (d + 1).
Proof.
  intros Hi [j Hj]%list_elem_of_lookup. pose proof (dates_sorted t) as Hs. destruct (decide (j = S i)) as [->|Hne]; [done|]. exfalso.
  destruct (decide (i < j)%nat).
  - destruct (lookup_lt_is_Some_2 (dates t) (S i)) as [x Hx]; [apply lookup_lt_Some in Hj; lia|].
    pose proof (StronglySorted_lookup_lt Z.lt _ _ _ _ _ Hs Hi Hx ltac:(lia)). pose proof (StronglySorted_lookup_lt Z.lt _ _ _ _ _ Hs Hx Hj ltac:(lia)). lia.
  - destruct (decide (i = j)) as [->|]; [rewrite Hi in Hj; injection Hj; lia|]. pose proof (StronglySorted_lookup_lt Z.lt _ _ _ _ _ Hs Hj Hi ltac:(lia)). lia.
Qed.

Section Recount.
Context (meet : list DaySpan → list DaySpan) (Hmeet : ∀ l, meet l ≡ₚ l).

Lemma running_below sp (spans : list DaySpan) seen : StronglySorted before spans → Forall (λ sp, sp_Lo sp < sp_Hi sp) spans → sp ∈ spans →
  running spans (below_in (placed (meet spans) seen)) (sp_Hi sp) = zlen (filter (seen_below (sp_Hi sp)) seen).
Proof.
  intros Hs Hf Hsp. pose proof (running_spec spans (meet spans) Hs Hf (Hmeet spans) (λ _, True) sp seen Hsp) as E. unfold running, below_in.
  transitivity (zlen (filter (λ a, seen_below (sp_Hi sp) a ∧ True) seen)); [rewrite <-E|f_equal; apply list_filter_iff; tauto].
  f_equal. apply list_fmap_ext. intros i s _. f_equal. apply list_filter_iff. tauto.
Qed.
Lemma running_below_contracts sp (spans : list DaySpan) seen : StronglySorted before spans → Forall (λ sp, sp_Lo sp < sp_Hi sp) spans → sp ∈ spans →
  running spans (below_contracts_in (placed (meet spans) seen)) (sp_Hi sp) = zlen (filter (λ a, seen_below (sp_Hi sp) a ∧ a.2 = true) seen).
Proof.
  intros Hs Hf Hsp. pose proof (running_spec spans (meet spans) Hs Hf (Hmeet spans) (λ c, c = true) sp seen Hsp) as E. unfold running, below_contracts_in.
  etransitivity; [|exact E]. f_equal.
Qed.

(** A day the recount can place. *)
Definition placeable (t : daily_tables) (d : Z) : Prop := is_Some (t_stats t !! d) ∧ recorded t d ∧
  ((newest t = Some d ∧ start d ≤ watermark_of t) ∨ (is_Some (t_stats t !! (d + 1)) ∧ recorded t (d + 1))).

Lemma recount_counts t : layout t → let t' := recountDailyAddressColumns meet t in
  (∀ d, t_stats t' !! d = t_stats t !! d ∨ t_stats t' !! d = counted_addresses t d <$> t_stats t !! d) ∧
  (∀ d, placeable t d → t_stats t' !! d = counted_addresses t d <$> t_stats t !! d) ∧
  (∀ d a f, t_acc t' !! d = Some a → a_first a = Some f → f = start d).
Proof.
  intros HL. pose proof (ly_watermark t HL) as Hwm. assert (0 ≤ watermark_of t < W64 - 1) as Hwm2 by lia. unfold recountDailyAddressColumns. rewrite Z.max_l, (u64_small (watermark_of t)) by (unfold is_u64; lia).
  destruct (daySpans (day_rows t) (watermark_of t)) as [[spans inferred] skipped] eqn:E.
  destruct (daySpans_true _ start (rows_first t HL) (rows_total t HL) (rows_u64 t) _ _ _ _ Hwm2 E) as [Htrue Hinf].
  destruct (daySpans_ordered _ start (rows_first t HL) (rows_total t HL) (rows_u64 t) Hmono (day_rows_sorted t) (rows_full t HL) _ _ _ _ Hwm2 E) as [Hs Hf].
  rewrite (cast_spans t spans HL Htrue). cbn [t_stats t_acc with_stats set_acc]. pose proof (spans_dates_NoDup spans Hs) as Hnd.
  assert (∀ sp, sp ∈ spans → foldl (count_day spans (placed (meet spans) (t_seen t))) (t_stats t) spans !! sp_Date sp = counted_addresses t (sp_Date sp) <$> t_stats t !! sp_Date sp) as Hin.
  { intros sp Hsp. rewrite count_days_lookup, (spans_find spans sp Hnd Hsp) by done.
    rewrite (new_in_spec spans _ Hs Hf (Hmeet spans) sp _ Hsp), (new_contracts_in_spec spans _ Hs Hf (Hmeet spans) sp _ Hsp), running_below, running_below_contracts by done.
    destruct (Htrue sp Hsp) as (i & r & Er & Hd & Hlo & Hhi). unfold counted_addresses, day_end. rewrite Hlo, Hd. pose proof (newest_index t i r Er) as Hnew.
    destruct (decide (S i = length (day_rows t))) as [Hl|Hl]; [rewrite decide_True by tauto; by destruct Hhi as [-> _]|rewrite decide_False by tauto; by rewrite Hhi]. }
  split_and!.
  - intros d. destruct (List.find (λ sp, sp_Date sp =? d) spans) as [sp|] eqn:Ed.
    + right. apply List.find_some in Ed as [Hsp%list_elem_of_In <-%Z.eqb_eq]. by apply Hin.
    + left. by rewrite count_days_lookup, Ed.
  - intros d ([s Es] & (a & f & Ea & Ef) & Hor). assert (d ∈ dates t) as [i Hi]%list_elem_of_lookup by (apply dates_elem; by exists s).
    assert (∀ i d a f, dates t !! i = Some d → t_acc t !! d = Some a → a_first a = Some f → ∃ r, day_rows t !! i = Some r ∧ dw_Date r = d ∧ is_Some (dw_FirstBlock r)) as Hrow.
    { intros i' d' a' f' Hi' Ea' Ef'. eexists. rewrite day_rows_list, list_lookup_fmap, Hi'. cbn. split_and!; [done|done|]. cbn. rewrite Ea'. cbn. rewrite Ef'. by eexists. }
    destruct (Hrow i d a f Hi Ea Ef) as (r & Er & Hd & Hfr).
    destruct (daySpans_recorded (day_rows t) start (watermark_of t) spans inferred skipped i r (rows_first t HL) Hwm2 E Er Hfr) as (sp & Hsp & Hsd).
    + rewrite Hd. destruct Hor as [[Hn Hle]|[Hd1 (a' & f' & Ea' & Ef')]]; [left; split; [|done]; apply (newest_index t i r Er); by rewrite Hd|right].
      assert (dates t !! S i = Some (d + 1)) as Hi1 by (apply dates_next; [done|by apply dates_elem]). destruct (Hrow (S i) (d + 1) a' f' Hi1 Ea' Ef') as (r' & ? & ? & ?). by exists r'.
    + intros v Hv. destruct (infer (day_rows t) (length (day_rows t)) 1 (dw_FirstBlock <$> day_rows t) []) as [fi g] eqn:Ei.
      destruct (infer_true _ start (rows_total t HL) (rows_u64 t) _ _ _ _ _ _ (Nat.le_refl 1) ltac:(apply length_fmap) (first_true _ start (rows_first t HL)) ltac:(constructor) Ei) as (_ & Hfi & _).
      by apply (Hfi i).
    + rewrite <-Hd, <-Hsd. by apply Hin.
  - intros d a f. unfold record_first. rewrite map_lookup_imap. destruct (t_acc t !! d) as [a0|] eqn:Ea; [|done]. cbn. intros [= <-].
    destruct (a_first a0) as [f0|] eqn:Ef; [intros E1; rewrite Ef in E1; injection E1 as <-; by apply (ly_first t HL _ _ _ Ea Ef)|].
    destruct (inferred !! d) as [n|] eqn:En; [|by rewrite Ef]. cbn. intros [= <-]. rewrite (Hinf d n En). apply i64_small. pose proof (Hrange d). lia.
Qed.
End Recount.
End Layout.
