(* ===== verification/RefillDays.v ===== *)
(** * What one write of refilled days leaves *)

From S2P Require Import Prelude RefillWrite RefillWriteProps RefillRecount.

(** ** The refilled rows *)

Lemma upsert_in {A} (f : RefillDay → option A → A) days (m : gmap Z A) r : NoDup (rd_Date <$> days) → r ∈ days →
  upsert_days f days m !! rd_Date r = Some (f r (m !! rd_Date r)).
Proof.
  intros Hnd Hr. unfold upsert_days. apply lookup_union_Some_l, elem_of_list_to_map_1; [by rewrite <-list_fmap_compose|]. apply list_elem_of_fmap. by exists r.
Qed.
Lemma upsert_out {A} (f : RefillDay → option A → A) days (m : gmap Z A) d : d ∉ rd_Date <$> days → upsert_days f days m !! d = m !! d.
Proof.
  intros Hd. unfold upsert_days. apply lookup_union_r, not_elem_of_list_to_map_1. by rewrite <-list_fmap_compose.
Qed.

(** ** The running total *)

Definition txs_after (m : gmap Z stats_row) (d d0 : Z) : Z := foldr Z.add 0 ((λ x, default 0 (s_txs <$> m !! x)) <$> seqZ (d + 1) (d0 - d)).
Definition in_run (m : gmap Z stats_row) (d d0 : Z) : Prop := d ≤ d0 ∧ ∀ x, d ≤ x ≤ d0 → is_Some (m !! x).

Lemma txs_after_step m d d0 s : d < d0 → m !! d0 = Some s → txs_after m d d0 = s_txs s + txs_after m d (d0 - 1).
Proof.
  intros Hd Hs. unfold txs_after. replace (d0 - d) with (d0 - 1 - d + 1) by lia. rewrite seqZ_app, fmap_app, foldr_app by lia.
  replace (d + 1 + (d0 - 1 - d)) with d0 by lia. rewrite (seqZ_cons d0) by lia. change (seqZ (Z.succ d0) (Z.pred 1)) with (@nil Z). rewrite fmap_cons. cbn. rewrite Hs. cbn.
  generalize ((λ x, default 0 (s_txs <$> m !! x)) <$> seqZ (d + 1) (d0 - 1 - d)). intros l. induction l as [|x l IH]; cbn; [lia|]. rewrite IH. lia.
Qed.

Lemma txs_after_self m d : txs_after m d d = 0.
Proof. unfold txs_after. by rewrite Z.sub_diag. Qed.

Lemma day_ends_sound fuel m d0 c e : e ∈ day_ends fuel m d0 c → in_run m e.1.1 d0 ∧ ∃ s, m !! e.1.1 = Some s ∧ e.1.2 = s_txs s ∧ e.2 = c - txs_after m e.1.1 d0.
Proof.
  revert d0 c. induction fuel as [|fuel IH]; intros d0 c; cbn; [by intros ?%not_elem_of_nil|]. destruct (m !! d0) as [s|] eqn:E; [|by intros ?%not_elem_of_nil].
  intros [->|He]%elem_of_cons.
  - cbn. split; [split; [lia|]; intros x ?; by replace x with d0 by lia; rewrite E|]. exists s. rewrite txs_after_self. split_and!; [done|done|lia].
  - destruct (IH _ _ He) as [[Hle Hrun] (s' & Es' & ? & Hc)]. split.
    + split; [lia|]. intros x ?. destruct (decide (x = d0)) as [->|]; [by rewrite E|]. apply Hrun. lia.
    + exists s'. split_and!; [done|done|]. rewrite Hc, (txs_after_step m e.1.1 d0 s) by (lia || done). lia.
Qed.
Lemma day_ends_complete fuel m d0 c d : in_run m d d0 → d0 - d < Z.of_nat fuel → d ∈ (λ e : Z * Z * Z, e.1.1) <$> day_ends fuel m d0 c.
Proof.
  revert d0 c. induction fuel as [|fuel IH]; intros d0 c [Hle Hrun] Hf; [lia|]. cbn [day_ends]. destruct (Hrun d0) as [s Hs]; [lia|]. rewrite Hs. rewrite fmap_cons.
  destruct (decide (d = d0)) as [->|]; [by left|]. right. apply IH; [split; [lia|]; intros x ?; apply Hrun; lia|lia].
Qed.
Lemma day_ends_NoDup fuel m d0 c : NoDup ((λ e : Z * Z * Z, e.1.1) <$> day_ends fuel m d0 c).
Proof.
  revert d0 c. induction fuel as [|fuel IH]; intros d0 c; cbn [day_ends]; [constructor|]. destruct (m !! d0) as [s|]; [|constructor]. rewrite fmap_cons. constructor; [|apply IH].
  intros (e & E & He)%list_elem_of_fmap. destruct (day_ends_sound _ _ _ _ _ He) as [[? _] _]. cbn in E. lia.
Qed.

Lemma run_size (m : gmap Z stats_row) d d0 : in_run m d d0 → d0 - d < Z.of_nat (size m).
Proof.
  intros [Hle Hrun]. assert (size (list_to_set (seqZ d (d0 - d + 1)) : gset Z) ≤ size (dom m))%nat as Hs.
  { apply subseteq_size. intros x [? ?]%elem_of_list_to_set%elem_of_seqZ. apply elem_of_dom, Hrun. lia. }
  rewrite size_list_to_set, length_seqZ, size_dom in Hs by apply NoDup_seqZ. lia.
Qed.

Lemma alter_ends {A} (g : Z * Z * Z → A → A) (l : list (Z * Z * Z)) (m : gmap Z A) : NoDup ((λ e : Z * Z * Z, e.1.1) <$> l) →
  (∀ e, e ∈ l → foldl (λ m e, alter (g e) e.1.1 m) m l !! e.1.1 = g e <$> m !! e.1.1) ∧
  ∀ d, d ∉ (λ e : Z * Z * Z, e.1.1) <$> l → foldl (λ m e, alter (g e) e.1.1 m) m l !! d = m !! d.
Proof.
  revert m. induction l as [|x l IH]; intros m Hnd; [by split; [intros e ?%not_elem_of_nil|]|]. rewrite fmap_cons in *. apply NoDup_cons in Hnd as [Hx Hnd]. cbn [foldl].
  destruct (IH (alter (g x) x.1.1 m) Hnd) as [IH1 IH2]. split.
  - intros e [->|He]%elem_of_cons; [by rewrite IH2, lookup_alter_eq|]. rewrite IH1 by done. rewrite lookup_alter_ne; [done|].
    intros E. apply Hx, list_elem_of_fmap. by exists e.
  - intros d [Hne Hd]%not_elem_of_cons. rewrite IH2, lookup_alter_ne by done. done.
Qed.

(** The newest day ends at [c], an earlier one of its run at what the days after leave. *)
Lemma write_cumulative_spec t t' : write_cumulative t = Some t' →
  (∀ d, set_cumulative 0 <$> t_stats t' !! d = set_cumulative 0 <$> t_stats t !! d) ∧ (∀ d, a_first <$> t_acc t' !! d = a_first <$> t_acc t !! d) ∧
  t_watermark t' = t_watermark t ∧ t_seen t' = t_seen t ∧
  ∀ d0 d s, newest t = Some d0 → in_run (t_stats t) d d0 → t_stats t' !! d = Some s →
    ∃ c, counted_through t = Some c ∧ s_cumTxs s = c - txs_after (t_stats t) d d0 ∧ ∀ a, t_acc t' !! d = Some a → a_before a = Some (s_cumTxs s - s_txs s).
Proof.
  unfold write_cumulative. destruct (newest t) as [d0|] eqn:En; [|by intros [= <-]; split_and!]. destruct (counted_through t) as [c|] eqn:Ec; [|done].
  set (ends := day_ends (size (t_stats t)) (t_stats t) d0 c). intros [= <-]. cbn [t_stats t_acc with_stats set_acc t_watermark t_seen].
  pose proof (day_ends_NoDup (size (t_stats t)) (t_stats t) d0 c) as Hnd. fold ends in Hnd.
  destruct (alter_ends (λ e, set_cumulative e.2) ends (t_stats t) Hnd) as [Hs1 Hs2]. destruct (alter_ends (λ e, set_before (e.2 - e.1.2)) ends (t_acc t) Hnd) as [Ha1 Ha2].
  assert (∀ d, d ∈ (λ e : Z * Z * Z, e.1.1) <$> ends ∨ d ∉ (λ e : Z * Z * Z, e.1.1) <$> ends) as Hdec by (intros d; destruct (decide (d ∈ (λ e : Z * Z * Z, e.1.1) <$> ends)); auto).
  split_and!; [| |done|done|].
  - intros d. destruct (Hdec d) as [(e & -> & He)%list_elem_of_fmap|Hd]; [rewrite Hs1 by done; by destruct (t_stats t !! e.1.1)|by rewrite Hs2].
  - intros d. destruct (Hdec d) as [(e & -> & He)%list_elem_of_fmap|Hd]; [rewrite Ha1 by done; by destruct (t_acc t !! e.1.1)|by rewrite Ha2].
  - intros d1 d s [= <-] Hrun Es. exists c. split; [done|].
    pose proof (day_ends_complete (size (t_stats t)) (t_stats t) d0 c d Hrun (run_size _ _ _ Hrun)) as (e & -> & He)%list_elem_of_fmap. fold ends in He.
    destruct (day_ends_sound _ _ _ _ _ He) as [_ (s0 & Es0 & Etx & Ecum)]. rewrite Hs1, Es0 in Es by done. injection Es as <-. cbn. split; [done|].
    intros a. rewrite Ha1 by done. destruct (t_acc t !! e.1.1); [|done]. intros [= <-]. cbn. by rewrite Etx.
Qed.

Lemma txs_after_ext (m m' : gmap Z stats_row) d d0 : (∀ x, s_txs <$> m !! x = s_txs <$> m' !! x) → txs_after m d d0 = txs_after m' d d0.
Proof. intros H. unfold txs_after. f_equal. apply list_fmap_ext. intros i x _. by rewrite H. Qed.

Lemma newest_iff t d : newest t = Some d ↔ is_Some (t_stats t !! d) ∧ ∀ x, is_Some (t_stats t !! x) → x ≤ d.
Proof.
  unfold newest. setoid_rewrite <-dates_elem. pose proof (dates_sorted t) as Hs. rewrite last_lookup. split.
  - intros E. split; [by apply list_elem_of_lookup_2 in E|]. intros x [i Hi]%list_elem_of_lookup. pose proof (lookup_lt_Some _ _ _ Hi).
    destruct (decide (i = pred (length (dates t)))) as [->|]; [rewrite E in Hi; by injection Hi as ->|]. assert (x < d); [|lia].
    apply (StronglySorted_lookup_lt Z.lt (dates t) i (pred (length (dates t)))); [done|done|done|lia].
  - intros [[i Hi]%list_elem_of_lookup Hmax]. pose proof (lookup_lt_Some _ _ _ Hi). destruct (lookup_lt_is_Some_2 (dates t) (pred (length (dates t)))) as [y Hy]; [lia|].
    assert (y ≤ d) by (apply Hmax; by apply list_elem_of_lookup_2 in Hy). destruct (decide (i = pred (length (dates t)))) as [->|]; [done|].
    assert (d < y); [|lia]. apply (StronglySorted_lookup_lt Z.lt (dates t) i (pred (length (dates t)))); [done|done|done|lia].
Qed.

(** ** The whole write *)

Definition block_columns (s : stats_row) := (s_blocks s, s_txs s, s_gas s, s_gasPrice s, s_successful s, s_failed s, s_active s, s_blockTime s, s_size s, s_transfers s).
Definition address_columns (s : stats_row) := (s_newAddresses s, s_newContracts s, s_cumAddresses s, s_cumContracts s).

(** A day as the node has it: its first block, all its blocks, at least one. *)
Definition refill_true (start : Z → Z) (r : RefillDay) : Prop :=
  rd_FirstBlock r = start (rd_Date r) ∧ rd_Blocks r = start (rd_Date r + 1) - start (rd_Date r) ∧ 0 < rd_Blocks r.

Section Write.
Context (start : Z → Z) (Hmono : ∀ x y, x ≤ y → start x ≤ start y) (Hrange : ∀ d, 0 ≤ start d < H64).
Context (meet : list DaySpan → list DaySpan) (Hmeet : ∀ l, meet l ≡ₚ l).

Lemma layout_refilled days t : NoDup (rd_Date <$> days) → Forall (refill_true start) days → layout start t → layout start (refilled days t).
Proof.
  intros Hnd Hall HL. rewrite Forall_forall in Hall. split.
  - intros d a f. cbn. destruct (decide (d ∈ rd_Date <$> days)) as [(r & -> & Hr)%list_elem_of_fmap|Hd].
    + rewrite (upsert_in refill_acc days (t_acc t) r Hnd Hr). intros [= <-] [= <-]. destruct (Hall r Hr) as (-> & _). apply i64_small. pose proof (Hrange (rd_Date r)). lia.
    + rewrite upsert_out by done. apply (ly_first start t HL).
  - intros d s. cbn. destruct (decide (d ∈ rd_Date <$> days)) as [(r & -> & Hr)%list_elem_of_fmap|Hd].
    + rewrite (upsert_in refill_stats days (t_stats t) r Hnd Hr). intros [= <-]. destruct (Hall r Hr) as (_ & E & ?). cbn. lia.
    + rewrite upsert_out by done. apply (ly_blocks start t HL).
  - intros d s. cbn. destruct (decide (d ∈ rd_Date <$> days)) as [(r & -> & Hr)%list_elem_of_fmap|Hd].
    + intros _. destruct (Hall r Hr) as (_ & E & ?). lia.
    + rewrite upsert_out by done. apply (ly_full start t HL).
  - apply (ly_watermark start t HL).
Qed.

Lemma same_columns {A} (f : stats_row → A) (x y : option stats_row) : (∀ s, f (set_cumulative 0 s) = f s) → set_cumulative 0 <$> x = set_cumulative 0 <$> y → f <$> x = f <$> y.
Proof. intros Hf. destruct x as [x|], y as [y|]; [|done|done|done]. cbn. intros [= E]. f_equal. rewrite <-(Hf x), <-(Hf y). apply f_equal. by destruct x, y; cbn in *; simplify_eq. Qed.

Lemma refilled_spec days t t' : NoDup (rd_Date <$> days) → Forall (refill_true start) days → layout start t →
  write_cumulative (recountDailyAddressColumns meet (refilled days t)) = Some t' →
  let t1 := refilled days t in
  layout start t' ∧
  (∀ d, block_columns <$> t_stats t' !! d = block_columns <$> t_stats t1 !! d) ∧
  (∀ d, address_columns <$> t_stats t' !! d = address_columns <$> t_stats t1 !! d ∨ address_columns <$> t_stats t' !! d = address_columns ∘ counted_addresses start t1 d <$> t_stats t1 !! d) ∧
  (∀ d, placeable start t1 d → address_columns <$> t_stats t' !! d = address_columns ∘ counted_addresses start t1 d <$> t_stats t1 !! d) ∧
  ∀ d0 d s, newest t1 = Some d0 → in_run (t_stats t1) d d0 → t_stats t' !! d = Some s →
    ∃ c, counted_through t = Some c ∧ s_cumTxs s = c - txs_after (t_stats t') d d0 ∧ ∀ a, t_acc t' !! d = Some a → a_before a = Some (s_cumTxs s - s_txs s).
Proof.
  intros Hnd Hall HL E t1. pose proof (layout_refilled days t Hnd Hall HL) as HL1. fold t1 in E, HL1.
  destruct (recount_counts start Hmono Hrange meet Hmeet t1 HL1) as (Hor & Hpl & Hfirst). set (t2 := recountDailyAddressColumns meet t1) in *.
  destruct (write_cumulative_spec t2 t' E) as (Hst & Hac & Hwm & _ & Hcum).
  assert (∀ d, block_columns <$> t_stats t2 !! d = block_columns <$> t_stats t1 !! d) as Hb2 by (intros d; destruct (Hor d) as [->| ->]; [done|by destruct (t_stats t1 !! d)]).
  assert (∀ d, block_columns <$> t_stats t' !! d = block_columns <$> t_stats t1 !! d) as Hb.
  { intros d. rewrite <-Hb2. by apply same_columns. }
  assert (∀ d, address_columns <$> t_stats t' !! d = address_columns <$> t_stats t2 !! d) as Ha by (intros d; by apply same_columns).
  assert (∀ d s, t_stats t' !! d = Some s → ∃ s1, t_stats t1 !! d = Some s1 ∧ s_blocks s = s_blocks s1) as Hback.
  { intros d s Es. specialize (Hb d). rewrite Es in Hb. destruct (t_stats t1 !! d) as [s1|] eqn:E1; [|done]. exists s1. split; [done|]. by injection Hb. }
  assert (t_watermark t2 = t_watermark t) as Hwm2 by (unfold t2, recountDailyAddressColumns; by destruct (daySpans _ _) as [[? ?] ?]).
  assert (∀ t, t_counter (recountDailyAddressColumns meet t) = t_counter t ∧ t_txs (recountDailyAddressColumns meet t) = t_txs t) as Hct
    by (intros t0; unfold recountDailyAddressColumns; by destruct (daySpans _ _) as [[? ?] ?]).
  assert (∀ x, is_Some (t_stats t2 !! x) ↔ is_Some (t_stats t1 !! x)) as Hdom by (intros x; specialize (Hb2 x); destruct (t_stats t2 !! x), (t_stats t1 !! x); done).
  split_and!.
  - split.
    + intros d a f Ea Ef. specialize (Hac d). rewrite Ea in Hac. destruct (t_acc t2 !! d) as [a2|] eqn:E2; [|done]. apply (Hfirst d a2 f); [done|]. injection Hac as Hac. by rewrite <-Hac.
    + intros d s Es. destruct (Hback d s Es) as (s1 & E1 & ->). by apply (ly_blocks start t1 HL1).
    + intros d s Es. destruct (Hback d s Es) as (s1 & E1 & _). by apply (ly_full start t1 HL1 d s1).
    + unfold watermark_of. rewrite Hwm, Hwm2. apply (ly_watermark start t HL).
  - done.
  - intros d. rewrite Ha. destruct (Hor d) as [->| ->]; [by left|right; by rewrite option_fmap_compose].
  - intros d Hd. rewrite Ha, (Hpl d Hd). by rewrite option_fmap_compose.
  - intros d0 d s Hn Hrun Es. destruct (Hcum d0 d s) as (c & Hc & Hs & Hbef); [| |done|].
    + apply newest_iff. apply newest_iff in Hn as [? Hn]. rewrite Hdom. split; [done|]. intros x Hx. by apply Hn, Hdom.
    + destruct Hrun as [? Hrun]. split; [done|]. intros x ?. by apply Hdom, Hrun.
    + exists c. split_and!; [|rewrite Hs; f_equal; apply txs_after_ext; intros x; symmetry; by apply same_columns|done].
      revert Hc. unfold counted_through, watermark_of. destruct (Hct t1) as [Hc1 Hc2]. fold t2 in Hc1, Hc2. by rewrite Hc1, Hc2, Hwm2.
Qed.
End Write.

(** ** The write, whatever the tables hold *)

Lemma recount_block_columns meet t d : block_columns <$> t_stats (recountDailyAddressColumns meet t) !! d = block_columns <$> t_stats t !! d.
Proof.
  unfold recountDailyAddressColumns. destruct (daySpans _ _) as [[spans inferred] skipped]. cbn [t_stats with_stats set_acc].
  set (l := _ <$> spans). generalize (placed (meet l) (t_seen t)). intros p.
  assert (∀ k (m : gmap Z stats_row), block_columns <$> foldl (count_day l p) m k !! d = block_columns <$> m !! d) as H; [|apply H].
  intros k. induction k as [|sp k IH]; intros m; [done|]. cbn [foldl]. rewrite IH. unfold count_day.
  destruct (decide (d = sp_Date sp)) as [->|]; [rewrite lookup_alter_eq; by destruct (m !! sp_Date sp)|by rewrite lookup_alter_ne].
Qed.
Lemma write_block_columns meet days t t' rows r : WriteRefilledDailyStats meet days false t = (t', Ok rows) → r ∈ days →
  block_columns <$> t_stats t' !! rd_Date r = Some (block_columns (refill_stats r (t_stats t !! rd_Date r))).
Proof.
  unfold WriteRefilledDailyStats. destruct (List.find _ days) as [?|]; [done|]. destruct (bool_decide (NoDup (rd_Date <$> days))) eqn:End; [|done].
  apply bool_decide_eq_true in End. destruct (write_cumulative _) as [t2|] eqn:E; [|done]. intros E0 Hr. injection E0 as <- _.
  destruct (write_cumulative_spec _ _ E) as (Hst & _). rewrite (same_columns block_columns _ _ ltac:(done) (Hst _)), recount_block_columns. cbn.
  by rewrite (upsert_in refill_stats days (t_stats t) r End Hr).
Qed.
(** A call that fails, or is dry, leaves the tables; why it fails. *)
Lemma write_err_reason meet days dry t t' e : WriteRefilledDailyStats meet days dry t = (t', Err e) → NoDup (rd_Date <$> days) →
  t' = t ∧ match e with ErrRefillAboveWatermark d => ∃ r, r ∈ days ∧ rd_Date r = d ∧ watermark_of t < i64 (rd_LastBlock r) | WriteFailed => t_counter t = None end.
Proof.
  unfold WriteRefilledDailyStats. intros E Hnd. destruct (List.find _ days) as [r|] eqn:Ef.
  - injection E as <- <-. split; [done|]. apply List.find_some in Ef as [Hr%list_elem_of_In Hl%Z.ltb_lt]. by exists r.
  - rewrite bool_decide_eq_true_2 in E by done. destruct (write_cumulative _) as [t2|] eqn:Ew; [done|]. injection E as <- <-. split; [done|].
    unfold write_cumulative in Ew. destruct (newest _); [|done]. destruct (counted_through _) eqn:Ec; [done|]. unfold counted_through in Ec.
    unfold recountDailyAddressColumns in Ec. destruct (daySpans _ _) as [[? ?] ?]. cbn in Ec. by destruct (t_counter t).
Qed.

(** C34: A refill writes consistent days, when every day involved holds a block. From
    tables whose recorded first blocks are the days' first blocks, where no day counts more
    blocks than it has and every day with a row has one ([layout]), a refill of days counted
    in full, each with at least one block, that succeeds keeps all this; every refilled day
    ends at or below the watermark and has the node's counts, every other day keeps its own;
    a day whose first block is recorded, and the next day's too (or that is the newest, up
    to the watermark), gets as new addresses and contracts exactly those first seen in its
    blocks, and as cumulative ones those seen before its end, although one pass places
    every address and nothing says in which order rows are met; any other day gets them
    too, when the first blocks inferred from the counts land on a recorded one, or keeps
    its columns; and the running totals of the days in a row up to the newest start at
    the counter less what is above the watermark and differ by each day's transactions,
    the accumulators continuing from them. A day without blocks is outside: counted in full
    it shares its first block with the next, and which of the two gets the addresses depends
    on the order rows are met in (see empty_day_takes_addresses). *)
Theorem refilled_days_consistent start meet days t t' rows :
  (∀ x y, x ≤ y → start x ≤ start y) → (∀ d, 0 ≤ start d < H64) → (∀ l, meet l ≡ₚ l) → layout start t → Forall (refill_true start) days →
  WriteRefilledDailyStats meet days false t = (t', Ok rows) →
  let t1 := refilled days t in
  layout start t' ∧
  (∀ r, r ∈ days → i64 (rd_LastBlock r) ≤ watermark_of t ∧ block_columns <$> t_stats t' !! rd_Date r = Some (block_columns (refill_stats r (t_stats t !! rd_Date r)))) ∧
  (∀ d, d ∉ rd_Date <$> days → block_columns <$> t_stats t' !! d = block_columns <$> t_stats t !! d) ∧
  (∀ d, address_columns <$> t_stats t' !! d = address_columns <$> t_stats t1 !! d ∨ address_columns <$> t_stats t' !! d = address_columns ∘ counted_addresses start t1 d <$> t_stats t1 !! d) ∧
  (∀ d, placeable start t1 d → address_columns <$> t_stats t' !! d = address_columns ∘ counted_addresses start t1 d <$> t_stats t1 !! d) ∧
  ∀ d0 d s, newest t1 = Some d0 → in_run (t_stats t1) d d0 → t_stats t' !! d = Some s →
    ∃ c, counted_through t = Some c ∧ s_cumTxs s = c - txs_after (t_stats t') d d0 ∧ ∀ a, t_acc t' !! d = Some a → a_before a = Some (s_cumTxs s - s_txs s).
Proof.
  intros Hmono Hrange Hmeet HL Hall. unfold WriteRefilledDailyStats. destruct (List.find _ days) as [r|] eqn:Ef; [done|].
  destruct (bool_decide (NoDup (rd_Date <$> days))) eqn:End; [|done]. apply bool_decide_eq_true in End.
  destruct (write_cumulative _) as [t2|] eqn:E; [|done]. intros E0. injection E0 as <- _.
  destruct (refilled_spec start Hmono Hrange meet Hmeet days t t2 End Hall HL E) as (H1 & H2 & H3 & H4 & H5). refine (conj H1 (conj _ (conj _ (conj H3 (conj H4 H5))))).
  - intros r Hr. split; [|by rewrite H2; cbn; rewrite (upsert_in refill_stats days (t_stats t) r End Hr)].
    apply list_elem_of_In in Hr. pose proof (List.find_none _ _ Ef r Hr) as Hl%Z.ltb_ge. done.
  - intros d Hd. rewrite H2. cbn. by rewrite upsert_out.
Qed.

(** Ten blocks a day; the row of day 1 misses six of its blocks. *)
Definition sample_start (d : Z) : Z := Z.max 0 (Z.min 30 (10 * d)).
Definition sample_stats (blocks txs : Z) : stats_row := mkStatsRow blocks txs 0 (0, 0) 0 0 0 (0, 0) (0, 0) 0 0 0 0 0 0.
Definition sample_acc (first : option Z) (blocks txs : Z) : acc_row := mkAccRow first blocks 0 0 0 0 0 txs 0 0 0 0 0 None.
Definition sample_tables : daily_tables :=
  mkTables (list_to_map [(0, sample_stats 10 7); (1, sample_stats 4 3); (2, sample_stats 5 2)])
    (list_to_map [(0, sample_acc (Some 0) 10 7); (1, sample_acc None 4 3); (2, sample_acc (Some 20) 5 2)]) (Some 24) 5 (Some 20) [3; 12; 22; 27]
    [(Some 3, false); (Some 12, true); (Some 19, false); (None, false); (Some 22, false); (Some 27, false)].
Definition sample_refill : RefillDay := mkRefillDay 1 10 19 10 8 0 0 0 0 0 None None None None None.
Definition sample_written : daily_tables := (WriteRefilledDailyStats id [sample_refill] false sample_tables).1.

Lemma sample_days (P : Z → stats_row → Prop) : P 0 (sample_stats 10 7) → P 1 (sample_stats 4 3) → P 2 (sample_stats 5 2) →
  ∀ d s, t_stats sample_tables !! d = Some s → P d s.
Proof.
  intros H0 H1 H2 d s H. change (t_stats sample_tables) with (<[0 := sample_stats 10 7]> (<[1 := sample_stats 4 3]> (<[2 := sample_stats 5 2]> (∅ : gmap Z stats_row)))) in H.
  apply lookup_insert_Some in H as [[<- <-]|[_ H]]; [done|]. apply lookup_insert_Some in H as [[<- <-]|[_ H]]; [done|].
  apply lookup_insert_Some in H as [[<- <-]|[_ H]]; [done|]. by rewrite lookup_empty in H.
Qed.
Lemma sample_layout : layout sample_start sample_tables.
Proof.
  split; [|apply sample_days; vm_compute; split; discriminate|apply sample_days; done|vm_compute; split; [discriminate|done]].
  intros d a f H. change (t_acc sample_tables) with (<[0 := sample_acc (Some 0) 10 7]> (<[1 := sample_acc None 4 3]> (<[2 := sample_acc (Some 20) 5 2]> (∅ : gmap Z acc_row)))) in H.
  apply lookup_insert_Some in H as [[<- <-]|[_ H]]; [by intros [= <-]|]. apply lookup_insert_Some in H as [[<- <-]|[_ H]]; [done|].
  apply lookup_insert_Some in H as [[<- <-]|[_ H]]; [by intros [= <-]|]. by rewrite lookup_empty in H.
Qed.

Lemma refilled_days_consistent_witness :
  let t1 := refilled [sample_refill] sample_tables in
  (t_stats sample_written !! 1 = Some (mkStatsRow 10 8 0 (0, 0) 0 0 0 (0, 0) (0, 0) 0 2 1 17 3 1) ∧
   t_stats sample_written !! 2 = Some (mkStatsRow 5 2 0 (0, 0) 0 0 0 (0, 0) (0, 0) 0 1 0 19 4 1)) ∧
  layout sample_start sample_written ∧
  ∀ d, placeable sample_start t1 d → address_columns <$> t_stats sample_written !! d = address_columns ∘ counted_addresses sample_start t1 d <$> t_stats t1 !! d.
Proof.
  split; [split; vm_compute; reflexivity|].
  destruct (refilled_days_consistent sample_start id [sample_refill] sample_tables sample_written (default [] (match (WriteRefilledDailyStats id [sample_refill] false sample_tables).2 with Ok r => Some r | Err _ => None end)))
    as (H1 & _ & _ & _ & H4 & _).
  - intros x y ?. unfold sample_start. lia.
  - intros d. unfold sample_start. lia.
  - done.
  - apply sample_layout.
  - repeat constructor.
  - vm_compute. reflexivity.
  - done.
Defined.

(** Two counts that are wrong by the same number cancel: the run lands on the recorded
    first block, and day 2 is given block 22 as its first instead of 20. *)
Example wrong_counts_cancel :
  (daySpans [mkDayRow 0 10 (Some 0); mkDayRow 1 12 None; mkDayRow 2 8 None; mkDayRow 3 10 (Some 30)] 39).1.1 = [mkDaySpan 0 0 10; mkDaySpan 1 10 22; mkDaySpan 2 22 30; mkDaySpan 3 30 40].
Proof. vm_compute. reflexivity. Qed.

(** A day without blocks ends where the day before does: which of the two an address is
    placed in, and so whether it is counted as new, is up to the order rows are met in. *)
Example empty_day_takes_addresses :
  let spans := [mkDaySpan 0 0 10; mkDaySpan 1 10 10; mkDaySpan 2 10 20] in
  new_in (placed spans [(Some 5, false)]) 0 = 1 ∧ new_in (placed (rev spans) [(Some 5, false)]) 0 = 0 ∧ new_in (placed (rev spans) [(Some 5, false)]) 1 = 0.
Proof. vm_compute. done. Qed.
