(* ===== verification/DailyRefill.v ===== *)
(** * Refilling days from the node

    [internal/indexer/daily_refill.go] with the checkpoints of
    [internal/db/daily_refill.go]: finding a day's blocks by their timestamps, counting
    them and their receipts in batches, and writing the counted days. Every event of a
    run (a wait, a request, a pause, a statement) has a number; what the node answers,
    how a statement ends and when the run is stopped are given by it, and other
    sessions run between any two. *)

From S2P Require Import Prelude GoStrings EthCommon BuildBlock Session RpcBatch RefillWrite.

Record RefillTx := mkRefillTx { x_From : gostring; x_To : option gostring; x_GasPrice : option Z }.
Record RefillBlock := mkRefillBlock { b_Number : Z; b_Timestamp : Z; b_GasUsed : Z; b_Size : Z; b_TxCount : Z; b_Txs : list RefillTx }.

(** The interface DailyRefillNode. *)
Class DailyRefillNode := mkNode {
  BlockNumber : nat → res batch_err Z;
  Blocks : nat → list Z → bool → res batch_err (list (option RefillBlock));
  BlockReceipts : nat → list Z → res batch_err (list (list (option Receipt))) }.

Record DailyRefillOptions := mkOptions { o_Bodies : bool; o_Receipts : bool; o_Batch : Z; o_Plan : bool; o_Dry : bool }.
Record DayRange := mkDayRange { g_Date : Z; g_First : Z; g_End : Z; g_FromSaved : bool }.
Record DailyRefillReport := mkReport { p_Days : list DayRange; p_Requests : Z; p_Calls : Z; p_Rows : list (Z * stats_row) }.

Inductive refill_err :=
| ENode (e : batch_err) | EStopped | ENoBlock (n : Z) | ErrRefillReceiptsIncomplete (n : Z) | ENotOver (day : Z) | EDb | EWrite (e : refill_write_err).

(** A call returns, fails, panics, or does not end. *)
Inductive fin (A : Type) := FVal (a : A) | FErr (e : refill_err) | FPanic | FSpin.
Arguments FVal {A}.
Arguments FErr {A}.
Arguments FPanic {A}.
Arguments FSpin {A}.

(** The memory of dailyRefill; the table of checkpoints, where it exists; the daily
    tables. *)
Record refill_mem := mkMem { m_ts : gmap Z Z; m_requests : Z; m_calls : Z }.
Record refill_sys := mkSys { y_mem : refill_mem; y_saved : option (gmap Z RefillDay); y_tables : daily_tables }.
Definition set_mem (m : refill_mem) (y : refill_sys) : refill_sys := mkSys m (y_saved y) (y_tables y).
Definition set_ts (ts : gmap Z Z) (y : refill_sys) : refill_sys := set_mem (mkMem ts (m_requests (y_mem y)) (m_calls (y_mem y))) y.

Definition R (A : Type) : Type := nat → refill_sys → nat * refill_sys * fin A.
Definition rret {A} (a : A) : R A := λ k y, (k, y, FVal a).
Definition rfail {A} (e : refill_err) : R A := λ k y, (k, y, FErr e).
Definition rpanic {A} : R A := λ k y, (k, y, FPanic).
Definition rspin {A} : R A := λ k y, (k, y, FSpin).
Definition rbind {A B} (m : R A) (f : A → R B) : R B :=
  λ k y, match m k y with
         | (k, y, FVal a) => f a k y
         | (k, y, FErr e) => (k, y, FErr e)
         | (k, y, FPanic) => (k, y, FPanic)
         | (k, y, FSpin) => (k, y, FSpin)
         end.
Notation "'run' x := m 'in' k" := (rbind m (λ x, k)) (at level 10, x pattern, m at level 100, k at level 200) : go_scope.
(** An operation on the memory. *)
Definition local {A} (f : refill_sys → refill_sys * A) : R A := λ k y, let '(y, a) := f y in (k, y, FVal a).
Definition r_update (f : refill_sys → refill_sys) : R unit := local (λ y, (f y, ())).

Section Refill.
Context (env : nat → refill_sys → refill_sys) (out : nat → stmt_end) (stopped : nat → bool) `{DailyRefillNode} (meet : list DaySpan → list DaySpan).

(** Waiting, for the limiter or between attempts: the run may be stopped. *)
Definition wait : R unit := λ k y, (S k, env k y, if stopped k then FErr EStopped else FVal ()).
Definition r_request {A} (f : nat → res batch_err A) : R (res batch_err A) := λ k y, (S k, env k y, FVal (f k)).
Definition r_statement {A} (f : refill_sys → refill_sys * fin A) : R A :=
  λ k y, let y := env k y in
    match out k with
    | Failed => (S k, y, FErr EDb)
    | Unheard => (S k, (f y).1, FErr EDb)
    | Done => let '(y, r) := f y in (S k, y, r)
    end.

(** ** Requests *)

Definition throttled (e : batch_err) : bool := match e with HTTPStatusError code => (code =? 429) || (500 <=? code) | OtherError => false end.

(** [more] attempts are left after this one. *)
Fixpoint retry {A} (more : nat) (calls : Z) (fn : nat → res batch_err A) : R A :=
  run _ := wait in
  run _ := r_update (λ y, set_mem (mkMem (m_ts (y_mem y)) (m_requests (y_mem y) + 1) (m_calls (y_mem y) + calls)) y) in
  run r := r_request fn in
  match r with
  | Ok a => rret a
  | Err e =>
      match more with
      | O => rfail (ENode e)
      | S more => if throttled e then run _ := wait in retry more calls fn else rfail (ENode e)
      end
  end.
Definition withRetry {A} (calls : Z) (fn : nat → res batch_err A) : R A := retry 5 calls fn.

(** The loop over the answer: every block there, its timestamp kept. *)
Fixpoint keep_blocks (i : nat) (numbers : list Z) (l : list (option RefillBlock)) : R (list RefillBlock) :=
  match l with
  | [] => rret []
  | None :: _ => match numbers !! i with Some n => rfail (ENoBlock n) | None => rpanic end
  | Some b :: l =>
      run _ := r_update (λ y, set_ts (<[b_Number b := b_Timestamp b]> (m_ts (y_mem y))) y) in
      run bs := keep_blocks (S i) numbers l in rret (b :: bs)
  end.
Definition blocks (numbers : list Z) (bodies : bool) : R (list RefillBlock) :=
  run l := withRetry (zlen numbers) (λ k, Blocks k numbers bodies) in keep_blocks 0 numbers l.

Definition got (receipts : list (list (option Receipt))) (i : nat) : Z := zlen (omap id (default [] (receipts !! i))).
(** The first block with fewer receipts than transactions. *)
Definition lacking (bs : list RefillBlock) (receipts : list (list (option Receipt))) : option RefillBlock :=
  snd <$> List.find (λ ib, got receipts ib.1 <? b_TxCount ib.2) (zip (seq 0 (length bs)) bs).

Fixpoint receipts_again (more : nat) (numbers : list Z) (bs : list RefillBlock) : R (list (list (option Receipt))) :=
  run receipts := withRetry (zlen numbers) (λ k, BlockReceipts k numbers) in
  match lacking bs receipts with
  | None => rret receipts
  | Some b => match more with O => rfail (ErrRefillReceiptsIncomplete (b_Number b)) | S more => run _ := wait in receipts_again more numbers bs end
  end.
Definition allReceipts (numbers : list Z) (bs : list RefillBlock) : R (list (list (option Receipt))) := receipts_again 2 numbers bs.

Definition timestamp (n : Z) : R Z :=
  run t := local (λ y, (y, m_ts (y_mem y) !! n)) in
  match t with
  | Some t => rret t
  | None => run bs := blocks [n] false in match bs with b :: _ => rret (b_Timestamp b) | [] => rpanic end
  end.

Fixpoint search (fuel : nat) (ts lo hi : Z) : R Z :=
  if lo <? hi then
    match fuel with
    | O => rspin
    | S fuel =>
        let mid := u64 (lo + (hi - lo) / 2) in
        run t := timestamp mid in
        if ts <=? t then search fuel ts lo mid else search fuel ts (u64 (mid + 1)) hi
    end
  else rret lo.
(** The interval halves: 65 rounds for 64 bits. *)
Definition firstBlockAtOrAfter (head ts : Z) : R Z := search 65 ts 0 (u64 (head + 1)).

(** ** Counting a day *)

Record counting := mkCounting { c_rd : RefillDay; c_gasPrice : option Z; c_active : gset gostring; c_ok : Z; c_failed : Z; c_transfers : Z; c_prev : Z }.

(** One transaction: adding to a nil sum panics. *)
Definition refill_count_tx (c : counting) (x : RefillTx) : option counting :=
  let active := {[ ToLower (x_From x) ]} ∪ c_active c ∪ match x_To x with Some a => {[ ToLower a ]} | None => ∅ end in
  let c' g := Some (mkCounting (c_rd c) g active (c_ok c) (c_failed c) (c_transfers c) (c_prev c)) in
  match x_GasPrice x with
  | None => c' (c_gasPrice c)
  | Some p => match c_gasPrice c with Some g => c' (Some (g + p)) | None => None end
  end.
Fixpoint refill_count_txs (c : counting) (l : list RefillTx) : option counting :=
  match l with [] => Some c | x :: l => match refill_count_tx c x with Some c => refill_count_txs c l | None => None end end.

Definition refill_count_block (c : counting) (b : RefillBlock) : option counting :=
  let r := c_rd c in
  let timed := 0 <=? c_prev c in
  let r := mkRefillDay (rd_Date r) (rd_FirstBlock r) (rd_LastBlock r) (i64 (rd_Blocks r + 1)) (i64 (rd_Txs r + i64 (b_TxCount b)))
             (i64 (rd_GasUsed r + i64 (b_GasUsed b))) (i64 (rd_SizeSum r + i64 (b_Size b))) (i64 (rd_SizeN r + 1))
             (if timed then i64 (rd_BlockTimeSum r + i64 (i64 (b_Timestamp b) - c_prev c)) else rd_BlockTimeSum r)
             (if timed then i64 (rd_BlockTimeN r + 1) else rd_BlockTimeN r) None None None None None in
  refill_count_txs (mkCounting r (c_gasPrice c) (c_active c) (c_ok c) (c_failed c) (c_transfers c) (i64 (b_Timestamp b))) (b_Txs b).

Fixpoint refill_count_blocks (c : counting) (bs : list RefillBlock) : R counting :=
  match bs with
  | [] => rret c
  | b :: bs =>
      match refill_count_block c b with
      | None => rpanic
      | Some c => run _ := r_update (λ y, set_ts (delete (b_Number b) (m_ts (y_mem y))) y) in refill_count_blocks c bs
      end
  end.

Definition is_transfer (lg : receipt_log) : bool :=
  (3 <=? length (rl_topics lg))%nat && match rl_topics lg with t :: _ => bool_decide (t = transferTopic) | [] => false end.
(** A nil receipt is dereferenced. *)
Fixpoint count_receipts (c : counting) (l : list (option Receipt)) : option counting :=
  match l with
  | [] => Some c
  | None :: _ => None
  | Some rc :: l =>
      let good := rc_status rc =? 1 in
      count_receipts (mkCounting (c_rd c) (c_gasPrice c) (c_active c) (if good then i64 (c_ok c + 1) else c_ok c) (if good then c_failed c else i64 (c_failed c + 1))
        (i64 (c_transfers c + zlen (filter (λ lg, is_transfer lg = true) (rc_logs rc)))) (c_prev c)) l
  end.

(** The loop over the day's blocks, [lo += Batch]. *)
Fixpoint count_batches (fuel : nat) (opts : DailyRefillOptions) (c : counting) (lo end_ : Z) : R counting :=
  if lo <? end_ then
    match fuel with
    | O => rspin
    | S fuel =>
        let hi := Z.min (u64 (lo + o_Batch opts)) end_ in
        let numbers := seqZ lo (hi - lo) in
        run bs := blocks numbers (o_Bodies opts) in
        run c := refill_count_blocks c bs in
        run c := (if o_Receipts opts then
                    run receipts := allReceipts numbers bs in
                    match count_receipts c (concat receipts) with Some c => rret c | None => rpanic end
                  else rret c) in
        count_batches fuel opts c (u64 (lo + o_Batch opts)) end_
    end
  else rret c.

Definition countDay (opts : DailyRefillOptions) (dr : DayRange) : R RefillDay :=
  let rd := mkRefillDay (g_Date dr) (g_First dr) (u64 (g_End dr - 1)) 0 0 0 0 0 0 0 None None None None None in
  run prev := (if 0 <? g_First dr then run t := timestamp (g_First dr - 1) in rret (i64 t) else rret (-1)) in
  run c := count_batches (Z.to_nat (g_End dr - g_First dr)) opts (mkCounting rd (if o_Bodies opts then Some 0 else None) ∅ 0 0 0 prev) (g_First dr) (g_End dr) in
  let r := c_rd c in
  let bodies {A} (x : A) := if o_Bodies opts then Some x else None in
  let receipts {A} (x : A) := if o_Receipts opts then Some x else None in
  rret (mkRefillDay (rd_Date r) (rd_FirstBlock r) (rd_LastBlock r) (rd_Blocks r) (rd_Txs r) (rd_GasUsed r) (rd_SizeSum r) (rd_SizeN r) (rd_BlockTimeSum r)
          (rd_BlockTimeN r) (if o_Bodies opts then c_gasPrice c else None) (bodies (Z.of_nat (size (c_active c)))) (receipts (c_ok c)) (receipts (c_failed c))
          (receipts (c_transfers c))).

(** ** The checkpoints *)

(** The columns: blocks as BIGINT. *)
Definition refillArgs (r : RefillDay) : RefillDay :=
  mkRefillDay (rd_Date r) (i64 (rd_FirstBlock r)) (i64 (rd_LastBlock r)) (rd_Blocks r) (rd_Txs r) (rd_GasUsed r) (rd_SizeSum r) (rd_SizeN r) (rd_BlockTimeSum r)
    (rd_BlockTimeN r) (rd_GasPriceSum r) (rd_ActiveAddresses r) (rd_SuccessfulTxs r) (rd_FailedTxs r) (rd_TokenTransfers r).
Definition scan_row (r : RefillDay) : RefillDay :=
  mkRefillDay (rd_Date r) (u64 (rd_FirstBlock r)) (u64 (rd_LastBlock r)) (rd_Blocks r) (rd_Txs r) (rd_GasUsed r) (rd_SizeSum r) (rd_SizeN r) (rd_BlockTimeSum r)
    (rd_BlockTimeN r) (rd_GasPriceSum r) (rd_ActiveAddresses r) (rd_SuccessfulTxs r) (rd_FailedTxs r) (rd_TokenTransfers r).
Definition set_saved (s : option (gmap Z RefillDay)) (y : refill_sys) : refill_sys := mkSys (y_mem y) s (y_tables y).

Definition SaveRefillDay (r : RefillDay) : R unit :=
  run _ := r_statement (λ y, (set_saved (Some (default ∅ (y_saved y))) y, FVal ())) in
  r_statement (λ y, match y_saved y with Some m => (set_saved (Some (<[rd_Date r := refillArgs r]> m)) y, FVal ()) | None => (y, FErr EDb) end).

Definition table_exists : R bool := r_statement (λ y, (y, FVal (bool_decide (is_Some (y_saved y))))).
Definition SavedRefillDay (date : Z) : R (bool * bool * bool) :=
  run exists_ := table_exists in
  if exists_ then
    r_statement (λ y, (y, match y_saved y with
                        | Some m => FVal (match m !! date with Some r => (true, bool_decide (is_Some (rd_GasPriceSum r)), bool_decide (is_Some (rd_SuccessfulTxs r))) | None => (false, false, false) end)
                        | None => FErr EDb
                        end))
  else rret (false, false, false).

Definition SavedRefillDays : R (list RefillDay) :=
  run exists_ := table_exists in
  if exists_ then
    r_statement (λ y, (y, match y_saved y with
                        | Some m => FVal (omap (λ d, scan_row <$> m !! d) (merge_sort Z.le (map_to_list m).*1))
                        | None => FErr EDb
                        end))
  else rret [].

(** One transaction. *)
Definition write_refilled (days : list RefillDay) (dry : bool) : R (list (Z * stats_row)) :=
  r_statement (λ y, let '(t, r) := WriteRefilledDailyStats meet days dry (y_tables y) in
                  (mkSys (y_mem y) (y_saved y) t, match r with Ok rows => FVal rows | Err e => FErr (EWrite e) end)).

(** ** The run *)

(** [day.UTC().Truncate(24h)], as a day number. *)
Definition truncate_day (t : Z) : Z := t / 86400.

Fixpoint plan_days (opts : DailyRefillOptions) (head : Z) (days : list Z) : R (list DayRange) :=
  match days with
  | [] => rret []
  | t :: days =>
      let day := truncate_day t in
      run s := (if o_Plan opts then rret (false, false, false) else SavedRefillDay day) in
      let '(saved, bodies, receipts) := s in
      if saved && (bodies || negb (o_Bodies opts)) && (receipts || negb (o_Receipts opts)) then
        run l := plan_days opts head days in rret (mkDayRange day 0 0 true :: l)
      else
        run first := firstBlockAtOrAfter head (u64 (day * 86400)) in
        run end_ := firstBlockAtOrAfter head (u64 ((day + 1) * 86400)) in
        if head <? end_ then rfail (ENotOver day)
        else run l := plan_days opts head days in rret (mkDayRange day first end_ false :: l)
  end.

Fixpoint count_days (opts : DailyRefillOptions) (l : list DayRange) : R unit :=
  match l with
  | [] => rret ()
  | dr :: l => run rd := countDay opts dr in run _ := SaveRefillDay rd in count_days opts l
  end.

Definition with_defaults (opts : DailyRefillOptions) : DailyRefillOptions :=
  mkOptions (o_Bodies opts) (o_Receipts opts) (if o_Batch opts <=? 0 then 100 else o_Batch opts) (o_Plan opts) (o_Dry opts).

Definition RefillDailyStats (days : list Z) (opts : DailyRefillOptions) : R DailyRefillReport :=
  let opts := with_defaults opts in
  run _ := r_update (set_mem (mkMem ∅ 0 0)) in
  run r := r_request BlockNumber in
  match r with
  | Err e => rfail (ENode e)
  | Ok head =>
      run plan := plan_days opts head days in
      let report rows := local (λ y, (y, mkReport plan (m_requests (y_mem y)) (m_calls (y_mem y)) rows)) in
      if o_Plan opts then report []
      else
        run _ := count_days opts (filter (λ dr, g_FromSaved dr = false) plan) in
        run counted := SavedRefillDays in
        run rows := write_refilled counted (o_Dry opts) in
        report rows
  end.

Definition RecomputeDailyStats (dry : bool) : R (list (Z * stats_row)) := run days := SavedRefillDays in write_refilled days dry.
End Refill.

(** ** The node behind a JSON-RPC client *)

Section RefillNode.
Context `{Keccak}.

Record tx_json := mkTxJson { tj_from : gostring; tj_to : option gostring; tj_gasPrice : option Z }.
(** The transactions of a block are raw: whole with bodies, else their hashes. *)
Record refillBlockJSON (tx : Type) := mkBlockJson { bj_number : Z; bj_timestamp : Z; bj_gasUsed : Z; bj_size : Z; bj_txs : list tx }.
Arguments mkBlockJson {tx}.
Arguments bj_number {tx}.
Arguments bj_timestamp {tx}.
Arguments bj_gasUsed {tx}.
Arguments bj_size {tx}.
Arguments bj_txs {tx}.

Context {raw raw_tx raw_receipts : Type} (decode_block : raw → option (refillBlockJSON raw_tx)) (decode_tx : raw_tx → option tx_json)
  (decode_receipts : raw_receipts → option (list (option Receipt))).

Definition refill_tx (t : tx_json) : RefillTx :=
  mkRefillTx (Address_Hex (tj_from t)) (Address_Hex <$> tj_to t) (Some (match tj_gasPrice t with Some p => big_Uint64 p | None => 0 end)).
Fixpoint decode_txs (l : list raw_tx) : option (list RefillTx) :=
  match l with [] => Some [] | t :: l => match decode_tx t with Some t => (λ l, refill_tx t :: l) <$> decode_txs l | None => None end end.

Fixpoint refill_blocks (bodies : bool) (l : list (option (refillBlockJSON raw_tx))) : res batch_err (list (option RefillBlock)) :=
  match l with
  | [] => Ok []
  | None :: l => match refill_blocks bodies l with Ok l => Ok (None :: l) | Err e => Err e end
  | Some b :: l =>
      match (if bodies then decode_txs (bj_txs b) else Some []) with
      | None => Err OtherError
      | Some txs =>
          match refill_blocks bodies l with
          | Ok l => Ok (Some (mkRefillBlock (bj_number b) (bj_timestamp b) (bj_gasUsed b) (bj_size b) (zlen (bj_txs b)) txs) :: l)
          | Err e => Err e
          end
      end
  end.

(** Per request: the client's id counter and what the transport answers. *)
Context (last_id : nat → Z) (head_answer : nat → res batch_err Z) (block_answer : nat → list Z → bool → transport raw) (receipt_answer : nat → list Z → transport raw_receipts).

Definition RefillNode_Blocks (k : nat) (numbers : list Z) (bodies : bool) : res batch_err (list (option RefillBlock)) :=
  match BatchCallContext decode_block (last_id k) (length numbers) (block_answer k numbers bodies) with
  | Ok l => refill_blocks bodies l
  | Err e => Err e
  end.
(** A null answer leaves a nil slice. *)
Definition RefillNode_BlockReceipts (k : nat) (numbers : list Z) : res batch_err (list (list (option Receipt))) :=
  match BatchCallContext decode_receipts (last_id k) (length numbers) (receipt_answer k numbers) with
  | Ok l => Ok (default [] <$> l)
  | Err e => Err e
  end.
Definition RefillNode : DailyRefillNode := mkNode head_answer RefillNode_Blocks RefillNode_BlockReceipts.
End RefillNode.
Arguments mkBlockJson {tx}.
Arguments bj_number {tx}.
Arguments bj_timestamp {tx}.
Arguments bj_gasUsed {tx}.
Arguments bj_size {tx}.
Arguments bj_txs {tx}.
