(* ===== verification/RefillTruth.v ===== *)
(** * The truth of a refill

    The chain a node serves, the days its timestamps make of it, and what a refill of a
    day has to count. *)

From S2P Require Import Prelude GoStrings EthCommon BuildBlock RpcBatch RefillWrite DailyRefill.

(** ** Sums and 64-bit counters *)

Definition zsum (l : list Z) : Z := foldr Z.add 0 l.
Lemma zsum_app l k : zsum (l ++ k) = zsum l + zsum k.
Proof. induction l as [|x l IH]; cbn; [done|]. unfold zsum in IH. rewrite IH. unfold zsum. lia. Qed.
Lemma zsum_snoc {A} (f : A → Z) l x : zsum (f <$> l ++ [x]) = zsum (f <$> l) + f x.
Proof. rewrite fmap_app, zsum_app. cbn. lia. Qed.

Lemma i64_congr a b : a mod W64 = b mod W64 → i64 a = i64 b.
Proof. intros E. unfold i64. by rewrite Z.add_mod, E, <-Z.add_mod by lia. Qed.
Lemma i64_mod z : i64 z mod W64 = z mod W64.
Proof. unfold i64. rewrite Zminus_mod_idemp_l. f_equal. lia. Qed.
Lemma i64_add a b : i64 (i64 a + b) = i64 (a + b).
Proof. apply i64_congr. by rewrite Z.add_mod, i64_mod, <-Z.add_mod by lia. Qed.
Lemma i64_add2 a b : i64 (i64 a + i64 b) = i64 (a + b).
Proof. rewrite i64_add, Z.add_comm, i64_add. f_equal. lia. Qed.
Lemma u64_i64 z : is_u64 z → u64 (i64 z) = z.
Proof. intros Hz. unfold u64. rewrite i64_mod. by apply u64_small. Qed.

(** ** The chain *)

Record cblock := mkCblock { cb_ts : Z; cb_gas : Z; cb_size : Z; cb_txs : list tx_json; cb_receipts : list Receipt }.

Section Chain.
Context `{Keccak} (chain : Z → cblock) (top : Z).

(** Timestamps do not go back. *)
Record chain_ok : Prop := mkChainOk {
  ok_top : 0 ≤ top < H64 - 1;
  ok_ts : ∀ n, 0 ≤ cb_ts (chain n) < H64;
  ok_mono : ∀ x y, 0 ≤ x ≤ y → y ≤ top → cb_ts (chain x) ≤ cb_ts (chain y);
  ok_receipts : ∀ n, length (cb_receipts (chain n)) = length (cb_txs (chain n)) }.

Definition all_blocks : list Z := seqZ 0 (top + 1).
(** The blocks of the days before [d]. *)
Definition start (d : Z) : Z := zlen (filter (λ n, cb_ts (chain n) < d * 86400) all_blocks).
Definition day_blocks (d : Z) : list Z := filter (λ n, d * 86400 ≤ cb_ts (chain n) < (d + 1) * 86400) all_blocks.

(** ** What a day counts *)

Definition tx_addresses (t : tx_json) : list gostring := tj_from t :: match tj_to t with Some a => [a] | None => [] end.
Definition tx_price (t : tx_json) : Z := match tj_gasPrice t with Some p => big_Uint64 p | None => 0 end.
Definition gap (n : Z) : Z := if 0 <? n then cb_ts (chain n) - cb_ts (chain (n - 1)) else 0.
Definition day_addresses (ns : list Z) : gset gostring := list_to_set (ns ≫= λ n, cb_txs (chain n) ≫= tx_addresses).
Definition good_receipts (ns : list Z) : Z := zlen (filter (λ r, rc_status r = 1) (ns ≫= λ n, cb_receipts (chain n))).
Definition bad_receipts (ns : list Z) : Z := zlen (filter (λ r, rc_status r ≠ 1) (ns ≫= λ n, cb_receipts (chain n))).
Definition transfers (ns : list Z) : Z := zlen (filter (λ lg, is_transfer lg = true) (ns ≫= λ n, cb_receipts (chain n) ≫= rc_logs)).

(** The count of the blocks [ns] as a day's row. *)
Definition ref_row (d first last : Z) (ns : list Z) : RefillDay :=
  mkRefillDay d first last (i64 (zlen ns)) (i64 (zsum ((λ n, zlen (cb_txs (chain n))) <$> ns)))
    (i64 (zsum ((λ n, cb_gas (chain n)) <$> ns))) (i64 (zsum ((λ n, cb_size (chain n)) <$> ns))) (i64 (zlen ns)) (i64 (zsum (gap <$> ns)))
    (i64 (zlen (filter (λ n, 0 < n) ns))) None None None None None.
Definition prices (ns : list Z) : Z := zsum ((λ n, zsum (tx_price <$> cb_txs (chain n))) <$> ns).
Definition ref_day (d : Z) (bodies receipts : bool) : RefillDay :=
  let ns := day_blocks d in
  let r := ref_row d (start d) (u64 (start (d + 1) - 1)) ns in
  mkRefillDay d (rd_FirstBlock r) (rd_LastBlock r) (rd_Blocks r) (rd_Txs r) (rd_GasUsed r) (rd_SizeSum r) (rd_SizeN r) (rd_BlockTimeSum r) (rd_BlockTimeN r)
    (if bodies then Some (prices ns) else None)
    (if bodies then Some (Z.of_nat (size (day_addresses ns))) else None)
    (if receipts then Some (i64 (good_receipts ns)) else None) (if receipts then Some (i64 (bad_receipts ns)) else None)
    (if receipts then Some (i64 (transfers ns)) else None).

(** ** A node that tells the truth, when it answers *)

Definition node_block (n : Z) (bodies : bool) : RefillBlock :=
  mkRefillBlock n (cb_ts (chain n)) (cb_gas (chain n)) (cb_size (chain n)) (zlen (cb_txs (chain n))) (if bodies then refill_tx <$> cb_txs (chain n) else []).
(** Receipts may be missing, or be null, within the block's and after them. *)
Definition some_receipts (full : list Receipt) (r : list (option Receipt)) : Prop :=
  ∀ j rc, r !! j = Some (Some rc) → full !! j = Some rc.
Class Truthful (N : DailyRefillNode) : Prop := mkTruthful {
  tell_head : ∀ k h, BlockNumber k = Ok h → 0 ≤ h ≤ top;
  tell_blocks : ∀ k ns bodies l, Blocks k ns bodies = Ok l → length l = length ns ∧
    ∀ i n b, ns !! i = Some n → l !! i = Some (Some b) → 0 ≤ n ≤ top ∧ b = node_block n bodies;
  tell_receipts : ∀ k ns l, BlockReceipts k ns = Ok l → length l = length ns ∧
    ∀ i n r, ns !! i = Some n → l !! i = Some r → some_receipts (cb_receipts (chain n)) r }.

(** ** Days are ranges of blocks *)

Section Days.
Hypothesis Hok : chain_ok.

Lemma all_blocks_elem n : n ∈ all_blocks ↔ 0 ≤ n ≤ top.
Proof. unfold all_blocks. rewrite elem_of_seqZ. lia. Qed.

(** What is below a bound on the timestamp is a prefix. *)
Lemma prefix_below ts k : 0 ≤ k ≤ top + 1 → (∀ n, 0 ≤ n < k → cb_ts (chain n) < ts) → (∀ n, k ≤ n ≤ top → ts ≤ cb_ts (chain n)) →
  filter (λ n, cb_ts (chain n) < ts) all_blocks = seqZ 0 k.
Proof.
  intros Hk Hlo Hhi. unfold all_blocks. replace (top + 1) with (k + (top + 1 - k)) by lia. rewrite seqZ_app, filter_app by lia.
  rewrite filter_all, filter_none, app_nil_r; [done| |].
  - intros n [? ?]%elem_of_seqZ. specialize (Hhi n). lia.
  - intros n [? ?]%elem_of_seqZ. specialize (Hlo n). lia.
Qed.
Lemma boundary ts : ∃ k, 0 ≤ k ≤ top + 1 ∧ (∀ n, 0 ≤ n < k → cb_ts (chain n) < ts) ∧ ∀ n, k ≤ n ≤ top → ts ≤ cb_ts (chain n).
Proof.
  destruct (ok_top Hok) as [Ht _]. assert (∀ m, 0 ≤ m ≤ top + 1 → ∃ k, 0 ≤ k ≤ m ∧ (∀ n, 0 ≤ n < k → cb_ts (chain n) < ts) ∧ ∀ n, k ≤ n < m → ts ≤ cb_ts (chain n)) as H'.
  { intros m Hm. destruct Hm as [Hm0 Hm]. revert Hm. pattern m. apply natlike_ind; [| |done].
    - intros _. exists 0. split_and!; [lia|lia|intros; lia|intros; lia].
    - intros x Hx IH Hm. destruct IH as (k & Hk & Hlo & Hhi); [lia|]. destruct (decide (cb_ts (chain x) < ts)) as [Hlt|Hge].
      + exists (x + 1). split_and!; [lia|lia| |intros; lia]. intros n Hn. pose proof (ok_mono Hok n x). lia.
      + exists k. split_and!; [lia|lia|done|]. intros n Hn. destruct (decide (n = x)) as [->|]; [lia|]. apply Hhi. lia. }
  destruct (H' (top + 1)) as (k & Hk & Hlo & Hhi); [lia|]. exists k. split_and!; [lia|lia|done|]. intros n ?. apply Hhi. lia.
Qed.

Lemma start_spec d : 0 ≤ start d ≤ top + 1 ∧ (∀ n, 0 ≤ n < start d → cb_ts (chain n) < d * 86400) ∧ ∀ n, start d ≤ n ≤ top → d * 86400 ≤ cb_ts (chain n).
Proof.
  destruct (boundary (d * 86400)) as (k & Hk & Hlo & Hhi). assert (start d = k) as ->; [|done].
  unfold start. rewrite (prefix_below _ k Hk Hlo Hhi). unfold zlen. rewrite length_seqZ. lia.
Qed.
Lemma start_mono x y : x ≤ y → start x ≤ start y.
Proof.
  intros Hxy. destruct (start_spec x) as (Hx & Hxl & Hxh), (start_spec y) as (Hy & Hyl & Hyh). destruct (decide (start x ≤ start y)); [done|].
  specialize (Hxl (start y)). specialize (Hyh (start y)). lia.
Qed.
Lemma start_unique d k : 0 ≤ k ≤ top + 1 → (∀ n, 0 ≤ n < k → cb_ts (chain n) < d * 86400) → (∀ n, k ≤ n ≤ top → d * 86400 ≤ cb_ts (chain n)) → k = start d.
Proof. intros Hk Hlo Hhi. unfold start. rewrite (prefix_below _ k Hk Hlo Hhi). unfold zlen. rewrite length_seqZ. lia. Qed.

(** The blocks of a day are those from its start to the next day's. *)
Lemma day_blocks_range d : day_blocks d = seqZ (start d) (start (d + 1) - start d).
Proof.
  destruct (start_spec d) as (Hx & Hxl & Hxh), (start_spec (d + 1)) as (Hy & Hyl & Hyh). pose proof (start_mono d (d + 1) ltac:(lia)) as Hm.
  unfold day_blocks, all_blocks. replace (top + 1) with (start d + ((start (d + 1) - start d) + (top + 1 - start (d + 1)))) by lia.
  rewrite !seqZ_app, !filter_app, Z.add_0_l by lia. rewrite (filter_none _ (seqZ 0 _)), (filter_all _ (seqZ (start d) _)), (filter_none _ (seqZ (start d + _) _)), app_nil_r; [done| | |].
  - intros n [? ?]%elem_of_seqZ. specialize (Hyh n). lia.
  - intros n [? ?]%elem_of_seqZ. specialize (Hxh n). specialize (Hyl n). lia.
  - intros n [? ?]%elem_of_seqZ. specialize (Hxl n). lia.
Qed.
End Days.

(** ** Counting block by block *)

Definition lower (a : gostring) : gostring := ToLower (Address_Hex a).
Definition prev_ts (n : Z) : Z := if 0 <? n then cb_ts (chain (n - 1)) else -1.

Section Counting.
Hypothesis Hok : chain_ok.
Context (opts : DailyRefillOptions) (d first last : Z).
Notation upto m := (seqZ first (m - first)).

(** The state after the blocks below [m] and the receipts below [r]. *)
Definition counting_at (m r : Z) : counting :=
  mkCounting (ref_row d first last (upto m)) (if o_Bodies opts then Some (prices (upto m)) else None)
    (if o_Bodies opts then list_to_set (lower <$> (upto m ≫= λ n, cb_txs (chain n) ≫= tx_addresses)) else ∅)
    (i64 (good_receipts (upto r))) (i64 (bad_receipts (upto r))) (i64 (transfers (upto r))) (prev_ts m).

Lemma upto_snoc m : first ≤ m → upto (m + 1) = upto m ++ [m].
Proof.
  intros Hm. replace (m + 1 - first) with ((m - first) + 1) by lia. rewrite seqZ_app, (seqZ_cons (first + _)) by lia.
  change (seqZ (Z.succ ?x) (Z.pred 1)) with (@nil Z). do 2 f_equal. lia.
Qed.

Lemma count_txs_all c l g : c_gasPrice c = Some g →
  refill_count_txs c (refill_tx <$> l) = Some (mkCounting (c_rd c) (Some (g + zsum (tx_price <$> l))) (c_active c ∪ list_to_set (lower <$> (l ≫= tx_addresses)))
    (c_ok c) (c_failed c) (c_transfers c) (c_prev c)).
Proof.
  revert c g. induction l as [|t l IH]; intros c g Hg.
  { cbn. f_equal. rewrite union_empty_r_L, Z.add_0_r. destruct c; cbn in *. by subst. }
  rewrite fmap_cons. cbn [refill_count_txs]. unfold refill_count_tx. cbn [refill_tx x_GasPrice x_From x_To]. rewrite Hg.
  rewrite (IH _ (g + tx_price t)) by done. cbn [c_rd c_active c_ok c_failed c_transfers c_prev]. f_equal. f_equal; [f_equal; cbn; unfold zsum; lia|].
  rewrite bind_cons, fmap_app, list_to_set_app_L. unfold tx_addresses, lower. destruct (tj_to t); cbn; set_solver.
Qed.

Lemma count_block_step m r : 0 ≤ first ≤ m → m ≤ top → refill_count_block (counting_at m r) (node_block m (o_Bodies opts)) = Some (counting_at (m + 1) r).
Proof.
  intros Hm Htop. pose proof (ok_ts Hok m) as Hts. pose proof (ok_ts Hok (m - 1)) as Hts'. unfold refill_count_block. cbn [c_prev counting_at b_Timestamp node_block c_rd].
  assert ((0 <=? prev_ts m) = (0 <? m)) as ->. { unfold prev_ts. destruct (0 <? m); [apply Z.leb_le; lia|done]. }
  assert (∀ A (f : Z → A), f <$> upto (m + 1) = (f <$> upto m) ++ [f m]) as Hf by (intros A f; by rewrite upto_snoc, fmap_app by lia).
  assert (prev_ts (m + 1) = i64 (cb_ts (chain m))) as Hp.
  { unfold prev_ts. rewrite (proj2 (Z.ltb_lt 0 (m + 1))) by lia. rewrite i64_small by lia. do 2 f_equal. lia. }
  set (row := mkRefillDay _ _ _ _ _ _ _ _ _ _ _ _ _ _ _).
  assert (row = ref_row d first last (upto (m + 1))) as Hrow.
  { unfold row, ref_row. cbn [rd_Date rd_FirstBlock rd_LastBlock rd_Blocks rd_Txs rd_GasUsed rd_SizeSum rd_SizeN rd_BlockTimeSum rd_BlockTimeN b_TxCount b_GasUsed b_Size].
    rewrite !Hf, !zsum_app, !i64_add2, !i64_add. rewrite upto_snoc, filter_app by lia. unfold zlen. rewrite !length_app. cbn [length zsum foldr].
    assert (i64 (cb_ts (chain m)) = cb_ts (chain m)) as Ets by (apply i64_small; lia). unfold gap, prev_ts. rewrite Ets. rewrite filter_cons, filter_nil.
    destruct (Z.ltb_spec 0 m); [rewrite decide_True by lia|rewrite decide_False by lia]; cbn [length node_block b_TxCount b_GasUsed b_Size]; f_equal; f_equal; unfold zlen; lia. }
  rewrite Hrow. cbn [c_gasPrice c_active c_ok c_failed c_transfers b_Txs node_block]. unfold counting_at. destruct (o_Bodies opts) eqn:Eb.
  - rewrite (count_txs_all _ _ (prices (upto m))) by done. cbn [c_rd c_active c_ok c_failed c_transfers c_prev]. f_equal. f_equal.
    + unfold prices. by rewrite Hf, zsum_app; cbn; rewrite Z.add_0_r.
    + rewrite (upto_snoc m), bind_app, fmap_app, list_to_set_app_L, bind_cons, app_nil_r by lia. done.
    + done.
  - cbn [refill_count_txs]. by rewrite Hp.
Qed.

Lemma count_receipts_all rd g act a b t pv l :
  count_receipts (mkCounting rd g act (i64 a) (i64 b) (i64 t) pv) (Some <$> l)
  = Some (mkCounting rd g act (i64 (a + zlen (filter (λ r, rc_status r = 1) l))) (i64 (b + zlen (filter (λ r, rc_status r ≠ 1) l)))
      (i64 (t + zlen (filter (λ lg, is_transfer lg = true) (l ≫= rc_logs)))) pv).
Proof.
  revert a b t. induction l as [|r l IH]; intros a b t; [cbn; by rewrite !Z.add_0_r|]. rewrite fmap_cons. cbn [count_receipts c_ok c_failed c_transfers c_rd c_gasPrice c_active c_prev].
  rewrite !filter_cons, bind_cons, filter_app, (zlen_app (filter (λ lg, is_transfer lg = true) (rc_logs r))). destruct (Z.eqb_spec (rc_status r) 1) as [E|E].
  - rewrite !i64_add, IH, decide_True, decide_False by (done || lia). rewrite zlen_cons. do 2 f_equal; f_equal; lia.
  - rewrite !i64_add, IH, decide_False, decide_True by (done || lia). rewrite zlen_cons. do 2 f_equal; f_equal; lia.
Qed.
End Counting.

(** ** Addresses and complete receipts *)

Lemma lower_inj a b : lower a = lower b → a = b.
Proof.
  unfold lower, Address_Hex. rewrite !ToLower_app. intros E%app_inv_head. apply (f_equal DecodeString) in E. rewrite !DecodeString_ToLower in E.
  pose proof (DecodeString_checksum a) as Ha. pose proof (DecodeString_checksum b) as Hb. unfold Address_Hex in Ha, Hb. change (drop 2 ($"0x" ++ ?s)) with s in Ha, Hb. congruence.
Qed.
Lemma size_lower (l : list gostring) : size (list_to_set (lower <$> l) : gset gostring) = size (list_to_set l : gset gostring).
Proof.
  induction l as [|a l IH]; [done|]. rewrite fmap_cons, !list_to_set_cons. destruct (decide (a ∈ l)) as [Ha|Ha].
  - rewrite !subseteq_union_1_L; [done| |]; apply singleton_subseteq_l, elem_of_list_to_set; [done|]. apply list_elem_of_fmap. by exists a.
  - rewrite !size_union, !size_singleton; [by rewrite IH| |]; apply disjoint_singleton_l; rewrite elem_of_list_to_set; [done|].
    intros (b & E & Hb)%list_elem_of_fmap. by apply lower_inj in E as ->.
Qed.

Lemma omap_id_full {A} (r : list (option A)) : None ∉ r → r = Some <$> omap id r.
Proof. induction r as [|[x|] r IH]; intros Hn; [done| |by destruct Hn; left]. cbn. f_equal. apply IH. intros ?. apply Hn. by right. Qed.
Lemma some_receipts_all full r : some_receipts full r → None ∉ r → zlen full ≤ zlen (omap id r) → r = Some <$> full.
Proof.
  intros Hin Hn Hall. pose proof (omap_id_full r Hn) as E. unfold zlen in Hall. set (got := omap id r) in *. clearbody got. subst r. f_equal. clear Hn.
  assert (∀ j x, got !! j = Some x → full !! j = Some x) as Hg by (intros j x Hj; apply Hin; by rewrite list_lookup_fmap, Hj). clear Hin.
  assert (length got ≤ length full)%nat.
  { destruct (decide (length got ≤ length full)%nat); [done|]. destruct (lookup_lt_is_Some_2 got (length full) ltac:(lia)) as [x Hx].
    apply Hg, lookup_lt_Some in Hx. lia. }
  apply list_eq_same_length with (n := length full); [done|lia|]. intros j x y Hj Hx Hy. apply Hg in Hx. congruence.
Qed.
End Chain.
