(* ===== verification/RefillRun.v ===== *)
(** * Runs of a refill

    What a call of the refill guarantees when the node tells the truth, whatever fails
    and whatever others do: its memory and the checkpoints stay true. *)

From S2P Require Import Prelude GoStrings EthCommon BuildBlock Session RpcBatch RefillWrite RefillWriteProps RefillRecount RefillDays DailyRefill RefillTruth.

Section Run.
Context `{Keccak} (chain : Z → cblock) (top : Z) (Hok : chain_ok chain top) {N : DailyRefillNode} {HN : Truthful chain top N}.
Context (env : nat → refill_sys → refill_sys) (out : nat → stmt_end) (stopped : nat → bool).
(** The days whose checkpoints nobody else replaces by ones with fewer parts. *)
Context (calm : Z → Prop).
Notation start := (start chain top).
Notation ref_day := (ref_day chain top).
Notation ts n := (cb_ts (chain n)).

(** ** What is true of the checkpoints *)

(** The day is over: a block after it is on the chain. *)
Definition true_row (d : Z) (row : RefillDay) : Prop := 0 ≤ d ∧ start (d + 1) ≤ top ∧ ∃ b r, row = refillArgs (ref_day d b r).
Definition saved_true (s : option (gmap Z RefillDay)) : Prop := ∀ m d row, s = Some m → m !! d = Some row → true_row d row.
Definition parts_in (row row' : RefillDay) : Prop :=
  (is_Some (rd_GasPriceSum row) → is_Some (rd_GasPriceSum row')) ∧ (is_Some (rd_SuccessfulTxs row) → is_Some (rd_SuccessfulTxs row')).
(** Others checkpoint true days and drop none, but may replace one that has the parts of
    the bodies or the receipts by one that has not. *)
Definition saved_keeps (s s' : option (gmap Z RefillDay)) : Prop :=
  (saved_true s → saved_true s') ∧
  ∀ m, s = Some m → ∃ m', s' = Some m' ∧ ∀ d row, m !! d = Some row → ∃ row', m' !! d = Some row' ∧ (calm d → parts_in row row').
Definition rely (y y' : refill_sys) : Prop := y_mem y' = y_mem y ∧ saved_keeps (y_saved y) (y_saved y').
Hypothesis Henv : ∀ k y, rely y (env k y).

Definition ts_true (m : gmap Z Z) : Prop := ∀ n t, m !! n = Some t → t = ts n.
Definition good (y : refill_sys) : Prop := ts_true (m_ts (y_mem y)) ∧ saved_true (y_saved y).

(** Why a call fails. *)
Definition reason (e : refill_err) (y : refill_sys) : Prop :=
  match e with
  | ENode e => (∃ k, BlockNumber k = Err e) ∨ (∃ k ns b, Blocks k ns b = Err e) ∨ (∃ k ns, BlockReceipts k ns = Err e)
  | EStopped => ∃ k, stopped k = true
  | ENoBlock n => ∃ k ns b l i, Blocks k ns b = Ok l ∧ ns !! i = Some n ∧ l !! i = Some None
  | ErrRefillReceiptsIncomplete n => ∃ k ns l i, BlockReceipts k ns = Ok l ∧ ns !! i = Some n ∧ got l i < zlen (cb_txs (chain n))
  | ENotOver d => ∃ k h, BlockNumber k = Ok h ∧ h < start (d + 1)
  | EDb => ∃ k, out k ≠ Done
  | EWrite (ErrRefillAboveWatermark d) => watermark_of (y_tables y) < start (d + 1) - 1
  | EWrite WriteFailed => t_counter (y_tables y) = None
  end.

(** A panic: an answer lists every receipt of a block and a null among or after them. *)
Definition null_receipt : Prop :=
  ∃ k ns l i n r, BlockReceipts k ns = Ok l ∧ ns !! i = Some n ∧ l !! i = Some r ∧ None ∈ r ∧ zlen (cb_txs (chain n)) ≤ got l i.

Definition rspec {A} (P : refill_sys → Prop) (m : R A) (Q : A → refill_sys → Prop) : Prop :=
  ∀ k y, P y → match m k y with (_, y', FVal a) => Q a y' | (_, y', FErr e) => good y' ∧ reason e y' | (_, y', FPanic) => good y' ∧ null_receipt | (_, _, FSpin) => False end.

Lemma rs_ret {A} P (a : A) Q : (∀ y, P y → Q a y) → rspec P (rret a) Q.
Proof. intros HQ k y Hy. by apply HQ. Qed.
Lemma rs_fail {A} P e Q : (∀ y, P y → good y ∧ reason e y) → rspec P (rfail (A := A) e) Q.
Proof. intros HQ k y Hy. by apply HQ. Qed.
Lemma rs_panic {A} P Q : (∀ y, P y → good y ∧ null_receipt) → rspec P (rpanic (A := A)) Q.
Proof. intros HQ k y Hy. by apply HQ. Qed.
Lemma rs_bind {A B} P (m : R A) (f : A → R B) M Q : rspec P m M → (∀ a, rspec (M a) (f a) Q) → rspec P (rbind m f) Q.
Proof. intros Hm Hf k y Hy. unfold rbind. specialize (Hm k y Hy). destruct (m k y) as [[k' y'] [a|e| |]]; [by apply Hf|done..]. Qed.
Lemma rs_local {A} P (f : refill_sys → refill_sys * A) Q : (∀ y, P y → Q (f y).2 (f y).1) → rspec P (local f) Q.
Proof. intros Hf k y Hy. unfold local. specialize (Hf y Hy). by destruct (f y). Qed.
Lemma rs_pre {A} (P P' : refill_sys → Prop) (m : R A) Q : (∀ y, P y → P' y) → rspec P' m Q → rspec P m Q.
Proof. intros HP Hm k y Hy. by apply Hm, HP. Qed.
Lemma rs_post {A} P (m : R A) (Q Q' : A → refill_sys → Prop) : (∀ a y, Q a y → Q' a y) → rspec P m Q → rspec P m Q'.
Proof. intros HQ Hm k y Hy. specialize (Hm k y Hy). destruct (m k y) as [[k' y'] [a|e| |]]; [by apply HQ|done..]. Qed.
Lemma rs_fact {A} (φ : Prop) P (m : R A) Q : (φ → rspec P m Q) → rspec (λ y, P y ∧ φ) m Q.
Proof. intros Hm k y [Hy Hφ]. by apply Hm. Qed.

(** ** Facts about the checkpoints that others keep *)

Definition kept (F : option (gmap Z RefillDay) → Prop) : Prop := ∀ s s', saved_keeps s s' → F s → F s'.
Definition with_saved (F : option (gmap Z RefillDay) → Prop) (y : refill_sys) : Prop := good y ∧ F (y_saved y).

Lemma env_with_saved F k y : kept F → with_saved F y → with_saved F (env k y).
Proof.
  intros HF [[Hts Hs] Hf]. destruct (Henv k y) as [Hm Hk]. split; [split|].
  - by rewrite Hm.
  - by apply Hk.
  - by apply (HF (y_saved y)).
Qed.

Lemma rs_wait F : kept F → rspec (with_saved F) (wait env stopped) (λ _, with_saved F).
Proof.
  intros HF k y Hy. unfold wait. pose proof (env_with_saved F k y HF Hy) as Hy'. destruct (stopped k) eqn:E; [split; [apply Hy'|by exists k]|done].
Qed.
Lemma rs_request {A} (f : nat → res batch_err A) F : kept F → rspec (with_saved F) (r_request env f) (λ r y, with_saved F y ∧ ∃ k, f k = r).
Proof. intros HF k y Hy. unfold r_request. split; [by apply env_with_saved|by exists k]. Qed.
Lemma rs_statement {A} (f : refill_sys → refill_sys * fin A) F Q : kept F →
  (∀ y, with_saved F y → good (f y).1 ∧ match (f y).2 with FVal a => Q a (f y).1 | FErr e => reason e (f y).1 | _ => False end) →
  rspec (with_saved F) (r_statement env out f) Q.
Proof.
  intros HF Hf k y Hy. unfold r_statement. pose proof (env_with_saved F k y HF Hy) as Hy'. specialize (Hf _ Hy') as [Hg Hr].
  destruct (out k) eqn:E; [|split; [apply Hy'|exists k; by rewrite E]|split; [done|exists k; by rewrite E]]. destruct (f (env k y)) as [y' [a|e| |]]; cbn in *; [done|by split|done|done].
Qed.

(** ** Calls that only ask the node *)

Definition asks {A} (m : R A) (φ : A → Prop) : Prop := ∀ F, kept F → rspec (with_saved F) m (λ a y, with_saved F y ∧ φ a).

Lemma asks_ret {A} (a : A) (φ : A → Prop) : φ a → asks (rret a) φ.
Proof. intros Ha F HF. apply rs_ret. by intros y Hy. Qed.
Lemma asks_bind {A B} (m : R A) (f : A → R B) φ ψ : asks m φ → (∀ a, φ a → asks (f a) ψ) → asks (rbind m f) ψ.
Proof. intros Hm Hf F HF. eapply rs_bind; [by apply Hm|]. intros a. apply rs_fact. intros Ha. by apply Hf. Qed.
Lemma asks_fail {A} e (φ : A → Prop) : (∀ y, reason e y) → asks (rfail e) φ.
Proof. intros He F HF. apply rs_fail. intros y [Hy _]. by split. Qed.
Lemma asks_panic {A} (φ : A → Prop) : null_receipt → asks rpanic φ.
Proof. intros Hn F HF. apply rs_panic. intros y [Hy _]. by split. Qed.
Lemma asks_wait : asks (wait env stopped) (λ _, True).
Proof. intros F HF. eapply rs_post; [|by apply rs_wait]. by intros a y Hy. Qed.
Lemma asks_request {A} (f : nat → res batch_err A) : asks (r_request env f) (λ r, ∃ k, f k = r).
Proof. intros F HF. by apply rs_request. Qed.
Lemma asks_update f : (∀ y, good y → good (f y)) → (∀ y, y_saved (f y) = y_saved y) → asks (r_update f) (λ _, True).
Proof. intros Hg Hs F HF. apply rs_local. intros y [Hy Hf]. cbn. split; [|done]. split; [by apply Hg|by rewrite Hs]. Qed.

Lemma asks_retry {A} more calls (fn : nat → res batch_err A) : (∀ k e y, fn k = Err e → reason (ENode e) y) → asks (retry env stopped more calls fn) (λ a, ∃ k, fn k = Ok a).
Proof.
  intros He. induction more as [|more IH]; cbn [retry]; (apply asks_bind with (φ := λ _, True); [apply asks_wait|intros [] _]);
    (apply asks_bind with (φ := λ _, True); [by apply asks_update|intros [] _]); (eapply asks_bind; [apply asks_request|]; intros [a|e] [k Hk]);
    [apply asks_ret; by exists k|apply asks_fail; intros y; by apply (He k)|apply asks_ret; by exists k|].
  destruct (throttled e); [|apply asks_fail; intros y; by apply (He k)]. eapply asks_bind; [apply asks_wait|]. by intros [] _.
Qed.

Lemma asks_keep_blocks numbers bodies pre ns l : numbers = pre ++ ns → length l = length ns →
  (∀ i n b, ns !! i = Some n → l !! i = Some (Some b) → 0 ≤ n ≤ top ∧ b = node_block chain n bodies) →
  (∀ i n, ns !! i = Some n → l !! i = Some None → ∀ y, reason (ENoBlock n) y) →
  asks (keep_blocks (length pre) numbers l) (λ bs, bs = (λ n, node_block chain n bodies) <$> ns ∧ Forall (λ n, 0 ≤ n ≤ top) ns).
Proof.
  revert pre ns. induction l as [|[b|] l IH]; intros pre ns -> Hlen Htrue Hnone; cbn [keep_blocks]; destruct ns as [|n ns]; try discriminate Hlen.
  - by apply asks_ret.
  - destruct (Htrue 0%nat n b) as [Hn ->]; [done|done|]. eapply asks_bind; [apply asks_update; [|done]|].
    { intros y [Ht Hs]. split; [|done]. intros m t. cbn. intros [[<- <-]|[_ Hm]]%lookup_insert_Some; [done|by apply Ht]. }
    intros [] _. eapply asks_bind.
    { replace (S (length pre)) with (length (pre ++ [n])) by (rewrite length_app; cbn; lia). apply (IH (pre ++ [n]) ns); [by rewrite <-app_assoc|by injection Hlen| |].
      - intros i m b Hm Hb. by apply (Htrue (S i)).
      - intros i m Hm Hb. by apply (Hnone (S i)). }
    intros bs [-> Hall]. apply asks_ret. rewrite fmap_cons. split; [done|by constructor].
  - rewrite lookup_app_r by lia. rewrite Nat.sub_diag. cbn. apply asks_fail. by apply (Hnone 0%nat).
Qed.

Lemma asks_blocks numbers bodies : asks (blocks env stopped numbers bodies) (λ bs, bs = (λ n, node_block chain n bodies) <$> numbers ∧ Forall (λ n, 0 ≤ n ≤ top) numbers).
Proof.
  unfold blocks. eapply asks_bind; [apply asks_retry; intros k e y He; right; left; by exists k, numbers, bodies|].
  intros l [k Hk]. destruct (tell_blocks chain top k numbers bodies l Hk) as [Hlen Htrue]. apply (asks_keep_blocks numbers bodies [] numbers l); [done|done|done|].
  intros i n Hn Hl y. by exists k, numbers, bodies, l, i.
Qed.

Lemma asks_timestamp n : asks (timestamp env stopped n) (λ t, t = ts n).
Proof.
  unfold timestamp. apply asks_bind with (φ := λ o, ∀ t, o = Some t → t = ts n).
  { intros F HF. apply rs_local. intros y [[Ht Hs] Hf]. cbn. split; [done|]. intros t. apply Ht. }
  intros [t|] Ht; [apply asks_ret; by apply Ht|]. eapply asks_bind; [apply asks_blocks|]. intros bs [-> _]. cbn. by apply asks_ret.
Qed.

(** ** Finding a day *)

Lemma asks_search fuel t lo hi head : 0 ≤ lo ≤ hi → hi ≤ head + 1 → head ≤ top → hi - lo < 2 ^ Z.of_nat fuel →
  (∀ n, 0 ≤ n < lo → ts n < t) → (∀ n, hi ≤ n ≤ head → t ≤ ts n) →
  asks (search env stopped fuel t lo hi) (λ k, 0 ≤ k ≤ head + 1 ∧ (∀ n, 0 ≤ n < k → ts n < t) ∧ ∀ n, k ≤ n ≤ head → t ≤ ts n).
Proof.
  destruct (ok_top _ _ Hok) as [_ Htop]. revert lo hi. induction fuel as [|fuel IH]; intros lo hi Hlo Hhi Hhead Hlen Hbelow Habove; cbn [search]; destruct (Z.ltb_spec lo hi).
  - cbn in Hlen. lia.
  - apply asks_ret. split_and!; [lia|lia|done|]. intros n ?. apply Habove. lia.
  - rewrite Nat2Z.inj_succ, Z.pow_succ_r in Hlen by lia. pose proof (Z.div_mod (hi - lo) 2 ltac:(lia)) as Hq. pose proof (Z.mod_pos_bound (hi - lo) 2 ltac:(lia)) as Hr.
    set (q := (hi - lo) / 2) in *. rewrite (u64_small (lo + q)) by (unfold is_u64; lia). eapply asks_bind; [apply asks_timestamp|]. intros tm ->.
    destruct (Z.leb_spec t (ts (lo + q))).
    + apply IH; [lia|lia|lia|lia|done|]. intros n Hn. pose proof (ok_mono _ _ Hok (lo + q) n). lia.
    + rewrite (u64_small (lo + q + 1)) by (unfold is_u64; lia). apply IH; [lia|lia|lia|lia| |done]. intros n Hn. pose proof (ok_mono _ _ Hok n (lo + q)). lia.
  - apply asks_ret. split_and!; [lia|lia|done|]. intros n ?. apply Habove. lia.
Qed.
Lemma asks_first head t : 0 ≤ head ≤ top →
  asks (firstBlockAtOrAfter env stopped head t) (λ k, 0 ≤ k ≤ head + 1 ∧ (∀ n, 0 ≤ n < k → ts n < t) ∧ ∀ n, k ≤ n ≤ head → t ≤ ts n).
Proof.
  intros Hh. destruct (ok_top _ _ Hok) as [_ Htop]. unfold firstBlockAtOrAfter. rewrite (u64_small (head + 1)) by (unfold is_u64; lia).
  apply asks_search; [lia|lia|lia| |intros; lia|intros; lia]. change (2 ^ Z.of_nat 65) with 36893488147419103232. lia.
Qed.

(** What is found up to the head is the day's start on the chain. *)
Lemma first_is_start d head k : 0 ≤ k ≤ head → head ≤ top → (∀ n, 0 ≤ n < k → ts n < d * 86400) → (∀ n, k ≤ n ≤ head → d * 86400 ≤ ts n) → k = start d.
Proof.
  intros Hk Hh Hlo Hhi. apply start_unique; [lia|done|]. intros n Hn. destruct (decide (n ≤ head)); [apply Hhi; lia|].
  pose proof (Hhi k ltac:(lia)). pose proof (ok_mono _ _ Hok k n). lia.
Qed.

(** ** Counting a day *)

Section Count.
Context (opts : DailyRefillOptions) (d first last : Z) (Hfirst : 0 ≤ first).
Notation at_ := (counting_at chain opts d first last).

Lemma asks_count_blocks len m r : first ≤ m → m + Z.of_nat len - 1 ≤ top →
  asks (refill_count_blocks (at_ m r) ((λ n, node_block chain n (o_Bodies opts)) <$> seqZ m (Z.of_nat len))) (λ c, c = at_ (m + Z.of_nat len) r).
Proof.
  revert m. induction len as [|len IH]; intros m Hm Hend.
  { cbn. apply asks_ret. f_equal. lia. }
  rewrite seqZ_cons by lia. rewrite fmap_cons. cbn [refill_count_blocks]. rewrite (count_block_step chain top Hok opts d first last m r) by lia.
  eapply asks_bind; [apply asks_update; [|done]|].
  { intros y [Ht Hs]. split; [|done]. intros n t. cbn. intros [_ Hn]%lookup_delete_Some. by apply Ht. }
  intros [] _. replace (Z.pred (Z.of_nat (S len))) with (Z.of_nat len) by lia. replace (m + Z.of_nat (S len)) with (m + 1 + Z.of_nat len) by lia. apply IH; lia.
Qed.

Lemma find_zip_none (bs : list RefillBlock) (P : nat * RefillBlock → bool) : List.find P (zip (seq 0 (length bs)) bs) = None → ∀ i b, bs !! i = Some b → P (i, b) = false.
Proof.
  intros Hn i b Hb. apply (List.find_none _ _ Hn), list_elem_of_In, list_elem_of_lookup. exists i. apply lookup_zip_Some. split; [|done].
  apply lookup_lt_Some in Hb. by apply lookup_seq.
Qed.

Lemma null_or_not {A} (l : list (option A)) : None ∈ l ∨ None ∉ l.
Proof.
  induction l as [|[x|] l [IH|IH]]; [right; by intros ?%elem_of_nil|left; by right|right; by intros [?|?]%elem_of_cons|left; by left..].
Qed.
(** The receipts are all there, or with a null beside them. *)
Lemma full_receipts k numbers l : BlockReceipts k numbers = Ok l → lacking ((λ n, node_block chain n (o_Bodies opts)) <$> numbers) l = None →
  concat l = Some <$> (numbers ≫= λ n, cb_receipts (chain n)) ∨ None ∈ concat l ∧ null_receipt.
Proof.
  intros Hk El. destruct (tell_receipts chain top k numbers l Hk) as [Hlen Htrue]. unfold lacking in El. apply fmap_None in El.
  assert (∀ i n r, numbers !! i = Some n → l !! i = Some r → zlen (cb_txs (chain n)) ≤ zlen (omap id r)) as Hall.
  { intros i n r Hn Hr. pose proof (find_zip_none _ _ El i (node_block chain n (o_Bodies opts))) as Hi. rewrite list_lookup_fmap, Hn in Hi.
    specialize (Hi eq_refl). apply Z.ltb_ge in Hi. unfold got in Hi. cbn in Hi. by rewrite Hr in Hi. }
  destruct (null_or_not (concat l)) as [Hin|Hno]; [right; split; [done|]|left].
  - apply list_elem_of_In, List.in_concat in Hin as (r & Hr%list_elem_of_In & Hin%list_elem_of_In). apply list_elem_of_lookup in Hr as [i Hi].
    destruct (lookup_lt_is_Some_2 numbers i) as [n Hn]; [rewrite <- Hlen; by apply lookup_lt_Some in Hi|].
    exists k, numbers, l, i, n, r. split_and!; [done..|]. unfold got. rewrite Hi. by apply (Hall i).
  - assert (l = (λ n, Some <$> cb_receipts (chain n)) <$> numbers) as ->; [|clear; induction numbers as [|n ns IH]; [done|]; rewrite fmap_cons, bind_cons, fmap_app; cbn; by rewrite IH].
    apply list_eq_same_length with (n := length numbers); [by rewrite length_fmap|done|]. intros i r y Hi Hr Hy. rewrite list_lookup_fmap in Hy.
    destruct (numbers !! i) as [n|] eqn:En; [|done]. injection Hy as <-. apply some_receipts_all; [by apply (Htrue i)| |].
    + intros Hin. apply Hno, list_elem_of_In, List.in_concat. exists r. split; apply list_elem_of_In; [by apply list_elem_of_lookup_2 in Hr|done].
    + specialize (Hall i n r En Hr). unfold zlen in *. by rewrite (ok_receipts _ _ Hok n).
Qed.

Lemma asks_receipts more numbers bs : bs = (λ n, node_block chain n (o_Bodies opts)) <$> numbers →
  asks (receipts_again env stopped more numbers bs) (λ l, concat l = Some <$> (numbers ≫= λ n, cb_receipts (chain n)) ∨ None ∈ concat l ∧ null_receipt).
Proof.
  intros ->. induction more as [|more IH]; cbn [receipts_again]; (eapply asks_bind; [apply asks_retry; intros k e y He; right; right; by exists k, numbers|]); intros l [k Hk];
    (destruct (lacking _ l) as [b|] eqn:El; [|apply asks_ret; by apply (full_receipts k)]).
  - unfold lacking in El. apply fmap_Some in El as ([i b'] & Ef & ->). apply List.find_some in Ef as [Hin%list_elem_of_In Hlt%Z.ltb_lt].
    apply list_elem_of_lookup in Hin as [j Hj]. apply lookup_zip_Some in Hj as [Hj1 Hj2]. apply lookup_seq in Hj1 as [-> _]. cbn in *.
    rewrite list_lookup_fmap in Hj2. destruct (numbers !! j) as [n|] eqn:En; [|done]. injection Hj2 as <-. apply asks_fail. intros y. cbn. by exists k, numbers, l, j.
  - eapply asks_bind; [apply asks_wait|]. by intros [] _.
Qed.
Lemma count_receipts_null c l : None ∈ l → count_receipts c l = None.
Proof. revert c. induction l as [|[rc|] l IH]; intros c Hl; [by apply elem_of_nil in Hl| |done]. cbn. apply IH. by apply elem_of_cons in Hl as [?|?]. Qed.

Lemma bind_logs (ns : list Z) : (ns ≫= λ n, cb_receipts (chain n)) ≫= rc_logs = ns ≫= λ n, cb_receipts (chain n) ≫= rc_logs.
Proof. induction ns as [|n ns IH]; [done|]. by rewrite !bind_cons, bind_app, IH. Qed.

Lemma count_receipts_at m r len : first ≤ r → 0 ≤ len →
  count_receipts (at_ m r) (Some <$> (seqZ r len ≫= λ n, cb_receipts (chain n))) = Some (at_ m (r + len)).
Proof.
  intros Hr Hlen. unfold counting_at. rewrite count_receipts_all. unfold good_receipts, bad_receipts, transfers.
  replace (r + len - first) with (r - first + len) by lia. rewrite (seqZ_app first (r - first)) by lia. replace (first + (r - first)) with r by lia.
  rewrite !bind_app, !filter_app, !zlen_app, bind_logs. done.
Qed.

Hypothesis Hbatch : 0 < o_Batch opts < H64.
Definition receipts_to (m : Z) : Z := if o_Receipts opts then m else first.

Lemma asks_batches fuel lo end_ : first ≤ lo → lo ≤ top + H64 → first ≤ end_ ≤ top + 1 → end_ - lo ≤ Z.of_nat fuel →
  asks (count_batches env stopped fuel opts (at_ (Z.min lo end_) (receipts_to (Z.min lo end_))) lo end_) (λ c, c = at_ end_ (receipts_to end_)).
Proof.
  destruct (ok_top _ _ Hok) as [_ Htop]. revert lo. induction fuel as [|fuel IH]; intros lo Hlo Hmax Hend Hfuel; cbn [count_batches]; destruct (Z.ltb_spec lo end_);
    [lia|apply asks_ret; by rewrite Z.min_r by lia| |apply asks_ret; by rewrite Z.min_r by lia].
  rewrite (u64_small (lo + o_Batch opts)) by (unfold is_u64; lia). rewrite (Z.min_l lo end_) by lia. set (hi := Z.min (lo + o_Batch opts) end_).
  assert (lo < hi) as Hhi by (unfold hi; lia). eapply asks_bind; [apply asks_blocks|]. intros bs [-> Hall].
  assert (hi = lo + Z.of_nat (Z.to_nat (hi - lo))) as Ehi by lia. eapply asks_bind.
  { replace (hi - lo) with (Z.of_nat (Z.to_nat (hi - lo))) by lia. apply asks_count_blocks; [done|]. unfold hi in *. lia. }
  intros c ->. rewrite <-Ehi. apply asks_bind with (φ := λ c, c = at_ hi (receipts_to hi)).
  - unfold receipts_to. destruct (o_Receipts opts) eqn:Er; [|by apply asks_ret].
    eapply asks_bind; [by apply asks_receipts|]. intros l [El|[Hnull Hp]]; [|rewrite count_receipts_null by done; by apply asks_panic]. rewrite El, count_receipts_at by lia. replace (lo + (hi - lo)) with hi by lia. by apply asks_ret.
  - intros c ->. unfold hi. apply IH; lia.
Qed.
End Count.

Lemma asks_countDay opts d : 0 < o_Batch opts < H64 → start (d + 1) ≤ top →
  asks (countDay env stopped opts (mkDayRange d (start d) (start (d + 1)) false)) (λ rd, rd = ref_day d (o_Bodies opts) (o_Receipts opts)).
Proof.
  intros Hb Hover. destruct (start_spec chain top Hok d) as ([Hs0 Hs1] & _). pose proof (start_mono chain top Hok d (d + 1) ltac:(lia)) as Hm. destruct (ok_top _ _ Hok) as [_ Htop].
  unfold countDay. cbn [g_Date g_First g_End]. apply asks_bind with (φ := λ p, p = prev_ts chain (start d)).
  { unfold prev_ts. destruct (0 <? start d); [|by apply asks_ret]. eapply asks_bind; [apply asks_timestamp|]. intros t ->. apply asks_ret. apply i64_small. pose proof (ok_ts _ _ Hok (start d - 1)). lia. }
  intros prev ->. set (last := u64 (start (d + 1) - 1)).
  assert (mkCounting (mkRefillDay d (start d) last 0 0 0 0 0 0 0 None None None None None) (if o_Bodies opts then Some 0 else None) ∅ 0 0 0 (prev_ts chain (start d))
          = counting_at chain opts d (start d) last (Z.min (start d) (start (d + 1))) (receipts_to opts (start d) (Z.min (start d) (start (d + 1))))) as ->.
  { rewrite Z.min_l by lia. unfold counting_at, receipts_to. rewrite !Z.sub_diag. assert (∀ r, seqZ (start d) ((if o_Receipts opts then r else r) - r) = []) as Hr by (intros r; destruct (o_Receipts opts); by rewrite Z.sub_diag).
    rewrite Hr. cbn. by destruct (o_Bodies opts). }
  eapply asks_bind; [by apply asks_batches; lia|]. intros c ->. apply asks_ret. unfold RefillTruth.ref_day, counting_at. cbn [c_rd c_gasPrice c_active c_ok c_failed c_transfers].
  rewrite <-(day_blocks_range chain top Hok d). cbn [rd_Date rd_FirstBlock rd_LastBlock rd_Blocks rd_Txs rd_GasUsed rd_SizeSum rd_SizeN rd_BlockTimeSum rd_BlockTimeN ref_row].
  f_equal.
  - by destruct (o_Bodies opts).
  - destruct (o_Bodies opts); [|done]. by rewrite size_lower.
  - unfold receipts_to. destruct (o_Receipts opts); [|done]. by rewrite <-(day_blocks_range chain top Hok d).
  - unfold receipts_to. destruct (o_Receipts opts); [|done]. by rewrite <-(day_blocks_range chain top Hok d).
  - unfold receipts_to. destruct (o_Receipts opts); [|done]. by rewrite <-(day_blocks_range chain top Hok d).
Qed.

(** ** Checkpoints *)

Section Saved.
Context (opts : DailyRefillOptions).
Definition has_parts (row : RefillDay) : Prop := (o_Bodies opts = true → is_Some (rd_GasPriceSum row)) ∧ (o_Receipts opts = true → is_Some (rd_SuccessfulTxs row)).
(** The days of [L] are counted, the calm ones with the parts asked for. *)
Definition haves (L : list Z) (s : option (gmap Z RefillDay)) : Prop := ∀ d, d ∈ L → ∃ m row, s = Some m ∧ m !! d = Some row ∧ (calm d → has_parts row).
Definition and_exists (F : option (gmap Z RefillDay) → Prop) (s : option (gmap Z RefillDay)) : Prop := F s ∧ is_Some s.

Lemma haves_kept L : kept (haves L).
Proof.
  intros s s' [_ Hk] Hh d Hd. destruct (Hh d Hd) as (m & row & -> & Hrow & Hp). destruct (Hk m eq_refl) as (m' & -> & Hm). destruct (Hm d row Hrow) as (row' & Hrow' & Hq).
  exists m', row'. split_and!; [done|done|]. intros Hc. destruct (Hp Hc), (Hq Hc). split; auto.
Qed.
Lemma and_exists_kept F : kept F → kept (and_exists F).
Proof. intros HF s s' Hk [Hf [m ->]]. split; [by apply (HF (Some m))|]. destruct Hk as [_ Hk]. destruct (Hk m eq_refl) as (m' & -> & _). by exists m'. Qed.
Lemma haves_sub L L' s : (∀ d, d ∈ L' → d ∈ L) → haves L s → haves L' s.
Proof. intros Hs Hh d Hd. by apply Hh, Hs. Qed.

Lemma rs_exists F : kept F → rspec (with_saved F) (table_exists env out) (λ (b : bool) y, with_saved (if b then and_exists F else (λ s, F s ∧ s = None)) y).
Proof.
  intros HF. apply rs_statement; [done|]. intros y [Hg Hf]. cbn. split; [done|]. unfold with_saved, and_exists.
  destruct (y_saved y) as [m|]; cbn; [split; [done|split; [done|by eexists]]|by split].
Qed.

Lemma rs_saved_day L d : rspec (with_saved (haves L)) (SavedRefillDay env out d)
  (λ s y, with_saved (haves (if s.1.1 && (s.1.2 || negb (o_Bodies opts)) && (s.2 || negb (o_Receipts opts)) then d :: L else L)) y).
Proof.
  unfold SavedRefillDay. eapply rs_bind; [apply rs_exists, haves_kept|]. intros [|]; [|apply rs_ret; by intros y [Hg [Hh _]]]. apply rs_statement; [apply and_exists_kept, haves_kept|].
  intros y [Hg [Hh [m Hm]]]. cbn. rewrite Hm. split; [done|]. split; [done|]. rewrite Hm. rewrite Hm in Hh. destruct (m !! d) as [row|] eqn:Ed; [|done]. cbn.
  destruct (_ && _) eqn:E; [|done]. apply andb_true_iff in E as [E1 E2]. intros d' [->|Hd']%elem_of_cons; [|by apply Hh]. exists m, row. split_and!; [done|done|]. intros _. split.
  - intros Eb. rewrite Eb in E1. cbn in E1. rewrite orb_false_r in E1. by apply bool_decide_eq_true in E1.
  - intros Eb. rewrite Eb in E2. cbn in E2. rewrite orb_false_r in E2. by apply bool_decide_eq_true in E2.
Qed.

Lemma rs_save L d : 0 ≤ d → start (d + 1) ≤ top →
  rspec (with_saved (haves L)) (SaveRefillDay env out (ref_day d (o_Bodies opts) (o_Receipts opts))) (λ _, with_saved (haves (d :: L))).
Proof.
  intros Hd Hover. unfold SaveRefillDay. eapply rs_bind with (M := λ _, with_saved (and_exists (haves L))).
  - apply rs_statement; [apply haves_kept|]. intros y [[Ht Hs] Hh]. cbn.
    assert (saved_true (Some (default ∅ (y_saved y))) ∧ haves L (Some (default ∅ (y_saved y)))) as [Hs' Hh'].
    { destruct (y_saved y) as [m|] eqn:Em; [by split|]. cbn. split; [intros m d' row [= <-] E; by rewrite lookup_empty in E|]. intros d' Hd'. destruct (Hh d' Hd') as (? & ? & ? & _). done. }
    split; [by split|]. split; [by split|]. split; [done|by eexists].
  - intros []. apply rs_statement; [apply and_exists_kept, haves_kept|]. intros y [[Ht Hs] [Hh [m Hm]]]. rewrite Hm in *. cbn.
    assert (saved_true (Some (<[d := refillArgs (ref_day d (o_Bodies opts) (o_Receipts opts))]> m))) as Hs'.
    { intros m' d' row [= <-] [[<- <-]|[_ E]]%lookup_insert_Some; [|by apply (Hs m)]. split_and!; [done|done|by eexists _, _]. }
    split; [by split|]. split; [by split|]. intros d' Hd'. destruct (decide (d' = d)) as [->|Hne].
    + eexists _, _. split; [done|]. split; [apply lookup_insert_eq|]. intros _. split; intros E; cbn; rewrite E; by eexists.
    + apply elem_of_cons in Hd' as [?|Hd']; [done|]. destruct (Hh d' Hd') as (m0 & row & [= <-] & Hrow & Hp). eexists _, row. split; [done|]. by rewrite lookup_insert_ne.
Qed.

(** ** The run *)

Definition planned (dr : DayRange) : Prop :=
  g_FromSaved dr = false → dr = mkDayRange (g_Date dr) (start (g_Date dr)) (start (g_Date dr + 1)) false ∧ 0 ≤ g_Date dr ∧ start (g_Date dr + 1) ≤ top.
Definition saved_dates (l : list DayRange) : list Z := g_Date <$> filter (λ dr, g_FromSaved dr = true) l.

Lemma plan_range d first end_ head : 0 ≤ head ≤ top → 0 ≤ d → d * 86400 < H64 → end_ ≤ head →
  0 ≤ first ≤ head + 1 → (∀ n, 0 ≤ n < first → ts n < u64 (d * 86400)) → (∀ n, first ≤ n ≤ head → u64 (d * 86400) ≤ ts n) →
  0 ≤ end_ → (∀ n, 0 ≤ n < end_ → ts n < u64 ((d + 1) * 86400)) → (∀ n, end_ ≤ n ≤ head → u64 ((d + 1) * 86400) ≤ ts n) →
  planned (mkDayRange d first end_ false).
Proof.
  intros Hh Hd0 Hd Hend Hf Hfl Hfh He Hel Heh _. cbn. rewrite (u64_small (d * 86400)) in * by (unfold is_u64; lia). rewrite (u64_small ((d + 1) * 86400)) in * by (unfold is_u64; lia).
  assert (end_ = start (d + 1)) as Ee by (apply (first_is_start _ head); [lia|lia|done|done]).
  assert (first ≤ head) as Hfh'. { destruct (decide (first ≤ head)); [done|]. specialize (Hfl end_ ltac:(lia)). specialize (Heh end_ ltac:(lia)). lia. }
  assert (first = start d) as -> by (apply (first_is_start _ head); [lia|lia|done|done]). rewrite Ee in *. split_and!; [done|done|lia].
Qed.

Lemma rs_plan head days L : (∃ k, BlockNumber k = Ok head) → Forall (λ t, 0 ≤ t < H64) days →
  rspec (with_saved (haves L)) (plan_days env out stopped opts head days)
    (λ l y, with_saved (haves (saved_dates l ++ L)) y ∧ g_Date <$> l = truncate_day <$> days ∧ Forall planned l ∧ (o_Plan opts = true → Forall (λ dr, g_FromSaved dr = false) l)).
Proof.
  intros [k0 Hk0] Hdays. pose proof (tell_head chain top k0 head Hk0) as Hh. revert L. induction Hdays as [|t days [Ht0 Ht1] Hdays IH]; intros L; cbn [plan_days].
  { apply rs_ret. intros y Hy. split_and!; [done|done|constructor|done]. }
  set (d := truncate_day t). assert (0 ≤ d ∧ d * 86400 < H64) as [Hd0 Hd1].
  { unfold d, truncate_day. split; [by apply Z.div_pos|]. pose proof (Z.mul_div_le t 86400 ltac:(lia)). lia. }
  eapply rs_bind with (M := λ s y, with_saved (haves (if s.1.1 && (s.1.2 || negb (o_Bodies opts)) && (s.2 || negb (o_Receipts opts)) then d :: L else L)) y ∧ (o_Plan opts = true → s = (false, false, false))).
  { destruct (o_Plan opts); [apply rs_ret; intros y Hy; split; done|]. eapply rs_post; [|apply rs_saved_day]. by intros s y Hy. }
  intros [[sv b] r]. cbn [fst snd]. apply rs_fact. intros Hpl. destruct (sv && (b || negb (o_Bodies opts)) && (r || negb (o_Receipts opts))) eqn:Es.
  - eapply rs_bind; [apply IH|]. intros l. apply rs_fact. intros (Hl & Hall & Hp). apply rs_ret. intros y Hy. split_and!.
    + destruct Hy as [Hg Hy]. split; [done|]. revert Hy. apply haves_sub. intros d'. unfold saved_dates. rewrite filter_cons, decide_True by done. rewrite fmap_cons. cbn. rewrite !elem_of_app, !elem_of_cons, !elem_of_app. tauto.
    + rewrite !fmap_cons, Hl. done.
    + constructor; [done|done].
    + intros E. specialize (Hpl E). by injection Hpl as -> -> ->.
  - eapply rs_bind; [apply asks_first; [done|apply haves_kept]|]. intros first. apply rs_fact. intros (Hf & Hfl & Hfh).
    eapply rs_bind; [apply asks_first; [done|apply haves_kept]|]. intros end_. apply rs_fact. intros (He & Hel & Heh). destruct (Z.ltb_spec head end_).
    + apply rs_fail. intros y [Hg _]. split; [done|]. exists k0, head. split; [done|]. destruct (start_spec chain top Hok (d + 1)) as (Hs & _ & Hsh).
      destruct (decide (head < start (d + 1))); [done|]. exfalso. specialize (Hsh head ltac:(lia)). specialize (Hel head ltac:(lia)). rewrite u64_small in Hel by (unfold is_u64; lia). lia.
    + eapply rs_bind; [apply IH|]. intros l. apply rs_fact. intros (Hl & Hall & Hp). apply rs_ret. intros y Hy. split_and!.
      * destruct Hy as [Hg Hy]. split; [done|]. revert Hy. apply haves_sub. intros d'. unfold saved_dates. rewrite filter_cons, decide_False by done. done.
      * rewrite !fmap_cons, Hl. done.
      * constructor; [|done]. apply (plan_range d first end_ head); (lia || done).
      * intros E. constructor; [done|]. by apply Hp.
Qed.

Hypothesis Hbatch : 0 < o_Batch opts < H64.
Lemma rs_count l L : Forall planned l → Forall (λ dr, g_FromSaved dr = false) l →
  rspec (with_saved (haves L)) (count_days env out stopped opts l) (λ _, with_saved (haves ((g_Date <$> l) ++ L))).
Proof.
  intros Hl Hs. revert L. induction Hl as [|dr l Hdr Hl IH]; intros L; cbn [count_days]; [by apply rs_ret|]. apply Forall_cons in Hs as [Hfs Hs].
  destruct (Hdr Hfs) as (-> & Hd & Hover). cbn [g_Date]. eapply rs_bind; [apply asks_countDay; [done|done|apply haves_kept]|]. intros rd. apply rs_fact. intros ->.
  eapply rs_bind; [by apply rs_save|]. intros []. eapply rs_post; [|by apply IH]. intros [] y [Hg Hy]. split; [done|]. revert Hy. apply haves_sub.
  intros d'. rewrite fmap_cons. cbn. rewrite !elem_of_cons, !elem_of_app, !elem_of_cons. tauto.
Qed.

(** What is read back of the checkpoints. *)
Definition rows_ok (L : list Z) (rows : list RefillDay) : Prop :=
  NoDup (rd_Date <$> rows) ∧ (∀ r, r ∈ rows → ∃ d b x, r = ref_day d b x ∧ 0 ≤ d ∧ start (d + 1) ≤ top) ∧
  ∀ d, d ∈ L → ∃ b x, ref_day d b x ∈ rows ∧ (calm d → (o_Bodies opts = true → b = true) ∧ (o_Receipts opts = true → x = true)).

Lemma scan_true d b x : start (d + 1) ≤ top → scan_row (refillArgs (ref_day d b x)) = ref_day d b x.
Proof.
  intros Hover. destruct (ok_top _ _ Hok) as [_ Htop]. destruct (start_spec chain top Hok d) as ([Hs0 Hs1] & _). pose proof (start_mono chain top Hok d (d + 1) ltac:(lia)).
  unfold scan_row, refillArgs, RefillTruth.ref_day. cbn [rd_Date rd_FirstBlock rd_LastBlock ref_row rd_Blocks rd_Txs rd_GasUsed rd_SizeSum rd_SizeN rd_BlockTimeSum rd_BlockTimeN rd_GasPriceSum rd_ActiveAddresses rd_SuccessfulTxs rd_FailedTxs rd_TokenTransfers].
  rewrite !u64_i64; [done|apply u64_range|unfold is_u64; lia].
Qed.

Lemma saved_rows_dates (m : gmap Z RefillDay) (l : list Z) : (∀ d row, m !! d = Some row → rd_Date row = d) → (∀ d, d ∈ l → is_Some (m !! d)) → rd_Date <$> omap (λ d, scan_row <$> m !! d) l = l.
Proof.
  intros Hd Hl. induction l as [|d l IH]; [done|]. destruct (Hl d) as [row Hrow]; [by left|]. cbn. rewrite Hrow. cbn. rewrite (Hd d row Hrow). f_equal. apply IH. intros d' ?. apply Hl. by right.
Qed.
Lemma saved_rows_ok L m : saved_true (Some m) → haves L (Some m) → rows_ok L (omap (λ d, scan_row <$> m !! d) (merge_sort Z.le (map_to_list m).*1)).
Proof.
  intros Hs Hh. assert (∀ d, d ∈ merge_sort Z.le (map_to_list m).*1 ↔ is_Some (m !! d)) as Hkeys.
  { intros d. rewrite merge_sort_Permutation. split.
    - intros ([d' s] & -> & E%elem_of_map_to_list)%list_elem_of_fmap. by exists s.
    - intros [s Es]. apply list_elem_of_fmap. exists (d, s). split; [done|]. by apply elem_of_map_to_list. }
  split_and!.
  - rewrite saved_rows_dates; [rewrite merge_sort_Permutation; apply NoDup_fst_map_to_list| |by intros d ?%Hkeys].
    intros d row Hrow. destruct (Hs m d row eq_refl Hrow) as (_ & _ & b & x & ->). done.
  - intros r (d & _ & Er)%list_elem_of_omap. destruct (m !! d) as [row|] eqn:Ed; [|done]. injection Er as <-.
    destruct (Hs m d row eq_refl Ed) as (Hd & Hover & b & x & ->). exists d, b, x. by rewrite scan_true.
  - intros d Hd. destruct (Hh d Hd) as (m0 & row & [= <-] & Hrow & Hp). destruct (Hs m d row eq_refl Hrow) as (Hd0 & Hover & b & x & ->). exists b, x. split.
    + apply list_elem_of_omap. exists d. split; [by apply Hkeys; eexists|]. rewrite Hrow. cbn. by rewrite scan_true.
    + intros Hc. destruct (Hp Hc) as [Hp1 Hp2]. split; intros E.
      * specialize (Hp1 E). cbn in Hp1. destruct b; [done|]. by destruct Hp1.
      * specialize (Hp2 E). cbn in Hp2. destruct x; [done|]. by destruct Hp2.
Qed.

Lemma rs_saved_days L : rspec (with_saved (haves L)) (SavedRefillDays env out) (λ rows y, with_saved (haves L) y ∧ rows_ok L rows).
Proof.
  unfold SavedRefillDays. eapply rs_bind; [apply rs_exists, haves_kept|]. intros [|].
  - apply rs_statement; [apply and_exists_kept, haves_kept|]. intros y [Hg [Hh [m Hm]]]. cbn. rewrite Hm. split; [done|]. split; [done|].
    destruct Hg as [_ Hs]. rewrite Hm in *. by apply saved_rows_ok.
  - apply rs_ret. intros y [Hg [Hh Hn]]. split; [done|]. split_and!; [constructor|by intros r ?%not_elem_of_nil|]. intros d Hd. destruct (Hh d Hd) as (m & row & E & _). congruence.
Qed.

Context (meet : list DaySpan → list DaySpan).
(** The row of a refilled day: the node's counts, and what it had where they were not
    asked for. *)
Definition written (d : Z) (t : daily_tables) : Prop := ∃ b x o, (calm d → (o_Bodies opts = true → b = true) ∧ (o_Receipts opts = true → x = true)) ∧
  block_columns <$> t_stats t !! d = Some (block_columns (refill_stats (ref_day d b x) o)).

Lemma last_block d b x : start (d + 1) ≤ top → i64 (rd_LastBlock (ref_day d b x)) = start (d + 1) - 1.
Proof.
  intros Hover. destruct (ok_top _ _ Hok) as [_ Htop]. destruct (start_spec chain top Hok (d + 1)) as ([Hs0 _] & _). cbn.
  rewrite <-(i64_small (start (d + 1) - 1)) at 2 by lia. apply i64_congr. unfold u64. by rewrite Zmod_mod.
Qed.

Lemma rs_write L rows dry : rows_ok L rows → rspec (with_saved (haves L)) (write_refilled env out meet rows dry)
  (λ _ y, with_saved (haves L) y ∧ (dry = false → ∀ d, d ∈ L → written d (y_tables y))).
Proof.
  intros (Hnd & Htrue & HL). apply rs_statement; [apply haves_kept|]. intros y Hy. destruct (WriteRefilledDailyStats meet rows dry (y_tables y)) as [t [r|e]] eqn:E; cbn.
  - split; [apply Hy|]. split; [apply Hy|]. intros -> d Hd. destruct (HL d Hd) as (b & x & Hin & Hb).
    pose proof (write_block_columns _ _ _ _ _ _ E Hin) as Hw. cbn [rd_Date RefillTruth.ref_day] in Hw. by eexists b, x, _.
  - split; [apply Hy|]. destruct (write_err_reason _ _ _ _ _ _ E Hnd) as [-> He]. destruct e as [d|]; [|done]. destruct He as (r & Hr & <- & Hlt).
    destruct (Htrue r Hr) as (d & b & x & -> & _ & Hover). rewrite last_block in Hlt by done. done.
Qed.
End Saved.

Lemma rs_refill meet days opts : Forall (λ t, 0 ≤ t < H64) days → o_Batch opts < H64 →
  rspec (λ y, saved_true (y_saved y)) (RefillDailyStats env out stopped meet days opts)
    (λ rep y, good y ∧ g_Date <$> p_Days rep = truncate_day <$> days ∧ Forall planned (p_Days rep) ∧
      (o_Plan opts = false → ∀ t, t ∈ days → haves opts [truncate_day t] (y_saved y) ∧ (o_Dry opts = false → written opts (truncate_day t) (y_tables y)))).
Proof.
  intros Hdays Hb. set (o := with_defaults opts). assert (0 < o_Batch o < H64) as Hbatch by (unfold o, with_defaults; cbn; destruct (Z.leb_spec (o_Batch opts) 0); lia).
  unfold RefillDailyStats. fold o. eapply rs_bind with (M := λ _, with_saved (haves o [])).
  { apply rs_local. intros y Hs. split; [split; [intros n t E; cbn in E; by rewrite lookup_empty in E|done]|]. by intros d ?%not_elem_of_nil. }
  intros []. eapply rs_bind; [apply rs_request, haves_kept|]. intros [head|e]; apply rs_fact; [intros Hhead|intros [k Hk]; apply rs_fail; intros y [Hg _]; split; [done|left; by exists k]].
  eapply rs_bind; [by apply rs_plan|]. intros plan. apply rs_fact. intros (Hdates & Hplan & Hp). rewrite app_nil_r. destruct (o_Plan o) eqn:Ep.
  - apply rs_local. intros y [Hg _]. cbn. split_and!; [done|done|done|]. unfold o, with_defaults in Ep. cbn in Ep. rewrite Ep. done.
  - eapply rs_bind; [apply rs_count; [done| |]|]; [apply Forall_forall; rewrite Forall_forall in Hplan; intros dr [_ ?]%list_elem_of_filter; by apply Hplan|apply Forall_forall; by intros dr [? _]%list_elem_of_filter|]. intros [].
    eapply rs_bind; [apply rs_saved_days|]. intros counted. apply rs_fact. intros Hrows. eapply rs_bind; [by apply rs_write|]. intros rows.
    apply rs_local. intros y [[Hg Hh] Hw]. cbn. split_and!; [done|done|done|]. intros _ t Ht.
    assert (truncate_day t ∈ (g_Date <$> filter (λ dr, g_FromSaved dr = false) plan) ++ saved_dates plan) as Hin.
    { assert (truncate_day t ∈ g_Date <$> plan) as (dr & Edr & Hdr)%list_elem_of_fmap by (rewrite Hdates; apply list_elem_of_fmap; by exists t).
      apply elem_of_app. destruct (g_FromSaved dr) eqn:Ef; [right|left]; apply list_elem_of_fmap; exists dr; (split; [done|]); by apply list_elem_of_filter. }
    split; [|intros Ed; by apply Hw]. intros d ->%list_elem_of_singleton. by apply Hh.
Qed.
End Run.
