(* ===== verification/RefillExact.v ===== *)
(** * A refill writes what the node has

    The node behind the JSON-RPC client tells the truth when the replies do, and a refill
    from it checkpoints and writes nothing else. *)

From S2P Require Import Prelude GoStrings EthCommon BuildBlock Session RpcBatch RefillWrite RefillDays DailyRefill RefillTruth RefillRun.

(** ** The client *)

Section Client.
Context `{Keccak} (chain : Z → cblock) (top : Z).
Context {raw raw_tx raw_receipts : Type} (decode_block : raw → option (refillBlockJSON raw_tx)) (decode_tx : raw_tx → option tx_json)
  (decode_receipts : raw_receipts → option (list (option Receipt))).
Context (last_id : nat → Z) (head_answer : nat → res batch_err Z) (block_answer : nat → list Z → bool → transport raw) (receipt_answer : nat → list Z → transport raw_receipts).

(** A block's JSON, with its transactions where they were asked for. *)
Definition block_json (n : Z) (bodies : bool) (j : refillBlockJSON raw_tx) : Prop :=
  bj_number j = n ∧ bj_timestamp j = cb_ts (chain n) ∧ bj_gasUsed j = cb_gas (chain n) ∧ bj_size j = cb_size (chain n) ∧
  length (bj_txs j) = length (cb_txs (chain n)) ∧ (bodies = true → Forall2 (λ x t, decode_tx x = Some t) (bj_txs j) (cb_txs (chain n))).

(** Each reply that has a result has that of the call with its id. *)
Hypothesis Hhead : ∀ k h, head_answer k = Ok h → 0 ≤ h ≤ top.
Hypothesis Hblocks : ∀ k ns bodies l r i n x j, block_answer k ns bodies = Replies l → r ∈ l → batch_ids (last_id k) (length ns) !! i = Some (rp_id r) → ns !! i = Some n →
  rp_result r = Some x → decode_block x = Some j → 0 ≤ n ≤ top ∧ block_json n bodies j.
Hypothesis Hreceipts : ∀ k ns l r i n x rs, receipt_answer k ns = Replies l → r ∈ l → batch_ids (last_id k) (length ns) !! i = Some (rp_id r) → ns !! i = Some n →
  rp_result r = Some x → decode_receipts x = Some rs → some_receipts (cb_receipts (chain n)) rs.

Lemma decode_txs_all l ts : Forall2 (λ x t, decode_tx x = Some t) l ts → decode_txs decode_tx l = Some (refill_tx <$> ts).
Proof. induction 1 as [|x t l ts Hx _ IH]; [done|]. cbn. by rewrite Hx, IH. Qed.

Lemma refill_blocks_at bodies l m : refill_blocks decode_tx bodies l = Ok m → length m = length l ∧
  ∀ i b, m !! i = Some (Some b) → ∃ j txs, l !! i = Some (Some j) ∧ (if bodies then decode_txs decode_tx (bj_txs j) else Some []) = Some txs ∧
    b = mkRefillBlock (bj_number j) (bj_timestamp j) (bj_gasUsed j) (bj_size j) (zlen (bj_txs j)) txs.
Proof.
  revert m. induction l as [|[j|] l IH]; intros m E; cbn [refill_blocks] in E; [by injection E as <-| |].
  - destruct (if bodies then _ else _) as [txs|] eqn:Et; [|done]. destruct (refill_blocks decode_tx bodies l) as [m'|]; [|done]. injection E as <-.
    destruct (IH m' eq_refl) as [Hlen Hm]. split; [cbn; by rewrite Hlen|]. intros [|i] b Hb; [injection Hb as <-; by exists j, txs|by apply Hm].
  - destruct (refill_blocks decode_tx bodies l) as [m'|]; [|done]. injection E as <-. destruct (IH m' eq_refl) as [Hlen Hm].
    split; [cbn; by rewrite Hlen|]. intros [|i] b Hb; [done|by apply Hm].
Qed.

#[local] Instance RefillNode_truthful : Truthful chain top (RefillNode decode_block decode_tx decode_receipts last_id head_answer block_answer receipt_answer).
Proof.
  split; [done| |]; cbn.
  - intros k ns bodies m. unfold RefillNode_Blocks. destruct (BatchCallContext _ _ _ _) as [l|] eqn:E; [|done]. intros Hm.
    apply (BatchCallContext_own decode_block (λ i j, ∀ n, ns !! i = Some n → 0 ≤ n ≤ top ∧ block_json n bodies j)) in E as [Hlen Hl];
      [|intros lr r i x j Ea Hr Hi Hx Hj n Hn; by apply (Hblocks k ns bodies lr r i n x j)].
    destruct (refill_blocks_at bodies l m Hm) as [Hlen' Hat]. split; [congruence|]. intros i n b Hn Hb. destruct (Hat i b Hb) as (j & txs & Hj & Et & ->).
    destruct (Hl i j Hj n Hn) as (Hr & H1 & H2 & H3 & H4 & H5 & H6). split; [done|]. unfold node_block, zlen. rewrite H1, H2, H3, H4, H5. f_equal.
    destruct bodies; [|by injection Et as <-]. rewrite (decode_txs_all _ _ (H6 eq_refl)) in Et. by injection Et as <-.
  - intros k ns l. unfold RefillNode_BlockReceipts. destruct (BatchCallContext _ _ _ _) as [m|] eqn:E; [|done]. intros [= <-].
    apply (BatchCallContext_own decode_receipts (λ i rs, ∀ n, ns !! i = Some n → some_receipts (cb_receipts (chain n)) rs)) in E as [Hlen Hm];
      [|intros lr r i x rs Ea Hr Hi Hx Hj n Hn; by apply (Hreceipts k ns lr r i n x rs)].
    split; [by rewrite length_fmap|]. intros i n r Hn. rewrite list_lookup_fmap. destruct (m !! i) as [[rs|]|] eqn:Ei; [|cbn; intros [= <-]; done|done].
    cbn. intros [= <-]. by apply (Hm i rs Ei).
Qed.
End Client.

(** Other runs leave the checkpoint of day [d] the parts it has. *)
Definition keeps_parts (d : Z) (y y' : refill_sys) : Prop :=
  ∀ m m' row row', y_saved y = Some m → y_saved y' = Some m' → m !! d = Some row → m' !! d = Some row' → parts_in row row'.
Definition undisturbed (env : nat → refill_sys → refill_sys) (d : Z) : Prop := ∀ k y, keeps_parts d y (env k y).
(** Other runs checkpoint true days and drop none. Like this one, they may replace the
    checkpoint of a day by one without the parts of the bodies or the receipts. *)
Definition other_runs `{Keccak} (chain : Z → cblock) (top : Z) (env : nat → refill_sys → refill_sys) : Prop :=
  ∀ k y, rely chain top (λ _, False) y (env k y).

Lemma undisturbed_rely `{Keccak} chain top env : other_runs chain top env → ∀ k y, rely chain top (undisturbed env) y (env k y).
Proof.
  intros He k y. destruct (He k y) as (Hm & Ht & Hk). split; [done|]. split; [done|]. intros m Em. destruct (Hk m Em) as (m' & Em' & Hrows).
  exists m'. split; [done|]. intros d row Hrow. destruct (Hrows d row Hrow) as (row' & Hrow' & _). exists row'. split; [done|].
  intros Hd. by apply (Hd k y m m').
Qed.


(** ** A run *)

(** Three days, a block every twelve hours, a transaction with a transfer in each. *)
Definition toy_tx (n : Z) : tx_json := mkTxJson (be_bytes 20 (n `mod` 2)) (Some (be_bytes 20 9)) (Some 7).
Definition toy_chain (n : Z) : cblock :=
  mkCblock (if decide (0 ≤ n ≤ 6) then n * 43200 else 259200) 21000 500 [toy_tx n] [mkReceipt 1 21000 [] [mkReceiptLog [] [transferTopic; []; []] [] 0 false]].
Definition toy_json (n : Z) : refillBlockJSON tx_json := mkBlockJson n (cb_ts (toy_chain n)) 21000 500 [toy_tx n].
(** The replies come last call first; the sixth event is throttled, and the receipts are
    null before event 60. *)
Definition toy_replies {A} (f : Z → A) (ns : list Z) : transport A :=
  if bool_decide ((length ns < 1000)%nat ∧ Forall (λ n, 0 ≤ n ≤ 6) ns) then Replies (rev (imap (λ i n, mkReply (u64 (0 + 1 + Z.of_nat i)) false (Some (f n))) ns)) else NoAnswer.
#[local] Instance toy : Keccak := toy_keccak.
Definition toy_node : DailyRefillNode :=
  RefillNode (raw := refillBlockJSON tx_json) (raw_receipts := list (option Receipt)) Some Some Some (λ _, 0) (λ _, Ok 6)
    (λ k ns _, if (k =? 5)%nat then Status 429 else toy_replies toy_json ns)
    (λ k ns, if (k <? 60)%nat then toy_replies (λ n, [None]) ns else toy_replies (λ n, Some <$> cb_receipts (toy_chain n)) ns).

Lemma toy_ok : chain_ok toy_chain 6.
Proof.
  split; [lia| | |done].
  - intros n. unfold toy_chain. cbn. case_decide; lia.
  - intros x y ? ?. unfold toy_chain. cbn. rewrite !decide_True by lia. lia.
Qed.
Lemma toy_replies_own {A} (f : Z → A) ns l r i n x : toy_replies f ns = Replies l → r ∈ l → batch_ids 0 (length ns) !! i = Some (rp_id r) → ns !! i = Some n →
  rp_result r = Some x → 0 ≤ n ≤ 6 ∧ x = f n.
Proof.
  unfold toy_replies. case_bool_decide as Hc; [|done]. destruct Hc as [Hlen Hall]. rewrite Forall_forall in Hall.
  intros [= <-] Hr%list_elem_of_In%in_rev%list_elem_of_In. apply elem_of_lookup_imap in Hr as (j & m & -> & Hm). cbn [rp_id rp_result]. intros Hi Hn [= <-].
  unfold batch_ids in Hi. rewrite list_lookup_fmap in Hi. destruct (seq 0 (length ns) !! i) as [i'|] eqn:Ei; [|done]. apply lookup_seq in Ei as [-> Hlt]. cbn in Hi.
  apply lookup_lt_Some in Hm as Hj. rewrite !u64_small in Hi by (unfold is_u64; lia). injection Hi as Hi. assert (i = j) as -> by lia.
  split; [apply Hall; by apply list_elem_of_lookup_2 in Hn|congruence].
Qed.
Lemma toy_truthful : Truthful toy_chain 6 toy_node.
Proof.
  apply RefillNode_truthful.
  - intros k h [= <-]. lia.
  - intros k ns bodies l r i n x j. destruct (k =? 5)%nat; [done|]. intros Ea Hr Hi Hn Hx [= <-]. destruct (toy_replies_own toy_json ns l r i n x Ea Hr Hi Hn Hx) as [? ->].
    split; [done|]. split_and!; [done|done|done|done|done|]. intros _. repeat constructor.
  - intros k ns l r i n x rs. destruct (k <? 60)%nat; intros Ea Hr Hi Hn Hx [= <-].
    + destruct (toy_replies_own _ ns l r i n x Ea Hr Hi Hn Hx) as [_ ->]. intros [|j] rc Hj; done.
    + destruct (toy_replies_own _ ns l r i n x Ea Hr Hi Hn Hx) as [_ ->]. intros j rc Hj. by apply list_lookup_fmap_Some in Hj as (? & [= ->] & ?).
Qed.

Definition toy_sys : refill_sys := mkSys (mkMem ∅ 0 0) None (mkTables ∅ ∅ (Some 6) 0 (Some 7) [] []).
Definition toy_opts : DailyRefillOptions := mkOptions true true 10 false false.
(** The first run meets null receipts three times and fails, the second resumes. *)
Definition toy_run (k : nat) := RefillDailyStats (H := toy_node) (λ _ y, y) (λ _, Done) (λ _, false) id [90000] toy_opts k.

Lemma toy_run_fails : (toy_run 0 toy_sys).2 = FErr (ErrRefillReceiptsIncomplete 2).
Proof. vm_compute. reflexivity. Qed.
Definition toy_plan (r : fin DailyRefillReport) : option (list DayRange) := match r with FVal rep => Some (p_Days rep) | _ => None end.
Lemma toy_run_returns : toy_plan (toy_run 60 toy_sys).2 = Some [mkDayRange 1 2 4 false].
Proof. vm_compute. reflexivity. Qed.
Lemma toy_rely : other_runs toy_chain 6 (λ _ y, y).
Proof. intros k y. split; [done|]. split; [done|]. intros m Hm. exists m. split; [done|]. intros d row Hrow. by exists row. Qed.

(** ** Another run, and a null receipt too many *)

(** A run without bodies checkpoints the day between this one's checkpoint and its
    write. *)
Definition poorer (k : nat) (y : refill_sys) : refill_sys :=
  match y_saved y with
  | Some m => if bool_decide (is_Some (m !! 1)) then set_saved (Some (<[1 := refillArgs (ref_day toy_chain 6 1 false true)]> m)) y else y
  | None => y
  end.
Lemma poorer_rely : other_runs toy_chain 6 poorer.
Proof.
  intros k y. unfold rely, poorer. destruct (y_saved y) as [m|] eqn:Es; [|rewrite Es; split; [done|]; by split].
  case_bool_decide as Hm; [|rewrite Es; split; [done|]; split; [done|]; intros m0 [= <-]; exists m; split; [done|]; intros d row Hrow; by exists row].
  split; [done|]. split; cbn.
  - intros Ht m' d row [= <-] [[<- <-]|[_ Hrow]]%lookup_insert_Some; [|by apply (Ht m)]. split; [lia|]. split; [by vm_compute|by eexists _, _].
  - intros m0 [= <-]. eexists. split; [done|]. intros d row Hrow. destruct (decide (1 = d)) as [<-|Hd]; [rewrite lookup_insert_eq|rewrite lookup_insert_ne by done]; by eexists.
Qed.
(** The run returns, and the checkpoint lacks the prices it asked for. *)
Definition disturbed_run := RefillDailyStats (H := toy_node) poorer (λ _, Done) (λ _, false) id [90000] toy_opts 60%nat toy_sys.
Example parts_taken_away : toy_plan disturbed_run.2 = Some [mkDayRange 1 2 4 false] ∧ (rd_GasPriceSum <$> default ∅ (y_saved disturbed_run.1.2) !! 1) = Some None.
Proof. split; vm_compute; reflexivity. Qed.

(** The node adds a null to each block's receipts. *)
Definition padding_node : DailyRefillNode :=
  RefillNode (raw := refillBlockJSON tx_json) (raw_receipts := list (option Receipt)) Some Some Some (λ _, 0) (λ _, Ok 6)
    (λ _ ns _, toy_replies toy_json ns) (λ _ ns, toy_replies (λ n, (Some <$> cb_receipts (toy_chain n)) ++ [None]) ns).
Example padded_receipts_panic : (RefillDailyStats (H := padding_node) (λ _ y, y) (λ _, Done) (λ _, false) id [90000] toy_opts 0%nat toy_sys).2 = FPanic.
Proof. vm_compute. reflexivity. Qed.

