(* ===== verification/Retention.v ===== *)
(** * Retention: partitions ahead of the head, the cut, pruning, archives

    [internal/db/retention.go] with [archiveRange] of [internal/db/archive.go], and
    the SQL functions they call (migrations 014, 022, 024, 034).

    The six history tables are range partitioned by block. [history] is what the
    catalogue, the partitions and the state of a prune hold; a row of a table is
    its block with one datum (the timestamp, in [blocks]). Every statement is one
    transaction. [env] is what the other sessions commit before the k-th statement,
    [out] how the statement ends: done, failed, or cancelled after its wait. *)

From S2P Require Import Prelude SqlOrder.

(** ** The catalogue and the partitions *)

Inductive htable := TBlocks | TTransactions | TLogs | TTokenTransfers | TInternalTransactions | TBalances.
Definition HistoryTables : list htable := [TBlocks; TTransactions; TLogs; TTokenTransfers; TInternalTransactions; TBalances].

#[export] Instance htable_eq_dec : EqDecision htable.
Proof. solve_decision. Defined.
#[export] Instance htable_countable : Countable htable.
Proof.
  refine (inj_countable' (λ t, match t with TBlocks => 0 | TTransactions => 1 | TLogs => 2 | TTokenTransfers => 3
                                      | TInternalTransactions => 4 | TBalances => 5 end)%nat
    (λ n, match n with 0 => TBlocks | 1 => TTransactions | 2 => TLogs | 3 => TTokenTransfers
                     | 4 => TInternalTransactions | _ => TBalances end)%nat _). by intros [].
Defined.

Inductive part_state := Attached | Detaching | Detached.
#[export] Instance part_state_eq_dec : EqDecision part_state.
Proof. solve_decision. Defined.

(** A row of [history_partitions]. [p_lo] also names it: the suffix is [legacy]
    for no lower bound, else [p] and the bound. The table is listed by [lo], NULL
    first. *)
Record partition := mkPart { p_lo : option Z; p_hi : option Z; p_state : part_state }.

(** A partition of one table: in the parent, detach pending (readers no longer
    see it), or a table of its own. *)
Inductive attachment := InParent | Pending | Apart.
#[export] Instance attachment_eq_dec : EqDecision attachment.
Proof. solve_decision. Defined.
Record ptable := mkTable { t_at : attachment; t_rows : gmap Z Z }.

Record history := mkHistory {
  h_parts : list partition;
  h_tables : gmap (htable * option Z) ptable;
  h_pruned : Z; h_pruned_ts : Z;                     (* prune_state *)
  h_spans : gset Z;                                  (* ledger_spans, their upper bounds *)
  h_daily : option Z;                                (* daily_stats_watermark *)
  h_missing : list (Z * Z);                          (* missing_block_ranges *)
  h_backfilling : bool;                              (* a stats_backfill row not daily_done *)
  h_archives : gmap (htable * option Z) (gmap Z Z);  (* history_archives, with the file *)
  h_checks : gmap htable (Z * bool) }.               (* history_cut on the legacy tables: bound, validated *)

Definition set_parts (l : list partition) (s : history) : history :=
  mkHistory l (h_tables s) (h_pruned s) (h_pruned_ts s) (h_spans s) (h_daily s) (h_missing s) (h_backfilling s) (h_archives s) (h_checks s).
Definition set_tables (m : gmap (htable * option Z) ptable) (s : history) : history :=
  mkHistory (h_parts s) m (h_pruned s) (h_pruned_ts s) (h_spans s) (h_daily s) (h_missing s) (h_backfilling s) (h_archives s) (h_checks s).
Definition set_archives (m : gmap (htable * option Z) (gmap Z Z)) (s : history) : history :=
  mkHistory (h_parts s) (h_tables s) (h_pruned s) (h_pruned_ts s) (h_spans s) (h_daily s) (h_missing s) (h_backfilling s) m (h_checks s).
Definition set_checks (m : gmap htable (Z * bool)) (s : history) : history :=
  mkHistory (h_parts s) (h_tables s) (h_pruned s) (h_pruned_ts s) (h_spans s) (h_daily s) (h_missing s) (h_backfilling s) (h_archives s) m.
Definition set_pruned (through ts : Z) (missing : list (Z * Z)) (s : history) : history :=
  mkHistory (h_parts s) (h_tables s) through ts (h_spans s) (h_daily s) missing (h_backfilling s) (h_archives s) (h_checks s).

(** ** What the statements read *)

Inductive rerr := Lost | GateBusy | ReadersBusy | HasDependents | SqlRefused | HeadNearCut | GaveUp.
#[export] Instance rerr_eq_dec : EqDecision rerr.
Proof. solve_decision. Defined.

Definition history_from (s : history) : Z := if 0 <? h_pruned s then h_pruned s + 1 else 0.

Definition max_list (l : list Z) : option Z :=
  match l with [] => None | x :: l => Some (foldr Z.max x l) end.

(** The rows of [blocks]: number and timestamp. *)
Definition block_rows (s : history) : list (Z * Z) :=
  map_to_list (h_tables s) ≫= λ kT, if decide (kT.1.1 = TBlocks ∧ t_at kT.2 = InParent) then map_to_list (t_rows kT.2) else [].
Definition stored_head (s : history) : option Z := max_list (block_rows s).*1.
Definition GetLatestBlockNumber (s : history) : Z := default 0 (stored_head s).

Definition HistoryCut (s : history) : bool :=
  negb (bool_decide (Exists (λ p, p_lo p = None ∧ p_hi p = None) (h_parts s))).

Definition top_bound (s : history) : option Z := max_list (omap p_hi (h_parts s)).
(** [hi - lo] of the newest partition that has both bounds. *)
Definition newest_size (s : history) : option Z :=
  match last (filter (λ p, is_Some (p_lo p) ∧ is_Some (p_hi p)) (h_parts s)) with
  | Some (mkPart (Some lo) (Some hi) _) => Some (hi - lo)
  | _ => None
  end.
Definition overlaps (lo hi : Z) (p : partition) : bool :=
  (default lo (p_lo p) <? hi) && (lo <? default hi (p_hi p)).
Definition of_suffix (sfx : option Z) (s : history) : option partition := snd <$> list_find (λ p, p_lo p = sfx) (h_parts s).

(** ** The SQL functions *)

Fixpoint insert_part (p : partition) (l : list partition) : list partition :=
  match l with
  | [] => [p]
  | q :: l => if default (-1) (p_lo p) <? default (-1) (p_lo q) then p :: q :: l else q :: insert_part p l
  end.

(** [ATTACH] refuses a range that overlaps a partition of the parent. *)
Definition in_parent (t : htable) (s : history) (p : partition) : bool :=
  match h_tables s !! (t, p_lo p) with Some T => negb (bool_decide (t_at T = Apart)) | None => false end.

Definition history_partition_create (lo hi : Z) (s : history) : res rerr history :=
  if existsb (λ t, bool_decide (is_Some (h_tables s !! (t, Some lo))) ||
                   existsb (λ p, in_parent t s p && overlaps lo hi p) (h_parts s)) HistoryTables
     || bool_decide (is_Some (of_suffix (Some lo) s))
  then Err SqlRefused
  else Ok (set_parts (insert_part (mkPart (Some lo) (Some hi) Attached) (h_parts s))
             (set_tables (foldr (λ t m, <[(t, Some lo) := mkTable InParent ∅]> m) (h_tables s) HistoryTables) s)).

(** [history_partitions_ensure(upto, size)]; the loop creates at most
    [upto - top + 1] ranges of one block or more. *)
Fixpoint ensure_loop (fuel : nat) (top upto size : Z) (made : Z) (s : history) : res rerr (history * Z) :=
  match fuel with
  | O => Ok (s, made)
  | S fuel => if top <=? upto then try s := history_partition_create top (top + size) s in ensure_loop fuel (top + size) upto size (made + 1) s
              else Ok (s, made)
  end.
Definition history_partitions_ensure (upto size : Z) (s : history) : res rerr (history * Z) :=
  match top_bound s with
  | None => Ok (s, 0)
  | Some top =>
      if negb (HistoryCut s) then Ok (s, 0)
      else ensure_loop (Z.to_nat (upto - top + 1)) top upto (if size <=? 0 then default 0 (newest_size s) else size) 0 s
  end.

(** [daily_stats_epoch(daily_stats_day(ts))]: the start of the UTC day. *)
Definition day_start (ts : Z) : Z := ts - ts mod 86400.
Definition prune_floor_gap : Z := 12800.

Definition newest_at_or_below (f : Z) (s : history) : option (Z * Z) :=
  foldr (λ r acc, if r.1 <=? f then match acc with Some b => if b.1 <? r.1 then Some r else acc | None => Some r end else acc)
    None (block_rows s).
Definition prune_day_floor (s : history) : option Z :=
  match stored_head s with
  | None => None
  | Some head =>
      match newest_at_or_below (head - prune_floor_gap) s with
      | Some (_, ts) => Some (day_start ts)
      | None => if 0 <? h_pruned s then Some (day_start (h_pruned_ts s)) else None
      end
  end.
(** The rows of [blocks] of one range, attached or not. *)
Definition range_blocks (sfx : option Z) (s : history) : list (Z * Z) :=
  match h_tables s !! (TBlocks, sfx) with Some T => map_to_list (t_rows T) | None => [] end.
Definition history_range_newest_ts (sfx : option Z) (s : history) : option Z := max_list (range_blocks sfx s).*2.
Definition history_range_before_reorg_day (sfx : option Z) (s : history) : bool :=
  match prune_day_floor s with Some f => default (-1) (history_range_newest_ts sfx s) <? f | None => false end.

Definition history_range_complete (sfx : option Z) (s : history) : bool :=
  match of_suffix sfx s with
  | Some (mkPart lo (Some hi) _) =>
      let first := Z.max (Z.max (default 0 lo) (history_from s)) 1 in
      negb (existsb (λ r, (r.1 <? hi) && (first <=? r.2)) (h_missing s)) &&
      (zlen (filter (λ b, first ≤ b.1) (range_blocks sfx s)) =? hi - first)
  | _ => false
  end.

Definition set_state (sfx : option Z) (st : part_state) (s : history) : history :=
  set_parts ((λ p, if decide (p_lo p = sfx) then mkPart (p_lo p) (p_hi p) st else p) <$> h_parts s) s.

(** [prune_advance(suffix)]: every guard is read again under the lock. *)
Definition prune_advance (sfx : option Z) (s : history) : res rerr (history * Z) :=
  match of_suffix sfx s with
  | Some (mkPart lo (Some hi) Attached) =>
      if existsb (λ p, bool_decide (p_state p = Attached) && (default (-1) (p_lo p) <? default (-1) lo)) (h_parts s) then Err SqlRefused
      else match stored_head s, h_daily s with
           | Some head, Some dsw =>
               if (Z.min (head - prune_floor_gap) dsw <? hi - 1) || negb (history_range_before_reorg_day sfx s) ||
                  negb (history_range_complete sfx s) || negb (bool_decide (hi ∈ h_spans s))
               then Err SqlRefused
               else
                 let missing := (λ r : Z * Z, (Z.max r.1 hi, r.2)) <$> filter (λ r : Z * Z, hi ≤ r.2) (h_missing s) in
                 Ok (set_pruned (Z.max (h_pruned s) (hi - 1)) (Z.max (h_pruned_ts s) (default 0 (history_range_newest_ts sfx s))) missing
                       (set_state sfx Detaching s), hi - 1)
           | _, _ => Err SqlRefused
           end
  | _ => Err SqlRefused
  end.

(** ** Statements *)

Inductive ending := Done | Fails | Waited.

Record RetentionConfig := mkRetention { RetainBlocks : Z; PartitionBlocks : Z; archiving : bool }.

Section Run.
Context (env : nat → history → history) (out : nat → ending).

Definition M (A : Type) : Type := nat → history → nat * history * res rerr A.
Definition ret {A} (a : A) : M A := λ k s, (k, s, Ok a).
Definition fail {A} (e : rerr) : M A := λ k s, (k, s, Err e).
Definition bind {A B} (m : M A) (f : A → M B) : M B :=
  λ k s, match m k s with (k, s, Ok a) => f a k s | (k, s, Err e) => (k, s, Err e) end.

(** A statement: [busy] is what it leaves when its wait is over first. *)
Definition exec {A} (busy : history → history * rerr) (f : history → res rerr (history * A)) : M A :=
  λ k s, let s := env k s in
    match out k with
    | Fails => (S k, s, Err Lost)
    | Waited => (S k, (busy s).1, Err (busy s).2)
    | Done => match f s with Ok (s', a) => (S k, s', Ok a) | Err e => (S k, s, Err e) end
    end.
Definition lost (s : history) : history * rerr := (s, Lost).
Definition query {A} (f : history → A) : M A := exec lost (λ s, Ok (s, f s)).
Definition update (f : history → history) : M unit := exec lost (λ s, Ok (f s, tt)).
Definition caught {A} (m : M A) : M (res rerr A) := λ k s, match m k s with (k, s, r) => (k, s, Ok r) end.
End Run.
Arguments M A : clear implicits.
Notation "'let!' x := m 'in' k" := (bind m (λ x, k)) (at level 10, x pattern, m at level 100, k at level 200) : go_scope.

Section Retention.
Context (env : nat → history → history) (out : nat → ending).
Local Notation exec := (exec env out).
Local Notation query := (query env out).
Local Notation update := (update env out).

(** ** Partitions ahead of the head *)

(** The gaps between the first retained block and the highest bound: one pass over
    the ranges by [lo]. [None]: the legacy range is unbounded. *)
Fixpoint gaps_from (covered : Z) (l : list partition) : option (list (Z * Z)) :=
  match l with
  | [] => Some []
  | p :: l =>
      match p_hi p with
      | None => None
      | Some hi =>
          let here := match p_lo p with Some lo => if covered <? lo then [(covered, lo)] else [] | None => [] end in
          (here ++.) <$> gaps_from (Z.max covered hi) l
      end
  end.
Definition snapshot (s : history) : option Z * list (Z * Z) :=
  (newest_size s, match newest_size s with Some _ => default [] (gaps_from (history_from s) (h_parts s)) | None => [] end).

Definition createInGap (lo hi : Z) : M bool :=
  exec lost (λ s, if (lo <? history_from s) || existsb (overlaps lo hi) (h_parts s) then Ok (s, false)
                  else try s := history_partition_create lo hi s in Ok (s, true)).

(** [Some n]: the gap is filled; [None]: it changed, and the fill stops. *)
Fixpoint fill_gap (fuel : nat) (g : Z * Z) (lo size created : Z) : M (Z * bool) :=
  match fuel with
  | O => ret (created, true)
  | S fuel =>
      if lo <? g.2 then
        let rest := Z.rem (g.2 - g.1) size in
        let hi := if (lo =? g.1) && negb (rest =? 0) then lo + rest else Z.min (lo + size) g.2 in
        let! ok := createInGap lo hi in
        if ok then fill_gap fuel g hi size (created + 1) else ret (created, false)
      else ret (created, true)
  end.
Fixpoint fill_gaps (gs : list (Z * Z)) (size created : Z) : M Z :=
  match gs with
  | [] => ret created
  | g :: gs => let! (created, goes_on) := fill_gap (Z.to_nat (g.2 - g.1)) g g.1 size created in
               if goes_on : bool then fill_gaps gs size created else ret created
  end.
Definition fillHistoryGaps : M Z :=
  let! (size, gs) := query snapshot in
  fill_gaps gs (default 0 size) 0.

(** An ensure up to its own top makes one partition, so [n] rounds make [n]. *)
Definition maxPartitionsPerEnsure : nat := 32.
Fixpoint ensure_up (n : nat) (upto size made : Z) : M Z :=
  match n with
  | O => ret made
  | S n =>
      let! top := query top_bound in
      match top with
      | None => ret made
      | Some top =>
          if upto <? u64 top then ret made
          else let! k := exec lost (history_partitions_ensure top (i64 size)) in
               if k =? 0 then ret made else ensure_up n upto size (made + k)
      end
  end.
Definition EnsureHistoryPartitions (upto size : Z) : M Z := ensure_up maxPartitionsPerEnsure upto size 0.

Definition EnsurePartitionsAhead (head partitionBlocks : Z) : M Z :=
  let! size := (if partitionBlocks =? 0 then query newest_size else ret (Some partitionBlocks)) in
  match size with
  | None => ret 0
  | Some size =>
      let size := u64 size in
      let! filled := fillHistoryGaps in
      let! made := EnsureHistoryPartitions (head +₆₄ u64 (2 * size)) size in
      ret (filled + made)
  end.

(** [keepPartitionsAhead], one tick, with the head the node answered if any. *)
Definition keep_ahead (node : option Z) (partitionBlocks : Z) : M Z :=
  let! head := query GetLatestBlockNumber in
  EnsurePartitionsAhead (match node with Some n => if head <? n then n else head | None => head end) partitionBlocks.

(** ** Pruning *)

Definition first_attached (s : history) : option (partition * option Z * Z) :=
  match filter (λ p, p_state p = Attached) (h_parts s) with p :: _ => Some (p, h_daily s, h_pruned s) | [] => None end.

Definition pruneOldest (c : RetentionConfig) : M bool :=
  let! oldest := query first_attached in
  match oldest with
  | None => ret false
  | Some (p, dsw, through) =>
      let sfx := p_lo p in
      if match p_hi p with Some hi => (0 <? through) && (hi - 1 <=? through) | None => false end then
        let! _ := update (λ s, set_parts ((λ q, if decide (p_lo q = sfx ∧ p_state q = Attached) then mkPart (p_lo q) (p_hi q) Detaching else q)
                                          <$> h_parts s) s) in
        ret true
      else
        let! head := query GetLatestBlockNumber in
        match p_hi p, dsw with
        | Some hi, Some dsw =>
            if head <? RetainBlocks c then ret false
            else
              let last := u64 (hi - 1) in
              if (head - RetainBlocks c <? last) || (head <? last +₆₄ prune_floor_gap) || (dsw <? hi - 1) then ret false
              else
                let! old := query (history_range_before_reorg_day sfx) in
                if negb old then ret false
                else
                  let! backfilling := query h_backfilling in
                  if backfilling : bool then ret false
                  else
                    let! closed := query (λ s, bool_decide (hi ∈ h_spans s)) in
                    if negb closed then ret false
                    else
                      let! complete := query (history_range_complete sfx) in
                      if negb complete then ret false
                      else let! _ := exec lost (prune_advance sfx) in ret true
        | _, _ => ret false
        end
  end.

(** ** Detach, archive, drop *)

Definition gate : M unit := exec (λ s, (s, GateBusy)) (λ s, Ok (s, tt)).

(** [DETACH ... CONCURRENTLY], or [FINALIZE] for a pending one; a wait that runs
    out leaves it pending. Its rows leave the parent at once. *)
Definition set_at (t : htable) (sfx : option Z) (a : attachment) (s : history) : history :=
  set_tables (alter (λ T, mkTable a (t_rows T)) (t, sfx) (h_tables s)) s.
Definition inherited (t : htable) (sfx : option Z) (s : history) : bool :=
  match h_tables s !! (t, sfx) with Some T => negb (bool_decide (t_at T = Apart)) | None => false end.
Fixpoint detach_tables (ts : list htable) (sfx : option Z) : M unit :=
  match ts with
  | [] => ret tt
  | t :: ts =>
      let! there := query (inherited t sfx) in
      let! _ := (if there : bool
                 then exec (λ s, (if inherited t sfx s then set_at t sfx Pending s else s, ReadersBusy)) (λ s, Ok (if inherited t sfx s then set_at t sfx Apart s else s, tt))
                 else ret tt) in
      detach_tables ts sfx
  end.
Definition detachRange (sfx : option Z) : M unit :=
  let! _ := detach_tables HistoryTables sfx in
  update (set_state sfx Detached).

(** The file is complete before its record. *)
Fixpoint archive_tables (ts : list htable) (sfx : option Z) : M unit :=
  match ts with
  | [] => ret tt
  | t :: ts =>
      let! recorded := query (λ s, bool_decide (is_Some (h_archives s !! (t, sfx)))) in
      if recorded : bool then archive_tables ts sfx
      else
        let! rows := exec lost (λ s, match h_tables s !! (t, sfx) with Some T => Ok (s, t_rows T) | None => Err SqlRefused end) in
        let! _ := exec lost (λ s, match h_archives s !! (t, sfx) with
                                  | Some _ => Err SqlRefused
                                  | None => Ok (set_archives (<[(t, sfx) := rows]> (h_archives s)) s, tt)
                                  end) in
        archive_tables ts sfx
  end.
Definition archiveRange (sfx : option Z) : M unit := archive_tables HistoryTables sfx.

(** Whether objects outside the indexer depend on the range's tables is up to them. *)
Context (dependents : nat → bool).
Fixpoint drop_tables (ts : list htable) (sfx : option Z) : M unit :=
  match ts with
  | [] => ret tt
  | t :: ts => let! _ := exec (λ s, (s, ReadersBusy)) (λ s, Ok (set_tables (delete (t, sfx) (h_tables s)) s, tt)) in drop_tables ts sfx
  end.
Definition dropRange (sfx : option Z) : M unit :=
  let! deps := (λ k s, query (λ _, dependents k) k s) in
  if deps : bool then fail HasDependents
  else
    let! _ := drop_tables HistoryTables sfx in
    update (λ s, set_parts (filter (λ p, p_lo p ≠ sfx) (h_parts s)) s).

(** [underGate]: [false] when the closer or a reader outlasted the wait. *)
Definition underGate (m : M unit) : M bool :=
  let! g := caught gate in
  match g with
  | Err GateBusy => ret false
  | Err e => fail e
  | Ok _ => let! r := caught m in
            match r with Ok _ => ret true | Err ReadersBusy => ret false | Err e => fail e end
  end.

Definition not_attached (s : history) : list (option Z * part_state) :=
  (λ p, (p_lo p, p_state p)) <$> filter (λ p, p_state p ≠ Attached) (h_parts s).

Fixpoint finish_ranges (c : RetentionConfig) (l : list (option Z * part_state)) : M bool :=
  match l with
  | [] => ret true
  | (sfx, st) :: l =>
      let! ok := (if decide (st = Detaching) then underGate (detachRange sfx) else ret true) in
      if negb ok then ret false
      else
        let! _ := (if archiving c then archiveRange sfx else ret tt) in
        let! r := caught (underGate (dropRange sfx)) in
        match r with
        | Err HasDependents => finish_ranges c l
        | Err e => fail e
        | Ok false => ret false
        | Ok true => finish_ranges c l
        end
  end.
Definition finishDetached (c : RetentionConfig) : M bool :=
  let! l := query not_attached in finish_ranges c l.

(** ** The cut *)

(** The attempts at one DDL transaction: [more] is asked before each, and carries
    what its callers capture. [holder] is a transaction that keeps the tables. *)
Definition holder : M unit := exec (λ s, (s, Lost)) (λ s, Ok (s, tt)).
Fixpoint withLockTimeoutWhile {A} (fuel : nat) (attempt : Z) (more : Z → A → M (bool * A)) (fn : history → res rerr (history * unit))
    (last : res rerr unit) (a : A) : M (res rerr unit * A) :=
  match fuel with
  | O => fail GaveUp
  | S fuel =>
      let! m := caught (more attempt a) in
      match m with
      | Err e => ret (Err e, a)
      | Ok (false, a) => ret (last, a)
      | Ok (true, a) =>
          let! r := caught (let! _ := holder in exec lost fn) in
          match r with
          | Ok _ => ret (Ok tt, a)
          | Err e => withLockTimeoutWhile fuel (attempt + 1) more fn (Err e) a
          end
      end
  end.
Definition up_to (tries attempt : Z) (u : unit) : M (bool * unit) := ret (attempt <=? tries, tt).
Definition withLockTimeout (tries : nat) (fn : history → res rerr (history * unit)) : M unit :=
  let! (r, _) := withLockTimeoutWhile (S tries) 1 (up_to (Z.of_nat tries)) fn (Ok tt) tt in
  match r with Ok _ => ret tt | Err e => fail e end.

Definition history_cut_constrain (cutAt : Z) (s : history) : res rerr (history * unit) :=
  Ok (set_checks (foldr (λ t m, <[t := (cutAt, false)]> m) (h_checks s) HistoryTables) s, tt).
Definition validate (t : htable) (s : history) : res rerr (history * unit) :=
  match h_checks s !! t, h_tables s !! (t, None) with
  | Some (cutAt, _), Some T =>
      if bool_decide (map_Forall (λ n _, n < cutAt) (t_rows T)) then Ok (set_checks (<[t := (cutAt, true)]> (h_checks s)) s, tt)
      else Err SqlRefused
  | _, _ => Err SqlRefused
  end.
Definition history_cut_finish (cutAt size : Z) (s : history) : res rerr (history * unit) :=
  if HistoryCut s || negb (forallb (λ t, bool_decide (h_checks s !! t = Some (cutAt, true))) HistoryTables) then Err SqlRefused
  else
    let s := set_parts ((λ p, if decide (p_lo p = None) then mkPart None (Some cutAt) (p_state p) else p) <$> h_parts s) s in
    try s := history_partition_create cutAt (cutAt + size) s in Ok (s, tt).

Definition nextCutMargin (prev advanced : Z) : Z := Z.max (u64 (2 * prev)) (u64 (2 * advanced)).

Fixpoint drop_checks (tries : nat) (ts : list htable) : M unit :=
  match ts with
  | [] => ret tt
  | t :: ts =>
      let! there := query (λ s, bool_decide (is_Some (h_checks s !! t))) in
      let! _ := (if there : bool then withLockTimeout tries (λ s, Ok (set_checks (delete t (h_checks s)) s, tt)) else ret tt) in
      drop_checks tries ts
  end.
Definition dropCutChecks (tries : nat) : M unit :=
  let! cut := query HistoryCut in
  if cut : bool then ret tt else drop_checks tries HistoryTables.

(** [Some head]: the head came within a partition of the cut. *)
Fixpoint validate_tables (ts : list htable) (cutAt : Z) (c : RetentionConfig) : M (option Z) :=
  match ts with
  | [] => ret None
  | t :: ts =>
      let! _ := exec lost (validate t) in
      let! head := query GetLatestBlockNumber in
      if cutAt <=? head +₆₄ PartitionBlocks c then ret (Some head) else validate_tables ts cutAt c
  end.

(** The finish is attempted while the head stays below: [fuel] attempts. *)
Definition head_below (cutAt : Z) (c : RetentionConfig) (attempt : Z) (near : option Z) : M (bool * option Z) :=
  if attempt =? 1 then ret (true, near)
  else let! head := query GetLatestBlockNumber in
       if cutAt <=? head +₆₄ PartitionBlocks c then ret (false, Some head) else ret (true, None).
Definition finish_cut (fuel : nat) (cutAt : Z) (c : RetentionConfig) : M (res rerr unit * option Z) :=
  withLockTimeoutWhile fuel 1 (head_below cutAt c) (history_cut_finish cutAt (PartitionBlocks c)) (Ok tt) None.

(** The next [DB.cutMargin], and why the cut was abandoned. *)
Definition cut_at (head margin : Z) (node : option Z) (c : RetentionConfig) : Z :=
  u64 ((match node with Some n => if head <? n then n else head | None => head end) + 2 * PartitionBlocks c + margin).
Definition abandoned (head margin : Z) (near : option Z) (e : rerr) : Z * option rerr :=
  (match near with Some h => nextCutMargin margin (h -₆₄ head) | None => margin end, Some e).
Definition cutHistory (fuel : nat) (node : option Z) (margin : Z) (c : RetentionConfig) : M (Z * option rerr) :=
  let! _ := gate in
  let! head := query GetLatestBlockNumber in
  let cutAt := cut_at head margin node c in
  let! _ := query (λ _, tt) in  (* rangeDependents, logged *)
  let! _ := withLockTimeout 20 (history_cut_constrain cutAt) in
  let! r := caught (let! near := validate_tables HistoryTables cutAt c in
                    match near with
                    | Some h => ret (Err HeadNearCut, Some h)
                    | None => finish_cut fuel cutAt c
                    end) in
  match r with
  | Ok (Ok _, _) => ret (margin, None)
  | Ok (Err e, near) => let! _ := caught (dropCutChecks 20) in ret (abandoned head margin near e)
  | Err e => let! _ := caught (dropCutChecks 20) in ret (abandoned head margin None e)
  end.

(** Retried until nothing holds the tables: [fuel] rounds. *)
Fixpoint releaseLeftoverCut (fuel : nat) : M unit :=
  match fuel with
  | O => fail GaveUp
  | S fuel => let! r := caught (let! _ := gate in dropCutChecks 20) in
              match r with Ok _ => ret tt | Err _ => releaseLeftoverCut fuel end
  end.

(** At the start, once: while something holds the tables the check stays. *)
Definition ReleaseAbandonedCut : M unit :=
  let! _ := gate in
  let! _ := caught (dropCutChecks 1) in
  ret tt.

(** ** One pass *)

(** Every round prunes a range: as many rounds as there are ranges. *)
Fixpoint prune_loop (fuel : nat) (c : RetentionConfig) : M unit :=
  match fuel with
  | O => fail GaveUp
  | S fuel =>
      let! pruned := pruneOldest c in
      if negb pruned then ret tt
      else let! finished := finishDetached c in
           if finished : bool then prune_loop fuel c else ret tt
  end.

(** The next [DB.cutMargin], and the error of a cut. *)
Definition cut_first (fuel : nat) (node : option Z) (margin : Z) (c : RetentionConfig) : M (Z * option rerr) :=
  let! cut := query HistoryCut in
  if cut : bool then ret (margin, None)
  else
    let! _ := releaseLeftoverCut fuel in
    let! r := caught (cutHistory fuel node margin c) in
    let r := match r with Ok r => r | Err e => (margin, Some e) end in
    match r.2 with
    | None => ret r
    | Some _ => let! _ := caught (releaseLeftoverCut fuel) in ret r
    end.

Definition retentionPass (fuel : nat) (node : option Z) (margin : Z) (c : RetentionConfig) : M (Z * option rerr) :=
  let! r := cut_first fuel node margin c in
  match r.2 with
  | Some _ => ret r
  | None =>
      let! head := query GetLatestBlockNumber in
      let! _ := EnsurePartitionsAhead head (PartitionBlocks c) in
      if RetainBlocks c =? 0 then ret r
      else
        let! finished := finishDetached c in
        let! _ := (if finished : bool then prune_loop fuel c else ret tt) in
        ret r
  end.
End Retention.
