(* ===== verification/RetentionSafe.v ===== *)
(** * Retention loses nothing it should keep

    A program logic for the statements of [Retention] with the other sessions
    between them: [inv] holds of the history whenever a statement runs, [keeps]
    relates the history before and after any number of statements, and [triple]
    composes them. *)

From S2P Require Import Prelude SqlOrder Retention.

(** ** What the other sessions do *)

(** A row of table [t] in the partition it belongs to: refused without one, and by
    the check of a cut in progress. *)
Definition holds (p : partition) (n : Z) : Prop :=
  (∀ lo, p_lo p = Some lo → lo ≤ n) ∧ (∀ hi, p_hi p = Some hi → n < hi).

Definition admitted (t : htable) (n : Z) (p : partition) (s : history) : Prop :=
  p_lo p = None → ∀ c v, h_checks s !! t = Some (c, v) → n < c.

Definition add_row (t : htable) (p : partition) (n x : Z) (s : history) : history :=
  set_tables (alter (λ T, mkTable (t_at T) (<[n := x]> (t_rows T))) (t, p_lo p) (h_tables s)) s.

(** Ingest adds a row; the ledger closer, the daily statistics and the missing
    ranges move; the other goroutine of retention keeps partitions ahead. Nothing
    is reverted. *)
Inductive env_step : history → history → Prop :=
| env_row t p T n x s :
    p ∈ h_parts s → h_tables s !! (t, p_lo p) = Some T → t_at T = InParent → t_rows T !! n = None → holds p n → 0 ≤ n < 2 ^ 62 →
    admitted t n p s → env_step s (add_row t p n x s)
| env_other spans daily missing backfilling s :
    (h_pruned s + 1 ∈ h_spans s → h_pruned s + 1 ∈ spans) →
    env_step s (mkHistory (h_parts s) (h_tables s) (h_pruned s) (h_pruned_ts s) spans daily missing backfilling (h_archives s) (h_checks s))
| env_gap lo hi s s' :
    lo < hi → history_from s ≤ lo → existsb (overlaps lo hi) (h_parts s) = false → history_partition_create lo hi s = Ok s' → env_step s s'
| env_ahead upto size made s s' : 0 < size → history_partitions_ensure upto size s = Ok (s', made) → env_step s s'.

(** ** The invariant *)

Definition visible (s : history) (t : htable) (n x : Z) : Prop :=
  ∃ sfx T, h_tables s !! (t, sfx) = Some T ∧ t_at T = InParent ∧ t_rows T !! n = Some x.
(** In a partition, attached or not, or in an archive. *)
Definition kept (s : history) (t : htable) (n x : Z) : Prop :=
  (∃ sfx T, h_tables s !! (t, sfx) = Some T ∧ t_rows T !! n = Some x) ∨
  (∃ sfx R, h_archives s !! (t, sfx) = Some R ∧ R !! n = Some x).

(** The order of the catalogue: by [lo], NULL first. *)
Definition part_lt (p q : partition) : Prop := default (-1) (p_lo p) < default (-1) (p_lo q).

Record inv (s : history) : Prop := {
  v_names : NoDup (p_lo <$> h_parts s);
  v_bounds : ∀ p, p ∈ h_parts s → (p_hi p = None → p_lo p = None) ∧ (∀ lo, p_lo p = Some lo → 0 ≤ lo) ∧ (∀ hi, p_hi p = Some hi → 1 < hi ∧ ∀ lo, p_lo p = Some lo → lo < hi) ∧
    (p_state p ≠ Attached → ∃ hi, p_hi p = Some hi ∧ hi - 1 ≤ h_pruned s);
  v_tables : ∀ t sfx T, h_tables s !! (t, sfx) = Some T → ∃ p, p ∈ h_parts s ∧ p_lo p = sfx ∧
    (∀ n x, t_rows T !! n = Some x → holds p n ∧ 0 ≤ n < 2 ^ 62) ∧ (t_at T ≠ InParent → p_state p ≠ Attached) ∧ (p_state p = Detached → t_at T = Apart);
  v_archives : ∀ t sfx R, h_archives s !! (t, sfx) = Some R →
    (∀ lo, sfx = Some lo → lo < history_from s) ∧ ∀ T, h_tables s !! (t, sfx) = Some T → t_at T = Apart ∧ t_rows T = R;
  v_top : ∃ p, p ∈ h_parts s ∧ p_state p = Attached ∧ ∀ hi, p_hi p = Some hi → h_pruned s + 1 < hi;
  v_legacy : 0 < h_pruned s ∨ ∃ p, p ∈ h_parts s ∧ p_lo p = None;
  v_uncut : HistoryCut s = false → h_pruned s = 0;
  v_checks : ∀ t c T, h_checks s !! t = Some (c, true) → h_tables s !! (t, None) = Some T → map_Forall (λ n _, n < c) (t_rows T);
  v_pruned : 0 ≤ h_pruned s;
  v_ledger : 0 < h_pruned s → h_pruned s + 1 ∈ h_spans s;
  v_present : ∀ p t, p ∈ h_parts s → p_state p = Attached → ∃ T, h_tables s !! (t, p_lo p) = Some T ∧ t_at T = InParent;
  v_sorted : StronglySorted part_lt (h_parts s) }.

(** ** What any number of statements keeps *)

Section Keeps.
Context (archived_first : bool).

Record keeps (s s' : history) : Prop := {
  k_pruned : h_pruned s ≤ h_pruned s';
  k_parts : ∀ q, q ∈ h_parts s' →
    (∃ p, p ∈ h_parts s ∧ p_lo p = p_lo q ∧ (p_state p ≠ Attached → p_state q ≠ Attached) ∧ (∀ hi, p_hi p = Some hi → p_hi q = Some hi)) ∨
    (∃ lo, p_lo q = Some lo ∧ history_from s ≤ lo);
  k_tables : ∀ t sfx T', h_tables s' !! (t, sfx) = Some T' →
    (∃ T, h_tables s !! (t, sfx) = Some T ∧ (t_at T = Apart → T' = T)) ∨ (∃ lo, sfx = Some lo ∧ history_from s ≤ lo);
  k_archives : h_archives s ⊆ h_archives s';
  k_visible : ∀ t n x, visible s t n x → h_pruned s' < n → visible s' t n x;
  k_kept : archived_first = true → ∀ t n x, kept s t n x → kept s' t n x }.

Lemma history_from_mono s s' : h_pruned s ≤ h_pruned s' → history_from s ≤ history_from s'.
Proof. unfold history_from. destruct (Z.ltb_spec 0 (h_pruned s)), (Z.ltb_spec 0 (h_pruned s')); lia. Qed.

Lemma kept_refl s : keeps s s.
Proof.
  split; try done; try lia.
  - intros q Hq. left. exists q. done.
  - intros t sfx T' HT. left. exists T'. done.
Qed.

Lemma keeps_trans s1 s2 s3 : keeps s1 s2 → keeps s2 s3 → keeps s1 s3.
Proof.
  intros [A1 A2 A3 A4 A5 A6] [B1 B2 B3 B4 B5 B6]. split.
  - lia.
  - intros r Hr. destruct (B2 r Hr) as [(q & Hq & Elo & Hst & Hhi)|(lo & Elo & Hlo)].
    + destruct (A2 q Hq) as [(p & Hp & Elo' & Hst' & Hhi')|(lo & Elo' & Hlo)]; [left|right].
      * exists p. split; [done|]. split; [congruence|]. split; auto.
      * exists lo. split; [congruence|done].
    + right. exists lo. split; [done|]. pose proof (history_from_mono _ _ A1). lia.
  - intros t sfx T HT. destruct (B3 _ _ _ HT) as [(T2 & HT2 & E2)|(lo & -> & Hlo)].
    + destruct (A3 _ _ _ HT2) as [(T1 & HT1 & E1)|?]; [left|by right]. exists T1. split; [done|]. intros Ha.
      rewrite E2; [by apply E1|]. by rewrite (E1 Ha).
    + right. exists lo. split; [done|]. pose proof (history_from_mono _ _ A1). lia.
  - by transitivity (h_archives s2).
  - intros t n x Hv Hn. apply B5; [|done]. apply A5; [done|lia].
  - intros Ha t n x Hk. by apply B6, A6.
Qed.

#[export] Instance keeps_preorder : PreOrder keeps.
Proof. split; [intros s; apply kept_refl|intros s1 s2 s3; apply keeps_trans]. Qed.
End Keeps.

(** ** Assertions that stay true *)

(** A range past the watermark: never attached again. *)
Record retired (sfx : option Z) (s : history) : Prop := {
  r_state : ∀ p, p ∈ h_parts s → p_lo p = sfx → p_state p ≠ Attached;
  r_below : ∀ lo, sfx = Some lo → lo < history_from s }.
Definition spent (sfx : option Z) (s : history) : Prop :=
  (∀ p, p ∈ h_parts s → p_lo p = sfx → ∃ hi, p_hi p = Some hi ∧ hi - 1 ≤ h_pruned s) ∧ (∀ lo, sfx = Some lo → lo < history_from s).
Definition apart_in (ts : list htable) (sfx : option Z) (s : history) : Prop :=
  ∀ t T, t ∈ ts → h_tables s !! (t, sfx) = Some T → t_at T = Apart.
Definition archived_in (ts : list htable) (sfx : option Z) (s : history) : Prop := ∀ t, t ∈ ts → is_Some (h_archives s !! (t, sfx)).
Definition dropped_in (ts : list htable) (sfx : option Z) (s : history) : Prop := ∀ t, t ∈ ts → h_tables s !! (t, sfx) = None.

Section Stable.
Context (b : bool).
Definition stable (P : history → Prop) : Prop := ∀ s s', keeps b s s' → P s → P s'.

Lemma stable_and (P Q : history → Prop) : stable P → stable Q → stable (λ s, P s ∧ Q s).
Proof. intros HP HQ s s' Hk [? ?]. split; eauto. Qed.
Lemma stable_pure (P : Prop) : stable (λ _, P).
Proof. intros s s' _ H. exact H. Qed.
Lemma stable_impl (P : Prop) (Q : history → Prop) : stable Q → stable (λ s, P → Q s).
Proof. intros HQ s s' Hk HPQ HP. eauto. Qed.

Lemma retired_stable sfx : stable (retired sfx).
Proof.
  intros s s' Hk [H1 H2]. pose proof (history_from_mono _ _ (k_pruned _ _ _ Hk)). split.
  - intros q Hq E. destruct (k_parts _ _ _ Hk q Hq) as [(p & Hp & Elo & Hst & _)|(lo & Elo & Hlo)].
    + apply Hst, (H1 p Hp). congruence.
    + specialize (H2 lo ltac:(congruence)). lia.
  - intros lo E. specialize (H2 lo E). lia.
Qed.

Lemma spent_stable sfx : stable (spent sfx).
Proof.
  intros s s' Hk [H1 H2]. pose proof (k_pruned _ _ _ Hk). pose proof (history_from_mono _ _ (k_pruned _ _ _ Hk)). split.
  - intros q Hq E. destruct (k_parts _ _ _ Hk q Hq) as [(p & Hp & Elo & _ & Hhi)|(lo & Elo & Hlo)].
    + destruct (H1 p Hp ltac:(congruence)) as (hi & Eh & ?). exists hi. split; [auto|lia].
    + specialize (H2 lo ltac:(congruence)). lia.
  - intros lo E. specialize (H2 lo E). lia.
Qed.

Lemma apart_stable ts sfx : stable (λ s, retired sfx s ∧ apart_in ts sfx s).
Proof.
  intros s s' Hk [Hr Ha]. split; [by eapply retired_stable|]. intros t T Ht HT.
  destruct (k_tables _ _ _ Hk _ _ _ HT) as [(T0 & HT0 & E)|(lo & -> & Hlo)].
  - rewrite E; eauto.
  - destruct Hr as [_ H2]. specialize (H2 lo eq_refl). lia.
Qed.

Lemma dropped_stable ts sfx : stable (λ s, retired sfx s ∧ dropped_in ts sfx s).
Proof.
  intros s s' Hk [Hr Ha]. split; [by eapply retired_stable|]. intros t Ht. destruct (h_tables s' !! (t, sfx)) as [T|] eqn:E; [|done].
  destruct (k_tables _ _ _ Hk _ _ _ E) as [(T0 & HT0 & _)|(lo & -> & Hlo)].
  - by rewrite (Ha t Ht) in HT0.
  - destruct Hr as [_ H2]. specialize (H2 lo eq_refl). lia.
Qed.

Lemma archived_stable ts sfx : stable (archived_in ts sfx).
Proof. intros s s' Hk Ha t Ht. destruct (Ha t Ht) as [R HR]. exists R. by eapply lookup_weaken, (k_archives _ _ _ Hk). Qed.
End Stable.
Create HintDb retention.
#[export] Hint Resolve stable_and stable_pure stable_impl retired_stable spent_stable apart_stable dropped_stable archived_stable : retention.

(** ** Each operation *)

Lemma elem_of_HistoryTables t : t ∈ HistoryTables.
Proof. destruct t; repeat (first [left|right]). Qed.

Lemma insert_part_perm p l : insert_part p l ≡ₚ p :: l.
Proof. induction l as [|q l IH]; [done|]. cbn. destruct (_ <? _); [done|]. rewrite IH. constructor. Qed.

Lemma foldr_create_lookup (lo : Z) (m : gmap (htable * option Z) ptable) ts t sfx :
  foldr (λ t m, <[(t, Some lo) := mkTable InParent ∅]> m) m ts !! (t, sfx) =
  if decide (sfx = Some lo ∧ t ∈ ts) then Some (mkTable InParent ∅) else m !! (t, sfx).
Proof.
  induction ts as [|t' ts IH]; cbn.
  - rewrite decide_False; [done|]. intros [_ H]. by apply not_elem_of_nil in H.
  - destruct (decide ((t', Some lo) = (t, sfx))) as [[= -> <-]|Hne].
    + rewrite lookup_insert_eq, decide_True; [done|]. split; [done|left].
    + rewrite lookup_insert_ne by done. rewrite IH. destruct (decide (sfx = Some lo ∧ t ∈ ts)) as [[-> Ht]|Hn].
      * rewrite decide_True; [done|]. split; [done|by right].
      * rewrite decide_False; [done|]. intros [-> [->|Ht]%elem_of_cons]; [done|]. by apply Hn.
Qed.

Lemma of_suffix_Some sfx s p : of_suffix sfx s = Some p → p ∈ h_parts s ∧ p_lo p = sfx.
Proof.
  unfold of_suffix. destruct (list_find _ _) as [[i q]|] eqn:E; [|done]. cbn. intros [= ->].
  apply list_find_Some in E as (E & ? & _). split; [by eapply list_elem_of_lookup_2|done].
Qed.
Lemma of_suffix_None sfx s p : of_suffix sfx s = None → p ∈ h_parts s → p_lo p ≠ sfx.
Proof.
  unfold of_suffix. destruct (list_find _ _) as [[i q]|] eqn:E; [done|]. intros _ Hp Hlo.
  apply list_find_None in E. rewrite Forall_forall in E. by apply (E p).
Qed.

Lemma insert_part_sorted p l : (∀ q, q ∈ l → default (-1) (p_lo q) ≠ default (-1) (p_lo p)) →
  StronglySorted part_lt l → StronglySorted part_lt (insert_part p l).
Proof.
  intros Hne Hs. induction Hs as [|q l Hs IH Hall]; cbn; [by repeat constructor|].
  pose proof (Hne q ltac:(left)) as Hq. destruct (Z.ltb_spec (default (-1) (p_lo p)) (default (-1) (p_lo q))) as [Hlt|Hle].
  - constructor; [by constructor|]. constructor; [done|]. eapply Forall_impl; [exact Hall|]. unfold part_lt. intros r ?. lia.
  - constructor; [apply IH; intros r Hr; apply Hne; by right|]. rewrite insert_part_perm. constructor; [unfold part_lt; lia|done].
Qed.

Lemma sorted_fmap (f : partition → partition) l : (∀ p, p ∈ l → p_lo (f p) = p_lo p) → StronglySorted part_lt l → StronglySorted part_lt (f <$> l).
Proof.
  intros Hf Hs. induction Hs as [|p l Hs IH Hall]; [constructor|]. rewrite fmap_cons. constructor; [apply IH; intros q Hq; apply Hf; by right|].
  rewrite Forall_forall in Hall |- *. intros r (q & -> & Hq)%list_elem_of_fmap. unfold part_lt.
  rewrite (Hf p ltac:(left)), (Hf q ltac:(by right)). by apply Hall.
Qed.

Record created (lo hi : Z) (s s' : history) : Prop := {
  c_parts : h_parts s' ≡ₚ mkPart (Some lo) (Some hi) Attached :: h_parts s;
  c_sorted : h_parts s' = insert_part (mkPart (Some lo) (Some hi) Attached) (h_parts s);
  c_fresh : (∀ p, p ∈ h_parts s → p_lo p ≠ Some lo) ∧ ∀ t, h_tables s !! (t, Some lo) = None;
  c_tables : ∀ t sfx, h_tables s' !! (t, sfx) = if decide (sfx = Some lo) then Some (mkTable InParent ∅) else h_tables s !! (t, sfx);
  c_same : h_pruned s' = h_pruned s ∧ h_archives s' = h_archives s ∧ h_checks s' = h_checks s ∧ h_spans s' = h_spans s }.

Lemma history_partition_create_Ok lo hi s s' : history_partition_create lo hi s = Ok s' → created lo hi s s'.
Proof.
  unfold history_partition_create. destruct (existsb _ HistoryTables) eqn:E1; [done|]. cbn [orb].
  case_bool_decide as E2; [done|]. intros [= <-]. apply eq_None_not_Some in E2. split.
  - apply insert_part_perm.
  - done.
  - split; [intros p Hp; by eapply of_suffix_None|]. intros t. apply eq_None_not_Some. intros Ht.
    assert (existsb (λ t, bool_decide (is_Some (h_tables s !! (t, Some lo))) ||
                   existsb (λ p, in_parent t s p && overlaps lo hi p) (h_parts s)) HistoryTables = true); [|congruence].
    apply existsb_exists. exists t. split; [apply list_elem_of_In, elem_of_HistoryTables|]. by rewrite bool_decide_eq_true_2.
  - intros t sfx. etrans; [exact (foldr_create_lookup lo (h_tables s) HistoryTables t sfx)|]. pose proof (elem_of_HistoryTables t).
    destruct (decide (sfx = Some lo)); [by rewrite decide_True|]. rewrite decide_False; [done|]. by intros [? _].
  - done.
Qed.

Lemma HistoryCut_false s : HistoryCut s = false ↔ ∃ p, p ∈ h_parts s ∧ p_lo p = None ∧ p_hi p = None.
Proof.
  unfold HistoryCut. rewrite negb_false_iff, bool_decide_eq_true, Exists_exists. done.
Qed.

Lemma create_keeps b lo hi s s' : inv s → history_from s ≤ lo → lo < hi → 1 < hi → created lo hi s s' → inv s' ∧ keeps b s s'.
Proof.
  intros [V1 V2 V3 V4 V5 V6 V7 V8 V9 V10 V11 V12] Hlo Hlt H1 [Cp Cq [Cf Cf'] Ct (Ep & Ea & Ec & Es)].
  assert (history_from s' = history_from s) as Ef by (unfold history_from; by rewrite Ep).
  assert (∀ p, p ∈ h_parts s' ↔ p = mkPart (Some lo) (Some hi) Attached ∨ p ∈ h_parts s) as Hin by (intros p; rewrite Cp; apply elem_of_cons).
  split; split; rewrite ?Ep, ?Ea, ?Ec, ?Ef, ?Es; try done.
  - rewrite Cp, fmap_cons, NoDup_cons. split; [|done]. intros (p & Hlo' & Hp)%list_elem_of_fmap. by apply (Cf p).
  - intros p [->|Hp]%Hin; [|auto]. cbn. split; [done|]. split; [intros l [= <-]; unfold history_from in Hlo; destruct (Z.ltb_spec 0 (h_pruned s)); lia|]. split; [|done]. intros h [= <-]. split; [done|]. by intros l [= <-].
  - intros t sfx T. rewrite Ct. case_decide as El.
    + intros [= <-]. exists (mkPart (Some lo) (Some hi) Attached). split; [apply Hin; by left|]. by cbn.
    + intros HT. destruct (V3 _ _ _ HT) as (p & Hp & ?). exists p. split; [apply Hin; by right|done].
  - intros t sfx R HR. destruct (V4 _ _ _ HR) as [Hb HT]. split; [done|]. intros T. rewrite Ct. case_decide as El; [|auto].
    specialize (Hb lo El). lia.
  - destruct V5 as (p & Hp & ?). exists p. split; [apply Hin; by right|done].
  - destruct V6 as [?|(p & Hp & ?)]; [by left|right]. exists p. split; [apply Hin; by right|done].
  - intros (p & [->|Hp]%Hin & E1 & E2)%HistoryCut_false; [done|]. apply V7, HistoryCut_false. eauto.
  - intros t c T Hc. rewrite Ct, decide_False by done. eauto.
  - intros p t [->|Hp]%Hin Hst; rewrite Ct; cbn; [rewrite decide_True by done; by eexists|]. rewrite decide_False by (by apply Cf). by apply V11.
  - rewrite Cq. apply insert_part_sorted; [|done]. intros q Hq. cbn. destruct (p_lo q) as [l|] eqn:E; cbn.
    + intros ->. by apply (Cf q).
    + unfold history_from in Hlo. destruct (Z.ltb_spec 0 (h_pruned s)); lia.
  - intros q [->|Hq]%Hin; [right; exists lo; done|left]. exists q. done.
  - intros t sfx T. rewrite Ct. case_decide as El; [right; exists lo; done|]. intros HT. left. exists T. done.
  - intros t n x (sfx & T & HT & ? & ?) _. exists sfx, T. rewrite Ct. rewrite decide_False; [done|]. intros ->. by rewrite Cf' in HT.
  - intros _ t n x [(sfx & T & HT & ?)|Hr]; [left|right; by rewrite Ea]. exists sfx, T. rewrite Ct, decide_False; [done|].
    intros ->. by rewrite Cf' in HT.
Qed.

Lemma max_list_spec l m : max_list l = Some m → m ∈ l ∧ ∀ x, x ∈ l → x ≤ m.
Proof.
  destruct l as [|y l]; [done|]. cbn. intros [= <-]. induction l as [|z l [H1 H2]]; cbn.
  - split; [left|]. intros x ->%list_elem_of_singleton. lia.
  - split.
    + destruct (Z.max_spec z (foldr Z.max y l)) as [[_ ->]|[_ ->]]; [set_solver|set_solver].
    + intros x Hx. destruct (decide (x = z)) as [->|]; [lia|]. specialize (H2 x ltac:(set_solver)). lia.
Qed.
Lemma max_list_None l : max_list l = None → l = [].
Proof. by destruct l. Qed.

Lemma top_bound_ge s p hi top : p ∈ h_parts s → p_hi p = Some hi → top_bound s = Some top → hi ≤ top.
Proof.
  intros Hp Hhi [_ H]%max_list_spec. apply H. apply list_elem_of_omap. eauto.
Qed.
Lemma top_bound_in s top : top_bound s = Some top → ∃ p, p ∈ h_parts s ∧ p_hi p = Some top.
Proof. intros [H _]%max_list_spec. apply list_elem_of_omap in H as (p & ? & ?). eauto. Qed.

(** A cut history is bounded above the watermark. *)
Lemma top_above s top : inv s → HistoryCut s = true → top_bound s = Some top → history_from s ≤ top ∧ 1 < top.
Proof.
  intros V Hc Ht. destruct (v_top s V) as (p & Hp & _ & Hhi). destruct (v_bounds s V p Hp) as (Hn & _ & Hb & _).
  destruct (p_hi p) as [hi|] eqn:E.
  - pose proof (top_bound_ge s p hi top Hp E Ht). specialize (Hhi hi eq_refl). destruct (Hb hi eq_refl) as [? _].
    unfold history_from. destruct (0 <? h_pruned s); split; lia.
  - assert (HistoryCut s = false); [|congruence]. apply HistoryCut_false. exists p. auto.
Qed.

Lemma ensure_loop_keeps b fuel top upto size made s s' made' : inv s → history_from s ≤ top → 1 < top → 0 < size →
  ensure_loop fuel top upto size made s = Ok (s', made') → inv s' ∧ keeps b s s'.
Proof.
  revert top made s. induction fuel as [|fuel IH]; intros top made s Hi Hf H1 Hsz; cbn [ensure_loop].
  - intros [= <- <-]. split; [done|reflexivity].
  - destruct (top <=? upto); [|intros [= <- <-]; split; [done|reflexivity]].
    destruct (history_partition_create top (top + size) s) as [s1|] eqn:E; [|done]. cbn [res_bind].
    apply history_partition_create_Ok in E. destruct (create_keeps b top (top + size) s s1 Hi Hf ltac:(lia) ltac:(lia) E) as [Hi1 Hk].
    intros H'. apply IH in H' as [? Hk']; [|done| |lia|done].
    + split; [done|]. by etrans.
    + destruct (c_same _ _ _ _ E) as [Ep _]. assert (history_from s1 = history_from s) as -> by (unfold history_from; by rewrite Ep). lia.
Qed.

Lemma ensure_keeps b upto size s s' made : inv s → 0 < size → history_partitions_ensure upto size s = Ok (s', made) → inv s' ∧ keeps b s s'.
Proof.
  intros Hi Hsz. unfold history_partitions_ensure. destruct (top_bound s) as [top|] eqn:Et.
  - destruct (HistoryCut s) eqn:Ec; cbn [negb]; [|intros [= <- <-]; split; [done|reflexivity]].
    destruct (Z.leb_spec size 0); [lia|]. destruct (top_above s top Hi Ec Et). apply ensure_loop_keeps; auto.
  - intros [= <- <-]. split; [done|reflexivity].
Qed.

(** A gap that no range overlaps starts above the legacy range. *)
Lemma overlaps_false lo hi s p : existsb (overlaps lo hi) (h_parts s) = false → p ∈ h_parts s → overlaps lo hi p = false.
Proof.
  intros E Hp. destruct (overlaps lo hi p) eqn:Eo; [|done]. assert (existsb (overlaps lo hi) (h_parts s) = true); [|congruence].
  apply existsb_exists. exists p. split; [by apply list_elem_of_In|done].
Qed.

Lemma gap_above lo hi s : inv s → lo < hi → history_from s ≤ lo → existsb (overlaps lo hi) (h_parts s) = false → 1 < hi.
Proof.
  intros V Hlt Hf Ho. destruct (v_legacy s V) as [Hp|(p & Hp & Hlo)].
  - unfold history_from in Hf. destruct (Z.ltb_spec 0 (h_pruned s)); lia.
  - pose proof (overlaps_false _ _ _ _ Ho Hp) as E. unfold overlaps in E. rewrite Hlo in E. cbn in E.
    destruct (Z.ltb_spec lo hi); [|lia]. cbn in E. destruct (p_hi p) as [h|] eqn:Eh; cbn in E.
    + destruct (v_bounds s V p Hp) as (_ & _ & Hb & _). destruct (Hb h Eh). destruct (Z.ltb_spec lo h); [done|lia].
    + destruct (Z.ltb_spec lo hi); [done|lia].
Qed.

Lemma gap_keeps b lo hi s s' : inv s → lo < hi → history_from s ≤ lo → existsb (overlaps lo hi) (h_parts s) = false →
  history_partition_create lo hi s = Ok s' → inv s' ∧ keeps b s s'.
Proof.
  intros V Hlt Hf Ho E. eapply create_keeps; eauto using gap_above. by apply history_partition_create_Ok.
Qed.

(** Changes outside the ranges, their rows, the archives and the watermark. *)
Lemma outside_keeps b s spans daily missing backfilling pts checks :
  (∀ t c T, checks !! t = Some (c, true) → h_tables s !! (t, None) = Some T → map_Forall (λ n _, n < c) (t_rows T)) →
  (h_pruned s + 1 ∈ h_spans s → h_pruned s + 1 ∈ spans) → inv s →
  let s' := mkHistory (h_parts s) (h_tables s) (h_pruned s) pts spans daily missing backfilling (h_archives s) checks in
  inv s' ∧ keeps b s s'.
Proof.
  intros Hc Hsp [V1 V2 V3 V4 V5 V6 V7 V8 V9 V10 V11 V12] s'. split; [split; try done; auto|]. split; try done.
  - intros q Hq. left. exists q. done.
  - intros t sfx T' HT. left. exists T'. done.
Qed.

(** A row ingest adds. *)
Lemma add_row_keeps b t p T n x s :
  p ∈ h_parts s → h_tables s !! (t, p_lo p) = Some T → t_at T = InParent → t_rows T !! n = None → holds p n → 0 ≤ n < 2 ^ 62 →
  admitted t n p s → inv s → inv (add_row t p n x s) ∧ keeps b s (add_row t p n x s).
Proof.
  intros Hp HT Hat Hfresh Hh Hn Had [V1 V2 V3 V4 V5 V6 V7 V8 V9 V10 V11 V12].
  assert (∀ t' sfx T', h_tables (add_row t p n x s) !! (t', sfx) = Some T' →
    (t' = t ∧ sfx = p_lo p ∧ T' = mkTable InParent (<[n := x]> (t_rows T))) ∨ h_tables s !! (t', sfx) = Some T') as Hinv.
  { intros t' sfx T'. cbn [add_row set_tables h_tables]. destruct (decide ((t, p_lo p) = (t', sfx))) as [[= <- <-]|Hne].
    - rewrite lookup_alter_eq, HT. cbn. intros [= <-]. left. by rewrite Hat.
    - rewrite lookup_alter_ne by done. by right. }
  assert (∀ t' sfx T', h_tables s !! (t', sfx) = Some T' →
    ∃ T1, h_tables (add_row t p n x s) !! (t', sfx) = Some T1 ∧ t_at T1 = t_at T' ∧ t_rows T' ⊆ t_rows T1) as Hkeep.
  { intros t' sfx T' HT'. cbn [add_row set_tables h_tables]. destruct (decide ((t, p_lo p) = (t', sfx))) as [[= <- <-]|Hne].
    - rewrite lookup_alter_eq, HT'. cbn. eexists. split; [done|]. cbn. split; [done|]. apply insert_subseteq. congruence.
    - rewrite lookup_alter_ne by done. exists T'. done. }
  split; split; try done.
  - intros t' sfx T' [(-> & -> & ->)|HT']%Hinv; [|by apply (V3 t')]. destruct (V3 _ _ _ HT) as (q & Hq & Elo & Hr & Hst & Hd).
    assert (q = p) as -> by by apply (NoDup_fmap_elem_inj p_lo (h_parts s)). exists p. split; [done|]. split; [done|]. split.
    + intros m y. cbn [t_rows]. intros [[<- <-]|[_ Hm]]%lookup_insert_Some; [done|]. eauto.
    + cbn. split; [done|]. intros Hx. apply Hd in Hx. congruence.
  - intros t' sfx R HR. destruct (V4 _ _ _ HR) as [? HA]. split; [done|]. intros T' [(-> & -> & ->)|HT']%Hinv; [|auto].
    destruct (HA _ HT). congruence.
  - intros t' c T' Hc [(-> & E & ->)|HT']%Hinv; [|by eapply V8]. apply map_Forall_insert_2; [|eapply V8; [done|by rewrite E]].
    by eapply Had.
  - intros q t' Hq Hst. destruct (V11 q t' Hq Hst) as (T' & HT' & Ha). destruct (Hkeep _ _ _ HT') as (T1 & HT1 & E1 & _). exists T1. split; [done|congruence].
  - intros q Hq. left. exists q. done.
  - intros t' sfx T' [(-> & -> & ->)|HT']%Hinv; left; [exists T; split; [done|congruence]|exists T'; done].
  - intros t' m y (sfx & T' & HT' & Ha & Hm) _. destruct (Hkeep _ _ _ HT') as (T1 & HT1 & E1 & Hs). exists sfx, T1. split; [done|].
    split; [congruence|]. by eapply lookup_weaken.
  - intros _ t' m y [(sfx & T' & HT' & Hm)|Hr]; [left|by right]. destruct (Hkeep _ _ _ HT') as (T1 & HT1 & _ & Hs). exists sfx, T1.
    split; [done|]. by eapply lookup_weaken.
Qed.

Lemma env_step_keeps b s s' : env_step s s' → inv s → inv s' ∧ keeps b s s'.
Proof.
  intros Hst Hi. destruct Hst as [t p T n x s ? ? ? ? ? ? ?|spans daily missing bf s ?|lo hi s s' ? ? ? ?|upto size made s s' ? ?].
  - by eapply add_row_keeps.
  - apply outside_keeps; [|done|done]. by apply (v_checks s).
  - by eapply gap_keeps.
  - by eapply ensure_keeps.
Qed.

Lemma env_steps_keep b s s' : rtc env_step s s' → inv s → inv s' ∧ keeps b s s'.
Proof.
  induction 1 as [s|s1 s2 s3 Hst _ IH]; intros Hi; [split; [done|reflexivity]|].
  destruct (env_step_keeps b _ _ Hst Hi) as [Hi2 Hk]. destruct (IH Hi2) as [? ?]. split; [done|]. by etrans.
Qed.

(** Changes of the states of ranges. *)
Lemma states_keep b (f : partition → partition) through pts missing s :
  let s' := set_pruned through pts missing (set_parts (f <$> h_parts s) s) in
  inv s → h_pruned s ≤ through →
  (∀ p, p ∈ h_parts s → p_lo (f p) = p_lo p ∧ p_hi (f p) = p_hi p ∧ (p_state p ≠ Attached → p_state (f p) ≠ Attached) ∧
    (p_state (f p) ≠ Attached → ∃ hi, p_hi p = Some hi ∧ hi - 1 ≤ through) ∧
    (p_state (f p) = Detached → ∀ t T, h_tables s !! (t, p_lo p) = Some T → t_at T = Apart)) →
  (∃ p, p ∈ h_parts s ∧ p_state (f p) = Attached ∧ ∀ hi, p_hi p = Some hi → through + 1 < hi) →
  (HistoryCut s = false → through = 0) → (0 < through → through + 1 ∈ h_spans s) → inv s' ∧ keeps b s s'.
Proof.
  intros s' [V1 V2 V3 V4 V5 V6 V7 V8 V9 V10 V11 V12] Hth Hf Htop Hun Hled.
  assert (∀ q, q ∈ h_parts s' ↔ ∃ p, q = f p ∧ p ∈ h_parts s) as Hin by (intros q; apply list_elem_of_fmap).
  assert (history_from s ≤ history_from s') as Hfrom by (by apply history_from_mono).
  assert (h_pruned s' = through) as Ep by done.
  split; split; try done; rewrite ?Ep.
  - cbn [s' set_pruned set_parts h_parts]. rewrite <-list_fmap_compose. erewrite list_fmap_ext; [exact V1|].
    intros i p Hp%list_elem_of_lookup_2. cbn. by apply Hf.
  - intros q (p & -> & Hp)%Hin. destruct (Hf p Hp) as (E1 & E2 & E3 & E4 & _). destruct (V2 p Hp) as (B1 & B0 & B2 & B3). rewrite E1, E2.
    split_and!; [done|done|done|]. intros Hq. destruct (E4 Hq) as (hi & ? & ?). eauto.
  - intros t sfx T HT. destruct (V3 _ _ _ HT) as (p & Hp & Elo & Hr & Ha & Hd). destruct (Hf p Hp) as (E1 & E2 & E3 & _ & E5).
    exists (f p). split; [apply Hin; eauto|]. split; [congruence|]. split.
    + intros n x Hx. destruct (Hr n x Hx) as [[H1 H2] ?]. split; [|done]. split; [rewrite E1; done|rewrite E2; done].
    + split; [auto|]. intros Hx. eapply (E5 Hx t). by rewrite Elo.
  - intros t sfx R HR. destruct (V4 _ _ _ HR) as [Hlo HT]. split; [|done]. intros lo E. specialize (Hlo lo E). lia.
  - destruct Htop as (p & Hp & Hst & Hhi). exists (f p). split; [apply Hin; eauto|]. split; [done|].
    destruct (Hf p Hp) as (_ & -> & _). done.
  - destruct V6 as [?|(p & Hp & ?)]; [left; lia|right]. exists (f p). split; [apply Hin; eauto|]. destruct (Hf p Hp) as (-> & _). done.
  - intros (q & (p & -> & Hp)%Hin & E1 & E2)%HistoryCut_false. destruct (Hf p Hp) as (E3 & E4 & _). apply Hun, HistoryCut_false. exists p.
    split; [done|]. split; congruence.
  - lia.
  - intros q t (p & -> & Hp)%Hin Hst. destruct (Hf p Hp) as (-> & _ & E3 & _). apply V11; [done|].
    destruct (decide (p_state p = Attached)) as [|Hn]; [done|]. by apply E3 in Hn.
  - apply sorted_fmap; [|done]. intros p Hp. by apply Hf.
  - intros q (p & -> & Hp)%Hin. left. exists p. destruct (Hf p Hp) as (E1 & E2 & E3 & _). split_and!; [done|done|done|]. intros hi Eh. congruence.
  - intros t sfx T HT. left. exists T. done.
Qed.

Lemma same_range s p q : inv s → p ∈ h_parts s → q ∈ h_parts s → p_lo p = p_lo q → p = q.
Proof. intros V. apply (NoDup_fmap_elem_inj p_lo). apply (v_names s V). Qed.

Lemma detached_apart s p t T : inv s → p ∈ h_parts s → p_state p = Detached → h_tables s !! (t, p_lo p) = Some T → t_at T = Apart.
Proof.
  intros V Hp Hd HT. destruct (v_tables s V _ _ _ HT) as (q & Hq & Elo & _ & _ & Hdq).
  rewrite (same_range s q p V Hq Hp Elo) in Hdq. auto.
Qed.

(** The stored head is a row of an attached range. *)
Lemma stored_head_range s head : inv s → stored_head s = Some head →
  0 ≤ head < 2 ^ 62 ∧ ∃ q, q ∈ h_parts s ∧ holds q head ∧ (h_pruned s < head → p_state q = Attached).
Proof.
  intros V [Hin _]%max_list_spec. apply list_elem_of_fmap in Hin as ([n x] & -> & Hin). unfold block_rows in Hin.
  apply list_elem_of_bind in Hin as ([[t sfx] T] & Hr & HT%elem_of_map_to_list). cbn in *. case_decide as Ha; [|by apply not_elem_of_nil in Hr].
  destruct Ha as [-> Hat]. apply elem_of_map_to_list in Hr. destruct (v_tables s V _ _ _ HT) as (q & Hq & Elo & Hrow & _ & _).
  destruct (Hrow n x Hr) as [Hh Hb]. split; [done|]. exists q. split; [done|]. split; [done|]. intros Hlt.
  destruct (decide (p_state q = Attached)) as [|Hna]; [done|]. destruct (v_bounds s V q Hq) as (_ & _ & _ & Hd).
  destruct (Hd Hna) as (hi & Ehi & ?). destruct Hh as [_ Hh]. specialize (Hh hi Ehi). lia.
Qed.

Record advanced (sfx : option Z) (s : history) (hi : Z) : Prop := {
  a_part : ∃ p, p ∈ h_parts s ∧ p_lo p = sfx ∧ p_hi p = Some hi ∧ p_state p = Attached;
  a_oldest : ∀ q, q ∈ h_parts s → p_state q = Attached → default (-1) sfx ≤ default (-1) (p_lo q);
  a_head : ∃ head dsw, stored_head s = Some head ∧ h_daily s = Some dsw ∧ hi - 1 + prune_floor_gap ≤ head ∧ hi - 1 ≤ dsw;
  a_complete : history_range_complete sfx s = true;
  a_day : history_range_before_reorg_day sfx s = true;
  a_closed : hi ∈ h_spans s }.

Lemma prune_advance_Ok sfx s s' wm : prune_advance sfx s = Ok (s', wm) →
  advanced sfx s (wm + 1) ∧ ∃ pts missing, s' = set_pruned (Z.max (h_pruned s) wm) pts missing (set_state sfx Detaching s).
Proof.
  unfold prune_advance. destruct (of_suffix sfx s) as [[lo [hi|] []]|] eqn:E; try done.
  apply of_suffix_Some in E as [Hp Elo]. cbn in Elo. subst lo.
  destruct (existsb _ _) eqn:Eo; [done|]. destruct (stored_head s) as [head|] eqn:Eh; [|done]. destruct (h_daily s) as [dsw|] eqn:Ed; [|done].
  destruct (_ || _) eqn:Eg; [done|]. rewrite !orb_false_iff, !negb_false_iff, bool_decide_eq_true, Z.ltb_ge in Eg.
  destruct Eg as [[[H1 H2] H3] H4]. intros [= <- <-]. split; [|by eexists _, _]. rewrite Z.sub_add. split; try done.
  - by eexists.
  - intros q Hq Hst. destruct (Z.lt_ge_cases (default (-1) (p_lo q)) (default (-1) sfx)) as [Hlt|]; [|lia].
    assert (existsb (λ p, bool_decide (p_state p = Attached) && (default (-1) (p_lo p) <? default (-1) sfx)) (h_parts s) = true); [|congruence].
    apply existsb_exists. exists q. split; [by apply list_elem_of_In|]. rewrite bool_decide_eq_true_2 by done. by apply Z.ltb_lt.
  - eexists _, _. split_and!; [done|done|lia|lia].
Qed.

Lemma advance_keeps b sfx s s' wm : inv s → prune_advance sfx s = Ok (s', wm) →
  inv s' ∧ keeps b s s' ∧ (∀ lo, sfx = Some lo → lo < history_from s').
Proof.
  intros V (Ha & pts & missing & ->)%prune_advance_Ok. destruct (a_part _ _ _ Ha) as (p & Hp & Elo & Ehi & Hst).
  destruct (a_head _ _ _ Ha) as (head & dsw & Eh & _ & Hfloor & _). unfold prune_floor_gap in Hfloor.
  destruct (v_bounds s V p Hp) as (_ & Hlo0 & Hb & _). destruct (Hb _ Ehi) as [H1 Hlt].
  assert (inv (set_pruned (Z.max (h_pruned s) wm) pts missing (set_state sfx Detaching s)) ∧
    keeps b s (set_pruned (Z.max (h_pruned s) wm) pts missing (set_state sfx Detaching s))) as [? ?].
  { apply states_keep; [done|lia| | | |].
    - intros q Hq. destruct (v_bounds s V q Hq) as (_ & _ & _ & Hna). case_decide as Eq; cbn.
      + rewrite (same_range s q p V Hq Hp) by congruence. split_and!; try done. intros _. exists (wm + 1). split; [done|lia].
      + split_and!; try done; [|intros Hd t T; by eapply detached_apart]. intros Hs. destruct (Hna Hs) as (h & ? & ?). exists h. split; [done|lia].
    - destruct (stored_head_range s head V Eh) as (_ & q & Hq & [_ Hh] & Hatt). destruct (v_top s V) as (q' & Hq' & Hst' & Hhi').
      destruct (Z.le_gt_cases wm (h_pruned s)) as [Hw|Hw].
      + exists q'. split; [done|]. rewrite decide_False; [split; [done|]; intros h Eh'; specialize (Hhi' h Eh'); lia|].
        intros E. rewrite (same_range s q' p V Hq' Hp) in Hhi' by congruence. specialize (Hhi' _ Ehi). lia.
      + exists q. split; [done|]. rewrite decide_False.
        * split; [apply Hatt; lia|]. intros h Eh'. specialize (Hh h Eh'). lia.
        * intros E. rewrite (same_range s q p V Hq Hp) in Hh by congruence. specialize (Hh _ Ehi). lia.
    - intros (p0 & Hp0 & E1 & E2)%HistoryCut_false. exfalso. destruct (v_bounds s V p0 Hp0) as (_ & _ & _ & Hna).
      assert (p_state p0 = Attached) as Hs0. { destruct (decide (p_state p0 = Attached)); [done|]. destruct Hna as (? & ? & _); [done|congruence]. }
      pose proof (a_oldest _ _ _ Ha p0 Hp0 Hs0) as Hold. rewrite E1 in Hold. cbn in Hold. destruct sfx as [lo|]; cbn in Hold.
      + specialize (Hlo0 lo Elo). lia.
      + rewrite (same_range s p p0 V Hp Hp0) in Ehi by congruence. congruence.
    - intros _. destruct (Z.max_spec (h_pruned s) wm) as [[? ->]|[? ->]]; [apply (a_closed _ _ _ Ha)|]. apply (v_ledger s V). lia. }
  split; [done|]. split; [done|]. intros lo ->. specialize (Hlt lo Elo). unfold history_from. cbn [set_pruned h_pruned].
  destruct (Z.ltb_spec 0 (Z.max (h_pruned s) wm)); lia.
Qed.

Definition detaching_if (sfx : option Z) (q : partition) : partition :=
  if decide (p_lo q = sfx ∧ p_state q = Attached) then mkPart (p_lo q) (p_hi q) Detaching else q.

Lemma detaching_keeps b sfx s : inv s → spent sfx s →
  inv (set_parts (detaching_if sfx <$> h_parts s) s) ∧ keeps b s (set_parts (detaching_if sfx <$> h_parts s) s).
Proof.
  intros V [Hs _]. apply (states_keep b (detaching_if sfx) (h_pruned s) (h_pruned_ts s) (h_missing s) s V); [lia| | |apply (v_uncut s V)|apply (v_ledger s V)].
  - intros q Hq. destruct (v_bounds s V q Hq) as (_ & _ & _ & Hna). unfold detaching_if. case_decide as E; cbn.
    + destruct E as [E _]. split_and!; try done. intros _. by apply Hs.
    + split_and!; try done. intros Hd t T. by eapply detached_apart.
  - destruct (v_top s V) as (q & Hq & Hst & Hhi). exists q. split; [done|]. split; [|done]. unfold detaching_if.
    rewrite decide_False; [done|]. intros [E _]. destruct (Hs q Hq E) as (hi & Eh & ?). specialize (Hhi hi Eh). lia.
Qed.

Lemma detached_keeps b sfx s : inv s → retired sfx s → apart_in HistoryTables sfx s → inv (set_state sfx Detached s) ∧ keeps b s (set_state sfx Detached s).
Proof.
  intros V [Hr _] Ha.
  apply (states_keep b (λ p, if decide (p_lo p = sfx) then mkPart (p_lo p) (p_hi p) Detached else p) (h_pruned s) (h_pruned_ts s) (h_missing s) s V);
    [lia| | |apply (v_uncut s V)|apply (v_ledger s V)].
  - intros q Hq. destruct (v_bounds s V q Hq) as (_ & _ & _ & Hna). case_decide as E; cbn.
    + split_and!; try done; [intros _; apply Hna; by apply Hr|]. intros _ t T HT. eapply (Ha t T (elem_of_HistoryTables t)). by rewrite <-E.
    + split_and!; try done. intros Hd t T. by eapply detached_apart.
  - destruct (v_top s V) as (q & Hq & Hst & Hhi). exists q. split; [done|]. split; [|done].
    rewrite decide_False; [done|]. intros E. by apply (Hr q Hq E).
Qed.

(** A row of a retired range is at or below the watermark. *)
Lemma retired_rows s t sfx T n x : inv s → retired sfx s → h_tables s !! (t, sfx) = Some T → t_rows T !! n = Some x → n ≤ h_pruned s.
Proof.
  intros V [Hr _] HT Hn. destruct (v_tables s V _ _ _ HT) as (p & Hp & Elo & Hrow & _). destruct (Hrow n x Hn) as [[_ Hh] _].
  destruct (v_bounds s V p Hp) as (_ & _ & _ & Hna). destruct (Hna (Hr p Hp Elo)) as (hi & Eh & ?). specialize (Hh hi Eh). lia.
Qed.

Lemma set_at_keeps b t sfx a s : inv s → retired sfx s → inherited t sfx s = true → a ≠ InParent → inv (set_at t sfx a s) ∧ keeps b s (set_at t sfx a s).
Proof.
  intros V Hr Hin Ha. unfold inherited in Hin. destruct (h_tables s !! (t, sfx)) as [T|] eqn:HT; [|done].
  rewrite negb_true_iff, bool_decide_eq_false in Hin. pose proof (λ n x, retired_rows s t sfx T n x V Hr HT) as Hrows.
  destruct V as [V1 V2 V3 V4 V5 V6 V7 V8 V9 V10 V11 V12].
  assert (∀ t' sfx' T', h_tables (set_at t sfx a s) !! (t', sfx') = Some T' →
    (t' = t ∧ sfx' = sfx ∧ T' = mkTable a (t_rows T)) ∨ h_tables s !! (t', sfx') = Some T') as Hinv.
  { intros t' sfx' T'. cbn [set_at set_tables h_tables]. destruct (decide ((t, sfx) = (t', sfx'))) as [[= <- <-]|Hne].
    - rewrite lookup_alter_eq, HT. cbn. intros [= <-]. by left.
    - rewrite lookup_alter_ne by done. by right. }
  assert (h_tables (set_at t sfx a s) !! (t, sfx) = Some (mkTable a (t_rows T))) as Hnew.
  { cbn [set_at set_tables h_tables]. by rewrite lookup_alter_eq, HT. }
  assert (∀ t' sfx' T', h_tables s !! (t', sfx') = Some T' → (t', sfx') ≠ (t, sfx) → h_tables (set_at t sfx a s) !! (t', sfx') = Some T') as Hold.
  { intros t' sfx' T' HT' Hne. cbn [set_at set_tables h_tables]. by rewrite lookup_alter_ne. }
  split; split; try done.
  - intros t' sfx' T' [(-> & -> & ->)|HT']%Hinv; [|by apply (V3 t')]. destruct (V3 _ _ _ HT) as (q & Hq & Elo & Hrow & Hst & Hd).
    exists q. split_and!; try done; cbn; [intros _; by apply (r_state _ _ Hr)|]. intros Hx. by apply Hd in Hx.
  - intros t' sfx' R HR. destruct (V4 _ _ _ HR) as [? HA]. split; [done|]. intros T' [(-> & -> & ->)|HT']%Hinv; [|auto].
    destruct (HA _ HT). congruence.
  - intros t' c T' Hc [(-> & <- & ->)|HT']%Hinv; [|by eapply V8]. cbn. by eapply V8.
  - intros q t' Hq Hst. destruct (V11 q t' Hq Hst) as (T' & HT' & Hat). exists T'. split; [|done]. apply Hold; [done|].
    intros [= _ E]. by apply (r_state _ _ Hr q).
  - intros q Hq. left. exists q. done.
  - intros t' sfx' T' [(-> & -> & ->)|HT']%Hinv; left; [exists T; done|exists T'; done].
  - intros t' n x (sfx' & T' & HT' & Hat & Hn) Hlt. cbn in Hlt. destruct (decide ((t', sfx') = (t, sfx))) as [[= -> ->]|Hne].
    + assert (T' = T) as -> by congruence. pose proof (Hrows n x Hn). lia.
    + exists sfx', T'. split; [by apply Hold|done].
  - intros _ t' n x [(sfx' & T' & HT' & Hn)|Hk]; [left|by right]. destruct (decide ((t', sfx') = (t, sfx))) as [[= -> ->]|Hne].
    + assert (T' = T) as -> by congruence. eexists _, _. split; [exact Hnew|done].
    + exists sfx', T'. split; [by apply Hold|done].
Qed.

Lemma archive_keeps b t sfx R s : inv s → retired sfx s → h_archives s !! (t, sfx) = None →
  (∀ T, h_tables s !! (t, sfx) = Some T → t_at T = Apart ∧ t_rows T = R) →
  inv (set_archives (<[(t, sfx) := R]> (h_archives s)) s) ∧ keeps b s (set_archives (<[(t, sfx) := R]> (h_archives s)) s).
Proof.
  intros [V1 V2 V3 V4 V5 V6 V7 V8 V9 V10 V11 V12] Hr Hn HT. split; split; try done.
  - intros t' sfx' R'. cbn [set_archives h_archives]. intros [[[= <- <-] <-]|[_ HR]]%lookup_insert_Some; [|by apply (V4 t')].
    split; [apply (r_below _ _ Hr)|done].
  - intros q Hq. left. exists q. done.
  - intros t' sfx' T' HT'. left. exists T'. done.
  - cbn. by apply insert_subseteq.
  - intros _ t' n x [Hk|(sfx' & R' & HR & Hx)]; [by left|right]. exists sfx', R'. split; [|done]. cbn.
    rewrite lookup_insert_ne; [done|]. intros [= -> ->]. congruence.
Qed.

Lemma drop_table_keeps b t sfx s : inv s → retired sfx s → (∀ T, h_tables s !! (t, sfx) = Some T → t_at T = Apart) →
  (b = true → is_Some (h_archives s !! (t, sfx))) →
  inv (set_tables (delete (t, sfx) (h_tables s)) s) ∧ keeps b s (set_tables (delete (t, sfx) (h_tables s)) s).
Proof.
  intros [V1 V2 V3 V4 V5 V6 V7 V8 V9 V10 V11 V12] Hr Ha Hb. split; split; try done; cbn [set_tables h_tables].
  - intros t' sfx' T' [_ HT']%lookup_delete_Some. by apply (V3 t').
  - intros t' sfx' R HR. destruct (V4 _ _ _ HR) as [? HA]. split; [done|]. intros T' [_ HT']%lookup_delete_Some. auto.
  - intros t' c T' Hc [_ HT']%lookup_delete_Some. by eapply V8.
  - intros q t' Hq Hst. destruct (V11 q t' Hq Hst) as (T' & HT' & Hat). exists T'. split; [|done]. cbn. rewrite lookup_delete_ne; [done|].
    intros [= _ E]. by apply (r_state _ _ Hr q).
  - intros q Hq. left. exists q. done.
  - intros t' sfx' T' [_ HT']%lookup_delete_Some. left. exists T'. done.
  - intros t' n x (sfx' & T' & HT' & Hat & Hn) _. exists sfx', T'. split; [|done]. cbn. rewrite lookup_delete_ne; [done|].
    intros [= -> ->]. apply Ha in HT'. congruence.
  - intros Hb' t' n x [(sfx' & T' & HT' & Hn)|Hk]; [|by right]. destruct (decide ((t, sfx) = (t', sfx'))) as [[= <- <-]|Hne].
    + right. destruct (Hb Hb') as [R HR]. exists sfx, R. split; [done|]. destruct (V4 _ _ _ HR) as [_ HA]. destruct (HA _ HT') as [_ <-]. done.
    + left. exists sfx', T'. cbn. by rewrite lookup_delete_ne.
Qed.

Lemma drop_range_keeps b sfx s : inv s → retired sfx s → dropped_in HistoryTables sfx s →
  inv (set_parts (filter (λ p, p_lo p ≠ sfx) (h_parts s)) s) ∧ keeps b s (set_parts (filter (λ p, p_lo p ≠ sfx) (h_parts s)) s).
Proof.
  intros [V1 V2 V3 V4 V5 V6 V7 V8 V9 V10 V11 V12] [Hr Hrl] Hd.
  assert (∀ p, p ∈ h_parts (set_parts (filter (λ p, p_lo p ≠ sfx) (h_parts s)) s) ↔ p_lo p ≠ sfx ∧ p ∈ h_parts s) as Hin by (intros p; cbn [set_parts h_parts]; by rewrite list_elem_of_filter).
  split; split; try done.
  - cbn [set_parts h_parts]. by apply NoDup_fmap_filter.
  - intros p [_ Hp]%Hin. by apply V2.
  - intros t sfx' T HT. destruct (V3 _ _ _ HT) as (p & Hp & Elo & ?). exists p. split; [|done]. apply Hin. split; [|done].
    intros E. assert (h_tables s !! (t, sfx) = None) by (apply Hd, elem_of_HistoryTables). cbn in HT. congruence.
  - destruct V5 as (p & Hp & Hst & ?). exists p. split; [|done]. apply Hin. split; [|done]. intros E. by apply (Hr p).
  - destruct V6 as [?|(p & Hp & Elo)]; [by left|]. destruct (decide (p_lo p = sfx)) as [E|].
    + left. destruct (V2 p Hp) as (_ & _ & Hb & Hna). destruct (Hna (Hr p Hp E)) as (hi & Eh & ?). destruct (Hb hi Eh). cbn. lia.
    + right. exists p. split; [by apply Hin|done].
  - intros (p & [_ Hp]%Hin & ? & ?)%HistoryCut_false. apply V7, HistoryCut_false. eauto.
  - intros p t [_ Hp]%Hin Hst. by apply V11.
  - cbn [set_parts h_parts]. by apply StronglySorted_filter.
  - intros q [_ Hq]%Hin. left. exists q. done.
  - intros t sfx' T HT. left. exists T. done.
Qed.

(** ** The cut's operations *)

Lemma checks_keep b s checks :
  (∀ t c T, checks !! t = Some (c, true) → h_tables s !! (t, None) = Some T → map_Forall (λ n _, n < c) (t_rows T)) → inv s →
  inv (set_checks checks s) ∧ keeps b s (set_checks checks s).
Proof. intros Hc V. by apply outside_keeps. Qed.

Lemma constrain_keeps b cutAt s s' u : inv s → history_cut_constrain cutAt s = Ok (s', u) → inv s' ∧ keeps b s s'.
Proof.
  intros V E. assert (s' = set_checks (foldr (λ t m, <[t := (cutAt, false)]> m) (h_checks s) HistoryTables) s) as -> by (unfold history_cut_constrain in E; congruence).
  apply checks_keep; [|done]. intros t c T Hc. exfalso.
  assert (∀ ts, t ∈ ts → foldr (λ t m, <[t := (cutAt, false)]> m) (h_checks s) ts !! t = Some (cutAt, false)) as H.
  { induction ts as [|t' ts IH]; intros Ht; [by apply not_elem_of_nil in Ht|]. cbn. destruct (decide (t' = t)) as [->|]; [by rewrite lookup_insert_eq|].
    rewrite lookup_insert_ne by done. apply IH. set_solver. }
  rewrite (H _ (elem_of_HistoryTables t)) in Hc. congruence.
Qed.

Lemma validate_keeps b t s s' u : inv s → validate t s = Ok (s', u) → inv s' ∧ keeps b s s'.
Proof.
  intros V. unfold validate. destruct (h_checks s !! t) as [[c v]|] eqn:Ec; [|done]. destruct (h_tables s !! (t, None)) as [T|] eqn:ET; [|done].
  case_bool_decide as Hall; [|done]. intros [= <- _]. apply checks_keep; [|done].
  intros t' c' T' [[<- [= <-]]|[_ Hc]]%lookup_insert_Some HT'; [|by eapply (v_checks s)].
  assert (T' = T) as -> by congruence. done.
Qed.

Lemma unchecked_keeps b t s : inv s → inv (set_checks (delete t (h_checks s)) s) ∧ keeps b s (set_checks (delete t (h_checks s)) s).
Proof. intros V. apply checks_keep; [|done]. intros t' c T [_ Hc]%lookup_delete_Some. by eapply (v_checks s). Qed.

Definition bounded (cutAt : Z) (p : partition) : partition := if decide (p_lo p = None) then mkPart None (Some cutAt) (p_state p) else p.

Lemma bound_keeps b cutAt s : inv s → HistoryCut s = false → 1 < cutAt → (∀ t, h_checks s !! t = Some (cutAt, true)) →
  inv (set_parts (bounded cutAt <$> h_parts s) s) ∧ keeps b s (set_parts (bounded cutAt <$> h_parts s) s).
Proof.
  intros V Hun H1 Hc. pose proof Hun as (p0 & Hp0 & E1 & E2)%HistoryCut_false. pose proof (same_range s p0) as Hsame.
  assert (∀ q, q ∈ h_parts (set_parts (bounded cutAt <$> h_parts s) s) ↔ ∃ p, q = bounded cutAt p ∧ p ∈ h_parts s) as Hin by (intros q; apply list_elem_of_fmap).
  assert (∀ p, p ∈ h_parts s → p_lo (bounded cutAt p) = p_lo p ∧ p_state (bounded cutAt p) = p_state p) as Hb.
  { intros p _. unfold bounded. case_decide; done. }
  assert (∀ p, p ∈ h_parts s → p_lo p = None → p = p0) as H0 by (intros p Hp Hl; symmetry; apply Hsame; congruence).
  destruct V as [V1 V2 V3 V4 V5 V6 V7 V8 V9 V10 V11 V12]. specialize (V7 Hun).
  assert (p_state p0 = Attached) as Hs0.
  { destruct (decide (p_state p0 = Attached)); [done|]. destruct (V2 p0 Hp0) as (_ & _ & _ & Hna). destruct Hna as (? & ? & _); [done|congruence]. }
  split; split; try done.
  - cbn [set_parts h_parts]. rewrite <-list_fmap_compose. erewrite list_fmap_ext; [exact V1|].
    intros i p Hp%list_elem_of_lookup_2. cbn. by apply Hb.
  - intros q (p & -> & Hp)%Hin. destruct (V2 p Hp) as (B1 & B2 & B3 & B4). unfold bounded. case_decide as El; [|done]. cbn.
    rewrite (H0 p Hp El). split_and!; try done. intros hi [= <-]. done.
  - intros t sfx T HT. destruct (V3 _ _ _ HT) as (p & Hp & Elo & Hr & Ha & Hd). destruct (Hb p Hp) as [Eb1 Eb2]. exists (bounded cutAt p).
    split; [apply Hin; eauto|]. split; [congruence|]. rewrite Eb2. split; [|done]. intros n x Hx. destruct (Hr n x Hx) as [[Hl Hh] ?].
    split; [|done]. split; [by rewrite Eb1|]. unfold bounded. case_decide as El; [|done]. cbn. intros hi [= <-].
    eapply (V8 t cutAt T (Hc t)); [|done]. cbn in HT. congruence.
  - exists (bounded cutAt p0). split; [apply Hin; eauto|]. unfold bounded. rewrite decide_True by done. cbn. split; [done|]. intros hi [= <-]. lia.
  - right. exists (bounded cutAt p0). split; [apply Hin; eauto|]. destruct (Hb p0 Hp0). congruence.
  - intros q t (p & -> & Hp)%Hin Hst. destruct (Hb p Hp) as [-> E]. rewrite E in Hst. by apply V11.
  - apply sorted_fmap; [|done]. intros p Hp. by apply Hb.
  - intros q (p & -> & Hp)%Hin. left. exists p. destruct (Hb p Hp) as [-> ->]. split_and!; try done. intros hi Eh. unfold bounded.
    case_decide as El; [|done]. rewrite (H0 p Hp El) in Eh. congruence.
  - intros t sfx T HT. left. exists T. done.
Qed.

Lemma finish_keeps b cutAt size s s' u : inv s → 1 < cutAt → 0 < size → history_cut_finish cutAt size s = Ok (s', u) → inv s' ∧ keeps b s s'.
Proof.
  intros V H1 Hsz. unfold history_cut_finish. destruct (HistoryCut s) eqn:Ec; [done|]. cbn [orb].
  destruct (forallb _ _) eqn:Ef; [|done]. cbn [negb]. fold (bounded cutAt).
  assert (∀ t, h_checks s !! t = Some (cutAt, true)) as Hc.
  { intros t. pose proof (proj1 (forallb_forall _ _) Ef t) as H. cbn beta in H. apply bool_decide_eq_true in H; [done|].
    apply list_elem_of_In, elem_of_HistoryTables. }
  destruct (bound_keeps b cutAt s V Ec H1 Hc) as [V1 K1]. pose proof (v_uncut s V Ec) as Hp.
  change (λ p, if decide (p_lo p = None) then mkPart None (Some cutAt) (p_state p) else p) with (bounded cutAt).
  destruct (history_partition_create cutAt (cutAt + size) _) as [s1|] eqn:E; [|done]. cbn [res_bind]. intros [= <- _].
  apply history_partition_create_Ok in E.
  destruct (create_keeps b cutAt (cutAt + size) _ s1 V1) as [? ?]; [|lia|lia|done|split; [done|by etrans]].
  unfold history_from. cbn [set_parts h_pruned]. rewrite Hp. cbn. lia.
Qed.

(** ** The program logic *)

Section Logic.
Context (env : nat → history → history) (out : nat → ending) (b : bool).
Hypothesis Henv : ∀ k s, rtc env_step s (env k s).

Definition triple {A} (P : history → Prop) (m : M A) (Q : A → history → Prop) : Prop :=
  ∀ k s k' s' r, inv s → P s → m k s = (k', s', r) → inv s' ∧ keeps b s s' ∧ match r with Ok a => Q a s' | Err _ => True end.
Definition safe {A} (m : M A) : Prop := triple (λ _, True) m (λ _ _, True).

Lemma t_ret {A} (a : A) (P : history → Prop) (Q : A → history → Prop) : (∀ s, P s → Q a s) → triple P (ret a) Q.
Proof. intros HQ k s k' s' r Hi HP [= <- <- <-]. split; [done|]. split; [reflexivity|auto]. Qed.
Lemma t_fail {A} e (P : history → Prop) (Q : A → history → Prop) : triple P (fail e) Q.
Proof. intros k s k' s' r Hi HP [= <- <- <-]. split; [done|]. split; [reflexivity|done]. Qed.

Lemma t_bind {A B} (m : M A) (f : A → M B) (P : history → Prop) (Q : A → history → Prop) (R : B → history → Prop) :
  triple P m Q → (∀ a, triple (Q a) (f a) R) → triple P (bind m f) R.
Proof.
  intros Hm Hf k s k' s' r Hi HP. unfold bind. destruct (m k s) as [[k1 s1] [a|e]] eqn:E.
  - destruct (Hm _ _ _ _ _ Hi HP E) as (Hi1 & Hk1 & HQ). intros E2. destruct (Hf a _ _ _ _ _ Hi1 HQ E2) as (? & ? & ?).
    split; [done|]. split; [by etrans|done].
  - intros [= <- <- <-]. by destruct (Hm _ _ _ _ _ Hi HP E) as (? & ? & _).
Qed.

Lemma t_exec {A} busy (f : history → res rerr (history * A)) (P : history → Prop) (Q : A → history → Prop) :
  stable b P → (∀ s, inv s → P s → inv (busy s).1 ∧ keeps b s (busy s).1) →
  (∀ s s' a, inv s → P s → f s = Ok (s', a) → inv s' ∧ keeps b s s' ∧ Q a s') → triple P (exec env out busy f) Q.
Proof.
  intros Hst Hb Hf k s k' s' r Hi HP. unfold exec. destruct (env_steps_keep b _ _ (Henv k s) Hi) as [Hi1 Hk1].
  pose proof (Hst _ _ Hk1 HP) as HP1. destruct (out k).
  - destruct (f (env k s)) as [[s2 a]|e] eqn:E; intros [= <- <- <-]; [|done]. destruct (Hf _ _ _ Hi1 HP1 E) as (? & ? & ?).
    split; [done|]. split; [by etrans|done].
  - by intros [= <- <- <-].
  - intros [= <- <- <-]. destruct (Hb _ Hi1 HP1) as [? ?]. split; [done|]. split; [by etrans|done].
Qed.

Lemma t_query {A} (f : history → A) (P : history → Prop) (Q : A → history → Prop) :
  stable b P → (∀ s, inv s → P s → Q (f s) s) → triple P (query env out f) Q.
Proof.
  intros Hst HQ. apply t_exec; [done|intros s Hi _; split; [done|reflexivity]|]. intros s s' a Hi HP [= <- <-].
  split; [done|]. split; [reflexivity|auto].
Qed.
Lemma t_update (f : history → history) (P : history → Prop) (Q : unit → history → Prop) :
  stable b P → (∀ s, inv s → P s → inv (f s) ∧ keeps b s (f s) ∧ Q tt (f s)) → triple P (update env out f) Q.
Proof.
  intros Hst HQ. apply t_exec; [done|intros s Hi _; split; [done|reflexivity]|]. intros s s' a Hi HP [= <- <-]. auto.
Qed.

Lemma t_caught {A} (m : M A) (P : history → Prop) (Q : A → history → Prop) :
  triple P m Q → triple P (caught m) (λ r s, match r with Ok a => Q a s | Err _ => True end).
Proof.
  intros Hm k s k' s' r Hi HP. unfold caught. destruct (m k s) as [[k1 s1] r1] eqn:E. intros [= <- <- <-].
  by destruct (Hm _ _ _ _ _ Hi HP E) as (? & ? & ?).
Qed.

(** What is stable stays true across a program. *)
Lemma t_frame {A} (m : M A) (P R : history → Prop) (Q : A → history → Prop) :
  stable b R → triple P m Q → triple (λ s, P s ∧ R s) m (λ a s, Q a s ∧ R s).
Proof.
  intros Hst Hm k s k' s' r Hi [HP HR] E. destruct (Hm _ _ _ _ _ Hi HP E) as (? & Hk & HQ). split; [done|]. split; [done|].
  destruct r; [|done]. split; [done|]. by eapply Hst.
Qed.
Lemma t_weaken {A} (m : M A) (P P' : history → Prop) (Q Q' : A → history → Prop) :
  triple P m Q → (∀ s, P' s → P s) → (∀ a s, Q a s → Q' a s) → triple P' m Q'.
Proof.
  intros Hm HP HQ k s k' s' r Hi HP' E. destruct (Hm _ _ _ _ _ Hi (HP s HP') E) as (? & ? & ?). split; [done|]. split; [done|]. destruct r; auto.
Qed.
(** A safe program keeps any stable assertion. *)
Lemma t_safe {A} (m : M A) (P : history → Prop) : stable b P → safe m → triple P m (λ _ s, P s).
Proof. intros Hst Hm. eapply t_weaken; [by apply (t_frame m (λ _, True) P)| |]; cbn; tauto. Qed.

Lemma safe_ret {A} (a : A) : safe (ret a).
Proof. by apply t_ret. Qed.
Lemma safe_fail {A} e : safe (fail (A := A) e).
Proof. apply t_fail. Qed.
Lemma safe_query {A} (f : history → A) : safe (query env out f).
Proof. apply t_query; [apply stable_pure|done]. Qed.
Lemma safe_bind {A B} (m : M A) (f : A → M B) : safe m → (∀ a, safe (f a)) → safe (bind m f).
Proof. intros Hm Hf. by apply (t_bind m f _ (λ _ _, True)). Qed.
Lemma safe_caught {A} (m : M A) : safe m → safe (caught m).
Proof. intros Hm. eapply t_weaken; [by apply t_caught|done|done]. Qed.
Lemma safe_exec {A} busy (f : history → res rerr (history * A)) :
  (∀ s, inv s → inv (busy s).1 ∧ keeps b s (busy s).1) → (∀ s s' a, inv s → f s = Ok (s', a) → inv s' ∧ keeps b s s') → safe (exec env out busy f).
Proof.
  intros Hb Hf. apply t_exec; [apply stable_pure|auto|]. intros s s' a Hi _ E. destruct (Hf s s' a Hi E). done.
Qed.
Lemma idle (e : rerr) s : inv s → inv (s, e).1 ∧ keeps b s (s, e).1.
Proof. intros. split; [done|reflexivity]. Qed.
End Logic.

#[export] Hint Resolve safe_ret safe_fail safe_query safe_caught : retention.

(** ** The programs *)

Section Programs.
Context (env : nat → history → history) (out : nat → ending) (dependents : nat → bool) (c : RetentionConfig).
Hypothesis Henv : ∀ k s, rtc env_step s (env k s).
Hypothesis Hsize : 1 ≤ PartitionBlocks c < 2 ^ 60.
Local Notation b := (archiving c).
Local Notation triple := (triple b).
Local Notation safe := (safe b).

Ltac safe_step :=
  lazymatch goal with
  | |- _ (if ?x then _ else _) => destruct x
  | |- _ (ret _) => apply safe_ret
  | |- _ (fail _) => apply safe_fail
  | |- _ (query _ _ _) => apply (safe_query _ _ _ Henv)
  | |- _ (caught _) => apply safe_caught
  | |- _ (bind _ _) => apply safe_bind; [|intros ?]
  end.

Lemma createInGap_safe lo hi : lo < hi → safe (createInGap env out lo hi).
Proof.
  intros Hlt. apply safe_exec; [done|intros; by apply idle|]. intros s s' a Hi.
  destruct (_ || _) eqn:E; [intros [= <- <-]; split; [done|reflexivity]|]. apply orb_false_iff in E as [E1%Z.ltb_ge E2].
  destruct (history_partition_create lo hi s) as [s1|] eqn:Ec; [|done]. cbn. intros [= <- <-]. by eapply gap_keeps.
Qed.

Lemma fill_gap_safe fuel g lo size created : 0 < size → safe (fill_gap env out fuel g lo size created).
Proof.
  intros Hsz. revert lo created. induction fuel as [|fuel IH]; intros lo created; cbn [fill_gap]; [safe_step|].
  destruct (Z.ltb_spec lo g.2) as [Hlt|]; [|safe_step]. safe_step; [|destruct a; [apply IH|safe_step]].
  apply createInGap_safe. destruct (_ && _) eqn:E; [|lia]. apply andb_true_iff in E as [E1%Z.eqb_eq E2%negb_true_iff%Z.eqb_neq].
  pose proof (Z.rem_nonneg (g.2 - g.1) size ltac:(lia) ltac:(lia)). lia.
Qed.

Lemma fill_gaps_safe gs size created : (gs = [] ∨ 0 < size) → safe (fill_gaps env out gs size created).
Proof.
  revert created. induction gs as [|g gs IH]; intros created Hsz; cbn [fill_gaps]; [safe_step|]. destruct Hsz as [?|Hsz]; [done|].
  safe_step; [by apply fill_gap_safe|]. destruct a as [n []]; [apply IH; by right|safe_step].
Qed.

Lemma newest_size_pos s z : inv s → newest_size s = Some z → 0 < z.
Proof.
  intros V. unfold newest_size. destruct (last _) as [[[lo|] [hi|] st]|] eqn:E; try done. intros [= <-].
  apply last_Some_elem_of in E. apply list_elem_of_filter in E as [_ E]. destruct (v_bounds s V _ E) as (_ & _ & Hb & _).
  destruct (Hb hi eq_refl) as [_ Hlt]. specialize (Hlt lo eq_refl). lia.
Qed.

Lemma fillHistoryGaps_safe : safe (fillHistoryGaps env out).
Proof.
  unfold fillHistoryGaps. eapply (t_bind b _ _ _ (λ r _, r.2 = [] ∨ 0 < default 0 r.1)).
  - apply t_query; [done|apply stable_pure|]. intros s Hi _. unfold snapshot. destruct (newest_size s) as [z|] eqn:E; cbn; [|by left].
    right. by eapply newest_size_pos.
  - intros [size gs]. cbn. intros k s k' s' r Hi HP E. eapply fill_gaps_safe; [exact HP|exact Hi|done|exact E].
Qed.

Lemma ensure_up_safe n upto size made : 0 < i64 size → safe (ensure_up env out n upto size made).
Proof.
  intros Hsz. revert made. induction n as [|n IH]; intros made; cbn [ensure_up]; [safe_step|]. safe_step; [safe_step|].
  destruct a as [top|]; [|safe_step]. destruct (_ <? _); [safe_step|]. safe_step.
  - apply safe_exec; [done|intros; by apply idle|]. intros s s' k Hi. by apply ensure_keeps.
  - destruct (_ =? 0); [safe_step|apply IH].
Qed.

Lemma size_i64 : u64 (PartitionBlocks c) = PartitionBlocks c ∧ i64 (PartitionBlocks c) = PartitionBlocks c.
Proof. rewrite u64_small, i64_small; [done|lia|unfold is_u64; lia]. Qed.

Lemma EnsurePartitionsAhead_safe head : safe (EnsurePartitionsAhead env out head (PartitionBlocks c)).
Proof.
  unfold EnsurePartitionsAhead. destruct (Z.eqb_spec (PartitionBlocks c) 0); [lia|].
  eapply (t_bind b _ _ _ (λ r _, r = Some (PartitionBlocks c))); [by apply t_ret|]. intros [size|]; [|apply t_ret; done].
  intros k s k' s' r Hi [= ->]. revert k s k' s' r Hi. cbn. assert (safe (let! filled := fillHistoryGaps env out in
    let! made := EnsureHistoryPartitions env out (head +₆₄ u64 (2 * u64 (PartitionBlocks c))) (u64 (PartitionBlocks c)) in ret (filled + made))) as Hs.
  { safe_step; [apply fillHistoryGaps_safe|]. safe_step; [|safe_step]. apply ensure_up_safe. destruct size_i64 as [-> ->]. lia. }
  intros k s k' s' r Hi E. by eapply Hs.
Qed.

(** Pruning marks a range that is, or is now, below the watermark. *)
Lemma first_attached_spec s p dsw through : first_attached s = Some (p, dsw, through) →
  p ∈ h_parts s ∧ p_state p = Attached ∧ dsw = h_daily s ∧ through = h_pruned s.
Proof.
  unfold first_attached. destruct (filter _ _) as [|q l] eqn:E; [done|]. intros [= -> <- <-].
  assert (p ∈ filter (λ p, p_state p = Attached) (h_parts s)) as Hp by (rewrite E; left). apply list_elem_of_filter in Hp as [? ?]. done.
Qed.

Lemma pruneOldest_safe : safe (pruneOldest env out c).
Proof.
  unfold pruneOldest.
  eapply (t_bind b _ _ _ (λ r s, ∀ p dsw through, r = Some (p, dsw, through) → ∀ hi, p_hi p = Some hi → 0 < through → hi - 1 ≤ through →
    spent (p_lo p) s)).
  - apply t_query; [done|apply stable_pure|]. intros s V _ p dsw through (Hp & Hst & -> & ->)%first_attached_spec hi Ehi Hpos Hle.
    destruct (v_bounds s V p Hp) as (_ & _ & Hb & _). destruct (Hb hi Ehi) as [_ Hlt]. split.
    + intros q Hq Elo. rewrite (same_range s q p V Hq Hp Elo). eauto.
    + intros lo Elo. specialize (Hlt lo Elo). unfold history_from. destruct (Z.ltb_spec 0 (h_pruned s)); lia.
  - intros [[[p dsw] through]|]; [|by apply t_ret].
    destruct (match p_hi p with Some hi => (0 <? through) && (hi - 1 <=? through) | None => false end) eqn:Em.
    + destruct (p_hi p) as [hi|] eqn:Ehi; [|done]. apply andb_true_iff in Em as [E1%Z.ltb_lt E2%Z.leb_le].
      eapply (t_bind b _ _ _ (λ _ _, True)); [|intros ?; by apply t_ret].
      apply (t_weaken b _ (spent (p_lo p)) _ (λ _ _, True)); [|intros s H; by eapply H|done].
      apply t_update; [done|apply spent_stable|]. intros s Hi Hs. destruct (detaching_keeps b (p_lo p) s Hi Hs). done.
    + apply (t_weaken b _ (λ _, True) _ (λ _ _, True)); [|done|done].
      match goal with |- _ _ ?m _ => change (safe m) end. safe_step; [safe_step|]. destruct (p_hi p) as [hi|], dsw as [dsw|]; repeat safe_step.
      apply safe_exec; [done|intros; by apply idle|]. intros s s' wm Hi E. by destruct (advance_keeps b (p_lo p) s s' wm Hi E) as (? & ? & _).
Qed.

(** Detaching. *)
Lemma apart_in_cons t ts sfx s : apart_in [t] sfx s → apart_in ts sfx s → apart_in (t :: ts) sfx s.
Proof. intros H1 H2 t' T [->|Ht]%elem_of_cons HT; [eapply H1; [|exact HT]; left|by eapply H2]. Qed.
Lemma not_inherited t sfx s : inherited t sfx s = false → apart_in [t] sfx s.
Proof.
  unfold inherited. intros E t' T ->%list_elem_of_singleton HT. rewrite HT in E. by apply negb_false_iff, bool_decide_eq_true in E.
Qed.
Lemma set_at_apart t sfx s : apart_in [t] sfx (set_at t sfx Apart s).
Proof.
  intros t' T ->%list_elem_of_singleton. cbn [set_at set_tables h_tables]. rewrite lookup_alter_eq.
  destruct (h_tables s !! (t, sfx)); [|done]. by intros [= <-].
Qed.

Lemma detach_one_triple t sfx : triple (retired sfx)
  (exec env out (λ s, (if inherited t sfx s then set_at t sfx Pending s else s, ReadersBusy))
     (λ s, Ok (if inherited t sfx s then set_at t sfx Apart s else s, tt))) (λ _ s, retired sfx s ∧ apart_in [t] sfx s).
Proof.
  apply t_exec; [done|apply retired_stable| |].
  - intros s Hi Hr. cbn. destruct (inherited t sfx s) eqn:E; [by apply set_at_keeps|split; [done|reflexivity]].
  - intros s s' [] Hi Hr [= <-]. destruct (inherited t sfx s) eqn:E.
    + destruct (set_at_keeps b t sfx Apart s Hi Hr E) as [? Hk]; [done|]. split; [done|]. split; [done|].
      split; [by eapply retired_stable|apply set_at_apart].
    + split; [done|]. split; [reflexivity|]. split; [done|by apply not_inherited].
Qed.

Lemma detach_tables_triple ts sfx : triple (retired sfx) (detach_tables env out ts sfx) (λ _ s, retired sfx s ∧ apart_in ts sfx s).
Proof.
  induction ts as [|t ts IH]; cbn [detach_tables].
  - apply t_ret. intros s Hr. split; [done|]. intros t T Ht. by apply not_elem_of_nil in Ht.
  - eapply (t_bind b _ _ _ (λ there s, retired sfx s ∧ (there = false → apart_in [t] sfx s))).
    { apply t_query; [done|apply retired_stable|]. intros s Hi Hr. split; [done|]. apply not_inherited. }
    intros there. eapply (t_bind b _ _ _ (λ _ s, retired sfx s ∧ apart_in [t] sfx s)).
    { destruct there; [|apply t_ret; intros s [? ?]; auto]. eapply t_weaken; [apply detach_one_triple|by intros s [? _]|done]. }
    intros _. eapply t_weaken; [apply (t_frame b _ (retired sfx) (λ s, retired sfx s ∧ apart_in [t] sfx s)); [apply apart_stable|exact IH]| |].
    + by intros s [? ?].
    + cbn. intros _ s [[? ?] [_ ?]]. split; [done|]. by apply apart_in_cons.
Qed.

Definition ready (sfx : option Z) (s : history) : Prop := retired sfx s ∧ apart_in HistoryTables sfx s.
Lemma ready_stable sfx : stable b (ready sfx).
Proof. apply apart_stable. Qed.

Lemma detachRange_triple sfx : triple (retired sfx) (detachRange env out sfx) (λ _ s, ready sfx s).
Proof.
  unfold detachRange. eapply t_bind; [apply detach_tables_triple|]. intros ?. apply t_update; [done|apply apart_stable|].
  intros s Hi [Hr Ha]. destruct (detached_keeps b sfx s Hi Hr Ha) as [? Hk]. split; [done|]. split; [done|]. by eapply ready_stable.
Qed.

(** Archiving: what was copied is what is recorded. *)
Definition copied (t : htable) (sfx : option Z) (rows : gmap Z Z) (s : history) : Prop :=
  ready sfx s ∧ ∀ T, h_tables s !! (t, sfx) = Some T → t_rows T = rows.
Lemma copied_stable t sfx rows : stable b (copied t sfx rows).
Proof.
  intros s s' Hk [Hr Hc]. pose proof (ready_stable sfx s s' Hk Hr) as Hr'. split; [done|]. intros T HT.
  destruct (k_tables _ _ _ Hk _ _ _ HT) as [(T0 & HT0 & E)|(lo & -> & Hlo)].
  - destruct Hr as [_ Ha]. rewrite E; [auto|]. by eapply (Ha t _ (elem_of_HistoryTables t)).
  - destruct Hr as [[_ H2] _]. specialize (H2 lo eq_refl). lia.
Qed.

Lemma archive_tables_triple ts sfx : triple (ready sfx) (archive_tables env out ts sfx) (λ _ s, ready sfx s ∧ archived_in ts sfx s).
Proof.
  induction ts as [|t ts IH]; cbn [archive_tables].
  - apply t_ret. intros s Hr. split; [done|]. intros t Ht. by apply not_elem_of_nil in Ht.
  - assert (triple (λ s, ready sfx s ∧ archived_in [t] sfx s) (archive_tables env out ts sfx) (λ _ s, ready sfx s ∧ archived_in (t :: ts) sfx s)) as Hnext.
    { eapply t_weaken; [apply (t_frame b _ (ready sfx) (archived_in [t] sfx)); [apply archived_stable|exact IH]|done|].
      cbn. intros _ s [[? H1] H2]. split; [done|]. intros t' [->|Ht]%elem_of_cons; [apply H2; left|by apply H1]. }
    eapply (t_bind b _ _ _ (λ recorded s, ready sfx s ∧ (recorded = true → archived_in [t] sfx s))).
    { apply t_query; [done|apply ready_stable|]. intros s Hi Hr. split; [done|]. intros E%bool_decide_eq_true t' ->%list_elem_of_singleton. done. }
    intros []; [eapply t_weaken; [exact Hnext|cbn; intros s [? ?]; auto|done]|].
    eapply (t_bind b _ _ _ (λ rows s, copied t sfx rows s)).
    { apply (t_weaken b _ (ready sfx) _ (λ rows s, copied t sfx rows s)); [|by intros s [? _]|done].
      apply t_exec; [done|apply ready_stable|intros; by apply idle|]. intros s s' rows Hi Hr.
      destruct (h_tables s !! (t, sfx)) as [T|] eqn:ET; [|done]. intros [= <- <-]. split; [done|]. split; [reflexivity|]. split; [done|].
      intros T' HT'. congruence. }
    intros rows. eapply (t_bind b _ _ _ (λ _ s, ready sfx s ∧ archived_in [t] sfx s)); [|intros _; exact Hnext].
    apply t_exec; [done|apply copied_stable|intros; by apply idle|]. intros s s' [] Hi [Hr Hc].
    destruct (h_archives s !! (t, sfx)) as [R|] eqn:ER; [done|]. intros [= <-]. destruct Hr as [Hr Ha].
    destruct (archive_keeps b t sfx rows s Hi Hr ER) as [? Hk].
    { intros T HT. split; [|auto]. by eapply (Ha t _ (elem_of_HistoryTables t)). }
    split; [done|]. split; [done|]. split; [by eapply ready_stable|]. intros t' ->%list_elem_of_singleton. cbn. rewrite lookup_insert_eq. eauto.
Qed.

(** Dropping. *)
Definition expendable (sfx : option Z) (s : history) : Prop := ready sfx s ∧ (b = true → archived_in HistoryTables sfx s).
Lemma expendable_stable sfx : stable b (expendable sfx).
Proof. apply stable_and; [apply ready_stable|]. apply stable_impl, archived_stable. Qed.

Lemma archive_step_triple sfx : triple (ready sfx) (if archiving c then archiveRange env out sfx else ret tt) (λ _ s, expendable sfx s).
Proof.
  pose proof (archive_tables_triple HistoryTables sfx) as Ha. unfold archiveRange, expendable. destruct (archiving c).
  - eapply t_weaken; [exact Ha|done|]. intros _ s [? ?]. by split.
  - apply t_ret. intros s Hr. by split.
Qed.

Lemma drop_tables_triple ts sfx : triple (expendable sfx) (drop_tables env out ts sfx) (λ _ s, expendable sfx s ∧ dropped_in ts sfx s).
Proof.
  induction ts as [|t ts IH]; cbn [drop_tables].
  - apply t_ret. intros s Hr. split; [done|]. intros t Ht. by apply not_elem_of_nil in Ht.
  - eapply (t_bind b _ _ _ (λ _ s, expendable sfx s ∧ dropped_in [t] sfx s)).
    + apply t_exec; [done|apply expendable_stable|intros; by apply idle|]. intros s s' [] Hi Hx [= <-].
      pose proof Hx as [[Hr Ha] Hb]. destruct (drop_table_keeps b t sfx s Hi Hr) as [? Hk].
      * intros T HT. by eapply (Ha t _ (elem_of_HistoryTables t)).
      * intros E. apply (Hb E), elem_of_HistoryTables.
      * split; [done|]. split; [done|]. split; [by eapply expendable_stable|]. intros t' ->%list_elem_of_singleton. cbn. by rewrite lookup_delete_eq.
    + intros _. eapply t_weaken; [apply (t_frame b _ (expendable sfx) (λ s, retired sfx s ∧ dropped_in [t] sfx s)); [apply dropped_stable|exact IH]| |].
      * intros s [[[? ?] ?] ?]. done.
      * cbn. intros _ s [[? H1] [_ H2]]. split; [done|]. intros t' [->|Ht]%elem_of_cons; [apply H2; left|by apply H1].
Qed.

Lemma dropRange_triple sfx : triple (expendable sfx) (dropRange env out dependents sfx) (λ _ _, True).
Proof.
  unfold dropRange. eapply (t_bind b _ _ _ (λ _ s, expendable sfx s)).
  { intros k s k' s' r Hi Hx E.
    eapply (t_query env out b Henv (λ _, dependents k) (expendable sfx) (λ _ s, expendable sfx s)); [apply expendable_stable|done|exact Hi|exact Hx|exact E]. }
  intros []; [apply t_fail|]. eapply t_bind; [apply drop_tables_triple|]. intros ?.
  apply (t_weaken b _ (λ s, retired sfx s ∧ dropped_in HistoryTables sfx s) _ (λ _ _, True)); [|by intros s [[[? _] _] ?]|done].
  apply t_update; [done|apply dropped_stable|]. intros s Hi [Hr Hd]. destruct (drop_range_keeps b sfx s Hi Hr Hd). done.
Qed.

Lemma underGate_triple (m : M unit) (P : history → Prop) (Q : unit → history → Prop) : stable b P → triple P m Q →
  triple P (underGate env out m) (λ ok s, ok = true → Q tt s).
Proof.
  intros Hst Hm. unfold underGate. eapply (t_bind b _ _ _ (λ _ s, P s)).
  { apply t_safe; [done|]. apply safe_caught, safe_exec; [done|intros; by apply idle|]. intros s s' [] Hi [= <-]. split; [done|reflexivity]. }
  intros [[]|e].
  - eapply t_bind; [by apply t_caught|]. intros [[]|e]; [by apply t_ret|]. destruct e; try apply t_fail. by apply t_ret.
  - destruct e; try apply t_fail. by apply t_ret.
Qed.

(** The ranges past the watermark. *)
Definition queued (l : list (option Z * part_state)) (s : history) : Prop :=
  ∀ sfx st, (sfx, st) ∈ l → retired sfx s ∧ (st ≠ Detaching → apart_in HistoryTables sfx s).
Lemma queued_stable l : stable b (queued l).
Proof.
  intros s s' Hk Hq sfx st Hin. destruct (Hq sfx st Hin) as [Hr Ha]. split; [by eapply retired_stable|]. intros Hne.
  by destruct (ready_stable sfx s s' Hk (conj Hr (Ha Hne))).
Qed.
Lemma not_attached_queued s : inv s → queued (not_attached s) s.
Proof.
  intros V sfx st. unfold not_attached. intros (p & [= -> ->] & Hp)%list_elem_of_fmap. apply list_elem_of_filter in Hp as [Hna Hp].
  destruct (v_bounds s V p Hp) as (_ & _ & Hb & Hd). destruct (Hd Hna) as (hi & Ehi & Hle). destruct (Hb hi Ehi) as [H1 Hlt]. split; [split|].
  - intros q Hq Elo. by rewrite (same_range s q p V Hq Hp Elo).
  - intros lo Elo. specialize (Hlt lo Elo). unfold history_from. destruct (Z.ltb_spec 0 (h_pruned s)); lia.
  - intros Hne t T _ HT. eapply detached_apart; [done|exact Hp| |exact HT]. by destruct (p_state p).
Qed.

Lemma finish_ranges_triple l : triple (queued l) (finish_ranges env out dependents c l) (λ _ _, True).
Proof.
  induction l as [|[sfx st] l IH]; cbn [finish_ranges]; [by apply t_ret|].
  assert (∀ s, queued ((sfx, st) :: l) s → queued l s) as Htail by (intros s H sfx' st' Hin; apply H; by right).
  eapply (t_bind b _ _ _ (λ ok s, (ok = true → ready sfx s) ∧ queued l s)).
  { eapply t_weaken; [apply (t_frame b _ (λ s, retired sfx s ∧ (st ≠ Detaching → apart_in HistoryTables sfx s)) (queued l) (λ ok s, ok = true → ready sfx s))| |].
    - apply queued_stable.
    - case_decide as Es.
      + eapply t_weaken; [apply (underGate_triple _ (retired sfx)); [apply retired_stable|apply detachRange_triple]|by intros s [? _]|done].
      + apply t_ret. intros s [? Ha] _. split; auto.
    - intros s Hq. split; [apply Hq; left|by apply Htail].
    - done. }
  intros ok. destruct ok; cbn [negb]; [|by apply t_ret].
  eapply (t_bind b _ _ _ (λ _ s, expendable sfx s ∧ queued l s)).
  { eapply t_weaken; [apply (t_frame b _ (ready sfx) (queued l) (λ _ s, expendable sfx s)); [apply queued_stable|]| |done].
    - apply archive_step_triple.
    - cbn. intros s [H1 ?]. split; [by apply H1|done]. }
  intros _. eapply (t_bind b _ _ _ (λ _ s, queued l s)).
  { eapply t_weaken; [apply (t_frame b _ (expendable sfx) (queued l) (λ _ _, True)); [apply queued_stable|]|done|by intros a s [_ ?]].
    eapply t_weaken; [apply t_caught, (underGate_triple _ (expendable sfx)); [apply expendable_stable|apply dropRange_triple]|done|done]. }
  intros [[]|e]; [exact IH|by apply t_ret|]. destruct e; try apply t_fail. exact IH.
Qed.

Lemma finishDetached_safe : safe (finishDetached env out dependents c).
Proof.
  unfold finishDetached. eapply (t_bind b _ _ _ queued); [|intros l; apply finish_ranges_triple].
  apply t_query; [done|apply stable_pure|]. intros s Hi _. by apply not_attached_queued.
Qed.

(** The cut. *)
Lemma lockTimeout_safe {A} fuel attempt (more : Z → A → M (bool * A)) fn last a :
  (∀ attempt a, safe (more attempt a)) → (∀ s s' u, inv s → fn s = Ok (s', u) → inv s' ∧ keeps b s s') →
  safe (withLockTimeoutWhile env out fuel attempt more fn last a).
Proof.
  intros Hm Hf. revert attempt last a. induction fuel as [|fuel IH]; intros attempt last a; cbn [withLockTimeoutWhile]; [safe_step|].
  safe_step; [apply safe_caught, Hm|]. destruct a0 as [[[] a1]|e]; [|safe_step|safe_step]. safe_step.
  - apply safe_caught. safe_step; [apply safe_exec; [done|intros; by apply idle|]; intros s s' [] Hi [= <-]; by apply (idle b Lost)|].
    apply safe_exec; [done|intros; by apply idle|]. intros s s' [] Hi E. by eapply Hf.
  - destruct a0; [safe_step|apply IH].
Qed.
Lemma withLockTimeout_safe tries fn : (∀ s s' u, inv s → fn s = Ok (s', u) → inv s' ∧ keeps b s s') → safe (withLockTimeout env out tries fn).
Proof.
  intros Hf. unfold withLockTimeout. safe_step; [apply lockTimeout_safe; [intros; apply safe_ret|done]|]. destruct a as [[]]; safe_step.
Qed.

Lemma gate_safe : safe (gate env out).
Proof. apply safe_exec; [done|intros; by apply idle|]. intros s s' [] Hi [= <-]. by apply (idle b Lost). Qed.

Lemma drop_checks_safe tries ts : safe (drop_checks env out tries ts).
Proof.
  induction ts as [|t ts IH]; cbn [drop_checks]; [safe_step|]. safe_step; [safe_step|]. safe_step; [|exact IH]. safe_step; [|safe_step].
  apply withLockTimeout_safe. intros s s' [] Hi E. assert (s' = set_checks (delete t (h_checks s)) s) as -> by congruence. by apply unchecked_keeps.
Qed.
Lemma dropCutChecks_safe tries : safe (dropCutChecks env out tries).
Proof. unfold dropCutChecks. safe_step; [safe_step|]. safe_step; [safe_step|apply drop_checks_safe]. Qed.
Lemma releaseLeftoverCut_safe fuel : safe (releaseLeftoverCut env out fuel).
Proof.
  induction fuel as [|fuel IH]; cbn [releaseLeftoverCut]; [safe_step|]. safe_step; [|destruct a; [safe_step|exact IH]].
  apply safe_caught. safe_step; [apply gate_safe|apply dropCutChecks_safe].
Qed.

Lemma ReleaseAbandonedCut_safe : safe (ReleaseAbandonedCut env out).
Proof. unfold ReleaseAbandonedCut. safe_step; [apply gate_safe|]. safe_step; [apply safe_caught, dropCutChecks_safe|safe_step]. Qed.
Lemma keep_ahead_safe node : safe (keep_ahead env out node (PartitionBlocks c)).
Proof. unfold keep_ahead. safe_step; [safe_step|apply EnsurePartitionsAhead_safe]. Qed.

Lemma validate_tables_safe ts cutAt : safe (validate_tables env out ts cutAt c).
Proof.
  induction ts as [|t ts IH]; cbn [validate_tables]; [safe_step|]. safe_step.
  - apply safe_exec; [done|intros; by apply idle|]. intros s s' [] Hi E. by eapply validate_keeps.
  - safe_step; [safe_step|]. safe_step; [safe_step|exact IH].
Qed.

Lemma finish_cut_safe fuel cutAt : 1 < cutAt → safe (finish_cut env out fuel cutAt c).
Proof.
  intros H1. apply lockTimeout_safe.
  - intros attempt a. unfold head_below. repeat safe_step.
  - intros s s' u Hi. apply finish_keeps; [done|done|lia].
Qed.

Lemma head_range s : inv s → 0 ≤ GetLatestBlockNumber s < 2 ^ 62.
Proof.
  intros V. unfold GetLatestBlockNumber. destruct (stored_head s) as [h|] eqn:E; cbn; [|lia]. by destruct (stored_head_range s h V E).
Qed.

Section Cut.
Context (node : option Z) (margin : Z).
Hypothesis Hnode : ∀ n, node = Some n → n < 2 ^ 62.
Hypothesis Hmargin : 0 ≤ margin < 2 ^ 62.

Lemma cut_at_exact head : 0 ≤ head < 2 ^ 62 →
  cut_at head margin node c = Z.max head (default head node) + 2 * PartitionBlocks c + margin ∧ 1 < cut_at head margin node c.
Proof.
  intros Hh. unfold cut_at. assert (match node with Some n => if head <? n then n else head | None => head end = Z.max head (default head node)) as ->.
  { destruct node as [n|]; cbn; [destruct (Z.ltb_spec head n); lia|lia]. }
  assert (Z.max head (default head node) < 2 ^ 62) by (destruct node as [n|]; cbn; [specialize (Hnode n eq_refl)|]; lia).
  rewrite u64_small by (unfold is_u64; lia). lia.
Qed.

Lemma cutHistory_safe fuel : safe (cutHistory env out fuel node margin c).
Proof.
  unfold cutHistory. safe_step; [apply gate_safe|].
  eapply (t_bind b _ _ _ (λ head _, 0 ≤ head < 2 ^ 62)); [apply t_query; [done|apply stable_pure|intros s Hi _; by apply head_range]|].
  intros head k s k' s' r Hi Hh E. destruct (cut_at_exact head Hh) as [_ H1].
  revert k s k' s' r Hi E. enough (safe (
    let! _ := query env out (λ _, tt) in
    let! _ := withLockTimeout env out 20 (history_cut_constrain (cut_at head margin node c)) in
    let! r := caught (let! near := validate_tables env out HistoryTables (cut_at head margin node c) c in
                      match near with Some h => ret (Err HeadNearCut, Some h) | None => finish_cut env out fuel (cut_at head margin node c) c end) in
    match r with
    | Ok (Ok _, _) => ret (margin, None)
    | Ok (Err e, near) => let! _ := caught (dropCutChecks env out 20) in ret (abandoned head margin near e)
    | Err e => let! _ := caught (dropCutChecks env out 20) in ret (abandoned head margin None e)
    end)) as Hs by (intros k s k' s' r Hi E; by eapply Hs).
  safe_step; [safe_step|]. safe_step; [apply withLockTimeout_safe; intros s s' u Hi; by apply constrain_keeps|].
  safe_step; [apply safe_caught; safe_step; [apply validate_tables_safe|destruct a2; [safe_step|by apply finish_cut_safe]]|].
  destruct a2 as [[[] near]|e]; [safe_step| |]; safe_step; try apply safe_caught, dropCutChecks_safe; safe_step.
Qed.

Lemma cut_first_safe fuel : safe (cut_first env out fuel node margin c).
Proof.
  unfold cut_first. safe_step; [safe_step|]. safe_step; [safe_step|]. safe_step; [apply releaseLeftoverCut_safe|].
  safe_step; [apply safe_caught, cutHistory_safe|].
  destruct a0 as [[m []]|e]; cbn [snd].
  all: safe_step; try apply safe_caught, releaseLeftoverCut_safe; safe_step.
Qed.

Lemma prune_loop_safe fuel : safe (prune_loop env out dependents fuel c).
Proof.
  induction fuel as [|fuel IH]; cbn [prune_loop]; [safe_step|]. safe_step; [apply pruneOldest_safe|]. safe_step; [safe_step|].
  safe_step; [apply finishDetached_safe|]. safe_step; [exact IH|safe_step].
Qed.

Lemma retentionPass_safe fuel : safe (retentionPass env out dependents fuel node margin c).
Proof.
  unfold retentionPass. safe_step; [apply cut_first_safe|]. destruct (a.2); [safe_step|]. safe_step; [safe_step|].
  safe_step; [apply EnsurePartitionsAhead_safe|]. safe_step; [safe_step|]. safe_step; [apply finishDetached_safe|].
  safe_step; [safe_step; [apply prune_loop_safe|safe_step]|safe_step].
Qed.
End Cut.
End Programs.
