(* ===== verification/RetentionProps.v ===== *)
(** * What retention guarantees

    The theorems on [Retention]: a pass loses nothing it should keep, the watermark
    only passes final history, partitions stay ahead of the head, and the margin of
    an abandoned cut outgrows the head. *)

From S2P Require Import Prelude SqlOrder Retention RetentionSafe.

(** ** A pass loses nothing *)

(** C3: whatever the other sessions commit between the statements of a retention
    pass (rows ingested, spans closed, partitions created), however each statement
    ends (done, failed, cancelled after its wait) and wherever the pass stops, the
    watermark does not move back, every row above it that was readable is readable,
    and with archiving on every row there was, readable or in a detached partition
    or an archive, is still there or in its archive unchanged. *)
Theorem retention_conserves env out dependents fuel node margin c k s k' s' r :
  (∀ k s, rtc env_step s (env k s)) → 1 ≤ PartitionBlocks c < 2 ^ 60 → (∀ n, node = Some n → n < 2 ^ 62) → 0 ≤ margin < 2 ^ 62 → inv s →
  retentionPass env out dependents fuel node margin c k s = (k', s', r) →
  inv s' ∧ h_pruned s ≤ h_pruned s' ∧
  (∀ t n x, visible s t n x → h_pruned s' < n → visible s' t n x) ∧
  (archiving c = true → ∀ t n x, kept s t n x → kept s' t n x).
Proof.
  intros Henv Hsize Hnode Hmargin Hi E.
  destruct (retentionPass_safe env out dependents c Henv Hsize node margin Hnode Hmargin fuel k s k' s' r Hi I E) as (Hi' & Hk & _).
  split; [done|]. split; [apply (k_pruned _ _ _ Hk)|]. split; [apply (k_visible _ _ _ Hk)|apply (k_kept _ _ _ Hk)].
Qed.

(** ** The watermark passes final history only *)

(** As many rows as blocks, all of them in the range: every block has its row. *)
Lemma all_blocks (m : gmap Z Z) first hi : first ≤ hi → (∀ n x, m !! n = Some x → n < hi) →
  zlen (filter (λ r : Z * Z, first ≤ r.1) (map_to_list m)) = hi - first → ∀ n, first ≤ n < hi → is_Some (m !! n).
Proof.
  intros Hle Hb Hlen n Hn. set (ks := (filter (λ r : Z * Z, first ≤ r.1) (map_to_list m)).*1).
  assert (NoDup ks) as Hnd by (apply NoDup_fmap_filter, NoDup_fst_map_to_list).
  assert (∀ k, k ∈ ks → first ≤ k < hi ∧ is_Some (m !! k)) as Hks.
  { intros k ([k' x] & -> & Hin)%list_elem_of_fmap. apply list_elem_of_filter in Hin as [Hf Hin%elem_of_map_to_list]. cbn in *.
    split; [|by eexists]. specialize (Hb k' x Hin). lia. }
  assert (seqZ first (hi - first) ≡ₚ ks) as Hp.
  { symmetry. apply submseteq_length_Permutation.
    - apply NoDup_submseteq; [done|]. intros k Hk. apply elem_of_seqZ. destruct (Hks k Hk). lia.
    - rewrite length_seqZ. unfold ks. rewrite length_fmap. unfold zlen in Hlen. lia. }
  apply Hks. rewrite <-Hp. apply elem_of_seqZ. lia.
Qed.

(** C10: the watermark moves past a range only when its history is final and held
    elsewhere: every block of it from the first retained one is stored and none is
    recorded missing, the daily statistics have passed it, its last block is the end
    of a closed ledger span and at least 12,800 blocks below the stored head, 100
    times the deepest reorg, and its newest block is older than the UTC day of the
    floor; the watermark is then its last block, and it never moves back. *)
Theorem prune_only_final sfx s s' wm : inv s → prune_advance sfx s = Ok (s', wm) →
  ∃ p head dsw, p ∈ h_parts s ∧ p_lo p = sfx ∧ p_hi p = Some (wm + 1) ∧ stored_head s = Some head ∧ h_daily s = Some dsw ∧
  wm + 12800 ≤ head ∧ wm ≤ dsw ∧ wm + 1 ∈ h_spans s ∧ h_pruned s' = Z.max (h_pruned s) wm ∧
  (∀ r, r ∈ range_blocks sfx s → ∃ f, prune_day_floor s = Some f ∧ r.2 < f) ∧
  (∀ n, Z.max (Z.max (default 0 sfx) (history_from s)) 1 ≤ n ≤ wm →
     (∃ x, visible s TBlocks n x) ∧ Forall (λ r, ¬ (r.1 ≤ n ≤ r.2)) (h_missing s)).
Proof.
  intros V (Ha & pts & missing & ->)%prune_advance_Ok. destruct Ha as [(p & Hp & Elo & Ehi & Hst) _ (head & dsw & Eh & Ed & Hf & Hd) Hc Hday Hcl].
  unfold prune_floor_gap in Hf. exists p, head, dsw. split_and!; try done; try lia.
  - intros r Hr. unfold history_range_before_reorg_day in Hday. destruct (prune_day_floor s) as [f|]; [|done]. exists f. split; [done|].
    apply Z.ltb_lt in Hday. destruct (history_range_newest_ts sfx s) as [ts|] eqn:Ets; cbn in Hday.
    + apply max_list_spec in Ets as [_ Hmax]. specialize (Hmax r.2 ltac:(by apply list_elem_of_fmap_2)). lia.
    + apply max_list_None in Ets. apply fmap_nil_inv in Ets. rewrite Ets in Hr. by apply not_elem_of_nil in Hr.
  - intros n Hn. unfold history_range_complete in Hc. destruct (of_suffix sfx s) as [[lo [hi|] st]|] eqn:Eo; try done.
    apply of_suffix_Some in Eo as [Ho Elo']. cbn in Elo'. subst lo. pose proof (same_range s _ p V Ho Hp ltac:(cbn; congruence)) as Hsame. subst p.
    cbn in Ehi, Hst. injection Ehi as ->. apply andb_true_iff in Hc as [Hm Hlen%Z.eqb_eq]. split.
    + destruct (v_present s V _ TBlocks Hp Hst) as (T & HT & Hat). cbn in HT. unfold range_blocks in Hlen. rewrite HT in Hlen.
      destruct (all_blocks (t_rows T) (Z.max (Z.max (default 0 sfx) (history_from s)) 1) (wm + 1)) with n as [x Hx]; [lia| |done|lia|].
      * intros m x Hx. destruct (v_tables s V _ _ _ HT) as (q & Hq & Elo' & Hrow & _). rewrite (same_range s q _ V Hq Hp Elo') in Hrow.
        destruct (Hrow m x Hx) as [[_ Hh] _]. by apply Hh.
      * exists x, sfx, T. done.
    + apply Forall_forall. intros r Hr Hin. apply negb_true_iff in Hm.
      assert (existsb (λ r, (r.1 <? wm + 1) && (Z.max (Z.max (default 0 sfx) (history_from s)) 1 <=? r.2)) (h_missing s) = true); [|congruence].
      apply existsb_exists. exists r. split; [by apply list_elem_of_In|]. rewrite andb_true_iff, Z.ltb_lt, Z.leb_le. lia.
Qed.

(** ** The margin of a cut *)

Section Margin.
Context (env : nat → history → history) (out : nat → ending) (c : RetentionConfig).

(** The pass saw the head within a partition of the cut. *)
Definition near (cutAt h : Z) : Prop := cutAt ≤ h +₆₄ PartitionBlocks c.

Lemma bind_Ok {A B} (m : M A) (f : A → M B) k s k' s' r : bind m f k s = (k', s', Ok r) →
  ∃ k1 s1 a, m k s = (k1, s1, Ok a) ∧ f a k1 s1 = (k', s', Ok r).
Proof. unfold bind. destruct (m k s) as [[k1 s1] [a|]]; [eauto 10|done]. Qed.
Lemma query_Ok {A} (f : history → A) k s k' s' a : query env out f k s = (k', s', Ok a) → ∃ s1, a = f s1.
Proof. unfold query, exec, lost. destruct (out k); intros [= <- <- <-]; eauto. Qed.

Lemma validate_near ts cutAt k s k' s' h : validate_tables env out ts cutAt c k s = (k', s', Ok (Some h)) →
  near cutAt h ∧ ∃ s1, h = GetLatestBlockNumber s1.
Proof.
  revert k s. induction ts as [|t ts IH]; intros k s; cbn [validate_tables]; [done|].
  intros (k1 & s1 & u & _ & E)%bind_Ok. apply bind_Ok in E as (k2 & s2 & head & Eh & E). apply query_Ok in Eh.
  destruct (Z.leb_spec cutAt (head +₆₄ PartitionBlocks c)) as [Hle|]; [|by eapply IH]. injection E as <- <- <-. done.
Qed.

Lemma finish_near fuel attempt fn last cutAt n0 k s k' s' r h :
  (∀ h, n0 = Some h → near cutAt h ∧ ∃ s1, h = GetLatestBlockNumber s1) →
  withLockTimeoutWhile env out fuel attempt (head_below env out cutAt c) fn last n0 k s = (k', s', Ok (r, Some h)) →
  near cutAt h ∧ ∃ s1, h = GetLatestBlockNumber s1.
Proof.
  revert attempt last n0 k s. induction fuel as [|fuel IH]; intros attempt last n0 k s Hn; cbn [withLockTimeoutWhile]; [done|].
  intros (k1 & s1 & m & Em & E)%bind_Ok. unfold caught in Em. destruct (head_below env out cutAt c attempt n0 k s) as [[k0 s0] m0] eqn:Eb.
  injection Em as -> -> ->. destruct m as [[go n1]|e]; [|injection E as <- <- <- ->; auto].
  assert (∀ h, n1 = Some h → near cutAt h ∧ ∃ s1, h = GetLatestBlockNumber s1) as Hn1.
  { revert Eb. unfold head_below. destruct (attempt =? 1); [by intros [= <- <- <- <-]|]. intros (k2 & s2 & head & Eh & Eb)%bind_Ok.
    apply query_Ok in Eh. destruct (Z.leb_spec cutAt (head +₆₄ PartitionBlocks c)); injection Eb as <- <- <- <-; [|done]. intros h' [= <-]. done. }
  destruct go; [|injection E as <- <- <- ->; auto]. apply bind_Ok in E as (k3 & s3 & u & _ & E). destruct u; [injection E as <- <- <- ->; auto|].
  by eapply IH.
Qed.

Lemma cutHistory_margin fuel node margin k s k' s' m' e : cutHistory env out fuel node margin c k s = (k', s', Ok (m', Some e)) →
  m' = margin ∨ ∃ s1 s2, let head := GetLatestBlockNumber s1 in let h := GetLatestBlockNumber s2 in
    near (cut_at head margin node c) h ∧ m' = nextCutMargin margin (h -₆₄ head).
Proof.
  unfold cutHistory. intros (k1 & s1 & u & _ & E)%bind_Ok. apply bind_Ok in E as (k2 & s2 & head & Eh & E). apply query_Ok in Eh as [sh ->].
  apply bind_Ok in E as (k0 & s0 & u0 & _ & E). apply bind_Ok in E as (k3 & s3 & u' & _ & E).
  apply bind_Ok in E as (k4 & s4 & r & Er & E). unfold caught in Er.
  destruct (bind _ _ k3 s3) as [[k5 s5] r5] eqn:E5. injection Er as -> -> ->.
  assert (∀ e near0, r = Ok (Err e, Some near0) → near (cut_at (GetLatestBlockNumber sh) margin node c) near0 ∧ ∃ s1, near0 = GetLatestBlockNumber s1) as Hr.
  { intros e' n0 ->. apply bind_Ok in E5 as (k6 & s6 & nr & Ev & E6). destruct nr as [h|].
    - injection E6 as <- <- <- <-. by eapply validate_near.
    - eapply finish_near; [|exact E6]. done. }
  destruct r as [[[u2|e2] nr]|e2]; [done| |].
  - apply bind_Ok in E as (k7 & s7 & u7 & _ & E). injection E as <- <- <- <-. destruct nr as [h|]; [right|by left].
    destruct (Hr e2 h eq_refl) as [Hnear [s8 ->]]. exists sh, s8. done.
  - apply bind_Ok in E as (k7 & s7 & u7 & _ & E). injection E as <- <- <- <-. by left.
Qed.
End Margin.

(** Attempts in a row abandoned for the head, each with the head it began at and
    the blocks the head moved. *)
Fixpoint abandons (c : RetentionConfig) (margin : Z) (attempts : list (Z * Z)) : Prop :=
  match attempts with
  | [] => True
  | (head, advance) :: rest => near c (cut_at head margin None c) (head + advance) ∧
      abandons c (abandoned head margin (Some (head + advance)) HeadNearCut).1 rest
  end.

Lemma near_advance c margin head advance : 1 ≤ PartitionBlocks c < 2 ^ 60 → 0 ≤ margin < 2 ^ 62 → 0 ≤ head < 2 ^ 61 → 0 ≤ advance < 2 ^ 61 →
  near c (cut_at head margin None c) (head + advance) → PartitionBlocks c + margin ≤ advance.
Proof.
  intros Hp Hm Hh Ha. unfold near, cut_at. rewrite !u64_small by (unfold is_u64; lia). lia.
Qed.
Lemma next_margin margin head advance : 0 ≤ margin < 2 ^ 62 → 0 ≤ head → 0 ≤ advance < 2 ^ 61 →
  nextCutMargin margin (head + advance -₆₄ head) = Z.max (2 * margin) (2 * advance).
Proof.
  intros Hm Hh Ha. unfold nextCutMargin. replace (head + advance - head) with advance by lia.
  rewrite (u64_small advance) by (unfold is_u64; lia). by rewrite !u64_small by (unfold is_u64; lia).
Qed.

Lemma abandons_bound c margin bound attempts : 1 ≤ PartitionBlocks c < 2 ^ 60 → 0 ≤ margin < 2 ^ 62 → 0 < bound < 2 ^ 61 →
  Forall (λ ha, 0 ≤ ha.1 < 2 ^ 61 ∧ 0 ≤ ha.2 ≤ bound) attempts → abandons c margin attempts → attempts ≠ [] →
  (margin + 1) * 2 ^ (zlen attempts - 1) ≤ bound.
Proof.
  intros Hp Hm Hb Hall. revert margin Hm. induction Hall as [|[head adv] rest [Hh Ha] Hall IH]; intros margin Hm; [done|].
  cbn [abandons]. intros [Hn Hrest] _. cbn [fst snd] in Hh, Ha. pose proof (near_advance c margin head adv Hp Hm Hh ltac:(lia) Hn) as Hadv.
  rewrite zlen_cons. destruct rest as [|ha rest]; [unfold zlen; cbn; lia|]. cbn [abandoned fst] in Hrest.
  rewrite next_margin in Hrest by lia. specialize (IH (Z.max (2 * margin) (2 * adv)) ltac:(lia) Hrest ltac:(done)).
  rewrite zlen_cons in IH. pose proof (zlen_nonneg rest). replace (1 + zlen (ha :: rest) - 1) with (Z.succ (zlen rest)) by (rewrite zlen_cons; lia).
  replace (1 + zlen rest - 1) with (zlen rest) in IH by lia. rewrite Z.pow_succ_r by lia. pose proof (Z.pow_pos_nonneg 2 (zlen rest)). nia.
Qed.

(** a cut the head came near is retried with a margin that outgrows the head.
    An abandoned [cutHistory] leaves the margin, or saw the head move by at least a
    partition and the margin together and takes twice that; so on a chain whose head
    moves at most [bound] blocks during an attempt, at most [log2 bound + 1] attempts
    in a row are abandoned for the head, and the next one is not. *)
Theorem cut_margin_outgrows c margin bound attempts : 1 ≤ PartitionBlocks c < 2 ^ 60 → 0 ≤ margin < 2 ^ 62 → 0 < bound < 2 ^ 61 →
  (∀ env out fuel k s k' s' m' e, cutHistory env out fuel None margin c k s = (k', s', Ok (m', Some e)) → m' = margin ∨
     ∃ s1 s2, near c (cut_at (GetLatestBlockNumber s1) margin None c) (GetLatestBlockNumber s2) ∧
       m' = nextCutMargin margin (GetLatestBlockNumber s2 -₆₄ GetLatestBlockNumber s1)) ∧
  (Forall (λ ha, 0 ≤ ha.1 < 2 ^ 61 ∧ 0 ≤ ha.2 ≤ bound) attempts → abandons c margin attempts → zlen attempts ≤ Z.log2 bound + 1).
Proof.
  intros Hp Hm Hb. split.
  - intros env out fuel k s k' s' m' e E. destruct (cutHistory_margin env out c fuel None margin k s k' s' m' e E) as [|(s1 & s2 & ? & ?)]; eauto.
  - intros Hall Ha. destruct (decide (attempts = [])) as [->|Hne]; [unfold zlen; cbn; pose proof (Z.log2_nonneg bound); lia|].
    pose proof (abandons_bound c margin bound attempts Hp Hm Hb Hall Ha Hne) as H.
    assert (1 ≤ zlen attempts). { destruct attempts; [done|]. rewrite zlen_cons. pose proof (zlen_nonneg attempts). lia. }
    pose proof (Z.pow_pos_nonneg 2 (zlen attempts - 1)). assert (2 ^ (zlen attempts - 1) ≤ bound) as Hle by nia.
    apply Z.log2_le_mono in Hle. rewrite Z.log2_pow2 in Hle by lia. lia.
Qed.

(** ** Partitions ahead of the head *)

Section Ahead.
(** No other session, no failure. *)
Local Notation env := (λ (_ : nat) (s : history), s).
Local Notation out := (λ _ : nat, Done).

Definition covered (s : history) (n : Z) : Prop := ∃ p, p ∈ h_parts s ∧ holds p n.
Definition free (s : history) (lo hi : Z) : Prop := ∀ p, p ∈ h_parts s → overlaps lo hi p = false.

Lemma free_existsb s lo hi : free s lo hi → existsb (overlaps lo hi) (h_parts s) = false.
Proof.
  intros Hf. destruct (existsb _ _) eqn:E; [|done]. apply existsb_exists in E as (p & Hp%list_elem_of_In & E). by rewrite (Hf p Hp) in E.
Qed.

(** Where nothing overlaps a partition can be created. *)
Lemma create_free lo hi s : inv s → lo < hi → free s lo hi → ∃ s', history_partition_create lo hi s = Ok s'.
Proof.
  intros V Hlt Hf.
  assert (∀ p, p ∈ h_parts s → p_lo p ≠ Some lo) as Hno.
  { intros p Hp E. pose proof (Hf p Hp) as Ho. unfold overlaps in Ho. rewrite E in Ho. cbn in Ho. destruct (Z.ltb_spec lo hi); [|lia]. cbn in Ho.
    destruct (v_bounds s V p Hp) as (Hn & _ & Hb & _). destruct (p_hi p) as [h|] eqn:Eh; [|rewrite Hn in E; done].
    destruct (Hb h eq_refl) as [_ Hl]. specialize (Hl lo E). cbn in Ho. destruct (Z.ltb_spec lo h); [done|lia]. }
  unfold history_partition_create. destruct (existsb _ HistoryTables) eqn:E1.
  - exfalso. apply existsb_exists in E1 as (t & _ & E). apply orb_true_iff in E as [E%bool_decide_eq_true|E].
    + destruct E as [T HT]. destruct (v_tables s V _ _ _ HT) as (p & Hp & Elo & _). by apply (Hno p).
    + apply existsb_exists in E as (p & Hp%list_elem_of_In & E). rewrite (Hf p Hp), andb_false_r in E. done.
  - cbn [orb]. case_bool_decide as E2; [|by eexists]. destruct E2 as [p [Hp Hlo]%of_suffix_Some]. exfalso. by apply (Hno p).
Qed.

Lemma holds_free lo hi s p n : free s lo hi → p ∈ h_parts s → lo ≤ n < hi → inv s → holds p n → False.
Proof.
  intros Hf Hp Hn V [Hl Hh]. pose proof (Hf p Hp) as Ho. unfold overlaps in Ho.
  assert (default lo (p_lo p) < hi) by (destruct (p_lo p) as [l|] eqn:E; cbn; [specialize (Hl l eq_refl)|]; lia).
  assert (lo < default hi (p_hi p)) by (destruct (p_hi p) as [h|] eqn:E; cbn; [specialize (Hh h eq_refl)|]; lia).
  destruct (Z.ltb_spec (default lo (p_lo p)) hi); [|lia]. destruct (Z.ltb_spec lo (default hi (p_hi p))); [done|lia].
Qed.

(** What a fill leaves: the old ranges and new ones inside the gap. *)
Record filled (lo hi : Z) (s s' : history) : Prop := {
  fi_inv : inv s';
  fi_keeps : ∀ p, p ∈ h_parts s → p ∈ h_parts s';
  fi_new : ∀ p, p ∈ h_parts s' → p ∈ h_parts s ∨ ∃ l h, p_lo p = Some l ∧ p_hi p = Some h ∧ lo ≤ l ∧ l < h ∧ h ≤ hi;
  fi_covers : ∀ n, lo ≤ n < hi → covered s' n;
  fi_pruned : h_pruned s' = h_pruned s }.

Lemma filled_from lo hi s s' : filled lo hi s s' → history_from s' = history_from s.
Proof. intros [_ _ _ _ E]. unfold history_from. by rewrite E. Qed.

Lemma filled_free lo hi s s' l h : filled lo hi s s' → free s l h → hi ≤ l ∨ h ≤ lo → free s' l h.
Proof.
  intros Hf Hfr Hd p Hp. destruct (fi_new _ _ _ _ Hf p Hp) as [?|(pl & ph & E1 & E2 & ? & ? & ?)]; [auto|]. unfold overlaps. rewrite E1, E2. cbn.
  destruct (Z.ltb_spec pl h); [|done]. destruct (Z.ltb_spec l ph); [lia|done].
Qed.

Lemma filled_refl lo hi s : inv s → hi ≤ lo → filled lo hi s s.
Proof. intros V Hle. split; try done; [by left|]. intros n Hn. lia. Qed.

Lemma filled_trans lo mid hi s1 s2 s3 : lo ≤ mid ≤ hi → filled lo mid s1 s2 → filled mid hi s2 s3 → filled lo hi s1 s3.
Proof.
  intros Hm [A1 A2 A3 A4 A5] [B1 B2 B3 B4 B5]. split; [done|auto| | |congruence].
  - intros p Hp. destruct (B3 p Hp) as [Hp2|(l & h & ? & ? & ? & ? & ?)]; [|right; exists l, h; split_and!; try done; lia].
    destruct (A3 p Hp2) as [?|(l & h & ? & ? & ? & ? & ?)]; [by left|right; exists l, h; split_and!; try done; lia].
  - intros n Hn. destruct (Z.lt_ge_cases n mid); [|apply B4; lia]. destruct (A4 n ltac:(lia)) as (p & Hp & ?). exists p. auto.
Qed.

Lemma filled_created lo hi s s' : inv s → history_from s ≤ lo → lo < hi → 1 < hi → created lo hi s s' → filled lo hi s s'.
Proof.
  intros V Hf Hlt H1 Hc. destruct (create_keeps true lo hi s s' V Hf Hlt H1 Hc) as [V' _].
  assert (∀ p, p ∈ h_parts s' ↔ p = mkPart (Some lo) (Some hi) Attached ∨ p ∈ h_parts s) as Hin by (intros p; rewrite (c_parts _ _ _ _ Hc); apply elem_of_cons).
  split; [done| | | |].
  - intros p Hp. apply Hin. by right.
  - intros p [->|Hp]%Hin; [right|by left]. exists lo, hi. split_and!; try done; lia.
  - intros n Hn. exists (mkPart (Some lo) (Some hi) Attached). split; [apply Hin; by left|]. split; intros ? [= <-]; lia.
  - by destruct (c_same _ _ _ _ Hc).
Qed.

Lemma createInGap_quiet lo hi k s : inv s → history_from s ≤ lo → lo < hi → free s lo hi →
  ∃ s', createInGap env out lo hi k s = (S k, s', Ok true) ∧ filled lo hi s s'.
Proof.
  intros V Hf Hlt Hfr. destruct (create_free lo hi s V Hlt Hfr) as [s' Hc]. exists s'. split.
  - unfold createInGap, exec. destruct (Z.ltb_spec lo (history_from s)); [lia|]. cbn [orb]. rewrite (free_existsb s lo hi Hfr), Hc. done.
  - apply filled_created; [done|done|done| |by apply history_partition_create_Ok]. eapply gap_above; [done|exact Hlt|done|by apply free_existsb].
Qed.

Lemma free_sub s lo hi l h : free s lo hi → lo ≤ l → h ≤ hi → lo < h → free s l h.
Proof.
  intros Hf H1 H2 H3 p Hp. specialize (Hf p Hp). unfold overlaps in *. destruct (p_lo p) as [pl|], (p_hi p) as [ph|]; cbn in *.
  - destruct (Z.ltb_spec pl h); [|done]. destruct (Z.ltb_spec l ph); [|done]. destruct (Z.ltb_spec pl hi); [|lia]. destruct (Z.ltb_spec lo ph); [done|lia].
  - destruct (Z.ltb_spec pl h); [|done]. destruct (Z.ltb_spec l h); [|done]. destruct (Z.ltb_spec pl hi); [|lia]. destruct (Z.ltb_spec lo hi); [done|lia].
  - destruct (Z.ltb_spec l h); [|done]. destruct (Z.ltb_spec l ph); [|done]. destruct (Z.ltb_spec lo hi); [|lia]. destruct (Z.ltb_spec lo ph); [done|lia].
  - destruct (Z.ltb_spec l h); [|done]. destruct (Z.ltb_spec lo hi); [done|lia].
Qed.

Lemma fill_gap_quiet fuel g lo size made k s : inv s → 0 < size → g.1 ≤ lo ≤ g.2 → history_from s ≤ lo → free s lo g.2 → g.2 - lo ≤ Z.of_nat fuel →
  ∃ k' s' made', fill_gap env out fuel g lo size made k s = (k', s', Ok (made', true)) ∧ filled lo g.2 s s'.
Proof.
  intros V Hsz. revert lo made k s V. induction fuel as [|fuel IH]; intros lo made k s V Hlo Hf Hfr Hfuel; cbn [fill_gap].
  - exists k, s, made. split; [done|]. apply filled_refl; [done|lia].
  - destruct (Z.ltb_spec lo g.2) as [Hlt|].
    2: { exists k, s, made. split; [done|]. apply filled_refl; [done|lia]. }
    match goal with |- context [createInGap _ _ lo ?h] => set (hi := h) end.
    assert (lo < hi ≤ g.2) as Hhi.
    { subst hi. destruct (_ && _) eqn:E; [|lia]. apply andb_true_iff in E as [->%Z.eqb_eq E2%negb_true_iff%Z.eqb_neq].
      pose proof (Z.rem_nonneg (g.2 - g.1) size ltac:(lia) ltac:(lia)). pose proof (Z.rem_le (g.2 - g.1) size ltac:(lia) ltac:(lia)). lia. }
    destruct (createInGap_quiet lo hi k s V Hf ltac:(lia)) as (s1 & E1 & F1); [by eapply (free_sub s lo g.2); try lia|].
    unfold bind. rewrite E1. destruct (IH hi (made + 1) (S k) s1) as (k2 & s2 & made2 & E2 & F2).
    + apply (fi_inv _ _ _ _ F1).
    + lia.
    + rewrite (filled_from _ _ _ _ F1). lia.
    + destruct (Z.lt_ge_cases hi g.2).
      * eapply filled_free; [exact F1|by eapply (free_sub s lo g.2); try lia|lia].
      * intros p Hp. unfold overlaps. destruct (Z.ltb_spec (default hi (p_lo p)) g.2); [|done]. destruct (Z.ltb_spec hi (default g.2 (p_hi p))); [|done].
        destruct (fi_new _ _ _ _ F1 p Hp) as [Hp0|(l & h & E3 & E4 & ? & ? & ?)]; [|rewrite E3, E4 in *; cbn in *; lia].
        specialize (Hfr p Hp0). unfold overlaps in Hfr. destruct (p_lo p) as [pl|], (p_hi p) as [ph|]; cbn in *; try lia.
    + lia.
    + exists k2, s2, made2. split; [done|]. eapply (filled_trans lo hi g.2); eauto. lia.
Qed.

(** The gaps between ranges listed by [lo]. *)
Definition gap_lt (g h : Z * Z) : Prop := g.2 ≤ h.1.

Lemma gaps_from_spec l c gs : StronglySorted part_lt l → (∀ p, p ∈ l → ∃ hi, p_hi p = Some hi ∧ ∀ lo, p_lo p = Some lo → 0 ≤ lo < hi) → gaps_from c l = Some gs →
  (∀ g, g ∈ gs → c ≤ g.1 < g.2 ∧ (∃ p, p ∈ l ∧ p_lo p = Some g.2) ∧ ∀ p, p ∈ l → overlaps g.1 g.2 p = false) ∧ StronglySorted gap_lt gs ∧
  (∀ p n hi, p ∈ l → p_hi p = Some hi → c ≤ n < hi → (∃ q, q ∈ l ∧ holds q n) ∨ ∃ g, g ∈ gs ∧ g.1 ≤ n < g.2).
Proof.
  intros Hs. revert c gs. induction Hs as [|p l Hs IH Hall]; intros c gs Hb; cbn [gaps_from].
  - intros [= <-]. split; [intros g Hg; by apply not_elem_of_nil in Hg|]. split; [constructor|]. intros p n hi Hp. by apply not_elem_of_nil in Hp.
  - destruct (Hb p ltac:(left)) as (hi & Ehi & Hlo). rewrite Ehi. destruct (gaps_from (Z.max c hi) l) as [rest|] eqn:E; [|done]. cbn [fmap option_fmap option_map].
    destruct (IH (Z.max c hi) rest) as (IHg & IHs & IHc); [intros q Hq; apply Hb; by right|done|]. intros [= <-].
    assert (∀ lo q, p_lo p = Some lo → q ∈ l → ∃ l', p_lo q = Some l' ∧ lo < l') as Hlater.
    { intros lo q Elo Hq. rewrite Forall_forall in Hall. specialize (Hall q Hq). unfold part_lt in Hall. rewrite Elo in Hall. cbn in Hall.
      destruct (Hlo lo Elo). destruct (p_lo q) as [l'|]; cbn in Hall; [eauto|lia]. }
    split_and!.
    + intros g [Hg|Hg]%elem_of_app.
      * destruct (p_lo p) as [lo|] eqn:Elo; [|by apply not_elem_of_nil in Hg]. destruct (Z.ltb_spec c lo); [|by apply not_elem_of_nil in Hg].
        apply list_elem_of_singleton in Hg as ->. cbn. split; [lia|]. split; [exists p; split; [left|done]|].
        intros q [->|Hq]%elem_of_cons; unfold overlaps; [rewrite Elo; cbn; by rewrite Z.ltb_irrefl|].
        destruct (Hlater lo q eq_refl Hq) as (l' & -> & Hl'). cbn. destruct (Z.ltb_spec l' lo); [lia|done].
      * destruct (IHg g Hg) as (Hc & (q & Hq & Eq) & Ho). split; [lia|]. split; [exists q; split; [by right|done]|].
        intros q' [->|Hq']%elem_of_cons; [|auto]. unfold overlaps. rewrite Ehi. cbn. destruct (Z.ltb_spec g.1 hi); [lia|]. by rewrite andb_false_r.
    + destruct (p_lo p) as [lo|] eqn:Elo; [|done]. destruct (Z.ltb_spec c lo); [|done]. cbn. constructor; [done|].
      apply Forall_forall. intros g Hg. destruct (IHg g Hg) as (Hc & _). destruct (Hlo lo eq_refl). unfold gap_lt. cbn. lia.
    + intros q n h Hq Eh Hn.
      destruct (p_lo p) as [lo|] eqn:Elo.
      * destruct (Z.lt_ge_cases n lo); [right; exists (c, lo); split; [|cbn; lia]; apply elem_of_app; left; destruct (Z.ltb_spec c lo); [left|lia]|].
        destruct (Z.lt_ge_cases n hi); [left; exists p; split; [left|]; split; [intros ? ?; simplify_eq; lia|intros ? ?; simplify_eq; lia]|].
        apply elem_of_cons in Hq as [->|Hq]; [simplify_eq; lia|]. destruct (IHc q n h Hq Eh ltac:(lia)) as [(q' & ? & ?)|(g & ? & ?)];
          [left; exists q'; split; [by right|done]|right; exists g; split; [apply elem_of_app; by right|done]].
      * destruct (Z.lt_ge_cases n hi); [left; exists p; split; [left|]; split; [intros ? ?; congruence|intros ? ?; simplify_eq; lia]|].
        apply elem_of_cons in Hq as [->|Hq]; [simplify_eq; lia|]. destruct (IHc q n h Hq Eh ltac:(lia)) as [(q' & ? & ?)|(g & ? & ?)];
          [left; exists q'; split; [by right|done]|right; exists g; split; [apply elem_of_app; by right|done]].
Qed.

(** All the gaps. *)
Record all_filled (top : Z) (s s' : history) : Prop := {
  af_inv : inv s';
  af_keeps : ∀ p, p ∈ h_parts s → p ∈ h_parts s';
  af_new : ∀ p, p ∈ h_parts s' → p ∈ h_parts s ∨ ∃ h, p_hi p = Some h ∧ h ≤ top;
  af_pruned : h_pruned s' = h_pruned s }.

Lemma fill_gaps_quiet gs size made k s top : inv s → 0 < size → StronglySorted gap_lt gs →
  (∀ g, g ∈ gs → history_from s ≤ g.1 < g.2 ∧ g.2 ≤ top ∧ free s g.1 g.2) →
  ∃ k' s' made', fill_gaps env out gs size made k s = (k', s', Ok made') ∧ all_filled top s s' ∧ ∀ g n, g ∈ gs → g.1 ≤ n < g.2 → covered s' n.
Proof.
  intros V Hsz Hs. revert made k s V. induction Hs as [|g gs Hs IH Hall]; intros made k s V Hg; cbn [fill_gaps].
  - exists k, s, made. split; [done|]. split; [split; try done; by left|]. intros g n Hin. by apply not_elem_of_nil in Hin.
  - destruct (Hg g ltac:(left)) as (Hf & Htop & Hfr).
    destruct (fill_gap_quiet (Z.to_nat (g.2 - g.1)) g g.1 size made k s V Hsz ltac:(lia) ltac:(lia) Hfr ltac:(lia)) as (k1 & s1 & made1 & E1 & F1).
    unfold bind. rewrite E1. destruct (IH made1 k1 s1) as (k2 & s2 & made2 & E2 & [A1 A2 A3 A4] & Hc).
    + apply (fi_inv _ _ _ _ F1).
    + intros h Hh. destruct (Hg h ltac:(by right)) as (Hf' & Htop' & Hfr'). rewrite (filled_from _ _ _ _ F1). split; [done|]. split; [done|].
      eapply filled_free; [exact F1|done|]. rewrite Forall_forall in Hall. left. by apply Hall.
    + exists k2, s2, made2. split; [done|]. split; [split|].
      * done.
      * intros p Hp. apply A2, (fi_keeps _ _ _ _ F1), Hp.
      * intros p Hp. destruct (A3 p Hp) as [Hp1|?]; [|by right]. destruct (fi_new _ _ _ _ F1 p Hp1) as [?|(l & h & _ & Eh & _ & _ & ?)]; [by left|].
        right. exists h. split; [done|lia].
      * rewrite A4. apply (fi_pruned _ _ _ _ F1).
      * intros h n [->|Hh]%elem_of_cons Hn; [|by eapply Hc]. destruct (fi_covers _ _ _ _ F1 n Hn) as (p & Hp & ?). exists p. auto.
Qed.

(** The bounds of a cut history. *)
Lemma cut_bounds s p : inv s → HistoryCut s = true → p ∈ h_parts s → ∃ hi, p_hi p = Some hi ∧ ∀ lo, p_lo p = Some lo → 0 ≤ lo < hi.
Proof.
  intros V Hc Hp. destruct (v_bounds s V p Hp) as (Hn & H0 & Hb & _). destruct (p_hi p) as [hi|] eqn:E.
  - exists hi. split; [done|]. intros lo Elo. destruct (Hb hi eq_refl) as [_ Hl]. specialize (Hl lo Elo). specialize (H0 lo Elo). lia.
  - assert (HistoryCut s = false); [|congruence]. apply HistoryCut_false. exists p. auto.
Qed.

Lemma gaps_from_total l c : (∀ p, p ∈ l → ∃ hi, p_hi p = Some hi) → is_Some (gaps_from c l).
Proof.
  revert c. induction l as [|p l IH]; intros c Hb; cbn [gaps_from]; [by eexists|]. destruct (Hb p ltac:(left)) as (hi & ->).
  destruct (IH (Z.max c hi) ltac:(intros q Hq; apply Hb; by right)) as [gs ->]. by eexists.
Qed.

Lemma fillHistoryGaps_quiet k s top : inv s → HistoryCut s = true → top_bound s = Some top → is_Some (newest_size s) →
  ∃ k' s' made, fillHistoryGaps env out k s = (k', s', Ok made) ∧ all_filled top s s' ∧ ∀ n, history_from s ≤ n < top → covered s' n.
Proof.
  intros V Hc Ht [size Hsz]. pose proof (newest_size_pos s size V Hsz) as Hpos.
  destruct (gaps_from_total (h_parts s) (history_from s)) as [gs Egs]; [intros p Hp; destruct (cut_bounds s p V Hc Hp) as (hi & ? & _); eauto|].
  destruct (gaps_from_spec _ _ _ (v_sorted s V) (λ p, cut_bounds s p V Hc) Egs) as (Hg & Hgs & Hcov).
  unfold fillHistoryGaps, bind, query, exec, snapshot. rewrite Hsz, Egs. cbn [default from_option id].
  destruct (fill_gaps_quiet gs size 0 (S k) s top V Hpos Hgs) as (k' & s' & made & E & Hf & Hc').
  - intros g Hin. destruct (Hg g Hin) as (H1 & (p & Hp & Elo) & Ho). split; [done|]. split; [|exact Ho].
    destruct (cut_bounds s p V Hc Hp) as (hi & Ehi & Hl). specialize (Hl g.2 Elo). pose proof (top_bound_ge s p hi top Hp Ehi Ht). lia.
  - exists k', s', made. split; [done|]. split; [done|]. intros n Hn. destruct (top_bound_in s top Ht) as (p & Hp & Ehi).
    destruct (Hcov p n top Hp Ehi Hn) as [(q & Hq & ?)|(g & Hin & ?)]; [exists q; split; [by apply (af_keeps _ _ _ Hf)|done]|by eapply Hc'].
Qed.

(** Above the highest bound. *)
Lemma top_free s top hi : inv s → HistoryCut s = true → top_bound s = Some top → free s top hi.
Proof.
  intros V Hc Ht p Hp. destruct (cut_bounds s p V Hc Hp) as (h & Eh & _). pose proof (top_bound_ge s p h top Hp Eh Ht).
  unfold overlaps. rewrite Eh. cbn. destruct (Z.ltb_spec top h); [lia|]. by rewrite andb_false_r.
Qed.

Lemma bounded_cut s : (∀ p, p ∈ h_parts s → is_Some (p_hi p)) → HistoryCut s = true.
Proof.
  intros Hb. destruct (HistoryCut s) eqn:E; [done|]. apply HistoryCut_false in E as (p & Hp & _ & E). destruct (Hb p Hp). congruence.
Qed.

(** A maximum is known by its members and its bound. *)
Lemma top_bound_is s top : (∃ p, p ∈ h_parts s ∧ p_hi p = Some top) → (∀ p hi, p ∈ h_parts s → p_hi p = Some hi → hi ≤ top) → top_bound s = Some top.
Proof.
  intros (p & Hp & E) Hle. unfold top_bound. assert (top ∈ omap p_hi (h_parts s)) as Hin by (apply list_elem_of_omap; eauto).
  destruct (max_list (omap p_hi (h_parts s))) as [m|] eqn:Em; [|apply max_list_None in Em; rewrite Em in Hin; by apply not_elem_of_nil in Hin].
  destruct (max_list_spec _ _ Em) as [Hm Hmax]. apply list_elem_of_omap in Hm as (q & Hq & Eq). specialize (Hmax top Hin).
  specialize (Hle q m Hq Eq). f_equal. lia.
Qed.

Lemma ensure_one size s top : inv s → HistoryCut s = true → top_bound s = Some top → 0 < size →
  ∃ s', history_partitions_ensure top size s = Ok (s', 1) ∧ filled top (top + size) s s' ∧ HistoryCut s' = true ∧ top_bound s' = Some (top + size).
Proof.
  intros V Hc Ht Hsz. destruct (top_above s top V Hc Ht) as [Hf H1].
  destruct (create_free top (top + size) s V ltac:(lia) (top_free s top _ V Hc Ht)) as [s' E]. exists s'.
  unfold history_partitions_ensure. rewrite Ht, Hc. cbn [negb]. replace (top - top + 1) with 1 by lia. destruct (Z.leb_spec size 0); [lia|].
  change (Z.to_nat 1) with 1%nat. cbn [ensure_loop]. rewrite Z.leb_refl, E. cbn [res_bind]. split; [done|].
  apply history_partition_create_Ok in E. assert (filled top (top + size) s s') as F by (apply filled_created; auto; lia). split; [done|].
  assert (∀ p, p ∈ h_parts s' → ∃ hi, p_hi p = Some hi ∧ hi ≤ top + size) as Hb.
  { intros p Hp. destruct (fi_new _ _ _ _ F p Hp) as [Hp0|(l & h & _ & Eh & _ & _ & ?)]; [|eauto].
    destruct (cut_bounds s p V Hc Hp0) as (hi & Ehi & _). pose proof (top_bound_ge s p hi top Hp0 Ehi Ht). exists hi. split; [done|lia]. }
  split.
  - apply bounded_cut. intros p Hp. destruct (Hb p Hp) as (hi & ? & _). by exists hi.
  - apply top_bound_is.
    + exists (mkPart (Some top) (Some (top + size)) Attached). split; [|done]. rewrite (c_parts _ _ _ _ E). left.
    + intros p hi Hp Ehi. destruct (Hb p Hp) as (h & ? & ?). by simplify_eq.
Qed.

Lemma ensure_up_quiet n upto size made k s top : inv s → HistoryCut s = true → top_bound s = Some top →
  1 ≤ size < 2 ^ 60 → 0 ≤ upto < 2 ^ 63 → top < 2 ^ 63 + 2 ^ 60 → upto < top + Z.of_nat n * size →
  ∃ k' s' made' top', ensure_up env out n upto size made k s = (k', s', Ok made') ∧ upto < top' ∧ filled top top' s s'.
Proof.
  intros V Hc Ht Hsz Hup Htop. revert made k s top V Hc Ht Htop. induction n as [|n IH]; intros made k s top V Hc Ht Htop Hn; cbn [ensure_up].
  - exists k, s, made, top. split; [done|]. split; [lia|]. by apply filled_refl.
  - destruct (top_above s top V Hc Ht) as [_ H1]. unfold bind at 1, query, exec at 1. rewrite Ht, u64_small by (unfold is_u64; lia).
    destruct (Z.ltb_spec upto top) as [|Hge]; [exists (S k), s, made, top; split; [done|]; split; [done|]; by apply filled_refl|].
    rewrite i64_small by lia. destruct (ensure_one size s top V Hc Ht ltac:(lia)) as (s1 & E1 & F1 & Hc1 & Ht1).
    unfold bind, exec at 1. rewrite E1. cbn [Z.eqb].
    destruct (IH (made + 1) (S (S k)) s1 (top + size)) as (k2 & s2 & made2 & top2 & E2 & ? & F2); try done; try lia.
    + apply (fi_inv _ _ _ _ F1).
    + exists k2, s2, made2, (Z.max (top + size) top2). split; [done|]. split; [lia|]. eapply (filled_trans top (top + size)); [lia|done|].
      destruct (Z.max_spec (top + size) top2) as [[_ ->]|[? ->]]; [done|]. destruct F2 as [A1 A2 A3 A4 A5]. split; try done.
      * intros p Hp. destruct (A3 p Hp) as [?|(l & h & ? & ? & ? & ? & ?)]; [by left|lia].
      * intros m Hm. lia.
Qed.

(** A retained block is in a range that takes rows. *)
Lemma covered_open s n : inv s → covered s n → history_from s ≤ n → 0 ≤ n →
  ∃ p, p ∈ h_parts s ∧ holds p n ∧ ∀ t, ∃ T, h_tables s !! (t, p_lo p) = Some T ∧ t_at T = InParent.
Proof.
  intros V (p & Hp & Hh) Hf Hn. exists p. split; [done|]. split; [done|]. intros t. apply (v_present s V p t Hp).
  destruct (decide (p_state p = Attached)) as [|Hna]; [done|]. destruct (v_bounds s V p Hp) as (_ & _ & Hb & Hd). destruct (Hd Hna) as (hi & E & Hle).
  destruct (Hb hi E) as [? _]. destruct Hh as [_ Hh]. specialize (Hh hi E). unfold history_from in Hf. destruct (Z.ltb_spec 0 (h_pruned s)); lia.
Qed.
End Ahead.

(** partitions are ready before the blocks come. On a cut history whose top is
    within 32 partitions of two ahead of the head, [EnsurePartitionsAhead] with no
    failure succeeds, whatever gaps the ranges have, and every retained block up to
    two partitions above the head is then in one range whose six tables are in their
    parents, so its rows are accepted. *)
Theorem ensure_covers_ahead head size k s top : inv s → HistoryCut s = true → top_bound s = Some top → is_Some (newest_size s) →
  1 ≤ size < 2 ^ 60 → 0 ≤ head < 2 ^ 62 → top < 2 ^ 63 → head + 2 * size < top + 32 * size →
  ∃ k' s' made, EnsurePartitionsAhead (λ _ s, s) (λ _, Done) head size k s = (k', s', Ok made) ∧
  ∀ n, history_from s ≤ n ≤ head + 2 * size →
    ∃ p, p ∈ h_parts s' ∧ holds p n ∧ ∀ t, ∃ T, h_tables s' !! (t, p_lo p) = Some T ∧ t_at T = InParent.
Proof.
  intros V Hc Ht Hns Hsz Hh Htop Hfar. unfold EnsurePartitionsAhead. destruct (Z.eqb_spec size 0) as [|_]; [lia|].
  destruct (fillHistoryGaps_quiet k s top V Hc Ht Hns) as (k1 & s1 & filled1 & E1 & [V1 F1 N1 P1] & C1).
  assert (∀ p, p ∈ h_parts s1 → ∃ hi, p_hi p = Some hi ∧ hi ≤ top) as Hb.
  { intros p Hp. destruct (N1 p Hp) as [Hp0|?]; [|done]. destruct (cut_bounds s p V Hc Hp0) as (hi & Ehi & _).
    exists hi. split; [done|]. by eapply top_bound_ge. }
  assert (HistoryCut s1 = true) as Hc1 by (apply bounded_cut; intros p Hp; destruct (Hb p Hp) as (hi & ? & _); by exists hi).
  assert (top_bound s1 = Some top) as Ht1.
  { apply top_bound_is; [destruct (top_bound_in s top Ht) as (p & ? & ?); eauto|]. intros p hi Hp Ehi. destruct (Hb p Hp) as (h & ? & ?). by simplify_eq. }
  destruct (ensure_up_quiet maxPartitionsPerEnsure (head + 2 * size) size 0 k1 s1 top V1 Hc1 Ht1) as (k2 & s2 & made & top2 & E2 & Hup & F2);
    [lia|lia|lia|unfold maxPartitionsPerEnsure; lia|].
  exists k2, s2, (filled1 + made). split.
  - unfold bind, ret at 1. rewrite (u64_small size) by (unfold is_u64; lia). rewrite E1.
    rewrite (u64_small (2 * size)), u64_small by (unfold is_u64; lia). unfold EnsureHistoryPartitions. by rewrite E2.
  - intros n Hn. assert (history_from s2 = history_from s) as Hf2 by (rewrite (filled_from _ _ _ _ F2); unfold history_from; by rewrite P1).
    apply covered_open; [apply (fi_inv _ _ _ _ F2)| |lia|].
    + destruct (Z.lt_ge_cases n top); [|apply (fi_covers _ _ _ _ F2); lia].
      destruct (C1 n ltac:(lia)) as (p & Hp & ?). exists p. split; [by apply (fi_keeps _ _ _ _ F2)|done].
    + pose proof (v_pruned s V). unfold history_from in Hn. destruct (Z.ltb_spec 0 (h_pruned s)); lia.
Qed.

(** ** A history *)

(** The cut below block 3 is complete, final and closed; the head is at 15,000. *)
Definition old_rows : gmap Z Z := {[ 1 := 0; 2 := 0 ]}.
Definition new_rows : gmap Z Z := {[ 3 := 100000; 15000 := 200000 ]}.
Definition sample : history :=
  mkHistory [mkPart None (Some 3) Attached; mkPart (Some 3) (Some 20000) Attached]
    (list_to_map (HistoryTables ≫= λ t, [((t, None), mkTable InParent old_rows); ((t, Some 3), mkTable InParent new_rows)]))
    0 0 {[ 3 ]} (Some 2) [] false ∅ ∅.

Lemma sample_tables t sfx T : h_tables sample !! (t, sfx) = Some T →
  (sfx = None ∧ T = mkTable InParent old_rows) ∨ (sfx = Some 3 ∧ T = mkTable InParent new_rows).
Proof.
  intros H%elem_of_list_to_map_2. cbn [h_tables sample] in H. apply list_elem_of_bind in H as (u & H & _).
  apply elem_of_cons in H as [[= -> ->]|H]; [by left|]. apply list_elem_of_singleton in H as [= -> ->]. by right.
Qed.
Lemma sample_part p : p ∈ h_parts sample ↔ p = mkPart None (Some 3) Attached ∨ p = mkPart (Some 3) (Some 20000) Attached.
Proof. cbn [sample h_parts]. rewrite !elem_of_cons, elem_of_nil. tauto. Qed.

Lemma sample_inv : inv sample.
Proof.
  split.
  - apply (bool_decide_eq_true_1 _). vm_compute. reflexivity.
  - intros p [->| ->]%sample_part; cbn [p_lo p_hi p_state]; split_and!; try done; intros ? [= <-]; try lia; split; try lia; intros ? [= <-]; lia.
  - intros t sfx T [[-> ->]|[-> ->]]%sample_tables; [exists (mkPart None (Some 3) Attached)|exists (mkPart (Some 3) (Some 20000) Attached)];
      (split; [apply sample_part; tauto|]); split_and!; try done; cbn [t_rows]; intros n x H; unfold old_rows, new_rows in H;
      rewrite ?lookup_insert_Some, ?lookup_singleton_Some in H; destruct H as [[<- _]|[_ [<- _]]]; (split; [split; intros ? [= <-]; lia|lia]).
  - intros t sfx R. cbn [sample h_archives]. by rewrite lookup_empty.
  - exists (mkPart (Some 3) (Some 20000) Attached). split; [apply sample_part; tauto|]. split; [done|]. intros hi [= <-]. by vm_compute.
  - right. exists (mkPart None (Some 3) Attached). split; [apply sample_part; tauto|done].
  - done.
  - intros t c T. cbn [sample h_checks]. by rewrite lookup_empty.
  - done.
  - intros H. by vm_compute in H.
  - intros p t [->| ->]%sample_part _; [exists (mkTable InParent old_rows)|exists (mkTable InParent new_rows)]; (split; [|done]); destruct t; vm_compute; reflexivity.
  - repeat constructor; unfold part_lt; cbn; lia.
Qed.

Definition sample_config : RetentionConfig := mkRetention 12800 20000 true.
Local Notation sample_pass := (retentionPass (λ _ s, s) (λ _, Done) (λ _, false) 5 None 0 sample_config 0%nat sample).

(** The pass prunes the old range: block 1 is in its archive, block 3 readable. *)
Lemma retention_conserves_witness : h_pruned sample_pass.1.2 = 2 ∧ kept sample_pass.1.2 TBlocks 1 0 ∧ visible sample_pass.1.2 TBlocks 3 100000.
Proof.
  assert (h_pruned sample_pass.1.2 = 2) as Ep by (vm_compute; reflexivity).
  destruct sample_pass as [[k' s'] r] eqn:E. cbn [fst snd] in *.
  destruct (retention_conserves (λ _ s, s) (λ _, Done) (λ _, false) 5 None 0 sample_config 0%nat sample k' s' r) as (_ & _ & Hv & Hk);
    [intros ? ?; apply rtc_refl|cbn; lia|done|lia|apply sample_inv|exact E|].
  split; [done|]. split.
  - apply Hk; [done|]. left. exists None, (mkTable InParent old_rows). split; vm_compute; reflexivity.
  - apply Hv; [|lia]. exists (Some 3), (mkTable InParent new_rows). split_and!; vm_compute; reflexivity.
Defined.

Lemma prune_only_final_witness : ∃ head, stored_head sample = Some head ∧ 2 + 12800 ≤ head ∧ 2 + 1 ∈ h_spans sample.
Proof.
  destruct (prune_advance None sample) as [[s' wm]|] eqn:E; [|by vm_compute in E].
  assert (wm = 2) as ->. { assert ((match prune_advance None sample with Ok (_, w) => w | Err _ => 0 end) = 2) as H by (vm_compute; reflexivity). by rewrite E in H. }
  destruct (prune_only_final None sample s' 2 sample_inv E) as (p & head & dsw & _ & _ & _ & Eh & _ & Hle & _ & Hs & _).
  exists head. done.
Defined.

Lemma cut_margin_outgrows_witness : zlen [(1000, 20); (2000, 60)] ≤ Z.log2 100 + 1.
Proof.
  apply (cut_margin_outgrows (mkRetention 0 10 false) 0 100); [cbn; lia|lia|lia| |].
  - repeat constructor; cbn; lia.
  - cbn [abandons]. unfold near. split_and!; vm_compute; done.
Defined.

Lemma ensure_covers_ahead_witness :
  ∃ p, p ∈ h_parts (EnsurePartitionsAhead (λ _ s, s) (λ _, Done) 15000 20000 0%nat sample).1.2 ∧ holds p 55000.
Proof.
  destruct (ensure_covers_ahead 15000 20000 0%nat sample 20000) as (k' & s' & made & -> & H); [apply sample_inv|done|done|by eexists|lia|lia|lia|lia|].
  destruct (H 55000) as (p & Hp & Hh & _); [vm_compute; split; discriminate|]. exists p. done.
Defined.
