(* ===== verification/Wipe.v ===== *)
(** * The wipe of a reset chain, stopped anywhere

    [WipeAllData] and [ResumeInterruptedWipe] of [internal/db/queries.go], with
    [coverHistoryFromZero] of [retention.go]: every table of the old chain emptied, one
    statement after another, under a mark that the next start finds. Nobody else writes:
    the workers start after the wipe. The history tables and what retention keeps are
    [Retention]'s; the other tables are lists of rows. *)

From S2P Require Import Prelude SqlOrder Retention RetentionSafe.
Local Open Scope string_scope.

Record chain_db := mkDb { d_history : history; d_tables : gmap string (list string); d_verify : gmap string Z }.
Definition set_history (h : history) (y : chain_db) : chain_db := mkDb h (d_tables y) (d_verify y).
Definition set_others (m : gmap string (list string)) (y : chain_db) : chain_db := mkDb (d_history y) m (d_verify y).
Definition set_verify (v : gmap string Z) (y : chain_db) : chain_db := mkDb (d_history y) (d_tables y) v.

Definition WipeMarkTable : string := "wipe_in_progress".
Definition DailyStatsRefillTable : string := "daily_stats_refill".
Definition AddressStatsRepairTable : string := "address_stats_repair".
Definition addressStatsRepairTotalTable : string := "address_stats_repair_total".
Definition addressRepairCursor : string := "address_repair_next".
Definition rebase_stage : string := "address_rebase_stage".
Definition check_progress : list string := ["address_reconcile_next"; "address_days_recount"; "running_cycles"].

(** The tables the wipe truncates, in its order. *)
Definition wiped_tables : list string :=
  ["daily_stats"; "daily_stats_acc"; "daily_active_addresses"; "daily_stats_watermark";
   "internal_transactions"; "logs"; "token_transfers"; "balances"; "token_balances_current"; "nft_tokens";
   "op_deposits"; "contracts"; "transactions"; "blocks"; "tokens"; "counters"; "chain_counters"; "address_stats";
   "indexer_progress"; "missing_block_ranges"; "sync_status";
   "ledger_address"; "ledger_token"; "ledger_chain"; "ledger_spans"; "history_archives"; "balance_rereads";
   "ledger_stage_address"; "ledger_stage_token"; "ledger_stage_chain"; "ledger_repairs"; "ledger_quarantine";
   "ledger_reverted_address"; "stats_backfill_balance_keys"; "stats_backfill"; "daily_stats_base"; "daily_active_base"].

Definition history_table (t : string) : option htable :=
  if String.eqb t "blocks" then Some TBlocks else if String.eqb t "transactions" then Some TTransactions
  else if String.eqb t "logs" then Some TLogs else if String.eqb t "token_transfers" then Some TTokenTransfers
  else if String.eqb t "internal_transactions" then Some TInternalTransactions
  else if String.eqb t "balances" then Some TBalances else None.

(** [TRUNCATE] of a partitioned table reaches the partitions in it; one that is
    detached, or being detached, keeps its rows. The foreign keys a [CASCADE] follows
    lead to tables of the same list. *)
Definition empty_rows (t : htable) (m : gmap (htable * option Z) ptable) : gmap (htable * option Z) ptable :=
  map_imap (λ k T, Some (if decide (k.1 = t ∧ t_at T = InParent) then mkTable InParent ∅ else T)) m.

(** What [Retention] reads of the other tables. *)
Definition forget (t : string) (s : history) : history :=
  let '(mkHistory parts tables pruned ts spans daily missing backfilling archives checks) := s in
  if String.eqb t "ledger_spans" then mkHistory parts tables pruned ts ∅ daily missing backfilling archives checks
  else if String.eqb t "daily_stats_watermark" then mkHistory parts tables pruned ts spans None missing backfilling archives checks
  else if String.eqb t "missing_block_ranges" then mkHistory parts tables pruned ts spans daily [] backfilling archives checks
  else if String.eqb t "stats_backfill" then mkHistory parts tables pruned ts spans daily missing false archives checks
  else if String.eqb t "history_archives" then mkHistory parts tables pruned ts spans daily missing backfilling ∅ checks
  else s.

Definition truncate_rows (t : string) (m : gmap string (list string)) : gmap string (list string) :=
  match history_table t with Some _ => m | None => <[t := []]> m end.
Definition truncate_history (t : string) (s : history) : history :=
  match history_table t with Some ht => set_tables (empty_rows ht (h_tables s)) s | None => forget t s end.
Definition truncate (t : string) (y : chain_db) : res rerr chain_db :=
  match history_table t, d_tables y !! t with
  | None, None => Err SqlRefused
  | _, _ => Ok (mkDb (truncate_history t (d_history y)) (truncate_rows t (d_tables y)) (d_verify y))
  end.

Definition drop_tables_if_exist (l : list string) (y : chain_db) : chain_db := set_others (foldr delete (d_tables y) l) y.
Definition insert_row (t row : string) (y : chain_db) : res rerr chain_db :=
  match d_tables y !! t with Some rows => Ok (set_others (<[t := (rows ++ [row])%list]> (d_tables y)) y) | None => Err SqlRefused end.
Definition sync_seed : string := "(0, false)".
Definition progress_seed : string := "(0, 0, false)".

Section Wipe.
Context (out : nat → ending) (dependents : nat → bool).
Local Notation quiet := (λ (_ : nat) (s : history), s).

(** ** Statements *)

Definition W (A : Type) : Type := nat → chain_db → nat * chain_db * res rerr A.
Definition w_ret {A} (a : A) : W A := λ k y, (k, y, Ok a).
Definition w_bind {A B} (m : W A) (f : A → W B) : W B :=
  λ k y, match m k y with (k, y, Ok a) => f a k y | (k, y, Err e) => (k, y, Err e) end.
Definition on_history {A} (m : M A) : W A :=
  λ k y, match m k (d_history y) with (k, h, r) => (k, set_history h y, r) end.
(** A statement fails, is done, or is done and its answer lost. *)
Definition w_exec (f : chain_db → res rerr chain_db) : W unit :=
  λ k y, match out k, f y with
         | Fails, _ => (S k, y, Err Lost)
         | _, Err e => (S k, y, Err e)
         | Done, Ok y => (S k, y, Ok tt)
         | Waited, Ok y => (S k, y, Err Lost)
         end.
Definition w_query {A} (f : chain_db → A) : W A :=
  λ k y, match out k with Done => (S k, y, Ok (f y)) | _ => (S k, y, Err Lost) end.
Local Notation "'do' x ← m ; k" := (w_bind m (λ x, k)) (at level 200, x pattern, m at level 100, k at level 200).

(** ** coverHistoryFromZero *)

Fixpoint drop_ranges (l : list (option Z * part_state)) : M unit :=
  match l with
  | [] => ret tt
  | (sfx, st) :: l =>
      bind (if decide (st = Detaching) then detachRange quiet out sfx else ret tt) (λ _,
      bind (dropRange quiet out dependents sfx) (λ _, drop_ranges l))
  end.
Definition coverHistoryFromZero : M unit :=
  bind (query quiet out not_attached) (λ l,
  bind (drop_ranges l) (λ _,
  bind (fillHistoryGaps quiet out) (λ _, ret tt))).

(** ** WipeAllData *)

Fixpoint truncate_all (ts : list string) : W unit :=
  match ts with
  | [] => w_ret tt
  | t :: ts => do _ ← w_exec (truncate t); truncate_all ts
  end.

Definition reset_progress (v : gmap string Z) : gmap string Z :=
  map_imap (λ n x, Some (if decide (n ∈ check_progress) then 0 else x)) v.
Definition reset_pruned (y : chain_db) : chain_db := set_history (set_pruned 0 0 (h_missing (d_history y)) (d_history y)) y.

Definition WipeAllData : W unit :=
  do _ ← on_history (gate quiet out);
  do _ ← w_exec (λ y, Ok (set_others (<[WipeMarkTable := default [] (d_tables y !! WipeMarkTable)]> (d_tables y)) y));
  do _ ← w_exec (λ y, Ok (drop_tables_if_exist [DailyStatsRefillTable; AddressStatsRepairTable; addressStatsRepairTotalTable] y));
  do _ ← w_exec (λ y, Ok (set_verify (delete addressRepairCursor (d_verify y)) y));
  do _ ← w_exec (λ y, Ok (set_verify (reset_progress (d_verify y)) y));
  do _ ← w_exec (λ y, Ok (drop_tables_if_exist [rebase_stage] y));
  do _ ← truncate_all wiped_tables;
  do _ ← w_exec (insert_row "sync_status" sync_seed);
  do _ ← w_exec (insert_row "indexer_progress" progress_seed);
  do _ ← w_exec (λ y, Ok (reset_pruned y));
  do _ ← on_history coverHistoryFromZero;
  w_exec (λ y, Ok (drop_tables_if_exist [WipeMarkTable] y)).

Definition marked (y : chain_db) : bool := bool_decide (is_Some (d_tables y !! WipeMarkTable)).
Definition ResumeInterruptedWipe : W unit :=
  do m ← w_query marked;
  if m : bool then WipeAllData else w_ret tt.
End Wipe.

(** One start of the process: [Reconcile] resumes a wipe first; past it, [Start] wipes
    when the chain was reset ([wants]). [true]: the start got past its wipe, and the
    workers run. *)
Record attempt := mkAttempt { a_out : nat → ending; a_dependents : nat → bool; a_wants : bool }.
Definition start_once (a : attempt) (y : chain_db) : chain_db * bool :=
  match ResumeInterruptedWipe (a_out a) (a_dependents a) 0%nat y with
  | (k, y, Ok _) => if a_wants a then match WipeAllData (a_out a) (a_dependents a) k y with (_, y, Ok _) => (y, true) | (_, y, Err _) => (y, false) end
                    else (y, true)
  | (_, y, Err _) => (y, false)
  end.
(** Starts in a row that did not get past it. *)
Fixpoint failed_starts (l : list attempt) (y : chain_db) : option chain_db :=
  match l with
  | [] => Some y
  | a :: l => match start_once a y with (y, false) => failed_starts l y | (_, true) => None end
  end.
