(* ===== verification/WipeProps.v ===== *)
(** * A wipe is finished or not begun

    However often the process stops inside a wipe, a start that gets past it runs on the
    old database or on an empty one. *)

From S2P Require Import Prelude SqlOrder Retention RetentionSafe Wipe.

Ltac computed := apply (bool_decide_unpack _); vm_compute; exact I.

(** ** The catalogue stays usable *)

Record usable (s : history) : Prop := {
  us_names : NoDup (p_lo <$> h_parts s);
  us_bounds : ∀ p lo, p ∈ h_parts s → p_lo p = Some lo → ∃ hi, p_hi p = Some hi ∧ lo < hi;
  us_tables : ∀ t sfx T, h_tables s !! (t, sfx) = Some T → ∃ p, p ∈ h_parts s ∧ p_lo p = sfx ∧ (t_at T ≠ InParent → p_state p ≠ Attached) }.

Lemma inv_usable s : inv s → usable s.
Proof.
  intros V. split; [apply V| |].
  - intros p lo Hp Hlo. destruct (v_bounds s V p Hp) as (Hn & _ & Hb & _). destruct (p_hi p) as [hi|]; [|by rewrite Hn in Hlo].
    exists hi. split; [done|]. by apply (Hb hi eq_refl).
  - intros t sfx T HT. destruct (v_tables s V t sfx T HT) as (p & Hp & Hlo & _ & Ha & _). eauto.
Qed.

(** Nothing of the old chain where readers look, and nothing retention remembers. *)
Record blank (s : history) : Prop := {
  bl_rows : ∀ k T, h_tables s !! k = Some T → t_at T = InParent → t_rows T = ∅;
  bl_pruned : h_pruned s = 0 ∧ h_pruned_ts s = 0;
  bl_rest : h_spans s = ∅ ∧ h_daily s = None ∧ h_missing s = [] ∧ h_backfilling s = false ∧ h_archives s = ∅ }.

Definition ok (s : history) : Prop := usable s ∧ blank s.
Definition all_attached (s : history) : Prop := ∀ p, p ∈ h_parts s → p_state p = Attached.

Lemma empty_rows_lookup (t : htable) (m : gmap (htable * option Z) ptable) (k : htable * option Z) : empty_rows t m !! k = (λ T, if decide (k.1 = t ∧ t_at T = InParent) then mkTable InParent ∅ else T) <$> m !! k.
Proof. unfold empty_rows. rewrite map_lookup_imap. by destruct (m !! k). Qed.

Lemma set_at_ok t sfx a s : ok s → (∀ p, p ∈ h_parts s → p_lo p = sfx → p_state p ≠ Attached) → a ≠ InParent → ok (set_at t sfx a s).
Proof.
  intros [[U1 U2 U3] [B1 B2 B3]] Hr Ha. split; split; try done; cbn [set_at set_tables h_tables h_parts].
  - intros t' sfx' T'. rewrite lookup_alter_Some. intros [(E & T & HT & ->)|[_ HT]]; [|eauto].
    injection E as <- <-. destruct (U3 _ _ _ HT) as (p & Hp & Hlo & _). eauto.
  - intros k T'. rewrite lookup_alter_Some. intros [(<- & T & HT & ->)|[_ HT]]; [by intros|eauto].
Qed.

Lemma set_state_ok sfx s : ok s → ok (set_state sfx Detached s).
Proof.
  intros [[U1 U2 U3] B]. split; [|by destruct B; split]. split; cbn [set_state set_parts h_parts h_tables].
  - rewrite <- list_fmap_compose. erewrite list_fmap_ext; [exact U1|]. intros i p _. cbn. by case_decide.
  - intros p lo (q & -> & Hq)%list_elem_of_fmap. case_decide; cbn [p_lo p_hi]; eauto.
  - intros t sfx' T HT. destruct (U3 _ _ _ HT) as (p & Hp & Hlo & Hs). eexists. split; [apply list_elem_of_fmap; eexists; eauto|].
    case_decide; cbn [p_lo p_state]; eauto.
Qed.

Lemma drop_table_ok t sfx s : ok s → ok (set_tables (delete (t, sfx) (h_tables s)) s).
Proof.
  intros [[U1 U2 U3] [B1 B2 B3]]. split; split; try done; cbn [set_tables h_tables h_parts].
  - intros t' sfx' T [_ HT]%lookup_delete_Some. eauto.
  - intros k T [_ HT]%lookup_delete_Some. eauto.
Qed.
Lemma drop_part_ok sfx s : ok s → dropped_in HistoryTables sfx s → ok (set_parts (filter (λ p, p_lo p ≠ sfx) (h_parts s)) s).
Proof.
  intros [[U1 U2 U3] [B1 B2 B3]] Hd. split; split; try done; cbn [set_parts h_tables h_parts].
  - eapply sublist_NoDup; [exact U1|]. apply fmap_sublist, sublist_filter.
  - intros p lo [_ Hp]%list_elem_of_filter. eauto.
  - intros t sfx' T HT. destruct (U3 _ _ _ HT) as (p & Hp & Hlo & Hs). exists p. split; [|done]. apply list_elem_of_filter. split; [|done].
    rewrite Hlo. intros ->. by rewrite (Hd t (elem_of_HistoryTables t)) in HT.
Qed.

(** A range that overlaps none has no table and no name of it. *)
Lemma create_ok lo hi s : ok s → lo < hi → existsb (overlaps lo hi) (h_parts s) = false →
  ∃ s', history_partition_create lo hi s = Ok s' ∧ ok s' ∧ (all_attached s → all_attached s').
Proof.
  intros [[U1 U2 U3] [B1 B2 B3]] Hlt Ho.
  assert (∀ p, p ∈ h_parts s → p_lo p ≠ Some lo) as Hno.
  { intros p Hp Hlo. destruct (U2 p lo Hp Hlo) as (h & Hh & Hl). pose proof (overlaps_false lo hi s p Ho Hp) as E. unfold overlaps in E.
    rewrite Hlo, Hh in E. cbn in E. destruct (Z.ltb_spec lo hi); [|lia]. destruct (Z.ltb_spec lo h); [done|lia]. }
  assert (∃ s', history_partition_create lo hi s = Ok s') as [s' Hc].
  { unfold history_partition_create. destruct (existsb _ HistoryTables) eqn:E1.
    - exfalso. apply existsb_exists in E1 as (t & _ & E). apply orb_true_iff in E as [[T HT]%bool_decide_eq_true|E].
      + destruct (U3 _ _ _ HT) as (p & Hp & Hlo & _). by apply (Hno p).
      + apply existsb_exists in E as (p & Hp%list_elem_of_In & E). by rewrite (overlaps_false lo hi s p Ho Hp), andb_false_r in E.
    - cbn [orb]. case_bool_decide as E2; [|by eexists]. destruct E2 as [p [Hp Hlo]%of_suffix_Some]. exfalso. by apply (Hno p). }
  exists s'. split; [done|]. unfold history_partition_create in Hc.
  pose proof (history_partition_create_Ok lo hi s s') as Hcr. unfold history_partition_create in Hcr. specialize (Hcr Hc).
  destruct (_ || _); [done|]. injection Hc as <-.
  set (s' := set_parts _ _) in *. assert (∀ p, p ∈ h_parts s' ↔ p = mkPart (Some lo) (Some hi) Attached ∨ p ∈ h_parts s) as Hin
    by (intros p; rewrite (c_parts _ _ _ _ Hcr); apply elem_of_cons).
  split; [split; split|].
  - rewrite (c_parts _ _ _ _ Hcr). cbn. constructor; [|done]. intros (p & E & Hp)%list_elem_of_fmap. by apply (Hno p).
  - intros p l [->|Hp]%Hin; cbn; [intros [= <-]; eauto|]. eauto.
  - intros t sfx T. rewrite (c_tables _ _ _ _ Hcr). case_decide as E.
    + intros [= <-]. eexists. split; [apply Hin; by left|]. split; [done|by intros].
    + intros HT. destruct (U3 _ _ _ HT) as (p & Hp & ?). exists p. split; [apply Hin; by right|done].
  - intros [t sfx] T. rewrite (c_tables _ _ _ _ Hcr). case_decide; [by intros [= <-]|]. apply B1.
  - done.
  - done.
  - intros Ha p [->|Hp]%Hin; [done|auto].
Qed.

(** ** Calls that keep what they find *)

Section Cover.
Context (out : nat → ending) (dependents : nat → bool).
Local Notation quiet := (λ (_ : nat) (s : history), s).
(** No statement fails and nothing depends on a range. *)
Definition healthy : Prop := (∀ k, out k = Done) ∧ (∀ k, dependents k = false).

Definition keepsok {A} (P : history → Prop) (m : M A) (Q : A → history → Prop) : Prop :=
  ∀ k s, ok s → P s → match m k s with (_, s', Ok a) => ok s' ∧ Q a s' | (_, s', Err _) => ok s' ∧ ¬ healthy end.

Lemma ko_ret {A} (P : history → Prop) (a : A) (Q : A → history → Prop) : (∀ s, P s → Q a s) → keepsok P (ret a) Q.
Proof. intros H k s Hs Hp. cbn. auto. Qed.
Lemma ko_bind {A B} (P : history → Prop) (m : M A) (f : A → M B) (Q : A → history → Prop) (R : B → history → Prop) :
  keepsok P m Q → (∀ a, keepsok (Q a) (f a) R) → keepsok P (bind m f) R.
Proof.
  intros Hm Hf k s Hs Hp. unfold bind. specialize (Hm k s Hs Hp). destruct (m k s) as [[k' s'] [a|e]]; [|done]. destruct Hm. by apply Hf.
Qed.
Lemma ko_exec {A} (P : history → Prop) busy (f : history → res rerr (history * A)) (Q : A → history → Prop) :
  (∀ s, ok s → P s → ok (busy s).1 ∧ ∃ s' a, f s = Ok (s', a) ∧ ok s' ∧ Q a s') → keepsok P (exec quiet out busy f) Q.
Proof.
  intros H k s Hs Hp. unfold exec. destruct (H s Hs Hp) as (Hb & s' & a & E & Hok & Hq). unfold healthy.
  destruct (out k) eqn:Eo; [by rewrite E| |]; (split; [done|]); intros [Hd _]; by rewrite Hd in Eo.
Qed.
Lemma ko_query {A} (P : history → Prop) (f : history → A) (Q : A → history → Prop) : (∀ s, ok s → P s → Q (f s) s) → keepsok P (query quiet out f) Q.
Proof. intros H. apply ko_exec. intros s Hs Hp. split; [done|]. eauto 10. Qed.
Lemma ko_update (P : history → Prop) (f : history → history) (Q : unit → history → Prop) : (∀ s, ok s → P s → ok (f s) ∧ Q tt (f s)) → keepsok P (update quiet out f) Q.
Proof. intros H. apply ko_exec. intros s Hs Hp. split; [done|]. destruct (H s Hs Hp). eauto 10. Qed.
Lemma ko_pre {A} (P P' : history → Prop) (m : M A) (Q : A → history → Prop) : (∀ s, P s → P' s) → keepsok P' m Q → keepsok P m Q.
Proof. intros H Hm k s Hs Hp. apply Hm; auto. Qed.

(** The ranges still to go: each name in the list is of a range past the watermark. *)
Definition left_over (l : list (option Z)) (s : history) : Prop :=
  (∀ p, p ∈ h_parts s → p_state p ≠ Attached → p_lo p ∈ l) ∧ (∀ p, p ∈ h_parts s → p_lo p ∈ l → p_state p ≠ Attached).

Lemma detach_tables_ok ts sfx l : sfx ∈ l → keepsok (left_over l) (detach_tables quiet out ts sfx) (λ _ s, left_over l s).
Proof.
  intros Hsfx. induction ts as [|t ts IH]; cbn [detach_tables]; [by apply ko_ret|].
  apply (ko_bind _ _ _ (λ _ s, left_over l s)); [by apply ko_query|]. intros there.
  apply (ko_bind _ _ _ (λ _ s, left_over l s)); [|done]. destruct there; [|by apply ko_ret].
  apply ko_exec. intros s Hs Hl. assert (∀ p, p ∈ h_parts s → p_lo p = sfx → p_state p ≠ Attached) as Hr by (intros p Hp <-; by apply Hl).
  split; [cbn; destruct (inherited t sfx s); [by apply set_at_ok|done]|]. eexists _, _. split; [done|].
  destruct (inherited t sfx s); [split; [by apply set_at_ok|done]|done].
Qed.

Lemma set_state_left sfx l s : sfx ∈ l → left_over l s → left_over l (set_state sfx Detached s).
Proof.
  intros Hsfx [H1 H2]. split; cbn [set_state set_parts h_parts]; intros p (q & -> & Hq)%list_elem_of_fmap; case_decide; cbn [p_lo p_state]; subst; auto.
Qed.
Lemma detachRange_ok sfx l : sfx ∈ l → keepsok (left_over l) (detachRange quiet out sfx) (λ _ s, left_over l s).
Proof.
  intros Hsfx. unfold detachRange. apply (ko_bind _ _ _ (λ _ s, left_over l s)); [by apply detach_tables_ok|]. intros _. apply ko_update.
  intros s Hs Hl. split; [by apply set_state_ok|by apply set_state_left].
Qed.

Lemma drop_tables_ok ts sfx l done_ : keepsok (λ s, left_over l s ∧ dropped_in done_ sfx s) (drop_tables quiet out ts sfx) (λ _ s, left_over l s ∧ dropped_in (ts ++ done_)%list sfx s).
Proof.
  revert done_. induction ts as [|t ts IH]; intros done_; cbn [drop_tables]; [by apply ko_ret|].
  apply (ko_bind _ _ _ (λ _ s, left_over l s ∧ dropped_in (t :: done_) sfx s)).
  - apply ko_exec. intros s Hs [Hl Hd]. split; [done|]. eexists _, _. split; [done|]. split; [by apply drop_table_ok|]. split; [done|].
    intros t' [->|Ht]%elem_of_cons; cbn [set_tables h_tables]; [by rewrite lookup_delete_eq|]. apply lookup_delete_None. right. by apply Hd.
  - intros _. intros k s Hs Hp. specialize (IH (t :: done_) k s Hs Hp). destruct (drop_tables _ _ _ _ _ _) as [[k' s'] [u|]]; [|done].
    destruct IH as (H1 & H2 & H3). split_and!; [done|done|]. intros t' Ht. apply H3. set_solver.
Qed.

Lemma dropRange_ok sfx l : keepsok (left_over (sfx :: l)) (dropRange quiet out dependents sfx) (λ _ s, left_over l s).
Proof.
  unfold dropRange. apply (ko_bind _ _ _ (λ d s, left_over (sfx :: l) s ∧ (d = true → ¬ healthy))).
  - intros k s Hs Hl. unfold query, exec, healthy. destruct (out k) eqn:E; (split; [done|]).
    + split; [done|]. intros Ed [_ Hd]. by rewrite Hd in Ed.
    + intros [Hd _]. by rewrite Hd in E.
    + intros [Hd _]. by rewrite Hd in E.
  - intros deps. destruct deps; [intros k s Hs [_ Hn]; cbn; split; [done|by apply Hn]|].
    apply (ko_bind _ _ _ (λ _ s, left_over (sfx :: l) s ∧ dropped_in HistoryTables sfx s)).
    + intros k s Hs [Hl _]. assert (left_over (sfx :: l) s ∧ dropped_in [] sfx s) as Hp by (split; [done|by intros t ?%not_elem_of_nil]).
      pose proof (drop_tables_ok HistoryTables sfx (sfx :: l) [] k s Hs Hp) as H.
      destruct (drop_tables _ _ _ _ _ _) as [[k' s'] [u|]]; [|done]. by rewrite app_nil_r in H.
    + intros _. apply ko_update. intros s Hs [[H1 H2] Hd]. split; [by apply drop_part_ok|].
      split; cbn [set_parts h_parts]; intros p [Hne Hp]%list_elem_of_filter.
      * intros Hp'. apply (H1 p Hp), elem_of_cons in Hp' as [?|?]; [by destruct Hne|done].
      * intros Hin. apply H2; [done|by right].
Qed.

Lemma drop_ranges_ok l : keepsok (left_over l.*1) (drop_ranges out dependents l) (λ _ s, left_over [] s).
Proof.
  induction l as [|[sfx st] l IH]; cbn [drop_ranges]; [by apply ko_ret|].
  apply (ko_bind _ _ _ (λ _ s, left_over (sfx :: l.*1) s)).
  - case_decide; [|by apply ko_ret]. apply detachRange_ok. left.
  - intros _. apply (ko_bind _ _ _ (λ _ s, left_over l.*1 s)); [apply dropRange_ok|]. by intros _.
Qed.

Lemma createInGap_ok lo hi : lo < hi → keepsok all_attached (createInGap quiet out lo hi) (λ _ s, all_attached s).
Proof.
  intros Hlt. unfold createInGap. apply ko_exec. intros s Hs Ha. split; [done|].
  destruct (lo <? history_from s); [by eauto 10|]. cbn [orb]. destruct (existsb _ _) eqn:Eo; [by eauto 10|].
  destruct (create_ok lo hi s Hs Hlt Eo) as (s' & -> & Hs' & Ha'). cbn. eauto 10.
Qed.
Lemma fill_gap_ok fuel g lo size made : 0 < size → g.1 ≤ lo → keepsok all_attached (fill_gap quiet out fuel g lo size made) (λ _ s, all_attached s).
Proof.
  intros Hsz. revert lo made. induction fuel as [|fuel IH]; intros lo made Hg; cbn [fill_gap]; [by apply ko_ret|].
  destruct (Z.ltb_spec lo g.2) as [Hlt|]; [|by apply ko_ret]. match goal with |- context [createInGap _ _ lo ?h] => set (hi := h) end.
  assert (lo < hi) as Hhi.
  { subst hi. destruct (_ && _) eqn:E; [|lia]. apply andb_true_iff in E as [->%Z.eqb_eq E2%negb_true_iff%Z.eqb_neq].
    pose proof (Z.rem_nonneg (g.2 - g.1) size ltac:(lia) ltac:(lia)). lia. }
  apply (ko_bind _ _ _ (λ _ s, all_attached s)); [by apply createInGap_ok|]. intros [|]; [apply IH; lia|by apply ko_ret].
Qed.
Lemma fill_gaps_ok gs size made : gs = [] ∨ 0 < size → keepsok all_attached (fill_gaps quiet out gs size made) (λ _ s, all_attached s).
Proof.
  intros Hsz. revert made. induction gs as [|g gs IH]; intros made; cbn [fill_gaps]; [by apply ko_ret|]. destruct Hsz as [|Hsz]; [done|].
  apply (ko_bind _ _ _ (λ _ s, all_attached s)); [by apply fill_gap_ok|]. intros [made' [|]]; [apply IH; by right|by apply ko_ret].
Qed.
Lemma newest_size_usable s z : usable s → newest_size s = Some z → 0 < z.
Proof.
  intros [_ U2 _]. unfold newest_size. destruct (last _) as [p|] eqn:E; [|done].
  assert (p ∈ h_parts s) as Hp by (apply last_Some in E as [l' E]; assert (p ∈ filter (λ p, is_Some (p_lo p) ∧ is_Some (p_hi p)) (h_parts s)) as H
    by (rewrite E; set_solver); by apply list_elem_of_filter in H as [_ ?]).
  destruct p as [[lo|] [hi|] st]; try done. intros [= <-]. destruct (U2 _ lo Hp eq_refl) as (h & [= <-] & ?). lia.
Qed.
Lemma fillHistoryGaps_ok : keepsok all_attached (fillHistoryGaps quiet out) (λ _ s, all_attached s).
Proof.
  unfold fillHistoryGaps. apply (ko_bind _ _ _ (λ r s, all_attached s ∧ (r.2 = [] ∨ 0 < default 0 r.1))).
  - apply ko_query. intros s [U _] Ha. split; [done|]. unfold snapshot. cbn. destruct (newest_size s) as [z|] eqn:E; [right|by left].
    by apply (newest_size_usable s).
  - intros [size gs] k s Hs [Ha Hsz]. by apply fill_gaps_ok.
Qed.

(** Whatever fails, the history stays blank; done, only attached ranges are left. *)
Lemma cover_ok : keepsok (λ _, True) (coverHistoryFromZero out dependents) (λ _ s, all_attached s).
Proof.
  unfold coverHistoryFromZero. apply (ko_bind _ _ _ (λ l s, left_over l.*1 s)).
  - apply ko_query. intros s [[U1 _ _] _] _. unfold not_attached. split; intros p Hp.
    + intros Hst. apply list_elem_of_fmap. exists (p_lo p, p_state p). split; [done|]. apply list_elem_of_fmap. exists p. split; [done|]. by apply list_elem_of_filter.
    + intros ([lo st] & E & (q & [= -> ->] & [Hq Hin]%list_elem_of_filter)%list_elem_of_fmap)%list_elem_of_fmap. cbn in E.
      assert (p = q) as ->; [|done]. apply list_elem_of_lookup in Hp as [i Hi], Hin as [j Hj].
      assert (i = j) as ->; [|congruence]. eapply (NoDup_lookup _ _ _ (p_lo p) U1); rewrite list_lookup_fmap; [by rewrite Hi|rewrite Hj; by rewrite E].
  - intros l. apply (ko_bind _ _ _ (λ _ s, left_over [] s)); [apply drop_ranges_ok|]. intros _.
    apply (ko_pre _ all_attached).
    { intros s [H _] p Hp. destruct (decide (p_state p = Attached)) as [|Hn]; [done|]. by apply H, not_elem_of_nil in Hn. }
    apply (ko_bind _ _ _ (λ _ s, all_attached s)); [apply fillHistoryGaps_ok|]. intros _. by apply ko_ret.
Qed.
End Cover.

(** ** What a wipe leaves *)

Definition schema (y : chain_db) : Prop := ∀ t, t ∈ wiped_tables → history_table t = None → is_Some (d_tables y !! t).
Definition seed (t : string) : list string :=
  if String.eqb t "sync_status" then [sync_seed] else if String.eqb t "indexer_progress" then [progress_seed] else [].

Definition sound (y : chain_db) : Prop := usable (d_history y) ∧ schema y.
Definition begun (y : chain_db) : Prop := is_Some (d_tables y !! WipeMarkTable) ∧ sound y.

(** A database with nothing of the old chain: every table empty but for the rows the
    migrations seed, every partition attached and empty, nothing pruned, closed, staged
    or checked, no mark. *)
Record fresh (y : chain_db) : Prop := {
  fr_sound : sound y;
  fr_tables : ∀ t, t ∈ wiped_tables → history_table t = None → d_tables y !! t = Some (seed t);
  fr_rows : ∀ k T, h_tables (d_history y) !! k = Some T → t_at T = InParent ∧ t_rows T = ∅;
  fr_parts : all_attached (d_history y);
  fr_rest : h_pruned (d_history y) = 0 ∧ h_pruned_ts (d_history y) = 0 ∧ h_spans (d_history y) = ∅ ∧ h_daily (d_history y) = None ∧
    h_missing (d_history y) = [] ∧ h_backfilling (d_history y) = false ∧ h_archives (d_history y) = ∅;
  fr_staged : ∀ t, t ∈ [WipeMarkTable; DailyStatsRefillTable; AddressStatsRepairTable; addressStatsRepairTotalTable; rebase_stage] → d_tables y !! t = None;
  fr_verify : d_verify y !! addressRepairCursor = None ∧ ∀ n x, n ∈ check_progress → d_verify y !! n = Some x → x = 0 }.

Lemma not_wiped t : t ∈ [WipeMarkTable; DailyStatsRefillTable; AddressStatsRepairTable; addressStatsRepairTotalTable; rebase_stage] → t ∉ wiped_tables.
Proof.
  intros Ht. assert (Forall (λ t, t ∉ wiped_tables) [WipeMarkTable; DailyStatsRefillTable; AddressStatsRepairTable; addressStatsRepairTotalTable; rebase_stage]) as H.
  { computed. }
  rewrite Forall_forall in H. by apply H.
Qed.

(** ** Truncating *)

Definition truncated (ts : list string) (y : chain_db) : chain_db :=
  foldl (λ y t, mkDb (truncate_history t (d_history y)) (truncate_rows t (d_tables y)) (d_verify y)) y ts.

Lemma truncated_app ts us y : truncated (ts ++ us) y = truncated us (truncated ts y).
Proof. apply foldl_app. Qed.
Lemma truncated_snoc ts t y : truncated (ts ++ [t]) y =
  mkDb (truncate_history t (d_history (truncated ts y))) (truncate_rows t (d_tables (truncated ts y))) (d_verify (truncated ts y)).
Proof. by rewrite truncated_app. Qed.

Lemma forget_same t s : h_parts (forget t s) = h_parts s ∧ h_tables (forget t s) = h_tables s.
Proof. destruct s. unfold forget. by repeat case_match. Qed.

Lemma truncate_history_tables t s : ∀ k T', h_tables (truncate_history t s) !! k = Some T' → ∃ T, h_tables s !! k = Some T ∧ t_at T' = t_at T ∧ (t_rows T' = ∅ ∨ T' = T).
Proof.
  intros k T'. unfold truncate_history. destruct (history_table t) as [ht|].
  - cbn [set_tables h_tables]. rewrite empty_rows_lookup. destruct (h_tables s !! k) as [T|] eqn:E; [|done]. intros [= <-]. exists T. split; [done|].
    case_decide as Hd; [destruct Hd as [_ ->]; by auto|by auto].
  - rewrite (proj2 (forget_same t s)). intros HT. exists T'. auto.
Qed.
Lemma truncate_history_parts t s : h_parts (truncate_history t s) = h_parts s.
Proof.
  unfold truncate_history. destruct (history_table t); [done|]. apply forget_same.
Qed.
Lemma truncate_usable t s : usable s → usable (truncate_history t s).
Proof.
  intros [U1 U2 U3]. split; rewrite ?truncate_history_parts; [done|done|].
  intros t' sfx T' (T & HT & Ha & _)%truncate_history_tables. rewrite Ha. eauto.
Qed.

Lemma truncate_rows_lookup t u (m : gmap string (list string)) :
  truncate_rows t m !! u = if decide (t = u ∧ history_table u = None) then Some [] else m !! u.
Proof.
  unfold truncate_rows. destruct (history_table t) as [ht|] eqn:E; case_decide as Hd.
  - destruct Hd as [-> Hd]. congruence.
  - done.
  - destruct Hd as [-> _]. by rewrite lookup_insert_eq.
  - rewrite lookup_insert_ne; [done|]. intros ->. by apply Hd.
Qed.
Lemma truncated_rows ts y u : d_tables (truncated ts y) !! u = if decide (u ∈ ts ∧ history_table u = None) then Some [] else d_tables y !! u.
Proof.
  induction ts as [|t ts IH] using rev_ind; [by rewrite decide_False by (by intros [?%not_elem_of_nil _])|].
  rewrite truncated_snoc. cbn [d_tables]. rewrite truncate_rows_lookup, IH.
  repeat case_decide; try done; exfalso; set_solver.
Qed.
Lemma truncated_verify ts y : d_verify (truncated ts y) = d_verify y.
Proof. induction ts as [|t ts IH] using rev_ind; [done|]. by rewrite truncated_snoc. Qed.

(** A column that truncating [n] resets and no other does. *)
Lemma truncated_field {B} (f : history → B) (n : string) (z : B) :
  (∀ t s, f (truncate_history t s) = if String.eqb t n then z else f s) → ∀ ts y, n ∈ ts → f (d_history (truncated ts y)) = z.
Proof.
  intros Hf ts y. induction ts as [|t ts IH] using rev_ind; [by intros ?%not_elem_of_nil|].
  intros [Hn|Hn%list_elem_of_singleton]%elem_of_app; rewrite truncated_snoc; cbn [d_history]; rewrite Hf; [|subst; by rewrite String.eqb_refl].
  rewrite IH by done. by destruct (String.eqb t n).
Qed.
Lemma truncated_emptied ts ht y : Exists (λ t, history_table t = Some ht) ts →
  ∀ sfx T, h_tables (d_history (truncated ts y)) !! (ht, sfx) = Some T → t_at T = InParent → t_rows T = ∅.
Proof.
  induction ts as [|t ts IH] using rev_ind; [by intros ?%Exists_nil|]. rewrite Exists_app, Exists_cons, Exists_nil, truncated_snoc. cbn [d_history].
  intros Ht sfx T' HT Ha. destruct (truncate_history_tables _ _ _ _ HT) as (T & HT0 & Ha0 & Hr). destruct Ht as [Ht|[Ht|Ht]]; [| |done].
  - destruct Hr as [?|Hr]; [done|]. subst T. by eapply IH.
  - unfold truncate_history in HT. rewrite Ht in HT. cbn [set_tables h_tables] in HT. rewrite empty_rows_lookup, HT0 in HT. injection HT as <-.
    case_decide as Hd; [done|]. exfalso. by apply Hd.
Qed.

Ltac field_reset := let t := fresh in let s := fresh in intros t s; unfold truncate_history;
  match goal with |- _ = if String.eqb t ?n then _ else _ =>
    destruct (history_table t) eqn:?; [destruct (String.eqb_spec t n); [subst; done|done]|] end;
  destruct s; unfold forget;
  repeat match goal with |- context [String.eqb t ?n] => destruct (String.eqb_spec t n); subst; [try done|] end; try done.

Lemma wiped_blank y : let s := d_history (truncated wiped_tables y) in
  (∀ k T, h_tables s !! k = Some T → t_at T = InParent → t_rows T = ∅) ∧
  h_spans s = ∅ ∧ h_daily s = None ∧ h_missing s = [] ∧ h_backfilling s = false ∧ h_archives s = ∅.
Proof.
  cbn zeta. split_and!.
  - intros [ht sfx] T. apply truncated_emptied. destruct ht; computed.
  - apply (truncated_field h_spans "ledger_spans"); [field_reset|computed].
  - apply (truncated_field h_daily "daily_stats_watermark"); [field_reset|computed].
  - apply (truncated_field h_missing "missing_block_ranges"); [field_reset|computed].
  - apply (truncated_field h_backfilling "stats_backfill"); [field_reset|computed].
  - apply (truncated_field h_archives "history_archives"); [field_reset|computed].
Qed.

(** ** The wipe, statement by statement *)

Lemma dropped_lookup (l : list string) (m : gmap string (list string)) (t : string) : foldr delete m l !! t = if decide (t ∈ l) then None else m !! t.
Proof.
  induction l as [|u l IH]; [done|]. cbn [foldr]. destruct (decide (u = t)) as [->|].
  - rewrite lookup_delete_eq, decide_True; [done|left].
  - rewrite lookup_delete_ne, IH by done. apply decide_ext. rewrite elem_of_cons. naive_solver.
Qed.

Section Whole.
Context (out : nat → ending) (dependents : nat → bool).

Definition wspec {A} (P : chain_db → Prop) (m : W A) (Q : A → chain_db → Prop) (E : chain_db → Prop) : Prop :=
  ∀ k y, P y → match m k y with (_, y', Ok a) => Q a y' | (_, y', Err _) => E y' ∧ ¬ healthy out dependents end.

Lemma ws_bind {A B} (P : chain_db → Prop) (m : W A) (f : A → W B) (Q : A → chain_db → Prop) (R : B → chain_db → Prop) E :
  wspec P m Q E → (∀ a, wspec (Q a) (f a) R E) → wspec P (w_bind m f) R E.
Proof. intros Hm Hf k y Hp. unfold w_bind. specialize (Hm k y Hp). destruct (m k y) as [[k' y'] [a|e]]; [by apply Hf|done]. Qed.
Lemma ws_exec e e' (f : chain_db → res rerr chain_db) (E : chain_db → Prop) : f e = Ok e' → E e → E e' → wspec (λ y, y = e) (w_exec out f) (λ _ y, y = e') E.
Proof.
  intros Hf He He' k y ->. unfold w_exec, healthy. rewrite Hf. destruct (out k) eqn:Eo; [done| |]; (split; [done|]); intros [Hd _]; by rewrite Hd in Eo.
Qed.
Lemma ws_weaken {A} (P : chain_db → Prop) (m : W A) (Q : A → chain_db → Prop) (E E' : chain_db → Prop) : (∀ y, E y → E' y) → wspec P m Q E → wspec P m Q E'.
Proof. intros H Hm k y Hp. specialize (Hm k y Hp). destruct (m k y) as [[k' y'] [a|e]]; [done|]. destruct Hm. auto. Qed.

Lemma begun_drop l y : begun y → (∀ t, t ∈ l → t ∉ wiped_tables ∧ t ≠ WipeMarkTable) → begun (drop_tables_if_exist l y).
Proof.
  intros (Hm & Hu & Hs) Hl. assert (∀ t, t ∉ l → d_tables (drop_tables_if_exist l y) !! t = d_tables y !! t) as Hd.
  { intros t Ht. cbn [drop_tables_if_exist set_others d_tables]. by rewrite dropped_lookup, decide_False. }
  split; [|split; [done|]].
  - rewrite Hd; [done|]. intros Hin. by destruct (Hl _ Hin).
  - intros t Ht Hn. rewrite Hd; [by apply Hs|]. intros Hin. by destruct (Hl _ Hin).
Qed.
Lemma begun_verify v y : begun y → begun (set_verify v y).
Proof. done. Qed.
Lemma begun_truncated ts y : begun y → begun (truncated ts y).
Proof.
  intros (Hm & Hu & Hs). split; [|split].
  - rewrite truncated_rows. by case_decide.
  - clear Hm Hs. induction ts as [|t ts IH] using rev_ind; [done|]. rewrite truncated_snoc. by apply truncate_usable.
  - intros t Ht Hn. rewrite truncated_rows. case_decide; [done|]. by apply Hs.
Qed.
Lemma begun_insert t row y y' : begun y → insert_row t row y = Ok y' → begun y'.
Proof.
  intros (Hm & Hu & Hs). unfold insert_row. destruct (d_tables y !! t) eqn:E; [|done]. intros [= <-]. split; [|split; [done|]]; cbn [set_others d_tables].
  - rewrite lookup_insert. by case_decide.
  - intros u Hu' Hn. cbn [set_others d_tables]. rewrite lookup_insert. case_decide; [done|]. by apply Hs.
Qed.
Lemma begun_reset y : begun y → begun (reset_pruned y).
Proof. intros (Hm & [U1 U2 U3] & Hs). split; [done|]. by split. Qed.

Lemma truncate_all_spec ts y : begun y → (∀ t, t ∈ ts → t ∈ wiped_tables) →
  wspec (λ y', y' = y) (truncate_all out ts) (λ _ y', y' = truncated ts y) begun.
Proof.
  revert y. induction ts as [|t ts IH]; intros y Hy Hts; cbn [truncate_all]; [by intros k y' ->|].
  assert (truncate t y = Ok (truncated [t] y)) as Ht.
  { unfold truncate. destruct (history_table t) eqn:E; [done|]. assert (t ∈ wiped_tables) as Hw by (apply Hts; left). destruct Hy as (_ & _ & Hs). destruct (Hs t Hw E) as [r Hr]. by rewrite Hr. }
  eapply ws_bind; [apply (ws_exec y (truncated [t] y)); [done|done|by apply begun_truncated]|]. intros [].
  apply (IH (truncated [t] y)); [by apply begun_truncated|]. intros u Hu. apply Hts. by right.
Qed.

Lemma cover_spec y : begun y → blank (d_history y) →
  wspec (λ y', y' = y) (on_history (coverHistoryFromZero out dependents))
    (λ _ y', d_tables y' = d_tables y ∧ d_verify y' = d_verify y ∧ ok (d_history y') ∧ all_attached (d_history y')) begun.
Proof.
  intros (Hm & Hu & Hs) Hb k y' ->. unfold on_history. pose proof (cover_ok out dependents k (d_history y) (conj Hu Hb) I) as H.
  destruct (coverHistoryFromZero out dependents k (d_history y)) as [[k' h] [u|e]]; [by destruct H|]. destruct H as [[Hu' _] Hh]. done.
Qed.
End Whole.

(** After the truncates. *)
Record emptied (y : chain_db) : Prop := {
  em_tables : ∀ t, t ∈ wiped_tables → history_table t = None → d_tables y !! t = Some [];
  em_staged : ∀ t, t ∈ [DailyStatsRefillTable; AddressStatsRepairTable; addressStatsRepairTotalTable; rebase_stage] → d_tables y !! t = None;
  em_rows : ∀ k T, h_tables (d_history y) !! k = Some T → t_at T = InParent → t_rows T = ∅;
  em_rest : h_spans (d_history y) = ∅ ∧ h_daily (d_history y) = None ∧ h_missing (d_history y) = [] ∧ h_backfilling (d_history y) = false ∧ h_archives (d_history y) = ∅;
  em_verify : d_verify y !! addressRepairCursor = None ∧ ∀ n x, n ∈ check_progress → d_verify y !! n = Some x → x = 0 }.

(** The seeds, the watermark and the partitions put back, only the mark is left. *)
Lemma fresh_unmarked y6 y8 y : emptied y6 → begun y6 →
  d_tables y8 = <["indexer_progress" := [progress_seed]]> (<["sync_status" := [sync_seed]]> (d_tables y6)) → d_verify y8 = d_verify y6 →
  d_tables y = d_tables y8 → d_verify y = d_verify y8 → ok (d_history y) → all_attached (d_history y) →
  begun y ∧ fresh (drop_tables_if_exist [WipeMarkTable] y).
Proof.
  intros [E1 E2 E3 E4 E5] B Et8 Ev8 Et Ev [Hu [Hb1 Hb2 Hb3]] Ha.
  assert (∀ t, t ∈ wiped_tables → history_table t = None → d_tables y !! t = Some (seed t)) as Hseed.
  { intros t Ht Hn. rewrite Et, Et8. unfold seed. destruct (String.eqb_spec t "sync_status") as [->|Hne]; [by rewrite lookup_insert_ne, lookup_insert_eq by done|].
    destruct (String.eqb_spec t "indexer_progress") as [->|Hne']; [by rewrite lookup_insert_eq|]. rewrite !lookup_insert_ne by done. by apply E1. }
  assert (is_Some (d_tables y !! WipeMarkTable)) as Hm.
  { rewrite Et, Et8. rewrite !lookup_insert_ne by done. exact (proj1 B). }
  assert (begun y) as By by (split; [done|]; split; [done|]; intros t Ht Hn; by rewrite Hseed).
  split; [done|]. unfold drop_tables_if_exist. cbn [foldr].
  assert (∀ t, t ∈ wiped_tables → delete WipeMarkTable (d_tables y) !! t = d_tables y !! t) as Hkeep.
  { intros t Ht. apply lookup_delete_ne. intros <-. revert Ht. apply not_wiped. left. }
  split; cbn [set_others d_tables d_history d_verify].
  - split; [done|]. intros t Ht Hn. cbn [d_tables set_others]. rewrite Hkeep by done. by rewrite Hseed.
  - intros t Ht Hn. rewrite Hkeep by done. by apply Hseed.
  - intros k T HT. assert (t_at T = InParent) as Hat; [|by eauto]. destruct k as [t sfx]. destruct (us_tables _ Hu _ _ _ HT) as (p & Hp & _ & Hst).
    destruct (decide (t_at T = InParent)) as [|Hn]; [done|]. by destruct (Hst Hn (Ha p Hp)).
  - done.
  - destruct Hb2, Hb3 as (? & ? & ? & ? & ?). done.
  - intros t [->|Ht]%elem_of_cons; [by rewrite lookup_delete_eq|]. rewrite lookup_delete_ne.
    2: { intros <-. revert Ht. computed. }
    rewrite Et, Et8, !lookup_insert_ne; [by apply E2|..]; intros <-; revert Ht; computed.
  - rewrite Ev, Ev8. done.
Qed.

Lemma wipe_tail out dependents y6 : begun y6 → emptied y6 →
  wspec out dependents (λ y', y' = y6)
    (w_bind (w_exec out (insert_row "sync_status" sync_seed)) (λ _,
     w_bind (w_exec out (insert_row "indexer_progress" progress_seed)) (λ _,
     w_bind (w_exec out (λ y, Ok (reset_pruned y))) (λ _,
     w_bind (on_history (coverHistoryFromZero out dependents)) (λ _,
     w_exec out (λ y, Ok (drop_tables_if_exist [WipeMarkTable] y)))))))
    (λ _ y', fresh y') (λ y', begun y' ∨ fresh y').
Proof.
  intros B E. pose proof E as [E1 E2 E3 E4 E5].
  set (y7 := set_others (<["sync_status" := [sync_seed]]> (d_tables y6)) y6).
  assert (insert_row "sync_status" sync_seed y6 = Ok y7) as I7.
  { unfold insert_row. rewrite E1; [done|computed|done]. }
  pose proof (begun_insert _ _ _ _ B I7) as B7.
  eapply ws_bind; [apply (ws_exec _ _ y6 y7); [done|by left..]|]. intros [].
  set (y8 := set_others (<["indexer_progress" := [progress_seed]]> (d_tables y7)) y7).
  assert (insert_row "indexer_progress" progress_seed y7 = Ok y8) as I8.
  { unfold insert_row. cbn [y7 set_others d_tables]. rewrite lookup_insert_ne by done. rewrite E1; [done|computed|done]. }
  pose proof (begun_insert _ _ _ _ B7 I8) as B8.
  eapply ws_bind; [apply (ws_exec _ _ y7 y8); [done|by left..]|]. intros [].
  set (y9 := reset_pruned y8). assert (begun y9) as B9 by by apply begun_reset.
  eapply ws_bind; [apply (ws_exec _ _ y8 y9); [done|by left..]|]. intros [].
  assert (blank (d_history y9)) as Hb by (split; [exact E3|done|exact E4]).
  eapply ws_bind; [eapply ws_weaken; [|by apply cover_spec]; by left|]. intros [] k y (Et & Ev & Hok & Ha).
  destruct (fresh_unmarked y6 y8 y) as [By Hf]; [done..|]. 
  assert (wspec out dependents (λ y', y' = y) (w_exec out (λ y, Ok (drop_tables_if_exist [WipeMarkTable] y)))
    (λ _ y', y' = drop_tables_if_exist [WipeMarkTable] y) (λ y', begun y' ∨ fresh y')) as H by (apply ws_exec; [done|by left|by right]).
  specialize (H k y eq_refl). destruct (w_exec _ _ _ _) as [[k' y'] [u|e]]; [|done]. by rewrite H.
Qed.

Lemma reset_progress_lookup (v : gmap string Z) n x : reset_progress v !! n = Some x → n ∈ check_progress → x = 0.
Proof. unfold reset_progress. rewrite map_lookup_imap. destruct (v !! n); [|done]. cbn. case_decide; [|done]. by intros [= <-]. Qed.

Lemma wipe_spec (out : nat → ending) (dependents : nat → bool) k y : sound y →
  match WipeAllData out dependents k y with
  | (_, y', Ok _) => fresh y'
  | (_, y', Err _) => (y' = y ∨ begun y' ∨ fresh y') ∧ ¬ healthy out dependents
  end.
Proof.
  intros [Hu Hs]. set (E := λ y', y' = y ∨ begun y' ∨ fresh y').
  assert (wspec out dependents (λ y', y' = y) (WipeAllData out dependents) (λ _ y', fresh y') E) as H; [|exact (H k y eq_refl)].
  unfold WipeAllData. apply (ws_bind _ _ _ _ _ (λ _ y', y' = y)).
  { intros k0 y0 ->. unfold on_history, gate, exec, healthy. destruct (out k0) eqn:Eo; destruct y; cbn; [done| |]; (split; [by left|]); intros [Hd _]; by rewrite Hd in Eo. }
  intros []. set (y1 := set_others (<[WipeMarkTable := default [] (d_tables y !! WipeMarkTable)]> (d_tables y)) y).
  assert (begun y1) as B1.
  { split; [cbn; by rewrite lookup_insert_eq|]. split; [done|]. intros t Ht Hn. cbn [y1 set_others d_tables]. rewrite lookup_insert. case_decide; [done|]. by apply Hs. }
  eapply ws_bind; [apply (ws_exec _ _ y y1); [done|by left|by right; left]|]. intros [].
  apply (ws_weaken _ _ _ _ _ (λ y', begun y' ∨ fresh y')); [by right|].
  set (y2 := drop_tables_if_exist [DailyStatsRefillTable; AddressStatsRepairTable; addressStatsRepairTotalTable] y1).
  assert (begun y2) as B2.
  { apply begun_drop; [done|]. intros t Ht. split; [apply not_wiped; set_solver|]. intros ->. revert Ht. computed. }
  eapply ws_bind; [apply (ws_exec _ _ y1 y2); [done|by left..]|]. intros [].
  set (y3 := set_verify (delete addressRepairCursor (d_verify y2)) y2). assert (begun y3) as B3 by done.
  eapply ws_bind; [apply (ws_exec _ _ y2 y3); [done|by left..]|]. intros [].
  set (y4 := set_verify (reset_progress (d_verify y3)) y3). assert (begun y4) as B4 by done.
  eapply ws_bind; [apply (ws_exec _ _ y3 y4); [done|by left..]|]. intros [].
  set (y5 := drop_tables_if_exist [rebase_stage] y4).
  assert (begun y5) as B5.
  { apply begun_drop; [done|]. intros t Ht. split; [apply not_wiped; set_solver|]. intros ->. revert Ht. computed. }
  eapply ws_bind; [apply (ws_exec _ _ y4 y5); [done|by left..]|]. intros [].
  set (y6 := truncated wiped_tables y5). assert (begun y6) as B6 by by apply begun_truncated.
  eapply ws_bind; [eapply ws_weaken; [|by apply truncate_all_spec]; by left|]. intros []. fold y6.
  apply wipe_tail; [done|]. subst y6. destruct (wiped_blank y5) as [R1 R2]. split; [|  |exact R1|exact R2|].
  - intros t Ht Hn. rewrite truncated_rows, decide_True by done. done.
  - intros t Ht. rewrite truncated_rows, decide_False by (intros [Ht' _]; revert Ht'; apply not_wiped; by right).
    unfold y5, drop_tables_if_exist. cbn [set_others d_tables]. rewrite dropped_lookup. case_decide as Hn; [done|].
    unfold y4, y3, y2, drop_tables_if_exist. cbn [set_others set_verify d_tables]. rewrite dropped_lookup, decide_True; [done|].
    clear -Ht Hn. rewrite !elem_of_cons in *. tauto.
  - rewrite truncated_verify. cbn [y5 y4 y3 drop_tables_if_exist set_others set_verify d_verify]. split; [|intros n x Hn Hx; by eapply reset_progress_lookup].
    unfold reset_progress. rewrite map_lookup_imap. by rewrite lookup_delete_eq.
Qed.

(** ** Starts *)

(** Between starts: the old database untouched, one whose wipe is not over, or an empty one. *)
Definition between (y0 y : chain_db) : Prop := y = y0 ∨ begun y ∨ fresh y.

Lemma fresh_unmarked_bit y : fresh y → marked y = false.
Proof. intros F. unfold marked. rewrite (fr_staged y F) by left. done. Qed.

Lemma resume_spec (out : nat → ending) (dependents : nat → bool) k y0 y : sound y0 → marked y0 = false → between y0 y →
  match ResumeInterruptedWipe out dependents k y with
  | (_, y', Ok _) => y' = y0 ∨ fresh y'
  | (_, y', Err _) => between y0 y' ∧ ¬ healthy out dependents
  end.
Proof.
  intros H0 Hm Hb. unfold ResumeInterruptedWipe, w_bind, w_query, healthy.
  destruct (out k) eqn:Eo; [|split; [done|]; intros [Hd _]; by rewrite Hd in Eo..].
  destruct Hb as [->|[Hy|Hy]]; [by rewrite Hm; left| |by rewrite fresh_unmarked_bit by done; right].
  pose proof Hy as [Hmark Hs]. unfold marked. rewrite bool_decide_eq_true_2 by done.
  pose proof (wipe_spec out dependents (S k) y Hs) as H. destruct (WipeAllData _ _ _ _) as [[k' y'] [u|e]]; [by right|].
  destruct H as [[->|H] Hh]; split; try done; [by right; left|by right].
Qed.

Lemma start_once_spec a y0 y : sound y0 → marked y0 = false → between y0 y →
  match start_once a y with
  | (y', true) => fresh y' ∨ (y' = y0 ∧ a_wants a = false)
  | (y', false) => between y0 y' ∧ ¬ healthy (a_out a) (a_dependents a)
  end.
Proof.
  intros H0 Hm Hb. unfold start_once. pose proof (resume_spec (a_out a) (a_dependents a) 0 y0 y H0 Hm Hb) as H.
  destruct (ResumeInterruptedWipe _ _ _ _) as [[k y1] [u|e]]; [|done]. destruct (a_wants a); [|by destruct H; [right|left]].
  assert (sound y1) as Hs by (destruct H as [->|H]; [done|by apply fr_sound]).
  pose proof (wipe_spec (a_out a) (a_dependents a) k y1 Hs) as Hw. destruct (WipeAllData _ _ _ _) as [[k' y2] [v|e]]; [by left|].
  destruct Hw as [[->|Hw] Hh]; (split; [|done]); [|by right]. destruct H as [->|H]; [by left|by right; right].
Qed.

Lemma failed_starts_spec l y0 y1 y : sound y0 → marked y0 = false → between y0 y1 → failed_starts l y1 = Some y → between y0 y.
Proof.
  intros H0 Hm. revert y1. induction l as [|b l IH]; intros y1 Hb; cbn [failed_starts]; [by intros [= <-]|].
  pose proof (start_once_spec b y0 y1 H0 Hm Hb) as Hs. destruct (start_once b y1) as [y2 [|]]; [done|]. apply IH. apply Hs.
Qed.

(** C22: a wipe stopped anywhere is finished before anything runs on its database.
    However many starts in a row fail before or inside a wipe (any statement failing or
    losing its answer, objects that depend on a range), the database is the old one
    untouched, or carries the mark of a wipe, or is empty; a start that gets past its
    wipe finds it empty (every table but the seeded rows, every partition, the staged and
    the detached ones included), or untouched if it had no wipe to do; and a start no
    statement of which fails gets past it. *)
Theorem interrupted_wipe_finishes (starts : list attempt) (a : attempt) (y0 y : chain_db) :
  sound y0 → marked y0 = false → failed_starts starts y0 = Some y →
  (y = y0 ∨ marked y = true ∨ fresh y) ∧
  ((start_once a y).2 = true → fresh (start_once a y).1 ∨ ((start_once a y).1 = y0 ∧ a_wants a = false)) ∧
  (healthy (a_out a) (a_dependents a) → (start_once a y).2 = true).
Proof.
  intros H0 Hm Hf. assert (between y0 y) as Hb by (apply (failed_starts_spec starts y0 y0 y); [done|done|by left|done]).
  split; [|pose proof (start_once_spec a y0 y H0 Hm Hb) as Hs; destruct (start_once a y) as [y' [|]]; cbn; [by auto|]; by destruct Hs].
  destruct Hb as [->|[[Hmk _]|?]]; [by left|right; left|by right; right]. unfold marked. by rewrite bool_decide_eq_true_2.
Qed.

(** A database whose history is cut, with a range being detached. *)
Definition old_history : history :=
  mkHistory [mkPart None (Some 500) Detaching; mkPart (Some 500) (Some 1000) Attached]
    (foldr (λ t m, <[(t, None) := mkTable Pending {[ 7 := 70 ]}]> (<[(t, Some 500) := mkTable InParent {[ 600 := 60 ]}]> m)) ∅ HistoryTables)
    499 70 {[ 500 ]} (Some 600) [(610, 620)] false ∅ ∅.
Definition old_db : chain_db :=
  mkDb old_history (foldr (λ t m, <[t := ["a row"%string]]> m) ∅ (filter (λ t, history_table t = None) wiped_tables ++ [DailyStatsRefillTable; rebase_stage])%list)
    {[ addressRepairCursor := 7; "running_cycles"%string := 3 ]}.
(** The first start stops at its twelfth statement, the second at its thirtieth. *)
Definition stopped_at (n : nat) : attempt := mkAttempt (λ k, if decide (k < n)%nat then Done else Fails) (λ _, false) true.
Definition quiet_start : attempt := mkAttempt (λ _, Done) (λ _, false) false.

Lemma old_db_sound : sound old_db.
Proof.
  split.
  - split.
    + computed.
    + intros p lo Hp. unfold old_db, old_history in Hp. cbn [d_history h_parts] in Hp. rewrite !elem_of_cons in Hp.
      destruct Hp as [->|[->|Hp]]; [done| |by apply not_elem_of_nil in Hp]. intros [= <-]. eexists. split; [done|lia].
    + intros t sfx T HT. assert (map_Forall (λ k T, Exists (λ p, p_lo p = k.2 ∧ (t_at T ≠ InParent → p_state p ≠ Attached)) (h_parts old_history)) (h_tables old_history)) as H by computed.
      specialize (H _ _ HT). apply Exists_exists in H as (p & Hp & H1 & H2). eauto.
  - assert (Forall (λ t, history_table t = None → is_Some (d_tables old_db !! t)) wiped_tables) as H by computed.
    rewrite Forall_forall in H. exact H.
Qed.

Lemma interrupted_wipe_finishes_witness :
  ∃ y, failed_starts [stopped_at 12; stopped_at 30] old_db = Some y ∧ marked y = true ∧
    (start_once quiet_start y).2 = true ∧ fresh (start_once quiet_start y).1.
Proof.
  destruct (failed_starts [stopped_at 12; stopped_at 30] old_db) as [y|] eqn:E; [|exfalso; revert E; vm_compute; discriminate].
  destruct (interrupted_wipe_finishes _ quiet_start old_db y old_db_sound ltac:(by vm_compute) E) as (H1 & H2 & H3).
  exists y. assert (marked <$> failed_starts [stopped_at 12; stopped_at 30] old_db = Some true) as Em by (by vm_compute). rewrite E in Em. injection Em as Em.
  split; [done|]. split; [done|]. assert ((start_once quiet_start y).2 = true) as Hp by (apply H3; by split). split; [done|].
  destruct (H2 Hp) as [?|[Hy _]]; [done|]. exfalso.
  assert ((λ y, d_tables (start_once quiet_start y).1 !! DailyStatsRefillTable) <$> failed_starts [stopped_at 12; stopped_at 30] old_db = Some None) as Ed by (by vm_compute).
  rewrite E in Ed. injection Ed as Ed. rewrite Hy in Ed. revert Ed. vm_compute. discriminate.
Defined.
